(* ===== verification/_CoqProject ===== *)
-Q . S2P
Prelude.v
AtomicComputation.v
AtomicComputationList.v
FindSource.v
TcapText.v
TcapRoundtrip.v
LogicalPlan.v
TupleSet.v
TupleSetOwnership.v
TupleSetSpec.v
Executors.v
Probing.v
Allocation.v
SinkState.v
JoinPairArray.v
Multimap.v
JoinTuple.v
JoinSinks.v
JoinProbe.v
BroadcastJoin.v
PDBMap.v
PDBVector.v
AggSinks.v
Processors.v
AggSinksSpec.v
Aggregation.v
Hashing.v
SizePolicy.v
Sources.v
Pipeline.v
PipelineSpec.v
PipelineTermination.v
SetPipeline.v
PriorityQueue.v
ShuffleJoin.v
ShuffleRhsSpec.v
ShuffleJoinSpec.v
TupleSetSplit.v
ShuffleSpec.v
ShufflePages.v
ShuffleDrive.v
BufferManager.v
BufferManagerPool.v
BufferManagerInv.v
BufferManagerEvict.v
BufferManagerPages.v
BufferManagerOps.v
BufferManagerGet.v
BufferManagerDrop.v
BufferManagerSpec.v
BufferManagerCases.v
AbstractPageSet.v
FeedingPageSet.v
FeedingPageSetSpec.v
AnonymousPageSet.v
SetPageSet.v
PageNetwork.v
PageSetCases.v
StorageHandlers.v
StorageSpec.v
StorageCases.v
StorageBackend.v
PhysicalNodes.v
PhysicalOptimizer.v
PhysicalInv.v
PhysicalSteps.v
PhysicalBuild.v
PhysicalSpec.v
PhysicalCases.v
Allocator.v
AllocatorInv.v
AllocatorOps.v
AllocatorRefine.v
AllocatorCases.v
Handles.v
HandlesMem.v
HandlesCopy.v
HandlesRecord.v
HandlesCases.v
