(* ===== verification/Prelude.v ===== *)
(** * PlinyCompute: a verification development of the query processing core

    PlinyCompute compiles a query to TCAP, a textual plan of atomic
    computations over tuple sets; plans it physically; and runs each stage as
    pipelines of sources, executors and sinks over pages of memory, in which
    C++ objects are allocated until the page is full (NotEnoughSpace).  All
    paths below are under src/pdb/src.

    ** Parts and files

    - Plans.  [AtomicComputation] (logicalPlan/headers/TupleSpec.h, AttList.h,
      AtomicComputationClasses.h), [AtomicComputationList]
      (its indexes of producers and consumers), [FindSource] (where an
      attribute comes from), [TcapText], [TcapRoundtrip]
      (writeOut against Lexer.l, Parser.y and ParserHelperFunctions.cc) and
      [LogicalPlan] (LogicalPlan.cc).
    - Tuple sets and executors.  [TupleSet], [TupleSetOwnership],
      [TupleSetSpec] (pipeline/headers/TupleSet.h: columns are pointers into a
      store of vectors, with the functions that own them) and [Executors]
      (pipeline/headers/executors/).
    - Hash tables and vectors on a page.  [Probing] and [Allocation] are
      shared; [JoinPairArray], [Multimap] (JoinPairArray.cc,
      JoinMap.cc, JoinMap.h), [PDBMap] (PairArray.cc, PDBMap.cc),
      [Hashing] (the hash functions), [PDBVector] (Array.cc,
      PDBVector.cc).
    - Joins.  [JoinTuple] (JoinTuple.h), [JoinSinks] (sinks/JoinSink.h,
      BroadcastJoinCombinerSink.h), [JoinProbe]
      (executors/JoinProbeExecutor.h) and
      [BroadcastJoin], which puts them together.
    - Aggregation and sets.  [SinkState], [AggSinks], [AggSinksSpec]
      (sinks/), [Processors] (processors/, AggregationPipeline.cc,
      JoinBroadcastPipeline.cc) and [Aggregation], which puts them together.
    - Pipelines.  [SizePolicy] (PDBTupleSetSizePolicy.cc), [Sources]
      (sources/), [Pipeline] (Pipeline.cc),
      [PipelineSpec], [PipelineTermination] and [SetPipeline], which runs a
      pipeline over a set with the source, policy and sink modelled here.
    - Physical optimizer.  [PhysicalNodes] (the nodes of a physical plan, and how
      each plans itself: computationServer/.../physicalOptimizer/
      PDBAbstractPhysicalNode.h and its subclasses), [PhysicalOptimizer]
      (PDBPipeNodeBuilder.cc, PDBPhysicalOptimizer.cc and the loop of
      PDBComputationServerFrontend.cc), and its proofs: [PhysicalInv] (the
      invariant of planning), [PhysicalSteps] (planning a source keeps it),
      [PhysicalBuild] (the builder), [PhysicalSpec] (what planning promises for
      plans without unions) and [PhysicalCases] (a plan, and what goes wrong
      with unions).
    - Shuffled joins.  [PriorityQueue] (std::priority_queue as an interface),
      [ShuffleJoin] (sources/RHSShuffleJoinSource.h, JoinedShuffleJoinSource.h),
      and its proofs: [ShuffleRhsSpec] (the right source), [ShuffleJoinSpec] (the
      rows for its hashes), [TupleSetSplit] (what split and merge do to rows),
      [ShuffleSpec] (a call), [ShufflePages] (the constructors, and pages as the
      rows written to them) and [ShuffleDrive] (all calls; runs, and what goes
      wrong).
    - Buffer manager.  [BufferManager] (PDBBufferManagerImpl.cc, PDBPage.cc:
      pages, memory, files, and every operation on them), and its proofs:
      [BufferManagerPool] (how memory is divided), [BufferManagerInv] (regions of
      files, the invariant, and the bytes of a page wherever they are),
      [BufferManagerEvict], [BufferManagerPages] (getting memory),
      [BufferManagerOps], [BufferManagerGet], [BufferManagerDrop] (kinds of
      operations), [BufferManagerSpec] (the start, and sequences of requests) and
      [BufferManagerCases] (runs, and what goes wrong).
    - Object allocator.  [Allocator] (objectModel/headers/Allocator.cc: blocks, free
      lists and policies over the words of memory), [AllocatorInv] (arenas of
      objects, the invariant, and inactive blocks), [AllocatorOps] (getting and
      freeing memory), [AllocatorRefine] (every request; UseTemporaryAllocationBlock.h
      is its stack of saved states) and [AllocatorCases].
    - Object model.  [Handles] (Handle.cc, RefCountedObject.cc, PDBTemplateBase.cc,
      DeepCopy.h, Record.cc, InterfaceFunctions.cc and parts of PDBString.cc, on
      the allocator's memory), [HandlesMem] (bytes that move, and values of
      objects), [HandlesCopy] (deletion and deep copies of trees of objects),
      [HandlesRecord] (records) and [HandlesCases].
    - Page sets.  [AbstractPageSet] (the interface of page sets and the laws its
      clients rely on), [FeedingPageSet] (PDBFeedingPageSet.cc: feeders and
      readers as threads that take steps), [FeedingPageSetSpec] (the log it
      refines), [AnonymousPageSet], [SetPageSet] (PDBAnonymousPageSet.cc,
      PDBSetPageSet.cc) and [PageSetCases].
    - Page network.  [PageNetwork] (PDBPageNetworkSender.cc,
      PDBPageSelfReceiver.cc and the handlers of StoStartFeedingPageSetRequest on
      both sides).
    - Storage manager.  [StorageHandlers] (PDBStorageManagerFrontend.cc: the
      pages of stored sets, and its handlers as programs whose regions are
      interleaved), [StorageSpec] (the table of pages they refine, the invariant,
      and that every handler keeps to it), [StorageCases]
      (runs, and the file storage.pdb) and [StorageBackend] (PDBStorageManagerBackend.cc, and a page
      set stored by both sides together).
    ** How code becomes definitions

    A method is a function in [M S]: state passing, with the exceptions, the
    calls of exit, undefined behaviour and use of too little fuel as outcomes.
    Loops are recursions over what they run through; where a loop has no such
    bound the recursion has fuel, and a theorem says how much is enough.
    Integers are Z with their wrap-around written out.  Above
    the object model, an object is its contents, except where the code shares
    mutable state (column vectors in [TupleSet], computations in
    [AtomicComputationList], objects in [MapTupleSetIterator]).
    Where a page may be full, the state carries the allocator's answers, a list
    of booleans that every allocation consumes; theorems hold for all lists.
    User code (lambdas, the hash, equality and addition of keys and values,
    executors of a pipeline) is a parameter.

    Threads are interleaved where the code shares state between them: a lock
    makes what is done under it one step, and theorems hold for every order of
    the steps.  What the other end of a connection does is a script that the
    theorems quantify over.

    Components meet at interfaces: [PageMerger] (a ComputeSink that merges
    pages), [PipelineParts] (what Pipeline::run calls), [PriorityQueue],
    [PDBAbstractPageSet] with its laws, [FiniteSource] (what makes it end); the sinks and sources are instances of them.

    ** What is shown

    - Data structures refine their specification: a JoinMap a multimap, a Map
      a finite map, a Vector a list, through doublings and full pages.
    - Sinks write every row exactly once; on a full page exactly the rows that
      were written leave the input, so that the next page gets the others.
    - End to end: a broadcast join finds the matches, an aggregation adds up, a
      pipeline over a set writes every row's result, and a pipeline deals with
      every page it took and ends.
    - Plans: findSource gives the provenance of an attribute, printing and
      parsing round trip, the plan's nodes are found under their names.
    - Tuple sets: no column vector is deleted twice and none is lost.
    - Physical optimizer: it builds and plans to an end, in whatever order the
      sources come up; every algorithm reads page sets that exist and were
      created before, nothing is removed that is still read, nothing is left,
      and the sets of the plan are stored once each.
    - A shuffled join hands out every pair of rows with the same hash once, in
      chunks, as long as the left side does not end before the right one.
    - Buffer manager: whatever clients request within the rules of [allowed],
      the bytes they stored are found again, pinned pages stay where they are,
      pages do not overlap, and nothing faults; the process exits only when no
      memory can be had.
    - Object allocator: it serves every request that clients may make as arenas
      of objects would, live objects never share a byte, freed memory is used
      again, and NotEnoughSpace means that there is no room.
    - Object model: a deep copy has the value of the original and is made of new
      objects of the block, all of which the last handle frees; a failed one
      leaves nothing; a record is read as the same value wherever its bytes are
      moved.
    - Page sets: every reader is handed every page in order, whatever the order
      of calls and wake-ups, waits only when it has to, and pages are kept
      exactly as long as they are needed; pages sent by another node arrive, and
      a feeder finishes however its connection breaks.
    - Storage manager: whatever the interleaving of its handlers, a page is given
      to one of them at a time, the pages that are listed are those that were
      stored, and sizes add up; both sides together store a page set whole; the
      file for a restart is read as it was written.
    - Errors: where the code does not do what it means to, a theorem shows the
      case (rows counted twice or lost after a full page, a plan that does not
      parse, an overrun after shrink_to_fit, and others).

    ** Fuel and bounds

    The run of a pipeline needs a hundred and one rounds for each row and page
    of its source ([pipeline_ends]); findSource the rank of the tuple set in
    the plan; the scanner the length of the text; iteration over a map its
    number of slots.  Each is a theorem.  Counts of rows in an [int] are
    assumed below 2^31 where a theorem needs it.

    ** Not modelled

    The table of virtual functions (VTableMap.cc), the metadata file of the buffer manager and its threads (one runs), the catalog (SQLite), the servers, the
    communication and the client (sockets and threads), the lambdas and computations (templates over user code).  setUpAndCopyFrom and
    destructors of the built-in objects, which move raw bytes, appear only as
    copies of contents.
*)

From stdpp Require Export base gmap strings list fin_maps sorting.
From Stdlib Require Export ZArith Lia.

(** ** Outcomes of running C++ code

    A call ends normally, throws a C++ exception, calls [exit], or does
    something the C++ standard gives no meaning to.  The first three leave a
    state behind; the last one does not.  [NoFuel] is not an outcome of the
    code: a function whose recursion is not structural takes a fuel argument
    and answers [NoFuel] when it is used up. *)
Inductive exn :=
| RuntimeError (what : string)
| NotEnoughSpace
| LengthError
| BadFunctionCall.

Inductive fault :=
| NullDeref
| UseAfterFree
| DoubleFree
| OutOfRange
| BadCast
| EndIteratorDeref
| EmptyTop
| DivisionByZero
| AssertFailed
| InvalidComparator
| InvalidRead
| InvalidFree
| UndefinedBuiltin.

Inductive outcome (S A : Type) : Type :=
| Ok (a : A) (s : S)
| Raise (e : exn) (s : S)
| Exit (s : S)
| Fault (f : fault)
| NoFuel.
Arguments Ok {S A} _ _.
Arguments Raise {S A} _ _.
Arguments Exit {S A} _.
Arguments Fault {S A} _.
Arguments NoFuel {S A}.

(** Stateful, fallible computations. *)
Definition M (S A : Type) : Type := S -> outcome S A.

#[export] Instance M_ret S : MRet (M S) := fun A a s => Ok a s.
Definition bind {S A B} (m : M S A) (k : A -> M S B) : M S B := fun s =>
  match m s with
  | Ok a s' => k a s'
  | Raise e s' => Raise e s'
  | Exit s' => Exit s'
  | Fault f => Fault f
  | NoFuel => NoFuel
  end.

Declare Scope pliny_scope.
Delimit Scope pliny_scope with pliny.
Notation "x <- m ;; k" := (bind m (fun x => k))
  (at level 100, m at next level, right associativity) : pliny_scope.
Open Scope pliny_scope.

Definition get {S} : M S S := fun s => Ok s s.
Definition put {S} (s' : S) : M S unit := fun _ => Ok tt s'.
Definition modify {S} (f : S -> S) : M S unit := fun s => Ok tt (f s).
Definition gets {S A} (f : S -> A) : M S A := fun s => Ok (f s) s.
Definition throw {S A} (e : exn) : M S A := fun s => Raise e s.
Definition exit {S A} : M S A := fun s => Exit s.
Definition ub {S A} (f : fault) : M S A := fun _ => Fault f.
(** [try body handler]: the handler sees the state the exception left. *)
Definition try {S A} (m : M S A) (h : exn -> M S A) : M S A := fun s =>
  match m s with
  | Raise e s' => h e s'
  | o => o
  end.
(** Reading through a pointer or an index that may not be there. *)
Definition unwrap {S A} (f : fault) (o : option A) : M S A :=
  match o with Some a => mret a | None => ub f end.

(** A range-based [for] over a sequence fixed before the loop starts. *)
Fixpoint for_each {S A} (l : list A) (body : A -> M S unit) : M S unit :=
  match l with
  | [] => mret tt
  | x :: l' => _ <- body x ;; for_each l' body
  end.

(** ** Reasoning about runs

    [wp tol m Q s]: [m] run in [s] either ends normally with [Q], or fails in a
    way [tol] tolerates.  [total] tolerates nothing, [safe_of f] everything but
    the fault [f]. *)
Inductive failure :=
| FRaise (e : exn)
| FExit
| FFault (f : fault)
| FNoFuel.

Definition wp {S A} (tol : failure -> Prop) (m : M S A) (Q : A -> S -> Prop) (s : S) : Prop :=
  match m s with
  | Ok a s' => Q a s'
  | Raise e _ => tol (FRaise e)
  | Exit _ => tol FExit
  | Fault f => tol (FFault f)
  | NoFuel => tol FNoFuel
  end.
Definition total : failure -> Prop := fun _ => False.
Definition safe_of (f : fault) : failure -> Prop := fun x => x <> FFault f.

(** [wpx m Q E s]: [m] run in [s] ends normally with [Q] or throws with [E],
    and nothing else. *)
Definition wpx {S A} (m : M S A) (Q : A -> S -> Prop) (E : exn -> S -> Prop) (s : S) : Prop :=
  match m s with
  | Ok a s' => Q a s'
  | Raise e s' => E e s'
  | _ => False
  end.

(** ** Machine integers *)
Definition wrapu (w z : Z) : Z := (z mod 2 ^ w)%Z.
Definition u64 (z : Z) : Z := wrapu 64 z.
Definition u32 (z : Z) : Z := wrapu 32 z.
Lemma wrapu_small w z : (0 <= z < 2 ^ w)%Z -> wrapu w z = z.
Proof. intros Hz. unfold wrapu. by apply Z.mod_small. Qed.
(** Two's complement narrowing, as every supported compiler does it. *)
Definition i32 (z : Z) : Z := ((z + 2 ^ 31) mod 2 ^ 32 - 2 ^ 31)%Z.
Lemma i32_small z : (0 <= z < 2 ^ 31)%Z -> i32 z = z.
Proof. intros Hz. unfold i32. rewrite Z.mod_small; lia. Qed.

(** ** Positions of names in lists *)
Fixpoint find_pos (x : string) (l : list string) : option nat :=
  match l with
  | [] => None
  | y :: l' => if bool_decide (y = x) then Some 0 else S <$> find_pos x l'
  end.

(** [std::vector::resize]: cut, or extend with the default element. *)
Definition vec_resize {A} (d : A) (n : nat) (l : list A) : list A :=
  take n l ++ replicate (n - length l) d.

(** * Lemmas *)

Section monad_lemmas.
Context {S A B : Type}.
Implicit Types s : S.

Lemma bind_Ok_inv (m : M S A) (k : A -> M S B) s b s' :
  bind m k s = Ok b s' ->
  exists a s1, m s = Ok a s1 /\ k a s1 = Ok b s'.
Proof.
  unfold bind. destruct (m s) eqn:E; try discriminate. eauto.
Qed.

Lemma bind_Ok (m : M S A) (k : A -> M S B) s a s1 :
  m s = Ok a s1 -> bind m k s = k a s1.
Proof. unfold bind. by intros ->. Qed.
Lemma bind_Fault (m : M S A) (k : A -> M S B) s f : m s = Fault f -> bind m k s = Fault f.
Proof. unfold bind. by intros ->. Qed.

Lemma bind_assoc {C} (m : M S A) (k : A -> M S B) (h : B -> M S C) s :
  bind (bind m k) h s = bind m (fun a => bind (k a) h) s.
Proof. unfold bind. by destruct (m s). Qed.

Lemma unwrap_Ok_inv f (o : option A) s a s' :
  unwrap f o s = Ok a s' -> o = Some a /\ s' = s.
Proof. destruct o; unfold unwrap, ub, mret, M_ret; intros [=]; by subst. Qed.
End monad_lemmas.

Section wp_lemmas.
Context {S : Type} (tol : failure -> Prop).
Implicit Types s : S.

Lemma wp_mret {A} (a : A) (Q : A -> S -> Prop) s : Q a s -> wp tol (mret a) Q s.
Proof. done. Qed.

Lemma wp_bind {A B} (m : M S A) (k : A -> M S B) Q s :
  wp tol m (fun a s' => wp tol (k a) Q s') s -> wp tol (bind m k) Q s.
Proof. unfold wp, bind. by destruct (m s). Qed.

Lemma wp_assoc {A B C} (m : M S A) (k : A -> M S B) (h : B -> M S C) Q s :
  wp tol (bind (bind m k) h) Q s -> wp tol (bind m (fun a => bind (k a) h)) Q s.
Proof. unfold wp. by rewrite bind_assoc. Qed.

Lemma wp_mono {A} (m : M S A) (Q Q' : A -> S -> Prop) s :
  wp tol m Q s -> (forall a s', Q a s' -> Q' a s') -> wp tol m Q' s.
Proof. unfold wp. destruct (m s); auto. Qed.

Lemma wp_get (Q : S -> S -> Prop) s : Q s s -> wp tol get Q s.
Proof. done. Qed.
Lemma wp_put s' (Q : unit -> S -> Prop) s : Q tt s' -> wp tol (put s') Q s.
Proof. done. Qed.
Lemma wp_modify f (Q : unit -> S -> Prop) s : Q tt (f s) -> wp tol (modify f) Q s.
Proof. done. Qed.

Lemma wp_Ok {A} (m : M S A) Q s a s' : wp tol m Q s -> m s = Ok a s' -> Q a s'.
Proof. unfold wp. intros H E. by rewrite E in H. Qed.

Lemma wp_eq {A} (m : M S A) (Q : A -> S -> Prop) s a s' :
  m s = Ok a s' -> Q a s' -> wp tol m Q s.
Proof. unfold wp. by intros ->. Qed.

Lemma wp_unwrap {A} f (o : option A) (Q : A -> S -> Prop) s :
  (o = None -> tol (FFault f)) -> (forall a, o = Some a -> Q a s) -> wp tol (unwrap f o) Q s.
Proof. unfold wp, unwrap. destruct o; simpl; auto. Qed.

(** A loop with an invariant indexed by the elements done and to do. *)
Lemma wp_for_each {A} (body : A -> M S unit) (I : list A -> list A -> S -> Prop) :
  (forall pre x l s, I pre (x :: l) s -> wp tol (body x) (fun _ s' => I (pre ++ [x]) l s') s) ->
  forall l pre s, I pre l s -> wp tol (for_each l body) (fun _ s' => I (pre ++ l) [] s') s.
Proof.
  intros Hb l. induction l as [|x l IH]; intros pre s HI; simpl.
  - apply wp_mret. by rewrite app_nil_r.
  - apply wp_bind. eapply wp_mono; [by apply Hb|]. intros [] s' HI'.
    apply IH in HI'. by rewrite <- app_assoc in HI'.
Qed.
End wp_lemmas.

Lemma wp_total {S A} (m : M S A) Q (s : S) : wp total m Q s <-> exists a s', m s = Ok a s' /\ Q a s'.
Proof. unfold wp, total. destruct (m s); naive_solver. Qed.

Section wpx_lemmas.
Context {S : Type}.
Implicit Types s : S.

Lemma wpx_bind {A B} (m : M S A) (k : A -> M S B) Q E s :
  wpx m (fun a s' => wpx (k a) Q E s') E s -> wpx (bind m k) Q E s.
Proof. unfold wpx, bind. by destruct (m s). Qed.

Lemma wpx_assoc {A B C} (m : M S A) (k : A -> M S B) (h : B -> M S C) Q E s :
  wpx (bind (bind m k) h) Q E s -> wpx (bind m (fun a => bind (k a) h)) Q E s.
Proof. unfold wpx. by rewrite bind_assoc. Qed.

Lemma wpx_mono {A} (m : M S A) (Q Q' : A -> S -> Prop) (E E' : exn -> S -> Prop) s :
  wpx m Q E s -> (forall a s', Q a s' -> Q' a s') -> (forall e s', E e s' -> E' e s') -> wpx m Q' E' s.
Proof. unfold wpx. destruct (m s); auto. Qed.

Lemma wpx_eq {A} (m : M S A) (Q : A -> S -> Prop) E s a s' :
  m s = Ok a s' -> Q a s' -> wpx m Q E s.
Proof. unfold wpx. by intros ->. Qed.

Lemma wpx_mret {A} (a : A) (Q : A -> S -> Prop) E s : Q a s -> wpx (mret a) Q E s.
Proof. done. Qed.

Lemma wpx_throw {A} e (Q : A -> S -> Prop) (E : exn -> S -> Prop) s : E e s -> wpx (throw e) Q E s.
Proof. done. Qed.

Lemma wpx_try {A} (m : M S A) h Q E s :
  wpx m Q (fun e s' => wpx (h e) Q E s') s -> wpx (try m h) Q E s.
Proof. unfold wpx, try. by destruct (m s). Qed.

Lemma wpx_for_each {A} (body : A -> M S unit) (I : list A -> list A -> S -> Prop) E :
  (forall pre x l s, I pre (x :: l) s -> wpx (body x) (fun _ s' => I (pre ++ [x]) l s') E s) ->
  forall l pre s, I pre l s -> wpx (for_each l body) (fun _ s' => I (pre ++ l) [] s') E s.
Proof.
  intros Hb l. induction l as [|x l IH]; intros pre s HI; simpl.
  - apply wpx_mret. by rewrite app_nil_r.
  - apply wpx_bind. eapply wpx_mono; [by apply Hb| |done]. intros [] s' HI'.
    apply IH in HI'. by rewrite <- app_assoc in HI'.
Qed.

(** A counting loop with an invariant indexed by the counter. *)
Lemma wpx_for_seq (body : nat -> M S unit) (I : nat -> S -> Prop) E n s :
  (forall i s, i < n -> I i s -> wpx (body i) (fun _ s' => I (Datatypes.S i) s') E s) ->
  I 0 s -> wpx (for_each (seq 0 n) body) (fun _ s' => I n s') E s.
Proof.
  intros Hb HI. enough (H : forall k i s, i + k = n -> I i s ->
    wpx (for_each (seq i k) body) (fun _ s' => I n s') E s) by by apply H.
  induction k as [|k IH]; intros i s' Hk Hi; simpl.
  - apply wpx_mret. by replace n with i by lia.
  - apply wpx_bind. eapply wpx_mono; [apply Hb; [lia|done]| |done].
    intros [] s2. apply IH. lia.
Qed.
End wpx_lemmas.

Section list_lemmas.

Lemma find_pos_Some x l n :
  find_pos x l = Some n -> l !! n = Some x /\ forall m, m < n -> l !! m <> Some x.
Proof.
  revert n. induction l as [|y l IH]; intros n; simpl; [done|].
  case_bool_decide as E; intros Hn.
  - simplify_eq. split; [done|]. intros m Hm; lia.
  - destruct (find_pos x l) as [k|] eqn:Ek; simplify_eq/=.
    destruct (IH k) as [H1 H2]; [done|]. split; [done|].
    intros [|m] Hm; simpl; [congruence|]. apply H2; lia.
Qed.

Lemma find_pos_None x l : find_pos x l = None <-> x ∉ l.
Proof.
  induction l as [|y l IH]; simpl; [set_solver|].
  rewrite not_elem_of_cons. case_bool_decide; simpl; [naive_solver|].
  rewrite fmap_None, IH. naive_solver.
Qed.

Lemma find_pos_elem x l : x ∈ l -> exists n, find_pos x l = Some n /\ n < length l.
Proof.
  intros Hx. destruct (find_pos x l) as [n|] eqn:E.
  - exists n. split; [done|]. apply find_pos_Some in E as [E _].
    by apply lookup_lt_Some in E.
  - by apply find_pos_None in E.
Qed.

Lemma find_pos_lookup l x n :
  NoDup l -> l !! n = Some x -> find_pos x l = Some n.
Proof.
  intros Hnd Hl. destruct (find_pos_elem x l) as (m & Hm & _).
  { by eapply list_elem_of_lookup_2. }
  rewrite Hm. f_equal. apply find_pos_Some in Hm as [Hm _].
  by eapply NoDup_lookup.
Qed.

Lemma vec_resize_length {A} (d : A) n l : length (vec_resize d n l) = n.
Proof. unfold vec_resize. rewrite length_app, length_take, length_replicate. lia. Qed.

Lemma map_const_replicate {A B} (b : B) (l : list A) : map (fun _ => b) l = replicate (length l) b.
Proof. induction l; simpl; [done|]. by f_equal. Qed.

Lemma vec_resize_id {A} (d : A) l : vec_resize d (length l) l = l.
Proof. unfold vec_resize. rewrite firstn_all, Nat.sub_diag. by rewrite app_nil_r. Qed.
End list_lemmas.

(** ** Automation *)

Create HintDb pliny discriminated.
#[export] Hint Resolve find_pos_lookup find_pos_elem : pliny.
Create Rewrite HintDb pliny.
#[export] Hint Rewrite @vec_resize_length @vec_resize_id : pliny.

Lemma filter_none {A} (P : A -> Prop) `{!forall x, Decision (P x)} (l : list A) : (forall x, x ∈ l -> ~ P x) -> filter P l = [].
Proof.
  intros Hno. induction l as [|x l IH]; [done|]. rewrite filter_cons_False by (apply Hno; by left).
  apply IH. intros y Hy. apply Hno. by right.
Qed.
Lemma filter_every {A} (P : A -> Prop) `{!forall x, Decision (P x)} (l : list A) : (forall x, x ∈ l -> P x) -> filter P l = l.
Proof.
  intros Hall. induction l as [|x l IH]; [done|]. rewrite filter_cons_True by (apply Hall; by left).
  f_equal. apply IH. intros y Hy. apply Hall. by right.
Qed.

(** Invert a successful run of a computation down to its primitive steps. *)
Ltac step_inv H :=
  let a := fresh "a" in let s := fresh "s" in
  let H1 := fresh "Hstep" in
  apply bind_Ok_inv in H as (a & s & H1 & H).

Ltac inv_ok :=
  repeat match goal with
  | H : bind _ _ _ = Ok _ _ |- _ => step_inv H
  | H : unwrap _ _ _ = Ok _ _ |- _ => apply unwrap_Ok_inv in H as [? ?]
  | H : get _ = Ok _ _ |- _ => unfold get in H
  | H : put _ _ = Ok _ _ |- _ => unfold put in H
  | H : gets _ _ = Ok _ _ |- _ => unfold gets in H
  | H : modify _ _ = Ok _ _ |- _ => unfold modify in H
  | H : mret _ _ = Ok _ _ |- _ => unfold mret, M_ret in H
  | H : throw _ _ = Ok _ _ |- _ => discriminate H
  | H : exit _ = Ok _ _ |- _ => discriminate H
  | H : ub _ _ = Ok _ _ |- _ => discriminate H
  | H : Ok _ _ = Ok _ _ |- _ => injection H as ? ?; subst
  end.
