(* ===== verification/AtomicComputation.v ===== *)
(** Schemas of tuple sets, pdb/src/logicalPlan/headers/AttList.h and AtomicComputation.h:
    a [TupleSpec] is the name of a tuple set and the ordered list of its
    attribute names; and the atomic computations of a TCAP program,
    AtomicComputation.h, KeyValueList.h and the eleven classes of
    AtomicComputationClasses.h.

    The base class is the record [AtomicComputation]; what a subclass adds is
    its constructor of [AtomicComputationKind], and a virtual method is a
    match on the kind. *)

From S2P Require Import Prelude.

Record AttList := mkAttList { attList_atts : list string }.

Definition AttList_new : AttList := mkAttList [].
Definition appendAttribute (l : AttList) (appendMe : string) : AttList :=
  mkAttList (attList_atts l ++ [appendMe]).

Record TupleSpec := mkTupleSpec { setName : string; atts : list string }.

#[export] Instance TupleSpec_eq_dec : EqDecision TupleSpec.
Proof. solve_decision. Defined.

(** The three constructors. *)
Definition TupleSpec_empty : TupleSpec := mkTupleSpec "Empty" [].
Definition TupleSpec_ofName (setNameIn : string) : TupleSpec :=
  mkTupleSpec setNameIn [].
Definition TupleSpec_ofAtts (setNameIn : string) (useMe : AttList) : TupleSpec :=
  mkTupleSpec setNameIn (attList_atts useMe).

Definition getSetName (t : TupleSpec) : string := setName t.
Definition setSetName (val : string) (t : TupleSpec) : TupleSpec :=
  mkTupleSpec val (atts t).
Definition getAtts (t : TupleSpec) : list string := atts t.

(** erase-remove: every occurrence goes. *)
Definition removeAtt (att : string) (t : TupleSpec) : TupleSpec :=
  mkTupleSpec (setName t) (filter (fun a => a <> att) (atts t)).
Definition insertAtt (att : string) (t : TupleSpec) : TupleSpec :=
  mkTupleSpec (setName t) (atts t ++ [att]).
Definition hasAtt (att : string) (t : TupleSpec) : bool :=
  bool_decide (att ∈ atts t).

(** Only the first occurrence found by [std::find] is overwritten. *)
Definition replaceAtt (replaceMe replaceWithMe : string) (t : TupleSpec) : TupleSpec :=
  match find_pos replaceMe (atts t) with
  | Some i => mkTupleSpec (setName t) (<[i := replaceWithMe]> (atts t))
  | None => t
  end.

Definition complement (lhs rhs : TupleSpec) : TupleSpec :=
  mkTupleSpec (setName lhs) (filter (fun a => a ∉ atts rhs) (atts lhs)).

Definition isEmpty (t : TupleSpec) : bool := bool_decide (setName t = "Empty").
Definition TupleSpec_eqb (t toMe : TupleSpec) : bool :=
  bool_decide (setName t = setName toMe).

(** [operator<<]: the attributes are joined with a comma and a blank. *)
Fixpoint print_atts (first : bool) (l : list string) : string :=
  match l with
  | [] => ""
  | a :: l' => (if first then "" else ", ") +:+ a +:+ print_atts false l'
  end.
Definition print_TupleSpec (t : TupleSpec) : string :=
  setName t +:+ " (" +:+ print_atts true (atts t) +:+ ")".

(** * Lemmas *)

Lemma removeAtt_notin att t : att ∉ atts (removeAtt att t).
Proof. unfold removeAtt; simpl. rewrite list_elem_of_filter. naive_solver. Qed.

Lemma elem_of_removeAtt a att t :
  a ∈ atts (removeAtt att t) <-> a <> att /\ a ∈ atts t.
Proof. unfold removeAtt; simpl. by rewrite list_elem_of_filter. Qed.

Lemma elem_of_complement a lhs rhs :
  a ∈ atts (complement lhs rhs) <-> a ∈ atts lhs /\ a ∉ atts rhs.
Proof. unfold complement; simpl. rewrite list_elem_of_filter. naive_solver. Qed.

Lemma replaceAtt_length a b t :
  length (atts (replaceAtt a b t)) = length (atts t).
Proof. unfold replaceAtt. destruct (find_pos _ _); simpl; by rewrite ?length_insert. Qed.

Lemma replaceAtt_notin a b t : a ∉ atts t -> replaceAtt a b t = t.
Proof. unfold replaceAtt. by intros ->%find_pos_None. Qed.

#[export] Hint Resolve removeAtt_notin replaceAtt_notin : pliny.
#[export] Hint Rewrite replaceAtt_length : pliny.

(** [std::map<std::string, std::string>] *)
Abbreviation kvmap := (gmap string string).

Record KeyValueList := mkKeyValueList { keyValuePairs_of : kvmap }.
Definition KeyValueList_new : KeyValueList := mkKeyValueList ∅.
Definition appendkeyValuePair (l : KeyValueList) (keyName valueName : string) : KeyValueList :=
  mkKeyValueList (<[keyName := valueName]> (keyValuePairs_of l)).

Inductive AtomicComputationTypeID :=
| ApplyLambdaTypeID | HashLeftTypeID | HashRightTypeID | HashOneTypeID
| FlattenTypeID | UnionTypeID | ApplyFilterTypeID | ApplyAggTypeID
| ScanSetAtomicTypeID | WriteSetTypeID | ApplyJoinTypeID.

#[export] Instance TypeID_eq_dec : EqDecision AtomicComputationTypeID.
Proof. solve_decision. Defined.

(** The fields of the subclasses. *)
Inductive AtomicComputationKind :=
| KApplyLambda (lambdaName : string)
| KHashLeft (lambdaName : string)
| KHashRight (lambdaName : string)
| KHashOne
| KFlatten
| KUnion (rightInput : TupleSpec)
| KApplyFilter
| KApplyAgg
| KScanSet (setSpecifier : string * string) (pageSetSpecifier : Z * string)
| KWriteSet (dbName wsetName : string)
| KApplyJoin (rightInput rightProjection : TupleSpec).

#[export] Instance Kind_eq_dec : EqDecision AtomicComputationKind.
Proof. solve_decision. Defined.

Record AtomicComputation := mkAtomicComputation {
  input : TupleSpec;
  output : TupleSpec;
  projection : TupleSpec;
  computationName : string;
  keyValuePairs : kvmap;
  kind : AtomicComputationKind
}.

#[export] Instance AtomicComputation_eq_dec : EqDecision AtomicComputation.
Proof. solve_decision. Defined.

(** The base class constructor, with no key-value pairs. *)
Definition AtomicComputation_new (inputIn outputIn projectionIn : TupleSpec)
    (cname : string) (k : AtomicComputationKind) : AtomicComputation :=
  mkAtomicComputation inputIn outputIn projectionIn cname ∅ k.
(** [keyValuePairs = useMe.getKeyValuePairs();] *)
Definition with_kv (useMe : KeyValueList) (c : AtomicComputation) : AtomicComputation :=
  mkAtomicComputation (input c) (output c) (projection c) (computationName c)
    (keyValuePairs_of useMe) (kind c).

(** ** The constructors of the subclasses, without and with key-value pairs *)

Definition ApplyLambda (i o p : TupleSpec) (nodeName lambdaNameIn : string) :=
  AtomicComputation_new i o p nodeName (KApplyLambda lambdaNameIn).
Definition ApplyLambda_kv (i o p : TupleSpec) (nodeName lambdaNameIn : string)
    (useMe : KeyValueList) :=
  with_kv useMe (AtomicComputation_new i o p nodeName (KApplyLambda lambdaNameIn)).

Definition HashLeft (i o p : TupleSpec) (nodeName lambdaNameIn : string) :=
  AtomicComputation_new i o p nodeName (KHashLeft lambdaNameIn).
Definition HashLeft_kv (i o p : TupleSpec) (nodeName lambdaNameIn : string)
    (useMe : KeyValueList) :=
  with_kv useMe (AtomicComputation_new i o p nodeName (KHashLeft lambdaNameIn)).

Definition HashRight (i o p : TupleSpec) (nodeName lambdaNameIn : string) :=
  AtomicComputation_new i o p nodeName (KHashRight lambdaNameIn).
Definition HashRight_kv (i o p : TupleSpec) (nodeName lambdaNameIn : string)
    (useMe : KeyValueList) :=
  with_kv useMe (AtomicComputation_new i o p nodeName (KHashRight lambdaNameIn)).

Definition HashOne (i o p : TupleSpec) (nodeName : string) :=
  AtomicComputation_new i o p nodeName KHashOne.
Definition HashOne_kv (i o p : TupleSpec) (nodeName : string) (useMe : KeyValueList) :=
  with_kv useMe (AtomicComputation_new i o p nodeName KHashOne).

Definition Flatten (i o p : TupleSpec) (nodeName : string) :=
  AtomicComputation_new i o p nodeName KFlatten.
Definition Flatten_kv (i o p : TupleSpec) (nodeName : string) (useMe : KeyValueList) :=
  with_kv useMe (AtomicComputation_new i o p nodeName KFlatten).

(** The projection is the left input here, and the empty specification in the
    constructor with key-value pairs. *)
Definition Union (o lhsInput rhsInput : TupleSpec) (nodeName : string) :=
  AtomicComputation_new lhsInput o lhsInput nodeName (KUnion rhsInput).
Definition Union_kv (o lhsInput rhsInput : TupleSpec) (nodeName : string)
    (useMe : KeyValueList) :=
  with_kv useMe
    (AtomicComputation_new lhsInput o TupleSpec_empty nodeName (KUnion rhsInput)).

Definition ApplyFilter (i o p : TupleSpec) (nodeName : string) :=
  AtomicComputation_new i o p nodeName KApplyFilter.
Definition ApplyFilter_kv (i o p : TupleSpec) (nodeName : string) (useMe : KeyValueList) :=
  with_kv useMe (AtomicComputation_new i o p nodeName KApplyFilter).

Definition ApplyAgg (i o p : TupleSpec) (nodeName : string) :=
  AtomicComputation_new i o p nodeName KApplyAgg.
Definition ApplyAgg_kv (i o p : TupleSpec) (nodeName : string) (useMe : KeyValueList) :=
  with_kv useMe (AtomicComputation_new i o p nodeName KApplyAgg).

(** A scan of a stored set, and a scan of a page set; the specifier that a
    constructor does not mention keeps its default value. *)
Definition ScanSet (o : TupleSpec) (dbName setName nodeName : string) :=
  AtomicComputation_new TupleSpec_empty o TupleSpec_empty nodeName
    (KScanSet (dbName, setName) (0%Z, "")).
Definition ScanSet_kv (o : TupleSpec) (dbName setName nodeName : string)
    (useMe : KeyValueList) :=
  with_kv useMe (AtomicComputation_new TupleSpec_empty o TupleSpec_empty nodeName
    (KScanSet (dbName, setName) (0%Z, ""))).
Definition ScanSet_pageSet_kv (o : TupleSpec) (taskID : Z)
    (pageSetSpecifier nodeName : string) (useMe : KeyValueList) :=
  with_kv useMe (AtomicComputation_new TupleSpec_empty o TupleSpec_empty nodeName
    (KScanSet ("", "") (taskID, pageSetSpecifier))).
Definition ScanSet_pageSet (o : TupleSpec) (taskID : Z)
    (pageSetSpecifier nodeName : string) :=
  AtomicComputation_new TupleSpec_empty o TupleSpec_empty nodeName
    (KScanSet ("", "") (taskID, pageSetSpecifier)).

Definition WriteSet (i o p : TupleSpec) (dbName setName nodeName : string) :=
  AtomicComputation_new i o p nodeName (KWriteSet dbName setName).
Definition WriteSet_kv (i o p : TupleSpec) (dbName setName nodeName : string)
    (useMe : KeyValueList) :=
  with_kv useMe (AtomicComputation_new i o p nodeName (KWriteSet dbName setName)).

Definition ApplyJoin (o lInput rInput lProjection rProjection : TupleSpec)
    (nodeName : string) :=
  AtomicComputation_new lInput o lProjection nodeName (KApplyJoin rInput rProjection).
Definition ApplyJoin_kv (o lInput rInput lProjection rProjection : TupleSpec)
    (nodeName : string) (useMe : KeyValueList) :=
  with_kv useMe
    (AtomicComputation_new lInput o lProjection nodeName (KApplyJoin rInput rProjection)).

(** ** Accessors *)

Definition getAtomicComputationType (c : AtomicComputation) : string :=
  match kind c with
  | KApplyLambda _ => "Apply"
  | KHashLeft _ => "HashLeft"
  | KHashRight _ => "HashRight"
  | KHashOne => "HashOne"
  | KFlatten => "Flatten"
  | KUnion _ => "Union"
  | KApplyFilter => "Filter"
  | KApplyAgg => "Aggregate"
  | KScanSet _ _ => "Scan"
  | KWriteSet _ _ => "WriteSet"
  | KApplyJoin _ _ => "JoinSets"
  end.

Definition getAtomicComputationTypeID (c : AtomicComputation) : AtomicComputationTypeID :=
  match kind c with
  | KApplyLambda _ => ApplyLambdaTypeID
  | KHashLeft _ => HashLeftTypeID
  | KHashRight _ => HashRightTypeID
  | KHashOne => HashOneTypeID
  | KFlatten => FlattenTypeID
  | KUnion _ => UnionTypeID
  | KApplyFilter => ApplyFilterTypeID
  | KApplyAgg => ApplyAggTypeID
  | KScanSet _ _ => ScanSetAtomicTypeID
  | KWriteSet _ _ => WriteSetTypeID
  | KApplyJoin _ _ => ApplyJoinTypeID
  end.

Definition hasTwoInputs (c : AtomicComputation) : bool :=
  match kind c with KUnion _ | KApplyJoin _ _ => true | _ => false end.

(** The base class versions throw [std::runtime_error]. *)
Definition getRightInput (c : AtomicComputation) : option TupleSpec :=
  match kind c with
  | KUnion r => Some r
  | KApplyJoin r _ => Some r
  | _ => None
  end.
(** A union's right projection is its right input. *)
Definition getRightProjection (c : AtomicComputation) : option TupleSpec :=
  match kind c with
  | KUnion r => Some r
  | KApplyJoin _ p => Some p
  | _ => None
  end.

(** [ApplyLambda::isExtractingKey], which is also the test that
    [JoinKeySideTransformation::canApply] spells out. *)
Definition isExtractingKey (c : AtomicComputation) : bool :=
  match keyValuePairs c !! "lambdaType" with
  | Some v => bool_decide (v = "key")
  | None => false
  end.

Definition getOutputName (c : AtomicComputation) : string := getSetName (output c).
Definition getInputName (c : AtomicComputation) : string := getSetName (input c).

(** Updates through the references the getters return. *)
Definition set_input (f : TupleSpec -> TupleSpec) (c : AtomicComputation) :=
  mkAtomicComputation (f (input c)) (output c) (projection c)
    (computationName c) (keyValuePairs c) (kind c).
Definition set_output (f : TupleSpec -> TupleSpec) (c : AtomicComputation) :=
  mkAtomicComputation (input c) (f (output c)) (projection c)
    (computationName c) (keyValuePairs c) (kind c).
Definition set_projection (f : TupleSpec -> TupleSpec) (c : AtomicComputation) :=
  mkAtomicComputation (input c) (output c) (f (projection c))
    (computationName c) (keyValuePairs c) (kind c).
Definition set_rightInput (f : TupleSpec -> TupleSpec) (c : AtomicComputation) :=
  mkAtomicComputation (input c) (output c) (projection c)
    (computationName c) (keyValuePairs c)
    match kind c with
    | KUnion r => KUnion (f r)
    | KApplyJoin r p => KApplyJoin (f r) p
    | k => k
    end.
Definition set_rightProjection (f : TupleSpec -> TupleSpec) (c : AtomicComputation) :=
  mkAtomicComputation (input c) (output c) (projection c)
    (computationName c) (keyValuePairs c)
    match kind c with
    | KUnion r => KUnion (f r)
    | KApplyJoin r p => KApplyJoin r (f p)
    | k => k
    end.

(** The position of the attribute among the output attributes; the code exits
    when there is none. *)
Definition findPosInOutputAtts {St} (findMe : string) (c : AtomicComputation) : M St nat :=
  match find_pos findMe (getAtts (output c)) with
  | Some counter => mret counter
  | None => exit
  end.
