(* ===== verification/AtomicComputationList.v ===== *)
(** The indexed list of atomic computations that a logical plan consists of:
    pdb/src/logicalPlan/headers/AtomicComputationList.h and
    source/AtomicComputationList.cc.

    The lists hold shared pointers, and the plan transformations update the
    computations in place, so the computations live in a store [comps] and the
    maps hold addresses. *)

From S2P Require Import Prelude AtomicComputation.

Abbreviation addr := positive.

Record PlanState := mkPlan {
  comps : gmap addr AtomicComputation;
  (* operator[] on a missing key inserts a null shared pointer *)
  producers : gmap string (option addr);
  consumers : gmap string (list addr);
  scans : list addr
}.

Definition empty_plan : PlanState := mkPlan ∅ ∅ ∅ [].

Definition set_comps (f : gmap addr AtomicComputation -> gmap addr AtomicComputation)
    (p : PlanState) : PlanState :=
  mkPlan (f (comps p)) (producers p) (consumers p) (scans p).
Definition set_producers (f : gmap string (option addr) -> gmap string (option addr))
    (p : PlanState) : PlanState :=
  mkPlan (comps p) (f (producers p)) (consumers p) (scans p).
Definition set_consumers (f : gmap string (list addr) -> gmap string (list addr))
    (p : PlanState) : PlanState :=
  mkPlan (comps p) (producers p) (f (consumers p)) (scans p).
Definition set_scans (f : list addr -> list addr) (p : PlanState) : PlanState :=
  mkPlan (comps p) (producers p) (consumers p) (f (scans p)).

(** Dereferencing a shared pointer, and updating the object behind it. *)
Definition deref (a : option addr) : M PlanState AtomicComputation :=
  match a with
  | None => ub NullDeref
  | Some a => p <- get ;; unwrap UseAfterFree (comps p !! a)
  end.
Definition update (a : addr) (f : AtomicComputation -> AtomicComputation) : M PlanState unit :=
  modify (set_comps (alter f a)).
(** [std::make_shared] *)
Definition make_shared (c : AtomicComputation) : M PlanState addr :=
  p <- get ;;
  let a := fresh (dom (comps p)) in
  _ <- put (set_comps <[a := c]> p) ;;
  mret a.

(** [producers[outputName]] *)
Definition getProducingAtomicComputation (outputName : string) : M PlanState (option addr) :=
  p <- get ;;
  match producers p !! outputName with
  | Some a => mret a
  | None => _ <- put (set_producers <[outputName := None]> p) ;; mret None
  end.

(** [consumers[inputName]] *)
Definition getConsumingAtomicComputations (inputName : string) : M PlanState (list addr) :=
  p <- get ;;
  match consumers p !! inputName with
  | Some l => mret l
  | None => _ <- put (set_consumers <[inputName := []]> p) ;; mret []
  end.

Definition getAllScanSets : M PlanState (list addr) := gets scans.

(** [consumers[name].push_back(a)] *)
Definition push_consumer (name : string) (a : addr) : M PlanState unit :=
  modify (set_consumers (fun m => <[name := default [] (m !! name) ++ [a]]> m)).

Definition addAtomicComputation (addMe : addr) : M PlanState unit :=
  c <- deref (Some addMe) ;;
  _ <- (if bool_decide (getAtomicComputationType c = "Scan")
       then modify (set_scans (fun l => l ++ [addMe]))
       else mret tt) ;;
  _ <- modify (set_producers <[getOutputName c := Some addMe]>) ;;
  _ <- push_consumer (getInputName c) addMe ;;
  match kind c with
  | KApplyJoin rightInput _ => push_consumer (getSetName rightInput) addMe
  | KUnion rightInput => push_consumer (getSetName rightInput) addMe
  | _ => mret tt
  end.

(** The erase-remove idiom on a vector of consumers. *)
Definition erase_consumer (tupleSet : string) (consumer : option addr) : M PlanState unit :=
  modify (set_consumers (fun m =>
    <[tupleSet := filter (fun a => Some a <> consumer) (default [] (m !! tupleSet))]> m)).

Definition removeConsumer (tupleSet : string) (consumer : option addr) : M PlanState unit :=
  erase_consumer tupleSet consumer.

Definition removeProducer (tupleSet : string) : M PlanState unit :=
  modify (set_producers (delete tupleSet)).

Definition removeAllConsumers (tupleSet : string) : M PlanState unit :=
  modify (set_consumers (delete tupleSet)).

Definition hasConsumer (tupleSet : string) : M PlanState bool :=
  p <- get ;;
  mret (match consumers p !! tupleSet with
        | None => false
        | Some l => negb (bool_decide (l = []))
        end).

(** Step 1 of [replaceComputation] for one consumer: its reference to the old
    tuple set becomes a reference to the output of the new computation. *)
Definition rename_consumer (tupleSet newName : string) (a : addr) : M PlanState unit :=
  c <- deref (Some a) ;;
  if bool_decide (getSetName (input c) = tupleSet) then
    update a (fun c => set_projection (setSetName newName) (set_input (setSetName newName) c))
  else
    match getRightInput c with
    | Some r =>
        if bool_decide (getSetName r = tupleSet) then
          update a (fun c => set_rightProjection (setSetName newName)
                               (set_rightInput (setSetName newName) c))
        else throw (RuntimeError "Did not find the set name.")
    | None => throw (RuntimeError "Did not find the set name.")
    end.

Definition replaceComputation (tupleSet : string) (comp : addr) : M PlanState unit :=
  currComp <- getProducingAtomicComputation tupleSet ;;
  cc <- deref currComp ;;
  (* 0. remove it from the consumers of its inputs *)
  _ <- (if isEmpty (input cc) then mret tt
       else erase_consumer (getSetName (input cc)) currComp) ;;
  _ <- (match getRightInput cc with
       | Some r => erase_consumer (getSetName r) currComp
       | None => mret tt
       end) ;;
  (* 1. update the consumers; operator[] creates an entry when there is none *)
  cons <- getConsumingAtomicComputations tupleSet ;;
  new <- deref (Some comp) ;;
  _ <- for_each cons (rename_consumer tupleSet (getOutputName new)) ;;
  tmp <- getConsumingAtomicComputations tupleSet ;;
  _ <- removeAllConsumers tupleSet ;;
  new <- deref (Some comp) ;;
  _ <- modify (set_consumers <[getOutputName new := tmp]>) ;;
  (* 2. update the producer *)
  _ <- removeProducer tupleSet ;;
  modify (set_producers <[getOutputName new := Some comp]>).

(** [removeAndRelink] binds a reference to [producers[tupleSet]], erases that
    map entry and goes on using the reference.  [stale] says what the memory of
    the erased entry reads as: [Some a] when it still holds the pointer, [None]
    when the read is treated as undefined. *)
Section relink.
Variable stale : addr -> option addr.

Definition relink_consumer (currComp a : addr) : M PlanState unit :=
  cc <- deref (Some currComp) ;;
  if hasTwoInputs cc then
    throw (RuntimeError "Can not rewire computations with two inputs.")
  else
  c <- deref (Some a) ;;
  _ <- (if bool_decide (getSetName (input c) = getOutputName cc) then
         update a (fun c => set_projection (setSetName (getSetName (projection cc)))
                              (set_input (setSetName (getSetName (input cc))) c))
       else mret tt) ;;
  cc <- deref (Some currComp) ;;
  c <- deref (Some a) ;;
  match getRightInput c with
  | Some r =>
      if bool_decide (getSetName r = getOutputName cc) then
        update a (fun c => set_rightProjection (setSetName (getSetName (projection cc)))
                             (set_rightInput (setSetName (getSetName (input cc))) c))
      else mret tt
  | None => mret tt
  end.

Definition removeAndRelink (tupleSet : string) : M PlanState unit :=
  currRef <- getProducingAtomicComputation tupleSet ;;
  _ <- removeProducer tupleSet ;;
  currCons <- getConsumingAtomicComputations tupleSet ;;
  currComp <- unwrap UseAfterFree (currRef ≫= stale) ;;
  _ <- for_each currCons (relink_consumer currComp) ;;
  cc <- deref (Some currComp) ;;
  _ <- getConsumingAtomicComputations (getInputName cc) ;;
  _ <- erase_consumer (getInputName cc) (Some currComp) ;;
  modify (set_consumers (fun m =>
    <[getInputName cc := default [] (m !! getInputName cc) ++ currCons]> m)).
End relink.
