(* ===== verification/FindSource.v ===== *)
(** Attribute provenance: the virtual method [findSource] of
    pdb/src/logicalPlan/headers/AtomicComputationClasses.h, which walks a plan
    upwards from a computation to the (Computation, lambda) pair that creates a
    given output attribute. *)

From S2P Require Import Prelude AtomicComputation AtomicComputationList.

Abbreviation source := (string * string)%type.

(** ** The overriders, with the call on the parent computation left open *)
Section methods.
(** [allComps.getProducingAtomicComputation(name)->findSource(att, allComps)] *)
Variable findSource_of : string -> string -> M PlanState source.

(** The tail all pass-through computations share. *)
Definition find_parent (spec : TupleSpec) (i : nat) : M PlanState source :=
  att <- unwrap OutOfRange (getAtts spec !! i) ;;
  findSource_of (getSetName spec) att.

Definition ApplyLambda_findSource (lambdaName attName : string) (c : AtomicComputation)
    : M PlanState source :=
  counter <- findPosInOutputAtts attName c ;;
  if counter =? length (getAtts (output c)) - 1
  then mret (computationName c, lambdaName)
  else find_parent (projection c) counter.

Definition HashLeft_findSource (attName : string) (c : AtomicComputation)
    : M PlanState source :=
  counter <- findPosInOutputAtts attName c ;;
  if counter =? length (getAtts (output c)) - 1 then exit
  else find_parent (projection c) counter.

Definition HashRight_findSource (attName : string) (c : AtomicComputation)
    : M PlanState source :=
  counter <- findPosInOutputAtts attName c ;;
  if counter =? length (getAtts (output c)) - 1 then exit
  else find_parent (projection c) counter.

(** No test for the attribute that the hash itself adds. *)
Definition HashOne_findSource (attName : string) (c : AtomicComputation)
    : M PlanState source :=
  counter <- findPosInOutputAtts attName c ;;
  find_parent (projection c) counter.

Definition Flatten_findSource (attName : string) (c : AtomicComputation)
    : M PlanState source :=
  counter <- findPosInOutputAtts attName c ;;
  if counter =? length (getAtts (output c)) - 1
  then mret (computationName c, "")
  else find_parent (projection c) counter.

Definition Union_findSource (attName : string) (c : AtomicComputation)
    : M PlanState source :=
  counter <- findPosInOutputAtts attName c ;;
  if counter =? 0 then mret (computationName c, "") else exit.

Definition ApplyFilter_findSource (attName : string) (c : AtomicComputation)
    : M PlanState source :=
  counter <- findPosInOutputAtts attName c ;;
  find_parent (projection c) counter.

Definition ApplyAgg_findSource (attName : string) (c : AtomicComputation)
    : M PlanState source :=
  counter <- findPosInOutputAtts attName c ;;
  if counter =? 0 then mret (computationName c, "") else exit.

Definition ScanSet_findSource (attName : string) (c : AtomicComputation)
    : M PlanState source :=
  counter <- findPosInOutputAtts attName c ;;
  if counter =? 0 then mret (computationName c, "") else exit.

Definition WriteSet_findSource (attName : string) (c : AtomicComputation)
    : M PlanState source := exit.

Definition ApplyJoin_findSource (rightProjection : TupleSpec) (attName : string)
    (c : AtomicComputation) : M PlanState source :=
  counter <- findPosInOutputAtts attName c ;;
  let lsize := length (getAtts (projection c)) in
  if counter <? lsize then find_parent (projection c) counter
  else if counter <? lsize + length (getAtts rightProjection)
  then find_parent rightProjection (counter - lsize)
  else exit.

(** Virtual dispatch. *)
Definition findSource_method (attName : string) (c : AtomicComputation)
    : M PlanState source :=
  match kind c with
  | KApplyLambda l => ApplyLambda_findSource l attName c
  | KHashLeft _ => HashLeft_findSource attName c
  | KHashRight _ => HashRight_findSource attName c
  | KHashOne => HashOne_findSource attName c
  | KFlatten => Flatten_findSource attName c
  | KUnion _ => Union_findSource attName c
  | KApplyFilter => ApplyFilter_findSource attName c
  | KApplyAgg => ApplyAgg_findSource attName c
  | KScanSet _ _ => ScanSet_findSource attName c
  | KWriteSet _ _ => WriteSet_findSource attName c
  | KApplyJoin _ rp => ApplyJoin_findSource rp attName c
  end.
End methods.

(** The recursion through the plan; one unit of fuel per computation visited. *)
Fixpoint findSource (fuel : nat) (tupleSet attName : string) : M PlanState source :=
  match fuel with
  | 0 => fun _ => NoFuel
  | S fuel' =>
      a <- getProducingAtomicComputation tupleSet ;;
      c <- deref a ;;
      findSource_method (findSource fuel') attName c
  end.

(** * Specification *)

(** How the output attributes of a computation arise: [Passed] from the
    [i]-th attribute of another tuple set, [Created] by the computation, or
    carrying a [Hashed] value that has no source. *)
Inductive origin :=
| Passed (spec : TupleSpec) (i : nat)
| Created (lambda : string)
| Hashed (checked : bool)
| NoOrigin.

(** The documented layout of each computation's output. *)
Definition origin_of (c : AtomicComputation) (i : nat) : origin :=
  let p := projection c in
  let n := length (atts p) in
  match kind c with
  | KApplyLambda l => if i <? n then Passed p i else Created l
  | KFlatten => if i <? n then Passed p i else Created ""
  | KHashLeft _ | KHashRight _ => if i <? n then Passed p i else Hashed true
  | KHashOne => if i <? n then Passed p i else Hashed false
  | KApplyFilter => Passed p i
  | KApplyJoin _ rp => if i <? n then Passed p i else Passed rp (i - n)
  | KUnion _ | KApplyAgg | KScanSet _ _ => Created ""
  | KWriteSet _ _ => NoOrigin
  end.

(** The number of output attributes that layout has. *)
Definition arity_ok (c : AtomicComputation) : bool :=
  let o := length (atts (output c)) in
  let n := length (atts (projection c)) in
  match kind c with
  | KApplyLambda _ | KHashLeft _ | KHashRight _ | KHashOne | KFlatten => o =? S n
  | KApplyFilter => o =? n
  | KApplyJoin _ rp => o =? n + length (atts rp)
  | KUnion _ | KApplyAgg | KScanSet _ _ => o =? 1
  | KWriteSet _ _ => true
  end.

(** The tuple sets a computation passes attributes on from. *)
Definition projections (c : AtomicComputation) : list TupleSpec :=
  match kind c with
  | KApplyJoin _ rp => [projection c; rp]
  | KUnion _ | KApplyAgg | KScanSet _ _ | KWriteSet _ _ => []
  | _ => [projection c]
  end.

(** The computation a plan has for a tuple set. *)
Definition producer (p : PlanState) (name : string) : option AtomicComputation :=
  a ← producers p !! name;
  b ← a;
  comps p !! b.

(** A well-formed plan, with a rank that decreases towards the scans. *)
Record wf_plan (rank : string -> nat) (p : PlanState) : Prop := {
  wf_arity : forall n c, producer p n = Some c -> arity_ok c = true;
  wf_nodup : forall n c, producer p n = Some c -> NoDup (atts (output c));
  wf_parent : forall n c q, producer p n = Some c -> q ∈ projections c ->
    rank (setName q) < rank n /\
    exists d, producer p (setName q) = Some d /\
              (forall t w, kind d <> KWriteSet t w) /\
              forall x, x ∈ atts q -> x ∈ atts (output d)
}.

(** The same as a test. *)
Definition is_write (c : AtomicComputation) : bool :=
  match kind c with KWriteSet _ _ => true | _ => false end.
Definition parent_ok (rank : string -> nat) (p : PlanState) (n : string) (q : TupleSpec) : bool :=
  match producer p (setName q) with
  | None => false
  | Some d => (rank (setName q) <? rank n) && negb (is_write d)
              && forallb (fun x => bool_decide (x ∈ atts (output d))) (atts q)
  end.
Definition comp_ok (rank : string -> nat) (p : PlanState) (n : string) (c : AtomicComputation) : bool :=
  arity_ok c && bool_decide (NoDup (atts (output c)))
  && forallb (parent_ok rank p n) (projections c).
Definition wf_planb (rank : string -> nat) (p : PlanState) : bool :=
  forallb (fun e => match producer p (fst e) with
                    | None => true
                    | Some c => comp_ok rank p (fst e) c
                    end) (map_to_list (producers p)).

(** What asking for the source of an attribute should give. *)
Inductive answer := Source (s : source) | NoSource | Overrun.

Inductive source_of (p : PlanState) : string -> string -> answer -> Prop :=
| source_created n c x i l :
    producer p n = Some c -> find_pos x (atts (output c)) = Some i ->
    origin_of c i = Created l ->
    source_of p n x (Source (computationName c, l))
| source_hash n c x i b :
    producer p n = Some c -> find_pos x (atts (output c)) = Some i ->
    origin_of c i = Hashed b ->
    source_of p n x (if b then NoSource else Overrun)
| source_passed n c x i q j y r :
    producer p n = Some c -> find_pos x (atts (output c)) = Some i ->
    origin_of c i = Passed q j -> atts q !! j = Some y ->
    source_of p (setName q) y r ->
    source_of p n x r.

Definition outcome_of (p : PlanState) (r : answer) : outcome PlanState source :=
  match r with
  | Source s => Ok s p
  | NoSource => Exit p
  | Overrun => Fault OutOfRange
  end.

(** * Lemmas *)

Lemma producer_run p n c :
  producer p n = Some c ->
  exists a, getProducingAtomicComputation n p = Ok (Some a) p /\ comps p !! a = Some c.
Proof.
  unfold producer, getProducingAtomicComputation, get, mret, M_ret, bind.
  destruct (producers p !! n) as [[a|]|]; simpl; try done. eauto.
Qed.

Lemma findPos_run {St} x c i (s : St) :
  find_pos x (atts (output c)) = Some i -> findPosInOutputAtts x c s = Ok i s.
Proof. unfold findPosInOutputAtts, getAtts. by intros ->. Qed.

(** Under the layout, a method does what the origin of the attribute says. *)
Lemma method_origin rec x c i p :
  arity_ok c = true -> find_pos x (atts (output c)) = Some i ->
  findSource_method rec x c p =
  match origin_of c i with
  | Passed q j => find_parent rec q j p
  | Created l => Ok (computationName c, l) p
  | Hashed true => Exit p
  | Hashed false => Fault OutOfRange
  | NoOrigin => Exit p
  end.
Proof.
  intros Har Hpos.
  assert (Hlt : i < length (atts (output c))).
  { apply find_pos_Some in Hpos as [Hl _]. by apply lookup_lt_Some in Hl. }
  unfold findSource_method, origin_of, arity_ok in *.
  destruct (kind c);
    unfold ApplyLambda_findSource, HashLeft_findSource, HashRight_findSource,
      HashOne_findSource, Flatten_findSource, Union_findSource, ApplyFilter_findSource,
      ApplyAgg_findSource, ScanSet_findSource, WriteSet_findSource, ApplyJoin_findSource,
      getAtts in *;
    try done; erewrite bind_Ok by (by apply findPos_run);
    repeat match goal with
    | |- context [?a =? ?b] => destruct (Nat.eqb_spec a b)
    | |- context [?a <? ?b] => destruct (Nat.ltb_spec a b)
    | H : (?a =? ?b) = true |- _ => apply Nat.eqb_eq in H
    end; try lia; try done.
  (* HashOne has no branch of its own: the read past the projection *)
  unfold find_parent, getAtts.
  by rewrite lookup_ge_None_2.
Qed.

Lemma origin_passed c i q j :
  arity_ok c = true -> i < length (atts (output c)) ->
  origin_of c i = Passed q j -> q ∈ projections c /\ j < length (atts q).
Proof.
  unfold origin_of, arity_ok, projections. intros Har Hi.
  destruct (kind c); repeat case_match; intros [=]; subst;
    repeat match goal with
    | H : (_ =? _) = true |- _ => apply Nat.eqb_eq in H
    | H : (_ <? _) = true |- _ => apply Nat.ltb_lt in H
    | H : (_ <? _) = false |- _ => apply Nat.ltb_ge in H
    end; (split; [set_solver|lia]).
Qed.

Lemma source_of_det p n x r1 r2 :
  source_of p n x r1 -> source_of p n x r2 -> r1 = r2.
Proof.
  intros H1. revert r2.
  induction H1; intros r2 H2'; inversion H2'; simplify_eq;
    repeat match goal with
    | H1 : origin_of ?c ?i = _, H2 : origin_of ?c ?i = _ |- _ =>
        rewrite H1 in H2; simplify_eq
    end; auto.
Qed.

Lemma is_write_spec c : is_write c = false <-> forall t w, kind c <> KWriteSet t w.
Proof. unfold is_write. destruct (kind c); naive_solver. Qed.

Lemma comp_ok_sound rank p n c :
  wf_planb rank p = true -> producer p n = Some c -> comp_ok rank p n c = true.
Proof.
  unfold wf_planb. rewrite forallb_forall. intros H Hp.
  assert (exists o, producers p !! n = Some o) as [o Ho].
  { unfold producer in Hp. destruct (producers p !! n); [eauto|done]. }
  specialize (H (n, o)). simpl in H. rewrite Hp in H. apply H.
  apply list_elem_of_In. by apply elem_of_map_to_list.
Qed.

Lemma wf_planb_sound rank p : wf_planb rank p = true -> wf_plan rank p.
Proof.
  intros H. split; intros n c; [| |intros q];
    intros Hp; pose proof (comp_ok_sound _ _ _ _ H Hp) as Hok;
    unfold comp_ok in Hok; rewrite !andb_true_iff, bool_decide_eq_true, forallb_forall in Hok;
    destruct Hok as [[Har Hnd] Hpar]; [done|done|].
  intros Hq%list_elem_of_In%Hpar. unfold parent_ok in Hq.
  destruct (producer p (setName q)) as [d|]; [|done].
  rewrite !andb_true_iff, Nat.ltb_lt, negb_true_iff, is_write_spec, forallb_forall in Hq.
  destruct Hq as [[Hr Hw] Hin]. split; [done|]. exists d. split_and!; [done|done|].
  intros x Hx%list_elem_of_In%Hin. by apply bool_decide_eq_true in Hx.
Qed.

Section correctness.
Context (rank : string -> nat) (p : PlanState) (Hwf : wf_plan rank p).

Lemma findSource_total fuel n c x :
  producer p n = Some c -> (forall t w, kind c <> KWriteSet t w) ->
  x ∈ atts (output c) -> rank n < fuel ->
  exists r, source_of p n x r /\ findSource fuel n x p = outcome_of p r.
Proof.
  revert n c x. induction fuel as [|fuel IH]; intros n c x Hp Hnw Hx Hr; [lia|].
  destruct (find_pos_elem _ _ Hx) as (i & Hi & Hlt).
  pose proof (wf_arity _ _ Hwf _ _ Hp) as Har.
  destruct (producer_run _ _ _ Hp) as (a & Ha & Hc).
  simpl. erewrite bind_Ok by exact Ha.
  erewrite bind_Ok by (unfold deref, get, bind, unwrap; by rewrite Hc).
  rewrite (method_origin _ _ _ i) by done.
  destruct (origin_of c i) as [q j|l|b|] eqn:Ho.
  - destruct (origin_passed _ _ _ _ Har Hlt Ho) as [Hq Hj].
    destruct (wf_parent _ _ Hwf _ _ _ Hp Hq) as (Hrk & d & Hd & Hdw & Hsub).
    destruct (lookup_lt_is_Some_2 (atts q) j Hj) as [y Hy].
    destruct (IH (setName q) d y) as (r & Hs & Hrun);
      [done|done|by eapply Hsub, list_elem_of_lookup_2|lia|].
    exists r. split; [by eapply source_passed|].
    unfold find_parent, getAtts. by rewrite Hy.
  - exists (Source (computationName c, l)). split; [by eapply source_created|done].
  - exists (if b then NoSource else Overrun).
    split; [by eapply source_hash|by destruct b].
  - exfalso. unfold origin_of in Ho. destruct (kind c) eqn:K; repeat case_match; naive_solver.
Qed.

(** C26: in a well-formed plan (every computation has the output layout its
    comment documents, projections name attributes of their producer, the plan
    has no cycle), asking for the source of any output attribute of a tuple set
    terminates within the rank of the tuple set, leaves the plan as it was, and
    answers exactly what the provenance relation says: the creating pair, an
    exit for a HASHLEFT or HASHRIGHT value, the read past the projection for a
    HASHONE value. *)
Theorem findSource_correct fuel n c x r :
  producer p n = Some c -> (forall t w, kind c <> KWriteSet t w) ->
  x ∈ atts (output c) -> rank n < fuel ->
  findSource fuel n x p = outcome_of p r <-> source_of p n x r.
Proof.
  intros Hp Hnw Hx Hr.
  destruct (findSource_total fuel n c x Hp Hnw Hx Hr) as (r' & Hs & ->).
  split.
  - destruct r, r'; simpl; intros [=]; by subst.
  - intros Hs'. f_equal. by eapply source_of_det.
Qed.
End correctness.

(** * A concrete plan: scan, apply, hash-one and filter *)

Definition demo_plan : PlanState :=
  let scan := ScanSet (mkTupleSpec "in" ["rec"]) "db" "set" "SetScanner_0" in
  let app := ApplyLambda (mkTupleSpec "in" ["rec"]) (mkTupleSpec "app" ["rec"; "b"])
               (mkTupleSpec "in" ["rec"]) "SelectionComp_1" "attAccess_0" in
  let one := HashOne (mkTupleSpec "app" ["b"]) (mkTupleSpec "one" ["rec"; "b"; "h"])
               (mkTupleSpec "app" ["rec"; "b"]) "SelectionComp_1" in
  let flt := ApplyFilter (mkTupleSpec "one" ["b"]) (mkTupleSpec "flt" ["rec"; "b"])
               (mkTupleSpec "one" ["rec"; "b"]) "SelectionComp_1" in
  match (a <- make_shared scan ;; _ <- addAtomicComputation a ;;
         a <- make_shared app ;; _ <- addAtomicComputation a ;;
         a <- make_shared one ;; _ <- addAtomicComputation a ;;
         a <- make_shared flt ;; addAtomicComputation a) empty_plan with
  | Ok _ p => p
  | _ => empty_plan
  end.
Definition demo_rank (n : string) : nat :=
  default 0 (find_pos n ["in"; "app"; "one"; "flt"]).

Lemma findSource_correct_witness :
  findSource 4 "flt" "b" demo_plan
    = outcome_of demo_plan (Source ("SelectionComp_1", "attAccess_0"))
  <-> source_of demo_plan "flt" "b" (Source ("SelectionComp_1", "attAccess_0")).
Proof.
  eapply (findSource_correct demo_rank demo_plan).
  - apply wf_planb_sound. vm_compute. reflexivity.
  - vm_compute. reflexivity.
  - apply is_write_spec. reflexivity.
  - apply list_elem_of_In. simpl. tauto.
  - vm_compute. lia.
Defined.
