(* ===== verification/TcapText.v ===== *)
(** The text of a plan: writeOut of every class and operator<< of a plan
    (AtomicComputationClasses.h, KeyValueList.h), and the scanner, the grammar
    and its actions that read it back (Lexer.l, Parser.y,
    ParserHelperFunctions.cc under pdb/src/logicalPlan/source). *)

From Stdlib Require Import Ascii.
From S2P Require Import Prelude AtomicComputation AtomicComputationList.

Definition nl : string := String (Ascii.ascii_of_nat 10) "".

Definition ApplyLambda_writeOut (c : AtomicComputation) (lambdaName : string) : string :=
  print_TupleSpec (output c) +:+ " <= APPLY (" +:+ print_TupleSpec (input c) +:+ ", "
  +:+ print_TupleSpec (projection c) +:+ ", '" +:+ computationName c +:+ "', '"
  +:+ lambdaName +:+ "')" +:+ nl.

Definition HashLeft_writeOut (c : AtomicComputation) (lambdaName : string) : string :=
  print_TupleSpec (output c) +:+ " <= HASHLEFT (" +:+ print_TupleSpec (input c) +:+ ", "
  +:+ print_TupleSpec (projection c) +:+ ", '" +:+ computationName c +:+ "', '"
  +:+ lambdaName +:+ "')" +:+ nl.

Definition HashRight_writeOut (c : AtomicComputation) (lambdaName : string) : string :=
  print_TupleSpec (output c) +:+ " <= HASHRIGHT (" +:+ print_TupleSpec (input c) +:+ ", "
  +:+ print_TupleSpec (projection c) +:+ ", '" +:+ computationName c +:+ "', '"
  +:+ lambdaName +:+ "')" +:+ nl.

Definition HashOne_writeOut (c : AtomicComputation) : string :=
  print_TupleSpec (output c) +:+ " <= HASHONE (" +:+ print_TupleSpec (input c) +:+ ", "
  +:+ print_TupleSpec (projection c) +:+ ", '" +:+ computationName c +:+ "')" +:+ nl.

Definition Flatten_writeOut (c : AtomicComputation) : string :=
  print_TupleSpec (output c) +:+ " <= FLATTEN (" +:+ print_TupleSpec (input c) +:+ ", "
  +:+ print_TupleSpec (projection c) +:+ ", '" +:+ computationName c +:+ "')" +:+ nl.

Definition Union_writeOut (c : AtomicComputation) (rightInput : TupleSpec) : string :=
  print_TupleSpec (output c) +:+ " <= UNION (" +:+ print_TupleSpec (input c) +:+ ", "
  +:+ print_TupleSpec rightInput +:+ ", '" +:+ computationName c +:+ "')" +:+ nl.

Definition ApplyFilter_writeOut (c : AtomicComputation) : string :=
  print_TupleSpec (output c) +:+ " <= FILTER (" +:+ print_TupleSpec (input c) +:+ ", "
  +:+ print_TupleSpec (projection c) +:+ ", '" +:+ computationName c +:+ "')" +:+ nl.

(** The quote before the input specification is the code's. *)
Definition ApplyAgg_writeOut (c : AtomicComputation) : string :=
  print_TupleSpec (output c) +:+ " <= AGGREGATE ( '" +:+ print_TupleSpec (input c)
  +:+ ", '" +:+ computationName c +:+ "')" +:+ nl.

Definition ScanSet_writeOut (c : AtomicComputation) (setSpecifier : string * string) : string :=
  print_TupleSpec (output c) +:+ " <= SCAN ( '" +:+ setSpecifier.1 +:+ "', '"
  +:+ setSpecifier.2 +:+ "', '" +:+ computationName c +:+ "')" +:+ nl.

Definition WriteSet_writeOut (c : AtomicComputation) (dbName setName : string) : string :=
  print_TupleSpec (output c) +:+ " <= OUTPUT ( " +:+ print_TupleSpec (input c) +:+ ", '"
  +:+ dbName +:+ "', '" +:+ setName +:+ "', '" +:+ computationName c +:+ "')" +:+ nl.

Definition ApplyJoin_writeOut (c : AtomicComputation)
    (rightInput rightProjection : TupleSpec) : string :=
  print_TupleSpec (output c) +:+ " <= JOIN (" +:+ print_TupleSpec (input c) +:+ ", "
  +:+ print_TupleSpec (projection c) +:+ ", " +:+ print_TupleSpec rightInput +:+ ", "
  +:+ print_TupleSpec rightProjection +:+ ", '" +:+ computationName c +:+ "')" +:+ nl.

Definition writeOut (c : AtomicComputation) : string :=
  match kind c with
  | KApplyLambda l => ApplyLambda_writeOut c l
  | KHashLeft l => HashLeft_writeOut c l
  | KHashRight l => HashRight_writeOut c l
  | KHashOne => HashOne_writeOut c
  | KFlatten => Flatten_writeOut c
  | KUnion r => Union_writeOut c r
  | KApplyFilter => ApplyFilter_writeOut c
  | KApplyAgg => ApplyAgg_writeOut c
  | KScanSet s _ => ScanSet_writeOut c s
  | KWriteSet d s => WriteSet_writeOut c d s
  | KApplyJoin r rp => ApplyJoin_writeOut c r rp
  end.

(** The computations one after the other. *)
Fixpoint write_all (cs : list AtomicComputation) : string :=
  match cs with
  | [] => ""
  | c :: cs' => writeOut c +:+ write_all cs'
  end.

(** [operator<<] walks the producers in the order of their names and
    dereferences each of them. *)
Definition sorted_producers (p : PlanState) : list (option addr) :=
  omap (fun n => producers p !! n)
    (merge_sort String.le (map fst (map_to_list (producers p)))).
Fixpoint print_producers (l : list (option addr)) : M PlanState string :=
  match l with
  | [] => mret ""
  | a :: l' =>
      c <- deref a ;;
      rest <- print_producers l' ;;
      mret (writeOut c +:+ rest)
  end.
Definition print_plan : M PlanState string :=
  p <- get ;; print_producers (sorted_producers p).

(** ** Tokens *)
Inductive keyword :=
| FILTER | APPLY | HASHLEFT | HASHRIGHT | HASHONE | FLATTEN | UNION | SCAN
| AGG | JOIN | OUTPUT | PARTITION.
Inductive token :=
| TKey (k : keyword)
| TIdent (s : string)
| TString (s : string)
| TGets
| TPunct (c : ascii).

#[export] Instance keyword_eq_dec : EqDecision keyword.
Proof. solve_decision. Defined.
#[export] Instance token_eq_dec : EqDecision token.
Proof. solve_decision. Defined.

(** ** Character classes *)
Definition in_range (lo hi : ascii) (c : ascii) : bool :=
  (nat_of_ascii lo <=? nat_of_ascii c) && (nat_of_ascii c <=? nat_of_ascii hi).
Definition is_alpha (c : ascii) : bool := in_range "A" "Z" c || in_range "a" "z" c.
Definition is_ident (c : ascii) : bool :=
  is_alpha c || in_range "0" "9" c || bool_decide (c = "_"%char) || bool_decide (c = "-"%char).
Definition quote : ascii := "'"%char.
Definition backslash : ascii := "\"%char.

Definition to_lower (c : ascii) : ascii :=
  if in_range "A" "Z" c then ascii_of_nat (nat_of_ascii c + 32) else c.
Fixpoint lower (s : string) : string :=
  match s with "" => "" | String c s' => String (to_lower c) (lower s') end.

(** The keyword rules, in any mixture of cases. *)
Definition keyword_of (s : string) : option keyword :=
  let l := lower s in
  if bool_decide (l = "filter") then Some FILTER
  else if bool_decide (l = "apply") then Some APPLY
  else if bool_decide (l = "hashleft") then Some HASHLEFT
  else if bool_decide (l = "hashright") then Some HASHRIGHT
  else if bool_decide (l = "hashone") then Some HASHONE
  else if bool_decide (l = "flatten") then Some FLATTEN
  else if bool_decide (l = "union") then Some UNION
  else if bool_decide (l = "scan") then Some SCAN
  else if bool_decide (l = "aggregate") then Some AGG
  else if bool_decide (l = "join") then Some JOIN
  else if bool_decide (l = "output") then Some OUTPUT
  else if bool_decide (l = "partition") then Some PARTITION
  else None.

(** ** Scanning *)
(** The longest run of identifier characters. *)
Fixpoint span_ident (s : string) : string * string :=
  match s with
  | String c s' =>
      if is_ident c then let '(i, r) := span_ident s' in (String c i, r) else ("", s)
  | "" => ("", "")
  end.

(** The rest of a comment, from behind its opening. *)
Fixpoint skip_comment (s : string) : string :=
  match s with
  | String c1 s1 =>
      match s1 with
      | String c2 s2 =>
          if bool_decide (c1 = "*"%char) && bool_decide (c2 = "/"%char)
          then s2 else skip_comment s1
      | "" => ""
      end
  | "" => ""
  end.

(** The longest match of [(\\.|[^'])*'] and what follows it: a quote right
    behind a backslash may be content, any other quote ends the string; when
    the input ends first, the last quote seen ends it. *)
Fixpoint scan_string (prev_backslash : bool) (s : string) : option (string * string) :=
  match s with
  | "" => None
  | String c s' =>
      if bool_decide (c = quote) then
        if prev_backslash then
          match scan_string false s' with
          | Some (t, r) => Some (String c t, r)
          | None => Some ("", s')
          end
        else Some ("", s')
      else
        match scan_string (bool_decide (c = backslash)) s' with
        | Some (t, r) => Some (String c t, r)
        | None => None
        end
  end.

(** One rule: the token it returns, if any, and the rest of the input.  An
    invalid character is reported and skipped. *)
Definition lex1 (c : ascii) (s : string) : option token * string :=
  if is_alpha c then
    let '(i, r) := span_ident (String c s) in
    match keyword_of i with
    | Some k => (Some (TKey k), r)
    | None => (Some (TIdent i), r)
    end
  else if bool_decide (c ∈ [")"; "("; "["; "]"; ","]%char) then (Some (TPunct c), s)
  else if bool_decide (c = quote) then
    match scan_string false s with
    | Some (t, r) => (Some (TString t), r)
    | None => (None, s)
    end
  else
    match s with
    | String c2 s2 =>
        if bool_decide (c = "<"%char) && bool_decide (c2 = "="%char) then (Some TGets, s2)
        else if bool_decide (c = "/"%char) && bool_decide (c2 = "*"%char)
        then (None, skip_comment s2)
        else (None, s)
    | "" => (None, s)
    end.

Definition emit (o : option token) (ts : list token) : list token :=
  match o with Some t => t :: ts | None => ts end.

Fixpoint lex_fuel (fuel : nat) (s : string) : list token :=
  match fuel, s with
  | S fuel', String c s' => let '(o, r) := lex1 c s' in emit o (lex_fuel fuel' r)
  | _, _ => []
  end.

(** The code appends a NUL and scans up to the first one; every rule consumes a
    character, so the length is fuel enough. *)
Definition lex (s : string) : list token := lex_fuel (String.length s) s.

(** ** The actions: pdb/src/logicalPlan/source/ParserHelperFunctions.cc *)

Definition makeEmptyKeyValueList : KeyValueList := KeyValueList_new.
Definition makeKeyValueList (keyName valueName : string) : KeyValueList :=
  appendkeyValuePair KeyValueList_new keyName valueName.
Definition pushBackKeyValue (addToMe : KeyValueList) (keyName valueName : string) : KeyValueList :=
  appendkeyValuePair addToMe keyName valueName.
Definition makeAttList (fromMe : string) : AttList := appendAttribute AttList_new fromMe.
Definition pushBackAttribute (addToMe : AttList) (fromMe : string) : AttList :=
  appendAttribute addToMe fromMe.
Definition makeTupleSpec (setName : string) (useMe : AttList) : TupleSpec :=
  TupleSpec_ofAtts setName useMe.
Definition makeEmptyTupleSpec (setName : string) : TupleSpec := TupleSpec_ofName setName.

Definition makeFilter (output input projection : TupleSpec) (nodeName : string) : AtomicComputation :=
  ApplyFilter input output projection nodeName.
Definition makeFilterWithList (output input projection : TupleSpec) (nodeName : string)
    (useMe : KeyValueList) : AtomicComputation :=
  ApplyFilter_kv input output projection nodeName useMe.
Definition makeApply (output input projection : TupleSpec) (nodeName opName : string) : AtomicComputation :=
  ApplyLambda input output projection nodeName opName.
Definition makeApplyWithList (output input projection : TupleSpec) (nodeName opName : string)
    (useMe : KeyValueList) : AtomicComputation :=
  ApplyLambda_kv input output projection nodeName opName useMe.
Definition makeAgg (output input : TupleSpec) (nodeName : string) : AtomicComputation :=
  ApplyAgg input output input nodeName.
Definition makeAggWithList (output input : TupleSpec) (nodeName : string)
    (useMe : KeyValueList) : AtomicComputation :=
  ApplyAgg_kv input output input nodeName useMe.
Definition makeJoin (output lInput lProjection rInput rProjection : TupleSpec) (opName : string) : AtomicComputation :=
  ApplyJoin output lInput rInput lProjection rProjection opName.
Definition makeJoinWithList (output lInput lProjection rInput rProjection : TupleSpec) (opName : string)
    (useMe : KeyValueList) : AtomicComputation :=
  ApplyJoin_kv output lInput rInput lProjection rProjection opName useMe.
Definition makeHashLeft (output input projection : TupleSpec) (nodeName opName : string) : AtomicComputation :=
  HashLeft input output projection nodeName opName.
Definition makeHashLeftWithList (output input projection : TupleSpec) (nodeName opName : string)
    (useMe : KeyValueList) : AtomicComputation :=
  HashLeft_kv input output projection nodeName opName useMe.
Definition makeHashRight (output input projection : TupleSpec) (nodeName opName : string) : AtomicComputation :=
  HashRight input output projection nodeName opName.
Definition makeHashRightWithList (output input projection : TupleSpec) (nodeName opName : string)
    (useMe : KeyValueList) : AtomicComputation :=
  HashRight_kv input output projection nodeName opName useMe.
Definition makeHashOne (output input projection : TupleSpec) (nodeName : string) : AtomicComputation :=
  HashOne input output projection nodeName.
Definition makeHashOneWithList (output input projection : TupleSpec) (nodeName : string)
    (useMe : KeyValueList) : AtomicComputation :=
  HashOne_kv input output projection nodeName useMe.
Definition makeFlatten (output input projection : TupleSpec) (nodeName : string) : AtomicComputation :=
  Flatten input output projection nodeName.
Definition makeFlattenWithList (output input projection : TupleSpec) (nodeName : string)
    (useMe : KeyValueList) : AtomicComputation :=
  Flatten_kv input output projection nodeName useMe.
Definition makeUnion (output leftInput rightInput : TupleSpec) (nodeName : string) : AtomicComputation :=
  Union output leftInput rightInput nodeName.
Definition makeUnionWithList (output leftInput rightInput : TupleSpec) (nodeName : string)
    (useMe : KeyValueList) : AtomicComputation :=
  Union_kv output leftInput rightInput nodeName useMe.
Definition makeScan (output : TupleSpec) (dbName setName nodeName : string) : AtomicComputation :=
  ScanSet output dbName setName nodeName.
Definition makeScanWithList (output : TupleSpec) (dbName setName nodeName : string)
    (useMe : KeyValueList) : AtomicComputation :=
  ScanSet_kv output dbName setName nodeName useMe.
Definition makeOutput (output input : TupleSpec) (dbName setName nodeName : string) : AtomicComputation :=
  WriteSet input output input dbName setName nodeName.
Definition makeOutputWithList (output input : TupleSpec) (dbName setName nodeName : string)
    (useMe : KeyValueList) : AtomicComputation :=
  WriteSet_kv input output input dbName setName nodeName useMe.

(** ** Parsing *)
Definition parser (A : Type) : Type := list token -> option (A * list token).
#[export] Instance parser_ret : MRet parser := fun A a ts => Some (a, ts).
#[export] Instance parser_bind : MBind parser := fun A B k m ts =>
  match m ts with Some (a, ts') => k a ts' | None => None end.

Definition fail {A} : parser A := fun _ => None.
Definition next : parser token := fun ts =>
  match ts with t :: ts' => Some (t, ts') | [] => None end.
Definition expect (t : token) : parser unit :=
  t' ← next; if bool_decide (t' = t) then mret tt else fail.
Definition punct (c : ascii) : parser unit := expect (TPunct c).
Definition ident : parser string :=
  t ← next; match t with TIdent s => mret s | _ => fail end.
Definition str : parser string :=
  t ← next; match t with TString s => mret s | _ => fail end.
(** A comma and what follows it. *)
Definition comma {A} (m : parser A) : parser A := _ ← punct ","; m.

(** AttList, behind its first identifier; [pushBackAttribute] appends. *)
Fixpoint attlist_tail (l : AttList) (ts : list token) : option (AttList * list token) :=
  match ts with
  | TPunct "," :: TIdent a :: ts' => attlist_tail (pushBackAttribute l a) ts'
  | TPunct ")" :: ts' => Some (l, ts')
  | _ => None
  end.

(** [makeTupleSpec] and [makeEmptyTupleSpec] *)
Definition tuple_spec : parser TupleSpec :=
  n ← ident; _ ← punct "(";
  t ← next;
  match t with
  | TIdent a => l ← attlist_tail (makeAttList a);
                mret (makeTupleSpec n l)
  | TPunct ")" => mret (makeEmptyTupleSpec n)
  | _ => fail
  end.

Definition key_value : parser (string * string) :=
  _ ← punct "("; k ← str; v ← comma str; _ ← punct ")"; mret (k, v).

(** ListKeyValuePairs and the closing bracket; [pushBackKeyValue]. *)
Fixpoint kv_tail (fuel : nat) (l : KeyValueList) : parser KeyValueList :=
  match fuel with
  | 0 => fail
  | S fuel' =>
      t ← next;
      match t with
      | TPunct "]" => mret l
      | TPunct "," => e ← key_value; kv_tail fuel' (pushBackKeyValue l e.1 e.2)
      | _ => fail
      end
  end.

(** DictionarySpec, behind its opening bracket. *)
Definition dictionary : parser KeyValueList := fun ts =>
  match ts with
  | TPunct "]" :: ts' => Some (makeEmptyKeyValueList, ts')
  | _ => (e ← key_value;
          kv_tail (length ts) (makeKeyValueList e.1 e.2)) ts
  end.

(** The end of a computation: the closing bracket, or a dictionary before it. *)
Definition finish (plain : AtomicComputation) (withList : KeyValueList -> AtomicComputation)
    : parser AtomicComputation :=
  t ← next;
  match t with
  | TPunct ")" => mret plain
  | TPunct "," =>
      _ ← punct "["; d ← dictionary; _ ← punct ")"; mret (withList d)
  | _ => fail
  end.

(** AtomicComputation: one production per computation, its actions the
    [make...] and [make...WithList] functions. *)
Definition atomic_computation : parser AtomicComputation :=
  out ← tuple_spec; _ ← expect TGets; k ← next; _ ← punct "(";
  match k with
  | TKey APPLY =>
      inp ← tuple_spec; proj ← comma tuple_spec; node ← comma str; op ← comma str;
      finish (makeApply out inp proj node op) (makeApplyWithList out inp proj node op)
  | TKey AGG =>
      inp ← tuple_spec; node ← comma str;
      finish (makeAgg out inp node) (makeAggWithList out inp node)
  | TKey SCAN =>
      db ← str; set ← comma str; node ← comma str;
      finish (makeScan out db set node) (makeScanWithList out db set node)
  | TKey OUTPUT =>
      inp ← tuple_spec; db ← comma str; set ← comma str; node ← comma str;
      finish (makeOutput out inp db set node) (makeOutputWithList out inp db set node)
  | TKey JOIN =>
      lin ← tuple_spec; lproj ← comma tuple_spec; rin ← comma tuple_spec;
      rproj ← comma tuple_spec; op ← comma str;
      finish (makeJoin out lin lproj rin rproj op) (makeJoinWithList out lin lproj rin rproj op)
  | TKey FILTER =>
      inp ← tuple_spec; proj ← comma tuple_spec; node ← comma str;
      finish (makeFilter out inp proj node) (makeFilterWithList out inp proj node)
  | TKey HASHLEFT =>
      inp ← tuple_spec; proj ← comma tuple_spec; node ← comma str; op ← comma str;
      finish (makeHashLeft out inp proj node op) (makeHashLeftWithList out inp proj node op)
  | TKey HASHRIGHT =>
      inp ← tuple_spec; proj ← comma tuple_spec; node ← comma str; op ← comma str;
      finish (makeHashRight out inp proj node op) (makeHashRightWithList out inp proj node op)
  | TKey HASHONE =>
      inp ← tuple_spec; proj ← comma tuple_spec; node ← comma str;
      finish (makeHashOne out inp proj node) (makeHashOneWithList out inp proj node)
  | TKey FLATTEN =>
      inp ← tuple_spec; proj ← comma tuple_spec; node ← comma str;
      finish (makeFlatten out inp proj node) (makeFlattenWithList out inp proj node)
  | TKey UNION =>
      lin ← tuple_spec; rin ← comma tuple_spec; node ← comma str;
      finish (makeUnion out lin rin node) (makeUnionWithList out lin rin node)
  | _ => fail
  end.

(** AtomicComputationList: one or more computations up to the end of input. *)
Fixpoint computation_list (fuel : nat) (ts : list token) : option (list AtomicComputation) :=
  match fuel with
  | 0 => None
  | S fuel' =>
      match atomic_computation ts with
      | None => None
      | Some (c, []) => Some [c]
      | Some (c, ts') => cons c <$> computation_list fuel' ts'
      end
  end.
Definition parse (s : string) : option (list AtomicComputation) :=
  let ts := lex s in computation_list (S (length ts)) ts.

Definition pushBackAtomicComputation (c : AtomicComputation) : M PlanState unit :=
  a <- make_shared c ;; addAtomicComputation a.
(** [new AtomicComputationList], then the first computation. *)
Definition makeAtomicComputationList (c : AtomicComputation) : M PlanState unit :=
  _ <- put empty_plan ;; pushBackAtomicComputation c.

(** The list production: each parsed computation becomes a shared object. *)
Definition build_plan (cs : list AtomicComputation) : M PlanState unit :=
  match cs with
  | [] => mret tt
  | c :: cs' => _ <- makeAtomicComputationList c ;; for_each cs' pushBackAtomicComputation
  end.

(** [LogicalPlan::init] on a TCAP string: a parse error exits. *)
Definition compile_tcap (tcap : string) : M PlanState unit :=
  match parse tcap with
  | Some cs => build_plan cs
  | None => exit
  end.
