(* ===== verification/TcapRoundtrip.v ===== *)
(** Serialising and parsing TCAP are inverse to each other, except for
    aggregates, whose serialisation is not TCAP. *)

From S2P Require Import Prelude AtomicComputation AtomicComputationList.
From S2P Require Import TcapText.
From Stdlib Require Import Ascii.

(** ** Names that survive *)

(** An identifier of the grammar: its characters, and no keyword. *)
Definition good_ident (s : string) : bool :=
  match s with
  | "" => false
  | String c _ =>
      is_alpha c && bool_decide (span_ident s = (s, "")) && bool_decide (keyword_of s = None)
  end.
(** The content of a quoted string: no quote and no backslash. *)
Fixpoint good_str (s : string) : bool :=
  match s with
  | "" => true
  | String c s' =>
      negb (bool_decide (c = quote)) && negb (bool_decide (c = backslash)) && good_str s'
  end.
Definition good_spec (t : TupleSpec) : bool :=
  good_ident (setName t) && forallb good_ident (atts t).

(** What a serialised computation can be read back as: its names can be, and
    the parts the text leaves out have the values the parser gives them. *)
Definition reparsable (c : AtomicComputation) : bool :=
  good_spec (output c) && good_str (computationName c) &&
  bool_decide (keyValuePairs c = ∅) &&
  match kind c with
  | KApplyLambda l | KHashLeft l | KHashRight l =>
      good_spec (input c) && good_spec (projection c) && good_str l
  | KHashOne | KFlatten | KApplyFilter => good_spec (input c) && good_spec (projection c)
  | KUnion r => good_spec (input c) && good_spec r && bool_decide (projection c = input c)
  | KScanSet s ps =>
      good_str s.1 && good_str s.2 && bool_decide (ps = (0%Z, ""))
      && bool_decide (input c = TupleSpec_empty) && bool_decide (projection c = TupleSpec_empty)
  | KWriteSet d s =>
      good_spec (input c) && good_str d && good_str s && bool_decide (projection c = input c)
  | KApplyJoin r rp =>
      good_spec (input c) && good_spec (projection c) && good_spec r && good_spec rp
  | KApplyAgg => false
  end.

(** An aggregate whose names are fine. *)
Definition good_agg (c : AtomicComputation) : bool :=
  match kind c with
  | KApplyAgg => good_spec (output c) && good_spec (input c) && good_str (computationName c)
  | _ => false
  end.

(** ** The tokens of a serialised computation *)
Definition attr_toks (l : list string) : list token :=
  match l with
  | [] => []
  | a :: l' => TIdent a :: concat (map (fun b => [TPunct ","%char; TIdent b]) l')
  end.
Definition spec_toks (t : TupleSpec) : list token :=
  TIdent (setName t) :: TPunct "("%char :: attr_toks (atts t) ++ [TPunct ")"%char].
Definition comma_spec (t : TupleSpec) : list token := TPunct ","%char :: spec_toks t.
Definition comma_str (s : string) : list token := [TPunct ","%char; TString s].
Definition args_toks (c : AtomicComputation) : list token :=
  match kind c with
  | KApplyLambda l | KHashLeft l | KHashRight l =>
      spec_toks (input c) ++ comma_spec (projection c)
        ++ comma_str (computationName c) ++ comma_str l
  | KHashOne | KFlatten | KApplyFilter =>
      spec_toks (input c) ++ comma_spec (projection c) ++ comma_str (computationName c)
  | KUnion r => spec_toks (input c) ++ comma_spec r ++ comma_str (computationName c)
  | KScanSet s _ => TString s.1 :: comma_str s.2 ++ comma_str (computationName c)
  | KWriteSet d s =>
      spec_toks (input c) ++ comma_str d ++ comma_str s ++ comma_str (computationName c)
  | KApplyJoin r rp =>
      spec_toks (input c) ++ comma_spec (projection c) ++ comma_spec r ++ comma_spec rp
        ++ comma_str (computationName c)
  | KApplyAgg => []
  end.
Definition keyword_for (c : AtomicComputation) : keyword :=
  match kind c with
  | KApplyLambda _ => APPLY | KHashLeft _ => HASHLEFT | KHashRight _ => HASHRIGHT
  | KHashOne => HASHONE | KFlatten => FLATTEN | KUnion _ => UNION
  | KApplyFilter => FILTER | KApplyAgg => AGG | KScanSet _ _ => SCAN
  | KWriteSet _ _ => OUTPUT | KApplyJoin _ _ => JOIN
  end.
Definition comp_toks (c : AtomicComputation) : list token :=
  spec_toks (output c) ++ [TGets; TKey (keyword_for c); TPunct "("%char]
    ++ args_toks c ++ [TPunct ")"%char].

(** * Scanning *)

Lemma app_String c s t : String c s +:+ t = String c (s +:+ t).
Proof. reflexivity. Qed.
Lemma app_Empty t : "" +:+ t = t.
Proof. reflexivity. Qed.
Lemma string_app_assoc (s1 s2 s3 : string) : (s1 +:+ s2) +:+ s3 = s1 +:+ (s2 +:+ s3).
Proof.
  induction s1 as [|c s1 IH]; [done|]. by rewrite !app_String, IH.
Qed.

Lemma span_ident_length s i r :
  span_ident s = (i, r) -> String.length i + String.length r = String.length s.
Proof.
  revert i r. induction s as [|c s IH]; intros i r; simpl.
  - intros H. by simplify_eq.
  - destruct (is_ident c); [|intros; by simplify_eq].
    destruct (span_ident s) as [i' r'] eqn:E. intros H. simplify_eq/=.
    specialize (IH _ _ eq_refl). lia.
Qed.

Lemma skip_comment_length s : String.length (skip_comment s) <= String.length s.
Proof.
  induction s as [|c1 [|c2 s2] IH]; simpl in *; try lia.
  destruct (_ && _); simpl; lia.
Qed.

Lemma scan_string_length b s t r :
  scan_string b s = Some (t, r) -> String.length r <= String.length s.
Proof.
  revert b t r. induction s as [|c s IH]; simpl; intros b t r; [done|].
  repeat case_match; intros [=]; subst; eauto using Nat.le_trans; try lia;
    match goal with H : scan_string _ _ = Some _ |- _ => apply IH in H; lia end.
Qed.

Lemma lex1_length c s o r : lex1 c s = (o, r) -> String.length r <= String.length s.
Proof.
  unfold lex1. destruct (is_alpha c) eqn:Ha.
  - destruct (span_ident (String c s)) as [i r'] eqn:E. intros H.
    assert (r' = r) as -> by (destruct (keyword_of i); by simplify_eq).
    simpl in E. assert (is_ident c = true) as Hi by (unfold is_ident; by rewrite Ha).
    rewrite Hi in E. destruct (span_ident s) as [i2 r2] eqn:E2. simplify_eq.
    apply span_ident_length in E2. lia.
  - intros H. repeat case_match; simplify_eq; simpl; try lia.
    + match goal with H : scan_string _ _ = Some _ |- _ => by apply scan_string_length in H end.
    + match goal with |- context [skip_comment ?x] =>
        pose proof (skip_comment_length x) end. lia.
Qed.

(** More fuel than characters changes nothing. *)
Lemma lex_fuel_enough n m s :
  String.length s <= n -> String.length s <= m -> lex_fuel n s = lex_fuel m s.
Proof.
  revert m s. induction n as [|n IH]; intros [|m] [|c s]; simpl; try (done || lia).
  intros Hn Hm. destruct (lex1 c s) as [o r] eqn:E. apply lex1_length in E.
  rewrite (IH m r); [done|lia|lia].
Qed.

Lemma lex_cons c s o r : lex1 c s = (o, r) -> lex (String c s) = emit o (lex r).
Proof.
  intros E. unfold lex at 1. simpl. rewrite E. f_equal.
  apply lex1_length in E. apply lex_fuel_enough; lia.
Qed.

Lemma is_ident_app c i s :
  span_ident i = (i, "") -> is_ident c = false ->
  span_ident (i +:+ String c s) = (i, String c s).
Proof.
  intros Hi Hc. induction i as [|d i IH]; simpl in *.
  - by rewrite Hc.
  - destruct (is_ident d); [|done].
    destruct (span_ident i) as [i' r'] eqn:E. simplify_eq.
    by rewrite IH.
Qed.

Lemma lex_ident i c s :
  good_ident i = true -> is_ident c = false ->
  lex (i +:+ String c s) = TIdent i :: lex (String c s).
Proof.
  unfold good_ident. destruct i as [|d i]; [done|].
  rewrite !andb_true_iff, !bool_decide_eq_true. intros [[Hd Hs] Hk] Hc.
  rewrite app_String. erewrite lex_cons; [|unfold lex1; rewrite Hd].
  2:{ rewrite <- app_String.
      rewrite is_ident_app by done. by rewrite Hk. }
  done.
Qed.

Lemma scan_string_good t s :
  good_str t = true -> scan_string false (t +:+ String quote s) = Some (t, s).
Proof.
  induction t as [|c t IH]; [done|].
  rewrite app_String. simpl.
  rewrite !andb_true_iff, !negb_true_iff, !bool_decide_eq_false. intros [[H1 H2] Ht].
  rewrite (bool_decide_eq_false_2 _ H1), (bool_decide_eq_false_2 _ H2).
  by rewrite IH.
Qed.

Lemma lex_str t s :
  good_str t = true -> lex (String quote (t +:+ String quote s)) = TString t :: lex s.
Proof.
  intros Ht. erewrite lex_cons; [|unfold lex1; cbn -[scan_string];
    by rewrite scan_string_good]. done.
Qed.

Lemma lex_blank s : lex (String " " s) = lex s.
Proof. erewrite lex_cons; [|unfold lex1; simpl; by destruct s]. done. Qed.
Lemma lex_space s : lex (" " +:+ s) = lex s.
Proof. rewrite app_String, app_Empty. apply lex_blank. Qed.
Lemma lex_nl s : lex (nl +:+ s) = lex s.
Proof. unfold nl. rewrite app_String, app_Empty. erewrite lex_cons; [|unfold lex1; simpl; by destruct s]. done. Qed.
Lemma lex_punct c s :
  c ∈ [")"; "("; "["; "]"; ","]%char -> lex (String c s) = TPunct c :: lex s.
Proof.
  intros Hc. erewrite lex_cons; [|unfold lex1].
  2:{ rewrite bool_decide_eq_true_2 by done.
      assert (is_alpha c = false) as ->; [|done].
      repeat (apply elem_of_cons in Hc as [->|Hc]; [done|]). by apply elem_of_nil in Hc. }
  done.
Qed.
Lemma lex_gets s : lex ("<=" +:+ s) = TGets :: lex s.
Proof. rewrite !app_String, app_Empty. erewrite lex_cons; [|reflexivity]. done. Qed.
Lemma lex_keyword k w s :
  span_ident w = (w, "") -> keyword_of w = Some k ->
  match w with "" => False | String d _ => is_alpha d = true end ->
  lex (w +:+ String " " s) = TKey k :: lex (String " " s).
Proof.
  intros Hw Hk. destruct w as [|d w]; [done|]. intros Hd.
  rewrite app_String. erewrite lex_cons; [|unfold lex1; rewrite Hd].
  2:{ rewrite <- app_String.
      rewrite is_ident_app by done. by rewrite Hk. }
  done.
Qed.

(** Character lists pushed into the text one at a time. *)
Create Rewrite HintDb tcap.
#[local] Hint Rewrite string_app_assoc app_String app_Empty : tcap.
#[local] Hint Rewrite lex_blank : tcap.

Lemma lex_print_atts b l s :
  forallb good_ident l = true ->
  lex (print_atts b l +:+ String ")" s) =
  (if b then attr_toks l else concat (map (fun a => [TPunct ","%char; TIdent a]) l))
    ++ lex (String ")" s).
Proof.
  revert b. induction l as [|a l IH]; intros b; simpl.
  { intros _. by destruct b. }
  rewrite andb_true_iff. intros [Ha Hl].
  assert (exists c r, print_atts false l +:+ String ")" s = String c r /\ is_ident c = false)
    as (c & r & Hr & Hc).
  { destruct l; simpl; autorewrite with tcap; eauto. }
  assert (lex (a +:+ print_atts false l +:+ String ")" s) =
          TIdent a :: concat (map (fun a => [TPunct ","%char; TIdent a]) l)
            ++ lex (String ")" s)) as Hgo.
  { rewrite Hr, lex_ident by done. rewrite <- Hr, IH by done. done. }
  destruct b; autorewrite with tcap; [by rewrite Hgo|].
  rewrite lex_punct by set_solver. rewrite lex_blank, Hgo. done.
Qed.

Lemma lex_spec t s :
  good_spec t = true -> lex (print_TupleSpec t +:+ s) = spec_toks t ++ lex s.
Proof.
  unfold good_spec, print_TupleSpec, spec_toks. rewrite andb_true_iff. intros [Hn Hl].
  autorewrite with tcap. rewrite lex_ident by done.
  rewrite lex_blank, lex_punct by set_solver.
  rewrite lex_print_atts by done. rewrite lex_punct by set_solver.
  simpl. by rewrite <- app_assoc.
Qed.

(** The pieces a serialised computation is made of. *)
Lemma lex_comma_spec t s :
  good_spec t = true -> lex (", " +:+ print_TupleSpec t +:+ s) = comma_spec t ++ lex s.
Proof.
  intros Ht. rewrite !app_String, app_Empty, lex_punct by set_solver.
  by rewrite lex_blank, lex_spec.
Qed.

Lemma lex_quoted n s :
  good_str n = true -> lex (" '" +:+ n +:+ "'" +:+ s) = TString n :: lex s.
Proof.
  intros Hn. rewrite !app_String, !app_Empty, lex_blank. by apply lex_str.
Qed.

Lemma lex_comma_str n s :
  good_str n = true -> lex (", '" +:+ n +:+ "'" +:+ s) = comma_str n ++ lex s.
Proof.
  intros Hn. change (", '" +:+ n +:+ "'" +:+ s) with ("," +:+ " '" +:+ n +:+ "'" +:+ s).
  rewrite app_String, app_Empty, lex_punct by set_solver. by rewrite lex_quoted.
Qed.

Lemma lex_close s : lex (")" +:+ nl +:+ s) = TPunct ")"%char :: lex s.
Proof. rewrite app_String, app_Empty, lex_punct by set_solver. by rewrite lex_nl. Qed.

Definition keyword_text (k : keyword) : string :=
  match k with
  | FILTER => "FILTER" | APPLY => "APPLY" | HASHLEFT => "HASHLEFT"
  | HASHRIGHT => "HASHRIGHT" | HASHONE => "HASHONE" | FLATTEN => "FLATTEN"
  | UNION => "UNION" | SCAN => "SCAN" | AGG => "AGGREGATE" | JOIN => "JOIN"
  | OUTPUT => "OUTPUT" | PARTITION => "PARTITION"
  end.
Definition header_text (k : keyword) : string := " <= " +:+ keyword_text k +:+ " (".

Lemma lex_header k s :
  lex (header_text k +:+ s) = TGets :: TKey k :: TPunct "("%char :: lex s.
Proof.
  unfold header_text. rewrite !string_app_assoc.
  change (" <= " +:+ keyword_text k +:+ " (" +:+ s)
    with (String " " ("<=" +:+ String " " (keyword_text k +:+ String " " ("(" +:+ s)))).
  rewrite lex_blank, lex_gets, lex_blank, (lex_keyword k) by (by destruct k).
  rewrite lex_blank, app_String, app_Empty, lex_punct by set_solver. done.
Qed.

(** What stands behind the opening bracket. *)
Definition body_text (c : AtomicComputation) : string :=
  let name := computationName c in
  match kind c with
  | KApplyLambda l | KHashLeft l | KHashRight l =>
      print_TupleSpec (input c) +:+ ", " +:+ print_TupleSpec (projection c)
      +:+ ", '" +:+ name +:+ "'" +:+ ", '" +:+ l +:+ "'" +:+ ")" +:+ nl
  | KHashOne | KFlatten | KApplyFilter =>
      print_TupleSpec (input c) +:+ ", " +:+ print_TupleSpec (projection c)
      +:+ ", '" +:+ name +:+ "'" +:+ ")" +:+ nl
  | KUnion r =>
      print_TupleSpec (input c) +:+ ", " +:+ print_TupleSpec r
      +:+ ", '" +:+ name +:+ "'" +:+ ")" +:+ nl
  | KScanSet s _ =>
      " '" +:+ s.1 +:+ "'" +:+ ", '" +:+ s.2 +:+ "'" +:+ ", '" +:+ name +:+ "'" +:+ ")" +:+ nl
  | KWriteSet d s =>
      " " +:+ print_TupleSpec (input c) +:+ ", '" +:+ d +:+ "'" +:+ ", '" +:+ s +:+ "'"
      +:+ ", '" +:+ name +:+ "'" +:+ ")" +:+ nl
  | KApplyJoin r rp =>
      print_TupleSpec (input c) +:+ ", " +:+ print_TupleSpec (projection c)
      +:+ ", " +:+ print_TupleSpec r +:+ ", " +:+ print_TupleSpec rp
      +:+ ", '" +:+ name +:+ "'" +:+ ")" +:+ nl
  | KApplyAgg =>
      " '" +:+ print_TupleSpec (input c) +:+ ", '" +:+ name +:+ "')" +:+ nl
  end.

Lemma writeOut_split c :
  writeOut c =
  print_TupleSpec (output c) +:+ header_text (keyword_for c) +:+ body_text c.
Proof. unfold writeOut, keyword_for, body_text. by destruct (kind c). Qed.

Lemma lex_body c s :
  reparsable c = true ->
  lex (body_text c +:+ s) = args_toks c ++ TPunct ")"%char :: lex s.
Proof.
  unfold reparsable, body_text, args_toks.
  destruct (kind c); rewrite ?andb_true_iff; intros; destruct_and?; try done;
    rewrite ?string_app_assoc, ?lex_space, ?lex_spec, ?lex_comma_spec,
      ?lex_quoted, ?lex_comma_str, ?lex_close by done;
    rewrite <- ?app_assoc; simpl; rewrite <- ?app_assoc; done.
Qed.

Lemma lex_writeOut c s :
  reparsable c = true -> lex (writeOut c +:+ s) = comp_toks c ++ lex s.
Proof.
  intros Hc. rewrite writeOut_split, !string_app_assoc, lex_spec, lex_header, lex_body; try done.
  - unfold comp_toks. rewrite <- !app_assoc. simpl. by rewrite <- app_assoc.
  - unfold reparsable in Hc. rewrite !andb_true_iff in Hc. tauto.
Qed.

(** * Parsing *)

Lemma parse_attlist l acc ts :
  attlist_tail acc (concat (map (fun a => [TPunct ","%char; TIdent a]) l)
                      ++ TPunct ")"%char :: ts)
  = Some (mkAttList (attList_atts acc ++ l), ts).
Proof.
  revert acc. induction l as [|a l IH]; intros acc; simpl.
  - rewrite app_nil_r. by destruct acc.
  - rewrite IH. simpl. by rewrite <- app_assoc.
Qed.

Lemma parser_bind_Some {A B} (m : parser A) (k : A -> parser B) ts a ts' :
  m ts = Some (a, ts') -> (m ≫= k) ts = k a ts'.
Proof. unfold mbind, parser_bind. by intros ->. Qed.

Lemma parse_spec t ts : tuple_spec (spec_toks t ++ ts) = Some (t, ts).
Proof.
  destruct t as [n [|a l]]; [done|].
  unfold tuple_spec, spec_toks, attr_toks. simpl. rewrite <- app_assoc. simpl.
  do 3 (erewrite parser_bind_Some by reflexivity). cbv beta iota.
  erewrite parser_bind_Some by apply parse_attlist. done.
Qed.

Lemma parse_comma_spec t ts : comma tuple_spec (comma_spec t ++ ts) = Some (t, ts).
Proof. unfold comma, comma_spec. simpl. cbn. apply (parse_spec t ts). Qed.

Lemma parse_comma_str n ts : comma str (comma_str n ++ ts) = Some (n, ts).
Proof. done. Qed.

#[local] Opaque spec_toks comma_spec comma_str.

(** Run a parser over the tokens of a computation, argument by argument. *)
Ltac parse_step :=
  first
    [ erewrite parser_bind_Some by apply parse_spec
    | erewrite parser_bind_Some by apply parse_comma_spec
    | erewrite parser_bind_Some by apply parse_comma_str
    | erewrite parser_bind_Some by reflexivity ].

Lemma parse_comp c ts :
  reparsable c = true -> atomic_computation (comp_toks c ++ ts) = Some (c, ts).
Proof.
  unfold reparsable, comp_toks, args_toks, atomic_computation, keyword_for.
  rewrite !andb_true_iff, !bool_decide_eq_true. intros [[[_ _] Hkv] Hk].
  rewrite <- app_assoc. parse_step. simpl. do 3 parse_step.
  destruct c as [ci co cp cn ckv k]; simpl in *; subst ckv.
  destruct k; rewrite ?andb_true_iff, ?bool_decide_eq_true in Hk; destruct_and?; subst;
    try done; rewrite <- ?app_assoc; simpl; rewrite <- ?app_assoc; repeat parse_step;
    try reflexivity.
  all: match goal with s : (string * string)%type |- _ => by destruct s end.
Qed.

Lemma parse_list cs fuel :
  cs <> [] -> forallb reparsable cs = true -> length cs <= fuel ->
  computation_list fuel (concat (map comp_toks cs)) = Some cs.
Proof.
  revert fuel. induction cs as [|c cs IH]; intros [|fuel]; simpl; try (done || lia).
  intros _. rewrite andb_true_iff. intros [Hc Hcs] Hf.
  rewrite parse_comp by done. destruct cs as [|d cs]; [done|].
  rewrite IH; [|done|done|lia].
  by destruct (concat (map comp_toks (d :: cs))) eqn:E.
Qed.

Lemma lex_write_all cs s :
  forallb reparsable cs = true ->
  lex (write_all cs +:+ s) = concat (map comp_toks cs) ++ lex s.
Proof.
  induction cs as [|c cs IH]; simpl; [done|].
  rewrite andb_true_iff. intros [Hc Hcs].
  rewrite string_app_assoc, lex_writeOut, IH by done. by rewrite app_assoc.
Qed.

Lemma comp_toks_length cs : length cs <= length (concat (map comp_toks cs)).
Proof.
  induction cs as [|c cs IH]; simpl; [lia|].
  rewrite length_app. unfold comp_toks at 1. rewrite !length_app. simpl. lia.
Qed.

(** ** Aggregates *)

Lemma good_str_app s t : good_str s = true -> good_str t = true -> good_str (s +:+ t) = true.
Proof.
  induction s as [|c s IH]; [done|]. rewrite app_String. simpl.
  rewrite !andb_true_iff. naive_solver.
Qed.

Lemma good_ident_str s : good_ident s = true -> good_str s = true.
Proof.
  unfold good_ident. destruct s as [|c s]; [done|].
  rewrite !andb_true_iff, bool_decide_eq_true. intros [[_ H] _].
  revert H. generalize (String c s). clear c s.
  induction s as [|c s IH]; [done|]. simpl.
  destruct (is_ident c) eqn:Hc; [|done].
  destruct (span_ident s) as [i r]. intros [= -> ->].
  rewrite !andb_true_iff, !negb_true_iff, !bool_decide_eq_false.
  split_and!; [by intros ->|by intros ->|by apply IH].
Qed.

Lemma good_print_spec t : good_spec t = true -> good_str (print_TupleSpec t) = true.
Proof.
  unfold good_spec, print_TupleSpec. rewrite andb_true_iff. intros [Hn Hl].
  apply good_str_app; [by apply good_ident_str|]. apply good_str_app; [done|].
  apply good_str_app; [|done]. generalize true at 1.
  induction (atts t) as [|a l IH]; intros b; [done|]. simpl in *.
  apply andb_true_iff in Hl as [Ha Hl].
  repeat apply good_str_app; [by destruct b|by apply good_ident_str|by apply IH].
Qed.

Lemma lex_agg c s :
  good_agg c = true ->
  exists w ts, lex (writeOut c +:+ s) =
    spec_toks (output c) ++ TGets :: TKey AGG :: TPunct "("%char :: TString w :: ts.
Proof.
  unfold good_agg. intros H.
  assert (kind c = KApplyAgg) as K by (by destruct (kind c)).
  rewrite K, !andb_true_iff in H. destruct H as [[Ho Hi] Hn].
  rewrite writeOut_split. unfold body_text, keyword_for. rewrite K.
  rewrite !string_app_assoc, lex_spec, lex_header by done.
  exists (print_TupleSpec (input c) +:+ ", ").
  eexists. do 4 f_equal.
  transitivity (lex (" '" +:+ (print_TupleSpec (input c) +:+ ", ") +:+ "'" +:+
                     computationName c +:+ "')" +:+ nl +:+ s)).
  { by rewrite !string_app_assoc. }
  rewrite lex_quoted; [done|]. apply good_str_app; [by apply good_print_spec|done].
Qed.

Lemma parse_agg_fails out w ts :
  atomic_computation
    (spec_toks out ++ TGets :: TKey AGG :: TPunct "("%char :: TString w :: ts) = None.
Proof. unfold atomic_computation. by do 4 parse_step. Qed.

Lemma parse_list_fails cs rest fuel :
  forallb reparsable cs = true -> atomic_computation rest = None -> rest <> [] ->
  computation_list fuel (concat (map comp_toks cs) ++ rest) = None.
Proof.
  revert fuel. induction cs as [|c cs IH]; intros [|fuel]; simpl; try done.
  { by intros _ ->. }
  rewrite andb_true_iff. intros [Hc Hcs] Hr Hne.
  rewrite <- app_assoc, parse_comp by done. rewrite IH by done.
  by destruct (concat (map comp_toks cs)), rest.
Qed.


(** the text of an aggregate is not TCAP, whatever its names and whatever
    follows it: a program that contains one, serialised, does not parse. *)
Theorem parse_agg_none cs c cs' :
  forallb reparsable cs = true -> good_agg c = true ->
  parse (write_all (cs ++ c :: cs')) = None.
Proof.
  intros Hcs Hc. unfold parse.
  assert (write_all (cs ++ c :: cs') = write_all cs +:+ (writeOut c +:+ write_all cs')) as ->.
  { clear. induction cs as [|d cs IH]; [done|]. simpl. by rewrite IH, string_app_assoc. }
  rewrite lex_write_all by done.
  destruct (lex_agg c (write_all cs') Hc) as (w & ts & ->).
  apply parse_list_fails; [done|apply parse_agg_fails|].
  by destruct (spec_toks (output c)).
Qed.

(** * A program that survives, and one that does not *)
Definition demo_spec (n : string) : TupleSpec := mkTupleSpec n ["rec"; "att_1"].
Definition demo_program : list AtomicComputation :=
  [ ScanSet (demo_spec "in") "db" "set" "SetScanner_0";
    ApplyLambda (demo_spec "in") (demo_spec "a") (demo_spec "in") "Sel_1" "native_lambda_0";
    ApplyFilter (demo_spec "a") (demo_spec "f") (mkTupleSpec "a" []) "Sel_1";
    WriteSet (demo_spec "f") (demo_spec "out") (demo_spec "f") "db" "res" "SetWriter_2" ].


Lemma parse_agg_none_witness :
  parse (write_all (demo_program ++
    ApplyAgg (demo_spec "f") (demo_spec "g") (demo_spec "f") "Agg_3" :: [])) = None.
Proof. apply (parse_agg_none demo_program); vm_compute; reflexivity. Defined.
