(* ===== verification/LogicalPlan.v ===== *)
(** The logical plan of a query, its computations found by name:
    pdb/src/logicalPlan/headers/LogicalPlan.h and source/LogicalPlan.cc. *)

From Stdlib Require Import Ascii.
From stdpp Require Import pretty.
From S2P Require Import Prelude AtomicComputation AtomicComputationList TcapText.

(** Computations are known by their identity; a node wraps one. *)
Record LogicalPlan := mkLogicalPlan {
  computations : PlanState;
  allConstituentComputations : gmap string Z
}.

Section logical_plan.
(** [getComputationType] of the computation objects the plan is built with. *)
Context (getComputationType : Z -> string).

Definition computation_key (i : nat) (c : Z) : string :=
  getComputationType c +:+ "_" +:+ pretty i.

Definition LogicalPlan_init (p : PlanState) (allComputations : list Z) : LogicalPlan :=
  mkLogicalPlan p
    (foldl (fun m '(i, c) => <[computation_key i c := c]> m) ∅ (imap pair allComputations)).

Definition LogicalPlan_compile (tcap : string) (allComputations : list Z) : option LogicalPlan :=
  match compile_tcap tcap empty_plan with
  | Ok _ p => Some (LogicalPlan_init p allComputations)
  | _ => None
  end.

(** [getNode], which exits when there is no such computation. *)
Definition getNode (p : LogicalPlan) (whichNode : string) : M LogicalPlan Z :=
  match allConstituentComputations p !! whichNode with
  | Some c => mret c
  | None => exit
  end.
End logical_plan.

(** ** Names of computations are unique

    The name ends in the computation's position in decimal, behind an
    underscore, and a decimal has no underscore. *)

Fixpoint no_underscore (s : string) : Prop :=
  match s with "" => True | String c s' => c <> "_"%char /\ no_underscore s' end.

Lemma no_underscore_cons_inv s d : no_underscore (s +:+ String "_" d) -> False.
Proof. induction s as [|c s IH]; simpl; [by intros []|intros [_ H]; auto]. Qed.

Lemma suffix_inj s1 s2 d1 d2 :
  no_underscore d1 -> no_underscore d2 ->
  s1 +:+ String "_" d1 = s2 +:+ String "_" d2 -> d1 = d2.
Proof.
  intros H1 H2. revert s2. induction s1 as [|c s1 IH]; intros [|c' s2]; simpl.
  - by intros [= ->].
  - intros [= <- ->]. by apply no_underscore_cons_inv in H1.
  - intros [= -> <-]. by apply no_underscore_cons_inv in H2.
  - intros [= _ H]. eauto.
Qed.

Lemma no_underscore_go (x : N) : forall s, no_underscore s -> no_underscore (pretty_N_go x s).
Proof.
  induction (N.lt_wf_0 x) as [x _ IH]. intros s Hs.
  destruct (decide (x = 0)%N) as [->|]; [by rewrite pretty_N_go_0|].
  rewrite pretty_N_go_step by lia. apply IH; [apply N.div_lt; lia|]. split; [|done].
  unfold pretty_N_char. by repeat case_match.
Qed.

Lemma no_underscore_pretty (i : nat) : no_underscore (pretty i).
Proof.
  unfold pretty, pretty_nat, pretty, pretty_N. destruct (decide _); [done|by apply no_underscore_go].
Qed.

Lemma computation_key_inj ty i j c c' :
  computation_key ty i c = computation_key ty j c' -> i = j.
Proof.
  unfold computation_key. simpl. intros H%suffix_inj; [|apply no_underscore_pretty..].
  by apply (inj pretty) in H.
Qed.

Lemma insert_all_lookup ty l : forall off (m : gmap string Z) i c, l !! i = Some c ->
  foldl (fun m '(i, c) => <[computation_key ty i c := c]> m) m (imap (fun i c => (off + i, c)) l)
    !! computation_key ty (off + i) c = Some c.
Proof.
  induction l as [|x l IH] using rev_ind; intros off m i c Hi; [done|].
  rewrite imap_app, foldl_app. simpl. rewrite Nat.add_0_r.
  destruct (decide (i = length l)) as [->|Hne].
  - rewrite lookup_app_r, Nat.sub_diag in Hi by lia. simplify_eq/=. by rewrite lookup_insert_eq.
  - rewrite lookup_insert_ne by (intros E%computation_key_inj; lia).
    apply IH. rewrite lookup_app_l in Hi; [done|]. apply lookup_lt_Some in Hi.
    rewrite length_app in Hi. simpl in Hi. lia.
Qed.

(** A logical plan finds every computation it was built from under the
    computation's type and position, whatever the types are called, and
    keeps the parsed plan. *)
Theorem LogicalPlan_getNode ty tcap all lp i c s :
  LogicalPlan_compile ty tcap all = Some lp -> all !! i = Some c ->
  getNode lp (computation_key ty i c) s = Ok c s /\
  compile_tcap tcap empty_plan = Ok tt (computations lp).
Proof.
  unfold LogicalPlan_compile. intros H Hi.
  destruct (compile_tcap tcap empty_plan) as [[] p| | | |]; simplify_eq/=. split; [|done].
  unfold getNode. simpl. pose proof (insert_all_lookup ty all 0 ∅ i c Hi) as Hl. simpl in Hl.
  change (imap pair all) with (imap (fun i c => (i, c)) all). by rewrite Hl.
Qed.

Lemma LogicalPlan_getNode_witness :
  let ty := fun c => if bool_decide (c = 10%Z) then "SelectionComp" else "SetWriter" in
  let tcap := "in () <= SCAN ('db', 'set', 'SelectionComp_0')" in
  exists lp, LogicalPlan_compile ty tcap [10; 20]%Z = Some lp /\
    getNode lp "SetWriter_1" lp = Ok 20%Z lp /\
    compile_tcap tcap empty_plan = Ok tt (computations lp).
Proof.
  intros ty tcap. eexists. split; [vm_compute; reflexivity|].
  apply (LogicalPlan_getNode ty tcap [10; 20]%Z _ 1 20%Z); [vm_compute; reflexivity|reflexivity].
Defined.
