(* ===== verification/TupleSet.v ===== *)
(** Tuple sets, the column-oriented batches of tuples that the query pipeline
    pushes around: pdb/src/pipeline/headers/TupleSet.h.

    A tuple set maps column numbers to a pointer to a vector and to the
    maintenance functions of its type.  Columns are shared between tuple sets
    (a shallow copy does not own its vector), so the vectors live in a store
    [cols] and the tuple sets, themselves shared objects, in a store [sets]. *)

From S2P Require Import Prelude.

Abbreviation addr := positive.
Abbreviation tsid := positive.

(** ** Columns *)

(** The element types a pipeline's own columns have; [ColHandle t] are handles
    to objects of the class named [t], [ColObj t] such objects themselves (the
    keys and values of an aggregation), [ColVec] the Vector<Handle<Object>> of a
    multi-selection. *)
Inductive ColType := ColBool | ColSize | ColHandle (class : string) | ColObj (class : string) | ColVec.
#[export] Instance ColType_eq_dec : EqDecision ColType.
Proof. solve_decision. Defined.

(** Values; an object is represented by its identity, [None] is a null handle.
    An object held by value is represented by its contents, [None] being what
    the default constructor of its class makes. *)
Inductive val :=
| VBool (b : bool)
| VSize (n : Z)
| VHandle (h : option Z)
| VObj (o : option Z)
| VVec (l : list (option Z)).
#[export] Instance val_eq_dec : EqDecision val.
Proof. solve_decision. Defined.

(** Value initialisation, as in [std::vector<ColType>(n)]. *)
Definition default_val (t : ColType) : val :=
  match t with
  | ColBool => VBool false
  | ColSize => VSize 0
  | ColHandle _ => VHandle None
  | ColObj _ => VObj None
  | ColVec => VVec []
  end.

Record Column := mkColumn { col_type : ColType; col_data : list val }.

(** [MaintenanceFuncs]: the closures are determined by the column type they were
    created for, [None] when default constructed (every function empty). *)
Record MaintenanceFuncs := mkMaint {
  mfuncs : option ColType;
  mustDelete : bool;
  lastWritten : nat
}.
Definition MaintenanceFuncs_empty : MaintenanceFuncs := mkMaint None false 0.
Definition set_mustDelete (b : bool) (m : MaintenanceFuncs) : MaintenanceFuncs :=
  mkMaint (mfuncs m) b (lastWritten m).

Abbreviation TupleSet := (gmap Z (option addr * MaintenanceFuncs)).

Record mem := mkMem { cols : gmap addr Column; sets : gmap tsid TupleSet }.
Definition set_cols (f : gmap addr Column -> gmap addr Column) (m : mem) : mem :=
  mkMem (f (cols m)) (sets m).
Definition set_sets (f : gmap tsid TupleSet -> gmap tsid TupleSet) (m : mem) : mem :=
  mkMem (cols m) (f (sets m)).

(** ** Vectors in the store *)

Definition read_col (p : option addr) : M mem Column :=
  match p with
  | None => ub NullDeref
  | Some a => m <- get ;; unwrap UseAfterFree (cols m !! a)
  end.
(** A cast of the void pointer followed by an access. *)
Definition read_as (t : ColType) (p : option addr) : M mem (list val) :=
  c <- read_col p ;;
  if bool_decide (col_type c = t) then mret (col_data c) else ub BadCast.
Definition write_col (p : option addr) (t : ColType) (l : list val) : M mem unit :=
  match p with
  | None => ub NullDeref
  | Some a => modify (set_cols <[a := mkColumn t l]>)
  end.
Definition new_col (t : ColType) (l : list val) : M mem addr :=
  m <- get ;;
  let a := fresh (dom (cols m)) in
  _ <- put (set_cols <[a := mkColumn t l]> m) ;;
  mret a.
(** [delete]; deleting a null pointer does nothing. *)
Definition delete_col (p : option addr) : M mem unit :=
  match p with
  | None => mret tt
  | Some a =>
      m <- get ;;
      match cols m !! a with
      | Some _ => put (set_cols (delete a) m)
      | None => ub DoubleFree
      end
  end.

(** ** Tuple sets in the store *)

Definition read_set (ts : tsid) : M mem TupleSet :=
  m <- get ;; unwrap UseAfterFree (sets m !! ts).
Definition write_set (ts : tsid) (t : TupleSet) : M mem unit :=
  modify (set_sets <[ts := t]>).
(** [std::make_shared<TupleSet>()] *)
Definition TupleSet_new : M mem tsid :=
  m <- get ;;
  let ts := fresh (dom (sets m)) in
  _ <- put (set_sets <[ts := ∅]> m) ;;
  mret ts.
(** [columns[k]], which creates a missing entry. *)
Definition column_at (ts : tsid) (k : Z) : M mem (option addr * MaintenanceFuncs) :=
  t <- read_set ts ;;
  match t !! k with
  | Some e => mret e
  | None =>
      let e := (None, MaintenanceFuncs_empty) in
      _ <- write_set ts (<[k := e]> t) ;; mret e
  end.
Definition set_column (ts : tsid) (k : Z) (e : option addr * MaintenanceFuncs) : M mem unit :=
  t <- read_set ts ;; write_set ts (<[k := e]> t).

(** Calling an empty [std::function]. *)
Definition funcs_of (m : MaintenanceFuncs) : M mem ColType :=
  match mfuncs m with Some t => mret t | None => throw BadFunctionCall end.

(** The deleter of a column that must be deleted. *)
Definition release (e : option addr * MaintenanceFuncs) : M mem unit :=
  if mustDelete e.2 then (_ <- funcs_of e.2 ;; delete_col e.1) else mret tt.

Definition getNumColumns (ts : tsid) : M mem nat :=
  t <- read_set ts ;; mret (size t).

Fixpoint type_names_from (fuel : nat) (t : TupleSet) (i : Z) : list (option ColType) :=
  match fuel with
  | 0 => []
  | S fuel' =>
      match t !! i with
      | Some e => mfuncs e.2 :: type_names_from fuel' t (i + 1)%Z
      | None => []
      end
  end.
(** Column numbers count up from 0, so the number of columns is fuel enough. *)
Definition getTypeNames (ts : tsid) : M mem (list (option ColType)) :=
  t <- read_set ts ;; mret (type_names_from (S (size t)) t 0).

Definition hasColumn (ts : tsid) (k : Z) : M mem bool :=
  t <- read_set ts ;; mret (bool_decide (is_Some (t !! k))).

(** The opening of every operation that replaces a column: delete the old one,
    if there is one to delete. *)
Definition release_at (ts : tsid) (k : Z) : M mem unit :=
  b <- hasColumn ts k ;;
  if b then (e <- column_at ts k ;; release e) else mret tt.

Definition getNumRows (ts : tsid) (k : Z) : M mem Z :=
  b <- hasColumn ts k ;;
  if b then
    e <- column_at ts k ;;
    _ <- funcs_of e.2 ;;
    c <- read_col e.1 ;;
    mret (Z.of_nat (length (col_data c)))
  else mret (-1)%Z.

(** [getColumn<t>]: the reference, and a read through it. *)
Definition getColumn (t : ColType) (ts : tsid) (k : Z) : M mem (list val) :=
  e <- column_at ts k ;; read_as t e.1.
Definition putColumn (t : ColType) (ts : tsid) (k : Z) (l : list val) : M mem unit :=
  e <- column_at ts k ;; _ <- read_as t e.1 ;; write_col e.1 t l.

(** ** The per-type closures of [addColumn] *)

(** The rows a filter keeps. *)
Fixpoint keep (v : list val) (b : list bool) : list val :=
  match v, b with
  | x :: v', true :: b' => x :: keep v' b'
  | _ :: v', false :: b' => keep v' b'
  | _, _ => []
  end.
Definition count_true (b : list bool) : nat := length (filter (fun x => x = true) b).

(** A vector of as many elements as there are true bits, filled from the left
    with the rows whose bit is set. *)
Definition filter_col (t : ColType) (p : option addr) (whichAreValid : list bool) : M mem addr :=
  filterMe <- read_as t p ;;
  if length filterMe <=? length whichAreValid then
    let kept := keep filterMe whichAreValid in
    new_col t (kept ++ replicate (count_true whichAreValid - length kept) (default_val t))
  else ub OutOfRange.

(** The rows repeated; [None] when a row that is not there is asked for. *)
Fixpoint replicated (v : list val) (times : list Z) : option (list val) :=
  match times with
  | [] => Some []
  | n :: times' =>
      match v with
      | x :: v' => (fun r => replicate (Z.to_nat n) x ++ r) <$> replicated v' times'
      | [] => if (n <=? 0)%Z then replicated [] times' else None
      end
  end.
Definition sum_counts (times : list Z) : Z := foldr Z.add 0%Z times.
(** The size is counted in an [int]. *)
Definition replicate_col (t : ColType) (p : option addr) (times : list Z) : M mem addr :=
  replicateMe <- read_as t p ;;
  let counter := i32 (sum_counts times) in
  if (counter <? 0)%Z then throw LengthError
  else match replicated replicateMe times with
       | Some r => if (Z.of_nat (length r) <=? counter)%Z
                   then new_col t (vec_resize (default_val t) (Z.to_nat counter) r)
                   else ub OutOfRange
       | None => ub OutOfRange
       end.

(** Moves the rows from [where_] on to the other vector, which is created when
    there is none and emptied otherwise. *)
Definition split_col (t : ColType) (splitMe toMe : option addr) (where_ : nat)
    : M mem (option addr) :=
  to' <- (match toMe with
         | None => a <- new_col t [] ;; mret (Some a)
         | Some _ => _ <- read_as t toMe ;; _ <- write_col toMe t [] ;; mret toMe
         end) ;;
  left <- read_as t splitMe ;;
  if length left <? where_ then throw LengthError
  else
    _ <- write_col to' t (drop where_ left) ;;
    _ <- write_col splitMe t (take where_ left) ;;
    mret to'.

(** Appends the right vector to the left one and empties it. *)
Definition merge_col (t : ColType) (lhs rhs : option addr) : M mem (option addr) :=
  lhs' <- (match lhs with
          | None => a <- new_col t [] ;; mret (Some a)
          | Some _ => mret lhs
          end) ;;
  left <- read_as t lhs' ;;
  right <- read_as t rhs ;;
  if bool_decide (lhs' = rhs) then ub OutOfRange
  else
    _ <- write_col lhs' t (left ++ right) ;;
    _ <- write_col rhs t [] ;;
    mret lhs'.

(** ** Operations on tuple sets *)

Definition addColumn (ts : tsid) (where_ : Z) (t : ColType) (addMe : addr)
    (needToDelete : bool) : M mem unit :=
  _ <- release_at ts where_ ;;
  set_column ts where_ (Some addMe, mkMaint (Some t) needToDelete 0).

(** [usingMe] is a reference to a column of booleans, read when it is used. *)
Definition as_bools (l : list val) : M mem (list bool) :=
  mret (omap (fun v => match v with VBool b => Some b | _ => None end) l).
Definition filterColumn (ts : tsid) (whichColToFilter : Z) (usingMe : option addr) : M mem unit :=
  b <- hasColumn ts whichColToFilter ;;
  if b then
    value <- column_at ts whichColToFilter ;;
    t <- funcs_of value.2 ;;
    bits <- read_as ColBool usingMe ;; bits <- as_bools bits ;;
    res <- filter_col t value.1 bits ;;
    _ <- release value ;;
    set_column ts whichColToFilter (Some res, set_mustDelete true value.2)
  else mret tt.

Definition ts_replicate (ts fromMe : tsid) (whichColInFromMe whichColToCopyTo : Z)
    (replications : list Z) : M mem unit :=
  _ <- release_at ts whichColToCopyTo ;;
  value <- column_at fromMe whichColInFromMe ;;
  t <- funcs_of value.2 ;;
  newCol <- replicate_col t value.1 replications ;;
  set_column ts whichColToCopyTo (Some newCol, set_mustDelete true value.2).

Definition copyColumn (ts fromMe : tsid) (whichColInFromMe whichColToCopyTo : Z) : M mem unit :=
  _ <- release_at ts whichColToCopyTo ;;
  value <- column_at fromMe whichColInFromMe ;;
  set_column ts whichColToCopyTo (value.1, set_mustDelete false value.2).

(** The keys of a tuple set in the order [std::map] iterates. *)
Definition column_keys (t : TupleSet) : list Z :=
  merge_sort Z.le (map fst (map_to_list t)).

Definition split_column (lhs rhs : tsid) (where_ : nat) (k : Z) : M mem unit :=
  e <- column_at lhs k ;;
  rhsT <- read_set rhs ;;
  match rhsT !! k with
  | None =>
      t <- funcs_of e.2 ;;
      rhsVec <- split_col t e.1 None where_ ;;
      set_column rhs k (rhsVec, e.2)
  | Some r =>
      t <- funcs_of e.2 ;;
      rhsVec <- split_col t e.1 r.1 where_ ;;
      set_column rhs k (rhsVec, r.2)
  end.
Definition ts_split (lhs rhs : tsid) (where_ : nat) : M mem unit :=
  t <- read_set lhs ;; for_each (column_keys t) (split_column lhs rhs where_).

(** When the left side lacks the column, the code writes to
    [lhs.columns[it->first]] with [it] at the end of the map. *)
Definition merge_column (lhs rhs : tsid) (k : Z) : M mem unit :=
  r <- column_at rhs k ;;
  lhsT <- read_set lhs ;;
  match lhsT !! k with
  | None =>
      t <- funcs_of r.2 ;;
      _ <- merge_col t None r.1 ;;
      ub EndIteratorDeref
  | Some l =>
      t <- funcs_of r.2 ;;
      lhsVec <- merge_col t l.1 r.1 ;;
      set_column lhs k (lhsVec, l.2)
  end.
Definition ts_merge (lhs rhs : tsid) : M mem unit :=
  t <- read_set rhs ;; for_each (column_keys t) (merge_column lhs rhs).

(** The destructor. *)
Definition TupleSet_destroy (ts : tsid) : M mem unit :=
  t <- read_set ts ;;
  _ <- for_each (column_keys t) (fun k => e <- column_at ts k ;; release e) ;;
  modify (set_sets (delete ts)).
