(* ===== verification/TupleSetOwnership.v ===== *)
(** Who owns the vectors of tuple sets: the invariant behind the deleters of
    pdb/src/pipeline/headers/TupleSet.h, and that every operation keeps it.

    A tuple set deletes the columns marked [mustDelete] and no others, so at
    any time a marked column must hold a live vector of the type its
    maintenance functions were made for, and no two marked columns may hold the
    same vector.  Unmarked (shallow) columns promise nothing: they may dangle. *)

From S2P Require Import Prelude TupleSet.

(** ** The invariant *)

Definition entry (m : mem) (ts : tsid) (k : Z) : option (option addr * MaintenanceFuncs) :=
  t ← sets m !! ts; t !! k.

Definition owned (m : mem) (ts : tsid) (k : Z) (a : addr) : Prop :=
  exists mf, entry m ts k = Some (Some a, mf) /\ mustDelete mf = true.

Definition well_owned (m : mem) (e : option addr * MaintenanceFuncs) : Prop :=
  exists a c, e.1 = Some a /\ cols m !! a = Some c /\ mfuncs e.2 = Some (col_type c).

(** [mem_inv ext X m]: the vectors in the store are those of [ext], which the
    running code holds, and those owned by tuple sets, each by exactly one
    column.  [X] are the columns an operation is in the middle of replacing,
    which do not count. *)
Record mem_inv (ext : gset addr) (X : gset (tsid * Z)) (m : mem) : Prop := {
  inv_live ts k e : (ts, k) ∉ X -> entry m ts k = Some e -> mustDelete e.2 = true -> well_owned m e;
  inv_unique ts k ts' k' a : (ts, k) ∉ X -> (ts', k') ∉ X ->
    owned m ts k a -> owned m ts' k' a -> ts = ts' /\ k = k';
  inv_ext a : a ∈ ext -> is_Some (cols m !! a) /\ forall ts k, (ts, k) ∉ X -> ~ owned m ts k a;
  inv_accounted a : is_Some (cols m !! a) ->
    a ∈ ext \/ exists ts k, (ts, k) ∉ X /\ owned m ts k a
}.

(** ** What the primitives do *)

Lemma entry_set m ts t k ts' k' e :
  sets m !! ts = Some t ->
  entry (set_sets <[ts := <[k := e]> t]> m) ts' k' =
    if bool_decide (ts' = ts /\ k' = k) then Some e else entry m ts' k'.
Proof.
  intros Ht. unfold entry; simpl. case_bool_decide as E.
  - destruct E as [-> ->]. by simplify_map_eq.
  - destruct (decide (ts' = ts)) as [->|]; simplify_map_eq; done.
Qed.

Lemma read_set_inv ts m t m' :
  read_set ts m = Ok t m' -> sets m !! ts = Some t /\ m' = m.
Proof. unfold read_set. intros H. by inv_ok. Qed.

Lemma read_set_eq ts m t : sets m !! ts = Some t -> read_set ts m = Ok t m.
Proof. unfold read_set, bind, get, unwrap. by intros ->. Qed.

Lemma hasColumn_inv ts k m b m' :
  hasColumn ts k m = Ok b m' -> b = bool_decide (is_Some (entry m ts k)) /\ m' = m.
Proof.
  unfold hasColumn. intros H. inv_ok. apply read_set_inv in Hstep as [Hs ->].
  unfold entry. by rewrite Hs.
Qed.

Lemma hasColumn_eq ts k m t :
  sets m !! ts = Some t -> hasColumn ts k m = Ok (bool_decide (is_Some (t !! k))) m.
Proof. intros H. unfold hasColumn. by rewrite (bind_Ok _ _ _ _ _ (read_set_eq _ _ _ H)). Qed.

Lemma column_at_eq ts k m e : entry m ts k = Some e -> column_at ts k m = Ok e m.
Proof.
  unfold entry. intros H. destruct (sets m !! ts) as [t|] eqn:E; simplify_eq/=.
  unfold column_at. rewrite (bind_Ok _ _ _ _ _ (read_set_eq _ _ _ E)). by rewrite H.
Qed.

(** [columns[k]] of a tuple set that has the column reads it, otherwise it adds
    a column that holds nothing and that nobody owns. *)
Lemma column_at_inv ts k m e m' :
  column_at ts k m = Ok e m' ->
  (entry m ts k = Some e /\ m' = m) \/
  (exists t, sets m !! ts = Some t /\ entry m ts k = None /\ e = (None, MaintenanceFuncs_empty) /\
             m' = set_sets <[ts := <[k := e]> t]> m).
Proof.
  unfold column_at. intros H. inv_ok. apply read_set_inv in Hstep as [Hs ->].
  unfold entry. rewrite Hs; simpl. destruct (a !! k) as [e'|] eqn:E; inv_ok.
  - by left.
  - right. eexists. unfold write_set in Hstep. inv_ok. done.
Qed.

Lemma set_column_inv ts k e m u m' :
  set_column ts k e m = Ok u m' ->
  exists t, sets m !! ts = Some t /\ m' = set_sets <[ts := <[k := e]> t]> m.
Proof.
  unfold set_column, write_set. intros H. inv_ok. apply read_set_inv in Hstep as [Hs ->]. eauto.
Qed.

Lemma set_column_eq ts k e m t :
  sets m !! ts = Some t -> set_column ts k e m = Ok tt (set_sets <[ts := <[k := e]> t]> m).
Proof. intros H. unfold set_column. by rewrite (bind_Ok _ _ _ _ _ (read_set_eq _ _ _ H)). Qed.

Lemma read_as_inv t p m l m' :
  read_as t p m = Ok l m' ->
  m' = m /\ exists a, p = Some a /\ cols m !! a = Some (mkColumn t l).
Proof.
  unfold read_as, read_col. intros H. destruct p as [a|]; inv_ok.
  case_bool_decide; inv_ok. split; [done|]. exists a.
  match goal with H : cols _ !! _ = Some ?c |- _ => destruct c; simpl in *; naive_solver end.
Qed.

Lemma read_as_eq t a m l : cols m !! a = Some (mkColumn t l) -> read_as t (Some a) m = Ok l m.
Proof.
  intros H. unfold read_as, read_col, bind, get, unwrap, mret, M_ret. rewrite H; simpl.
  by rewrite bool_decide_true.
Qed.

Lemma new_col_inv t l m a m' :
  new_col t l m = Ok a m' -> cols m !! a = None /\ m' = set_cols <[a := mkColumn t l]> m.
Proof.
  unfold new_col. intros H. inv_ok. split; [|done].
  apply not_elem_of_dom. apply is_fresh.
Qed.

Lemma new_col_eq t l m :
  exists a, new_col t l m = Ok a (set_cols <[a := mkColumn t l]> m) /\ cols m !! a = None.
Proof. exists (fresh (dom (cols m) : gset addr)). split; [reflexivity|]. apply not_elem_of_dom. apply is_fresh. Qed.

(** ** The invariant across the primitives *)

Lemma not_in_add (X : gset (tsid * Z)) ts k ts' k' :
  (ts', k') ∉ X -> ~ (ts' = ts /\ k' = k) -> (ts', k') ∉ X ∪ {[(ts, k)]}.
Proof. rewrite not_elem_of_union, not_elem_of_singleton. intros ? H. split; [done|]. intros [=]. auto. Qed.

Lemma not_in_weaken (X : gset (tsid * Z)) p q : p ∉ X ∪ {[q]} -> p ∉ X /\ p <> q.
Proof. by rewrite not_elem_of_union, not_elem_of_singleton. Qed.

Local Hint Resolve not_in_add : core.

(** Changing the entry of one column that is being replaced. *)
Lemma mem_inv_set_sets ext X m ts t k e :
  mem_inv ext (X ∪ {[(ts, k)]}) m -> sets m !! ts = Some t -> mustDelete e.2 = false ->
  mem_inv ext X (set_sets <[ts := <[k := e]> t]> m).
Proof.
  intros [Hl Hu He Ha] Ht Hd. set (m' := set_sets _ m).
  assert (Hent : forall ts' k', entry m' ts' k' =
    if bool_decide (ts' = ts /\ k' = k) then Some e else entry m ts' k').
  { intros. by apply entry_set. }
  assert (Hown : forall ts' k' a, owned m' ts' k' a <-> ~ (ts' = ts /\ k' = k) /\ owned m ts' k' a).
  { intros ts' k' a. unfold owned. rewrite Hent. case_bool_decide as E.
    - split; [intros (mf & [= ->] & Hm); simpl in Hd; congruence | tauto].
    - split; [by intros H | by intros [_ H]]. }
  split.
  - intros ts' k' e' HX H' Hm. rewrite Hent in H'. case_bool_decide; [simplify_eq; congruence|].
    apply (Hl ts' k' e'); auto.
  - intros ts1 k1 ts2 k2 a HX1 HX2. rewrite !Hown. intros [? ?] [? ?].
    eapply Hu; eauto.
  - intros a Hin. destruct (He a Hin) as [Hs Hno]. split; [done|].
    intros ts' k' HX. rewrite Hown. intros [? ?]. eapply (Hno ts' k'); auto.
  - intros a Hs. destruct (Ha a Hs) as [?|(ts' & k' & HX & Ho)]; [by left|right].
    apply not_in_weaken in HX as [HX Hne].
    exists ts', k'. rewrite Hown. split; [done|]. split; [|done]. intros [-> ->]. done.
Qed.

(** The same when the new entry takes over a vector the code holds. *)
Lemma mem_inv_set_sets_own ext X m ts t k a mf c :
  mem_inv ext (X ∪ {[(ts, k)]}) m -> sets m !! ts = Some t -> (ts, k) ∉ X ->
  a ∈ ext -> cols m !! a = Some c -> mfuncs mf = Some (col_type c) -> mustDelete mf = true ->
  mem_inv (ext ∖ {[a]}) X (set_sets <[ts := <[k := (Some a, mf)]> t]> m).
Proof.
  intros [Hl Hu He Ha] Ht HnX Hae Hc Hf Hd. set (m' := set_sets _ m).
  assert (Hent : forall ts' k', entry m' ts' k' =
    if bool_decide (ts' = ts /\ k' = k) then Some (Some a, mf) else entry m ts' k').
  { intros. by apply entry_set. }
  assert (Hown : forall ts' k' b, owned m' ts' k' b <->
    (ts' = ts /\ k' = k /\ b = a) \/ (~ (ts' = ts /\ k' = k) /\ owned m ts' k' b)).
  { intros ts' k' b. unfold owned. rewrite Hent. case_bool_decide as E.
    - destruct E as [-> ->]. split; [intros (mf' & [= <- <-] & Hm); by left|].
      intros [(_ & _ & ->)|[[] _]]; [by exists mf|done].
    - split; [intros H; by right | intros [(-> & -> & _)|[_ H]]; [by destruct E|done]]. }
  destruct (He a Hae) as [_ Hna]. split.
  - intros ts' k' e' HX H' Hm. rewrite Hent in H'. case_bool_decide.
    + simplify_eq. by exists a, c.
    + apply (Hl ts' k' e'); auto.
  - intros ts1 k1 ts2 k2 b HX1 HX2. rewrite !Hown.
    intros [(-> & -> & ->)|[? ?]] [(-> & -> & ?)|[? ?]]; subst; try done.
    + destruct (Hna ts2 k2); auto.
    + destruct (Hna ts1 k1); auto.
    + eapply Hu; eauto.
  - intros b [Hin Hne]%elem_of_difference. rewrite elem_of_singleton in Hne.
    destruct (He b) as [Hs Hno]; [done|]. split; [done|].
    intros ts' k' HX. rewrite Hown. intros [(_ & _ & ->)|[? ?]]; [done|].
    eapply (Hno ts' k'); auto.
  - intros b Hs. destruct (decide (b = a)) as [->|].
    + right. exists ts, k. rewrite Hown. split; [done|by left].
    + destruct (Ha b Hs) as [?|(ts' & k' & HX & Ho)].
      { left. by rewrite elem_of_difference, elem_of_singleton. }
      right. apply not_in_weaken in HX as [HX Hn].
      exists ts', k'. rewrite Hown. split; [done|]. right. split; [|done]. intros [-> ->]. done.
Qed.

(** An unmarked column may be left out of account at any time. *)
Lemma mem_inv_shrink ext X m ts k :
  mem_inv ext X m -> (forall e, entry m ts k = Some e -> mustDelete e.2 = false) ->
  mem_inv ext (X ∪ {[(ts, k)]}) m.
Proof.
  intros [Hl Hu He Ha] Hn. split.
  - intros ts' k' e [HX _]%not_in_weaken. by apply Hl.
  - intros ts1 k1 ts2 k2 a [H1 _]%not_in_weaken [H2 _]%not_in_weaken. by apply Hu.
  - intros a Hin. destruct (He a Hin) as [? H]. split; [done|].
    intros ts' k' [HX _]%not_in_weaken. by apply H.
  - intros a Hs. destruct (Ha a Hs) as [?|(ts' & k' & HX & mf & Ho & Hd)]; [by left|right].
    exists ts', k'. split; [|by exists mf]. apply not_in_add; [done|]. intros [-> ->].
    apply Hn in Ho. simpl in Ho. congruence.
Qed.

(** [columns[k]] keeps the invariant, whether or not the column is there. *)
Lemma column_at_inv_ok ext X ts k m e m' :
  mem_inv ext X m -> column_at ts k m = Ok e m' ->
  mem_inv ext X m' /\ cols m' = cols m /\ entry m' ts k = Some e /\
  (forall ts' k', ~ (ts' = ts /\ k' = k) -> entry m' ts' k' = entry m ts' k').
Proof.
  intros Hi [[He ->]|(t & Ht & Hn & -> & ->)]%column_at_inv; [done|].
  split; [|split; [done|]].
  - apply mem_inv_set_sets; [|done|done]. apply mem_inv_shrink; [done|]. by rewrite Hn.
  - split; [|intros ts' k' Hne]; rewrite entry_set by done.
    + by rewrite bool_decide_true.
    + by rewrite bool_decide_false.
Qed.

(** The deleter of a column in account frees the column's own vector and
    nothing else.  It cannot free a vector twice. *)
Lemma release_ok ext X ts k e m :
  mem_inv ext X m -> entry m ts k = Some e -> (ts, k) ∉ X ->
  exists m', release e m = Ok tt m' /\ mem_inv ext (X ∪ {[(ts, k)]}) m' /\ sets m' = sets m /\
    forall a, cols m' !! a =
      if mustDelete e.2 && bool_decide (e.1 = Some a) then None else cols m !! a.
Proof.
  intros Hi He HX. unfold release. destruct (mustDelete e.2) eqn:Hd; simpl; last first.
  { exists m. split_and!; [done| |done|done]. apply mem_inv_shrink; [done|]. by intros ? [= <-]%(eq_trans (eq_sym He)). }
  destruct (inv_live _ _ _ Hi _ _ _ HX He Hd) as (a & c & Ha & Hc & Hf).
  destruct e as [p mf]; simpl in *; subst p. unfold bind, funcs_of. rewrite Hf. simpl.
  unfold mret, M_ret, bind, get, put. rewrite Hc.
  eexists. split; [done|]. split; [|split; [done|]]; last first.
  { intros b. simpl. case_bool_decide; simplify_map_eq; [done|]. by rewrite lookup_delete_ne by congruence. }
  destruct Hi as [Hl Hu Hext Hac].
  assert (Ho : owned m ts k a) by (by exists mf).
  split; simpl.
  - intros ts' k' e' [HX' Hne]%not_in_weaken H' Hm. destruct (Hl _ _ _ HX' H' Hm) as (b & c' & Hb & Hcb & Hty).
    exists b, c'. split; [done|]. split; [|done]. simpl. rewrite lookup_delete_ne; [done|]. intros <-.
    destruct (Hu ts k ts' k' a) as [-> ->]; auto. destruct e'; simpl in *; subst. by eexists.
  - intros ts1 k1 ts2 k2 b [H1 _]%not_in_weaken [H2 _]%not_in_weaken. by apply Hu.
  - intros b Hin. destruct (Hext b Hin) as [? Hno]. split.
    + rewrite lookup_delete_ne; [done|]. intros <-. by destruct (Hno ts k).
    + intros ts' k' [HX' _]%not_in_weaken. by apply Hno.
  - intros b Hs. destruct (decide (a = b)) as [->|Hne]; [rewrite lookup_delete_eq in Hs; by destruct Hs|].
    rewrite lookup_delete_ne in Hs by done.
    destruct (Hac b Hs) as [?|(ts' & k' & HX' & Ho')]; [by left|right]. exists ts', k'. split; [|done].
    apply not_in_add; [done|]. intros [-> ->]. destruct Ho as (? & E1 & _), Ho' as (? & E2 & _). congruence.
Qed.

(** Overwriting a vector by one of the same type. *)
Lemma mem_inv_write ext X m a t l0 l :
  mem_inv ext X m -> cols m !! a = Some (mkColumn t l0) ->
  mem_inv ext X (set_cols <[a := mkColumn t l]> m).
Proof.
  intros [Hl Hu He Ha] Hc.
  assert (Hs : forall b, is_Some (<[a := mkColumn t l]> (cols m) !! b) <-> is_Some (cols m !! b)).
  { intros b. rewrite lookup_insert_is_Some'. split; [intros [<-|]|]; eauto. }
  split; simpl.
  - intros ts k e HX H Hm. destruct (Hl _ _ _ HX H Hm) as (b & c & Hb & Hcb & Hf).
    destruct (decide (a = b)) as [<-|].
    + exists a, (mkColumn t l). simpl. rewrite lookup_insert_eq. split; [done|]. split; [done|].
      rewrite Hf. by simplify_eq.
    + exists b, c. simpl. by rewrite lookup_insert_ne.
  - apply Hu.
  - intros b Hb. rewrite Hs. by apply He.
  - intros b Hb. apply Ha. by rewrite <- Hs.
Qed.

Lemma mem_inv_new ext X m a c :
  mem_inv ext X m -> cols m !! a = None -> mem_inv (ext ∪ {[a]}) X (set_cols <[a := c]> m).
Proof.
  intros [Hl Hu He Ha] Hn. split; simpl.
  - intros ts k e HX H Hm. destruct (Hl _ _ _ HX H Hm) as (b & c' & Hb & Hcb & Hf).
    exists b, c'. simpl. rewrite lookup_insert_ne; [done|]. congruence.
  - apply Hu.
  - intros b [Hb|Hb]%elem_of_union.
    + destruct (He b Hb) as [? ?]. split; [|done]. rewrite lookup_insert_is_Some'. by right.
    + apply elem_of_singleton in Hb as ->. split; [by rewrite lookup_insert_eq|].
      intros ts k HX (mf & H & Hm). destruct (Hl _ _ _ HX H Hm) as (b & c' & [= <-] & Hcb & _). congruence.
  - intros b Hb. rewrite lookup_insert_is_Some' in Hb. rewrite elem_of_union, elem_of_singleton.
    destruct Hb as [<-|Hb]; [by left; right|]. destruct (Ha b Hb) as [?|?]; [by left; left|by right].
Qed.

Lemma mem_inv_weaken_sets ext X m ts :
  mem_inv ext X m -> sets m !! ts = None -> mem_inv ext X (set_sets <[ts := ∅]> m).
Proof.
  intros [Hl Hu He Ha] Hn. set (m' := set_sets _ m).
  assert (Hent : forall ts' k', entry m' ts' k' = entry m ts' k').
  { intros ts' k'. unfold entry; simpl. destruct (decide (ts = ts')) as [<-|].
    - by rewrite lookup_insert_eq, Hn.
    - by rewrite lookup_insert_ne. }
  assert (Hown : forall ts' k' a, owned m' ts' k' a <-> owned m ts' k' a).
  { intros. unfold owned. by rewrite Hent. }
  split.
  - intros ts' k' e. rewrite Hent. apply Hl.
  - intros *. rewrite !Hown. apply Hu.
  - intros a Ha'. destruct (He a Ha'). split; [done|]. intros. rewrite Hown. auto.
  - intros a Hs. destruct (Ha a Hs) as [?|(ts' & k' & ? & ?)]; [by left|right].
    exists ts', k'. by rewrite Hown.
Qed.

(** ** Specifications of the primitives

    Stated for runs that never free a vector twice ([safe_of DoubleFree]). *)

Abbreviation nodf := (safe_of DoubleFree).

Section primitive_specs.
Context (ext : gset addr) (X : gset (tsid * Z)).

Lemma wp_read_set ts m (Q : TupleSet -> mem -> Prop) :
  (forall t, sets m !! ts = Some t -> Q t m) -> wp nodf (read_set ts) Q m.
Proof.
  intros HQ. destruct (sets m !! ts) as [t|] eqn:E.
  - eapply wp_eq; [by apply read_set_eq|auto].
  - unfold wp, read_set, bind, get, unwrap. by rewrite E.
Qed.

Lemma wp_hasColumn ts k m (Q : bool -> mem -> Prop) :
  Q (bool_decide (is_Some (entry m ts k))) m -> wp nodf (hasColumn ts k) Q m.
Proof.
  intros HQ. unfold hasColumn. apply wp_bind, wp_read_set. intros t Ht. apply wp_mret.
  unfold entry in HQ. by rewrite Ht in HQ.
Qed.

Lemma wp_column_at ts k m (Q : option addr * MaintenanceFuncs -> mem -> Prop) :
  mem_inv ext X m ->
  (forall e m', mem_inv ext X m' -> cols m' = cols m -> entry m' ts k = Some e ->
    (forall ts' k', ~ (ts' = ts /\ k' = k) -> entry m' ts' k' = entry m ts' k') -> Q e m') ->
  wp nodf (column_at ts k) Q m.
Proof.
  intros Hi HQ. destruct (column_at ts k m) as [e m'| | | |] eqn:E; unfold wp; rewrite ?E; try done.
  - destruct (column_at_inv_ok _ _ _ _ _ _ _ Hi E) as (? & ? & ? & ?). auto.
  - unfold column_at, bind, read_set, get, unwrap, bind in E. destruct (sets m !! ts) as [t|]; [|by simplify_eq/=].
    simpl in E. destruct (t !! k); done.
Qed.

Lemma wp_set_column ts k e m (Q : unit -> mem -> Prop) :
  mem_inv ext (X ∪ {[(ts, k)]}) m -> mustDelete e.2 = false ->
  (forall m', mem_inv ext X m' -> Q tt m') -> wp nodf (set_column ts k e) Q m.
Proof.
  intros Hi Hd HQ. unfold set_column. apply wp_bind, wp_read_set. intros t Ht.
  apply wp_modify, HQ. by apply mem_inv_set_sets.
Qed.

Lemma wp_set_column_own ts k a mf c m (Q : unit -> mem -> Prop) :
  mem_inv ext (X ∪ {[(ts, k)]}) m -> (ts, k) ∉ X -> a ∈ ext ->
  cols m !! a = Some c -> mfuncs mf = Some (col_type c) -> mustDelete mf = true ->
  (forall m', mem_inv (ext ∖ {[a]}) X m' -> Q tt m') -> wp nodf (set_column ts k (Some a, mf)) Q m.
Proof.
  intros Hi HX Ha Hc Hf Hd HQ. unfold set_column. apply wp_bind, wp_read_set. intros t Ht.
  apply wp_modify, HQ. by eapply mem_inv_set_sets_own.
Qed.

Lemma wp_release ts k e m (Q : unit -> mem -> Prop) :
  mem_inv ext X m -> entry m ts k = Some e -> (ts, k) ∉ X ->
  (forall m', mem_inv ext (X ∪ {[(ts, k)]}) m' -> sets m' = sets m ->
     (forall a, cols m' !! a =
        if mustDelete e.2 && bool_decide (e.1 = Some a) then None else cols m !! a) -> Q tt m') ->
  wp nodf (release e) Q m.
Proof.
  intros Hi He HX HQ. destruct (release_ok _ _ _ _ _ _ Hi He HX) as (m' & E & ? & ? & ?).
  eapply wp_eq; [done|auto].
Qed.

Lemma wp_release_at ts k m (Q : unit -> mem -> Prop) :
  mem_inv ext X m -> (ts, k) ∉ X ->
  (forall m', mem_inv ext (X ∪ {[(ts, k)]}) m' -> sets m' = sets m ->
     (forall a, a ∈ ext -> cols m' !! a = cols m !! a) -> Q tt m') ->
  wp nodf (release_at ts k) Q m.
Proof.
  intros Hi HX HQ. unfold release_at. apply wp_bind, wp_hasColumn.
  case_bool_decide as Hs.
  - destruct Hs as [e He]. apply wp_bind. eapply wp_eq; [by apply column_at_eq|].
    eapply wp_release; [done..|]. intros m' Hi' Hs' Hc. apply HQ; [done..|].
    intros a Ha. rewrite Hc. destruct (mustDelete e.2) eqn:Hd; simpl; [|done].
    case_bool_decide as Hp; [|done]. destruct (inv_ext _ _ _ Hi a Ha) as [_ Hno].
    destruct (Hno ts k HX). destruct e; simpl in *; subst. by eexists.
  - apply wp_mret, HQ; [|done..]. apply mem_inv_shrink; [done|].
    intros e He. destruct Hs. by rewrite He.
Qed.

Lemma wp_read_as t p m (Q : list val -> mem -> Prop) :
  (forall a l, p = Some a -> cols m !! a = Some (mkColumn t l) -> Q l m) ->
  wp nodf (read_as t p) Q m.
Proof.
  intros HQ. unfold read_as, read_col. destruct p as [a|]; [|done].
  unfold wp, bind, get, unwrap. destruct (cols m !! a) as [[t' l]|] eqn:E; simpl; [|done].
  case_bool_decide; subst; simpl; [|done]. eauto.
Qed.

Lemma wp_new_col t l m (Q : addr -> mem -> Prop) :
  mem_inv ext X m ->
  (forall a m', mem_inv (ext ∪ {[a]}) X m' -> a ∉ ext -> sets m' = sets m ->
     cols m !! a = None -> cols m' = <[a := mkColumn t l]> (cols m) -> Q a m') ->
  wp nodf (new_col t l) Q m.
Proof.
  intros Hi HQ. destruct (new_col_eq t l m) as (a & E & Hn). eapply wp_eq; [done|].
  apply HQ; try done; [by apply mem_inv_new|]. intros Hin. destruct (inv_ext _ _ _ Hi a Hin) as [[? ?] _]. congruence.
Qed.

Lemma wp_write_col t l p a l0 m (Q : unit -> mem -> Prop) :
  mem_inv ext X m -> p = Some a -> cols m !! a = Some (mkColumn t l0) ->
  (forall m', mem_inv ext X m' -> sets m' = sets m ->
     cols m' = <[a := mkColumn t l]> (cols m) -> Q tt m') ->
  wp nodf (write_col p t l) Q m.
Proof.
  intros Hi -> Hc HQ. apply wp_modify, HQ; [|done..]. by eapply mem_inv_write.
Qed.

Lemma wp_funcs_of mf m (Q : ColType -> mem -> Prop) :
  (forall t, mfuncs mf = Some t -> Q t m) -> wp nodf (funcs_of mf) Q m.
Proof. intros HQ. unfold funcs_of. destruct (mfuncs mf); [by apply HQ|done]. Qed.

Lemma wp_throw {A} e m (Q : A -> mem -> Prop) : wp nodf (throw e) Q m.
Proof. done. Qed.

Lemma wp_as_bools l m (Q : list bool -> mem -> Prop) :
  (forall bits, Q bits m) -> wp nodf (as_bools l) Q m.
Proof. intros HQ. unfold as_bools. by apply wp_mret. Qed.

End primitive_specs.

Lemma mem_inv_entries ext X m m' :
  (forall ts k, entry m' ts k = entry m ts k) -> cols m' = cols m ->
  mem_inv ext X m -> mem_inv ext X m'.
Proof.
  intros Hent Hc [Hl Hu He Ha].
  assert (Hown : forall ts' k' a, owned m' ts' k' a <-> owned m ts' k' a).
  { intros. unfold owned. by rewrite Hent. }
  split.
  - intros ts' k' e. rewrite Hent. unfold well_owned. rewrite Hc. apply Hl.
  - intros *. rewrite !Hown. apply Hu.
  - intros a Ha'. rewrite Hc. destruct (He a Ha'). split; [done|]. intros. rewrite Hown. auto.
  - intros a Hs. rewrite Hc in Hs. destruct (Ha a Hs) as [?|(ts' & k' & ? & ?)]; [by left|right].
    exists ts', k'. by rewrite Hown.
Qed.

Lemma wp_set_same ext X ts k e m (Q : unit -> mem -> Prop) :
  mem_inv ext X m -> entry m ts k = Some e ->
  (forall m', mem_inv ext X m' -> (forall ts k, entry m' ts k = entry m ts k) -> Q tt m') ->
  wp nodf (set_column ts k e) Q m.
Proof.
  intros Hi He HQ. unfold set_column. apply wp_bind, wp_read_set. intros t Ht.
  apply wp_modify.
  assert (Hsame : forall ts' k', entry (set_sets <[ts:=<[k:=e]> t]> m) ts' k' = entry m ts' k').
  { intros ts' k'. rewrite entry_set by done. case_bool_decide; [naive_solver|done]. }
  apply HQ; [|done]. by eapply mem_inv_entries.
Qed.

(** ** Every operation keeps the invariant and frees nothing twice *)

Section operations.
Context (ext : gset addr).

Lemma filter_col_inv t p bits m (Q : addr -> mem -> Prop) :
  mem_inv ext ∅ m ->
  (forall a m' l, mem_inv (ext ∪ {[a]}) ∅ m' -> a ∉ ext -> sets m' = sets m ->
    cols m' !! a = Some (mkColumn t l) -> Q a m') ->
  wp nodf (filter_col t p bits) Q m.
Proof.
  intros Hi HQ. unfold filter_col. apply wp_bind, wp_read_as. intros b l -> Hb.
  destruct (_ <=? _); [|done]. eapply wp_new_col; [done|]. intros a m' ? ? ? ? Hc.
  eapply HQ; [done..|]. by rewrite Hc, lookup_insert_eq.
Qed.

Lemma replicate_col_inv X t p times m (Q : addr -> mem -> Prop) :
  mem_inv ext X m ->
  (forall a m' l, mem_inv (ext ∪ {[a]}) X m' -> a ∉ ext -> sets m' = sets m ->
    cols m' !! a = Some (mkColumn t l) -> Q a m') ->
  wp nodf (replicate_col t p times) Q m.
Proof.
  intros Hi HQ. unfold replicate_col. apply wp_bind, wp_read_as. intros b l -> Hb.
  destruct (_ <? _)%Z; [done|]. destruct (replicated l times); [|done].
  destruct (_ <=? _)%Z; [|done]. eapply wp_new_col; [done|]. intros a m' ? ? ? ? Hc.
  eapply HQ; [done..|]. by rewrite Hc, lookup_insert_eq.
Qed.

Lemma ext_add_del a : a ∉ ext -> (ext ∪ {[a]}) ∖ {[a]} = ext.
Proof. set_solver. Qed.

Lemma addColumn_inv ts k t a own m :
  mem_inv ext ∅ m ->
  (own = true -> a ∈ ext /\ exists l, cols m !! a = Some (mkColumn t l)) ->
  wp nodf (addColumn ts k t a own)
     (fun _ m' => mem_inv (if own then ext ∖ {[a]} else ext) ∅ m') m.
Proof.
  intros Hi Ho. unfold addColumn. apply wp_bind, (wp_release_at ext ∅); [done|set_solver|].
  intros m1 Hi1 _ Hc. destruct own.
  - destruct Ho as (Ha & l & Hl); [done|].
    apply (wp_set_column_own ext ∅ _ _ _ _ (mkColumn t l));
      [done|set_solver|done| |done..]. by rewrite Hc.
  - by eapply wp_set_column.
Qed.

Lemma filterColumn_inv ts k p m :
  mem_inv ext ∅ m -> wp nodf (filterColumn ts k p) (fun _ m' => mem_inv ext ∅ m') m.
Proof.
  intros Hi. unfold filterColumn. apply wp_bind, wp_hasColumn.
  case_bool_decide as Hs; [|by apply wp_mret]. destruct Hs as [e He].
  apply wp_bind. eapply wp_eq; [by apply column_at_eq|].
  apply wp_bind, wp_funcs_of. intros t Ht. apply wp_bind, wp_read_as. intros b l -> Hb.
  apply wp_bind, wp_as_bools. intros bits. apply wp_bind, filter_col_inv; [done|].
  intros a m1 l' Hi1 Ha Hs1 Hl'. apply wp_bind.
  eapply (wp_release _ _ ts k); [done| |set_solver|].
  { unfold entry. rewrite Hs1. exact He. }
  intros m2 Hi2 Hs2 Hc2. rewrite <- (ext_add_del a) by done.
  apply (wp_set_column_own (ext ∪ {[a]}) ∅ _ _ _ _ (mkColumn t l'));
    [done|set_solver|set_solver| |done..].
  rewrite Hc2. destruct (mustDelete e.2) eqn:Hd; simpl; [|done].
  case_bool_decide as Hp; [|done]. destruct (inv_ext _ _ _ Hi1 a) as [_ Hno]; [set_solver|].
  destruct (Hno ts k); [set_solver|]. exists e.2. unfold entry. rewrite Hs1. split; [|done].
  unfold entry in He. rewrite He. destruct e; simpl in *; by subst.
Qed.

Lemma ts_replicate_inv ts fromMe k k' times m :
  mem_inv ext ∅ m ->
  wp nodf (ts_replicate ts fromMe k k' times) (fun _ m' => mem_inv ext ∅ m') m.
Proof.
  intros Hi. unfold ts_replicate. apply wp_bind, (wp_release_at ext ∅); [done|set_solver|].
  intros m1 Hi1 _ _. apply wp_bind. eapply wp_column_at; [done|].
  intros e m2 Hi2 _ He _. apply wp_bind, wp_funcs_of. intros t Ht.
  apply wp_bind. eapply replicate_col_inv; [done|]. intros a m3 l Hi3 Ha Hs3 Hl.
  rewrite <- (ext_add_del a) by done.
  apply (wp_set_column_own (ext ∪ {[a]}) ∅ _ _ _ _ (mkColumn t l));
    [done|set_solver|set_solver|done..].
Qed.

Lemma copyColumn_inv ts fromMe k k' m :
  mem_inv ext ∅ m ->
  wp nodf (copyColumn ts fromMe k k') (fun _ m' => mem_inv ext ∅ m') m.
Proof.
  intros Hi. unfold copyColumn. apply wp_bind, (wp_release_at ext ∅); [done|set_solver|].
  intros m1 Hi1 _ _. apply wp_bind. eapply wp_column_at; [done|].
  intros e m2 Hi2 _ He _. by eapply wp_set_column.
Qed.

Lemma getColumn_inv t ts k m :
  mem_inv ext ∅ m -> wp nodf (getColumn t ts k) (fun _ m' => mem_inv ext ∅ m') m.
Proof.
  intros Hi. unfold getColumn. apply wp_bind. eapply wp_column_at; [done|].
  intros e m' Hi' _ _ _. apply wp_read_as. auto.
Qed.

Lemma putColumn_inv t ts k l m :
  mem_inv ext ∅ m -> wp nodf (putColumn t ts k l) (fun _ m' => mem_inv ext ∅ m') m.
Proof.
  intros Hi. unfold putColumn. apply wp_bind. eapply wp_column_at; [done|].
  intros e m' Hi' _ _ _. apply wp_bind, wp_read_as. intros a l0 -> Ha.
  by eapply wp_write_col.
Qed.

Lemma TupleSet_new_inv m :
  mem_inv ext ∅ m -> wp nodf TupleSet_new (fun _ m' => mem_inv ext ∅ m') m.
Proof.
  intros Hi. unfold TupleSet_new. apply wp_bind, wp_get, wp_bind, wp_put, wp_mret.
  apply mem_inv_weaken_sets; [done|]. apply not_elem_of_dom, is_fresh.
Qed.
End operations.

(** ** Splitting and merging

    [split] gives the new column the maintenance functions of the column it
    came from, its mark included: the tail of an unmarked column is a vector
    nobody owns. *)

Definition tail_owned (lhs rhs : tsid) (m : mem) : Prop :=
  forall k e, entry m lhs k = Some e ->
    mustDelete e.2 = true /\ forall r, entry m rhs k = Some r -> is_Some r.1.

Definition all_allocated (ts : tsid) (m : mem) : Prop :=
  forall k e, entry m ts k = Some e -> is_Some e.1.

(** What [ext] grows to: [leaked] is empty when [safe] holds. *)
Definition inv_leaking (ext : gset addr) (safe : mem -> Prop) (m0 m : mem) : Prop :=
  exists leaked, mem_inv (ext ∪ leaked) ∅ m /\ (safe m0 -> leaked = ∅ /\ safe m).

Lemma mem_inv_grow ext leaked a X m :
  mem_inv (ext ∪ leaked ∪ {[a]}) X m -> mem_inv (ext ∪ (leaked ∪ {[a]})) X m.
Proof. by rewrite <- (assoc_L union). Qed.

Section split_merge.
Context (ext : gset addr).

Lemma split_col_inv t p q w m (Q : option addr -> mem -> Prop) :
  mem_inv ext ∅ m ->
  (forall b, q = Some b -> forall m', mem_inv ext ∅ m' -> sets m' = sets m -> Q q m') ->
  (q = None -> forall a m' l, mem_inv (ext ∪ {[a]}) ∅ m' -> a ∉ ext -> sets m' = sets m ->
     cols m' !! a = Some (mkColumn t l) -> Q (Some a) m') ->
  wp nodf (split_col t p q w) Q m.
Proof.
  intros Hi HQ1 HQ2. unfold split_col. destruct q as [b|].
  - apply wp_bind, wp_bind, wp_read_as. intros b' l [= <-] Hb. apply wp_bind.
    eapply wp_write_col; [done..|]. intros m1 Hi1 Hs1 Hc1. apply wp_mret.
    apply wp_bind, wp_read_as. intros a la -> Ha. destruct (_ <? _); [done|].
    apply wp_bind. eapply (wp_write_col _ _ _ _ _ b).
    { done. } { done. } { by rewrite Hc1, lookup_insert_eq. }
    intros m2 Hi2 Hs2 Hc2. apply wp_bind.
    assert (exists la', cols m2 !! a = Some (mkColumn t la')) as [la' Ha'].
    { rewrite Hc2. destruct (decide (b = a)) as [->|]; simplify_map_eq; eauto. }
    eapply (wp_write_col _ _ _ _ _ a); [done|done|done|].
    intros m3 Hi3 Hs3 _. apply wp_mret, (HQ1 b); [done|done|congruence].
  - apply wp_bind, wp_bind. eapply wp_new_col; [done|].
    intros b m1 Hi1 Hb Hs1 _ Hc1. apply wp_mret.
    apply wp_bind, wp_read_as. intros a la -> Ha. destruct (_ <? _); [done|].
    apply wp_bind. eapply (wp_write_col _ _ _ _ _ b).
    { done. } { done. } { by rewrite Hc1, lookup_insert_eq. }
    intros m2 Hi2 Hs2 Hc2. apply wp_bind.
    assert (exists la', cols m2 !! a = Some (mkColumn t la')) as [la' Ha'].
    { rewrite Hc2. destruct (decide (b = a)) as [->|]; simplify_map_eq; eauto. }
    eapply (wp_write_col _ _ _ _ _ a); [done|done|done|].
    intros m3 Hi3 Hs3 Hc3. apply wp_mret.
    assert (exists lb, cols m3 !! b = Some (mkColumn t lb)) as [lb Hlb].
    { rewrite Hc3. destruct (decide (a = b)) as [->|]; [by rewrite lookup_insert_eq; eauto|].
      rewrite lookup_insert_ne, Hc2, lookup_insert_eq by done. eauto. }
    eapply HQ2; [done|done|done|congruence|done].
Qed.

Lemma merge_col_inv t p q m (Q : option addr -> mem -> Prop) :
  mem_inv ext ∅ m ->
  (forall b, p = Some b -> forall m', mem_inv ext ∅ m' -> sets m' = sets m -> Q p m') ->
  (p = None -> forall a m', mem_inv (ext ∪ {[a]}) ∅ m' -> sets m' = sets m -> Q (Some a) m') ->
  wp nodf (merge_col t p q) Q m.
Proof.
  intros Hi HQ1 HQ2. unfold merge_col. destruct p as [b|].
  - apply wp_bind, wp_mret, wp_bind, wp_read_as. intros b' l [= <-] Hb.
    apply wp_bind, wp_read_as. intros a r -> Ha.
    case_bool_decide as Hne; [done|]. apply wp_bind.
    eapply (wp_write_col _ _ _ _ _ b); [done..|]. intros m1 Hi1 Hs1 Hc1. apply wp_bind.
    eapply (wp_write_col _ _ _ _ _ a); [done|done|by rewrite Hc1, lookup_insert_ne by congruence|].
    intros m2 Hi2 Hs2 _. apply wp_mret, (HQ1 b); [done|done|congruence].
  - apply wp_bind, wp_bind. eapply wp_new_col; [done|].
    intros b m1 Hi1 _ Hs1 _ Hc1. apply wp_mret.
    apply wp_bind, wp_read_as. intros b' l [= <-] Hb.
    apply wp_bind, wp_read_as. intros a r -> Ha.
    case_bool_decide as Hne; [done|]. apply wp_bind.
    eapply (wp_write_col _ _ _ _ _ b); [done..|]. intros m2 Hi2 Hs2 Hc2. apply wp_bind.
    eapply (wp_write_col _ _ _ _ _ a); [done|done|by rewrite Hc2, lookup_insert_ne by congruence|].
    intros m3 Hi3 Hs3 _. apply wp_mret, HQ2; [done|done|congruence].
Qed.
End split_merge.

Definition grows (m m' : mem) : Prop :=
  forall ts k, is_Some (entry m ts k) -> is_Some (entry m' ts k).

Lemma entry_sets m m' ts k : sets m' = sets m -> entry m' ts k = entry m ts k.
Proof. unfold entry. by intros ->. Qed.

(** Setting a column to a vector the code holds, marked or not. *)
Lemma set_column_leaking ext ts k a mf t l m :
  mem_inv (ext ∪ {[a]}) ∅ m -> a ∉ ext -> cols m !! a = Some (mkColumn t l) ->
  mfuncs mf = Some t ->
  (forall e, entry m ts k = Some e -> mustDelete e.2 = false) ->
  wp nodf (set_column ts k (Some a, mf))
    (fun _ m' => mem_inv (if mustDelete mf then ext else ext ∪ {[a]}) ∅ m' /\
       forall ts' k', entry m' ts' k' =
         if bool_decide (ts' = ts /\ k' = k) then Some (Some a, mf) else entry m ts' k') m.
Proof.
  intros Hi Ha Hl Hf Hn. unfold set_column. apply wp_bind, wp_read_set. intros t' Ht'.
  apply wp_modify. split; [|intros; by apply entry_set].
  assert (mem_inv (ext ∪ {[a]}) (∅ ∪ {[(ts, k)]}) m) as Hi' by by apply mem_inv_shrink.
  destruct (mustDelete mf) eqn:Hd.
  - rewrite <- (ext_add_del ext a) by done.
    eapply mem_inv_set_sets_own; [done|done|set_solver|set_solver|done|done|done].
  - by apply mem_inv_set_sets.
Qed.

Lemma split_column_inv ext lhs rhs w k m :
  mem_inv ext ∅ m -> is_Some (entry m lhs k) ->
  wp nodf (split_column lhs rhs w k)
    (fun _ m' => inv_leaking ext (tail_owned lhs rhs) m m' /\ grows m m') m.
Proof.
  intros Hi [e He]. unfold split_column. apply wp_bind.
  eapply wp_eq; [by apply column_at_eq|]. apply wp_bind, wp_read_set. intros tr Htr.
  assert (Hr : tr !! k = entry m rhs k) by (unfold entry; by rewrite Htr).
  destruct (tr !! k) as [r|] eqn:Er; apply wp_bind, wp_funcs_of; intros t Ht; apply wp_bind.
  - eapply split_col_inv; [done| |].
    + intros b Hb m1 Hi1 Hs1. eapply wp_set_same; [done| |].
      { rewrite (entry_sets _ _ _ _ Hs1), <- Hr. by destruct r; simpl in *; subst. }
      intros m2 Hi2 Hent. assert (Hsame : forall ts k, entry m2 ts k = entry m ts k).
      { intros. by rewrite Hent, (entry_sets _ _ _ _ Hs1). }
      split; [|intros ts' k'; by rewrite Hsame]. exists ∅. rewrite union_empty_r_L. split; [done|].
      intros Hto. split; [done|]. intros k'. rewrite !Hsame. apply Hto.
    + intros Hb a m1 l Hi1 Ha Hs1 Hl.
      assert (Hun : mustDelete r.2 = false).
      { destruct (mustDelete r.2) eqn:E; [|done].
        destruct (inv_live _ _ _ Hi _ _ _ (not_elem_of_empty _) (eq_sym Hr) E) as (? & ? & ? & _).
        congruence. }
      unfold set_column. apply wp_bind, wp_read_set. intros t' Ht'. apply wp_modify.
      split.
      * exists {[a]}. split.
        -- apply mem_inv_set_sets; [|done|done]. apply mem_inv_shrink; [done|].
           rewrite (entry_sets _ _ _ _ Hs1), <- Hr. by intros ? [= <-].
        -- intros Hto. destruct (Hto _ _ He) as [_ Hx]. destruct (Hx r); [done|]. congruence.
      * intros ts' k' [e' He']. rewrite entry_set by done. case_bool_decide; [done|].
        rewrite (entry_sets _ _ _ _ Hs1). by eexists.
  - eapply split_col_inv; [done|done|]. intros _ a m1 l Hi1 Ha Hs1 Hl.
    eapply wp_mono.
    + eapply set_column_leaking; [done|done|done|done|].
      rewrite (entry_sets _ _ _ _ Hs1), <- Hr. done.
    + intros [] m2 [Hi2 Hent]. split.
      * exists (if mustDelete e.2 then ∅ else {[a]}). split.
        { destruct (mustDelete e.2); [by rewrite union_empty_r_L|done]. }
        intros Hto. destruct (Hto _ _ He) as [-> Hx]. split; [done|].
        intros k' e'. rewrite !Hent, !(entry_sets _ _ _ _ Hs1). intros He'.
        case_bool_decide as E1.
        -- destruct E1 as [-> ->]. congruence.
        -- destruct (Hto _ _ He') as [? Hy]. split; [done|]. intros r'.
           case_bool_decide; [by intros [= <-]|apply Hy].
      * intros ts' k' Hs'. rewrite Hent. case_bool_decide; [done|]. by rewrite (entry_sets _ _ _ _ Hs1).
Qed.

Lemma merge_column_inv ext lhs rhs k m :
  mem_inv ext ∅ m -> is_Some (entry m rhs k) ->
  wp nodf (merge_column lhs rhs k)
    (fun _ m' => inv_leaking ext (all_allocated lhs) m m' /\ grows m m') m.
Proof.
  intros Hi [e He]. unfold merge_column. apply wp_bind.
  eapply wp_eq; [by apply column_at_eq|]. apply wp_bind, wp_read_set. intros tl Htl.
  assert (Hl : tl !! k = entry m lhs k) by (unfold entry; by rewrite Htl).
  destruct (tl !! k) as [l|] eqn:El; apply wp_bind, wp_funcs_of; intros t Ht; apply wp_bind.
  - eapply merge_col_inv; [done| |].
    + intros b Hb m1 Hi1 Hs1. eapply wp_set_same; [done| |].
      { rewrite (entry_sets _ _ _ _ Hs1), <- Hl. by destruct l; simpl in *; subst. }
      intros m2 Hi2 Hent. assert (Hsame : forall ts k, entry m2 ts k = entry m ts k).
      { intros. by rewrite Hent, (entry_sets _ _ _ _ Hs1). }
      split; [|intros ts' k'; by rewrite Hsame]. exists ∅. rewrite union_empty_r_L. split; [done|].
      intros Hto. split; [done|]. intros k'. rewrite !Hsame. apply Hto.
    + intros Hb a m1 Hi1 Hs1.
      assert (Hun : mustDelete l.2 = false).
      { destruct (mustDelete l.2) eqn:E; [|done].
        destruct (inv_live _ _ _ Hi _ _ _ (not_elem_of_empty _) (eq_sym Hl) E) as (? & ? & ? & _).
        congruence. }
      unfold set_column. apply wp_bind, wp_read_set. intros t' Ht'. apply wp_modify. split.
      * exists {[a]}. split.
        -- apply mem_inv_set_sets; [|done|done]. apply mem_inv_shrink; [done|].
           rewrite (entry_sets _ _ _ _ Hs1), <- Hl. by intros ? [= <-].
        -- intros Hto. destruct (Hto k l) as [? ?]; [done|]. congruence.
      * intros ts' k' [e' He']. rewrite entry_set by done. case_bool_decide; [done|].
        rewrite (entry_sets _ _ _ _ Hs1). by eexists.
  - eapply merge_col_inv; [done|done|]. by intros.
Qed.

Lemma inv_leaking_refl ext P m : mem_inv ext ∅ m -> inv_leaking ext P m m.
Proof. intros Hi. exists ∅. by rewrite union_empty_r_L. Qed.

Lemma inv_leaking_trans ext P m l m1 m2 :
  (P m -> l = ∅ /\ P m1) -> inv_leaking (ext ∪ l) P m1 m2 -> inv_leaking ext P m m2.
Proof.
  intros Hl (l' & Hi & H). exists (l ∪ l'). rewrite (assoc_L union). split; [done|].
  intros HP. destruct (Hl HP) as [-> HP1]. destruct (H HP1) as [-> ?]. by rewrite union_empty_r_L.
Qed.

Lemma for_each_leaking src P (body : Z -> M mem unit) :
  (forall ext k m, mem_inv ext ∅ m -> is_Some (entry m src k) ->
     wp nodf (body k) (fun _ m' => inv_leaking ext P m m' /\ grows m m') m) ->
  forall l ext m, mem_inv ext ∅ m -> (forall k, k ∈ l -> is_Some (entry m src k)) ->
    wp nodf (for_each l body) (fun _ m' => inv_leaking ext P m m') m.
Proof.
  intros Hb l. induction l as [|k l IH]; intros ext m Hi Hk; simpl.
  - apply wp_mret. by apply inv_leaking_refl.
  - apply wp_bind. eapply wp_mono; [apply Hb; [done|apply Hk; set_solver]|].
    intros [] m1 [(lk & Hi1 & Hsafe) Hg]. eapply wp_mono; [apply (IH _ _ Hi1)|].
    + intros k' Hin. apply Hg, Hk. set_solver.
    + intros [] m2 H2. by eapply inv_leaking_trans.
Qed.

Lemma elem_of_column_keys (t : TupleSet) k : k ∈ column_keys t <-> is_Some (t !! k).
Proof.
  unfold column_keys. rewrite merge_sort_Permutation, list_elem_of_fmap. split.
  - intros ([k' e] & -> & H%elem_of_map_to_list). by eexists.
  - intros [e He]. exists (k, e). split; [done|]. by apply elem_of_map_to_list.
Qed.

Lemma NoDup_column_keys (t : TupleSet) : NoDup (column_keys t).
Proof. unfold column_keys. rewrite merge_sort_Permutation. apply NoDup_fst_map_to_list. Qed.

Lemma entry_of m ts t k : sets m !! ts = Some t -> entry m ts k = t !! k.
Proof. unfold entry. by intros ->. Qed.

Lemma ts_split_inv ext lhs rhs w m :
  mem_inv ext ∅ m ->
  wp nodf (ts_split lhs rhs w) (fun _ m' => inv_leaking ext (tail_owned lhs rhs) m m') m.
Proof.
  intros Hi. unfold ts_split. apply wp_bind, wp_read_set. intros t Ht.
  apply (for_each_leaking lhs); [|done|].
  - intros ext' k m' ? ?. by apply split_column_inv.
  - intros k Hk%elem_of_column_keys. by rewrite (entry_of _ _ _ _ Ht).
Qed.

Lemma ts_merge_inv ext lhs rhs m :
  mem_inv ext ∅ m ->
  wp nodf (ts_merge lhs rhs) (fun _ m' => inv_leaking ext (all_allocated lhs) m m') m.
Proof.
  intros Hi. unfold ts_merge. apply wp_bind, wp_read_set. intros t Ht.
  apply (for_each_leaking rhs); [|done|].
  - intros ext' k m' ? ?. by apply merge_column_inv.
  - intros k Hk%elem_of_column_keys. by rewrite (entry_of _ _ _ _ Ht).
Qed.

(** The destructor frees every marked column once. *)
Lemma destroy_columns_inv ext ts t l X m :
  mem_inv ext X m -> sets m !! ts = Some t -> NoDup l ->
  (forall k, k ∈ l -> is_Some (t !! k) /\ (ts, k) ∉ X) ->
  wp nodf (for_each l (fun k => e <- column_at ts k ;; release e))
    (fun _ m' => mem_inv ext (X ∪ list_to_set (map (fun k => (ts, k)) l)) m' /\ sets m' = sets m) m.
Proof.
  revert X m. induction l as [|k l IH]; intros X m Hi Ht Hnd Hk; simpl.
  - apply wp_mret. by rewrite union_empty_r_L.
  - apply NoDup_cons in Hnd as [Hnk Hnd]. destruct (Hk k) as [[e He] HX]; [set_solver|].
    rewrite <- (entry_of _ _ _ _ Ht) in He.
    apply wp_bind, wp_bind. eapply wp_eq; [by apply column_at_eq|].
    eapply wp_release; [done..|]. intros m1 Hi1 Hs1 _.
    eapply wp_mono; [apply (IH _ _ Hi1)|].
    + by rewrite Hs1.
    + done.
    + intros k' Hin. destruct (Hk k') as [? ?]; [set_solver|]. split; [done|].
      apply not_in_add; [done|]. intros [_ ->]. done.
    + intros [] m2 [Hi2 Hs2]. split; [|congruence]. by rewrite (assoc_L union).
Qed.

Lemma TupleSet_destroy_inv ext ts m :
  mem_inv ext ∅ m -> wp nodf (TupleSet_destroy ts) (fun _ m' => mem_inv ext ∅ m') m.
Proof.
  intros Hi. unfold TupleSet_destroy. apply wp_bind, wp_read_set. intros t Ht.
  apply wp_bind. eapply wp_mono.
  { eapply destroy_columns_inv; [done|done|apply NoDup_column_keys|].
    intros k Hk%elem_of_column_keys. split; [done|set_solver]. }
  intros [] m1 [Hi1 Hs1]. apply wp_modify. rewrite union_empty_l_L in Hi1.
  set (X := list_to_set _) in Hi1.
  assert (HX : forall ts' k e, entry m1 ts' k = Some e -> (ts', k) ∉ X -> ts' <> ts).
  { intros ts' k e He Hn ->. apply Hn. unfold X. rewrite elem_of_list_to_set, list_elem_of_fmap.
    exists k. split; [done|]. apply elem_of_column_keys.
    rewrite <- (entry_of _ _ _ _ Ht), <- (entry_sets _ _ _ _ Hs1). by eexists. }
  assert (Hent : forall ts' k e, entry (set_sets (delete ts) m1) ts' k = Some e <->
            entry m1 ts' k = Some e /\ ts' <> ts).
  { intros ts' k e. unfold entry; simpl. destruct (decide (ts = ts')) as [<-|].
    - rewrite lookup_delete_eq. simpl. naive_solver.
    - rewrite lookup_delete_ne by done. naive_solver. }
  assert (HnX : forall ts' k, ts' <> ts -> (ts', k) ∉ X).
  { intros ts' k Hne Hin. unfold X in Hin. rewrite elem_of_list_to_set, list_elem_of_fmap in Hin.
    destruct Hin as (? & ? & _). naive_solver. }
  destruct Hi1 as [Hl Hu He Ha]. split.
  - intros ts' k e _ [H Hne]%Hent Hm. destruct (Hl _ _ _ (HnX _ _ Hne) H Hm) as (a & c & ? & ? & ?).
    by exists a, c.
  - intros ts1 k1 ts2 k2 a _ _ (mf1 & [H1 N1]%Hent & M1) (mf2 & [H2 N2]%Hent & M2).
    eapply (Hu _ _ _ _ a); [by apply HnX|by apply HnX|by exists mf1|by exists mf2].
  - intros a Hin. destruct (He a Hin) as [Hsm Hno]. split; [done|].
    intros ts' k _ (mf & [H Hne]%Hent & Hm). eapply (Hno ts' k); [by apply HnX|by exists mf].
  - intros a Hs. destruct (Ha a Hs) as [?|(ts' & k & HX' & mf & Ho & Hm)]; [by left|right].
    exists ts', k. split; [set_solver|]. exists mf. split; [|done]. apply Hent.
    split; [done|]. by eapply HX.
Qed.

(** ** Histories *)

Inductive ts_op :=
| OpNew
| OpNewVector (t : ColType) (l : list val)
| OpAdd (ts : tsid) (k : Z) (t : ColType) (addMe : addr) (needToDelete : bool)
| OpFilter (ts : tsid) (k : Z) (usingMe : option addr)
| OpReplicate (ts fromMe : tsid) (k k' : Z) (times : list Z)
| OpCopy (ts fromMe : tsid) (k k' : Z)
| OpGet (t : ColType) (ts : tsid) (k : Z)
| OpPut (t : ColType) (ts : tsid) (k : Z) (l : list val)
| OpSplit (lhs rhs : tsid) (where_ : nat)
| OpMerge (lhs rhs : tsid)
| OpDestroy (ts : tsid).

Definition discard {A} (m : M mem A) : M mem unit := _ <- m ;; mret tt.
Definition run_op (o : ts_op) : M mem unit :=
  match o with
  | OpNew => discard TupleSet_new
  | OpNewVector t l => discard (new_col t l)
  | OpAdd ts k t a own => addColumn ts k t a own
  | OpFilter ts k p => filterColumn ts k p
  | OpReplicate ts fromMe k k' times => ts_replicate ts fromMe k k' times
  | OpCopy ts fromMe k k' => copyColumn ts fromMe k k'
  | OpGet t ts k => discard (getColumn t ts k)
  | OpPut t ts k l => putColumn t ts k l
  | OpSplit lhs rhs w => ts_split lhs rhs w
  | OpMerge lhs rhs => ts_merge lhs rhs
  | OpDestroy ts => TupleSet_destroy ts
  end.

(** The one thing callers promise: a vector handed over with [needToDelete] is
    theirs to give away. *)
Definition op_allowed (m : mem) (o : ts_op) : Prop :=
  match o with
  | OpAdd _ _ t a true => (exists l, cols m !! a = Some (mkColumn t l)) /\ forall ts k, ~ owned m ts k a
  | _ => True
  end.

Definition mem_empty : mem := mkMem ∅ ∅.

Inductive reachable : mem -> Prop :=
| reach_empty : reachable mem_empty
| reach_step m o m' : reachable m -> op_allowed m o -> run_op o m = Ok tt m' -> reachable m'.

Definition balanced (m : mem) : Prop := exists ext, mem_inv ext ∅ m.

Lemma mem_inv_empty : mem_inv ∅ ∅ mem_empty.
Proof.
  split.
  - intros ts k e _ H. unfold entry in H; simpl in H. by rewrite lookup_empty in H.
  - intros ts k ts' k' a _ _ (mf & H & _). unfold entry in H; simpl in H. by rewrite lookup_empty in H.
  - set_solver.
  - intros a [c H]. simpl in H. by rewrite lookup_empty in H.
Qed.

Lemma wp_discard {A} (c : M mem A) Q m :
  wp nodf c (fun _ m' => Q m') m -> wp nodf (discard c) (fun _ m' => Q m') m.
Proof. intros H. apply wp_bind. eapply wp_mono; [done|]. by intros. Qed.

Lemma run_op_balanced o m :
  balanced m -> op_allowed m o -> wp nodf (run_op o) (fun _ m' => balanced m') m.
Proof.
  intros [ext Hi] Hok. destruct o; simpl in *.
  - apply wp_discard. eapply wp_mono; [by apply TupleSet_new_inv|]. by exists ext.
  - apply wp_discard. eapply wp_new_col; [done|]. intros a m' Hi' _ _ _ _. by exists (ext ∪ {[a]}).
  - eapply wp_mono; [eapply addColumn_inv; [done|]|by eexists].
    intros ->. destruct Hok as [[l Hl] Hno]. split; [|by eexists].
    destruct (inv_accounted _ _ _ Hi addMe) as [?|(ts' & k' & _ & Ho)]; [by eexists|done|].
    by destruct (Hno ts' k').
  - eapply wp_mono; [by apply filterColumn_inv|by exists ext].
  - eapply wp_mono; [by apply ts_replicate_inv|by exists ext].
  - eapply wp_mono; [by apply copyColumn_inv|by exists ext].
  - apply wp_discard. eapply wp_mono; [by apply getColumn_inv|by exists ext].
  - eapply wp_mono; [by apply putColumn_inv|by exists ext].
  - eapply wp_mono; [by apply ts_split_inv|]. intros [] m' (l & ? & _). by eexists.
  - eapply wp_mono; [by apply ts_merge_inv|]. intros [] m' (l & ? & _). by eexists.
  - eapply wp_mono; [by apply TupleSet_destroy_inv|by exists ext].
Qed.

Lemma reachable_balanced m : reachable m -> balanced m.
Proof.
  induction 1 as [|m o m' Hr IH Hok Hrun]; [exists ∅; apply mem_inv_empty|].
  exact (wp_Ok _ _ _ _ _ _ (run_op_balanced o m IH Hok) Hrun).
Qed.



(** ** Leaks

    The vectors the running code holds, after an operation. *)
Definition held (ext : gset addr) (o : ts_op) (m m' : mem) : gset addr :=
  match o with
  | OpNewVector _ _ => ext ∪ (dom (cols m') ∖ dom (cols m))
  | OpAdd _ _ _ a true => ext ∖ {[a]}
  | _ => ext
  end.

(** Operations that hand every vector they create to a column that deletes it. *)
Definition tidy (m : mem) (o : ts_op) : Prop :=
  match o with
  | OpSplit lhs rhs _ => tail_owned lhs rhs m
  | OpMerge lhs _ => all_allocated lhs m
  | _ => True
  end.

Lemma inv_leaking_tidy ext P m m' : inv_leaking ext P m m' -> P m -> mem_inv ext ∅ m'.
Proof. intros (l & Hi & H) HP. destruct (H HP) as [-> _]. by rewrite union_empty_r_L in Hi. Qed.

(** No operation loses a vector: after it, as before, the vectors in memory
    are exactly those the running code holds and those some tuple set will
    delete.  Splitting needs the columns it splits to be marked for deletion,
    merging needs the columns it fills to have a vector. *)
Theorem tuple_sets_leak_nothing ext m o m' :
  mem_inv ext ∅ m -> op_allowed m o -> tidy m o -> run_op o m = Ok tt m' ->
  forall a, a ∈ dom (cols m') <-> a ∈ held ext o m m' \/ exists ts k, owned m' ts k a.
Proof.
  intros Hi Hok Ht Hrun.
  enough (Hi' : mem_inv (held ext o m m') ∅ m').
  { intros a. rewrite elem_of_dom. split.
    - intros Hs. destruct (inv_accounted _ _ _ Hi' a Hs) as [?|(ts & k & _ & ?)]; [by left|right; eauto].
    - intros [Hin|(ts & k & mf & He & Hd)]; [by apply (inv_ext _ _ _ Hi')|].
      destruct (inv_live _ _ _ Hi' _ _ _ (not_elem_of_empty _) He Hd) as (b & c & [= <-] & Hc & _).
      by eexists. }
  destruct o; simpl in *.
  - exact (wp_Ok _ _ _ _ _ _ (wp_discard _ _ _ (TupleSet_new_inv _ _ Hi)) Hrun).
  - unfold discard in Hrun. inv_ok. apply new_col_inv in Hstep as [Hn ->].
    unfold mret, M_ret in Hrun. injection Hrun as <-. simpl.
    replace (ext ∪ _) with (ext ∪ {[a]}).
    + by apply mem_inv_new.
    + apply set_eq. intros b. rewrite dom_insert_L, !elem_of_union, elem_of_difference, elem_of_union,
        elem_of_singleton. apply not_elem_of_dom in Hn. naive_solver.
  - refine (_ (wp_Ok _ _ _ _ _ _ (addColumn_inv ext ts k t addMe needToDelete m Hi _) Hrun)); [by destruct needToDelete|].
    intros ->. destruct Hok as [[l Hl] Hno]. split; [|by eexists].
    destruct (inv_accounted _ _ _ Hi addMe) as [?|(ts' & k' & _ & Ho)]; [by eexists|done|].
    by destruct (Hno ts' k').
  - exact (wp_Ok _ _ _ _ _ _ (filterColumn_inv _ _ _ _ _ Hi) Hrun).
  - exact (wp_Ok _ _ _ _ _ _ (ts_replicate_inv _ _ _ _ _ _ _ Hi) Hrun).
  - exact (wp_Ok _ _ _ _ _ _ (copyColumn_inv _ _ _ _ _ _ Hi) Hrun).
  - exact (wp_Ok _ _ _ _ _ _ (wp_discard _ _ _ (getColumn_inv _ _ _ _ _ Hi)) Hrun).
  - exact (wp_Ok _ _ _ _ _ _ (putColumn_inv _ _ _ _ _ _ Hi) Hrun).
  - exact (inv_leaking_tidy _ _ _ _ (wp_Ok _ _ _ _ _ _ (ts_split_inv _ _ _ _ _ Hi) Hrun) Ht).
  - exact (inv_leaking_tidy _ _ _ _ (wp_Ok _ _ _ _ _ _ (ts_merge_inv _ _ _ _ Hi) Hrun) Ht).
  - exact (wp_Ok _ _ _ _ _ _ (TupleSet_destroy_inv _ _ _ Hi) Hrun).
Qed.

Lemma tuple_sets_leak_nothing_witness :
  exists m', run_op (OpNewVector ColSize [VSize 5]) mem_empty = Ok tt m' /\
    forall a, a ∈ dom (cols m') <->
      a ∈ held ∅ (OpNewVector ColSize [VSize 5]) mem_empty m' \/ exists ts k, owned m' ts k a.
Proof.
  eexists. split; [reflexivity|].
  apply (tuple_sets_leak_nothing ∅ mem_empty (OpNewVector ColSize [VSize 5]));
    [apply mem_inv_empty|done|done|reflexivity].
Defined.

(** The two-row column of set 1, copied to set 2 without a mark, split into the
    empty set 3. *)
Definition shallow_split_history : list ts_op :=
  [OpNew; OpNewVector ColSize [VSize 1; VSize 2]; OpAdd 1 0 ColSize 1 true; OpNew; OpCopy 2 1 0 0; OpNew;
   OpSplit 2 3 1; OpDestroy 1; OpDestroy 2; OpDestroy 3].
Fixpoint run_ops (l : list ts_op) : M mem unit :=
  match l with [] => mret tt | o :: l' => _ <- run_op o ;; run_ops l' end.

(** splitting a shallow column leaks: after every tuple set is destroyed
    the vector with the tail is still allocated and nothing refers to it. *)
Theorem split_of_shallow_column_leaks :
  exists m', run_ops shallow_split_history mem_empty = Ok tt m' /\
    sets m' = ∅ /\ cols m' = {[2%positive := mkColumn ColSize [VSize 2]]}.
Proof. eexists. split; [vm_compute; reflexivity|]. split; by vm_compute. Qed.

(** merging into a tuple set that lacks a column the other one has is
    never completed: the code looks the new column up through the end iterator of its
    map. *)
Theorem merge_into_empty_faults m lhs rhs k t l a mf :
  sets m !! lhs = Some ∅ -> lhs <> rhs ->
  sets m !! rhs = Some {[k := (Some a, mf)]} ->
  cols m !! a = Some (mkColumn t l) -> mfuncs mf = Some t ->
  ts_merge lhs rhs m = Fault EndIteratorDeref.
Proof.
  intros Hl Hne Hr Hc Hf. unfold ts_merge. rewrite (bind_Ok _ _ _ _ _ (read_set_eq _ _ _ Hr)).
  assert (Hkeys : column_keys {[k := (Some a, mf)]} = [k]).
  { unfold column_keys. by rewrite map_to_list_singleton. }
  rewrite Hkeys. simpl. unfold bind at 1, merge_column.
  assert (He : entry m rhs k = Some (Some a, mf)).
  { rewrite (entry_of _ _ _ _ Hr). by rewrite lookup_singleton_eq. }
  rewrite (bind_Ok _ _ _ _ _ (column_at_eq _ _ _ _ He)), (bind_Ok _ _ _ _ _ (read_set_eq _ _ _ Hl)).
  rewrite lookup_empty. unfold bind at 1, funcs_of. simpl. rewrite Hf. simpl.
  unfold merge_col. rewrite bind_assoc.
  unfold bind at 1 2. destruct (new_col_eq t [] m) as (n & En & Hn). rewrite En. simpl.
  assert (a <> n) by congruence.
  unfold bind at 1, mret at 1, M_ret. unfold bind at 1.
  rewrite (read_as_eq t n _ []) by (simpl; by rewrite lookup_insert_eq).
  unfold bind at 1. rewrite (read_as_eq t a _ l) by (simpl; by rewrite lookup_insert_ne).
  rewrite bool_decide_false by congruence. reflexivity.
Qed.

Lemma merge_into_empty_faults_witness :
  let m := mkMem {[1%positive := mkColumn ColSize [VSize 4]]}
             (<[1%positive := ∅]> {[2%positive := {[0%Z := (Some 1%positive, mkMaint (Some ColSize) true 0)]}]}) in
  ts_merge 1 2 m = Fault EndIteratorDeref.
Proof.
  intros m. apply (merge_into_empty_faults m 1 2 0 ColSize [VSize 4] 1 (mkMaint (Some ColSize) true 0));
    [reflexivity|done|reflexivity..].
Defined.
