(* ===== verification/TupleSetSpec.v ===== *)
(** What the operations of a tuple set compute: total specifications of
    pdb/src/pipeline/headers/TupleSet.h, in the form the executors use.

    [stable m out ts k t l]: column [k] of [ts] reads as the vector [l] of [t],
    and changing other columns of [out] cannot change that, because the vector
    is either that very column's own or not owned by [out] at all. *)

From S2P Require Import Prelude TupleSet TupleSetOwnership.

Definition reads (m : mem) (ts : tsid) (k : Z) (t : ColType) (l : list val) (a : addr)
    (mf : MaintenanceFuncs) : Prop :=
  entry m ts k = Some (Some a, mf) /\ cols m !! a = Some (mkColumn t l) /\ mfuncs mf = Some t.

Definition stable (m : mem) (out ts : tsid) (k : Z) (t : ColType) (l : list val) : Prop :=
  exists a mf, reads m ts k t l a mf /\
    ((ts = out /\ mustDelete mf = true) \/ forall k', ~ owned m out k' a).

(** A column that owns its vector. *)
Definition own_col (m : mem) (out : tsid) (k : Z) (t : ColType) (l : list val) : Prop :=
  exists a mf, reads m out k t l a mf /\ mustDelete mf = true.

Lemma own_col_stable m out k t l : own_col m out k t l -> stable m out out k t l.
Proof. intros (a & mf & Hr & Hd). exists a, mf. eauto. Qed.

Lemma and_stable (A B C : Prop) m out k t l : A /\ B /\ C /\ own_col m out k t l -> A /\ B /\ C /\ stable m out out k t l.
Proof. intros (? & ? & ? & H%own_col_stable). auto. Qed.

(** One operation's effect: column [k] of [out] is replaced. *)
Record replaces (out : tsid) (k : Z) (m m' : mem) : Prop := {
  rep_entry ts' k' : ~ (ts' = out /\ k' = k) -> entry m' ts' k' = entry m ts' k';
  rep_cols a c : cols m !! a = Some c -> ~ owned m out k a -> cols m' !! a = Some c;
  rep_own a : owned m' out k a -> cols m !! a = None \/ owned m out k a
}.

(** ** The rows *)

Lemma keep_length l bits : length l = length bits -> length (keep l bits) = count_true bits.
Proof.
  unfold count_true. revert bits. induction l as [|x l IH]; intros [|[] bits]; simpl; intros [=]; try done;
    rewrite (IH bits) by done; reflexivity.
Qed.

Definition bool_col (bits : list bool) : list val := map VBool bits.

Lemma as_bools_col bits m : as_bools (bool_col bits) m = Ok bits m.
Proof.
  unfold as_bools, mret, M_ret. f_equal. induction bits as [|b bits IH]; [done|].
  simpl. by f_equal.
Qed.

(** Each row as many times as its count says. *)
Definition repeat_rows (l : list val) (times : list Z) : list val :=
  concat (zip_with (fun x n => replicate (Z.to_nat n) x) l times).

Lemma replicated_rows l times :
  length l = length times -> replicated l times = Some (repeat_rows l times).
Proof.
  unfold repeat_rows. revert l. induction times as [|n times IH]; intros [|x l]; simpl; intros [=]; [done|].
  by rewrite IH.
Qed.

Lemma repeat_rows_length l times :
  length l = length times -> Forall (fun n => 0 <= n)%Z times ->
  Z.of_nat (length (repeat_rows l times)) = sum_counts times.
Proof.
  unfold repeat_rows. revert l. induction times as [|n times IH]; intros [|x l]; simpl; intros [=] Hp; [done|].
  apply Forall_cons in Hp as [? ?]. rewrite length_app, length_replicate, Nat2Z.inj_add, IH by done. lia.
Qed.

Section specs.
Context (ext : gset addr) (out : tsid).

Lemma owned_entry m m' ts k a : entry m' ts k = entry m ts k -> owned m' ts k a <-> owned m ts k a.
Proof. unfold owned. by intros ->. Qed.

Lemma stable_replaces k m m' ts' k' t l :
  mem_inv ext ∅ m -> replaces out k m m' -> ~ (ts' = out /\ k' = k) ->
  stable m out ts' k' t l -> stable m' out ts' k' t l.
Proof.
  intros Hi [He Hc Ho] Hne (a & mf & (Hent & Hcol & Hf) & Hst).
  assert (Hno : ~ owned m out k a).
  { destruct Hst as [[-> Hd]|Hst]; [|apply Hst]. intros Hk.
    destruct (inv_unique _ _ _ Hi out k' out k a); [set_solver|set_solver|by exists mf|done|].
    naive_solver. }
  exists a, mf. split; [split_and!; [by rewrite He|by apply Hc|done]|].
  destruct Hst as [?|Hst]; [by left|right]. intros k'' Hk''.
  destruct (decide (k'' = k)) as [->|Hn].
  - destruct (Ho a Hk''); congruence.
  - apply (Hst k''). eapply owned_entry; [|done]. symmetry. apply He. naive_solver.
Qed.

Lemma wp_total_eq {A} (c : M mem A) (Q : A -> mem -> Prop) m a m' :
  c m = Ok a m' -> Q a m' -> wp total c Q m.
Proof. apply wp_eq. Qed.

(** Whatever [release_at] deletes was the column's own. *)
Lemma release_at_run k m :
  mem_inv ext ∅ m -> is_Some (sets m !! out) ->
  exists m1, release_at out k m = Ok tt m1 /\ mem_inv ext {[(out, k)]} m1 /\ sets m1 = sets m /\
    (forall a c, cols m !! a = Some c -> ~ owned m out k a -> cols m1 !! a = Some c) /\
    (forall a, is_Some (cols m1 !! a) -> is_Some (cols m !! a)).
Proof.
  intros Hi [to Hto]. unfold release_at.
  rewrite (bind_Ok _ _ _ _ _ (hasColumn_eq _ k _ _ Hto)), <- (entry_of _ _ _ k Hto).
  case_bool_decide as Hs.
  - destruct Hs as [e He]. rewrite (bind_Ok _ _ _ _ _ (column_at_eq _ _ _ _ He)).
    destruct (release_ok ext ∅ out k e m Hi He) as (m1 & Hr & Hi1 & Hs1 & Hc1); [set_solver|].
    exists m1. split_and!; [done|by rewrite union_empty_l_L in Hi1|done| |].
    + intros a c Ha Hno. rewrite Hc1. destruct (mustDelete e.2) eqn:Hd; simpl; [|done].
      case_bool_decide as Hp; [|done]. destruct Hno. destruct e; simpl in *; subst. by eexists.
    + intros a. rewrite Hc1. destruct (_ && _); [by intros []|done].
  - exists m. split_and!; try done. replace {[(out, k)]} with (∅ ∪ {[(out, k)]} : gset (tsid * Z)) by set_solver.
    apply mem_inv_shrink; [done|]. intros e He. destruct Hs. by rewrite He.
Qed.

Lemma set_column_run ts k e m :
  is_Some (sets m !! ts) ->
  exists m', set_column ts k e m = Ok tt m' /\ cols m' = cols m /\
    (forall t, sets m !! ts = Some t -> sets m' = <[ts := <[k := e]> t]> (sets m)) /\
    forall ts' k', entry m' ts' k' = if bool_decide (ts' = ts /\ k' = k) then Some e else entry m ts' k'.
Proof.
  intros [t Ht]. eexists. split; [by apply set_column_eq|]. split; [done|].
  split; [by intros ? [= <-]%(eq_trans (eq_sym Ht))|]. intros. by apply entry_set.
Qed.

(** ** Adding, copying, filtering and replicating a column *)

Lemma addColumn_spec k t l a m :
  mem_inv ext ∅ m -> is_Some (sets m !! out) -> a ∈ ext -> cols m !! a = Some (mkColumn t l) ->
  wp total (addColumn out k t a true)
    (fun _ m' => mem_inv (ext ∖ {[a]}) ∅ m' /\ dom (sets m') = dom (sets m) /\
       reads m' out k t l a (mkMaint (Some t) true 0) /\
       (forall ts' k', ~ (ts' = out /\ k' = k) -> entry m' ts' k' = entry m ts' k') /\
       (forall b c, cols m !! b = Some c -> ~ owned m out k b -> cols m' !! b = Some c)) m.
Proof.
  intros Hi Hto Ha Hl. unfold addColumn.
  destruct (release_at_run k m Hi Hto) as (m1 & E1 & Hi1 & Hs1 & Hc1 & _).
  assert (Hl1 : cols m1 !! a = Some (mkColumn t l)).
  { apply Hc1; [done|]. destruct (inv_ext _ _ _ Hi a Ha) as [_ Hno]. apply Hno. set_solver. }
  apply wp_bind. eapply wp_eq; [done|].
  destruct Hto as [to Hto]. rewrite <- Hs1 in Hto.
  eapply wp_eq; [by apply set_column_eq|]. split_and!.
  - eapply mem_inv_set_sets_own; [by rewrite union_empty_l_L|done|set_solver|done|done|done|done].
  - simpl. rewrite dom_insert_lookup_L by done. by rewrite Hs1.
  - split_and!; [|done|done]. rewrite entry_set by done. by rewrite bool_decide_true.
  - intros ts' k' Hne. rewrite entry_set by done. rewrite bool_decide_false by done.
    by apply entry_sets.
  - exact Hc1.
Qed.

Lemma copyColumn_spec inp i k t l m :
  mem_inv ext ∅ m -> is_Some (sets m !! out) -> inp <> out -> stable m out inp i t l ->
  wp total (copyColumn out inp i k)
    (fun _ m' => mem_inv ext ∅ m' /\ dom (sets m') = dom (sets m) /\ replaces out k m m' /\
       stable m' out out k t l) m.
Proof.
  intros Hi Hto Hne (a & mf & (Hent & Hcol & Hf) & [[-> _]|Hst]); [done|]. unfold copyColumn.
  destruct (release_at_run k m Hi Hto) as (m1 & E1 & Hi1 & Hs1 & Hc1 & _).
  apply wp_bind. eapply wp_eq; [done|]. apply wp_bind.
  eapply wp_eq; [apply column_at_eq; by rewrite (entry_sets _ _ _ _ Hs1)|].
  destruct Hto as [to Hto]. rewrite <- Hs1 in Hto.
  eapply wp_eq; [by apply set_column_eq|]. simpl.
  assert (Hrep : replaces out k m (set_sets <[out:=<[k:=(Some a, set_mustDelete false mf)]> to]> m1)).
  { split.
    - intros ts' k' Hn. rewrite entry_set by done. rewrite bool_decide_false by done. by apply entry_sets.
    - exact Hc1.
    - intros b (mf' & Hb & Hd). rewrite entry_set in Hb by done. rewrite bool_decide_true in Hb by done.
      by simplify_eq/=. }
  split_and!; [|simpl; rewrite dom_insert_lookup_L by done; by rewrite Hs1|done|].
  - apply mem_inv_set_sets; [by rewrite union_empty_l_L|done|done].
  - exists a, (set_mustDelete false mf). split; [split_and!|].
    + rewrite entry_set by done. by rewrite bool_decide_true.
    + by apply Hc1.
    + done.
    + right. intros k' Hk'. destruct (decide (k' = k)) as [->|].
      * destruct (rep_own _ _ _ _ Hrep _ Hk') as [?|Ho]; [congruence|]. by apply (Hst k).
      * apply (Hst k'). eapply owned_entry; [|done]. symmetry. apply (rep_entry _ _ _ _ Hrep). naive_solver.
Qed.

(** A new vector computed from the old column goes in the column's place. *)
Lemma replace_with_new k t l m m2 a to mf :
  mem_inv ext ∅ m -> sets m2 !! out = Some to -> sets m2 = sets m ->
  mem_inv (ext ∪ {[a]}) {[(out, k)]} m2 -> a ∉ ext ->
  (forall b c, cols m !! b = Some c -> ~ owned m out k b -> cols m2 !! b = Some c) ->
  cols m2 !! a = Some (mkColumn t l) ->
  (cols m !! a = None \/ owned m out k a) ->
  mfuncs mf = Some t -> mustDelete mf = true ->
  let m' := set_sets <[out := <[k := (Some a, mf)]> to]> m2 in
  mem_inv ext ∅ m' /\ dom (sets m') = dom (sets m) /\ replaces out k m m' /\ own_col m' out k t l.
Proof.
  intros Hi Hto Hs Hi2 Ha Hc Hl Hfresh Hf Hd m'.
  assert (Hent : forall ts' k', entry m' ts' k' =
    if bool_decide (ts' = out /\ k' = k) then Some (Some a, mf) else entry m ts' k').
  { intros. unfold m'. rewrite entry_set by done. by rewrite (entry_sets _ _ _ _ Hs). }
  split_and!.
  - rewrite <- (ext_add_del ext a) by done.
    eapply (mem_inv_set_sets_own _ ∅); [by rewrite union_empty_l_L|done|set_solver|set_solver|done|done|done].
  - unfold m'; simpl. rewrite dom_insert_lookup_L by done. by rewrite Hs.
  - split.
    + intros ts' k' Hn. rewrite Hent. by rewrite bool_decide_false.
    + exact Hc.
    + intros b (mf' & Hb & _). rewrite Hent, bool_decide_true in Hb by done. simplify_eq. done.
  - exists a, mf. split; [split_and!; [|done|done]|done].
    by rewrite Hent, bool_decide_true.
Qed.

Lemma filterColumn_spec k t l pb bits m :
  mem_inv ext ∅ m -> stable m out out k t l ->
  cols m !! pb = Some (mkColumn ColBool (bool_col bits)) -> length l = length bits ->
  wp total (filterColumn out k (Some pb))
    (fun _ m' => mem_inv ext ∅ m' /\ dom (sets m') = dom (sets m) /\ replaces out k m m' /\
       stable m' out out k t (keep l bits)) m.
Proof.
  intros Hi (a & mf & (Hent & Hcol & Hf) & Hst) Hb Hlen. unfold filterColumn.
  destruct (sets m !! out) as [to|] eqn:Hto; [|unfold entry in Hent; by rewrite Hto in Hent].
  apply wp_bind. eapply wp_eq; [by apply hasColumn_eq|].
  rewrite <- (entry_of _ _ _ k Hto), bool_decide_true by by eexists.
  apply wp_bind. eapply wp_eq; [by apply column_at_eq|].
  apply wp_bind. simpl. unfold funcs_of. rewrite Hf. apply wp_mret.
  apply wp_bind. eapply wp_eq; [by apply read_as_eq|].
  apply wp_bind. eapply wp_eq; [by apply as_bools_col|].
  apply wp_bind. unfold filter_col. apply wp_bind. eapply wp_eq; [by apply read_as_eq|].
  rewrite (proj2 (Nat.leb_le _ _)) by lia.
  rewrite keep_length, Nat.sub_diag, app_nil_r by done.
  destruct (new_col_eq t (keep l bits) m) as (n & Hn & Hfresh). eapply wp_eq; [done|].
  set (m1 := set_cols _ m).
  assert (Hi1 : mem_inv (ext ∪ {[n]}) ∅ m1) by by apply mem_inv_new.
  assert (Hnext : n ∉ ext) by (intros Hin; destruct (inv_ext _ _ _ Hi n Hin) as [[? ?] _]; congruence).
  apply wp_bind.
  destruct (release_ok (ext ∪ {[n]}) ∅ out k (Some a, mf) m1) as (m2 & E2 & Hi2 & Hs2 & Hc2);
    [done|done|set_solver|]. eapply wp_eq; [done|].
  eapply wp_eq; [by apply set_column_eq; rewrite Hs2|].
  rewrite union_empty_l_L in Hi2. simpl in Hc2.
  assert (Ho : mustDelete mf = true -> owned m out k a) by (intros; by exists mf).
  assert (Hno : forall b, owned m out k b -> mustDelete mf = true /\ b = a).
  { intros b (mf' & Hb' & Hd'). rewrite Hent in Hb'. by simplify_eq. }
  apply and_stable. eapply (replace_with_new k t _ m m2); try done.
  - by rewrite Hs2.
  - intros b c Hb' Hnob. rewrite Hc2.
    assert (b <> n) by congruence.
    destruct (mustDelete mf) eqn:Hd; simpl; [case_bool_decide; [naive_solver|]|];
      by rewrite lookup_insert_ne.
  - rewrite Hc2. simpl. rewrite lookup_insert_eq.
    destruct (mustDelete mf); simpl; [|done]. case_bool_decide; [congruence|done].
  - by left.
Qed.

Lemma ts_replicate_spec inp i k t l times m :
  mem_inv ext ∅ m -> is_Some (sets m !! out) -> inp <> out -> stable m out inp i t l ->
  length l = length times -> Forall (fun n => 0 <= n)%Z times -> (sum_counts times < 2 ^ 31)%Z ->
  wp total (ts_replicate out inp i k times)
    (fun _ m' => mem_inv ext ∅ m' /\ dom (sets m') = dom (sets m) /\ replaces out k m m' /\
       own_col m' out k t (repeat_rows l times)) m.
Proof.
  intros Hi Hto Hne (a & mf & (Hent & Hcol & Hf) & [[-> _]|Hst]) Hlen Hpos Hsum; [done|].
  unfold ts_replicate.
  destruct (release_at_run k m Hi Hto) as (m1 & E1 & Hi1 & Hs1 & Hc1 & Hd1).
  assert (Hl1 : cols m1 !! a = Some (mkColumn t l)) by by apply Hc1.
  destruct Hto as [to Hto]. assert (Hto1 : sets m1 !! out = Some to) by by rewrite Hs1.
  apply wp_bind. eapply wp_eq; [done|]. apply wp_bind.
  eapply wp_eq; [apply column_at_eq; by rewrite (entry_sets _ _ _ _ Hs1)|].
  apply wp_bind. simpl. unfold funcs_of. rewrite Hf. apply wp_mret.
  apply wp_bind. unfold replicate_col. apply wp_bind. eapply wp_eq; [by apply read_as_eq|].
  rewrite (replicated_rows l times) by done.
  pose proof (repeat_rows_length l times Hlen Hpos) as Hrl.
  assert (Hi32 : i32 (sum_counts times) = sum_counts times).
  { unfold i32. rewrite Z.mod_small by lia. lia. }
  rewrite Hi32. rewrite (proj2 (Z.ltb_ge _ _)), (proj2 (Z.leb_le _ _)) by lia.
  assert (Hres : vec_resize (default_val t) (Z.to_nat (sum_counts times)) (repeat_rows l times) =
                 repeat_rows l times).
  { rewrite <- Hrl, Nat2Z.id. apply vec_resize_id. }
  rewrite Hres. destruct (new_col_eq t (repeat_rows l times) m1) as (n & Hn & Hfresh).
  eapply wp_eq; [done|]. eapply wp_eq; [by apply set_column_eq|].
  assert (Hnext : n ∉ ext) by (intros Hin; destruct (inv_ext _ _ _ Hi1 n Hin) as [[? ?] _]; congruence).
  eapply (replace_with_new k t _ m (set_cols _ m1)); try done.
  - by apply mem_inv_new.
  - intros b c Hb Hno. simpl. pose proof (Hc1 b c Hb Hno). by rewrite lookup_insert_ne by congruence.
  - simpl. by rewrite lookup_insert_eq.
  - destruct (cols m !! n) as [c|] eqn:E; [right|by left].
    destruct (inv_accounted _ _ _ Hi n) as [Hin|(ts' & k' & _ & Ho)]; [by eexists|done|].
    destruct (decide (ts' = out /\ k' = k)) as [[-> ->]|Hn']; [done|]. exfalso.
    assert (~ owned m out k n).
    { intros Ho'. apply Hn'. eapply (inv_unique _ _ _ Hi); [set_solver|set_solver|done|done]. }
    pose proof (Hc1 n c E H). congruence.
Qed.
End specs.

(** ** Deciding the invariant of a concrete store *)

Definition all_entries (m : mem) : list (tsid * Z * (option addr * MaintenanceFuncs)) :=
  '(ts, t) ← map_to_list (sets m); '(k, e) ← map_to_list t; [((ts, k), e)].

Lemma elem_of_all_entries m ts k e : ((ts, k), e) ∈ all_entries m <-> entry m ts k = Some e.
Proof.
  unfold all_entries, entry. rewrite list_elem_of_bind. split.
  - intros ([ts' t] & Hin & Ht%elem_of_map_to_list). apply list_elem_of_bind in Hin as ([k' e'] & Hin & Hk).
    apply list_elem_of_singleton in Hin. simplify_eq. apply elem_of_map_to_list in Hk. by rewrite Ht.
  - destruct (sets m !! ts) as [t|] eqn:Ht; [|done]. simpl. intros Hk. exists (ts, t).
    split; [|by apply elem_of_map_to_list]. apply list_elem_of_bind. exists (k, e).
    split; [by apply list_elem_of_singleton|by apply elem_of_map_to_list].
Qed.

Definition owned_entries (m : mem) : list (tsid * Z * addr) :=
  omap (fun x => match x.2 with
                 | (Some a, mf) => if mustDelete mf then Some (x.1, a) else None
                 | (None, _) => None
                 end) (all_entries m).

Lemma elem_of_owned_entries m ts k a : ((ts, k), a) ∈ owned_entries m <-> owned m ts k a.
Proof.
  unfold owned_entries, owned. rewrite list_elem_of_omap. split.
  - intros ([[ts' k'] [[b|] mf]] & Hin & E); simpl in E; [|done].
    destruct (mustDelete mf) eqn:Hd; simplify_eq. exists mf. by rewrite elem_of_all_entries in Hin.
  - intros (mf & He & Hd). exists ((ts, k), (Some a, mf)). rewrite elem_of_all_entries. simpl. by rewrite Hd.
Qed.

Definition well_ownedb (m : mem) (e : option addr * MaintenanceFuncs) : bool :=
  match e.1 with
  | Some a => match cols m !! a with
              | Some c => bool_decide (mfuncs e.2 = Some (col_type c))
              | None => false
              end
  | None => false
  end.

Definition mem_invb (ext : gset addr) (m : mem) : bool :=
  forallb (fun x => if mustDelete x.2.2 then well_ownedb m x.2 else true) (all_entries m) &&
  bool_decide (NoDup (map snd (owned_entries m))) &&
  forallb (fun a => bool_decide (is_Some (cols m !! a)) && bool_decide (a ∉ map snd (owned_entries m)))
    (elements ext) &&
  forallb (fun x => bool_decide (x.1 ∈ ext) || bool_decide (x.1 ∈ map snd (owned_entries m)))
    (map_to_list (cols m)).

Lemma well_ownedb_sound m e : well_ownedb m e = true -> well_owned m e.
Proof.
  unfold well_ownedb. destruct e as [[a|] mf]; simpl; [|done].
  destruct (cols m !! a) as [c|] eqn:Ec; [|done]. intros H%bool_decide_eq_true. by exists a, c.
Qed.

Lemma in_owned m a : a ∈ map snd (owned_entries m) <-> exists ts k, owned m ts k a.
Proof.
  rewrite list_elem_of_fmap. split.
  - intros ([[ts k] b] & -> & H%elem_of_owned_entries). eauto.
  - intros (ts & k & H). exists ((ts, k), a). by rewrite elem_of_owned_entries.
Qed.

Lemma mem_invb_sound ext m : mem_invb ext m = true -> mem_inv ext ∅ m.
Proof.
  unfold mem_invb. rewrite !andb_true_iff, !forallb_forall, bool_decide_eq_true.
  intros [[[Hl Hn] He] Ha]. split.
  - intros ts k e _ Hent Hd. apply well_ownedb_sound.
    specialize (Hl ((ts, k), e)). simpl in Hl. rewrite Hd in Hl. apply Hl.
    apply list_elem_of_In. by apply elem_of_all_entries.
  - intros ts k ts' k' a _ _ H1%elem_of_owned_entries H2%elem_of_owned_entries.
    apply list_elem_of_lookup in H1 as [i Hi1], H2 as [j Hj].
    assert (i = j) as ->.
    { eapply NoDup_lookup; [exact Hn| |]; rewrite list_lookup_fmap; [rewrite Hi1|rewrite Hj]; done. }
    by simplify_eq.
  - intros a Hin. specialize (He a). rewrite andb_true_iff, !bool_decide_eq_true in He.
    destruct He as [Hs Hno]; [apply list_elem_of_In; by apply elem_of_elements|]. split; [done|].
    intros ts k _ Ho. apply Hno, in_owned. eauto.
  - intros a [c Hc]. specialize (Ha (a, c)). rewrite orb_true_iff, !bool_decide_eq_true in Ha.
    destruct Ha as [?|Ho]; [apply list_elem_of_In; by apply elem_of_map_to_list|by left|].
    apply in_owned in Ho as (ts & k & Ho). right. exists ts, k. split; [set_solver|done].
Qed.

(** A column of another tuple set whose vector [out] does not own. *)
Definition stableb (m : mem) (out ts : tsid) (k : Z) (t : ColType) (l : list val) : bool :=
  match entry m ts k with
  | Some (Some a, mf) =>
      match cols m !! a with
      | Some c => bool_decide (col_type c = t) && bool_decide (col_data c = l) &&
                  bool_decide (mfuncs mf = Some t) &&
                  forallb (fun x => negb (bool_decide (x.1.1 = out) && bool_decide (x.2 = a))) (owned_entries m)
      | None => false
      end
  | _ => false
  end.

Lemma stableb_sound m out ts k t l : stableb m out ts k t l = true -> stable m out ts k t l.
Proof.
  unfold stableb. destruct (entry m ts k) as [[[a|] mf]|] eqn:He; [|done|done].
  destruct (cols m !! a) as [[t' l']|] eqn:Hc; [|done].
  rewrite !andb_true_iff, !bool_decide_eq_true, forallb_forall. simpl. intros [[[-> ->] Hf] Hno].
  exists a, mf. split; [done|]. right. intros k' Ho%elem_of_owned_entries.
  specialize (Hno ((out, k'), a)). rewrite negb_true_iff, andb_false_iff, !bool_decide_eq_false in Hno.
  simpl in Hno. destruct Hno; [by apply list_elem_of_In|done..].
Qed.
