(* ===== verification/Executors.v ===== *)
(** The executors of a pipeline over tuple sets, and what each of them does to
    rows: pdb/src/pipeline/headers/executors and source/TupleSetMachine.cc. *)

From stdpp Require Import relations.
From S2P Require Import Prelude AtomicComputation TupleSet TupleSetOwnership TupleSetSpec.

Open Scope Z_scope.

(** ** TupleSetSetupMachine *)

Record TupleSetSetupMachine := mkMachine {
  inputSchema : TupleSpec;
  matches : list Z
}.

(** [match]: an attribute the input does not have is reported on the console
    and skipped, so the answer may be shorter than the question. *)
Definition match_ (schema attsToMatch : TupleSpec) : list Z :=
  omap (fun s => Z.of_nat <$> find_pos s (getAtts schema)) (getAtts attsToMatch).

Definition TupleSetSetupMachine_new (schema : TupleSpec) : TupleSetSetupMachine :=
  mkMachine schema [].
Definition TupleSetSetupMachine_of (schema attsToIncludeInOutput : TupleSpec) : TupleSetSetupMachine :=
  mkMachine schema (match_ schema attsToIncludeInOutput).

(** The matches with the [counter] the loops keep. *)
Definition counted (l : list Z) : list (Z * Z) := imap (fun n i => (Z.of_nat n, i)) l.

Definition setup (mc : TupleSetSetupMachine) (input output : tsid) : M mem unit :=
  for_each (counted (matches mc)) (fun '(counter, i) => copyColumn output input i counter).

Definition machine_replicate (mc : TupleSetSetupMachine) (input output : tsid)
    (counts : list Z) (offset : Z) : M mem unit :=
  for_each (counted (matches mc))
    (fun '(counter, i) => ts_replicate output input i (counter + offset) counts).

(** [matches[0]] *)
Definition first_match (schema attsToOperateOn : TupleSpec) : M mem Z :=
  match match_ schema attsToOperateOn with
  | i :: _ => mret i
  | [] => ub OutOfRange
  end.

(** [vector::resize] with a size that went through an [int]. *)
Definition resize_int (d : val) (n : Z) (l : list val) : M mem (list val) :=
  if n <? 0 then throw LengthError else mret (vec_resize d (Z.to_nat n) l).

(** The column an executor appends is created at the first call. *)
Definition ensure_column (t : ColType) (out : tsid) (k : Z) : M mem unit :=
  b <- hasColumn out k ;;
  if b then mret tt else a <- new_col t [] ;; addColumn out k t a true.

(** ** FilterExecutor *)

Module Filter.
Record FilterExecutor := mkFilter {
  output : tsid;
  whichAtt : Z;
  myMachine : TupleSetSetupMachine
}.

Definition FilterExecutor_new (schema attsToOperateOn attsToIncludeInOutput : TupleSpec)
    : M mem FilterExecutor :=
  let mc := TupleSetSetupMachine_of schema attsToIncludeInOutput in
  out <- TupleSet_new ;;
  w <- first_match schema attsToOperateOn ;;
  mret (mkFilter out w mc).

Definition process (ex : FilterExecutor) (input : tsid) : M mem tsid :=
  _ <- setup (myMachine ex) input (output ex) ;;
  inputColumn <- column_at input (whichAtt ex) ;;
  numColumns <- getNumColumns (output ex) ;;
  _ <- for_each (map Z.of_nat (seq 0 numColumns))
         (fun i => filterColumn (output ex) i inputColumn.1) ;;
  mret (output ex).
End Filter.

(** ** FlattenExecutor *)

Module Flatten.
Record FlattenExecutor := mkFlatten {
  output : tsid;
  whichAtt : Z;
  outAtt : Z;
  myMachine : TupleSetSetupMachine;
  counts : list Z
}.

Definition FlattenExecutor_new (schema attsToOperateOn attsToIncludeInOutput : TupleSpec)
    : M mem FlattenExecutor :=
  let mc := TupleSetSetupMachine_of schema attsToIncludeInOutput in
  out <- TupleSet_new ;;
  w <- first_match schema attsToOperateOn ;;
  mret (mkFlatten out w (Z.of_nat (length (getAtts attsToIncludeInOutput))) mc []).

Definition vec_of (v : val) : list (option Z) := match v with VVec l => l | _ => [] end.

(** [counts] is resized when its length differs and then overwritten entry by
    entry; [numFlattenedRows] is an [int]. *)
Definition count_rows (counts : list Z) (inputVecData : list (list (option Z))) : list Z * Z :=
  let counts0 := if bool_decide (length counts = length inputVecData) then counts
                 else vec_resize 0 (length inputVecData) counts in
  foldl (fun '(cs, rows) '(i, myVec) =>
           let mySize := i32 (Z.of_nat (length myVec)) in
           (<[i := u32 mySize]> cs, i32 (rows + mySize)))
        (counts0, 0) (imap pair inputVecData).

(** Assigns the elements one after the other from index 0. *)
Fixpoint overwrite (dst src : list val) : option (list val) :=
  match src, dst with
  | [], _ => Some dst
  | x :: src', _ :: dst' => cons x <$> overwrite dst' src'
  | _ :: _, [] => None
  end.

Definition process (ex : FlattenExecutor) (input : tsid) : M mem (FlattenExecutor * tsid) :=
  vecs <- getColumn ColVec input (whichAtt ex) ;;
  let inputVecData := map vec_of vecs in
  let '(counts', numFlattenedRows) := count_rows (counts ex) inputVecData in
  _ <- machine_replicate (myMachine ex) input (output ex) counts' 0 ;;
  _ <- ensure_column (ColHandle "pdb::Object") (output ex) (outAtt ex) ;;
  outColumn <- getColumn (ColHandle "pdb::Object") (output ex) (outAtt ex) ;;
  resized <- resize_int (VHandle None) numFlattenedRows outColumn ;;
  filled <- unwrap OutOfRange (overwrite resized (map VHandle (concat inputVecData))) ;;
  _ <- putColumn (ColHandle "pdb::Object") (output ex) (outAtt ex) filled ;;
  mret (mkFlatten (output ex) (whichAtt ex) (outAtt ex) (myMachine ex) counts', output ex).
End Flatten.

(** ** HashOneExecutor *)

Module HashOne.
Record HashOneExecutor := mkHashOne {
  output : tsid;
  whichAtt : Z;
  outAtt : Z;
  myMachine : TupleSetSetupMachine
}.

Definition HashOneExecutor_new (schema attsToOperateOn attsToIncludeInOutput : TupleSpec)
    : M mem HashOneExecutor :=
  let mc := TupleSetSetupMachine_of schema attsToIncludeInOutput in
  out <- TupleSet_new ;;
  w <- first_match schema attsToOperateOn ;;
  mret (mkHashOne out w (Z.of_nat (length (getAtts attsToIncludeInOutput))) mc).

(** The number of rows is asked of the output tuple set, under the number the
    attribute has in the input. *)
Definition process (ex : HashOneExecutor) (input : tsid) : M mem tsid :=
  _ <- setup (myMachine ex) input (output ex) ;;
  _ <- ensure_column ColSize (output ex) (outAtt ex) ;;
  outColumn <- getColumn ColSize (output ex) (outAtt ex) ;;
  numRows <- getNumRows (output ex) (whichAtt ex) ;;
  resized <- resize_int (VSize 0) (i32 numRows) outColumn ;;
  _ <- putColumn ColSize (output ex) (outAtt ex) (map (fun _ => VSize 1) resized) ;;
  mret (output ex).
End HashOne.

(** ** UnionExecutor *)

Module Union_.
Record UnionExecutor := mkUnion {
  output : tsid;
  whichAtt : Z;
  outAtt : Z;
  myMachine : TupleSetSetupMachine
}.

Definition UnionExecutor_new (schema attsToOperateOn : TupleSpec) : M mem UnionExecutor :=
  let mc := TupleSetSetupMachine_new schema in
  out <- TupleSet_new ;;
  w <- first_match schema attsToOperateOn ;;
  mret (mkUnion out w 0 mc).

Definition process (ex : UnionExecutor) (input : tsid) : M mem tsid :=
  _ <- setup (myMachine ex) input (output ex) ;;
  _ <- copyColumn (output ex) input (whichAtt ex) (outAtt ex) ;;
  mret (output ex).
End Union_.

(** ** ApplyComputeExecutor: runs the function it was built with. *)

Module ApplyCompute.
Record ApplyComputeExecutor := mkApply {
  output : tsid;
  processInput : tsid -> M mem tsid
}.
Definition process (ex : ApplyComputeExecutor) (input : tsid) : M mem tsid :=
  processInput ex input.
End ApplyCompute.

(** ** Loops over the columns of the output *)

Lemma stable_own_col m m' out k t l l' :
  own_col m out k t l -> entry m' out k = entry m out k -> stable m' out out k t l' -> own_col m' out k t l'.
Proof.
  intros (a & mf & (He & _ & _) & Hd) Hent (a' & mf' & Hr & _).
  pose proof Hr as (He' & _ & _). rewrite Hent, He in He'. injection He' as <- <-. by exists a, mf.
Qed.

Section column_loops.
Context (ext : gset addr) (out : tsid).

(** Some of the columns [ks] of [out] are replaced, one after the other. *)
Definition evolves (ks : list Z) : mem -> mem -> Prop :=
  rtc (fun m m' => mem_inv ext ∅ m /\ exists k, k ∈ ks /\ replaces out k m m').

Lemma evolves_one ks k m m' :
  mem_inv ext ∅ m -> k ∈ ks -> replaces out k m m' -> evolves ks m m'.
Proof. intros. apply rtc_once. eauto. Qed.

Lemma evolves_weaken ks ks' m m' : (forall k, k ∈ ks -> k ∈ ks') -> evolves ks m m' -> evolves ks' m m'.
Proof. intros Hk. apply rtc_subrel. intros x y (? & k & ? & ?). eauto. Qed.

Lemma evolves_trans ks m1 m2 m3 : evolves ks m1 m2 -> evolves ks m2 m3 -> evolves ks m1 m3.
Proof. apply transitivity. Qed.

Lemma evolves_keeps ks (K : mem -> Prop) m m' :
  (forall k m m', k ∈ ks -> mem_inv ext ∅ m -> replaces out k m m' -> K m -> K m') ->
  evolves ks m m' -> K m -> K m'.
Proof. intros HK. induction 1 as [|x y z (? & k & ? & ?) ? IH]; eauto. Qed.

Lemma evolves_stable ks m m' ts k t l :
  evolves ks m m' -> ~ (ts = out /\ k ∈ ks) -> stable m out ts k t l -> stable m' out ts k t l.
Proof.
  intros He Hn. apply (evolves_keeps ks (fun m => stable m out ts k t l)); [|done].
  intros k' m1 m2 Hk Hi Hr. eapply stable_replaces; [done|done|]. naive_solver.
Qed.

Lemma evolves_entry ks m m' ts k :
  evolves ks m m' -> ~ (ts = out /\ k ∈ ks) -> entry m' ts k = entry m ts k.
Proof.
  intros He Hn. apply (evolves_keeps ks (fun m2 => entry m2 ts k = entry m ts k) m m'); [|done..].
  intros k' m1 m2 Hk Hi Hr <-. apply (rep_entry _ _ _ _ Hr). naive_solver.
Qed.

Definition keeps_off (k : Z) (P : mem -> Prop) : Prop :=
  forall k' m m', k' <> k -> mem_inv ext ∅ m -> replaces out k' m m' -> P m -> P m'.

Lemma stable_keeps_off k t l : keeps_off k (fun m => stable m out out k t l).
Proof. intros k' m m' Hne Hi Hr. eapply stable_replaces; [done|done|]. intros [_ ->]. done. Qed.

Lemma stable_input_keeps_off inp i k t l :
  inp <> out -> keeps_off k (fun m => stable m out inp i t l).
Proof. intros Hne k' m m' _ Hi Hr. eapply stable_replaces; [done|done|]. by intros [-> _]. Qed.

Lemma own_col_keeps_off k t l : keeps_off k (fun m => own_col m out k t l).
Proof.
  intros k' m m' Hne Hi Hr Ho. eapply stable_own_col; [done| |].
  - apply (rep_entry _ _ _ _ Hr). by intros [_ ->].
  - by eapply stable_keeps_off, own_col_stable.
Qed.

Lemma columns_loop {A} (body : A -> M mem unit) (key : A -> Z) (Pre Post : A -> mem -> Prop) l m :
  (forall x m, x ∈ l -> mem_inv ext ∅ m -> is_Some (sets m !! out) -> Pre x m ->
     wp total (body x) (fun _ m' => mem_inv ext ∅ m' /\ dom (sets m') = dom (sets m) /\
       replaces out (key x) m m' /\ Post x m') m) ->
  (forall x, keeps_off (key x) (Pre x)) -> (forall x, keeps_off (key x) (Post x)) ->
  NoDup (map key l) -> mem_inv ext ∅ m -> is_Some (sets m !! out) ->
  (forall x, x ∈ l -> Pre x m) ->
  wp total (for_each l body) (fun _ m' => mem_inv ext ∅ m' /\ dom (sets m') = dom (sets m) /\
    (forall x, x ∈ l -> Post x m') /\ evolves (map key l) m m') m.
Proof.
  intros Hb Hpre Hpost. revert m Hb. induction l as [|x l IH]; intros m Hb Hnd Hi Hs Hall; simpl.
  { apply wp_mret. split_and!; [done|done|set_solver|apply rtc_refl]. }
  apply NoDup_cons in Hnd as [Hx Hnd].
  apply wp_bind. eapply wp_mono; [apply Hb; [set_solver|done|done|apply Hall; set_solver]|].
  intros [] m1 (Hi1 & Hd1 & Hr1 & Hp1).
  assert (Hne : forall k, k ∈ map key l -> k <> key x) by (by intros k Hk ->).
  eapply wp_mono; [apply IH; [|done|done| |]|].
  - intros y m2 Hy. apply Hb. set_solver.
  - apply elem_of_dom. rewrite Hd1. by apply elem_of_dom.
  - intros y Hy. apply (Hpre y (key x) m m1); [|done|done|apply Hall; set_solver].
    apply not_eq_sym, Hne, list_elem_of_fmap. by exists y.
  - intros [] m2 (Hi2 & Hd2 & Hp2 & He2). split_and!; [done|congruence| |].
    + intros y [->|Hy]%elem_of_cons; [|auto].
      eapply (evolves_keeps _ (Post x)); [|done|done].
      intros k' ma mb Hk' Hia Hra. by apply (Hpost x k' ma mb); [apply Hne|..].
    + eapply evolves_trans; [eapply (evolves_one _ (key x)); [done|set_solver|done]|].
      eapply evolves_weaken; [|done]. set_solver.
Qed.
End column_loops.

(** ** The setup machine *)

(** [reads_as V]: what the columns of the input hold. *)
Definition input_view (m : mem) (out inp : tsid) (V : Z -> option (ColType * list val)) : Prop :=
  forall i t l, V i = Some (t, l) -> stable m out inp i t l.

Lemma input_view_evolves ext out inp ks V m m' :
  inp <> out -> evolves ext out ks m m' -> input_view m out inp V -> input_view m' out inp V.
Proof. intros Hne He Hv i t l Hi. eapply evolves_stable; [done|by intros [-> _]|by apply Hv]. Qed.

Lemma counted_keys_offset off l : NoDup (map (fun x : Z * Z => x.1 + off) (counted l)).
Proof.
  unfold counted. assert (H : map (fun x : Z * Z => x.1 + off) (imap (fun n i => (Z.of_nat n, i)) l) =
    map (fun n => Z.of_nat n + off) (seq 0 (length l))).
  { apply list_eq. intros j. rewrite !list_lookup_fmap, list_lookup_imap.
    destruct (decide (j < length l)%nat) as [Hj|Hj].
    - destruct (lookup_lt_is_Some_2 l j Hj) as [x Hx]. rewrite Hx, lookup_seq_lt by done. done.
    - rewrite lookup_ge_None_2, lookup_seq_ge by lia. done. }
  rewrite H. apply NoDup_fmap_2_strong; [|apply NoDup_seq]. intros; lia.
Qed.

Lemma elem_of_counted l n i : (n, i) ∈ counted l <-> exists j, n = Z.of_nat j /\ l !! j = Some i.
Proof.
  unfold counted. rewrite elem_of_lookup_imap. split.
  - intros (j & y & [=] & Hl). subst. eauto.
  - intros (j & -> & Hl). by exists j, i.
Qed.

Section setup.
Context (ext : gset addr) (inp out : tsid) (Hne : inp <> out).
Context (V : Z -> option (ColType * list val)).

(** The machine's attributes are all columns of the input. *)
Definition covers (l : list Z) : Prop := forall i, i ∈ l -> is_Some (V i).

(** The outcome of filling columns [off], [off + 1], ... of [out] with [f] of
    the input's columns. *)
Definition filled (f : list val -> list val) (off : Z) (l : list Z) (m : mem) : Prop :=
  forall j i t v, l !! j = Some i -> V i = Some (t, v) ->
    stable m out out (Z.of_nat j + off) t (f v).

Lemma filled_counted f off l m :
  (forall x, x ∈ counted l -> forall t v, V x.2 = Some (t, v) -> stable m out out (x.1 + off) t (f v)) ->
  filled f off l m.
Proof. intros H j i t v Hj Hv. apply (H (Z.of_nat j, i)); [|done]. apply elem_of_counted. eauto. Qed.

Lemma covers_counted l x : covers l -> x ∈ counted l -> is_Some (V x.2).
Proof.
  destruct x as [n i]. intros Hc (j & -> & Hj)%elem_of_counted. simpl.
  apply Hc. by eapply list_elem_of_lookup_2.
Qed.

Lemma setup_spec mc m :
  mem_inv ext ∅ m -> is_Some (sets m !! out) -> input_view m out inp V -> covers (matches mc) ->
  wp total (setup mc inp out)
    (fun _ m' => mem_inv ext ∅ m' /\ dom (sets m') = dom (sets m) /\
       filled (fun v => v) 0 (matches mc) m' /\
       evolves ext out (map (fun x => x.1 + 0) (counted (matches mc))) m m') m.
Proof.
  intros Hi Hs Hv Hc. unfold setup. eapply wp_mono.
  - apply (columns_loop ext out _ (fun x : Z * Z => x.1 + 0)
      (fun x m => forall t v, V x.2 = Some (t, v) -> stable m out inp x.2 t v)
      (fun x m => forall t v, V x.2 = Some (t, v) -> stable m out out (x.1 + 0) t v)); try done.
    + intros [n i] m1 Hin Hi1 Hs1 Hp. destruct (covers_counted _ _ Hc Hin) as [[t v] Htv].
      simpl in *. rewrite Z.add_0_r. eapply wp_mono; [by eapply copyColumn_spec; eauto|].
      intros [] m2 (? & ? & ? & ?). split_and!; try done. intros t' v' E. by rewrite Htv in E; simplify_eq.
    + intros x k m1 m2 Hk Hi1 Hr Hp t v E. eapply stable_input_keeps_off; eauto.
    + intros x k m1 m2 Hk Hi1 Hr Hp t v E. eapply stable_keeps_off; eauto.
    + apply counted_keys_offset.
    + intros x _ t v. apply Hv.
  - intros [] m1 (? & ? & Hp & ?). split_and!; try done. by apply filled_counted.
Qed.

(** The replicated columns are the output's own. *)
Definition filled_own (f : list val -> list val) (off : Z) (l : list Z) (m : mem) : Prop :=
  forall j i t v, l !! j = Some i -> V i = Some (t, v) -> own_col m out (Z.of_nat j + off) t (f v).

Lemma machine_replicate_own mc counts off m :
  mem_inv ext ∅ m -> is_Some (sets m !! out) -> input_view m out inp V -> covers (matches mc) ->
  (forall i t v, V i = Some (t, v) -> length v = length counts) ->
  Forall (fun n => 0 <= n) counts -> sum_counts counts < 2 ^ 31 ->
  wp total (machine_replicate mc inp out counts off)
    (fun _ m' => mem_inv ext ∅ m' /\ dom (sets m') = dom (sets m) /\
       filled_own (fun v => repeat_rows v counts) off (matches mc) m' /\
       evolves ext out (map (fun x => x.1 + off) (counted (matches mc))) m m') m.
Proof.
  intros Hi Hs Hv Hc Hlen Hpos Hsum. unfold machine_replicate. eapply wp_mono.
  - apply (columns_loop ext out _ (fun x : Z * Z => x.1 + off)
      (fun x m => forall t v, V x.2 = Some (t, v) -> stable m out inp x.2 t v)
      (fun x m => forall t v, V x.2 = Some (t, v) -> own_col m out (x.1 + off) t (repeat_rows v counts)));
      try done.
    + intros [n i] m1 Hin Hi1 Hs1 Hp. destruct (covers_counted _ _ Hc Hin) as [[t v] Htv].
      simpl in *. eapply wp_mono; [by eapply ts_replicate_spec; eauto|].
      intros [] m2 (? & ? & ? & ?). split_and!; try done. intros t' v' E. by rewrite Htv in E; simplify_eq.
    + intros x k m1 m2 Hk Hi1 Hr Hp t v E. eapply stable_input_keeps_off; eauto.
    + intros x k m1 m2 Hk Hi1 Hr Hp t v E. eapply own_col_keeps_off; eauto.
    + apply counted_keys_offset.
    + intros x _ t v. apply Hv.
  - intros [] m1 (? & ? & Hp & ?). split_and!; try done. intros j i t v Hj Hv'.
    apply (Hp (Z.of_nat j, i)); [|done]. apply elem_of_counted. eauto.
Qed.

Lemma machine_replicate_spec mc counts off m :
  mem_inv ext ∅ m -> is_Some (sets m !! out) -> input_view m out inp V -> covers (matches mc) ->
  (forall i t v, V i = Some (t, v) -> length v = length counts) ->
  Forall (fun n => 0 <= n) counts -> sum_counts counts < 2 ^ 31 ->
  wp total (machine_replicate mc inp out counts off)
    (fun _ m' => mem_inv ext ∅ m' /\ dom (sets m') = dom (sets m) /\
       filled (fun v => repeat_rows v counts) off (matches mc) m' /\
       evolves ext out (map (fun x => x.1 + off) (counted (matches mc))) m m') m.
Proof.
  intros Hi Hs Hv Hc Hlen Hpos Hsum. eapply wp_mono; [by apply machine_replicate_own|].
  intros [] m1 (? & ? & Hf & ?). split_and!; try done. intros j i t v Hj Hv'. by eapply own_col_stable, Hf.
Qed.
End setup.

(** ** The output's columns are numbered from 0 *)

Definition keys_below (m : mem) (out : tsid) (n : nat) : Prop :=
  forall k, is_Some (entry m out k) -> 0 <= k < Z.of_nat n.

Definition numbers (n : nat) : list Z := map Z.of_nat (seq 0 n).

Lemma elem_of_numbers n k : k ∈ numbers n <-> 0 <= k < Z.of_nat n.
Proof.
  unfold numbers. rewrite list_elem_of_fmap. split.
  - intros (j & -> & Hj%elem_of_seq). lia.
  - intros Hk. exists (Z.to_nat k). split; [lia|]. apply elem_of_seq. lia.
Qed.

Lemma NoDup_numbers n : NoDup (numbers n).
Proof. apply NoDup_fmap_2; [apply _|apply NoDup_seq]. Qed.

Lemma keys_below_evolves ext out ks n m m' :
  keys_below m out n -> (forall k, k ∈ ks -> 0 <= k < Z.of_nat n) -> evolves ext out ks m m' ->
  keys_below m' out n.
Proof.
  intros Hb Hk He k Hs. destruct (decide (k ∈ ks)); [auto|].
  apply Hb. rewrite <- (evolves_entry _ _ _ _ _ out k He); [done|naive_solver].
Qed.

Lemma counted_in_range l off x : x ∈ counted l -> off <= x.1 + off < off + Z.of_nat (length l).
Proof. destruct x as [n i]. intros (j & -> & Hj%lookup_lt_Some)%elem_of_counted. simpl. lia. Qed.

Lemma counted_keys_in_range l off k :
  k ∈ map (fun x : Z * Z => x.1 + off) (counted l) -> off <= k < off + Z.of_nat (length l).
Proof. rewrite list_elem_of_fmap. intros (x & -> & Hx). by apply counted_in_range. Qed.

(** When all of 0, ..., n - 1 are there and nothing else, the loop over
    [getNumColumns] visits every column. *)
Lemma getNumColumns_eq m out n :
  is_Some (sets m !! out) -> (forall k, is_Some (entry m out k) <-> 0 <= k < Z.of_nat n) ->
  getNumColumns out m = Ok n m.
Proof.
  intros [t Ht] Hk. unfold getNumColumns. rewrite (bind_Ok _ _ _ _ _ (read_set_eq _ _ _ Ht)).
  unfold mret, M_ret. f_equal. rewrite <- size_dom.
  replace (dom t) with (list_to_set (numbers n) : gset Z).
  - rewrite size_list_to_set by apply NoDup_numbers. unfold numbers.
    by rewrite length_map, length_seq.
  - apply set_eq. intros k. rewrite elem_of_list_to_set, elem_of_numbers, elem_of_dom, <- Hk.
    by rewrite (entry_of _ _ _ _ Ht).
Qed.

Lemma stable_entry m out ts k t l : stable m out ts k t l -> is_Some (entry m ts k).
Proof. intros (a & mf & (He & _ & _) & _). by eexists. Qed.

Lemma stable_fun m out ts k t l t' l' :
  stable m out ts k t l -> stable m out ts k t' l' -> t = t' /\ l = l'.
Proof.
  intros (a & mf & (He & Hc & _) & _) (a' & mf' & (He' & Hc' & _) & _).
  rewrite He in He'. injection He' as <- <-. rewrite Hc in Hc'. by injection Hc' as <- <-.
Qed.

Lemma is_Some_dom (m m' : mem) out :
  dom (sets m') = dom (sets m) -> is_Some (sets m !! out) -> is_Some (sets m' !! out).
Proof. rewrite <- !elem_of_dom. by intros ->. Qed.

(** What a call of [process] leaves behind, beside what it computes. *)
Record settled (ext : gset addr) (out inp : tsid) (V : Z -> option (ColType * list val))
    (n : nat) (m m' : mem) : Prop := {
  set_inv : mem_inv ext ∅ m';
  set_dom : dom (sets m') = dom (sets m);
  set_keys : keys_below m' out n;
  set_view : input_view m' out inp V;
  set_rest ts k : ts <> out -> entry m' ts k = entry m ts k;
  set_rest_stable ts k t l : ts <> out -> stable m out ts k t l -> stable m' out ts k t l
}.

Lemma settled_intro ext out inp V n ks m m' :
  mem_inv ext ∅ m' -> dom (sets m') = dom (sets m) -> evolves ext out ks m m' ->
  (forall k, k ∈ ks -> 0 <= k < Z.of_nat n) -> inp <> out ->
  keys_below m out n -> input_view m out inp V -> settled ext out inp V n m m'.
Proof.
  intros Hi Hd He Hks Hne Hk Hv. split; try done.
  - by eapply keys_below_evolves.
  - by eapply input_view_evolves.
  - intros ts k Hts. eapply evolves_entry; [done|]. by intros [-> _].
  - intros ts k t l Hts. eapply evolves_stable; [done|]. by intros [-> _].
Qed.

(** ** FilterExecutor *)

Section filter.
Context (ext : gset addr) (inp : tsid) (ex : Filter.FilterExecutor) (bits : list bool).
Context (V : Z -> option (ColType * list val)).
Let out := Filter.output ex.
Let ms := matches (Filter.myMachine ex).

Lemma filter_loop n w pb mfb m :
  mem_inv ext ∅ m -> is_Some (sets m !! out) -> inp <> out ->
  entry m inp w = Some (Some pb, mfb) -> stable m out inp w ColBool (bool_col bits) ->
  (forall k, 0 <= k < Z.of_nat n -> exists t v, stable m out out k t v /\ length v = length bits) ->
  wp total (for_each (numbers n) (fun i => filterColumn out i (Some pb)))
    (fun _ m' => mem_inv ext ∅ m' /\ dom (sets m') = dom (sets m) /\
       (forall k, k ∈ numbers n -> forall t v, stable m out out k t v -> stable m' out out k t (keep v bits)) /\
       evolves ext out (map (fun k => k) (numbers n)) m m') m.
Proof.
  intros Hi Hs Hne Hpb Hbits Hall.
  apply (columns_loop ext out _ (fun k => k)
    (fun k m' => exists t v, stable m out out k t v /\ length v = length bits /\ stable m' out out k t v /\
                   entry m' inp w = Some (Some pb, mfb) /\ stable m' out inp w ColBool (bool_col bits))
    (fun k m' => forall t v, stable m out out k t v -> stable m' out out k t (keep v bits))); try done.
  - intros k m2 _ Hi2 Hs2 (t & v & Hst1 & Hlv & Hst & Hent & (pb' & mf' & (Hpb' & Hcb' & _) & _)).
    rewrite Hent in Hpb'. simplify_eq. eapply wp_mono; [by eapply filterColumn_spec|].
    intros [] m3 (? & ? & ? & ?). split_and!; try done. intros t' v' Hst'.
    by destruct (stable_fun _ _ _ _ _ _ _ _ Hst1 Hst') as [-> ->].
  - intros k k' ma mb Hk' Hia Hra (t & v & H1 & H2 & H3 & H4 & H5). exists t, v.
    split_and!; [done|done| | |].
    + by eapply stable_keeps_off.
    + rewrite (rep_entry _ _ _ _ Hra); [done|]. by intros [-> _].
    + by eapply (stable_input_keeps_off ext out inp); [done|exact Hk'|..].
  - intros k k' ma mb Hk' Hia Hra Hp t v Hst. eapply stable_keeps_off; [done..|]. auto.
  - rewrite list_fmap_id. apply NoDup_numbers.
  - intros k Hk%elem_of_numbers. destruct (Hall k Hk) as (t & v & Hst & Hlv).
    exists t, v. split_and!; eauto.
Qed.

(** C24: a FilterExecutor's output holds, in the order of its attributes, the
    rows of the input's columns whose bit is set, whatever the output held
    before; the input and all other tuple sets are as they were, nothing
    leaks, and the executor is ready for the next batch. *)
Theorem FilterExecutor_process_correct m :
  mem_inv ext ∅ m -> is_Some (sets m !! out) -> inp <> out ->
  keys_below m out (length ms) -> input_view m out inp V -> covers V ms ->
  V (Filter.whichAtt ex) = Some (ColBool, bool_col bits) ->
  (forall i t v, V i = Some (t, v) -> length v = length bits) ->
  wp total (Filter.process ex inp)
    (fun r m' => r = out /\ filled out V (fun v => keep v bits) 0 ms m' /\
       settled ext out inp V (length ms) m m') m.
Proof.
  intros Hi Hs Hne Hkeys Hv Hc Hw Hlen. unfold Filter.process. fold out. fold ms in Hc.
  apply wp_bind. eapply wp_mono; [by apply (setup_spec ext inp out Hne V)|].
  intros [] m1 (Hi1 & Hd1 & Hf1 & He1). fold ms in Hf1, He1.
  pose proof (input_view_evolves _ _ _ _ _ _ _ Hne He1 Hv) as Hv1.
  destruct (Hv1 _ _ _ Hw) as (pb & mfb & (Hpb & Hcb & Hfb) & Hstb).
  apply wp_bind. eapply wp_eq; [by apply column_at_eq|].
  assert (Hks : forall k, k ∈ map (fun x : Z * Z => x.1 + 0) (counted ms) -> 0 <= k < Z.of_nat (length ms)).
  { intros k Hk%counted_keys_in_range. lia. }
  assert (Hmatch : forall k, 0 <= k < Z.of_nat (length ms) ->
    exists t v, stable m1 out out k t v /\ length v = length bits).
  { intros k Hk. destruct (lookup_lt_is_Some_2 ms (Z.to_nat k)) as [i Hli]; [lia|].
    destruct (Hc i) as [[t v] Htv]; [by eapply list_elem_of_lookup_2|]. exists t, v.
    split; [|eauto]. replace k with (Z.of_nat (Z.to_nat k) + 0) by lia. eauto. }
  apply wp_bind. eapply wp_eq.
  { eapply (getNumColumns_eq _ _ (length ms)); [by eapply is_Some_dom|]. intros k. split.
    - by eapply keys_below_evolves.
    - intros (t & v & Hst & _)%Hmatch. by eapply stable_entry. }
  apply wp_bind. eapply wp_mono.
  { eapply filter_loop; [done|by eapply is_Some_dom|done|done|by apply Hv1|done]. }
  intros [] m2 (Hi2 & Hd2 & Hp2 & He2). apply wp_mret. split; [done|]. split.
  - intros j i t v Hj Htv. rewrite Z.add_0_r. apply Hp2.
    + apply elem_of_numbers. apply lookup_lt_Some in Hj. lia.
    + specialize (Hf1 j i t v Hj Htv). by rewrite Z.add_0_r in Hf1.
  - eapply (settled_intro _ _ _ _ _ (numbers (length ms))); try done; [congruence| |].
    + eapply evolves_trans; eapply evolves_weaken; [|done| |done].
      * intros k Hk. by apply elem_of_numbers, Hks.
      * intros k Hk. by rewrite list_fmap_id in Hk.
    + intros k. by apply elem_of_numbers.
Qed.
End filter.

(** ** Columns an executor owns and refills *)

Lemma own_col_evolves ext ks m m' out k t l :
  evolves ext out ks m m' -> k ∉ ks -> own_col m out k t l -> own_col m' out k t l.
Proof.
  intros He Hk Ho. eapply stable_own_col; [done| |].
  - eapply evolves_entry; [done|naive_solver].
  - eapply evolves_stable; [done|naive_solver|]. by apply own_col_stable.
Qed.

(** The column an executor fills is there, or is created now. *)
Definition fillable (m : mem) (out : tsid) (k : Z) (t : ColType) : Prop :=
  entry m out k = None \/ exists l, own_col m out k t l.

Section own.
Context (ext : gset addr) (out : tsid).

Lemma ensure_column_spec t k m :
  mem_inv ext ∅ m -> is_Some (sets m !! out) -> fillable m out k t ->
  wp total (ensure_column t out k)
    (fun _ m' => mem_inv ext ∅ m' /\ dom (sets m') = dom (sets m) /\ evolves ext out [k] m m' /\
       exists l, own_col m' out k t l /\ (entry m out k = None -> l = [])) m.
Proof.
  intros Hi Hs Hf. unfold ensure_column. destruct Hs as [to Hto].
  apply wp_bind. eapply wp_eq; [by apply hasColumn_eq|].
  rewrite <- (entry_of _ _ _ k Hto). case_bool_decide as Hk.
  - destruct Hf as [Hf|[l Hl]]; [rewrite Hf in Hk; by destruct Hk|].
    apply wp_mret. split_and!; [done|done|apply rtc_refl|]. exists l. split; [done|].
    intros E. rewrite E in Hk. by destruct Hk.
  - apply eq_None_not_Some in Hk.
    destruct (new_col_eq t [] m) as (a & Ha & Hfresh). apply wp_bind. eapply wp_eq; [done|].
    assert (Ha' : a ∉ ext) by (intros Hin; destruct (inv_ext _ _ _ Hi a Hin) as [[? ?] _]; congruence).
    set (m1 := set_cols _ m).
    assert (Hi1 : mem_inv (ext ∪ {[a]}) ∅ m1) by by apply mem_inv_new.
    eapply wp_mono.
    { eapply (addColumn_spec (ext ∪ {[a]}) out k t [] a m1); [done|by eexists|set_solver|].
      unfold m1; simpl. by rewrite lookup_insert_eq. }
    intros [] m2 (Hi2 & Hd2 & Hr2 & He2 & Hc2). rewrite ext_add_del in Hi2 by done.
    split_and!; [done|done| |].
    + apply (evolves_one _ _ _ k); [done|set_solver|]. split.
      * intros ts' k' Hne. by rewrite He2.
      * intros b c Hb Hno. apply Hc2; [|done]. unfold m1; simpl. by rewrite lookup_insert_ne by congruence.
      * intros b (mf & Hb & _). destruct Hr2 as (Hr2 & _ & _). rewrite Hr2 in Hb. simplify_eq. by left.
    + exists []. split; [|done]. by exists a, (mkMaint (Some t) true 0).
Qed.

Lemma getColumn_eq m ts k t l a mf : reads m ts k t l a mf -> getColumn t ts k m = Ok l m.
Proof.
  intros (He & Hc & _). unfold getColumn. rewrite (bind_Ok _ _ _ _ _ (column_at_eq _ _ _ _ He)).
  by apply read_as_eq.
Qed.

Lemma getNumRows_eq m ts k t l a mf :
  reads m ts k t l a mf -> getNumRows ts k m = Ok (Z.of_nat (length l)) m.
Proof.
  intros (He & Hc & Hf). unfold getNumRows.
  destruct (sets m !! ts) as [t'|] eqn:Et; [|unfold entry in He; by rewrite Et in He].
  rewrite (bind_Ok _ _ _ _ _ (hasColumn_eq _ k _ _ Et)), <- (entry_of _ _ _ k Et), He.
  rewrite bool_decide_true by done. rewrite (bind_Ok _ _ _ _ _ (column_at_eq _ _ _ _ He)).
  unfold bind, funcs_of, read_col, bind, get, unwrap. simpl. rewrite Hf. simpl. by rewrite Hc.
Qed.

Lemma putColumn_spec t k l l' m :
  mem_inv ext ∅ m -> own_col m out k t l ->
  wp total (putColumn t out k l')
    (fun _ m' => mem_inv ext ∅ m' /\ dom (sets m') = dom (sets m) /\ evolves ext out [k] m m' /\
       own_col m' out k t l') m.
Proof.
  intros Hi (a & mf & (He & Hc & Hf) & Hd). unfold putColumn.
  apply wp_bind. eapply wp_eq; [by apply column_at_eq|].
  apply wp_bind. eapply wp_eq; [by apply read_as_eq|]. apply wp_modify.
  split_and!; [by eapply mem_inv_write|done| |].
  - apply (evolves_one _ _ _ k); [done|set_solver|]. split; [done| |].
    + intros b c Hb Hno. simpl. rewrite lookup_insert_ne; [done|]. intros <-. apply Hno. by exists mf.
    + intros b Hb. by right.
  - exists a, mf. split; [split_and!; [done| |done]|done]. simpl. by rewrite lookup_insert_eq.
Qed.
End own.

(** ** HashOneExecutor *)

Section hash_one.
Context (ext : gset addr) (inp : tsid) (ex : HashOne.HashOneExecutor) (rows : nat).
Context (V : Z -> option (ColType * list val)).
Let out := HashOne.output ex.
Let ms := matches (HashOne.myMachine ex).

(** The common prefix of a call: set up the output, make sure of the column. *)
Lemma setup_ensure_spec t mc o k m :
  mem_inv ext ∅ m -> is_Some (sets m !! o) -> inp <> o ->
  input_view m o inp V -> covers V (matches mc) ->
  Z.of_nat (length (matches mc)) <= k -> fillable m o k t ->
  wp total (_ <- setup mc inp o ;; ensure_column t o k)
    (fun _ m' => mem_inv ext ∅ m' /\ dom (sets m') = dom (sets m) /\
       filled o V (fun v => v) 0 (matches mc) m' /\
       evolves ext o (k :: numbers (length (matches mc))) m m' /\
       exists l, own_col m' o k t l /\ (entry m o k = None -> l = [])) m.
Proof.
  intros Hi Hs Hne Hv Hc Hk Hf. apply wp_bind. eapply wp_mono; [by apply (setup_spec ext inp o Hne V)|].
  intros [] m1 (Hi1 & Hd1 & Hf1 & He1).
  assert (He1' : evolves ext o (numbers (length (matches mc))) m m1).
  { eapply evolves_weaken; [|done]. intros k' Hk'%counted_keys_in_range. apply elem_of_numbers. lia. }
  assert (Hnk : k ∉ numbers (length (matches mc))) by (rewrite elem_of_numbers; lia).
  eapply wp_mono; [eapply ensure_column_spec; [done|by eapply is_Some_dom|]|].
  - destruct Hf as [Hf|[l Hl]]; [left|right; exists l].
    + by rewrite (evolves_entry _ _ _ _ _ o k He1') by naive_solver.
    + by eapply own_col_evolves.
  - intros [] m2 (Hi2 & Hd2 & He2 & l & Hl & Hnil). split_and!; [done|congruence| | |].
    + intros j i t' v Hj Htv. eapply evolves_stable; [done| |by eapply Hf1].
      intros [_ Hin%list_elem_of_singleton]. apply lookup_lt_Some in Hj. lia.
    + apply (evolves_trans _ _ _ _ m1).
      * eapply evolves_weaken; [|exact He1']. intros k' Hk'. by apply list_elem_of_further.
      * eapply evolves_weaken; [|exact He2]. intros k' ->%list_elem_of_singleton. apply list_elem_of_here.
    + exists l. split; [done|]. intros E. apply Hnil.
      by rewrite (evolves_entry _ _ _ _ _ o k He1') by naive_solver.
Qed.

(** a HashOneExecutor whose operand is among the attributes it outputs
    appends a column with one 1 for each row of the input. *)
Theorem HashOneExecutor_process_correct m :
  mem_inv ext ∅ m -> is_Some (sets m !! out) -> inp <> out ->
  keys_below m out (S (length ms)) -> input_view m out inp V -> covers V ms ->
  HashOne.outAtt ex = Z.of_nat (length ms) -> fillable m out (HashOne.outAtt ex) ColSize ->
  0 <= HashOne.whichAtt ex < Z.of_nat (length ms) ->
  (forall i t v, V i = Some (t, v) -> length v = rows) -> Z.of_nat rows < 2 ^ 31 ->
  wp total (HashOne.process ex inp)
    (fun r m' => r = out /\ filled out V (fun v => v) 0 ms m' /\
       own_col m' out (HashOne.outAtt ex) ColSize (replicate rows (VSize 1)) /\
       settled ext out inp V (S (length ms)) m m') m.
Proof.
  intros Hi Hs Hne Hkeys Hv Hc Hout Hf Hw Hlen Hrows. unfold HashOne.process. fold out.
  apply wp_assoc, wp_bind. eapply wp_mono.
  { apply (setup_ensure_spec ColSize _ out (HashOne.outAtt ex) m); [done..|fold ms; lia|done]. }
  intros [] m1 (Hi1 & Hd1 & Hf1 & He1 & l & Hl & _). fold ms in Hf1, He1.
  pose proof Hl as (a & mf & Hr & Hd).
  apply wp_bind. eapply wp_eq; [by eapply getColumn_eq|].
  (* the count comes from a copied column of the same length *)
  destruct (lookup_lt_is_Some_2 ms (Z.to_nat (HashOne.whichAtt ex))) as [i Hli]; [lia|].
  destruct (Hc i) as [[t v] Htv]; [by eapply list_elem_of_lookup_2|].
  pose proof (Hf1 _ _ _ _ Hli Htv) as (aw & mfw & Hrw & _).
  replace (Z.of_nat (Z.to_nat (HashOne.whichAtt ex)) + 0) with (HashOne.whichAtt ex) in Hrw by lia.
  apply wp_bind. eapply wp_eq; [by eapply getNumRows_eq|]. rewrite (Hlen _ _ _ Htv).
  assert (Hi32 : i32 (Z.of_nat rows) = Z.of_nat rows).
  { unfold i32. rewrite Z.mod_small by lia. lia. }
  rewrite Hi32. unfold resize_int. rewrite (proj2 (Z.ltb_ge _ _)) by lia.
  apply wp_bind, wp_mret, wp_bind. eapply wp_mono; [by eapply putColumn_spec|].
  intros [] m2 (Hi2 & Hd2 & He2 & Hown). apply wp_mret. split_and!; [done| | |].
  - intros j i' t' v' Hj Htv'. eapply evolves_stable; [done| |by eapply Hf1].
    intros [_ Hin%list_elem_of_singleton]. apply lookup_lt_Some in Hj. lia.
  - rewrite Nat2Z.id in Hown. by rewrite map_const_replicate, vec_resize_length in Hown.
  - eapply (settled_intro _ _ _ _ _ (HashOne.outAtt ex :: numbers (length ms))); try done; [congruence| |].
    + apply (evolves_trans _ _ _ _ m1); [done|]. eapply evolves_weaken; [|done].
      intros k ->%list_elem_of_singleton. apply list_elem_of_here.
    + intros k [->|Hk%elem_of_numbers]%elem_of_cons; lia.
Qed.

(** when the operand is not among the attributes a HashOneExecutor
    outputs and its number is beyond theirs, the first call already throws:
    the row count of a column that is not there is -1. *)
Theorem HashOneExecutor_operand_not_output m :
  mem_inv ext ∅ m -> is_Some (sets m !! out) -> inp <> out ->
  keys_below m out (S (length ms)) -> input_view m out inp V -> covers V ms ->
  HashOne.outAtt ex = Z.of_nat (length ms) -> fillable m out (HashOne.outAtt ex) ColSize ->
  Z.of_nat (length ms) < HashOne.whichAtt ex ->
  exists m', HashOne.process ex inp m = Raise LengthError m'.
Proof.
  intros Hi Hs Hne Hkeys Hv Hc Hout Hf Hw. unfold HashOne.process. fold out.
  assert (H : exists m1, (_ <- setup (HashOne.myMachine ex) inp out ;;
      ensure_column ColSize out (HashOne.outAtt ex)) m = Ok tt m1 /\
      dom (sets m1) = dom (sets m) /\ evolves ext out (HashOne.outAtt ex :: numbers (length ms)) m m1 /\
      exists l, own_col m1 out (HashOne.outAtt ex) ColSize l).
  { destruct (proj1 (wp_total _ _ _)
      (setup_ensure_spec ColSize _ out (HashOne.outAtt ex) m Hi Hs Hne Hv Hc ltac:(fold ms; lia) Hf))
      as ([] & m1 & E & _ & ? & _ & ? & l & ? & _). eauto 10. }
  destruct H as (m1 & E1 & Hd1 & He1 & l & a & mf & Hr & Hd).
  rewrite <- bind_assoc. rewrite (bind_Ok _ _ _ _ _ E1).
  rewrite (bind_Ok _ _ _ _ _ (getColumn_eq _ _ _ _ _ _ _ Hr)).
  destruct (is_Some_dom _ _ _ Hd1 Hs) as [t Ht].
  assert (Hn : entry m1 out (HashOne.whichAtt ex) = None).
  { rewrite (evolves_entry _ _ _ _ _ out _ He1).
    - apply eq_None_not_Some. intros Hk%Hkeys. lia.
    - rewrite elem_of_cons, elem_of_numbers. lia. }
  unfold getNumRows, bind at 1. unfold bind at 1.
  rewrite (hasColumn_eq _ _ _ _ Ht), <- (entry_of _ _ _ _ Ht), Hn. simpl.
  by eexists.
Qed.
End hash_one.

(** ** FlattenExecutor *)

Definition sizes (vecs : list (list (option Z))) : list Z := map (fun l => Z.of_nat (length l)) vecs.

Lemma sum_sizes vecs : sum_counts (sizes vecs) = Z.of_nat (length (concat vecs)).
Proof. induction vecs as [|v vecs IH]; [done|]. simpl. rewrite length_app, IH. lia. Qed.

Lemma count_rows_loop vecs pre post rows :
  length post = length vecs -> 0 <= rows -> rows + sum_counts (sizes vecs) < 2 ^ 31 ->
  foldl (fun '(cs, rows) '(i, myVec) =>
           let mySize := i32 (Z.of_nat (length myVec)) in
           (<[i := u32 mySize]> cs, i32 (rows + mySize)))
        (pre ++ post, rows) (imap (fun i v => ((length pre + i)%nat, v)) vecs)
  = (pre ++ sizes vecs, rows + sum_counts (sizes vecs)).
Proof.
  revert pre post rows. induction vecs as [|v vecs IH]; intros pre [|p post] rows; simpl; intros [=] Hr Hsum.
  { by rewrite Z.add_0_r. }
  assert (Hpos : 0 <= sum_counts (sizes vecs)) by (rewrite sum_sizes; lia).
  rewrite Nat.add_0_r, !i32_small by lia.
  unfold u32, wrapu. rewrite Z.mod_small by lia.
  rewrite insert_app_r_alt, Nat.sub_diag by lia. simpl.
  replace (pre ++ Z.of_nat (length v) :: post) with ((pre ++ [Z.of_nat (length v)]) ++ post)
    by by rewrite <- app_assoc.
  transitivity ((pre ++ [Z.of_nat (length v)]) ++ sizes vecs,
                rows + Z.of_nat (length v) + sum_counts (sizes vecs)).
  - rewrite <- (IH _ post) by (done || lia). f_equal. apply imap_ext. intros i x _. simpl.
    rewrite length_app. simpl. f_equal. lia.
  - rewrite <- app_assoc. simpl. f_equal. lia.
Qed.

Lemma count_rows_eq counts vecs :
  Z.of_nat (length (concat vecs)) < 2 ^ 31 ->
  Flatten.count_rows counts vecs = (sizes vecs, Z.of_nat (length (concat vecs))).
Proof.
  intros H. unfold Flatten.count_rows. rewrite <- sum_sizes in *.
  set (c0 := if bool_decide _ then _ else _).
  assert (Hc0 : length c0 = length vecs).
  { unfold c0. case_bool_decide; [done|]. apply vec_resize_length. }
  exact (count_rows_loop vecs [] c0 0 Hc0 (Z.le_refl 0) H).
Qed.

Lemma overwrite_all dst src : length dst = length src -> Flatten.overwrite dst src = Some src.
Proof.
  revert dst. induction src as [|x src IH]; intros [|d dst]; simpl; intros [=]; [done|].
  by rewrite IH.
Qed.

Lemma vec_of_vecs (vecs : list (list (option Z))) : map Flatten.vec_of (map VVec vecs) = vecs.
Proof. rewrite map_map. apply map_id. Qed.

Section flatten.
Context (ext : gset addr) (inp : tsid) (ex : Flatten.FlattenExecutor) (vecs : list (list (option Z))).
Context (V : Z -> option (ColType * list val)).
Let out := Flatten.output ex.
Let ms := matches (Flatten.myMachine ex).

(** a FlattenExecutor appends the elements of the operand's vectors, one
    row each and in order, and repeats every other output attribute once for
    each element of its row's vector (so rows with an empty vector vanish). *)
Theorem FlattenExecutor_process_correct m :
  mem_inv ext ∅ m -> is_Some (sets m !! out) -> inp <> out ->
  keys_below m out (S (length ms)) -> input_view m out inp V -> covers V ms ->
  Flatten.outAtt ex = Z.of_nat (length ms) ->
  fillable m out (Flatten.outAtt ex) (ColHandle "pdb::Object") ->
  V (Flatten.whichAtt ex) = Some (ColVec, map VVec vecs) ->
  (forall i t v, V i = Some (t, v) -> length v = length vecs) ->
  Z.of_nat (length (concat vecs)) < 2 ^ 31 ->
  wp total (Flatten.process ex inp)
    (fun r m' => r.2 = out /\ matches (Flatten.myMachine r.1) = ms /\
       filled out V (fun v => repeat_rows v (sizes vecs)) 0 ms m' /\
       own_col m' out (Flatten.outAtt ex) (ColHandle "pdb::Object") (map VHandle (concat vecs)) /\
       settled ext out inp V (S (length ms)) m m') m.
Proof.
  intros Hi Hs Hne Hkeys Hv Hc Hout Hf Hw Hlen Hsum. unfold Flatten.process. fold out.
  destruct (Hv _ _ _ Hw) as (av & mfv & Hrv & _).
  apply wp_bind. eapply wp_eq; [by eapply getColumn_eq|].
  rewrite vec_of_vecs, count_rows_eq by done.
  assert (Hpos : Forall (fun n => 0 <= n) (sizes vecs)).
  { apply Forall_forall. intros n (l & -> & _)%list_elem_of_fmap. lia. }
  apply wp_bind. eapply wp_mono.
  { apply (machine_replicate_spec ext inp out Hne V (Flatten.myMachine ex) (sizes vecs) 0 m); try done.
    - intros i t v Hi'. unfold sizes. rewrite length_map. by eapply Hlen.
    - by rewrite sum_sizes. }
  intros [] m1 (Hi1 & Hd1 & Hf1 & He1). fold ms in Hf1, He1.
  assert (He1' : evolves ext out (numbers (length ms)) m m1).
  { eapply evolves_weaken; [|done]. intros k Hk%counted_keys_in_range. apply elem_of_numbers. lia. }
  assert (Hnk : Flatten.outAtt ex ∉ numbers (length ms)) by (rewrite elem_of_numbers; lia).
  apply wp_bind. eapply wp_mono; [eapply ensure_column_spec; [done|by eapply is_Some_dom|]|].
  { destruct Hf as [Hf|[l Hl]]; [left|right; exists l; by eapply own_col_evolves].
    by rewrite (evolves_entry _ _ _ _ _ out _ He1') by naive_solver. }
  intros [] m2 (Hi2 & Hd2 & He2 & l & Hl & _). pose proof Hl as (a & mf & Hr & Hd).
  apply wp_bind. eapply wp_eq; [by eapply getColumn_eq|].
  unfold resize_int. rewrite (proj2 (Z.ltb_ge _ _)) by lia. apply wp_bind, wp_mret.
  rewrite Nat2Z.id, overwrite_all by by rewrite vec_resize_length, length_map.
  apply wp_bind, wp_mret, wp_bind. eapply wp_mono; [by eapply putColumn_spec|].
  intros [] m3 (Hi3 & Hd3 & He3 & Hown). apply wp_mret. split_and!; [done|done| |done|].
  - intros j i t v Hj Htv. pose proof (lookup_lt_Some _ _ _ Hj).
    assert (Hno : ~ (out = out /\ Z.of_nat j + 0 ∈ [Flatten.outAtt ex])).
    { intros [_ ?%list_elem_of_singleton]. lia. }
    eapply evolves_stable; [exact He3|exact Hno|]. eapply evolves_stable; [exact He2|exact Hno|]. eauto.
  - eapply (settled_intro _ _ _ _ _ (Flatten.outAtt ex :: numbers (length ms))); try done; [congruence| |].
    + apply (evolves_trans _ _ _ _ m1);
        [eapply evolves_weaken; [|exact He1']; intros k Hk; by apply list_elem_of_further|].
      apply (evolves_trans _ _ _ _ m2); (eapply evolves_weaken; [|done]);
        intros k ->%list_elem_of_singleton; apply list_elem_of_here.
    + intros k [->|Hk%elem_of_numbers]%elem_of_cons; lia.
Qed.
End flatten.

(** ** UnionExecutor *)

(** the executor a UnionExecutor constructor builds passes the operand's
    column on, as its only column. *)
Theorem UnionExecutor_process_correct ext schema atts ex m0 m inp V t v :
  Union_.UnionExecutor_new schema atts m0 = Ok ex m ->
  mem_inv ext ∅ m -> inp <> Union_.output ex -> input_view m (Union_.output ex) inp V ->
  V (Union_.whichAtt ex) = Some (t, v) ->
  wp total (Union_.process ex inp)
    (fun r m' => r = Union_.output ex /\ stable m' r r 0 t v /\ settled ext r inp V 1 m m') m.
Proof.
  intros Hnew Hi Hne Hv Hw. unfold Union_.UnionExecutor_new in Hnew.
  unfold TupleSet_new in Hnew. inv_ok.
  unfold first_match in *. destruct (match_ schema atts); inv_ok. simpl in *.
  unfold Union_.process. simpl. apply wp_bind, wp_mret. apply wp_bind.
  eapply wp_mono; [by eapply copyColumn_spec; eauto; simpl; rewrite lookup_insert_eq|].
  intros [] m1 (Hi1 & Hd1 & Hr1 & Hst). apply wp_mret. split_and!; [done|done|].
  eapply (settled_intro _ _ _ _ _ [0]); try done.
  - by eapply evolves_one; [|apply list_elem_of_here|].
  - intros k ->%list_elem_of_singleton. lia.
  - intros k [e He]. unfold entry in He. simpl in He. rewrite lookup_insert_eq in He. simpl in He.
    by rewrite lookup_empty in He.
Qed.

(** ** The theorems at work on concrete batches *)

Definition view_of (l : list (Z * (ColType * list val))) : Z -> option (ColType * list val) :=
  fun i => (list_to_map l : gmap Z (ColType * list val)) !! i.

Lemma view_of_in l i x : view_of l i = Some x -> (i, x) ∈ l.
Proof. apply elem_of_list_to_map_2. Qed.

Lemma view_of_stable m out inp l :
  forallb (fun x => stableb m out inp x.1 x.2.1 x.2.2) l = true -> input_view m out inp (view_of l).
Proof.
  intros H i t v Hv%view_of_in. apply stableb_sound.
  rewrite forallb_forall in H. specialize (H (i, (t, v))). apply H. by apply list_elem_of_In.
Qed.

Lemma view_of_length n l :
  forallb (fun x => bool_decide (length x.2.2 = n)) l = true ->
  forall i t v, view_of l i = Some (t, v) -> length v = n.
Proof.
  intros H i t v Hv%view_of_in. rewrite forallb_forall in H.
  specialize (H (i, (t, v)) (proj1 (list_elem_of_In _ _) Hv)). by apply bool_decide_eq_true in H.
Qed.

Lemma covers_check V l : forallb (fun i => bool_decide (is_Some (V i))) l = true -> covers V l.
Proof.
  intros H i Hi. rewrite forallb_forall in H. apply list_elem_of_In, H in Hi.
  by apply bool_decide_eq_true in Hi.
Qed.

Lemma keys_below_check m out n :
  forallb (fun x => if bool_decide (x.1.1 = out) then (0 <=? x.1.2) && (x.1.2 <? Z.of_nat n) else true)
    (all_entries m) = true -> keys_below m out n.
Proof.
  intros H k [e He%elem_of_all_entries]. rewrite forallb_forall in H.
  apply list_elem_of_In, H in He. simpl in He. rewrite bool_decide_true in He by done. lia.
Qed.

Module Batch.
Definition handles (l : list Z) : list val := map (fun z => VHandle (Some z)) l.
Definition vcols : list (Z * (ColType * list val)) :=
  [(0, (ColBool, bool_col [true; false; true])); (1, (ColHandle "Employee", handles [7; 8; 9]));
   (2, (ColVec, map VVec [[Some 1]; []; [Some 2; Some 3]]))].
(** Tuple set 1 is the executor's empty output, 2 the input, which owns its
    three columns. *)
Definition owner (t : ColType) : MaintenanceFuncs := mkMaint (Some t) true 0.
Definition store : mem := mkMem
  (list_to_map [(1%positive, mkColumn ColBool (bool_col [true; false; true]));
                (2%positive, mkColumn (ColHandle "Employee") (handles [7; 8; 9]));
                (3%positive, mkColumn ColVec (map VVec [[Some 1]; []; [Some 2; Some 3]]))])
  (list_to_map [(1%positive, ∅);
     (2%positive, list_to_map [(0, (Some 1%positive, owner ColBool));
        (1, (Some 2%positive, owner (ColHandle "Employee"))); (2, (Some 3%positive, owner ColVec))])]).
Definition machine : TupleSetSetupMachine := mkMachine TupleSpec_empty [1].
Lemma store_ok : mem_inv ∅ ∅ store.
Proof. apply mem_invb_sound. by vm_compute. Qed.
Lemma store_view : input_view store 1 2 (view_of vcols).
Proof. apply view_of_stable. by vm_compute. Qed.
Lemma store_keys n : keys_below store 1 n.
Proof.
  intros k [e He]. vm_compute in He. by destruct k.
Qed.
End Batch.

Lemma FilterExecutor_process_correct_witness :
  wp total (Filter.process (Filter.mkFilter 1 0 Batch.machine) 2)
    (fun r m' => r = 1%positive /\
       filled 1 (view_of Batch.vcols) (fun v => keep v [true; false; true]) 0 [1] m' /\
       settled ∅ 1 2 (view_of Batch.vcols) 1 Batch.store m') Batch.store.
Proof.
  apply (FilterExecutor_process_correct ∅ 2 (Filter.mkFilter 1 0 Batch.machine) [true; false; true]
           (view_of Batch.vcols) Batch.store).
  - exact Batch.store_ok.
  - by eexists.
  - done.
  - apply Batch.store_keys.
  - exact Batch.store_view.
  - apply covers_check. by vm_compute.
  - done.
  - apply view_of_length. by vm_compute.
Defined.

Lemma FlattenExecutor_process_correct_witness :
  wp total (Flatten.process (Flatten.mkFlatten 1 2 1 Batch.machine []) 2)
    (fun r m' => r.2 = 1%positive /\ matches (Flatten.myMachine r.1) = [1] /\
       filled 1 (view_of Batch.vcols) (fun v => repeat_rows v [1; 0; 2]) 0 [1] m' /\
       own_col m' 1 1 (ColHandle "pdb::Object") (Batch.handles [1; 2; 3]) /\
       settled ∅ 1 2 (view_of Batch.vcols) 2 Batch.store m') Batch.store.
Proof.
  apply (FlattenExecutor_process_correct ∅ 2 (Flatten.mkFlatten 1 2 1 Batch.machine [])
           [[Some 1]; []; [Some 2; Some 3]] (view_of Batch.vcols) Batch.store).
  - exact Batch.store_ok.
  - by eexists.
  - done.
  - apply Batch.store_keys.
  - exact Batch.store_view.
  - apply covers_check. by vm_compute.
  - done.
  - by left.
  - done.
  - apply view_of_length. by vm_compute.
  - done.
Defined.

Lemma HashOneExecutor_process_correct_witness :
  wp total (HashOne.process (HashOne.mkHashOne 1 0 1 Batch.machine) 2)
    (fun r m' => r = 1%positive /\ filled 1 (view_of Batch.vcols) (fun v => v) 0 [1] m' /\
       own_col m' 1 1 ColSize [VSize 1; VSize 1; VSize 1] /\
       settled ∅ 1 2 (view_of Batch.vcols) 2 Batch.store m') Batch.store.
Proof.
  apply (HashOneExecutor_process_correct ∅ 2 (HashOne.mkHashOne 1 0 1 Batch.machine) 3
           (view_of Batch.vcols) Batch.store).
  - exact Batch.store_ok.
  - by eexists.
  - done.
  - apply Batch.store_keys.
  - exact Batch.store_view.
  - apply covers_check. by vm_compute.
  - done.
  - by left.
  - simpl. lia.
  - apply view_of_length. by vm_compute.
  - done.
Defined.

Lemma HashOneExecutor_operand_not_output_witness :
  exists m', HashOne.process (HashOne.mkHashOne 1 2 1 Batch.machine) 2 Batch.store = Raise LengthError m'.
Proof.
  apply (HashOneExecutor_operand_not_output ∅ 2 (HashOne.mkHashOne 1 2 1 Batch.machine)
           (view_of Batch.vcols) Batch.store).
  - exact Batch.store_ok.
  - by eexists.
  - done.
  - apply Batch.store_keys.
  - exact Batch.store_view.
  - apply covers_check. by vm_compute.
  - done.
  - by left.
  - done.
Defined.

Lemma UnionExecutor_process_correct_witness :
  let input := list_to_map [(0, (Some 1%positive, Batch.owner (ColHandle "Employee")))] : TupleSet in
  let m0 := mkMem {[1%positive := mkColumn (ColHandle "Employee") (Batch.handles [7; 8])]} {[7%positive := input]} in
  let schema := TupleSpec_ofAtts "In" (mkAttList ["a"]) in
  exists ex m, Union_.UnionExecutor_new schema schema m0 = Ok ex m /\
    wp total (Union_.process ex 7)
      (fun r m' => r = Union_.output ex /\ stable m' r r 0 (ColHandle "Employee") (Batch.handles [7; 8]) /\
         settled ∅ r 7 (view_of [(0, (ColHandle "Employee", Batch.handles [7; 8]))]) 1 m m') m.
Proof.
  intros input m0 schema. eexists _, _. split; [by vm_compute|].
  eapply (UnionExecutor_process_correct ∅ schema schema _ m0); [by vm_compute| | | |].
  - apply mem_invb_sound. by vm_compute.
  - done.
  - apply view_of_stable. by vm_compute.
  - done.
Defined.
