(* ===== verification/Probing.v ===== *)
(** Linear probing, the loop every operation of the hash tables in
    pdb/src/builtInPDBObjects/headers/JoinPairArray.cc and PairArray.cc runs.

    A table is its array of slots; an unused slot is one whose hash field holds
    the reserved value.  A key starts at its hash modulo the number of slots
    less one and walks to the right, around the end, until it meets an unused
    slot or itself, for at most as many steps as there are slots. *)

From S2P Require Import Prelude.

Section probing.
Context {K A : Type} `{EqDecision K} (hash : K -> Z) (key : A -> K).

(** Hash and key are compared; the hash is a function of the key. *)
Definition matches_key (k : K) (x : A) : bool :=
  bool_decide (hash (key x) = hash k) && bool_decide (key x = k).

Definition next_slot (numSlots slot : nat) : nat :=
  if slot =? numSlots - 1 then 0 else S slot.

Fixpoint probe (fuel : nat) (k : K) (data : list (option A)) (slot : nat) : option nat :=
  match fuel with
  | 0 => None
  | S fuel' =>
      match data !! slot with
      | Some None => Some slot
      | Some (Some x) =>
          if matches_key k x then Some slot
          else probe fuel' k data (next_slot (length data) slot)
      | None => None
      end
  end.

Definition home (numSlots : nat) (k : K) : nat :=
  Z.to_nat (hash k `mod` (Z.of_nat numSlots - 1)).

(** The slot the loop stops at; [None] when it runs off the table. *)
Definition find_slot (k : K) (data : list (option A)) : option nat :=
  probe (length data) k data (home (length data) k).

(** ** What the loop finds *)

Definition probe_ok (data : list (option A)) : Prop :=
  2 <= length data /\
  (forall s x, data !! s = Some (Some x) -> find_slot (key x) data = Some s).
Definition has_free (data : list (option A)) : Prop := exists s, data !! s = Some None.

Lemma matches_key_true k x : matches_key k x = true <-> key x = k.
Proof. unfold matches_key. rewrite andb_true_iff, !bool_decide_eq_true. naive_solver. Qed.

Lemma next_slot_lt n s : s < n -> next_slot n s < n.
Proof. intros. unfold next_slot. destruct (Nat.eqb_spec s (n - 1)); lia. Qed.

Lemma home_lt n k : 2 <= n -> home n k < n.
Proof.
  intros. unfold home. pose proof (Z.mod_pos_bound (hash k) (Z.of_nat n - 1)). lia.
Qed.

Lemma probe_stops fuel k data s t :
  probe fuel k data s = Some t ->
  data !! t = Some None \/ exists x, data !! t = Some (Some x) /\ key x = k.
Proof.
  revert s. induction fuel as [|fuel IH]; intros s; simpl; [done|].
  destruct (data !! s) as [[x|]|] eqn:E; [|intros [= <-]; by left|done].
  destruct (matches_key k x) eqn:Em; [|apply IH].
  intros [= <-]. right. exists x. by apply matches_key_true in Em.
Qed.

(** [j] steps to the right. *)
Definition walk (n s j : nat) : nat := Nat.iter j (next_slot n) s.

Lemma walk_S n s j : walk n s (S j) = walk n (next_slot n s) j.
Proof. unfold walk. by rewrite Nat.iter_succ_r. Qed.

Lemma walk_add n s j : s < n -> j < n -> walk n s j = (if s + j <? n then s + j else s + j - n).
Proof.
  revert s. induction j as [|j IH]; intros s Hs Hj.
  { unfold walk; simpl. destruct (Nat.ltb_spec (s + 0) n); lia. }
  rewrite walk_S, IH by (try apply next_slot_lt; lia).
  unfold next_slot. destruct (Nat.eqb_spec s (n - 1)) as [->|].
  - destruct (Nat.ltb_spec (0 + j) n), (Nat.ltb_spec (n - 1 + S j) n); lia.
  - destruct (Nat.ltb_spec (S s + j) n), (Nat.ltb_spec (s + S j) n); lia.
Qed.

(** Every slot is at most [n - 1] steps away. *)
Lemma walk_reaches n s t : s < n -> t < n -> exists j, j < n /\ walk n s j = t.
Proof.
  intros Hs Ht. exists (if s <=? t then t - s else t + n - s).
  destruct (Nat.leb_spec s t); (split; [lia|]); rewrite walk_add by lia.
  - destruct (Nat.ltb_spec (s + (t - s)) n); lia.
  - destruct (Nat.ltb_spec (s + (t + n - s)) n); lia.
Qed.

(** The walk passes used slots of other keys only. *)
Lemma probe_spec fuel k data s t :
  s < length data ->
  probe fuel k data s = Some t <->
  exists j, j < fuel /\ walk (length data) s j = t /\
    (data !! t = Some None \/ exists x, data !! t = Some (Some x) /\ key x = k) /\
    forall i, i < j -> exists y, data !! walk (length data) s i = Some (Some y) /\ key y <> k.
Proof.
  revert s. induction fuel as [|fuel IH]; intros s Hs; simpl.
  { split; [done|]. intros (j & ? & _). lia. }
  destruct (lookup_lt_is_Some_2 data s Hs) as [[x|] Hx]; rewrite Hx.
  - destruct (matches_key k x) eqn:Em.
    + apply matches_key_true in Em. split.
      * intros [= <-]. exists 0. split; [lia|]. split; [done|]. split; [right; eauto|intros; lia].
      * intros (j & Hj & Ht & _ & Hpass). destruct j as [|j]; [by rewrite <- Ht|].
        destruct (Hpass 0) as (y & Hy & Hk); [lia|]. unfold walk in Hy; simpl in Hy. naive_solver.
    + assert (Hkx : key x <> k) by (intros E; apply matches_key_true in E; congruence).
      rewrite IH by by apply next_slot_lt. split.
      * intros (j & Hj & Ht & Hend & Hpass). exists (S j). rewrite walk_S.
        split; [lia|]. split; [done|]. split; [done|]. intros [|i] Hi; [exists x; done|].
        rewrite walk_S. apply Hpass. lia.
      * intros (j & Hj & Ht & Hend & Hpass). destruct j as [|j].
        { unfold walk in Ht; simpl in Ht. subst t. destruct Hend as [?|(y & Hy & Hk)]; congruence. }
        rewrite walk_S in Ht. exists j. split; [lia|]. split; [done|]. split; [done|].
        intros i Hi. rewrite <- walk_S. apply Hpass. lia.
  - split.
    + intros [= <-]. exists 0. split; [lia|]. split; [done|]. split; [by left|intros; lia].
    + intros (j & Hj & Ht & _ & Hpass). destruct j as [|j]; [by rewrite <- Ht|].
      destruct (Hpass 0) as (y & Hy & Hk); [lia|]. unfold walk in Hy; simpl in Hy. congruence.
Qed.

(** A table with an unused slot never makes the loop run off its end. *)
Lemma find_slot_total k data :
  2 <= length data -> has_free data -> exists s, find_slot k data = Some s.
Proof.
  intros Hn [f Hf]. unfold find_slot. set (n := length data).
  destruct (walk_reaches n (home n k) f) as (j & Hj & Hw);
    [by apply home_lt|by eapply lookup_lt_Some|].
  assert (H : forall fuel s, s < n -> (exists j, j < fuel /\ walk n s j = f) ->
            exists t, probe fuel k data s = Some t).
  { induction fuel as [|fuel IH]; intros s Hs (i & Hi & Hwi); [lia|]. simpl.
    destruct (lookup_lt_is_Some_2 data s Hs) as [[x|] Hx]; rewrite Hx; [|eauto].
    destruct (matches_key k x); [eauto|]. apply IH; [by apply next_slot_lt|].
    destruct i as [|i]; [unfold walk in Hwi; simpl in Hwi; congruence|].
    exists i. rewrite walk_S in Hwi. split; [lia|done]. }
  apply H; [by apply home_lt|]. eauto.
Qed.

(** The keys of a well-formed table are where the loop finds them, and a key it
    does not find is nowhere. *)
Lemma find_slot_present k data s x :
  probe_ok data -> data !! s = Some (Some x) -> key x = k -> find_slot k data = Some s.
Proof. intros [_ H] Hs <-. auto. Qed.

Lemma find_slot_absent k data s :
  probe_ok data -> find_slot k data = Some s -> data !! s = Some None ->
  forall t x, data !! t = Some (Some x) -> key x <> k.
Proof. intros H Hf Hs t x Ht Hk. pose proof (find_slot_present _ _ _ _ H Ht Hk). congruence. Qed.

(** Filling an unused slot, or changing the content of a used one without
    changing its key, leaves every other key where it is. *)
Lemma find_slot_fill k data s x s' y :
  2 <= length data -> data !! s = Some None ->
  find_slot k data = Some s' -> data !! s' = Some (Some y) -> key y = k ->
  find_slot k (<[s := Some x]> data) = Some s'.
Proof.
  unfold find_slot. rewrite length_insert. intros Hn Hs Hf Hs' Hk.
  apply probe_spec in Hf as (j & Hj & Hw & Hend & Hpass); [|by apply home_lt].
  apply probe_spec; rewrite length_insert; [by apply home_lt|]. exists j.
  split; [done|]. split; [done|]. split.
  - right. exists y. split; [|done]. rewrite list_lookup_insert_ne; [done|]. congruence.
  - intros i Hi. destruct (Hpass i Hi) as (z & Hz & Hkz). exists z. split; [|done].
    rewrite list_lookup_insert_ne; [done|]. congruence.
Qed.

Lemma probe_ok_fill k data s x :
  probe_ok data -> find_slot k data = Some s -> data !! s = Some None -> key x = k ->
  probe_ok (<[s := Some x]> data).
Proof.
  intros [Hn Hok] Hf Hs Hk. split; [by rewrite length_insert|]. intros s' y Hy.
  destruct (decide (s = s')) as [<-|Hne].
  - rewrite list_lookup_insert_eq in Hy by by eapply lookup_lt_Some. simplify_eq.
    unfold find_slot in *. rewrite length_insert.
    apply probe_spec in Hf as (j & Hj & Hw & Hend & Hpass); [|by apply home_lt].
    apply probe_spec; rewrite length_insert; [by apply home_lt|]. exists j.
    split; [done|]. split; [done|]. split.
    + right. exists y. split; [|done]. apply list_lookup_insert_eq. by eapply lookup_lt_Some.
    + intros i Hi. destruct (Hpass i Hi) as (z & Hz & Hkz). exists z. split; [|done].
      rewrite list_lookup_insert_ne; [done|]. congruence.
  - rewrite list_lookup_insert_ne in Hy by done. eapply find_slot_fill; eauto.
Qed.

Lemma find_slot_update k data s x x' :
  2 <= length data -> data !! s = Some (Some x) -> key x' = key x ->
  find_slot k (<[s := Some x']> data) = find_slot k data.
Proof.
  intros Hn Hs Hk. unfold find_slot. rewrite length_insert.
  assert (Hsl : s < length data) by by eapply lookup_lt_Some.
  generalize (length data) at 1 3 as fuel. generalize (home (length data) k) as t.
  intros t fuel. revert t. induction fuel as [|fuel IH]; intros t; [done|]. simpl.
  rewrite length_insert. destruct (decide (s = t)) as [<-|Hne].
  - rewrite list_lookup_insert_eq, Hs by done. unfold matches_key. rewrite Hk.
    destruct (_ && _); [done|apply IH].
  - rewrite list_lookup_insert_ne by done. destruct (data !! t) as [[y|]|]; [|done|done].
    destruct (matches_key k y); [done|apply IH].
Qed.

Lemma probe_ok_update data s x x' :
  probe_ok data -> data !! s = Some (Some x) -> key x' = key x ->
  probe_ok (<[s := Some x']> data).
Proof.
  intros [Hn Hok] Hs Hk. split; [by rewrite length_insert|]. intros s' y Hy.
  destruct (decide (s = s')) as [<-|Hne].
  - rewrite list_lookup_insert_eq in Hy by by eapply lookup_lt_Some. injection Hy as <-.
    rewrite Hk, (find_slot_update _ _ _ x x') by done. auto.
  - rewrite list_lookup_insert_ne in Hy by done. rewrite (find_slot_update _ _ _ x) by done. auto.
Qed.

Lemma probe_ok_replicate n : 2 <= n -> probe_ok (replicate n None).
Proof.
  intros. split; [by rewrite length_replicate|]. intros s x [[=] _]%lookup_replicate_1.
Qed.

(** How many slots are used. *)
Definition used_count (data : list (option A)) : nat := length (omap (fun s => s) data).

Lemma used_count_le data : used_count data <= length data.
Proof.
  induction data as [|[x|] d IH]; [done|..].
  - change (S (used_count d) <= S (length d)). lia.
  - change (used_count d <= S (length d)). lia.
Qed.

Lemma used_count_free data : used_count data < length data -> has_free data.
Proof.
  unfold used_count. induction data as [|[x|] d IH]; simpl; [lia| |].
  - intros H. destruct IH as [s Hs]; [by apply Nat.succ_lt_mono|]. by exists (S s).
  - intros _. by exists 0.
Qed.

Lemma used_count_split data s c :
  s < length data ->
  used_count (<[s := c]> data) =
    used_count (take s data) + (if c is Some _ then 1 else 0) + used_count (drop (S s) data).
Proof.
  intros Hs. unfold used_count. rewrite insert_take_drop by done. rewrite omap_app, length_app.
  destruct c as [a|].
  - change (length (omap (fun s => s) (Some a :: drop (S s) data)))
      with (S (length (omap (fun s : option A => s) (drop (S s) data)))). lia.
  - change (omap (fun s => s) (None :: drop (S s) data)) with (omap (fun s : option A => s) (drop (S s) data)). lia.
Qed.

Lemma used_count_fill data s x :
  data !! s = Some None -> used_count (<[s := Some x]> data) = S (used_count data).
Proof.
  intros Hs. pose proof (lookup_lt_Some _ _ _ Hs). rewrite <- (list_insert_id _ _ _ Hs) at 2.
  rewrite !used_count_split by done. lia.
Qed.

Lemma used_count_update data s x x' :
  data !! s = Some (Some x) -> used_count (<[s := Some x']> data) = used_count data.
Proof.
  intros Hs. pose proof (lookup_lt_Some _ _ _ Hs). rewrite <- (list_insert_id _ _ _ Hs) at 2.
  by rewrite !used_count_split by done.
Qed.

Lemma used_count_take_S data i c :
  data !! i = Some c -> used_count (take (S i) data) = used_count (take i data) + (if c is Some _ then 1 else 0).
Proof.
  intros H. unfold used_count. rewrite (take_S_r _ _ _ H), omap_app, length_app. by destruct c.
Qed.
End probing.
