(* ===== verification/Allocation.v ===== *)
(** Memory that may run out.  Objects live on pages of a fixed size; making or
    copying one may throw NotEnoughSpace (pdb/src/objectModel/headers/
    Allocator.h).  Which allocation fails depends on sizes the model does not
    have, so every allocation consults a list of answers, and every theorem
    holds for all of them. *)

From S2P Require Import Prelude.

Abbreviation answers := (list bool).

(** An allocation on the current page. *)
Definition alloc {S} : M (S * answers) unit := fun '(s, f) =>
  match f with
  | [] => Ok tt (s, [])
  | true :: f' => Ok tt (s, f')
  | false :: f' => Raise NotEnoughSpace (s, f')
  end.

(** Runs a computation on a part of the state. *)
Definition zoom {S T A} (get_part : S -> option T) (set_part : T -> S -> S) (m : M (T * answers) A)
    : M (S * answers) A := fun '(s, f) =>
  match get_part s with
  | None => Fault OutOfRange
  | Some t =>
      match m (t, f) with
      | Ok a (t', f') => Ok a (set_part t' s, f')
      | Raise e (t', f') => Raise e (set_part t' s, f')
      | Exit (t', f') => Exit (set_part t' s, f')
      | Fault x => Fault x
      | NoFuel => NoFuel
      end
  end.

(** Copying an object of a plain type, one without handles, needs no space. *)
Definition copy_alloc {S} (plain : bool) : M (S * answers) unit := if plain then mret tt else alloc.

Lemma wpx_alloc {S} (s : S) f (Q : unit -> S * answers -> Prop) (E : exn -> S * answers -> Prop) :
  (forall f', Q tt (s, f')) -> (forall f', E NotEnoughSpace (s, f')) -> wpx alloc Q E (s, f).
Proof. intros HQ HE. unfold wpx, alloc. destruct f as [|[] f]; auto. Qed.

Lemma wpx_copy_alloc {S} plain (s : S) f (Q : unit -> S * answers -> Prop) (E : exn -> S * answers -> Prop) :
  (forall f', Q tt (s, f')) -> (plain = false -> forall f', E NotEnoughSpace (s, f')) -> wpx (copy_alloc plain) Q E (s, f).
Proof. destruct plain; simpl; intros HQ HE; [apply HQ|]. apply wpx_alloc; auto. Qed.

Lemma wpx_zoom {S T A} (g : S -> option T) (p : T -> S -> S) (c : M (T * answers) A) Q E s f t :
  g s = Some t ->
  wpx c (fun a x => Q a (p x.1 s, x.2)) (fun e x => E e (p x.1 s, x.2)) (t, f) ->
  wpx (zoom g p c) Q E (s, f).
Proof. intros Hg. unfold wpx, zoom. rewrite Hg. by destruct (c (t, f)) as [? []|? []|[]| |]. Qed.
