(* ===== verification/SinkState.v ===== *)
(** What the pipeline's sinks have in common: they read the columns of a tuple
    set and write to the maps of an output container on a page that may fill
    up (pdb/src/pipeline/headers/ComputeSink.h and sinks/). *)

From S2P Require Import Prelude Allocation TupleSet TupleSetOwnership.

(** The tuple sets a sink reads, and the maps of the output container. *)
Record sink_state (T : Type) := mkSinkState { s_mem : mem; s_maps : list T }.
Arguments mkSinkState {T} _ _.
Arguments s_mem {T} _.
Arguments s_maps {T} _.
Definition set_s_mem {T} (m : mem) (s : sink_state T) : sink_state T := mkSinkState m (s_maps s).
Definition set_s_maps {T} (l : list T) (s : sink_state T) : sink_state T := mkSinkState (s_mem s) l.

(** A computation on tuple sets, which does not allocate on the page. *)
Definition on_mem {T A} (m : M mem A) : M (sink_state T * answers) A :=
  zoom (fun s => Some (s_mem s)) set_s_mem (fun '(x, f) =>
    match m x with
    | Ok a x' => Ok a (x', f)
    | Raise e x' => Raise e (x', f)
    | Exit x' => Exit (x', f)
    | Fault w => Fault w
    | NoFuel => NoFuel
    end).
(** A computation on one of the maps. *)
Definition on_map {T A} (k : nat) (m : M (T * answers) A) : M (sink_state T * answers) A :=
  zoom (fun s => s_maps s !! k) (fun j s => set_s_maps (<[k := j]> (s_maps s)) s) m.

(** [catch (NotEnoughSpace &n) { clean; throw n; }] *)
Definition on_full {S A} (m : M S A) (clean : M S unit) : M S A :=
  try m (fun e => match e with
                  | NotEnoughSpace => _ <- clean ;; throw NotEnoughSpace
                  | _ => throw e
                  end).

(** [column.erase(begin, begin + i)] *)
Definition erase_prefix (t : ColType) (input : option addr) (i : nat) : M mem unit :=
  valColumn <- read_as t input ;;
  if (length valColumn <? i)%nat then ub OutOfRange
  else write_col input t (drop i valColumn).

(** * Lemmas *)

Section lemmas.
Context {T : Type}.

Lemma on_mem_eq {A} (c : M mem A) (s : sink_state T) f a m' :
  c (s_mem s) = Ok a m' -> on_mem c (s, f) = Ok a (set_s_mem m' s, f).
Proof. intros H. unfold on_mem, zoom. by rewrite H. Qed.

Lemma on_map_wpx {A} k (c : M (T * answers) A) Q E (s : sink_state T) f m :
  s_maps s !! k = Some m ->
  wpx c (fun a x => Q a (set_s_maps (<[k := x.1]> (s_maps s)) s, x.2))
    (fun e x => E e (set_s_maps (<[k := x.1]> (s_maps s)) s, x.2)) (m, f) ->
  wpx (on_map k c) Q E (s, f).
Proof.
  intros Hk. unfold wpx, on_map, zoom. rewrite Hk. by destruct (c (m, f)) as [? []|? []|[]| |].
Qed.

Lemma on_map_eq {A} k (c : M (T * answers) A) (s : sink_state T) f m a m' f' :
  s_maps s !! k = Some m -> c (m, f) = Ok a (m', f') ->
  on_map k c (s, f) = Ok a (set_s_maps (<[k := m']> (s_maps s)) s, f').
Proof. intros Hk Hc. unfold on_map, zoom. by rewrite Hk, Hc. Qed.

Lemma set_s_mem_id (s : sink_state T) : set_s_mem (s_mem s) s = s.
Proof. by destruct s. Qed.
Lemma set_s_maps_id (s : sink_state T) k m : s_maps s !! k = Some m -> set_s_maps (<[k := m]> (s_maps s)) s = s.
Proof. intros H. rewrite list_insert_id by done. by destruct s. Qed.
End lemmas.

(** The vectors of [us] lost their first [i] rows; nothing else changed. *)
Definition cut (i : nat) (us : list addr) (m m' : mem) : Prop :=
  sets m' = sets m /\
  (forall a t l, a ∈ us -> cols m !! a = Some (mkColumn t l) -> cols m' !! a = Some (mkColumn t (drop i l))) /\
  (forall a, a ∉ us -> cols m' !! a = cols m !! a).

Lemma cut_nil i m : cut i [] m m.
Proof. split_and!; [done|intros a t l Ha; by apply elem_of_nil in Ha|done]. Qed.

Lemma cut_cons i a us m m1 m2 : a ∉ us -> cut i [a] m m1 -> cut i us m1 m2 -> cut i (a :: us) m m2.
Proof.
  intros Ha (Hs1 & H1 & H1') (Hs2 & H2 & H2'). split_and!; [congruence|..].
  - intros b t l [->|Hb]%elem_of_cons Hl.
    + rewrite H2' by done. apply H1; [by left|done].
    + apply (H2 b); [done|]. rewrite H1'; [done|]. intros ->%list_elem_of_singleton. done.
  - intros b [Hb Hbu]%not_elem_of_cons. rewrite H2', H1'; [done| |done].
    by intros ->%list_elem_of_singleton.
Qed.

Lemma erase_prefix_cut t a l i m :
  cols m !! a = Some (mkColumn t l) -> (i <= length l)%nat ->
  exists m', erase_prefix t (Some a) i m = Ok tt m' /\ cut i [a] m m'.
Proof.
  intros Ha Hi. unfold erase_prefix. rewrite (bind_Ok _ _ _ _ _ (read_as_eq _ _ _ _ Ha)).
  destruct (Nat.ltb_spec (length l) i); [lia|]. eexists. split; [done|]. split_and!; [done|..]; simpl.
  - intros b t' l' ->%list_elem_of_singleton Hb. rewrite lookup_insert_eq. by simplify_eq.
  - intros b Hb. rewrite lookup_insert_ne; [done|]. intros ->. apply Hb. by left.
Qed.

