(* ===== verification/JoinPairArray.v ===== *)
(** The hash table of joins, a multimap from hashes to records:
    pdb/src/builtInPDBObjects/headers/JoinPairArray.h, JoinPairArray.cc,
    JoinMap.h and JoinMap.cc.

    A slot holds a hash, its first record, and the number of the overflow vector
    with the further records of the hash.  Memory comes from a page that may
    run out: every allocation consults a list of answers ([false]: it throws
    NotEnoughSpace; an exhausted list: there is space), which every theorem
    quantifies over.  Slot counts are 32 bits in the code and unbounded here: a
    slot takes at least 16 bytes of a page. *)

From S2P Require Import Prelude Allocation Probing.

Open Scope Z_scope.

(** ** JoinPairArray *)

Definition JM_UNUSED : Z := 493295393.
(** The hash a key is stored under. *)
Definition norm_hash (me : Z) : Z := if me =? JM_UNUSED then 858931273 else me.

Section join_map.
Context {V : Type} (default : V).

(** A used slot; [s_next] is [None] for UINT32_MAX. *)
Record JMSlot := mkJMSlot { s_hash : Z; s_next : option nat; s_value : V }.

Record JoinPairArray := mkJoinPairArray {
  data : list (option JMSlot);
  usedSlots : Z;
  maxSlots : Z;
  overflows : list (list V)
}.
Definition numSlots (p : JoinPairArray) : Z := Z.of_nat (length (data p)).
Definition set_data (d : list (option JMSlot)) (p : JoinPairArray) : JoinPairArray :=
  mkJoinPairArray d (usedSlots p) (maxSlots p) (overflows p).
Definition set_usedSlots (n : Z) (p : JoinPairArray) : JoinPairArray :=
  mkJoinPairArray (data p) n (maxSlots p) (overflows p).
Definition set_overflows (o : list (list V)) (p : JoinPairArray) : JoinPairArray :=
  mkJoinPairArray (data p) (usedSlots p) (maxSlots p) o.

(** The fill factor .667 of a power of two, truncated. *)
Definition JoinPairArray_new (numSlotsIn : nat) : JoinPairArray :=
  mkJoinPairArray (replicate numSlotsIn None) 0 (Z.of_nat numSlotsIn * 667 / 1000) [].

Abbreviation JPM := (M (JoinPairArray * answers)).
Definition arr : JPM JoinPairArray := s <- get ;; mret s.1.
Definition modify_arr (f : JoinPairArray -> JoinPairArray) : JPM unit :=
  modify (fun s => (f s.1, s.2)).

(** Where the probe loop of every operation stops; running off exits. *)
Definition slot_of (me : Z) : JPM nat :=
  p <- arr ;;
  match find_slot (fun h => h) s_hash (norm_hash me) (data p) with
  | Some slot => mret slot
  | None => exit
  end.
Definition overflow_at (p : JoinPairArray) (i : nat) : JPM (list V) :=
  unwrap OutOfRange (overflows p !! i).

Definition count (me : Z) : JPM Z :=
  slot <- slot_of me ;;
  p <- arr ;;
  match data p !! slot with
  | Some (Some x) =>
      match s_next x with
      | Some i => o <- overflow_at p i ;; mret (1 + Z.of_nat (length o))
      | None => mret 1
      end
  | _ => mret 0
  end.

(** Takes back the record pushed last under a hash. *)
Definition setUnused (me : Z) : JPM unit :=
  slot <- slot_of me ;;
  p <- arr ;;
  match data p !! slot with
  | Some (Some x) =>
      popped <- (match s_next x with
                 | Some i =>
                     o <- overflow_at p i ;;
                     if (1 <=? length o)%nat
                     then _ <- modify_arr (set_overflows (<[i := removelast o]> (overflows p))) ;; mret true
                     else mret false
                 | None => mret false
                 end) ;;
      if popped : bool then mret tt
      else modify_arr (set_data (<[slot := None]> (data p)))
  | _ => mret tt
  end.

(** A reference to a record: in a slot, or in an overflow vector. *)
Inductive jref := RSlot (slot : nat) | ROver (i j : nat).

Definition push (me : Z) : JPM jref :=
  slot <- slot_of me ;;
  p <- arr ;;
  match data p !! slot with
  | Some (Some x) =>
      i <- (match s_next x with
            | Some i => mret i
            | None =>
                _ <- alloc ;;
                let i := length (overflows p) in
                _ <- modify_arr (fun p =>
                       set_data (<[slot := Some (mkJMSlot (s_hash x) (Some i) (s_value x))]> (data p))
                         (set_overflows (overflows p ++ [[]]) p)) ;;
                mret i
            end) ;;
      _ <- alloc ;;
      p <- arr ;;
      o <- overflow_at p i ;;
      _ <- modify_arr (set_overflows (<[i := o ++ [default]]> (overflows p))) ;;
      mret (ROver i (length o))
  | _ =>
      _ <- alloc ;;
      _ <- modify_arr (fun p =>
             set_data (<[slot := Some (mkJMSlot (norm_hash me) None default)]> (data p))
               (set_usedSlots (usedSlots p + 1) p)) ;;
      mret (RSlot slot)
  end.

(** Reading and writing through a reference. *)
Definition deref (r : jref) : JPM V :=
  p <- arr ;;
  match r with
  | RSlot slot =>
      match data p !! slot with
      | Some (Some x) => mret (s_value x)
      | _ => ub UseAfterFree
      end
  | ROver i j => o <- overflow_at p i ;; unwrap OutOfRange (o !! j)
  end.
Definition assign (r : jref) (v : V) : JPM unit :=
  p <- arr ;;
  match r with
  | RSlot slot =>
      match data p !! slot with
      | Some (Some x) =>
          modify_arr (set_data (<[slot := Some (mkJMSlot (s_hash x) (s_next x) v)]> (data p)))
      | _ => ub UseAfterFree
      end
  | ROver i j =>
      o <- overflow_at p i ;;
      if (j <? length o)%nat
      then modify_arr (set_overflows (<[i := <[j := v]> o]> (overflows p))) else ub OutOfRange
  end.

(** ** JoinRecordList: the records of one slot *)

Definition lookup (me : Z) : JPM nat := slot_of me.

Definition record_list (p : JoinPairArray) (whichOne : nat) : option (list V) :=
  match data p !! whichOne with
  | Some (Some x) =>
      match s_next x with
      | Some i => (fun o => s_value x :: o) <$> overflows p !! i
      | None => Some [s_value x]
      end
  | _ => Some []
  end.
Definition getHash (p : JoinPairArray) (whichOne : nat) : Z :=
  match data p !! whichOne with Some (Some x) => s_hash x | _ => JM_UNUSED end.
(** [size], which answers 0 for an overflow number out of range. *)
Definition size (p : JoinPairArray) (whichOne : nat) : Z :=
  match record_list p whichOne with Some l => Z.of_nat (length l) | None => 0 end.
(** [operator[]] *)
Definition record_at (p : JoinPairArray) (whichOne : nat) (i : nat) : option V :=
  match data p !! whichOne with
  | Some (Some x) =>
      match i with
      | O => Some (s_value x)
      | S i' => n ← s_next x; o ← overflows p !! n; o !! i'
      end
  | _ => None
  end.

Definition isOverFull (p : JoinPairArray) : bool := maxSlots p <=? usedSlots p.
Definition numUsedSlots (p : JoinPairArray) : Z := usedSlots p.

(** ** Doubling

    Every used slot is pushed into a new array of twice the size and its
    record and overflow number are copied. *)
Definition rehash (p : JoinPairArray) (slot : option JMSlot) : JPM unit :=
  match slot with
  | None => mret tt
  | Some x =>
      r <- push (s_hash x) ;;
      match r with
      | RSlot s =>
          _ <- alloc ;;
          modify_arr (fun q => set_data (<[s := Some (mkJMSlot (norm_hash (s_hash x)) (s_next x) (s_value x))]> (data q)) q)
      | ROver _ _ => ub OutOfRange
      end
  end.
Definition doubleArray : JPM JoinPairArray := fun '(p, f) =>
  let howMany := (2 * length (data p))%nat in
  match (_ <- alloc ;; _ <- for_each (data p) (rehash p) ;;
         _ <- alloc ;; modify_arr (set_overflows (overflows p))) (JoinPairArray_new howMany, f) with
  | Ok _ (newOne, f') => Ok newOne (p, f')
  | Raise e (_, f') => Raise e (p, f')
  | Exit (_, f') => Exit (p, f')
  | Fault x => Fault x
  | NoFuel => NoFuel
  end.

(** ** JoinMap *)

Record JoinMap := mkJoinMap { myArray : JoinPairArray; joinHashValue : Z }.
Definition set_myArray (a : JoinPairArray) (m : JoinMap) : JoinMap := mkJoinMap a (joinHashValue m).
Definition setHashValue (v : Z) (m : JoinMap) : JoinMap := mkJoinMap (myArray m) v.
Definition JoinMap_new : JoinMap := mkJoinMap (JoinPairArray_new 2) (-1).
Definition JoinMap_ofSize (initSize : nat) : JoinMap :=
  mkJoinMap (JoinPairArray_new (if (initSize <? 2)%nat then 2 else initSize)) (-1).

Abbreviation JMM := (M (JoinMap * answers)).
Definition on_array {A} (m : JPM A) : JMM A := zoom (fun j => Some (myArray j)) set_myArray m.

Definition map_count (me : Z) : JMM Z := on_array (count me).
Definition map_setUnused (me : Z) : JMM unit := on_array (setUnused me).
Definition map_push (me : Z) : JMM jref :=
  on_array (p <- arr ;;
            _ <- (if isOverFull p then temp <- doubleArray ;; modify_arr (fun _ => temp) else mret tt) ;;
            push me).
Definition map_assign (r : jref) (v : V) : JMM unit := on_array (assign r v).
Definition map_deref (r : jref) : JMM V := on_array (deref r).
Definition map_lookup (me : Z) : JMM nat := on_array (lookup me).
Definition map_size (m : JoinMap) : Z := numUsedSlots (myArray m).

(** ** JoinMapIterator: the used slots in the order of their hashes *)

Record JoinMapIterator := mkIterator {
  iterateMe : JoinPairArray;
  iterationOrder : list (nat * Z);
  pos : nat;
  done : bool
}.

Definition by_hash (a b : nat * Z) : Prop := a.2 <= b.2.
#[export] Instance by_hash_dec a b : Decision (by_hash a b).
Proof. unfold by_hash. apply _. Defined.

Definition used_slots (p : JoinPairArray) : list (nat * Z) :=
  omap (fun '(i, s) => (fun x => (i, s_hash x)) <$> s) (imap pair (data p)).
Definition iterator_begin (p : JoinPairArray) : JoinMapIterator :=
  let order := merge_sort by_hash (used_slots p) in
  mkIterator p order 0 (bool_decide (order = [])).
Definition iterator_next (it : JoinMapIterator) : JoinMapIterator :=
  let pos' := if done it then pos it else S (pos it) in
  mkIterator (iterateMe it) (iterationOrder it) pos'
    (if (pos' =? length (iterationOrder it))%nat then true else done it).
(** [operator*]: the record list of the current slot. *)
Definition iterator_slot (it : JoinMapIterator) : option nat := fst <$> iterationOrder it !! pos it.
Definition iterator_hash (it : JoinMapIterator) : option Z :=
  getHash (iterateMe it) <$> iterator_slot it.
Definition iterator_plus (it : JoinMapIterator) (howMuch : nat) : JoinMapIterator :=
  if (length (iterationOrder it) <=? pos it + howMuch)%nat
  then mkIterator (iterateMe it) (iterationOrder it) (length (iterationOrder it)) true
  else mkIterator (iterateMe it) (iterationOrder it) (pos it + howMuch) (done it).
Definition isDone (it : JoinMapIterator) : bool := done it.

(** The loop [for (it = begin; it != end; ++it)]: the end iterator is done, so
    the loop runs until [it] is.  Every round advances [pos], so one more than
    the number of slots is fuel enough. *)
Fixpoint iterate {S} (fuel : nat) (it : JoinMapIterator) (body : nat -> M S unit) : M S unit :=
  match fuel with
  | O => fun _ => NoFuel
  | Datatypes.S fuel' =>
      if isDone it then mret tt
      else
        slot <- unwrap OutOfRange (iterator_slot it) ;;
        _ <- body slot ;;
        iterate fuel' (iterator_next it) body
  end.
Definition for_each_entry {S} (p : JoinPairArray) (body : nat -> M S unit) : M S unit :=
  iterate (Datatypes.S (length (data p))) (iterator_begin p) body.

(** JoinIteratorComparator: a priority queue with it has the least hash on top. *)
Definition hash_greater (lhs rhs : JoinMapIterator) : bool :=
  match iterator_hash lhs, iterator_hash rhs with
  | Some a, Some b => b <? a
  | _, _ => false
  end.

(** [deepCopyJoinMap]: slots, numbers and overflow vectors as they are; the
    partition's hash value keeps its default.  The map, its array, every
    overflow vector and every record take space. *)
Definition deepCopyJoinMap {S} (copyMe : JoinMap) : M (S * answers) JoinMap :=
  _ <- alloc ;; _ <- alloc ;;
  _ <- for_each (overflows (myArray copyMe)) (fun bucket =>
         _ <- alloc ;; _ <- for_each bucket (fun _ => alloc) ;; alloc) ;;
  _ <- for_each (omap (fun s => s) (data (myArray copyMe))) (fun _ => alloc) ;;
  mret (mkJoinMap (myArray copyMe) (-1)).

End join_map.
Arguments JMSlot : clear implicits.
Arguments JoinPairArray : clear implicits.
Arguments JoinMap : clear implicits.
Arguments JoinMapIterator : clear implicits.
