(* ===== verification/Multimap.v ===== *)
(** The hash table of joins refines a multimap: what a hash's records are, and
    that every operation does to them what its name says; and the interface to
    such tables that the join's sinks and probes rely on, with JoinMap as an
    instance of it.

    [view m h] are the records of the hash [h] in the order they were pushed;
    [pushed m0 m h r v] says that [m] is [m0] with one more record [v] under
    [h], which is the one [r] refers to.  Two hashes may be the same key
    ([norm]). *)

From S2P Require Import Prelude Probing Allocation JoinPairArray.

Open Scope Z_scope.

Section spec.
Context {V : Type} (default : V).
Implicit Types (p q : JoinPairArray V) (x y : JMSlot V).

(** ** Entries and the view *)

Abbreviation find h d := (find_slot (fun z : Z => z) (@s_hash V) h d).

Definition has_entry p x : Prop := exists s, data p !! s = Some (Some x).

Definition records (o : list (list V)) x : list V :=
  s_value x :: match s_next x with Some i => o !!! i | None => [] end.

(** The records of a hash. *)
Definition view p (me : Z) : list V :=
  match find (norm_hash me) (data p) with
  | Some s => match data p !! s with Some (Some x) => records (overflows p) x | _ => [] end
  | None => []
  end.

Definition used p : nat := length (omap (fun s : option (JMSlot V) => s) (data p)).

Record jpa_ok p : Prop := {
  ok_probe : probe_ok (fun h : Z => h) (@s_hash V) (data p);
  ok_norm x : has_entry p x -> norm_hash (s_hash x) = s_hash x;
  ok_next x i : has_entry p x -> s_next x = Some i -> (i < length (overflows p))%nat;
  ok_distinct x y i : has_entry p x -> has_entry p y -> s_next x = Some i -> s_next y = Some i -> x = y;
  ok_used : Z.of_nat (used p) <= usedSlots p <= maxSlots p;
  ok_max : maxSlots p = numSlots p * 667 / 1000
}.

Lemma norm_idem h : norm_hash (norm_hash h) = norm_hash h.
Proof. unfold norm_hash. destruct (Z.eqb_spec h JM_UNUSED) as [->|]; [done|]. by rewrite (proj2 (Z.eqb_neq _ _)). Qed.

Lemma jpa_size p : jpa_ok p -> (2 <= length (data p))%nat.
Proof. intros H. by destruct (ok_probe _ H). Qed.

Lemma max_lt n : (2 <= n)%nat -> Z.of_nat n * 667 / 1000 < Z.of_nat n.
Proof. intros. apply Z.div_lt_upper_bound; lia. Qed.

Lemma used_all_free (d : list (option (JMSlot V))) :
  (length (omap (fun s => s) d) < length d)%nat -> has_free d.
Proof.
  induction d as [|[x|] d IH]; simpl; [lia| |].
  - intros H. destruct IH as [s Hs]; [by apply Nat.succ_lt_mono|]. by exists (S s).
  - intros _. by exists 0%nat.
Qed.

Lemma jpa_has_free p : jpa_ok p -> has_free (data p).
Proof.
  intros H. apply used_all_free. pose proof (ok_used _ H). pose proof (ok_max _ H).
  pose proof (max_lt _ (jpa_size _ H)). unfold used, numSlots in *. lia.
Qed.

Lemma slot_of_eq p f me s : find (norm_hash me) (data p) = Some s -> slot_of me (p, f) = Ok s (p, f).
Proof. intros H. unfold slot_of, arr, bind, get. simpl. unfold mret, M_ret. simpl. by rewrite H. Qed.

Lemma arr_eq p f : @arr V (p, f) = Ok p (p, f).
Proof. done. Qed.

(** Where the loop stops, and what is there. *)
Lemma find_cases p me :
  jpa_ok p -> exists s, find (norm_hash me) (data p) = Some s /\
    ((data p !! s = Some None /\ view p me = [] /\ forall x, has_entry p x -> s_hash x <> norm_hash me) \/
     (exists x, data p !! s = Some (Some x) /\ s_hash x = norm_hash me /\ view p me = records (overflows p) x)).
Proof.
  intros H. destruct (find_slot_total (fun h => h) s_hash (norm_hash me) (data p) (jpa_size _ H) (jpa_has_free _ H))
    as [s Hs]. exists s. split; [done|]. unfold view. rewrite Hs.
  destruct (probe_stops _ _ _ _ _ _ _ Hs) as [Hn|(x & Hx & Hk)].
  - left. rewrite Hn. split_and!; [done|done|]. intros x [t Ht].
    by eapply find_slot_absent; [apply (ok_probe _ H)|..].
  - right. exists x. by rewrite Hx.
Qed.

Lemma view_entry p me x :
  jpa_ok p -> has_entry p x -> s_hash x = norm_hash me -> view p me = records (overflows p) x.
Proof.
  intros H [s Hs] Hk. unfold view.
  rewrite (find_slot_present _ _ _ _ s x (ok_probe _ H) Hs Hk). by rewrite Hs.
Qed.

Lemma view_no_entry p me :
  jpa_ok p -> (forall x, has_entry p x -> s_hash x <> norm_hash me) -> view p me = [].
Proof.
  intros H Hno. destruct (find_cases p me H) as (s & _ & [(_ & ? & _)|(x & Hx & Hk & _)]); [done|].
  destruct (Hno x); [by exists s|done].
Qed.

Lemma view_norm p h h' : norm_hash h = norm_hash h' -> view p h = view p h'.
Proof. unfold view. by intros ->. Qed.

(** Tables with the same records per entry have the same view. *)
Lemma view_same p q me :
  jpa_ok p -> jpa_ok q ->
  (forall x, has_entry p x -> s_hash x = norm_hash me ->
     exists y, has_entry q y /\ s_hash y = s_hash x /\ records (overflows q) y = records (overflows p) x) ->
  (forall y, has_entry q y -> s_hash y = norm_hash me -> exists x, has_entry p x /\ s_hash x = s_hash y) ->
  view q me = view p me.
Proof.
  intros Hp Hq H1 H2.
  destruct (find_cases p me Hp) as (s & _ & [(_ & -> & Hno)|(x & Hx & Hk & ->)]).
  - apply view_no_entry; [done|]. intros y Hy Hky. destruct (H2 y Hy Hky) as (x & Hx & Hkx).
    apply (Hno x Hx). congruence.
  - destruct (H1 x) as (y & Hy & Hky & Hr); [by exists s|done|].
    rewrite (view_entry q me y); [done|done|done|congruence].
Qed.

(** ** count, lookup *)

Lemma overflow_at_eq p f i o s : overflows p !! i = Some o -> overflow_at p i (s, f) = Ok o (s, f).
Proof. unfold overflow_at. by intros ->. Qed.

Lemma next_overflow p x i :
  jpa_ok p -> has_entry p x -> s_next x = Some i ->
  overflows p !! i = Some (overflows p !!! i).
Proof.
  intros H Hx Hi. apply list_lookup_lookup_total_lt. by eapply ok_next.
Qed.

Lemma count_eq p f me :
  jpa_ok p -> count me (p, f) = Ok (Z.of_nat (length (view p me))) (p, f).
Proof.
  intros H. destruct (find_cases p me H) as (s & Hs & [(Hn & -> & _)|(x & Hx & Hk & ->)]);
    unfold count; rewrite (bind_Ok _ _ _ _ _ (slot_of_eq _ f _ _ Hs)), (bind_Ok _ _ _ _ _ (arr_eq p f)).
  - by rewrite Hn.
  - rewrite Hx. unfold records. destruct (s_next x) as [i|] eqn:Ei; [|done].
    rewrite (bind_Ok _ _ _ _ _ (overflow_at_eq _ f _ _ _ (next_overflow _ _ _ H (ex_intro _ s Hx) Ei))).
    unfold mret, M_ret. f_equal. cbn [length]. lia.
Qed.

Lemma lookup_eq p f me :
  jpa_ok p -> exists s, lookup me (p, f) = Ok s (p, f) /\ record_list p s = Some (view p me).
Proof.
  intros H. destruct (find_cases p me H) as (s & Hs & Hc). exists s.
  split; [by apply slot_of_eq|]. unfold record_list.
  destruct Hc as [(-> & -> & _)|(x & Hx & Hk & ->)]; [done|]. rewrite Hx. unfold records.
  destruct (s_next x) as [i|] eqn:Ei; [|done].
  by rewrite (next_overflow p x i H (ex_intro _ s Hx) Ei).
Qed.

(** ** Changing one slot *)

Lemma used_fill p s x :
  data p !! s = Some None -> used (set_data (<[s := Some x]> (data p)) p) = S (used p).
Proof.
  intros Hs. unfold used. simpl. pose proof (lookup_lt_Some _ _ _ Hs).
  rewrite insert_take_drop by done. rewrite <- (take_drop_middle _ _ _ Hs) at 3.
  rewrite !omap_app. simpl. rewrite !length_app. simpl. lia.
Qed.

Lemma used_update p s x x' :
  data p !! s = Some (Some x) -> used (set_data (<[s := Some x']> (data p)) p) = used p.
Proof.
  intros Hs. unfold used. simpl. pose proof (lookup_lt_Some _ _ _ Hs).
  rewrite insert_take_drop by done. rewrite <- (take_drop_middle _ _ _ Hs) at 3.
  rewrite !omap_app. simpl. rewrite !length_app. simpl. lia.
Qed.

Lemma insert_back {A} (d : list A) s a b : d !! s = Some a -> <[s := a]> (<[s := b]> d) = d.
Proof. intros H. rewrite list_insert_insert_eq. by apply list_insert_id. Qed.

Lemma has_entry_insert p s c y :
  (s < length (data p))%nat ->
  has_entry (set_data (<[s := c]> (data p)) p) y <->
  c = Some y \/ exists t, t <> s /\ data p !! t = Some (Some y).
Proof.
  intros Hs. unfold has_entry. simpl. split.
  - intros [t Ht]. destruct (decide (s = t)) as [<-|Hne].
    + rewrite list_lookup_insert_eq in Ht by done. left. congruence.
    + rewrite list_lookup_insert_ne in Ht by done. right. eauto.
  - intros [->|(t & Hne & Ht)].
    + exists s. by rewrite list_lookup_insert_eq.
    + exists t. by rewrite list_lookup_insert_ne.
Qed.

Lemma entry_other p s t x y :
  jpa_ok p -> data p !! s = Some (Some x) -> data p !! t = Some (Some y) -> s_hash x = s_hash y -> s = t.
Proof.
  intros H Hs Ht Hk. destruct (ok_probe _ H) as [_ Hp].
  pose proof (Hp _ _ Hs) as E1. pose proof (Hp _ _ Ht) as E2. rewrite Hk in E1. congruence.
Qed.

(** A new entry in the slot the loop stopped at. *)
Lemma jpa_ok_fill p me s v :
  jpa_ok p -> find (norm_hash me) (data p) = Some s -> data p !! s = Some None ->
  usedSlots p < maxSlots p ->
  let x := mkJMSlot (norm_hash me) None v in
  jpa_ok (set_data (<[s := Some x]> (data p)) (set_usedSlots (usedSlots p + 1) p)).
Proof.
  intros H Hf Hs Hmax x. pose proof (lookup_lt_Some _ _ _ Hs) as Hsl.
  assert (He : forall y, has_entry (set_data (<[s := Some x]> (data p)) p) y -> y = x \/ has_entry p y).
  { intros y [[= ->]|(t & _ & Ht)]%has_entry_insert; [by left|right; by exists t|done]. }
  split; simpl.
  - eapply probe_ok_fill; [apply (ok_probe _ H)|done|done|done].
  - intros y [->|Hy]%He; [apply norm_idem|by apply (ok_norm _ H)].
  - intros y i [->|Hy]%He Hi; [done|by eapply (ok_next _ H)].
  - intros y z i [->|Hy]%He [->|Hz]%He Hi Hj; try done. by eapply (ok_distinct _ H).
  - pose proof (used_fill p s x Hs) as Hu. pose proof (ok_used _ H). unfold used in *. simpl in *. lia.
  - pose proof (ok_max _ H) as Hm. unfold numSlots in *. simpl. by rewrite length_insert.
Qed.

(** A used slot's record or overflow number changes. *)
Lemma jpa_ok_update p s x x' o :
  jpa_ok p -> data p !! s = Some (Some x) -> s_hash x' = s_hash x ->
  (length (overflows p) <= length o)%nat ->
  (s_next x' = s_next x \/ (s_next x' = Some (length (overflows p)) /\ length (overflows p) < length o)%nat) ->
  jpa_ok (set_data (<[s := Some x']> (data p)) (set_overflows o p)).
Proof.
  intros H Hs Hk Hlen Hn. pose proof (lookup_lt_Some _ _ _ Hs) as Hsl.
  assert (He : forall y, has_entry (set_data (<[s := Some x']> (data p)) p) y -> y = x' \/
            (has_entry p y /\ y <> x)).
  { intros y [[= ->]|(t & Hne & Ht)]%has_entry_insert; [by left| |done].
    right. split; [by exists t|]. intros ->. by pose proof (entry_other _ _ _ _ _ H Hs Ht eq_refl). }
  assert (Hx : has_entry p x) by by exists s.
  split; simpl.
  - eapply probe_ok_update; [apply (ok_probe _ H)|done|done].
  - intros y [->|[Hy _]]%He; [rewrite Hk|]; by apply (ok_norm _ H).
  - intros y i [->|[Hy _]]%He Hi.
    + destruct Hn as [E|[E ?]]; rewrite Hi in E; [|injection E as ->; lia].
      pose proof (ok_next _ H x i Hx (eq_sym E)). lia.
    + pose proof (ok_next _ H y i Hy Hi). lia.
  - intros y z i [->|[Hy Hyx]]%He [->|[Hz Hzx]]%He Hi Hj; try done.
    + destruct Hn as [E|[E ?]]; rewrite Hi in E.
      * destruct Hzx. by eapply (ok_distinct _ H).
      * injection E as ->. pose proof (ok_next _ H z _ Hz Hj). lia.
    + destruct Hn as [E|[E ?]]; rewrite Hj in E.
      * destruct Hyx. by eapply (ok_distinct _ H).
      * injection E as ->. pose proof (ok_next _ H y _ Hy Hi). lia.
    + by eapply (ok_distinct _ H).
  - pose proof (used_update p s x x' Hs) as Hu. pose proof (ok_used _ H). unfold used in *. simpl in *. lia.
  - pose proof (ok_max _ H) as Hm. unfold numSlots in *. simpl. by rewrite length_insert.
Qed.

Lemma jpa_ok_overflows p o :
  jpa_ok p -> length o = length (overflows p) -> jpa_ok (set_overflows o p).
Proof.
  intros H Hlen. split; try apply H. simpl. intros x i Hx Hi. rewrite Hlen. by eapply (ok_next _ H).
Qed.

(** ** push, assign, setUnused *)

(** [p] is [p0] with the record [v], at [r], added last under [me]; without
    it the table is well formed and has the view of [p0]. *)
Inductive pushed p0 p (me : Z) : jref -> V -> Prop :=
| pushed_slot s v :
    jpa_ok p -> find (norm_hash me) (data p) = Some s ->
    data p !! s = Some (Some (mkJMSlot (norm_hash me) None v)) ->
    jpa_ok (set_data (<[s := None]> (data p)) p) ->
    (forall h, view (set_data (<[s := None]> (data p)) p) h = view p0 h) ->
    pushed p0 p me (RSlot s) v
| pushed_over s x i o v :
    jpa_ok p -> find (norm_hash me) (data p) = Some s ->
    data p !! s = Some (Some x) -> s_hash x = norm_hash me -> s_next x = Some i ->
    overflows p !! i = Some (o ++ [v]) ->
    (forall h, view (set_overflows (<[i := o]> (overflows p)) p) h = view p0 h) ->
    pushed p0 p me (ROver i (length o)) v.

Lemma pushed_ok p0 p me r v : pushed p0 p me r v -> jpa_ok p.
Proof. by intros []. Qed.

Lemma records_other p x y i o :
  jpa_ok p -> has_entry p x -> has_entry p y -> x <> y -> s_next x = Some i ->
  records (<[i := o]> (overflows p)) y = records (overflows p) y.
Proof.
  intros H Hx Hy Hne Hi. unfold records. destruct (s_next y) as [j|] eqn:Ej; [|done].
  f_equal. rewrite list_lookup_total_insert_ne; [done|]. intros ->.
  by destruct (Hne (ok_distinct _ H x y j Hx Hy Hi Ej)).
Qed.

Lemma records_self p x i o :
  jpa_ok p -> has_entry p x -> s_next x = Some i ->
  records (<[i := o]> (overflows p)) x = s_value x :: o.
Proof.
  intros H Hx Hi. unfold records. rewrite Hi. f_equal.
  apply list_lookup_total_insert_eq. by eapply ok_next.
Qed.

Lemma set_overflows_id p : set_overflows (overflows p) p = p.
Proof. by destruct p. Qed.

(** What a change of one overflow vector does to the view. *)
Lemma view_overflow p s x i o h :
  jpa_ok p -> data p !! s = Some (Some x) -> s_next x = Some i ->
  view (set_overflows (<[i := o]> (overflows p)) p) h =
    if bool_decide (norm_hash h = s_hash x) then s_value x :: o else view p h.
Proof.
  intros H Hs Hi. assert (Hx : has_entry p x) by by exists s.
  set (q := set_overflows _ p).
  assert (Hq : jpa_ok q) by (apply jpa_ok_overflows; [done|apply length_insert]).
  case_bool_decide as Hk.
  - rewrite (view_entry q h x); [by apply records_self|done|by exists s|done].
  - apply view_same; [done|done| |].
    + intros y Hy Hky. exists y. split; [done|]. split; [done|].
      apply (records_other p x); try done. congruence.
    + intros y Hy Hky. by exists y.
Qed.

(** What removing an entry does to the view, when that leaves the table well
    formed. *)
Lemma view_remove p s x h :
  jpa_ok p -> data p !! s = Some (Some x) -> jpa_ok (set_data (<[s := None]> (data p)) p) ->
  view (set_data (<[s := None]> (data p)) p) h =
    if bool_decide (norm_hash h = s_hash x) then [] else view p h.
Proof.
  intros H Hs Hq. pose proof (lookup_lt_Some _ _ _ Hs) as Hsl. case_bool_decide as Hk.
  - apply view_no_entry; [done|].
    intros y [[=]|(t & Hne & Ht)]%has_entry_insert Hky; [|done].
    destruct Hne. symmetry. apply (entry_other p s t x y); [done..|congruence].
  - apply view_same; [done|done| |].
    + intros y [t Ht] Hky. exists y. split; [|done]. apply has_entry_insert; [done|]. right.
      exists t. split; [|done]. intros ->. congruence.
    + intros y [[=]|(t & Hne & Ht)]%has_entry_insert Hky; [|done]. exists y. split; [by exists t|done].
Qed.

(** A pushed record is the last one of its hash, and the others are as they were. *)
Lemma pushed_view p0 p me r v h :
  pushed p0 p me r v ->
  view p h = if bool_decide (norm_hash h = norm_hash me) then view p0 h ++ [v] else view p0 h.
Proof.
  intros [s w H Hf Hs Hrem Hv|s x i o w H Hf Hs Hk Hi Ho Hv]; rewrite <- Hv.
  - rewrite (view_remove p s _ h H Hs Hrem). simpl. case_bool_decide as E; [|done].
    rewrite (view_entry p h (mkJMSlot (norm_hash me) None w)); [done|done|by exists s|done].
  - rewrite (view_overflow p s x i o h H Hs Hi). rewrite Hk. case_bool_decide as E; [|done].
    rewrite (view_entry p h x); [|done|by exists s|congruence].
    unfold records. rewrite Hi. by rewrite (list_lookup_total_correct _ _ _ Ho).
Qed.

Definition push_post p0 me (r : jref) (s : JoinPairArray V * answers) : Prop :=
  pushed p0 s.1 me r default.
(** After a failed push the table is as good as before. *)
Definition push_failed p0 (e : exn) (s : JoinPairArray V * answers) : Prop :=
  e = NotEnoughSpace /\ jpa_ok s.1 /\ forall h, view s.1 h = view p0 h.

Lemma push_over_spec p0 p me s x i f :
  jpa_ok p -> (forall h, view p h = view p0 h) -> find (norm_hash me) (data p) = Some s ->
  data p !! s = Some (Some x) -> s_hash x = norm_hash me -> s_next x = Some i ->
  wpx (_ <- alloc ;;
       p <- arr ;;
       o <- overflow_at p i ;;
       _ <- modify_arr (set_overflows (<[i := o ++ [default]]> (overflows p))) ;;
       mret (ROver i (length o))) (push_post p0 me) (push_failed p0) (p, f).
Proof.
  intros H Hv Hf Hs Hk Hi. assert (Hx : has_entry p x) by by exists s.
  pose proof (next_overflow p x i H Hx Hi) as Ho. set (o := overflows p !!! i) in Ho.
  assert (Hil : (i < length (overflows p))%nat) by by eapply lookup_lt_Some.
  apply wpx_bind, wpx_alloc; [|done]. intros f'.
  apply wpx_bind. eapply wpx_eq; [apply arr_eq|].
  apply wpx_bind. eapply wpx_eq; [by apply overflow_at_eq|].
  apply wpx_bind. eapply wpx_eq; [done|]. apply wpx_mret. unfold push_post. simpl.
  eapply (pushed_over _ _ _ s x); simpl; try done.
  - apply jpa_ok_overflows; [done|apply length_insert].
  - by apply list_lookup_insert_eq.
  - intros h. rewrite <- Hv. rewrite list_insert_insert_eq.
    rewrite list_insert_id by done. by destruct p.
Qed.

Lemma push_spec p me f :
  jpa_ok p -> usedSlots p < maxSlots p ->
  wpx (push default me) (push_post p me) (push_failed p) (p, f).
Proof.
  intros H Hmax. destruct (find_cases p me H) as (s & Hs & Hc).
  unfold push. apply wpx_bind. eapply wpx_eq; [by apply slot_of_eq|].
  apply wpx_bind. eapply wpx_eq; [apply arr_eq|].
  destruct Hc as [(Hn & Hv & _)|(x & Hx & Hk & Hv)].
  - rewrite Hn. apply wpx_bind, wpx_alloc; [|done]. intros f'.
    apply wpx_bind. eapply wpx_eq; [done|]. apply wpx_mret. unfold push_post. simpl.
    pose proof (lookup_lt_Some _ _ _ Hn) as Hsl.
    set (x := mkJMSlot (norm_hash me) None default).
    assert (Hok := jpa_ok_fill p me s default H Hs Hn Hmax). fold x in Hok. simpl in Hok.
    set (q := set_data _ _) in *.
    assert (Hrem : jpa_ok (set_data (<[s := None]> (data q)) q)).
    { unfold q; simpl. rewrite insert_back by done. split; simpl; try apply H.
      pose proof (ok_used _ H). unfold used in *; simpl. lia. }
    eapply pushed_slot; [done| | |done|].
    + apply (find_slot_present _ _ _ _ s x (ok_probe _ Hok)); [|done].
      unfold q; simpl. by apply list_lookup_insert_eq.
    + unfold q; simpl. by apply list_lookup_insert_eq.
    + intros h. unfold q, view; simpl. by rewrite insert_back.
  - rewrite Hx. destruct (s_next x) as [i|] eqn:Ei.
    + apply wpx_bind, wpx_mret. by eapply push_over_spec.
    + apply wpx_bind, wpx_bind, wpx_alloc; [|done]. intros f'.
      apply wpx_bind. eapply wpx_eq; [done|]. apply wpx_mret.
      set (i := length (overflows p)). set (x' := mkJMSlot (s_hash x) (Some i) (s_value x)).
      assert (Hok : jpa_ok (set_data (<[s := Some x']> (data p)) (set_overflows (overflows p ++ [[]]) p))).
      { eapply jpa_ok_update; [done|done|done|rewrite length_app; lia|].
        right. split; [done|]. rewrite length_app. simpl. lia. }
      pose proof (lookup_lt_Some _ _ _ Hx) as Hsl.
      eapply (push_over_spec p _ me s x'); simpl; try done.
      * intros h. apply view_same; [done|done| |].
        -- intros y [t Ht] Hky. destruct (decide (t = s)) as [->|Hne].
           ++ rewrite Hx in Ht. injection Ht as <-.
              exists x'. split; [by exists s; simpl; rewrite list_lookup_insert_eq|]. split; [done|].
              unfold records; simpl. rewrite Ei. f_equal.
              rewrite list_lookup_total_alt, lookup_app_r, Nat.sub_diag by done. done.
           ++ exists y. split; [|split; [done|]].
              ** exists t. simpl. by rewrite list_lookup_insert_ne.
              ** unfold records. destruct (s_next y) as [j|] eqn:Ej; [|done]. f_equal. simpl.
                 pose proof (ok_next _ H y j (ex_intro _ t Ht) Ej). by rewrite lookup_total_app_l.
        -- intros y Hy Hky.
           apply (has_entry_insert (set_overflows (overflows p ++ [[]]) p)) in Hy; [|done].
           destruct Hy as [[= <-]|(t & Hne & Ht)]; [by exists x; split; [exists s|]|].
           exists y. split; [by exists t|done].
      * apply (find_slot_present _ _ _ _ s x' (ok_probe _ Hok)); [|done]. simpl. by apply list_lookup_insert_eq.
      * by apply list_lookup_insert_eq.
Qed.

Lemma assign_spec p0 p me r v v' f :
  pushed p0 p me r v ->
  exists p', assign r v' (p, f) = Ok tt (p', f) /\ pushed p0 p' me r v'.
Proof.
  intros [s w H Hf Hs Hrem Hv|s x i o w H Hf Hs Hk Hi Ho Hv]; unfold assign;
    rewrite (bind_Ok _ _ _ _ _ (arr_eq p f)).
  - rewrite Hs. simpl. eexists. split; [done|].
    pose proof (lookup_lt_Some _ _ _ Hs) as Hsl.
    set (x' := mkJMSlot (norm_hash me) None v').
    assert (Hok : jpa_ok (set_data (<[s := Some x']> (data p)) p)).
    { rewrite <- (set_overflows_id p) at 2. eapply jpa_ok_update; [done|done|done|done|by left]. }
    eapply pushed_slot; simpl.
    + done.
    + rewrite (find_slot_update _ _ _ _ _ _ x') by (done || by apply jpa_size || exact Hs). done.
    + by apply list_lookup_insert_eq.
    + by rewrite list_insert_insert_eq.
    + intros h. rewrite <- Hv. unfold view; simpl. by rewrite list_insert_insert_eq.
  - rewrite (bind_Ok _ _ _ _ _ (overflow_at_eq _ f _ _ p Ho)).
    rewrite length_app. simpl. rewrite (proj2 (Nat.ltb_lt _ _)) by lia.
    eexists. split; [done|]. pose proof (lookup_lt_Some _ _ _ Ho) as Hil.
    eapply (pushed_over _ _ _ s x); simpl; try done.
    + apply jpa_ok_overflows; [done|apply length_insert].
    + rewrite list_lookup_insert_eq by done. by rewrite insert_app_r_alt, Nat.sub_diag by lia.
    + intros h. rewrite <- Hv. by rewrite list_insert_insert_eq.
Qed.

Lemma setUnused_spec p0 p me r v f :
  pushed p0 p me r v ->
  exists p', setUnused me (p, f) = Ok tt (p', f) /\ jpa_ok p' /\ forall h, view p' h = view p0 h.
Proof.
  intros [s w H Hf Hs Hrem Hv|s x i o w H Hf Hs Hk Hi Ho Hv]; unfold setUnused;
    rewrite (bind_Ok _ _ _ _ _ (slot_of_eq _ f _ _ Hf)), (bind_Ok _ _ _ _ _ (arr_eq p f)), Hs.
  - rewrite (bind_Ok _ _ _ false (p, f)) by done. eexists. split; [done|]. done.
  - rewrite (bind_Ok _ _ _ true (set_overflows (<[i := o]> (overflows p)) p, f)).
    + eexists. split; [done|]. split; [|done].
      apply jpa_ok_overflows; [done|apply length_insert].
    + rewrite Hi, (bind_Ok _ _ _ _ _ (overflow_at_eq _ f _ _ p Ho)).
      replace (1 <=? length (o ++ [w]))%nat with true
        by (symmetry; apply Nat.leb_le; rewrite length_app; simpl; lia).
      by rewrite removelast_last.
Qed.

(** A hash without records has nothing to take back. *)
Lemma setUnused_absent p me f :
  jpa_ok p -> view p me = [] -> setUnused me (p, f) = Ok tt (p, f).
Proof.
  intros H Hv. destruct (find_cases p me H) as (s & Hs & [(Hn & _ & _)|(x & Hx & Hk & Hr)]).
  - unfold setUnused.
    rewrite (bind_Ok _ _ _ _ _ (slot_of_eq _ f _ _ Hs)), (bind_Ok _ _ _ _ _ (arr_eq p f)). by rewrite Hn.
  - rewrite Hv in Hr. done.
Qed.

(** ** Doubling *)

(** The new array after the slots [pre] of [p] have been moved. *)
Record moving p (pre : list (option (JMSlot V))) q : Prop := {
  mv_probe : probe_ok (fun z : Z => z) (@s_hash V) (data q);
  mv_size : length (data q) = (2 * length (data p))%nat;
  mv_overflows : overflows q = [];
  mv_max : maxSlots q = numSlots q * 667 / 1000;
  mv_used : usedSlots q = Z.of_nat (length (omap (fun s => s) pre)) /\ used q = length (omap (fun s => s) pre);
  mv_entries x : has_entry q x <-> Some x ∈ pre
}.

Lemma max_double n : (2 <= n)%nat -> Z.of_nat n * 667 / 1000 < Z.of_nat (2 * n) * 667 / 1000.
Proof.
  intros. pose proof (Z.div_le_mono (Z.of_nat n * 667 + 1 * 1000) (Z.of_nat (2 * n) * 667) 1000) as Hd.
  rewrite Z.div_add in Hd by lia. lia.
Qed.

Lemma has_entry_lookup p x : has_entry p x <-> Some x ∈ data p.
Proof. unfold has_entry. by rewrite list_elem_of_lookup. Qed.

Lemma rehash_spec p pre c l q f :
  jpa_ok p -> data p = pre ++ c :: l -> moving p pre q ->
  wpx (rehash default p c) (fun _ s => moving p (pre ++ [c]) s.1)
    (fun e _ => e = NotEnoughSpace) (q, f).
Proof.
  intros H Hd [Hp Hsz Ho Hm [Hu1 Hu2] He]. destruct c as [x|]; simpl; last first.
  { apply wpx_mret. split; simpl; try done.
    - rewrite omap_app. simpl. by rewrite app_nil_r.
    - intros x. rewrite He. set_solver. }
  assert (Hx : has_entry p x) by (rewrite has_entry_lookup, Hd; set_solver).
  assert (Hnx : norm_hash (s_hash x) = s_hash x) by by apply (ok_norm _ H).
  assert (Hlt : (used q < length (data q))%nat).
  { rewrite Hsz, Hu2. pose proof (ok_used _ H) as Hup. pose proof (ok_max _ H) as Hmp.
    pose proof (max_lt _ (jpa_size _ H)). pose proof (jpa_size _ H).
    unfold used, numSlots in *. rewrite Hd, omap_app, length_app in Hup. rewrite Hd in *. lia. }
  destruct (find_slot_total (fun z => z) s_hash (s_hash x) (data q)) as [t Ht];
    [by destruct Hp|by apply used_all_free|].
  assert (Hfree : data q !! t = Some None).
  { destruct (probe_stops _ _ _ _ _ _ _ Ht) as [?|(y & Hy & Hk)]; [done|]. exfalso.
    assert (Hy' : Some y ∈ pre) by (apply He; by exists t).
    apply list_elem_of_lookup in Hy' as [j Hj].
    assert (j = length pre); [|apply lookup_lt_Some in Hj; lia].
    apply (entry_other p j (length pre) y x); [done| | |done].
    - rewrite Hd, lookup_app_l by by eapply lookup_lt_Some. done.
    - rewrite Hd, lookup_app_r, Nat.sub_diag by done. done. }
  unfold push. apply wpx_bind, wpx_bind. eapply wpx_eq; [apply slot_of_eq; by rewrite Hnx|].
  apply wpx_bind. eapply wpx_eq; [apply arr_eq|]. rewrite Hfree.
  apply wpx_bind, wpx_alloc; [|done]. intros f1. apply wpx_bind. eapply wpx_eq; [done|].
  apply wpx_mret, wpx_bind, wpx_alloc; [|done]. intros f2. eapply wpx_eq; [done|]. simpl.
  rewrite list_insert_insert_eq, Hnx. pose proof (lookup_lt_Some _ _ _ Hfree) as Htl.
  replace (mkJMSlot (s_hash x) (s_next x) (s_value x)) with x by by destruct x.
  split; simpl.
  - by eapply probe_ok_fill.
  - by rewrite length_insert.
  - done.
  - unfold numSlots in *. simpl. by rewrite length_insert.
  - pose proof (used_fill q t x Hfree) as Hf. unfold used in *. simpl in *.
    rewrite omap_app, length_app. simpl. split; lia.
  - intros y. rewrite (has_entry_insert q t (Some x) y Htl), elem_of_app, list_elem_of_singleton, <- He.
    split.
    + intros [[= ->]|(t' & _ & Ht')]; [by right|left; by exists t'].
    + intros [[t' Ht']|[= ->]]; [right|by left]. exists t'. split; [|done]. intros ->. congruence.
Qed.

Lemma doubleArray_spec p f :
  jpa_ok p ->
  wpx (doubleArray default)
    (fun q s => s.1 = p /\ jpa_ok q /\ usedSlots q < maxSlots q /\ forall h, view q h = view p h)
    (fun e s => e = NotEnoughSpace /\ s.1 = p) (p, f).
Proof.
  intros H. unfold doubleArray.
  assert (Hw : wpx (_ <- alloc ;; _ <- for_each (data p) (rehash default p) ;;
         _ <- alloc ;; modify_arr (set_overflows (overflows p)))
       (fun _ s => exists q, moving p (data p) q /\ s.1 = set_overflows (overflows p) q)
       (fun e _ => e = NotEnoughSpace) (JoinPairArray_new (V:=V) (2 * length (data p)), f)).
  { apply wpx_bind, wpx_alloc; [|done]. intros f1. apply wpx_bind. eapply wpx_mono.
    - apply (wpx_for_each _ (fun pre l s => data p = pre ++ l /\ moving p pre s.1)
               (fun e _ => e = NotEnoughSpace)) with (pre := []).
      + intros pre c l [q g] [Hd Hm]. simpl in Hm. eapply wpx_mono; [by eapply rehash_spec| |done].
        intros [] s Hs. split; [by rewrite <- app_assoc|done].
      + split; [done|]. pose proof (jpa_size _ H). split; simpl.
        * apply probe_ok_replicate. lia.
        * by rewrite length_replicate.
        * done.
        * unfold numSlots. simpl. by rewrite length_replicate.
        * split; [done|]. unfold used. simpl. by induction (length (data p) + _)%nat.
        * intros x. split; [intros [s [? _]%lookup_replicate_1]; done|set_solver].
    - intros [] [q g] [_ Hm]. apply wpx_bind, wpx_alloc; [|done]. intros f2.
      eapply wpx_eq; [done|]. by exists q.
    - done. }
  unfold wpx in *. match type of Hw with context [bind alloc ?k ?s0] =>
    destruct (bind alloc k s0) as [[] [q' g]|e [q' g]| | |] end; try done.
  destruct Hw as (q & [Hp Hsz Ho Hm [Hu1 Hu2] He] & Hq'). simpl in Hq'. subst q'.
  assert (He' : forall x, has_entry q x <-> has_entry p x) by (intros x; rewrite (has_entry_lookup p); apply He).
  assert (Hup : usedSlots q = Z.of_nat (used p)) by done.
  pose proof (ok_used _ H). pose proof (ok_max _ H). pose proof (max_double _ (jpa_size _ H)).
  assert (Hlt : usedSlots q < maxSlots q).
  { rewrite Hup, Hm. unfold numSlots in *. rewrite Hsz. lia. }
  assert (Hok : jpa_ok (set_overflows (overflows p) q)).
  { split; simpl; try done.
    - intros x Hx. apply (ok_norm _ H). by apply He'.
    - intros x i Hx. apply (ok_next _ H). by apply He'.
    - intros x y i Hx Hy. apply (ok_distinct _ H); by apply He'.
    - unfold used in *. simpl. lia. }
  split; [done|]. split; [done|]. split; [done|]. intros h. apply view_same; [done|done| |].
  - intros x Hx _. exists x. split; [by apply He'|done].
  - intros y Hy _. exists y. split; [by apply He'|done].
Qed.

(** ** JoinMap *)

Definition map_view (m : JoinMap V) : Z -> list V := view (myArray m).
Definition map_ok (m : JoinMap V) : Prop := jpa_ok (myArray m).
Definition map_pushed (m0 m : JoinMap V) (me : Z) (r : jref) (v : V) : Prop :=
  pushed (myArray m0) (myArray m) me r v /\ joinHashValue m = joinHashValue m0.
(** The map has the records it had. *)
Definition map_same (m0 m : JoinMap V) : Prop :=
  map_ok m /\ (forall h, map_view m h = map_view m0 h) /\ joinHashValue m = joinHashValue m0.

Lemma JoinMap_new_ok : map_ok JoinMap_new.
Proof.
  split; [apply (probe_ok_replicate _ _ 2); lia|..].
  - intros x [s [? _]%(lookup_replicate_1 2)]. done.
  - intros x i [s [? _]%(lookup_replicate_1 2)]. done.
  - intros x y i [s [? _]%(lookup_replicate_1 2)]. done.
  - unfold used. simpl. done.
  - done.
Qed.

Lemma JoinMap_new_view me : map_view JoinMap_new me = [].
Proof.
  apply view_no_entry; [apply JoinMap_new_ok|]. intros x [s [? _]%(lookup_replicate_1 2)]. done.
Qed.

Lemma pushed_base p0 p1 p me r v :
  (forall h, view p1 h = view p0 h) -> pushed p1 p me r v -> pushed p0 p me r v.
Proof.
  intros Hv [s w ? ? ? ? Hw|s x i o w ? ? ? ? ? ? Hw].
  - eapply pushed_slot; try done. intros h. by rewrite Hw.
  - eapply pushed_over; try done. intros h. by rewrite Hw.
Qed.

Lemma wpx_on_array {A} (c : M (JoinPairArray V * answers) A) Q E m f :
  wpx c (fun a s => Q a (set_myArray s.1 m, s.2)) (fun e s => E e (set_myArray s.1 m, s.2)) (myArray m, f) ->
  wpx (on_array c) Q E (m, f).
Proof. unfold wpx, on_array, zoom. by destruct (c (myArray m, f)) as [? []|? []|[]| |]. Qed.

Lemma map_count_eq m f me :
  map_ok m -> map_count me (m, f) = Ok (Z.of_nat (length (map_view m me))) (m, f).
Proof.
  intros H. unfold map_count, on_array, zoom. rewrite count_eq by done. by destruct m.
Qed.

Lemma map_push_spec m me f :
  map_ok m ->
  wpx (map_push default me) (fun r s => map_pushed m s.1 me r default)
    (fun e s => e = NotEnoughSpace /\ map_same m s.1) (m, f).
Proof.
  intros H. unfold map_push. apply wpx_on_array.
  apply wpx_bind. eapply wpx_eq; [apply arr_eq|]. apply wpx_bind. unfold isOverFull.
  destruct (Z.leb_spec (maxSlots (myArray m)) (usedSlots (myArray m))) as [Hfull|Hroom].
  - apply wpx_bind. eapply wpx_mono; [by apply doubleArray_spec| |].
    + intros q [p f'] (Hp & Hq & Hlt & Hv). simpl in Hp. subst p. eapply wpx_eq; [done|]. simpl.
      eapply wpx_mono; [by apply push_spec| |].
      * intros r [p g] Hpush. split; [|done]. by eapply pushed_base.
      * intros e [p g] (-> & Hp & Hpv). split; [done|]. split; [done|]. split; [|done].
        intros h. unfold map_view. simpl in *. by rewrite Hpv.
    + intros e [p g] [-> Hp]. simpl in Hp. subst. split; [done|]. split; [done|]. done.
  - apply wpx_mret. eapply wpx_mono; [by apply push_spec| |].
    + intros r [p g] Hpush. by split.
    + intros e [p g] (-> & Hp & Hpv). split; [done|]. split; [done|]. by split.
Qed.

Lemma map_assign_spec m0 m me r v v' f :
  map_pushed m0 m me r v ->
  exists m', map_assign r v' (m, f) = Ok tt (m', f) /\ map_pushed m0 m' me r v'.
Proof.
  intros [H Hj]. destruct (assign_spec _ _ _ _ _ v' f H) as (p' & E & H').
  exists (set_myArray p' m). unfold map_assign, on_array, zoom. rewrite E. split; [done|]. by split.
Qed.

Lemma map_setUnused_spec m0 m me r v f :
  map_pushed m0 m me r v ->
  exists m', map_setUnused me (m, f) = Ok tt (m', f) /\ map_same m0 m'.
Proof.
  intros [H Hj]. destruct (setUnused_spec _ _ _ _ _ f H) as (p' & E & H' & Hv).
  exists (set_myArray p' m). unfold map_setUnused, on_array, zoom. rewrite E. split; [done|]. by split.
Qed.

Lemma map_setUnused_absent m me f :
  map_ok m -> map_view m me = [] -> map_setUnused me (m, f) = Ok tt (m, f).
Proof.
  intros H Hv. unfold map_setUnused, on_array, zoom. rewrite setUnused_absent by done. by destruct m.
Qed.

Lemma map_pushed_view m0 m me r v h :
  map_pushed m0 m me r v ->
  map_view m h = if bool_decide (norm_hash h = norm_hash me) then map_view m0 h ++ [v] else map_view m0 h.
Proof. intros [H _]. unfold map_view. by erewrite pushed_view. Qed.

Lemma map_lookup_eq m f me :
  map_ok m -> exists s, map_lookup me (m, f) = Ok s (m, f) /\
    record_list (myArray m) s = Some (map_view m me).
Proof.
  intros H. destruct (lookup_eq (myArray m) f me H) as (s & E & Hr). exists s. split; [|done].
  unfold map_lookup, on_array, zoom. rewrite E. by destruct m.
Qed.

(** ** Iteration *)

Definition order p : list (nat * Z) := merge_sort by_hash (used_slots p).

#[local] Instance by_hash_total : Total by_hash.
Proof. intros a b. unfold by_hash. lia. Qed.
#[local] Instance by_hash_trans : Transitive by_hash.
Proof. intros a b c. unfold by_hash. lia. Qed.

Lemma elem_of_order p s h :
  (s, h) ∈ order p <-> exists x, data p !! s = Some (Some x) /\ s_hash x = h.
Proof.
  unfold order, used_slots. rewrite merge_sort_Permutation, list_elem_of_omap. split.
  - intros ([i c] & Hin & E). apply elem_of_lookup_imap in Hin as (j & c' & [= -> ->] & Hl).
    destruct c' as [x|]; simplify_eq/=. eauto.
  - intros (x & Hx & <-). exists (s, Some x). split; [|done].
    apply elem_of_lookup_imap. by exists s, (Some x).
Qed.

Lemma order_sorted p : StronglySorted by_hash (order p).
Proof. apply StronglySorted_merge_sort; apply _. Qed.

Lemma iterate_from {S} (it : JoinMapIterator V) (body : nat -> M S unit) fuel s :
  (pos it <= length (iterationOrder it))%nat ->
  done it = bool_decide (pos it = length (iterationOrder it)) ->
  (length (iterationOrder it) - pos it < fuel)%nat ->
  iterate fuel it body s = for_each (map fst (drop (pos it) (iterationOrder it))) body s.
Proof.
  revert it s. induction fuel as [|fuel IH]; intros it s Hpos Hdone Hf; [lia|]. simpl.
  unfold isDone. rewrite Hdone. case_bool_decide as E.
  { rewrite drop_ge by lia. done. }
  destruct (lookup_lt_is_Some_2 (iterationOrder it) (pos it)) as [[sl h] Hl]; [lia|].
  rewrite (drop_S _ _ _ Hl). simpl. unfold iterator_slot. rewrite Hl. simpl.
  rewrite (bind_Ok _ _ _ sl s) by done. unfold bind at 1 2. destruct (body sl s) as [[] s'| | | |]; try done.
  unfold iterator_next. rewrite Hdone. rewrite IH; simpl; [done|lia| |lia].
  destruct (length (iterationOrder it)) as [|n]; [lia|].
  destruct (Nat.eqb_spec (pos it) n); [rewrite bool_decide_true by congruence|rewrite bool_decide_false by congruence]; done.
Qed.

Lemma used_slots_length p : (length (used_slots p) <= length (data p))%nat.
Proof.
  unfold used_slots. rewrite <- (length_imap pair (data p)). generalize (imap pair (data p)) as l.
  induction l as [|[i [x|]] l IH]; simpl; [lia| |].
  - apply le_n_S. exact IH.
  - apply le_S. exact IH.
Qed.

(** The loop over a map visits the used slots in the order of their hashes. *)
Lemma for_each_entry_eq {S} p (body : nat -> M S unit) s :
  for_each_entry p body s = for_each (map fst (order p)) body s.
Proof.
  unfold for_each_entry. rewrite iterate_from; [done|simpl; lia| |].
  - simpl. fold (order p). destruct (order p); [done|]. by rewrite !bool_decide_false.
  - simpl. fold (order p). unfold order. rewrite merge_sort_Permutation.
    pose proof (used_slots_length p). lia.
Qed.

Lemma order_records p s h :
  jpa_ok p -> (s, h) ∈ order p ->
  getHash p s = h /\ norm_hash h = h /\ record_list p s = Some (view p h) /\ view p h <> [].
Proof.
  intros H (x & Hx & <-)%elem_of_order.
  assert (He : has_entry p x) by by exists s.
  assert (Hn : norm_hash (s_hash x) = s_hash x) by by apply (ok_norm _ H).
  rewrite (view_entry p (s_hash x) x) by done.
  unfold getHash, record_list. rewrite Hx. split_and!; [done|done| |done].
  unfold records. destruct (s_next x) as [i|] eqn:Ei; [|done]. by rewrite (next_overflow p x i).
Qed.

Lemma order_complete p h :
  jpa_ok p -> view p h <> [] -> exists s, (s, norm_hash h) ∈ order p.
Proof.
  intros H Hv. destruct (find_cases p h H) as (s & _ & [(_ & ? & _)|(x & Hx & Hk & _)]); [done|].
  exists s. apply elem_of_order. eauto.
Qed.

Lemma used_slots_NoDup_from (d : list (option (JMSlot V))) off :
  let l := omap (fun '(i, s) => (fun x => (i, s_hash x)) <$> s) (imap (fun i s => ((off + i)%nat, s)) d) in
  NoDup (map fst l) /\ forall k, k ∈ map fst l -> (off <= k)%nat.
Proof.
  revert off. induction d as [|c d IH]; intros off; simpl.
  { split; [apply NoDup_nil; done|set_solver]. }
  destruct (IH (S off)) as [Hnd Hge]. simpl in *.
  assert (E : imap (fun i s => ((off + S i)%nat, s)) d = imap (fun i s => (S (off + i)%nat, s)) d).
  { apply imap_ext. intros. simpl. f_equal. lia. }
  unfold compose. rewrite E. destruct c as [x|]; simpl.
  - split.
    + apply NoDup_cons. split; [|done]. intros Hin. apply Hge in Hin. lia.
    + intros k [->|Hk]%elem_of_cons; [lia|]. apply Hge in Hk. lia.
  - split; [done|]. intros k Hk. apply Hge in Hk. lia.
Qed.

Lemma order_slots_NoDup p : NoDup (map fst (order p)).
Proof.
  unfold order. rewrite merge_sort_Permutation. apply (used_slots_NoDup_from (data p) 0).
Qed.

(** Every hash comes once. *)
Lemma order_NoDup p : jpa_ok p -> NoDup (map snd (order p)).
Proof.
  intros H. apply NoDup_alt. intros i j h. rewrite !list_lookup_fmap.
  destruct (order p !! i) as [[s ?]|] eqn:Ei; [|done]. destruct (order p !! j) as [[t ?]|] eqn:Ej; [|done].
  simpl. intros [= ->] [= ->].
  assert (s = t) as ->.
  { pose proof (list_elem_of_lookup_2 _ _ _ Ei) as (x & Hx & Hxh)%elem_of_order.
    pose proof (list_elem_of_lookup_2 _ _ _ Ej) as (y & Hy & Hyh)%elem_of_order.
    apply (entry_other p s t x y); [done..|congruence]. }
  apply (proj1 (NoDup_alt _) (order_slots_NoDup p) i j t); by rewrite list_lookup_fmap, ?Ei, ?Ej.
Qed.
End spec.

(** Sorted by hash without repetition: ascending. *)
Lemma sorted_ascending (l : list (nat * Z)) :
  NoDup (map snd l) -> StronglySorted by_hash l -> StronglySorted Z.lt (map snd l).
Proof.
  intros Hnd H. induction H as [|[s h] l H IH Hall]; [constructor|].
  apply NoDup_cons in Hnd as [Hh Hnd]. rewrite map_cons. constructor; [by apply IH|].
  apply Forall_forall. intros h' Hh'. pose proof Hh' as ([s' h''] & -> & Hin)%list_elem_of_fmap.
  rewrite Forall_forall in Hall. pose proof (Hall _ Hin) as Hle. unfold by_hash in Hle. simpl in *.
  assert (h <> h'') by (intros ->; by apply Hh). lia.
Qed.

(** ** JoinMap is a multimap *)

Section refinement.
Context {V : Type} (default : V).

(** What clients do with a map: add a record, add one and take it back because
    its contents did not fit, look a hash up. *)
Inductive jm_op := OpPush (h : Z) (v : V) | OpPushUndo (h : Z) | OpLookup (h : Z).

Definition jm_step (op : jm_op) : M (JoinMap V * answers) (list V) :=
  match op with
  | OpPush h v => r <- map_push default h ;; _ <- map_assign r v ;; mret []
  | OpPushUndo h => _ <- map_push default h ;; _ <- map_setUnused h ;; mret []
  | OpLookup h => slot <- map_lookup h ;; s <- get ;; unwrap OutOfRange (record_list (myArray s.1) slot)
  end.
Fixpoint jm_run (ops : list jm_op) : M (JoinMap V * answers) (list (list V)) :=
  match ops with
  | [] => mret []
  | op :: ops' => out <- jm_step op ;; outs <- jm_run ops' ;; mret (out :: outs)
  end.

(** The multimap: a list of records per hash, in the order they were added. *)
Definition mm_step (a : Z -> list V) (op : jm_op) : (Z -> list V) * list V :=
  match op with
  | OpPush h v => (fun h' => if norm_hash h' =? norm_hash h then a h' ++ [v] else a h', [])
  | OpPushUndo _ => (a, [])
  | OpLookup h => (a, a h)
  end.
Fixpoint mm_run (a : Z -> list V) (ops : list jm_op) : (Z -> list V) * list (list V) :=
  match ops with
  | [] => (a, [])
  | op :: ops' => let '(a', out) := mm_step a op in let '(a'', outs) := mm_run a' ops' in (a'', out :: outs)
  end.

Definition implements (m : JoinMap V) (a : Z -> list V) : Prop :=
  map_ok m /\ forall h, map_view m h = a h.

Lemma jm_step_spec op m a f :
  implements m a ->
  wpx (jm_step op) (fun out s => implements s.1 (mm_step a op).1 /\ out = (mm_step a op).2)
    (fun e s => e = NotEnoughSpace /\ implements s.1 a) (m, f).
Proof.
  intros [Hok Hv]. destruct op as [h v|h|h]; simpl.
  - apply wpx_bind. eapply wpx_mono; [by apply map_push_spec|..].
    + intros r [m1 f1] Hp. simpl in Hp. destruct (map_assign_spec _ _ _ _ _ v f1 Hp) as (m2 & E & Hp2).
      apply wpx_bind. eapply wpx_eq; [exact E|]. apply wpx_mret. simpl. split; [|done]. split.
      * destruct Hp2 as [Hp2 _]. by eapply pushed_ok.
      * intros h'. rewrite (map_pushed_view _ _ _ _ _ h' Hp2), Hv.
        case_bool_decide as E'; [by rewrite E', Z.eqb_refl|]. by rewrite (proj2 (Z.eqb_neq _ _)).
    + intros e s (-> & ? & Hs & _). split; [done|]. split; [done|]. intros h'. by rewrite Hs.
  - apply wpx_bind. eapply wpx_mono; [by apply map_push_spec|..].
    + intros r [m1 f1] Hp. simpl in Hp. destruct (map_setUnused_spec _ _ _ _ _ f1 Hp) as (m2 & E & Hok2 & Hv2 & _).
      apply wpx_bind. eapply wpx_eq; [exact E|]. apply wpx_mret. simpl. split; [|done]. split; [done|].
      intros h'. by rewrite Hv2.
    + intros e s (-> & ? & Hs & _). split; [done|]. split; [done|]. intros h'. by rewrite Hs.
  - destruct (map_lookup_eq m f h Hok) as (slot & E & Hr). apply wpx_bind. eapply wpx_eq; [exact E|].
    apply wpx_bind. eapply wpx_eq; [done|]. simpl. rewrite Hr. apply wpx_mret. by rewrite Hv.
Qed.

(** C20: a JoinMap behaves as a multimap from hashes to lists of records: any
    sequence of pushes, of pushes that are taken back and of lookups gives the
    multimap's answers, through all doublings of the table, and if the page
    runs out of space in between it throws NotEnoughSpace and has exactly the
    records of the operations that were completed. *)
Theorem JoinMap_refines_multimap ops m a f :
  implements m a ->
  wpx (jm_run ops) (fun outs s => implements s.1 (mm_run a ops).1 /\ outs = (mm_run a ops).2)
    (fun e s => e = NotEnoughSpace /\ exists k, (k < length ops)%nat /\ implements s.1 (mm_run a (take k ops)).1)
    (m, f).
Proof.
  revert m a f. induction ops as [|op ops IH]; intros m a f Hi; [by apply wpx_mret|].
  simpl. apply wpx_bind. eapply wpx_mono; [by apply jm_step_spec|..].
  - intros out [m1 f1] [Hi1 ->]. simpl in Hi1. apply wpx_bind. destruct (mm_step a op) as [a1 out1] eqn:E. simpl in *.
    specialize (IH m1 a1 f1 Hi1). eapply wpx_mono; [exact IH|..].
    + intros outs s [Hi2 ->]. apply wpx_mret. by destruct (mm_run a1 ops).
    + intros e s (-> & k & Hk & Hi2). split; [done|]. exists (S k). split; [lia|]. simpl. rewrite E.
      by destruct (mm_run a1 (take k ops)).
  - intros e s [-> Hi1]. split; [done|]. exists 0%nat. split; [lia|done].
Qed.

Lemma JoinMap_new_implements : implements JoinMap_new (fun _ => []).
Proof. split; [apply JoinMap_new_ok|]. apply JoinMap_new_view. Qed.

(** C22: a loop over a JoinMap ends, and visits every hash that has records
    exactly once, in ascending order, each with all its records. *)
Theorem JoinMap_iteration {S} (p : JoinPairArray V) (body : nat -> M S unit) :
  jpa_ok p ->
  exists visits : list (nat * Z),
    (forall s, for_each_entry p body s = for_each (map fst visits) body s) /\
    StronglySorted Z.lt (map snd visits) /\
    (forall h, norm_hash h ∈ map snd visits <-> view p h <> []) /\
    (forall slot h, (slot, h) ∈ visits -> getHash p slot = h /\ record_list p slot = Some (view p h)).
Proof.
  intros H. exists (order p). split_and!.
  - intros s. apply for_each_entry_eq.
  - apply sorted_ascending; [by apply order_NoDup|apply order_sorted].
  - intros h. split.
    + intros ([s h'] & E & Hin)%list_elem_of_fmap. simpl in E. destruct (order_records p s h' H Hin) as (_ & Hn & _ & Hne).
      rewrite (view_norm p h h'); [done|]. by rewrite E, Hn.
    + intros Hne. destruct (order_complete p h H Hne) as [s Hs]. apply list_elem_of_fmap. by exists (s, norm_hash h).
  - intros s h Hin. by destruct (order_records p s h H Hin) as (? & _ & ? & _).
Qed.

(** Doubling a table keeps the records of every hash, makes room for at
    least one more entry, and, if there is no space for the new table, leaves
    the old one untouched. *)
Theorem doubleArray_correct (p : JoinPairArray V) f :
  jpa_ok p ->
  wpx (doubleArray default)
    (fun q s => s.1 = p /\ jpa_ok q /\ isOverFull q = false /\ forall h, view q h = view p h)
    (fun e s => e = NotEnoughSpace /\ s.1 = p) (p, f).
Proof.
  intros H. eapply wpx_mono; [by apply doubleArray_spec| |done].
  intros q s (? & ? & Hlt & ?). split_and!; [done|done| |done]. unfold isOverFull. by apply Z.leb_gt.
Qed.
End refinement.

Lemma JoinMap_refines_multimap_witness :
  wpx (jm_run 0 [OpPush 5 10; OpPush 9 11; OpPushUndo 5; OpPush 5 12; OpLookup 5])
    (fun outs s => implements s.1 (mm_run (fun _ => []) [OpPush 5 10; OpPush 9 11; OpPushUndo 5; OpPush 5 12; OpLookup 5]).1 /\
       outs = [[]; []; []; []; [10; 12]])
    (fun e s => e = NotEnoughSpace /\ exists k, (k < 5)%nat /\
       implements s.1 (mm_run (fun _ => []) (take k [OpPush 5 10; OpPush 9 11; OpPushUndo 5; OpPush 5 12; OpLookup 5])).1)
    (JoinMap_new, [true; true]).
Proof.
  apply (JoinMap_refines_multimap 0 [OpPush 5 10; OpPush 9 11; OpPushUndo 5; OpPush 5 12; OpLookup 5]
    JoinMap_new (fun _ => [])).
  apply JoinMap_new_implements.
Defined.

Definition two_entries : JoinPairArray Z :=
  match jm_run 0 [OpPush 9 11; OpPush 5 10] (JoinMap_new, []) with
  | Ok _ (m, _) => myArray m
  | _ => JoinPairArray_new 2
  end.
Lemma two_entries_ok : jpa_ok two_entries.
Proof.
  assert (H : wpx (jm_run 0 [OpPush 9 11; OpPush 5 10]) (fun _ s => map_ok s.1) (fun e s => map_ok s.1) (JoinMap_new, [])).
  { unfold jm_run. apply wpx_bind. eapply wpx_mono; [apply jm_step_spec, JoinMap_new_implements| |by intros e s (_ & ? & _)].
    intros o [m f] [Hi _]. apply wpx_bind, wpx_bind. eapply wpx_mono; [by apply jm_step_spec| |by intros e s (_ & ? & _)].
    intros o2 s [[? _] _]. by apply wpx_mret, wpx_mret. }
  unfold two_entries, wpx in *. destruct (jm_run _ _ _) as [? []|? []|[]| |]; try done; apply JoinMap_new_ok.
Qed.

Lemma JoinMap_iteration_witness (body := fun i : nat => modify (cons i)) :
  exists visits : list (nat * Z),
    (forall s, for_each_entry two_entries body s = for_each (map fst visits) body s) /\
    StronglySorted Z.lt (map snd visits) /\
    (forall h, norm_hash h ∈ map snd visits <-> view two_entries h <> []) /\
    (forall slot h, (slot, h) ∈ visits -> getHash two_entries slot = h /\ record_list two_entries slot = Some (view two_entries h)).
Proof. apply (JoinMap_iteration two_entries body). apply two_entries_ok. Defined.

Lemma doubleArray_correct_witness :
  wpx (doubleArray 0)
    (fun q s => s.1 = two_entries /\ jpa_ok q /\ isOverFull q = false /\ forall h, view q h = view two_entries h)
    (fun e s => e = NotEnoughSpace /\ s.1 = two_entries) (two_entries, []).
Proof. apply (doubleArray_correct 0 two_entries). apply two_entries_ok. Defined.

Class Multimap {T V R : Type} (norm : Z -> Z)
    (count : Z -> M (T * answers) Z) (push : V -> Z -> M (T * answers) R)
    (deref : R -> M (T * answers) V) (assign : R -> V -> M (T * answers) unit)
    (setUnused : Z -> M (T * answers) unit)
    (ok : T -> Prop) (view : T -> Z -> list V) (tag : T -> Z)
    (pushed : T -> T -> Z -> R -> V -> Prop) : Prop := {
  (** Counting needs no space and never fails. *)
  mm_count m f h : ok m -> count h (m, f) = Ok (Z.of_nat (length (view m h))) (m, f);
  (** A push that finds no space leaves the records as they were. *)
  mm_push d m h f : ok m ->
    wpx (push d h) (fun r s => pushed m s.1 h r d)
      (fun e s => e = NotEnoughSpace /\ ok s.1 /\ tag s.1 = tag m /\ forall h', view s.1 h' = view m h') (m, f);
  mm_deref m0 m h r v f : pushed m0 m h r v -> deref r (m, f) = Ok v (m, f);
  mm_assign m0 m h r v v' f : pushed m0 m h r v ->
    exists m', assign r v' (m, f) = Ok tt (m', f) /\ pushed m0 m' h r v';
  (** Taking back the record pushed last. *)
  mm_undo m0 m h r v f : pushed m0 m h r v ->
    exists m', setUnused h (m, f) = Ok tt (m', f) /\ ok m' /\ tag m' = tag m0 /\
      forall h', view m' h' = view m0 h';
  (** Nothing is taken back of a hash without records. *)
  mm_undo_absent m h f : ok m -> view m h = [] -> setUnused h (m, f) = Ok tt (m, f);
  mm_pushed_ok m0 m h r v : pushed m0 m h r v -> ok m /\ tag m = tag m0;
  mm_pushed_view m0 m h r v h' : pushed m0 m h r v ->
    view m h' = if bool_decide (norm h' = norm h) then view m0 h' ++ [v] else view m0 h';
  mm_view_norm m h h' : norm h = norm h' -> view m h = view m h'
}.

Section join_map.
Context {V : Type}.

Lemma deref_spec (p0 p : JoinPairArray V) me r v f :
  pushed p0 p me r v -> deref r (p, f) = Ok v (p, f).
Proof.
  intros [s w H Hf Hs Hrem Hv|s x i o w H Hf Hs Hk Hi Ho Hv]; unfold deref, bind, arr, get; simpl.
  - by rewrite Hs.
  - rewrite (overflow_at_eq _ _ _ _ p Ho). simpl. by rewrite list_lookup_middle.
Qed.

#[export] Instance JoinMap_Multimap :
  Multimap norm_hash (@map_count V) map_push map_deref map_assign map_setUnused
    map_ok map_view joinHashValue map_pushed.
Proof.
  split.
  - intros. by apply map_count_eq.
  - intros d m h f H. eapply wpx_mono; [by apply map_push_spec|done|].
    intros e s (-> & ? & ? & ?). done.
  - intros m0 m h r v f [H _]. unfold map_deref, on_array, zoom. rewrite (deref_spec _ _ _ _ _ f H). by destruct m.
  - intros. by eapply map_assign_spec.
  - intros m0 m h r v f H. destruct (map_setUnused_spec _ _ _ _ _ f H) as (m' & E & ? & ? & ?). eauto.
  - intros. by apply map_setUnused_absent.
  - intros m0 m h r v [H Hj]. split; [by eapply pushed_ok|done].
  - intros. by eapply map_pushed_view.
  - intros. by apply view_norm.
Qed.
End join_map.
