(* ===== verification/JoinTuple.v ===== *)
(** Join tuples: the columns of a tuple set packed into one record and unpacked
    again, pdb/src/pipeline/headers/JoinTuple.h and JoinTupleSingleton.h, and the
    proof that packed rows come back. *)

From stdpp Require Import list sorting.
From S2P Require Import Prelude TupleSet TupleSetOwnership Allocation SinkState JoinPairArray Multimap.

Open Scope Z_scope.

(** ** Tuple types and tuples *)

(** [IsAbstract]: an abstract class is stored through a handle, any other
    class by value. *)
Record TupleField := mkField { f_class : string; f_abstract : bool }.
Abbreviation RHSType := (list TupleField).

(** One datum per field: a handle, possibly null, or an object. *)
Abbreviation row := (list (option Z)).

(** [default_object]: what the default constructor of a class makes. *)
Definition default_field (default_object : string -> Z) (f : TupleField) : option Z :=
  if f_abstract f then None else Some (default_object (f_class f)).
Definition default_row (default_object : string -> Z) (ty : RHSType) : row :=
  map (default_field default_object) ty.

(** The column a field is packed from and unpacked to. *)
Definition field_col (f : TupleField) : ColType := ColHandle (f_class f).
Definition handle_of (v : val) : option Z := match v with VHandle h => h | _ => None end.

(** ** Columns of a tuple set for the fields *)

Definition allocate (f : TupleField) (processMe : tsid) (where_ : Z) : M mem addr :=
  me <- new_col (field_col f) [] ;;
  _ <- addColumn processMe where_ (field_col f) me true ;;
  mret me.

(** [putUsHere] is the list of the columns created. *)
Fixpoint createCols (ty : RHSType) (processMe : tsid) (offset : Z) (positions : list Z)
    : M mem (list (option addr)) :=
  match ty with
  | [] => mret []
  | f :: ty' =>
      match positions with
      | p :: positions' =>
          a <- allocate f processMe (offset + p) ;;
          us <- createCols ty' processMe offset positions' ;;
          mret (Some a :: us)
      | [] => ub OutOfRange
      end
  end.

(** What [copyFrom] reads: [out = *in] dereferences the handle, [out = in]
    copies it. *)
Definition copyFrom_value (f : TupleField) (input : option addr) (whichPos : nat) : M mem (option Z) :=
  me <- read_as (field_col f) input ;;
  v <- unwrap OutOfRange (me !! whichPos) ;;
  match f_abstract f, handle_of v with
  | false, None => ub NullDeref
  | _, h => mret h
  end.

(** [copyTo]: a handle to the datum goes to a row that is there already, or to
    a new one. *)
Definition copyTo (f : TupleField) (datum : option Z) (input : option addr) (whichPos : nat) : M mem unit :=
  me <- read_as (field_col f) input ;;
  if (length me <=? whichPos)%nat
  then write_col input (field_col f) (me ++ [VHandle datum])
  else write_col input (field_col f) (<[whichPos := VHandle datum]> me).

(** [eraseEnd] and [truncate] of one column. *)
Definition eraseEnd_col (f : TupleField) (input : option addr) (i : nat) : M mem unit :=
  valColumn <- read_as (field_col f) input ;;
  write_col input (field_col f) (vec_resize (VHandle None) i valColumn).
Definition truncate_col (f : TupleField) (input : option addr) (i : nat) : M mem unit :=
  erase_prefix (field_col f) input i.

(** The template recursions over the fields and the array [us]. *)
Fixpoint unpack (ty : RHSType) (arg : row) (whichPosInTupleSet : nat) (us : list (option addr)) : M mem unit :=
  match ty, arg, us with
  | [], _, _ => mret tt
  | f :: ty', d :: arg', u :: us' =>
      _ <- copyTo f d u whichPosInTupleSet ;; unpack ty' arg' whichPosInTupleSet us'
  | _, _, _ => ub OutOfRange
  end.
Fixpoint eraseEnd (ty : RHSType) (i : nat) (us : list (option addr)) : M mem unit :=
  match ty, us with
  | [], _ => mret tt
  | f :: ty', u :: us' => _ <- eraseEnd_col f u i ;; eraseEnd ty' i us'
  | _, _ => ub OutOfRange
  end.
Fixpoint truncate (ty : RHSType) (i : nat) (us : list (option addr)) : M mem unit :=
  match ty, us with
  | [], _ => mret tt
  | f :: ty', u :: us' => _ <- truncate_col f u i ;; truncate ty' i us'
  | _, _ => ub OutOfRange
  end.

(** ** Packing a row into a record of a hash table *)

Abbreviation join_state := (sink_state (JoinMap row)).
Abbreviation JS := (M (join_state * answers)).

(** [copyFrom] into field [j] of the record [arg] of map [k]; copying the
    object may need space. *)
Definition copyFrom (f : TupleField) (k : nat) (arg : jref) (j : nat) (input : option addr)
    (whichPos : nat) : JS unit :=
  v <- on_mem (copyFrom_value f input whichPos) ;;
  _ <- alloc ;;
  on_map k (r <- map_deref arg ;; map_assign arg (<[j := v]> r)).

Fixpoint pack_from (ty : RHSType) (k : nat) (arg : jref) (whichPosInTupleSet whichVec : nat)
    (us : list (option addr)) : JS unit :=
  match ty with
  | [] => mret tt
  | f :: ty' =>
      u <- unwrap OutOfRange (us !! whichVec) ;;
      _ <- copyFrom f k arg whichVec u whichPosInTupleSet ;;
      pack_from ty' k arg whichPosInTupleSet (S whichVec) us
  end.
Definition pack (ty : RHSType) (k : nat) (arg : jref) (whichPosInTupleSet : nat)
    (us : list (option addr)) : JS unit :=
  pack_from ty k arg whichPosInTupleSet 0 us.

(** ** Choosing the tuple type *)

(** [findType] blanks the name it finds. *)
Definition findType (findMe : string) (typeList : list string) : option (nat * list string) :=
  (fun i => (i, <[i := EmptyString]> typeList)) <$> find_pos findMe typeList.

(** The classes of the template's parameter pack, with the type built so far
    in front ([In1] when it is a JoinTuple, none before the first match).  The
    positions are pushed after the recursive call, so the last class found
    comes first, as it does in the tuple; [None] is the call of exit.  The
    name put back is [name] of the class. *)
Fixpoint findCorrectJoinTuple (name : TupleField -> string) (in1 : RHSType) (rest : list TupleField)
    (typeList : list string) (whereEveryoneGoes : list Z) : option (RHSType * list string * list Z) :=
  match rest with
  | [] => match in1 with [] => None | _ => Some (in1, typeList, whereEveryoneGoes) end
  | c :: rest' =>
      match findType (name c) typeList with
      | Some (pos, typeList') =>
          '(ret, tl, w) ← findCorrectJoinTuple name (c :: in1) rest' typeList' whereEveryoneGoes;
          Some (ret, <[pos := name c]> tl, w ++ [Z.of_nat pos])
      | None => findCorrectJoinTuple name in1 rest' typeList whereEveryoneGoes
      end
  end.

(** ** The columns of the fields *)

Definition handle_col (h : list (option Z)) : list val := map VHandle h.

(** [us] are the vectors of the fields; the vector of a field holds the handles
    [h], as many as there are rows, none of them null when the tuple holds the
    object by value. *)
Inductive fields (m : mem) (n : nat) : RHSType -> list addr -> list (list (option Z)) -> Prop :=
| fields_nil : fields m n [] [] []
| fields_cons f ty a us h hs :
    cols m !! a = Some (mkColumn (field_col f) (handle_col h)) -> length h = n ->
    (f_abstract f = false -> Forall is_Some h) ->
    fields m n ty us hs -> fields m n (f :: ty) (a :: us) (h :: hs).

(** Row [i] of the columns. *)
Definition row_at (hs : list (list (option Z))) (i : nat) : row := map (fun h => h !!! i) hs.

Lemma fields_length m n ty us hs : fields m n ty us hs -> length ty = length us /\ length hs = length us.
Proof. induction 1; naive_solver. Qed.

Lemma fields_mono m m' n ty us hs :
  (forall a, a ∈ us -> cols m' !! a = cols m !! a) -> fields m n ty us hs -> fields m' n ty us hs.
Proof.
  intros Ha H. induction H as [|f ty a us h hs Hc Hl Hn H IH]; [constructor|].
  constructor; [|done|done|]; [rewrite Ha; [done|by left]|].
  apply IH. intros b Hb. apply Ha. by right.
Qed.

(** ** pack *)

(** Map [k] is [m0] with the record [v] under [h] added; everything else is as
    in [s0]. *)
Definition packing (s0 : join_state) (k : nat) (m0 : JoinMap row) (h : Z) (r : jref) (v : row)
    (s : join_state) : Prop :=
  exists m, s = set_s_maps (<[k := m]> (s_maps s0)) s0 /\ (k < length (s_maps s0))%nat /\
    map_pushed m0 m h r v.

Lemma copyFrom_value_eq m f a h i :
  cols m !! a = Some (mkColumn (field_col f) (handle_col h)) -> (i < length h)%nat ->
  (f_abstract f = false -> Forall is_Some h) ->
  copyFrom_value f (Some a) i m = Ok (h !!! i) m.
Proof.
  intros Ha Hi Hn. unfold copyFrom_value. rewrite (bind_Ok _ _ _ _ _ (read_as_eq _ _ _ _ Ha)).
  destruct (lookup_lt_is_Some_2 h i Hi) as [x Hx]. rewrite (list_lookup_total_correct _ _ _ Hx).
  assert (E : handle_col h !! i = Some (VHandle x)) by (unfold handle_col; by rewrite list_lookup_fmap, Hx).
  rewrite E. unfold bind. simpl. destruct (f_abstract f); [done|]. destruct x as [x|]; [done|].
  specialize (Hn eq_refl). rewrite Forall_forall in Hn.
  destruct (Hn None) as [? [=]]. by eapply list_elem_of_lookup_2.
Qed.

Lemma copyFrom_spec f s0 k m0 key r v s a h j i fs :
  packing s0 k m0 key r v s ->
  cols (s_mem s0) !! a = Some (mkColumn (field_col f) (handle_col h)) -> (i < length h)%nat ->
  (f_abstract f = false -> Forall is_Some h) ->
  wpx (copyFrom f k r j (Some a) i) (fun _ s' => packing s0 k m0 key r (<[j := h !!! i]> v) s'.1)
    (fun e s' => e = NotEnoughSpace /\ packing s0 k m0 key r v s'.1) (s, fs).
Proof.
  intros (m & -> & Hk & Hp) Ha Hi Hn. unfold copyFrom. apply wpx_bind.
  eapply wpx_eq; [apply on_mem_eq; simpl; by apply copyFrom_value_eq|].
  apply wpx_bind, wpx_alloc; intros f'; [|by split; [|exists m]].
  apply (on_map_wpx _ _ _ _ _ _ m); [by apply list_lookup_insert_eq|].
  apply wpx_bind. eapply wpx_eq; [by eapply mm_deref|].
  destruct (mm_assign _ _ _ _ _ (<[j := h !!! i]> v) f' Hp) as (m' & E & Hp').
  eapply wpx_eq; [exact E|]. exists m'. split_and!; [|done|done]. simpl.
  unfold set_s_maps, set_s_mem. simpl. by rewrite list_insert_insert_eq.
Qed.

Lemma pack_from_spec s0 k m0 key r i n ty us hs pre d todo s fs :
  fields (s_mem s0) n ty us hs -> (i < n)%nat ->
  length d = length pre -> length todo = length ty ->
  packing s0 k m0 key r (d ++ todo) s ->
  wpx (pack_from ty k r i (length pre) (pre ++ map Some us))
    (fun _ s' => packing s0 k m0 key r (d ++ row_at hs i) s'.1)
    (fun e s' => e = NotEnoughSpace /\ exists v, packing s0 k m0 key r v s'.1) (s, fs).
Proof.
  intros Hf Hi. revert pre d todo s fs.
  induction Hf as [|f ty a us h hs Ha Hl Hn Hf IH]; intros pre d todo s fs Hd Ht Hp; simpl.
  { destruct todo; [|done]. by apply wpx_mret. }
  destruct todo as [|x todo]; [done|]. simpl in Ht.
  rewrite list_lookup_middle by done. simpl. apply wpx_bind, wpx_mret, wpx_bind.
  eapply wpx_mono; [eapply copyFrom_spec; [done|done|lia|done]| |].
  - intros [] [s' f'] Hp'. simpl in Hp'.
    rewrite <- Hd, insert_app_r_alt, Nat.sub_diag in Hp' by lia. simpl in Hp'.
    replace (S (length pre)) with (length (pre ++ [Some a])) by (rewrite length_app; simpl; lia).
    replace (pre ++ Some a :: map Some us) with ((pre ++ [Some a]) ++ map Some us) by by rewrite <- app_assoc.
    eapply wpx_mono; [apply (IH _ (d ++ [h !!! i]) todo)|..]; [|lia| |simpl|done].
    + rewrite !length_app. simpl. lia.
    + by rewrite <- app_assoc.
    + intros _ s2. by rewrite <- app_assoc.
  - intros e s' [-> H]. eauto.
Qed.

Lemma pack_spec s0 k m0 key r i n ty us hs v s fs :
  fields (s_mem s0) n ty us hs -> (i < n)%nat -> length v = length ty ->
  packing s0 k m0 key r v s ->
  wpx (pack ty k r i (map Some us)) (fun _ s' => packing s0 k m0 key r (row_at hs i) s'.1)
    (fun e s' => e = NotEnoughSpace /\ exists v', packing s0 k m0 key r v' s'.1) (s, fs).
Proof. intros. by eapply (pack_from_spec _ _ _ _ _ _ _ _ _ _ [] []). Qed.

(** ** truncate *)

Lemma fields_cut m m' n ty us hs i :
  fields m n ty us hs ->
  (forall a t l, a ∈ us -> cols m !! a = Some (mkColumn t l) -> cols m' !! a = Some (mkColumn t (drop i l))) ->
  fields m' (n - i) ty us (map (drop i) hs).
Proof.
  intros Hf Hc.
  assert (H : forall us', (forall a, a ∈ us' -> a ∈ us) -> forall ty' hs', fields m n ty' us' hs' ->
    fields m' (n - i) ty' us' (map (drop i) hs')); [|by eapply H].
  intros us' Hsub ty' hs' H. induction H as [|f ty1 a us1 h hs1 Ha Hl Hn H IH]; [constructor|].
  simpl. constructor.
  - unfold handle_col. rewrite <- skipn_map. apply Hc; [apply Hsub; by left|done].
  - rewrite length_drop. lia.
  - intros Hab. by apply Forall_drop, Hn.
  - apply IH. intros b Hb. apply Hsub. by right.
Qed.

Lemma truncate_cut m n ty us hs i :
  NoDup us -> (i <= n)%nat -> fields m n ty us hs ->
  exists m', truncate ty i (map Some us) m = Ok tt m' /\ cut i us m m'.
Proof.
  intros Hnd Hi Hf. revert m Hf Hnd.
  enough (H : forall m0 m, fields m0 n ty us hs -> NoDup us ->
    (forall a, a ∈ us -> cols m !! a = cols m0 !! a) ->
    exists m', truncate ty i (map Some us) m = Ok tt m' /\ cut i us m m') by (intros; by eapply H).
  intros m0 m Hf. revert m. induction Hf as [|f ty a us h hs Ha Hl Hn Hf IH]; intros m Hnd Hsame.
  { exists m. split; [done|apply cut_nil]. }
  apply NoDup_cons in Hnd as [Hau Hnd].
  destruct (erase_prefix_cut (field_col f) a (handle_col h) i m) as (m1 & E1 & H1).
  { rewrite Hsame; [done|by left]. }
  { unfold handle_col. rewrite length_map. lia. }
  destruct (IH m1 Hnd) as (m2 & E2 & H2).
  { intros b Hb. destruct H1 as (_ & _ & H1). rewrite H1; [apply Hsame; by right|].
    by intros ->%list_elem_of_singleton. }
  exists m2. split; [|by eapply cut_cons].
  simpl. unfold truncate_col. by rewrite (bind_Ok _ _ _ _ _ E1).
Qed.

(** ** Which tuple type is chosen *)

Section choose.
Context (name : TupleField -> string).

Lemma findType_Some s tl pos tl' :
  findType s tl = Some (pos, tl') -> tl !! pos = Some s /\ tl' = <[pos := EmptyString]> tl.
Proof.
  unfold findType. destruct (find_pos s tl) as [i|] eqn:E; simpl; [|done].
  intros [= -> <-]. apply find_pos_Some in E as [E _]. done.
Qed.

(** The fields found, outermost first, and their positions. *)
Lemma findCorrectJoinTuple_sound rest in1 tl w ty tl' w' :
  Forall (fun c => name c <> EmptyString) rest ->
  findCorrectJoinTuple name in1 rest tl w = Some (ty, tl', w') ->
  tl' = tl /\ exists fs ps, ty = fs ++ in1 /\ w' = w ++ map Z.of_nat ps /\
    Forall2 (fun f p => tl !! p = Some (name f)) fs ps /\ NoDup ps /\
    Forall (fun f => name f <> EmptyString) fs.
Proof.
  revert in1 tl w ty tl' w'. induction rest as [|c rest IH]; intros in1 tl w ty tl' w' Hne; simpl.
  { intros H. assert (ty = in1 /\ tl' = tl /\ w' = w) as (-> & -> & ->) by (destruct in1; by simplify_eq).
    split; [done|]. exists [], []. simpl. rewrite app_nil_r. split_and!; constructor. }
  apply Forall_cons in Hne as [Hc Hne].
  destruct (findType (name c) tl) as [[pos tl1]|] eqn:Ef; [|by apply IH].
  apply findType_Some in Ef as [Hpos ->]. pose proof (lookup_lt_Some _ _ _ Hpos) as Hlt.
  destruct (findCorrectJoinTuple name (c :: in1) rest (<[pos:=""%string]> tl) w) as [[[ty1 tl2] w1]|] eqn:E;
    simpl; [|done]. intros [= <- <- <-].
  apply IH in E as (-> & fs & ps & -> & -> & HF & Hnd & Hfs); [|done].
  rewrite list_insert_insert_eq. split; [by apply list_insert_id|].
  exists (fs ++ [c]), (ps ++ [pos]). rewrite map_app, <- !app_assoc.
  assert (Hps : pos ∉ ps).
  { intros (k & Hk)%list_elem_of_lookup. destruct (Forall2_lookup_r _ _ _ _ _ HF Hk) as (f & Hf & Hff).
    rewrite list_lookup_insert_eq in Hff by done. simplify_eq.
    rewrite Forall_forall in Hfs. by apply (Hfs f (list_elem_of_lookup_2 _ _ _ Hf)). }
  split_and!; [done|done| | |].
  - apply Forall2_app; [|by repeat constructor].
    apply Forall2_same_length_lookup_2; [by eapply Forall2_length|]. intros k f p Hf Hp.
    pose proof (Forall2_lookup_lr _ _ _ _ _ _ HF Hf Hp) as H. cbv beta in H.
    rewrite list_lookup_insert_ne in H; [done|]. intros ->. by eapply Hps, list_elem_of_lookup_2.
  - apply NoDup_app. split_and!; [done| |apply NoDup_singleton].
    intros x Hx ->%list_elem_of_singleton. done.
  - apply Forall_app. split; [done|by repeat constructor].
Qed.

(** The names not yet blanked are found when the classes have them all. *)
Definition wanted (tl : list string) : list string := filter (fun s => s <> EmptyString) tl.

Lemma wanted_blank tl pos s :
  tl !! pos = Some s -> s <> EmptyString -> wanted tl ≡ₚ s :: wanted (<[pos := EmptyString]> tl).
Proof.
  intros Hp Hs. pose proof (lookup_lt_Some _ _ _ Hp). unfold wanted.
  rewrite insert_take_drop by done. rewrite <- (take_drop_middle _ _ _ Hp) at 1.
  rewrite !filter_app, filter_cons_True by done. rewrite (filter_cons_False _ EmptyString) by naive_solver.
  by rewrite <- Permutation_middle.
Qed.

Lemma findCorrectJoinTuple_finds rest in1 tl w :
  Forall (fun c => name c <> EmptyString) rest ->
  wanted tl ⊆+ map name rest -> (in1 <> [] \/ wanted tl <> []) ->
  exists ty w', findCorrectJoinTuple name in1 rest tl w = Some (ty, tl, w') /\
    length ty = (length (wanted tl) + length in1)%nat /\ length w' = (length w + length (wanted tl))%nat.
Proof.
  revert in1 tl w. induction rest as [|c rest IH]; intros in1 tl w Hne Hsub Hin; simpl.
  { apply submseteq_nil_r in Hsub. rewrite Hsub in Hin |- *. destruct in1 as [|f in1]; [by destruct Hin|].
    exists (f :: in1), w. split_and!; [done|done|simpl; lia]. }
  apply Forall_cons in Hne as [Hc Hne].
  destruct (findType (name c) tl) as [[pos tl1]|] eqn:Ef.
  - apply findType_Some in Ef as [Hpos ->]. pose proof (lookup_lt_Some _ _ _ Hpos) as Hlt.
    pose proof (wanted_blank _ _ _ Hpos Hc) as Hw.
    destruct (IH (c :: in1) (<[pos:=""%string]> tl) w) as (ty & w' & -> & Hty & Hw'); [done| |by left|].
    { rewrite Hw in Hsub. simpl in Hsub. apply submseteq_cons_l in Hsub as (k & Hk & Hsub).
      apply Permutation_cons_inv in Hk. by rewrite Hk. }
    simpl. rewrite list_insert_insert_eq, list_insert_id by done.
    eexists _, _. split; [done|]. rewrite Hw, length_app. simpl in *. lia.
  - unfold findType in Ef. apply fmap_None, find_pos_None in Ef.
    apply IH; [done| |done]. apply submseteq_cons_r in Hsub as [?|(k & Hk & _)]; [done|]. exfalso.
    assert (H : name c ∈ wanted tl) by (rewrite Hk; by left).
    apply list_elem_of_filter in H as [_ H]. done.
Qed.
End choose.

(** findCorrectJoinTuple, given the column types [typeList] of one side of
    a join, all among the classes the join was instantiated with, finds a tuple
    type with one field per column: [whereEveryoneGoes] is a permutation of the
    columns, the column of every field has the field's type, and the type list
    is given back as it was. *)
Theorem findCorrectJoinTuple_correct (name : TupleField -> string) classes typeList :
  Forall (fun c => name c <> EmptyString) classes -> Forall (fun s => s <> EmptyString) typeList ->
  typeList <> [] -> typeList ⊆+ map name classes ->
  exists ty ps,
    findCorrectJoinTuple name [] classes typeList [] = Some (ty, typeList, map Z.of_nat ps) /\
    ps ≡ₚ seq 0 (length typeList) /\ Forall2 (fun f p => typeList !! p = Some (name f)) ty ps.
Proof.
  intros Hne Htl Hnil Hsub.
  assert (Hw : wanted typeList = typeList).
  { clear -Htl. unfold wanted. induction Htl as [|s tl Hs Htl IH]; [done|].
    rewrite filter_cons_True by done. by f_equal. }
  destruct (findCorrectJoinTuple_finds name classes [] typeList []) as (ty & w & E & Hlen & _);
    [done|by rewrite Hw|right; by rewrite Hw|].
  pose proof (findCorrectJoinTuple_sound _ _ _ _ _ _ _ _ Hne E) as (_ & fs & ps & -> & -> & HF & Hnd & _).
  rewrite app_nil_r, Hw, Nat.add_0_r in *. exists fs, ps. split_and!; [done| |done].
  apply NoDup_Permutation_bis; [by apply NoDup_ListNoDup| |].
  - rewrite length_seq, <- (Forall2_length _ _ _ HF). lia.
  - intros p Hp%list_elem_of_In. apply list_elem_of_In, elem_of_seq.
    apply list_elem_of_lookup in Hp as [k Hk]. destruct (Forall2_lookup_r _ _ _ _ _ HF Hk) as (f & _ & Hf).
    apply lookup_lt_Some in Hf. lia.
Qed.

Lemma findCorrectJoinTuple_correct_witness :
  exists ty ps,
    findCorrectJoinTuple f_class [] [mkField "A" false; mkField "B" true; mkField "C" false] ["C"; "A"] [] =
      Some (ty, ["C"; "A"]%string, map Z.of_nat ps) /\
    ps ≡ₚ seq 0 2 /\ Forall2 (fun f p => ["C"; "A"]%string !! p = Some (f_class f)) ty ps.
Proof.
  apply (findCorrectJoinTuple_correct f_class [mkField "A" false; mkField "B" true; mkField "C" false] ["C"; "A"]%string).
  - by repeat constructor.
  - by repeat constructor.
  - done.
  - eapply bool_decide_eq_true_1. vm_compute. reflexivity.
Defined.
