(* ===== verification/JoinSinks.v ===== *)
(** The two sinks of a join: JoinSink, which packs the rows of a tuple set into
    the hash tables of their partitions, and BroadcastJoinCombinerSink, which
    merges the tables of one worker (pdb/src/pipeline/headers/sinks/JoinSink.h
    and BroadcastJoinCombinerSink.h), and that they write every row once. *)

From stdpp Require Import list sorting.
From S2P Require Import Prelude AtomicComputation TupleSet TupleSetOwnership TupleSetSpec Executors Allocation SinkState JoinPairArray Multimap JoinTuple.

Open Scope Z_scope.

(** A vector of [n] new maps with their numbers, [createNewOutputContainer]:
    making the vector, each map, and each [push_back] take space.  The row
    counter [i] of the code is an [auto] from [0], an [int]. *)
Definition new_maps (n : nat) : M (list (JoinMap row) * answers) unit :=
  _ <- alloc ;;
  for_each (seq 0 n) (fun i =>
    _ <- alloc ;; _ <- alloc ;;
    modify (fun '(l, f) => (l ++ [setHashValue (Z.of_nat i) JoinMap_new], f))).

(** ** JoinSink *)

Module JoinSink.
Section sink.
Context (default_object : string -> Z).
Record JoinSink := mkJoinSink {
  keyAtt : Z;
  useTheseAtts : list Z;
  whereEveryoneGoes : list Z;
  numPartitions : Z
}.

Definition JoinSink_new (inputSchema attsToOperateOn additionalAtts : TupleSpec)
    (whereEveryoneGoes : list Z) (numPartitions : Z) : M mem JoinSink :=
  keyAtt <- first_match inputSchema attsToOperateOn ;;
  mret (mkJoinSink keyAtt (match_ inputSchema additionalAtts) whereEveryoneGoes numPartitions).

Definition createNewOutputContainer (js : JoinSink) : M (list (JoinMap row) * answers) unit :=
  new_maps (Z.to_nat (numPartitions js)).

(** [columns[counter]]: the address of the vector under the column number. *)
Definition find_column (js : JoinSink) (input : tsid) (w : Z) : M mem (option addr) :=
  if w <? 0 then ub OutOfRange
  else
    att <- unwrap OutOfRange (useTheseAtts js !! Z.to_nat w) ;;
    e <- column_at input att ;;
    mret e.1.
Fixpoint find_columns (js : JoinSink) (input : tsid) (ws : list Z) : M mem (list (option addr)) :=
  match ws with
  | [] => mret []
  | w :: ws' =>
      c <- find_column js input w ;;
      cs <- find_columns js input ws' ;;
      mret (c :: cs)
  end.

(** [keyColumn[i]], through the reference to the key column. *)
Definition key_at (keyColumn : option addr) (i : nat) : M mem Z :=
  keys <- read_as ColSize keyColumn ;;
  v <- unwrap OutOfRange (keys !! i) ;;
  match v with VSize n => mret n | _ => ub BadCast end.

(** What every handler does before it throws the exception on: the rows that
    were written leave the input. *)
Definition drop_processed (ty : RHSType) (keyColumn : option addr) (columns : list (option addr))
    (i : nat) : JS unit :=
  _ <- on_mem (truncate ty i columns) ;;
  on_mem (erase_prefix ColSize keyColumn i).
Definition write_row (js : JoinSink) (ty : RHSType) (keyColumn : option addr)
    (columns : list (option addr)) (i : nat) : JS unit :=
  key <- on_mem (key_at keyColumn i) ;;
  if numPartitions js =? 0 then ub DivisionByZero
  else
    let whichMap := Z.to_nat (key mod numPartitions js) in
    n <- on_map whichMap (map_count key) ;;
    if n =? 0 then
      on_full (temp <- on_map whichMap (map_push (default_row default_object ty) key) ;;
               pack ty whichMap temp i columns)
        (_ <- on_map whichMap (map_setUnused key) ;;
         drop_processed ty keyColumn columns i)
    else
      temp <- on_full (on_map whichMap (map_push (default_row default_object ty) key))
                (drop_processed ty keyColumn columns i) ;;
      on_full (pack ty whichMap temp i columns)
        (_ <- on_map whichMap (map_setUnused key) ;;
         drop_processed ty keyColumn columns i).

(** The rows are counted in an [int]; a tuple set has far fewer. *)
Definition writeOut (js : JoinSink) (ty : RHSType) (input : tsid) : JS unit :=
  columns <- on_mem (find_columns js input (whereEveryoneGoes js)) ;;
  e <- on_mem (column_at input (keyAtt js)) ;;
  keys <- on_mem (read_as ColSize e.1) ;;
  for_each (seq 0 (length keys)) (write_row js ty e.1 columns).

Definition writeOutPage (js : JoinSink) : JS unit :=
  throw (RuntimeError "Join sink can not write out a page.").
End sink.
End JoinSink.

(** ** BroadcastJoinCombinerSink *)

Module BroadcastCombiner.
Section combiner.
Context (default_object : string -> Z).
Record BroadcastJoinCombinerSink := mkCombiner {
  numNodes : nat;
  numThreads : nat;
  workerID : nat
}.

Definition createNewOutputContainer (bc : BroadcastJoinCombinerSink) : M (JoinMap row * answers) unit :=
  _ <- alloc ;;
  modify (fun '(_, f) => (setHashValue (Z.of_nat (workerID bc)) JoinMap_new, f)).

Definition writeOut (bc : BroadcastJoinCombinerSink) : M (JoinMap row * answers) unit :=
  throw (RuntimeError "Join sink can not write out a page.").

(** One record, [RHSType &temp = myMap.push(hash); temp = records[i]]; copying
    it may need space.  [NotEnoughSpace] is thrown on. *)
Definition copy_record (ty : RHSType) (hash : Z) (r : row) : M (JoinMap row * answers) unit :=
  temp <- map_push (default_row default_object ty) hash ;;
  _ <- alloc ;;
  map_assign temp r.

(** The records [0, size()) of one slot of the map that is merged. *)
Definition merge_slot (ty : RHSType) (mergeMe : JoinMap row) (slot : nat) : M (JoinMap row * answers) unit :=
  let hash := getHash (myArray mergeMe) slot in
  for_each (seq 0 (Z.to_nat (size (myArray mergeMe) slot)))
    (fun i => r <- unwrap OutOfRange (record_at (myArray mergeMe) slot i) ;;
              copy_record ty hash r).

Definition merge_map (ty : RHSType) (mergeMe : JoinMap row) : M (JoinMap row * answers) unit :=
  for_each_entry (myArray mergeMe) (merge_slot ty mergeMe).

(** [page] is the vector of maps the page's record holds. *)
Definition writeOutPage (bc : BroadcastJoinCombinerSink) (ty : RHSType) (page : list (JoinMap row))
    : M (JoinMap row * answers) unit :=
  for_each (seq 0 (numNodes bc)) (fun offset =>
    let joinMapIndex := (offset * numThreads bc + workerID bc)%nat in
    mergeMe <- unwrap OutOfRange (page !! joinMapIndex) ;;
    merge_map ty mergeMe).
End combiner.
End BroadcastCombiner.

(** ** The records that belong to a hash of a partition *)

(** Rows are pairs of a hash and a tuple; of [rows], those of partition [k] of
    [P] with the hash [h], in order. *)
Definition belongs (P : Z) (k : nat) (h : Z) (x : Z * row) : bool :=
  (Z.to_nat (x.1 mod P) =? k)%nat && (norm_hash h =? norm_hash x.1).
Definition sent (P : Z) (rows : list (Z * row)) (k : nat) (h : Z) : list row :=
  omap (fun x => if belongs P k h x then Some x.2 else None) rows.

(** The maps [l] are the maps [l0] with the rows added. *)
Record written (P : Z) (l0 : list (JoinMap row)) (rows : list (Z * row)) (l : list (JoinMap row)) : Prop := {
  wr_ok k m : l !! k = Some m -> map_ok m;
  wr_tags : map joinHashValue l = map joinHashValue l0;
  wr_view k m m0 h : l !! k = Some m -> l0 !! k = Some m0 -> map_view m h = map_view m0 h ++ sent P rows k h
}.

Lemma written_nil P l : (forall k m, l !! k = Some m -> map_ok m) -> written P l [] l.
Proof. intros H. split; [done|done|]. intros. simplify_eq. simpl. by rewrite app_nil_r. Qed.

Lemma written_length P l0 rows l : written P l0 rows l -> length l = length l0.
Proof. intros H. rewrite <- (length_map joinHashValue), (wr_tags _ _ _ _ H). apply length_map. Qed.

Lemma sent_snoc P rows x k h :
  sent P (rows ++ [x]) k h = sent P rows k h ++ (if belongs P k h x then [x.2] else []).
Proof. unfold sent. rewrite omap_app. simpl. by destruct (belongs P k h x). Qed.

Lemma sent_app P rows rows' k h : sent P (rows ++ rows') k h = sent P rows k h ++ sent P rows' k h.
Proof. apply omap_app. Qed.

Lemma tags_insert (l : list (JoinMap row)) k m m' :
  l !! k = Some m -> joinHashValue m' = joinHashValue m ->
  map joinHashValue (<[k := m']> l) = map joinHashValue l.
Proof.
  intros Hk Hj. apply list_eq. intros i. rewrite !list_lookup_fmap.
  destruct (decide (i = k)) as [->|Hne]; [|by rewrite list_lookup_insert_ne].
  rewrite list_lookup_insert_eq by (by eapply lookup_lt_Some). rewrite Hk. simpl. by rewrite Hj.
Qed.

Section step.
Context (P : Z) (l0 : list (JoinMap row)).

(** A map may change as long as its records do not. *)
Lemma written_same rows l k m m' :
  written P l0 rows l -> l !! k = Some m -> map_ok m' -> joinHashValue m' = joinHashValue m ->
  (forall h, map_view m' h = map_view m h) -> written P l0 rows (<[k := m']> l).
Proof.
  intros H Hk Hok Hj Hv. split.
  - intros i x. destruct (decide (i = k)) as [->|Hne].
    + rewrite list_lookup_insert_eq by (by eapply lookup_lt_Some). by intros [= <-].
    + rewrite list_lookup_insert_ne by done. apply (wr_ok _ _ _ _ H).
  - rewrite <- (wr_tags _ _ _ _ H). by eapply tags_insert.
  - intros i x x0 h. destruct (decide (i = k)) as [->|Hne].
    + rewrite list_lookup_insert_eq by (by eapply lookup_lt_Some). intros [= <-] H0. rewrite Hv.
      by apply (wr_view _ _ _ _ H).
    + rewrite list_lookup_insert_ne by done. apply (wr_view _ _ _ _ H).
Qed.

Lemma written_push rows l key m m' r v :
  written P l0 rows l -> l !! Z.to_nat (key mod P) = Some m -> map_pushed m m' key r v ->
  written P l0 (rows ++ [(key, v)]) (<[Z.to_nat (key mod P) := m']> l).
Proof.
  intros H Hk Hp. destruct (mm_pushed_ok _ _ _ _ _ Hp) as [Hok Hj]. split.
  - intros i x. destruct (decide (i = Z.to_nat (key mod P))) as [->|Hne].
    + rewrite list_lookup_insert_eq by (by eapply lookup_lt_Some). by intros [= <-].
    + rewrite list_lookup_insert_ne by done. apply (wr_ok _ _ _ _ H).
  - rewrite <- (wr_tags _ _ _ _ H). by eapply tags_insert.
  - intros i x x0 h Hi H0. rewrite sent_snoc. unfold belongs. simpl.
    destruct (decide (i = Z.to_nat (key mod P))) as [->|Hne].
    + rewrite list_lookup_insert_eq in Hi by (by eapply lookup_lt_Some). injection Hi as <-.
      rewrite (mm_pushed_view _ _ _ _ _ h Hp), Nat.eqb_refl, (wr_view _ _ _ _ H _ _ _ h Hk H0). simpl.
      case_bool_decide as E.
      * by rewrite E, Z.eqb_refl, app_assoc.
      * rewrite (proj2 (Z.eqb_neq _ _) E). by rewrite app_nil_r.
    + rewrite list_lookup_insert_ne in Hi by done.
      rewrite (proj2 (Nat.eqb_neq _ _)) by done. simpl. rewrite app_nil_r. by apply (wr_view _ _ _ _ H).
Qed.
End step.

(** ** The input of a join sink *)

Definition input_rows (ks : list Z) (hs : list (list (option Z))) : list (Z * row) :=
  imap (fun i k => (k, row_at hs i)) ks.

Record join_input (js : JoinSink.JoinSink) (ty : RHSType) (input : tsid) (m : mem) (ks : list Z)
    (hs : list (list (option Z))) (ka : addr) (us : list addr) : Prop := {
  ji_entry : exists mf, entry m input (JoinSink.keyAtt js) = Some (Some ka, mf);
  ji_keys : cols m !! ka = Some (mkColumn ColSize (map VSize ks));
  ji_fields : fields m (length ks) ty us hs;
  ji_columns : Forall2 (fun w a => exists att mf, 0 <= w /\ JoinSink.useTheseAtts js !! Z.to_nat w = Some att /\
    entry m input att = Some (Some a, mf)) (JoinSink.whereEveryoneGoes js) us;
  ji_NoDup : NoDup us
}.

Lemma find_columns_eq js input ws us m :
  Forall2 (fun w a => exists att mf, 0 <= w /\ JoinSink.useTheseAtts js !! Z.to_nat w = Some att /\
    entry m input att = Some (Some a, mf)) ws us ->
  JoinSink.find_columns js input ws m = Ok (map Some us) m.
Proof.
  induction 1 as [|w a ws us (att & mf & Hw & Hatt & He) H IH]; [done|]. simpl.
  unfold JoinSink.find_column. destruct (Z.ltb_spec w 0); [lia|]. rewrite Hatt. simpl.
  rewrite (bind_Ok _ _ _ (Some a) m); [by rewrite (bind_Ok _ _ _ _ _ IH)|].
  rewrite (bind_Ok _ _ _ att m) by done. by rewrite (bind_Ok _ _ _ _ _ (column_at_eq _ _ _ _ He)).
Qed.

Lemma fields_not_key m n ty us hs ka l :
  fields m n ty us hs -> cols m !! ka = Some (mkColumn ColSize l) -> ka ∉ us.
Proof.
  induction 1 as [|f ty a us h hs Ha Hl Hn H IH]; intros Hk; [by apply not_elem_of_nil|].
  apply not_elem_of_cons. split; [|by apply IH]. intros ->. by simplify_eq.
Qed.

Lemma input_rows_length ks hs : length (input_rows ks hs) = length ks.
Proof. apply length_imap. Qed.

Lemma input_rows_snoc ks hs i k :
  ks !! i = Some k -> take (S i) (input_rows ks hs) = take i (input_rows ks hs) ++ [(k, row_at hs i)].
Proof. intros H. apply take_S_r. unfold input_rows. by rewrite list_lookup_imap, H. Qed.

Lemma row_at_drop m n ty us hs i j :
  fields m n ty us hs -> row_at (map (drop i) hs) j = row_at hs (i + j).
Proof.
  intros _. unfold row_at. rewrite map_map. apply map_ext. intros h.
  by rewrite !list_lookup_total_alt, lookup_drop.
Qed.

(** What is left of the rows is what is left of the columns. *)
Lemma input_rows_drop m n ty us ks hs i :
  fields m n ty us hs -> input_rows (drop i ks) (map (drop i) hs) = drop i (input_rows ks hs).
Proof.
  intros Hf. apply list_eq. intros j. unfold input_rows.
  rewrite lookup_drop, !list_lookup_imap, lookup_drop. destruct (ks !! (i + j)%nat); simpl; [|done].
  by rewrite (row_at_drop _ _ _ _ _ _ _ Hf).
Qed.

(** After [i] rows were dropped, the input is an input again. *)
Lemma join_input_cut js ty input m m' ks hs ka us i :
  join_input js ty input m ks hs ka us -> (i <= length ks)%nat -> cut i (ka :: us) m m' ->
  join_input js ty input m' (drop i ks) (map (drop i) hs) ka us.
Proof.
  intros H Hi Hcut. destruct Hcut as (Hs & Hc & Ho).
  assert (He : forall k, entry m' input k = entry m input k) by (intros k; unfold entry; by rewrite Hs).
  pose proof (ji_keys _ _ _ _ _ _ _ _ H) as Hk.
  split.
  - destruct (ji_entry _ _ _ _ _ _ _ _ H) as [mf E]. exists mf. by rewrite He.
  - rewrite <- skipn_map. apply Hc; [by left|done].
  - rewrite length_drop. eapply (fields_cut m); [apply H|]. intros a t l Ha. apply Hc. by right.
  - eapply Forall2_impl; [apply H|]. intros w a (att & mf & ? & ? & ?). exists att, mf. by rewrite He.
  - apply H.
Qed.

(** ** JoinSink *)

Section join_sink.
Context (default_object : string -> Z).
Context (js : JoinSink.JoinSink) (ty : RHSType) (input : tsid) (l0 : list (JoinMap row)).
Context (Hparts : JoinSink.numPartitions js = Z.of_nat (length l0)) (Hpos : (0 < length l0)%nat).
Context (m : mem) (ks : list Z) (hs : list (list (option Z))) (ka : addr) (us : list addr).
Context (Hin : join_input js ty input m ks hs ka us).

Definition wrote (i : nat) (s : join_state) : Prop :=
  s_mem s = m /\ written (JoinSink.numPartitions js) l0 (take i (input_rows ks hs)) (s_maps s).
(** The page is full: [i] rows are written, and the input has lost them. *)
Definition stopped (i : nat) (e : exn) (s : join_state) : Prop :=
  e = NotEnoughSpace /\ (i < length ks)%nat /\ cut i (ka :: us) m (s_mem s) /\
  written (JoinSink.numPartitions js) l0 (take i (input_rows ks hs)) (s_maps s).

Lemma drop_processed_spec {A} i s f (Q : A -> join_state * answers -> Prop) :
  (i < length ks)%nat -> wrote i s ->
  wpx (_ <- JoinSink.drop_processed ty (Some ka) (map Some us) i ;; throw NotEnoughSpace) Q
    (fun e s' => stopped i e s'.1) (s, f).
Proof.
  intros Hi [Hm Hw]. apply wpx_bind. unfold JoinSink.drop_processed. apply wpx_bind.
  destruct (truncate_cut m (length ks) ty us hs i) as (m1 & E1 & H1); [apply Hin|lia|apply Hin|].
  pose proof (fields_not_key _ _ _ _ _ _ _ (ji_fields _ _ _ _ _ _ _ _ Hin) (ji_keys _ _ _ _ _ _ _ _ Hin)) as Hka.
  eapply wpx_eq; [apply on_mem_eq; rewrite Hm; exact E1|].
  destruct (erase_prefix_cut ColSize ka (map VSize ks) i m1) as (m2 & E2 & H2).
  { destruct H1 as (_ & _ & ->); [apply Hin|done]. }
  { rewrite length_map. lia. }
  eapply wpx_eq; [apply on_mem_eq; exact E2|]. apply wpx_throw. simpl.
  split; [done|]. split; [done|]. split; [|done].
  destruct H1 as (Hs1 & H1 & H1'), H2 as (Hs2 & H2 & H2'). split_and!; simpl; [congruence|..].
  - intros a t l Ha Hl. apply elem_of_cons in Ha as [->|Ha].
    + apply H2; [by left|]. by rewrite H1'.
    + rewrite H2'; [by apply H1|]. intros ->%list_elem_of_singleton. done.
  - intros a [Ha Hau]%not_elem_of_cons. rewrite H2', H1'; [done..|]. by intros ->%list_elem_of_singleton.
Qed.

Lemma on_full_spec {A} (c : JS A) clean i Q s f :
  wpx c Q (fun e s' => e = NotEnoughSpace /\
    wpx (_ <- clean ;; throw NotEnoughSpace) Q (fun e s' => stopped i e s'.1) s') (s, f) ->
  wpx (on_full c clean) Q (fun e s' => stopped i e s'.1) (s, f).
Proof.
  intros H. unfold on_full. apply wpx_try. eapply wpx_mono; [exact H|done|].
  intros e s' [-> H']. exact H'.
Qed.

(** [setUnused] takes back the record; then the rows written leave the input. *)
Lemma undo_spec {A} i key k m1 v r s0 s f (Q : A -> join_state * answers -> Prop) :
  (i < length ks)%nat -> wrote i s0 -> s_maps s0 !! k = Some m1 -> packing s0 k m1 key r v s ->
  wpx (_ <- (_ <- on_map k (map_setUnused key) ;;
             JoinSink.drop_processed ty (Some ka) (map Some us) i) ;; throw NotEnoughSpace) Q
    (fun e s' => stopped i e s'.1) (s, f).
Proof.
  intros Hi [Hm Hw] Hk (m2 & -> & Hlt & Hp). unfold wpx. rewrite bind_assoc. apply wpx_bind.
  destruct (mm_undo _ _ _ _ _ f Hp) as (m3 & E & Hok & Hj & Hv).
  eapply wpx_eq; [eapply on_map_eq; [by apply list_lookup_insert_eq|exact E]|]. simpl.
  apply (drop_processed_spec i); [done|]. split; [done|]. simpl. rewrite list_insert_insert_eq.
  by apply (written_same _ _ _ _ _ m1).
Qed.

Lemma default_row_length : length (default_row default_object ty) = length ty.
Proof. apply length_map. Qed.

Lemma wrote_map i s key :
  wrote i s -> exists m1, s_maps s !! Z.to_nat (key mod JoinSink.numPartitions js) = Some m1 /\ map_ok m1.
Proof.
  intros [_ Hw]. pose proof (written_length _ _ _ _ Hw) as Hlen.
  destruct (lookup_lt_is_Some_2 (s_maps s) (Z.to_nat (key mod JoinSink.numPartitions js))) as [m1 Hm1].
  - rewrite Hlen, Hparts. pose proof (Z.mod_pos_bound key (Z.of_nat (length l0))). lia.
  - exists m1. split; [done|]. by eapply wr_ok.
Qed.

(** Pushing the record and packing the row into it. *)
Lemma push_wrote i key m1 s f :
  wrote i s -> s_maps s !! Z.to_nat (key mod JoinSink.numPartitions js) = Some m1 -> map_ok m1 ->
  wpx (on_map (Z.to_nat (key mod JoinSink.numPartitions js)) (map_push (default_row default_object ty) key))
    (fun r s' => packing s (Z.to_nat (key mod JoinSink.numPartitions js)) m1 key r
                   (default_row default_object ty) s'.1)
    (fun e s' => e = NotEnoughSpace /\ wrote i s'.1 /\
       exists m2, s_maps s'.1 !! Z.to_nat (key mod JoinSink.numPartitions js) = Some m2 /\ map_ok m2 /\
         forall h, map_view m2 h = map_view m1 h) (s, f).
Proof.
  intros [Hm Hw] Hm1 Hok. eapply on_map_wpx; [done|].
  eapply wpx_mono; [by apply mm_push| |]; simpl.
  - intros r [m2 f'] Hp. exists m2. split_and!; [done|by eapply lookup_lt_Some|done].
  - intros e [m2 f'] (-> & Hok2 & Ht & Hv). simpl. split; [done|]. split.
    + split; [done|]. by apply (written_same _ _ _ _ _ m1).
    + exists m2. split; [|done]. simpl. by eapply list_lookup_insert_eq, lookup_lt_Some.
Qed.

Lemma packed_wrote i key m1 r s s' :
  (i < length ks)%nat -> ks !! i = Some key -> wrote i s ->
  s_maps s !! Z.to_nat (key mod JoinSink.numPartitions js) = Some m1 ->
  packing s (Z.to_nat (key mod JoinSink.numPartitions js)) m1 key r (row_at hs i) s' -> wrote (S i) s'.
Proof.
  intros Hi Hk [Hm Hw] Hm1 (m2 & -> & _ & Hp). split; [done|]. simpl.
  rewrite (input_rows_snoc _ _ _ _ Hk). by apply (written_push _ _ _ _ _ m1 _ r).
Qed.

Lemma pack_wrote i key m1 r s s1 f :
  (i < length ks)%nat -> ks !! i = Some key -> wrote i s ->
  s_maps s !! Z.to_nat (key mod JoinSink.numPartitions js) = Some m1 ->
  packing s (Z.to_nat (key mod JoinSink.numPartitions js)) m1 key r (default_row default_object ty) s1 ->
  wpx (pack ty (Z.to_nat (key mod JoinSink.numPartitions js)) r i (map Some us))
    (fun _ s' => wrote (S i) s'.1)
    (fun e s' => e = NotEnoughSpace /\ exists v,
       packing s (Z.to_nat (key mod JoinSink.numPartitions js)) m1 key r v s'.1) (s1, f).
Proof.
  intros Hi Hk Hw Hm1 Hp. pose proof Hw as [Hm _].
  eapply wpx_mono; [eapply pack_spec; [rewrite Hm; apply Hin|done|apply default_row_length|exact Hp]| |done].
  intros [] s'. by eapply packed_wrote.
Qed.

Lemma write_row_spec i s f :
  (i < length ks)%nat -> wrote i s ->
  wpx (JoinSink.write_row default_object js ty (Some ka) (map Some us) i)
    (fun _ s' => wrote (S i) s'.1) (fun e s' => stopped i e s'.1) (s, f).
Proof.
  intros Hi Hw. destruct (lookup_lt_is_Some_2 ks i Hi) as [key Hk].
  unfold JoinSink.write_row. apply wpx_bind. eapply wpx_eq.
  { apply on_mem_eq. unfold JoinSink.key_at. destruct Hw as [-> _].
    rewrite (bind_Ok _ _ _ _ _ (read_as_eq _ _ _ _ (ji_keys _ _ _ _ _ _ _ _ Hin))).
    rewrite list_lookup_fmap, Hk. done. }
  replace (set_s_mem m s) with s by (destruct Hw as [<- _]; by rewrite set_s_mem_id).
  rewrite (proj2 (Z.eqb_neq (JoinSink.numPartitions js) 0)) by lia.
  destruct (wrote_map i s key Hw) as (m1 & Hm1 & Hok). cbv zeta. apply wpx_bind.
  eapply wpx_eq; [eapply on_map_eq; [done|by apply mm_count]|]. rewrite set_s_maps_id by done.
  destruct (Z.eqb_spec (Z.of_nat (length (map_view m1 key))) 0) as [Hz|Hz].
  - apply on_full_spec, wpx_bind. eapply wpx_mono; [by apply push_wrote| |]; simpl.
    + intros r [s1 f1] Hp. eapply wpx_mono; [by eapply pack_wrote|done|].
      intros e [s2 f2] (-> & v & Hv). split; [done|]. by eapply undo_spec.
    + intros e [s1 f1] (-> & Hw1 & m2 & Hm2 & Hok2 & Hv2). split; [done|].
      unfold wpx. rewrite bind_assoc. apply wpx_bind.
      eapply wpx_eq; [eapply on_map_eq; [done|apply mm_undo_absent; [done|]]|].
      { rewrite Hv2. apply nil_length_inv. lia. }
      simpl. rewrite set_s_maps_id by done. by apply drop_processed_spec.
  - apply wpx_bind. apply (on_full_spec _ _ i).
    eapply wpx_mono; [by apply push_wrote| |]; simpl.
    + intros r [s1 f1] Hp. apply on_full_spec. eapply wpx_mono; [by eapply pack_wrote|done|].
      intros e [s2 f2] (-> & v & Hv). split; [done|]. by eapply undo_spec.
    + intros e [s1 f1] (-> & Hw1 & _). split; [done|]. by apply drop_processed_spec.
Qed.

Lemma writeOut_spec s f :
  wrote 0 s ->
  wpx (JoinSink.writeOut default_object js ty input)
    (fun _ s' => wrote (length ks) s'.1) (fun e s' => exists i, stopped i e s'.1) (s, f).
Proof.
  intros Hw. pose proof Hw as [Hm _]. unfold JoinSink.writeOut. apply wpx_bind.
  eapply wpx_eq; [apply on_mem_eq; rewrite Hm; eapply find_columns_eq, Hin|].
  rewrite <- Hm, set_s_mem_id. apply wpx_bind.
  destruct (ji_entry _ _ _ _ _ _ _ _ Hin) as [mf He].
  eapply wpx_eq; [apply on_mem_eq, column_at_eq; rewrite Hm; exact He|].
  rewrite set_s_mem_id. apply wpx_bind. simpl.
  eapply wpx_eq; [apply on_mem_eq, read_as_eq; rewrite Hm; apply Hin|].
  rewrite set_s_mem_id, length_map.
  apply (wpx_for_seq _ (fun i s' => wrote i s'.1)); [|done].
  intros i [s1 f1] Hi Hw1. eapply wpx_mono; [by apply write_row_spec|done|].
  intros e s2 H2. by exists i.
Qed.
End join_sink.

(** C19: JoinSink::writeOut appends every row of its input, in order, to the
    records of the row's hash in the map of the row's partition, and leaves the
    input alone; when the page has no more space it throws NotEnoughSpace after
    some of the rows, which are in the maps just once and are no longer in the
    input, so that the remaining input is a well-formed input again and writing
    it to a new container writes exactly the remaining rows. *)
Theorem JoinSink_writeOut_exactly_once default_object js ty input l0 m ks hs ka us f :
  JoinSink.numPartitions js = Z.of_nat (length l0) -> (0 < length l0)%nat ->
  (forall k x, l0 !! k = Some x -> map_ok x) ->
  join_input js ty input m ks hs ka us ->
  wpx (JoinSink.writeOut default_object js ty input)
    (fun _ s => s_mem s.1 = m /\
       written (JoinSink.numPartitions js) l0 (input_rows ks hs) (s_maps s.1))
    (fun e s => e = NotEnoughSpace /\ exists i, (i < length ks)%nat /\
       written (JoinSink.numPartitions js) l0 (take i (input_rows ks hs)) (s_maps s.1) /\
       join_input js ty input (s_mem s.1) (drop i ks) (map (drop i) hs) ka us /\
       input_rows (drop i ks) (map (drop i) hs) = drop i (input_rows ks hs))
    (mkSinkState m l0, f).
Proof.
  intros Hparts Hpos Hok Hin. eapply wpx_mono.
  - eapply (writeOut_spec default_object js ty input l0 Hparts Hpos m ks hs ka us Hin).
    split; [done|]. by apply written_nil.
  - intros [] s [Hm Hw]. split; [done|]. by rewrite take_ge in Hw by by rewrite input_rows_length.
  - intros e s (i & -> & Hi & Hc & Hw). split; [done|]. exists i. split_and!; [done|done| |].
    + eapply join_input_cut; [done|lia|done].
    + eapply input_rows_drop, Hin.
Qed.

(** ** New containers *)

Lemma new_maps_spec n f :
  wpx (new_maps n) (fun _ s => s.1 = map (fun i => setHashValue (Z.of_nat i) JoinMap_new) (seq 0 n))
    (fun e _ => e = NotEnoughSpace) ([], f).
Proof.
  unfold new_maps. apply wpx_bind, wpx_alloc; intros f1; [|done].
  apply (wpx_for_seq _ (fun i s => s.1 = map (fun i => setHashValue (Z.of_nat i) JoinMap_new) (seq 0 i))); [|done].
  intros i [l f2] _ Hl. simpl in Hl. subst l.
  apply wpx_bind, wpx_alloc; intros f3; [|done]. apply wpx_bind, wpx_alloc; intros f4; [|done].
  change (map (fun i => setHashValue (Z.of_nat i) JoinMap_new) (seq 0 i) ++ [setHashValue (Z.of_nat i) JoinMap_new] = map (fun i => setHashValue (Z.of_nat i) (@JoinMap_new row)) (seq 0 (S i))).
  by rewrite seq_S, map_app.
Qed.

Lemma set_hash_new_ok i : map_ok (@setHashValue row i JoinMap_new).
Proof. apply JoinMap_new_ok. Qed.

(** ** BroadcastJoinCombinerSink *)

(** [m] is [m0] with the records [g h] added under every hash. *)
Definition grown (m0 m : JoinMap row) (g : Z -> list row) : Prop :=
  map_ok m /\ joinHashValue m = joinHashValue m0 /\ forall h, map_view m h = map_view m0 h ++ g h.

Lemma grown_nil m : map_ok m -> grown m m (fun _ => []).
Proof. intros H. split_and!; [done|done|]. intros. by rewrite app_nil_r. Qed.

Lemma grown_trans m0 m1 m2 g1 g2 g :
  grown m0 m1 g1 -> grown m1 m2 g2 -> (forall h, g h = g1 h ++ g2 h) -> grown m0 m2 g.
Proof.
  intros (_ & Hj1 & H1) (Hok & Hj2 & H2) Hg. split_and!; [done|congruence|].
  intros h. by rewrite H2, H1, Hg, app_assoc.
Qed.

Section combiner.
Context (default_object : string -> Z) (ty : RHSType).

Definition under (hash : Z) (l : list row) (h : Z) : list row :=
  if bool_decide (norm_hash h = norm_hash hash) then l else [].

Lemma copy_record_spec m hash r f :
  map_ok m ->
  wpx (BroadcastCombiner.copy_record default_object ty hash r)
    (fun _ s => grown m s.1 (under hash [r])) (fun e _ => e = NotEnoughSpace) (m, f).
Proof.
  intros H. unfold BroadcastCombiner.copy_record. apply wpx_bind.
  eapply wpx_mono; [by apply mm_push| |by intros e s [-> _]]. intros ref [m1 f1] Hp. simpl in Hp.
  apply wpx_bind, wpx_alloc; intros f2; [|done].
  destruct (mm_assign _ _ _ _ _ r f2 Hp) as (m2 & E & Hp2). eapply wpx_eq; [exact E|]. simpl.
  destruct (mm_pushed_ok _ _ _ _ _ Hp2) as [Hok Hj]. split_and!; [done|done|].
  intros h. rewrite (mm_pushed_view _ _ _ _ _ h Hp2). unfold under.
  case_bool_decide; [done|by rewrite app_nil_r].
Qed.

Lemma record_at_list (p : JoinPairArray row) s l i : record_list p s = Some l -> record_at p s i = l !! i.
Proof.
  unfold record_list, record_at. destruct (data p !! s) as [[x|]|]; [|by intros [= <-]..].
  destruct (s_next x) as [n|]; simpl; [|intros [= <-]; by destruct i].
  destruct (overflows p !! n) as [o|]; simpl; [|done]. intros [= <-]. by destruct i.
Qed.

Lemma merge_slot_spec m mergeMe slot l f :
  map_ok m -> record_list (myArray mergeMe) slot = Some l ->
  wpx (BroadcastCombiner.merge_slot default_object ty mergeMe slot)
    (fun _ s => grown m s.1 (under (getHash (myArray mergeMe) slot) l)) (fun e _ => e = NotEnoughSpace) (m, f).
Proof.
  intros Hok Hl. unfold BroadcastCombiner.merge_slot, size. rewrite Hl, Nat2Z.id. cbv zeta.
  set (hash := getHash (myArray mergeMe) slot).
  eapply wpx_mono; [apply (wpx_for_seq _ (fun i s => grown m s.1 (under hash (take i l))) (fun e _ => e = NotEnoughSpace))| |done].
  - intros i [m1 f1] Hi Hg. simpl in Hg. destruct (lookup_lt_is_Some_2 l i Hi) as [r Hr].
    rewrite (record_at_list _ _ _ _ Hl), Hr. simpl. apply wpx_bind, wpx_mret.
    eapply wpx_mono; [apply copy_record_spec, Hg| |done]. intros [] [m2 f2] Hg2. simpl in *.
    eapply grown_trans; [exact Hg|exact Hg2|]. intros h. unfold under.
    rewrite (take_S_r _ _ _ Hr). by case_bool_decide.
  - split_and!; [done|done|]. intros h. unfold under. case_bool_decide; by rewrite app_nil_r.
  - intros [] s. by rewrite firstn_all.
Qed.

Lemma for_each_map {S A B} (g : A -> B) (l : list A) (body : B -> M S unit) :
  for_each (map g l) body = for_each l (fun x => body (g x)).
Proof. induction l as [|x l IH]; [done|]. simpl. by rewrite IH. Qed.

Lemma concat_pick {A} (k : Z) (v : list A) (l : list (nat * Z)) :
  NoDup (map snd l) ->
  concat (map (fun x => if bool_decide (k = x.2) then v else []) l) =
    if bool_decide (k ∈ map snd l) then v else [].
Proof.
  induction l as [|[s h] l IH]; [done|]. intros [Hh Hnd]%NoDup_cons. rewrite map_cons. simpl.
  rewrite IH by done. destruct (decide (k = h)) as [->|Hne].
  - rewrite bool_decide_eq_true_2, (bool_decide_eq_false_2 _ Hh), bool_decide_eq_true_2 by (by left || done).
    apply app_nil_r.
  - rewrite (bool_decide_eq_false_2 (k = h)) by done. simpl.
    do 2 case_bool_decide; [done|exfalso; set_solver..|done].
Qed.

Lemma order_view (p : JoinPairArray row) h :
  jpa_ok p ->
  concat (map (fun x => if bool_decide (norm_hash h = x.2) then view p h else []) (order p)) = view p h.
Proof.
  intros H. rewrite concat_pick by by apply order_NoDup. case_bool_decide as E; [done|].
  destruct (view p h) eqn:Ev; [done|]. exfalso. apply E.
  destruct (order_complete p h H) as [s Hs]; [congruence|]. apply list_elem_of_fmap. by exists (s, norm_hash h).
Qed.

Lemma merge_map_spec m mergeMe f :
  map_ok m -> map_ok mergeMe ->
  wpx (BroadcastCombiner.merge_map default_object ty mergeMe)
    (fun _ s => grown m s.1 (map_view mergeMe)) (fun e _ => e = NotEnoughSpace) (m, f).
Proof.
  intros Hok Hm. unfold BroadcastCombiner.merge_map, map_view. set (p := myArray mergeMe) in *.
  unfold wpx. rewrite for_each_entry_eq, for_each_map.
  set (g := fun pre h => concat (map (fun x : nat * Z => if bool_decide (norm_hash h = x.2) then view p h else []) pre)).
  change (wpx (for_each (order p) (fun x => BroadcastCombiner.merge_slot default_object ty mergeMe x.1))
    (fun _ s => grown m s.1 (view p)) (fun e _ => e = NotEnoughSpace) (m, f)).
  eapply wpx_mono; [apply (wpx_for_each _ (fun pre l s => pre ++ l = order p /\ grown m s.1 (g pre)) (fun e _ => e = NotEnoughSpace)) with (pre := [])| |done].
  - intros pre [s h] l [m1 f1] [Hl Hg]. simpl in Hg. simpl.
    destruct (order_records p s h) as (Hh & Hn & Hr & _); [done|rewrite <- Hl; set_solver|].
    eapply wpx_mono; [eapply merge_slot_spec; [apply Hg|exact Hr]| |done]. intros [] [m2 f2] Hg2. simpl in *.
    split; [by rewrite <- app_assoc|]. eapply grown_trans; [exact Hg|exact Hg2|].
    intros h'. unfold g, under. rewrite map_app, concat_app. simpl. rewrite app_nil_r. f_equal.
    fold p. rewrite Hh, Hn. case_bool_decide as E; [|done]. apply view_norm. by rewrite E.
  - split; [done|]. by apply grown_nil.
  - intros [] s [_ (? & ? & Hv)]. rewrite app_nil_l in Hv. split_and!; [done|done|]. intros h.
    rewrite Hv. unfold g. by rewrite order_view.
Qed.
End combiner.

(** A batch of three rows, two of them of the hash 5, for a sink with two
    partitions. *)
Module JoinBatch.
Definition owner (t : ColType) : MaintenanceFuncs := mkMaint (Some t) true 0.
Definition store : mem := mkMem
  (list_to_map [(1%positive, mkColumn (ColHandle "Department") (map VHandle [Some 10; Some 11; Some 12]));
                (2%positive, mkColumn ColSize (map VSize [5; 6; 5]))])
  (list_to_map [(2%positive, list_to_map [(0, (Some 1%positive, owner (ColHandle "Department")));
                                          (1, (Some 2%positive, owner ColSize))])]).
Definition sink (P : Z) : JoinSink.JoinSink := JoinSink.mkJoinSink 1 [0] [0] P.
Definition ty : RHSType := [mkField "Department" false].
Definition maps (n : nat) : list (JoinMap row) := map (fun i => setHashValue (Z.of_nat i) JoinMap_new) (seq 0 n).
Lemma maps_ok n k m : maps n !! k = Some m -> map_ok m.
Proof.
  unfold maps. rewrite list_lookup_fmap. destruct (seq 0 n !! k); simpl; [|done].
  intros [= <-]. apply set_hash_new_ok.
Qed.
Lemma input P : join_input (sink P) ty 2 store [5; 6; 5] [[Some 10; Some 11; Some 12]] 2 [1%positive].
Proof.
  split.
  - by eexists.
  - done.
  - constructor; [done|done| |constructor]. intros _. repeat constructor; by eexists.
  - constructor; [|constructor]. by eexists _, _.
  - apply NoDup_singleton.
Qed.
End JoinBatch.

(** The page is full after the first row. *)
Lemma JoinSink_writeOut_exactly_once_witness :
  wpx (JoinSink.writeOut (fun _ => 0) (JoinBatch.sink 2) JoinBatch.ty 2)
    (fun _ s => s_mem s.1 = JoinBatch.store /\
       written 2 (JoinBatch.maps 2) (input_rows [5; 6; 5] [[Some 10; Some 11; Some 12]]) (s_maps s.1))
    (fun e s => e = NotEnoughSpace /\ exists i, (i < 3)%nat /\
       written 2 (JoinBatch.maps 2) (take i (input_rows [5; 6; 5] [[Some 10; Some 11; Some 12]])) (s_maps s.1) /\
       join_input (JoinBatch.sink 2) JoinBatch.ty 2 (s_mem s.1) (drop i [5; 6; 5])
         (map (drop i) [[Some 10; Some 11; Some 12]]) 2 [1%positive] /\
       input_rows (drop i [5; 6; 5]) (map (drop i) [[Some 10; Some 11; Some 12]]) =
         drop i (input_rows [5; 6; 5] [[Some 10; Some 11; Some 12]]))
    (mkSinkState JoinBatch.store (JoinBatch.maps 2), [true; true; false]).
Proof.
  apply (JoinSink_writeOut_exactly_once (fun _ => 0) (JoinBatch.sink 2) JoinBatch.ty 2 (JoinBatch.maps 2)
    JoinBatch.store [5; 6; 5] [[Some 10; Some 11; Some 12]] 2 [1%positive] [true; true; false]).
  - done.
  - simpl. lia.
  - apply JoinBatch.maps_ok.
  - apply JoinBatch.input.
Defined.
