(* ===== verification/JoinProbe.v ===== *)
(** The probe of a join, pdb/src/pipeline/headers/executors/JoinProbeExecutor.h:
    every row is joined with the rows of its hash in the built tables. *)

From stdpp Require Import list relations.
From S2P Require Import Prelude AtomicComputation TupleSet TupleSetOwnership TupleSetSpec Executors Allocation SinkState JoinPairArray Multimap JoinTuple JoinSinks.

Open Scope Z_scope.

Record JoinProbeExecution := mkProbe {
  output : tsid;
  whichAtt : Z;
  myMachine : TupleSetSetupMachine;
  inputTables : list (option (JoinMap row));
  counts : list Z;
  numProcessingThreads : Z;
  numPartitions : Z;
  columns : list (option addr);
  offset : Z
}.
Definition set_counts (c : list Z) (ex : JoinProbeExecution) : JoinProbeExecution :=
  mkProbe (output ex) (whichAtt ex) (myMachine ex) (inputTables ex) c (numProcessingThreads ex)
    (numPartitions ex) (columns ex) (offset ex).

(** The tables of the pages are put where their hash value says, an unchecked
    index; [pages] are the tables of the pages the page set hands out. *)
Fixpoint place_tables (tables : list (option (JoinMap row))) (pages : list (JoinMap row))
    : M mem (list (option (JoinMap row))) :=
  match pages with
  | [] => mret tables
  | inputTable :: pages' =>
      let i := joinHashValue inputTable in
      if (0 <=? i) && (i <? Z.of_nat (length tables))
      then place_tables (<[Z.to_nat i := Some inputTable]> tables) pages'
      else ub OutOfRange
  end.

Definition JoinProbeExecution_new (ty : RHSType) (hashTable : list (JoinMap row)) (positions : list Z)
    (schema attsToOperateOn attsToIncludeInOutput : TupleSpec)
    (numNodes numThreads : Z) (needToSwapLHSAndRhs : bool) : M mem JoinProbeExecution :=
  let mc := TupleSetSetupMachine_of schema attsToIncludeInOutput in
  tables <- place_tables (replicate (Z.to_nat numThreads) None) hashTable ;;
  out <- TupleSet_new ;;
  cols <- createCols ty out
            (if needToSwapLHSAndRhs then 0 else Z.of_nat (length (getAtts attsToIncludeInOutput)))
            positions ;;
  w <- first_match schema attsToOperateOn ;;
  mret (mkProbe out w mc tables [] numThreads (u64 (numNodes * numThreads)) cols
          (if needToSwapLHSAndRhs then Z.of_nat (length positions) else 0)).

(** The table a hash is looked up in. *)
Definition table_of (ex : JoinProbeExecution) (hash : Z) : M mem (JoinMap row) :=
  if (numPartitions ex =? 0) || (numProcessingThreads ex =? 0) then ub DivisionByZero
  else
    t <- unwrap OutOfRange (inputTables ex !! Z.to_nat ((hash mod numPartitions ex) mod numProcessingThreads ex)) ;;
    unwrap NullDeref t.
(** [inputTableRef.lookup(hash)]; looking up changes nothing and needs no space. *)
Definition lookup_in (table : JoinMap row) (hash : Z) : M mem nat := fun s =>
  match map_lookup hash (table, []) with
  | Ok slot _ => Ok slot s
  | Raise e _ => Raise e s
  | Exit _ => Exit s
  | Fault x => Fault x
  | NoFuel => NoFuel
  end.

(** The matches of one row are unpacked to the rows from [overallCounter] on;
    the counter is an [int], compared with sizes as a [size_t]. *)
Fixpoint unpack_matches (ty : RHSType) (columns : list (option addr)) (p : JoinPairArray row) (slot : nat)
    (whichs : list nat) (overallCounter : Z) : M mem Z :=
  match whichs with
  | [] => mret overallCounter
  | which :: whichs' =>
      a <- unwrap OutOfRange (record_at p slot which) ;;
      _ <- unpack ty a (Z.to_nat (u64 overallCounter)) columns ;;
      unpack_matches ty columns p slot whichs' (i32 (overallCounter + 1))
  end.

Definition size_of (v : val) : Z := match v with VSize n => n | _ => 0 end.

Fixpoint probe_rows (ty : RHSType) (ex : JoinProbeExecution) (inputHash : list Z) (i : nat)
    (counts : list Z) (overallCounter : Z) : M mem (list Z * Z) :=
  match inputHash with
  | [] => mret (counts, overallCounter)
  | hash :: inputHash' =>
      table <- table_of ex hash ;;
      slot <- lookup_in table hash ;;
      let numHits := i32 (size (myArray table) slot) in
      overallCounter' <- unpack_matches ty (columns ex) (myArray table) slot
                           (seq 0 (Z.to_nat numHits)) overallCounter ;;
      probe_rows ty ex inputHash' (S i) (<[i := u32 numHits]> counts) overallCounter'
  end.

(** [vector::resize] of every record column, with an [int]. *)
Definition erase_rest (ty : RHSType) (columns : list (option addr)) (overallCounter : Z) : M mem unit :=
  if overallCounter <? 0 then throw LengthError
  else eraseEnd ty (Z.to_nat overallCounter) columns.

Definition process (ty : RHSType) (ex : JoinProbeExecution) (input : tsid)
    : M mem (JoinProbeExecution * tsid) :=
  hashes <- getColumn ColSize input (whichAtt ex) ;;
  let inputHash := map size_of hashes in
  let counts0 := if bool_decide (length (counts ex) = length inputHash) then counts ex
                 else vec_resize 0 (length inputHash) (counts ex) in
  r <- probe_rows ty ex inputHash 0 counts0 0 ;;
  _ <- erase_rest ty (columns ex) r.2 ;;
  _ <- machine_replicate (myMachine ex) input (output ex) r.1 (offset ex) ;;
  mret (set_counts r.1 ex, output ex).

(** ** The columns of the output the executor writes through addresses *)

Section columns.
Context (ext : gset addr) (out : tsid).

Definition at_col (m : mem) (k : Z) (a : addr) (t : ColType) (l : list val) : Prop :=
  exists mf, reads m out k t l a mf /\ mustDelete mf = true.

(** What a step that writes some of the columns [ks] keeps. *)
Definition stepped (ks : list Z) (m m' : mem) : Prop :=
  mem_inv ext ∅ m' /\ dom (sets m') = dom (sets m) /\ evolves ext out ks m m'.

Lemma stepped_refl ks m : mem_inv ext ∅ m -> stepped ks m m.
Proof. intros. split_and!; [done|done|apply rtc_refl]. Qed.

Lemma stepped_trans ks m1 m2 m3 : stepped ks m1 m2 -> stepped ks m2 m3 -> stepped ks m1 m3.
Proof. intros (_ & Hd & He) (Hi & Hd' & He'). split_and!; [done|congruence|by eapply evolves_trans]. Qed.

Lemma stepped_weaken ks ks' m m' : (forall k, k ∈ ks -> k ∈ ks') -> stepped ks m m' -> stepped ks' m m'.
Proof. intros Hk (? & ? & He). split_and!; [done|done|by eapply evolves_weaken]. Qed.

Lemma at_col_other m k k' a a' t t' l l' :
  mem_inv ext ∅ m -> k <> k' -> at_col m k a t l -> at_col m k' a' t' l' -> a <> a'.
Proof.
  intros Hi Hne (mf & (He & _ & _) & Hd) (mf' & (He' & _ & _) & Hd') ->. apply Hne.
  apply (inv_unique _ _ _ Hi out k out k' a'); [set_solver|set_solver|by exists mf|by exists mf'].
Qed.

Lemma write_at_spec m k a t l l' :
  mem_inv ext ∅ m -> at_col m k a t l ->
  exists m', write_col (Some a) t l' m = Ok tt m' /\ stepped [k] m m' /\ at_col m' k a t l' /\
    forall k' a' t' v, k' <> k -> at_col m k' a' t' v -> at_col m' k' a' t' v.
Proof.
  intros Hi Hat. pose proof Hat as (mf & (He & Hc & Hf) & Hd). eexists. split; [done|]. split; [|split].
  - split; [by eapply mem_inv_write|]. split; [done|]. apply (evolves_one _ _ _ k); [done|set_solver|]. split; [done| |].
    + intros b c Hb Hno. simpl. rewrite lookup_insert_ne; [done|]. intros <-. apply Hno. by exists mf.
    + intros b Hb. by right.
  - exists mf. split; [|done]. split_and!; [done| |done]. simpl. by rewrite lookup_insert_eq.
  - intros k' a' t' v Hne Hat'. pose proof (at_col_other _ _ _ _ _ _ _ _ _ Hi Hne Hat' Hat).
    destruct Hat' as (mf' & (He' & Hc' & Hf') & Hd'). exists mf'. split; [|done]. split_and!; [done| |done].
    simpl. by rewrite lookup_insert_ne.
Qed.

(** The columns of the fields: their numbers, addresses and contents. *)
Inductive probe_cols (m : mem) : RHSType -> list Z -> list addr -> list (list val) -> Prop :=
| probe_cols_nil : probe_cols m [] [] [] []
| probe_cols_cons f ty k kfs a us L Ls :
    at_col m k a (field_col f) L -> probe_cols m ty kfs us Ls ->
    probe_cols m (f :: ty) (k :: kfs) (a :: us) (L :: Ls).

Lemma probe_cols_mono m m' ty kfs us Ls :
  (forall k a t v, k ∈ kfs -> at_col m k a t v -> at_col m' k a t v) ->
  probe_cols m ty kfs us Ls -> probe_cols m' ty kfs us Ls.
Proof.
  intros Hk H. induction H as [|f ty k kfs a us L Ls Hat H IH]; constructor.
  - apply Hk; [by left|done].
  - apply IH. intros k' a' t v Hk'. apply Hk. by right.
Qed.

Lemma probe_cols_length m ty kfs us Ls :
  probe_cols m ty kfs us Ls -> length kfs = length ty /\ length Ls = length ty.
Proof. induction 1 as [|f ty k kfs a us L Ls Hat H [IH1 IH2]]; simpl; [done|]. lia. Qed.

(** Row [c] of a column is written. *)
Definition put_row (c : nat) (x : val) (L : list val) : list val :=
  if (length L <=? c)%nat then L ++ [x] else <[c := x]> L.

Lemma copyTo_eq m f d a c L :
  cols m !! a = Some (mkColumn (field_col f) L) ->
  copyTo f d (Some a) c m = write_col (Some a) (field_col f) (put_row c (VHandle d) L) m.
Proof.
  intros Ha. unfold copyTo, put_row. rewrite (bind_Ok _ _ _ _ _ (read_as_eq _ _ _ _ Ha)).
  by destruct (length L <=? c)%nat.
Qed.

Lemma at_col_cols m k a t l : at_col m k a t l -> cols m !! a = Some (mkColumn t l).
Proof. by intros (mf & (_ & Hc & _) & _). Qed.

(** Both [unpack] and [eraseEnd] rewrite the columns one after the other. *)
Lemma cols_op_spec {X} (op : TupleField -> X -> option addr -> M mem unit) (F : X -> list val -> list val)
    (run : RHSType -> list X -> list (option addr) -> M mem unit) :
  (forall m f x a L, cols m !! a = Some (mkColumn (field_col f) L) ->
     op f x (Some a) m = write_col (Some a) (field_col f) (F x L) m) ->
  (forall xs us, run [] xs us = mret tt) ->
  (forall f ty x xs u us, run (f :: ty) (x :: xs) (u :: us) = (_ <- op f x u ;; run ty xs us)) ->
  forall ty kfs us Ls xs m,
  mem_inv ext ∅ m -> NoDup kfs -> probe_cols m ty kfs us Ls -> length xs = length ty ->
  exists m', run ty xs (map Some us) m = Ok tt m' /\ stepped kfs m m' /\
    probe_cols m' ty kfs us (zip_with F xs Ls) /\
    forall k a t v, k ∉ kfs -> at_col m k a t v -> at_col m' k a t v.
Proof.
  intros Hop Hnil Hcons. induction ty as [|f ty IH]; intros kfs us Ls xs m Hi Hnd H Hx;
    inversion H as [|? ? k kfs' a us' L Ls' Hat Hcols]; subst.
  { destruct xs; [|done]. exists m. rewrite Hnil. split_and!; [done|by apply stepped_refl|constructor|done]. }
  destruct xs as [|x xs]; [done|]. injection Hx as Hx. apply NoDup_cons in Hnd as [Hk Hnd].
  destruct (write_at_spec m k a (field_col f) L (F x L)) as (m1 & E1 & H1 & Hat1 & Ho1); [done|done|].
  destruct (IH kfs' us' Ls' xs m1) as (m2 & E2 & H2 & Hc2 & Ho2); [apply H1|done| |done|].
  { eapply probe_cols_mono; [|done]. intros k' a' t v Hk' Ha'. apply Ho1; [by intros ->|done]. }
  exists m2. split_and!.
  - simpl. rewrite Hcons. rewrite (bind_Ok _ _ _ tt m1); [done|]. rewrite <- E1. by apply Hop, (at_col_cols _ k).
  - eapply stepped_trans; (eapply stepped_weaken; [|done]); set_solver.
  - constructor; [by apply Ho2|done].
  - intros k' a' t v [Hne Hk']%not_elem_of_cons Hat'. apply Ho2; [done|]. by apply Ho1.
Qed.

Lemma unpack_spec m ty kfs us Ls r c :
  mem_inv ext ∅ m -> NoDup kfs -> probe_cols m ty kfs us Ls -> length r = length ty ->
  exists m', unpack ty r c (map Some us) m = Ok tt m' /\ stepped kfs m m' /\
    probe_cols m' ty kfs us (zip_with (fun d L => put_row c (VHandle d) L) r Ls).
Proof.
  intros Hi Hnd H Hr.
  destruct (cols_op_spec (fun f d u => copyTo f d u c) (fun d => put_row c (VHandle d))
    (fun ty r us => unpack ty r c us)) with (ty := ty) (kfs := kfs) (us := us) (Ls := Ls) (xs := r) (m := m)
    as (m' & ? & ? & ? & _); try done; [|eauto].
  intros. by apply copyTo_eq.
Qed.

Lemma eraseEnd_spec m ty kfs us Ls i :
  mem_inv ext ∅ m -> NoDup kfs -> probe_cols m ty kfs us Ls ->
  exists m', eraseEnd ty i (map Some us) m = Ok tt m' /\ stepped kfs m m' /\
    probe_cols m' ty kfs us (map (vec_resize (VHandle None) i) Ls).
Proof.
  intros Hi Hnd H. pose proof (probe_cols_length _ _ _ _ _ H) as [_ Hl].
  destruct (cols_op_spec (fun f (_ : unit) u => eraseEnd_col f u i) (fun _ => vec_resize (VHandle None) i)
    (fun ty _ us => eraseEnd ty i us)) with (ty := ty) (kfs := kfs) (us := us) (Ls := Ls)
    (xs := replicate (length ty) tt) (m := m) as (m' & ? & ? & Hc & _); try done.
  - intros m1 f x a L Ha. unfold eraseEnd_col. by rewrite (bind_Ok _ _ _ _ _ (read_as_eq _ _ _ _ Ha)).
  - apply length_replicate.
  - exists m'. split_and!; [done..|]. by rewrite zip_with_replicate_l, <- ?Hl in Hc by lia.
Qed.

(** The first rows of the columns are the tuples [d]. *)
Definition holds (d : list row) (Ls : list (list val)) : Prop :=
  forall j L, Ls !! j = Some L ->
    (length d <= length L)%nat /\ take (length d) L = map (fun r : row => VHandle (r !!! j)) d.

Lemma holds_nil Ls : holds [] Ls.
Proof. intros j L _. split; [simpl; lia|done]. Qed.

Lemma holds_snoc d r Ls :
  holds d Ls -> holds (d ++ [r]) (zip_with (fun x L => put_row (length d) (VHandle x) L) r Ls).
Proof.
  intros H j L' (x & L & -> & Hx & HL)%lookup_zip_with_Some. destruct (H j L HL) as [Hle Ht].
  rewrite length_app, map_app, Nat.add_1_r. simpl. rewrite (list_lookup_total_correct _ _ _ Hx).
  unfold put_row. destruct (Nat.leb_spec (length L) (length d)) as [Hc|Hc].
  - assert (E : length L = length d) by lia. rewrite length_app. simpl. split; [lia|].
    rewrite <- E in Ht |- *. rewrite firstn_all in Ht. rewrite take_ge by (rewrite length_app; simpl; lia). by rewrite Ht.
  - rewrite length_insert. split; [lia|].
    rewrite (take_S_r _ _ (VHandle x)) by (by apply list_lookup_insert_eq). by rewrite take_insert_ge, Ht.
Qed.

(** Cutting the rest off leaves just the tuples. *)
Lemma holds_cut d n Ls :
  holds d Ls -> length Ls = n ->
  map (vec_resize (VHandle None) (length d)) Ls = map (fun j => map (fun r : row => VHandle (r !!! j)) d) (seq 0 n).
Proof.
  intros H <-. apply list_eq. intros j. rewrite !list_lookup_fmap.
  destruct (Ls !! j) as [L|] eqn:E.
  - destruct (H j L E) as [Hle Ht]. rewrite lookup_seq_lt by (by eapply lookup_lt_Some). simpl.
    unfold vec_resize. rewrite Ht. replace (length d - length L)%nat with 0%nat by lia. by rewrite app_nil_r.
  - apply lookup_ge_None_1 in E. by rewrite lookup_seq_ge.
Qed.
End columns.

(** ** Looking up and unpacking *)

Definition table_at (ex : JoinProbeExecution) (hash : Z) : option (JoinMap row) :=
  mjoin (inputTables ex !! Z.to_nat ((hash mod numPartitions ex) mod numProcessingThreads ex)).
(** The matches of a hash. *)
Definition hits (ex : JoinProbeExecution) (hash : Z) : list row :=
  match table_at ex hash with Some t => map_view t hash | None => [] end.
Definition matched (ex : JoinProbeExecution) (hashes : list Z) : list row := concat (map (hits ex) hashes).
Definition hit_counts (ex : JoinProbeExecution) (hashes : list Z) : list Z :=
  map (fun h => Z.of_nat (length (hits ex h))) hashes.

Lemma sum_hit_counts ex hashes : sum_counts (hit_counts ex hashes) = Z.of_nat (length (matched ex hashes)).
Proof.
  unfold matched. induction hashes as [|h hashes IH]; [done|]. simpl. rewrite length_app, IH. lia.
Qed.

(** A table for every hash, with tuples of the type. *)
Record tables_ok (ex : JoinProbeExecution) (ty : RHSType) (hashes : list Z) : Prop := {
  tb_partitions : numPartitions ex <> 0;
  tb_threads : numProcessingThreads ex <> 0;
  tb_table h : h ∈ hashes -> exists t, table_at ex h = Some t /\ map_ok t;
  tb_rows h r : h ∈ hashes -> r ∈ hits ex h -> length r = length ty
}.

Lemma lookup_in_eq t h m :
  map_ok t -> exists slot, lookup_in t h m = Ok slot m /\ record_list (myArray t) slot = Some (map_view t h).
Proof.
  intros H. destruct (map_lookup_eq t [] h H) as (slot & E & Hr). exists slot. unfold lookup_in. by rewrite E.
Qed.

Lemma table_of_eq ex ty hashes h m :
  tables_ok ex ty hashes -> h ∈ hashes ->
  exists t, table_of ex h m = Ok t m /\ map_ok t /\ hits ex h = map_view t h.
Proof.
  intros H Hh. destruct (tb_table _ _ _ H h Hh) as (t & Ht & Hok). exists t. unfold table_of, hits.
  rewrite Ht. split_and!; [|done|done].
  rewrite (proj2 (Z.eqb_neq _ _) (tb_partitions _ _ _ H)), (proj2 (Z.eqb_neq _ _) (tb_threads _ _ _ H)). simpl.
  unfold table_at in Ht. destruct (inputTables ex !! _) as [o|]; [|done]. simpl in Ht. subst o. done.
Qed.

Section probing.
Context (ext : gset addr) (out : tsid) (ty : RHSType) (kfs : list Z) (us : list addr) (Hnd : NoDup kfs).

Lemma unpack_matches_spec p slot l k i d m Ls :
  record_list p slot = Some l -> (i + k)%nat = length l ->
  (forall r, r ∈ l -> length r = length ty) ->
  Z.of_nat (length d + k) < 2 ^ 31 ->
  mem_inv ext ∅ m -> probe_cols out m ty kfs us Ls -> holds d Ls ->
  exists m' Ls', unpack_matches ty (map Some us) p slot (seq i k) (Z.of_nat (length d)) m =
      Ok (Z.of_nat (length d + k)) m' /\
    stepped ext out kfs m m' /\ probe_cols out m' ty kfs us Ls' /\ holds (d ++ drop i l) Ls'.
Proof.
  intros Hl. revert i d m Ls. induction k as [|k IH]; intros i d m Ls Hik Hty Hb Hi Hc Hh.
  { exists m, Ls. rewrite drop_ge, app_nil_r, Nat.add_0_r by lia. split_and!; [done|by apply stepped_refl|done|done]. }
  destruct (lookup_lt_is_Some_2 l i) as [r Hr]; [lia|].
  destruct (unpack_spec ext out m ty kfs us Ls r (length d)) as (m1 & E1 & H1 & Hc1); try done.
  { eapply Hty, list_elem_of_lookup_2, Hr. }
  destruct (IH (S i) (d ++ [r]) m1 (zip_with (fun x L => put_row (length d) (VHandle x) L) r Ls) ltac:(lia) Hty) as (m2 & Ls2 & E2 & H2 & Hc2 & Hh2);
    [rewrite length_app; simpl; lia|apply H1|exact Hc1|by apply holds_snoc|].
  exists m2, Ls2. split_and!; [|by eapply stepped_trans|done|].
  - simpl. rewrite (record_at_list _ _ _ _ Hl), Hr. simpl. rewrite (bind_Ok _ _ _ r m) by done.
    assert (Hu : u64 (Z.of_nat (length d)) = Z.of_nat (length d)).
    { unfold u64, wrapu. apply Z.mod_small. lia. }
    rewrite Hu, Nat2Z.id, (bind_Ok _ _ _ _ _ E1), i32_small by lia.
    rewrite length_app in E2. simpl in E2. replace (Z.of_nat (length d) + 1) with (Z.of_nat (length d + 1)) by lia.
    rewrite E2. f_equal. lia.
  - rewrite <- app_assoc in Hh2. by rewrite (drop_S _ _ _ Hr).
Qed.

Lemma probe_rows_spec ex hashes hs pre post d m Ls :
  tables_ok ex ty hashes -> (forall h, h ∈ hs -> h ∈ hashes) -> columns ex = map Some us ->
  length post = length hs -> Z.of_nat (length d + length (matched ex hs)) < 2 ^ 31 ->
  mem_inv ext ∅ m -> probe_cols out m ty kfs us Ls -> holds d Ls ->
  exists m' Ls', probe_rows ty ex hs (length pre) (pre ++ post) (Z.of_nat (length d)) m =
      Ok (pre ++ hit_counts ex hs, Z.of_nat (length d + length (matched ex hs))) m' /\
    stepped ext out kfs m m' /\ probe_cols out m' ty kfs us Ls' /\ holds (d ++ matched ex hs) Ls'.
Proof.
  intros Htab Hsub Hcols. revert pre post d m Ls.
  induction hs as [|h hs IH]; intros pre post d m Ls Hp Hb Hi Hc Hh; simpl.
  { destruct post; [|done]. exists m, Ls. rewrite !app_nil_r, Nat.add_0_r.
    split_and!; [done|by apply stepped_refl|done|done]. }
  destruct post as [|c post]; [done|]. injection Hp as Hp.
  unfold matched in *. simpl in *. rewrite length_app in Hb.
  destruct (table_of_eq ex ty hashes h m Htab) as (t & Et & Hok & Hht); [apply Hsub; by left|].
  destruct (lookup_in_eq t h m Hok) as (slot & Es & Hr). rewrite <- Hht in Hr.
  destruct (unpack_matches_spec _ _ _ (length (hits ex h)) 0 d m Ls Hr) as (m1 & Ls1 & E1 & H1 & Hc1 & Hh1); try done.
  { intros r. apply (tb_rows _ _ _ Htab), Hsub. by left. }
  { lia. }
  destruct (IH ltac:(intros; apply Hsub; by right) (pre ++ [Z.of_nat (length (hits ex h))]) post (d ++ hits ex h) m1 Ls1)
    as (m2 & Ls2 & E2 & H2 & Hc2 & Hh2); [done|rewrite length_app; lia|apply H1|done|done|].
  exists m2, Ls2. split_and!; [|by eapply stepped_trans|done|by rewrite <- app_assoc in Hh2].
  rewrite (bind_Ok _ _ _ _ _ Et), (bind_Ok _ _ _ _ _ Es).
  unfold size. rewrite Hr, i32_small, Nat2Z.id, Hcols by lia. rewrite (bind_Ok _ _ _ _ _ E1).
  unfold u32, wrapu. rewrite Z.mod_small by lia. rewrite insert_app_r_alt, Nat.sub_diag by lia. simpl.
  rewrite !length_app in E2. simpl in E2. rewrite <- !app_assoc, Nat.add_1_r in E2. simpl in E2.
  rewrite E2. unfold hit_counts. f_equal. f_equal. rewrite length_app. lia.
Qed.
End probing.

(** ** JoinProbeExecutor *)

Section join_probe.
Context (ext : gset addr) (inp : tsid) (ty : RHSType) (ex : JoinProbeExecution) (hashes : list Z).
Context (kfs : list Z) (us : list addr).
Context (V : Z -> option (ColType * list val)).
Let out := output ex.
Let ms := matches (myMachine ex).

(** C21: a JoinProbeExecutor's output repeats every row of the input once for
    each of its matches and puts the matches next to them, in the order of the
    rows and, for one row, in the order the hash table has them; what the
    output held before does not matter, the input and all other tuple sets are
    as they were, and the executor is ready for the next batch. *)
Theorem JoinProbeExecutor_process_correct n Ls m :
  mem_inv ext ∅ m -> is_Some (sets m !! out) -> inp <> out ->
  keys_below m out n -> input_view m out inp V -> covers V ms ->
  V (whichAtt ex) = Some (ColSize, map VSize hashes) ->
  (forall i t v, V i = Some (t, v) -> length v = length hashes) ->
  tables_ok ex ty hashes -> Z.of_nat (length (matched ex hashes)) < 2 ^ 31 ->
  columns ex = map Some us -> probe_cols out m ty kfs us Ls -> NoDup kfs ->
  (forall k, k ∈ kfs -> 0 <= k < Z.of_nat n /\ ~ offset ex <= k < offset ex + Z.of_nat (length ms)) ->
  0 <= offset ex -> offset ex + Z.of_nat (length ms) <= Z.of_nat n ->
  wp total (process ty ex inp)
    (fun r m' => r = (set_counts (hit_counts ex hashes) ex, out) /\
       filled out V (fun v => repeat_rows v (hit_counts ex hashes)) (offset ex) ms m' /\
       probe_cols out m' ty kfs us
         (map (fun j => map (fun x : row => VHandle (x !!! j)) (matched ex hashes)) (seq 0 (length ty))) /\
       settled ext out inp V n m m') m.
Proof.
  intros Hi Hs Hne Hkeys Hv Hc Hw Hlen Htab Hb Hcols Hpc Hnd Hks Hoff Hn. unfold process. fold out.
  destruct (Hv _ _ _ Hw) as (aw & mfw & Hrw & _).
  apply wp_bind. eapply wp_eq; [by eapply getColumn_eq|].
  assert (E : map size_of (map VSize hashes) = hashes) by (rewrite map_map; apply map_id). rewrite E. clear E.
  set (c0 := if bool_decide _ then _ else _).
  assert (Hc0 : length c0 = length hashes).
  { unfold c0. case_bool_decide; [done|]. apply vec_resize_length. }
  destruct (probe_rows_spec ext out ty kfs us Hnd ex hashes hashes [] c0 [] m Ls)
    as (m1 & Ls1 & E1 & (Hi1 & Hd1 & He1) & Hc1 & Hh1); try done; [by apply holds_nil|].
  apply wp_bind. eapply wp_eq; [exact E1|]. simpl. unfold erase_rest.
  rewrite (proj2 (Z.ltb_ge _ _)), Hcols, Nat2Z.id by lia.
  destruct (eraseEnd_spec ext out m1 ty kfs us Ls1 (length (matched ex hashes)))
    as (m2 & E2 & (Hi2 & Hd2 & He2) & Hc2); try done.
  apply wp_bind. eapply wp_eq; [exact E2|].
  rewrite (holds_cut _ (length ty)) in Hc2 by (done || by eapply probe_cols_length).
  assert (He12 : evolves ext out kfs m m2) by by eapply evolves_trans.
  apply wp_bind. eapply wp_mono.
  { apply (machine_replicate_spec ext inp out Hne V (myMachine ex) (hit_counts ex hashes) (offset ex) m2); try done.
    - eapply is_Some_dom; [|done]. congruence.
    - by eapply input_view_evolves.
    - intros i t v Hiv. unfold hit_counts. rewrite length_map. by eapply Hlen.
    - apply Forall_forall. intros c (h & -> & _)%list_elem_of_fmap. lia.
    - by rewrite sum_hit_counts. }
  intros [] m3 (Hi3 & Hd3 & Hf3 & He3). fold ms in Hf3, He3. apply wp_mret. split_and!; [done|done| |].
  - eapply probe_cols_mono; [|exact Hc2]. intros k a t v Hk (mf & (He & Hcol & Hf) & Hdel).
    assert (Hk' : k ∉ map (fun x : Z * Z => x.1 + offset ex) (counted ms)).
    { intros Hin%counted_keys_in_range. destruct (Hks k Hk). lia. }
    assert (Ho : own_col m3 out k t v) by (eapply own_col_evolves; [exact He3|done|by exists a, mf]).
    destruct Ho as (a' & mf' & (He' & Hcol' & Hf') & Hdel'). exists mf'. split; [|done].
    rewrite (evolves_entry _ _ _ _ _ out k He3), He in He' by naive_solver. injection He' as <- <-.
    split_and!; [|done|done]. by rewrite (evolves_entry _ _ _ _ _ out k He3) by naive_solver.
  - eapply (settled_intro _ _ _ _ _ (kfs ++ map (fun x : Z * Z => x.1 + offset ex) (counted ms))); try done.
    + congruence.
    + eapply evolves_trans; (eapply evolves_weaken; [|done]); set_solver.
    + intros k [Hk|Hk%counted_keys_in_range]%elem_of_app; [by apply Hks|lia].
Qed.
End join_probe.

(** A table with two records under the hash 5, and a batch of three rows. *)
Module ProbeBatch.
Definition ty : RHSType := [mkField "Department" false].
Definition fill : M (JoinMap row * answers) unit :=
  _ <- BroadcastCombiner.copy_record (fun _ => 0) ty 5 [Some 42] ;;
  BroadcastCombiner.copy_record (fun _ => 0) ty 5 [Some 43].
Definition table : JoinMap row :=
  match fill (JoinMap_new, []) with Ok _ (m, _) => m | _ => JoinMap_new end.
Lemma table_ok : map_ok table.
Proof.
  assert (H : wpx fill (fun _ s => map_ok s.1) (fun e _ => e = NotEnoughSpace) (JoinMap_new, [])).
  { apply wpx_bind. eapply wpx_mono; [apply copy_record_spec, JoinMap_new_ok| |done].
    intros [] [m f] [Hok _]. eapply wpx_mono; [by apply copy_record_spec| |done]. by intros [] s [? _]. }
  unfold table, wpx in *. destruct (fill (JoinMap_new, [])) as [? []|? []|[]| |]; try done; apply JoinMap_new_ok.
Qed.
Definition vcols : list (Z * (ColType * list val)) :=
  [(0, (ColSize, map VSize [5; 6; 5])); (1, (ColHandle "Employee", map VHandle [Some 7; Some 8; Some 9]))].
Definition owner (t : ColType) : MaintenanceFuncs := mkMaint (Some t) true 0.
(** Tuple set 1 is the output, with a row left from the batch before. *)
Definition store : mem := mkMem
  (list_to_map [(1%positive, mkColumn ColSize (map VSize [5; 6; 5]));
                (2%positive, mkColumn (ColHandle "Employee") (map VHandle [Some 7; Some 8; Some 9]));
                (3%positive, mkColumn (ColHandle "Department") [VHandle (Some 41)])])
  (list_to_map [(1%positive, list_to_map [(1, (Some 3%positive, owner (ColHandle "Department")))]);
     (2%positive, list_to_map [(0, (Some 1%positive, owner ColSize));
        (1, (Some 2%positive, owner (ColHandle "Employee")))])]).
Definition executor : JoinProbeExecution :=
  mkProbe 1 0 (mkMachine TupleSpec_empty [1]) [Some table] [] 1 1 [Some 3%positive] 0.
End ProbeBatch.

Lemma JoinProbeExecutor_process_correct_witness :
  wp total (process ProbeBatch.ty ProbeBatch.executor 2)
    (fun r m' => r = (set_counts [2; 0; 2] ProbeBatch.executor, 1%positive) /\
       filled 1 (view_of ProbeBatch.vcols) (fun v => repeat_rows v [2; 0; 2]) 0 [1] m' /\
       probe_cols 1 m' ProbeBatch.ty [1] [3%positive]
         [map VHandle [Some 42; Some 43; Some 42; Some 43]] /\
       settled ∅ 1 2 (view_of ProbeBatch.vcols) 2 ProbeBatch.store m') ProbeBatch.store.
Proof.
  apply (JoinProbeExecutor_process_correct ∅ 2 ProbeBatch.ty ProbeBatch.executor [5; 6; 5] [1] [3%positive]
    (view_of ProbeBatch.vcols) 2 [[VHandle (Some 41)]] ProbeBatch.store).
  - apply mem_invb_sound. by vm_compute.
  - by eexists.
  - done.
  - apply keys_below_check. by vm_compute.
  - apply view_of_stable. by vm_compute.
  - apply covers_check. by vm_compute.
  - done.
  - apply view_of_length. by vm_compute.
  - split; [done|done| |].
    + intros h Hh. exists ProbeBatch.table. split; [|apply ProbeBatch.table_ok].
      repeat (apply elem_of_cons in Hh as [->|Hh]; [reflexivity|]). by apply elem_of_nil in Hh.
    + intros h r Hh. revert r. apply Forall_forall.
      repeat (apply elem_of_cons in Hh as [->|Hh]; [vm_compute; by repeat constructor|]).
      by apply elem_of_nil in Hh.
  - by vm_compute.
  - done.
  - constructor; [|constructor]. exists (ProbeBatch.owner (ColHandle "Department")). split; [|done]. by split_and!.
  - apply NoDup_singleton.
  - intros k ->%list_elem_of_singleton. simpl. lia.
  - done.
  - simpl. lia.
Defined.
