(* ===== verification/BroadcastJoin.v ===== *)
(** The broadcast join as a whole: the rows that JoinSinks wrote on their pages,
    merged by the workers' BroadcastJoinCombinerSinks, are what a
    JoinProbeExecutor with the workers' tables finds. *)

From stdpp Require Import list.
From S2P Require Import Prelude Allocation TupleSet SinkState JoinPairArray Multimap JoinTuple JoinSinks AtomicComputation Executors JoinProbe.

Open Scope Z_scope.

(** ** What a combiner makes of the pages *)

Definition page_view (page : list (JoinMap row)) (k : nat) (h : Z) : list row :=
  match page !! k with Some m => map_view m h | None => [] end.
Definition worker_view (bc : BroadcastCombiner.BroadcastJoinCombinerSink) (page : list (JoinMap row)) (h : Z) : list row :=
  concat (map (fun o => page_view page (o * BroadcastCombiner.numThreads bc + BroadcastCombiner.workerID bc) h)
    (seq 0 (BroadcastCombiner.numNodes bc))).

Section combiner.
Context (default_object : string -> Z) (ty : RHSType) (bc : BroadcastCombiner.BroadcastJoinCombinerSink).
Let N := BroadcastCombiner.numNodes bc.
Let T := BroadcastCombiner.numThreads bc.
Context (Hw : (BroadcastCombiner.workerID bc < T)%nat).

Lemma writeOutPage_spec page m f :
  length page = (N * T)%nat -> (forall k x, page !! k = Some x -> map_ok x) -> map_ok m ->
  wpx (BroadcastCombiner.writeOutPage default_object bc ty page)
    (fun _ s => grown m s.1 (worker_view bc page)) (fun e _ => e = NotEnoughSpace) (m, f).
Proof.
  intros Hlen Hok Hm. unfold BroadcastCombiner.writeOutPage, worker_view. fold N T.
  apply (wpx_for_seq _ (fun i s => grown m s.1 (fun h =>
    concat (map (fun o => page_view page (o * T + BroadcastCombiner.workerID bc) h) (seq 0 i))))).
  - intros o [m1 f1] Ho Hg. simpl in Hg. fold T.
    destruct (lookup_lt_is_Some_2 page (o * T + BroadcastCombiner.workerID bc)) as [x Hx]; [nia|].
    rewrite Hx. simpl. apply wpx_bind, wpx_mret.
    eapply wpx_mono; [apply merge_map_spec; [apply Hg|by eapply Hok]| |done]. intros [] [m2 f2] Hg2. simpl in *.
    eapply grown_trans; [exact Hg|exact Hg2|]. intros h.
    change (concat (map (fun o => page_view page (o * T + BroadcastCombiner.workerID bc) h) (seq 0 (S o))) =
      concat (map (fun o => page_view page (o * T + BroadcastCombiner.workerID bc) h) (seq 0 o)) ++ map_view x h).
    rewrite seq_S, map_app, concat_app. simpl. rewrite app_nil_r. unfold page_view at 2. by rewrite Hx.
  - by apply grown_nil.
Qed.

(** All pages, one after the other. *)
Lemma combine_pages_spec pages m f :
  (forall page, page ∈ pages -> length page = (N * T)%nat /\ forall k x, page !! k = Some x -> map_ok x) ->
  map_ok m ->
  wpx (for_each pages (BroadcastCombiner.writeOutPage default_object bc ty))
    (fun _ s => grown m s.1 (fun h => concat (map (fun page => worker_view bc page h) pages)))
    (fun e _ => e = NotEnoughSpace) (m, f).
Proof.
  intros Hp. revert m f. induction pages as [|page pages IH]; intros m f Hm; simpl.
  { apply wpx_mret. by apply grown_nil. }
  apply wpx_bind. destruct (Hp page) as [Hlen Hok]; [by left|].
  eapply wpx_mono; [by apply writeOutPage_spec| |done]. intros [] [m1 f1] Hg. simpl in Hg.
  eapply wpx_mono; [apply IH; [intros p Hin; apply Hp; by right|apply Hg]| |done].
  intros [] [m2 f2] Hg2. by eapply grown_trans.
Qed.
End combiner.

(** ** The rows of a worker *)

Definition of_worker (P T : Z) (h : Z) (x : Z * row) : bool :=
  ((x.1 mod P) mod T =? (h mod P) mod T) && (norm_hash h =? norm_hash x.1).

Lemma concat_app_perm {A B} (a b : B -> list A) l :
  concat (map (fun o => a o ++ b o) l) ≡ₚ concat (map a l) ++ concat (map b l).
Proof.
  induction l as [|o l IH]; [done|]. simpl. rewrite IH. rewrite !app_assoc. apply Permutation_app_tail.
  rewrite <- !app_assoc. apply Permutation_app_head, Permutation_app_comm.
Qed.

Lemma concat_map_nil {A B} (g : B -> list A) l : (forall o, o ∈ l -> g o = []) -> concat (map g l) = [].
Proof.
  induction l as [|o l IH]; intros H; [done|]. simpl. rewrite (H o) by by left.
  apply IH. intros p Hp. apply H. by right.
Qed.

Lemma omap_ext_in {A B} (g g' : A -> option B) (l : list A) : (forall x, x ∈ l -> g x = g' x) -> omap g l = omap g' l.
Proof.
  induction l as [|x l IH]; intros H; [done|].
  change (omap g (x :: l)) with (match g x with Some y => y :: omap g l | None => omap g l end).
  change (omap g' (x :: l)) with (match g' x with Some y => y :: omap g' l | None => omap g' l end).
  rewrite (H x) by by left. rewrite IH; [done|]. intros y Hy. apply H. by right.
Qed.

Lemma eq_Permutation {A} (l k : list A) : l = k -> l ≡ₚ k.
Proof. by intros ->. Qed.

(** Of the partitions [o * T + w], a number below [N * T] is at most one. *)
Lemma pick_partition {A} N T w q (v : list A) :
  (w < T)%nat -> (q < N * T)%nat ->
  concat (map (fun o => if (q =? o * T + w)%nat then v else []) (seq 0 N)) =
    if (q mod T =? w)%nat then v else [].
Proof.
  intros Hw Hq. destruct (Nat.eqb_spec (q mod T) w) as [E|E].
  - pose proof (Nat.div_mod q T ltac:(lia)) as Hdm. assert (Hd : (q / T < N)%nat) by nia.
    assert (Hs : seq 0 N = seq 0 (q / T) ++ (q / T)%nat :: seq (S (q / T)) (N - S (q / T))).
    { replace N with (q / T + S (N - S (q / T)))%nat at 1 by lia. by rewrite seq_app. }
    rewrite Hs, map_app, concat_app. simpl. rewrite (proj2 (Nat.eqb_eq q _)) by lia.
    rewrite !concat_map_nil, app_nil_r; [done|..]; intros o Ho%elem_of_seq;
      (destruct (Nat.eqb_spec q (o * T + w)) as [Hq'|]; [exfalso; nia|done]).
  - apply concat_map_nil. intros o _. destruct (Nat.eqb_spec q (o * T + w)) as [->|]; [|done].
    exfalso. apply E. rewrite Nat.add_comm, Nat.Div0.mod_add, Nat.mod_small by lia. done.
Qed.

Lemma worker_rows N T w h rows :
  (w < T)%nat -> (h mod Z.of_nat (N * T)) mod Z.of_nat T = Z.of_nat w -> (0 < N)%nat ->
  concat (map (fun o => sent (Z.of_nat (N * T)) rows (o * T + w) h) (seq 0 N)) ≡ₚ
    omap (fun x => if of_worker (Z.of_nat (N * T)) (Z.of_nat T) h x then Some x.2 else None) rows.
Proof.
  intros Hw Hh HN. induction rows as [|x rows IH]; simpl.
  { by rewrite concat_map_nil. }
  assert (HP : 0 < Z.of_nat (N * T)) by nia.
  pose proof (Z.mod_pos_bound (x.1) _ HP) as Hx. assert (Hq : (Z.to_nat (x.1 mod Z.of_nat (N * T)) < N * T)%nat) by lia.
  set (P := Z.of_nat (N * T)) in *.
  transitivity (concat (map (fun o =>
      (if (Z.to_nat (x.1 mod P) =? o * T + w)%nat then (if norm_hash h =? norm_hash x.1 then [x.2] else []) else []) ++
      sent P rows (o * T + w) h) (seq 0 N))).
  { apply eq_Permutation. f_equal. apply map_ext. intros o. unfold sent. simpl. unfold belongs.
    by destruct (Z.to_nat (x.1 mod P) =? o * T + w)%nat, (norm_hash h =? norm_hash x.1). }
  rewrite concat_app_perm, IH, pick_partition by lia.
  unfold of_worker. rewrite Hh.
  replace ((x.1 mod P) mod Z.of_nat T =? Z.of_nat w) with ((Z.to_nat (x.1 mod P) mod T =? w)%nat).
  - by destruct (Z.to_nat (x.1 mod P) mod T =? w)%nat, (norm_hash h =? norm_hash x.1).
  - rewrite <- (Z2Nat.id (x.1 mod P)) at 2 by lia. rewrite <- Nat2Z.inj_mod.
    destruct (Nat.eqb_spec (Z.to_nat (x.1 mod P) mod T) w) as [->|Hne]; [by rewrite Z.eqb_refl|].
    symmetry. apply Z.eqb_neq. lia.
Qed.

(** ** The join *)

(** One worker's merge of all the pages, [createNewOutputContainer] first. *)
Definition combine default_object (ty : RHSType) bc (pages : list (list (JoinMap row))) : M (JoinMap row * answers) unit :=
  _ <- BroadcastCombiner.createNewOutputContainer bc ;;
  for_each pages (BroadcastCombiner.writeOutPage default_object bc ty).

(** A new output container of a JoinSink. *)
Definition new_container (n : nat) : list (JoinMap row) :=
  map (fun i => setHashValue (Z.of_nat i) JoinMap_new) (seq 0 n).

Lemma new_container_view n k m h : new_container n !! k = Some m -> map_view m h = [].
Proof.
  unfold new_container. rewrite list_lookup_fmap. destruct (seq 0 n !! k); simpl; [|done].
  intros [= <-]. apply JoinMap_new_view.
Qed.

Lemma page_view_written P rows page k h n :
  written P (new_container n) rows page -> (k < n)%nat -> page_view page k h = sent P rows k h.
Proof.
  intros H Hk. unfold page_view.
  assert (Hl : length page = n).
  { rewrite (written_length _ _ _ _ H). unfold new_container. by rewrite length_map, length_seq. }
  destruct (lookup_lt_is_Some_2 page k) as [m Hm]; [lia|]. rewrite Hm.
  destruct (lookup_lt_is_Some_2 (new_container n) k) as [m0 Hm0].
  { unfold new_container. by rewrite length_map, length_seq. }
  by rewrite (wr_view _ _ _ _ H _ _ _ h Hm Hm0), (new_container_view _ _ _ _ Hm0).
Qed.

Lemma combine_view default_object ty N T w pages rows f m f' h :
  (w < T)%nat -> (0 < N)%nat ->
  Forall2 (fun rs page => written (Z.of_nat (N * T)) (new_container (N * T)) rs page) rows pages ->
  combine default_object ty (BroadcastCombiner.mkCombiner N T w) pages (JoinMap_new, f) = Ok tt (m, f') ->
  map_ok m /\ joinHashValue m = Z.of_nat w /\
  ((h mod Z.of_nat (N * T)) mod Z.of_nat T = Z.of_nat w ->
   map_view m h ≡ₚ omap (fun x => if of_worker (Z.of_nat (N * T)) (Z.of_nat T) h x then Some x.2 else None) (concat rows)).
Proof.
  intros Hw HN HF Hrun. set (bc := BroadcastCombiner.mkCombiner N T w) in *.
  assert (H : wpx (combine default_object ty bc pages)
    (fun _ s => grown (setHashValue (Z.of_nat w) JoinMap_new) s.1
       (fun h => concat (map (fun page => worker_view bc page h) pages)))
    (fun e _ => e = NotEnoughSpace) (JoinMap_new, f)).
  { apply wpx_bind. unfold BroadcastCombiner.createNewOutputContainer.
    apply wpx_bind, wpx_alloc; intros f1; [|done]. unfold wpx at 1, modify.
    apply combine_pages_spec; [done| |apply set_hash_new_ok].
    intros page [i Hp]%list_elem_of_lookup. destruct (Forall2_lookup_r _ _ _ _ page HF Hp) as (rs & _ & Hwr).
    split; [|intros k x; apply (wr_ok _ _ _ _ Hwr)].
    rewrite (written_length _ _ _ _ Hwr). unfold new_container. by rewrite length_map, length_seq. }
  unfold wpx in H. rewrite Hrun in H. destruct H as (Hok & Ht & Hv). split_and!; [done|done|].
  intros Hh. simpl in Hv. rewrite Hv.
  change (map_view (setHashValue (Z.of_nat w) JoinMap_new) h) with (@map_view row JoinMap_new h).
  rewrite JoinMap_new_view. simpl. clear -HF Hw HN Hh.
  induction HF as [|rs page rows pages Hwr HF IH]; [done|]. simpl. rewrite IH, omap_app.
  apply Permutation_app_tail. rewrite <- (worker_rows N T w h rs) by done.
  apply eq_Permutation. unfold worker_view. simpl. f_equal. apply map_ext_in. intros o Ho%list_elem_of_In%elem_of_seq.
  eapply page_view_written; [done|nia].
Qed.

(** What JoinSinks wrote on one page: whole batches, and of the batch that
    found the page full the rows that left the batch's tuple set. *)
Inductive sink_page default_object (js : JoinSink.JoinSink) (ty : RHSType) : list (Z * row) -> list (JoinMap row) -> Prop :=
| page_new : sink_page default_object js ty [] (new_container (Z.to_nat (JoinSink.numPartitions js)))
| page_batch rs page input m ks hs ka us f m' page' f' :
    sink_page default_object js ty rs page -> join_input js ty input m ks hs ka us ->
    JoinSink.writeOut default_object js ty input (mkSinkState m page, f) = Ok tt (mkSinkState m' page', f') ->
    sink_page default_object js ty (rs ++ input_rows ks hs) page'
| page_full rs page input m ks hs ka us f m' page' f' rest :
    sink_page default_object js ty rs page -> join_input js ty input m ks hs ka us ->
    JoinSink.writeOut default_object js ty input (mkSinkState m page, f) = Raise NotEnoughSpace (mkSinkState m' page', f') ->
    cols m' !! ka = Some (mkColumn ColSize rest) ->
    sink_page default_object js ty (rs ++ take (length ks - length rest) (input_rows ks hs)) page'.

Lemma written_trans P l0 rs l rs' l' :
  written P l0 rs l -> written P l rs' l' -> written P l0 (rs ++ rs') l'.
Proof.
  intros H H'. split.
  - apply (wr_ok _ _ _ _ H').
  - by rewrite (wr_tags _ _ _ _ H'), (wr_tags _ _ _ _ H).
  - intros k m m0 h Hm Hm0. destruct (lookup_lt_is_Some_2 l k) as [m1 Hm1].
    { rewrite <- (written_length _ _ _ _ H'). by eapply lookup_lt_Some. }
    by rewrite (wr_view _ _ _ _ H' _ _ _ h Hm Hm1), (wr_view _ _ _ _ H _ _ _ h Hm1 Hm0), sent_app, app_assoc.
Qed.

Lemma sink_page_written default_object js ty rs page :
  0 < JoinSink.numPartitions js -> sink_page default_object js ty rs page ->
  written (JoinSink.numPartitions js) (new_container (Z.to_nat (JoinSink.numPartitions js))) rs page.
Proof.
  intros HP. assert (Hlen : forall rs page,
    written (JoinSink.numPartitions js) (new_container (Z.to_nat (JoinSink.numPartitions js))) rs page ->
    JoinSink.numPartitions js = Z.of_nat (length page) /\ (0 < length page)%nat).
  { intros rs' page' H. rewrite (written_length _ _ _ _ H). unfold new_container. rewrite length_map, length_seq. lia. }
  induction 1 as [|rs page input m ks hs ka us f m' page' f' Hp IH Hin Hrun|rs page input m ks hs ka us f m' page' f' rest Hp IH Hin Hrun Hrest].
  - apply written_nil. intros k m. unfold new_container. rewrite list_lookup_fmap.
    destruct (seq 0 _ !! k); simpl; [|done]. intros [= <-]. apply set_hash_new_ok.
  - destruct (Hlen _ _ IH) as [H1 H2]. eapply written_trans; [exact IH|].
    pose proof (writeOut_spec default_object js ty input page H1 H2 m ks hs ka us Hin (mkSinkState m page) f) as H.
    unfold wpx in H. rewrite Hrun in H. destruct H as [_ Hw]; [split; [done|]; by apply written_nil, (wr_ok _ _ _ _ IH)|].
    by rewrite take_ge in Hw by by rewrite input_rows_length.
  - destruct (Hlen _ _ IH) as [H1 H2]. eapply written_trans; [exact IH|].
    pose proof (writeOut_spec default_object js ty input page H1 H2 m ks hs ka us Hin (mkSinkState m page) f) as H.
    unfold wpx in H. rewrite Hrun in H. destruct H as (i & _ & Hi & Hc & Hw); [split; [done|]; by apply written_nil, (wr_ok _ _ _ _ IH)|].
    destruct Hc as (_ & Hc & _). simpl in Hc. rewrite (Hc ka ColSize (map VSize ks)) in Hrest; [|by left|apply Hin].
    injection Hrest as <-. rewrite length_drop, length_map. by replace (length ks - (length ks - i))%nat with i by lia.
Qed.

(** Tables with different hash values in range are each found under theirs. *)
Lemma place_tables_spec (ws : list nat) (ms : list (JoinMap row)) tables m :
  Forall2 (fun w x => joinHashValue x = Z.of_nat w) ws ms -> NoDup ws -> (forall w, w ∈ ws -> (w < length tables)%nat) ->
  exists tables', place_tables tables ms m = Ok tables' m /\
    (forall i w x, ws !! i = Some w -> ms !! i = Some x -> tables' !! w = Some (Some x)) /\
    (forall w, w ∉ ws -> tables' !! w = tables !! w).
Proof.
  intros H. revert tables. induction H as [|w x ws ms Hx H IH]; intros tables Hnd Hlt; simpl.
  { exists tables. split_and!; [done|intros i w x Hi; by rewrite lookup_nil in Hi|done]. }
  apply NoDup_cons in Hnd as [Hw Hnd]. pose proof (Hlt w ltac:(by left)) as Hwt.
  destruct (IH (<[w := Some x]> tables) Hnd) as (t' & E & H1 & H2).
  { intros v Hv. rewrite length_insert. apply Hlt. by right. }
  exists t'. rewrite Hx, (proj2 (Z.leb_le _ _)), (proj2 (Z.ltb_lt _ _)) by lia. rewrite Nat2Z.id.
  simpl. split_and!; [done| |].
  - intros [|i] v y; simpl; [|by eauto]. intros [= <-] [= <-]. rewrite H2 by done. by apply list_lookup_insert_eq.
  - intros v [Hv Hvs]%not_elem_of_cons. by rewrite H2, list_lookup_insert_ne by done.
Qed.

(** C1: in a broadcast join the matches of a hash, looked up in the table of
    its worker, are the rows the JoinSinks wrote, on whatever pages, whose hash
    is the same key and falls to the same worker, each as often as it was
    written; when the reserved hash value does not occur these are exactly the
    rows with that hash. *)
Theorem broadcast_join_matches default_object ty N T rows pages ws ms tables ex h mem0 :
  (0 < N)%nat -> (0 < T)%nat ->
  Forall2 (fun rs page => exists js, JoinSink.numPartitions js = Z.of_nat (N * T) /\
    sink_page default_object js ty rs page) rows pages ->
  ws ≡ₚ seq 0 T ->
  Forall2 (fun w m => exists f f',
    combine default_object ty (BroadcastCombiner.mkCombiner N T w) pages (JoinMap_new, f) = Ok tt (m, f')) ws ms ->
  place_tables (replicate T None) ms mem0 = Ok tables mem0 ->
  inputTables ex = tables -> numPartitions ex = Z.of_nat (N * T) -> numProcessingThreads ex = Z.of_nat T ->
  hits ex h ≡ₚ omap (fun x => if of_worker (Z.of_nat (N * T)) (Z.of_nat T) h x then Some x.2 else None) (concat rows) /\
  (h <> JM_UNUSED -> (forall x, x ∈ concat rows -> x.1 <> JM_UNUSED) ->
   hits ex h ≡ₚ omap (fun x => if x.1 =? h then Some x.2 else None) (concat rows)).
Proof.
  intros HN HT Hpages Hws Hms Hplace Htab HP HT'.
  assert (Hwr : Forall2 (fun rs page => written (Z.of_nat (N * T)) (new_container (N * T)) rs page) rows pages).
  { eapply Forall2_impl; [exact Hpages|]. intros rs page (js & Hjs & Hsp).
    apply sink_page_written in Hsp; [|rewrite Hjs; nia]. by rewrite Hjs, Nat2Z.id in Hsp. }
  assert (Hlt : forall w, w ∈ ws -> (w < T)%nat) by (intros w; rewrite Hws, elem_of_seq; lia).
  assert (Hc : Forall2 (fun w m => map_ok m /\ joinHashValue m = Z.of_nat w /\ forall h,
    (h mod Z.of_nat (N * T)) mod Z.of_nat T = Z.of_nat w ->
    map_view m h ≡ₚ omap (fun x => if of_worker (Z.of_nat (N * T)) (Z.of_nat T) h x then Some x.2 else None) (concat rows)) ws ms).
  { apply Forall2_same_length_lookup_2; [by eapply Forall2_length|]. intros i w m Hw Hm.
    destruct (Forall2_lookup_lr _ _ _ _ _ _ Hms Hw Hm) as (f & f' & Hrun).
    assert (Hwt : (w < T)%nat) by by eapply Hlt, list_elem_of_lookup_2.
    destruct (combine_view default_object ty N T w pages rows f m f' 0 Hwt HN Hwr Hrun) as (? & ? & _).
    split_and!; [done|done|]. intros h'. by eapply combine_view. }
  destruct (place_tables_spec ws ms (replicate T None) mem0) as (tables' & E & Hfound & _).
  { eapply Forall2_impl; [exact Hc|]. by intros w m (_ & ? & _). }
  { rewrite Hws. apply NoDup_seq. }
  { intros w Hw. rewrite length_replicate. auto. }
  rewrite Hplace in E. injection E as <-.
  assert (Hmain : hits ex h ≡ₚ omap (fun x => if of_worker (Z.of_nat (N * T)) (Z.of_nat T) h x then Some x.2 else None) (concat rows)).
  { set (w := Z.to_nat ((h mod Z.of_nat (N * T)) mod Z.of_nat T)).
    pose proof (Z.mod_pos_bound (h mod Z.of_nat (N * T)) (Z.of_nat T) ltac:(lia)).
    assert (Hw : w ∈ ws) by (rewrite Hws, elem_of_seq; lia).
    apply list_elem_of_lookup in Hw as [i Hi]. destruct (Forall2_lookup_l _ _ _ _ _ Hc Hi) as (m & Hm & Hok & _ & Hv).
    unfold hits, table_at. rewrite Htab, HP, HT'. fold w. rewrite (Hfound _ _ _ Hi Hm). simpl.
    apply Hv. lia. }
  split; [done|]. intros Hh Hx. rewrite Hmain. apply eq_Permutation. clear -Hh Hx.
  apply omap_ext_in. intros x Hin. unfold of_worker. assert (Hn : norm_hash h = h /\ norm_hash x.1 = x.1).
  { unfold norm_hash. by rewrite !(proj2 (Z.eqb_neq _ _)) by auto. }
  destruct Hn as [-> ->]. rewrite (Z.eqb_sym h). destruct (Z.eqb_spec x.1 h) as [->|]; [by rewrite Z.eqb_refl|].
  by rewrite andb_false_r.
Qed.

(** One node with two threads; one sink writes the three rows of a batch to a
    page, and the two workers merge it. *)
Module BroadcastRun.
Definition page : list (JoinMap row) :=
  match JoinSink.writeOut (fun _ => 0) (JoinBatch.sink 2) JoinBatch.ty 2
          (mkSinkState JoinBatch.store (new_container 2), []) with
  | Ok _ (s, _) => s_maps s
  | _ => []
  end.
Definition table (w : nat) : JoinMap row :=
  match combine (fun _ => 0) JoinBatch.ty (BroadcastCombiner.mkCombiner 1 2 w) [page] (JoinMap_new, []) with
  | Ok _ (m, _) => m
  | _ => JoinMap_new
  end.
(** The workers' pages come in any order. *)
Definition executor : JoinProbeExecution :=
  mkProbe 1 0 (mkMachine TupleSpec_empty [1]) [Some (table 0); Some (table 1)] [] 2 2 [] 0.
End BroadcastRun.

Lemma broadcast_join_matches_witness :
  hits BroadcastRun.executor 5 ≡ₚ
    omap (fun x => if of_worker 2 2 5 x then Some x.2 else None)
      (concat [input_rows [5; 6; 5] [[Some 10; Some 11; Some 12]]]) /\
  (5 <> JM_UNUSED -> (forall x, x ∈ concat [input_rows [5; 6; 5] [[Some 10; Some 11; Some 12]]] -> x.1 <> JM_UNUSED) ->
   hits BroadcastRun.executor 5 ≡ₚ
     omap (fun x => if x.1 =? 5 then Some x.2 else None)
       (concat [input_rows [5; 6; 5] [[Some 10; Some 11; Some 12]]])).
Proof.
  apply (broadcast_join_matches (fun _ => 0) JoinBatch.ty 1 2
    [input_rows [5; 6; 5] [[Some 10; Some 11; Some 12]]] [BroadcastRun.page] [1; 0]%nat
    [BroadcastRun.table 1; BroadcastRun.table 0] [Some (BroadcastRun.table 0); Some (BroadcastRun.table 1)]
    BroadcastRun.executor 5 JoinBatch.store).
  - lia.
  - lia.
  - constructor; [|constructor]. exists (JoinBatch.sink 2). split; [done|].
    eapply (page_batch _ _ _ [] (new_container 2) 2 JoinBatch.store [5; 6; 5] [[Some 10; Some 11; Some 12]]
      2 [1%positive] []); [apply page_new|apply JoinBatch.input|vm_compute; reflexivity].
  - apply Permutation_swap.
  - repeat constructor; exists [], []; vm_compute; reflexivity.
  - vm_compute. reflexivity.
  - done.
  - done.
  - done.
Defined.
