(* ===== verification/PDBMap.v ===== *)
(** The hash map that aggregations build: PairArray and PDBMap,
    pdb/src/builtInPDBObjects/headers/PairArray.cc and PDBMap.cc, and the proof
    that it is a map from keys to values. *)

From stdpp Require Import list.
From S2P Require Import Prelude Probing Allocation JoinPairArray Multimap.

Open Scope Z_scope.

Section map.
Context {K V : Type} `{EqDecision K} (hash_impl : K -> Z) (default_value : V) (plain : bool).

(** [Hasher::hash]: the reserved value is replaced. *)
Definition hasher (k : K) : Z := norm_hash (hash_impl k).

Record PairArray := mkPairArray {
  slots : list (option (K * V));
  used_slots_count : Z;
  max_slots : Z
}.
Definition set_slots (d : list (option (K * V))) (p : PairArray) : PairArray :=
  mkPairArray d (used_slots_count p) (max_slots p).
Definition PairArray_new (numSlotsIn : nat) : PairArray :=
  mkPairArray (replicate numSlotsIn None) 0 (Z.of_nat numSlotsIn * 667 / 1000).
Definition overFull (p : PairArray) : bool := max_slots p <=? used_slots_count p.

Abbreviation PAM := (M (PairArray * answers)).
Definition pairs : PAM PairArray := s <- get ;; mret s.1.
Definition modify_pairs (f : PairArray -> PairArray) : PAM unit := modify (fun s => (f s.1, s.2)).

Definition slot_for (me : K) (p : PairArray) : option nat := find_slot hasher fst me (slots p).

(** Running off the end only prints a warning here. *)
Definition pa_count (me : K) : PAM Z :=
  p <- pairs ;;
  mret (match slot_for me p with
        | Some s => match slots p !! s with Some (Some _) => 1 | _ => 0 end
        | None => 0
        end).

Definition pa_setUnused (me : K) : PAM unit :=
  p <- pairs ;;
  match slot_for me p with
  | Some s => match slots p !! s with
              | Some (Some _) => modify_pairs (set_slots (<[s := None]> (slots p)))
              | _ => mret tt
              end
  | None => mret tt
  end.

(** [operator[]]: the slot of the value; a missing key is constructed together
    with a default value, and then the key is copied. *)
Definition pa_at (me : K) : PAM nat :=
  p <- pairs ;;
  match slot_for me p with
  | None => exit
  | Some s =>
      match slots p !! s with
      | Some None =>
          _ <- copy_alloc plain ;;
          _ <- copy_alloc plain ;;
          _ <- modify_pairs (fun p => mkPairArray (<[s := Some (me, default_value)]> (slots p))
                                        (used_slots_count p + 1) (max_slots p)) ;;
          mret s
      | _ => mret s
      end
  end.

(** Reading and writing the value in a slot. *)
Definition value_at (s : nat) : PAM V :=
  p <- pairs ;;
  match slots p !! s with Some (Some x) => mret x.2 | _ => ub UseAfterFree end.
(** [GET_VALUE(data, s) = v], which copies [v]. *)
Definition set_value (s : nat) (v : V) : PAM unit :=
  _ <- copy_alloc plain ;;
  p <- pairs ;;
  match slots p !! s with
  | Some (Some x) => modify_pairs (set_slots (<[s := Some (x.1, v)]> (slots p)))
  | _ => ub UseAfterFree
  end.

(** Runs a computation on the new array while the old one is the state. *)
Definition on_new {A} (newOne : PairArray) (m : PAM A) : PAM (A * PairArray) := fun '(p, f) =>
  match m (newOne, f) with
  | Ok a (q, f') => Ok (a, q) (p, f')
  | Raise e (_, f') => Raise e (p, f')
  | Exit (_, f') => Exit (p, f')
  | Fault x => Fault x
  | NoFuel => NoFuel
  end.

(** The loop of [doubleArray]: every entry is copied to the new array and then
    destroyed in the old one. *)
Fixpoint move_slots (todo : list nat) (newOne : PairArray) : PAM PairArray :=
  match todo with
  | [] => mret newOne
  | i :: todo' =>
      p <- pairs ;;
      match slots p !! i with
      | Some (Some x) =>
          r <- on_new newOne (s <- pa_at x.1 ;; set_value s x.2) ;;
          _ <- modify_pairs (fun p => set_slots (<[i := None]> (slots p)) p) ;;
          move_slots todo' r.2
      | _ => move_slots todo' newOne
      end
  end.
Definition pa_double : PAM PairArray :=
  p <- pairs ;;
  _ <- alloc ;;
  move_slots (seq 0 (length (slots p))) (PairArray_new (2 * length (slots p))).

(** ** Map *)

Definition Map_new : PairArray := PairArray_new 2.
Definition Map_ofSize (initSize : nat) : PairArray := PairArray_new (if (initSize <? 2)%nat then 2 else initSize).

(** The array doubles only for a key that is not there. *)
Definition map_at (which : K) : PAM nat :=
  c <- pa_count which ;;
  _ <- (if c =? 0
        then p <- pairs ;;
             if overFull p then temp <- pa_double ;; modify_pairs (fun _ => temp) else mret tt
        else mret tt) ;;
  pa_at which.
Definition Map_size (p : PairArray) : Z := used_slots_count p.

(** ** PDBMapIterator *)

Record PDBMapIterator := mkMapIterator { it_slot : nat; it_done : bool }.

(** The first used slot from [slot] on, or the number of slots. *)
Fixpoint skip_unused (d : list (option (K * V))) (slot : nat) : nat :=
  match d with
  | [] => slot
  | Some _ :: _ => slot
  | None :: d' => skip_unused d' (S slot)
  end.
Definition to_used (p : PairArray) (slot : nat) : PDBMapIterator :=
  let slot' := skip_unused (drop slot (slots p)) slot in
  mkMapIterator slot' (slot' =? length (slots p))%nat.
Definition it_begin (p : PairArray) : PDBMapIterator := to_used p 0.
Definition it_next (p : PairArray) (it : PDBMapIterator) : PDBMapIterator :=
  let slot := if it_done it then it_slot it else S (it_slot it) in
  let it' := to_used p slot in
  mkMapIterator (it_slot it') (it_done it' || it_done it).
Definition it_pair (p : PairArray) (it : PDBMapIterator) : option (K * V) := mjoin (slots p !! it_slot it).

(** The loop over [begin()] to [end()], the end iterator being done; every
    round moves to a later slot. *)
Fixpoint iterate_pairs {S} (fuel : nat) (p : PairArray) (it : PDBMapIterator) (body : K * V -> M S unit) : M S unit :=
  match fuel with
  | O => fun _ => NoFuel
  | Datatypes.S fuel' =>
      if it_done it then mret tt
      else
        x <- unwrap UseAfterFree (it_pair p it) ;;
        _ <- body x ;;
        iterate_pairs fuel' p (it_next p it) body
  end.
Definition for_each_pair {S} (p : PairArray) (body : K * V -> M S unit) : M S unit :=
  iterate_pairs (Datatypes.S (length (slots p))) p (it_begin p) body.
End map.
Arguments PairArray : clear implicits.

Section spec.
Context {K V : Type} `{EqDecision K} (hash_impl : K -> Z) (default_value : V) (plain : bool).
Abbreviation PA := (PairArray K V).
Implicit Types p q : PA.
Abbreviation hash := (hasher hash_impl).
Abbreviation find k p := (slot_for hash_impl k p).

Definition has_pair p (k : K) (v : V) : Prop := exists s, slots p !! s = Some (Some (k, v)).

(** The value of a key. *)
Definition pview p (k : K) : option V :=
  match find k p with
  | Some s => match slots p !! s with Some (Some x) => Some x.2 | _ => None end
  | None => None
  end.

Record pa_ok p : Prop := {
  pa_probe : probe_ok hash fst (slots p);
  pa_used : Z.of_nat (used_count (slots p)) <= used_slots_count p <= max_slots p;
  pa_max : max_slots p = Z.of_nat (length (slots p)) * 667 / 1000
}.

Lemma pa_size p : pa_ok p -> (2 <= length (slots p))%nat.
Proof. intros H. by destruct (pa_probe _ H). Qed.

Lemma pa_free p : pa_ok p -> has_free (slots p).
Proof.
  intros H. apply used_count_free. pose proof (pa_used _ H). pose proof (pa_max _ H).
  pose proof (max_lt _ (pa_size _ H)). lia.
Qed.

Lemma pa_find_cases p k :
  probe_ok hash fst (slots p) -> has_free (slots p) ->
  exists s, find k p = Some s /\
    ((slots p !! s = Some None /\ pview p k = None /\ forall v, ~ has_pair p k v) \/
     (exists v, slots p !! s = Some (Some (k, v)) /\ pview p k = Some v)).
Proof.
  intros H Hf. destruct (find_slot_total hash fst k (slots p)) as [s Hs]; [apply H|done|].
  exists s. split; [done|]. pose proof (probe_stops _ _ _ _ _ _ _ Hs) as [Hn|([k' v] & Hx & Hk)].
  - left. split_and!; [done|by unfold pview, slot_for; rewrite Hs, Hn|].
    intros v [t Ht]. by apply (find_slot_absent hash fst k (slots p) s H Hs Hn t (k, v)).
  - right. simpl in Hk. subst k'. exists v. split; [done|]. unfold pview, slot_for. by rewrite Hs, Hx.
Qed.

Lemma pview_pair p k v :
  probe_ok hash fst (slots p) -> has_free (slots p) -> pview p k = Some v <-> has_pair p k v.
Proof.
  intros H Hf. destruct (pa_find_cases p k H Hf) as (s & Hs & [(Hn & Hv & Hno)|(v' & Hx & Hv)]); rewrite Hv.
  - split; [done|]. intros Hp. by destruct (Hno v).
  - split; [intros [= <-]; by exists s|]. intros [t Ht].
    pose proof (find_slot_present hash fst k (slots p) t (k, v) H Ht eq_refl) as E.
    unfold slot_for in Hs. by simplify_eq.
Qed.

Lemma pview_iff p k v : pa_ok p -> pview p k = Some v <-> has_pair p k v.
Proof. intros H. apply pview_pair; [apply H|by apply pa_free]. Qed.

Lemma pview_ext p q :
  pa_ok p -> pa_ok q -> (forall k v, has_pair p k v <-> has_pair q k v) -> forall k, pview p k = pview q k.
Proof. intros. apply option_eq. intros v. by rewrite !pview_iff. Qed.

Lemma pa_count_eq p f k :
  pa_ok p -> pa_count hash_impl k (p, f) = Ok (if pview p k is Some _ then 1 else 0) (p, f).
Proof.
  intros H. destruct (pa_find_cases p k (pa_probe _ H) (pa_free _ H)) as (s & Hs & [(Hn & Hv & _)|(v & Hx & Hv)]);
    unfold pa_count, bind, pairs, bind, get; simpl; rewrite Hs, Hv; [by rewrite Hn|by rewrite Hx].
Qed.

(** ** Adding a pair, changing a value *)

(** [q] is [p] with the pair in the free slot where its key belongs. *)
Lemma fill_pair p k v s k' v' :
  slots p !! s = Some None ->
  has_pair (set_slots (<[s := Some (k, v)]> (slots p)) p) k' v' <-> (k' = k /\ v' = v) \/ has_pair p k' v'.
Proof.
  intros Hs. pose proof (lookup_lt_Some _ _ _ Hs). unfold has_pair. simpl. split.
  - intros [t Ht]. destruct (decide (s = t)) as [<-|Hne].
    + rewrite list_lookup_insert_eq in Ht by done. left. by simplify_eq.
    + rewrite list_lookup_insert_ne in Ht by done. right. eauto.
  - intros [[-> ->]|[t Ht]]; [exists s; by rewrite list_lookup_insert_eq|].
    exists t. rewrite list_lookup_insert_ne; [done|]. congruence.
Qed.

Lemma update_pair p k v v1 s k' v' :
  probe_ok hash fst (slots p) -> slots p !! s = Some (Some (k, v1)) ->
  has_pair (set_slots (<[s := Some (k, v)]> (slots p)) p) k' v' <->
    (k' = k /\ v' = v) \/ (k' <> k /\ has_pair p k' v').
Proof.
  intros [_ Hok] Hs. pose proof (lookup_lt_Some _ _ _ Hs). unfold has_pair. simpl. split.
  - intros [t Ht]. destruct (decide (s = t)) as [<-|Hne].
    + rewrite list_lookup_insert_eq in Ht by done. left. by simplify_eq.
    + rewrite list_lookup_insert_ne in Ht by done. right. split; [|eauto]. intros ->.
      pose proof (Hok _ _ Hs) as E1. pose proof (Hok _ _ Ht) as E2. simpl in *. congruence.
  - intros [[-> ->]|[Hne [t Ht]]]; [exists s; by rewrite list_lookup_insert_eq|].
    exists t. rewrite list_lookup_insert_ne; [done|]. intros <-. congruence.
Qed.

Lemma pa_ok_fill p k v s :
  pa_ok p -> find k p = Some s -> slots p !! s = Some None -> used_slots_count p < max_slots p ->
  pa_ok (mkPairArray (<[s := Some (k, v)]> (slots p)) (used_slots_count p + 1) (max_slots p)).
Proof.
  intros H Hf Hs Hlt. split; simpl.
  - apply (probe_ok_fill hash fst k); [apply H|done..].
  - rewrite used_count_fill by done. pose proof (pa_used _ H). lia.
  - rewrite length_insert. apply H.
Qed.

Lemma pa_ok_update p k v v1 s :
  pa_ok p -> slots p !! s = Some (Some (k, v1)) -> pa_ok (set_slots (<[s := Some (k, v)]> (slots p)) p).
Proof.
  intros H Hs. split; simpl.
  - by apply (probe_ok_update hash fst (slots p) s (k, v1)); [apply H|..].
  - rewrite (used_count_update _ _ (k, v1)) by done. apply H.
  - rewrite length_insert. apply H.
Qed.

Lemma pview_update p k v v1 s k' :
  pa_ok p -> slots p !! s = Some (Some (k, v1)) ->
  pview (set_slots (<[s := Some (k, v)]> (slots p)) p) k' = if decide (k' = k) then Some v else pview p k'.
Proof.
  intros H Hs. pose proof (pa_ok_update p k v v1 s H Hs) as H'. apply option_eq. intros v'.
  rewrite pview_iff by done. rewrite (update_pair p k v v1) by (done || apply H).
  destruct (decide (k' = k)) as [->|Hne]; [naive_solver|].
  rewrite pview_iff by done. naive_solver.
Qed.

Lemma pview_fill p k v s k' :
  pa_ok p -> find k p = Some s -> slots p !! s = Some None -> used_slots_count p < max_slots p ->
  pview (mkPairArray (<[s := Some (k, v)]> (slots p)) (used_slots_count p + 1) (max_slots p)) k' =
    if decide (k' = k) then Some v else pview p k'.
Proof.
  intros H Hf Hs Hlt. pose proof (pa_ok_fill p k v s H Hf Hs Hlt) as H'. apply option_eq. intros v'.
  rewrite pview_iff by done.
  change (has_pair (set_slots (<[s := Some (k, v)]> (slots p)) p) k' v' <->
    (if decide (k' = k) then Some v else pview p k') = Some v').
  rewrite fill_pair by done.
  destruct (pa_find_cases p k (pa_probe _ H) (pa_free _ H)) as (s' & Hs' & [(_ & _ & Hno)|(w & Hx & _)]);
    [|by simplify_eq].
  destruct (decide (k' = k)) as [->|Hne]; [naive_solver|].
  rewrite pview_iff by done. naive_solver.
Qed.

Lemma value_at_eq p f s k v : slots p !! s = Some (Some (k, v)) -> value_at s (p, f) = Ok v (p, f).
Proof. intros Hs. unfold value_at, bind, pairs, bind, get. simpl. by rewrite Hs. Qed.

Lemma set_value_spec p f s k v v' :
  slots p !! s = Some (Some (k, v)) ->
  wpx (set_value plain s v') (fun _ x => x.1 = set_slots (<[s := Some (k, v')]> (slots p)) p)
    (fun e x => e = NotEnoughSpace /\ plain = false /\ x.1 = p) (p, f).
Proof.
  intros Hs. unfold set_value. apply wpx_bind, wpx_copy_alloc; [|done]. intros f'.
  unfold wpx, bind, pairs, bind, get. simpl. by rewrite Hs.
Qed.

Lemma pa_at_present p f k v :
  pa_ok p -> pview p k = Some v ->
  exists s, pa_at hash_impl default_value plain k (p, f) = Ok s (p, f) /\ slots p !! s = Some (Some (k, v)).
Proof.
  intros H Hv. destruct (pa_find_cases p k (pa_probe _ H) (pa_free _ H)) as (s & Hs & [(Hn & Hv' & _)|(v' & Hx & Hv')]);
    [congruence|]. simplify_eq. exists s. split; [|done].
  unfold pa_at, bind, pairs, bind, get. simpl. by rewrite Hs, Hx.
Qed.

Lemma pa_at_absent p f k s :
  find k p = Some s -> slots p !! s = Some None ->
  wpx (pa_at hash_impl default_value plain k)
    (fun s' x => s' = s /\
       x.1 = mkPairArray (<[s := Some (k, default_value)]> (slots p)) (used_slots_count p + 1) (max_slots p))
    (fun e x => e = NotEnoughSpace /\ plain = false /\ x.1 = p) (p, f).
Proof.
  intros Hf Hs. unfold pa_at. apply wpx_bind. eapply wpx_eq; [done|]. simpl. rewrite Hf, Hs.
  apply wpx_bind, wpx_copy_alloc; [|done]. intros f1. apply wpx_bind, wpx_copy_alloc; [|done]. intros f2. done.
Qed.

(** ** Doubling *)

(** [q] has the pairs of the first [i] slots of [p]. *)
Record moved p (i : nat) q : Prop := {
  mv_ok : probe_ok hash fst (slots q);
  mv_len : length (slots q) = (2 * length (slots p))%nat;
  mv_max : max_slots q = Z.of_nat (length (slots q)) * 667 / 1000;
  mv_used : used_slots_count q = Z.of_nat (used_count (take i (slots p)));
  mv_count : used_count (slots q) = used_count (take i (slots p));
  mv_pairs k v : has_pair q k v <-> exists j, (j < i)%nat /\ slots p !! j = Some (Some (k, v))
}.

Lemma used_count_take p i : (used_count (take i (slots p)) <= length (slots p))%nat.
Proof.
  etrans; [apply used_count_le|]. rewrite length_take. lia.
Qed.

Lemma moved_none p i q : slots p !! i = Some None -> moved p i q -> moved p (S i) q.
Proof.
  intros Hi [H1 H2 H3 H4 H5 H6]. rewrite <- (Nat.add_0_r (used_count (take i (slots p)))) in H4, H5.
  split; try done; try by rewrite (used_count_take_S _ _ _ Hi).
  intros k v. rewrite H6. split.
  - intros (j & Hj & E). exists j. split; [lia|done].
  - intros (j & Hj & E). exists j. split; [|done]. destruct (decide (j = i)) as [->|]; [congruence|lia].
Qed.

(** Moving one pair. *)
Lemma move_one p i q k v f :
  pa_ok p -> moved p i q -> slots p !! i = Some (Some (k, v)) ->
  wpx (s <- pa_at hash_impl default_value plain k ;; set_value plain s v)
    (fun _ x => moved p (S i) x.1) (fun e _ => e = NotEnoughSpace /\ plain = false) (q, f).
Proof.
  intros H Hm Hi. pose proof (lookup_lt_Some _ _ _ Hi) as Hlt. pose proof (used_count_take p i) as Hut.
  pose proof (pa_size _ H) as Hsz.
  assert (Hfree : has_free (slots q)).
  { apply used_count_free. rewrite (mv_count _ _ _ Hm), (mv_len _ _ _ Hm). lia. }
  destruct (pa_find_cases q k (mv_ok _ _ _ Hm) Hfree) as (s & Hs & [(Hn & _ & Hno)|(w & Hw & _)]).
  2:{ exfalso. destruct (proj1 (mv_pairs _ _ _ Hm k w)) as (j & Hj & E); [by exists s|].
      destruct (pa_probe _ H) as [_ Hp]. pose proof (Hp _ _ Hi) as E1. pose proof (Hp _ _ E) as E2.
      simpl in *. rewrite E1 in E2. injection E2 as ->. lia. }
  pose proof (lookup_lt_Some _ _ _ Hn) as Hsl.
  apply wpx_bind. eapply wpx_mono; [by apply pa_at_absent| |by intros e x (? & ? & _)].
  intros s' [q1 f1] [-> Hq1]. simpl in Hq1. subst q1.
  eapply wpx_mono; [eapply (set_value_spec _ _ s k default_value)| |by intros e x (? & ? & _)].
  { simpl. by apply list_lookup_insert_eq. }
  intros [] [q2 f2] Hq2. simpl in Hq2. subst q2. simpl. unfold set_slots. simpl.
  rewrite list_insert_insert_eq. destruct Hm as [H1 H2 H3 H4 H5 H6]. split; simpl.
  - by apply (probe_ok_fill hash fst k).
  - by rewrite length_insert.
  - by rewrite length_insert.
  - rewrite (used_count_take_S _ _ _ Hi). lia.
  - rewrite used_count_fill, (used_count_take_S _ _ _ Hi) by done. lia.
  - intros k' v'.
    change (has_pair (set_slots (<[s := Some (k, v)]> (slots q)) q) k' v' <->
      exists j, (j < S i)%nat /\ slots p !! j = Some (Some (k', v'))).
    rewrite fill_pair, H6 by done. split.
    + intros [[-> ->]|(j & Hj & E)]; [exists i; split; [lia|done]|exists j; split; [lia|done]].
    + intros (j & Hj & E). destruct (decide (j = i)) as [->|]; [left; by simplify_eq|right].
      exists j. split; [lia|done].
Qed.

Lemma move_slots_spec p n i q pi f :
  pa_ok p -> (i + n)%nat = length (slots p) -> moved p i q ->
  (forall j, (i <= j)%nat -> slots pi !! j = slots p !! j) ->
  wpx (move_slots hash_impl default_value plain (seq i n) q)
    (fun q' _ => moved p (length (slots p)) q') (fun e _ => e = NotEnoughSpace /\ plain = false) (pi, f).
Proof.
  intros H. revert i q pi f. induction n as [|n IH]; intros i q pi f Hn Hm Hpi; simpl.
  { apply wpx_mret. by replace (length (slots p)) with i by lia. }
  apply wpx_bind. eapply wpx_eq; [done|]. simpl. rewrite Hpi by lia.
  destruct (lookup_lt_is_Some_2 (slots p) i) as [[[k v]|] Hi]; [lia| |]; rewrite Hi; simpl.
  - apply wpx_bind. pose proof (move_one p i q k v f H Hm Hi) as Hmv.
    unfold on_new, wpx in *. destruct (bind _ _ (q, f)) as [[] [q1 f1]|e [q1 f1]|[q1 f1]| |]; try done.
    apply (wpx_bind _ _ (fun q' _ => moved p (length (slots p)) q') (fun e _ => e = NotEnoughSpace /\ plain = false)).
    eapply wpx_eq; [done|]. apply IH; [lia|done|]. intros j Hj. simpl. rewrite list_lookup_insert_ne by lia.
    apply Hpi. lia.
  - apply IH; [lia|by apply moved_none|]. intros j Hj. apply Hpi. lia.
Qed.

Lemma moved_all p q : pa_ok p -> moved p (length (slots p)) q ->
  pa_ok q /\ used_slots_count q < max_slots q /\ forall k, pview q k = pview p k.
Proof.
  intros H Hm. assert (Hlt : used_slots_count q < max_slots q).
  { rewrite (mv_used _ _ _ Hm), (mv_max _ _ _ Hm), (mv_len _ _ _ Hm), firstn_all.
    pose proof (pa_used _ H). pose proof (pa_max _ H). pose proof (max_double _ (pa_size _ H)). lia. }
  assert (Hq : pa_ok q).
  { split; [apply Hm| |apply Hm]. rewrite (mv_count _ _ _ Hm). rewrite (mv_used _ _ _ Hm) in *. lia. }
  split_and!; [done|done|]. intros k. apply pview_ext; [done|done|]. intros k' v. rewrite (mv_pairs _ _ _ Hm).
  split; [intros (j & _ & E); by exists j|]. intros [j E]. exists j. split; [by eapply lookup_lt_Some|done].
Qed.

(** When the loop over the entries fails, the old table may have lost some; no
    copying, no failure. *)
Lemma pa_double_spec p f :
  pa_ok p ->
  wpx (pa_double hash_impl default_value plain)
    (fun q _ => pa_ok q /\ used_slots_count q < max_slots q /\ forall k, pview q k = pview p k)
    (fun e x => e = NotEnoughSpace /\ (plain = true -> x.1 = p)) (p, f).
Proof.
  intros H. unfold pa_double. apply wpx_bind. eapply wpx_eq; [done|]. simpl.
  apply wpx_bind, wpx_alloc; intros f1; [|done]. pose proof (pa_size _ H) as Hsz.
  eapply wpx_mono; [apply (move_slots_spec p); [done|lia| |done]| |].
  - split; simpl.
    + apply probe_ok_replicate. lia.
    + by rewrite length_replicate.
    + by rewrite length_replicate.
    + done.
    + assert (Hz : forall n, used_count (replicate n (@None (K * V))) = 0%nat) by (intros n; by induction n).
      apply Hz.
    + intros k v. split; [|intros (j & Hj & _); lia].
      intros [s Hs]. simpl in Hs. by apply lookup_replicate_1 in Hs as [? _].
  - intros q x Hq. by apply moved_all.
  - intros e x [-> Hp]. split; [done|]. congruence.
Qed.

(** ** Map *)

Lemma Map_new_ok : pa_ok (Map_new).
Proof.
  split; simpl; [apply (probe_ok_replicate _ _ 2); lia| |done]. vm_compute. done.
Qed.
Lemma Map_new_view k : pview Map_new k = None.
Proof.
  destruct (pview Map_new k) as [v|] eqn:E; [|done]. apply pview_iff in E; [|apply Map_new_ok].
  destruct E as [s Hs]. apply (lookup_replicate_1 2) in Hs as [? _]. done.
Qed.

Lemma map_at_present p f k v :
  pa_ok p -> pview p k = Some v ->
  exists s, map_at hash_impl default_value plain k (p, f) = Ok s (p, f) /\ slots p !! s = Some (Some (k, v)).
Proof.
  intros H Hv. destruct (pa_at_present p f k v H Hv) as (s & E & Hs). exists s. split; [|done].
  unfold map_at. rewrite (bind_Ok _ _ _ _ _ (pa_count_eq p f k H)), Hv. simpl.
  by rewrite (bind_Ok _ _ _ tt (p, f)).
Qed.

(** [p'] is [p] with the key [k], whose value is in slot [s]. *)
Definition entered p k v (s : nat) p' : Prop :=
  pa_ok p' /\ slots p' !! s = Some (Some (k, v)) /\
  forall k', pview p' k' = if decide (k' = k) then Some v else pview p k'.

Lemma map_at_absent p f k :
  pa_ok p -> pview p k = None ->
  wpx (map_at hash_impl default_value plain k) (fun s x => entered p k default_value s x.1)
    (fun e x => e = NotEnoughSpace /\ (plain = true -> x.1 = p)) (p, f).
Proof.
  intros H Hv. unfold map_at. apply wpx_bind. eapply wpx_eq; [by apply pa_count_eq|]. rewrite Hv. simpl.
  assert (Hroom : wpx (p <- pairs ;; if overFull p
      then temp <- pa_double hash_impl default_value plain ;; modify_pairs (fun _ => temp) else mret tt)
    (fun _ x => pa_ok x.1 /\ used_slots_count x.1 < max_slots x.1 /\ forall k, pview x.1 k = pview p k)
    (fun e x => e = NotEnoughSpace /\ (plain = true -> x.1 = p)) (p, f)).
  { apply wpx_bind. eapply wpx_eq; [done|]. simpl. unfold overFull. destruct (Z.leb_spec (max_slots p) (used_slots_count p)).
    - apply wpx_bind. eapply wpx_mono; [by apply pa_double_spec|by intros q x Hq|done].
    - by apply wpx_mret. }
  apply wpx_bind. eapply wpx_mono; [exact Hroom| |done]. intros [] [p1 f1] (H1 & Hlt & Hv1). simpl in *.
  destruct (pa_find_cases p1 k (pa_probe _ H1) (pa_free _ H1)) as (s & Hs & [(Hn & _ & _)|(v & _ & Hv')]);
    [|rewrite Hv1 in Hv'; congruence].
  eapply wpx_mono; [by apply pa_at_absent|..].
  - intros s' [p2 f2] [-> Hp2]. simpl in *. subst p2. split_and!.
    + by apply pa_ok_fill.
    + simpl. by eapply list_lookup_insert_eq, lookup_lt_Some.
    + intros k'. rewrite pview_fill by done. by rewrite Hv1.
  - intros e x (-> & Hpl & _). split; [done|]. congruence.
Qed.

Lemma entered_update p k v0 v s p' :
  entered p k v0 s p' -> entered p k v s (set_slots (<[s := Some (k, v)]> (slots p')) p').
Proof.
  intros (H & Hs & Hv). split_and!.
  - by eapply pa_ok_update.
  - simpl. by eapply list_lookup_insert_eq, lookup_lt_Some.
  - intros k'. rewrite (pview_update p' k v v0) by done. destruct (decide (k' = k)); [done|]. rewrite Hv.
    by destruct (decide (k' = k)).
Qed.

Lemma pview_entered_self p k v s : pa_ok p -> slots p !! s = Some (Some (k, v)) -> entered p k v s p.
Proof.
  intros H Hs. split_and!; [done|done|]. intros k'. destruct (decide (k' = k)) as [->|]; [|done].
  apply pview_iff; [done|]. by exists s.
Qed.

Lemma pa_setUnused_ok p f k : exists q, pa_setUnused hash_impl k (p, f) = Ok tt (q, f).
Proof.
  unfold pa_setUnused. rewrite (bind_Ok _ _ _ p (p, f)) by done.
  destruct (find k p) as [s|]; [|by eexists]. by destruct (slots p !! s) as [[x|]|]; eexists.
Qed.

(** ** Iteration *)

Definition pair_list p : list (K * V) := omap (fun s => s) (slots p).

Lemma skip_unused_spec (d : list (option (K * V))) n :
  (n <= skip_unused d n <= n + length d)%nat /\
  omap (fun s => s) d = match d !! (skip_unused d n - n)%nat with
                        | Some (Some x) => x :: omap (fun s => s) (drop (S (skip_unused d n - n)) d)
                        | _ => []
                        end /\
  (skip_unused d n = (n + length d)%nat \/ exists x, d !! (skip_unused d n - n)%nat = Some (Some x)).
Proof.
  revert n. induction d as [|[x|] d IH]; intros n; simpl.
  - split; [lia|]. rewrite Nat.sub_diag. split; [done|left; lia].
  - split; [lia|]. rewrite Nat.sub_diag. simpl. split; [by rewrite drop_0|right; eauto].
  - destruct (IH (S n)) as (H1 & H2 & H3). split; [lia|].
    replace (skip_unused d (S n) - n)%nat with (S (skip_unused d (S n) - S n)) by lia. simpl.
    split; [exact H2|]. destruct H3 as [H3|H3]; [left; lia|right; exact H3].
Qed.

Lemma iterate_pairs_spec {S} p (body : K * V -> M S unit) fuel slot s :
  (slot <= length (slots p))%nat -> (length (slots p) - slot < fuel)%nat ->
  iterate_pairs fuel p (to_used p slot) body s = for_each (omap (fun s => s) (drop slot (slots p))) body s.
Proof.
  revert slot s. induction fuel as [|fuel IH]; intros slot s Hle Hf; [lia|]. simpl.
  destruct (skip_unused_spec (drop slot (slots p)) slot) as (H1 & H2 & H3). rewrite length_drop in *.
  rewrite H2. rewrite lookup_drop in *. clear H2.
  set (t := skip_unused (drop slot (slots p)) slot) in *.
  replace (slot + (t - slot))%nat with t in * by lia.
  destruct (Nat.eqb_spec t (length (slots p))) as [E|E].
  { rewrite lookup_ge_None_2 by lia. done. }
  destruct H3 as [H3|[x Hx]]; [lia|]. unfold it_pair. simpl. fold t. rewrite Hx. simpl.
  unfold bind at 1. simpl. unfold bind. destruct (body x s) as [[] s'| | | |]; try done.
  unfold it_next, to_used. simpl. fold t. rewrite (proj2 (Nat.eqb_neq _ _) E). rewrite orb_false_r.
  change (mkMapIterator (skip_unused (drop (Datatypes.S t) (slots p)) (Datatypes.S t)) _) with (to_used p (Datatypes.S t)).
  rewrite IH by lia. rewrite drop_drop. by replace (slot + Datatypes.S (t - slot))%nat with (Datatypes.S t) by lia.
Qed.

(** The loop visits every pair once, in the order of the slots. *)
Lemma for_each_pair_eq {S} p (body : K * V -> M S unit) s :
  for_each_pair p body s = for_each (pair_list p) body s.
Proof. unfold for_each_pair, it_begin. rewrite iterate_pairs_spec by lia. by rewrite drop_0. Qed.

Lemma elem_of_pair_list p k v : (k, v) ∈ pair_list p <-> has_pair p k v.
Proof.
  unfold pair_list, has_pair. rewrite list_elem_of_omap. split.
  - intros (c & Hc & ->). by apply list_elem_of_lookup in Hc.
  - intros [s Hs]. exists (Some (k, v)). split; [|done]. by eapply list_elem_of_lookup_2.
Qed.

Lemma pair_list_NoDup p : probe_ok hash fst (slots p) -> NoDup (map fst (pair_list p)).
Proof.
  intros [_ H]. assert (G : forall s t x y, slots p !! s = Some (Some x) -> slots p !! t = Some (Some y) -> x.1 = y.1 -> s = t).
  { intros s t x y Hs Ht E. pose proof (H _ _ Hs) as E1. pose proof (H _ _ Ht) as E2. rewrite E in E1. congruence. }
  unfold pair_list. clear H. revert G. generalize (slots p) as d. induction d as [|[x|] d IH]; intros G; simpl.
  - apply NoDup_nil_2.
  - apply NoDup_cons. split.
    + intros (y & Hy & Hin)%list_elem_of_fmap. apply list_elem_of_omap in Hin as (c & Hc & ->).
      apply list_elem_of_lookup in Hc as [j Hj]. by pose proof (G 0%nat (S j) x y eq_refl Hj Hy).
    + apply IH. intros s t y z Hs Ht E. pose proof (G (S s) (S t) y z Hs Ht E). lia.
  - apply IH. intros s t y z Hs Ht E. pose proof (G (S s) (S t) y z Hs Ht E). lia.
Qed.
End spec.
