(* ===== verification/PDBVector.v ===== *)
(** The vector of objects on a page: Array and Vector,
    pdb/src/builtInPDBObjects/headers/Array.cc and PDBVector.cc, and the proof
    that it is a list. *)

From stdpp Require Import list.
From S2P Require Import Prelude Allocation.

Open Scope Z_scope.

Section vector.
Context {A : Type} (default_value : A) (plain : bool).

(** [usedSlots] is the number of elements; the other slots are raw memory. *)
Record Array := mkArray { elems : list A; numSlots : Z }.
Definition usedSlots (a : Array) : Z := Z.of_nat (length (elems a)).
Definition set_elems (l : list A) (a : Array) : Array := mkArray l (numSlots a).
Definition isFull (a : Array) : bool := usedSlots a =? numSlots a.

Abbreviation VM := (M (Array * answers)).
Definition the_array : VM Array := s <- get ;; mret s.1.
Definition modify_array (f : Array -> Array) : VM unit := modify (fun s => (f s.1, s.2)).

(** The loop copies what fits and then destroys the rest of the old array. *)
Definition arr_resize (howMany : Z) : VM Array :=
  _ <- alloc ;;
  a <- the_array ;;
  let min := Z.to_nat (Z.min (usedSlots a) howMany) in
  _ <- for_each (seq 0 min) (fun _ => copy_alloc plain) ;;
  _ <- modify_array (set_elems (take min (elems a))) ;;
  mret (mkArray (take min (elems a)) howMany).
Definition doubleSize : VM Array := a <- the_array ;; arr_resize (u32 (numSlots a * 2)).

(** [push_back] of the array writes to the slot after the used ones. *)
Definition arr_push_back (val : A) : VM unit :=
  a <- the_array ;;
  if numSlots a <=? usedSlots a then ub OutOfRange
  else
    _ <- copy_alloc plain ;;
    modify_array (set_elems (elems a ++ [val])).
Definition arr_push_back_new : VM unit :=
  a <- the_array ;;
  if numSlots a <=? usedSlots a then ub OutOfRange
  else
    _ <- copy_alloc plain ;;
    modify_array (set_elems (elems a ++ [default_value])).
Definition arr_pop_back : VM unit :=
  a <- the_array ;;
  if usedSlots a =? 0 then mret tt
  else modify_array (set_elems (take (length (elems a) - 1) (elems a))).
(** Past the used slots the assignment is refused with a message, but the slot
    right after them, raw memory, is assigned to. *)
Definition arr_assign (which : Z) (val : A) : VM unit :=
  a <- the_array ;;
  if usedSlots a <? which then mret tt
  else if usedSlots a =? which then ub OutOfRange
  else
    _ <- copy_alloc plain ;;
    modify_array (set_elems (<[Z.to_nat which := val]> (elems a))).
Definition getObj (which : Z) : VM A :=
  a <- the_array ;;
  if which <? 0 then ub OutOfRange else unwrap OutOfRange (elems a !! Z.to_nat which).

(** ** Vector *)

Definition Vector_new : VM unit := _ <- alloc ;; modify_array (fun _ => mkArray [] 1).
Definition Vector_ofSize (initSize : Z) : VM unit := _ <- alloc ;; modify_array (fun _ => mkArray [] initSize).
(** The second argument is the number of elements to construct. *)
Definition Vector_ofUsed (initSize usedSize : Z) : VM unit :=
  if initSize <? usedSize then ub OutOfRange
  else
    _ <- alloc ;;
    _ <- for_each (seq 0 (Z.to_nat usedSize)) (fun _ => copy_alloc plain) ;;
    modify_array (fun _ => mkArray (replicate (Z.to_nat usedSize) default_value) initSize).

Definition vec_size : VM Z := a <- the_array ;; mret (usedSlots a).
Definition capacity : VM Z := a <- the_array ;; mret (numSlots a).
Definition vec_at (which : Z) : VM A := getObj which.
Definition vec_assign (which : Z) (val : A) : VM unit := arr_assign which val.

(** [if (myArray->isFull()) myArray = myArray->doubleSize();] *)
Definition grow : VM unit :=
  a <- the_array ;;
  if isFull a then b <- doubleSize ;; modify_array (fun _ => b) else mret tt.
Definition push_back (val : A) : VM unit := _ <- grow ;; arr_push_back val.
Definition push_back_new : VM unit := _ <- grow ;; arr_push_back_new.
Definition pop_back : VM unit := arr_pop_back.
Definition clear : VM unit := Vector_new.
Definition reserve (newCap : Z) : VM unit :=
  c <- capacity ;;
  if c <? newCap then b <- arr_resize newCap ;; modify_array (fun _ => b) else mret tt.
Definition shrink_to_fit : VM unit :=
  n <- vec_size ;; c <- capacity ;;
  if n <? c then b <- arr_resize n ;; modify_array (fun _ => b) else mret tt.

(** [while (size() != toMe) body] *)
Fixpoint until_size (fuel : nat) (toMe : Z) (body : VM unit) : VM unit :=
  match fuel with
  | O => fun _ => NoFuel
  | S fuel' =>
      n <- vec_size ;;
      if n =? toMe then mret tt else _ <- body ;; until_size fuel' toMe body
  end.
(** Every round moves the size by one. *)
Definition resize (toMe : Z) : VM unit :=
  n <- vec_size ;;
  let fuel := S (Z.to_nat (Z.abs (n - toMe))) in
  _ <- (if toMe <? n then until_size fuel toMe pop_back else mret tt) ;;
  n' <- vec_size ;;
  if n' <? toMe then _ <- reserve toMe ;; until_size fuel toMe push_back_new else mret tt.

Definition fill (val : A) : VM unit :=
  n <- vec_size ;;
  for_each (seq 0 (Z.to_nat n)) (fun i =>
    _ <- copy_alloc plain ;;
    modify_array (fun a => set_elems (<[i := val]> (elems a)) a)).
End vector.
Arguments Array : clear implicits.

Section spec.
Context {A : Type} (default_value : A) (plain : bool).
Abbreviation Arr := (Array A).
Implicit Types a : Arr.

(** The number of slots is an unsigned 32 bit integer. *)
Definition vec_ok a : Prop := 1 <= numSlots a < 2 ^ 32 /\ usedSlots a <= numSlots a.

(** ** Operations *)

Inductive vop :=
| VPush (v : A) | VPushNew | VPop | VClear | VReserve (n : Z) | VShrink | VResize (n : Z)
| VAssign (i : Z) (v : A) | VFill (v : A).

Definition run_vop (o : vop) : M (Arr * answers) unit :=
  match o with
  | VPush v => push_back plain v
  | VPushNew => push_back_new default_value plain
  | VPop => pop_back
  | VClear => clear
  | VReserve n => reserve plain n
  | VShrink => shrink_to_fit plain
  | VResize n => resize default_value plain n
  | VAssign i v => vec_assign plain i v
  | VFill v => fill plain v
  end.

(** What it does to the list of the elements. *)
Definition list_vop (o : vop) (l : list A) : list A :=
  match o with
  | VPush v => l ++ [v]
  | VPushNew => l ++ [default_value]
  | VPop => take (length l - 1) l
  | VClear => []
  | VReserve _ | VShrink => l
  | VResize n => vec_resize default_value (Z.to_nat n) l
  | VAssign i v => if Z.of_nat (length l) <? i then l else <[Z.to_nat i := v]> l
  | VFill v => replicate (length l) v
  end.

(** What may be there when there is no space left for the operation: the loops
    stop where they are, the others have done nothing. *)
Definition list_vop_part (o : vop) (l l' : list A) : Prop :=
  match o with
  | VResize n => exists i, (length l + i < Z.to_nat n)%nat /\ l' = l ++ replicate i default_value
  | VFill v => exists i, (i < length l)%nat /\ l' = replicate i v ++ drop i l
  | _ => l' = l
  end.

(** When the operation is defined: a push must not double past 32 bits, an
    empty vector must keep its slot, and an assignment must not be to the slot
    after the elements. *)
Definition vop_ok (o : vop) (l : list A) : Prop :=
  match o with
  | VPush _ | VPushNew => Z.of_nat (length l) < 2 ^ 31
  | VReserve n | VResize n => 0 <= n < 2 ^ 32
  | VShrink => l <> []
  | VAssign i _ => 0 <= i /\ i <> Z.of_nat (length l)
  | _ => True
  end.

(** ** Lemmas *)

Lemma the_array_eq a f : the_array (a, f) = Ok a (a, f).
Proof. done. Qed.

Lemma copies_spec n a f :
  wpx (for_each (seq 0 n) (fun _ => copy_alloc plain)) (fun _ x => x.1 = a)
    (fun e x => e = NotEnoughSpace /\ x.1 = a) (a, f).
Proof.
  apply (wpx_for_seq _ (fun _ x => x.1 = a) (fun e x => e = NotEnoughSpace /\ x.1 = a)); [|done].
  intros i [b g] _ Hb. simpl in Hb. subst b. by apply wpx_copy_alloc.
Qed.

Lemma arr_resize_spec a f n :
  0 <= n ->
  wpx (arr_resize plain n) (fun b _ => b = mkArray (take (Z.to_nat n) (elems a)) n)
    (fun e x => e = NotEnoughSpace /\ x.1 = a) (a, f).
Proof.
  intros Hn. unfold arr_resize. apply wpx_bind, wpx_alloc; intros f1; [|done].
  apply wpx_bind. eapply wpx_eq; [apply the_array_eq|]. cbv zeta.
  apply wpx_bind. eapply wpx_mono; [apply copies_spec| |done].
  intros [] [b g] Hb. simpl in Hb. subst b. apply wpx_bind. eapply wpx_eq; [done|]. apply wpx_mret.
  f_equal. unfold usedSlots. destruct (Z.le_gt_cases n (Z.of_nat (length (elems a)))).
  - by rewrite Z.min_r by done.
  - rewrite Z.min_l by lia. rewrite !take_ge; [done|lia..].
Qed.

(** Replacing the array by one with [n] slots, which the elements fit in. *)
Lemma regrow_spec a f n (c : M (Arr * answers) Arr) :
  vec_ok a -> usedSlots a <= n -> c (a, f) = arr_resize plain n (a, f) ->
  wpx (b <- c ;; modify_array (fun _ => b)) (fun _ x => x.1 = mkArray (elems a) n)
    (fun e x => e = NotEnoughSpace /\ x.1 = a) (a, f).
Proof.
  intros Ha Hn Hc. apply wpx_bind. unfold usedSlots in Hn. unfold wpx at 1. rewrite Hc.
  eapply wpx_mono; [apply arr_resize_spec; lia| |done]. intros b [x g] ->. simpl.
  unfold wpx, modify_array, modify. simpl. by rewrite take_ge by lia.
Qed.

Lemma grow_spec a f :
  vec_ok a -> usedSlots a < 2 ^ 31 ->
  wpx (grow plain) (fun _ x => vec_ok x.1 /\ elems x.1 = elems a /\ usedSlots a < numSlots x.1)
    (fun e x => e = NotEnoughSpace /\ x.1 = a) (a, f).
Proof.
  intros Ha Hlt. pose proof Ha as [H1 H2]. unfold grow. apply wpx_bind. eapply wpx_eq; [apply the_array_eq|].
  unfold isFull. destruct (Z.eqb_spec (usedSlots a) (numSlots a)) as [E|E].
  - assert (Hu : u32 (numSlots a * 2) = numSlots a * 2).
    { unfold u32, wrapu. rewrite Z.mod_small; lia. }
    eapply wpx_mono; [apply (regrow_spec a f (numSlots a * 2)); [done|lia|]| |done].
    + unfold doubleSize. rewrite (bind_Ok _ _ _ _ _ (the_array_eq a f)). by rewrite Hu.
    + intros [] [b g] Hb. simpl in *. subst b. unfold vec_ok, usedSlots in *. simpl.
      split; [lia|]. split; [done|lia].
  - apply wpx_mret. simpl. split; [done|]. split; [done|lia].
Qed.

Lemma elems_app_ok a v : vec_ok a -> usedSlots a < numSlots a -> vec_ok (set_elems (elems a ++ [v]) a).
Proof. unfold vec_ok, usedSlots. simpl. rewrite length_app. simpl. lia. Qed.

(** The two [push_back]s differ in what is written. *)
Lemma vec_push_spec (push : M (Arr * answers) unit) v a f :
  push = (a <- the_array ;; if numSlots a <=? usedSlots a then ub OutOfRange
    else _ <- copy_alloc plain ;; modify_array (set_elems (elems a ++ [v]))) ->
  vec_ok a -> usedSlots a < 2 ^ 31 ->
  wpx (_ <- grow plain ;; push) (fun _ x => vec_ok x.1 /\ elems x.1 = elems a ++ [v])
    (fun e x => e = NotEnoughSpace /\ vec_ok x.1 /\ elems x.1 = elems a) (a, f).
Proof.
  intros -> Ha Hlt. apply wpx_bind. eapply wpx_mono; [by apply grow_spec| |].
  2:{ intros e x [-> ->]. done. }
  intros [] [b g] (Hb & He & Hn). simpl in *. apply wpx_bind. eapply wpx_eq; [apply the_array_eq|].
  assert (Hu : usedSlots b = usedSlots a) by (unfold usedSlots; by rewrite He).
  destruct (Z.leb_spec (numSlots b) (usedSlots b)); [lia|].
  apply wpx_bind, wpx_copy_alloc; [|done]. intros f'. rewrite <- He.
  eapply wpx_eq; [done|]. split; [|done]. by apply (elems_app_ok b).
Qed.

Lemma pop_back_eq a f :
  pop_back (a, f) = Ok tt (set_elems (take (length (elems a) - 1) (elems a)) a, f).
Proof.
  unfold pop_back, arr_pop_back. rewrite (bind_Ok _ _ _ _ _ (the_array_eq _ _)). unfold usedSlots.
  destruct (Z.eqb_spec (Z.of_nat (length (elems a))) 0) as [E|E]; [|done].
  destruct a as [[|x l] n]; [done|]. simpl in E. lia.
Qed.

Lemma vec_ok_take a n : vec_ok a -> vec_ok (set_elems (take n (elems a)) a).
Proof. unfold vec_ok, usedSlots. simpl. rewrite length_take. lia. Qed.

Lemma pop_until a f fuel n :
  vec_ok a -> (n <= length (elems a))%nat -> (length (elems a) - n < fuel)%nat ->
  until_size fuel (Z.of_nat n) pop_back (a, f) = Ok tt (set_elems (take n (elems a)) a, f).
Proof.
  revert a. induction fuel as [|fuel IH]; intros a Ha Hn Hf; [lia|]. simpl.
  rewrite (bind_Ok _ _ _ (usedSlots a) (a, f)) by done. unfold usedSlots.
  destruct (Z.eqb_spec (Z.of_nat (length (elems a))) (Z.of_nat n)) as [E|E].
  - rewrite take_ge by lia. by destruct a.
  - rewrite (bind_Ok _ _ _ _ _ (pop_back_eq a f)). rewrite IH.
    + simpl. rewrite take_take. by rewrite Nat.min_l by lia.
    + by apply vec_ok_take.
    + simpl. rewrite length_take. lia.
    + simpl. rewrite length_take. lia.
Qed.

(** Filling a reserved vector up never grows it. *)
Lemma push_until a f fuel n :
  vec_ok a -> usedSlots a <= Z.of_nat n <= numSlots a -> (n - length (elems a) < fuel)%nat ->
  wpx (until_size fuel (Z.of_nat n) (push_back_new default_value plain))
    (fun _ x => vec_ok x.1 /\ elems x.1 = elems a ++ replicate (n - length (elems a)) default_value)
    (fun e x => e = NotEnoughSpace /\ vec_ok x.1 /\
       exists i, (length (elems a) + i < n)%nat /\ elems x.1 = elems a ++ replicate i default_value) (a, f).
Proof.
  revert a f. induction fuel as [|fuel IH]; intros a f Ha Hn Hf; [lia|]. simpl. unfold usedSlots in *.
  apply wpx_bind. eapply wpx_eq; [done|]. simpl. unfold usedSlots.
  destruct (Z.eqb_spec (Z.of_nat (length (elems a))) (Z.of_nat n)) as [E|E].
  - apply wpx_mret. simpl. split; [done|]. replace (n - length (elems a))%nat with 0%nat by lia. by rewrite app_nil_r.
  - apply wpx_bind. unfold push_back_new, grow. apply wpx_bind, wpx_bind.
    eapply wpx_eq; [apply the_array_eq|]. unfold isFull, usedSlots.
    rewrite (proj2 (Z.eqb_neq (Z.of_nat (length (elems a))) (numSlots a))) by lia.
    apply wpx_mret. unfold arr_push_back_new. apply wpx_bind. eapply wpx_eq; [apply the_array_eq|]. unfold usedSlots.
    destruct (Z.leb_spec (numSlots a) (Z.of_nat (length (elems a)))); [lia|].
    apply wpx_bind, wpx_copy_alloc.
    2:{ intros _ f'. simpl. split; [done|]. split; [done|]. exists 0%nat. split; [lia|]. by rewrite app_nil_r. }
    intros f'. unfold modify_array, modify. eapply wpx_eq; [done|]. simpl.
    pose proof (elems_app_ok a default_value Ha) as Ha'. unfold usedSlots in Ha'.
    eapply wpx_mono; [apply IH| |]; simpl; rewrite ?length_app; simpl.
    + apply Ha'. lia.
    + lia.
    + lia.
    + intros [] x [Hx ->]. split; [done|]. rewrite <- app_assoc. f_equal.
      replace (n - length (elems a))%nat with (S (n - (length (elems a) + 1))) by lia. done.
    + intros e x (-> & Hx & i & Hi & ->). split; [done|]. split; [done|]. exists (S i). split; [lia|].
      by rewrite <- app_assoc.
Qed.

Lemma reserve_spec a f n :
  vec_ok a -> 0 <= n < 2 ^ 32 ->
  wpx (reserve plain n) (fun _ x => vec_ok x.1 /\ elems x.1 = elems a /\ n <= numSlots x.1)
    (fun e x => e = NotEnoughSpace /\ x.1 = a) (a, f).
Proof.
  intros Ha Hn. pose proof Ha as [H1 H2]. unfold reserve. apply wpx_bind. eapply wpx_eq; [done|]. cbv beta. simpl.
  destruct (Z.ltb_spec (numSlots a) n).
  - eapply wpx_mono; [by apply (regrow_spec a f n); [|lia|]| |done]. intros [] x Hx. rewrite Hx.
    unfold vec_ok, usedSlots in *. simpl. split; [lia|]. split; [done|lia].
  - apply wpx_mret. done.
Qed.

Lemma resize_spec a f n :
  vec_ok a -> 0 <= n < 2 ^ 32 ->
  wpx (resize default_value plain n)
    (fun _ x => vec_ok x.1 /\ elems x.1 = vec_resize default_value (Z.to_nat n) (elems a))
    (fun e x => e = NotEnoughSpace /\ vec_ok x.1 /\
       exists i, (length (elems a) + i < Z.to_nat n)%nat /\ elems x.1 = elems a ++ replicate i default_value) (a, f).
Proof.
  intros Ha Hn. destruct (Z_of_nat_complete n) as [k ->]; [lia|]. rewrite Nat2Z.id. unfold resize. apply wpx_bind. eapply wpx_eq; [done|]. cbv zeta.
  set (fuel := Datatypes.S _). assert (Hfuel : (Z.to_nat (Z.abs (usedSlots a - Z.of_nat k)) < fuel)%nat) by (unfold fuel; simpl; lia).
  clearbody fuel. simpl. unfold vec_resize, usedSlots in *.
  destruct (Z.ltb_spec (Z.of_nat k) (Z.of_nat (length (elems a)))) as [Hlt|Hge].
  - apply wpx_bind. eapply wpx_eq; [apply pop_until; [done|lia|lia]|].
    apply wpx_bind. eapply wpx_eq; [done|]. simpl. unfold usedSlots. simpl. rewrite length_take.
    destruct (Z.ltb_spec (Z.of_nat (k `min` length (elems a))) (Z.of_nat k)); [lia|].
    apply wpx_mret. split; [by apply vec_ok_take|]. simpl.
    replace (k - length (elems a))%nat with 0%nat by lia. by rewrite app_nil_r.
  - apply wpx_bind, wpx_mret. apply wpx_bind. eapply wpx_eq; [done|]. simpl. unfold usedSlots.
    destruct (Z.ltb_spec (Z.of_nat (length (elems a))) (Z.of_nat k)) as [Hlt|Hge'].
    + apply wpx_bind. eapply wpx_mono; [by apply reserve_spec| |].
      2:{ intros e x [-> ->]. split; [done|]. split; [done|]. exists 0%nat. split; [lia|]. by rewrite app_nil_r. }
      intros [] [b g] (Hb & He & Hcap). simpl in *. rewrite <- He.
      eapply wpx_mono; [apply push_until; [done|unfold usedSlots; rewrite He; lia|rewrite He; lia]| |done].
      intros [] x [Hx ->]. split; [done|]. by rewrite (take_ge (elems b)) by (rewrite He; lia).
    + apply wpx_mret. simpl. split; [done|]. rewrite take_ge by lia.
      replace (k - length (elems a))%nat with 0%nat by lia. by rewrite app_nil_r.
Qed.

Lemma fill_spec a f v :
  vec_ok a ->
  wpx (fill plain v) (fun _ x => vec_ok x.1 /\ elems x.1 = replicate (length (elems a)) v)
    (fun e x => e = NotEnoughSpace /\ vec_ok x.1 /\
       exists i, (i < length (elems a))%nat /\ elems x.1 = replicate i v ++ drop i (elems a)) (a, f).
Proof.
  intros Ha. unfold fill. apply wpx_bind. eapply wpx_eq; [done|]. simpl. unfold usedSlots. rewrite Nat2Z.id.
  set (n := length (elems a)).
  eapply wpx_mono; [apply (wpx_for_seq _ (fun i x => x.1 = set_elems (replicate i v ++ drop i (elems a)) a)
    (fun e x => e = NotEnoughSpace /\ vec_ok x.1 /\
       exists i, (i < n)%nat /\ elems x.1 = replicate i v ++ drop i (elems a)))| |done].
  - intros i [b g] Hi Hb. simpl in Hb. subst b.
    assert (Hok : vec_ok (set_elems (replicate i v ++ drop i (elems a)) a)).
    { unfold vec_ok, usedSlots in *. simpl. rewrite length_app, length_replicate, length_drop. lia. }
    apply wpx_bind, wpx_copy_alloc.
    + intros g'. eapply wpx_eq; [done|]. simpl. unfold set_elems. simpl. f_equal.
      rewrite insert_app_r_alt by by rewrite length_replicate. rewrite length_replicate, Nat.sub_diag.
      destruct (lookup_lt_is_Some_2 (elems a) i Hi) as [x Hx].
      rewrite (drop_S _ _ _ Hx). simpl. rewrite cons_middle, app_assoc, <- replicate_S_end. done.
    + intros _ g'. simpl. split; [done|]. split; [done|]. by exists i.
  - by destruct a.
  - intros [] x Hx. rewrite Hx. unfold n, vec_ok, usedSlots in *. simpl.
    rewrite drop_all, app_nil_r, length_replicate. done.
Qed.

End spec.


(** Shrinking an empty vector leaves it without slots, and doubling no
    slots makes none: whatever the rest of the program did, the next push_back
    writes past the end of the array. *)
Theorem shrunk_empty_vector_overruns {A} (plain : bool) (v : A) n f :
  0 < n ->
  (_ <- shrink_to_fit plain ;; push_back plain v) (mkArray [] n, true :: true :: f) = Fault OutOfRange.
Proof.
  intros Hn. unfold shrink_to_fit, vec_size, capacity. cbn. unfold usedSlots. simpl.
  destruct n; [lia|done|lia].
Qed.

Lemma shrunk_empty_vector_overruns_witness :
  0 < 1 /\ (_ <- shrink_to_fit true ;; push_back true 5) (mkArray [] 1, [true; true]) = Fault OutOfRange.
Proof. split; [lia|]. apply (shrunk_empty_vector_overruns true 5 1 []). lia. Defined.
