(* ===== verification/AggSinks.v ===== *)
(** The sinks of an aggregation and of a set: PreaggregationSink, which adds the
    rows of a tuple set up by key in the maps of their partitions,
    AggregationCombinerSink, which adds up the maps of one worker, and
    VectorSink, which appends the rows to a vector.  pdb/src/pipeline/headers/
    sinks/PreaggregationSink.h, AggregationCombinerSink.h and VectorSink.h.

    Keys and values are objects held by value, represented by their contents as
    in TupleSet; the hash function of the keys and the addition of the values
    are the user's. *)

From S2P Require Import Prelude Allocation AtomicComputation TupleSet SinkState PDBMap PDBVector Executors.

Open Scope Z_scope.

Abbreviation obj := (option Z).
Abbreviation agg_map := (PairArray obj obj).
Abbreviation agg_state := (sink_state agg_map).
Abbreviation AS := (M (agg_state * answers)).

(** [column[i]] for a column of objects of a class. *)
Definition obj_at (class : string) (column : option addr) (i : nat) : M mem obj :=
  l <- read_as (ColObj class) column ;;
  v <- unwrap OutOfRange (l !! i) ;;
  match v with VObj o => mret o | _ => ub BadCast end.

(** ** PreaggregationSink *)

Module Preaggregation.
Section sink.
Context (hash_impl : obj -> Z) (plus : obj -> obj -> obj) (plain : bool).
Record PreaggregationSink := mkPreaggregation {
  whichAttToHash : Z;
  whichAttToAggregate : Z;
  numPartitions : Z
}.

(** [matches[1]] of one match is past the end. *)
Definition PreaggregationSink_new (inputSchema attsToOperateOn : TupleSpec) (numPartitions : Z) : M mem PreaggregationSink :=
  match match_ inputSchema attsToOperateOn with
  | k :: v :: _ => mret (mkPreaggregation k v numPartitions)
  | _ => ub OutOfRange
  end.

(** The vector, every map and every [push_back] take space. *)
Definition createNewOutputContainer (ps : PreaggregationSink) : M (list agg_map * answers) unit :=
  _ <- alloc ;;
  for_each (seq 0 (Z.to_nat (numPartitions ps))) (fun _ =>
    _ <- alloc ;; _ <- alloc ;;
    modify (fun '(l, f) => (l ++ [Map_new], f))).

(** The rows that were processed leave the input. *)
Definition drop_processed (kc vc : string) (keyColumn valueColumn : option addr) (i : nat) : AS unit :=
  _ <- on_mem (erase_prefix (ColObj kc) keyColumn i) ;;
  on_mem (erase_prefix (ColObj vc) valueColumn i).

(** A key that is not in the map. *)
Definition add_key (kc vc : string) (keyColumn valueColumn : option addr) (i whichMap : nat) (key : obj) : AS unit :=
  temp <- on_full (on_map whichMap (map_at hash_impl None plain key))
            (drop_processed kc vc keyColumn valueColumn i) ;;
  value <- on_mem (obj_at vc valueColumn i) ;;
  on_full (on_map whichMap (set_value plain temp value))
    (_ <- on_map whichMap (pa_setUnused hash_impl key) ;;
     drop_processed kc vc keyColumn valueColumn i).

(** A key that is: nothing catches what finding it and copying the old value
    throw; adding the values and storing the sum may each need space, and so
    may putting the old value back. *)
Definition add_value (kc vc : string) (keyColumn valueColumn : option addr) (i whichMap : nat) (key : obj) : AS unit :=
  temp <- on_map whichMap (map_at hash_impl None plain key) ;;
  copy <- on_map whichMap (c <- value_at temp ;; _ <- copy_alloc plain ;; mret c) ;;
  value <- on_mem (obj_at vc valueColumn i) ;;
  on_full (on_map whichMap (_ <- copy_alloc plain ;; set_value plain temp (plus copy value)))
    (_ <- on_map whichMap (set_value plain temp copy) ;;
     drop_processed kc vc keyColumn valueColumn i).

Definition write_row (ps : PreaggregationSink) (kc vc : string) (keyColumn valueColumn : option addr) (i : nat) : AS unit :=
  key <- on_mem (obj_at kc keyColumn i) ;;
  let hash := hasher hash_impl key in
  if numPartitions ps =? 0 then ub DivisionByZero
  else
    let whichMap := Z.to_nat (hash mod numPartitions ps) in
    n <- on_map whichMap (pa_count hash_impl key) ;;
    if n =? 0 then add_key kc vc keyColumn valueColumn i whichMap key
    else add_value kc vc keyColumn valueColumn i whichMap key.

Definition writeOut (ps : PreaggregationSink) (kc vc : string) (input : tsid) : AS unit :=
  k <- on_mem (column_at input (whichAttToHash ps)) ;;
  keys <- on_mem (read_as (ColObj kc) k.1) ;;
  v <- on_mem (column_at input (whichAttToAggregate ps)) ;;
  _ <- on_mem (read_as (ColObj vc) v.1) ;;
  for_each (seq 0 (length keys)) (write_row ps kc vc k.1 v.1).

Definition writeOutPage (ps : PreaggregationSink) : AS unit :=
  throw (RuntimeError "PreaggregationSink can not write out a page.").
End sink.
End Preaggregation.

(** ** AggregationCombinerSink *)

Module AggregationCombiner.
Section combiner.
Context (hash_impl : obj -> Z) (plus : obj -> obj -> obj) (plain : bool).
Record AggregationCombinerSink := mkCombiner { workerID : nat }.
Abbreviation CM := (M (agg_map * answers)).

Definition createNewOutputContainer (ac : AggregationCombinerSink) : CM unit :=
  _ <- alloc ;; modify (fun '(_, f) => (Map_new, f)).

Definition writeOut (ac : AggregationCombinerSink) : CM unit :=
  throw (RuntimeError "AggregationCombinerSink can not write out tuple sets only pages.").

(** One pair; every NotEnoughSpace is thrown on. *)
Definition merge_pair (x : obj * obj) : CM unit :=
  n <- pa_count hash_impl x.1 ;;
  if n =? 0 then
    temp <- map_at hash_impl None plain x.1 ;;
    set_value plain temp x.2
  else
    temp <- map_at hash_impl None plain x.1 ;;
    copy <- value_at temp ;;
    _ <- copy_alloc plain ;;
    _ <- copy_alloc plain ;;
    set_value plain temp (plus copy x.2).

(** [page] is the vector of maps the page's record holds. *)
Definition writeOutPage (ac : AggregationCombinerSink) (page : list agg_map) : CM unit :=
  mergeMe <- unwrap OutOfRange (page !! workerID ac) ;;
  for_each_pair mergeMe merge_pair.
End combiner.
End AggregationCombiner.

(** ** VectorSink *)

Module SetSink.
(** The container holds one vector, of handles; storing a handle of another
    page copies its object. *)
Abbreviation vector_state := (sink_state (Array (option Z))).
Abbreviation VS := (M (vector_state * answers)).
Record VectorSink := mkVectorSink { whichAttToStore : Z }.

Definition VectorSink_new (inputSchema attsToOperateOn : TupleSpec) : M mem VectorSink :=
  w <- first_match inputSchema attsToOperateOn ;; mret (mkVectorSink w).

Definition createNewOutputContainer (vs : VectorSink) : M (Array (option Z) * answers) unit :=
  _ <- alloc ;; Vector_new.

Definition handle_at (class : string) (column : option addr) (i : nat) : M mem (option Z) :=
  l <- read_as (ColHandle class) column ;;
  v <- unwrap OutOfRange (l !! i) ;;
  match v with VHandle h => mret h | _ => ub BadCast end.

(** The rows are counted in an [int]; a tuple set has far fewer. *)
Definition writeOut (vs : VectorSink) (class : string) (input : tsid) : VS unit :=
  e <- on_mem (column_at input (whichAttToStore vs)) ;;
  inputColumn <- on_mem (read_as (ColHandle class) e.1) ;;
  for_each (seq 0 (length inputColumn)) (fun i =>
    on_full (h <- on_mem (handle_at class e.1 i) ;; on_map 0 (push_back false h))
      (on_mem (erase_prefix (ColHandle class) e.1 i))).

Definition writeOutPage (vs : VectorSink) : VS unit :=
  throw (RuntimeError "VectorSink can not write out a page.").
End SetSink.
