(* ===== verification/Processors.v ===== *)
(** The page processors (pdb/src/pipeline/headers/processors) and the two
    pipelines that merge pages (pdb/src/pipeline/source/pipeline/
    AggregationPipeline.cc, JoinBroadcastPipeline.cc). *)

From S2P Require Import Prelude Allocation JoinPairArray JoinTuple JoinSinks PDBMap PDBVector AggSinks.

Open Scope Z_scope.

Section processors.
Context {T : Type} (copy_map : T -> M (list (list (list T)) * answers) T).

(** A page is the vector at its root; a queue is the pages enqueued so far. *)
Abbreviation page := (list T).
Abbreviation queues := (list (list page)).
Abbreviation PM := (M (queues * answers)).

Record PageProcessor := mkProcessor { numNodes : nat; numProcessingThreads : nat }.

Definition enqueue (node : nat) (p : page) : PM unit := fun '(q, f) =>
  match q !! node with
  | Some l => Ok tt (<[node := l ++ [p]]> q, f)
  | None => Fault OutOfRange
  end.

(** The maps [node * numProcessingThreads + t], copied to the new page; the
    [push_back] may double the new vector. *)
Fixpoint copy_maps (allMaps maps : page) (indices : list nat) : PM page :=
  match indices with
  | [] => mret maps
  | i :: indices' =>
      x <- unwrap OutOfRange (allMaps !! i) ;;
      copy <- copy_map x ;;
      _ <- alloc ;;
      copy_maps allMaps (maps ++ [copy]) indices'
  end.
Definition send_to (pp : PageProcessor) (allMaps : page) (node : nat) : PM unit :=
  _ <- alloc ;;
  maps <- copy_maps allMaps [] (seq (node * numProcessingThreads pp) (numProcessingThreads pp)) ;;
  enqueue node maps.

(** The process method of ShuffleJoinProcessor and PreaggregationPageProcessor,
    which differ in how a map is copied.  [None] is a page without a sink;
    the answer is whether to keep the page. *)
Definition shuffle_process (pp : PageProcessor) (outputSink : option page) : PM bool :=
  match outputSink with
  | None => mret true
  | Some allMaps =>
      _ <- for_each (seq 0 (numNodes pp)) (send_to pp allMaps) ;;
      mret false
  end.

Definition broadcast_process (pp : PageProcessor) (outputSink : option page) : PM bool :=
  match outputSink with
  | None => mret true
  | Some allMaps =>
      _ <- for_each (seq 0 (numNodes pp)) (fun node => enqueue node allMaps) ;;
      mret false
  end.

Definition null_process (outputSink : option page) : PM bool := mret true.
End processors.

(** [PairArray::setUpAndCopyFrom], by way of the copy of a handle to a Map:
    all slots and numbers as they are.  The map and its array take space, and
    so do the keys and values of classes that are not plain. *)
Definition pa_copy {K V S} (plain : bool) (fromMe : PairArray K V) : M (S * answers) (PairArray K V) :=
  _ <- alloc ;; _ <- alloc ;;
  _ <- for_each (omap (fun s => s) (slots fromMe)) (fun _ => _ <- copy_alloc plain ;; copy_alloc plain) ;;
  mret (mkPairArray (slots fromMe) (used_slots_count fromMe) (max_slots fromMe)).

(** ** Lemmas *)

Section specs.
Context {T : Type} (copy_map : T -> M (list (list (list T)) * answers) T) (same : T -> T -> Prop).
Context (Hcopy : forall x q f, wpx (copy_map x) (fun y s => same x y /\ s.1 = q)
  (fun e s => e = NotEnoughSpace /\ s.1 = q) (q, f)).

Lemma copy_maps_spec allMaps maps n i q f :
  (i + n <= length allMaps)%nat ->
  wpx (copy_maps copy_map allMaps maps (seq i n))
    (fun r s => (exists l, r = maps ++ l /\ Forall2 same (take n (drop i allMaps)) l) /\ s.1 = q)
    (fun e s => e = NotEnoughSpace /\ s.1 = q) (q, f).
Proof.
  revert i maps f. induction n as [|n IH]; intros i maps f Hi; simpl.
  - apply wpx_mret. split; [|done]. exists []. by rewrite app_nil_r, take_0.
  - destruct (lookup_lt_is_Some_2 allMaps i) as [x Hx]; [lia|]. rewrite Hx. apply wpx_bind, wpx_mret.
    apply wpx_bind. eapply wpx_mono; [apply Hcopy| |done]. intros y [q1 f1] [Hy Hq]. simpl in Hq. subst q1.
    apply wpx_bind, wpx_alloc; intros f2; [|done].
    eapply wpx_mono; [apply IH; lia| |done]. intros r s [(l & -> & Hl) Hs]. split; [|done].
    exists (y :: l). rewrite <- app_assoc. split; [done|]. rewrite (drop_S _ _ _ Hx). simpl. by constructor.
Qed.

(** The pages of the first [i] nodes were sent. *)
Definition sent_to (pp : PageProcessor) (allMaps : list T) (q0 : list (list (list T))) (i : nat) (q : list (list (list T))) : Prop :=
  length q = length q0 /\
  forall node l0, q0 !! node = Some l0 -> exists l, q !! node = Some l /\
    if (node <? i)%nat
    then exists p, l = l0 ++ [p] /\
      Forall2 same (take (numProcessingThreads pp) (drop (node * numProcessingThreads pp) allMaps)) p
    else l = l0.

Lemma shuffle_process_spec pp allMaps q0 f :
  length q0 = numNodes pp -> length allMaps = (numNodes pp * numProcessingThreads pp)%nat ->
  wpx (shuffle_process copy_map pp (Some allMaps))
    (fun b s => b = false /\ sent_to pp allMaps q0 (numNodes pp) s.1)
    (fun e s => e = NotEnoughSpace /\ exists i, (i < numNodes pp)%nat /\ sent_to pp allMaps q0 i s.1) (q0, f).
Proof.
  intros Hq Hm. unfold shuffle_process. apply wpx_bind.
  eapply wpx_mono; [apply (wpx_for_seq _ (fun i s => sent_to pp allMaps q0 i s.1)
    (fun e s => e = NotEnoughSpace /\ exists i, (i < numNodes pp)%nat /\ sent_to pp allMaps q0 i s.1))| |done].
  - intros i [q g] Hi [Hl Hs]. simpl in *. unfold send_to.
    apply wpx_bind, wpx_alloc; intros g1; [|split; [done|]; by exists i]. apply wpx_bind.
    eapply wpx_mono; [apply copy_maps_spec; nia|..].
    2:{ intros e [q1 g2] [-> E]. simpl in E. subst q1. split; [done|]. by exists i. }
    intros r [q1 g2] [(l & -> & Hf) E]. simpl in E. subst q1. simpl.
    destruct (lookup_lt_is_Some_2 q i) as [li Hli]; [lia|]. unfold wpx, enqueue. rewrite Hli.
    simpl. split; [by rewrite length_insert|]. intros node l0 Hn. destruct (Hs node l0 Hn) as (l1 & H1 & H2).
    destruct (decide (node = i)) as [->|Hne].
    + exists (li ++ [l]). split; [apply list_lookup_insert_eq; lia|].
      rewrite (proj2 (Nat.ltb_lt _ _)) by lia. rewrite (proj2 (Nat.ltb_ge _ _)) in H2 by lia. simplify_eq. by exists l.
    + exists l1. split; [by rewrite list_lookup_insert_ne|].
      destruct (Nat.ltb_spec node i), (Nat.ltb_spec node (S i)); try done; lia.
  - split; [done|]. intros node l0 Hn. exists l0. by rewrite (proj2 (Nat.ltb_ge _ _)) by lia.
  - intros [] s Hs. by apply wpx_mret.
Qed.

Lemma broadcast_process_spec pp allMaps (q0 : list (list (list T))) f :
  length q0 = numNodes pp ->
  broadcast_process pp (Some allMaps) (q0, f) = Ok false (map (fun l => l ++ [allMaps]) q0, f).
Proof.
  intros Hq. enough (H : for_each (seq 0 (numNodes pp)) (fun node => enqueue node allMaps) (q0, f) =
    Ok tt (map (fun l => l ++ [allMaps]) q0, f)).
  { unfold broadcast_process. by rewrite (bind_Ok _ _ _ _ _ H). }
  rewrite <- Hq. clear. enough (H : forall q1 q0, for_each (seq (length q1) (length q0)) (fun node => enqueue node allMaps) (q1 ++ q0, f) =
    Ok tt (q1 ++ map (fun l => l ++ [allMaps]) q0, f)) by apply (H []).
  clear. intros q1 q0. revert q1. induction q0 as [|l q0 IH]; intros q1; simpl; [done|].
  rewrite (bind_Ok _ _ _ tt (q1 ++ (l ++ [allMaps]) :: q0, f)).
  - specialize (IH (q1 ++ [l ++ [allMaps]])). rewrite length_app, Nat.add_1_r in IH. simpl in IH.
    rewrite <- !app_assoc in IH. exact IH.
  - unfold enqueue. rewrite list_lookup_middle by done. by rewrite insert_app_r_alt, Nat.sub_diag by done.
Qed.
End specs.

Lemma pa_copy_spec {K V S} plain (p : PairArray K V) (s : S) f :
  wpx (pa_copy plain p) (fun q x => q = p /\ x.1 = s) (fun e x => e = NotEnoughSpace /\ x.1 = s) (s, f).
Proof.
  unfold pa_copy. apply wpx_bind, wpx_alloc; intros f1; [|done]. apply wpx_bind, wpx_alloc; intros f2; [|done].
  apply wpx_bind. generalize (omap (fun s : option (K * V) => s) (slots p)) as l. intros l. revert f2.
  induction l as [|x l IH]; intros f2; simpl; [by destruct p|].
  apply wpx_bind, wpx_bind, wpx_copy_alloc; [|done]. intros f3. apply wpx_copy_alloc; [|done]. apply IH.
Qed.

(** The copy of a join map has its records but not its partition. *)
Lemma deepCopyJoinMap_spec {A S} (m : JoinMap A) (s : S) f :
  wpx (deepCopyJoinMap m) (fun c x => c = setHashValue (-1) m /\ x.1 = s)
    (fun e x => e = NotEnoughSpace /\ x.1 = s) (s, f).
Proof.
  assert (Hl : forall B (l : list B) g, wpx (for_each l (fun _ => alloc)) (fun _ x => x.1 = s)
    (fun e x => e = NotEnoughSpace /\ x.1 = s) (s, g)).
  { intros B l. induction l as [|b l IH]; intros g; simpl; [done|].
    apply wpx_bind, wpx_alloc; [apply IH|done]. }
  unfold deepCopyJoinMap. apply wpx_bind, wpx_alloc; intros f1; [|done]. apply wpx_bind, wpx_alloc; intros f2; [|done].
  apply wpx_bind. eapply wpx_mono with (Q := fun _ x => x.1 = s); [| |intros e x H; exact H].
  - generalize (overflows (myArray m)) as l. intros l. revert f2. induction l as [|b l IH]; intros g; simpl; [done|].
    apply wpx_bind, wpx_bind, wpx_alloc; intros g1; [|done]. apply wpx_bind.
    eapply wpx_mono; [apply Hl| |done]. intros [] [s1 g2] E. simpl in E. subst s1.
    apply wpx_alloc; [apply IH|done].
  - intros [] [s1 g] E. simpl in E. subst s1. apply wpx_bind. eapply wpx_mono; [apply Hl| |done].
    intros [] x Hx. by apply wpx_mret.
Qed.

(** A sink that merges pages into containers of type [C]; the new container
    takes the place of whatever was in the state. *)
Class PageMerger (page C : Type) := {
  createNewOutputContainer : M (C * answers) unit;
  writeOutPage : page -> M (C * answers) unit
}.

Section run.
Context {page C : Type} `{PageMerger page C}.

(** AggregationPipeline::run; the container is on the one output page. *)
Definition aggregation_run (pages : list page) : M (C * answers) unit :=
  _ <- createNewOutputContainer ;;
  for_each pages writeOutPage.

(** JoinBroadcastPipeline::run makes the container when the first page comes. *)
Definition broadcast_run (pages : list page) : M (C * answers) bool :=
  match pages with
  | [] => mret false
  | p :: pages' =>
      _ <- createNewOutputContainer ;;
      _ <- writeOutPage p ;;
      _ <- for_each pages' writeOutPage ;;
      mret true
  end.

(** With a page to merge the two do the same. *)
Lemma broadcast_run_cons p pages s :
  broadcast_run (p :: pages) s = (_ <- aggregation_run (p :: pages) ;; mret true) s.
Proof.
  unfold broadcast_run, aggregation_run. rewrite bind_assoc. unfold bind at 1 4.
  destruct (createNewOutputContainer s); try done. simpl. by rewrite bind_assoc.
Qed.

(** What holds of the new container and is kept by merging a page holds of the
    result. *)
Lemma aggregation_run_spec (I : list page -> C -> Prop) (ok : page -> Prop) pages s :
  (forall s, wpx createNewOutputContainer (fun _ x => I [] x.1) (fun e _ => e = NotEnoughSpace) s) ->
  (forall pre p c f, ok p -> I pre c ->
     wpx (writeOutPage p) (fun _ x => I (pre ++ [p]) x.1) (fun e _ => e = NotEnoughSpace) (c, f)) ->
  Forall ok pages ->
  wpx (aggregation_run pages) (fun _ x => I pages x.1) (fun e _ => e = NotEnoughSpace) s.
Proof.
  intros Hn Hw Hok. apply wpx_bind. eapply wpx_mono; [apply Hn| |done]. intros [] [c f] Hc. simpl in Hc.
  change pages with ([] ++ pages) at 2. revert Hc. generalize (@nil page) as pre. revert c f.
  induction Hok as [|p pages Hp Hok IH]; intros c f pre Hc; simpl.
  - apply wpx_mret. by rewrite app_nil_r.
  - apply wpx_bind. eapply wpx_mono; [by eapply Hw| |done]. intros [] [c1 f1] H1. simpl in H1.
    rewrite cons_middle, app_assoc. by apply IH.
Qed.
End run.

#[export] Instance AggregationCombiner_merger hash_impl plus plain (ac : AggregationCombiner.AggregationCombinerSink) :
  PageMerger (list agg_map) agg_map := {|
  createNewOutputContainer := AggregationCombiner.createNewOutputContainer ac;
  writeOutPage := AggregationCombiner.writeOutPage hash_impl plus plain ac
|}.

#[export] Instance BroadcastCombiner_merger default_object ty (bc : BroadcastCombiner.BroadcastJoinCombinerSink) :
  PageMerger (list (JoinMap row)) (JoinMap row) := {|
  createNewOutputContainer := BroadcastCombiner.createNewOutputContainer bc;
  writeOutPage := BroadcastCombiner.writeOutPage default_object bc ty
|}.
