(* ===== verification/AggSinksSpec.v ===== *)
(** What the aggregation sinks and the sink of a set do to rows: every row is
    written out once, also when pages fill up. *)

From stdpp Require Import list.
From S2P Require Import Prelude AtomicComputation TupleSet TupleSetOwnership TupleSetSpec Executors Probing Allocation SinkState PDBMap PDBVector AggSinks.

Open Scope Z_scope.

Section agg.
Context (hash_impl : obj -> Z) (plus : obj -> obj -> obj) (plain : bool).
Abbreviation view := (pview hash_impl).
Abbreviation ok := (pa_ok hash_impl).

(** ** Sums *)

Definition add (acc : option obj) (v : obj) : option obj :=
  Some (match acc with Some u => plus u v | None => v end).
(** The values of the rows of a key, added from the left to what is there. *)
Fixpoint added (rows : list (obj * obj)) (k : obj) (acc : option obj) : option obj :=
  match rows with
  | [] => acc
  | x :: rows' => added rows' k (if decide (x.1 = k) then add acc x.2 else acc)
  end.
(** The partition of a key. *)
Definition part (P : Z) (k : obj) : nat := Z.to_nat (hasher hash_impl k mod P).

Lemma added_app rows rows' k acc : added (rows ++ rows') k acc = added rows' k (added rows k acc).
Proof. revert acc. induction rows as [|x rows IH]; intros acc; simpl; [done|]. apply IH. Qed.

Lemma added_elsewhere rows k acc : k ∉ map fst rows -> added rows k acc = acc.
Proof.
  revert acc. induction rows as [|x rows IH]; intros acc; simpl; [done|].
  intros [Hx H]%not_elem_of_cons. rewrite decide_False by congruence. by apply IH.
Qed.

(** The maps [l] are the maps [l0] with the rows added up. *)
Record aggregated (P : Z) (l0 : list agg_map) (rows : list (obj * obj)) (l : list agg_map) : Prop := {
  ag_ok j m : l !! j = Some m -> ok m;
  ag_length : length l = length l0;
  ag_view j m m0 k : l !! j = Some m -> l0 !! j = Some m0 ->
    view m k = if decide (j = part P k) then added rows k (view m0 k) else view m0 k
}.

Lemma aggregated_nil P l : (forall j m, l !! j = Some m -> ok m) -> aggregated P l [] l.
Proof. intros H. split; [done|done|]. intros. simplify_eq. by case_decide. Qed.

(** The value of the row's key becomes what it should. *)
Lemma aggregated_snoc P l0 rows l k v m m' :
  aggregated P l0 rows l -> l !! part P k = Some m -> ok m' ->
  (forall k', view m' k' = if decide (k' = k) then add (view m k) v else view m k') ->
  aggregated P l0 (rows ++ [(k, v)]) (<[part P k := m']> l).
Proof.
  intros H Hm Hok Hv. split.
  - intros j x. destruct (decide (j = part P k)) as [->|Hne].
    + rewrite list_lookup_insert_eq by (by eapply lookup_lt_Some). by intros [= <-].
    + rewrite list_lookup_insert_ne by done. apply H.
  - rewrite length_insert. apply H.
  - intros j x x0 k' Hx H0. rewrite added_app. simpl. destruct (decide (j = part P k)) as [->|Hne].
    + rewrite list_lookup_insert_eq in Hx by (by eapply lookup_lt_Some). injection Hx as <-.
      rewrite Hv. pose proof (ag_view _ _ _ _ H _ _ _ k' Hm H0) as E.
      destruct (decide (k' = k)) as [->|Hk].
      * rewrite E. rewrite !decide_True by done. done.
      * rewrite E. case_decide; [|done]. by rewrite decide_False by congruence.
    + rewrite list_lookup_insert_ne in Hx by done. rewrite (ag_view _ _ _ _ H _ _ _ k' Hx H0).
      case_decide; [|done]. rewrite decide_False; [done|]. intros <-. congruence.
Qed.

(** ** PreaggregationSink *)

Record agg_input (ps : Preaggregation.PreaggregationSink) (kc vc : string) (input : tsid) (m : mem)
    (ks vs : list obj) (ka va : addr) : Prop := {
  ai_key_entry : exists mf, entry m input (Preaggregation.whichAttToHash ps) = Some (Some ka, mf);
  ai_value_entry : exists mf, entry m input (Preaggregation.whichAttToAggregate ps) = Some (Some va, mf);
  ai_keys : cols m !! ka = Some (mkColumn (ColObj kc) (map VObj ks));
  ai_values : cols m !! va = Some (mkColumn (ColObj vc) (map VObj vs));
  ai_length : length vs = length ks;
  ai_ne : ka <> va
}.

Lemma agg_input_cut ps kc vc input m m' ks vs ka va i :
  agg_input ps kc vc input m ks vs ka va -> cut i [ka; va] m m' ->
  agg_input ps kc vc input m' (drop i ks) (drop i vs) ka va.
Proof.
  intros [[mf1 E1] [mf2 E2] Hk Hv Hl Hne] (Hs & Hc & _).
  assert (He : forall k, entry m' input k = entry m input k) by (intros k; unfold entry; by rewrite Hs).
  split.
  - exists mf1. by rewrite He.
  - exists mf2. by rewrite He.
  - rewrite <- skipn_map. apply Hc; [by left|done].
  - rewrite <- skipn_map. apply Hc; [right; by left|done].
  - rewrite !length_drop. by rewrite Hl.
  - done.
Qed.

Lemma obj_at_eq class a l i m o :
  cols m !! a = Some (mkColumn (ColObj class) (map VObj l)) -> l !! i = Some o -> obj_at class (Some a) i m = Ok o m.
Proof.
  intros Ha Hi. unfold obj_at. rewrite (bind_Ok _ _ _ _ _ (read_as_eq _ _ _ _ Ha)).
  by rewrite list_lookup_fmap, Hi.
Qed.

Section preaggregation.
Context (ps : Preaggregation.PreaggregationSink) (kc vc : string) (input : tsid) (l0 : list agg_map).
Context (Hparts : Preaggregation.numPartitions ps = Z.of_nat (length l0)) (Hpos : (0 < length l0)%nat).
Context (m : mem) (ks vs : list obj) (ka va : addr) (Hin : agg_input ps kc vc input m ks vs ka va).
Abbreviation P := (Preaggregation.numPartitions ps).

Definition summed (i : nat) (s : agg_state) : Prop :=
  s_mem s = m /\ aggregated P l0 (take i (zip ks vs)) (s_maps s).
(** The page is full; if the classes are plain, the rows that are in the maps
    are those that have left the input. *)
Definition cut_short (i : nat) (e : exn) (s : agg_state) : Prop :=
  e = NotEnoughSpace /\ (plain = true -> cut i [ka; va] m (s_mem s) /\
    aggregated P l0 (take i (zip ks vs)) (s_maps s)).

Lemma agg_drop_spec {A} i s f (Q : A -> agg_state * answers -> Prop) :
  (i < length ks)%nat -> s_mem s = m -> (plain = true -> summed i s) ->
  wpx (_ <- Preaggregation.drop_processed kc vc (Some ka) (Some va) i ;; throw NotEnoughSpace) Q
    (fun e s' => cut_short i e s'.1) (s, f).
Proof.
  intros Hi Hm Hw. pose proof (ai_ne _ _ _ _ _ _ _ _ _ Hin) as Hne.
  destruct (erase_prefix_cut (ColObj kc) ka (map VObj ks) i m) as (m1 & E1 & H1); [apply Hin|rewrite length_map; lia|].
  destruct (erase_prefix_cut (ColObj vc) va (map VObj vs) i m1) as (m2 & E2 & H2).
  { destruct H1 as (_ & _ & ->); [apply Hin|]. by intros ->%list_elem_of_singleton. }
  { rewrite length_map, (ai_length _ _ _ _ _ _ _ _ _ Hin). lia. }
  unfold Preaggregation.drop_processed. apply wpx_bind, wpx_bind.
  eapply wpx_eq; [apply on_mem_eq; rewrite Hm; exact E1|].
  eapply wpx_eq; [apply on_mem_eq; exact E2|]. apply wpx_throw. split; [done|]. intros Hp. split.
  - eapply cut_cons; [by intros ->%list_elem_of_singleton|exact H1|exact H2].
  - by apply Hw.
Qed.

Lemma summed_map i s k : summed i s -> exists m1, s_maps s !! part P k = Some m1 /\ ok m1.
Proof.
  intros [_ Hw]. destruct (lookup_lt_is_Some_2 (s_maps s) (part P k)) as [m1 Hm1].
  - rewrite (ag_length _ _ _ _ Hw). unfold part. rewrite Hparts.
    pose proof (Z.mod_pos_bound (hasher hash_impl k) (Z.of_nat (length l0))). lia.
  - exists m1. split; [done|]. by eapply ag_ok.
Qed.

(** A row is in when its key has its new value. *)
Lemma summed_S i s k v m1 sl m2 :
  summed i s -> ks !! i = Some k -> vs !! i = Some v -> s_maps s !! part P k = Some m1 ->
  entered hash_impl m1 k (match view m1 k with Some u => plus u v | None => v end) sl m2 ->
  summed (S i) (set_s_maps (<[part P k := m2]> (s_maps s)) s).
Proof.
  intros [Hm Hw] Hk Hv Hm1 (Hok & _ & Hview). split; [done|]. simpl.
  rewrite (take_S_r _ _ (k, v)) by (apply lookup_zip_Some; by split).
  eapply aggregated_snoc; [done|done|done|]. intros k'. rewrite Hview. case_decide; [|done].
  unfold add. done.
Qed.

Lemma agg_full_spec {A} (c : AS A) i Q s f clean :
  wpx c Q (fun e s' => e = NotEnoughSpace /\
    wpx (_ <- clean ;; throw NotEnoughSpace) Q (fun e s' => cut_short i e s'.1) s') (s, f) ->
  wpx (on_full c clean) Q (fun e s' => cut_short i e s'.1) (s, f).
Proof.
  intros H. unfold on_full. apply wpx_try. eapply wpx_mono; [exact H|done|]. intros e s' [-> H']. exact H'.
Qed.

Lemma add_key_spec i s f k v m1 :
  (i < length ks)%nat -> summed i s -> ks !! i = Some k -> vs !! i = Some v ->
  s_maps s !! part P k = Some m1 -> ok m1 -> view m1 k = None ->
  wpx (Preaggregation.add_key hash_impl plain kc vc (Some ka) (Some va) i (part P k) k)
    (fun _ s' => summed (S i) s'.1) (fun e s' => cut_short i e s'.1) (s, f).
Proof.
  intros Hi Hs Hk Hv Hm1 Hok Hnone. pose proof Hs as [Hm Hw]. pose proof (lookup_lt_Some _ _ _ Hm1) as Hlt.
  unfold Preaggregation.add_key. apply wpx_bind, agg_full_spec.
  eapply on_map_wpx; [done|]. eapply wpx_mono; [by apply map_at_absent|..].
  2:{ intros e [m2 f2] (-> & Hp). split; [done|]. simpl in *. apply agg_drop_spec; [done|done|].
      intros E. rewrite (Hp E), set_s_maps_id by done. done. }
  intros sl [m2 f2] Hent. simpl in *. apply wpx_bind.
  eapply wpx_eq; [apply on_mem_eq; simpl; rewrite Hm; eapply obj_at_eq; [apply Hin|done]|].
  apply agg_full_spec. eapply on_map_wpx; [simpl; by apply list_lookup_insert_eq|]. simpl.
  destruct Hent as (Hok2 & Hsl & Hv2).
  eapply wpx_mono; [by eapply set_value_spec|..].
  - intros [] [m3 f3] H3. simpl in *. subst m3. unfold set_s_maps, set_s_mem. simpl.
    rewrite list_insert_insert_eq. rewrite <- Hm. apply (summed_S i s k v m1 sl); [done..|]. rewrite Hnone.
    by apply (entered_update hash_impl m1 k None v sl m2).
  - intros e [m3 f3] (-> & Hp & H3). simpl in *. subst m3. split; [done|].
    rewrite list_insert_insert_eq. unfold wpx. rewrite bind_assoc. apply wpx_bind.
    destruct (pa_setUnused_ok hash_impl m2 f3 k) as [q E].
    eapply wpx_eq; [eapply on_map_eq; [by apply list_lookup_insert_eq|exact E]|].
    apply agg_drop_spec; [done|done|congruence].
Qed.

(** Putting the old value back only happens to classes that are not plain. *)
Lemma put_back_spec {A} i s f k u m1 sl (Q : A -> agg_state * answers -> Prop) :
  (i < length ks)%nat -> plain = false -> summed i s -> s_maps s !! part P k = Some m1 ->
  slots m1 !! sl = Some (Some (k, u)) ->
  wpx (_ <- (_ <- on_map (part P k) (set_value plain sl u) ;;
             Preaggregation.drop_processed kc vc (Some ka) (Some va) i) ;; throw NotEnoughSpace) Q
    (fun e s' => cut_short i e s'.1) (s, f).
Proof.
  intros Hi Hp [Hm Hw] Hm1 Hsl. unfold wpx. rewrite bind_assoc. apply wpx_bind.
  eapply on_map_wpx; [done|]. eapply wpx_mono; [by eapply set_value_spec|..].
  - intros [] [m3 f3] H3. apply agg_drop_spec; [done|done|congruence].
  - intros e [m3 f3] (-> & _ & _). split; [done|]. congruence.
Qed.

Lemma add_value_spec i s f k v m1 u :
  (i < length ks)%nat -> summed i s -> ks !! i = Some k -> vs !! i = Some v ->
  s_maps s !! part P k = Some m1 -> ok m1 -> view m1 k = Some u ->
  wpx (Preaggregation.add_value hash_impl plus plain kc vc (Some ka) (Some va) i (part P k) k)
    (fun _ s' => summed (S i) s'.1) (fun e s' => cut_short i e s'.1) (s, f).
Proof.
  intros Hi Hs Hk Hv Hm1 Hok Hu. pose proof Hs as [Hm Hw].
  destruct (map_at_present hash_impl None plain m1 f k u Hok Hu) as (sl & E & Hsl).
  unfold Preaggregation.add_value. apply wpx_bind.
  eapply wpx_eq; [by eapply on_map_eq|]. rewrite set_s_maps_id by done.
  apply wpx_bind. eapply on_map_wpx; [done|]. apply wpx_bind.
  eapply wpx_eq; [by eapply value_at_eq|]. apply wpx_bind, wpx_copy_alloc.
  2:{ intros Hp f'. split; [done|]. congruence. }
  intros f1. apply wpx_mret. simpl. rewrite set_s_maps_id by done. apply wpx_bind.
  eapply wpx_eq; [apply on_mem_eq; simpl; rewrite Hm; eapply obj_at_eq; [apply Hin|done]|].
  rewrite <- Hm, set_s_mem_id.
  apply agg_full_spec. eapply on_map_wpx; [done|]. apply wpx_bind, wpx_copy_alloc.
  - intros f2. eapply wpx_mono; [by eapply set_value_spec|..].
    + intros [] [m3 f3] H3. simpl in *. subst m3. apply (summed_S i s k v m1 sl); [done..|]. rewrite Hu.
      by apply (entered_update hash_impl m1 k u _ sl m1), pview_entered_self.
    + intros e [m3 f3] (-> & Hp & H3). simpl in *. subst m3. split; [done|]. rewrite set_s_maps_id by done.
      by eapply put_back_spec.
  - intros Hp f2. split; [done|]. simpl. rewrite set_s_maps_id by done. by eapply put_back_spec.
Qed.
Lemma write_row_added i s f :
  (i < length ks)%nat -> summed i s ->
  wpx (Preaggregation.write_row hash_impl plus plain ps kc vc (Some ka) (Some va) i)
    (fun _ s' => summed (S i) s'.1) (fun e s' => cut_short i e s'.1) (s, f).
Proof.
  intros Hi Hs. pose proof Hs as [Hm Hw]. destruct (lookup_lt_is_Some_2 ks i Hi) as [k Hk].
  destruct (lookup_lt_is_Some_2 vs i) as [v Hv]; [by rewrite (ai_length _ _ _ _ _ _ _ _ _ Hin)|].
  unfold Preaggregation.write_row. apply wpx_bind.
  eapply wpx_eq; [apply on_mem_eq; rewrite Hm; eapply obj_at_eq; [apply Hin|done]|].
  rewrite <- Hm, set_s_mem_id. cbv zeta. rewrite (proj2 (Z.eqb_neq P 0)) by lia.
  destruct (summed_map i s k Hs) as (m1 & Hm1 & Hok). apply wpx_bind. fold (part P k).
  eapply wpx_eq; [eapply on_map_eq; [done|by apply pa_count_eq]|]. rewrite set_s_maps_id by done.
  destruct (view m1 k) as [u|] eqn:Hu; simpl.
  - by eapply add_value_spec.
  - by eapply add_key_spec.
Qed.

Lemma writeOut_added s f :
  summed 0 s ->
  wpx (Preaggregation.writeOut hash_impl plus plain ps kc vc input)
    (fun _ s' => summed (length ks) s'.1)
    (fun e s' => exists i, (i < length ks)%nat /\ cut_short i e s'.1) (s, f).
Proof.
  intros Hs. pose proof Hs as [Hm _]. unfold Preaggregation.writeOut.
  destruct (ai_key_entry _ _ _ _ _ _ _ _ _ Hin) as [mf1 E1]. destruct (ai_value_entry _ _ _ _ _ _ _ _ _ Hin) as [mf2 E2].
  apply wpx_bind. eapply wpx_eq; [apply on_mem_eq, column_at_eq; rewrite Hm; exact E1|]. rewrite set_s_mem_id. simpl.
  apply wpx_bind. eapply wpx_eq; [apply on_mem_eq, read_as_eq; rewrite Hm; apply Hin|]. rewrite set_s_mem_id.
  apply wpx_bind. eapply wpx_eq; [apply on_mem_eq, column_at_eq; rewrite Hm; exact E2|]. rewrite set_s_mem_id. simpl.
  apply wpx_bind. eapply wpx_eq; [apply on_mem_eq, read_as_eq; rewrite Hm; apply Hin|]. rewrite set_s_mem_id, length_map.
  apply (wpx_for_seq _ (fun i s' => summed i s'.1)); [|done].
  intros i [s1 f1] Hi Hs1. eapply wpx_mono; [by apply write_row_added|done|].
  intros e s2 H2. by exists i.
Qed.
End preaggregation.

(** PreaggregationSink::writeOut adds the value of every row, in order, to
    the value of the row's key in the map of the key's partition, and leaves
    the input alone.  When the page has no more space it throws NotEnoughSpace;
    if keys and values are plain objects, exactly the rows that are in the maps
    have then left the input, which is a well-formed input again. *)
Theorem Preaggregation_writeOut_adds_up ps kc vc input l0 m ks vs ka va f :
  Preaggregation.numPartitions ps = Z.of_nat (length l0) -> (0 < length l0)%nat ->
  (forall j x, l0 !! j = Some x -> ok x) ->
  agg_input ps kc vc input m ks vs ka va ->
  wpx (Preaggregation.writeOut hash_impl plus plain ps kc vc input)
    (fun _ s => s_mem s.1 = m /\
       aggregated (Preaggregation.numPartitions ps) l0 (zip ks vs) (s_maps s.1))
    (fun e s => e = NotEnoughSpace /\ (plain = true -> exists i, (i < length ks)%nat /\
       aggregated (Preaggregation.numPartitions ps) l0 (take i (zip ks vs)) (s_maps s.1) /\
       agg_input ps kc vc input (s_mem s.1) (drop i ks) (drop i vs) ka va))
    (mkSinkState m l0, f).
Proof.
  intros Hparts Hpos Hok Hin. eapply wpx_mono.
  - eapply (writeOut_added ps kc vc input l0 Hparts Hpos m ks vs ka va Hin).
    split; [done|]. by apply aggregated_nil.
  - intros [] s [Hm Hw]. split; [done|]. rewrite take_ge in Hw; [done|]. rewrite length_zip. lia.
  - intros e s (i & Hi & -> & H). split; [done|]. intros Hp. destruct (H Hp) as [Hcut Hw].
    exists i. split; [done|]. split; [done|]. by eapply agg_input_cut.
Qed.

(** ** New containers *)

Lemma new_agg_maps_spec ps f :
  wpx (Preaggregation.createNewOutputContainer ps)
    (fun _ s => s.1 = replicate (Z.to_nat (Preaggregation.numPartitions ps)) Map_new)
    (fun e _ => e = NotEnoughSpace) ([], f).
Proof.
  unfold Preaggregation.createNewOutputContainer. apply wpx_bind, wpx_alloc; intros f1; [|done].
  apply (wpx_for_seq _ (fun i s => s.1 = replicate i Map_new)); [|done].
  intros i [l f2] _ Hl. simpl in Hl. subst l.
  apply wpx_bind, wpx_alloc; intros f3; [|done]. apply wpx_bind, wpx_alloc; intros f4; [|done].
  change (replicate i Map_new ++ [Map_new] = replicate (S i) (@Map_new obj obj)). by rewrite replicate_S_end.
Qed.

(** ** AggregationCombinerSink *)

(** The sum of what is there and what is added. *)
Definition merged (a b : option obj) : option obj := match b with Some v => add a v | None => a end.

Lemma merge_pair_spec m x f :
  ok m ->
  wpx (AggregationCombiner.merge_pair hash_impl plus plain x)
    (fun _ s => ok s.1 /\ forall k, view s.1 k = if decide (k = x.1) then add (view m k) x.2 else view m k)
    (fun e _ => e = NotEnoughSpace) (m, f).
Proof.
  destruct x as [k v]. intros H. unfold AggregationCombiner.merge_pair. apply wpx_bind.
  eapply wpx_eq; [by apply pa_count_eq|]. simpl. destruct (view m k) as [u|] eqn:Hu; simpl; apply wpx_bind.
  - destruct (map_at_present hash_impl None plain m f k u H Hu) as (sl & E & Hsl).
    eapply wpx_eq; [done|]. apply wpx_bind. eapply wpx_eq; [by eapply value_at_eq|].
    apply wpx_bind, wpx_copy_alloc; [|done]. intros f1. apply wpx_bind, wpx_copy_alloc; [|done]. intros f2.
    eapply wpx_mono; [by eapply set_value_spec| |by intros e s [-> _]]. intros [] s Hs.
    destruct (entered_update hash_impl m k u (plus u v) sl m) as (Hok & _ & Hv); [by apply pview_entered_self|].
    rewrite Hs. split; [done|]. intros k'. rewrite Hv. case_decide as E'; [|done]. by rewrite E', Hu.
  - eapply wpx_mono; [by apply map_at_absent| |by intros e s [-> _]]. intros sl [m2 f2] Hent. simpl in Hent.
    pose proof Hent as (_ & Hsl & _).
    eapply wpx_mono; [by eapply set_value_spec| |by intros e s [-> _]]. intros [] s Hs.
    destruct (entered_update hash_impl m k None v sl m2 Hent) as (Hok & _ & Hv).
    rewrite Hs. split; [done|]. intros k'. rewrite Hv. case_decide as E'; [|done]. by rewrite E', Hu.
Qed.

Lemma merge_pairs_spec l m f :
  NoDup (map fst l) -> ok m ->
  wpx (for_each l (AggregationCombiner.merge_pair hash_impl plus plain))
    (fun _ s => ok s.1 /\ forall k, view s.1 k = added l k (view m k))
    (fun e _ => e = NotEnoughSpace) (m, f).
Proof.
  revert m f. induction l as [|x l IH]; intros m f Hnd H; simpl; [by apply wpx_mret|].
  apply wpx_bind. eapply wpx_mono; [by apply merge_pair_spec| |done]. intros [] [m1 f1] [H1 Hv1]. simpl in *.
  apply NoDup_cons in Hnd as [_ Hnd].
  eapply wpx_mono; [by apply IH| |done]. intros [] [m2 f2] [H2 Hv2]. simpl in *.
  split; [done|]. intros k. rewrite Hv2, Hv1. f_equal. by repeat case_decide.
Qed.

Lemma added_pairs p k acc : ok p -> added (pair_list p) k acc = merged acc (view p k).
Proof.
  intros H. destruct (view p k) as [v|] eqn:Hv; simpl.
  - apply pview_iff, elem_of_pair_list in Hv; [|done].
    pose proof (pair_list_NoDup hash_impl p (pa_probe _ _ H)) as Hnd.
    apply list_elem_of_split in Hv as (l1 & l2 & E). rewrite E in *. rewrite map_app in Hnd. simpl in Hnd.
    apply NoDup_app in Hnd as (_ & Hd & [H2 _]%NoDup_cons).
    rewrite added_app. simpl. rewrite decide_True by done. rewrite added_elsewhere by done.
    rewrite added_elsewhere; [done|]. intros Hk. apply (Hd k Hk). by left.
  - apply added_elsewhere. intros ([k' v] & -> & Hx)%list_elem_of_fmap. apply elem_of_pair_list in Hx.
    apply (pview_iff hash_impl) in Hx; [|done]. simpl in *. congruence.
Qed.

Lemma combiner_page_spec ac page mergeMe m f :
  page !! AggregationCombiner.workerID ac = Some mergeMe -> ok mergeMe -> ok m ->
  wpx (AggregationCombiner.writeOutPage hash_impl plus plain ac page)
    (fun _ s => ok s.1 /\ forall k, view s.1 k = merged (view m k) (view mergeMe k))
    (fun e _ => e = NotEnoughSpace) (m, f).
Proof.
  intros Hp Hm H. unfold AggregationCombiner.writeOutPage. rewrite Hp. apply wpx_bind, wpx_mret.
  unfold wpx. rewrite for_each_pair_eq.
  eapply wpx_mono; [apply merge_pairs_spec; [by eapply pair_list_NoDup, Hm|done]| |done].
  intros [] s [Hok Hv]. split; [done|]. intros k. by rewrite Hv, added_pairs.
Qed.
End agg.

Section set_sink.
Context (vs : SetSink.VectorSink) (class : string) (input : tsid) (v0 : Array (option Z)).
Context (m : mem) (hs : list (option Z)) (a : addr) (mf : MaintenanceFuncs).
Context (Hentry : entry m input (SetSink.whichAttToStore vs) = Some (Some a, mf))
        (Hcol : cols m !! a = Some (mkColumn (ColHandle class) (map VHandle hs)))
        (Hroom : usedSlots v0 + Z.of_nat (length hs) <= 2 ^ 31).

Definition stored (i : nat) (s : SetSink.vector_state) : Prop :=
  s_mem s = m /\ exists v, s_maps s = [v] /\ vec_ok v /\ elems v = elems v0 ++ take i hs.
Definition stored_full (e : exn) (s : SetSink.vector_state) : Prop :=
  e = NotEnoughSpace /\ exists i v, (i < length hs)%nat /\ cut i [a] m (s_mem s) /\
    s_maps s = [v] /\ vec_ok v /\ elems v = elems v0 ++ take i hs.

Lemma handle_at_eq i h : hs !! i = Some h -> SetSink.handle_at class (Some a) i m = Ok h m.
Proof.
  intros Hi. unfold SetSink.handle_at. rewrite (bind_Ok _ _ _ _ _ (read_as_eq _ _ _ _ Hcol)).
  by rewrite list_lookup_fmap, Hi.
Qed.

Lemma store_row i s f :
  (i < length hs)%nat -> stored i s ->
  wpx (on_full (h <- on_mem (SetSink.handle_at class (Some a) i) ;; on_map 0 (push_back false h))
         (on_mem (erase_prefix (ColHandle class) (Some a) i)))
    (fun _ s' => stored (S i) s'.1) (fun e s' => stored_full e s'.1) (s, f).
Proof.
  intros Hi (Hm & v & Hv & Hok & He). destruct (lookup_lt_is_Some_2 hs i Hi) as [h Hh].
  unfold on_full. apply wpx_try, wpx_bind.
  eapply wpx_eq; [apply on_mem_eq; rewrite Hm; by apply handle_at_eq|]. rewrite <- Hm, set_s_mem_id.
  eapply (on_map_wpx 0 _ _ _ s f v); [by rewrite Hv|].
  pose proof (vec_push_spec false (arr_push_back false h) h v f eq_refl Hok) as Hp. unfold usedSlots in *.
  eapply wpx_mono; [apply Hp; rewrite He, length_app, length_take; lia|..]; simpl.
  - intros [] [v' f'] [Hok' He']. simpl in *. split; [done|]. exists v'. rewrite Hv. split; [done|]. split; [done|].
    by rewrite He', He, (take_S_r _ _ _ Hh), app_assoc.
  - intros e [v' f'] (-> & Hok' & He'). simpl in *. apply wpx_bind.
    destruct (erase_prefix_cut (ColHandle class) a (map VHandle hs) i m) as (m1 & E & Hc); [done|rewrite length_map; lia|].
    eapply wpx_eq; [apply on_mem_eq; simpl; rewrite Hm; exact E|]. apply wpx_throw. simpl.
    split; [done|]. exists i, v'. rewrite Hv, He', He. by split_and!.
Qed.

Lemma store_rows s f :
  stored 0 s ->
  wpx (SetSink.writeOut vs class input) (fun _ s' => stored (length hs) s'.1) (fun e s' => stored_full e s'.1) (s, f).
Proof.
  intros Hs. pose proof Hs as [Hm _]. unfold SetSink.writeOut.
  apply wpx_bind. eapply wpx_eq; [apply on_mem_eq, column_at_eq; rewrite Hm; exact Hentry|]. rewrite set_s_mem_id. simpl.
  apply wpx_bind. eapply wpx_eq; [apply on_mem_eq, read_as_eq; rewrite Hm; exact Hcol|]. rewrite set_s_mem_id, length_map.
  apply (wpx_for_seq _ (fun i s' => stored i s'.1)); [|done].
  intros i [s1 f1] Hi Hs1. by apply store_row.
Qed.
End set_sink.

Lemma VectorSink_exact vs class input v0 m hs a mf f :
  entry m input (SetSink.whichAttToStore vs) = Some (Some a, mf) ->
  cols m !! a = Some (mkColumn (ColHandle class) (map VHandle hs)) ->
  usedSlots v0 + Z.of_nat (length hs) <= 2 ^ 31 -> vec_ok v0 ->
  wpx (SetSink.writeOut vs class input)
    (fun _ s => s_mem s.1 = m /\ exists v, s_maps s.1 = [v] /\ vec_ok v /\ elems v = elems v0 ++ hs)
    (fun e s => e = NotEnoughSpace /\ exists i v, (i < length hs)%nat /\ s_maps s.1 = [v] /\ vec_ok v /\
       elems v = elems v0 ++ take i hs /\
       cols (s_mem s.1) !! a = Some (mkColumn (ColHandle class) (map VHandle (drop i hs))) /\
       entry (s_mem s.1) input (SetSink.whichAttToStore vs) = Some (Some a, mf))
    (mkSinkState m [v0], f).
Proof.
  intros He Hc Hroom Hok. eapply wpx_mono; [eapply store_rows; [done..|]| |].
  - split; [done|]. exists v0. by rewrite app_nil_r.
  - intros [] s (Hm & v & Hv & Hv' & E). rewrite firstn_all in E. split; [done|]. by exists v.
  - intros e s (-> & i & v & Hi & (Hs & Hcut & _) & Hv & Hv' & E). split; [done|]. exists i, v. split_and!; try done.
    + rewrite <- skipn_map. apply Hcut; [by left|done].
    + unfold entry. by rewrite Hs.
Qed.

(** VectorSink::writeOut appends the rows of its input, in order, to the
    output vector and leaves the input alone; when the page is full it throws
    NotEnoughSpace, and exactly the rows that are in the vector have left the
    input. *)
Theorem VectorSink_writeOut_exactly_once vs class input v0 m hs a mf f :
  entry m input (SetSink.whichAttToStore vs) = Some (Some a, mf) ->
  cols m !! a = Some (mkColumn (ColHandle class) (map VHandle hs)) ->
  usedSlots v0 + Z.of_nat (length hs) <= 2 ^ 31 -> vec_ok v0 ->
  wpx (SetSink.writeOut vs class input)
    (fun _ s => s_mem s.1 = m /\ exists v, s_maps s.1 = [v] /\ vec_ok v /\ elems v = elems v0 ++ hs)
    (fun e s => e = NotEnoughSpace /\ exists i v, (i < length hs)%nat /\ s_maps s.1 = [v] /\ vec_ok v /\
       elems v = elems v0 ++ take i hs /\
       cols (s_mem s.1) !! a = Some (mkColumn (ColHandle class) (map VHandle (drop i hs))) /\
       entry (s_mem s.1) input (SetSink.whichAttToStore vs) = Some (Some a, mf))
    (mkSinkState m [v0], f).
Proof. apply VectorSink_exact. Qed.

Lemma VectorSink_writeOut_exactly_once_witness :
  let m := mkMem {[ 1%positive := mkColumn (ColHandle "Employee") (map VHandle [Some 4; Some 5; Some 6]) ]}
             {[ 2%positive := {[ 0 := (Some 1%positive, MaintenanceFuncs_empty) ]} ]} in
  wpx (SetSink.writeOut (SetSink.mkVectorSink 0) "Employee" 2)
    (fun _ s => s_mem s.1 = m /\ exists v, s_maps s.1 = [v] /\ vec_ok v /\ elems v = [Some 4; Some 5; Some 6])
    (fun e s => e = NotEnoughSpace /\ exists i v, (i < 3)%nat /\ s_maps s.1 = [v] /\ vec_ok v /\
       elems v = take i [Some 4; Some 5; Some 6] /\
       cols (s_mem s.1) !! 1%positive = Some (mkColumn (ColHandle "Employee") (map VHandle (drop i [Some 4; Some 5; Some 6]))) /\
       entry (s_mem s.1) 2 0 = Some (Some 1%positive, MaintenanceFuncs_empty))
    (mkSinkState m [mkArray [] 1], [true; true; true; false]).
Proof.
  intros m. apply (VectorSink_writeOut_exactly_once (SetSink.mkVectorSink 0) "Employee" 2 (mkArray [] 1) m
    [Some 4; Some 5; Some 6] 1 MaintenanceFuncs_empty).
  - reflexivity.
  - reflexivity.
  - unfold usedSlots. simpl. lia.
  - unfold vec_ok, usedSlots. simpl. lia.
Defined.
