(* ===== verification/Aggregation.v ===== *)
(** Aggregation as a whole: the rows PreaggregationSinks added up on their
    pages, sent to their nodes and added up again by the workers'
    AggregationCombinerSinks, give every key the sum of all its rows. *)

From stdpp Require Import list.
From S2P Require Import Prelude Allocation AtomicComputation TupleSet SinkState Probing PDBMap PDBVector Executors AggSinks AggSinksSpec Processors.

Open Scope Z_scope.

Section aggregation.
Context (hash_impl : obj -> Z) (plus : obj -> obj -> obj) (plain : bool).
Context (plus_assoc : forall a b c, plus a (plus b c) = plus (plus a b) c).
Abbreviation view := (pview hash_impl).
Abbreviation ok := (pa_ok hash_impl).
Abbreviation sum := (added plus).

(** ** Sums of sums *)

Lemma merged_added rows k a : merged plus a (sum rows k None) = sum rows k a.
Proof.
  assert (G : forall b, sum rows k (merged plus a b) = merged plus a (sum rows k b)).
  { induction rows as [|x rows IH]; intros b; simpl; [done|].
    destruct (decide (x.1 = k)); [|by rewrite IH]. rewrite <- IH. f_equal.
    destruct a, b; simpl; unfold add; try done. by rewrite plus_assoc. }
  symmetry. apply (G None).
Qed.

Lemma added_concat rows k (a : option obj) :
  foldl (fun acc rs => merged plus acc (sum rs k None)) a rows = sum (concat rows) k a.
Proof.
  revert a. induction rows as [|rs rows IH]; intros a; simpl; [done|].
  by rewrite IH, merged_added, added_app.
Qed.

(** ** The pages a node gets *)

(** What is on a page of a PreaggregationSink, as for the sinks of a join. *)
Inductive preagg_page (ps : Preaggregation.PreaggregationSink) (kc vc : string) : list (obj * obj) -> list agg_map -> Prop :=
| preagg_new : preagg_page ps kc vc [] (replicate (Z.to_nat (Preaggregation.numPartitions ps)) Map_new)
| preagg_batch rs page input m ks vs ka va f m' page' f' :
    preagg_page ps kc vc rs page -> agg_input ps kc vc input m ks vs ka va ->
    Preaggregation.writeOut hash_impl plus plain ps kc vc input (mkSinkState m page, f) =
      Ok tt (mkSinkState m' page', f') ->
    preagg_page ps kc vc (rs ++ zip ks vs) page'
| preagg_full rs page input m ks vs ka va f m' page' f' rest :
    plain = true -> preagg_page ps kc vc rs page -> agg_input ps kc vc input m ks vs ka va ->
    Preaggregation.writeOut hash_impl plus plain ps kc vc input (mkSinkState m page, f) =
      Raise NotEnoughSpace (mkSinkState m' page', f') ->
    cols m' !! ka = Some (mkColumn (ColObj kc) rest) ->
    preagg_page ps kc vc (rs ++ take (length ks - length rest) (zip ks vs)) page'.

Lemma aggregated_trans P l0 rs l rs' l' :
  aggregated hash_impl plus P l0 rs l -> aggregated hash_impl plus P l rs' l' ->
  aggregated hash_impl plus P l0 (rs ++ rs') l'.
Proof.
  intros H H'. split.
  - apply H'.
  - by rewrite (ag_length _ _ _ _ _ _ H'), (ag_length _ _ _ _ _ _ H).
  - intros j m m0 k Hm Hm0. destruct (lookup_lt_is_Some_2 l j) as [m1 Hm1].
    { rewrite <- (ag_length _ _ _ _ _ _ H'). by eapply lookup_lt_Some. }
    rewrite (ag_view _ _ _ _ _ _ H' _ _ _ k Hm Hm1), (ag_view _ _ _ _ _ _ H _ _ _ k Hm1 Hm0), added_app.
    by case_decide.
Qed.

Lemma preagg_page_aggregated ps kc vc rs page :
  0 < Preaggregation.numPartitions ps -> preagg_page ps kc vc rs page ->
  aggregated hash_impl plus (Preaggregation.numPartitions ps)
    (replicate (Z.to_nat (Preaggregation.numPartitions ps)) Map_new) rs page.
Proof.
  intros HP. set (l0 := replicate _ _). assert (Hlen : forall rs page,
    aggregated hash_impl plus (Preaggregation.numPartitions ps) l0 rs page ->
    Preaggregation.numPartitions ps = Z.of_nat (length page) /\ (0 < length page)%nat).
  { intros rs' page' H. rewrite (ag_length _ _ _ _ _ _ H). unfold l0. rewrite length_replicate. lia. }
  induction 1 as [|rs page input m ks vs ka va f m' page' f' Hp IH Hin Hrun|rs page input m ks vs ka va f m' page' f' rest Hpl Hp IH Hin Hrun Hrest].
  - apply aggregated_nil. intros j m [-> _]%lookup_replicate_1. apply Map_new_ok.
  - destruct (Hlen _ _ IH) as [H1 H2]. eapply aggregated_trans; [exact IH|].
    pose proof (writeOut_added hash_impl plus plain ps kc vc input page H1 H2 m ks vs ka va Hin (mkSinkState m page) f) as H.
    unfold wpx in H. rewrite Hrun in H. destruct H as [_ Hw]; [split; [done|]; apply aggregated_nil, IH|].
    rewrite take_ge in Hw; [done|]. rewrite length_zip. lia.
  - destruct (Hlen _ _ IH) as [H1 H2]. eapply aggregated_trans; [exact IH|].
    pose proof (writeOut_added hash_impl plus plain ps kc vc input page H1 H2 m ks vs ka va Hin (mkSinkState m page) f) as H.
    unfold wpx in H. rewrite Hrun in H. destruct H as (i & Hi & _ & Hc); [split; [done|]; apply aggregated_nil, IH|].
    destruct (Hc Hpl) as [(_ & Hcut & _) Hw]. simpl in Hcut.
    rewrite (Hcut ka (ColObj kc) (map VObj ks)) in Hrest; [|by left|apply Hin].
    injection Hrest as <-. rewrite length_drop, length_map. by replace (length ks - (length ks - i))%nat with i by lia.
Qed.

(** The slice of a page that the processor sends to a node. *)
Definition slice {A} (T node : nat) (page : list A) : list A := take T (drop (node * T) page).

Lemma slice_lookup {A} T node w (page : list A) : (w < T)%nat -> slice T node page !! w = page !! (node * T + w)%nat.
Proof. intros Hw. unfold slice. by rewrite lookup_take_lt, lookup_drop by done. Qed.

(** ** A worker's result *)

Lemma worker_result N T node w rows pages f :
  (node < N)%nat -> (w < T)%nat ->
  Forall2 (fun rs page => aggregated hash_impl plus (Z.of_nat (N * T)) (replicate (N * T) Map_new) rs page) rows pages ->
  wpx (@aggregation_run _ _ (AggregationCombiner_merger hash_impl plus plain (AggregationCombiner.mkCombiner w))
         (map (slice T node) pages))
    (fun _ s => ok s.1 /\ forall k, view s.1 k =
       if decide ((node * T + w)%nat = part hash_impl (Z.of_nat (N * T)) k) then sum (concat rows) k None else None)
    (fun e _ => e = NotEnoughSpace) (Map_new, f).
Proof.
  intros Hn Hw HF. set (j := (node * T + w)%nat). set (P := Z.of_nat (N * T)) in *.
  set (val := fun (page : list agg_map) k => match page !! w with Some m => view m k | None => None end).
  set (good := fun page : list agg_map => exists m, page !! w = Some m /\ ok m).
  assert (Hgood : Forall good (map (slice T node) pages)).
  { apply Forall_map. clear -HF Hn Hw. induction HF as [|rs page rows pages H HF IH]; constructor; [|done].
    destruct (lookup_lt_is_Some_2 page (node * T + w)) as [m Hm].
    { rewrite (ag_length _ _ _ _ _ _ H), length_replicate. nia. }
    exists m. rewrite slice_lookup by done. split; [done|]. by eapply ag_ok. }
  eapply wpx_mono; [apply (aggregation_run_spec (fun ps m => ok m /\ forall k, view m k =
      foldl (fun acc page => merged plus acc (val page k)) None ps) good); [| |exact Hgood]| |done].
  - intros [c g]. apply wpx_bind, wpx_alloc; intros g'; [|done]. eapply wpx_eq; [done|]. simpl.
    split; [apply Map_new_ok|]. intros k. apply Map_new_view.
  - intros pre page c g (m & Hm & Hokm) [Hc Hv].
    eapply wpx_mono; [by eapply combiner_page_spec| |done]. intros [] s [Hs Hs']. split; [done|].
    intros k. rewrite Hs', Hv, foldl_app. simpl. unfold val at 3. by rewrite Hm.
  - intros [] s [Hs Hv]. split; [done|]. intros k. rewrite Hv. clear Hv Hgood good f s Hs.
    assert (E : Forall2 (fun rs page => val (slice T node page) k =
      if decide (j = part hash_impl P k) then sum rs k None else None) rows pages).
    { eapply Forall2_impl; [exact HF|]. intros rs page H. unfold val. rewrite slice_lookup by done. fold j.
      destruct (lookup_lt_is_Some_2 page j) as [m Hm]; [rewrite (ag_length _ _ _ _ _ _ H), length_replicate; unfold j; nia|].
      rewrite Hm. destruct (lookup_lt_is_Some_2 (replicate (N * T) (@Map_new obj obj)) j) as [m0 Hm0];
        [rewrite length_replicate; unfold j; nia|].
      rewrite (ag_view _ _ _ _ _ _ H _ _ _ k Hm Hm0). apply lookup_replicate_1 in Hm0 as [-> _].
      by rewrite Map_new_view. }
    clear HF. rewrite <- added_concat. revert E. destruct (decide (j = part hash_impl P k)); intros E.
    + match goal with |- foldl ?g ?a ?x = foldl ?h ?a ?y => enough (G : forall b, foldl g b x = foldl h b y) by apply G end.
      induction E as [|rs page rows pages H HF IH]; intros a; simpl; [done|]. by rewrite H, IH.
    + induction E as [|rs page rows pages H HF IH]; simpl; [done|]. by rewrite H.
Qed.

(** ** The whole *)

(** The pages a pipeline hands to its PreaggregationPageProcessor, in order. *)
Definition process_pages (pp : PageProcessor) (pages : list (list agg_map)) : M (list (list (list agg_map)) * answers) unit :=
  for_each pages (fun page => _ <- shuffle_process (pa_copy plain) pp (Some page) ;; mret tt).

Lemma process_pages_sent pp pages (q0 q : list (list (list agg_map))) f f' :
  length q0 = numNodes pp ->
  Forall (fun page => length page = (numNodes pp * numProcessingThreads pp)%nat) pages ->
  process_pages pp pages (q0, f) = Ok tt (q, f') ->
  forall node l0, (node < numNodes pp)%nat -> q0 !! node = Some l0 ->
    q !! node = Some (l0 ++ map (slice (numProcessingThreads pp) node) pages).
Proof.
  intros Hq HF. revert q0 f Hq. induction HF as [|page pages Hp HF IH]; intros q0 f Hq; unfold process_pages; simpl.
  { intros [= <- <-] node l0 _ Hl. by rewrite app_nil_r. }
  intros (? & [q1 f1] & H1 & Hrest)%bind_Ok_inv node l0 Hn Hl. apply bind_Ok_inv in H1 as (b & [q2 f2] & H1 & [= <- <- <-]).
  pose proof (shuffle_process_spec (pa_copy plain) eq (fun x q f => wpx_mono _ _ _ _ _ _ (pa_copy_spec plain x q f)
    (fun y s H => conj (eq_sym (proj1 H)) (proj2 H)) (fun e s H => H)) pp page q0 f Hq Hp) as H.
  unfold wpx in H. simpl shuffle_process in H. rewrite H1 in H. destruct H as (_ & Hlen & Hs). simpl in *.
  destruct (Hs node l0 Hl) as (l & Hl1 & H). rewrite (proj2 (Nat.ltb_lt _ _)) in H by done.
  destruct H as (p & -> & Heq). apply (IH q2 f2) with (node := node) in Hl1; [|congruence|exact Hrest|done].
  apply list_eq_Forall2 in Heq as <-. by rewrite Hl1, <- app_assoc.
Qed.

End aggregation.

(** ** Two pages of a node with two threads *)

Module AggBatch.
Definition int_hash (k : obj) : Z := default 0 k.
Definition plus (a b : obj) : obj := Some (default 0 a + default 0 b).
Definition owner (t : ColType) : MaintenanceFuncs := mkMaint (Some t) true 0.
Definition store (ks vs : list Z) : mem := mkMem
  (list_to_map [(1%positive, mkColumn (ColObj "String") (map VObj (map Some ks)));
                (2%positive, mkColumn (ColObj "Int") (map VObj (map Some vs)))])
  (list_to_map [(3%positive, list_to_map [(0, (Some 1%positive, owner (ColObj "String")));
                                          (1, (Some 2%positive, owner (ColObj "Int")))])]).
Definition sink (P : Z) : Preaggregation.PreaggregationSink := Preaggregation.mkPreaggregation 0 1 P.
Definition write (plain : bool) (ks vs : list Z) (f : answers) : outcome (agg_state * answers) unit :=
  Preaggregation.writeOut int_hash plus plain (sink 2) "String" "Int" 3
    (mkSinkState (store ks vs) (replicate 2 Map_new), f).
Definition maps_of (o : outcome (agg_state * answers) unit) : list agg_map :=
  match o with Ok _ (s, _) | Raise _ (s, _) => s_maps s | _ => [] end.
Definition page1 : list agg_map := maps_of (write true [5; 6; 5] [10; 20; 30] []).
Definition page2 : list agg_map := maps_of (write true [5; 8] [1; 2] []).
Definition worker (w : nat) : AggregationCombiner.AggregationCombinerSink := AggregationCombiner.mkCombiner w.
Definition combined (w : nat) (pages : list (list agg_map)) : agg_map :=
  match @aggregation_run _ _ (AggregationCombiner_merger int_hash plus true (worker w)) pages (Map_new, []) with
  | Ok _ (m, _) => m
  | _ => Map_new
  end.
Lemma agg_batch_input P ks vs : length vs = length ks -> agg_input (sink P) "String" "Int" 3 (store ks vs) (map Some ks) (map Some vs) 1 2.
Proof.
  intros H. split; [by eexists|by eexists|done|done| |done]. by rewrite !length_map.
Qed.
Lemma plus_assoc a b c : plus a (plus b c) = plus (plus a b) c.
Proof. unfold plus. simpl. by rewrite Z.add_assoc. Qed.
End AggBatch.

(** The page is full at the second row: a new key needs a bigger table. *)
Lemma Preaggregation_writeOut_adds_up_witness :
  wpx (Preaggregation.writeOut AggBatch.int_hash AggBatch.plus true (AggBatch.sink 1) "String" "Int" 3)
    (fun _ s => s_mem s.1 = AggBatch.store [5; 6; 5] [10; 20; 30] /\
       aggregated AggBatch.int_hash AggBatch.plus 1 [Map_new] (zip (map Some [5; 6; 5]) (map Some [10; 20; 30])) (s_maps s.1))
    (fun e s => e = NotEnoughSpace /\ (true = true -> exists i, (i < 3)%nat /\
       aggregated AggBatch.int_hash AggBatch.plus 1 [Map_new]
         (take i (zip (map Some [5; 6; 5]) (map Some [10; 20; 30]))) (s_maps s.1) /\
       agg_input (AggBatch.sink 1) "String" "Int" 3 (s_mem s.1) (drop i (map Some [5; 6; 5])) (drop i (map Some [10; 20; 30])) 1 2))
    (mkSinkState (AggBatch.store [5; 6; 5] [10; 20; 30]) [Map_new], [false]).
Proof.
  apply (Preaggregation_writeOut_adds_up AggBatch.int_hash AggBatch.plus true (AggBatch.sink 1) "String" "Int" 3 [Map_new]
    (AggBatch.store [5; 6; 5] [10; 20; 30]) (map Some [5; 6; 5]) (map Some [10; 20; 30]) 1 2 [false]).
  - done.
  - simpl. lia.
  - intros j x Hx. apply (lookup_replicate_1 1) in Hx as [-> _]. apply Map_new_ok.
  - by apply (AggBatch.agg_batch_input _ [5; 6; 5]).
Defined.


(** ** What happens to classes that are not plain *)

Module FullPage.
Definition run : outcome (agg_state * answers) unit := AggBatch.write false [5; 5] [10; 20] [true; true; true; false].
Definition page : list agg_map := AggBatch.maps_of run.
(** The next page, where what is left of the input goes. *)
Definition next : list agg_map := AggBatch.maps_of (AggBatch.write false [5; 5] [10; 20] []).
End FullPage.


Definition put (plain : bool) (k v : Z) : M (agg_map * answers) unit :=
  s <- map_at AggBatch.int_hash (Some 0) plain (Some k) ;; set_value plain s (Some v).

Module Doubling.
Definition two : agg_map := match (_ <- put false 4 1 ;; put false 5 2) (Map_new, []) with Ok _ (p, _) => p | _ => Map_new end.
Definition lost : agg_map :=
  match map_at AggBatch.int_hash (Some 0) false (Some 6) (two, [true; true; true; true; false]) with
  | Raise _ (p, _) => p
  | _ => Map_new
  end.
End Doubling.

(** PairArray::doubleArray destroys every entry of the old array as soon as
    it is copied, so if copying a later one finds the page full, the map, which
    keeps the old array, has lost the earlier keys. *)
Theorem full_page_loses_keys :
  (_ <- put false 4 1 ;; put false 5 2) (Map_new, []) = Ok tt (Doubling.two, []) /\
  map_at AggBatch.int_hash (Some 0) false (Some 6) (Doubling.two, [true; true; true; true; false]) =
    Raise NotEnoughSpace (Doubling.lost, []) /\
  pview AggBatch.int_hash Doubling.two (Some 4) = Some (Some 1) /\
  pview AggBatch.int_hash Doubling.lost (Some 4) = None.
Proof. by vm_compute. Qed.
