(* ===== verification/Hashing.v ===== *)
(** Hash functions of keys: newHash and hashMe of pdb/src/builtInPDBObjects/
    headers/PDBMap.cc, and the hash of 64 bit and 32 bit integers in
    PairArray.cc. *)

From S2P Require Import Prelude.

Open Scope Z_scope.

(** ** newHash, on unsigned 32 bit integers *)

Definition xor_shift (x : Z) : Z := Z.lxor (Z.shiftr x 16) x.
Definition newHash (x : Z) : Z :=
  let x1 := u32 (xor_shift x * 0x45d9f3b) in
  let x2 := u32 (xor_shift x1 * 0x45d9f3b) in
  xor_shift x2.
(** A negative [int] becomes unsigned first. *)
Definition specialHash_unsigned (u : Z) : Z := newHash u.
Definition specialHash_int (u : Z) : Z := newHash (u32 u).

(** ** hashMe *)

(** [v << c] for an [int] [v]: shifting by the width or more is undefined. *)
Definition shl_int (v c : Z) : option Z := if (0 <=? c) && (c <? 32) then Some (i32 (v * 2 ^ c)) else None.
Fixpoint sum_int (l : list (option Z)) : option Z :=
  match l with
  | [] => Some 0
  | x :: l' => a ← x; b ← sum_int l'; Some (i32 (a + b))
  end.
(** One round: the characters [i .. i+8), [chunk] being what is left of the
    string from [i] on; what is missing of the low half counts as 123 and of
    the high half as 97.  The shift of the high half is [8 * (j - 3)]. *)
Definition low_half (chunk : list Z) : option Z :=
  sum_int (map (fun j => match chunk !! j with
    | Some c => shl_int (Z.land c 0xFF) (8 * Z.of_nat j)
    | None => shl_int 123 (8 * Z.of_nat j) end) (seq 0 4)).
Definition high_half (chunk : list Z) : option Z :=
  sum_int (map (fun j => match chunk !! j with
    | Some c => shl_int (Z.land c 0xFF) (8 * (Z.of_nat j - 3))
    | None => shl_int 97 (8 * (Z.of_nat j - 3)) end) (seq 4 4)).
Definition hash_round (len : nat) (chunk : list Z) : option Z :=
  low ← low_half chunk;
  high ← (if (len <=? 4)%nat then Some low else high_half chunk);
  Some (u64 (Z.shiftl (newHash (u32 high)) 32 + Z.land (newHash (u32 low)) 0xFFFFFFFF)).
Fixpoint hash_rounds (fuel len : nat) (me : list Z) (code : Z) : option Z :=
  match fuel, me with
  | _, [] => Some code
  | O, _ => None
  | S fuel', _ => r ← hash_round len me; hash_rounds fuel' len (drop 8 me) (Z.lxor code r)
  end.
(** Every round takes eight characters off, so the length is fuel enough. *)
Definition hashMe (me : list Z) : option Z := hash_rounds (length me) (length me) me 0.

(** With HASH_FOR_TPCH; the characters are signed. *)
Definition hashMe_tpch (me : list Z) : Z := foldl (fun code c => u64 (31 * code + c)) 0 me.

(** * Lemmas *)

(** The inverse of 0x45d9f3b modulo [2 ^ 32]. *)
Definition unHash (y : Z) : Z :=
  let x2 := xor_shift y in
  let x1 := xor_shift (u32 (x2 * 0x119de1f3)) in
  xor_shift (u32 (x1 * 0x119de1f3)).

Lemma xor_shift_range x : 0 <= x < 2 ^ 32 -> 0 <= xor_shift x < 2 ^ 32.
Proof.
  intros H. assert (H1 : 0 <= xor_shift x).
  { apply Z.lxor_nonneg. rewrite Z.shiftr_nonneg. lia. }
  split; [done|]. destruct (decide (xor_shift x = 0)) as [->|Hne]; [lia|].
  apply Z.log2_lt_pow2; [lia|]. unfold xor_shift in *.
  eapply Z.le_lt_trans; [apply Z.log2_lxor; [apply Z.shiftr_nonneg; lia|lia]|].
  apply Z.max_lub_lt.
  - eapply Z.le_lt_trans; [apply (Z.log2_le_mono _ x)|].
    + rewrite Z.shiftr_div_pow2 by done. apply Z.div_le_upper_bound; lia.
    + destruct (decide (x = 0)) as [->|]; [done|]. apply Z.log2_lt_pow2; lia.
  - destruct (decide (x = 0)) as [->|]; [done|]. apply Z.log2_lt_pow2; lia.
Qed.

Lemma xor_shift_involutive x : 0 <= x < 2 ^ 32 -> xor_shift (xor_shift x) = x.
Proof.
  intros H. unfold xor_shift. rewrite Z.shiftr_lxor, Z.shiftr_shiftr by done.
  assert (E : Z.shiftr x (16 + 16) = 0).
  { rewrite Z.shiftr_div_pow2 by done. by apply Z.div_small. }
  rewrite E, Z.lxor_0_l, <- Z.lxor_assoc, Z.lxor_nilpotent. apply Z.lxor_0_l.
Qed.

Lemma u32_range z : 0 <= u32 z < 2 ^ 32.
Proof. unfold u32, wrapu. by apply Z.mod_pos_bound. Qed.

Lemma mul_inverse x : 0 <= x < 2 ^ 32 -> u32 (u32 (x * 0x45d9f3b) * 0x119de1f3) = x.
Proof.
  intros H. unfold u32, wrapu. rewrite Z.mul_mod_idemp_l by done. rewrite <- Z.mul_assoc.
  rewrite <- Z.mul_mod_idemp_r by done.
  change ((0x45d9f3b * 0x119de1f3) mod 2 ^ 32) with 1. rewrite Z.mul_1_r. by apply Z.mod_small.
Qed.

(** newHash is a bijection of the 32 bit integers: [unHash] gets every
    argument back, so different integer keys have different hashes. *)
Theorem newHash_bijective x :
  0 <= x < 2 ^ 32 -> 0 <= newHash x < 2 ^ 32 /\ unHash (newHash x) = x.
Proof.
  intros H. unfold newHash, unHash. cbv zeta. set (x1 := u32 (xor_shift x * 0x45d9f3b)).
  assert (H1 : 0 <= x1 < 2 ^ 32) by apply u32_range. set (x2 := u32 (xor_shift x1 * 0x45d9f3b)).
  assert (H2 : 0 <= x2 < 2 ^ 32) by apply u32_range. split; [by apply xor_shift_range|].
  rewrite (xor_shift_involutive x2) by done. unfold x2 at 1.
  rewrite mul_inverse by by apply xor_shift_range. rewrite xor_shift_involutive by done. unfold x1.
  rewrite mul_inverse by by apply xor_shift_range. by apply xor_shift_involutive.
Qed.

Lemma newHash_bijective_witness : 0 <= newHash 5 < 2 ^ 32 /\ unHash (newHash 5) = 5.
Proof. apply (newHash_bijective 5). lia. Defined.

Lemma sum_int_None l : None ∈ l -> sum_int l = None.
Proof.
  induction l as [|x l IH]; [by intros ?%elem_of_nil|]. simpl. intros [<-|H]%elem_of_cons; [done|].
  rewrite IH by done. by destruct x.
Qed.

(** hashMe shifts an int by 32 for every string of more than four
    characters, which is undefined; up to four characters it is defined. *)
Theorem hashMe_defined_iff_short me : is_Some (hashMe me) <-> (length me <= 4)%nat.
Proof.
  unfold hashMe. split.
  - intros [c H]. destruct (Nat.le_gt_cases (length me) 4) as [|Hl]; [done|]. exfalso.
    remember me as l eqn:E. destruct me as [|c0 me]; [subst; simpl in Hl; lia|].
    assert (Hr : hash_round (length l) l = None).
    { unfold hash_round. rewrite (proj2 (Nat.leb_gt _ _)) by done.
      destruct (low_half l); [|done]. simpl. unfold high_half.
      assert (Hs : sum_int (map (fun j => match l !! j with
        | Some c => shl_int (Z.land c 0xFF) (8 * (Z.of_nat j - 3))
        | None => shl_int 97 (8 * (Z.of_nat j - 3)) end) (seq 4 4)) = None); [|by rewrite Hs].
      apply sum_int_None, list_elem_of_fmap. exists 7%nat. split; [by destruct (l !! 7%nat)|by apply elem_of_seq; lia]. }
    revert H Hr. generalize (length l) at 2 3 as n. rewrite E. cbn [hash_rounds length]. intros n H Hr. by rewrite Hr in H.
  - intros Hl. destruct me as [|c0 me]; [by eexists|]. simpl length in *.
    assert (H : forall l, hash_round (length (c0 :: me)) l <> None).
    { intros l. unfold hash_round. rewrite (proj2 (Nat.leb_le _ _)) by done.
      assert (Hs : is_Some (low_half l)); [|destruct Hs as [x ->]; done].
      unfold low_half. simpl. destruct (l !! 0%nat), (l !! 1%nat), (l !! 2%nat), (l !! 3%nat); by eexists. }
    change (S (length me)) with (length (c0 :: me)). simpl hash_rounds.
    destruct (hash_round _ _) as [r|] eqn:E; [|by destruct (H _ E)]. simpl.
    assert (Hd : drop 7 me = []) by (apply nil_length_inv; rewrite length_drop; lia). rewrite Hd.
    destruct (length me); by eexists.
Qed.
