(* ===== verification/SizePolicy.v ===== *)
(** How many rows a pipeline pushes at a time: PDBTupleSetSizePolicy,
    pdb/src/pipeline/headers/pipeline/PDBTupleSetSizePolicy.h and
    source/pipeline/PDBTupleSetSizePolicy.cc.  The counters of bytes and pages
    are unsigned 64 bit integers. *)

From S2P Require Import Prelude.

Open Scope Z_scope.

Record page_stats := mkStats { initialFree : Z; finalFree : Z; numAdditionalPages : Z }.

Record SizePolicy := mkPolicy {
  chunkSize : Z;
  maxChunkSize : Z;
  lastChunkSizeForWrite : Z;
  lastFullySuccessfulSize : Z;
  pipelineRetry : Z;
  pipeline_stats : page_stats;
  succeeded : bool;
  writeStats : page_stats;
  lastIncremented : bool;
  allowIncrements : bool;
  tryToMakePipelineSucceed : bool;
  pageSize : Z
}.

Definition policy_new (pageSize : Z) : SizePolicy :=
  mkPolicy 50 100 (-1) (-1) 3 (mkStats 0 0 0) true (mkStats 0 0 0) false true true pageSize.

Abbreviation PolicyM := (M SizePolicy).
Definition set_chunkSize (n : Z) : PolicyM unit := modify (fun p =>
  mkPolicy n (maxChunkSize p) (lastChunkSizeForWrite p) (lastFullySuccessfulSize p) (pipelineRetry p) (pipeline_stats p)
    (succeeded p) (writeStats p) (lastIncremented p) (allowIncrements p) (tryToMakePipelineSucceed p) (pageSize p)).
Definition set_lastChunkSizeForWrite (n : Z) : PolicyM unit := modify (fun p =>
  mkPolicy (chunkSize p) (maxChunkSize p) n (lastFullySuccessfulSize p) (pipelineRetry p) (pipeline_stats p)
    (succeeded p) (writeStats p) (lastIncremented p) (allowIncrements p) (tryToMakePipelineSucceed p) (pageSize p)).
Definition set_lastFullySuccessfulSize (n : Z) : PolicyM unit := modify (fun p =>
  mkPolicy (chunkSize p) (maxChunkSize p) (lastChunkSizeForWrite p) n (pipelineRetry p) (pipeline_stats p)
    (succeeded p) (writeStats p) (lastIncremented p) (allowIncrements p) (tryToMakePipelineSucceed p) (pageSize p)).
Definition set_pipelineRetry (n : Z) : PolicyM unit := modify (fun p =>
  mkPolicy (chunkSize p) (maxChunkSize p) (lastChunkSizeForWrite p) (lastFullySuccessfulSize p) n (pipeline_stats p)
    (succeeded p) (writeStats p) (lastIncremented p) (allowIncrements p) (tryToMakePipelineSucceed p) (pageSize p)).
Definition set_pipeline_stats (s : page_stats) (ok : bool) : PolicyM unit := modify (fun p =>
  mkPolicy (chunkSize p) (maxChunkSize p) (lastChunkSizeForWrite p) (lastFullySuccessfulSize p) (pipelineRetry p) s
    ok (writeStats p) (lastIncremented p) (allowIncrements p) (tryToMakePipelineSucceed p) (pageSize p)).
Definition set_writeStats (s : page_stats) : PolicyM unit := modify (fun p =>
  mkPolicy (chunkSize p) (maxChunkSize p) (lastChunkSizeForWrite p) (lastFullySuccessfulSize p) (pipelineRetry p) (pipeline_stats p)
    (succeeded p) s (lastIncremented p) (allowIncrements p) (tryToMakePipelineSucceed p) (pageSize p)).
Definition set_lastIncremented (b : bool) : PolicyM unit := modify (fun p =>
  mkPolicy (chunkSize p) (maxChunkSize p) (lastChunkSizeForWrite p) (lastFullySuccessfulSize p) (pipelineRetry p) (pipeline_stats p)
    (succeeded p) (writeStats p) b (allowIncrements p) (tryToMakePipelineSucceed p) (pageSize p)).
Definition set_allowIncrements (b : bool) : PolicyM unit := modify (fun p =>
  mkPolicy (chunkSize p) (maxChunkSize p) (lastChunkSizeForWrite p) (lastFullySuccessfulSize p) (pipelineRetry p) (pipeline_stats p)
    (succeeded p) (writeStats p) (lastIncremented p) b (tryToMakePipelineSucceed p) (pageSize p)).
Definition set_tryToMakePipelineSucceed (b : bool) : PolicyM unit := modify (fun p =>
  mkPolicy (chunkSize p) (maxChunkSize p) (lastChunkSizeForWrite p) (lastFullySuccessfulSize p) (pipelineRetry p) (pipeline_stats p)
    (succeeded p) (writeStats p) (lastIncremented p) (allowIncrements p) b (pageSize p)).

Definition pipelineFailed : PolicyM unit :=
  p <- get ;;
  if chunkSize p =? 1 then throw (RuntimeError "We can not reduce the chunk size anymore so we fail here.")
  else
    _ <- set_chunkSize (chunkSize p ÷ 2) ;;
    _ <- set_pipeline_stats (mkStats 0 0 0) false ;;
    if lastIncremented p then set_allowIncrements false else mret tt.

Definition pipelineSucceeded (additionalPagesUsed initialFree finalFree : Z) : PolicyM unit :=
  set_pipeline_stats (mkStats initialFree finalFree additionalPagesUsed) true.

(** The percentage of a page that was used; the difference is unsigned. *)
Definition used_percentage (p : SizePolicy) : Z :=
  u64 (u64 (initialFree (pipeline_stats p) - finalFree (writeStats p)) * 100) `div` pageSize p.

Definition fully_succeeded (p : SizePolicy) (additionalPages : Z) : bool :=
  succeeded p && (numAdditionalPages (pipeline_stats p) =? 0) && (additionalPages =? 0).

Definition writeToPageSucceeded (additionalPages initialFree finalFree : Z) : PolicyM unit :=
  _ <- set_writeStats (mkStats initialFree finalFree additionalPages) ;;
  p <- get ;;
  _ <- (if fully_succeeded p additionalPages then set_tryToMakePipelineSucceed false else mret tt) ;;
  p <- get ;;
  let used := numAdditionalPages (pipeline_stats p) in
  _ <- (if allowIncrements p && fully_succeeded p additionalPages then
          _ <- (if pageSize p =? 0 then ub DivisionByZero else mret tt) ;;
          _ <- (if used_percentage p <? 20
                then set_chunkSize (Z.min (u64 (u64 (chunkSize p) * 3)) (u64 (maxChunkSize p)))
                else mret tt) ;;
          p' <- get ;;
          _ <- set_lastFullySuccessfulSize (Z.max (lastFullySuccessfulSize p') (chunkSize p')) ;;
          _ <- set_lastIncremented true ;;
          set_pipelineRetry 3
        else if tryToMakePipelineSucceed p && negb (used =? 0) && succeeded p && negb (chunkSize p =? 1) then
          _ <- (if lastChunkSizeForWrite p =? -1 then set_lastChunkSizeForWrite (chunkSize p) else mret tt) ;;
          _ <- set_allowIncrements false ;;
          set_chunkSize (chunkSize p ÷ 2)
        else if lastIncremented p && negb (tryToMakePipelineSucceed p) && negb (used =? 0) && succeeded p then
          _ <- set_chunkSize (lastFullySuccessfulSize p) ;;
          set_allowIncrements false
        else if negb (used =? 0) && (pipelineRetry p =? 0) then
          _ <- set_tryToMakePipelineSucceed true ;;
          set_pipelineRetry 3
        else if negb (used =? 0) then set_pipelineRetry (pipelineRetry p - 1)
        else mret tt) ;;
  set_lastIncremented false.

Definition inputWasProcessed (p : SizePolicy) : bool := succeeded p.
Definition getChunksSize (p : SizePolicy) : Z := chunkSize p.

(** * The sizes stay in bounds *)

Inductive policy_call :=
| CallFailed
| CallSucceeded (additionalPagesUsed initialFree finalFree : Z)
| CallWritten (additionalPages initialFree finalFree : Z).
Definition run_call (c : policy_call) : PolicyM unit :=
  match c with
  | CallFailed => pipelineFailed
  | CallSucceeded a i f => pipelineSucceeded a i f
  | CallWritten a i f => writeToPageSucceeded a i f
  end.

Record policy_ok (ps : Z) (p : SizePolicy) : Prop := {
  po_chunk : 1 <= chunkSize p <= 100;
  po_max : maxChunkSize p = 100;
  po_full : lastFullySuccessfulSize p = -1 \/ 1 <= lastFullySuccessfulSize p <= 100;
  po_retry : 0 <= pipelineRetry p <= 3;
  po_inc : lastIncremented p = false;
  po_page : pageSize p = ps
}.

Lemma policy_new_ok ps : policy_ok ps (policy_new ps).
Proof. split; simpl; lia. Qed.

Lemma half n : 1 <= n <= 100 -> n <> 1 -> 1 <= n ÷ 2 <= 100 /\ n ÷ 2 < n.
Proof. intros H Hn. rewrite Z.quot_div_nonneg by lia. pose proof (Z.div_mod n 2). pose proof (Z.mod_pos_bound n 2). lia. Qed.

Lemma u64_small z : 0 <= z < 2 ^ 64 -> u64 z = z.
Proof. intros H. unfold u64, wrapu. by apply Z.mod_small. Qed.

Lemma pipelineFailed_spec ps p :
  policy_ok ps p ->
  wpx pipelineFailed (fun _ p' => policy_ok ps p' /\ chunkSize p' < chunkSize p /\ inputWasProcessed p' = false)
    (fun e p' => e = RuntimeError "We can not reduce the chunk size anymore so we fail here." /\ p' = p /\ chunkSize p = 1) p.
Proof.
  intros H. unfold pipelineFailed. apply wpx_bind. eapply wpx_eq; [done|]. simpl.
  destruct (Z.eqb_spec (chunkSize p) 1) as [E|E]; [by apply wpx_throw|].
  destruct (half (chunkSize p)) as [H1 H2]; [apply H|done|]. rewrite (po_inc _ _ H).
  unfold wpx, bind. simpl. split; [|done]. destruct H. by split.
Qed.

Lemma writeToPageSucceeded_ok ps a i f p :
  0 < ps -> policy_ok ps p ->
  exists p', writeToPageSucceeded a i f p = Ok tt p' /\ policy_ok ps p' /\ succeeded p' = succeeded p /\
    (chunkSize p' < chunkSize p -> numAdditionalPages (pipeline_stats p) <> 0).
Proof.
  intros Hps [H1 H2 H3 H4 H5 H6]. destruct p as [c mx lc lf r [si sf sn] ok wst li al tr pg]. simpl in *. subst mx li pg.
  assert (Hps' : (ps =? 0) = false) by (apply Z.eqb_neq; lia).
  assert (Hz : (sn =? 0) = true \/ (sn =? 0) = false) by (destruct (sn =? 0); auto).
  unfold writeToPageSucceeded, set_writeStats, set_tryToMakePipelineSucceed, set_chunkSize, set_lastFullySuccessfulSize,
    set_lastIncremented, set_pipelineRetry, set_lastChunkSizeForWrite, set_allowIncrements, fully_succeeded,
    bind, modify, get, mret, M_ret.
  destruct (a =? 0) eqn:Ha, Hz as [Hz|Hz], ok, al, tr;
    repeat (progress simpl || rewrite Ha || rewrite Hz || rewrite Hps');
    repeat match goal with |- context [if ?b then _ else _] => destruct b eqn:?; simpl end;
    (eexists; split; [reflexivity|]); simpl; rewrite ?Z.eqb_eq, ?Z.eqb_neq in *;
    rewrite ?(u64_small c), ?(u64_small (c * 3)), ?(u64_small 100) by lia;
    (split; [|split; [done|lia]]); split; simpl; try done; try lia; apply half; lia.
Qed.

Lemma writeToPageSucceeded_flag a x y p p' : writeToPageSucceeded a x y p = Ok tt p' -> succeeded p' = succeeded p.
Proof.
  destruct p as [c mx lc lf r [si sf sn] ok wst li al tr pg].
  unfold writeToPageSucceeded, set_writeStats, set_tryToMakePipelineSucceed, set_chunkSize, set_lastFullySuccessfulSize,
    set_lastIncremented, set_pipelineRetry, set_lastChunkSizeForWrite, set_allowIncrements, fully_succeeded,
    bind, modify, get, mret, M_ret, ub.
  destruct (a =? 0) eqn:Ha, (sn =? 0) eqn:Hz, ok, al, tr, li; repeat (progress simpl || rewrite Ha || rewrite Hz);
    repeat match goal with |- context [if ?b then _ else _] => destruct b eqn:?; simpl end; by intros [= <-].
Qed.

(** From the start and after any calls the chunk size is between 1 and 100
    and the retries between 0 and 3; a call only ever throws when the pipeline
    failed at chunk size 1, and a failure makes the size smaller. *)
Theorem policy_bounds ps c p :
  0 < ps -> policy_ok ps p ->
  wpx (run_call c) (fun _ p' => policy_ok ps p' /\ (c = CallFailed -> chunkSize p' < chunkSize p))
    (fun _ p' => c = CallFailed /\ chunkSize p = 1 /\ p' = p) p.
Proof.
  intros Hps H. destruct c as [|a i f|a i f]; simpl.
  - eapply wpx_mono; [by apply pipelineFailed_spec|by intros [] p' (? & ? & _)|by intros e p' (_ & ? & ?)].
  - destruct H. split; [by split|done].
  - destruct (writeToPageSucceeded_ok ps a i f p Hps H) as (p' & E & H' & _).
    eapply wpx_eq; [exact E|]. by split.
Qed.

Lemma policy_bounds_witness :
  wpx (run_call (CallWritten 0 1000 990)) (fun _ p' => policy_ok 4096 p' /\ (CallWritten 0 1000 990 = CallFailed -> chunkSize p' < 50))
    (fun _ p' => CallWritten 0 1000 990 = CallFailed /\ 50 = 1 /\ p' = policy_new 4096) (policy_new 4096).
Proof. apply (policy_bounds 4096 (CallWritten 0 1000 990) (policy_new 4096)); [lia|apply policy_new_ok]. Defined.

(** Seven failures in a row are one too many. *)
Lemma failures_raise ps n p :
  policy_ok ps p -> chunkSize p < 2 ^ Z.of_nat (S n) ->
  exists k p', (k <= n)%nat /\ for_each (seq 0 k) (fun _ => pipelineFailed) p = Ok tt p' /\ policy_ok ps p' /\
    pipelineFailed p' = Raise (RuntimeError "We can not reduce the chunk size anymore so we fail here.") p'.
Proof.
  revert p. induction n as [|n IH]; intros p H Hc.
  - exists 0%nat, p. split_and!; [lia|done|done|]. unfold pipelineFailed, bind, get.
    pose proof (po_chunk _ _ H). rewrite (proj2 (Z.eqb_eq _ _)) by lia. done.
  - destruct (decide (chunkSize p = 1)) as [E|E].
    { exists 0%nat, p. split_and!; [lia|done|done|]. unfold pipelineFailed, bind, get. by rewrite E. }
    pose proof (pipelineFailed_spec ps p H) as Hf. unfold wpx in Hf.
    destruct (pipelineFailed p) as [[] p1|e p1| | |] eqn:E1; try done; [|by destruct Hf as (_ & _ & ?)].
    destruct Hf as (H1 & _ & _). assert (Hc1 : chunkSize p1 = chunkSize p ÷ 2).
    { revert E1. unfold pipelineFailed. unfold bind at 1. simpl. rewrite (proj2 (Z.eqb_neq _ _)) by done.
      rewrite (po_inc _ _ H). unfold bind. simpl. by intros [= <-]. }
    destruct (IH p1 H1) as (k & p' & Hk & Hrun & Hok & Hr).
    { pose proof (po_chunk _ _ H). rewrite Hc1, Z.quot_div_nonneg by lia. apply Z.div_lt_upper_bound; [lia|].
      rewrite (Nat2Z.inj_succ (S n)) in Hc. rewrite Z.pow_succ_r in Hc by lia. lia. }
    exists (S k), p'. split_and!; [lia| |done|done]. simpl. rewrite (bind_Ok _ _ _ _ _ E1).
    rewrite <- seq_shift. clear -Hrun. revert Hrun. generalize (seq 0 k) as l. intros l. revert p1.
    induction l as [|x l IH]; intros p1; [done|]. simpl. unfold bind. destruct (pipelineFailed p1) as [[] p2| | | |]; try done.
    apply IH.
Qed.

(** a pipeline cannot fail forever: from any state the policy can be in, at
    most six calls of pipelineFailed in a row return, and the next one throws. *)
Theorem pipeline_failures_end ps p :
  policy_ok ps p ->
  exists k p', (k <= 6)%nat /\ for_each (seq 0 k) (fun _ => pipelineFailed) p = Ok tt p' /\
    pipelineFailed p' = Raise (RuntimeError "We can not reduce the chunk size anymore so we fail here.") p'.
Proof.
  intros H. destruct (failures_raise ps 6 p H) as (k & p' & ? & ? & _ & ?).
  - pose proof (po_chunk _ _ H). change (Z.of_nat 7) with 7. lia.
  - by exists k, p'.
Qed.

Lemma pipeline_failures_end_witness :
  exists k p', (k <= 6)%nat /\ for_each (seq 0 k) (fun _ => pipelineFailed) (policy_new 4096) = Ok tt p' /\
    pipelineFailed p' = Raise (RuntimeError "We can not reduce the chunk size anymore so we fail here.") p'.
Proof. apply (pipeline_failures_end 4096), policy_new_ok. Defined.

(** in no reachable state does a failure of the pipeline forbid further
    increments: the flag that is to remember the last increment is cleared at
    the end of the very call that sets it. *)
Theorem increments_are_forgotten ps p p' :
  policy_ok ps p -> pipelineFailed p = Ok tt p' -> allowIncrements p' = allowIncrements p.
Proof.
  intros H. unfold pipelineFailed. unfold bind at 1. simpl.
  destruct (chunkSize p =? 1); [done|]. rewrite (po_inc _ _ H). unfold bind. simpl. by intros [= <-].
Qed.

Lemma increments_are_forgotten_witness :
  allowIncrements (mkPolicy 25 100 (-1) (-1) 3 (mkStats 0 0 0) false (mkStats 0 0 0) false true true 4096) = true.
Proof.
  apply (increments_are_forgotten 4096 (policy_new 4096)
    (mkPolicy 25 100 (-1) (-1) 3 (mkStats 0 0 0) false (mkStats 0 0 0) false true true 4096)); [apply policy_new_ok|reflexivity].
Defined.
