(* ===== verification/Sources.v ===== *)
(** The sources over vectors and over maps,
    pdb/src/pipeline/headers/sources/VectorTupleSetIterator.h and
    MapTupleSetIterator.h, and what they hand out: every row once and in order,
    and where chunks that failed get lost. *)

From stdpp Require Import list.
From S2P Require Import Prelude Probing Allocation PDBMap SizePolicy.

Open Scope Z_scope.

(** Both move a chunk whose processing failed to a buffer.  [clear] is called
    on the buffer after the column was appended to it, and not on the column. *)
Definition to_buffer {A} (inputColumn inputBuffer : list A) : list A * list A :=
  match inputBuffer with
  | [] => (inputBuffer, inputColumn)
  | _ => (inputColumn, [])
  end.
(** The rows that leave the buffer, taken from its end, and the rest of it. *)
Definition from_buffer {A} (p : SizePolicy) (inputBuffer : list A) : list A * list A :=
  let numToCopy := Nat.min (Z.to_nat (getChunksSize p)) (length inputBuffer) in
  (drop (length inputBuffer - numToCopy) inputBuffer, take (length inputBuffer - numToCopy) inputBuffer).

(** ** VectorTupleSetIterator *)

(** The vector of handles at the root of a page. *)
Abbreviation vpage := (list (option Z)).

Record VectorTupleSetIterator := mkVectorIterator {
  pageSet : list vpage;
  curPage : option vpage;
  iterateOverMe : option vpage;
  lastRec : bool;
  unpinned : nat;
  pos : nat;
  output : list (option Z);
  inputBuffer : option (list (option Z))
}.

(** The constructor; [pages] is what the page set yields for the worker. *)
Definition VectorTupleSetIterator_new (pages : list vpage) : VectorTupleSetIterator :=
  match pages with
  | [] => mkVectorIterator [] None None false 0 0 [] None
  | p :: pages' => mkVectorIterator pages' (Some p) (Some p) false 0 0 [] (Some [])
  end.

(** Step 0, a chunk that was not processed goes to the buffer. *)
Definition vector_rebuffer (p : SizePolicy) (it : VectorTupleSetIterator) : VectorTupleSetIterator :=
  match inputWasProcessed p, inputBuffer it with
  | false, Some b =>
      let '(o, b') := to_buffer (output it) b in
      mkVectorIterator (pageSet it) (curPage it) (iterateOverMe it) (lastRec it) (unpinned it) (pos it) o (Some b')
  | _, _ => it
  end.
(** Steps 2 and 3. *)
Definition kill_last (it : VectorTupleSetIterator) : VectorTupleSetIterator :=
  if lastRec it
  then mkVectorIterator (pageSet it) (curPage it) (iterateOverMe it) false (S (unpinned it)) (pos it) (output it) (inputBuffer it)
  else it.
Definition next_page (it : VectorTupleSetIterator) : VectorTupleSetIterator :=
  match pageSet it with
  | [] => mkVectorIterator [] None (iterateOverMe it) true (unpinned it) (pos it) (output it) (inputBuffer it)
  | p :: pages => mkVectorIterator pages (Some p) (Some p) true (unpinned it) 0 (output it) (inputBuffer it)
  end.
Definition next_chunk (p : SizePolicy) : M VectorTupleSetIterator (option (list (option Z))) :=
  it <- get ;;
  v <- unwrap NullDeref (iterateOverMe it) ;;
  let n := Nat.min (Z.to_nat (getChunksSize p)) (length v - pos it) in
  let chunk := take n (drop (pos it) v) in
  _ <- put (mkVectorIterator (pageSet it) (curPage it) (iterateOverMe it) (lastRec it) (unpinned it) (pos it + n) chunk (inputBuffer it)) ;;
  mret (Some chunk).

Definition vector_getNextTupleSet (p : SizePolicy) : M VectorTupleSetIterator (option (list (option Z))) :=
  _ <- modify (vector_rebuffer p) ;;
  it <- get ;;
  match inputBuffer it with
  | Some ((_ :: _) as b) =>
      let '(chunk, rest) := from_buffer p b in
      _ <- put (mkVectorIterator (pageSet it) (curPage it) (iterateOverMe it) (lastRec it) (unpinned it) (pos it) chunk (Some rest)) ;;
      mret (Some chunk)
  | _ =>
      _ <- modify kill_last ;;
      it <- get ;;
      match curPage it with
      | None => mret None
      | Some _ =>
          v <- unwrap NullDeref (iterateOverMe it) ;;
          if (pos it =? length v)%nat then
            _ <- modify next_page ;;
            it <- get ;;
            match curPage it with
            | None => mret None
            | Some _ => next_chunk p
            end
          else next_chunk p
      end
  end.

(** ** MapTupleSetIterator *)

Section map_source.
Context {K V : Type}.

(** The objects of the output type, key and value, live in [objects]; the
    column holds references to them, and so does whatever a stage or a sink on
    the same page keeps of the column.  The buffer is never created. *)
Record MapTupleSetIterator := mkMapTupleSetIterator {
  theMap : option (PairArray K V);
  begin : PDBMapIterator;
  objects : list (K * V);
  column : list nat;
  buffer : option (list nat);
  page_unpinned : bool
}.

(** [page->repin()] comes before the test for a page. *)
Definition MapTupleSetIterator_new (page : option (PairArray K V)) : M MapTupleSetIterator unit :=
  m <- unwrap NullDeref page ;;
  put (mkMapTupleSetIterator (Some m) (it_begin m) [] [] None false).

Definition map_rebuffer (p : SizePolicy) (it : MapTupleSetIterator) : MapTupleSetIterator :=
  match inputWasProcessed p, buffer it with
  | false, Some b =>
      let '(o, b') := to_buffer (column it) b in
      mkMapTupleSetIterator (theMap it) (begin it) (objects it) o (Some b') (page_unpinned it)
  | _, _ => it
  end.

Abbreviation MSM := (M (MapTupleSetIterator * answers)).

(** A new object, with its key and value if these are handles. *)
Definition new_object (dflt : K * V) : MSM unit :=
  _ <- alloc ;; _ <- alloc ;; _ <- alloc ;;
  modify (fun '(it, f) =>
    (mkMapTupleSetIterator (theMap it) (begin it) (objects it ++ [dflt]) (column it ++ [length (objects it)]) (buffer it) (page_unpinned it), f)).
(** Assigning key and value copies them into the object in row [i]. *)
Definition assign_pair (i : nat) (x : K * V) : MSM unit :=
  s <- get ;;
  o <- unwrap OutOfRange (column s.1 !! i) ;;
  _ <- alloc ;; _ <- alloc ;;
  modify (fun '(it, f) =>
    (mkMapTupleSetIterator (theMap it) (begin it) (<[o := x]> (objects it)) (column it) (buffer it) (page_unpinned it), f)).
Definition advance (m : PairArray K V) (it : MapTupleSetIterator) : MapTupleSetIterator :=
  mkMapTupleSetIterator (theMap it) (it_next m (begin it)) (objects it) (column it) (buffer it) (page_unpinned it).
Definition cut_column (n : nat) (it : MapTupleSetIterator) : MapTupleSetIterator :=
  mkMapTupleSetIterator (theMap it) (begin it) (objects it) (take n (column it)) (buffer it) (page_unpinned it).

(** The loop from row [i] on, [n] rounds of which are left; at its end the
    column may have more rows than were filled. *)
Fixpoint fill_column (dflt : K * V) (m : PairArray K V) (limit i n : nat) : MSM (list nat) :=
  match n with
  | O => s <- get ;; mret (column s.1)
  | S n' =>
      _ <- (if (limit <=? i)%nat then new_object dflt else mret tt) ;;
      s <- get ;;
      x <- unwrap EndIteratorDeref (it_pair m (begin s.1)) ;;
      _ <- assign_pair i x ;;
      _ <- modify (fun '(it, f) => (advance m it, f)) ;;
      s <- get ;;
      if it_done (begin s.1) then
        _ <- (if (S i <? limit)%nat then modify (fun '(it, f) => (cut_column (S i) it, f)) else mret tt) ;;
        s <- get ;; mret (column s.1)
      else fill_column dflt m limit (S i) n'
  end.

Definition map_getNextTupleSet (dflt : K * V) (p : SizePolicy) : MSM (option (list nat)) :=
  _ <- modify (fun '(it, f) => (map_rebuffer p it, f)) ;;
  s <- get ;;
  match buffer s.1 with
  | Some ((_ :: _) as b) =>
      let '(chunk, rest) := from_buffer p b in
      _ <- modify (fun '(it, f) => (mkMapTupleSetIterator (theMap it) (begin it) (objects it) chunk (Some rest) (page_unpinned it), f)) ;;
      mret (Some chunk)
  | _ =>
      match theMap s.1 with
      | None => mret None
      | Some m =>
          if it_done (begin s.1) then
            _ <- modify (fun '(it, f) => (mkMapTupleSetIterator (theMap it) (begin it) (objects it) (column it) (buffer it) true, f)) ;;
            mret None
          else
            c <- fill_column dflt m (length (column s.1)) 0 (Z.to_nat (getChunksSize p)) ;;
            mret (Some c)
      end
  end.
End map_source.
Arguments MapTupleSetIterator : clear implicits.

(** ** VectorTupleSetIterator *)

(** The rows still to come. *)
Definition on_page (it : VectorTupleSetIterator) : list (option Z) :=
  match curPage it with Some v => drop (pos it) v | None => [] end ++ concat (pageSet it).
Definition remaining (it : VectorTupleSetIterator) : list (option Z) := default [] (inputBuffer it) ++ on_page it.
(** What a call has to serve: the chunk that failed, if it did, comes again. *)
Definition to_serve (p : SizePolicy) (it : VectorTupleSetIterator) : list (option Z) :=
  (if inputWasProcessed p then [] else output it) ++ remaining it.

Record vector_source_ok (it : VectorTupleSetIterator) : Prop := {
  vso_none : curPage it = None -> pageSet it = [];
  vso_page v : curPage it = Some v -> iterateOverMe it = Some v /\ (pos it <= length v)%nat /\ is_Some (inputBuffer it);
  vso_buffer : inputBuffer it = None -> output it = []
}.

Lemma VectorTupleSetIterator_new_ok pages : vector_source_ok (VectorTupleSetIterator_new pages).
Proof.
  destruct pages as [|v pages]; split; simpl; try done. intros v' [= <-]. split; [done|]. split; [lia|by eexists].
Qed.
Lemma VectorTupleSetIterator_new_remaining pages : remaining (VectorTupleSetIterator_new pages) = concat pages.
Proof. by destruct pages. Qed.

(** A call on an iterator whose buffer is empty and whose last chunk is done. *)
Definition serves (p : SizePolicy) (todo : list (option Z)) (r : option (list (option Z))) (it' : VectorTupleSetIterator) : Prop :=
  vector_source_ok it' /\
  match r with
  | Some c => todo = c ++ on_page it' /\ (length c <= Z.to_nat (getChunksSize p))%nat /\ output it' = c /\
              (inputBuffer it' = Some [])
  | None => todo = [] /\ on_page it' = [] /\ default [] (inputBuffer it') = []
  end.

(** A chunk without rows is the last of an empty page. *)
Definition pages_used (p : SizePolicy) (it : VectorTupleSetIterator) (r : option (list (option Z))) (it' : VectorTupleSetIterator) : Prop :=
  (length (pageSet it') <= length (pageSet it))%nat /\
  (r = Some [] -> 1 <= getChunksSize p -> (length (pageSet it') < length (pageSet it))%nat).

Lemma next_chunk_serves p it v :
  vector_source_ok it -> curPage it = Some v -> inputBuffer it = Some [] ->
  exists r it', next_chunk p it = Ok r it' /\ serves p (on_page it) r it' /\ pageSet it' = pageSet it /\
    (r = Some [] -> 1 <= getChunksSize p -> pos it = length v).
Proof.
  intros H Hv Hb. destruct (vso_page _ H v Hv) as (Hi & Hpos & _). unfold next_chunk.
  rewrite (bind_Ok _ _ _ it it) by done. rewrite Hi. simpl. eexists _, _. split; [done|].
  set (n := Nat.min _ _). split; [|split; [done|]].
  2:{ intros [= E] Hc. apply (f_equal length) in E. rewrite length_take, length_drop in E. unfold n in E. simpl in E. lia. }
  split.
  - split; simpl; [apply H| |by rewrite Hb].
    intros v' Hv'. simplify_eq. split; [done|]. split; [unfold n; lia|by rewrite Hb].
  - unfold on_page. simpl. rewrite Hv. split; [|split_and!; [rewrite length_take; lia|done|done]].
    rewrite <- drop_drop, app_assoc. by rewrite take_drop.
Qed.

(** Steps 2 and 3 together. *)
Lemma page_steps_serve p it :
  vector_source_ok it -> default [] (inputBuffer it) = [] ->
  exists r it',
    (_ <- modify kill_last ;; it <- get ;;
     match curPage it with
     | None => mret None
     | Some _ => v <- unwrap NullDeref (iterateOverMe it) ;;
         if (pos it =? length v)%nat then
           _ <- modify next_page ;; it <- get ;;
           match curPage it with None => mret None | Some _ => next_chunk p end
         else next_chunk p
     end) it = Ok r it' /\ serves p (on_page it) r it' /\ pages_used p it r it'.
Proof.
  intros H Hb. set (it1 := kill_last it).
  assert (E : curPage it1 = curPage it /\ iterateOverMe it1 = iterateOverMe it /\ pos it1 = pos it /\ pageSet it1 = pageSet it /\
    inputBuffer it1 = inputBuffer it /\ output it1 = output it) by (unfold it1, kill_last; by destruct (lastRec it)).
  assert (H1 : vector_source_ok it1).
  { unfold it1, kill_last. destruct (lastRec it); [destruct H; by split|done]. }
  rewrite (bind_Ok _ _ _ tt it1) by done. rewrite (bind_Ok _ _ _ it1 it1) by done.
  assert (Ho : on_page it1 = on_page it) by (unfold on_page; by destruct E as (-> & _ & -> & -> & _)).
  rewrite <- Ho. clear Ho.
  assert (Hpu : forall r it', pages_used p it1 r it' -> pages_used p it r it') by (unfold pages_used; by destruct E as (_ & _ & _ & -> & _)).
  assert (Hb1 : default [] (inputBuffer it1) = []) by (by destruct E as (_ & _ & _ & _ & -> & _)).
  clearbody it1. enough (G : exists r it',
    (match curPage it1 with
     | None => mret None
     | Some _ => v <- unwrap NullDeref (iterateOverMe it1) ;;
         if (pos it1 =? length v)%nat then
           _ <- modify next_page ;; it <- get ;;
           match curPage it with None => mret None | Some _ => next_chunk p end
         else next_chunk p
     end) it1 = Ok r it' /\ serves p (on_page it1) r it' /\ pages_used p it1 r it').
  { destruct G as (r & it' & ? & ? & ?). exists r, it'. auto. }
  clear Hpu. clear E H Hb it. rename it1 into it, H1 into H, Hb1 into Hb.
  destruct (curPage it) as [v|] eqn:Hv.
  2:{ eexists None, it. split; [done|]. split; [|by split]. split; [done|]. unfold on_page. by rewrite Hv, (vso_none _ H). }
  destruct (vso_page _ H v Hv) as (Hi & Hpos & [b Hbuf]). rewrite Hbuf in Hb. simpl in Hb. subst b.
  rewrite Hi. simpl. rewrite (bind_Ok _ _ _ v it) by done.
  destruct (Nat.eqb_spec (pos it) (length v)) as [Ep|Ep].
  2:{ destruct (next_chunk_serves p it v H Hv Hbuf) as (r & it' & E & Hs & Hp & Hc). exists r, it'. split; [done|]. split; [done|].
      split; [by rewrite Hp|]. intros Hr Hsz. by destruct Ep; apply Hc. }
  rewrite (bind_Ok _ _ _ tt (next_page it)) by done. rewrite (bind_Ok _ _ _ (next_page it) (next_page it)) by done.
  assert (Ho : on_page it = concat (pageSet it)) by (unfold on_page; by rewrite Hv, Ep, drop_all).
  unfold next_page. destruct (pageSet it) as [|v' pages] eqn:Hp; simpl.
  - eexists None, _. split; [done|]. rewrite Ho. split; [split; [|by rewrite Hbuf]|by split; rewrite ?Hp]. split; simpl; try done. by rewrite Hbuf.
  - rewrite Ho. set (it2 := mkVectorIterator pages (Some v') (Some v') true (unpinned it) 0 (output it) (inputBuffer it)).
    destruct (next_chunk_serves p it2 v') as (r & it' & E & Hs & Hps & _); [|done|done|].
    2:{ exists r, it'. split; [done|]. split; [done|]. unfold pages_used. rewrite Hps, Hp. simpl. split; intros; lia. }
    split; simpl; [done| |by rewrite Hbuf]. intros w [= <-]. split; [done|]. split; [lia|by rewrite Hbuf].
Qed.

Lemma from_buffer_app {A} p (b : list A) :
  (from_buffer p b).1 ++ (from_buffer p b).2 ≡ₚ b /\ (length (from_buffer p b).1 <= Z.to_nat (getChunksSize p))%nat.
Proof.
  unfold from_buffer. cbn [fst snd]. split; [by rewrite Permutation_app_comm, take_drop|]. rewrite length_drop. lia.
Qed.

Lemma vector_source_serves_every_row_ok p it :
  vector_source_ok it -> inputWasProcessed p = true \/ default [] (inputBuffer it) = [] ->
  exists r it', vector_getNextTupleSet p it = Ok r it' /\ vector_source_ok it' /\
    match r with
    | Some c => to_serve p it ≡ₚ c ++ remaining it' /\ (length c <= Z.to_nat (getChunksSize p))%nat /\ output it' = c
    | None => to_serve p it = [] /\ remaining it' = []
    end.
Proof.
  intros H Hor. set (it1 := vector_rebuffer p it).
  assert (Ht : remaining it1 = to_serve p it /\ vector_source_ok it1).
  { unfold it1, vector_rebuffer, to_serve. destruct (inputWasProcessed p) eqn:Hp; [done|].
    destruct (inputBuffer it) as [b|] eqn:Hb; [|by rewrite (vso_buffer _ H Hb)].
    destruct Hor as [?|Hb']; [done|]. simpl in Hb'. subst b. simpl. unfold remaining, on_page. simpl. rewrite Hb.
    split; [done|]. split; simpl; [apply H| |done]. intros v Hv. destruct (vso_page _ H v Hv) as (? & ? & _). by split_and!. }
  destruct Ht as [Ht H1]. unfold vector_getNextTupleSet. rewrite (bind_Ok _ _ _ tt it1) by done.
  rewrite (bind_Ok _ _ _ it1 it1) by done. rewrite <- Ht. clear Ht. clearbody it1.
  assert (Hpage : default [] (inputBuffer it1) = [] -> exists r it', (match inputBuffer it1 with
      | Some ((_ :: _) as b) => let '(chunk, rest) := from_buffer p b in
          _ <- put (mkVectorIterator (pageSet it1) (curPage it1) (iterateOverMe it1) (lastRec it1) (unpinned it1) (pos it1) chunk (Some rest)) ;;
          mret (Some chunk)
      | _ => _ <- modify kill_last ;; it <- get ;;
         match curPage it with
         | None => mret None
         | Some _ => v <- unwrap NullDeref (iterateOverMe it) ;;
             if (pos it =? length v)%nat then
               _ <- modify next_page ;; it <- get ;;
               match curPage it with None => mret None | Some _ => next_chunk p end
             else next_chunk p
         end end) it1 = Ok r it' /\ vector_source_ok it' /\
    match r with
    | Some c => remaining it1 ≡ₚ c ++ remaining it' /\ (length c <= Z.to_nat (getChunksSize p))%nat /\ output it' = c
    | None => remaining it1 = [] /\ remaining it' = []
    end).
  { intros Hb. destruct (page_steps_serve p it1 H1 Hb) as (r & it' & E & [H' Hr] & _). exists r, it'.
    split; [by destruct (inputBuffer it1) as [[|]|]|]. split; [done|]. unfold remaining. rewrite Hb. simpl. destruct r as [c|].
    - destruct Hr as (-> & ? & ? & ->). done.
    - by destruct Hr as (-> & -> & ->). }
  destruct (inputBuffer it1) as [[|h b]|] eqn:Hb; [by apply Hpage| |by apply Hpage]. clear Hpage.
  pose proof (from_buffer_app p (h :: b)) as [Hperm Hlen]. destruct (from_buffer p (h :: b)) as [chunk rest] eqn:Ef.
  simpl in Hperm, Hlen. eexists (Some chunk), _. split; [done|]. split; [|split; [|by split]].
  - split; simpl; [apply H1| |done]. intros v Hv. destruct (vso_page _ H1 v Hv) as (? & ? & _). by split_and!.
  - change (remaining it1) with (default [] (inputBuffer it1) ++ on_page it1). rewrite Hb. cbn [default].
    transitivity ((chunk ++ rest) ++ on_page it1); [by apply Permutation_app_tail|by rewrite <- app_assoc].
Qed.

(** A call of VectorTupleSetIterator::getNextTupleSet hands out, in a chunk
    no longer than the policy allows, rows that are still to come, the chunk
    that failed included, and leaves the rest to come; it answers that there is
    nothing more only when there is nothing more.  The condition is that a
    chunk does not fail while rows of an earlier failure are still waiting. *)
Theorem vector_source_serves_every_row p it :
  vector_source_ok it -> inputWasProcessed p = true \/ default [] (inputBuffer it) = [] ->
  exists r it', vector_getNextTupleSet p it = Ok r it' /\ vector_source_ok it' /\
    match r with
    | Some c => to_serve p it ≡ₚ c ++ remaining it' /\ (length c <= Z.to_nat (getChunksSize p))%nat /\ output it' = c
    | None => to_serve p it = [] /\ remaining it' = []
    end.
Proof. apply vector_source_serves_every_row_ok. Qed.

(** if a chunk fails while rows of an earlier failure are waiting, all of
    them are lost: what the call hands out and leaves to come are the rows of
    the pages only. *)
Theorem second_failure_loses_rows p it h b :
  vector_source_ok it -> inputWasProcessed p = false -> inputBuffer it = Some (h :: b) ->
  exists r it', vector_getNextTupleSet p it = Ok r it' /\
    match r with Some c => on_page it = c ++ remaining it' | None => on_page it = [] end.
Proof.
  intros H Hp Hb. unfold vector_getNextTupleSet. rewrite (bind_Ok _ _ _ tt (vector_rebuffer p it)) by done.
  rewrite (bind_Ok _ _ _ (vector_rebuffer p it) (vector_rebuffer p it)) by done.
  unfold vector_rebuffer. rewrite Hp, Hb. simpl.
  set (it1 := mkVectorIterator _ _ _ _ _ _ _ _).
  destruct (page_steps_serve p it1) as (r & it' & E & [_ Hr] & _); [|done|].
  { split; simpl; [apply H| |done]. intros v Hv. destruct (vso_page _ H v Hv) as (? & ? & _). by split_and!. }
  exists r, it'. split; [exact E|]. change (on_page it) with (on_page it1). destruct r as [c|].
  - destruct Hr as (-> & _ & _ & E'). unfold remaining. by rewrite E'.
  - apply Hr.
Qed.

(** The work left in a source: rows to serve and pages to open.  A call that
    hands out a chunk uses some up, unless the chunk fails, and then there is no
    more than before. *)
Lemma vector_next_work p it :
  vector_source_ok it -> 1 <= getChunksSize p ->
  exists r it', vector_getNextTupleSet p it = Ok r it' /\ vector_source_ok it' /\
    match r with
    | Some c => output it' = c /\
        (length (remaining it') + length (pageSet it') < length (to_serve p it) + length (pageSet it))%nat /\
        (length c + length (remaining it') + length (pageSet it') <= length (to_serve p it) + length (pageSet it))%nat
    | None => True
    end.
Proof.
  intros H Hsz. set (it1 := vector_rebuffer p it).
  assert (Ht : (length (remaining it1) <= length (to_serve p it))%nat /\ vector_source_ok it1 /\ pageSet it1 = pageSet it).
  { unfold it1, vector_rebuffer, to_serve. destruct (inputWasProcessed p); [done|].
    destruct (inputBuffer it) as [b|] eqn:Hb; [|rewrite length_app; split; [lia|done]].
    unfold remaining, on_page. rewrite Hb. destruct b as [|h b]; simpl; rewrite !length_app; simpl; rewrite ?length_app; (split; [lia|]); (split; [|done]);
      (split; simpl; [apply H| |done]); intros v Hv; destruct (vso_page _ H v Hv) as (? & ? & _); by split_and!. }
  destruct Ht as (Ht & H1 & Hps). unfold vector_getNextTupleSet. rewrite (bind_Ok _ _ _ tt it1) by done.
  rewrite (bind_Ok _ _ _ it1 it1) by done. rewrite <- Hps. clearbody it1. clear Hps.
  destruct (inputBuffer it1) as [[|h b]|] eqn:Hb.
  2:{ pose proof (from_buffer_app p (h :: b)) as [Hperm _].
      assert (Hne : (0 < length (from_buffer p (h :: b)).1)%nat).
      { unfold from_buffer. cbn [fst]. rewrite length_drop. simpl length. lia. }
      destruct (from_buffer p (h :: b)) as [chunk rest] eqn:Ef. apply Permutation_length in Hperm. rewrite length_app in Hperm.
      simpl in Hperm, Hne. eexists (Some chunk), _. split; [done|]. split; [|split; [done|]].
      - split; simpl; [apply H1| |done]. intros v Hv. destruct (vso_page _ H1 v Hv) as (? & ? & _). by split_and!.
      - unfold remaining in *. rewrite Hb in Ht. simpl in *. rewrite length_app in *. unfold on_page in *. simpl in *. lia. }
  all: (assert (Hb' : default [] (inputBuffer it1) = []) by by rewrite Hb);
    destruct (page_steps_serve p it1 H1 Hb') as (r & it' & E & [H' Hr] & Hle & Hlt);
    exists r, it'; (split; [exact E|]); (split; [done|]); (destruct r as [c|]; [|done]);
    destruct Hr as (Ho & _ & Hout & Hbuf); (split; [done|]);
    unfold remaining in *; rewrite Hb in Ht; rewrite Hbuf; simpl in *; rewrite Ho, length_app in Ht;
    (destruct c as [|h' c]; [specialize (Hlt eq_refl Hsz)|]); simpl in *; lia.
Qed.

(** A vector of five rows on one page, with chunks of two. *)
Module VectorRun.
Definition rows : list (option Z) := [Some 1; Some 2; Some 3; Some 4; Some 5].
Definition policy (ok : bool) (n : Z) : SizePolicy :=
  mkPolicy n 100 (-1) (-1) 3 (mkStats 0 0 0) ok (mkStats 0 0 0) false true true 4096.
Definition after (p : SizePolicy) (it : VectorTupleSetIterator) : VectorTupleSetIterator :=
  match vector_getNextTupleSet p it with Ok _ it' => it' | _ => it end.
Definition first : VectorTupleSetIterator := after (policy true 4) (VectorTupleSetIterator_new [rows]).
Definition retried : VectorTupleSetIterator := after (policy false 2) first.
End VectorRun.

Lemma vector_source_serves_every_row_witness :
  exists r it', vector_getNextTupleSet (VectorRun.policy false 2) VectorRun.first = Ok r it' /\ vector_source_ok it' /\
    match r with
    | Some c => to_serve (VectorRun.policy false 2) VectorRun.first ≡ₚ c ++ remaining it' /\ (length c <= 2)%nat /\ output it' = c
    | None => to_serve (VectorRun.policy false 2) VectorRun.first = [] /\ remaining it' = []
    end.
Proof.
  apply (vector_source_serves_every_row (VectorRun.policy false 2) VectorRun.first).
  - split; [done| |done]. intros v [= <-]. split; [done|]. split; [vm_compute; lia|by eexists].
  - right. reflexivity.
Defined.

(** The second half of the four rows fails too: row five comes, the other four
    are gone. *)
Lemma second_failure_loses_rows_witness :
  exists r it', vector_getNextTupleSet (VectorRun.policy false 1) VectorRun.retried = Ok r it' /\
    match r with Some c => on_page VectorRun.retried = c ++ remaining it' | None => on_page VectorRun.retried = [] end.
Proof.
  apply (second_failure_loses_rows (VectorRun.policy false 1) VectorRun.retried (Some 1) [Some 2]).
  - split; [done| |done]. intros v [= <-]. split; [done|]. split; [vm_compute; lia|by eexists].
  - reflexivity.
  - reflexivity.
Defined.

Section map_source.
Context {K V : Type}.
Implicit Types (m : PairArray K V) (st : MapTupleSetIterator K V).

(** ** The iterator of the map *)

Definition pairs_at m (k : nat) : list (K * V) := omap (fun s => s) (drop k (slots m)).

Lemma to_used_cases m k :
  (k <= length (slots m))%nat ->
  (it_done (to_used m k) = true /\ pairs_at m k = []) \/
  (exists x t, it_done (to_used m k) = false /\ it_pair m (to_used m k) = Some x /\ (t < length (slots m))%nat /\
     pairs_at m k = x :: pairs_at m (S t) /\ it_next m (to_used m k) = to_used m (S t)).
Proof.
  intros Hk. destruct (skip_unused_spec (drop k (slots m)) k) as (H1 & H2 & H3). rewrite length_drop in *.
  unfold to_used, pairs_at. set (t := skip_unused (drop k (slots m)) k) in *. rewrite lookup_drop in *.
  replace (k + (t - k))%nat with t in * by lia. rewrite H2. destruct (Nat.eqb_spec t (length (slots m))) as [E|E].
  - left. simpl. rewrite lookup_ge_None_2 by lia. done.
  - right. destruct H3 as [H3|[x Hx]]; [lia|]. exists x, t. unfold it_pair, it_next. simpl. rewrite Hx.
    split; [done|]. split; [reflexivity|]. split; [lia|]. split.
    + rewrite drop_drop. by replace (k + S (t - k))%nat with (S t) by lia.
    + unfold to_used. simpl. by rewrite orb_false_r.
Qed.

(** ** Contents of a column *)

Definition contents st (c : list nat) : list (K * V) := omap (fun o => objects st !! o) c.

Record map_source_ok m (k : nat) st : Prop := {
  mso_map : theMap st = Some m;
  mso_slot : (k <= length (slots m))%nat;
  mso_begin : begin st = to_used m k;
  mso_buffer : buffer st = None;
  mso_NoDup : NoDup (column st);
  mso_objects o : o ∈ column st -> (o < length (objects st))%nat
}.

Lemma contents_insert st (c : list nat) o x :
  o ∉ c -> omap (fun i => <[o := x]> (objects st) !! i) c = contents st c.
Proof.
  induction c as [|i c IH]; [done|]. intros [Hi Hc]%not_elem_of_cons. unfold contents.
  change (match <[o := x]> (objects st) !! i with
    | Some y => y :: omap (fun i => <[o := x]> (objects st) !! i) c
    | None => omap (fun i => <[o := x]> (objects st) !! i) c end =
    match objects st !! i with Some y => y :: contents st c | None => contents st c end).
  rewrite list_lookup_insert_ne by done. by rewrite IH.
Qed.

Lemma contents_app_new (objs : list (K * V)) x (c : list nat) :
  (forall o, o ∈ c -> (o < length objs)%nat) ->
  omap (fun i => (objs ++ [x]) !! i) c = omap (fun i => objs !! i) c.
Proof.
  induction c as [|i c IH]; intros H; [done|].
  change (match (objs ++ [x]) !! i with
    | Some y => y :: omap (fun i => (objs ++ [x]) !! i) c
    | None => omap (fun i => (objs ++ [x]) !! i) c end =
    match objs !! i with Some y => y :: omap (fun i => objs !! i) c | None => omap (fun i => objs !! i) c end).
  rewrite lookup_app_l by (apply H; by left). rewrite IH; [done|]. intros o Ho. apply H. by right.
Qed.

(** Filling row [i]: the state after the object is there, the pair is in it
    and the iterator moved on. *)
Definition filled m st (k' i o : nat) (x : K * V) : MapTupleSetIterator K V :=
  mkMapTupleSetIterator (theMap st) (to_used m k') (<[o := x]> (objects st)) (column st) (buffer st) (page_unpinned st).

Lemma filled_ok m k k' st i o x :
  map_source_ok m k st -> (k' <= length (slots m))%nat -> map_source_ok m k' (filled m st k' i o x).
Proof. intros [H1 H2 H3 H4 H5 H6] Hk'. split; simpl; try done. intros o' Ho'. rewrite length_insert. auto. Qed.

Lemma filled_contents m st k' i o x em :
  NoDup (column st) -> column st !! i = Some o -> (o < length (objects st))%nat ->
  contents st (take i (column st)) = em ->
  contents (filled m st k' i o x) (take (S i) (column st)) = em ++ [x].
Proof.
  intros Hnd Hi Ho Hem. rewrite (take_S_r _ _ _ Hi). unfold contents, filled. simpl. rewrite omap_app. f_equal.
  - rewrite contents_insert; [done|]. intros Hin. apply elem_of_take in Hin as (j & Hj & Hlt).
    pose proof (NoDup_lookup _ _ _ _ Hnd Hi Hj). lia.
  - simpl. by rewrite list_lookup_insert_eq.
Qed.

(** Making sure that row [i] has an object. *)
Lemma ensure_object dflt m k limit i st f em :
  map_source_ok m k st -> length (column st) = Nat.max limit i -> contents st (take i (column st)) = em ->
  wpx (if (limit <=? i)%nat then new_object dflt else mret tt)
    (fun _ s => map_source_ok m k s.1 /\ length (column s.1) = Nat.max limit (S i) /\
                contents s.1 (take i (column s.1)) = em)
    (fun e _ => e = NotEnoughSpace) (st, f).
Proof.
  intros H Hl Hem. destruct (Nat.leb_spec limit i).
  - unfold new_object. do 3 (apply wpx_bind, wpx_alloc; intros ?; [|done]). unfold wpx, modify. simpl.
    pose proof H as [H1 H2 H3 H4 H5 H6]. split; [|split; [rewrite length_app; simpl; lia|]].
    + split; simpl; try done.
      * apply NoDup_app. split; [done|]. split; [|apply NoDup_singleton].
        intros o Ho ->%list_elem_of_singleton. apply H6 in Ho. lia.
      * intros o Ho. rewrite length_app. simpl. apply elem_of_app in Ho as [Ho| ->%list_elem_of_singleton]; [apply H6 in Ho; lia|lia].
    + rewrite take_app_le by lia. unfold contents. simpl. rewrite contents_app_new; [done|].
      intros o Ho. apply H6. by eapply subseteq_take.
  - apply wpx_mret. simpl. split; [done|]. split; [lia|done].
Qed.

Lemma fill_column_spec dflt m limit n : forall i k st f em,
  map_source_ok m k st -> length (column st) = Nat.max limit i -> contents st (take i (column st)) = em ->
  (limit <= i + n)%nat -> (n = 0%nat \/ pairs_at m k <> []) ->
  wpx (fill_column dflt m limit i n)
    (fun c s => c = column s.1 /\ contents s.1 c = em ++ take n (pairs_at m k) /\
       exists k', map_source_ok m k' s.1 /\ pairs_at m k' = drop n (pairs_at m k))
    (fun e _ => e = NotEnoughSpace) (st, f).
Proof.
  induction n as [|n IH]; intros i k st f em H Hl Hem Hn Hne; simpl.
  - apply wpx_bind. eapply wpx_eq; [done|]. apply wpx_mret. simpl. split; [done|]. split.
    + rewrite take_ge in Hem by lia. rewrite take_0, app_nil_r. done.
    + exists k. by rewrite drop_0.
  - apply wpx_bind. eapply wpx_mono; [by eapply ensure_object| |done]. intros [] [st1 f1] (H1 & Hl1 & Hem1). simpl in *.
    apply wpx_bind. eapply wpx_eq; [done|]. simpl.
    destruct (to_used_cases m k) as [[_ Hnil]|(x & t & _ & Hx & Ht & Hp & Hnx)]; [apply H|by destruct Hne|].
    rewrite (mso_begin _ _ _ H1), Hx. apply wpx_bind, wpx_mret. apply wpx_bind.
    destruct (lookup_lt_is_Some_2 (column st1) i) as [o Ho]; [lia|].
    pose proof (mso_objects _ _ _ H1 o ltac:(by eapply list_elem_of_lookup_2)) as Hol.
    unfold assign_pair. apply wpx_bind. eapply wpx_eq; [done|]. simpl. rewrite Ho. apply wpx_bind, wpx_mret.
    do 2 (apply wpx_bind, wpx_alloc; intros ?; [|done]). eapply wpx_eq; [done|].
    apply wpx_bind. eapply wpx_eq; [done|]. unfold advance. simpl. rewrite (mso_begin _ _ _ H1), Hnx.
    change (mkMapTupleSetIterator (theMap st1) (to_used m (S t)) (<[o:=x]> (objects st1)) (column st1) (buffer st1) (page_unpinned st1))
      with (filled m st1 (S t) i o x).
    assert (H2 : map_source_ok m (S t) (filled m st1 (S t) i o x)) by (by eapply filled_ok).
    pose proof (filled_contents m st1 (S t) i o x em (mso_NoDup _ _ _ H1) Ho Hol Hem1) as Hc.
    apply wpx_bind. eapply wpx_eq; [done|]. cbn [fst begin filled]. rewrite Hp. cbn [firstn skipn].
    destruct (to_used_cases m (S t)) as [[Hd Hnil]|(y & t' & Hd & _ & _ & Hp' & _)]; [apply H2| |]; rewrite Hd.
    + apply wpx_bind. rewrite Hnil, take_nil, drop_nil. destruct (Nat.ltb_spec (S i) limit) as [Hlt|Hge].
      * eapply wpx_eq; [done|]. apply wpx_bind. eapply wpx_eq; [done|]. apply wpx_mret. simpl.
        split; [done|]. split; [exact Hc|]. exists (S t). split; [|done].
        destruct H2 as [G1 G2 G3 G4 G5 G6]. split; simpl in *; try done.
        -- rewrite <- (take_drop (S i) (column st1)) in G5. by apply NoDup_app in G5 as [? _].
        -- intros o' Ho'. apply G6. by eapply subseteq_take.
      * apply wpx_mret. apply wpx_bind. eapply wpx_eq; [done|]. apply wpx_mret. simpl.
        split; [done|]. split; [|by exists (S t)]. simpl in Hc. rewrite take_ge in Hc by lia. exact Hc.
    + eapply wpx_mono; [eapply (IH (S i) (S t) (filled m st1 (S t) i o x)); [done|simpl; lia|exact Hc|lia|right; by rewrite Hp']| |done].
      intros c s (-> & Hcc & k' & Hk' & Hd'). split; [done|]. rewrite Hcc, <- app_assoc. split; [done|]. by exists k'.
Qed.

(** a call of MapTupleSetIterator::getNextTupleSet hands out the next pairs
    of the map, as many as the chunk size says or as there are, provided the
    chunk size did not shrink; at the end of the map it unpins the page and
    answers that there is nothing more. *)
Theorem map_source_serves_in_order dflt p m k st f :
  map_source_ok m k st -> (length (column st) <= Z.to_nat (getChunksSize p))%nat -> 0 < getChunksSize p ->
  wpx (map_getNextTupleSet dflt p)
    (fun r s => let n := Z.to_nat (getChunksSize p) in
       match r with
       | Some c => pairs_at m k <> [] /\ contents s.1 c = take n (pairs_at m k) /\
                   exists k', map_source_ok m k' s.1 /\ pairs_at m k' = drop n (pairs_at m k)
       | None => pairs_at m k = [] /\ page_unpinned s.1 = true
       end)
    (fun e _ => e = NotEnoughSpace) (st, f).
Proof.
  intros H Hl Hp. unfold map_getNextTupleSet. apply wpx_bind. eapply wpx_eq; [done|].
  assert (E : map_rebuffer p st = st) by (unfold map_rebuffer; rewrite (mso_buffer _ _ _ H); by destruct (inputWasProcessed p)).
  rewrite E. apply wpx_bind. eapply wpx_eq; [done|]. cbn [fst]. rewrite (mso_buffer _ _ _ H), (mso_map _ _ _ H), (mso_begin _ _ _ H).
  destruct (to_used_cases m k) as [[Hd Hnil]|(x & t & Hd & _ & _ & Hx & _)]; [apply H| |]; rewrite Hd.
  - apply wpx_bind. eapply wpx_eq; [done|]. by apply wpx_mret.
  - apply wpx_bind. eapply wpx_mono; [eapply (fill_column_spec dflt m (length (column st)) (Z.to_nat (getChunksSize p)) 0 k st f []); [done|lia|done|lia|right; by rewrite Hx]| |done].
    intros c s (-> & Hc & Hk). apply wpx_mret. split; [by rewrite Hx|]. by split.
Qed.

(** ** Rows that are lost, stale or overwritten *)

(** A later chunk is in the objects of the earlier one. *)
Lemma fill_column_keeps dflt m limit n : forall i st f c s,
  fill_column dflt m limit i n (st, f) = Ok c s -> exists l, column s.1 = l /\ c = l /\
    forall j, (j < length c)%nat -> (j < length (column st))%nat -> c !! j = column st !! j.
Proof.
  induction n as [|n IH]; intros i st f c s; simpl.
  { intros [= <- <-]. by eexists. }
  intros ([] & [st1 f1] & H1 & H)%bind_Ok_inv.
  assert (Hc1 : exists l, column st1 = column st ++ l).
  { destruct (limit <=? i)%nat; [|injection H1 as <- <-; exists []; by rewrite app_nil_r].
    revert H1. unfold new_object, bind, alloc, modify. destruct f as [|[] [|[] [|[] f]]]; intros [= <- <-]; simpl; by eexists. }
  apply bind_Ok_inv in H as (s1 & ? & [= <- <-] & H). apply bind_Ok_inv in H as (x & ? & [Hx ->]%unwrap_Ok_inv & H).
  apply bind_Ok_inv in H as ([] & [st2 f2] & H2 & H).
  assert (Hc2 : column st2 = column st1).
  { unfold assign_pair in H2. apply bind_Ok_inv in H2 as (? & ? & [= <- <-] & H2). apply bind_Ok_inv in H2 as (? & ? & [_ ->]%unwrap_Ok_inv & H2).
    revert H2. unfold bind, alloc, modify. destruct f1 as [|[] [|[] f1]]; by intros [= <- <-]. }
  apply bind_Ok_inv in H as ([] & ? & [= <-] & H). apply bind_Ok_inv in H as (? & ? & [= <- <-] & H). cbn [fst] in H.
  destruct Hc1 as [l Hl]. destruct (it_done (begin (advance m st2))).
  - apply bind_Ok_inv in H as ([] & [st3 f3] & H3 & [= <- <-]). exists (column st3). split; [done|]. split; [done|].
    destruct (S i <? limit)%nat; injection H3 as <- <-; simpl; rewrite ?Hc2, ?Hl; intros j Hj Hj'.
    + rewrite length_take in Hj. rewrite lookup_take_lt by lia. by apply lookup_app_l.
    + by apply lookup_app_l.
  - apply IH in H as (l' & ? & ? & Hk). exists l'. split; [done|]. split; [done|]. intros j Hj Hj'. rewrite Hk; [|done|].
    + simpl. rewrite Hc2, Hl. by apply lookup_app_l.
    + simpl. rewrite Hc2, Hl, length_app. lia.
Qed.

(** a chunk that failed is not handed out again: nothing ever makes the
    buffer, so the call ignores that the last chunk was not processed. *)
Theorem map_source_skips_failed_chunk dflt p p' m k st f :
  map_source_ok m k st -> getChunksSize p = getChunksSize p' ->
  map_getNextTupleSet dflt p (st, f) = map_getNextTupleSet dflt p' (st, f).
Proof.
  intros H Hp. unfold map_getNextTupleSet, bind, modify, get. simpl.
  assert (E : forall p, map_rebuffer p st = st) by (intros q; unfold map_rebuffer; rewrite (mso_buffer _ _ _ H); by destruct (inputWasProcessed q)).
  rewrite !E. by rewrite (mso_buffer _ _ _ H), Hp.
Qed.

(** The objects of a chunk are used again for the next one: row by row the
    two chunks are the same objects, so the earlier chunk's rows, wherever they
    are kept by reference, now have the later chunk's keys and values. *)
Theorem map_source_overwrites_rows dflt p m k st f c s i :
  map_source_ok m k st -> map_getNextTupleSet dflt p (st, f) = Ok (Some c) s ->
  (i < length (column st))%nat -> (i < length c)%nat -> c !! i = column st !! i.
Proof.
  intros H Hrun Hi Hi'. revert Hrun. unfold map_getNextTupleSet.
  assert (E : map_rebuffer p st = st) by (unfold map_rebuffer; rewrite (mso_buffer _ _ _ H); by destruct (inputWasProcessed p)).
  unfold bind at 1, modify at 1. rewrite E. unfold bind at 1, get at 1. cbn [fst]. rewrite (mso_buffer _ _ _ H), (mso_map _ _ _ H).
  destruct (it_done (begin st)); [done|].
  intros (c1 & s1 & Hf & [= <- <-])%bind_Ok_inv. apply fill_column_keeps in Hf as (l & _ & _ & Hk). by apply Hk.
Qed.
End map_source.

(** Three pairs, in chunks of two. *)
Module MapRun.
Definition int_hash (k : Z) : Z := k.
Definition three : PairArray Z Z :=
  mkPairArray [Some (3, 30); Some (4, 40); Some (5, 50); None] 3 3.
Definition policy (ok : bool) (n : Z) : SizePolicy :=
  mkPolicy n 100 (-1) (-1) 3 (mkStats 0 0 0) ok (mkStats 0 0 0) false true true 4096.
Definition start : MapTupleSetIterator Z Z := mkMapTupleSetIterator (Some three) (it_begin three) [] [] None false.
Definition call (p : SizePolicy) (st : MapTupleSetIterator Z Z) : outcome (MapTupleSetIterator Z Z * answers) (option (list nat)) :=
  map_getNextTupleSet (0, 0) p (st, []).
Definition after (p : SizePolicy) (st : MapTupleSetIterator Z Z) : MapTupleSetIterator Z Z :=
  match call p st with Ok _ (st', _) => st' | _ => st end.
Lemma start_ok : map_source_ok three 0 start.
Proof. split; try done; [simpl; lia|by apply NoDup_nil_2|intros o Ho; by apply elem_of_nil in Ho]. Qed.
Lemma after_ok : map_source_ok three 2 (after (policy true 2) start).
Proof.
  split; try done; [simpl; lia| |].
  - vm_compute. apply NoDup_cons. split; [|apply NoDup_singleton]. intros ?%list_elem_of_singleton. done.
  - intros o Ho. vm_compute in Ho. assert (o = 0 \/ o = 1)%nat as [->| ->]; [|vm_compute; lia..].
    apply elem_of_cons in Ho as [->|Ho]; [by left|]. apply list_elem_of_singleton in Ho. by right.
Qed.
End MapRun.

Lemma map_source_serves_in_order_witness :
  wpx (map_getNextTupleSet (0, 0) (MapRun.policy true 2))
    (fun r s => let n := 2%nat in
       match r with
       | Some c => pairs_at MapRun.three 0 <> [] /\ contents s.1 c = take n (pairs_at MapRun.three 0) /\
                   exists k', map_source_ok MapRun.three k' s.1 /\ pairs_at MapRun.three k' = drop n (pairs_at MapRun.three 0)
       | None => pairs_at MapRun.three 0 = [] /\ page_unpinned s.1 = true
       end)
    (fun e _ => e = NotEnoughSpace) (MapRun.start, [true; true; false]).
Proof.
  apply (map_source_serves_in_order (0, 0) (MapRun.policy true 2) MapRun.three 0 MapRun.start [true; true; false]).
  - apply MapRun.start_ok.
  - simpl. lia.
  - simpl. lia.
Defined.

Lemma map_source_skips_failed_chunk_witness :
  map_getNextTupleSet (0, 0) (MapRun.policy false 2) (MapRun.after (MapRun.policy true 2) MapRun.start, []) =
  map_getNextTupleSet (0, 0) (MapRun.policy true 2) (MapRun.after (MapRun.policy true 2) MapRun.start, []).
Proof.
  apply (map_source_skips_failed_chunk (0, 0) (MapRun.policy false 2) (MapRun.policy true 2) MapRun.three 2).
  - apply MapRun.after_ok.
  - reflexivity.
Defined.

Lemma map_source_overwrites_rows_witness : [0]%nat !! 0%nat = column (MapRun.after (MapRun.policy true 2) MapRun.start) !! 0%nat.
Proof.
  apply (map_source_overwrites_rows (0, 0) (MapRun.policy true 2) MapRun.three 2 (MapRun.after (MapRun.policy true 2) MapRun.start) []
    [0]%nat (MapRun.after (MapRun.policy true 2) (MapRun.after (MapRun.policy true 2) MapRun.start), []) 0).
  - apply MapRun.after_ok.
  - vm_compute. reflexivity.
  - vm_compute. lia.
  - simpl. lia.
Defined.

(** When the chunk size shrinks below that of the last chunk the column
    keeps its length: with four pairs, after a chunk of two, a chunk size of one
    hands out two rows, the second of them for the second time. *)
Theorem map_source_hands_out_stale_rows :
  let four := mkPairArray [Some (3, 30); Some (4, 40); Some (5, 50); Some (6, 60); None] 4 3 in
  let st := mkMapTupleSetIterator (Some four) (it_begin four) [] [] None false in
  let chunk p st := match MapRun.call p st with Ok (Some c) (st', _) => contents st' c | _ => [] end in
  chunk (MapRun.policy true 2) st = [(3, 30); (4, 40)] /\
  chunk (MapRun.policy true 1) (MapRun.after (MapRun.policy true 2) st) = [(5, 50); (4, 40)].
Proof. split; reflexivity. Qed.
