(* ===== verification/Pipeline.v ===== *)
(** The pipeline that runs a query: it takes chunks from a source, pushes them
    through the executors, hands the result to a sink and looks after the pages
    all of this fills.  pdb/src/pipeline/source/pipeline/Pipeline.cc, and
    MemoryHolder of source/MemoryHolder.cc.

    The pipeline runs against interfaces: the source, the executors, the sink,
    the page processor, the page set and the allocator are operations on an
    environment [E] of which the pipeline knows nothing else. *)

From S2P Require Import Prelude SizePolicy.

Open Scope Z_scope.

Class PipelineParts (E TS C P : Type) := {
  getNextTupleSet : SizePolicy -> M E (option TS);
  stages : list (TS -> M E TS);
  newOutputContainer : M E C;
  writeOut : TS -> C -> M E unit;
  processPage : P -> C -> M E bool;
  getFreeBytesAtTheEnd : M E Z;
  getNewPage : M E P;
  removePage : P -> M E unit;
  unpinPage : P -> M E unit;
  (** Destroying the objects left on a page, or the one an output handle points to. *)
  emptyPage : P -> M E unit;
  emptyContainer : C -> M E unit
}.

(** What the pipeline did with its pages and chunks, for the theorems to talk
    about; a page is known by the number of the MemoryHolder made for it. *)
Inductive event (TS : Type) :=
| EvNew (h : nat)
| EvProcess (h : nat) (keep : bool)
| EvRemove (h : nat)
| EvUnpin (h : nat)
| EvChunk (ts : TS) (first_try : bool)
| EvFailed
| EvWritten.
Arguments EvNew {TS} _.
Arguments EvProcess {TS} _ _.
Arguments EvRemove {TS} _.
Arguments EvUnpin {TS} _.
Arguments EvChunk {TS} _ _.
Arguments EvFailed {TS}.
Arguments EvWritten {TS}.

Section pipeline.
Context {E TS C P : Type} `{PipelineParts E TS C P}.

Record MemoryHolder := mkHolder {
  holder : nat;
  outputSink : option C;
  pageHandle : P;
  iteration : Z
}.
Definition set_iteration (i : Z) (m : MemoryHolder) : MemoryHolder := mkHolder (holder m) (outputSink m) (pageHandle m) i.
Definition set_outputSink (c : C) (m : MemoryHolder) : MemoryHolder := mkHolder (holder m) (Some c) (pageHandle m) (iteration m).

Record pl_state := mkPipeline {
  env : E;
  unwrittenPages : list MemoryHolder;
  policy : SizePolicy;
  holders : nat;
  log : list (event TS)
}.
Abbreviation PL := (M pl_state).

Definition set_unwritten (q : list MemoryHolder) : PL unit :=
  modify (fun s => mkPipeline (env s) q (policy s) (holders s) (log s)).
Definition emit (ev : event TS) : PL unit :=
  modify (fun s => mkPipeline (env s) (unwrittenPages s) (policy s) (holders s) (log s ++ [ev])).
(** A call of one of the parts, or of the policy. *)
Definition on_env {A} (m : M E A) : PL A := fun s =>
  match m (env s) with
  | Ok a e => Ok a (mkPipeline e (unwrittenPages s) (policy s) (holders s) (log s))
  | Raise x e => Raise x (mkPipeline e (unwrittenPages s) (policy s) (holders s) (log s))
  | Exit e => Exit (mkPipeline e (unwrittenPages s) (policy s) (holders s) (log s))
  | Fault f => Fault f
  | NoFuel => NoFuel
  end.
Definition on_policy (m : M SizePolicy unit) : PL unit := fun s =>
  match m (policy s) with
  | Ok a p => Ok a (mkPipeline (env s) (unwrittenPages s) p (holders s) (log s))
  | Raise x p => Raise x (mkPipeline (env s) (unwrittenPages s) p (holders s) (log s))
  | Exit p => Exit (mkPipeline (env s) (unwrittenPages s) p (holders s) (log s))
  | Fault f => Fault f
  | NoFuel => NoFuel
  end.

(** [std::make_shared<MemoryHolder>(outputPageSet->getNewPage())] *)
Definition new_holder : PL MemoryHolder :=
  p <- on_env getNewPage ;;
  s <- get ;;
  _ <- put (mkPipeline (env s) (unwrittenPages s) (policy s) (S (holders s)) (log s ++ [EvNew (holders s)])) ;;
  mret (mkHolder (holders s) None p 0).

Definition addPageToIteration (ram : MemoryHolder) (iteration : Z) : PL unit :=
  s <- get ;; set_unwritten (unwrittenPages s ++ [set_iteration iteration ram]).

(** ** Cleaning up *)

(** One page, the front of the queue: a page without output is removed, the
    others are the processor's to keep or not. *)
Definition settle (m : MemoryHolder) : PL unit :=
  match outputSink m with
  | None =>
      _ <- on_env (emptyPage (pageHandle m)) ;;
      _ <- on_env (removePage (pageHandle m)) ;;
      emit (EvRemove (holder m))
  | Some c =>
      keep <- on_env (processPage (pageHandle m) c) ;;
      _ <- emit (EvProcess (holder m) keep) ;;
      _ <- (if keep then mret tt
            else
              _ <- on_env (emptyContainer c) ;;
              _ <- on_env (removePage (pageHandle m)) ;;
              emit (EvRemove (holder m))) ;;
      _ <- on_env (unpinPage (pageHandle m)) ;;
      emit (EvUnpin (holder m))
  end.
Fixpoint clean_queue (iteration_ : Z) (q : list MemoryHolder) : PL unit :=
  match q with
  | [] => mret tt
  | m :: q' =>
      if iteration m + 1 <? iteration_ then
        _ <- settle m ;;
        _ <- set_unwritten q' ;;
        clean_queue iteration_ q'
      else mret tt
  end.
Definition cleanPages (iteration : Z) : PL unit :=
  s <- get ;; clean_queue iteration (unwrittenPages s).

(** The queue is emptied into a vector and refilled from the vector's end. *)
Definition cleanPipeline : PL unit :=
  s <- get ;;
  _ <- set_unwritten (rev (unwrittenPages s)) ;;
  cleanPages (2 ^ 31 - 1).

(** ** Running *)

(** One executor, tried again once on a new page; [None] is the jump to
    CLEAN_ITERATION. *)
Definition apply_stage (q : TS -> M E TS) (ram : MemoryHolder) (iteration additionalPagesUsed : Z) (curChunk : TS)
    : PL (option TS * MemoryHolder * Z) :=
  try (c <- on_env (q curChunk) ;; mret (Some c, ram, additionalPagesUsed))
    (fun x => match x with
      | NotEnoughSpace =>
          _ <- addPageToIteration ram iteration ;;
          ram' <- new_holder ;;
          try (c <- on_env (q curChunk) ;; mret (Some c, ram', u64 (additionalPagesUsed + 1)))
            (fun x => match x with
              | NotEnoughSpace =>
                  _ <- on_policy pipelineFailed ;;
                  _ <- emit EvFailed ;;
                  _ <- addPageToIteration ram' iteration ;;
                  ram'' <- new_holder ;;
                  mret (None, ram'', u64 (additionalPagesUsed + 1))
              | _ => throw x
              end)
      | _ => throw x
      end).
Fixpoint apply_stages (qs : list (TS -> M E TS)) (ram : MemoryHolder) (iteration additionalPagesUsed : Z) (curChunk : TS)
    : PL (option TS * MemoryHolder * Z) :=
  match qs with
  | [] => mret (Some curChunk, ram, additionalPagesUsed)
  | q :: qs' =>
      r <- apply_stage q ram iteration additionalPagesUsed curChunk ;;
      match r with
      | (Some c, ram', used) => apply_stages qs' ram' iteration used c
      | (None, _, _) => mret r
      end
  end.

(** The write to the sink; a full page is kept and the write repeated on a new
    one, where nothing catches what it throws. *)
Definition ensure_sink (ram : MemoryHolder) : PL MemoryHolder :=
  match outputSink ram with
  | Some _ => mret ram
  | None => c <- on_env newOutputContainer ;; mret (set_outputSink c ram)
  end.
Definition write_to (curChunk : TS) (ram : MemoryHolder) : PL unit :=
  c <- unwrap NullDeref (outputSink ram) ;; on_env (writeOut curChunk c).
Definition write_chunk (curChunk : TS) (ram : MemoryHolder) (iteration : Z) : PL MemoryHolder :=
  r <- try (r <- ensure_sink ram ;; mret (inl r)) (fun x => match x with NotEnoughSpace => mret (inr ram) | _ => throw x end) ;;
  r <- (match r with
        | inl ram => try (_ <- write_to curChunk ram ;; mret (inl ram))
                         (fun x => match x with NotEnoughSpace => mret (inr ram) | _ => throw x end)
        | inr ram => mret (inr ram)
        end) ;;
  match r with
  | inl ram => mret ram
  | inr ram =>
      _ <- addPageToIteration ram iteration ;;
      ram' <- new_holder ;;
      c <- on_env newOutputContainer ;;
      let ram' := set_outputSink c ram' in
      _ <- write_to curChunk ram' ;;
      mret ram'
  end.

(** The body of the loop for one chunk, up to CLEAN_ITERATION. *)
Definition run_chunk (curChunk : TS) (ram : MemoryHolder) (iteration : Z) : PL MemoryHolder :=
  initialFree <- on_env getFreeBytesAtTheEnd ;;
  r <- apply_stages stages ram iteration 0 curChunk ;;
  match r with
  | (None, ram', _) => mret ram'
  | (Some c, ram', additionalPagesUsed) =>
      finalFree <- on_env getFreeBytesAtTheEnd ;;
      _ <- on_policy (pipelineSucceeded additionalPagesUsed initialFree finalFree) ;;
      ram'' <- write_chunk c ram' iteration ;;
      finalFree' <- on_env getFreeBytesAtTheEnd ;;
      _ <- on_policy (writeToPageSucceeded 0 finalFree finalFree') ;;
      _ <- emit EvWritten ;;
      mret ram''
  end.

(** Every round takes one chunk from the source; the iteration is an [int32_t]. *)
Fixpoint run_loop (fuel : nat) (ram : MemoryHolder) (iteration : Z) : PL (MemoryHolder * Z) :=
  match fuel with
  | O => fun _ => NoFuel
  | S fuel' =>
      s <- get ;;
      c <- on_env (getNextTupleSet (policy s)) ;;
      match c with
      | None => mret (ram, iteration)
      | Some curChunk =>
          _ <- emit (EvChunk curChunk (inputWasProcessed (policy s))) ;;
          ram' <- run_chunk curChunk ram iteration ;;
          _ <- cleanPages (i32 (iteration + 1)) ;;
          run_loop fuel' ram' (i32 (iteration + 1))
      end
  end.
Definition run (fuel : nat) : PL unit :=
  ram <- new_holder ;;
  r <- run_loop fuel ram 0 ;;
  _ <- addPageToIteration r.1 r.2 ;;
  cleanPipeline.

Definition Pipeline_new (e : E) (maxPageSize : Z) : pl_state := mkPipeline e [] (policy_new maxPageSize) 0 [].
End pipeline.
Arguments MemoryHolder : clear implicits.
Arguments pl_state : clear implicits.
