(* ===== verification/PipelineSpec.v ===== *)
(** What a pipeline does with its pages and its chunks, whatever its parts are. *)

From stdpp Require Import list sorting.
From S2P Require Import Prelude SizePolicy Pipeline.

Open Scope Z_scope.

(** Anything may fail; what matters is what holds when nothing did. *)
Definition partial : failure -> Prop := fun _ => True.

Section spec.
Context {E TS C P : Type} `{PipelineParts E TS C P}.
Abbreviation state := (pl_state E TS C P).
Abbreviation page := (MemoryHolder C P).
Implicit Types s : state.
Implicit Types m : page.

(** ** The history of a page *)

Definition about (h : nat) (ev : event TS) : bool :=
  match ev with
  | EvNew k | EvProcess k _ | EvRemove k | EvUnpin k => (h =? k)%nat
  | _ => false
  end.
Definition page_log (h : nat) (l : list (event TS)) : list (event TS) := filter (fun ev => about h ev = true) l.

(** A page without output was removed; one with output was processed, once, and
    then kept and unpinned, or removed and unpinned. *)
Inductive settled (h : nat) : list (event TS) -> Prop :=
| settled_empty : settled h [EvNew h; EvRemove h]
| settled_kept : settled h [EvNew h; EvProcess h true; EvUnpin h]
| settled_removed : settled h [EvNew h; EvProcess h false; EvRemove h; EvUnpin h].

(** The pages [live] are those nothing has been done with so far. *)
Record pages_ok (live : list nat) s : Prop := {
  pg_NoDup : NoDup live;
  pg_lt h : h ∈ live -> (h < holders s)%nat;
  pg_live h : h ∈ live -> page_log h (log s) = [EvNew h];
  pg_settled h : (h < holders s)%nat -> h ∉ live -> settled h (page_log h (log s));
  pg_future h : (holders s <= h)%nat -> page_log h (log s) = []
}.

Lemma page_log_app h l l' : page_log h (l ++ l') = page_log h l ++ page_log h l'.
Proof. apply filter_app. Qed.
Lemma page_log_one h ev : page_log h [ev] = if about h ev then [ev] else [].
Proof. unfold page_log. rewrite filter_cons. by destruct (about h ev). Qed.

(** Only the log and the number of holders count. *)
Lemma pages_ok_frame live s s' :
  pages_ok live s -> holders s' = holders s -> (forall h, page_log h (log s') = page_log h (log s)) -> pages_ok live s'.
Proof. intros [H1 H2 H3 H4 H5] Hh Hl. split; rewrite ?Hh; try done; intros; rewrite Hl; auto. Qed.

Lemma pages_ok_perm live live' s : live ≡ₚ live' -> pages_ok live s -> pages_ok live' s.
Proof.
  intros Hp [H1 H2 H3 H4 H5].
  assert (Hin : forall h, h ∈ live' <-> h ∈ live) by (intros h; by rewrite Hp).
  split; [by rewrite <- Hp| | | |done]; intros h.
  - rewrite Hin. apply H2.
  - rewrite Hin. apply H3.
  - rewrite Hin. apply H4.
Qed.

(** ** The pipeline's state: its queue and the page it is filling *)

Definition older m m' : Prop := iteration m <= iteration m'.
Record queue_ok (i : Z) (q : list page) (extra : list nat) s : Prop := {
  qo_queue : unwrittenPages s = q;
  qo_pages : pages_ok (map holder q ++ extra) s;
  qo_iteration m : m ∈ q -> 0 <= iteration m <= i;
  qo_sorted : StronglySorted older q
}.

Lemma on_env_spec {A} (c : M E A) s Q :
  (forall a e, Q a (mkPipeline e (unwrittenPages s) (policy s) (holders s) (log s))) -> wp partial (on_env c) Q s.
Proof. intros HQ. unfold wp, on_env. by destruct (c (env s)). Qed.
Lemma on_policy_spec (c : M SizePolicy unit) s Q :
  (forall p, c (policy s) = Ok tt p -> Q tt (mkPipeline (env s) (unwrittenPages s) p (holders s) (log s))) ->
  wp partial (on_policy c) Q s.
Proof. intros HQ. unfold wp, on_policy. destruct (c (policy s)) as [[] p| | | |] eqn:Hc; try done. by apply HQ. Qed.
Lemma wp_emit ev s Q :
  Q tt (mkPipeline (env s) (unwrittenPages s) (policy s) (holders s) (log s ++ [ev])) -> wp partial (emit ev) Q s.
Proof. done. Qed.
Lemma wp_try {A} (c : M state A) hd Q s :
  wp partial c Q s -> (forall x s', c s = Raise x s' -> wp partial (hd x) Q s') -> wp partial (try c hd) Q s.
Proof. unfold wp, try. destruct (c s) eqn:Hc; try done. intros _ Hx. by apply Hx. Qed.

Lemma queue_ok_env i q extra s e p :
  queue_ok i q extra s -> queue_ok i q extra (mkPipeline e (unwrittenPages s) p (holders s) (log s)).
Proof. intros [H1 H2 H3 H4]. split; try done. by eapply pages_ok_frame. Qed.

(** Chunk events are not about pages. *)
Lemma queue_ok_emit i q extra s ev :
  (forall h, about h ev = false) -> queue_ok i q extra s ->
  queue_ok i q extra (mkPipeline (env s) (unwrittenPages s) (policy s) (holders s) (log s ++ [ev])).
Proof.
  intros Hev [H1 H2 H3 H4]. split; try done. eapply pages_ok_frame; [done|done|].
  intros h. simpl. by rewrite page_log_app, page_log_one, Hev, app_nil_r.
Qed.

Lemma new_holder_spec i q s :
  queue_ok i q [] s ->
  wp partial new_holder (fun m s' => queue_ok i q [holder m] s' /\ outputSink m = None) s.
Proof.
  intros Hq. unfold new_holder. apply wp_bind, on_env_spec. intros p e.
  apply wp_bind, wp_get, wp_bind, wp_put, wp_mret. simpl. split; [|done].
  destruct Hq as [H1 [G1 G2 G3 G4 G5] H3 H4]. rewrite app_nil_r in *. split; try done. split; simpl.
  - apply NoDup_app. split; [done|]. split; [|apply NoDup_singleton].
    intros h Hh ->%list_elem_of_singleton. apply G2 in Hh. lia.
  - intros h [Hh| ->%list_elem_of_singleton]%elem_of_app; [apply G2 in Hh; lia|lia].
  - intros h Hh. rewrite page_log_app, page_log_one. simpl. apply elem_of_app in Hh as [Hh| ->%list_elem_of_singleton].
    + rewrite G3 by done. apply G2 in Hh. by rewrite (proj2 (Nat.eqb_neq _ _)) by lia.
    + by rewrite G5, Nat.eqb_refl by done.
  - intros h Hh Hn. rewrite not_elem_of_app, list_elem_of_singleton in Hn. destruct Hn as [Hn Hne].
    rewrite page_log_app, page_log_one. simpl. rewrite (proj2 (Nat.eqb_neq _ _)) by done. rewrite app_nil_r.
    apply G4; [lia|done].
  - intros h Hh. rewrite page_log_app, page_log_one. simpl. rewrite (proj2 (Nat.eqb_neq _ _)) by lia.
    rewrite app_nil_r. apply G5. lia.
Qed.

Lemma StronglySorted_snoc (q : list page) m :
  StronglySorted older q -> (forall x, x ∈ q -> older x m) -> StronglySorted older (q ++ [m]).
Proof.
  induction 1 as [|x q Hs IH Hf]; intros Hm; simpl; [repeat constructor|].
  constructor; [apply IH; intros y Hy; apply Hm; by right|].
  apply Forall_app. split; [done|]. constructor; [apply Hm; by left|constructor].
Qed.

Lemma addPage_spec i q m s :
  0 <= i -> queue_ok i q [holder m] s ->
  wp partial (addPageToIteration m i) (fun _ s' => queue_ok i (q ++ [set_iteration i m]) [] s') s.
Proof.
  intros Hi [H1 H2 H3 H4]. unfold addPageToIteration. apply wp_bind, wp_get, wp_modify. split; simpl.
  - by rewrite H1.
  - rewrite app_nil_r, map_app. by eapply pages_ok_frame.
  - intros x [Hx| ->%list_elem_of_singleton]%elem_of_app; [by apply H3|]. simpl. lia.
  - apply StronglySorted_snoc; [done|]. intros x Hx. unfold older. simpl. by apply H3.
Qed.

(** ** Cleaning up *)

Lemma pages_ok_settle live s s' h l :
  pages_ok (h :: live) s -> holders s' = holders s -> log s' = log s ++ l ->
  settled h (EvNew h :: l) -> (forall ev, ev ∈ l -> forall k, about k ev = true <-> k = h) -> pages_ok live s'.
Proof.
  intros [G1 G2 G3 G4 G5] Hh Hl Hs Hev. apply NoDup_cons in G1 as [G0 G1].
  assert (Hother : forall k, k <> h -> page_log k l = []).
  { intros k Hk. unfold page_log. clear -Hev Hk. induction l as [|ev l IH]; [done|].
    rewrite filter_cons_False; [apply IH; intros ev' Hev'; apply Hev; by right|].
    intros Hab. apply Hk. by apply (Hev ev ltac:(by left)). }
  assert (Hself : page_log h l = l).
  { unfold page_log. clear -Hev. induction l as [|ev l IH]; [done|].
    rewrite filter_cons_True by by apply (Hev ev ltac:(by left)). rewrite IH; [done|].
    intros ev' Hev'. apply Hev. by right. }
  split; [done| | | |]; rewrite ?Hh, ?Hl; intros k Hk; rewrite ?page_log_app.
  - apply G2. by right.
  - assert (k <> h) by (intros ->; done). rewrite Hother by done. rewrite app_nil_r. apply G3. by right.
  - intros Hn. destruct (decide (k = h)) as [->|Hne].
    + rewrite Hself, (G3 h) by by left. exact Hs.
    + rewrite Hother by done. rewrite app_nil_r. apply G4; [done|]. by apply not_elem_of_cons.
  - assert (k <> h) by (intros ->; pose proof (G2 h ltac:(by left)); lia).
    rewrite Hother by done. rewrite app_nil_r. by apply G5.
Qed.

Lemma settle_spec m live s :
  pages_ok (holder m :: live) s ->
  wp partial (settle m) (fun _ s' => pages_ok live s' /\ unwrittenPages s' = unwrittenPages s) s.
Proof.
  intros Hp. set (h := holder m) in *.
  assert (Hev : forall l : list (event TS), (forall ev, ev ∈ l -> ev = EvRemove h \/ ev = EvUnpin h \/ exists b, ev = EvProcess h b) ->
    forall ev, ev ∈ l -> forall k, about k ev = true <-> k = h).
  { intros l Hl ev Hin k. destruct (Hl ev Hin) as [->|[->|[b ->]]]; simpl; apply Nat.eqb_eq. }
  unfold settle. destruct (outputSink m) as [c|]; fold h.
  - apply wp_bind, on_env_spec. intros keep e. apply wp_bind, wp_emit, wp_bind. destruct keep.
    + apply wp_mret, wp_bind, on_env_spec. intros _ e2. apply wp_emit. simpl. split; [|done].
      rewrite <- app_assoc.
      eapply (pages_ok_settle _ _ _ h [EvProcess h true; EvUnpin h]); [exact Hp|done|done|constructor|].
      apply Hev. intros ev [->| ->%list_elem_of_singleton]%elem_of_cons; eauto.
    + apply wp_bind, on_env_spec. intros _ e2. apply wp_bind, on_env_spec. intros _ e3. apply wp_emit.
      apply wp_bind, on_env_spec. intros _ e4. apply wp_emit. simpl. split; [|done].
      rewrite <- !app_assoc.
      eapply (pages_ok_settle _ _ _ h [EvProcess h false; EvRemove h; EvUnpin h]); [exact Hp|done|done|constructor|].
      apply Hev. intros ev [->|[->| ->%list_elem_of_singleton]%elem_of_cons]%elem_of_cons; eauto.
  - apply wp_bind, on_env_spec. intros _ e. apply wp_bind, on_env_spec. intros _ e2. apply wp_emit. simpl.
    split; [|done]. eapply pages_ok_settle; [exact Hp|done|done|constructor|].
    apply Hev. intros ev ->%list_elem_of_singleton. eauto.
Qed.

(** The pages that are two iterations old, or older, are settled. *)
Lemma clean_queue_spec n q extra s :
  unwrittenPages s = q -> pages_ok (map holder q ++ extra) s -> StronglySorted older q ->
  wp partial (clean_queue n q)
    (fun _ s' => unwrittenPages s' = filter (fun m => n <= iteration m + 1) q /\
                 pages_ok (map holder (unwrittenPages s') ++ extra) s') s.
Proof.
  revert s. induction q as [|m q IH]; intros s Hq Hp Hs; simpl.
  { apply wp_mret. by rewrite Hq. }
  inversion Hs as [|? ? Hs' Hall]; subst. destruct (Z.ltb_spec (iteration m + 1) n).
  - apply wp_bind. eapply wp_mono; [apply (settle_spec m (map holder q ++ extra)); exact Hp|]. intros [] s1 [H1 Hq1]. simpl.
    apply wp_bind, wp_modify. eapply wp_mono; [apply IH; [done|by eapply pages_ok_frame|done]|].
    intros [] s2 [H2 H2']. split; [|done]. rewrite filter_cons_False by lia. exact H2.
  - apply wp_mret. split; [|by rewrite Hq]. rewrite Hq, filter_cons_True by lia. f_equal. clear -H0 Hall.
    induction Hall as [|x q Hx Hall IH]; [done|]. rewrite filter_cons_True; [by f_equal|]. unfold older in Hx. lia.
Qed.

(** At the end every page is old enough, in whatever order they come. *)
Lemma clean_all n q s :
  unwrittenPages s = q -> pages_ok (map holder q) s -> (forall m, m ∈ q -> iteration m + 1 < n) ->
  wp partial (clean_queue n q) (fun _ s' => unwrittenPages s' = [] /\ pages_ok [] s') s.
Proof.
  revert s. induction q as [|m q IH]; intros s Hq Hp Hi; simpl; [by apply wp_mret|].
  rewrite (proj2 (Z.ltb_lt _ _)) by (apply Hi; by left).
  apply wp_bind. eapply wp_mono; [apply (settle_spec m (map holder q)); exact Hp|]. intros [] s1 [H1 Hq1]. simpl.
  apply wp_bind, wp_modify. apply IH; [done|by eapply pages_ok_frame|]. intros m' Hm'. apply Hi. by right.
Qed.

Lemma cleanPages_spec n i q extra s :
  queue_ok i q extra s ->
  wp partial (cleanPages n) (fun _ s' => queue_ok i (filter (fun m => n <= iteration m + 1) q) extra s') s.
Proof.
  intros [H1 H2 H3 H4]. unfold cleanPages. apply wp_bind, wp_get. rewrite H1.
  eapply wp_mono; [by apply clean_queue_spec|]. intros [] s' [Hq Hp]. split; [done|by rewrite Hq in Hp| |].
  - intros m [_ Hm]%list_elem_of_filter. by apply H3.
  - clear -H4. induction H4 as [|x q Hs IH Hf]; [constructor|]. rewrite filter_cons. destruct (decide _); [|done].
    constructor; [done|]. apply Forall_forall. intros y [_ Hy]%list_elem_of_filter. by eapply Forall_forall in Hf.
Qed.

(** ** Running a chunk *)

(** What a step that may add pages to the queue leaves behind. *)
Definition grown_queue (i : Z) (m : page) s : Prop := exists q, queue_ok i q [holder m] s.

Lemma next_holder i q m s :
  0 <= i -> queue_ok i q [holder m] s ->
  wp partial (_ <- addPageToIteration m i ;; new_holder) (fun m' s' => grown_queue i m' s' /\ outputSink m' = None) s.
Proof.
  intros Hi Hq. apply wp_bind. eapply wp_mono; [by apply addPage_spec|]. intros [] s1 H1. cbv beta.
  eapply wp_mono; [by eapply new_holder_spec|]. intros m' s2 [H2 Ho]. split; [|done]. by eexists.
Qed.

(** The events that are about chunks, in pairs: a chunk and what became of it. *)
Definition is_chunk (ev : event TS) : bool := match ev with EvChunk _ _ | EvFailed | EvWritten => true | _ => false end.
Definition chunk_log (l : list (event TS)) : list (event TS) := filter (fun ev => is_chunk ev = true) l.
(** Nothing happened to chunks, nor did the policy change. *)
Definition same_chunks s s' : Prop := chunk_log (log s') = chunk_log (log s) /\ policy s' = policy s.

Lemma chunk_log_app l l' : chunk_log (l ++ l') = chunk_log l ++ chunk_log l'.
Proof. apply filter_app. Qed.

Lemma same_chunks_trans s1 s2 s3 : same_chunks s1 s2 -> same_chunks s2 s3 -> same_chunks s1 s3.
Proof. unfold same_chunks. intros [-> ->] [-> ->]. done. Qed.

Lemma wp_conj {A} (c : M state A) (Q Q' : A -> state -> Prop) s :
  wp partial c Q s -> wp partial c Q' s -> wp partial c (fun a s' => Q a s' /\ Q' a s') s.
Proof. unfold wp. by destruct (c s). Qed.

Definition keeps {A} (c : M state A) : Prop := forall s, wp partial c (fun _ s' => same_chunks s s') s.

Lemma keeps_bind {A B} (c : M state A) (k : A -> M state B) : keeps c -> (forall a, keeps (k a)) -> keeps (bind c k).
Proof.
  intros Hc Hk s. apply wp_bind. eapply wp_mono; [apply Hc|]. intros a s1 H1. cbv beta.
  eapply wp_mono; [apply Hk|]. intros b s2 H2. exact (same_chunks_trans _ _ _ H1 H2).
Qed.
Lemma keeps_mret {A} (a : A) : keeps (mret a).
Proof. by intros s. Qed.
Lemma keeps_get : keeps get.
Proof. by intros s. Qed.
Lemma keeps_env {A} (c : M E A) : keeps (on_env c).
Proof. intros s. by apply on_env_spec. Qed.
Lemma keeps_unwritten q : keeps (set_unwritten q).
Proof. by intros s. Qed.
Lemma keeps_emit ev : is_chunk ev = false -> keeps (emit ev).
Proof.
  intros Hev s. apply wp_emit. split; [|done]. simpl. rewrite chunk_log_app. unfold chunk_log at 2.
  rewrite filter_cons_False by congruence. by rewrite app_nil_r.
Qed.
Lemma keeps_new_holder : keeps new_holder.
Proof.
  apply keeps_bind; [apply keeps_env|]. intros p s. apply wp_bind, wp_get, wp_bind, wp_put, wp_mret.
  split; [|done]. simpl. rewrite chunk_log_app. apply app_nil_r.
Qed.
Lemma keeps_addPage m i : keeps (addPageToIteration m i).
Proof. by intros s. Qed.
#[local] Hint Resolve keeps_mret keeps_get keeps_env keeps_unwritten keeps_emit keeps_new_holder keeps_addPage : core.

Lemma keeps_settle m : keeps (settle m).
Proof.
  unfold settle. repeat first [apply keeps_bind; [|intros ?]|case_match|solve [auto]].
Qed.
Lemma keeps_clean_queue n q : keeps (clean_queue n q).
Proof.
  induction q as [|m q IH]; simpl; [auto|]. destruct (_ <? _); [|auto].
  apply keeps_bind; [apply keeps_settle|intros _]. apply keeps_bind; auto.
Qed.
Lemma keeps_cleanPages n : keeps (cleanPages n).
Proof. apply keeps_bind; [auto|]. intros s. apply keeps_clean_queue. Qed.

(** ** Running a chunk *)

(** The outcome of the stages: a chunk for the sink, or a failure, which the
    policy knows about. *)
Definition stage_post (i : Z) s (r : option TS * page * Z) s' : Prop :=
  grown_queue i r.1.2 s' /\
  match r.1.1 with
  | Some _ => same_chunks s s'
  | None => chunk_log (log s') = chunk_log (log s) ++ [EvFailed] /\ succeeded (policy s') = false
  end.

Lemma pipelineFailed_flag p p' : pipelineFailed p = Ok tt p' -> succeeded p' = false.
Proof.
  unfold pipelineFailed, bind, get. destruct (chunkSize p =? 1); [done|]. simpl.
  destruct (lastIncremented p); by intros [= <-].
Qed.
Lemma try_env_spec {A} (c : M E A) (k : A -> option TS * page * Z) hd s Q :
  (forall a e, Q (k a) (mkPipeline e (unwrittenPages s) (policy s) (holders s) (log s))) ->
  (forall e, wp partial (hd NotEnoughSpace) Q (mkPipeline e (unwrittenPages s) (policy s) (holders s) (log s))) ->
  (forall x, x <> NotEnoughSpace -> hd x = throw x) ->
  wp partial (try (a <- on_env c ;; mret (k a)) hd) Q s.
Proof.
  intros Hok Hfull Hx. unfold wp, try, bind, on_env. destruct (c (env s)) as [a e|x e| | |]; simpl; try done.
  destruct x; [by rewrite Hx|apply Hfull|by rewrite Hx..].
Qed.

Lemma apply_stage_spec q ram i used ts s qu :
  0 <= i -> queue_ok i qu [holder ram] s -> wp partial (apply_stage q ram i used ts) (stage_post i s) s.
Proof.
  intros Hi Hq. unfold apply_stage. apply try_env_spec.
  - intros c e. split; [|done]. exists qu. by apply queue_ok_env.
  - intros e. set (s1 := mkPipeline e _ _ _ _).
    assert (H1 : queue_ok i qu [holder ram] s1) by by apply queue_ok_env.
    assert (Hs1 : same_chunks s s1) by done. clearbody s1. cbv beta iota.
    apply wp_assoc. apply wp_bind. eapply wp_mono.
    { apply wp_conj; [by eapply next_holder|]. apply keeps_bind; auto. }
    intros ram' s2 [[[q2 H2] Ho] Hs2]. apply try_env_spec.
    + intros c e2. split; [exists q2; by apply queue_ok_env|]. by eapply same_chunks_trans.
    + intros e2. set (s3 := mkPipeline e2 _ _ _ _). assert (H3 : queue_ok i q2 [holder ram'] s3) by by apply queue_ok_env.
      assert (Hs3 : same_chunks s s3) by by eapply same_chunks_trans. clearbody s3. cbv beta iota.
      apply wp_bind, on_policy_spec. intros p Hp. apply wp_bind, wp_emit. simpl.
      set (s4 := mkPipeline _ _ _ _ _). assert (H4 : queue_ok i q2 [holder ram'] s4).
      { apply (queue_ok_emit i q2 [holder ram'] (mkPipeline (env s3) (unwrittenPages s3) p (holders s3) (log s3)) EvFailed);
          [done|by apply queue_ok_env]. }
      apply wp_assoc, wp_bind. eapply wp_mono.
      { apply wp_conj; [by eapply next_holder|]. apply keeps_bind; auto. }
      intros ram'' s5 [[[q5 H5] _] [Hl5 Hp5]]. apply wp_mret. split; [by exists q5|]. simpl.
      rewrite Hl5, Hp5. simpl. rewrite chunk_log_app. destruct Hs3 as [-> _]. split; [done|]. by eapply pipelineFailed_flag.
    + by intros [].
  - by intros [].
Qed.

Lemma apply_stages_spec qs ram i used ts s qu :
  0 <= i -> queue_ok i qu [holder ram] s -> wp partial (apply_stages qs ram i used ts) (stage_post i s) s.
Proof.
  intros Hi. revert ram used ts s qu. induction qs as [|q qs IH]; intros ram used ts s qu Hq; simpl.
  - apply wp_mret. split; [by exists qu|done].
  - apply wp_bind. eapply wp_mono; [by eapply apply_stage_spec|]. intros [[[c|] ram'] used'] s1 [[q1 H1] Hs].
    + simpl in *. eapply wp_mono; [by eapply IH|]. intros [[[c'|] ram''] used''] s2 [Hq2 Hs2]; (split; [done|]); simpl in *.
      * by eapply same_chunks_trans.
      * by destruct Hs as [<- _].
    + apply wp_mret. split; [by exists q1|done].
Qed.

Lemma wp_try_full {A} (c : M state A) hd Q s :
  wp partial c Q s -> (forall s', c s = Raise NotEnoughSpace s' -> wp partial (hd NotEnoughSpace) Q s') ->
  (forall x, x <> NotEnoughSpace -> hd x = throw x) -> wp partial (try c hd) Q s.
Proof.
  intros Hc Hf Hx. apply wp_try; [done|]. intros x s' Ex. destruct x; [by rewrite Hx|by apply Hf|by rewrite Hx..].
Qed.

Lemma write_to_frame c ram s s' : write_to c ram s = Raise NotEnoughSpace s' ->
  exists e, s' = mkPipeline e (unwrittenPages s) (policy s) (holders s) (log s).
Proof.
  unfold write_to, bind, unwrap. destruct (outputSink ram) as [k|]; [|done]. unfold on_env. simpl.
  destruct (writeOut c k (env s)); simplify_eq/=; try done. intros [= ->]. by eexists.
Qed.

Lemma write_chunk_spec c ram i s qu :
  0 <= i -> queue_ok i qu [holder ram] s ->
  wp partial (write_chunk c ram i) (fun m s' => grown_queue i m s' /\ same_chunks s s') s.
Proof.
  intros Hi Hq. unfold write_chunk. apply wp_bind.
  set (held := fun (r : page + page) s' => (exists e, s' = mkPipeline e (unwrittenPages s) (policy s) (holders s) (log s)) /\
    holder (match r with inl m | inr m => m end) = holder ram).
  eapply (wp_mono _ _ held).
  { apply wp_try_full; [| |by intros []].
    - unfold ensure_sink. apply wp_bind. destruct (outputSink ram).
      + apply wp_mret, wp_mret. split; [exists (env s); by destruct s|done].
      + apply wp_bind, on_env_spec. intros k e. apply wp_mret, wp_mret. split; [by exists e|done].
    - intros s' Hs'. apply wp_mret. unfold ensure_sink in Hs'. destruct (outputSink ram); [done|].
      revert Hs'. unfold bind, on_env. destruct (newOutputContainer (env s)); try done. intros [= -> <-]. split; [by eexists|done]. }
  intros r s1 [[e1 ->] Hr]. apply wp_bind.
  eapply (wp_mono _ _ held).
  { destruct r as [m|m]; [|apply wp_mret; split; [by eexists|done]].
    apply wp_try_full; [| |by intros []].
    - unfold write_to. apply wp_bind, wp_bind, wp_unwrap; [done|]. intros k _. apply on_env_spec. intros [] e.
      apply wp_mret. split; [by eexists|done].
    - intros s' Hs'. apply wp_mret. unfold bind in Hs'. destruct (write_to c m _) eqn:Ew; try done.
      injection Hs' as -> ->. apply write_to_frame in Ew as [e ->]. split; [by exists e|done]. }
  clear r Hr e1. intros r s2 [[e2 ->] Hr].
  assert (H2 : queue_ok i qu [holder ram] (mkPipeline e2 (unwrittenPages s) (policy s) (holders s) (log s))) by by apply queue_ok_env.
  destruct r as [m|m]; simpl in Hr.
  { apply wp_mret. split; [|done]. exists qu. by rewrite Hr. }
  rewrite <- Hr in H2. apply wp_assoc, wp_bind. eapply wp_mono.
  { apply wp_conj; [by eapply next_holder|]. apply keeps_bind; auto. }
  intros ram' s3 [[[q3 H3] _] Hs3]. apply wp_bind, on_env_spec. intros k e3. cbv zeta.
  apply wp_bind. unfold write_to. simpl. apply wp_bind, wp_mret, on_env_spec. intros [] e4. apply wp_mret.
  split; [exists q3; by apply queue_ok_env, queue_ok_env|]. done.
Qed.

(** What became of a chunk. *)
Definition chunk_post (i : Z) s (m : page) s' : Prop :=
  grown_queue i m s' /\
  ((chunk_log (log s') = chunk_log (log s) ++ [EvFailed] /\ succeeded (policy s') = false) \/
   (chunk_log (log s') = chunk_log (log s) ++ [EvWritten] /\ succeeded (policy s') = true)).

Lemma run_chunk_spec c ram i s qu :
  0 <= i -> queue_ok i qu [holder ram] s -> wp partial (run_chunk c ram i) (chunk_post i s) s.
Proof.
  intros Hi Hq. unfold run_chunk. apply wp_bind, on_env_spec. intros free e.
  set (s1 := mkPipeline e _ _ _ _). assert (H1 : queue_ok i qu [holder ram] s1) by by apply queue_ok_env.
  assert (Hs1 : same_chunks s s1) by done. clearbody s1. apply wp_bind. eapply wp_mono; [by eapply apply_stages_spec|].
  intros [[[c'|] ram'] used] s2 [[q2 H2] Hs2]; simpl in *.
  - apply wp_bind, on_env_spec. intros free' e2. apply wp_bind, on_policy_spec. intros p Hp. simpl in *.
    set (s3 := mkPipeline e2 _ p _ _). assert (H3 : queue_ok i q2 [holder ram'] s3) by by apply queue_ok_env.
    apply wp_bind. eapply wp_mono; [by eapply write_chunk_spec|]. intros ram'' s4 [[q4 H4] [Hl4 Hp4]].
    apply wp_bind, on_env_spec. intros free'' e4. apply wp_bind, on_policy_spec. intros p' Hp'. simpl in Hp'.
    apply wp_bind, wp_emit, wp_mret. simpl. split.
    + exists q4. apply (queue_ok_emit i q4 [holder ram''] (mkPipeline e4 (unwrittenPages s4) p' (holders s4) (log s4)) EvWritten);
        [done|by apply queue_ok_env].
    + right. simpl. rewrite chunk_log_app, Hl4. simpl. destruct Hs2 as [-> _], Hs1 as [-> _]. split; [done|].
      rewrite (writeToPageSucceeded_flag _ _ _ _ _ Hp'), Hp4. simpl. by injection Hp as <-.
  - apply wp_mret. split; [by exists q2|]. left. destruct Hs1 as [<- _]. exact Hs2.
Qed.

(** ** The whole run *)

(** Every chunk is either written to the sink or reported as failed, before the
    source is asked again, and the source is told which. *)
Fixpoint protocol (ok : bool) (l : list (event TS)) : Prop :=
  match l with
  | [] => True
  | EvChunk _ b :: EvFailed :: l' => b = ok /\ protocol false l'
  | EvChunk _ b :: EvWritten :: l' => b = ok /\ protocol true l'
  | _ => False
  end.
Definition last_flag (ok : bool) (l : list (event TS)) : bool :=
  foldl (fun b ev => match ev with EvFailed => false | EvWritten => true | _ => b end) ok l.

Lemma protocol_snoc l : forall ok ts r,
  protocol ok l -> r = EvFailed \/ r = EvWritten -> protocol ok (l ++ [EvChunk ts (last_flag ok l); r]).
Proof.
  enough (G : forall n l ok ts r, (length l <= n)%nat -> protocol ok l -> r = EvFailed \/ r = EvWritten ->
    protocol ok (l ++ [EvChunk ts (last_flag ok l); r])) by (intros; by eapply G).
  clear l. induction n as [|n IH]; intros l ok ts r Hl Hp Hr.
  { destruct l; [|simpl in Hl; lia]. by destruct Hr as [-> | ->]. }
  destruct l as [|ev l]; [by destruct Hr as [-> | ->]|]. destruct ev; try done. simpl in *.
  destruct l as [|ev l]; [done|]. destruct ev; try done; destruct Hp as [-> Hp]; (split; [done|]);
    apply (IH l); [simpl in *; lia|done|done|simpl in *; lia|done|done].
Qed.

(** Between two chunks. *)
Definition between (i : Z) (ram : page) s : Prop :=
  grown_queue i ram s /\ protocol true (chunk_log (log s)) /\ succeeded (policy s) = last_flag true (chunk_log (log s)).

Lemma queue_ok_later i j q extra s : i <= j -> queue_ok i q extra s -> queue_ok j q extra s.
Proof. intros Hij [H1 H2 H3 H4]. split; try done. intros m Hm. apply H3 in Hm. lia. Qed.

Lemma run_loop_spec fuel : forall ram i s,
  0 <= i -> i + Z.of_nat fuel < 2 ^ 31 - 1 -> between i ram s ->
  wp partial (run_loop fuel ram i) (fun r s' => i <= r.2 <= i + Z.of_nat fuel /\ between r.2 r.1 s') s.
Proof.
  induction fuel as [|fuel IH]; intros ram i s Hi Hb ((q & Hq) & Hp & Hf); [done|]. simpl.
  apply wp_bind, wp_get, wp_bind, on_env_spec. intros [c|] e.
  2:{ apply wp_mret. simpl. split; [lia|]. split; [exists q; by apply queue_ok_env|done]. }
  apply wp_bind, wp_emit. simpl. set (s1 := mkPipeline _ _ _ _ _).
  assert (H1 : queue_ok i q [holder ram] s1).
  { apply (queue_ok_emit i q [holder ram] (mkPipeline e (unwrittenPages s) (policy s) (holders s) (log s)));
      [done|by apply queue_ok_env]. }
  apply wp_bind. eapply wp_mono; [by eapply run_chunk_spec|]. intros ram' s2 [[q2 H2] Hs2].
  apply wp_bind. eapply wp_mono; [apply wp_conj; [by eapply cleanPages_spec|apply keeps_cleanPages]|].
  intros [] s3 [H3 [Hl3 Hp3]]. rewrite i32_small in * by lia. cbv beta.
  eapply wp_mono; [apply IH; [lia|lia|]|].
  - split; [eexists; eapply queue_ok_later; [|exact H3]; lia|].
    rewrite Hl3, Hp3. unfold s1 in Hs2. simpl in Hs2. rewrite chunk_log_app in Hs2.
    change (chunk_log [EvChunk c (inputWasProcessed (policy s))]) with [EvChunk c (inputWasProcessed (policy s))] in Hs2.
    unfold inputWasProcessed in Hs2. rewrite Hf, <- !app_assoc in Hs2.
    destruct Hs2 as [[-> ->]|[-> ->]]; (split; [apply protocol_snoc; [done|auto]|]);
      unfold last_flag; by rewrite foldl_app.
  - intros r s4 [Hr H4]. split; [lia|done].
Qed.

(** C8: when a pipeline's run ends, whatever its parts did, every page it took
    was dealt with exactly once, in order: removed if it never got an output
    container, and otherwise processed and then kept or removed, and unpinned;
    and every chunk the source handed out was either written to the sink or
    reported to the source as not processed at the very next call. *)
Theorem pipeline_settles_pages_and_chunks fuel e n s :
  Z.of_nat fuel < 2 ^ 31 - 2 -> run fuel (Pipeline_new e n) = Ok tt s ->
  unwrittenPages s = [] /\ (forall h, (h < holders s)%nat -> settled h (page_log h (log s))) /\
  protocol true (chunk_log (log s)).
Proof.
  intros Hfuel Hrun.
  assert (H0 : queue_ok 0 [] [] (Pipeline_new e n)).
  { split; try done; [|by intros m Hm%elem_of_nil|constructor].
    split; simpl; [apply NoDup_nil_2|by intros h Hh%elem_of_nil|by intros h Hh%elem_of_nil|intros h Hh; lia|done]. }
  assert (W : wp partial (run fuel) (fun _ s => unwrittenPages s = [] /\
    (forall h, (h < holders s)%nat -> settled h (page_log h (log s))) /\ protocol true (chunk_log (log s))) (Pipeline_new e n)).
  { unfold run. apply wp_bind. eapply wp_mono; [apply wp_conj; [by apply new_holder_spec|apply keeps_new_holder]|].
    intros ram s1 [[H1 _] [Hl1 Hp1]]. apply wp_bind. eapply wp_mono; [apply run_loop_spec; [done|lia|]|].
    { split; [by exists []|]. rewrite Hl1, Hp1. done. }
    intros [ram' i] s2 [Hi ((q & H2) & Hc & _)]. simpl in *. apply wp_bind.
    eapply wp_mono; [apply wp_conj; [apply (addPage_spec i q); [lia|done]|apply keeps_addPage]|]. intros [] s3 [[G1 G2 G3 G4] [Hl3 _]].
    unfold cleanPipeline. apply wp_bind, wp_get, wp_bind, wp_modify. set (q' := rev (unwrittenPages s3)).
    set (s4 := mkPipeline _ _ _ _ _). unfold cleanPages. apply wp_bind, wp_get. simpl.
    assert (Hq' : forall m, m ∈ q' -> iteration m <= i).
    { intros m Hm. unfold q' in Hm. rewrite <- Permutation_rev, G1 in Hm. apply G3 in Hm. lia. }
    eapply wp_mono; [apply wp_conj; [|apply keeps_clean_queue]|].
    - apply (clean_all (2 ^ 31 - 1) q' s4); [done| |].
      + eapply (pages_ok_perm (map holder (q ++ [set_iteration i ram']) ++ [])); [|by apply (pages_ok_frame _ s3)].
        rewrite app_nil_r. unfold q'. rewrite G1. apply fmap_Permutation, Permutation_rev.
      + intros m Hm. apply Hq' in Hm. lia.
    - intros [] s5 [[Hu Hp5] [Hl5 _]]. split; [done|]. split.
      + intros h Hh. apply (pg_settled _ _ Hp5); [done|by apply not_elem_of_nil].
      + rewrite Hl5. unfold s4. simpl. by rewrite Hl3. }
  unfold wp in W. by rewrite Hrun in W.
Qed.

(** ** The log only grows *)

Definition logs {A} (c : M state A) : Prop := forall s,
  match c s with Ok _ s' | Raise _ s' | Exit s' => log s `prefix_of` log s' | _ => True end.

Lemma logs_bind {A B} (c : M state A) (k : A -> M state B) : logs c -> (forall a, logs (k a)) -> logs (bind c k).
Proof.
  intros Hc Hk s. specialize (Hc s). unfold bind. destruct (c s) as [a s1|x s1|s1| |]; try done.
  specialize (Hk a s1). destruct (k a s1); try done; by etrans.
Qed.
Lemma logs_try {A} (c : M state A) hd : logs c -> (forall x, logs (hd x)) -> logs (try c hd).
Proof.
  intros Hc Hk s. specialize (Hc s). unfold try. destruct (c s) as [a s1|x s1|s1| |]; try done.
  specialize (Hk x s1). destruct (hd x s1); try done; by etrans.
Qed.
Lemma logs_mret {A} (a : A) : logs (mret a).
Proof. intros s. simpl. reflexivity. Qed.
Lemma logs_throw {A} x : logs (@throw state A x).
Proof. intros s. simpl. reflexivity. Qed.
Lemma logs_unwrap {A} f (o : option A) : logs (unwrap f o).
Proof. intros s. destruct o; [simpl; reflexivity|done]. Qed.
Lemma logs_get : logs get.
Proof. intros s. simpl. reflexivity. Qed.
Lemma logs_emit ev : logs (emit ev).
Proof. intros s. by eexists. Qed.
Lemma logs_unwritten q : logs (set_unwritten q).
Proof. intros s. simpl. reflexivity. Qed.
Lemma logs_env {A} (c : M E A) : logs (on_env c).
Proof. intros s. unfold on_env. destruct (c (env s)); try done; simpl; reflexivity. Qed.
Lemma logs_policy c : logs (on_policy c).
Proof. intros s. unfold on_policy. destruct (c (policy s)); try done; simpl; reflexivity. Qed.
Lemma logs_new_holder : logs new_holder.
Proof. apply logs_bind; [apply logs_env|]. intros p s. unfold bind, get, put. by eexists. Qed.
Lemma logs_addPage m i : logs (addPageToIteration m i).
Proof. intros s. simpl. reflexivity. Qed.
#[local] Hint Resolve logs_mret logs_throw logs_unwrap logs_get logs_emit logs_unwritten logs_env logs_policy logs_new_holder
  logs_addPage : core.
Ltac logs := repeat first [solve [auto]|progress cbv zeta|apply logs_bind; [|intros ?]|apply logs_try; [|intros ?]|case_match].

Lemma logs_settle m : logs (settle m).
Proof. unfold settle. logs. Qed.
#[local] Hint Resolve logs_settle : core.
Lemma logs_cleanPages i : logs (cleanPages i).
Proof.
  apply logs_bind; [auto|]. intros s. generalize (unwrittenPages s) as q. intros q. induction q as [|m q IH]; simpl; logs.
Qed.
Lemma logs_run_chunk c ram i : logs (run_chunk c ram i).
Proof.
  assert (Hs : forall qs ram used c, logs (apply_stages qs ram i used c)).
  { induction qs as [|q qs IH]; intros ram' used c'; simpl; [auto|]. unfold apply_stage. logs. }
  unfold run_chunk, write_chunk, ensure_sink, write_to. logs.
Qed.

Lemma logs_wp {A} (c : M state A) ev s :
  logs c -> ev ∈ log s -> wp partial c (fun _ s' => ev ∈ log s') s.
Proof. intros Hc Hev. specialize (Hc s). unfold wp. destruct (c s); try done. by eapply elem_of_prefix. Qed.
End spec.
