(* ===== verification/PipelineTermination.v ===== *)
(** A pipeline over a finite source ends. *)

From stdpp Require Import list.
From S2P Require Import Prelude Allocation SizePolicy Sources Pipeline.

Open Scope Z_scope.

(** What the argument needs of the parts.  [todo e ok] bounds the work the
    source has left when the last chunk was ([ok]) or was not processed: handing
    out a chunk makes it smaller if the chunk is going to be processed and no
    larger if it is not, and nothing else makes it larger.  [fs_ok] is what has
    to hold of the environment for this.  No part runs forever. *)
Definition no_more_work {E} (ok : E -> Prop) (todo : E -> bool -> nat) (e e' : E) : Prop :=
  ok e -> ok e' /\ forall b, (todo e' b <= todo e b)%nat.
Definition never_grows {E A} (ok : E -> Prop) (todo : E -> bool -> nat) (c : M E A) : Prop := forall e,
  match c e with
  | Ok _ e' | Raise _ e' | Exit e' => no_more_work ok todo e e'
  | Fault _ => True
  | NoFuel => False
  end.

Class FiniteSource (E TS C P : Type) `{PipelineParts E TS C P} := {
  fs_ok : E -> Prop;
  todo : E -> bool -> nat;
  fs_source p e : 1 <= getChunksSize p -> fs_ok e ->
    match getNextTupleSet p e with
    | Ok (Some _) e' => fs_ok e' /\ (todo e' true < todo e (inputWasProcessed p))%nat /\
                        (todo e' false <= todo e (inputWasProcessed p))%nat
    | NoFuel => False
    | _ => True
    end;
  fs_stages : Forall (fun q => forall ts, never_grows fs_ok todo (q ts)) stages;
  fs_container : never_grows fs_ok todo newOutputContainer;
  fs_write ts c : never_grows fs_ok todo (writeOut ts c);
  fs_process p c : never_grows fs_ok todo (processPage p c);
  fs_free : never_grows fs_ok todo getFreeBytesAtTheEnd;
  fs_page : never_grows fs_ok todo getNewPage;
  fs_remove p : never_grows fs_ok todo (removePage p);
  fs_unpin p : never_grows fs_ok todo (unpinPage p);
  fs_empty p : never_grows fs_ok todo (emptyPage p);
  fs_empty_container c : never_grows fs_ok todo (emptyContainer c)
}.

Section termination.
Context {E TS C P : Type} `{FiniteSource E TS C P} (n : Z) (Hn : 0 < n).
Abbreviation state := (pl_state E TS C P).
Implicit Types s : state.

(** Every outcome but running out of fuel. *)
Definition ends : failure -> Prop := fun x => x <> FNoFuel.

(** The work of the environment does not grow and the policy does not change. *)
Definition work_kept s s' : Prop := policy s' = policy s /\ no_more_work fs_ok todo (env s) (env s').
Definition quiet {A} (c : M state A) : Prop := forall s,
  match c s with
  | Ok _ s' | Raise _ s' | Exit s' => work_kept s s'
  | Fault _ => True
  | NoFuel => False
  end.

Lemma no_more_work_trans (e1 e2 e3 : E) :
  no_more_work fs_ok todo e1 e2 -> no_more_work fs_ok todo e2 e3 -> no_more_work fs_ok todo e1 e3.
Proof.
  intros H1 H2 Hok. destruct (H1 Hok) as [Hok2 G1]. destruct (H2 Hok2) as [Hok3 G2]. split; [done|].
  intros b. specialize (G1 b). specialize (G2 b). lia.
Qed.
Lemma work_kept_trans s1 s2 s3 : work_kept s1 s2 -> work_kept s2 s3 -> work_kept s1 s3.
Proof. intros [E1 H1] [E2 H2]. split; [congruence|]. by eapply no_more_work_trans. Qed.
Lemma work_kept_refl s : work_kept s s.
Proof. by split. Qed.
#[local] Hint Resolve work_kept_refl : core.

Lemma quiet_bind {A B} (c : M state A) (k : A -> M state B) : quiet c -> (forall a, quiet (k a)) -> quiet (bind c k).
Proof.
  intros Hc Hk s. specialize (Hc s). unfold bind. destruct (c s) as [a s1|x s1|s1| |]; try done.
  specialize (Hk a s1). destruct (k a s1); try done; by eapply work_kept_trans.
Qed.
Lemma quiet_try {A} (c : M state A) hd : quiet c -> (forall x, quiet (hd x)) -> quiet (try c hd).
Proof.
  intros Hc Hk s. specialize (Hc s). unfold try. destruct (c s) as [a s1|x s1|s1| |]; try done.
  specialize (Hk x s1). destruct (hd x s1); try done; by eapply work_kept_trans.
Qed.
Lemma quiet_mret {A} (a : A) : quiet (mret a).
Proof. by intros s. Qed.
Lemma quiet_throw {A} x : quiet (@throw state A x).
Proof. by intros s. Qed.
Lemma quiet_unwrap {A} f (o : option A) : quiet (unwrap f o).
Proof. intros s. by destruct o. Qed.
Lemma quiet_get : quiet get.
Proof. by intros s. Qed.
Lemma quiet_emit ev : quiet (emit ev).
Proof. by intros s. Qed.
Lemma quiet_unwritten q : quiet (set_unwritten q).
Proof. by intros s. Qed.
Lemma quiet_env {A} (c : M E A) : never_grows fs_ok todo c -> quiet (on_env c).
Proof. intros Hc s. specialize (Hc (env s)). unfold on_env. by destruct (c (env s)). Qed.
Lemma quiet_new_holder : quiet new_holder.
Proof.
  apply quiet_bind; [apply quiet_env, fs_page|]. intros p s. unfold bind, get, put. done.
Qed.
Lemma quiet_addPage m i : quiet (addPageToIteration m i).
Proof. by intros s. Qed.
#[local] Hint Resolve quiet_mret quiet_throw quiet_unwrap quiet_get quiet_emit quiet_unwritten quiet_env quiet_new_holder
  quiet_addPage fs_container fs_write fs_process fs_free fs_page fs_remove fs_unpin fs_empty fs_empty_container : core.

Ltac quiet := repeat first [solve [auto]|progress cbv zeta|apply quiet_bind; [|intros ?]|apply quiet_try; [|intros ?]|case_match].

Lemma quiet_settle m : quiet (settle m).
Proof. unfold settle. quiet. Qed.
#[local] Hint Resolve quiet_settle : core.
Lemma quiet_clean_queue i q : quiet (clean_queue i q).
Proof. induction q as [|m q IH]; simpl; quiet. Qed.
Lemma quiet_cleanPages i : quiet (cleanPages i).
Proof. apply quiet_bind; [auto|]. intros s. apply quiet_clean_queue. Qed.
Lemma quiet_cleanPipeline : quiet cleanPipeline.
Proof. apply quiet_bind; [auto|]. intros s. apply quiet_bind; [auto|]. intros _. apply quiet_cleanPages. Qed.
Lemma quiet_write_chunk c ram i : quiet (write_chunk c ram i).
Proof. unfold write_chunk, ensure_sink, write_to. quiet. Qed.

(** ** One chunk *)

(** What is left to do in a state between two chunks. *)
Definition work s : Z := 101 * Z.of_nat (todo (env s) (succeeded (policy s))) + chunkSize (policy s).

(** The outcome of the stages: the policy is as it was, or it is the policy
    after a failure. *)
Definition stages_post s (r : option TS * MemoryHolder C P * Z) s' : Prop :=
  no_more_work fs_ok todo (env s) (env s') /\
  match r.1.1 with
  | Some _ => policy s' = policy s
  | None => pipelineFailed (policy s) = Ok tt (policy s')
  end.

Lemma wp_quiet {A} (c : M state A) s Q :
  quiet c -> (forall a s', work_kept s s' -> Q a s') -> wp ends c Q s.
Proof. intros Hc HQ. specialize (Hc s). unfold wp. destruct (c s); try done; by apply HQ. Qed.

Lemma apply_stage_ends q ram i used ts s :
  (forall ts, never_grows fs_ok todo (q ts)) -> wp ends (apply_stage q ram i used ts) (stages_post s) s.
Proof.
  intros Hq. unfold apply_stage, wp, try, bind at 1. pose proof (quiet_env (q ts) (Hq ts) s) as H1.
  destruct (on_env (q ts) s) as [c s1|x s1|s1| |] eqn:E1; simpl; try (by unfold ends).
  { split; [apply H1|apply H1]. }
  destruct x; try (by unfold ends). change (wp ends (_ <- addPageToIteration ram i ;; ram' <- new_holder ;;
    try (c <- on_env (q ts) ;; mret (Some c, ram', u64 (used + 1)))
      (fun x => match x with
        | NotEnoughSpace => _ <- on_policy pipelineFailed ;; _ <- emit EvFailed ;; _ <- addPageToIteration ram' i ;;
            ram'' <- new_holder ;; mret (None, ram'', u64 (used + 1))
        | _ => throw x end)) (stages_post s) s1).
  apply wp_bind, wp_quiet; [auto|]. intros _ s2 H2. apply wp_bind, wp_quiet; [auto|]. intros ram' s3 H3.
  assert (G3 : work_kept s s3) by (by eapply work_kept_trans, work_kept_trans). clear dependent s1. clear dependent s2.
  unfold wp, try, bind at 1. pose proof (quiet_env (q ts) (Hq ts) s3) as H4.
  destruct (on_env (q ts) s3) as [c s4|x s4|s4| |]; simpl; try (by unfold ends).
  { assert (G4 : work_kept s s4) by (by eapply work_kept_trans). split; apply G4. }
  destruct x; try (by unfold ends). assert (G4 : work_kept s s4) by (by eapply work_kept_trans). clear dependent s3.
  unfold bind at 1, on_policy. destruct G4 as [Gp Gt]. rewrite Gp.
  assert (Hnf : pipelineFailed (policy s) <> NoFuel).
  { unfold pipelineFailed, bind, get. destruct (chunkSize (policy s) =? 1); [done|]. simpl. by destruct (lastIncremented _). }
  destruct (pipelineFailed (policy s)) as [[] p| | | |] eqn:Ep; try (by unfold ends).
  change (wp ends (_ <- emit EvFailed ;; _ <- addPageToIteration ram' i ;;
            ram'' <- new_holder ;; mret (@None TS, ram'', u64 (used + 1))) (stages_post s)
    (mkPipeline (env s4) (unwrittenPages s4) p (holders s4) (log s4))).
  apply wp_bind, wp_quiet; [auto|]. intros _ s5 [Ep5 H5]. apply wp_bind, wp_quiet; [auto|]. intros _ s6 [Ep6 H6].
  apply wp_bind, wp_quiet; [auto|]. intros ram'' s7 [Ep7 H7]. apply wp_mret. split.
  - eapply no_more_work_trans; [exact Gt|]. eapply no_more_work_trans; [exact H5|].
    eapply no_more_work_trans; [exact H6|exact H7].
  - simpl. by rewrite Ep7, Ep6, Ep5.
Qed.

Lemma apply_stages_ends qs ram i used ts s :
  Forall (fun q => forall ts, never_grows fs_ok todo (q ts)) qs -> wp ends (apply_stages qs ram i used ts) (stages_post s) s.
Proof.
  intros Hqs. revert ram used ts s. induction Hqs as [|q qs Hq Hqs IH]; intros ram used ts s; simpl.
  { apply wp_mret. by split. }
  apply wp_bind. eapply wp_mono; [by apply apply_stage_ends|]. intros [[[c|] ram'] used'] s1 [H1 Hp]; [|by apply wp_mret].
  eapply wp_mono; [apply IH|]. intros r s2 [H2 Hp2]. split.
  - by eapply no_more_work_trans.
  - simpl in Hp. by rewrite Hp in Hp2.
Qed.

Lemma run_chunk_ends c ram i s :
  policy_ok n (policy s) ->
  wp ends (run_chunk c ram i)
    (fun _ s' => policy_ok n (policy s') /\ no_more_work fs_ok todo (env s) (env s') /\
       (succeeded (policy s') = true \/ (succeeded (policy s') = false /\ chunkSize (policy s') < chunkSize (policy s)))) s.
Proof.
  intros Hp. unfold run_chunk. apply wp_bind, wp_quiet; [auto|]. intros free s1 [E1 H1].
  apply wp_bind. eapply wp_mono; [apply apply_stages_ends, fs_stages|]. intros [[[c'|] ram'] used] s2 [H2 Hp2]; simpl in Hp2.
  - apply wp_bind, wp_quiet; [auto|]. intros free' s3 [E3 H3]. apply wp_bind. unfold wp at 1, on_policy, pipelineSucceeded, set_pipeline_stats, modify.
    set (s4 := mkPipeline _ _ _ _ _). apply wp_bind, wp_quiet; [apply quiet_write_chunk|]. intros ram'' s5 [E5 H5].
    apply wp_bind, wp_quiet; [auto|]. intros free'' s6 [E6 H6]. apply wp_bind. unfold wp at 1, on_policy.
    assert (H4 : policy_ok n (policy s6) /\ succeeded (policy s6) = true).
    { rewrite E6, E5. unfold s4. simpl. split; [|done]. rewrite E3, Hp2, E1. destruct Hp. by split. }
    destruct (writeToPageSucceeded_ok n 0 free' free'' (policy s6) Hn (proj1 H4)) as (p' & Ep & Hok & Hf & _). rewrite Ep.
    apply wp_bind, wp_quiet; [auto|]. intros _ s7 [E7 H7]. apply wp_mret. rewrite E7. simpl. split; [done|]. split.
    + eapply no_more_work_trans; [exact H1|]. eapply no_more_work_trans; [exact H2|].
      eapply no_more_work_trans; [exact H3|]. eapply no_more_work_trans; [exact H5|].
      eapply no_more_work_trans; [exact H6|exact H7].
    + left. rewrite Hf. apply H4.
  - apply wp_mret. pose proof (pipelineFailed_spec n (policy s1)) as Hf. rewrite E1 in *. specialize (Hf Hp). unfold wpx in Hf.
    rewrite Hp2 in Hf. destruct Hf as (Hok & Hlt & Hs). split; [done|]. split.
    + by eapply no_more_work_trans.
    + right. by split.
Qed.

Lemma run_loop_ends fuel : forall ram i s,
  policy_ok n (policy s) -> fs_ok (env s) -> work s < Z.of_nat fuel ->
  wp ends (run_loop fuel ram i) (fun _ _ => True) s.
Proof.
  induction fuel as [|fuel IH]; intros ram i s Hp Hok Hw.
  { exfalso. unfold work in Hw. pose proof (po_chunk _ _ Hp). lia. }
  simpl. apply wp_bind, wp_get, wp_bind. unfold wp at 1, on_env.
  pose proof (fs_source (policy s) (env s)) as Hs. destruct (getNextTupleSet (policy s) (env s)) as [[c|] e|x e|e| |]; try (by unfold ends).
  2:{ by specialize (Hs (proj1 (po_chunk _ _ Hp)) Hok). }
  destruct Hs as (Hok' & Ht & Hf); [apply Hp|done|]. unfold inputWasProcessed in *.
  apply wp_bind, wp_quiet; [auto|]. intros _ s1 [E1 H1]. simpl in E1, H1.
  apply wp_bind. eapply wp_mono; [apply run_chunk_ends; by rewrite E1|]. intros ram' s2 (Hp2 & H2 & Hc).
  apply wp_bind, wp_quiet; [apply quiet_cleanPages|]. intros _ s3 [E3 H3].
  destruct (H1 Hok') as [Hok1 G1]. destruct (H2 Hok1) as [Hok2 G2]. destruct (H3 Hok2) as [Hok3 G3].
  apply IH; [by rewrite E3|done|]. unfold work in *. rewrite E3.
  pose proof (po_chunk _ _ Hp). pose proof (po_chunk _ _ Hp2).
  destruct Hc as [-> |[-> Hc]].
  - specialize (G1 true). specialize (G2 true). specialize (G3 true). simpl in G1. lia.
  - specialize (G1 false). specialize (G2 false). specialize (G3 false). simpl in G1. rewrite E1 in Hc. lia.
Qed.

Lemma pipeline_runs_out fuel e :
  fs_ok e -> 101 * Z.of_nat (todo e true) + 50 < Z.of_nat fuel -> run fuel (Pipeline_new e n) <> NoFuel.
Proof.
  intros Hok Hf Hrun. assert (W : wp ends (run fuel) (fun _ _ => True) (Pipeline_new e n)).
  { unfold run. apply wp_bind, wp_quiet; [auto|]. intros ram s1 [E1 H1]. apply wp_bind.
    eapply wp_mono; [apply run_loop_ends|].
    - rewrite E1. apply policy_new_ok.
    - by apply H1.
    - unfold work. rewrite E1. simpl. destruct (H1 Hok) as [_ G1]. specialize (G1 true). simpl in G1. lia.
    - intros r s2 _. apply wp_bind, wp_quiet; [auto|]. intros _ s3 _. apply wp_quiet; [apply quiet_cleanPipeline|done]. }
  unfold wp in W. rewrite Hrun in W. by apply W.
Qed.

(** C27: a pipeline over a finite source ends, by itself or by throwing: its
    loop goes round at most a hundred and one times for every unit of work the
    source has, because a chunk that is processed uses some up and one that is
    not makes the next chunk smaller. *)
Theorem pipeline_ends fuel e :
  fs_ok e -> 101 * Z.of_nat (todo e true) + 50 < Z.of_nat fuel -> run fuel (Pipeline_new e n) <> NoFuel.
Proof. apply pipeline_runs_out. Qed.
End termination.
