(* ===== verification/SetPipeline.v ===== *)
(** A pipeline put together from the parts modelled here: the rows of a set,
    read from its pages by a VectorTupleSetIterator, pushed through executors
    that compute one new row from each, and written by a VectorSink.  It ends,
    and if no chunk failed the vectors on its output pages have exactly the
    computed rows. *)

From stdpp Require Import list.
From S2P Require Import Prelude Allocation SinkState TupleSet TupleSetSpec SizePolicy Sources PDBVector AggSinks AggSinksSpec Pipeline PipelineSpec PipelineTermination.

Open Scope Z_scope.

(** The source, the column of the tuple set that is being pushed, the output
    containers made so far, the answers of the allocator and the amounts of
    free memory it reports. *)
Record set_env := mkSetEnv {
  source : VectorTupleSetIterator;
  col : list (option Z);
  vectors : list (Array (option Z));
  room : answers;
  frees : list Z
}.

(** Computations that use no fuel. *)
Definition has_fuel {S A} (c : M S A) : Prop := forall s, c s <> NoFuel.

Section fuel.
Context {S : Type}.
Lemma fuel_bind {A B} (c : M S A) (k : A -> M S B) : has_fuel c -> (forall a, has_fuel (k a)) -> has_fuel (bind c k).
Proof. intros Hc Hk s. specialize (Hc s). unfold bind. destruct (c s); try done. apply Hk. Qed.
Lemma fuel_try {A} (c : M S A) hd : has_fuel c -> (forall x, has_fuel (hd x)) -> has_fuel (try c hd).
Proof. intros Hc Hk s. specialize (Hc s). unfold try. destruct (c s); try done. apply Hk. Qed.
Lemma fuel_for_each {A} (l : list A) (body : A -> M S unit) : (forall a, has_fuel (body a)) -> has_fuel (for_each l body).
Proof. intros Hb. induction l as [|a l IH]; simpl; [by intros s|]. by apply fuel_bind. Qed.
Lemma fuel_zoom {T A} (g : S -> option T) (p : T -> S -> S) (c : M (T * answers) A) : has_fuel c -> has_fuel (zoom g p c).
Proof. intros Hc [s f]. unfold zoom. destruct (g s) as [t|]; [|done]. specialize (Hc (t, f)). by destruct (c (t, f)) as [? []|? []|[]| |]. Qed.
Lemma fuel_alloc : has_fuel (@alloc S).
Proof. intros [s [|[] f]]; done. Qed.
Lemma fuel_mret {A} (a : A) : has_fuel (@mret (M S) _ A a).
Proof. by intros s. Qed.
Lemma fuel_throw {A} x : has_fuel (@throw S A x).
Proof. by intros s. Qed.
Lemma fuel_ub {A} x : has_fuel (@ub S A x).
Proof. by intros s. Qed.
Lemma fuel_get : has_fuel (@get S).
Proof. by intros s. Qed.
Lemma fuel_modify g : has_fuel (@modify S g).
Proof. by intros s. Qed.
End fuel.
#[local] Hint Resolve fuel_bind fuel_try fuel_for_each fuel_zoom fuel_alloc fuel_mret fuel_throw fuel_ub fuel_get fuel_modify : core.

Lemma fuel_on_mem {T A} (c : M mem A) : has_fuel c -> has_fuel (@on_mem T A c).
Proof. intros Hc. apply fuel_zoom. intros [m f]. specialize (Hc m). by destruct (c m). Qed.

Ltac fuel := repeat first [solve [auto]|apply fuel_bind; [|intros ?]|apply fuel_try; [|intros ?]|apply fuel_for_each; intros ?
  |apply fuel_on_mem|apply fuel_zoom|case_match|progress cbv zeta].

Lemma fuel_writeOut vs class input : has_fuel (SetSink.writeOut vs class input).
Proof.
  unfold SetSink.writeOut, on_full, on_map, erase_prefix, SetSink.handle_at, read_as, read_col, write_col, column_at, read_set, write_set,
    push_back, grow, doubleSize, arr_resize, arr_push_back, the_array, modify_array, copy_alloc, unwrap. fuel.
Qed.

Section parts.
Context (class : string) (gs : list (option Z -> option Z)).

Definition set_next (p : SizePolicy) : M set_env (option unit) := fun e =>
  match vector_getNextTupleSet p (source e) with
  | Ok (Some c) it => Ok (Some tt) (mkSetEnv it c (vectors e) (room e) (frees e))
  | Ok None it => Ok None (mkSetEnv it (col e) (vectors e) (room e) (frees e))
  | Raise x it => Raise x (mkSetEnv it (col e) (vectors e) (room e) (frees e))
  | Exit it => Exit (mkSetEnv it (col e) (vectors e) (room e) (frees e))
  | Fault f => Fault f
  | NoFuel => NoFuel
  end.
(** An executor makes a new object of every row, each of which takes space. *)
Definition set_stage (g : option Z -> option Z) (_ : unit) : M set_env unit := fun e =>
  match for_each (col e) (fun _ => alloc) (e, room e) with
  | Ok _ (_, f) => Ok tt (mkSetEnv (source e) (map g (col e)) (vectors e) f (frees e))
  | Raise x (_, f) => Raise x (mkSetEnv (source e) (col e) (vectors e) f (frees e))
  | Exit _ => Exit e
  | Fault f => Fault f
  | NoFuel => NoFuel
  end.
Definition set_container : M set_env nat := fun e =>
  match SetSink.createNewOutputContainer (SetSink.mkVectorSink 0) (mkArray [] 0, room e) with
  | Ok _ (v, f) => Ok (length (vectors e)) (mkSetEnv (source e) (col e) (vectors e ++ [v]) f (frees e))
  | Raise x (_, f) => Raise x (mkSetEnv (source e) (col e) (vectors e) f (frees e))
  | Exit _ => Exit e
  | Fault f => Fault f
  | NoFuel => NoFuel
  end.
(** The tuple set the sink sees has the column, and loses the rows that were
    written when the page is full. *)
Definition col_mem (l : list (option Z)) : mem :=
  mkMem {[ 1%positive := mkColumn (ColHandle class) (map VHandle l) ]} {[ 1%positive := {[ 0 := (Some 1%positive, MaintenanceFuncs_empty) ]} ]}.
Definition mem_col (m : mem) : list (option Z) :=
  match cols m !! 1%positive with Some c => map (fun v => match v with VHandle h => h | _ => None end) (col_data c) | None => [] end.
Definition set_write (_ : unit) (c : nat) : M set_env unit := fun e =>
  match vectors e !! c with
  | None => Fault OutOfRange
  | Some v =>
      match SetSink.writeOut (SetSink.mkVectorSink 0) class 1 (mkSinkState (col_mem (col e)) [v], room e) with
      | Ok _ (s, f) => Ok tt (mkSetEnv (source e) (col e) (<[c := default v (s_maps s !! 0%nat)]> (vectors e)) f (frees e))
      | Raise x (s, f) => Raise x (mkSetEnv (source e) (mem_col (s_mem s)) (<[c := default v (s_maps s !! 0%nat)]> (vectors e)) f (frees e))
      | Exit _ => Exit e
      | Fault f => Fault f
      | NoFuel => NoFuel
      end
  end.
Definition set_free : M set_env Z := fun e => Ok (hd 0 (frees e)) (mkSetEnv (source e) (col e) (vectors e) (room e) (tl (frees e))).

#[export] Instance set_parts : PipelineParts set_env unit nat unit := {|
  getNextTupleSet := set_next;
  stages := map set_stage gs;
  newOutputContainer := set_container;
  writeOut := set_write;
  processPage _ _ := mret true;
  getFreeBytesAtTheEnd := set_free;
  getNewPage := mret tt;
  removePage _ := mret tt;
  unpinPage _ := mret tt;
  emptyPage _ := mret tt;
  emptyContainer _ := mret tt
|}.

(** ** It ends *)

(** The rows still to come, those of a failed chunk included, and the pages. *)
Definition set_todo (e : set_env) (ok : bool) : nat :=
  (length ((if ok then [] else output (source e)) ++ remaining (source e)) + length (pageSet (source e)))%nat.

Lemma same_source {A} (c : M set_env A) :
  (forall e, match c e with Ok _ e' | Raise _ e' | Exit e' => source e' = source e | Fault _ => True | NoFuel => False end) ->
  never_grows (fun e => vector_source_ok (source e)) set_todo c.
Proof.
  intros Hc e. specialize (Hc e). unfold no_more_work, set_todo. destruct (c e); try done; intros Hok; rewrite Hc; done.
Qed.

Lemma for_alloc_spec {A S} (l : list A) (s : S) f :
  wpx (for_each l (fun _ => alloc)) (fun _ x => x.1 = s) (fun e x => e = NotEnoughSpace /\ x.1 = s) (s, f).
Proof.
  revert f. induction l as [|a l IH]; intros f; simpl; [done|]. apply wpx_bind, wpx_alloc; [apply IH|done].
Qed.

(** What the sink and the stages do to the environment. *)
Lemma set_stage_spec g ts e :
  wpx (set_stage g ts)
    (fun _ e' => col e' = map g (col e) /\ source e' = source e /\ vectors e' = vectors e)
    (fun x e' => x = NotEnoughSpace /\ col e' = col e /\ source e' = source e /\ vectors e' = vectors e) e.
Proof.
  unfold set_stage, wpx. pose proof (for_alloc_spec (col e) e (room e)) as H. unfold wpx in H.
  destruct (for_each _ _ _) as [? []|? []|[]| |]; try done. simpl. by destruct H as [-> _].
Qed.

Lemma set_container_spec e :
  wpx set_container
    (fun k e' => k = length (vectors e) /\ vectors e' = vectors e ++ [mkArray [] 1] /\ col e' = col e /\ source e' = source e)
    (fun x e' => x = NotEnoughSpace /\ vectors e' = vectors e /\ col e' = col e /\ source e' = source e) e.
Proof.
  unfold set_container, wpx. set (c := SetSink.createNewOutputContainer _).
  assert (H : wpx c (fun _ x => x.1 = mkArray [] 1) (fun x _ => x = NotEnoughSpace) (mkArray [] 0, room e)).
  { unfold c, SetSink.createNewOutputContainer, Vector_new.
    apply wpx_bind, wpx_alloc; intros f1; [|done]. apply wpx_bind, wpx_alloc; intros f2; [|done]. done. }
  unfold wpx in H. destruct (c _) as [? [v f]|? []|[]| |]; try done. simpl in H. by subst v.
Qed.

Lemma mem_col_eq m hs :
  cols m !! 1%positive = Some (mkColumn (ColHandle class) (map VHandle hs)) -> mem_col m = hs.
Proof.
  intros E. unfold mem_col. rewrite E. simpl. rewrite map_map. apply map_id.
Qed.

Lemma set_write_spec ts c v e :
  vectors e !! c = Some v -> vec_ok v -> usedSlots v + Z.of_nat (length (col e)) <= 2 ^ 31 ->
  wpx (set_write ts c)
    (fun _ e' => source e' = source e /\ exists v', vectors e' = <[c := v']> (vectors e) /\ vec_ok v' /\ elems v' = elems v ++ col e)
    (fun x e' => x = NotEnoughSpace /\ source e' = source e /\ exists i v', vectors e' = <[c := v']> (vectors e) /\ vec_ok v' /\
       elems v' = elems v ++ take i (col e) /\ col e' = drop i (col e)) e.
Proof.
  intros Hv Hok Hroom. unfold set_write, wpx. rewrite Hv.
  pose proof (VectorSink_exact (SetSink.mkVectorSink 0) class 1 v (col_mem (col e)) (col e) 1 MaintenanceFuncs_empty (room e)
    eq_refl eq_refl Hroom Hok) as H. unfold wpx in H.
  destruct (SetSink.writeOut _ _ _ _) as [? [s f]|x [s f]|[]| |]; try done; simpl in H.
  - destruct H as (_ & v' & Hs & Hok' & He). simpl. rewrite Hs. simpl. split; [done|]. by exists v'.
  - destruct H as (-> & i & v' & _ & Hs & Hok' & He & Hc & _). simpl. rewrite Hs. simpl. split; [done|]. split; [done|].
    exists i, v'. split; [done|]. split; [done|]. split; [done|]. by apply mem_col_eq.
Qed.

#[export] Instance set_finite : FiniteSource set_env unit nat unit.
Proof.
  refine {| fs_ok := fun e => vector_source_ok (source e); todo := set_todo |}.
  - intros p e Hsz Hok. simpl. unfold set_next. destruct (vector_next_work p (source e) Hok Hsz) as (r & it & E & Hok' & Hr).
    rewrite E. destruct r as [c|]; [|done]. simpl. destruct Hr as (Ho & Hlt & Hle). split; [done|].
    unfold set_todo, to_serve in *. simpl. rewrite Ho, !length_app in *. simpl. lia.
  - simpl. apply Forall_map, Forall_forall. intros g _ ts. apply same_source. intros e.
    pose proof (set_stage_spec g ts e) as H. unfold wpx in H. destruct (set_stage g ts e); try done; naive_solver.
  - apply same_source. intros e. pose proof (set_container_spec e) as H. unfold wpx in H. simpl.
    destruct (set_container e); try done; naive_solver.
  - intros ts c. apply same_source. intros e. simpl. unfold set_write.
    destruct (vectors e !! c) as [v|]; [|done].
    pose proof (fuel_writeOut (SetSink.mkVectorSink 0) class 1 (mkSinkState (col_mem (col e)) [v], room e)) as Hf.
    by destruct (SetSink.writeOut _ _ _ _) as [? []|? []|[]| |].
  - intros p c. by apply same_source.
  - by apply same_source.
  - by apply same_source.
  - intros p. by apply same_source.
  - intros p. by apply same_source.
  - intros p. by apply same_source.
  - intros c. by apply same_source.
Defined.

(** ** Every row is written *)

Abbreviation pstate := (pl_state set_env unit nat unit).

Definition row_fn (h : option Z) : option Z := foldl (fun h g => g h) h gs.
Definition written (e : set_env) : list (option Z) := concat (map elems (vectors e)).

(** [total] rows in all fit into a vector. *)
Context (total : nat) (Htotal : Z.of_nat total <= 2 ^ 31).

(** The rows [W] are written. *)
Record data (it : VectorTupleSetIterator) (W : list (option Z)) (e : set_env) : Prop := {
  da_written : written e ≡ₚ W;
  da_source : source e = it;
  da_vectors v : v ∈ vectors e -> vec_ok v
}.
(** And [c] is in the tuple set that is being pushed. *)
Definition pushing it W c e : Prop := data it W e /\ col e = c /\ (length W + length c <= total)%nat.

Lemma written_insert (l : list (Array (option Z))) k v v' extra :
  l !! k = Some v -> elems v' = elems v ++ extra ->
  concat (map elems (<[k := v']> l)) ≡ₚ concat (map elems l) ++ extra.
Proof.
  intros Hk He. rewrite insert_take_drop by by eapply lookup_lt_Some.
  rewrite <- (take_drop_middle l k v Hk) at 3. rewrite !map_app, !concat_app. simpl. rewrite He.
  rewrite <- !app_assoc. apply Permutation_app_head. rewrite (Permutation_app_comm extra), app_assoc. done.
Qed.

Lemma written_le e k v : vectors e !! k = Some v -> (length (elems v) <= length (written e))%nat.
Proof.
  intros Hk. unfold written. rewrite <- (take_drop_middle _ _ _ Hk), map_app, concat_app. simpl.
  rewrite !length_app. lia.
Qed.

(** A write, from both its ends. *)
Lemma set_write_data it W c ts k e :
  pushing it W c e ->
  match set_write ts k e with
  | Ok _ e' => data it (W ++ c) e'
  | Raise x e' => x = NotEnoughSpace /\ exists W' c', pushing it W' c' e' /\ W' ++ c' = W ++ c
  | Fault _ => True
  | _ => False
  end.
Proof.
  intros ([Hw Hs Hv] & Hc & Hroom). destruct (vectors e !! k) as [v|] eqn:Hk.
  2:{ unfold set_write. by rewrite Hk. }
  pose proof (Hv v ltac:(by eapply list_elem_of_lookup_2)) as Hok.
  pose proof (written_le _ _ _ Hk) as Hle. rewrite (Permutation_length Hw) in Hle.
  pose proof (set_write_spec ts k v e Hk Hok) as H. unfold usedSlots in H. rewrite Hc in H. specialize (H ltac:(lia)).
  assert (Hins : forall v' extra, vec_ok v' -> elems v' = elems v ++ extra ->
    concat (map elems (<[k := v']> (vectors e))) ≡ₚ W ++ extra /\ forall x, x ∈ <[k := v']> (vectors e) -> vec_ok x).
  { intros v' extra Hok' He. split.
    - rewrite (written_insert _ _ v v' extra Hk He). by apply Permutation_app_tail.
    - intros x Hx. apply list_elem_of_lookup in Hx as [j Hj]. destruct (decide (j = k)) as [->|Hne].
      + rewrite list_lookup_insert_eq in Hj by by eapply lookup_lt_Some. by injection Hj as <-.
      + rewrite list_lookup_insert_ne in Hj by done. apply Hv. by eapply list_elem_of_lookup_2. }
  unfold wpx in H. destruct (set_write ts k e) as [[] e'|x e'| | |]; try done.
  - destruct H as (Hs' & v' & Hve & Hok' & He). destruct (Hins v' c Hok' He) as [Hw' Hv']. split; [|congruence|].
    + unfold written. by rewrite Hve.
    + by rewrite Hve.
  - destruct H as (-> & Hs' & i & v' & Hve & Hok' & He & Hc'). destruct (Hins v' (take i c) Hok' He) as [Hw' Hv'].
    split; [done|]. exists (W ++ take i c), (drop i c). split; [|by rewrite <- app_assoc, take_drop]. split; [split|split].
    + unfold written. by rewrite Hve.
    + congruence.
    + by rewrite Hve.
    + done.
    + rewrite length_app, length_take, length_drop. lia.
Qed.

Lemma set_container_data it W c e :
  pushing it W c e ->
  match set_container e with
  | Ok _ e' => pushing it W c e'
  | Raise x e' => x = NotEnoughSpace /\ pushing it W c e'
  | _ => False
  end.
Proof.
  intros ([Hw Hs Hv] & Hc & Hroom). pose proof (set_container_spec e) as H. unfold wpx in H.
  destruct (set_container e) as [k e'|x e'| | |]; try done.
  - destruct H as (_ & Hve & Hc' & Hs'). split; [split|split]; try congruence.
    + unfold written. by rewrite Hve, map_app, concat_app, app_nil_r.
    + rewrite Hve. intros v [Hx| ->%list_elem_of_singleton]%elem_of_app; [by apply Hv|]. unfold vec_ok, usedSlots. simpl. lia.
  - destruct H as (-> & Hve & Hc' & Hs'). split; [done|]. split; [split|split]; try congruence.
    + unfold written. by rewrite Hve.
    + by rewrite Hve.
Qed.

(** ** Through the pipeline *)

Implicit Types s : pstate.

Lemma new_holder_env s : wp partial new_holder (fun m s' => env s' = env s /\ outputSink m = None) s.
Proof. done. Qed.
Lemma addPage_env m i s : wp partial (addPageToIteration m i) (fun _ s' => env s' = env s) s.
Proof. done. Qed.

Lemma stage_data it W c g ram i used ts s :
  pushing it W c (env s) ->
  wp partial (apply_stage (set_stage g) ram i used ts)
    (fun r s' => match r.1.1 with Some _ => pushing it W (map g c) (env s') | None => True end) s.
Proof.
  assert (Hst : forall e, pushing it W c e -> match set_stage g ts e with
    | Ok _ e' => pushing it W (map g c) e' | Raise x e' => x = NotEnoughSpace /\ pushing it W c e' | _ => False end).
  { intros e ([Hw Hs Hv] & Hc & Hroom). pose proof (set_stage_spec g ts e) as H. unfold wpx in H.
    destruct (set_stage g ts e) as [[] e'|x e'| | |]; try done.
    - destruct H as (Hc' & Hs' & Hve). split; [split|split]; try congruence; unfold written; rewrite ?Hve; try done. by rewrite length_map.
    - destruct H as (-> & Hc' & Hs' & Hve). split; [done|]. split; [split|split]; try congruence; unfold written; by rewrite Hve. }
  intros Hp. unfold apply_stage. unfold wp, try, bind at 1, on_env at 1. specialize (Hst (env s) Hp) as H1.
  destruct (set_stage g ts (env s)) as [[] e|x e| | |]; try done. destruct H1 as [-> H1].
  change (wp partial (_ <- addPageToIteration ram i ;; ram' <- new_holder ;;
    try (c <- on_env (set_stage g ts) ;; mret (Some c, ram', u64 (used + 1)))
      (fun x => match x with
        | NotEnoughSpace => _ <- on_policy pipelineFailed ;; _ <- emit EvFailed ;; _ <- addPageToIteration ram' i ;;
            ram'' <- new_holder ;; mret (None, ram'', u64 (used + 1))
        | _ => throw x end))
    (fun r s' => match r.1.1 with Some _ => pushing it W (map g c) (env s') | None => True end)
    (mkPipeline e (unwrittenPages s) (policy s) (holders s) (log s))).
  apply wp_bind. eapply wp_mono; [apply addPage_env|]. intros [] s2 E2. apply wp_bind.
  eapply wp_mono; [apply new_holder_env|]. intros ram' s3 [E3 _]. simpl in E2.
  unfold wp, try, bind at 1, on_env at 1. rewrite E3, E2. specialize (Hst e H1) as H2.
  destruct (set_stage g ts e) as [[] e2|x e2| | |]; try done. destruct H2 as [-> _].
  unfold on_policy, bind. simpl. by destruct (pipelineFailed _) as [[] ?| | | |].
Qed.

Lemma stages_data it W : forall hs c ram i used ts s,
  pushing it W c (env s) ->
  wp partial (apply_stages (map set_stage hs) ram i used ts)
    (fun r s' => match r.1.1 with Some _ => pushing it W (map (fun h => foldl (fun h g => g h) h hs) c) (env s') | None => True end) s.
Proof.
  induction hs as [|g hs IH]; intros c ram i used ts s Hp; simpl.
  { apply wp_mret. simpl. by rewrite map_id. }
  apply wp_bind. eapply wp_mono; [by apply stage_data|]. intros [[[t|] ram'] used'] s1 H1; [|by apply wp_mret]. simpl in H1.
  eapply wp_mono; [by apply IH|]. intros r s2. by rewrite map_map.
Qed.

(** A failure of the stages is on record. *)
Lemma stages_fail qs ram i used ts s :
  wp partial (apply_stages qs ram i used ts) (fun r s' => r.1.1 = None -> EvFailed ∈ log s') s.
Proof.
  revert ram used ts s. induction qs as [|q qs IH]; intros ram used ts s; simpl; [by apply wp_mret|].
  apply wp_bind. eapply (wp_mono _ _ (fun r s' => r.1.1 = None -> EvFailed ∈ log s')).
  2:{ intros [[[t|] ram'] used'] s1 H1; [apply IH|by apply wp_mret]. }
  unfold apply_stage, wp, try, bind, on_env. destruct (q ts (env s)) as [t e|x e| | |]; try done. destruct x; try done. simpl.
  destruct (q ts e) as [t2 e2|x2 e2| | |]; try done. destruct x2; try done. unfold on_policy. simpl.
  destruct (pipelineFailed _) as [[] p| | | |]; try done. simpl. intros _. apply elem_of_app. left. apply elem_of_app. right. by left.
Qed.

Lemma write_chunk_data it W c ts ram i s :
  pushing it W c (env s) -> wp partial (write_chunk ts ram i) (fun _ s' => data it (W ++ c) (env s')) s.
Proof.
  intros Hp. unfold write_chunk.
  assert (Hens : forall s, pushing it W c (env s) -> match ensure_sink ram s with
    | Ok _ s' => pushing it W c (env s') | Raise x s' => x = NotEnoughSpace /\ pushing it W c (env s') | _ => False end).
  { clear. intros s Hp. unfold ensure_sink. destruct (outputSink ram); [done|]. unfold bind, on_env. simpl.
    pose proof (set_container_data it W c (env s) Hp) as H. destruct (set_container (env s)); try done. }
  assert (Hwr : forall W c m s, pushing it W c (env s) -> match write_to ts m s with
    | Ok _ s' => data it (W ++ c) (env s')
    | Raise x s' => x = NotEnoughSpace /\ exists W' c', pushing it W' c' (env s') /\ W' ++ c' = W ++ c
    | Fault _ => True | _ => False end).
  { clear -Htotal. intros W c m s Hp. unfold write_to, bind, unwrap. destruct (outputSink m) as [k|]; [|done]. unfold on_env. simpl.
    pose proof (set_write_data it W c ts k (env s) Hp) as H. destruct (set_write ts k (env s)); try done. }
  apply wp_bind. eapply (wp_mono _ _ (fun _ s' => pushing it W c (env s'))).
  { unfold wp, try, bind. specialize (Hens s Hp). destruct (ensure_sink ram s) as [m s'|x s'| | |]; try done. destruct Hens as [-> H]. done. }
  clear Hens Hp. intros r s1 H1. apply wp_bind.
  eapply (wp_mono _ _ (fun r s' => match r with inl _ => data it (W ++ c) (env s')
    | inr _ => exists W' c', pushing it W' c' (env s') /\ W' ++ c' = W ++ c end)).
  { destruct r as [m|m]; [|apply wp_mret; by exists W, c]. unfold wp, try, bind. specialize (Hwr W c m s1 H1).
    destruct (write_to ts m s1) as [[] s'|x s'| | |]; try done. destruct Hwr as [-> H]. done. }
  clear r s1 H1. intros [m|m] s2 H2; [by apply wp_mret|]. destruct H2 as (W' & c' & H2 & E).
  apply wp_bind. eapply wp_mono; [apply addPage_env|]. intros [] s3 E3. apply wp_bind.
  eapply wp_mono; [apply new_holder_env|]. intros m' s4 [E4 _]. rewrite <- E3, <- E4 in H2. apply wp_bind.
  unfold wp at 1, on_env. simpl. pose proof (set_container_data it W' c' (env s4) H2) as H5.
  destruct (set_container (env s4)) as [k e5|x e5| | |]; try done. cbv zeta. apply wp_bind.
  specialize (Hwr W' c' (set_outputSink k m') (mkPipeline e5 (unwrittenPages s4) (policy s4) (holders s4) (log s4)) H5).
  unfold wp at 1. destruct (write_to _ _ _) as [[] s6|x s6| | |]; try done. apply wp_mret. by rewrite <- E.
Qed.

Lemma set_free_env s : wp partial (on_env (getFreeBytesAtTheEnd)) (fun _ s' => vectors (env s') = vectors (env s) /\
  col (env s') = col (env s) /\ source (env s') = source (env s)) s.
Proof. done. Qed.
Lemma pushing_same it W c e e' : vectors e' = vectors e -> col e' = col e -> source e' = source e -> pushing it W c e -> pushing it W c e'.
Proof. intros Hv Hc Hs ([H1 H2 H3] & H4 & H5). split; [split|split]; unfold written in *; rewrite ?Hv, ?Hs, ?Hc; done. Qed.
Lemma data_same it W e e' : vectors e' = vectors e -> source e' = source e -> data it W e -> data it W e'.
Proof. intros Hv Hs [H1 H2 H3]. split; unfold written in *; rewrite ?Hv, ?Hs; done. Qed.

Lemma run_chunk_data it W c ts ram i s :
  pushing it W c (env s) ->
  wp partial (run_chunk ts ram i) (fun _ s' => EvFailed ∈ log s' \/ data it (W ++ map row_fn c) (env s')) s.
Proof.
  intros Hp. unfold run_chunk. apply wp_bind. eapply wp_mono; [apply set_free_env|]. intros free s1 (E1 & E2 & E3).
  pose proof (pushing_same _ _ _ _ _ E1 E2 E3 Hp) as H1. apply wp_bind.
  eapply wp_mono; [apply wp_conj; [by apply (stages_data it W gs c)|apply stages_fail]|].
  intros [[[t|] ram'] used] s2 [H2 Hf]; simpl in *; [|apply wp_mret; left; by apply Hf].
  apply wp_bind. eapply wp_mono; [apply set_free_env|]. intros free' s3 (F1 & F2 & F3).
  pose proof (pushing_same _ _ _ _ _ F1 F2 F3 H2) as H3. apply wp_bind. unfold wp at 1, on_policy, pipelineSucceeded, set_pipeline_stats, modify.
  apply wp_bind. eapply wp_mono; [by apply (write_chunk_data it W (map row_fn c))|]. intros ram'' s4 H4. apply wp_bind.
  eapply wp_mono; [apply set_free_env|]. intros free'' s5 (G1 & G2 & G3). apply wp_bind. unfold wp at 1, on_policy.
  destruct (writeToPageSucceeded _ _ _ _) as [[] p| | | |]; try done. apply wp_bind, wp_emit, wp_mret. right. simpl.
  by eapply data_same.
Qed.

Lemma cleanPages_env n s : wp partial (cleanPages n) (fun _ s' => env s' = env s) s.
Proof.
  unfold cleanPages. apply wp_bind, wp_get. generalize (unwrittenPages s) as q. intros q. revert s.
  induction q as [|m q IH]; intros s; simpl; [done|]. destruct (_ <? _); [|done].
  apply wp_bind. eapply (wp_mono _ _ (fun _ s' => env s' = env s)).
  - unfold settle. by destruct (outputSink m).
  - intros [] s1 E1. apply wp_bind, wp_modify. eapply wp_mono; [apply IH|]. intros [] s2 E2. simpl in E2. congruence.
Qed.

Lemma write_chunk_policy c ram i s : wp partial (write_chunk c ram i) (fun _ s' => policy s' = policy s) s.
Proof.
  pose proof (quiet_write_chunk c ram i s) as H. unfold wp. destruct (write_chunk c ram i s); try done. apply H.
Qed.

(** Between two chunks: what is written and what is still to come make up all
    the rows, unless a chunk failed. *)
Definition all_here (all : list (option Z)) s : Prop :=
  exists it W, data it W (env s) /\ vector_source_ok it /\ W ++ map row_fn (remaining it) ≡ₚ map row_fn all /\
    succeeded (policy s) = true.

Lemma run_chunk_flag c ram i s :
  wp partial (run_chunk c ram i) (fun _ s' => EvFailed ∈ log s' \/ succeeded (policy s') = true) s.
Proof.
  unfold run_chunk. apply wp_bind. eapply wp_mono; [apply set_free_env|]. intros free s1 _. apply wp_bind.
  eapply wp_mono; [apply stages_fail|]. intros [[[t|] ram'] used] s2 Hf; simpl in *; [|apply wp_mret; left; by apply Hf].
  apply wp_bind. eapply wp_mono; [apply set_free_env|]. intros free' s3 _. apply wp_bind. unfold wp at 1, on_policy, pipelineSucceeded, set_pipeline_stats, modify.
  set (s4 := mkPipeline _ _ _ _ _). apply wp_bind.
  eapply wp_mono; [apply write_chunk_policy|]. intros ram'' s5 E5. apply wp_bind.
  eapply (wp_mono _ _ (fun _ s' => policy s' = policy s5)); [done|]. intros free'' s6 E6. apply wp_bind. unfold wp at 1, on_policy.
  destruct (writeToPageSucceeded _ _ _ _) as [[] p| | | |] eqn:Ew; try done. apply wp_bind, wp_emit, wp_mret. right. simpl.
  by rewrite (writeToPageSucceeded_flag _ _ _ _ _ Ew), E6, E5.
Qed.

Lemma run_loop_data all fuel : forall ram i s,
  length all = total -> EvFailed ∈ log s \/ all_here all s ->
  wp partial (run_loop fuel ram i) (fun _ s' => EvFailed ∈ log s' \/ written (env s') ≡ₚ map row_fn all) s.
Proof.
  intros ram i s Hall. revert ram i s. induction fuel as [|fuel IH]; intros ram i s Hs; [done|]. simpl.
  apply wp_bind, wp_get. destruct Hs as [Hs|(it & W & Hd & Hok & Hp & Hflag)].
  - apply wp_bind. eapply wp_mono; [by apply logs_wp, Hs; apply logs_env|]. intros [c|] s1 H1; [|by apply wp_mret; left].
    apply wp_bind. eapply wp_mono; [by apply logs_wp, H1; apply logs_emit|]. intros [] s2 H2. apply wp_bind.
    eapply wp_mono; [by apply logs_wp, H2; apply logs_run_chunk|]. intros ram' s3 H3. apply wp_bind.
    eapply wp_mono; [by apply logs_wp, H3; apply logs_cleanPages|]. intros [] s4 H4. apply IH. by left.
  - destruct (vector_source_serves_every_row_ok (policy s) it Hok (or_introl Hflag)) as (r & it' & E & Hok' & Hr).
    apply wp_bind. unfold wp at 1, on_env. simpl. unfold set_next. rewrite (da_source _ _ _ Hd), E.
    unfold to_serve, inputWasProcessed in Hr. rewrite Hflag in Hr. simpl in Hr. destruct r as [c|].
    2:{ apply wp_mret. right. simpl. destruct Hr as [Hr _]. rewrite Hr, app_nil_r in Hp.
        rewrite <- Hp. apply Hd. }
    destruct Hr as (Hr & _ & Ho). apply wp_bind, wp_emit. simpl. set (s1 := mkPipeline _ _ _ _ _).
    assert (H1 : pushing it' W c (env s1)).
    { split; [split|split]; simpl; [apply Hd|done|apply Hd|done|].
      apply Permutation_length in Hp. rewrite length_app, !length_map, (Permutation_length Hr), length_app in Hp. lia. }
    apply wp_bind. eapply wp_mono; [apply wp_conj; [by apply run_chunk_data|apply run_chunk_flag]|]. intros ram' s2 [H2 Hf2].
    apply wp_bind. eapply (wp_mono _ _ (fun _ s3 => EvFailed ∈ log s3 \/ all_here all s3)); [|intros [] s3 H3; by apply IH].
    destruct H2 as [H2|H2], Hf2 as [Hf2|Hf2]; try (eapply wp_mono; [apply logs_wp; [apply logs_cleanPages|eassumption]|]; intros; by left).
    eapply wp_mono; [apply wp_conj; [apply cleanPages_env|apply keeps_cleanPages]|]. intros [] s3 [E3 [_ Ep3]]. right.
    exists it', (W ++ map row_fn c). rewrite E3, Ep3. split_and!; [done|done| |done].
    rewrite <- app_assoc, <- map_app, <- Hr. exact Hp.
Qed.
End parts.

Definition set_start (pages : list vpage) (f : answers) (fr : list Z) : set_env :=
  mkSetEnv (VectorTupleSetIterator_new pages) [] [] f fr.

(** C4: the pipeline over a set ends, whatever the allocator and the stages do,
    and if it ends normally and no chunk failed, the vectors it wrote have the
    row computed from every row of every page, each as often as it was there. *)
Theorem set_pipeline_writes_every_row class gs pages f fr n fuel :
  0 < n -> Z.of_nat (length (concat pages)) <= 2 ^ 31 ->
  101 * Z.of_nat (length (concat pages) + length pages) + 50 < Z.of_nat fuel ->
  @run _ _ _ _ (set_parts class gs) fuel (Pipeline_new (set_start pages f fr) n) <> NoFuel /\
  forall s, @run _ _ _ _ (set_parts class gs) fuel (Pipeline_new (set_start pages f fr) n) = Ok tt s ->
    EvFailed ∉ log s -> written (env s) ≡ₚ map (row_fn gs) (concat pages).
Proof.
  intros Hn Htotal Hfuel. split.
  - apply (pipeline_runs_out (H0 := set_finite class gs) n Hn).
    + apply VectorTupleSetIterator_new_ok.
    + simpl. unfold set_todo, set_start. simpl. rewrite VectorTupleSetIterator_new_remaining.
      assert (length (pageSet (VectorTupleSetIterator_new pages)) <= length pages)%nat by (destruct pages; simpl; lia). lia.
  - intros s Hrun Hno.
    assert (W : wp partial (@run _ _ _ _ (set_parts class gs) fuel)
      (fun _ s => EvFailed ∈ log s \/ written (env s) ≡ₚ map (row_fn gs) (concat pages)) (Pipeline_new (set_start pages f fr) n)).
    { unfold run. apply wp_bind.
      eapply (wp_mono _ _ (fun _ s' => env s' = set_start pages f fr /\ policy s' = policy_new n)); [done|].
      intros ram s1 [E1 E2]. apply wp_bind.
      eapply wp_mono; [apply (run_loop_data class gs (length (concat pages)) Htotal (concat pages)); [done|]|].
      - right. exists (VectorTupleSetIterator_new pages), []. rewrite E1, E2. split; [|split; [|split]]; try done.
        + split; [done|done|]. intros v Hv. by apply elem_of_nil in Hv.
        + apply VectorTupleSetIterator_new_ok.
        + by rewrite VectorTupleSetIterator_new_remaining.
      - intros r s2 H2. apply wp_bind.
        eapply (wp_mono _ _ (fun _ s' => EvFailed ∈ log s' \/ written (env s') ≡ₚ map (row_fn gs) (concat pages))); [done|].
        intros [] s3 H3. unfold cleanPipeline. apply wp_bind, wp_get, wp_bind.
        eapply (wp_mono _ _ (fun _ s' => EvFailed ∈ log s' \/ written (env s') ≡ₚ map (row_fn gs) (concat pages))); [done|].
        intros [] s4 [H4|H4].
        + eapply wp_mono; [apply logs_wp; [apply logs_cleanPages|exact H4]|]. intros; by left.
        + eapply wp_mono; [apply cleanPages_env|]. intros [] s5 E5. right. by rewrite E5. }
    unfold wp in W. rewrite Hrun in W. by destruct W.
Qed.

(** Six rows on two pages, one of them empty, through one executor; the third
    allocation for the output does not fit. *)
Lemma set_pipeline_writes_every_row_witness :
  let pages := [[Some 1; Some 2; Some 3]; []; [Some 4; Some 5; Some 6]] in
  let gs := [fun h => h] in
  @run _ _ _ _ (set_parts "Employee" gs) 2000 (Pipeline_new (set_start pages [true; true; true; true; false] []) 4096) <> NoFuel /\
  forall s, @run _ _ _ _ (set_parts "Employee" gs) 2000 (Pipeline_new (set_start pages [true; true; true; true; false] []) 4096) = Ok tt s ->
    EvFailed ∉ log s -> written (env s) ≡ₚ map (row_fn gs) (concat pages).
Proof.
  intros pages gs. apply (set_pipeline_writes_every_row "Employee" gs pages [true; true; true; true; false] [] 4096 2000).
  - lia.
  - simpl. lia.
  - simpl. lia.
Defined.

(** ** Two failures in a row *)

Module TwoFailures.
(** Twenty-six rows on a page; the pages are too full for the executor twice,
    each time for the first row on the page and again on a new one. *)
Definition rows : list (option Z) := map (fun n => Some (Z.of_nat n)) (seq 0 26).
Definition result : outcome (pl_state set_env unit nat unit) unit :=
  @run _ _ _ _ (set_parts "Employee" [fun h => h]) 20 (Pipeline_new (set_start [rows] [false; false; false; false] []) 4096).
End TwoFailures.

(** When the executors run out of space for a chunk of 26 rows, and again
    for the 25 of them that fit in the next, smaller chunk, the run ends
    normally and has written none of the rows. *)
Theorem two_failures_lose_rows :
  match TwoFailures.result with
  | Ok _ s => written (env s) = [] /\ length (concat [TwoFailures.rows]) = 26%nat
  | _ => False
  end.
Proof. vm_compute. by split. Qed.

(** ** The general theorems at this pipeline *)

Module SmallRun.
Definition start : set_env := set_start [[Some 1; Some 2; Some 3]] [] [].
Definition result : outcome (pl_state set_env unit nat unit) unit :=
  @run _ _ _ _ (set_parts "Employee" [fun h => h]) 400 (Pipeline_new start 4096).
Definition final : pl_state set_env unit nat unit := match result with Ok _ s => s | _ => Pipeline_new start 4096 end.
End SmallRun.

Lemma pipeline_ends_witness : SmallRun.result <> NoFuel.
Proof.
  apply (pipeline_ends (H0 := set_finite "Employee" [fun h => h]) 4096 ltac:(lia) 400 SmallRun.start).
  - apply VectorTupleSetIterator_new_ok.
  - vm_compute. reflexivity.
Defined.

Lemma pipeline_settles_pages_and_chunks_witness :
  unwrittenPages SmallRun.final = [] /\
  (forall h, (h < holders SmallRun.final)%nat -> settled h (page_log h (log SmallRun.final))) /\
  protocol true (chunk_log (log SmallRun.final)).
Proof.
  apply (pipeline_settles_pages_and_chunks (H := set_parts "Employee" [fun h => h]) 400 SmallRun.start 4096).
  - lia.
  - vm_compute. reflexivity.
Defined.
