(* ===== verification/PriorityQueue.v ===== *)
(** Priority queues as the shuffle join's sources use std::priority_queue
    (pdb/src/pipeline/headers/sources/): an interface that says what is on top
    and leaves open which of several equal elements that is, as the heap behind
    it does, and a list as an instance of it. *)

From S2P Require Import Prelude.

(** [greater x y = false] is an order in which any two elements compare: what
    the standard requires of a comparator, here on the elements of a list. *)
Definition weak_order {E} (greater : E -> E -> bool) (l : list E) : Prop :=
  (forall x y, x ∈ l -> y ∈ l -> greater x y = false \/ greater y x = false) /\
  (forall x y z, x ∈ l -> y ∈ l -> z ∈ l -> greater x y = false -> greater y z = false -> greater x z = false).

(** [pq_pop]: the top and the queue without it, none when the queue is empty. *)
Class PriorityQueue (E : Type) (greater : E -> E -> bool) := {
  queue : Type;
  pq_empty : queue;
  pq_push : E -> queue -> queue;
  pq_pop : queue -> option (E * queue);
  pq_elems : queue -> list E;
  pq_elems_empty : pq_elems pq_empty = [];
  pq_elems_push x q : pq_elems (pq_push x q) ≡ₚ x :: pq_elems q;
  pq_pop_None q : pq_pop q = None -> pq_elems q = [];
  pq_pop_Some q x q' : pq_pop q = Some (x, q') -> pq_elems q ≡ₚ x :: pq_elems q';
  pq_pop_least q x q' : weak_order greater (pq_elems q) -> pq_pop q = Some (x, q') ->
    forall y, y ∈ pq_elems q' -> greater x y = false
}.

Section interface.
Context {E greater} `{!PriorityQueue E greater}.

Definition pq_top (q : queue) : option E := fst <$> pq_pop q.
Definition pq_isEmpty (q : queue) : bool := match pq_pop q with Some _ => false | None => true end.

Lemma pq_pop_empty q : pq_elems q = [] -> pq_pop q = None.
Proof.
  intros H. destruct (pq_pop q) as [[x q']|] eqn:Ep; [|done].
  apply pq_pop_Some in Ep. rewrite H in Ep. by apply Permutation_nil_cons in Ep.
Qed.

Lemma weak_order_incl (l l' : list E) : (forall x, x ∈ l' -> x ∈ l) -> weak_order greater l -> weak_order greater l'.
Proof. intros Hl [H1 H2]. split; [auto|]. intros x y z Hx Hy Hz. apply H2; auto. Qed.
End interface.

(** A comparator that compares keys the elements have. *)
Lemma weak_order_key {E} (greater : E -> E -> bool) (key : E -> option Z) l :
  (forall x y a b, key x = Some a -> key y = Some b -> greater x y = (b <? a)%Z) ->
  (forall x, x ∈ l -> is_Some (key x)) -> weak_order greater l.
Proof.
  intros Hg Hk. split.
  - intros x y [a Hx]%Hk [b Hy]%Hk. rewrite (Hg _ _ _ _ Hx Hy), (Hg _ _ _ _ Hy Hx), !Z.ltb_ge. lia.
  - intros x y z [a Hx]%Hk [b Hy]%Hk [c Hz]%Hk.
    rewrite (Hg _ _ _ _ Hx Hy), (Hg _ _ _ _ Hy Hz), (Hg _ _ _ _ Hx Hz), !Z.ltb_ge. lia.
Qed.

(** ** Lists as queues *)

Section lists.
Context {E : Type} (greater : E -> E -> bool).

Fixpoint list_pop (l : list E) : option (E * list E) :=
  match l with
  | [] => None
  | x :: l' =>
      match list_pop l' with
      | None => Some (x, [])
      | Some (y, r) => if greater x y then Some (y, x :: r) else Some (x, l')
      end
  end.

Lemma list_pop_None l : list_pop l = None -> l = [].
Proof. destruct l as [|x l]; [done|]. simpl. destruct (list_pop l) as [[y r]|]; [|done]. by destruct (greater x y). Qed.

Lemma list_pop_Some l x l' : list_pop l = Some (x, l') -> l ≡ₚ x :: l'.
Proof.
  revert x l'. induction l as [|z l IH]; intros x l'; simpl; [done|].
  destruct (list_pop l) as [[y r]|] eqn:Ep; [|by intros [= -> <-]; rewrite (list_pop_None _ Ep)].
  destruct (greater z y); [|by intros [= -> ->]]. intros [= -> <-]. rewrite (IH x r) by done. apply Permutation_swap.
Qed.

Lemma list_pop_least l x l' :
  weak_order greater l -> list_pop l = Some (x, l') -> forall y, y ∈ l' -> greater x y = false.
Proof.
  revert x l'. induction l as [|z l IH]; intros x l' Hw; simpl; [done|].
  assert (Hl : weak_order greater l) by (eapply weak_order_incl; [|done]; set_solver).
  destruct (list_pop l) as [[y r]|] eqn:Ep; [|by intros [= -> <-] ? ?%elem_of_nil].
  pose proof (list_pop_Some _ _ _ Ep) as Hp. assert (Hy : y ∈ l) by (rewrite Hp; by left).
  destruct Hw as [Ht Htr]. destruct (greater z y) eqn:Eg; intros [= <- <-] w Hw.
  - apply elem_of_cons in Hw as [->|Hw]; [|by eapply IH].
    destruct (Ht z y) as [?|?]; [by left|by right|congruence|done].
  - rewrite Hp in Hw. apply elem_of_cons in Hw as [->|Hw]; [done|].
    apply (Htr z y w); [by left|by right| |done|by eapply IH]. right. rewrite Hp. by right.
Qed.

Definition list_queue : PriorityQueue E greater :=
  {| queue := list E; pq_empty := []; pq_push := cons; pq_pop := list_pop; pq_elems := fun l => l;
     pq_elems_empty := eq_refl; pq_elems_push := fun x q => Permutation_refl (x :: q);
     pq_pop_None := list_pop_None; pq_pop_Some := list_pop_Some; pq_pop_least := list_pop_least |}.
End lists.
