(* ===== verification/ShuffleJoin.v ===== *)
(** The sources of a shuffled join: RHSShuffleJoinSource, which hands out the
    records of the right side in the order of their hashes, and
    JoinedShuffleJoinSource, which merges them with the records of the left
    side.  pdb/src/pipeline/headers/sources/.

    Both read the join maps of one worker from pages, through iterators in a
    priority queue with the least hash on top. *)

From S2P Require Import Prelude Allocation SizePolicy AtomicComputation TupleSet JoinPairArray JoinTuple Executors JoinProbe PriorityQueue.

Open Scope Z_scope.

(** The page set's pages for the worker: on each a vector of join maps. *)
Abbreviation jpage := (list (JoinMap row)).

Section sources.
Context `{PQ : !PriorityQueue (JoinMapIterator row) hash_greater}.
Abbreviation iterators := (@queue _ _ PQ).

(** Both constructors' loop over the pages: the iterators over the worker's
    maps, as long as they are not empty, and the number of pages kept pinned. *)
Fixpoint open_pages (isEmpty : JoinMap row -> bool) (workerID : nat) (pages : list jpage) (st : iterators * nat)
    : M mem (iterators * nat) :=
  match pages with
  | [] => mret st
  | page :: pages' =>
      m <- unwrap OutOfRange (page !! workerID) ;;
      open_pages isEmpty workerID pages'
        (if isEmpty m then st else (pq_push (iterator_begin (myArray m)) st.1, S st.2))
  end.

(** The rounds an iterator has left, and all of them have together. *)
Definition rounds_left (it : JoinMapIterator row) : nat := length (iterationOrder it) - pos it.
Definition queue_rounds (q : iterators) : nat := sum_list (map rounds_left (pq_elems q)).

(** ** RHSShuffleJoinSource *)

Record RHSShuffleJoinSource := mkRHS {
  output : tsid;
  columns : list (option addr);
  hashColumn : addr;
  pageIterators : iterators;
  counts : list (Z * Z);
  chunkSize : Z;
  pages : nat
}.

Definition RHSShuffleJoinSource_new (ty : RHSType) (inputSchema hashSchema recordSchema : TupleSpec)
    (recordOrder : list Z) (rightInputPageSet : list jpage) (chunkSize : Z) (workerID : nat) : M mem RHSShuffleJoinSource :=
  out <- TupleSet_new ;;
  keyAtt <- first_match inputSchema hashSchema ;;
  let recordAttributes := match_ inputSchema recordSchema in
  cols <- (if (length ty <=? length recordAttributes)%nat then createCols ty out 0 recordOrder else ub OutOfRange) ;;
  hc <- new_col ColSize [] ;;
  _ <- addColumn out keyAtt ColSize hc false ;;
  st <- open_pages (fun m => isDone (iterator_begin (myArray m))) workerID rightInputPageSet (pq_empty, 0%nat) ;;
  mret (mkRHS out cols hc st.1 [] chunkSize st.2).

Definition emplace_back (hc : addr) (v : val) : M mem unit :=
  l <- read_as ColSize (Some hc) ;; write_col (Some hc) ColSize (l ++ [v]).
Definition resize_hashes (hc : addr) (n : nat) : M mem unit :=
  l <- read_as ColSize (Some hc) ;; write_col (Some hc) ColSize (vec_resize (VSize 0) n l).

(** The records of one slot, from row [count] on, an [int]. *)
Fixpoint emit_records (ty : RHSType) (columns : list (option addr)) (hc : addr) (hash : Z)
    (p : JoinPairArray row) (slot : nat) (whichs : list nat) (count : Z) : M mem Z :=
  match whichs with
  | [] => mret count
  | i :: whichs' =>
      a <- unwrap OutOfRange (record_at p slot i) ;;
      _ <- unpack ty a (Z.to_nat (u64 count)) columns ;;
      _ <- emplace_back hc (VSize hash) ;;
      emit_records ty columns hc hash p slot whichs' (i32 (count + 1))
  end.

(** [counts.emplace_back] for a new hash, and adding to the last entry. *)
Definition add_count (hash n : Z) (counts : list (Z * Z)) : list (Z * Z) :=
  match last counts with
  | Some (h, c) => if h =? hash then removelast counts ++ [(h, u64 (c + n))] else counts ++ [(hash, n)]
  | None => counts ++ [(hash, n)]
  end.

(** Reading through an iterator; at the end there is nothing to read. *)
Definition hash_of (it : JoinMapIterator row) : M mem Z := unwrap OutOfRange (iterator_hash it).
Definition slot_at (it : JoinMapIterator row) : M mem nat := unwrap OutOfRange (iterator_slot it).
Definition reinsert (it : JoinMapIterator row) (q : iterators) : iterators :=
  if isDone it then q else pq_push it q.

(** Whether the tuple set is full: more rows than a chunk has, and the next
    hash is another one. *)
Definition filled_up (chunkSize count hash : Z) (q : iterators) : M mem bool :=
  match pq_top q with
  | None => mret false
  | Some it =>
      if chunkSize <? u64 count
      then h <- hash_of it ;; mret (negb (h =? hash)) else mret false
  end.

(** The while loop. *)
Fixpoint fill (ty : RHSType) (src : RHSShuffleJoinSource) (fuel : nat) (q : iterators) (cs : list (Z * Z)) (count : Z)
    : M mem (iterators * list (Z * Z) * Z) :=
  match fuel with
  | O => fun _ => NoFuel
  | S fuel' =>
      match pq_pop q with
      | None => mret (q, cs, count)
      | Some (tmp, q1) =>
          hash <- hash_of tmp ;;
          slot <- slot_at tmp ;;
          let n := size (iterateMe tmp) slot in
          count' <- emit_records ty (columns src) (hashColumn src) hash (iterateMe tmp) slot (seq 0 (Z.to_nat n)) count ;;
          let cs' := add_count hash n cs in
          let q2 := reinsert (iterator_next tmp) q1 in
          full <- filled_up (chunkSize src) count' hash q2 ;;
          if full : bool then mret (q2, cs', count') else fill ty src fuel' q2 cs' count'
      end
  end.

Definition rhs_getNextTupleSet (ty : RHSType) (src : RHSShuffleJoinSource) : M mem (RHSShuffleJoinSource * option tsid) :=
  if pq_isEmpty (pageIterators src) then mret (src, None)
  else
    _ <- write_col (Some (hashColumn src)) ColSize [] ;;
    r <- fill ty src (S (queue_rounds (pageIterators src))) (pageIterators src) [] 0 ;;
    let '(q, cs, count) := r in
    _ <- erase_rest ty (columns src) count ;;
    _ <- resize_hashes (hashColumn src) (Z.to_nat (u32 count)) ;;
    mret (mkRHS (output src) (columns src) (hashColumn src) q cs (chunkSize src) (pages src), Some (output src)).

(** ** JoinedShuffleJoinSource *)

Record JoinedShuffleJoinSource := mkJoined {
  j_output : tsid;
  outputSize : Z;
  buffer : tsid;
  bufferSize : Z;
  rhsMachine : TupleSetSetupMachine;
  lhsIterators : iterators;
  lhsColumns : list (option addr);
  offset : Z;
  j_counts : list Z;
  lhsPages : nat
}.

Definition JoinedShuffleJoinSource_new (ty : RHSType) (inputSchemaRHS recordSchemaRHS : TupleSpec)
    (lhsInputPageSet : list jpage) (lhsRecordOrder : list Z) (needToSwapLHSAndRhs : bool) (workerID : nat)
    : M mem JoinedShuffleJoinSource :=
  st <- open_pages (fun m => map_size m =? 0) workerID lhsInputPageSet (pq_empty, 0%nat) ;;
  out <- TupleSet_new ;;
  buf <- TupleSet_new ;;
  cols <- (if (length ty <=? length lhsRecordOrder)%nat
           then createCols ty out (if needToSwapLHSAndRhs then Z.of_nat (length (getAtts recordSchemaRHS)) else 0) lhsRecordOrder
           else ub OutOfRange) ;;
  mret (mkJoined out 0 buf 0 (TupleSetSetupMachine_of inputSchemaRHS recordSchemaRHS) st.1 cols
          (if needToSwapLHSAndRhs then 0 else Z.of_nat (length lhsRecordOrder)) [] st.2).

(** The first loop: on to the first hash that is not below [rhsHash]; the
    current iterator and its hash are those of the last round. *)
Fixpoint seek (fuel : nat) (rhsHash : Z) (q : iterators) (cur : option (JoinMapIterator row)) (lhsHash : Z)
    : M mem (option (JoinMapIterator row) * Z * iterators) :=
  match fuel with
  | O => fun _ => NoFuel
  | S fuel' =>
      match pq_pop q with
      | None => mret (cur, lhsHash, q)
      | Some (it, q1) =>
          h <- hash_of it ;;
          if rhsHash <? h then mret (Some it, h, q)
          else
            let q2 := reinsert (iterator_plus it 1) q1 in
            if h <? rhsHash then seek fuel' rhsHash q2 (Some it) h else mret (Some it, h, q2)
      end
  end.

(** The second loop: all other iterators at the same hash.  Its condition is
    evaluated after [continue] as well, on what may be an empty queue. *)
Fixpoint same_hash (fuel : nat) (rhsHash : Z) (q : iterators) (currIterators : list (JoinMapIterator row))
    : M mem (list (JoinMapIterator row) * iterators) :=
  match fuel with
  | O => fun _ => NoFuel
  | S fuel' =>
      match pq_pop q with
      | None => mret (currIterators, q)
      | Some (it, q1) =>
          h <- hash_of it ;;
          let '(cs, q2) := if h =? rhsHash then (currIterators ++ [it], reinsert (iterator_plus it 1) q1) else (currIterators, q) in
          t <- unwrap EmptyTop (pq_top q2) ;;
          h' <- hash_of t ;;
          if h' =? rhsHash then same_hash fuel' rhsHash q2 cs else mret (cs, q2)
      end
  end.

(** The left records of one iterator, for one right record. *)
Fixpoint emit_lhs (ty : RHSType) (columns : list (option addr)) (p : JoinPairArray row) (slot : nat)
    (whichs : list nat) (outputSize : Z) : M mem Z :=
  match whichs with
  | [] => mret outputSize
  | which :: whichs' =>
      a <- unwrap OutOfRange (record_at p slot which) ;;
      _ <- unpack ty a (Z.to_nat outputSize) columns ;;
      emit_lhs ty columns p slot whichs' (u64 (outputSize + 1))
  end.
(** [counts[at] += n] *)
Definition bump (at_ : nat) (n : Z) (counts : list Z) : M mem (list Z) :=
  c <- unwrap OutOfRange (counts !! at_) ;; mret (<[at_ := u32 (c + n)]> counts).
Fixpoint emit_iterators (ty : RHSType) (columns : list (option addr)) (at_ : nat)
    (its : list (JoinMapIterator row)) (counts : list Z) (outputSize : Z) : M mem (list Z * Z) :=
  match its with
  | [] => mret (counts, outputSize)
  | it :: its' =>
      slot <- slot_at it ;;
      let n := size (iterateMe it) slot in
      counts' <- bump at_ n counts ;;
      outputSize' <- emit_lhs ty columns (iterateMe it) slot (seq 0 (Z.to_nat n)) outputSize ;;
      emit_iterators ty columns at_ its' counts' outputSize'
  end.
Fixpoint emit_rows (ty : RHSType) (columns : list (option addr)) (its : list (JoinMapIterator row))
    (ats : list nat) (counts : list Z) (outputSize : Z) : M mem (list Z * Z) :=
  match ats with
  | [] => mret (counts, outputSize)
  | at_ :: ats' =>
      r <- emit_iterators ty columns at_ its counts outputSize ;;
      emit_rows ty columns its ats' r.1 r.2
  end.

(** What the loop over the right hashes carries along. *)
Record join_loop := mkLoop { l_queue : iterators; l_counts : list Z; l_size : Z }.

(** The left iterators at a right hash; none where the loop goes on to the next
    hash at once. *)
Definition match_hash (rhsHash : Z) (q : iterators) : M mem (option (list (JoinMapIterator row)) * iterators) :=
  match pq_top q with
  | None => mret (None, q)
  | Some it =>
      h <- hash_of it ;;
      if rhsHash <? h then mret (None, q)
      else
        s <- seek (S (queue_rounds q)) rhsHash q None 0 ;;
        let '(cur, lhsHash, q) := s in
        if rhsHash <? lhsHash then mret (None, q)
        else
          cur <- unwrap NullDeref cur ;;
          r <- same_hash (S (queue_rounds q)) rhsHash q [cur] ;;
          mret (Some r.1, r.2)
  end.

Definition join_hash (ty : RHSType) (columns : list (option addr)) (st : join_loop) (currHash : Z * Z) : M mem join_loop :=
  let '(rhsHash, rhsCount) := currHash in
  let counts := l_counts st ++ replicate (Z.to_nat rhsCount) 0 in
  r <- match_hash rhsHash (l_queue st) ;;
  match r.1 with
  | None => mret (mkLoop r.2 counts (l_size st))
  | Some currIterators =>
      e <- emit_rows ty columns currIterators (seq (length (l_counts st)) (Z.to_nat rhsCount)) counts (l_size st) ;;
      mret (mkLoop r.2 e.1 e.2)
  end.
Fixpoint join_hashes (ty : RHSType) (columns : list (option addr)) (st : join_loop) (hashes : list (Z * Z)) : M mem join_loop :=
  match hashes with
  | [] => mret st
  | currHash :: hashes' => st' <- join_hash ty columns st currHash ;; join_hashes ty columns st' hashes'
  end.

Definition set_sizes (o b : Z) (src : JoinedShuffleJoinSource) : JoinedShuffleJoinSource :=
  mkJoined (j_output src) o (buffer src) b (rhsMachine src) (lhsIterators src) (lhsColumns src) (offset src)
    (j_counts src) (lhsPages src).
Definition set_joined (st : join_loop) (src : JoinedShuffleJoinSource) : JoinedShuffleJoinSource :=
  mkJoined (j_output src) (l_size st) (buffer src) (bufferSize src) (rhsMachine src) (l_queue st) (lhsColumns src)
    (offset src) (l_counts st) (lhsPages src).

(** Step 0. *)
Definition joined_rebuffer (p : SizePolicy) (src : JoinedShuffleJoinSource) : M mem JoinedShuffleJoinSource :=
  if inputWasProcessed p then mret src
  else
    _ <- ts_merge (buffer src) (j_output src) ;;
    mret (set_sizes 0 (u64 (bufferSize src + outputSize src)) src).

(** Step 1. *)
Definition joined_from_buffer (p : SizePolicy) (src : JoinedShuffleJoinSource) : M mem JoinedShuffleJoinSource :=
  let n := Z.min (bufferSize src) (u64 (getChunksSize p)) in
  let left := bufferSize src - n in
  _ <- ts_split (buffer src) (j_output src) (Z.to_nat left) ;;
  mret (set_sizes n left src).

(** The join of one tuple set [rhs] of the right side with the left side. *)
Definition joined_join (ty : RHSType) (src : JoinedShuffleJoinSource) (rhs : tsid) (hashes : list (Z * Z))
    : M mem JoinedShuffleJoinSource :=
  st <- join_hashes ty (lhsColumns src) (mkLoop (lhsIterators src) [] 0) hashes ;;
  _ <- erase_rest ty (lhsColumns src) (i32 (l_size st)) ;;
  _ <- machine_replicate (rhsMachine src) rhs (j_output src) (l_counts st) (offset src) ;;
  mret (set_joined st src).

(** Step 4. *)
Definition joined_overflow (p : SizePolicy) (src : JoinedShuffleJoinSource) : M mem JoinedShuffleJoinSource :=
  let chunk := u64 (getChunksSize p) in
  if chunk <? outputSize src then
    _ <- ts_split (j_output src) (buffer src) (Z.to_nat chunk) ;;
    mret (set_sizes chunk (outputSize src - chunk) src)
  else mret src.

(** [rhsSource] is any source with the interface of RHSShuffleJoinSourceBase:
    [next] gives its next tuple set and the counts of its hashes. *)
Definition joined_getNextTupleSet {R} (next : R -> M mem (R * option tsid * list (Z * Z))) (ty : RHSType) (p : SizePolicy)
    (src : JoinedShuffleJoinSource) (rhsSource : R) : M mem (JoinedShuffleJoinSource * R * option tsid) :=
  src <- joined_rebuffer p src ;;
  if negb (bufferSize src =? 0) then
    src <- joined_from_buffer p src ;;
    mret (src, rhsSource, Some (j_output src))
  else
    r <- next rhsSource ;;
    let '(rhsSource', rhsTuple, hashes) := r in
    match rhsTuple with
    | None => mret (src, rhsSource', None)
    | Some rhs =>
        src <- joined_join ty src rhs hashes ;;
        src <- joined_overflow p src ;;
        mret (src, rhsSource', Some (j_output src))
    end.

(** RHSShuffleJoinSource as such a source. *)
Definition rhs_next (ty : RHSType) (src : RHSShuffleJoinSource) : M mem (RHSShuffleJoinSource * option tsid * list (Z * Z)) :=
  r <- rhs_getNextTupleSet ty src ;; mret (r.1, r.2, counts r.1).
End sources.
Arguments RHSShuffleJoinSource {PQ}.
Arguments JoinedShuffleJoinSource {PQ}.
Arguments join_loop {PQ}.
