(* ===== verification/ShuffleRhsSpec.v ===== *)
(** The right source of a shuffled join: iterators over hash tables in a
    priority queue, and what getNextTupleSet makes of them. *)

From stdpp Require Import list sorting.
From S2P Require Import Prelude AtomicComputation TupleSet TupleSetOwnership TupleSetSpec Allocation SinkState JoinPairArray Multimap JoinTuple JoinSinks JoinProbe PriorityQueue ShuffleJoin.

Open Scope Z_scope.

(** A hash with its records. *)
Abbreviation group := (Z * list row)%type.

(** ** One iterator *)

(** An iterator over a map that stands on a slot. *)
Record it_ok (it : JoinMapIterator row) : Prop := {
  io_array : jpa_ok (iterateMe it);
  io_order : iterationOrder it = order (iterateMe it);
  io_pos : (pos it < length (iterationOrder it))%nat;
  io_done : done it = false
}.

Definition group_of (p : JoinPairArray row) (x : nat * Z) : group := (x.2, view p x.2).
(** What an iterator has still to read. *)
Definition entries (it : JoinMapIterator row) : list group :=
  map (group_of (iterateMe it)) (drop (pos it) (iterationOrder it)).
(** The groups of a map, in the order of their hashes. *)
Definition groups (p : JoinPairArray row) : list group := map (group_of p) (order p).

Lemma iterator_begin_entries p : entries (iterator_begin p) = groups p.
Proof. done. Qed.

Lemma iterator_begin_ok p : jpa_ok p -> isDone (iterator_begin p) = false -> it_ok (iterator_begin p).
Proof.
  intros H Hd. split; [done|done| |done]. unfold isDone in Hd. simpl in *. apply bool_decide_eq_false in Hd.
  destruct (merge_sort _ _); [done|simpl; lia].
Qed.

Lemma iterator_begin_done p : isDone (iterator_begin p) = true <-> groups p = [].
Proof.
  unfold groups, order, isDone. simpl. rewrite bool_decide_eq_true. split; [by intros ->|apply map_eq_nil].
Qed.

(** The groups left are in ascending order of their hashes. *)
Lemma entries_ascending it :
  jpa_ok (iterateMe it) -> iterationOrder it = order (iterateMe it) -> StronglySorted Z.lt (map fst (entries it)).
Proof.
  intros H Ho. unfold entries. rewrite map_map. simpl.
  assert (Hs : StronglySorted Z.lt (map snd (order (iterateMe it)))).
  { apply sorted_ascending; [by apply order_NoDup|apply order_sorted]. }
  rewrite <- Ho in Hs. rewrite <- (take_drop (pos it) (iterationOrder it)), map_app in Hs.
  induction (map snd (take (pos it) (iterationOrder it))) as [|x l IH]; [done|]. apply IH.
  simpl in Hs. by apply StronglySorted_inv in Hs as [? _].
Qed.

(** One step of an iterator. *)
Lemma it_step it :
  it_ok it -> exists s h, let next := iterator_next it in let recs := view (iterateMe it) h in
    iterator_slot it = Some s /\ iterator_hash it = Some h /\ record_list (iterateMe it) s = Some recs /\
    recs <> [] /\ norm_hash h = h /\ entries it = (h, recs) :: entries next /\
    (forall e, e ∈ entries next -> h < e.1) /\
    rounds_left it = S (rounds_left next) /\ iterateMe next = iterateMe it /\
    (if isDone next then entries next = [] else it_ok next).
Proof.
  intros [Ha Ho Hp Hd]. destruct (lookup_lt_is_Some_2 _ _ Hp) as [[s h] Hl]. exists s, h. cbv zeta.
  assert (Hin : (s, h) ∈ order (iterateMe it)) by (rewrite <- Ho; by eapply list_elem_of_lookup_2).
  destruct (order_records _ _ _ Ha Hin) as (Hh & Hn & Hr & Hne).
  assert (He : entries it = (h, view (iterateMe it) h) :: entries (iterator_next it)).
  { unfold entries. rewrite (drop_S _ _ _ Hl). simpl. by rewrite Hd. }
  split_and!; try done.
  - unfold iterator_slot. by rewrite Hl.
  - unfold iterator_hash, iterator_slot. rewrite Hl. simpl. by rewrite Hh.
  - intros e Hin'. pose proof (entries_ascending it Ha Ho) as Hs. rewrite He in Hs. simpl in Hs.
    apply StronglySorted_inv in Hs as [_ Hs]. rewrite Forall_forall in Hs. apply Hs, list_elem_of_fmap. by exists e.
  - unfold rounds_left, iterator_next. simpl. rewrite Hd. lia.
  - unfold iterator_next, isDone. simpl. rewrite Hd. destruct (Nat.eqb_spec (S (pos it)) (length (iterationOrder it))) as [E|E].
    + unfold entries. simpl. by rewrite drop_ge by lia.
    + split; simpl; [done|done|lia|done].
Qed.

(** [it + 1] is the step. *)
Lemma plus_one it : it_ok it -> iterator_plus it 1 = iterator_next it.
Proof.
  intros [_ _ Hp Hd]. unfold iterator_plus, iterator_next. rewrite Hd.
  destruct (Nat.eqb_spec (S (pos it)) (length (iterationOrder it))) as [E|E].
  - rewrite (proj2 (Nat.leb_le _ _)) by lia. by rewrite E.
  - rewrite (proj2 (Nat.leb_gt _ _)) by lia. f_equal. lia.
Qed.

(** ** The queue *)

Section queue.
Context `{PQ : !PriorityQueue (JoinMapIterator row) hash_greater}.
Abbreviation iterators := (@queue _ _ PQ).

Definition queue_ok (q : iterators) : Prop := forall it, it ∈ pq_elems q -> it_ok it.
(** Everything left to read. *)
Definition left_in (q : iterators) : list group := concat (map entries (pq_elems q)).

Lemma queue_ok_empty : queue_ok pq_empty.
Proof. intros it. rewrite pq_elems_empty. by intros ?%elem_of_nil. Qed.
Lemma left_in_empty : left_in pq_empty = [].
Proof. unfold left_in. by rewrite pq_elems_empty. Qed.

Lemma queue_ok_order q : queue_ok q -> weak_order hash_greater (pq_elems q).
Proof.
  intros H. apply (weak_order_key _ iterator_hash).
  - intros x y a b Hx Hy. unfold hash_greater. by rewrite Hx, Hy.
  - intros it Hit. destruct (it_step it (H it Hit)) as (s & h & _ & -> & _). by eexists.
Qed.

Lemma queue_ok_push it q : it_ok it -> queue_ok q -> queue_ok (pq_push it q).
Proof. intros Hi Hq x. rewrite pq_elems_push. intros [->|Hx]%elem_of_cons; auto. Qed.
Lemma left_in_push it q : left_in (pq_push it q) ≡ₚ entries it ++ left_in q.
Proof. unfold left_in. by rewrite pq_elems_push. Qed.

Lemma reinsert_spec it q :
  (if isDone it then entries it = [] else it_ok it) -> queue_ok q ->
  queue_ok (reinsert it q) /\ left_in (reinsert it q) ≡ₚ entries it ++ left_in q /\
  (queue_rounds (reinsert it q) <= rounds_left it + queue_rounds q)%nat.
Proof.
  unfold reinsert. destruct (isDone it).
  - intros -> Hq. split_and!; [done|done|lia].
  - intros Hi Hq. split_and!; [by apply queue_ok_push|by apply left_in_push|].
    unfold queue_rounds. by rewrite pq_elems_push.
Qed.

Lemma left_in_nonempty q : queue_ok q -> left_in q = [] -> pq_elems q = [].
Proof.
  unfold left_in. intros Hq. destruct (pq_elems q) as [|it l] eqn:E; [done|]. simpl.
  destruct (it_step it) as (s & h & _ & _ & _ & _ & _ & -> & _); [apply Hq; rewrite E; by left|done].
Qed.

(** Taking the top off and putting its successor back. *)
Record popped (q : iterators) (it : JoinMapIterator row) (q1 : iterators) (h : Z) (recs : list row) : Prop := {
  po_pop : pq_pop q = Some (it, q1);
  po_slot : exists s, iterator_slot it = Some s /\ record_list (iterateMe it) s = Some recs;
  po_hash : iterator_hash it = Some h;
  po_recs : recs <> [];
  po_norm : norm_hash h = h;
  po_ok : it_ok it;
  po_next : queue_ok (reinsert (iterator_next it) q1);
  po_left : left_in q ≡ₚ (h, recs) :: left_in (reinsert (iterator_next it) q1);
  po_least e : e ∈ left_in q -> h <= e.1;
  po_rounds : (queue_rounds (reinsert (iterator_next it) q1) < queue_rounds q)%nat
}.

Lemma pop_None q : queue_ok q -> pq_pop q = None -> left_in q = [].
Proof. intros _ H. unfold left_in. by rewrite (pq_pop_None _ H). Qed.
Lemma pop_empty q : queue_ok q -> left_in q = [] -> pq_pop q = None.
Proof. intros Hq H. by apply pq_pop_empty, left_in_nonempty. Qed.

Lemma pop_Some q it q1 : queue_ok q -> pq_pop q = Some (it, q1) -> exists h recs, popped q it q1 h recs.
Proof.
  intros Hq Hp. pose proof (pq_pop_Some _ _ _ Hp) as Hel.
  assert (Hit : it_ok it) by (apply Hq; rewrite Hel; by left).
  assert (Hq1 : queue_ok q1) by (intros x Hx; apply Hq; rewrite Hel; by right).
  destruct (it_step it Hit) as (s & h & Hs & Hh & Hr & Hne & Hn & He & Hlt & Hrd & _ & Hnext).
  destruct (reinsert_spec _ _ Hnext Hq1) as (Hok & Hl & Hrnd).
  assert (Hleft : left_in q ≡ₚ entries it ++ left_in q1) by (unfold left_in; by rewrite Hel).
  exists h, (view (iterateMe it) h). split; try done; eauto.
  - by rewrite Hleft, Hl, He.
  - intros e. rewrite Hleft, He. intros [[->|Hin]%elem_of_cons|Hin]%elem_of_app; [done| |].
    { apply Hlt in Hin. lia. }
    unfold left_in in Hin. apply list_elem_of_In, in_concat in Hin as (l & (x & <- & Hx%list_elem_of_In)%in_map_iff & Hin%list_elem_of_In).
    pose proof (pq_pop_least _ _ _ (queue_ok_order q Hq) Hp x Hx) as Hg.
    destruct (it_step x (Hq1 x Hx)) as (s' & h' & _ & Hh' & _ & _ & _ & He' & Hlt' & _).
    unfold hash_greater in Hg. rewrite Hh, Hh', Z.ltb_ge in Hg. rewrite He' in Hin.
    apply elem_of_cons in Hin as [->|Hin]; [done|]. apply Hlt' in Hin. lia.
  - assert (Hr2 : queue_rounds q = (rounds_left it + queue_rounds q1)%nat).
    { unfold queue_rounds. by rewrite Hel. }
    lia.
Qed.

(** The hash on top. *)
Lemma top_hash q e : queue_ok q -> e ∈ left_in q ->
  exists it h, pq_top q = Some it /\ iterator_hash it = Some h /\ (exists recs, (h, recs) ∈ left_in q) /\
    forall e, e ∈ left_in q -> h <= e.1.
Proof.
  intros Hq He. unfold pq_top. destruct (pq_pop q) as [[it q1]|] eqn:Hp.
  - destruct (pop_Some q it q1 Hq Hp) as (h & recs & H). exists it, h. split_and!; [done|apply H| |apply H].
    exists recs. rewrite (po_left _ _ _ _ _ H). by left.
  - rewrite (pop_None q Hq Hp) in He. by apply elem_of_nil in He.
Qed.

(** ** Opening the pages *)

Definition worker_groups (workerID : nat) (pages : list (list (JoinMap row))) : list group :=
  concat (map (fun page => match page !! workerID with Some m => groups (myArray m) | None => [] end) pages).

Lemma open_pages_spec (isEmpty : JoinMap row -> bool) workerID pages st m :
  (forall page, page ∈ pages -> exists x, page !! workerID = Some x /\ jpa_ok (myArray x) /\
     (isEmpty x = true <-> groups (myArray x) = [])) -> queue_ok st.1 ->
  exists q n, open_pages isEmpty workerID pages st m = Ok (q, n) m /\ queue_ok q /\
    left_in q ≡ₚ left_in st.1 ++ worker_groups workerID pages.
Proof.
  revert st. induction pages as [|page pages IH]; intros [q n] H Hq; simpl.
  { exists q, n. unfold worker_groups. simpl. by rewrite app_nil_r. }
  destruct (H page) as (x & Hx & Hok & He); [by left|]. rewrite Hx. simpl. rewrite (bind_Ok _ _ _ x m) by done.
  unfold worker_groups. simpl. rewrite Hx. fold (worker_groups workerID pages).
  assert (H' : forall p, p ∈ pages -> exists x, p !! workerID = Some x /\ jpa_ok (myArray x) /\
     (isEmpty x = true <-> groups (myArray x) = [])) by (intros p Hp; apply H; by right).
  destruct (isEmpty x) eqn:Ee.
  - destruct (IH (q, n) H' Hq) as (q' & n' & E' & Hq' & Hl'). exists q', n'. split; [exact E'|]. split; [exact Hq'|].
    by rewrite (proj1 He eq_refl).
  - destruct (IH (pq_push (iterator_begin (myArray x)) q, S n) H') as (q' & n' & E' & Hq' & Hl').
    { apply queue_ok_push; [|done]. apply iterator_begin_ok; [done|].
      destruct (isDone _) eqn:Ed; [|done]. apply iterator_begin_done in Ed. by apply He in Ed. }
    exists q', n'. split; [exact E'|]. split; [exact Hq'|].
    rewrite Hl'. simpl. rewrite left_in_push, iterator_begin_entries, (Permutation_app_comm (groups _)), <- app_assoc. done.
Qed.
End queue.

(** ** Writing to the vectors of a store *)

Definition wrote (l : list addr) (m m' : mem) : Prop :=
  sets m' = sets m /\ forall a, a ∉ l -> cols m' !! a = cols m !! a.

Lemma wrote_refl l m : wrote l m m.
Proof. done. Qed.
Lemma wrote_trans l m1 m2 m3 : wrote l m1 m2 -> wrote l m2 m3 -> wrote l m1 m3.
Proof. intros [H1 H2] [H3 H4]. split; [congruence|]. intros a Ha. by rewrite H4, H2. Qed.
Lemma wrote_weaken l l' m m' : (forall a, a ∈ l -> a ∈ l') -> wrote l m m' -> wrote l' m m'.
Proof. intros Hl [H1 H2]. split; [done|]. auto. Qed.
Lemma wrote_col l a c m m' : wrote l m m' -> a ∉ l -> cols m !! a = Some c -> cols m' !! a = Some c.
Proof. intros [_ H] Ha. by rewrite H. Qed.
Lemma wrote_entry l m m' ts k : wrote l m m' -> entry m' ts k = entry m ts k.
Proof. intros [H _]. by apply entry_sets. Qed.
Lemma wrote_write a c m : wrote [a] m (set_cols <[a := c]> m).
Proof. split; [done|]. intros b Hb. simpl. rewrite lookup_insert_ne; [done|]. intros ->. apply Hb. by left. Qed.

Lemma write_col_wrote a t l m : write_col (Some a) t l m = Ok tt (set_cols <[a := mkColumn t l]> m).
Proof. done. Qed.

Lemma copyTo_wrote f d a c m m' : copyTo f d (Some a) c m = Ok tt m' -> wrote [a] m m'.
Proof.
  unfold copyTo. intros (l & m1 & Hr & Hw)%bind_Ok_inv. apply read_as_inv in Hr as (-> & b & [= <-] & _).
  destruct (_ <=? _)%nat; unfold write_col, modify in Hw; injection Hw as <-; apply wrote_write.
Qed.

Lemma unpack_wrote ty r c us m m' : unpack ty r c (map Some us) m = Ok tt m' -> wrote us m m'.
Proof.
  revert r us m. induction ty as [|f ty IH]; intros r us m; simpl.
  { intros [= <-]. apply wrote_refl. }
  destruct r as [|d r]; [done|]. destruct us as [|u us]; [done|]. simpl.
  intros ([] & m1 & H1%copyTo_wrote & H2%IH)%bind_Ok_inv.
  eapply wrote_trans; (eapply wrote_weaken; [|done]); set_solver.
Qed.

Lemma eraseEnd_wrote ty i us m m' : eraseEnd ty i (map Some us) m = Ok tt m' -> wrote us m m'.
Proof.
  revert us m. induction ty as [|f ty IH]; intros us m; simpl.
  { intros [= <-]. apply wrote_refl. }
  destruct us as [|u us]; [done|]. simpl. intros ([] & m1 & H1 & H2%IH)%bind_Ok_inv.
  unfold eraseEnd_col in H1. apply bind_Ok_inv in H1 as (l & m2 & Hr & Hw).
  apply read_as_inv in Hr as (-> & b & [= <-] & _). injection Hw as <-.
  eapply wrote_trans; [eapply wrote_weaken; [|apply wrote_write]|eapply wrote_weaken; [|done]]; set_solver.
Qed.

(** ** Groups of records *)

Definition rows_of (g : list group) : list row := concat (map snd g).
Definition hashes_of (g : list group) : list Z := concat (map (fun e => replicate (length e.2) e.1) g).
Definition counts_of (cs : list (Z * Z)) (g : list group) : list (Z * Z) :=
  foldl (fun cs e => add_count e.1 (Z.of_nat (length e.2)) cs) cs g.

Lemma rows_of_app g1 g2 : rows_of (g1 ++ g2) = rows_of g1 ++ rows_of g2.
Proof. unfold rows_of. by rewrite map_app, concat_app. Qed.
Lemma rows_of_perm g1 g2 : g1 ≡ₚ g2 -> rows_of g1 ≡ₚ rows_of g2.
Proof. unfold rows_of. by intros ->. Qed.
Lemma rows_of_le g1 g2 g : g ≡ₚ g1 ++ g2 -> length (rows_of g) = (length (rows_of g1) + length (rows_of g2))%nat.
Proof. intros H. by rewrite (rows_of_perm _ _ H), rows_of_app, length_app. Qed.

(** ** Emitting the records of a slot *)

Section rhs.
Context (ext : gset addr) (out : tsid) (ty : RHSType) (kfs : list Z) (us : list addr) (hc : addr).
Context (Hhc : hc ∈ ext).

(** The columns hold the rows [d] and the hashes [hs]. *)
Record rhs_rows (d : list row) (hs : list Z) (Ls : list (list val)) (m : mem) : Prop := {
  rr_inv : mem_inv ext ∅ m;
  rr_cols : probe_cols out m ty kfs us Ls;
  rr_rows : holds d Ls;
  rr_hashes : cols m !! hc = Some (mkColumn ColSize (map VSize hs))
}.

Lemma at_col_not_hc m k a t l : mem_inv ext ∅ m -> at_col out m k a t l -> a <> hc.
Proof.
  intros Hi (mf & (He & _ & _) & Hd) ->. destruct (inv_ext _ _ _ Hi hc Hhc) as [_ Hno].
  apply (Hno out k); [set_solver|by exists mf].
Qed.

Lemma probe_cols_us m Ls a : mem_inv ext ∅ m -> probe_cols out m ty kfs us Ls -> a ∈ us -> a <> hc.
Proof.
  intros Hi. induction 1 as [|f ty' k kfs' a' us' L Ls' Hat H IH]; [by intros ?%elem_of_nil|].
  intros [->|Ha]%elem_of_cons; [by eapply at_col_not_hc|auto].
Qed.

(** Writing the hashes disturbs nothing else. *)
Lemma write_hashes m d hs hs' Ls :
  rhs_rows d hs Ls m ->
  let m' := set_cols <[hc := mkColumn ColSize (map VSize hs')]> m in
  write_col (Some hc) ColSize (map VSize hs') m = Ok tt m' /\ rhs_rows d hs' Ls m' /\ wrote (hc :: us) m m'.
Proof.
  intros [Hi Hc Hr Hh] m'. split; [done|]. split.
  - split; [by eapply mem_inv_write| |done|simpl; by rewrite lookup_insert_eq].
    eapply probe_cols_mono; [|done]. intros k a t v _ Hat. pose proof (at_col_not_hc _ _ _ _ _ Hi Hat).
    destruct Hat as (mf & (He & Hcol & Hf) & Hd). exists mf. split; [|done]. split_and!; [done| |done].
    simpl. by rewrite lookup_insert_ne.
  - eapply wrote_weaken; [|apply wrote_write]. intros a ->%list_elem_of_singleton. by left.
Qed.

Lemma emplace_back_spec m d hs h Ls :
  rhs_rows d hs Ls m ->
  exists m', emplace_back hc (VSize h) m = Ok tt m' /\ rhs_rows d (hs ++ [h]) Ls m' /\ wrote (hc :: us) m m'.
Proof.
  intros H. destruct (write_hashes m d hs (hs ++ [h]) Ls H) as (E & H' & Hw). eexists. split_and!; [|done|done].
  unfold emplace_back. rewrite (bind_Ok _ _ _ _ _ (read_as_eq _ _ _ _ (rr_hashes _ _ _ _ H))).
  replace (map VSize hs ++ [VSize h]) with (map VSize (hs ++ [h])) by by rewrite map_app. exact E.
Qed.

Context (Hnd : NoDup kfs).

Lemma unpack_row_spec m d hs Ls r :
  rhs_rows d hs Ls m -> length r = length ty ->
  exists m' Ls', unpack ty r (length d) (map Some us) m = Ok tt m' /\ rhs_rows (d ++ [r]) hs Ls' m' /\ wrote (hc :: us) m m'.
Proof.
  intros [Hi Hc Hr Hh] Hl.
  destruct (unpack_spec ext out m ty kfs us Ls r (length d)) as (m' & E & (Hi' & _ & _) & Hc'); try done.
  pose proof (unpack_wrote _ _ _ _ _ _ E) as Hw.
  exists m', (zip_with (fun x L => put_row (length d) (VHandle x) L) r Ls). split_and!; [done| |].
  - split; [done|done|by apply holds_snoc|]. eapply wrote_col; [done| |done].
    intros Hin. by eapply probe_cols_us.
  - eapply wrote_weaken; [|done]. intros a Ha. by right.
Qed.

Lemma u64_int n : (Z.of_nat n < 2 ^ 31) -> u64 (Z.of_nat n) = Z.of_nat n.
Proof. intros H. unfold u64, wrapu. apply Z.mod_small. lia. Qed.

Lemma emit_records_spec p slot l h k i d hs m Ls :
  record_list p slot = Some l -> (i + k)%nat = length l ->
  (forall r, r ∈ l -> length r = length ty) -> Z.of_nat (length d + k) < 2 ^ 31 ->
  rhs_rows d hs Ls m ->
  exists m' Ls', emit_records ty (map Some us) hc h p slot (seq i k) (Z.of_nat (length d)) m =
      Ok (Z.of_nat (length d + k)) m' /\
    rhs_rows (d ++ drop i l) (hs ++ replicate k h) Ls' m' /\ wrote (hc :: us) m m'.
Proof.
  intros Hl. revert i d hs m Ls. induction k as [|k IH]; intros i d hs m Ls Hik Hty Hb H.
  { exists m, Ls. rewrite drop_ge, !app_nil_r, Nat.add_0_r by lia. split_and!; [done|done|apply wrote_refl]. }
  destruct (lookup_lt_is_Some_2 l i) as [r Hr]; [lia|].
  destruct (unpack_row_spec m d hs Ls r H) as (m1 & Ls1 & E1 & H1 & Hw1); [by eapply Hty, list_elem_of_lookup_2|].
  destruct (emplace_back_spec m1 _ _ h _ H1) as (m2 & E2 & H2 & Hw2).
  destruct (IH (S i) (d ++ [r]) (hs ++ [h]) m2 Ls1 ltac:(lia) Hty) as (m3 & Ls3 & E3 & H3 & Hw3);
    [rewrite length_app; simpl; lia|done|].
  exists m3, Ls3. split_and!; [| |by eapply wrote_trans; [eapply wrote_trans|]].
  - simpl. rewrite (record_at_list _ _ _ _ Hl), Hr. simpl. rewrite (bind_Ok _ _ _ r m) by done.
    rewrite u64_int, Nat2Z.id by lia. rewrite (bind_Ok _ _ _ _ _ E1), (bind_Ok _ _ _ _ _ E2), i32_small by lia.
    rewrite length_app in E3. simpl in E3. replace (Z.of_nat (length d) + 1) with (Z.of_nat (length d + 1)) by lia.
    rewrite E3. f_equal. lia.
  - rewrite (drop_S _ _ _ Hr). rewrite <- !app_assoc in H3. exact H3.
Qed.

(** ** Filling the tuple set *)

Context `{PQ : !PriorityQueue (JoinMapIterator row) hash_greater}.
Abbreviation iterators := (@queue _ _ PQ).

Definition rows_typed (g : list group) : Prop := forall e r, e ∈ g -> r ∈ e.2 -> length r = length ty.

(** The groups [g] were read from [q], in order, and [q'] is what is left: only
    higher hashes. *)
Record read_off (q : iterators) (g : list group) (q' : iterators) : Prop := {
  ro_ok : queue_ok q';
  ro_left : left_in q ≡ₚ g ++ left_in q';
  ro_sorted : StronglySorted Z.le (map fst g);
  ro_above e e' : e ∈ g -> e' ∈ left_in q' -> e.1 < e'.1;
  ro_some e : e ∈ g -> e.2 <> [];
  ro_norm e : e ∈ g -> norm_hash e.1 = e.1
}.

Lemma read_off_cons q q2 g q' h recs :
  left_in q ≡ₚ (h, recs) :: left_in q2 -> (forall e, e ∈ left_in q2 -> h <= e.1) -> recs <> [] -> norm_hash h = h ->
  (left_in q2 <> [] -> g <> []) -> read_off q2 g q' -> read_off q ((h, recs) :: g) q'.
Proof.
  intros Hl Hge Hne Hn Hg [Hok Hl2 Hs Ha Hr Hnm].
  assert (Hin : forall e, e ∈ g -> h <= e.1) by (intros e He; apply Hge; rewrite Hl2; apply elem_of_app; by left).
  split; [done|by rewrite Hl, Hl2| |..].
  - simpl. constructor; [done|]. apply Forall_forall. intros x (e & -> & He)%list_elem_of_fmap. by apply Hin.
  - intros e e' [->|He]%elem_of_cons He'; [|by apply Ha].
    destruct g as [|e0 g].
    { exfalso. apply Hg; [|done]. intros E. rewrite E in Hl2. simpl in Hl2. apply Permutation_nil in Hl2.
      rewrite Hl2 in He'. by apply elem_of_nil in He'. }
    assert (He0 : e0 ∈ e0 :: g) by by left. pose proof (Hin e0 He0). pose proof (Ha e0 e' He0 He'). simpl. lia.
  - intros e [->|He]%elem_of_cons; [done|auto].
  - intros e [->|He]%elem_of_cons; [done|auto].
Qed.

Lemma filled_up_spec chunk n h (q : iterators) m :
  queue_ok q -> exists b, filled_up chunk n h q m = Ok b m /\
    (b = true -> (forall e, e ∈ left_in q -> h <= e.1) -> forall e, e ∈ left_in q -> h < e.1).
Proof.
  intros Hq. unfold filled_up. destruct (left_in q) as [|e0 l] eqn:El.
  { unfold pq_top. rewrite (pop_empty q Hq El). exists false. split; [done|]. intros _ _ e ?%elem_of_nil. done. }
  destruct (top_hash q e0 Hq) as (it & k & Ht & Hh & (recs & Hin) & Hle); [rewrite El; by left|].
  rewrite Ht. destruct (chunk <? u64 n); [|by exists false].
  unfold hash_of. rewrite Hh. simpl. rewrite (bind_Ok _ _ _ k m) by done.
  eexists. split; [done|]. intros Hb%negb_true_iff%Z.eqb_neq Hge e He.
  rewrite <- El in Hge, He. pose proof (Hle _ He). pose proof (Hge _ Hin). simpl in *. lia.
Qed.

Lemma rhs_fill_spec src q fuel cs d hs m Ls :
  columns src = map Some us -> hashColumn src = hc ->
  queue_ok q -> rows_typed (left_in q) -> (queue_rounds q < fuel)%nat ->
  Z.of_nat (length d + length (rows_of (left_in q))) < 2 ^ 31 -> rhs_rows d hs Ls m ->
  exists g q' m' Ls', fill ty src fuel q cs (Z.of_nat (length d)) m =
      Ok (q', counts_of cs g, Z.of_nat (length d + length (rows_of g))) m' /\
    read_off q g q' /\ (left_in q <> [] -> g <> []) /\
    rhs_rows (d ++ rows_of g) (hs ++ hashes_of g) Ls' m' /\ wrote (hc :: us) m m'.
Proof.
  intros Hcols Hhash. revert q cs d hs m Ls.
  induction fuel as [|fuel IH]; intros q cs d hs m Ls Hq Hty Hf Hb H; [lia|]. simpl.
  destruct (pq_pop q) as [[it q1]|] eqn:Hp.
  2:{ exists [], q, m, Ls. unfold rows_of, hashes_of. simpl. rewrite Nat.add_0_r, !app_nil_r.
      split_and!; [done| |by rewrite (pop_None q Hq Hp)|done|apply wrote_refl].
      split; [done|done|constructor|by intros ? ? ?%elem_of_nil|by intros ? ?%elem_of_nil|by intros ? ?%elem_of_nil]. }
  destruct (pop_Some q it q1 Hq Hp) as (h & recs & [_ (s & Hs & Hrec) Hh Hne Hnorm Hit Hnext Hleft Hleast Hrounds]).
  set (q2 := reinsert (iterator_next it) q1) in *.
  unfold hash_of, slot_at. rewrite Hh, Hs. simpl. rewrite (bind_Ok _ _ _ h m), (bind_Ok _ _ _ s m) by done.
  assert (Hsz : size (iterateMe it) s = Z.of_nat (length recs)) by (unfold size; by rewrite Hrec).
  assert (Hlen : length (rows_of (left_in q)) = (length recs + length (rows_of (left_in q2)))%nat).
  { rewrite (rows_of_perm _ _ Hleft). unfold rows_of. simpl. by rewrite length_app. }
  rewrite Hsz, Nat2Z.id, Hcols, Hhash.
  destruct (emit_records_spec (iterateMe it) s recs h (length recs) 0 d hs m Ls Hrec) as (m1 & Ls1 & E1 & H1 & Hw1);
    [done|intros r Hr; apply (Hty (h, recs)); [rewrite Hleft; by left|done]|lia|done|].
  rewrite (bind_Ok _ _ _ _ _ E1). rewrite drop_0 in H1.
  destruct (filled_up_spec (chunkSize src) (Z.of_nat (length d + length recs)) h q2 m1 Hnext) as (b & Eb & Hfull).
  rewrite (bind_Ok _ _ _ _ _ Eb).
  assert (Hge : forall e, e ∈ left_in q2 -> h <= e.1) by (intros e He; apply Hleast; rewrite Hleft; by right).
  assert (Hrow1 : rows_of [(h, recs)] = recs) by (unfold rows_of; simpl; by rewrite app_nil_r).
  destruct b.
  { exists [(h, recs)], q2, m1, Ls1. rewrite Hrow1. unfold hashes_of. simpl. rewrite app_nil_r.
    split_and!; [done| |done|done|done]. split; [done|by rewrite Hleft|by repeat constructor| |..].
    - intros e e' ->%list_elem_of_singleton He'. simpl. by apply Hfull.
    - by intros e ->%list_elem_of_singleton.
    - by intros e ->%list_elem_of_singleton. }
  destruct (IH q2 (add_count h (Z.of_nat (length recs)) cs) (d ++ recs) (hs ++ replicate (length recs) h) m1 Ls1 Hnext)
    as (g & q' & m' & Ls' & E & Hro & Hg & H' & Hw'); [|lia|rewrite length_app; lia|done|].
  { intros e r He. apply Hty. rewrite Hleft. by right. }
  exists ((h, recs) :: g), q', m', Ls'. rewrite length_app in E.
  assert (Hrg : rows_of ((h, recs) :: g) = recs ++ rows_of g) by done. rewrite Hrg, length_app.
  split_and!; [| |done| |by eapply wrote_trans].
  - replace (length d + (length recs + length (rows_of g)))%nat with (length d + length recs + length (rows_of g))%nat by lia.
    exact E.
  - by eapply read_off_cons.
  - unfold hashes_of in *. simpl. rewrite !app_assoc in *. exact H'.
Qed.
End rhs.

(** ** The counts *)

(** Each hash as often as it is counted. *)
Definition expand (cs : list (Z * Z)) : list Z := concat (map (fun c => replicate (Z.to_nat c.2) c.1) cs).

Record runs (cs : list (Z * Z)) : Prop := {
  runs_ascending : StronglySorted Z.lt (map fst cs);
  runs_positive c : c ∈ cs -> 0 < c.2
}.

Lemma expand_app a b : expand (a ++ b) = expand a ++ expand b.
Proof. unfold expand. by rewrite map_app, concat_app. Qed.
Lemma expand_one h n : expand [(h, n)] = replicate (Z.to_nat n) h.
Proof. unfold expand. simpl. by rewrite app_nil_r. Qed.

Lemma runs_sorted_snoc {A} (R : A -> A -> Prop) l x :
  StronglySorted R l -> (forall y, y ∈ l -> R y x) -> StronglySorted R (l ++ [x]).
Proof.
  induction 1 as [|y l H IH Hy]; intros Hx; simpl; [by repeat constructor|]. constructor.
  - apply IH. intros z Hz. apply Hx. by right.
  - apply Forall_app. split; [done|]. constructor; [|done]. apply Hx. by left.
Qed.

Lemma add_count_spec h n cs :
  runs cs -> (forall c, c ∈ cs -> c.1 <= h) -> (0 < n)%nat -> Z.of_nat (length (expand cs) + n) < 2 ^ 31 ->
  let cs' := add_count h (Z.of_nat n) cs in
  runs cs' /\ expand cs' = expand cs ++ replicate n h /\ (forall c, c ∈ cs' -> c.1 <= h).
Proof.
  intros [Hs Hp] Hle Hn Hb. unfold add_count.
  assert (Hnew : (forall c, c ∈ cs -> c.1 <> h) ->
    runs (cs ++ [(h, Z.of_nat n)]) /\ expand (cs ++ [(h, Z.of_nat n)]) = expand cs ++ replicate n h /\
    (forall c, c ∈ cs ++ [(h, Z.of_nat n)] -> c.1 <= h)).
  { intros Hne. split_and!.
    - split.
      + rewrite map_app. apply runs_sorted_snoc; [done|]. intros y (c & -> & Hc)%list_elem_of_fmap.
        apply Z.le_neq. split; [by apply Hle|by apply Hne].
      + intros c [Hc| ->%list_elem_of_singleton]%elem_of_app; [auto|simpl; lia].
    - by rewrite expand_app, expand_one, Nat2Z.id.
    - intros c [Hc| ->%list_elem_of_singleton]%elem_of_app; [auto|done]. }
  destruct (last cs) as [[k c]|] eqn:El.
  2:{ apply Hnew. apply last_None in El. subst. by intros ? ?%elem_of_nil. }
  apply last_Some in El as [cs0 ->].
  assert (Hlt : forall e, e ∈ cs0 -> e.1 < k).
  { intros e He. rewrite map_app in Hs. apply StronglySorted_app_1_elem_of with (x1 := e.1) (x2 := k) in Hs; [done|..].
    - apply list_elem_of_fmap. by exists e.
    - by left. }
  destruct (Z.eqb_spec k h) as [->|Hk].
  2:{ apply Hnew. intros e [He| ->%list_elem_of_singleton]%elem_of_app; [|done].
      pose proof (Hlt e He). pose proof (Hle (k, c) ltac:(apply elem_of_app; right; by left)). simpl in *. lia. }
  rewrite removelast_last. rewrite expand_app, expand_one, length_app, length_replicate in Hb.
  pose proof (Hp (h, c) ltac:(apply elem_of_app; right; by left)) as Hc. simpl in Hc.
  assert (Hu : u64 (c + Z.of_nat n) = c + Z.of_nat n) by (unfold u64, wrapu; apply Z.mod_small; lia).
  rewrite Hu. split_and!.
  - split.
    + rewrite map_app in *. exact Hs.
    + intros e [He| ->%list_elem_of_singleton]%elem_of_app; [apply Hp, elem_of_app; by left|simpl; lia].
  - rewrite !expand_app, !expand_one, <- app_assoc. f_equal. rewrite <- replicate_add. f_equal. lia.
  - intros e [He| ->%list_elem_of_singleton]%elem_of_app; [apply Z.lt_le_incl, Hlt; done|done].
Qed.

Lemma counts_of_spec g cs :
  runs cs -> StronglySorted Z.le (map fst g) -> (forall c e, c ∈ cs -> e ∈ g -> c.1 <= e.1) ->
  (forall e, e ∈ g -> e.2 <> []) -> Z.of_nat (length (expand cs) + length (rows_of g)) < 2 ^ 31 ->
  runs (counts_of cs g) /\ expand (counts_of cs g) = expand cs ++ hashes_of g.
Proof.
  revert cs. induction g as [|[h recs] g IH]; intros cs Hr Hs Hle Hne Hb.
  { unfold hashes_of. simpl. by rewrite app_nil_r. }
  simpl in Hs. apply StronglySorted_inv in Hs as [Hs Hh]. rewrite Forall_forall in Hh.
  assert (Hrec : (0 < length recs)%nat) by (pose proof (Hne (h, recs) ltac:(by left)); destruct recs; simpl in *; [done|lia]).
  assert (Hrg : length (rows_of ((h, recs) :: g)) = (length recs + length (rows_of g))%nat).
  { unfold rows_of. simpl. by rewrite length_app. }
  destruct (add_count_spec h (length recs) cs Hr) as (Hr' & He' & Hle'); [|done|lia|].
  { intros c Hc. apply (Hle c (h, recs)); [done|by left]. }
  destruct (IH (add_count h (Z.of_nat (length recs)) cs) Hr' Hs) as [H1 H2].
  - intros c e Hc He. transitivity h; [auto|]. apply Hh, list_elem_of_fmap. by exists e.
  - intros e He. apply Hne. by right.
  - rewrite He', length_app, length_replicate. lia.
  - split; [done|]. simpl. rewrite H2, He'. unfold hashes_of. simpl. by rewrite <- app_assoc.
Qed.

Lemma runs_nil : runs [].
Proof. split; [constructor|by intros ? ?%elem_of_nil]. Qed.

Lemma length_hashes_of g : length (hashes_of g) = length (rows_of g).
Proof.
  unfold hashes_of, rows_of. induction g as [|e g IH]; [done|]. simpl.
  by rewrite !length_app, length_replicate, IH.
Qed.

(** ** RHSShuffleJoinSource *)

Section source.
Context `{PQ : !PriorityQueue (JoinMapIterator row) hash_greater}.
Context (ext : gset addr) (ty : RHSType) (kfs : list Z) (us : list addr).

(** The source's vectors are where it thinks they are, and what is left to
    read are records of the type, not too many to count. *)
Record rhs_ok (src : RHSShuffleJoinSource) (m : mem) : Prop := {
  rk_queue : queue_ok (pageIterators src);
  rk_typed : rows_typed ty (left_in (pageIterators src));
  rk_few : Z.of_nat (length (rows_of (left_in (pageIterators src)))) < 2 ^ 31;
  rk_columns : columns src = map Some us;
  rk_keys : NoDup kfs;
  rk_hashes : hashColumn src ∈ ext;
  rk_vectors : exists hs Ls, rhs_rows ext (output src) ty kfs us (hashColumn src) [] hs Ls m
}.

(** The tuple set holds the records of the groups, and the counts their
    hashes. *)
Record hands_out (src : RHSShuffleJoinSource) (g : list group) (m : mem) : Prop := {
  ho_cols : probe_cols (output src) m ty kfs us
    (map (fun j => map (fun x : row => VHandle (x !!! j)) (rows_of g)) (seq 0 (length ty)));
  ho_hashes : cols m !! hashColumn src = Some (mkColumn ColSize (map VSize (hashes_of g)));
  ho_runs : runs (counts src);
  ho_counts : expand (counts src) = hashes_of g
}.

Lemma read_off_few q g q' : read_off q g q' ->
  length (rows_of (left_in q)) = (length (rows_of g) + length (rows_of (left_in q')))%nat.
Proof. intros H. by apply rows_of_le, H. Qed.

(** Groups that are read off have records. *)
Lemma read_off_fewer q g q' : g <> [] -> read_off q g q' -> (length (rows_of (left_in q')) < length (rows_of (left_in q)))%nat.
Proof.
  intros Hg H. rewrite (read_off_few _ _ _ H). destruct g as [|e g]; [done|]. unfold rows_of. simpl. rewrite length_app.
  pose proof (ro_some _ _ _ H e ltac:(by left)). destruct e.2; [done|]. simpl. lia.
Qed.

Lemma hashes_of_read_off g : StronglySorted Z.le (map fst g) -> (forall e, e ∈ g -> e.2 <> []) ->
  Z.of_nat (length (rows_of g)) < 2 ^ 31 -> runs (counts_of [] g) /\ expand (counts_of [] g) = hashes_of g.
Proof.
  intros Hs Hne Hb. apply (counts_of_spec g []); [apply runs_nil|done|by intros ? ? ?%elem_of_nil|done|done].
Qed.

(** The rest of a call, once the loop is done. *)
Lemma cut_spec out hc d hs Ls m :
  hc ∈ ext -> NoDup kfs -> rhs_rows ext out ty kfs us hc d hs Ls m -> length hs = length d -> Z.of_nat (length d) < 2 ^ 31 ->
  exists m', (_ <- erase_rest ty (map Some us) (Z.of_nat (length d)) ;;
              resize_hashes hc (Z.to_nat (u32 (Z.of_nat (length d))))) m = Ok tt m' /\
    rhs_rows ext out ty kfs us hc d hs (map (fun j => map (fun x : row => VHandle (x !!! j)) d) (seq 0 (length ty))) m' /\
    wrote (hc :: us) m m'.
Proof.
  intros Hhc Hnd H Hhs Hb. pose proof H as [Hi Hc Hr Hh]. unfold erase_rest. rewrite (proj2 (Z.ltb_ge _ _)), Nat2Z.id by lia.
  destruct (eraseEnd_spec ext out m ty kfs us Ls (length d)) as (m1 & E1 & (Hi1 & _ & _) & Hc1); try done.
  pose proof (eraseEnd_wrote _ _ _ _ _ E1) as Hw1.
  rewrite (holds_cut _ (length ty)) in Hc1 by (done || by eapply probe_cols_length).
  set (Ls1 := map _ (seq 0 (length ty))) in *.
  assert (H1 : rhs_rows ext out ty kfs us hc d hs Ls1 m1).
  { split; [done|done| |].
    - intros j L HL. unfold Ls1 in HL. rewrite list_lookup_fmap in HL. destruct (seq 0 (length ty) !! j) as [j'|] eqn:Ej; [|done].
      apply lookup_seq in Ej as [-> _]. injection HL as <-. rewrite length_map. split; [done|].
      by rewrite take_ge by by rewrite length_map.
    - eapply wrote_col; [done| |done]. intros Hin. by eapply probe_cols_us. }
  rewrite (bind_Ok _ _ _ _ _ E1). unfold resize_hashes.
  rewrite (bind_Ok _ _ _ _ _ (read_as_eq _ _ _ _ (rr_hashes _ _ _ _ _ _ _ _ _ _ H1))).
  assert (Hu : Z.to_nat (u32 (Z.of_nat (length d))) = length (map VSize hs)).
  { unfold u32, wrapu. rewrite Z.mod_small, Nat2Z.id, length_map by lia. done. }
  rewrite Hu, vec_resize_id.
  destruct (write_hashes ext out ty kfs us hc Hhc m1 d hs hs Ls1 H1) as (E2 & H2 & Hw2).
  eexists. split_and!; [exact E2|done|].
  eapply wrote_trans; [|done]. eapply wrote_weaken; [|done]. intros a Ha. by right.
Qed.

(** A call on a source that has records left hands some of them out, those
    with the least hashes; a source with nothing left changes nothing. *)
Lemma rhs_call_spec src m :
  rhs_ok src m ->
  wp total (rhs_getNextTupleSet ty src)
    (fun r m' => rhs_ok r.1 m' /\ wrote (hashColumn src :: us) m m' /\
       match r.2 with
       | None => left_in (pageIterators src) = [] /\ r.1 = src /\ m' = m
       | Some o => o = output src /\ exists g, g <> [] /\ read_off (pageIterators src) g (pageIterators r.1) /\
                   hands_out r.1 g m'
       end) m.
Proof.
  intros H. pose proof H as [Hq Hty Hb Hcols Hnd Hhc (hs0 & Ls0 & Hrows)].
  unfold rhs_getNextTupleSet, pq_isEmpty. destruct (pq_pop (pageIterators src)) as [[it q1]|] eqn:Ep.
  2:{ apply wp_mret. split; [done|]. split; [apply wrote_refl|]. split_and!; [by apply pop_None|done|done]. }
  destruct (pop_Some _ _ _ Hq Ep) as (h & recs & Hpop).
  destruct (write_hashes ext (output src) ty kfs us (hashColumn src) Hhc m [] hs0 [] Ls0 Hrows) as (E1 & H1 & Hw1).
  apply wp_bind. eapply wp_eq; [exact E1|].
  destruct (rhs_fill_spec ext (output src) ty kfs us (hashColumn src) Hhc Hnd src (pageIterators src)
    (S (queue_rounds (pageIterators src))) [] [] [] _ Ls0 Hcols eq_refl Hq Hty ltac:(lia) Hb H1)
    as (g & q' & m2 & Ls2 & E2 & Hro & Hg & H2 & Hw2).
  apply wp_bind. eapply wp_eq; [exact E2|]. simpl in H2. simpl Nat.add.
  assert (Hgne : g <> []).
  { apply Hg. intros E. pose proof (po_left _ _ _ _ _ Hpop) as Hl. rewrite E in Hl. by apply Permutation_nil_cons in Hl. }
  pose proof (read_off_few _ _ _ Hro) as Hlen.
  destruct (hashes_of_read_off g (ro_sorted _ _ _ Hro) (ro_some _ _ _ Hro) ltac:(lia)) as [Hruns Hexp].
  destruct (cut_spec (output src) (hashColumn src) (rows_of g) (hashes_of g) Ls2 m2 Hhc Hnd H2
    (length_hashes_of g) ltac:(lia)) as (m3 & E3 & H3 & Hw3).
  rewrite Hcols. apply wp_assoc, wp_bind. eapply wp_eq; [exact E3|]. apply wp_mret. simpl.
  split; [|split; [by eapply wrote_trans; [|eapply wrote_trans]|split; [done|]]].
  - split; simpl; [apply Hro| |lia|done|done|done|].
    + intros e r He. apply Hty. rewrite (ro_left _ _ _ Hro). apply elem_of_app. by right.
    + exists (hashes_of g). eexists. destruct H3 as [? ? ? ?]. split; [done|done|apply holds_nil|done].
  - exists g. split_and!; [done|done|]. split; [apply H3|apply H3|done|done].
Qed.
End source.
