(* ===== verification/ShuffleJoinSpec.v ===== *)
(** How the left source of a shuffled join finds the rows for the hashes of a
    right tuple set, one hash after the other. *)

From stdpp Require Import list sorting relations.
From S2P Require Import Prelude AtomicComputation TupleSet TupleSetOwnership TupleSetSpec Executors Allocation SinkState JoinPairArray Multimap JoinTuple JoinSinks JoinProbe SizePolicy PriorityQueue ShuffleJoin ShuffleRhsSpec.

Open Scope Z_scope.

Section merge.
Context `{PQ : !PriorityQueue (JoinMapIterator row) hash_greater}.
Abbreviation iterators := (@queue _ _ PQ).

(** An iterator that stands on these records. *)
Definition at_records (it : JoinMapIterator row) (recs : list row) : Prop :=
  exists s, iterator_slot it = Some s /\ record_list (iterateMe it) s = Some recs.

Lemma popped_next q it q1 h recs : popped q it q1 h recs -> reinsert (iterator_plus it 1) q1 = reinsert (iterator_next it) q1.
Proof. intros H. by rewrite (plus_one _ (po_ok _ _ _ _ _ H)). Qed.

(** ** The first loop *)

(** How it ends: before a higher hash, behind one that is equal, or at the end
    of the left side. *)
Inductive sought (rhsHash : Z) (q : iterators) (cur : option (JoinMapIterator row)) (lhsHash : Z)
  : option (JoinMapIterator row) -> Z -> iterators -> Prop :=
| sought_above below it k q' :
    left_in q ≡ₚ below ++ left_in q' -> (forall e, e ∈ below -> e.1 < rhsHash) ->
    rhsHash < k -> left_in q' <> [] -> (forall e, e ∈ left_in q' -> rhsHash < e.1) -> sought rhsHash q cur lhsHash (Some it) k q'
| sought_equal below it recs q' :
    left_in q ≡ₚ below ++ (rhsHash, recs) :: left_in q' -> (forall e, e ∈ below -> e.1 < rhsHash) ->
    at_records it recs -> (forall e, e ∈ left_in q' -> rhsHash <= e.1) -> sought rhsHash q cur lhsHash (Some it) rhsHash q'
| sought_last below it k recs q' :
    left_in q ≡ₚ below ++ [(k, recs)] -> (forall e, e ∈ below -> e.1 <= k) -> k < rhsHash ->
    at_records it recs -> left_in q' = [] -> sought rhsHash q cur lhsHash (Some it) k q'
| sought_nothing : left_in q = [] -> sought rhsHash q cur lhsHash cur lhsHash q.

Lemma seek_spec fuel rhsHash q cur lhsHash m :
  queue_ok q -> (queue_rounds q < fuel)%nat ->
  exists cur' k q', seek fuel rhsHash q cur lhsHash m = Ok (cur', k, q') m /\ queue_ok q' /\
    (queue_rounds q' <= queue_rounds q)%nat /\ sought rhsHash q cur lhsHash cur' k q'.
Proof.
  revert q cur lhsHash. induction fuel as [|fuel IH]; intros q cur lhsHash Hq Hf; [lia|]. simpl.
  destruct (pq_pop q) as [[it q1]|] eqn:Hp.
  2:{ exists cur, lhsHash, q. split_and!; [done|done|lia|]. apply sought_nothing. by apply pop_None. }
  destruct (pop_Some q it q1 Hq Hp) as (h & recs & H). pose proof H as [_ Hat Hh _ _ _ Hnext Hleft Hleast Hrounds].
  unfold hash_of. rewrite Hh. simpl. rewrite (bind_Ok _ _ _ h m) by done.
  destruct (Z.ltb_spec rhsHash h) as [Hlt|Hge].
  { exists (Some it), h, q. split_and!; [done|done|lia|]. apply (sought_above _ _ _ _ []); [done|by intros ? ?%elem_of_nil|done| |].
    { intros E. rewrite E in Hleft. by apply Permutation_nil_cons in Hleft. }
    intros e He. pose proof (Hleast e He). lia. }
  rewrite (popped_next _ _ _ _ _ H). set (q2 := reinsert (iterator_next it) q1) in *.
  assert (Hge2 : forall e, e ∈ left_in q2 -> h <= e.1) by (intros e He; apply Hleast; rewrite Hleft; by right).
  destruct (Z.ltb_spec h rhsHash) as [Hlt|Hge'].
  - destruct (IH q2 (Some it) h Hnext ltac:(lia)) as (cur' & k & q' & E & Hq' & Hr' & Hs).
    exists cur', k, q'. split_and!; [done|done|lia|].
    destruct Hs as [below it' k q' Hl Hb Hk Hne Ha|below it' recs' q' Hl Hb Hat' Ha|below it' k recs' q' Hl Hb Hk Hat' Hn|Hn].
    + apply (sought_above _ _ _ _ ((h, recs) :: below)); [by rewrite Hleft, Hl| |done|done|done].
      intros e [->|He]%elem_of_cons; [done|auto].
    + apply (sought_equal _ _ _ _ ((h, recs) :: below) _ recs'); [by rewrite Hleft, Hl| |done|done].
      intros e [->|He]%elem_of_cons; [done|auto].
    + apply (sought_last _ _ _ _ ((h, recs) :: below) _ _ recs'); [by rewrite Hleft, Hl| |done|done|done].
      intros e [->|He]%elem_of_cons; [|auto]. apply (Hge2 (k, recs')). rewrite Hl. apply elem_of_app. right. by left.
    + apply (sought_last _ _ _ _ [] _ _ recs); [by rewrite Hleft, Hn|by intros ? ?%elem_of_nil|done|done|done].
  - exists (Some it), h, q2. assert (h = rhsHash) as -> by lia. split_and!; [done|done|lia|].
    by apply (sought_equal _ _ _ _ [] _ recs); [|intros ? ?%elem_of_nil|..].
Qed.

(** ** The second loop *)

(** The groups of a hash. *)
Definition of_hash (h : Z) (recss : list (list row)) : list group := map (pair h) recss.

Lemma same_hash_spec fuel rhsHash q its m :
  queue_ok q -> (queue_rounds q < fuel)%nat -> (forall e, e ∈ left_in q -> rhsHash <= e.1) ->
  (left_in q = [] \/ exists e, e ∈ left_in q /\ rhsHash < e.1) ->
  exists more recss q', same_hash fuel rhsHash q its m = Ok (its ++ more, q') m /\ queue_ok q' /\
    Forall2 at_records more recss /\ left_in q ≡ₚ of_hash rhsHash recss ++ left_in q' /\
    (forall e, e ∈ left_in q' -> rhsHash < e.1).
Proof.
  revert q its. induction fuel as [|fuel IH]; intros q its Hq Hf Hge Hs; [lia|]. simpl.
  destruct (pq_pop q) as [[it q1]|] eqn:Hp.
  2:{ exists [], [], q. rewrite app_nil_r. split_and!; [done|done|done|done|].
      rewrite (pop_None q Hq Hp). by intros ? ?%elem_of_nil. }
  destruct (pop_Some q it q1 Hq Hp) as (h & recs & H). pose proof H as [_ Hat Hh _ _ _ Hnext Hleft Hleast Hrounds].
  unfold hash_of. rewrite Hh. simpl. rewrite (bind_Ok _ _ _ h m) by done.
  destruct (Z.eqb_spec h rhsHash) as [->|Hne].
  - rewrite (popped_next _ _ _ _ _ H). set (q2 := reinsert (iterator_next it) q1) in *.
    assert (Hs2 : exists e, e ∈ left_in q2 /\ rhsHash < e.1).
    { destruct Hs as [Hs|(e & He & Hlt)]; [rewrite Hs in Hleft; by apply Permutation_nil_cons in Hleft|].
      rewrite Hleft in He. apply elem_of_cons in He as [->|He]; [simpl in Hlt; lia|eauto]. }
    assert (Hge2 : forall e, e ∈ left_in q2 -> rhsHash <= e.1) by (intros e He; apply Hge; rewrite Hleft; by right).
    destruct Hs2 as (e0 & He0 & Hlt0). destruct (top_hash q2 e0 Hnext He0) as (t & k & Ht & Hk & (recs' & Hin) & Hle).
    rewrite Ht. simpl. rewrite (bind_Ok _ _ _ t m) by done. rewrite Hk. simpl. rewrite (bind_Ok _ _ _ k m) by done.
    destruct (Z.eqb_spec k rhsHash) as [->|Hkne].
    + destruct (IH q2 (its ++ [it]) Hnext ltac:(lia) Hge2) as (more & recss & q' & E & Hq' & Hmore & Hl & Ha); [right; eauto|].
      exists (it :: more), (recs :: recss), q'. rewrite <- app_assoc in E. split_and!; [done|done|by constructor| |done].
      simpl. by rewrite Hleft, Hl.
    + exists [it], [recs], q2. split_and!; [done|done|by repeat constructor|done|].
      intros e He. pose proof (Hle e He). pose proof (Hge2 _ Hin). simpl in *. lia.
  - assert (Ht : pq_top q = Some it) by (unfold pq_top; by rewrite Hp). rewrite Ht. simpl.
    rewrite (bind_Ok _ _ _ it m) by done. rewrite Hh. simpl. rewrite (bind_Ok _ _ _ h m) by done.
    rewrite (proj2 (Z.eqb_neq _ _) Hne). exists [], [], q. rewrite app_nil_r. split_and!; [done|done|done|done|].
    intros e He. pose proof (Hleast e He). pose proof (Hge (h, recs) ltac:(rewrite Hleft; by left)). simpl in *. lia.
Qed.

(** When the records of the hash are all that is left, the loop looks at the
    top of an empty queue. *)
Lemma same_hash_runs_dry fuel rhsHash q its m :
  queue_ok q -> (queue_rounds q < fuel)%nat -> left_in q <> [] -> (forall e, e ∈ left_in q -> e.1 = rhsHash) ->
  same_hash fuel rhsHash q its m = Fault EmptyTop.
Proof.
  revert q its. induction fuel as [|fuel IH]; intros q its Hq Hf Hne Heq; [lia|]. simpl.
  destruct (pq_pop q) as [[it q1]|] eqn:Hp; [|by destruct Hne; apply pop_None].
  destruct (pop_Some q it q1 Hq Hp) as (h & recs & H). pose proof H as [_ Hat Hh _ _ _ Hnext Hleft Hleast Hrounds].
  pose proof (Heq (h, recs) ltac:(rewrite Hleft; by left)) as E. simpl in E. subst h.
  unfold hash_of. rewrite Hh. simpl. rewrite (bind_Ok _ _ _ rhsHash m) by done. rewrite Z.eqb_refl.
  rewrite (popped_next _ _ _ _ _ H). set (q2 := reinsert (iterator_next it) q1) in *.
  destruct (left_in q2) as [|e0 l] eqn:El.
  { unfold pq_top. by rewrite (pop_empty q2 Hnext El). }
  assert (Heq2 : forall e, e ∈ left_in q2 -> e.1 = rhsHash) by (intros e He; apply Heq; rewrite Hleft, <- El; by right).
  destruct (top_hash q2 e0 Hnext) as (t & k & Ht & Hk & (recs' & Hin) & _); [rewrite El; by left|].
  rewrite Ht. simpl. rewrite (bind_Ok _ _ _ t m) by done. rewrite Hk. simpl. rewrite (bind_Ok _ _ _ k m) by done.
  pose proof (Heq2 _ Hin) as E. simpl in E. rewrite (proj2 (Z.eqb_eq _ _) E).
  apply IH; [done|lia|by rewrite El|done].
Qed.
End merge.

(** ** Emitting left records *)

Section emit.
Context (ext : gset addr) (out : tsid) (ty : RHSType) (kfs : list Z) (us : list addr) (Hnd : NoDup kfs).

(** The output's record columns hold the rows [d], and maybe more. *)
Record lhs_rows (d : list row) (Ls : list (list val)) (m : mem) : Prop := {
  lr_inv : mem_inv ext ∅ m;
  lr_cols : probe_cols out m ty kfs us Ls;
  lr_rows : holds d Ls
}.
(** The rows [d'] are added to them. *)
Definition emits {A} (run : M mem A) (d d' : list row) (Ls : list (list val)) (r : A) (m : mem) : Prop :=
  exists m' Ls', run m = Ok r m' /\ lhs_rows (d ++ d') Ls' m' /\ stepped ext out kfs m m'.

Lemma emits_none {A} (r : A) d Ls m : lhs_rows d Ls m -> emits (mret r) d [] Ls r m.
Proof. intros H. exists m, Ls. rewrite app_nil_r. split_and!; [done|done|]. apply stepped_refl, H. Qed.

Lemma emits_bind {A B} (run : M mem A) (k : A -> M mem B) d d1 d2 Ls r1 r2 m :
  emits run d d1 Ls r1 m ->
  (forall m' Ls', lhs_rows (d ++ d1) Ls' m' -> emits (k r1) (d ++ d1) d2 Ls' r2 m') ->
  emits (bind run k) d (d1 ++ d2) Ls r2 m.
Proof.
  intros (m1 & Ls1 & E1 & H1 & S1) Hk. destruct (Hk m1 Ls1 H1) as (m2 & Ls2 & E2 & H2 & S2).
  exists m2, Ls2. rewrite (bind_Ok _ _ _ _ _ E1), app_assoc. split_and!; [done|done|].
  by eapply stepped_trans.
Qed.

Lemma emits_pure {A B} (run : M mem A) (k : A -> M mem B) d d2 Ls r1 r2 m :
  run m = Ok r1 m -> emits (k r1) d d2 Ls r2 m -> emits (bind run k) d d2 Ls r2 m.
Proof. intros E (m2 & Ls2 & E2 & H2). exists m2, Ls2. by rewrite (bind_Ok _ _ _ _ _ E). Qed.

Lemma emits_row d r Ls m :
  lhs_rows d Ls m -> length r = length ty -> emits (unpack ty r (length d) (map Some us)) d [r] Ls tt m.
Proof.
  intros [Hi Hc Hr] Hl. destruct (unpack_spec ext out m ty kfs us Ls r (length d)) as (m' & E & Hs & Hc'); try done.
  eexists m', _. split_and!; [done| |done]. split; [apply Hs|done|by apply holds_snoc].
Qed.

Lemma emit_lhs_spec p slot l k i d Ls m :
  record_list p slot = Some l -> (i + k)%nat = length l -> (forall r, r ∈ l -> length r = length ty) ->
  Z.of_nat (length d + k) < 2 ^ 31 -> lhs_rows d Ls m ->
  emits (emit_lhs ty (map Some us) p slot (seq i k) (Z.of_nat (length d))) d (drop i l) Ls (Z.of_nat (length d + k)) m.
Proof.
  intros Hl. revert i d Ls m. induction k as [|k IH]; intros i d Ls m Hik Hty Hb H.
  { rewrite drop_ge, Nat.add_0_r by lia. by apply emits_none. }
  destruct (lookup_lt_is_Some_2 l i) as [r Hr]; [lia|]. rewrite (drop_S _ _ _ Hr). simpl.
  eapply emits_pure; [rewrite (record_at_list _ _ _ _ Hl), Hr; done|]. rewrite Nat2Z.id.
  apply (emits_bind _ _ d [r] (drop (S i) l) Ls tt); [apply emits_row; [done|by eapply Hty, list_elem_of_lookup_2]|].
  intros m' Ls' H'. replace (u64 (Z.of_nat (length d) + 1)) with (Z.of_nat (length (d ++ [r]))).
  2:{ rewrite length_app. simpl. replace (Z.of_nat (length d) + 1) with (Z.of_nat (length d + 1)) by lia.
      by rewrite u64_int by lia. }
  replace (Z.of_nat (length d + S k)) with (Z.of_nat (length (d ++ [r]) + k)) by (rewrite length_app; simpl; lia).
  apply IH; [lia|done|rewrite length_app; simpl; lia|done].
Qed.

Lemma bump_eq at_ n counts c m :
  counts !! at_ = Some c -> 0 <= c + n < 2 ^ 31 -> bump at_ n counts m = Ok (<[at_ := c + n]> counts) m.
Proof.
  intros Hc Hn. unfold bump. rewrite Hc. simpl. rewrite (bind_Ok _ _ _ c m) by done.
  unfold u32, wrapu. by rewrite Z.mod_small by lia.
Qed.

Definition records_typed (recss : list (list row)) : Prop := forall recs r, recs ∈ recss -> r ∈ recs -> length r = length ty.

Lemma emit_iterators_spec its recss at_ counts c d Ls m :
  Forall2 at_records its recss -> records_typed recss -> counts !! at_ = Some c -> 0 <= c ->
  c + Z.of_nat (length (concat recss)) < 2 ^ 31 -> Z.of_nat (length d + length (concat recss)) < 2 ^ 31 -> lhs_rows d Ls m ->
  emits (emit_iterators ty (map Some us) at_ its counts (Z.of_nat (length d))) d (concat recss) Ls
    (<[at_ := c + Z.of_nat (length (concat recss))]> counts, Z.of_nat (length d + length (concat recss))) m.
Proof.
  intros H. revert counts c d Ls m. induction H as [|it recs its recss (s & Hs & Hr) H IH]; intros counts c d Ls m Hty Hc H0 Hb Hbd HL.
  { simpl. rewrite Z.add_0_r, Nat.add_0_r, list_insert_id by done. by apply emits_none. }
  simpl in *. rewrite length_app in *. unfold slot_at. rewrite Hs.
  eapply emits_pure; [done|]. assert (Hsz : size (iterateMe it) s = Z.of_nat (length recs)) by (unfold size; by rewrite Hr).
  rewrite Hsz, Nat2Z.id. eapply emits_pure; [apply (bump_eq _ _ _ c); [done|lia]|].
  eapply emits_bind.
  { apply (emit_lhs_spec _ _ recs); [done|done|intros r Hin; apply (Hty recs); [by left|done]|lia|done]. }
  intros m' Ls' H'.
  rewrite <- length_app. replace (length d + (length recs + length (concat recss)))%nat
    with (length (d ++ recs) + length (concat recss))%nat by (rewrite length_app; lia).
  replace (c + Z.of_nat (length recs + length (concat recss))) with (c + Z.of_nat (length recs) + Z.of_nat (length (concat recss))) by lia.
  rewrite <- (list_insert_insert_eq counts at_ (c + Z.of_nat (length recs) + Z.of_nat (length (concat recss))) (c + Z.of_nat (length recs))).
  apply IH; [intros x r Hx; apply Hty; by right| |lia|lia|rewrite length_app; lia|done].
  apply list_lookup_insert_eq. by eapply lookup_lt_Some.
Qed.

Lemma emit_rows_spec its recss n pre d Ls m :
  Forall2 at_records its recss -> records_typed recss ->
  Z.of_nat (length d + n * length (concat recss)) < 2 ^ 31 -> lhs_rows d Ls m ->
  emits (emit_rows ty (map Some us) its (seq (length pre) n) (pre ++ replicate n 0) (Z.of_nat (length d))) d
    (concat (replicate n (concat recss))) Ls
    (pre ++ replicate n (Z.of_nat (length (concat recss))), Z.of_nat (length d + n * length (concat recss))) m.
Proof.
  intros H Hty. revert pre d Ls m. induction n as [|n IH]; intros pre d Ls m Hb HL; simpl.
  { rewrite Nat.add_0_r. by apply emits_none. }
  eapply emits_bind.
  { apply (emit_iterators_spec its recss _ _ 0); [done|done| |done|lia|lia|done].
    rewrite lookup_app_r, Nat.sub_diag by done. done. }
  intros m' Ls' H'. simpl. rewrite insert_app_r_alt, Nat.sub_diag by done. simpl.
  replace (length d + (length (concat recss) + n * length (concat recss)))%nat
    with (length (d ++ concat recss) + n * length (concat recss))%nat by (rewrite length_app; lia).
  rewrite <- length_app.
  specialize (IH (pre ++ [Z.of_nat (length (concat recss))]) (d ++ concat recss) Ls' m').
  rewrite <- !app_assoc in IH. simpl in IH. rewrite !length_app, Nat.add_1_r in IH. rewrite length_app.
  apply IH; [lia|done].
Qed.
End emit.

(** ** The groups of the left side a hash finds *)

Definition rows_under (h : Z) (L : list group) : list row := rows_of (filter (fun e => e.1 = h) L).
Definition above (h : Z) (L : list group) : list group := filter (fun e => h < e.1) L.

(** The left side does not end before the hash, or within the groups of it. *)
Definition joinable (L : list group) (h : Z) : Prop :=
  L = [] \/ (exists e, e ∈ L /\ h < e.1) \/ length (filter (fun e => h <= e.1) L) = 1%nat.

#[export] Instance rows_under_perm h : Proper ((≡ₚ) ==> (≡ₚ)) (rows_under h).
Proof. intros L L' H. unfold rows_under. apply rows_of_perm. by rewrite H. Qed.
#[export] Instance above_perm h : Proper ((≡ₚ) ==> (≡ₚ)) (above h).
Proof. intros L L' H. unfold above. by rewrite H. Qed.

Lemma joinable_perm L L' h : L ≡ₚ L' -> joinable L h -> joinable L' h.
Proof.
  intros H [->|[(e & He & Hlt)|Hl]].
  - left. by apply Permutation_nil.
  - right. left. exists e. by rewrite <- H.
  - right. right. by rewrite <- H.
Qed.

Lemma rows_under_app h L L' : rows_under h (L ++ L') = rows_under h L ++ rows_under h L'.
Proof. unfold rows_under. by rewrite filter_app, rows_of_app. Qed.
Lemma rows_under_none h L : (forall e, e ∈ L -> e.1 <> h) -> rows_under h L = [].
Proof. intros H. unfold rows_under. by rewrite filter_none. Qed.
Lemma rows_under_of_hash h recss : rows_under h (of_hash h recss) = concat recss.
Proof.
  unfold rows_under, of_hash. rewrite filter_every; [by unfold rows_of; rewrite map_map, map_id|].
  by intros e (recs & -> & _)%list_elem_of_fmap.
Qed.

(** Below, at and above a hash. *)
Lemma parts_of h below recss L' L :
  L ≡ₚ below ++ of_hash h recss ++ L' -> (forall e, e ∈ below -> e.1 < h) -> (forall e, e ∈ L' -> h < e.1) ->
  rows_under h L ≡ₚ concat recss /\ above h L ≡ₚ L'.
Proof.
  intros H Hb Ha. rewrite H. split.
  - rewrite !rows_under_app, rows_under_of_hash, !rows_under_none, app_nil_r; [done|..].
    + intros e He%Ha. lia.
    + intros e He%Hb. lia.
  - unfold above. rewrite !filter_app, (filter_none _ below), (filter_none _ (of_hash _ _)), filter_every; [done|done|..].
    + intros e (recs & -> & _)%list_elem_of_fmap. simpl. lia.
    + intros e He%Hb. lia.
Qed.

Section join.
Context `{PQ : !PriorityQueue (JoinMapIterator row) hash_greater}.
Abbreviation iterators := (@queue _ _ PQ).
Context (ext : gset addr) (out : tsid) (ty : RHSType) (kfs : list Z) (us : list addr) (Hnd : NoDup kfs).

Lemma typed_records L h recss :
  rows_typed ty L -> (forall recs, recs ∈ recss -> (h, recs) ∈ L) -> records_typed ty recss.
Proof. intros Hty Hin recs r Hrecs. apply (Hty (h, recs)). auto. Qed.

(** The second loop may go on, when the first has found the hash. *)
Lemma joinable_rest h below recs L' L :
  joinable L h -> L ≡ₚ below ++ (h, recs) :: L' -> (forall e, e ∈ below -> e.1 < h) ->
  (forall e, e ∈ L' -> h <= e.1) -> L' = [] \/ exists e, e ∈ L' /\ h < e.1.
Proof.
  intros Hj HL Hb Hge. destruct Hj as [->|[(e & He & Hlt)|Hl]].
  - apply Permutation_nil in HL. by destruct below.
  - right. exists e. split; [|done]. rewrite HL in He. apply elem_of_app in He as [He%Hb|[->|He]%elem_of_cons]; [lia|simpl in Hlt; lia|done].
  - left. rewrite HL, filter_app, filter_none, filter_cons_True, filter_every in Hl; [|done|simpl; lia|intros e He%Hb; lia].
    simpl in Hl. by destruct L'.
Qed.

Lemma concat_replicate_nil {A} n : concat (replicate n ([] : list A)) = [].
Proof. induction n as [|n IH]; [done|]. exact IH. Qed.

(** The iterators at a hash stand on all its groups. *)
Lemma match_hash_spec h q m :
  queue_ok q -> joinable (left_in q) h ->
  exists o recss q', match_hash h q m = Ok (o, q') m /\ queue_ok q' /\ Forall2 at_records (default [] o) recss /\
    (forall recs, recs ∈ recss -> (h, recs) ∈ left_in q) /\
    concat recss ≡ₚ rows_under h (left_in q) /\ left_in q' ≡ₚ above h (left_in q).
Proof.
  intros Hq Hj. unfold match_hash.
  assert (Hnone : forall q', queue_ok q' -> (exists below, left_in q ≡ₚ below ++ left_in q' /\ (forall e, e ∈ below -> e.1 < h) /\
      forall e, e ∈ left_in q' -> h < e.1) ->
    exists o recss q'', Ok (None, q') m = Ok (o, q'') m /\ queue_ok q'' /\ Forall2 at_records (default [] o) recss /\
    (forall recs, recs ∈ recss -> (h, recs) ∈ left_in q) /\
    concat recss ≡ₚ rows_under h (left_in q) /\ left_in q'' ≡ₚ above h (left_in q)).
  { intros q' Hq' (below & Hl & Hb & Ha). exists None, [], q'.
    destruct (parts_of h below [] (left_in q') (left_in q) Hl Hb Ha) as [H1 H2].
    split_and!; [done|done|constructor|by intros ? ?%elem_of_nil|by rewrite H1|by rewrite H2]. }
  destruct (left_in q) as [|e0 L0] eqn:EL.
  { unfold pq_top. rewrite (pop_empty q Hq EL). apply Hnone; [done|]. exists [].
    rewrite EL. split_and!; [done|by intros ? ?%elem_of_nil..]. }
  rewrite <- EL in *.
  destruct (top_hash q e0 Hq) as (it & k & Ht & Hk & (recs0 & Hin0) & Hle); [rewrite EL; by left|].
  rewrite Ht. unfold hash_of. rewrite Hk. simpl. rewrite (bind_Ok _ _ _ k m) by done.
  destruct (Z.ltb_spec h k) as [Hlt|Hge].
  { apply Hnone; [done|]. exists []. split_and!; [done|by intros ? ?%elem_of_nil|]. intros e He. pose proof (Hle e He). lia. }
  destruct (seek_spec (S (queue_rounds q)) h q None 0 m Hq ltac:(lia)) as (cur & k' & q1 & E & Hq1 & Hr1 & Hs).
  rewrite (bind_Ok _ _ _ _ _ E). destruct Hs as [below it' k' q1 Hl Hb Hk' Hne Ha|below it' recs q1 Hl Hb Hat Ha|below it' k' recs q1 Hl Hb Hk' Hat Hn|Hn].
  - rewrite (proj2 (Z.ltb_lt _ _)) by done. apply Hnone; [done|]. by exists below.
  - rewrite Z.ltb_irrefl. simpl. rewrite (bind_Ok _ _ _ it' m) by done.
    destruct (same_hash_spec (S (queue_rounds q1)) h q1 [it'] m Hq1 ltac:(lia) Ha) as (more & recss & q2 & E2 & Hq2 & Hm & Hl2 & Ha2).
    { by eapply joinable_rest. }
    rewrite (bind_Ok _ _ _ _ _ E2). exists (Some (it' :: more)), (recs :: recss), q2.
    assert (Hl' : left_in q ≡ₚ below ++ of_hash h (recs :: recss) ++ left_in q2) by (by rewrite Hl, Hl2).
    destruct (parts_of h below (recs :: recss) (left_in q2) (left_in q) Hl' Hb Ha2) as [H1 H2].
    split_and!; [done|done|by constructor| |by rewrite H1|by rewrite H2].
    intros r Hr. rewrite Hl'. apply elem_of_app. right. apply elem_of_app. left. apply list_elem_of_fmap. by exists r.
  - exfalso. assert (Hlt : forall e, e ∈ left_in q -> e.1 < h).
    { intros e. rewrite Hl. intros [He%Hb| ->%list_elem_of_singleton]%elem_of_app; [lia|done]. }
    destruct Hj as [Hj|[(e & He & Hlt')|Hj]]; [by rewrite EL in Hj|pose proof (Hlt e He); lia|].
    rewrite filter_none in Hj; [done|]. intros e He%Hlt. lia.
  - by rewrite EL in Hn.
Qed.

(** One hash of the right side, with [c] rows. *)
Lemma join_hash_spec st h c d Ls m :
  let L := left_in (l_queue st) in
  queue_ok (l_queue st) -> joinable L h -> rows_typed ty L -> l_size st = Z.of_nat (length d) ->
  Z.of_nat (length d + Z.to_nat c * length (rows_under h L)) < 2 ^ 31 -> lhs_rows ext out ty kfs us d Ls m ->
  exists mt q', mt ≡ₚ rows_under h L /\ queue_ok q' /\ left_in q' ≡ₚ above h L /\
    emits ext out ty kfs us (join_hash ty (map Some us) st (h, c)) d (concat (replicate (Z.to_nat c) mt)) Ls
      (mkLoop q' (l_counts st ++ replicate (Z.to_nat c) (Z.of_nat (length mt))) (Z.of_nat (length d + Z.to_nat c * length mt))) m.
Proof.
  intros L Hq Hj Hty Hn Hb H.
  destruct (match_hash_spec h (l_queue st) m Hq Hj) as (o & recss & q' & E & Hq' & Hat & Hin & Hrows & Hleft).
  fold L in Hin, Hrows, Hleft. exists (concat recss), q'. split_and!; [done|done|done|].
  unfold join_hash. eapply emits_pure; [exact E|]. simpl. rewrite Hn. destruct o as [its|]; simpl in Hat.
  - rewrite <- (app_nil_r (concat (replicate _ _))). eapply emits_bind.
    + apply emit_rows_spec; [done|done|by eapply typed_records|by rewrite Hrows|done].
    + intros m' Ls' H'. by apply emits_none.
  - apply Forall2_nil_inv_l in Hat as ->. simpl. rewrite Nat.mul_0_r, Nat.add_0_r.
    rewrite concat_replicate_nil.
    by apply emits_none.
Qed.

(** ** All hashes of a tuple set *)

Lemma map_replicate {A B} (f : A -> B) n x : map f (replicate n x) = replicate n (f x).
Proof. induction n as [|n IH]; [done|]. simpl. by rewrite IH. Qed.

(** The rows that one right row of each hash is joined with. *)
Definition joined_rows (mt : Z -> list row) (cs : list (Z * Z)) : list row :=
  concat (map (fun c => concat (replicate (Z.to_nat c.2) (mt c.1))) cs).
Definition joined_counts (mt : Z -> list row) (cs : list (Z * Z)) : list Z :=
  map (fun h => Z.of_nat (length (mt h))) (expand cs).

Lemma joined_rows_expand mt cs : joined_rows mt cs = concat (map mt (expand cs)).
Proof.
  unfold joined_rows, expand. induction cs as [|[h c] cs IH]; [done|]. simpl. rewrite map_app, concat_app, IH. f_equal.
  by rewrite map_replicate.
Qed.
Lemma sum_joined_counts mt cs : sum_counts (joined_counts mt cs) = Z.of_nat (length (joined_rows mt cs)).
Proof.
  rewrite joined_rows_expand. unfold joined_counts. induction (expand cs) as [|h l IH]; [done|]. simpl.
  rewrite length_app, IH. lia.
Qed.
Lemma joined_rows_ext mt mt' cs : (forall c, c ∈ cs -> mt c.1 = mt' c.1) -> joined_rows mt cs = joined_rows mt' cs.
Proof. intros H. unfold joined_rows. f_equal. apply map_ext_in. intros c Hc%list_elem_of_In. by rewrite H. Qed.
Lemma joined_counts_ext mt mt' cs : (forall c, c ∈ cs -> mt c.1 = mt' c.1) -> joined_counts mt cs = joined_counts mt' cs.
Proof.
  intros H. unfold joined_counts, expand. induction cs as [|[h c] cs IH]; [done|]. simpl. rewrite !map_app. f_equal.
  - rewrite !map_replicate. by rewrite (H (h, c) ltac:(by left) : mt h = mt' h).
  - apply IH. intros x Hx. apply H. by right.
Qed.

Lemma above_above h h' L : h <= h' -> above h' (above h L) = above h' L.
Proof.
  intros Hle. unfold above. rewrite list_filter_filter. apply list_filter_iff. intros e. lia.
Qed.
Lemma rows_under_above h h' L : h < h' -> rows_under h' (above h L) = rows_under h' L.
Proof.
  intros Hlt. unfold rows_under, above. rewrite list_filter_filter. f_equal. apply list_filter_iff. intros e. lia.
Qed.
Lemma joinable_above h h' L : h < h' -> joinable L h' -> joinable (above h L) h'.
Proof.
  intros Hlt [->|[(e & He & Hlt')|Hl]]; [by left|right; left|right; right].
  - exists e. split; [|done]. apply list_elem_of_filter. split; [lia|done].
  - unfold above. rewrite list_filter_filter. rewrite <- Hl. f_equal. apply list_filter_iff. intros e. lia.
Qed.

Lemma length_concat_replicate {A} n (l : list A) : length (concat (replicate n l)) = (n * length l)%nat.
Proof. induction n as [|n IH]; [done|]. simpl. by rewrite length_app, IH. Qed.
Lemma joined_rows_cons mt h c cs : joined_rows mt ((h, c) :: cs) = concat (replicate (Z.to_nat c) (mt h)) ++ joined_rows mt cs.
Proof. done. Qed.
Lemma joined_counts_cons mt h c cs :
  joined_counts mt ((h, c) :: cs) = replicate (Z.to_nat c) (Z.of_nat (length (mt h))) ++ joined_counts mt cs.
Proof. unfold joined_counts, expand. simpl. by rewrite map_app, map_replicate. Qed.
Lemma joined_rows_length mt mt' cs :
  (forall c, c ∈ cs -> length (mt c.1) = length (mt' c.1)) -> length (joined_rows mt cs) = length (joined_rows mt' cs).
Proof.
  induction cs as [|[h c] cs IH]; intros H; [done|]. rewrite !joined_rows_cons, !length_app, !length_concat_replicate.
  rewrite IH by (intros x Hx; apply H; by right). by rewrite (H (h, c) ltac:(by left) : length (mt h) = length (mt' h)).
Qed.

(** The hashes after the first find what they find in the whole left side. *)
Lemma runs_cons h c cs : runs ((h, c) :: cs) -> runs cs /\ forall e, e ∈ cs -> h < e.1.
Proof.
  intros [Hs Hp]. simpl in Hs. apply StronglySorted_inv in Hs as [Hs Hh]. rewrite Forall_forall in Hh. split.
  - split; [done|]. intros e He. apply Hp. by right.
  - intros e He. apply Hh, list_elem_of_fmap. by exists e.
Qed.

Definition above_last (cs : list (Z * Z)) (L : list group) : list group :=
  match last cs with Some c => above c.1 L | None => L end.
Lemma above_last_cons h c cs L : (forall e, e ∈ cs -> h < e.1) -> above_last cs (above h L) = above_last ((h, c) :: cs) L.
Proof.
  intros Hlt. unfold above_last. destruct cs as [|e cs]; [done|]. rewrite last_cons_cons.
  destruct (last (e :: cs)) as [e'|] eqn:El; [|by apply last_None in El].
  apply above_above, Z.lt_le_incl, Hlt. by apply last_Some_elem_of.
Qed.
#[export] Instance above_last_perm cs : Proper ((≡ₚ) ==> (≡ₚ)) (above_last cs).
Proof. intros L L' H. unfold above_last. destruct (last cs); by rewrite H. Qed.

(** What is joined: rows from the left for each hash. *)
Definition matching (cs : list (Z * Z)) (L : list group) (mt : Z -> list row) : Prop :=
  forall c, c ∈ cs -> mt c.1 ≡ₚ rows_under c.1 L.

Lemma matching_cons h c cs L L1 mt1 mt :
  (forall e, e ∈ cs -> h < e.1) -> L1 ≡ₚ above h L -> mt1 ≡ₚ rows_under h L -> matching cs L1 mt ->
  let mt2 := fun x => if x =? h then mt1 else mt x in
  matching ((h, c) :: cs) L mt2 /\ mt2 h = mt1 /\ forall e, e ∈ cs -> mt e.1 = mt2 e.1.
Proof.
  intros Hlt HL1 H1 Hm mt2. assert (E : forall e, e ∈ cs -> mt e.1 = mt2 e.1).
  { intros e He. unfold mt2. rewrite (proj2 (Z.eqb_neq _ _)); [done|]. pose proof (Hlt e He). lia. }
  assert (Eh : mt2 h = mt1) by (unfold mt2; by rewrite Z.eqb_refl).
  split_and!; [|done|done]. intros e [->|He]%elem_of_cons; [simpl; by rewrite Eh|].
  rewrite <- E, (Hm e He), HL1 by done. by rewrite rows_under_above by by apply Hlt.
Qed.

Lemma join_hashes_spec st cs d Ls m :
  let L := left_in (l_queue st) in
  queue_ok (l_queue st) -> runs cs -> (forall c, c ∈ cs -> joinable L c.1) -> rows_typed ty L ->
  l_size st = Z.of_nat (length d) ->
  Z.of_nat (length d + length (joined_rows (fun h => rows_under h L) cs)) < 2 ^ 31 -> lhs_rows ext out ty kfs us d Ls m ->
  exists mt q', matching cs L mt /\ queue_ok q' /\ left_in q' ≡ₚ above_last cs L /\
    emits ext out ty kfs us (join_hashes ty (map Some us) st cs) d (joined_rows mt cs) Ls
      (mkLoop q' (l_counts st ++ joined_counts mt cs) (Z.of_nat (length d + length (joined_rows mt cs)))) m.
Proof.
  revert st d Ls m. induction cs as [|[h c] cs IH]; intros st d Ls m L Hq Hr Hj Hty Hn Hb H.
  { exists (fun _ => []), (l_queue st). unfold joined_counts. simpl. rewrite app_nil_r, Nat.add_0_r, <- Hn.
    split; [by intros ? ?%elem_of_nil|]. split; [done|]. split; [done|]. destruct st. by apply emits_none. }
  apply runs_cons in Hr as [Hr Hlt]. rewrite joined_rows_cons, length_app, length_concat_replicate in Hb.
  destruct (join_hash_spec st h c d Ls m Hq (Hj (h, c) ltac:(by left)) Hty Hn ltac:(fold L; lia) H)
    as (mt1 & q1 & Hmt1 & Hq1 & Hl1 & Hem1).
  fold L in Hmt1, Hl1. set (st1 := mkLoop q1 _ _) in Hem1.
  assert (Hmtl : length mt1 = length (rows_under h L)) by by rewrite Hmt1.
  assert (Hjl : length (joined_rows (fun h => rows_under h (left_in q1)) cs) = length (joined_rows (fun h => rows_under h L) cs)).
  { apply joined_rows_length. intros e He. rewrite Hl1. by rewrite rows_under_above by by apply Hlt. }
  destruct Hem1 as (m1 & Ls1 & E1 & H1 & S1).
  destruct (IH st1 (d ++ concat (replicate (Z.to_nat c) mt1)) Ls1 m1) as (mt & q' & Hmt & Hq' & Hl' & m' & Ls' & E' & H' & S');
    simpl; rewrite ?length_app, ?length_concat_replicate; try done; try lia.
  - intros e He. eapply joinable_perm; [symmetry; exact Hl1|]. apply joinable_above; [by apply Hlt|]. apply Hj. by right.
  - intros e r He. apply Hty. rewrite Hl1 in He. by apply list_elem_of_filter in He as [_ ?].
  - set (mt2 := fun x => if x =? h then mt1 else mt x).
    destruct (matching_cons h c cs L (left_in q1) mt1 mt Hlt Hl1 Hmt1 Hmt) as (Hm2 & Eh & Ext).
    change (mt2 h = mt1) in Eh. change (forall e, e ∈ cs -> mt e.1 = mt2 e.1) in Ext.
    rewrite (joined_rows_ext mt mt2 cs Ext), (joined_counts_ext mt mt2 cs Ext) in E'. rewrite (joined_rows_ext mt mt2 cs Ext) in H'.
    exists mt2, q'. split; [done|]. split; [done|]. split.
    { rewrite Hl'. change (l_queue st1) with q1. by rewrite Hl1, (above_last_cons h c). }
    exists m', Ls'. rewrite joined_rows_cons, joined_counts_cons, Eh. split_and!.
    + simpl. rewrite (bind_Ok _ _ _ _ _ E1), E'. simpl. rewrite <- app_assoc, !length_app, !length_concat_replicate.
      do 2 f_equal. lia.
    + by rewrite app_assoc.
    + by eapply stepped_trans.
Qed.
End join.
