(* ===== verification/TupleSetSplit.v ===== *)
(** What TupleSet::split and TupleSet::merge compute
    (pdb/src/pipeline/headers/TupleSet.h), on tuple sets that own their
    columns: the rows move from one to the other, all other vectors and all
    addresses stay as they are. *)

From S2P Require Import Prelude TupleSet TupleSetOwnership TupleSetSpec Executors.

Section two.
Context (ext : gset addr) (lhs rhs : tsid) (Hne : lhs <> rhs).

(** The step from [m] to [m'] changes nothing but the vectors of column [k] of
    the two tuple sets, and maybe adds the column to [rhs]. *)
Record moved (k : Z) (m m' : mem) : Prop := {
  mv_inv : mem_inv ext ∅ m';
  mv_dom : dom (sets m') = dom (sets m);
  mv_entry ts k' : ~ (ts = rhs /\ k' = k) -> entry m' ts k' = entry m ts k';
  mv_there e : entry m rhs k = Some e -> entry m' rhs k = Some e;
  mv_new b mf : entry m rhs k = None -> entry m' rhs k = Some (Some b, mf) -> cols m !! b = None;
  mv_cols a c : cols m !! a = Some c -> ~ owned m lhs k a -> ~ owned m rhs k a -> cols m' !! a = Some c
}.

Lemma moved_own k m m' ts k' t l :
  mem_inv ext ∅ m -> moved k m m' -> ~ ((ts = lhs \/ ts = rhs) /\ k' = k) -> own_col m ts k' t l -> own_col m' ts k' t l.
Proof.
  intros Hi H Hn (a & mf & (He & Hc & Hf) & Hd). exists a, mf. split; [|done].
  assert (Ho : owned m ts k' a) by by exists mf.
  split_and!; [|apply (mv_cols _ _ _ H); [done|..]|done].
  - rewrite (mv_entry _ _ _ H); [done|]. intros [-> ->]. apply Hn. auto.
  - intros Ho'. destruct (inv_unique _ _ _ Hi ts k' lhs k a) as [-> ->]; [set_solver|set_solver|done|done|]. apply Hn. auto.
  - intros Ho'. destruct (inv_unique _ _ _ Hi ts k' rhs k a) as [-> ->]; [set_solver|set_solver|done|done|]. apply Hn. auto.
Qed.

(** Two vectors that columns own are different. *)
Lemma own_cols_differ m k t l t' r a mf a' mf' :
  mem_inv ext ∅ m -> reads m lhs k t l a mf -> mustDelete mf = true -> reads m rhs k t' r a' mf' -> mustDelete mf' = true -> a <> a'.
Proof.
  intros Hi (He & _ & _) Hd (He' & _ & _) Hd' ->.
  destruct (inv_unique _ _ _ Hi lhs k rhs k a'); [set_solver|set_solver|by exists mf|by exists mf'|done].
Qed.

(** Writing to the vectors of both. *)
Lemma write_both k t l r l' r' m a mf a' mf' :
  mem_inv ext ∅ m -> reads m lhs k t l a mf -> mustDelete mf = true -> reads m rhs k t r a' mf' -> mustDelete mf' = true ->
  let m' := set_cols (fun c => <[a := mkColumn t l']> (<[a' := mkColumn t r']> c)) m in
  moved k m m' /\ own_col m' lhs k t l' /\ own_col m' rhs k t r'.
Proof.
  intros Hi H Hd H' Hd' m'. pose proof (own_cols_differ _ _ _ _ _ _ _ _ _ _ Hi H Hd H' Hd') as Hn.
  destruct H as (He & Hc & Hf), H' as (He' & Hc' & Hf'). split; [|split].
  - split; [|done|done|done| |].
    + change m' with (set_cols <[a := mkColumn t l']> (set_cols <[a' := mkColumn t r']> m)).
      eapply mem_inv_write; [by eapply mem_inv_write|]. simpl. by rewrite lookup_insert_ne by done.
    + intros b mf0 Hk Hk'. change (entry m rhs k = Some (Some b, mf0)) in Hk'. congruence.
    + intros b c Hb Hl Hr. simpl. rewrite !lookup_insert_ne; [done|..]; intros ->; [apply Hr|apply Hl]; eexists; split; done.
  - exists a, mf. split; [split_and!; [done| |done]|done]. simpl. by rewrite lookup_insert_eq.
  - exists a', mf'. split; [split_and!; [done| |done]|done]. simpl. by rewrite lookup_insert_ne, lookup_insert_eq by done.
Qed.

Lemma set_column_same ts k e m : entry m ts k = Some e -> set_column ts k e m = Ok tt m.
Proof.
  unfold entry. destruct (sets m !! ts) as [t|] eqn:Ht; simpl; [|done]. intros He.
  rewrite (set_column_eq _ _ _ _ _ Ht). f_equal. destruct m as [c s]. simpl in *. unfold set_sets. simpl. f_equal.
  by rewrite (insert_id t), insert_id.
Qed.

(** ** One column *)

(** Column [k] of [rhs]: not there, or owned with these rows. *)
Definition maybe_col (m : mem) (k : Z) (t : ColType) (r : option (list val)) : Prop :=
  match r with None => entry m rhs k = None | Some l => own_col m rhs k t l end.

Lemma split_column_there k t l r (w : nat) m :
  mem_inv ext ∅ m -> own_col m lhs k t l -> own_col m rhs k t r -> (w <= length l)%nat ->
  exists m', split_column lhs rhs w k m = Ok tt m' /\ moved k m m' /\
    own_col m' lhs k t (take w l) /\ own_col m' rhs k t (drop w l).
Proof.
  intros Hi (a & mf & H & Hd) (a' & mf' & H' & Hd') Hw.
  pose proof (own_cols_differ _ _ _ _ _ _ _ _ _ _ Hi H Hd H' Hd') as Hn.
  destruct (write_both k t l r (take w l) (drop w l) m a mf a' mf' Hi H Hd H' Hd') as (Hmv & H1 & H2).
  set (m' := set_cols _ m) in *. exists m'. split_and!; [|done|done|done].
  destruct H as (He & Hc & Hf), H' as (He' & Hc' & Hf').
  assert (exists tr, sets m !! rhs = Some tr /\ tr !! k = Some (Some a', mf')) as (tr & Htr & Hk).
  { unfold entry in He'. destruct (sets m !! rhs) as [tr|]; [by exists tr|done]. }
  unfold split_column. rewrite (bind_Ok _ _ _ _ _ (column_at_eq _ _ _ _ He)), (bind_Ok _ _ _ _ _ (read_set_eq _ _ _ Htr)), Hk.
  simpl. unfold funcs_of. rewrite Hf. rewrite (bind_Ok _ _ _ t m) by done.
  rewrite (bind_Ok _ _ _ (Some a') m'); [apply set_column_same, He'|].
  unfold split_col. rewrite bind_assoc, (bind_Ok _ _ _ _ _ (read_as_eq _ _ _ _ Hc')), bind_assoc.
  rewrite (bind_Ok _ _ _ tt (set_cols <[a' := mkColumn t []]> m)) by done.
  rewrite (bind_Ok _ _ _ (Some a') (set_cols <[a' := mkColumn t []]> m)) by done.
  rewrite (bind_Ok _ _ _ l (set_cols <[a' := mkColumn t []]> m)).
  2:{ apply read_as_eq. simpl. by rewrite lookup_insert_ne by done. }
  rewrite (proj2 (Nat.ltb_ge _ _)) by done. unfold bind, write_col, modify, mret, M_ret. simpl. f_equal.
  unfold m', set_cols. simpl. f_equal. by rewrite insert_insert_eq.
Qed.

Lemma split_column_new k t l (w : nat) m :
  mem_inv ext ∅ m -> own_col m lhs k t l -> is_Some (sets m !! rhs) -> entry m rhs k = None -> (w <= length l)%nat ->
  exists m', split_column lhs rhs w k m = Ok tt m' /\ moved k m m' /\
    own_col m' lhs k t (take w l) /\ own_col m' rhs k t (drop w l).
Proof.
  intros Hi (a & mf & (He & Hc & Hf) & Hd) [tr Htr] Hk Hw.
  destruct (new_col_eq t [] m) as (n & En & Hfresh). assert (Hna : a <> n) by congruence.
  assert (Hnext : n ∉ ext) by (intros Hin; destruct (inv_ext _ _ _ Hi n Hin) as [[? ?] _]; congruence).
  set (m1 := set_cols (fun c => <[a := mkColumn t (take w l)]> (<[n := mkColumn t (drop w l)]> c)) m).
  assert (Hi1 : mem_inv (ext ∪ {[n]}) ∅ m1).
  { change m1 with (set_cols <[a := mkColumn t (take w l)]> (set_cols <[n := mkColumn t (drop w l)]> m)).
    eapply mem_inv_write; [by apply mem_inv_new|]. simpl. by rewrite lookup_insert_ne by done. }
  assert (Hn1 : cols m1 !! n = Some (mkColumn t (drop w l))) by (simpl; by rewrite lookup_insert_ne, lookup_insert_eq by done).
  set (m' := set_sets <[rhs := <[k := (Some n, mf)]> tr]> m1).
  assert (Hent : forall ts k', entry m' ts k' = if bool_decide (ts = rhs /\ k' = k) then Some (Some n, mf) else entry m ts k').
  { intros ts k'. unfold m'. by rewrite entry_set. }
  exists m'. split_and!.
  - unfold split_column. rewrite (bind_Ok _ _ _ _ _ (column_at_eq _ _ _ _ He)), (bind_Ok _ _ _ _ _ (read_set_eq _ _ _ Htr)).
    rewrite <- (entry_of _ _ _ k Htr), Hk. simpl. unfold funcs_of. rewrite Hf. rewrite (bind_Ok _ _ _ t m) by done.
    rewrite (bind_Ok _ _ _ (Some n) m1); [by apply set_column_eq|].
    unfold split_col. rewrite bind_assoc, (bind_Ok _ _ _ _ _ En).
    rewrite (bind_Ok _ _ _ (Some n) (set_cols <[n := mkColumn t []]> m)) by done.
    rewrite (bind_Ok _ _ _ l (set_cols <[n := mkColumn t []]> m)).
    2:{ apply read_as_eq. simpl. by rewrite lookup_insert_ne by done. }
    rewrite (proj2 (Nat.ltb_ge _ _)) by done. unfold bind, write_col, modify, mret, M_ret. simpl. f_equal.
    unfold m1, set_cols. simpl. f_equal. by rewrite insert_insert_eq.
  - split.
    + unfold m'. rewrite <- (ext_add_del ext n) by done. eapply (mem_inv_set_sets_own _ ∅); [|done|set_solver|set_solver|done|done|done].
      apply mem_inv_shrink; [done|]. intros e. rewrite (entry_sets m m1), Hk by done. done.
    + unfold m'. simpl. by rewrite dom_insert_lookup_L.
    + intros ts k' Hn. rewrite Hent. by rewrite bool_decide_false.
    + by rewrite Hk.
    + intros b mf0 _. rewrite Hent, bool_decide_true by done. by intros [= <- _].
    + intros b c Hb Hl _. simpl. rewrite !lookup_insert_ne; [done|congruence|]. intros ->. apply Hl. by exists mf.
  - exists a, mf. split; [split_and!; [| |done]|done].
    + rewrite Hent, bool_decide_false; [done|]. by intros [? _].
    + simpl. by rewrite lookup_insert_eq.
  - exists n, mf. split; [split_and!; [|done|done]|done]. by rewrite Hent, bool_decide_true.
Qed.

Lemma split_column_spec k t l r (w : nat) m :
  mem_inv ext ∅ m -> own_col m lhs k t l -> is_Some (sets m !! rhs) -> maybe_col m k t r -> (w <= length l)%nat ->
  exists m', split_column lhs rhs w k m = Ok tt m' /\ moved k m m' /\
    own_col m' lhs k t (take w l) /\ own_col m' rhs k t (drop w l).
Proof.
  intros Hi Hl Hs Hr Hw. destruct r as [r|]; [by apply (split_column_there k t l r)|by apply split_column_new].
Qed.

Lemma merge_column_spec k t l r m :
  mem_inv ext ∅ m -> own_col m lhs k t l -> own_col m rhs k t r ->
  exists m', merge_column lhs rhs k m = Ok tt m' /\ moved k m m' /\ own_col m' lhs k t (l ++ r) /\ own_col m' rhs k t [].
Proof.
  intros Hi (a & mf & H & Hd) (a' & mf' & H' & Hd').
  pose proof (own_cols_differ _ _ _ _ _ _ _ _ _ _ Hi H Hd H' Hd') as Hn.
  destruct (write_both k t l r (l ++ r) [] m a mf a' mf' Hi H Hd H' Hd') as (Hmv & H1 & H2).
  set (m' := set_cols _ m) in *. exists m'. split_and!; [|done|done|done].
  destruct H as (He & Hc & Hf), H' as (He' & Hc' & Hf').
  assert (exists tl, sets m !! lhs = Some tl /\ tl !! k = Some (Some a, mf)) as (tl & Htl & Hk).
  { unfold entry in He. destruct (sets m !! lhs) as [tl|]; [by exists tl|done]. }
  unfold merge_column. rewrite (bind_Ok _ _ _ _ _ (column_at_eq _ _ _ _ He')), (bind_Ok _ _ _ _ _ (read_set_eq _ _ _ Htl)), Hk.
  simpl. unfold funcs_of. rewrite Hf'. rewrite (bind_Ok _ _ _ t m) by done.
  rewrite (bind_Ok _ _ _ (Some a) m'); [apply set_column_same, He|].
  unfold merge_col. rewrite (bind_Ok _ _ _ (Some a) m) by done.
  rewrite (bind_Ok _ _ _ _ _ (read_as_eq _ _ _ _ Hc)), (bind_Ok _ _ _ _ _ (read_as_eq _ _ _ _ Hc')).
  rewrite bool_decide_false by congruence. unfold bind, write_col, modify, mret, M_ret. simpl. f_equal.
  unfold m', set_cols. simpl. f_equal. by rewrite insert_insert_ne.
Qed.

(** ** All columns *)

(** The same for several columns; vectors of neither tuple set are as they
    were. *)
Record moves (m m' : mem) : Prop := {
  ms_inv : mem_inv ext ∅ m';
  ms_dom : dom (sets m') = dom (sets m);
  ms_entry ts k : ts <> rhs -> entry m' ts k = entry m ts k;
  ms_there k e : entry m rhs k = Some e -> entry m' rhs k = Some e;
  ms_cols a c : cols m !! a = Some c -> (forall k, ~ owned m lhs k a /\ ~ owned m rhs k a) -> cols m' !! a = Some c
}.

Lemma moves_refl m : mem_inv ext ∅ m -> moves m m.
Proof. by split. Qed.

Lemma moves_cons k m m1 m2 : mem_inv ext ∅ m -> moved k m m1 -> moves m1 m2 -> moves m m2.
Proof.
  intros Hi H1 H2. split; [apply H2| | | |].
  - by rewrite (ms_dom _ _ H2), (mv_dom _ _ _ H1).
  - intros ts k' Hts. rewrite (ms_entry _ _ H2) by done. apply (mv_entry _ _ _ H1). naive_solver.
  - intros k' e He. apply (ms_there _ _ H2). destruct (decide (k' = k)) as [->|Hk]; [by apply (mv_there _ _ _ H1)|].
    by rewrite (mv_entry _ _ _ H1) by naive_solver.
  - intros a c Ha Hno. apply (ms_cols _ _ H2); [apply (mv_cols _ _ _ H1); [done|apply Hno..]|].
    intros k'. split; intros (mf & He & Hd).
    + rewrite (mv_entry _ _ _ H1) in He by (intros [E _]; by apply Hne). apply (proj1 (Hno k')). by exists mf.
    + destruct (decide (k' = k)) as [->|Hk]; [|rewrite (mv_entry _ _ _ H1) in He by naive_solver; apply (proj2 (Hno k')); by exists mf].
      destruct (entry m rhs k) as [e|] eqn:E; [|by rewrite (mv_new _ _ _ H1 _ _ E He) in Ha].
      rewrite (mv_there _ _ _ H1 _ E) in He. injection He as ->. apply (proj2 (Hno k)). by exists mf.
Qed.

(** What a loop over columns does that moves the rows of each. *)
Lemma columns_move (body : Z -> M mem unit) (τ : Z -> ColType) (F G : list val -> option (list val) -> list val) (P : list val -> Prop)
    (L : Z -> list val) (R : Z -> option (list val)) ks m :
  (forall k l r m, mem_inv ext ∅ m -> is_Some (sets m !! rhs) -> own_col m lhs k (τ k) l -> maybe_col m k (τ k) r -> P l ->
     r = R k -> exists m', body k m = Ok tt m' /\ moved k m m' /\ own_col m' lhs k (τ k) (F l r) /\ own_col m' rhs k (τ k) (G l r)) ->
  NoDup ks -> mem_inv ext ∅ m -> is_Some (sets m !! rhs) ->
  (forall k, k ∈ ks -> own_col m lhs k (τ k) (L k) /\ maybe_col m k (τ k) (R k) /\ P (L k)) ->
  exists m', for_each ks body m = Ok tt m' /\ moves m m' /\
    (forall k, k ∉ ks -> entry m' rhs k = entry m rhs k) /\
    (forall ts k t l, ~ ((ts = lhs \/ ts = rhs) /\ k ∈ ks) -> own_col m ts k t l -> own_col m' ts k t l) /\
    forall k, k ∈ ks -> own_col m' lhs k (τ k) (F (L k) (R k)) /\ own_col m' rhs k (τ k) (G (L k) (R k)).
Proof.
  intros Hb. revert m. induction ks as [|k ks IH]; intros m Hnd Hi Hs Hk; simpl.
  { exists m. split; [done|]. split; [by apply moves_refl|]. split; [done|]. split; [done|by intros ? ?%elem_of_nil]. }
  apply NoDup_cons in Hnd as [Hnk Hnd]. destruct (Hk k) as (Hl & Hr & HP); [by left|].
  destruct (Hb k (L k) (R k) m Hi Hs Hl Hr HP eq_refl) as (m1 & E1 & H1 & Hl1 & Hr1).
  assert (Hs1 : is_Some (sets m1 !! rhs)) by (apply (is_Some_dom m); [apply H1|done]).
  destruct (IH m1 Hnd (mv_inv _ _ _ H1) Hs1) as (m2 & E2 & H2 & He2 & Ho2 & Hk2).
  { intros k' Hk'. assert (Hne' : k' <> k) by by intros ->. destruct (Hk k') as (Hl' & Hr' & HP'); [by right|].
    split; [|split; [|done]].
    - eapply moved_own; [done|done|naive_solver|done].
    - destruct (R k') as [r|]; simpl in *; [eapply moved_own; [done|done|naive_solver|done]|].
      by rewrite (mv_entry _ _ _ H1) by naive_solver. }
  exists m2. split; [by rewrite (bind_Ok _ _ _ _ _ E1)|]. split; [by eapply moves_cons|]. split; [|split].
  - intros k' [Hne' Hk']%not_elem_of_cons. rewrite He2 by done. apply (mv_entry _ _ _ H1). naive_solver.
  - intros ts k' t l Hn Ho. apply Ho2; [intros [Hts Hin]; apply Hn; split; [done|by right]|].
    eapply moved_own; [done|done| |done]. intros [Hts ->]. apply Hn. split; [done|by left].
  - intros k' [->|Hk']%elem_of_cons; [|by apply Hk2].
    split; (apply Ho2; [by intros [_ Hin]|done]).
Qed.

(** ** Whole tuple sets *)

(** The columns [ks] are all there are, owned, with types [τ] and rows [L]. *)
Record holds_cols (m : mem) (ts : tsid) (ks : list Z) (τ : Z -> ColType) (L : Z -> list val) : Prop := {
  hc_keys k : is_Some (entry m ts k) <-> k ∈ ks;
  hc_cols k : k ∈ ks -> own_col m ts k (τ k) (L k)
}.

Lemma holds_cols_keys m ts t ks τ L :
  sets m !! ts = Some t -> holds_cols m ts ks τ L -> forall k, k ∈ column_keys t <-> k ∈ ks.
Proof. intros Ht H k. rewrite elem_of_column_keys, <- (entry_of _ _ _ _ Ht). apply H. Qed.

Theorem ts_split_moves ks τ L R (w : nat) m :
  mem_inv ext ∅ m -> is_Some (sets m !! lhs) -> is_Some (sets m !! rhs) ->
  holds_cols m lhs ks τ L -> (forall k, is_Some (entry m rhs k) -> k ∈ ks) ->
  (forall k, k ∈ ks -> maybe_col m k (τ k) (R k)) -> (forall k, k ∈ ks -> (w <= length (L k))%nat) ->
  exists m', ts_split lhs rhs w m = Ok tt m' /\ moves m m' /\
    holds_cols m' lhs ks τ (fun k => take w (L k)) /\ holds_cols m' rhs ks τ (fun k => drop w (L k)).
Proof.
  intros Hi [t Ht] Hs H Hr HR Hw. unfold ts_split. rewrite (bind_Ok _ _ _ _ _ (read_set_eq _ _ _ Ht)).
  pose proof (holds_cols_keys _ _ _ _ _ _ Ht H) as Hkeys.
  destruct (columns_move (split_column lhs rhs w) τ (fun l _ => take w l) (fun l _ => drop w l) (fun l => (w <= length l)%nat)
    L R (column_keys t) m) as (m' & E & Hm & He & _ & Hk); [|apply NoDup_column_keys|done|done| |].
  - intros k l r m1 Hi1 Hs1 Hl1 Hr1 HP _. by apply (split_column_spec k (τ k) l r).
  - intros k Hin%Hkeys. split_and!; [by apply H|by apply HR|by apply Hw].
  - exists m'. split; [done|]. split; [done|]. split; split.
    + intros k. rewrite (ms_entry _ _ Hm) by done. apply H.
    + intros k Hin%Hkeys. by apply Hk.
    + intros k. split.
      * intros Hsome. destruct (decide (k ∈ column_keys t)) as [Hin|Hno]; [by apply Hkeys|]. rewrite He in Hsome by done. by apply Hr.
      * intros Hin%Hkeys. destruct (proj2 (Hk k Hin)) as (a & mf & (Hent & _) & _). by eexists.
    + intros k Hin%Hkeys. by apply Hk.
Qed.

Theorem ts_merge_moves ks τ L R m :
  mem_inv ext ∅ m -> is_Some (sets m !! rhs) -> holds_cols m lhs ks τ L -> holds_cols m rhs ks τ R ->
  exists m', ts_merge lhs rhs m = Ok tt m' /\ moves m m' /\
    holds_cols m' lhs ks τ (fun k => L k ++ R k) /\ holds_cols m' rhs ks τ (fun _ => []).
Proof.
  intros Hi [t Ht] H HR. unfold ts_merge. rewrite (bind_Ok _ _ _ _ _ (read_set_eq _ _ _ Ht)).
  pose proof (holds_cols_keys _ _ _ _ _ _ Ht HR) as Hkeys.
  destruct (columns_move (merge_column lhs rhs) τ (fun l r => l ++ default [] r) (fun _ _ => []) (fun _ => True)
    L (fun k => Some (R k)) (column_keys t) m) as (m' & E & Hm & He & _ & Hk); [|apply NoDup_column_keys|done|by eexists| |].
  - intros k l r m1 Hi1 _ Hl1 Hr1 _ ->. by apply merge_column_spec.
  - intros k Hin%Hkeys. split_and!; [by apply H|by apply HR|done].
  - exists m'. split; [done|]. split; [done|]. split; split.
    + intros k. rewrite (ms_entry _ _ Hm) by done. apply H.
    + intros k Hin%Hkeys. by apply Hk.
    + intros k. split.
      * intros Hsome. destruct (decide (k ∈ column_keys t)) as [Hin|Hno]; [by apply Hkeys|]. rewrite He in Hsome by done. by apply HR.
      * intros Hin%Hkeys. destruct (proj2 (Hk k Hin)) as (a & mf & (Hent & _) & _). by eexists.
    + intros k Hin%Hkeys. by apply Hk.
Qed.
End two.
