(* ===== verification/ShuffleSpec.v ===== *)
(** A call of getNextTupleSet of the left source of a shuffled join: one tuple
    set of the right side is joined, or a part of it that was kept. *)

From stdpp Require Import list sorting relations.
From S2P Require Import Prelude AtomicComputation TupleSet TupleSetOwnership TupleSetSpec Executors Allocation SinkState JoinPairArray Multimap JoinTuple JoinSinks JoinProbe SizePolicy PriorityQueue ShuffleJoin ShuffleRhsSpec ShuffleJoinSpec TupleSetSplit.

Open Scope Z_scope.

(** ** The joined rows *)

Abbreviation joined := (row * row)%type.

(** Every right row with each of its matches. *)
Definition pairs (mt : Z -> list row) (hs : list Z) (rs : list row) : list joined :=
  concat (zip_with (fun h r => map (fun l => (l, r)) (mt h)) hs rs).

Lemma pairs_left mt hs rs : length hs = length rs -> map fst (pairs mt hs rs) = concat (map mt hs).
Proof.
  unfold pairs. revert rs. induction hs as [|h hs IH]; intros [|r rs]; simpl; intros [=]; [done|].
  rewrite map_app, map_map, IH by done. simpl. by rewrite map_id.
Qed.
Lemma pairs_right mt hs rs (f : row -> val) :
  length hs = length rs ->
  map (fun x => f x.2) (pairs mt hs rs) = repeat_rows (map f rs) (map (fun h => Z.of_nat (length (mt h))) hs).
Proof.
  unfold pairs, repeat_rows. revert rs. induction hs as [|h hs IH]; intros [|r rs]; simpl; intros [=]; [done|].
  rewrite map_app, map_map, IH by done. f_equal. simpl. by rewrite map_const_replicate, Nat2Z.id.
Qed.

(** ** How a joined row is laid out over the columns *)

(** [τ k] and [sel k]: the type of column [k], and what it has of a row. *)
Section call.
Context `{PQ : !PriorityQueue (JoinMapIterator row) hash_greater}.
Context (ext : gset addr) (ty tyR : RHSType) (kfs kfsR : list Z) (us usR : list addr).
Context (τ : Z -> ColType) (sel : Z -> joined -> val).
Context (rm : TupleSetSetupMachine) (off : Z).

Definition all_keys : list Z := kfs ++ map (fun x : Z * Z => x.1 + off) (counted (matches rm)).

Record layout : Prop := {
  ly_keys : NoDup all_keys;
  ly_left j k f : kfs !! j = Some k -> ty !! j = Some f -> τ k = field_col f /\ forall x, sel k x = VHandle (x.1 !!! j);
  ly_right p i : matches rm !! p = Some i -> exists j f, kfsR !! j = Some i /\ tyR !! j = Some f /\
    τ (Z.of_nat p + off) = field_col f /\ forall x, sel (Z.of_nat p + off) x = VHandle (x.2 !!! j);
  ly_rightkeys : NoDup kfsR
}.
Context (Hly : layout).

Lemma kfs_NoDup : NoDup kfs.
Proof. pose proof (ly_keys Hly) as H. by apply NoDup_app in H as [? _]. Qed.

(** What the columns have of joined rows. *)
Definition cols_of (x : list joined) (k : Z) : list val := map (sel k) x.

(** The columns of a tuple set of the right side. *)
Definition right_view (rows : list row) (i : Z) : option (ColType * list val) :=
  match list_find (fun k => k = i) kfsR with
  | Some (j, _) => (fun f => (field_col f, map (fun x : row => VHandle (x !!! j)) rows)) <$> tyR !! j
  | None => None
  end.

Lemma right_view_at rows j i f : NoDup kfsR -> kfsR !! j = Some i -> tyR !! j = Some f ->
  right_view rows i = Some (field_col f, map (fun x : row => VHandle (x !!! j)) rows).
Proof.
  intros Hnd Hj Hf. unfold right_view. destruct (list_find (fun k => k = i) kfsR) as [[j' k]|] eqn:E.
  - apply list_find_Some in E as (Hk & -> & _). assert (j' = j) as -> by by eapply NoDup_lookup. by rewrite Hf.
  - exfalso. apply list_find_None in E. rewrite Forall_forall in E. by apply (E i); [eapply list_elem_of_lookup_2|].
Qed.

Lemma right_view_inv rows i t v : right_view rows i = Some (t, v) ->
  exists j f, kfsR !! j = Some i /\ tyR !! j = Some f /\ t = field_col f /\ v = map (fun x : row => VHandle (x !!! j)) rows.
Proof.
  unfold right_view. destruct (list_find (fun k => k = i) kfsR) as [[j k]|] eqn:E; [|done].
  apply list_find_Some in E as (Hk & -> & _). destruct (tyR !! j) as [f|] eqn:Hf; [|done]. simpl.
  intros [= <- <-]. eauto 10.
Qed.

Lemma probe_cols_at m out ty' kfs' us' Ls j k f :
  probe_cols out m ty' kfs' us' Ls -> kfs' !! j = Some k -> ty' !! j = Some f ->
  exists a L, us' !! j = Some a /\ Ls !! j = Some L /\ at_col out m k a (field_col f) L.
Proof.
  intros H. revert j. induction H as [|f' ty' k' kfs' a us' L Ls Hat H IH]; intros j; [by rewrite lookup_nil|].
  destruct j as [|j]; simpl; [|by apply IH]. intros [= ->] [= ->]. eauto.
Qed.

(** The tuple set of the right side is an input the output cannot disturb. *)
Lemma right_input m rhs out rows :
  mem_inv ext ∅ m -> rhs <> out ->
  probe_cols rhs m tyR kfsR usR (map (fun j => map (fun x : row => VHandle (x !!! j)) rows) (seq 0 (length tyR))) ->
  input_view m out rhs (right_view rows).
Proof.
  intros Hi Hne Hp i t v (j & f & Hj & Hf & -> & ->)%right_view_inv.
  destruct (probe_cols_at _ _ _ _ _ _ _ _ _ Hp Hj Hf) as (a & L & _ & HL & (mf & Hr & Hd)).
  rewrite list_lookup_fmap, lookup_seq_lt in HL by (by eapply lookup_lt_Some). injection HL as <-.
  exists a, mf. split; [done|]. right. intros k' Ho. destruct Hr as (He & _ & _).
  destruct (inv_unique _ _ _ Hi out k' rhs i a) as [E _]; [set_solver|set_solver|done|by exists mf|congruence].
Qed.

Lemma at_col_evolves out ks m m' k a t v :
  evolves ext out ks m m' -> k ∉ ks -> at_col out m k a t v -> at_col out m' k a t v.
Proof.
  intros He Hk (mf & (Hent & Hc & Hf) & Hd).
  assert (Ho : own_col m' out k t v) by (eapply own_col_evolves; [done..|by exists a, mf]).
  assert (E : entry m' out k = Some (Some a, mf)).
  { rewrite (evolves_entry _ _ _ _ _ out k He) by naive_solver. done. }
  destruct Ho as (a' & mf' & (He' & Hc' & _) & _). rewrite E in He'. injection He' as <- <-. by exists mf.
Qed.

(** The left records and the replicated right rows make up all columns. *)
Lemma all_columns m m' out mt cs rows :
  let P := pairs mt (expand cs) rows in
  length (expand cs) = length rows ->
  probe_cols out m' ty kfs us (map (fun j => map (fun x : row => VHandle (x !!! j)) (map fst P)) (seq 0 (length ty))) ->
  filled_own out (right_view rows) (fun v => repeat_rows v (joined_counts mt cs)) off (matches rm) m' ->
  (forall k, is_Some (entry m out k) -> k ∈ all_keys) -> evolves ext out all_keys m m' ->
  holds_cols m' out all_keys τ (cols_of P).
Proof.
  intros P Hlen Hc Hf Hkeys He.
  assert (Hown : forall k, k ∈ all_keys -> own_col m' out k (τ k) (cols_of P k)).
  { intros k [Hk|Hk]%elem_of_app.
    - apply list_elem_of_lookup in Hk as [j Hj]. pose proof (probe_cols_length _ _ _ _ _ _ Hc) as [Hl _].
      destruct (lookup_lt_is_Some_2 ty j) as [f Hfj]; [rewrite <- Hl; by eapply lookup_lt_Some|].
      destruct (probe_cols_at _ _ _ _ _ _ _ _ _ Hc Hj Hfj) as (a & L & _ & HL & (mf & Hr & Hd)).
      rewrite list_lookup_fmap, lookup_seq_lt in HL by (by eapply lookup_lt_Some). injection HL as <-.
      destruct (ly_left Hly j k f Hj Hfj) as [-> Hsel]. exists a, mf. split; [|done].
      unfold cols_of. rewrite map_map in Hr. by rewrite (map_ext _ _ Hsel).
    - apply list_elem_of_fmap in Hk as ([c i] & -> & (p & -> & Hp)%elem_of_counted). simpl.
      destruct (ly_right Hly p i Hp) as (j & f & Hj & Hfj & -> & Hsel).
      pose proof (Hf p i _ _ Hp (right_view_at rows j i f (ly_rightkeys Hly) Hj Hfj)) as Ho.
      unfold cols_of, P. rewrite (map_ext _ _ Hsel), (pairs_right mt (expand cs) rows (fun r => VHandle (r !!! j))) by done. exact Ho. }
  split; [|done]. intros k. split.
  - intros Hs. destruct (decide (k ∈ all_keys)) as [?|Hn]; [done|]. apply Hkeys.
    by rewrite <- (evolves_entry _ _ _ _ _ out k He) by naive_solver.
  - intros Hk%Hown. destruct Hk as (a & mf & (He' & _) & _). by eexists.
Qed.

(** ** The join of one tuple set *)

Lemma joined_join_spec src rhs cs rows m Ls :
  let L := left_in (lhsIterators src) in
  rhsMachine src = rm -> offset src = off -> lhsColumns src = map Some us ->
  queue_ok (lhsIterators src) -> rows_typed ty L -> runs cs -> (forall c, c ∈ cs -> joinable L c.1) ->
  length (expand cs) = length rows ->
  Z.of_nat (length (joined_rows (fun h => rows_under h L) cs)) < 2 ^ 31 ->
  mem_inv ext ∅ m -> is_Some (sets m !! j_output src) -> rhs <> j_output src ->
  (forall k, is_Some (entry m (j_output src) k) -> k ∈ all_keys) ->
  probe_cols (j_output src) m ty kfs us Ls ->
  probe_cols rhs m tyR kfsR usR (map (fun j => map (fun x : row => VHandle (x !!! j)) rows) (seq 0 (length tyR))) ->
  exists mt q' m', let st := mkLoop q' (joined_counts mt cs) (Z.of_nat (length (pairs mt (expand cs) rows))) in
    joined_join ty src rhs cs m = Ok (set_joined st src) m' /\
    matching cs L mt /\ queue_ok q' /\ left_in q' ≡ₚ above_last cs L /\
    holds_cols m' (j_output src) all_keys τ (cols_of (pairs mt (expand cs) rows)) /\
    (exists Ls', probe_cols (j_output src) m' ty kfs us Ls') /\
    mem_inv ext ∅ m' /\ dom (sets m') = dom (sets m) /\ evolves ext (j_output src) all_keys m m'.
Proof.
  intros L Hrm Hoff Hus Hq Hty Hr Hj Hlen Hb Hi Hs Hne Hkeys Hpc Hpr.
  destruct (join_hashes_spec ext (j_output src) ty kfs us kfs_NoDup (mkLoop (lhsIterators src) [] 0) cs [] Ls m)
    as (mt & q' & Hmt & Hq' & Hl' & m1 & Ls1 & E1 & [Hi1 Hc1 Hh1] & (_ & Hd1 & He1)); [done|done|done|done|done|done| |].
  { split; [done|done|apply holds_nil]. }
  simpl in E1, Hh1. set (P := pairs mt (expand cs) rows).
  assert (HP : map fst P = joined_rows mt cs) by (unfold P; by rewrite pairs_left, joined_rows_expand).
  assert (HPl : length (joined_rows mt cs) = length P) by by rewrite <- HP, length_map.
  assert (Hb' : Z.of_nat (length P) < 2 ^ 31).
  { rewrite <- HPl. rewrite (joined_rows_length mt (fun h => rows_under h L)); [done|]. intros c Hc. by rewrite (Hmt c Hc). }
  pose proof HP as HP2. rewrite HPl in E1. rewrite <- HP in Hh1.
  destruct (eraseEnd_spec ext (j_output src) m1 ty kfs us Ls1 (length (map fst P)))
    as (m2 & E2 & (Hi2 & Hd2 & He2) & Hc2); [done|apply kfs_NoDup|done|].
  rewrite (holds_cut _ (length ty)) in Hc2 by (done || by eapply probe_cols_length).
  assert (He12 : evolves ext (j_output src) kfs m m2) by by eapply evolves_trans.
  pose proof (right_input m rhs (j_output src) rows Hi Hne Hpr) as Hin.
  assert (Hcl : length (joined_counts mt cs) = length rows) by (unfold joined_counts; by rewrite length_map).
  pose proof (machine_replicate_own ext rhs (j_output src) Hne (right_view rows) rm (joined_counts mt cs) off m2) as Hrep.
  apply wp_total in Hrep as ([] & m3 & E3 & Hi3 & Hd3 & Hf3 & He3).
  2:{ done. } 2:{ apply (is_Some_dom m); [congruence|done]. } 2:{ by eapply input_view_evolves. }
  2:{ intros i [p Hp]%list_elem_of_lookup. destruct (ly_right Hly p i Hp) as (j & f & Hji & Hf & _).
      rewrite (right_view_at rows j i f (ly_rightkeys Hly) Hji Hf). by eexists. }
  2:{ intros i t v (j & f & _ & _ & _ & ->)%right_view_inv. by rewrite length_map, Hcl. }
  2:{ apply Forall_forall. intros x (h & -> & _)%list_elem_of_fmap. lia. }
  2:{ rewrite sum_joined_counts, HPl. done. }
  exists mt, q', m3. split; [|split; [done|split; [done|split; [done|]]]].
  { unfold joined_join. rewrite Hus, Hrm, Hoff, (bind_Ok _ _ _ _ _ E1). simpl. unfold erase_rest.
    rewrite i32_small, (proj2 (Z.ltb_ge _ _)), Nat2Z.id by lia. rewrite length_map in E2.
    by rewrite (bind_Ok _ _ _ _ _ E2), (bind_Ok _ _ _ _ _ E3). }
  assert (He : evolves ext (j_output src) all_keys m m3).
  { eapply evolves_trans; (eapply evolves_weaken; [|done]); unfold all_keys; set_solver. }
  assert (Hkeep : forall k a t v, k ∈ kfs -> at_col (j_output src) m2 k a t v -> at_col (j_output src) m3 k a t v).
  { intros k a t v Hk Hat. eapply at_col_evolves; [exact He3| |exact Hat]. intros Hin'. pose proof (ly_keys Hly) as Hnd.
    apply NoDup_app in Hnd as (_ & Hdis & _). by apply (Hdis k). }
  pose proof (probe_cols_mono _ m2 m3 _ _ _ _ Hkeep Hc2) as Hc3.
  split; [|split; [by eexists|split; [done|split; [congruence|done]]]].
  by eapply all_columns.
Qed.

(** ** The join of the sides, as a specification *)

(** The records of groups with their hashes. *)
Definition flat (R : list group) : list (Z * row) := concat (map (fun e => map (pair e.1) e.2) R).
(** Every pair of a left and a right record with the same hash. *)
Definition full_join (L R : list group) : list joined :=
  concat (map (fun x => map (fun l => (l, x.2)) (rows_under x.1 L)) (flat R)).

#[export] Instance flat_perm : Proper ((≡ₚ) ==> (≡ₚ)) flat.
Proof. intros R R' H. unfold flat. by rewrite H. Qed.

Lemma flat_hashes R : hashes_of R = map fst (flat R).
Proof.
  unfold hashes_of, flat. induction R as [|e R IH]; [done|]. simpl. rewrite map_app, map_map, IH. f_equal.
  simpl. by rewrite map_const_replicate.
Qed.
Lemma flat_rows R : rows_of R = map snd (flat R).
Proof.
  unfold rows_of, flat. induction R as [|e R IH]; [done|]. simpl. rewrite map_app, map_map, IH. f_equal. by rewrite map_id.
Qed.
Lemma elem_of_concat_map {A B} (f : A -> list B) l x : x ∈ concat (map f l) <-> exists y, y ∈ l /\ x ∈ f y.
Proof.
  induction l as [|y l IH]; simpl.
  - split; [by intros ?%elem_of_nil|by intros (y & ?%elem_of_nil & _)].
  - rewrite elem_of_app, IH. split.
    + intros [Hx|(z & Hz & Hx)]; [exists y; by split; [left|]|exists z; by split; [right|]].
    + intros (z & [->|Hz]%elem_of_cons & Hx); [by left|right; eauto].
Qed.
Lemma elem_of_flat R x : x ∈ flat R -> exists e, e ∈ R /\ e.1 = x.1.
Proof.
  unfold flat. intros (e & He & (r & -> & _)%list_elem_of_fmap)%elem_of_concat_map. by exists e.
Qed.
Lemma pairs_flat mt F : pairs mt (map fst F) (map snd F) = concat (map (fun x => map (fun l => (l, x.2)) (mt x.1)) F).
Proof. unfold pairs. induction F as [|x F IH]; [done|]. simpl. by rewrite IH. Qed.

Lemma concat_perm_ext {A B} (f g : A -> list B) l : (forall x, x ∈ l -> f x ≡ₚ g x) -> concat (map f l) ≡ₚ concat (map g l).
Proof.
  induction l as [|x l IH]; intros H; [done|]. simpl. rewrite (H x) by by left. rewrite IH; [done|].
  intros y Hy. apply H. by right.
Qed.

Lemma full_join_right L R R' : R ≡ₚ R' -> full_join L R ≡ₚ full_join L R'.
Proof. intros H. unfold full_join, flat. by rewrite H. Qed.
Lemma full_join_left L L' R : (forall e, e ∈ R -> rows_under e.1 L ≡ₚ rows_under e.1 L') -> full_join L R ≡ₚ full_join L' R.
Proof.
  intros H. apply concat_perm_ext. intros x (e & He & <-)%elem_of_flat. by rewrite (H e He).
Qed.
Lemma full_join_app L R R' : full_join L (R ++ R') = full_join L R ++ full_join L R'.
Proof. unfold full_join, flat. by rewrite map_app, concat_app, map_app, concat_app. Qed.
Lemma full_join_pairs mt L g :
  (forall h, h ∈ hashes_of g -> mt h ≡ₚ rows_under h L) -> pairs mt (hashes_of g) (rows_of g) ≡ₚ full_join L g.
Proof.
  intros H. rewrite flat_hashes, flat_rows, pairs_flat. apply concat_perm_ext. intros x Hx. rewrite H; [done|].
  rewrite flat_hashes. apply list_elem_of_fmap. by exists x.
Qed.

Lemma elem_of_expand cs h : h ∈ expand cs -> exists c, c ∈ cs /\ c.1 = h.
Proof.
  unfold expand. intros (c & Hc & [-> _]%elem_of_replicate)%elem_of_concat_map. by exists c.
Qed.
Lemma expand_of cs c : runs cs -> c ∈ cs -> c.1 ∈ expand cs.
Proof.
  intros Hr Hc. pose proof (runs_positive _ Hr c Hc). unfold expand.
  apply elem_of_concat_map. exists c. split; [done|]. apply elem_of_replicate. split; [done|lia].
Qed.

(** What was not joined is what the remaining sides join to. *)
Lemma full_join_step L L' g R' cs mt :
  runs cs -> expand cs = hashes_of g -> matching cs L mt -> L' ≡ₚ above_last cs L ->
  (forall e e', e ∈ g -> e' ∈ R' -> e.1 < e'.1) ->
  pairs mt (expand cs) (rows_of g) ≡ₚ full_join L g /\ full_join L R' ≡ₚ full_join L' R' /\
  (forall e, e ∈ R' -> joinable L e.1 -> joinable L' e.1).
Proof.
  intros Hr Hexp Hmt HL' Habove.
  assert (Hlast : forall c e', c ∈ cs -> e' ∈ R' -> c.1 < e'.1).
  { intros c e' Hc He'. pose proof (expand_of cs c Hr Hc) as Hin. rewrite Hexp, flat_hashes in Hin.
    apply list_elem_of_fmap in Hin as (x & -> & (e & He & <-)%elem_of_flat). by apply Habove. }
  split; [|split].
  - rewrite Hexp. apply full_join_pairs. intros h Hh. rewrite <- Hexp in Hh.
    apply elem_of_expand in Hh as (c & Hc & <-). by apply Hmt.
  - apply full_join_left. intros e He. rewrite HL'. unfold above_last. destruct (last cs) as [c|] eqn:El; [|done].
    by rewrite rows_under_above by (apply Hlast; [by apply last_Some_elem_of|done]).
  - intros e He Hj. eapply joinable_perm; [symmetry; exact HL'|]. unfold above_last.
    destruct (last cs) as [c|] eqn:El; [|done]. apply joinable_above; [|done].
    apply Hlast; [by apply last_Some_elem_of|done].
Qed.
End call.

Section spec.
Context `{PQ : !PriorityQueue (JoinMapIterator row) hash_greater}.
Context (ext : gset addr) (ty tyR : RHSType) (kfs kfsR : list Z) (us usR : list addr).
Context (τ : Z -> ColType) (sel : Z -> joined -> val).
Context (rm : TupleSetSetupMachine) (off : Z) (Hly : layout ty tyR kfs kfsR τ sel rm off).
Abbreviation ks := (all_keys kfs rm off).
Abbreviation cells := (cols_of sel).

Definition left_side (src : JoinedShuffleJoinSource) : list group := left_in (lhsIterators src).
Definition right_side (rsrc : RHSShuffleJoinSource) : list group := left_in (pageIterators rsrc).

(** The buffer has columns, after the first overflow. *)
Definition has_buffer (src : JoinedShuffleJoinSource) (O B : list joined) (m : mem) : Prop :=
  holds_cols m (j_output src) ks τ (cells O) /\ holds_cols m (buffer src) ks τ (cells B).

(** The output holds the rows [O], the buffer [B]; the sides fit each other. *)
Record joined_ok (src : JoinedShuffleJoinSource) (rsrc : RHSShuffleJoinSource) (O B : list joined) (m : mem) : Prop := {
  jo_right : rhs_ok ext tyR kfsR usR rsrc m;
  jo_machine : rhsMachine src = rm;
  jo_offset : offset src = off;
  jo_columns : lhsColumns src = map Some us;
  jo_left : queue_ok (lhsIterators src);
  jo_typed : rows_typed ty (left_side src);
  jo_output : is_Some (sets m !! j_output src);
  jo_buffer : is_Some (sets m !! buffer src);
  jo_apart : output rsrc <> j_output src /\ output rsrc <> buffer src /\ j_output src <> buffer src;
  jo_vectors : exists Ls, probe_cols (j_output src) m ty kfs us Ls;
  jo_keys k : is_Some (entry m (j_output src) k) -> k ∈ ks;
  jo_outputSize : outputSize src = Z.of_nat (length O);
  jo_bufferSize : bufferSize src = Z.of_nat (length B);
  jo_few : Z.of_nat (length O + length B + length (full_join (left_side src) (right_side rsrc))) < 2 ^ 31;
  jo_joinable e : e ∈ right_side rsrc -> joinable (left_side src) e.1;
  jo_state : (B = [] /\ (forall k, entry m (buffer src) k = None) /\
               (O = [] \/ holds_cols m (j_output src) ks τ (cells O))) \/ has_buffer src O B m
}.

Lemma jo_inv src rsrc O B m : joined_ok src rsrc O B m -> mem_inv ext ∅ m.
Proof. intros H. destruct (rk_vectors _ _ _ _ _ _ (jo_right _ _ _ _ _ H)) as (hs & Ls & [Hi _ _ _]). exact Hi. Qed.

(** ** What a step leaves alone *)

Lemma at_col_own m ts k a t l : at_col ts m k a t l -> owned m ts k a.
Proof. intros (mf & (He & _ & _) & Hd). by exists mf. Qed.

(** The right side's tuple set, when the left side's change. *)
Lemma rhs_ok_kept rsrc m m' :
  rhs_ok ext tyR kfsR usR rsrc m -> mem_inv ext ∅ m' ->
  (forall k, entry m' (output rsrc) k = entry m (output rsrc) k) ->
  (forall a c k, cols m !! a = Some c -> owned m (output rsrc) k a \/ a ∈ ext -> cols m' !! a = Some c) ->
  rhs_ok ext tyR kfsR usR rsrc m'.
Proof.
  intros [Hq Hty Hf Hc Hnd Hhc (hs & Ls & [Hi Hp Hr Hh])] Hi' He Hcols. split; [done..|].
  exists hs, Ls. split; [done| |done|by apply (Hcols _ _ 0); [|right]].
  eapply probe_cols_mono; [|done]. intros k a t v _ Hat. pose proof (at_col_own _ _ _ _ _ _ Hat) as Ho.
  destruct Hat as (mf & (Hent & Hcol & Hfm) & Hd). exists mf. split; [|done].
  split_and!; [by rewrite He|by apply (Hcols a _ k); [|left]|done].
Qed.

Lemma rhs_ok_moves rsrc lhs rhs m m' :
  output rsrc <> lhs -> output rsrc <> rhs -> moves ext lhs rhs m m' -> rhs_ok ext tyR kfsR usR rsrc m -> rhs_ok ext tyR kfsR usR rsrc m'.
Proof.
  intros H1 H2 Hm H. assert (Hi : mem_inv ext ∅ m) by (destruct (rk_vectors _ _ _ _ _ _ H) as (hs & Ls & [Hi _ _ _]); exact Hi).
  eapply rhs_ok_kept; [done|apply Hm|intros k; by apply (ms_entry _ _ _ _ _ Hm)|].
  intros a c k Ha Ho. apply (ms_cols _ _ _ _ _ Hm); [done|]. intros k'. destruct Ho as [Ho|Hin].
  - split; intros Ho'; [destruct (inv_unique _ _ _ Hi (output rsrc) k lhs k' a)|destruct (inv_unique _ _ _ Hi (output rsrc) k rhs k' a)];
      by try set_solver.
  - destruct (inv_ext _ _ _ Hi a Hin) as [_ Hno]. split; apply Hno; set_solver.
Qed.

(** The record columns stay where they are, when the entries do. *)
Lemma probe_cols_again m m' out Ls X :
  holds_cols m' out ks τ X -> (forall k e, entry m out k = Some e -> entry m' out k = Some e) ->
  probe_cols out m ty kfs us Ls -> exists Ls', probe_cols out m' ty kfs us Ls'.
Proof.
  intros Hh He Hp.
  assert (Hin : forall k, k ∈ kfs -> own_col m' out k (τ k) (X k)) by (intros k Hk; apply Hh, elem_of_app; by left).
  assert (Hτ : forall j k f, kfs !! j = Some k -> ty !! j = Some f -> τ k = field_col f) by (intros; by eapply (ly_left _ _ _ _ _ _ _ _ Hly)).
  clear Hly Hh. revert Hin Hτ. induction Hp as [|f ty' k kfs' a us' L Ls Hat Hp IH]; intros Hin Hτ; [exists []; constructor|].
  destruct IH as [Ls' IH]; [intros k' Hk'; apply Hin; by right|intros j; apply (Hτ (S j))|].
  exists (X k :: Ls'). constructor; [|done].
  destruct (Hin k ltac:(by left)) as (a' & mf' & (He' & Hc' & Hf') & Hd').
  destruct Hat as (mf & (Hent & _ & _) & _). rewrite (He _ _ Hent) in He'. injection He' as <- <-.
  rewrite (Hτ 0%nat k f) in Hc', Hf' by done.
  exists mf. split; [split_and!; [by apply He|done|done]|done].
Qed.

(** ** Steps 0 and 1: the buffer *)

Lemma holds_cols_ext m ts X Y : (forall k, X k = Y k) -> holds_cols m ts ks τ X -> holds_cols m ts ks τ Y.
Proof. intros E [Hk Hc]. split; [done|]. intros k Hin. rewrite <- E. by apply Hc. Qed.

Lemma sizes_small n : 0 <= n < 2 ^ 31 -> u64 n = n.
Proof. intros Hn. unfold u64, wrapu. apply Z.mod_small. lia. Qed.

(** The rows that failed go behind those in the buffer. *)
Lemma rebuffer_spec p src rsrc O B m :
  joined_ok src rsrc O B m -> inputWasProcessed p = true \/ has_buffer src O B m ->
  exists src' m', joined_rebuffer p src m = Ok src' m' /\ j_output src' = j_output src /\ left_side src' = left_side src /\
    joined_ok src' rsrc (if inputWasProcessed p then O else []) (if inputWasProcessed p then B else B ++ O) m'.
Proof.
  intros H Hp. unfold joined_rebuffer. destruct (inputWasProcessed p); [by exists src, m|].
  destruct Hp as [?|[Ho Hb]]; [done|]. pose proof (jo_inv _ _ _ _ _ H) as Hi. destruct (jo_apart _ _ _ _ _ H) as (Ha1 & Ha2 & Ha3).
  destruct (ts_merge_moves ext (buffer src) (j_output src) ltac:(done) ks τ (cells B) (cells O) m Hi (jo_output _ _ _ _ _ H) Hb Ho)
    as (m' & E & Hm & Hl & Hr).
  exists (set_sizes 0 (u64 (bufferSize src + outputSize src)) src), m'. rewrite (bind_Ok _ _ _ _ _ E). split_and!; [done..|].
  pose proof (jo_few _ _ _ _ _ H) as Hfew.
  destruct (jo_vectors _ _ _ _ _ H) as [Ls Hpc].
  split; simpl; try (apply H); try done.
  - eapply rhs_ok_moves; [| |done|apply H]; done.
  - apply (is_Some_dom m); [apply Hm|apply H].
  - apply (is_Some_dom m); [apply Hm|apply H].
  - eapply probe_cols_again; [exact Hr| |done]. intros k e. apply (ms_there _ _ _ _ _ Hm).
  - apply Hr.
  - rewrite (jo_outputSize _ _ _ _ _ H), (jo_bufferSize _ _ _ _ _ H), length_app, sizes_small by lia. lia.
  - rewrite length_app. unfold left_side in *. simpl. lia.
  - right. split; simpl; [done|]. eapply holds_cols_ext; [|exact Hl]. intros k. unfold cols_of. by rewrite map_app.
Qed.

(** The last rows of the buffer are served. *)
Lemma from_buffer_spec p src rsrc O B m :
  joined_ok src rsrc O B m -> B <> [] -> 1 <= getChunksSize p < 2 ^ 31 ->
  exists src' m' O' B', joined_from_buffer p src m = Ok src' m' /\ j_output src' = j_output src /\ left_side src' = left_side src /\
    joined_ok src' rsrc O' B' m' /\ B = B' ++ O' /\ O' <> [] /\ Z.of_nat (length O') <= getChunksSize p /\
    holds_cols m' (j_output src) ks τ (cells O').
Proof.
  intros H HB Hchunk. pose proof (jo_inv _ _ _ _ _ H) as Hi. destruct (jo_apart _ _ _ _ _ H) as (Ha1 & Ha2 & Ha3).
  destruct (jo_state _ _ _ _ _ H) as [(? & _)|[Ho Hb]]; [done|].
  pose proof (jo_few _ _ _ _ _ H) as Hfew. pose proof (jo_bufferSize _ _ _ _ _ H) as Hbs.
  unfold joined_from_buffer. rewrite sizes_small by lia. set (n := Z.min (bufferSize src) (getChunksSize p)). assert (Hn : 1 <= n <= bufferSize src).
  { unfold n. destruct B; [done|]. simpl in Hbs. lia. }
  set (w := Z.to_nat (bufferSize src - n)).
  destruct (ts_split_moves ext (buffer src) (j_output src) ltac:(done) ks τ (cells B) (fun k => Some (cells O k)) w m Hi
    (jo_buffer _ _ _ _ _ H) (jo_output _ _ _ _ _ H) Hb) as (m' & E & Hm & Hl & Hr).
  { apply H. } { intros k Hk. by apply (hc_cols _ _ _ _ _ Ho). } { intros k _. unfold cols_of. rewrite length_map. lia. }
  destruct (jo_vectors _ _ _ _ _ H) as [Ls Hpc].
  assert (HO' : holds_cols m' (j_output src) ks τ (cells (drop w B))).
  { eapply holds_cols_ext; [|exact Hr]. intros k. unfold cols_of. by rewrite <- skipn_map. }
  exists (set_sizes n (bufferSize src - n) src), m', (drop w B), (take w B).
  rewrite (bind_Ok _ _ _ _ _ E). split; [done|]. split; [done|]. split; [done|]. split; [|split_and!].
  - split; simpl; try (apply H); try done.
    + eapply rhs_ok_moves; [| |done|apply H]; done.
    + apply (is_Some_dom m); [apply Hm|apply H].
    + apply (is_Some_dom m); [apply Hm|apply H].
    + eapply probe_cols_again; [exact Hr| |done]. intros k e. apply (ms_there _ _ _ _ _ Hm).
    + apply Hr.
    + rewrite length_drop. lia.
    + rewrite length_take. lia.
    + rewrite length_take, length_drop. unfold left_side in *. simpl. lia.
    + right. split; simpl; [done|]. eapply holds_cols_ext; [|exact Hl]. intros k. unfold cols_of. by rewrite <- firstn_map.
  - by rewrite take_drop.
  - intros E'. apply (f_equal length) in E'. rewrite length_drop in E'. simpl in E'. lia.
  - rewrite length_drop. lia.
  - done.
Qed.

(** ** What the sources leave alone of each other *)

Lemma probe_cols_owned m out ty' kfs' us' Ls a :
  probe_cols out m ty' kfs' us' Ls -> a ∈ us' -> exists k, owned m out k a.
Proof.
  induction 1 as [|f ty' k kfs' b us' L Ls Hat H IH]; [by intros ?%elem_of_nil|].
  intros [->|Ha]%elem_of_cons; [|auto]. exists k. by eapply at_col_own.
Qed.

(** The right source writes to its own vectors only. *)
Lemma right_wrote rsrc m m' ts k a c :
  rhs_ok ext tyR kfsR usR rsrc m -> wrote (hashColumn rsrc :: usR) m m' -> ts <> output rsrc -> owned m ts k a ->
  cols m !! a = Some c -> cols m' !! a = Some c.
Proof.
  intros [_ _ _ _ _ Hhc (hs & Ls & [Hi Hp _ _])] Hw Hts Ho. apply (wrote_col _ _ _ _ _ Hw).
  intros [->|Ha]%elem_of_cons.
  - destruct (inv_ext _ _ _ Hi _ Hhc) as [_ Hno]. by apply (Hno ts k); [set_solver|].
  - destruct (probe_cols_owned _ _ _ _ _ _ _ Hp Ha) as [k' Ho'].
    by destruct (inv_unique _ _ _ Hi ts k (output rsrc) k' a) as [? _]; [set_solver|set_solver|..].
Qed.

Lemma right_wrote_own rsrc m m' ts k t l :
  rhs_ok ext tyR kfsR usR rsrc m -> wrote (hashColumn rsrc :: usR) m m' -> ts <> output rsrc -> own_col m ts k t l -> own_col m' ts k t l.
Proof.
  intros H Hw Hts (a & mf & (He & Hc & Hf) & Hd). exists a, mf. split; [|done]. split_and!; [|eapply right_wrote; try done; by exists mf|done].
  by rewrite (wrote_entry _ _ _ _ _ Hw).
Qed.
Lemma right_wrote_cols rsrc m m' ts X :
  rhs_ok ext tyR kfsR usR rsrc m -> wrote (hashColumn rsrc :: usR) m m' -> ts <> output rsrc ->
  holds_cols m ts ks τ X -> holds_cols m' ts ks τ X.
Proof.
  intros H Hw Hts [Hk Hc]. split; [intros k; by rewrite (wrote_entry _ _ _ _ _ Hw)|].
  intros k Hin. eapply right_wrote_own; [done..|]. by apply Hc.
Qed.
Lemma right_wrote_probe rsrc m m' out Ls :
  rhs_ok ext tyR kfsR usR rsrc m -> wrote (hashColumn rsrc :: usR) m m' -> out <> output rsrc ->
  probe_cols out m ty kfs us Ls -> probe_cols out m' ty kfs us Ls.
Proof.
  intros H Hw Hts Hp. eapply probe_cols_mono; [|done]. intros k a t v _ Hat. pose proof (at_col_own _ _ _ _ _ _ Hat) as Ho.
  destruct Hat as (mf & (He & Hc & Hf) & Hd). exists mf. split; [|done].
  split_and!; [by rewrite (wrote_entry _ _ _ _ _ Hw)|by eapply right_wrote|done].
Qed.

(** Replacing columns of a tuple set leaves the vectors of others alone. *)
Lemma evolves_others out l m m' ts k a c :
  mem_inv ext ∅ m -> evolves ext out l m m' -> (ts <> out /\ owned m ts k a) \/ a ∈ ext ->
  cols m !! a = Some c -> cols m' !! a = Some c.
Proof.
  intros Hi He Ho Hc. enough (G : cols m' !! a = Some c /\ ((ts <> out /\ owned m' ts k a) \/ a ∈ ext)) by by destruct G.
  refine (evolves_keeps ext out l (fun m => cols m !! a = Some c /\ ((ts <> out /\ owned m ts k a) \/ a ∈ ext)) m m' _ He _); [|done].
  intros k' m1 m2 _ Hi1 Hr [Hc1 Ho1]. split.
  - apply (rep_cols _ _ _ _ Hr); [done|]. intros Ho'. destruct Ho1 as [[Hts Ho1]|Hin].
    + by destruct (inv_unique _ _ _ Hi1 ts k out k' a) as [? _]; [set_solver|set_solver|..].
    + destruct (inv_ext _ _ _ Hi1 a Hin) as [_ Hno]. by apply (Hno out k'); [set_solver|].
  - destruct Ho1 as [[Hts (mf & He1 & Hd)]|Hin]; [left|by right]. split; [done|]. exists mf. split; [|done].
    rewrite (rep_entry _ _ _ _ Hr); [done|]. by intros [-> _].
Qed.
Lemma evolves_rhs_ok rsrc out l m m' :
  output rsrc <> out -> mem_inv ext ∅ m' -> evolves ext out l m m' -> rhs_ok ext tyR kfsR usR rsrc m -> rhs_ok ext tyR kfsR usR rsrc m'.
Proof.
  intros Hne Hi' He H. assert (Hi : mem_inv ext ∅ m) by (destruct (rk_vectors _ _ _ _ _ _ H) as (hs & Ls & [Hi _ _ _]); exact Hi).
  eapply rhs_ok_kept; [done|done| |].
  - intros k. eapply evolves_entry; [done|]. by intros [? _].
  - intros a c k Ha Ho. eapply (evolves_others _ _ _ _ (output rsrc) k); [done|done| |done]. destruct Ho; [left|right]; done.
Qed.
Lemma evolves_holds_cols out l m m' ts X :
  mem_inv ext ∅ m -> ts <> out -> evolves ext out l m m' -> holds_cols m ts ks τ X -> holds_cols m' ts ks τ X.
Proof.
  intros Hi Hne He [Hk Hc]. assert (Hent : forall k, entry m' ts k = entry m ts k).
  { intros k. eapply evolves_entry; [done|]. by intros [? _]. }
  split; [intros k; by rewrite Hent|]. intros k Hin. destruct (Hc k Hin) as (a & mf & (Hn & Hcol & Hf) & Hd).
  exists a, mf. split; [|done]. split_and!; [by rewrite Hent| |done].
  eapply (evolves_others _ _ _ _ ts k); [done|done|left; split; [done|by exists mf]|done].
Qed.

(** ** Steps 2 to 4 *)

(** Rows beyond the chunk go to the buffer. *)
Lemma overflow_spec p src rsrc P m :
  joined_ok src rsrc P [] m -> 1 <= getChunksSize p < 2 ^ 31 -> holds_cols m (j_output src) ks τ (cells P) ->
  exists src' m' O' B', joined_overflow p src m = Ok src' m' /\ j_output src' = j_output src /\ left_side src' = left_side src /\
    joined_ok src' rsrc O' B' m' /\ P = O' ++ B' /\ Z.of_nat (length O') <= getChunksSize p /\
    holds_cols m' (j_output src) ks τ (cells O').
Proof.
  intros H Hchunk HP. pose proof (jo_inv _ _ _ _ _ H) as Hi. destruct (jo_apart _ _ _ _ _ H) as (Ha1 & Ha2 & Ha3).
  pose proof (jo_few _ _ _ _ _ H) as Hfew. pose proof (jo_outputSize _ _ _ _ _ H) as Hos.
  unfold joined_overflow. rewrite sizes_small by lia.
  destruct (Z.ltb_spec (getChunksSize p) (outputSize src)) as [Hlt|Hge].
  2:{ exists src, m, P, []. rewrite app_nil_r. split_and!; [done|done|done|done|done|lia|done]. }
  set (w := Z.to_nat (getChunksSize p)). destruct (jo_vectors _ _ _ _ _ H) as [Ls Hpc].
  assert (Hbuf : exists R, (forall k, is_Some (entry m (buffer src) k) -> k ∈ ks) /\
    forall k, k ∈ ks -> maybe_col (buffer src) m k (τ k) (R k)).
  { destruct (jo_state _ _ _ _ _ H) as [(_ & Hno & _)|[_ Hb]].
    - exists (fun _ => None). split; [intros k [e He]; by rewrite Hno in He|]. intros k _. apply Hno.
    - exists (fun k => Some (cells [] k)). split; [apply Hb|]. intros k Hk. by apply (hc_cols _ _ _ _ _ Hb). }
  destruct Hbuf as (R & HR1 & HR2).
  destruct (ts_split_moves ext (j_output src) (buffer src) ltac:(done) ks τ (cells P) R w m Hi
    (jo_output _ _ _ _ _ H) (jo_buffer _ _ _ _ _ H) HP HR1 HR2) as (m' & E & Hm & Hl & Hr).
  { intros k _. unfold cols_of. rewrite length_map. lia. }
  assert (HO' : holds_cols m' (j_output src) ks τ (cells (take w P))).
  { eapply holds_cols_ext; [|exact Hl]. intros k. unfold cols_of. by rewrite <- firstn_map. }
  exists (set_sizes (getChunksSize p) (outputSize src - getChunksSize p) src), m', (take w P), (drop w P).
  rewrite (bind_Ok _ _ _ _ _ E). split; [done|]. split; [done|]. split; [done|]. split; [|split_and!].
  - split; simpl; try (apply H); try done.
    + eapply rhs_ok_moves; [| |done|apply H]; done.
    + apply (is_Some_dom m); [apply Hm|apply H].
    + apply (is_Some_dom m); [apply Hm|apply H].
    + eapply probe_cols_again; [exact Hl| |done]. intros k e He. by rewrite (ms_entry _ _ _ _ _ Hm).
    + intros k. rewrite (ms_entry _ _ _ _ _ Hm) by done. apply H.
    + rewrite length_take. lia.
    + rewrite length_drop. lia.
    + simpl in Hfew. rewrite length_take, length_drop. unfold left_side in *. simpl. lia.
    + right. split; simpl; [done|]. eapply holds_cols_ext; [|exact Hr]. intros k. unfold cols_of. by rewrite <- skipn_map.
  - by rewrite take_drop.
  - rewrite length_take. lia.
  - done.
Qed.

(** The right source's next tuple set. *)
Lemma right_spec src rsrc O m :
  joined_ok src rsrc O [] m ->
  exists rsrc' o m', rhs_next tyR rsrc m = Ok (rsrc', o, counts rsrc') m' /\
    match o with
    | None => right_side rsrc = [] /\ rsrc' = rsrc /\ m' = m
    | Some rhs => rhs = output rsrc /\ output rsrc' = output rsrc /\ exists g, g <> [] /\ read_off (pageIterators rsrc) g (pageIterators rsrc') /\
        hands_out tyR kfsR usR rsrc' g m' /\ rhs_ok ext tyR kfsR usR rsrc' m' /\ wrote (hashColumn rsrc :: usR) m m'
    end.
Proof.
  intros H. pose proof (rhs_call_spec ext tyR kfsR usR rsrc m (jo_right _ _ _ _ _ H)) as Hr.
  apply wp_total in Hr as ([rsrc' o] & m' & E & Hok & Hw & Hr). simpl in *.
  exists rsrc', o, m'. unfold rhs_next. rewrite (bind_Ok _ _ _ _ _ E). split; [done|].
  destruct o as [rhs|]; [|done]. destruct Hr as (-> & g & Hg & Hro & Hho). split; [done|]. split; [|by exists g].
  revert E. unfold rhs_getNextTupleSet. destruct (pq_isEmpty _); [done|].
  intros (? & ? & _ & ([[q cs] n] & ? & _ & (? & ? & _ & (? & ? & _ & E)%bind_Ok_inv)%bind_Ok_inv)%bind_Ok_inv)%bind_Ok_inv.
  by injection E as <- _.
Qed.

(** Joining it leaves fewer records on both sides, and the pairs of the rest. *)
Lemma join_step_spec src rsrc O m rsrc' g m1 :
  joined_ok src rsrc O [] m -> output rsrc' = output rsrc -> read_off (pageIterators rsrc) g (pageIterators rsrc') ->
  hands_out tyR kfsR usR rsrc' g m1 -> rhs_ok ext tyR kfsR usR rsrc' m1 -> wrote (hashColumn rsrc :: usR) m m1 ->
  exists src' m2 P, joined_join ty src (output rsrc) (counts rsrc') m1 = Ok src' m2 /\ j_output src' = j_output src /\
    joined_ok src' rsrc' P [] m2 /\ holds_cols m2 (j_output src) ks τ (cells P) /\
    full_join (left_side src) (right_side rsrc) ≡ₚ P ++ full_join (left_side src') (right_side rsrc').
Proof.
  intros H Ho Hro [Hcols Hhs Hruns Hcnt] Hok1 Hw. rewrite Ho in Hcols. pose proof (jo_apart _ _ _ _ _ H) as (Ha1 & Ha2 & Ha3).
  pose proof (jo_right _ _ _ _ _ H) as Hr0. pose proof (jo_few _ _ _ _ _ H) as Hfew.
  assert (Hi1 : mem_inv ext ∅ m1) by (destruct (rk_vectors _ _ _ _ _ _ Hok1) as (hs & Ls & [Hi _ _ _]); exact Hi).
  destruct (jo_vectors _ _ _ _ _ H) as [Ls Hpc].
  set (L := left_side src) in *. set (cs := counts rsrc') in *.
  assert (Hin : forall c, c ∈ cs -> exists e, e ∈ g /\ e.1 = c.1).
  { intros c Hc. pose proof (expand_of cs c Hruns Hc) as Hh. rewrite Hcnt, flat_hashes in Hh.
    apply list_elem_of_fmap in Hh as (x & E & Hx). destruct (elem_of_flat g x Hx) as (e & He & Hex). exists e. split; [done|congruence]. }
  assert (Hsize : length (joined_rows (fun h => rows_under h L) cs) = length (full_join L g)).
  { rewrite joined_rows_expand, Hcnt, flat_hashes, map_map. unfold full_join. clear.
    induction (flat g) as [|x F IH]; [done|]. simpl. by rewrite !length_app, IH, length_map. }
  assert (Hfl : length (full_join L (right_side rsrc)) = (length (full_join L g) + length (full_join L (right_side rsrc')))%nat).
  { unfold right_side. rewrite (full_join_right L _ _ (ro_left _ _ _ Hro)), full_join_app. apply length_app. }
  destruct (joined_join_spec ext ty tyR kfs kfsR us usR τ sel rm off Hly src (output rsrc) cs (rows_of g) m1 Ls) as
    (mt & q' & m2 & E & Hmt & Hq' & Hl' & Hh & Hpc2 & Hi2 & Hd2 & He2); try (apply H); try done.
  { intros c Hc. destruct (Hin c Hc) as (e & He & <-). apply (jo_joinable _ _ _ _ _ H).
    unfold right_side. rewrite (ro_left _ _ _ Hro). apply elem_of_app. by left. }
  { by rewrite Hcnt, length_hashes_of. }
  { change (left_in (lhsIterators src)) with L. rewrite Hsize. lia. }
  { rewrite (proj1 Hw). apply H. }
  { intros k. rewrite (wrote_entry _ _ _ _ _ Hw). apply H. }
  { by eapply right_wrote_probe. }
  destruct (full_join_step L (left_in q') g (right_side rsrc') cs mt Hruns Hcnt Hmt Hl') as (HPg & Hrest & Hjn); [apply Hro|].
  set (P := pairs mt (expand cs) (rows_of g)) in *.
  pose proof (Permutation_length HPg) as HPl. pose proof (Permutation_length Hrest) as Hrl.
  exists (set_joined (mkLoop q' (joined_counts mt cs) (Z.of_nat (length P))) src), m2, P.
  split; [done|]. split; [done|]. split; [|split; [done|]].
  2:{ transitivity (full_join L (g ++ right_side rsrc')); [by apply full_join_right, (ro_left _ _ _ Hro)|].
      rewrite full_join_app. by apply Permutation_app; [symmetry|]. }
  split; simpl; try (apply H); try done.
  - eapply (evolves_rhs_ok rsrc' (j_output src)); [by rewrite Ho|done|exact He2|done].
  - intros e r He. apply (jo_typed _ _ _ _ _ H). unfold left_side in He. simpl in He. rewrite Hl' in He.
    unfold above_last in He. destruct (last cs); [by apply list_elem_of_filter in He as [_ ?]|done].
  - apply (is_Some_dom m); [by rewrite Hd2, (proj1 Hw)|apply H].
  - apply (is_Some_dom m); [by rewrite Hd2, (proj1 Hw)|apply H].
  - rewrite Ho. apply H.
  - apply Hh.
  - unfold left_side. simpl. lia.
  - intros e He. apply Hjn; [done|]. apply (jo_joinable _ _ _ _ _ H). unfold right_side. rewrite (ro_left _ _ _ Hro). apply elem_of_app. by right.
  - assert (Hb1 : forall X, holds_cols m (buffer src) ks τ X -> holds_cols m2 (buffer src) ks τ X).
    { intros X HX. eapply evolves_holds_cols; [exact Hi1|by intros ?|exact He2|]. by eapply right_wrote_cols. }
    destruct (jo_state _ _ _ _ _ H) as [(_ & Hno & _)|[_ Hb]]; [left|right; split; [done|by apply Hb1]].
    split; [done|]. split; [|by right]. intros k. rewrite (evolves_entry _ _ _ _ _ (buffer src) k He2) by (intros [? _]; congruence).
    by rewrite (wrote_entry _ _ _ _ _ Hw).
Qed.

(** ** A call *)

(** What is still to be handed out, the buffer and the pairs not joined yet. *)
Definition pending (src : JoinedShuffleJoinSource) (rsrc : RHSShuffleJoinSource) (B : list joined) : list joined :=
  B ++ full_join (left_side src) (right_side rsrc).

(** How much there is left: rows of the right side, then rows in the buffer. *)
Definition progressed (rsrc rsrc' : RHSShuffleJoinSource) (B B' : list joined) : Prop :=
  (length (rows_of (right_side rsrc')) < length (rows_of (right_side rsrc)))%nat \/
  (rsrc' = rsrc /\ (length B' < length B)%nat).

Lemma joined_call_spec p src rsrc O B m :
  joined_ok src rsrc O B m -> 1 <= getChunksSize p < 2 ^ 31 ->
  inputWasProcessed p = true \/ has_buffer src O B m ->
  let B0 := if inputWasProcessed p then B else B ++ O in let todo := pending src rsrc B0 in
  exists src' rsrc' o m' O' B',
    joined_getNextTupleSet (rhs_next tyR) ty p src rsrc m = Ok (src', rsrc', o) m' /\
    j_output src' = j_output src /\ joined_ok src' rsrc' O' B' m' /\
    match o with
    | Some ts => ts = j_output src /\ todo ≡ₚ O' ++ pending src' rsrc' B' /\ Z.of_nat (length O') <= getChunksSize p /\
                 holds_cols m' ts ks τ (cells O') /\ progressed rsrc rsrc' B0 B'
    | None => todo = [] /\ pending src' rsrc' B' = []
    end.
Proof.
  intros H Hchunk Hp B0 todo. unfold joined_getNextTupleSet.
  destruct (rebuffer_spec p src rsrc O B m H Hp) as (src0 & m0 & E0 & Ho0 & Hl0 & H0).
  rewrite (bind_Ok _ _ _ _ _ E0).
  set (O0 := if inputWasProcessed p then O else []) in *. fold B0 in H0.
  assert (Htodo : todo = pending src0 rsrc B0) by (unfold todo, pending; by rewrite Hl0).
  pose proof (jo_bufferSize _ _ _ _ _ H0) as Hbs. rewrite Htodo, <- Ho0. destruct B0 as [|b B0'].
  2:{ rewrite (proj2 (Z.eqb_neq _ _)) by (rewrite Hbs; simpl; lia). simpl.
      destruct (from_buffer_spec p src0 rsrc O0 (b :: B0') m0 H0) as (src1 & m1 & O1 & B1 & E1 & Ho1 & Hl1 & H1 & HB & Hne & Hc & Hh); [done|done|].
      rewrite (bind_Ok _ _ _ _ _ E1). exists src1, rsrc, (Some (j_output src1)), m1, O1, B1.
      split; [done|]. split; [done|]. split; [done|]. rewrite Ho1. split_and!; [done| |done|done|].
      { unfold pending. rewrite Hl1, HB, !app_assoc. by rewrite (Permutation_app_comm B1 O1). }
      right. split; [done|]. rewrite HB, length_app. destruct O1; [done|simpl; lia]. }
  rewrite Hbs. simpl. destruct (right_spec src0 rsrc O0 m0 H0) as (rsrc' & o & m1 & E1 & Hr).
  rewrite (bind_Ok _ _ _ _ _ E1). destruct o as [rhs|].
  2:{ destruct Hr as (Hr & -> & ->). exists src0, rsrc, None, m0, O0, []. split; [done|]. split; [done|]. split; [done|].
      unfold pending. by rewrite Hr. }
  destruct Hr as (-> & Hor & g & Hg & Hro & Hho & Hok & Hw).
  destruct (join_step_spec src0 rsrc O0 m0 rsrc' g m1 H0 Hor Hro Hho Hok Hw) as (src1 & m2 & P & E2 & Ho2 & H2 & HP & Hfj).
  rewrite (bind_Ok _ _ _ _ _ E2). rewrite <- Ho2 in HP.
  destruct (overflow_spec p src1 rsrc' P m2 H2 Hchunk HP) as (src2 & m3 & O3 & B3 & E3 & Ho3 & Hl3 & H3 & HPs & Hc & Hh).
  rewrite (bind_Ok _ _ _ _ _ E3). exists src2, rsrc', (Some (j_output src2)), m3, O3, B3.
  split; [done|]. split; [congruence|]. split; [done|]. rewrite Ho3, Ho2. split_and!; [done| |done|congruence|left; by eapply read_off_fewer].
  unfold pending. simpl. by rewrite Hfj, HPs, Hl3, <- app_assoc.
Qed.
End spec.
