(* ===== verification/ShufflePages.v ===== *)
(** The constructors of the sources of a shuffled join, and the pages they read
    as the rows that were written to them. *)

From stdpp Require Import list sorting relations.
From stdpp Require Import list sorting.
From S2P Require Import Prelude AtomicComputation TupleSet TupleSetOwnership TupleSetSpec Executors Allocation SinkState JoinPairArray Multimap JoinTuple JoinSinks JoinProbe SizePolicy PriorityQueue ShuffleJoin ShuffleRhsSpec ShuffleJoinSpec TupleSetSplit ShuffleSpec.

Open Scope Z_scope.

(** ** A tuple set and its columns *)

Lemma TupleSet_new_eq ext m : mem_inv ext ∅ m ->
  exists out m', TupleSet_new m = Ok out m' /\ mem_inv ext ∅ m' /\ sets m !! out = None /\ cols m' = cols m /\
    sets m' = <[out := ∅]> (sets m).
Proof.
  intros Hi. set (out := fresh (dom (sets m) : gset tsid)).
  assert (E : TupleSet_new m = Ok out (set_sets <[out := ∅]> m)) by done.
  exists out, (set_sets <[out := ∅]> m). split; [exact E|]. split; [exact (wp_Ok _ _ _ _ _ _ (TupleSet_new_inv ext m Hi) E)|].
  split; [|done]. apply not_elem_of_dom, is_fresh.
Qed.

Lemma new_set_entry (m m' : mem) out ts k : sets m' = <[out := ∅]> (sets m) -> sets m !! out = None -> entry m' ts k = entry m ts k.
Proof.
  intros E Hn. unfold entry. rewrite E. destruct (decide (ts = out)) as [->|Hne].
  - rewrite lookup_insert_eq, Hn. simpl. apply lookup_empty.
  - by rewrite lookup_insert_ne.
Qed.

(** A column that stays someone else's. *)
Lemma addColumn_borrowed ext out k t a m :
  mem_inv ext ∅ m -> is_Some (sets m !! out) -> entry m out k = None ->
  exists m', addColumn out k t a false m = Ok tt m' /\ mem_inv ext ∅ m' /\ dom (sets m') = dom (sets m) /\
    (forall ts k', ~ (ts = out /\ k' = k) -> entry m' ts k' = entry m ts k') /\
    (forall b c, cols m !! b = Some c -> cols m' !! b = Some c).
Proof.
  intros Hi Hs Hn. destruct (release_at_run ext out k m Hi Hs) as (m1 & E1 & _ & Hs1 & Hc1 & _).
  destruct Hs as [to Hto]. rewrite <- Hs1 in Hto.
  assert (E : addColumn out k t a false m = Ok tt (set_sets <[out := <[k := (Some a, mkMaint (Some t) false 0)]> to]> m1)).
  { unfold addColumn. rewrite (bind_Ok _ _ _ _ _ E1). by apply set_column_eq. }
  eexists. split; [exact E|]. split; [|split_and!].
  - exact (wp_Ok _ _ _ _ _ _ (addColumn_inv ext out k t a false m Hi ltac:(done)) E).
  - simpl. rewrite dom_insert_lookup_L by done. by rewrite Hs1.
  - intros ts k' Hne. rewrite entry_set by done. rewrite bool_decide_false by done. by apply entry_sets.
  - intros b c Hb. simpl. apply Hc1; [done|]. intros (mf & He & _). by rewrite Hn in He.
Qed.

Section cols.
Context (ext : gset addr) (out : tsid).

Lemma allocate_spec f k m :
  mem_inv ext ∅ m -> is_Some (sets m !! out) ->
  exists a m', allocate f out k m = Ok a m' /\ stepped ext out [k] m m' /\ at_col out m' k a (field_col f) [].
Proof.
  intros Hi Hs. unfold allocate. destruct (new_col_eq (field_col f) [] m) as (a & Ha & Hfresh).
  rewrite (bind_Ok _ _ _ _ _ Ha). set (m1 := set_cols _ m).
  assert (Ha' : a ∉ ext) by (intros Hin; destruct (inv_ext _ _ _ Hi a Hin) as [[? ?] _]; congruence).
  assert (Hi1 : mem_inv (ext ∪ {[a]}) ∅ m1) by by apply mem_inv_new.
  assert (H : wp total (addColumn out k (field_col f) a true)
    (fun _ m' => mem_inv (ext ∪ {[a]} ∖ {[a]}) ∅ m' /\ dom (sets m') = dom (sets m1) /\
       reads m' out k (field_col f) [] a (mkMaint (Some (field_col f)) true 0) /\
       (forall ts' k', ~ (ts' = out /\ k' = k) -> entry m' ts' k' = entry m1 ts' k') /\
       (forall b c, cols m1 !! b = Some c -> ~ owned m1 out k b -> cols m' !! b = Some c)) m1).
  { eapply wp_mono; [apply (addColumn_spec (ext ∪ {[a]}) out k (field_col f) [] a m1)|].
    - done. - exact Hs. - set_solver. - unfold m1; simpl. by rewrite lookup_insert_eq.
    - intros [] m2 H2. rewrite ext_add_del in H2 by done. replace (ext ∪ {[a]} ∖ {[a]}) with ext by set_solver. exact H2. }
  apply wp_total in H as ([] & m2 & E2 & Hi2 & Hd2 & Hr2 & He2 & Hc2). replace (ext ∪ {[a]} ∖ {[a]}) with ext in Hi2 by set_solver.
  rewrite (bind_Ok _ _ _ _ _ E2). exists a, m2. split; [done|]. split; [split_and!; [done|done|]|by eexists].
  apply (evolves_one _ _ _ k); [done|set_solver|]. split.
  - intros ts' k' Hne. by rewrite He2.
  - intros b c Hb Hno. apply Hc2; [|done]. unfold m1; simpl. by rewrite lookup_insert_ne by congruence.
  - intros b (mf & Hb & _). destruct Hr2 as (Hr2 & _ & _). rewrite Hr2 in Hb. simplify_eq. by left.
Qed.

(** The columns a side's records are unpacked to. *)
Definition record_keys (offset : Z) (ty : RHSType) (order : list Z) : list Z := map (Z.add offset) (take (length ty) order).

Lemma createCols_spec ty offset order m :
  mem_inv ext ∅ m -> is_Some (sets m !! out) -> (length ty <= length order)%nat -> NoDup (record_keys offset ty order) ->
  exists us m', createCols ty out offset order m = Ok (map Some us) m' /\ stepped ext out (record_keys offset ty order) m m' /\
    probe_cols out m' ty (record_keys offset ty order) us (map (fun _ => []) ty).
Proof.
  revert order m. unfold record_keys. induction ty as [|f ty IH]; intros order m Hi Hs Hl Hnd; simpl.
  { exists [], m. split_and!; [done|by apply stepped_refl|constructor]. }
  destruct order as [|k order]; simpl in *; [lia|]. apply NoDup_cons in Hnd as [Hk Hnd].
  destruct (allocate_spec f (offset + k) m Hi Hs) as (a & m1 & E1 & H1 & Hat).
  rewrite (bind_Ok _ _ _ _ _ E1).
  destruct (IH order m1) as (us & m2 & E2 & H2 & Hp); [apply H1|apply (is_Some_dom m); [apply H1|done]|lia|done|].
  rewrite (bind_Ok _ _ _ _ _ E2). exists (a :: us), m2. split; [done|]. split.
  - eapply stepped_trans; (eapply stepped_weaken; [|done]); set_solver.
  - constructor; [|done]. eapply (at_col_evolves ext); [apply H2|exact Hk|done].
Qed.
End cols.

(** ** The constructors *)

(** What opening the pages needs: the worker's map on every page, and emptiness
    that [isEmpty] recognises. *)
Definition pages_ok (isEmpty : JoinMap row -> bool) (workerID : nat) (pages : list jpage) : Prop :=
  forall page, page ∈ pages -> exists x, page !! workerID = Some x /\ jpa_ok (myArray x) /\
    (isEmpty x = true <-> groups (myArray x) = []).

Lemma pages_ok_begin workerID pages :
  (forall page, page ∈ pages -> exists x, page !! workerID = Some x /\ jpa_ok (myArray x)) ->
  pages_ok (fun m => isDone (iterator_begin (myArray m))) workerID pages.
Proof.
  intros H page Hp. destruct (H page Hp) as (x & Hx & Hok). exists x. split_and!; [done|done|]. apply iterator_begin_done.
Qed.

Section start.
Context `{PQ : !PriorityQueue (JoinMapIterator row) hash_greater}.

Lemma open_pages_new isEmpty workerID pages m :
  pages_ok isEmpty workerID pages ->
  exists q n, open_pages isEmpty workerID pages (pq_empty, 0%nat) m = Ok (q, n) m /\ queue_ok q /\
    left_in q ≡ₚ worker_groups workerID pages.
Proof.
  intros H. destruct (open_pages_spec isEmpty workerID pages (pq_empty, 0%nat) m H queue_ok_empty) as (q & n & E & Hq & Hl).
  exists q, n. split_and!; [done|done|]. rewrite Hl. simpl. by rewrite left_in_empty.
Qed.

#[local] Instance rows_typed_perm ty : Proper ((≡ₚ) ==> iff) (rows_typed ty).
Proof. intros g g' H. unfold rows_typed. split; intros Ht e r He; [rewrite <- H in He|rewrite H in He]; eauto. Qed.

Section right.
Context (ext : gset addr) (tyR : RHSType) (inputSchema hashSchema recordSchema : TupleSpec) (recordOrder : list Z).
Context (pages : list jpage) (chunk : Z) (workerID : nat) (keyAtt : Z) (others : list Z).
Abbreviation kfsR := (record_keys 0 tyR recordOrder).
Abbreviation build := (RHSShuffleJoinSource_new tyR inputSchema hashSchema recordSchema recordOrder pages chunk workerID).

Lemma rhs_new_spec m :
  mem_inv ext ∅ m -> match_ inputSchema hashSchema = keyAtt :: others -> keyAtt ∉ kfsR -> NoDup kfsR ->
  (length tyR <= length (match_ inputSchema recordSchema))%nat -> (length tyR <= length recordOrder)%nat ->
  pages_ok (fun m => isDone (iterator_begin (myArray m))) workerID pages ->
  rows_typed tyR (worker_groups workerID pages) ->
  Z.of_nat (length (rows_of (worker_groups workerID pages))) < 2 ^ 31 ->
  exists src us m', build m = Ok src m' /\ rhs_ok (ext ∪ {[hashColumn src]}) tyR kfsR us src m' /\
    left_in (pageIterators src) ≡ₚ worker_groups workerID pages /\ sets m !! output src = None /\
    is_Some (sets m' !! output src) /\ chunkSize src = chunk /\
    dom (sets m') = {[output src]} ∪ dom (sets m).
Proof.
  intros Hi Hm Hk Hnd Hl1 Hl2 Hp Hty Hb. unfold RHSShuffleJoinSource_new.
  destruct (TupleSet_new_eq ext m Hi) as (out & m1 & E1 & Hi1 & Hn1 & _ & Hs1).
  rewrite (bind_Ok _ _ _ _ _ E1). unfold first_match. rewrite Hm. rewrite (bind_Ok _ _ _ keyAtt m1) by done.
  rewrite (proj2 (Nat.leb_le _ _) Hl1).
  assert (Ho1 : is_Some (sets m1 !! out)) by (rewrite Hs1, lookup_insert_eq; eauto).
  destruct (createCols_spec ext out tyR 0 recordOrder m1 Hi1 Ho1 Hl2 Hnd) as (us & m2 & E2 & (Hi2 & Hd2 & He2) & Hc2).
  rewrite (bind_Ok _ _ _ _ _ E2). destruct (new_col_eq ColSize [] m2) as (hc & E3 & Hf3). rewrite (bind_Ok _ _ _ _ _ E3).
  set (m3 := set_cols _ m2). assert (Hi3 : mem_inv (ext ∪ {[hc]}) ∅ m3) by by apply mem_inv_new.
  assert (Hn3 : entry m3 out keyAtt = None).
  { change (entry m2 out keyAtt = None). rewrite (evolves_entry _ _ _ _ _ out keyAtt He2) by naive_solver.
    rewrite (new_set_entry _ _ _ out keyAtt Hs1 Hn1). unfold entry. by rewrite Hn1. }
  destruct (addColumn_borrowed (ext ∪ {[hc]}) out keyAtt ColSize hc m3 Hi3) as (m4 & E4 & Hi4 & Hd4 & Hent & Hcol); [|done|].
  { apply (is_Some_dom m1); [exact Hd2|done]. }
  rewrite (bind_Ok _ _ _ _ _ E4). destruct (open_pages_new _ _ _ m4 Hp) as (q & n & E5 & Hq & Hleft).
  rewrite (bind_Ok _ _ _ _ _ E5). eexists _, us, m4. split; [reflexivity|]. simpl.
  assert (Hdom : dom (sets m4) = {[out]} ∪ dom (sets m)) by (rewrite Hd4; simpl; by rewrite Hd2, Hs1, dom_insert_L).
  split_and!; [|done|done| |done|done].
  2:{ apply elem_of_dom. rewrite Hdom. set_solver. }
  split; simpl; [done|by rewrite Hleft|by rewrite (Permutation_length (rows_of_perm _ _ Hleft))|done|done|set_solver|].
  exists [], (map (fun _ => []) tyR). split.
  - done.
  - eapply probe_cols_mono; [|exact Hc2]. intros k a t v Hin (mf & (He & Hc & Hf) & Hd). exists mf. split; [|done].
    split_and!; [|apply Hcol; unfold m3; simpl; rewrite lookup_insert_ne; [done|congruence]|done].
    rewrite Hent; [done|]. by intros [_ ->].
  - apply holds_nil.
  - apply Hcol. unfold m3. simpl. by rewrite lookup_insert_eq.
Qed.
End right.

Section left.
Context (ext : gset addr) (ty tyR : RHSType) (kfsR : list Z) (usR : list addr) (τ : Z -> ColType) (sel : Z -> joined -> val).
Context (inputSchemaRHS recordSchemaRHS : TupleSpec) (pages : list jpage) (order : list Z) (swap : bool) (workerID : nat).

Definition left_offset : Z := if swap then Z.of_nat (length (getAtts recordSchemaRHS)) else 0.
Definition right_offset : Z := if swap then 0 else Z.of_nat (length order).
Abbreviation rm := (TupleSetSetupMachine_of inputSchemaRHS recordSchemaRHS).
Abbreviation kfs := (record_keys left_offset ty order).
Abbreviation build := (JoinedShuffleJoinSource_new ty inputSchemaRHS recordSchemaRHS pages order swap workerID).

Lemma joined_new_spec rsrc m :
  rhs_ok ext tyR kfsR usR rsrc m -> is_Some (sets m !! output rsrc) ->
  layout ty tyR kfs kfsR τ sel rm right_offset -> (length ty <= length order)%nat ->
  pages_ok (fun m => map_size m =? 0) workerID pages -> rows_typed ty (worker_groups workerID pages) ->
  Z.of_nat (length (full_join (worker_groups workerID pages) (left_in (pageIterators rsrc)))) < 2 ^ 31 ->
  (forall e, e ∈ left_in (pageIterators rsrc) -> joinable (worker_groups workerID pages) e.1) ->
  exists src us m', build m = Ok src m' /\
    joined_ok ext ty tyR kfs kfsR us usR τ sel rm right_offset src rsrc [] [] m' /\
    left_in (lhsIterators src) ≡ₚ worker_groups workerID pages.
Proof.
  intros Hr Ho Hly Hl Hp Hty Hb Hj. unfold JoinedShuffleJoinSource_new.
  destruct (open_pages_new _ _ _ m Hp) as (q & n & E0 & Hq & Hleft). rewrite (bind_Ok _ _ _ _ _ E0).
  assert (Hi : mem_inv ext ∅ m) by (destruct (rk_vectors _ _ _ _ _ _ Hr) as (hs & Ls & [Hi _ _ _]); exact Hi).
  destruct (TupleSet_new_eq ext m Hi) as (out & m1 & E1 & Hi1 & Hn1 & Hc1 & Hs1). rewrite (bind_Ok _ _ _ _ _ E1).
  destruct (TupleSet_new_eq ext m1 Hi1) as (buf & m2 & E2 & Hi2 & Hn2 & Hc2 & Hs2). rewrite (bind_Ok _ _ _ _ _ E2).
  rewrite (proj2 (Nat.leb_le _ _) Hl). fold left_offset right_offset.
  assert (Ho1 : is_Some (sets m1 !! out)) by (rewrite Hs1, lookup_insert_eq; eauto).
  assert (Hob : out <> buf) by (intros ->; rewrite Hn2 in Ho1; by destruct Ho1).
  assert (Ho2 : is_Some (sets m2 !! out)) by by rewrite Hs2, lookup_insert_ne.
  assert (Hent2 : forall ts k, entry m2 ts k = entry m ts k).
  { intros ts k. by rewrite (new_set_entry m1 m2 buf), (new_set_entry m m1 out). }
  destruct (createCols_spec ext out ty left_offset order m2 Hi2 Ho2 Hl) as (us & m3 & E3 & (Hi3 & Hd3 & He3) & Hp3).
  { by eapply kfs_NoDup. }
  rewrite (bind_Ok _ _ _ _ _ E3). eexists _, us, m3. split; [reflexivity|]. split; [|exact Hleft].
  assert (Hout : output rsrc <> out) by (intros E; rewrite E, Hn1 in Ho; by destruct Ho).
  assert (Hbuf : output rsrc <> buf).
  { intros E. rewrite Hs1, lookup_insert_ne in Hn2 by done. rewrite E, Hn2 in Ho. by destruct Ho. }
  assert (Hr2 : rhs_ok ext tyR kfsR usR rsrc m2).
  { eapply rhs_ok_kept; [done|done|intros k; apply Hent2|]. intros a c k Ha _. by rewrite Hc2, Hc1. }
  assert (Hok3 : rhs_ok ext tyR kfsR usR rsrc m3) by (eapply evolves_rhs_ok; [exact Hly|exact Hout|exact Hi3|exact He3|exact Hr2]).
  split; simpl; try done.
  - unfold left_side. simpl. by rewrite Hleft.
  - by apply (is_Some_dom m2).
  - apply (is_Some_dom m2); [done|]. rewrite Hs2, lookup_insert_eq. eauto.
  - by eexists.
  - intros k He. apply elem_of_app. left. destruct (decide (k ∈ kfs)) as [|Hk]; [done|].
    rewrite (evolves_entry _ _ _ _ _ out k He3) in He by naive_solver. rewrite Hent2 in He. unfold entry in He.
    rewrite Hn1 in He. by destruct He.
  - unfold left_side, right_side. simpl. erewrite Permutation_length; [exact Hb|]. apply full_join_left. intros e _. by rewrite Hleft.
  - unfold left_side. simpl. intros e He. eapply joinable_perm; [by symmetry|by apply Hj].
  - left. split; [done|]. split; [|by left]. intros k. rewrite (evolves_entry _ _ _ _ _ buf k He3) by (intros [? _]; congruence).
    rewrite Hent2. unfold entry. rewrite Hs1, lookup_insert_ne in Hn2 by done. by rewrite Hn2.
Qed.
End left.
End start.

(** ** Lists with keys *)

Section keyed.
Context {A : Type}.
Implicit Types l : list (Z * A).

Definition keyed (h : Z) l : list A := omap (fun x => if h =? x.1 then Some x.2 else None) l.

Lemma keyed_app h l l' : keyed h (l ++ l') = keyed h l ++ keyed h l'.
Proof. apply omap_app. Qed.
Lemma elem_of_keyed h a l : a ∈ keyed h l <-> (h, a) ∈ l.
Proof.
  unfold keyed. rewrite list_elem_of_omap. split.
  - intros ([k b] & Hin & E). simpl in E. destruct (Z.eqb_spec h k); by simplify_eq.
  - intros Hin. exists (h, a). simpl. by rewrite Z.eqb_refl.
Qed.
#[export] Instance keyed_perm h : Proper ((≡ₚ) ==> (≡ₚ)) (keyed h).
Proof. intros l l' H. unfold keyed. by rewrite H. Qed.

(** Lists with the same values under every key are the same up to order. *)
Lemma perm_by_key l l' : (forall h, keyed h l ≡ₚ keyed h l') -> l ≡ₚ l'.
Proof.
  revert l'. induction l as [|[h a] l IH]; intros l' H.
  - destruct l' as [|[h a] l']; [done|]. specialize (H h). unfold keyed in H. simpl in H. rewrite Z.eqb_refl in H.
    by apply Permutation_nil_cons in H.
  - assert (Hin : (h, a) ∈ l').
    { apply elem_of_keyed. rewrite <- H. apply elem_of_keyed. by left. }
    apply elem_of_Permutation in Hin as [l2 Hl2]. rewrite Hl2. constructor. apply IH. intros k.
    specialize (H k). rewrite Hl2 in H. unfold keyed in *. simpl in *. destruct (k =? h); [by eapply Permutation_cons_inv|done].
Qed.

Lemma keyed_map_pair h k (l : list A) : keyed h (map (pair k) l) = if h =? k then l else [].
Proof.
  unfold keyed. destruct (h =? k) eqn:E; induction l as [|a l IH]; [done| |done|]; simpl; rewrite E; [by f_equal|done].
Qed.
End keyed.

Lemma keyed_flat h (L : list group) : keyed h (flat L) = rows_under h L.
Proof.
  unfold flat, rows_under, rows_of. induction L as [|e L IH]; [done|]. simpl. rewrite keyed_app, IH, keyed_map_pair, filter_cons.
  destruct (Z.eqb_spec h e.1) as [->|Hne]; [by rewrite decide_True by done|]. by rewrite decide_False by congruence.
Qed.

(** ** Maps and rows *)

Definition rows_with (h : Z) (rows : list (Z * row)) : list row :=
  omap (fun x => if norm_hash h =? norm_hash x.1 then Some x.2 else None) rows.
Definition hashed (rows : list (Z * row)) : list (Z * row) := map (fun x => (norm_hash x.1, x.2)) rows.

Lemma rows_with_keyed h rows : rows_with h rows = keyed (norm_hash h) (hashed rows).
Proof.
  unfold rows_with, keyed, hashed. induction rows as [|x rows IH]; [done|]. simpl. destruct (_ =? _); [by f_equal|done].
Qed.
Lemma hashed_key h rows : norm_hash h <> h -> keyed h (hashed rows) = [].
Proof.
  intros Hn. unfold keyed, hashed. induction rows as [|x rows IH]; [done|]. simpl.
  rewrite (proj2 (Z.eqb_neq _ _)); [done|]. intros ->. by rewrite norm_idem in Hn.
Qed.

(** A map that has these rows and no others. *)
Definition map_of (x : JoinMap row) (rows : list (Z * row)) : Prop :=
  jpa_ok (myArray x) /\ forall h, map_view x h ≡ₚ rows_with h rows.

Lemma concat_at_key {A B} (g : Z -> list B) h (l : list (A * Z)) :
  NoDup (map snd l) ->
  concat (map (fun x => if h =? x.2 then g x.2 else []) l) = if bool_decide (h ∈ map snd l) then g h else [].
Proof.
  induction l as [|[a k] l IH]; [done|]. intros [Hk Hnd]%NoDup_cons. simpl. rewrite (IH Hnd).
  destruct (Z.eqb_spec h k) as [->|Hne].
  - rewrite (bool_decide_false (k ∈ map snd l)) by done. rewrite app_nil_r, bool_decide_true by by left. done.
  - simpl. erewrite bool_decide_ext; [done|]. rewrite elem_of_cons. naive_solver.
Qed.

Lemma groups_rows x rows : map_of x rows -> flat (groups (myArray x)) ≡ₚ hashed rows.
Proof.
  intros [Hok Hv]. set (p := myArray x) in *. apply perm_by_key. intros h.
  assert (E : keyed h (flat (groups p)) = if bool_decide (h ∈ map snd (order p)) then view p h else []).
  { rewrite <- (concat_at_key (view p) h (order p)) by by apply order_NoDup. unfold flat, groups.
    induction (order p) as [|y l IH]; [done|]. simpl. by rewrite keyed_app, keyed_map_pair, IH. }
  rewrite E. destruct (decide (norm_hash h = h)) as [Hn|Hn].
  - transitivity (rows_with h rows); [|by rewrite rows_with_keyed, Hn]. rewrite <- (Hv h). unfold map_view. fold p.
    case_bool_decide as Hin; [done|]. enough (view p h = []) as -> by done.
    destruct (decide (view p h = [])) as [|Hv']; [done|]. destruct Hin. destruct (order_complete p h Hok Hv') as [s Hs].
    rewrite Hn in Hs. apply list_elem_of_fmap. by exists (s, h).
  - rewrite hashed_key by done. rewrite bool_decide_false; [done|]. intros ([s h'] & -> & Hin)%list_elem_of_fmap. apply Hn.
    by destruct (order_records p s h' Hok Hin) as (_ & ? & _).
Qed.

(** ** The pages of a worker *)

Definition pages_hold (workerID : nat) (pages : list jpage) (rowss : list (list (Z * row))) : Prop :=
  Forall2 (fun (page : jpage) rows => exists x, page !! workerID = Some x /\ map_of x rows) pages rowss.

Lemma flat_app (L L' : list group) : flat (L ++ L') = flat L ++ flat L'.
Proof. unfold flat. by rewrite map_app, concat_app. Qed.

Lemma pages_rows workerID pages rowss :
  pages_hold workerID pages rowss -> flat (worker_groups workerID pages) ≡ₚ hashed (concat rowss).
Proof.
  induction 1 as [|page rows pages rowss (x & Hx & Hm) H IH]; [done|]. unfold worker_groups, hashed. simpl.
  rewrite Hx, flat_app, map_app. apply Permutation_app; [by apply groups_rows|exact IH].
Qed.

(** Every pair of a left and a right row whose hashes are stored alike. *)
Definition hash_join (ls rs : list (Z * row)) : list joined :=
  concat (map (fun y => map (fun l => (l, y.2)) (rows_with y.1 ls)) rs).

Lemma elem_of_hash_join ls rs l r :
  (l, r) ∈ hash_join ls rs <-> exists hl hr, (hl, l) ∈ ls /\ (hr, r) ∈ rs /\ norm_hash hl = norm_hash hr.
Proof.
  unfold hash_join. rewrite elem_of_concat_map. split.
  - intros ([hr r'] & Hr & (l' & [= -> ->] & Hl)%list_elem_of_fmap). unfold rows_with in Hl. simpl in Hl.
    apply list_elem_of_omap in Hl as ([hl l''] & Hl & E). simpl in E. destruct (Z.eqb_spec (norm_hash hr) (norm_hash hl)); simplify_eq. eauto.
  - intros (hl & hr & Hl & Hr & E). exists (hr, r). split; [done|]. apply list_elem_of_fmap. exists l. split; [done|].
    unfold rows_with. apply list_elem_of_omap. exists (hl, l). split; [done|]. simpl. by rewrite E, Z.eqb_refl.
Qed.

Lemma full_join_rows L R ls rs :
  flat L ≡ₚ hashed ls -> flat R ≡ₚ hashed rs -> full_join L R ≡ₚ hash_join ls rs.
Proof.
  intros HL HR. unfold full_join. rewrite HR. unfold hashed, hash_join. rewrite map_map. apply concat_perm_ext.
  intros y _. simpl. by rewrite <- keyed_flat, HL, rows_with_keyed.
Qed.

(** What the constructors and the calls need of the groups, from the rows. *)
Lemma pages_hold_begin workerID pages rowss :
  pages_hold workerID pages rowss -> forall page, page ∈ pages -> exists x, page !! workerID = Some x /\ jpa_ok (myArray x).
Proof.
  induction 1 as [|page rows pages rowss (x & Hx & Hm) H IH]; intros page' Hp; [by apply elem_of_nil in Hp|].
  apply elem_of_cons in Hp as [->|Hp]; [exists x; split; [done|apply Hm]|auto].
Qed.

Lemma flat_elem e r (L : list group) : e ∈ L -> r ∈ e.2 -> (e.1, r) ∈ flat L.
Proof. intros He Hr. unfold flat. apply elem_of_concat_map. exists e. split; [done|]. apply list_elem_of_fmap. eauto. Qed.

Lemma pages_typed ty workerID pages rowss :
  pages_hold workerID pages rowss -> (forall x, x ∈ concat rowss -> length x.2 = length ty) -> rows_typed ty (worker_groups workerID pages).
Proof.
  intros H Hty e r He Hr. pose proof (flat_elem e r _ He Hr) as Hin. rewrite (pages_rows _ _ _ H) in Hin.
  apply list_elem_of_fmap in Hin as (x & [= _ ->] & Hx). by apply Hty.
Qed.
Lemma pages_count workerID pages rowss :
  pages_hold workerID pages rowss -> length (rows_of (worker_groups workerID pages)) = length (concat rowss).
Proof. intros H. rewrite flat_rows, length_map, (Permutation_length (pages_rows _ _ _ H)). apply length_map. Qed.
