(* ===== verification/ShuffleDrive.v ===== *)
(** All calls of the left source of a shuffled join until it returns null: every
    pair of rows of one hash is handed out once; runs, and what goes wrong. *)

From stdpp Require Import list sorting relations.
From S2P Require Import Prelude AtomicComputation TupleSet TupleSetOwnership TupleSetSpec Executors Allocation SinkState JoinPairArray Multimap JoinTuple JoinSinks JoinProbe SizePolicy PriorityQueue ShuffleJoin ShuffleRhsSpec ShuffleJoinSpec TupleSetSplit ShuffleSpec ShufflePages.

Open Scope Z_scope.

(** ** The columns of the joined rows *)

Section columns.
Context (ty tyR : RHSType) (kfs kfsR : list Z) (rm : TupleSetSetupMachine) (off : Z).

Inductive place := LeftField (j : nat) | RightField (j : nat).
(** Which field of which side a column of the output has. *)
Definition place_of (k : Z) : option (place * TupleField) :=
  match list_find (fun x => x = k) kfs with
  | Some (j, _) => (fun f => (LeftField j, f)) <$> ty !! j
  | None => i ← matches rm !! Z.to_nat (k - off); x ← list_find (fun x => x = i) kfsR; (fun f => (RightField x.1, f)) <$> tyR !! x.1
  end.
Definition col_of (k : Z) : ColType := match place_of k with Some (_, f) => field_col f | None => ColSize end.
Definition cell_of (k : Z) (x : joined) : val :=
  VHandle (match place_of k with
           | Some (LeftField j, _) => x.1 !!! j
           | Some (RightField j, _) => x.2 !!! j
           | None => None
           end).

Lemma list_find_at (l : list Z) j k : NoDup l -> l !! j = Some k -> list_find (fun x => x = k) l = Some (j, k).
Proof.
  intros Hnd Hj. apply list_find_Some. split_and!; [done|done|]. intros i y Hi Hlt ->.
  assert (i = j) by by eapply NoDup_lookup. lia.
Qed.

Lemma layout_of :
  NoDup (all_keys kfs rm off) -> NoDup kfsR ->
  (forall i, i ∈ matches rm -> exists j f, kfsR !! j = Some i /\ tyR !! j = Some f) ->
  layout ty tyR kfs kfsR col_of cell_of rm off.
Proof.
  intros Hnd HndR Hr. assert (Hk : NoDup kfs) by (unfold all_keys in Hnd; by apply NoDup_app in Hnd as [? _]). split; [done| | |done].
  - intros j k f Hj Hf. assert (E : place_of k = Some (LeftField j, f)).
    { unfold place_of. by rewrite (list_find_at _ _ _ Hk Hj), Hf. }
    unfold col_of, cell_of. by rewrite E.
  - intros p i Hp. destruct (Hr i ltac:(by eapply list_elem_of_lookup_2)) as (j & f & Hj & Hf). exists j, f.
    assert (E : place_of (Z.of_nat p + off) = Some (RightField j, f)).
    { unfold place_of. destruct (list_find (fun x => x = Z.of_nat p + off) kfs) as [[j' k]|] eqn:El.
      - exfalso. apply list_find_Some in El as (Hl & -> & _). apply NoDup_app in Hnd as (_ & Hd & _).
        apply (Hd (Z.of_nat p + off)); [by eapply list_elem_of_lookup_2|]. apply list_elem_of_fmap. exists (Z.of_nat p, i).
        split; [done|]. apply elem_of_lookup_imap. eauto.
      - replace (Z.to_nat (Z.of_nat p + off - off)) with p by lia. rewrite Hp. simpl. rewrite (list_find_at _ _ _ HndR Hj). simpl. by rewrite Hf. }
    unfold col_of, cell_of. by rewrite E.
Qed.
End columns.

Section drive.
Context `{PQ : !PriorityQueue (JoinMapIterator row) hash_greater}.

(** ** The right source on its own *)

Section right.
Context (ext : gset addr) (ty : RHSType) (kfs : list Z) (us : list addr).

(** Calls until the source says that it is done, with what each hands out. *)
Inductive rhs_serves : RHSShuffleJoinSource -> mem -> list (list group) -> Prop :=
| rhs_serves_done src m : rhs_getNextTupleSet ty src m = Ok (src, None) m -> rhs_serves src m []
| rhs_serves_set src m src' m' g gs :
    rhs_getNextTupleSet ty src m = Ok (src', Some (output src)) m' -> hands_out ty kfs us src' g m' ->
    rhs_serves src' m' gs -> rhs_serves src m (g :: gs).

(** The hashes of one tuple set are all below those of the next. *)
Definition set_below (g g' : list group) : Prop := forall e e', e ∈ g -> e' ∈ g' -> e.1 < e'.1.

Lemma rhs_serves_all src m : rhs_ok ext ty kfs us src m ->
  exists gs, rhs_serves src m gs /\ concat gs ≡ₚ left_in (pageIterators src) /\
    Forall (fun g => StronglySorted Z.le (map fst g)) gs /\ StronglySorted set_below gs.
Proof.
  remember (length (rows_of (left_in (pageIterators src)))) as n eqn:En.
  revert src m En. induction (lt_wf n) as [n _ IH]. intros src m -> H.
  pose proof (rhs_call_spec ext ty kfs us src m H) as Hc.
  apply wp_total in Hc as ([src' o] & m' & E & Hok & _ & Hr). simpl in *. destruct o as [ts|].
  2:{ destruct Hr as (Hn & -> & ->). exists []. rewrite Hn. split_and!; [by constructor|done|constructor|constructor]. }
  destruct Hr as (-> & g & Hg & Hro & Hho).
  destruct (IH _ (read_off_fewer _ _ _ Hg Hro) src' m' eq_refl Hok) as (gs & Hs & Hp & Hsort & Hbelow).
  exists (g :: gs). split_and!; [by econstructor| | |].
  - simpl. by rewrite Hp, (ro_left _ _ _ Hro).
  - constructor; [apply Hro|done].
  - constructor; [done|]. apply Forall_forall. intros g' Hg' e e' He He'. apply (ro_above _ _ _ Hro); [done|].
    rewrite <- Hp. apply list_elem_of_In, in_concat. exists g'. by rewrite <- !list_elem_of_In.
Qed.
End right.

(** ** Both sources *)

Section both.
Context (ext : gset addr) (ty tyR : RHSType) (kfs kfsR : list Z) (us usR : list addr).
Context (τ : Z -> ColType) (sel : Z -> joined -> val).
Context (rm : TupleSetSetupMachine) (off : Z) (Hly : layout ty tyR kfs kfsR τ sel rm off).
Abbreviation ks := (all_keys kfs rm off).

(** Calls until the join is done, every chunk processed, with the joined rows
    each hands out. *)
Inductive join_serves (p : SizePolicy) : JoinedShuffleJoinSource -> RHSShuffleJoinSource -> mem -> list (list joined) -> Prop :=
| join_serves_done src rsrc m src' rsrc' m' :
    joined_getNextTupleSet (rhs_next tyR) ty p src rsrc m = Ok (src', rsrc', None) m' -> join_serves p src rsrc m []
| join_serves_set src rsrc m src' rsrc' m' O Os :
    joined_getNextTupleSet (rhs_next tyR) ty p src rsrc m = Ok (src', rsrc', Some (j_output src)) m' ->
    holds_cols m' (j_output src) ks τ (cols_of sel O) -> Z.of_nat (length O) <= getChunksSize p ->
    join_serves p src' rsrc' m' Os -> join_serves p src rsrc m (O :: Os).

Lemma join_serves_all p src rsrc O B m :
  joined_ok ext ty tyR kfs kfsR us usR τ sel rm off src rsrc O B m ->
  inputWasProcessed p = true -> 1 <= getChunksSize p < 2 ^ 31 ->
  exists Os, join_serves p src rsrc m Os /\ concat Os ≡ₚ pending src rsrc B.
Proof.
  intros H Hp Hchunk. remember (length (rows_of (right_side rsrc))) as n eqn:En. remember (length B) as b eqn:Eb.
  revert b src rsrc O B m En Eb H. induction (lt_wf n) as [n _ IHn]. intros b. induction (lt_wf b) as [b _ IHb].
  intros src rsrc O B m -> -> H.
  destruct (joined_call_spec ext ty tyR kfs kfsR us usR τ sel rm off Hly p src rsrc O B m H Hchunk)
    as (src' & rsrc' & o & m' & O' & B' & E & Ho & H' & Hr); [by left|].
  rewrite Hp in Hr. destruct o as [ts|].
  2:{ destruct Hr as [Hn _]. exists []. rewrite Hn. split; [by econstructor|done]. }
  destruct Hr as (-> & Hpend & Hlen & Hh & Hprog).
  assert (G : exists Os, join_serves p src' rsrc' m' Os /\ concat Os ≡ₚ pending src' rsrc' B').
  { destruct Hprog as [Hlt|[-> Hlt]]; [by eapply IHn|by eapply IHb]. }
  destruct G as (Os & Hs & HOs). exists (O' :: Os). split; [by econstructor|]. simpl. by rewrite HOs, Hpend.
Qed.

(** a call of JoinedShuffleJoinSource::getNextTupleSet hands out at most a
    chunk of the joined rows that are left, the rows of the last chunk again
    when that failed, and keeps the rest; no pair of a left and a right record
    with the same hash is lost or handed out twice.  It says that it is done
    only when nothing is left.  For this the left side must not end before the
    right one, and a chunk may fail only after one that was too large. *)
Theorem joined_source_serves_every_pair p src rsrc O B m :
  joined_ok ext ty tyR kfs kfsR us usR τ sel rm off src rsrc O B m -> 1 <= getChunksSize p < 2 ^ 31 ->
  inputWasProcessed p = true \/ has_buffer kfs τ sel rm off src O B m ->
  let todo := pending src rsrc (if inputWasProcessed p then B else B ++ O) in
  exists src' rsrc' o m' O' B',
    joined_getNextTupleSet (rhs_next tyR) ty p src rsrc m = Ok (src', rsrc', o) m' /\
    j_output src' = j_output src /\ joined_ok ext ty tyR kfs kfsR us usR τ sel rm off src' rsrc' O' B' m' /\
    match o with
    | Some ts => ts = j_output src /\ todo ≡ₚ O' ++ pending src' rsrc' B' /\ Z.of_nat (length O') <= getChunksSize p /\
                 holds_cols m' ts ks τ (cols_of sel O')
    | None => todo = [] /\ pending src' rsrc' B' = []
    end.
Proof.
  intros H Hchunk Hp todo.
  destruct (joined_call_spec ext ty tyR kfs kfsR us usR τ sel rm off Hly p src rsrc O B m H Hchunk Hp)
    as (src' & rsrc' & o & m' & O' & B' & E & Ho & H' & Hr).
  exists src', rsrc', o, m', O', B'. split_and!; [done..|]. destruct o; [|done]. by destruct Hr as (? & ? & ? & ? & _).
Qed.
End both.

(** ** From the pages *)

(** C30: an RHSShuffleJoinSource over the worker's maps hands out, until it says
    that it is done, every row that was written to them exactly once, under the
    hash it is stored with; the rows of a tuple set come in ascending order of
    their hashes and no hash is spread over two tuple sets. *)
Theorem rhs_source_serves_by_hash ext ty inputSchema hashSchema recordSchema order pages rowss chunk workerID keyAtt others m :
  let kfs := record_keys 0 ty order in
  mem_inv ext ∅ m -> match_ inputSchema hashSchema = keyAtt :: others -> keyAtt ∉ kfs -> NoDup kfs ->
  (length ty <= length (match_ inputSchema recordSchema))%nat -> (length ty <= length order)%nat ->
  pages_hold workerID pages rowss -> (forall x, x ∈ concat rowss -> length x.2 = length ty) ->
  Z.of_nat (length (concat rowss)) < 2 ^ 31 ->
  exists src us m' gs,
    RHSShuffleJoinSource_new ty inputSchema hashSchema recordSchema order pages chunk workerID m = Ok src m' /\
    rhs_serves ty kfs us src m' gs /\ flat (concat gs) ≡ₚ hashed (concat rowss) /\
    Forall (fun g => StronglySorted Z.le (map fst g)) gs /\ StronglySorted set_below gs.
Proof.
  intros kfs Hi Hm Hk Hnd Hl1 Hl2 Hp Hty Hb.
  destruct (rhs_new_spec ext ty inputSchema hashSchema recordSchema order pages chunk workerID keyAtt others m)
    as (src & us & m' & E & Hok & Hleft & _); try done.
  { by eapply pages_ok_begin, pages_hold_begin. } { by eapply pages_typed. } { by rewrite (pages_count _ _ _ Hp). }
  destruct (rhs_serves_all _ _ _ _ _ _ Hok) as (gs & Hs & Hperm & Hsort & Hbelow).
  exists src, us, m', gs. split_and!; [done|done| |done|done]. rewrite <- (pages_rows _ _ _ Hp), Hperm, Hleft. done.
Qed.

Section join.
Context (ext : gset addr) (ty tyR : RHSType) (inputSchema hashSchema recordSchema : TupleSpec) (orderR order : list Z).
Context (pagesR pages : list jpage) (swap : bool) (chunk : Z) (workerID : nat).
Abbreviation kfsR := (record_keys 0 tyR orderR).
Abbreviation kfs := (record_keys (left_offset recordSchema swap) ty order).
Abbreviation rm := (TupleSetSetupMachine_of inputSchema recordSchema).
Abbreviation off := (right_offset order swap).

(** The schemas give every field a column of its own. *)
Record columns_fit (keyAtt : Z) : Prop := {
  cf_key : exists others, match_ inputSchema hashSchema = keyAtt :: others;
  cf_key_apart : keyAtt ∉ kfsR;
  cf_right : NoDup kfsR;
  cf_all : NoDup (all_keys kfs rm off);
  cf_fields i : i ∈ match_ inputSchema recordSchema -> exists j f, kfsR !! j = Some i /\ tyR !! j = Some f;
  cf_records : (length tyR <= length (match_ inputSchema recordSchema))%nat;
  cf_orderR : (length tyR <= length orderR)%nat;
  cf_order : (length ty <= length order)%nat
}.

(** What the maps, the rows in them and their number must be like. *)
Record maps_fit (lss rss : list (list (Z * row))) : Prop := {
  mp_right : pages_hold workerID pagesR rss;
  mp_left : pages_hold workerID pages lss;
  mp_typedR x : x ∈ concat rss -> length x.2 = length tyR;
  mp_typed x : x ∈ concat lss -> length x.2 = length ty;
  mp_sizes : pages_ok (fun m => map_size m =? 0) workerID pages;
  mp_joinable e : e ∈ worker_groups workerID pagesR -> joinable (worker_groups workerID pages) e.1;
  mp_few : Z.of_nat (length (concat rss)) < 2 ^ 31;
  mp_few_pairs : Z.of_nat (length (hash_join (concat lss) (concat rss))) < 2 ^ 31
}.
Abbreviation τ := (col_of ty tyR kfs kfsR rm off).
Abbreviation sel := (cell_of ty tyR kfs kfsR rm off).

Lemma join_starts keyAtt lss rss m :
  mem_inv ext ∅ m -> columns_fit keyAtt -> maps_fit lss rss ->
  exists rsrc m1 src m2 us usR,
    RHSShuffleJoinSource_new tyR inputSchema hashSchema recordSchema orderR pagesR chunk workerID m = Ok rsrc m1 /\
    JoinedShuffleJoinSource_new ty inputSchema recordSchema pages order swap workerID m1 = Ok src m2 /\
    joined_ok (ext ∪ {[hashColumn rsrc]}) ty tyR kfs kfsR us usR τ sel rm off src rsrc [] [] m2 /\
    pending src rsrc [] ≡ₚ hash_join (concat lss) (concat rss).
Proof.
  intros Hi Hcf [HpR Hp HtyR Hty Hok Hj Hfew Hfew2]. destruct (cf_key _ Hcf) as [others Hm].
  destruct (rhs_new_spec ext tyR inputSchema hashSchema recordSchema orderR pagesR chunk workerID keyAtt others m)
    as (rsrc & usR & m1 & E1 & HokR & HleftR & _ & Ho & _); try apply Hcf; try done.
  { by eapply pages_ok_begin, pages_hold_begin. } { by eapply pages_typed. } { by rewrite (pages_count _ _ _ HpR). }
  assert (Hfj : full_join (worker_groups workerID pages) (left_in (pageIterators rsrc)) ≡ₚ hash_join (concat lss) (concat rss)).
  { rewrite (full_join_right _ _ _ HleftR). by apply full_join_rows; apply pages_rows. }
  pose proof (layout_of ty tyR kfs kfsR rm off (cf_all _ Hcf) (cf_right _ Hcf) (cf_fields _ Hcf)) as Hly.
  destruct (joined_new_spec (ext ∪ {[hashColumn rsrc]}) ty tyR kfsR usR _ _ inputSchema recordSchema pages order swap workerID rsrc m1 HokR Ho Hly)
    as (src & us & m2 & E2 & Hjok & Hleft); [apply Hcf|done|by eapply pages_typed|by rewrite (Permutation_length Hfj)| |].
  { intros e. rewrite HleftR. apply Hj. }
  exists rsrc, m1, src, m2, us, usR. split_and!; [done|done|done|]. unfold pending. simpl.
  rewrite <- Hfj. unfold left_side, right_side. apply full_join_left. intros e _. by rewrite Hleft.
Qed.

End join.
End drive.

#[local] Instance iterator_queue : PriorityQueue (JoinMapIterator row) hash_greater := list_queue hash_greater.

(** ** Maps with given rows *)

Section tables.
Context (ty : RHSType).

Fixpoint fill_table (rows : list (Z * row)) : M (JoinMap row * answers) unit :=
  match rows with
  | [] => mret tt
  | (h, r) :: rows' => _ <- BroadcastCombiner.copy_record (fun _ => 0) ty h r ;; fill_table rows'
  end.
Definition table_of (rows : list (Z * row)) : JoinMap row :=
  match fill_table rows (JoinMap_new, []) with Ok _ (m, _) => m | _ => JoinMap_new end.

Lemma fill_table_spec rows m f :
  map_ok m -> wpx (fill_table rows) (fun _ s => map_ok s.1 /\ forall h, map_view s.1 h = map_view m h ++ rows_with h rows)
    (fun e _ => e = NotEnoughSpace) (m, f).
Proof.
  revert m f. induction rows as [|[h r] rows IH]; intros m f Hm; simpl.
  { apply wpx_mret. split; [done|]. intros h. by rewrite app_nil_r. }
  apply wpx_bind. eapply wpx_mono; [by apply copy_record_spec| |done]. intros [] [m1 f1] (Hok1 & _ & Hv1). simpl in Hok1, Hv1.
  eapply wpx_mono; [by apply IH| |done]. intros [] s [Hok2 Hv2]. split; [done|]. intros h'. rewrite Hv2, Hv1, <- app_assoc. f_equal.
  unfold under. simpl. case_bool_decide as E; [by rewrite E, Z.eqb_refl|]. by rewrite (proj2 (Z.eqb_neq _ _)).
Qed.

Lemma table_of_ok rows : (forall e s, fill_table rows (JoinMap_new, []) <> Raise e s) -> map_of (table_of rows) rows.
Proof.
  intros Hr. pose proof (fill_table_spec rows JoinMap_new [] JoinMap_new_ok) as H. unfold table_of, wpx in *.
  destruct (fill_table rows (JoinMap_new, [])) as [[] [m f]|e s|s| |]; try done; [|by destruct (Hr e s)].
  destruct H as [Hok Hv]. split; [exact Hok|]. intros h. simpl in Hv. by rewrite Hv, JoinMap_new_view.
Qed.
End tables.

(** ** A join *)

Definition emp : RHSType := [mkField "Employee" false].
Definition dep : RHSType := [mkField "Department" false].
(** Left rows 10, 11 and 12, right rows 20, 21 and 22. *)
Definition left_rows : list (Z * row) := [(5, [Some 10]); (9, [Some 12]); (5, [Some 11])].
Definition right_rows : list (Z * row) := [(9, [Some 22]); (5, [Some 20]); (7, [Some 21])].
Definition left_pages : list jpage := [[table_of emp left_rows]].
Definition right_pages : list jpage := [[table_of dep right_rows]].
Definition schema : TupleSpec := mkTupleSpec "right" ["hash"; "dep"].
Definition policy (chunk : Z) (ok : bool) : SizePolicy :=
  mkPolicy chunk 100 (-1) (-1) 3 (mkStats 0 0 0) true (mkStats 0 0 0) false true true 1024.

(** The constructors of both sources. *)
Definition start (ls rs : list jpage) : M mem (JoinedShuffleJoinSource * RHSShuffleJoinSource) :=
  rsrc <- RHSShuffleJoinSource_new dep schema (mkTupleSpec "h" ["hash"]) (mkTupleSpec "r" ["dep"]) [1] rs 2 0 ;;
  src <- JoinedShuffleJoinSource_new emp schema (mkTupleSpec "r" ["dep"]) ls [0] false 0 ;;
  mret (src, rsrc).

Lemma left_pages_hold : pages_hold 0 left_pages [left_rows].
Proof. constructor; [|constructor]. eexists. split; [done|]. apply table_of_ok. by vm_compute. Qed.
Lemma right_pages_hold : pages_hold 0 right_pages [right_rows].
Proof. constructor; [|constructor]. eexists. split; [done|]. apply table_of_ok. by vm_compute. Qed.

Lemma rhs_source_serves_by_hash_witness :
  exists src us m' gs,
    RHSShuffleJoinSource_new dep schema (mkTupleSpec "h" ["hash"]) (mkTupleSpec "r" ["dep"]) [1] right_pages 2 0 mem_empty = Ok src m' /\
    rhs_serves dep (record_keys 0 dep [1]) us src m' gs /\ flat (concat gs) ≡ₚ hashed (concat [right_rows]) /\
    Forall (fun g => StronglySorted Z.le (map fst g)) gs /\ StronglySorted set_below gs.
Proof.
  apply (rhs_source_serves_by_hash ∅ dep schema (mkTupleSpec "h" ["hash"]) (mkTupleSpec "r" ["dep"]) [1] right_pages [right_rows] 2 0 0 [] mem_empty).
  - apply mem_inv_empty.
  - reflexivity.
  - vm_compute. by intros ?%list_elem_of_singleton.
  - apply NoDup_singleton.
  - simpl. lia.
  - simpl. lia.
  - apply right_pages_hold.
  - intros x Hx. simpl in Hx. repeat (apply elem_of_cons in Hx as [->|Hx]; [done|]). by apply elem_of_nil in Hx.
  - simpl. lia.
Defined.

Lemma columns_fit_here : columns_fit emp dep schema (mkTupleSpec "h" ["hash"]) (mkTupleSpec "r" ["dep"]) [1] [0] false 0.
Proof.
  split; try (simpl; lia).
  - by exists [].
  - vm_compute. by intros ?%list_elem_of_singleton.
  - apply NoDup_singleton.
  - vm_compute. apply (bool_decide_unpack _). by vm_compute.
  - intros i Hi. vm_compute in Hi. apply list_elem_of_singleton in Hi as ->. exists 0%nat, (mkField "Department" false). done.
Qed.
Lemma pages_here : pages_ok (fun m => map_size m =? 0) 0 left_pages.
Proof.
  intros page ->%list_elem_of_singleton. exists (table_of emp left_rows). split_and!; [done|apply table_of_ok; by vm_compute|].
  by vm_compute.
Qed.
Lemma joinable_here e : e ∈ worker_groups 0 right_pages -> joinable (worker_groups 0 left_pages) e.1.
Proof.
  assert (E : worker_groups 0 left_pages = [(5, [[Some 10]; [Some 11]]); (9, [[Some 12]])]) by by vm_compute.
  assert (Er : worker_groups 0 right_pages = [(5, [[Some 20]]); (7, [[Some 21]]); (9, [[Some 22]])]) by by vm_compute.
  rewrite E, Er, !elem_of_cons, elem_of_nil. unfold joinable. intros [->|[->|[->|[]]]]; right.
  - left. exists (9, [[Some 12]]). split; [right; by left|done].
  - left. exists (9, [[Some 12]]). split; [right; by left|done].
  - by right.
Qed.
Lemma rows_typed_here (ty : RHSType) (rows : list (list (Z * row))) : forallb (fun x : Z * row => length x.2 =? length ty)%nat (concat rows) = true ->
  forall x, x ∈ concat rows -> length x.2 = length ty.
Proof. intros H x Hx%list_elem_of_In. rewrite forallb_forall in H. by apply Nat.eqb_eq, H. Qed.

Lemma maps_fit_here : maps_fit emp dep right_pages left_pages 0 [left_rows] [right_rows].
Proof.
  split; [apply right_pages_hold|apply left_pages_hold|by apply rows_typed_here|by apply rows_typed_here|
    apply pages_here|apply joinable_here|by vm_compute|by vm_compute].
Qed.


(** ** One call *)

Lemma joined_source_serves_every_pair_witness :
  exists src rsrc m src' rsrc' o m' O' B',
    start left_pages right_pages mem_empty = Ok (src, rsrc) m /\
    joined_getNextTupleSet (rhs_next dep) emp (policy 2 true) src rsrc m = Ok (src', rsrc', o) m' /\
    match o with
    | Some ts => pending src rsrc [] ≡ₚ O' ++ pending src' rsrc' B' /\ Z.of_nat (length O') <= 2
    | None => pending src rsrc [] = [] /\ pending src' rsrc' B' = []
    end.
Proof.
  destruct (join_starts ∅ emp dep schema (mkTupleSpec "h" ["hash"]) (mkTupleSpec "r" ["dep"]) [1] [0]
    right_pages left_pages false 2 0 0 [left_rows] [right_rows] mem_empty mem_inv_empty columns_fit_here maps_fit_here)
    as (rsrc & m1 & src & m2 & us & usR & E1 & E2 & Hok & _).
  pose proof (layout_of emp dep [0] [1] (mkMachine schema [1]) 1 (cf_all _ _ _ _ _ _ _ _ _ columns_fit_here)
    (cf_right _ _ _ _ _ _ _ _ _ columns_fit_here) (cf_fields _ _ _ _ _ _ _ _ _ columns_fit_here)) as Hly.
  destruct (joined_source_serves_every_pair _ emp dep [0] [1] us usR _ _ (mkMachine schema [1]) 1 Hly (policy 2 true) src rsrc [] [] m2 Hok)
    as (src' & rsrc' & o & m' & O' & B' & E & _ & _ & Ho); [done|by left|].
  exists src, rsrc, m2, src', rsrc', o, m', O', B'. split; [|split; [exact E|]].
  - unfold start. rewrite (bind_Ok _ _ _ _ _ E1). by rewrite (bind_Ok _ _ _ _ _ E2).
  - destruct o; [|done]. by destruct Ho as (_ & ? & ? & _).
Defined.

(** ** Where it goes wrong *)

Section wrong.
Context `{PQ : !PriorityQueue (JoinMapIterator row) hash_greater}.

(** When all left hashes are below a right one, the loop that looks for it ends
    with the left records of the highest hash, and nothing keeps them from
    being joined with the right records. *)
Lemma match_hash_past_the_end h q m :
  queue_ok q -> left_in q <> [] -> (forall e, e ∈ left_in q -> e.1 < h) ->
  exists it q' k recs, match_hash h q m = Ok (Some [it], q') m /\ left_in q' = [] /\ k < h /\ (k, recs) ∈ left_in q /\
    at_records it recs.
Proof.
  intros Hq Hne Hlt. unfold match_hash. destruct (left_in q) as [|e0 L0] eqn:EL; [done|]. rewrite <- EL in *.
  destruct (top_hash q e0 Hq) as (it & k & Ht & Hk & (recs0 & Hin0) & Hle); [rewrite EL; by left|].
  rewrite Ht. unfold hash_of. rewrite Hk. simpl. rewrite (bind_Ok _ _ _ k m) by done.
  pose proof (Hlt _ Hin0) as Hk0. simpl in Hk0. rewrite (proj2 (Z.ltb_ge h k)) by lia.
  destruct (seek_spec (S (queue_rounds q)) h q None 0 m Hq ltac:(lia)) as (cur & k' & q1 & E & Hq1 & Hr1 & Hs).
  rewrite (bind_Ok _ _ _ _ _ E). destruct Hs as [below it' k' q1 Hl Hb Hk' Hne1 Ha|below it' recs q1 Hl Hb Hat Ha|below it' k' recs q1 Hl Hb Hk' Hat Hn|Hn].
  - exfalso. destruct (left_in q1) as [|e1 L1] eqn:E1; [done|]. pose proof (Ha e1 ltac:(by left)).
    assert (e1.1 < h); [|lia]. apply Hlt. rewrite Hl. apply elem_of_app. right. by left.
  - exfalso. assert (h < h); [apply (Hlt (h, recs)); rewrite Hl; apply elem_of_app; right; by left|lia].
  - rewrite (proj2 (Z.ltb_ge h k')) by lia. simpl. rewrite (bind_Ok _ _ _ it' m) by done.
    rewrite (bind_Ok _ _ _ ([it'], q1) m). 2:{ simpl. by rewrite (pop_empty q1 Hq1 Hn). }
    exists it', q1, k', recs. split_and!; [done|done|lia|rewrite Hl; apply elem_of_app; right; by left|done].
  - done.
Qed.

(** When the highest left hash is on two pages and is asked for, the loop that
    collects the iterators looks at the top of an empty queue. *)
Lemma match_hash_on_two_pages h q m :
  queue_ok q -> (forall e, e ∈ left_in q -> e.1 <= h) -> (2 <= length (filter (fun e : group => e.1 = h) (left_in q)))%nat ->
  match_hash h q m = Fault EmptyTop.
Proof.
  intros Hq Hle Htwo. unfold match_hash.
  assert (Hin : exists recs, (h, recs) ∈ left_in q).
  { destruct (filter _ (left_in q)) as [|[k recs] l] eqn:E; [simpl in Htwo; lia|]. exists recs.
    assert (Hin : (k, recs) ∈ filter (fun e : group => e.1 = h) (left_in q)) by (rewrite E; by left).
    apply list_elem_of_filter in Hin as [Hk Hin]. simpl in Hk. by subst k. }
  destruct Hin as [recs0 Hin0]. destruct (top_hash q _ Hq Hin0) as (it & k & Ht & Hk & (recs1 & Hin1) & _).
  rewrite Ht. unfold hash_of. rewrite Hk. simpl. rewrite (bind_Ok _ _ _ k m) by done.
  pose proof (Hle _ Hin1) as Hk1. simpl in Hk1. rewrite (proj2 (Z.ltb_ge h k)) by lia.
  destruct (seek_spec (S (queue_rounds q)) h q None 0 m Hq ltac:(lia)) as (cur & k' & q1 & E & Hq1 & Hr1 & Hs).
  rewrite (bind_Ok _ _ _ _ _ E). destruct Hs as [below it' k' q1 Hl Hb Hk' Hne Ha|below it' recs q1 Hl Hb Hat Ha|below it' k' recs q1 Hl Hb Hk' Hat Hn|Hn].
  - exfalso. destruct (left_in q1) as [|e1 L1] eqn:E1; [done|]. pose proof (Ha e1 ltac:(by left)).
    assert (e1.1 <= h); [|lia]. apply Hle. rewrite Hl. apply elem_of_app. right. by left.
  - rewrite Z.ltb_irrefl. rewrite (bind_Ok _ _ _ it' m) by done.
    assert (Hd : same_hash (S (queue_rounds q1)) h q1 [it'] m = Fault EmptyTop).
    { apply same_hash_runs_dry; [done|lia| |].
      - intros E1. rewrite E1 in Hl. rewrite Hl, filter_app, (filter_none _ below) in Htwo by (intros e He%Hb; lia).
        rewrite filter_cons_True in Htwo by done. simpl in Htwo. lia.
      - intros e He. pose proof (Ha e He). assert (e.1 <= h); [|lia]. apply Hle. rewrite Hl. apply elem_of_app. right. by right. }
    apply bind_Fault, Hd.
  - exfalso. assert (Hlt : h <= k'); [|lia]. rewrite Hl in Hin0. apply elem_of_app in Hin0 as [Hin0|Hin0].
    + by apply (Hb _ Hin0).
    + apply list_elem_of_singleton in Hin0. injection Hin0 as <- _. lia.
  - rewrite Hn in Hin0. by apply elem_of_nil in Hin0.
Qed.
End wrong.

(** Both happen. *)
Definition calls (p : SizePolicy) (ls rs : list jpage) : M mem (option tsid) :=
  r <- start ls rs ;; o <- joined_getNextTupleSet (rhs_next dep) emp p r.1 r.2 ;; mret o.2.
(** The vector of a column. *)
Definition column_of (m : mem) (ts : tsid) (k : Z) : option (list val) :=
  e ← entry m ts k; a ← e.1; col_data <$> cols m !! a.

(** Left row 10 has hash 5, right row 20 has hash 7. *)
Lemma rows_of_different_hashes_are_joined :
  let ls := [(5, [Some 10])] in let rs := [(7, [Some 20])] in hash_join ls rs = [] /\
  exists ts m, calls (policy 50 true) [[table_of emp ls]] [[table_of dep rs]] mem_empty = Ok (Some ts) m /\
    column_of m ts 0 = Some [VHandle (Some 10)] /\ column_of m ts 1 = Some [VHandle (Some 20)].
Proof. split; [done|]. eexists _, _. split; [vm_compute; reflexivity|]. split; by vm_compute. Qed.
Lemma last_hash_on_two_pages_faults :
  let page x := [table_of emp [(5, [Some x])]] in
  calls (policy 50 true) [page 10; page 11] [[table_of dep [(5, [Some 20])]]] mem_empty = Fault EmptyTop.
Proof. by vm_compute. Qed.

(** A map that lost its only row again, when a page was full: its size is not 0
    and its iterator is done. *)
Definition table_taken_back : JoinMap row :=
  match (_ <- map_push [None] 5 ;; map_setUnused (V := row) 5) (JoinMap_new, []) with Ok _ (m, _) => m | _ => JoinMap_new end.
Lemma taken_back_row_is_read :
  (forall h, map_view table_taken_back h = []) /\ map_size table_taken_back = 1 /\
  calls (policy 50 true) [[table_taken_back]] right_pages mem_empty = Fault OutOfRange.
Proof.
  split; [|by vm_compute]. intros h.
  assert (E : data (myArray table_taken_back) = [None; None]) by by vm_compute. unfold map_view, view. rewrite E.
  case_match; [|done]. by destruct n as [|[|s]].
Qed.

(** A chunk that fails before any has been too large: the buffer to which its
    rows go has no columns. *)
Lemma failed_first_chunk_faults :
  (r <- start left_pages right_pages ;;
   o <- joined_getNextTupleSet (rhs_next dep) emp (policy 50 true) r.1 r.2 ;;
   joined_getNextTupleSet (rhs_next dep) emp (mkPolicy 25 100 (-1) (-1) 3 (mkStats 0 0 0) false (mkStats 0 0 0) false true true 1024)
     o.1.1 o.1.2) mem_empty = Fault EndIteratorDeref.
Proof. by vm_compute. Qed.
