(* ===== verification/BufferManager.v ===== *)
(** The buffer manager of a node: pdb/src/bufferManager/source/
    PDBBufferManagerImpl.cc and PDBPage.cc with their headers.

    Memory is divided into full pages, and a full page into mini pages of one
    size, a power of two of MIN_PAGE_SIZE.  Pages of sets have a place in the
    set's file from when they are first unpinned, anonymous pages get one in the
    temporary file when they are first evicted; the full page that was unpinned
    least recently is evicted first.

    One thread runs: the locks are free and the conditions waited for hold, or
    the call never returns.  The logging hooks do nothing in this class.
    Pointers are offsets from the start of the shared memory.  Positions in
    files and the time tick are unbounded: a file offset or a tick past 2^63
    takes 2^43 pages or 2^63 calls; where the code narrows a tick to 32 bits
    the model does. *)

From S2P Require Import Prelude.

Open Scope Z_scope.

(** ** Pages: PDBPage.h, PDBSet.h *)

Definition MIN_PAGE_SIZE : Z := 1048576.
(** [MIN_PAGE_SIZE << numBytes], an unsigned int. *)
Definition page_bytes (numBytes : nat) : Z := u32 (MIN_PAGE_SIZE * 2 ^ Z.of_nat numBytes).

Record PDBSet := mkSet { setName : string; dbName : string }.
#[export] Instance PDBSet_eq_dec : EqDecision PDBSet.
Proof. solve_decision. Defined.
#[export] Instance PDBSet_countable : Countable PDBSet.
Proof. apply (inj_countable' (fun s => (setName s, dbName s)) (fun p => mkSet p.1 p.2)). by intros []. Defined.
Abbreviation set_key := (PDBSet * Z)%type.
(** The name of the file of a set, in the directory of the storage. *)
Definition file_of (set : PDBSet) : string := (setName set ++ "." ++ dbName set)%string.

Record PDBPageInfo := mkInfo { startPos : Z; numBytes : nat }.
Inductive PDBPageStatus :=
| PDB_PAGE_LOADING | PDB_PAGE_LOADED | PDB_PAGE_UNLOADING | PDB_PAGE_FREEZING | PDB_PAGE_NOT_LOADED.
#[export] Instance PDBPageStatus_eq_dec : EqDecision PDBPageStatus.
Proof. solve_decision. Defined.

Record PDBPage := mkPage {
  bytes : option Z;
  status : PDBPageStatus;
  pinned : bool;
  dirty : bool;
  refCount : Z;
  pageNum : Z;
  isAnon : bool;
  sizeFrozen : bool;
  location : PDBPageInfo;
  whichSet : option PDBSet
}.
Definition PDBPage_new : PDBPage :=
  mkPage None PDB_PAGE_NOT_LOADED false false 0 0 true false (mkInfo 0 0) None.
Definition set_bytes b p := mkPage b (status p) (pinned p) (dirty p) (refCount p) (pageNum p) (isAnon p) (sizeFrozen p) (location p) (whichSet p).
Definition set_status x p := mkPage (bytes p) x (pinned p) (dirty p) (refCount p) (pageNum p) (isAnon p) (sizeFrozen p) (location p) (whichSet p).
Definition set_pinned b p := mkPage (bytes p) (status p) b (dirty p) (refCount p) (pageNum p) (isAnon p) (sizeFrozen p) (location p) (whichSet p).
Definition set_dirty b p := mkPage (bytes p) (status p) (pinned p) b (refCount p) (pageNum p) (isAnon p) (sizeFrozen p) (location p) (whichSet p).
Definition set_refCount n p := mkPage (bytes p) (status p) (pinned p) (dirty p) n (pageNum p) (isAnon p) (sizeFrozen p) (location p) (whichSet p).
Definition set_frozen p := mkPage (bytes p) (status p) (pinned p) (dirty p) (refCount p) (pageNum p) (isAnon p) true (location p) (whichSet p).
Definition set_location l p := mkPage (bytes p) (status p) (pinned p) (dirty p) (refCount p) (pageNum p) (isAnon p) (sizeFrozen p) l (whichSet p).
Definition set_startPos n p := set_location (mkInfo n (numBytes (location p))) p.
Definition set_numBytes n p := set_location (mkInfo (startPos (location p)) n) p.
Definition getSize (p : PDBPage) : Z := page_bytes (numBytes (location p)).

(** ** State *)

(** Memory and files are arrays of bytes; [blit] copies between them. *)
Abbreviation image := (Z -> Z).
Definition blit (dst : image) (dpos : Z) (src : image) (spos len : Z) : image := fun x =>
  if (dpos <=? x) && (x <? dpos + len) then src (x - dpos + spos) else dst x.

(** How memory is used.  Vectors have their back at the end of the list. *)
Record pool := mkPool {
  emptyFullPages : list Z;
  emptyMiniPages : list (list Z);
  unusedMiniPages : gmap Z (list Z * nat);
  constituentPages : gmap Z (list nat);
  numPinned : gmap Z Z;
  lastUsed : list (Z * Z);
  lastTimeTick : Z;
  isCreatingSpace : list bool
}.
Record disk := mkDisk {
  pageLocations : gmap set_key PDBPageInfo;
  endOfFiles : gmap PDBSet Z;
  fds : gset PDBSet;
  availablePositions : list (list Z);
  lastTempPos : Z;
  temp_file : image;
  set_file : string -> image
}.
(** The page objects are the targets of the shared pointers, in the order of
    their creation; a pointer is an index. *)
Record buffer_manager := mkBM {
  initialized : bool;
  pageSize : Z;
  numPages : Z;
  logOfPageSize : Z;
  page_objects : list PDBPage;
  allPages : gmap set_key nat;
  memory_pool : pool;
  storage : disk;
  ram : image;
  freeAnonPageNumbers : list Z;
  lastFreeAnonPageNumber : Z
}.
Abbreviation BM := (M buffer_manager).

Definition set_page_objects l s := mkBM (initialized s) (pageSize s) (numPages s) (logOfPageSize s) l (allPages s) (memory_pool s) (storage s) (ram s) (freeAnonPageNumbers s) (lastFreeAnonPageNumber s).
Definition set_allPages m s := mkBM (initialized s) (pageSize s) (numPages s) (logOfPageSize s) (page_objects s) m (memory_pool s) (storage s) (ram s) (freeAnonPageNumbers s) (lastFreeAnonPageNumber s).
Definition set_pool p s := mkBM (initialized s) (pageSize s) (numPages s) (logOfPageSize s) (page_objects s) (allPages s) p (storage s) (ram s) (freeAnonPageNumbers s) (lastFreeAnonPageNumber s).
Definition set_storage d s := mkBM (initialized s) (pageSize s) (numPages s) (logOfPageSize s) (page_objects s) (allPages s) (memory_pool s) d (ram s) (freeAnonPageNumbers s) (lastFreeAnonPageNumber s).
Definition set_ram r s := mkBM (initialized s) (pageSize s) (numPages s) (logOfPageSize s) (page_objects s) (allPages s) (memory_pool s) (storage s) r (freeAnonPageNumbers s) (lastFreeAnonPageNumber s).
Definition set_anon_numbers l n s := mkBM (initialized s) (pageSize s) (numPages s) (logOfPageSize s) (page_objects s) (allPages s) (memory_pool s) (storage s) (ram s) l n.

Definition set_emptyFullPages l p := mkPool l (emptyMiniPages p) (unusedMiniPages p) (constituentPages p) (numPinned p) (lastUsed p) (lastTimeTick p) (isCreatingSpace p).
Definition set_emptyMiniPages l p := mkPool (emptyFullPages p) l (unusedMiniPages p) (constituentPages p) (numPinned p) (lastUsed p) (lastTimeTick p) (isCreatingSpace p).
Definition set_unusedMiniPages m p := mkPool (emptyFullPages p) (emptyMiniPages p) m (constituentPages p) (numPinned p) (lastUsed p) (lastTimeTick p) (isCreatingSpace p).
Definition set_constituentPages m p := mkPool (emptyFullPages p) (emptyMiniPages p) (unusedMiniPages p) m (numPinned p) (lastUsed p) (lastTimeTick p) (isCreatingSpace p).
Definition set_numPinned m p := mkPool (emptyFullPages p) (emptyMiniPages p) (unusedMiniPages p) (constituentPages p) m (lastUsed p) (lastTimeTick p) (isCreatingSpace p).
Definition set_lastUsed l p := mkPool (emptyFullPages p) (emptyMiniPages p) (unusedMiniPages p) (constituentPages p) (numPinned p) l (lastTimeTick p) (isCreatingSpace p).
Definition set_lastTimeTick n p := mkPool (emptyFullPages p) (emptyMiniPages p) (unusedMiniPages p) (constituentPages p) (numPinned p) (lastUsed p) n (isCreatingSpace p).
Definition set_isCreatingSpace l p := mkPool (emptyFullPages p) (emptyMiniPages p) (unusedMiniPages p) (constituentPages p) (numPinned p) (lastUsed p) (lastTimeTick p) l.

Definition set_pageLocations m d := mkDisk m (endOfFiles d) (fds d) (availablePositions d) (lastTempPos d) (temp_file d) (set_file d).
Definition set_endOfFiles m d := mkDisk (pageLocations d) m (fds d) (availablePositions d) (lastTempPos d) (temp_file d) (set_file d).
Definition set_fds m d := mkDisk (pageLocations d) (endOfFiles d) m (availablePositions d) (lastTempPos d) (temp_file d) (set_file d).
Definition set_availablePositions l d := mkDisk (pageLocations d) (endOfFiles d) (fds d) l (lastTempPos d) (temp_file d) (set_file d).
Definition set_lastTempPos n d := mkDisk (pageLocations d) (endOfFiles d) (fds d) (availablePositions d) n (temp_file d) (set_file d).
Definition set_temp_file f d := mkDisk (pageLocations d) (endOfFiles d) (fds d) (availablePositions d) (lastTempPos d) f (set_file d).
Definition set_set_file f d := mkDisk (pageLocations d) (endOfFiles d) (fds d) (availablePositions d) (lastTempPos d) (temp_file d) f.

Definition the_pool : BM pool := s <- get ;; mret (memory_pool s).
Definition on_pool (f : pool -> pool) : BM unit := modify (fun s => set_pool (f (memory_pool s)) s).
Definition the_disk : BM disk := s <- get ;; mret (storage s).
Definition on_disk (f : disk -> disk) : BM unit := modify (fun s => set_storage (f (storage s)) s).
Definition page_of (me : nat) : BM PDBPage := s <- get ;; unwrap UseAfterFree (page_objects s !! me).
Definition on_page (me : nat) (f : PDBPage -> PDBPage) : BM unit :=
  p <- page_of me ;; modify (fun s => set_page_objects (<[me := f p]> (page_objects s)) s).

(** [operator[]] of the maps from addresses; the entry it may create is the
    default. *)
Definition unused_of (p : pool) (a : Z) : list Z := default [] (fst <$> unusedMiniPages p !! a).
Definition class_of (p : pool) (a : Z) : nat := default 0%nat (snd <$> unusedMiniPages p !! a).
Definition constituents (p : pool) (a : Z) : list nat := default [] (constituentPages p !! a).
Definition pins (p : pool) (a : Z) : Z := default 0 (numPinned p !! a).
Definition set_unused (a : Z) (l : list Z) (c : nat) (p : pool) : pool := set_unusedMiniPages (<[a := (l, c)]> (unusedMiniPages p)) p.
Definition set_constituents (a : Z) (l : list nat) (p : pool) : pool := set_constituentPages (<[a := l]> (constituentPages p)) p.
Definition set_pins (a n : Z) (p : pool) : pool := set_numPinned (<[a := n]> (numPinned p)) p.

(** Vectors: [back] and [pop_back], and [erase] at what [find] finds. *)
Definition pop {A} (l : list A) : list A := take (length l - 1) l.
Fixpoint erase_first {A} `{EqDecision A} (x : A) (l : list A) : option (list A) :=
  match l with
  | [] => None
  | y :: l' => if decide (x = y) then Some l' else cons y <$> erase_first x l'
  end.
Definition emptyMini (p : pool) (c : nat) : option (list Z) := emptyMiniPages p !! c.
Definition set_emptyMini (c : nat) (l : list Z) (p : pool) : pool := set_emptyMiniPages (<[c := l]> (emptyMiniPages p)) p.

(** The set of pages by time tick, which alone orders them. *)
Definition lru_erase (t : Z) (l : list (Z * Z)) : list (Z * Z) := filter (fun x => x.2 <> t) l.
Fixpoint lru_insert (x : Z * Z) (l : list (Z * Z)) : list (Z * Z) :=
  match l with
  | [] => [x]
  | y :: l' => if x.2 <? y.2 then x :: l else if x.2 =? y.2 then l else y :: lru_insert x l'
  end.

(** The full page an address is on. *)
Definition parent_of (s : buffer_manager) (a : Z) : Z := a / pageSize s * pageSize s.
Definition parent (me : nat) : BM Z :=
  p <- page_of me ;; a <- unwrap NullDeref (bytes p) ;; s <- get ;; mret (parent_of s a).

(** ** Pins *)

Definition pinParent (me : nat) : BM unit :=
  whichPage <- parent me ;;
  p <- the_pool ;;
  let n := pins p whichPage in
  if n <? 0
  then on_pool (fun p => set_pins whichPage 1 (set_lastUsed (lru_erase (u32 (- n)) (lastUsed p)) p))
  else on_pool (set_pins whichPage (n + 1)).

Definition registerMiniPage (registerMe : nat) : BM unit :=
  whichPage <- parent registerMe ;;
  _ <- on_pool (fun p => set_constituents whichPage (constituents p whichPage ++ [registerMe]) p) ;;
  pinParent registerMe.

(** The full page enters the queue of those that can be evicted. *)
Definition into_lru (memLoc : Z) (p : pool) : pool :=
  let t := lastTimeTick p in
  set_lastTimeTick (t + 1) (set_lastUsed (lru_insert (memLoc, t) (lastUsed p)) (set_pins memLoc (- t) p)).

(** A page of a set without a place in the set's file gets one at its end. *)
Definition place_in_file (me : nat) (set : PDBSet) : BM unit :=
  p <- page_of me ;;
  d <- the_disk ;;
  match pageLocations d !! (set, pageNum p) with
  | Some _ => mret tt
  | None =>
      let e := default 0 (endOfFiles d !! set) in
      _ <- on_page me (set_startPos e) ;;
      on_disk (fun d => set_pageLocations (<[(set, pageNum p) := mkInfo e (numBytes (location p))]> (pageLocations d))
                          (set_endOfFiles (<[set := e + page_bytes (numBytes (location p))]> (endOfFiles d)) d))
  end.

Definition unpin (me : nat) : BM unit :=
  p <- page_of me ;;
  if negb (pinned p) then mret tt
  else
    _ <- on_page me (set_pinned false) ;;
    _ <- on_page me set_frozen ;;
    memLoc <- parent me ;;
    _ <- on_pool (fun p =>
      let n := if 0 <? pins p memLoc then pins p memLoc - 1 else pins p memLoc in
      let p' := set_pins memLoc n p in
      if n =? 0 then into_lru memLoc p' else p') ;;
    if isAnon p then mret tt
    else set <- unwrap NullDeref (whichSet p) ;; place_in_file me set.

(** ** Sizes *)

Fixpoint log_size_loop (fuel : nat) (curSize numBytes : Z) (bytesRequired : nat) : option nat :=
  if curSize <? numBytes
  then match fuel with
       | O => None
       | S fuel' => log_size_loop fuel' (u64 (curSize * 2)) numBytes (S bytesRequired)
       end
  else Some bytesRequired.
(** The shift reaches 0 after 64 - 20 rounds and the loop never ends. *)
Definition getLogPageSize (numBytes : Z) : option nat := log_size_loop 64 MIN_PAGE_SIZE numBytes 0.
Definition log_page_size (numBytes : Z) : BM nat := fun s =>
  match getLogPageSize numBytes with Some n => Ok n s | None => NoFuel end.

(** [for (offset = start; offset < limit; offset += inc)]. *)
Definition offsets (start limit inc : Z) : list Z :=
  map (fun k => start + Z.of_nat k * inc) (seq 0 (Z.to_nat ((limit - start + inc - 1) / inc))).
Definition offsets_of (start limit inc : Z) : BM (list Z) := fun s =>
  if (inc =? 0) && (start <? limit) then NoFuel else Ok (offsets start limit inc) s.

(** The rest of the page becomes empty mini pages of the new size. *)
Definition add_mini_pages (base : Z) (key : Z) (c : nat) (offs : list Z) : BM unit :=
  p <- the_pool ;;
  l <- unwrap OutOfRange (emptyMini p c) ;;
  on_pool (fun p => set_unused key (unused_of p key ++ map (Z.add base) offs) c
                      (set_emptyMini c (l ++ map (Z.add base) offs) p)).

Definition freezeSize (me : nat) (numBytes_ : Z) : BM unit :=
  p <- page_of me ;;
  if negb (pinned p) then exit
  else if sizeFrozen p then exit
  else
    _ <- on_page me set_frozen ;;
    bytesRequired <- log_page_size numBytes_ ;;
    if (numBytes (location p) <? bytesRequired)%nat then exit
    else
      _ <- on_page me (set_numBytes bytesRequired) ;;
      a <- unwrap NullDeref (bytes p) ;;
      s <- get ;;
      let inc := page_bytes bytesRequired in
      offs <- offsets_of inc (pageSize s) inc ;;
      add_mini_pages a a bytesRequired offs.

(** ** Eviction *)

(** [find] and [erase] in a list that has to have the element. *)
Definition erase_from (x : Z) (l : list Z) : BM (list Z) := unwrap EndIteratorDeref (erase_first x l).

(** The unused mini pages of a full page are no longer to be had. *)
Definition drop_unused (page : Z) : BM unit :=
  p <- the_pool ;;
  _ <- for_each (unused_of p page) (fun kt =>
         p <- the_pool ;;
         l <- unwrap OutOfRange (emptyMini p (class_of p page)) ;;
         l' <- erase_from kt l ;;
         on_pool (set_emptyMini (class_of p page) l')) ;;
  on_pool (fun p => set_unused page [] (class_of p page) p).

Definition write_temp (me : nat) : BM unit :=
  p <- page_of me ;;
  a <- unwrap NullDeref (bytes p) ;;
  s <- get ;;
  on_disk (fun d => set_temp_file (blit (temp_file d) (startPos (location p)) (ram s) a (getSize p)) d).
(** A descriptor that is not there reads as that of standard input. *)
Definition write_set (me : nat) : BM unit :=
  p <- page_of me ;;
  a <- unwrap NullDeref (bytes p) ;;
  set <- unwrap NullDeref (whichSet p) ;;
  s <- get ;;
  if decide (set ∈ fds (storage s))
  then on_disk (fun d => set_set_file (fun f => if decide (f = file_of set)
         then blit (set_file d (file_of set)) (startPos (location p)) (ram s) a (getSize p)
         else set_file d f) d)
  else exit.

(** A place in the temporary file: one that was freed, or a new one. *)
Definition place_in_temp (me : nat) : BM unit :=
  p <- page_of me ;;
  d <- the_disk ;;
  let c := numBytes (location p) in
  l <- unwrap OutOfRange (availablePositions d !! c) ;;
  match last l with
  | None =>
      _ <- on_page me (set_startPos (lastTempPos d)) ;;
      on_disk (fun d => set_lastTempPos (lastTempPos d + page_bytes c) d)
  | Some pos =>
      _ <- on_page me (set_startPos pos) ;;
      on_disk (fun d => set_availablePositions (<[c := pop l]> (availablePositions d)) d)
  end.

Definition evict_page (me : nat) : BM unit :=
  p <- page_of me ;;
  _ <- (if isAnon p && dirty p
        then _ <- place_in_temp me ;; write_temp me
        else
          _ <- (if dirty p then write_set me else mret tt) ;;
          if refCount p =? 0
          then match whichSet p with
               | Some set => modify (fun s => set_allPages (delete (set, pageNum p) (allPages s)) s)
               | None => mret tt
               end
          else mret tt) ;;
  on_page me (fun p => set_bytes None (set_dirty false p)).

Definition evict (page : Z) : BM unit :=
  p <- the_pool ;;
  let victims := constituents p page in
  _ <- for_each victims (fun me => on_page me (set_status PDB_PAGE_UNLOADING)) ;;
  _ <- drop_unused page ;;
  _ <- for_each victims evict_page ;;
  _ <- for_each victims (fun me => on_page me (set_status PDB_PAGE_NOT_LOADED)) ;;
  on_pool (fun p => set_numPinned (delete page (numPinned p))
                      (set_emptyFullPages (emptyFullPages p ++ [page]) (set_constituents page [] p))).

(** ** Getting memory *)

(** A wait for a condition that only another thread could bring about. *)
Definition wait_for (b : bool) : BM unit := if b then mret tt else fun _ => NoFuel.

Definition break_up (c : nat) : BM unit :=
  p <- the_pool ;;
  page <- unwrap OutOfRange (last (emptyFullPages p)) ;;
  s <- get ;;
  offs <- offsets_of 0 (pageSize s) (page_bytes c) ;;
  _ <- add_mini_pages page page c offs ;;
  on_pool (fun p => set_emptyFullPages (pop (emptyFullPages p)) (set_pins page 0 p)).

Definition createAdditionalMiniPages (whichSize : nat) : BM unit :=
  p <- the_pool ;;
  busy <- unwrap OutOfRange (isCreatingSpace p !! whichSize) ;;
  _ <- wait_for (negb busy) ;;
  l <- unwrap OutOfRange (emptyMini p whichSize) ;;
  match l with
  | _ :: _ => mret tt
  | [] =>
      _ <- on_pool (fun p => set_isCreatingSpace (<[whichSize := true]> (isCreatingSpace p)) p) ;;
      _ <- (match emptyFullPages p with
            | _ :: _ => mret tt
            | [] =>
                match lastUsed p with
                | [] => exit
                | (page, _) :: rest => _ <- on_pool (set_lastUsed rest) ;; evict page
                end
            end) ;;
      _ <- break_up whichSize ;;
      on_pool (fun p => set_isCreatingSpace (<[whichSize := false]> (isCreatingSpace p)) p)
  end.

Definition getEmptyMemory (pageSize_ : nat) : BM Z :=
  p <- the_pool ;;
  l <- unwrap OutOfRange (emptyMini p pageSize_) ;;
  _ <- match l with [] => createAdditionalMiniPages pageSize_ | _ :: _ => mret tt end ;;
  p <- the_pool ;;
  l <- unwrap OutOfRange (emptyMini p pageSize_) ;;
  space <- unwrap OutOfRange (last l) ;;
  s <- get ;;
  let whichPage := parent_of s space in
  u <- erase_from space (unused_of p whichPage) ;;
  _ <- on_pool (fun p => set_unused whichPage u (class_of p whichPage) (set_emptyMini pageSize_ (pop l) p)) ;;
  mret space.

(** ** Pinning again *)

Definition is_loading (p : PDBPage) : bool :=
  bool_decide (status p = PDB_PAGE_LOADING) || bool_decide (status p = PDB_PAGE_UNLOADING).

Definition read_page (me : nat) (space : Z) (info : PDBPageInfo) : BM unit :=
  p <- page_of me ;;
  s <- get ;;
  src <- (if isAnon p then mret (temp_file (storage s))
          else
            set <- unwrap NullDeref (whichSet p) ;;
            if decide (set ∈ fds (storage s)) then mret (set_file (storage s) (file_of set)) else exit) ;;
  modify (fun s => set_ram (blit (ram s) space src (startPos info) (page_bytes (numBytes info))) s).

Definition repin_locked (me : nat) : BM unit :=
  p <- page_of me ;;
  if pinned p then mret tt
  else
    match bytes p with
    | Some _ => _ <- on_page me (set_pinned true) ;; pinParent me
    | None =>
        _ <- on_page me (set_status PDB_PAGE_LOADING) ;;
        space <- getEmptyMemory (numBytes (location p)) ;;
        _ <- on_page me (set_bytes (Some space)) ;;
        _ <- registerMiniPage me ;;
        _ <- on_page me (set_pinned true) ;;
        _ <- read_page me space (location p) ;;
        on_page me (set_status PDB_PAGE_LOADED)
    end.
Definition repin (me : nat) : BM unit :=
  p <- page_of me ;;
  _ <- wait_for (negb (is_loading p)) ;;
  repin_locked me.

(** ** Getting pages *)

Definition check_initialized : BM unit := s <- get ;; if initialized s then mret tt else exit.
Definition getMaxPageSize : BM Z := _ <- check_initialized ;; s <- get ;; mret (pageSize s).

(** [make_shared<PDBPage>]. *)
Definition new_page (p : PDBPage) : BM nat :=
  s <- get ;;
  _ <- put (set_page_objects (page_objects s ++ [p]) s) ;;
  mret (length (page_objects s)).

(** A page number nobody has; the counter is an int, compared as unsigned. *)
Definition anon_number : BM Z :=
  s <- get ;;
  _ <- (match freeAnonPageNumbers s with
        | _ :: _ => mret tt
        | [] =>
            let n := i32 (lastFreeAnonPageNumber s + 1) in
            if u64 n =? 2 ^ 64 - 1 then exit
            else modify (set_anon_numbers [u64 n] n)
        end) ;;
  s <- get ;;
  n <- unwrap OutOfRange (last (freeAnonPageNumbers s)) ;;
  _ <- modify (set_anon_numbers (pop (freeAnonPageNumbers s)) (lastFreeAnonPageNumber s)) ;;
  mret n.

(** [PDBPageHandleBase]: a handle counts a reference. *)
Definition incRefCount (me : nat) : BM unit := on_page me (fun p => set_refCount (refCount p + 1) p).

(** What clients do with a page: its memory, and that they changed it. *)
Definition setDirty (me : nat) : BM unit := on_page me (set_dirty true).
Definition getBytes (me : nat) : BM (option Z) := p <- page_of me ;; mret (bytes p).

Definition getPage_anon (maxBytes : Z) : BM nat :=
  _ <- check_initialized ;;
  bytesRequired <- log_page_size maxBytes ;;
  space <- getEmptyMemory bytesRequired ;;
  n <- anon_number ;;
  me <- new_page (mkPage (Some space) PDB_PAGE_LOADED true true 0 n true false (mkInfo (-1) bytesRequired) None) ;;
  _ <- registerMiniPage me ;;
  _ <- incRefCount me ;;
  mret me.
Definition getPage_full : BM nat := s <- get ;; getPage_anon (pageSize s).

Definition checkIfOpen (set : PDBSet) : BM unit :=
  d <- the_disk ;;
  if decide (set ∈ fds d) then mret tt
  else on_disk (fun d =>
    let d' := set_fds ({[set]} ∪ fds d) d in
    match endOfFiles d !! set with Some _ => d' | None => set_endOfFiles (<[set := 0]> (endOfFiles d)) d' end).

Definition add_to_allPages (key : set_key) (me : nat) : BM unit :=
  modify (fun s => set_allPages (<[key := me]> (allPages s)) s).

(** A page that was never written, a page that was, and a page that is there. *)
Definition getPage_new (set : PDBSet) (i : Z) : BM nat :=
  s <- get ;;
  let info := mkInfo i (Z.to_nat (logOfPageSize s)) in
  me <- new_page (mkPage None PDB_PAGE_LOADING true true 0 i false false info (Some set)) ;;
  _ <- add_to_allPages (set, i) me ;;
  space <- getEmptyMemory (numBytes info) ;;
  _ <- on_page me (set_bytes (Some space)) ;;
  _ <- registerMiniPage me ;;
  _ <- incRefCount me ;;
  _ <- on_page me (set_status PDB_PAGE_LOADED) ;;
  mret me.
Definition getPage_load (set : PDBSet) (i : Z) (info : PDBPageInfo) : BM nat :=
  me <- new_page (mkPage None PDB_PAGE_LOADING true false 0 i false false info (Some set)) ;;
  _ <- add_to_allPages (set, i) me ;;
  _ <- incRefCount me ;;
  space <- getEmptyMemory (numBytes info) ;;
  _ <- on_page me (set_bytes (Some space)) ;;
  _ <- registerMiniPage me ;;
  _ <- read_page me space info ;;
  _ <- on_page me (set_status PDB_PAGE_LOADED) ;;
  mret me.
Definition getPage_there (me : nat) : BM nat :=
  _ <- incRefCount me ;;
  p <- page_of me ;;
  _ <- wait_for (negb (is_loading p)) ;;
  _ <- repin_locked me ;;
  mret me.
Definition getPage_set (whichSet_ : option PDBSet) (i : Z) : BM nat :=
  _ <- check_initialized ;;
  match whichSet_ with
  | None => exit
  | Some set =>
      _ <- checkIfOpen set ;;
      s <- get ;;
      match allPages s !! (set, i) with
      | Some me => getPage_there me
      | None =>
          match pageLocations (storage s) !! (set, i) with
          | None => getPage_new set i
          | Some info => getPage_load set i info
          end
      end
  end.

(** ** Letting go of pages *)

Definition isRemovalStillValid (me : nat) : BM bool :=
  p <- page_of me ;;
  s <- get ;;
  mret (
    if negb (refCount p =? 0) then false
    else if is_loading p then false
    else if isAnon p then true
    else match whichSet p with
         | Some set => bool_decide (allPages s !! (set, pageNum p) = Some me)
         | None => false
         end).

(** The memory of a mini page is free again, or that of the whole full page. *)
Definition release_memory (parent : Z) (space : Z) (last_one : bool) : BM unit :=
  if last_one then
    p <- the_pool ;;
    _ <- (if pins p parent <? 0
          then on_pool (fun p => set_lastUsed (lru_erase (u32 (- pins p parent)) (lastUsed p)) p)
          else mret tt) ;;
    _ <- drop_unused parent ;;
    on_pool (fun p => set_emptyFullPages (emptyFullPages p ++ [parent]) p)
  else
    p <- the_pool ;;
    let c := class_of p parent in
    l <- unwrap OutOfRange (emptyMini p c) ;;
    on_pool (fun p => set_unused parent (unused_of p parent ++ [space]) c (set_emptyMini c (l ++ [space]) p)).

Definition freeAnonymousPage (me : nat) : BM unit :=
  valid <- isRemovalStillValid me ;;
  if negb valid then mret tt
  else
    p <- page_of me ;;
    let temp := location p in
    _ <- (if startPos temp =? -1 then mret tt
          else
            d <- the_disk ;;
            l <- unwrap OutOfRange (availablePositions d !! numBytes temp) ;;
            on_disk (fun d => set_availablePositions (<[numBytes temp := l ++ [startPos temp]]> (availablePositions d)) d)) ;;
    _ <- modify (fun s => set_anon_numbers (freeAnonPageNumbers s ++ [pageNum p]) (lastFreeAnonPageNumber s) s) ;;
    match bytes p with
    | None => mret tt
    | Some space =>
        parent <- parent me ;;
        pl <- the_pool ;;
        miniPages <- unwrap EndIteratorDeref (erase_first me (constituents pl parent)) ;;
        _ <- on_pool (fun q => set_pins parent (pins q parent - if pinned p then 1 else 0)
                                 (set_constituents parent miniPages q)) ;;
        release_memory parent space (match miniPages with [] => true | _ :: _ => false end)
    end.

Definition downToZeroReferences (me : nat) : BM unit :=
  valid <- isRemovalStillValid me ;;
  if negb valid then mret tt
  else
    p <- page_of me ;;
    match bytes p, whichSet p with
    | None, Some set => modify (fun s => set_allPages (delete (set, pageNum p) (allPages s)) s)
    | None, None => mret tt
    | Some _, _ => unpin me
    end.

Definition decRefCount (me : nat) : BM unit :=
  _ <- on_page me (fun p => set_refCount (refCount p - 1) p) ;;
  p <- page_of me ;;
  if refCount p =? 0
  then if isAnon p then freeAnonymousPage me else downToZeroReferences me
  else mret tt.

(** ** Clearing a set *)

(** The pages of the set that exist, in the order of allPages, which is sorted
    by set and page number. *)
Definition by_number (x y : Z * nat) : Prop := x.1 <= y.1.
#[export] Instance by_number_dec x y : Decision (by_number x y).
Proof. unfold by_number. apply _. Defined.
Definition pages_of_set (set : PDBSet) (m : gmap set_key nat) : list (Z * nat) :=
  merge_sort by_number
    (omap (fun x => if decide (x.1.1 = set) then Some (x.1.2, x.2) else None) (map_to_list m)).

Definition clear_page (set : PDBSet) (x : Z * nat) : BM unit :=
  let me := x.2 in
  p <- page_of me ;;
  a <- unwrap EndIteratorDeref (bytes p) ;;
  memLoc <- parent me ;;
  q <- the_pool ;;
  siblings <- unwrap EndIteratorDeref (erase_first me (constituents q memLoc)) ;;
  _ <- on_pool (fun q => set_pins memLoc (pins q memLoc - 1) (set_constituents memLoc siblings q)) ;;
  q <- the_pool ;;
  _ <- (if pins q memLoc =? 0 then
          match siblings with
          | [] =>
              _ <- drop_unused memLoc ;;
              on_pool (fun q => set_emptyFullPages (emptyFullPages q ++ [memLoc]) q)
          | _ :: _ =>
              let c := numBytes (location p) in
              l <- unwrap OutOfRange (emptyMini q c) ;;
              on_pool (fun q => into_lru memLoc
                (set_unused memLoc (unused_of q memLoc ++ [a]) (class_of q memLoc) (set_emptyMini c (l ++ [a]) q)))
          end
        else mret tt) ;;
  modify (fun s => set_allPages (delete (set, x.1) (allPages s)) s).

Definition clearSet (set : PDBSet) : BM unit :=
  _ <- on_disk (fun d => set_fds (fds d ∖ {[set]}) d) ;;
  s <- get ;;
  _ <- for_each (pages_of_set set (allPages s)) (clear_page set) ;;
  on_disk (fun d => set_pageLocations (filter (fun x => x.1.1 <> set) (pageLocations d))
                      (set_endOfFiles (delete set (endOfFiles d)) d)).

(** ** Starting *)

(** A buffer manager before [initialize]; [temp] and [files] are what the files
    hold. *)
Definition pool_default : pool := mkPool [] [] ∅ ∅ ∅ [] 1 [].
Definition bm_default (temp : image) (files : string -> image) : buffer_manager :=
  mkBM false 0 0 0 [] ∅ pool_default (mkDisk ∅ ∅ ∅ [] 0 temp files) (fun _ => 0) [] 0.

(** The loop over the page sizes: how many there are and the first one that is
    too big. *)
Fixpoint size_classes (fuel : nat) (curSize pageSize : Z) (n : nat) : option (nat * Z) :=
  if curSize <=? pageSize
  then match fuel with
       | O => None
       | S fuel' => size_classes fuel' (u64 (curSize * 2)) pageSize (S n)
       end
  else Some (n, curSize).

Definition initialize (pageSizeIn numPagesIn : Z) : BM unit := fun s =>
  match size_classes 64 MIN_PAGE_SIZE pageSizeIn 0 with
  | None => NoFuel
  | Some (n, curSize) =>
      let p := memory_pool s in
      let d := storage s in
      let p' := mkPool (emptyFullPages p ++ offsets 0 (numPagesIn * pageSizeIn) pageSizeIn)
                  (emptyMiniPages p ++ replicate n []) (unusedMiniPages p) (constituentPages p)
                  (numPinned p) (lastUsed p) 1 (isCreatingSpace p ++ replicate n false) in
      let d' := set_availablePositions (availablePositions d ++ replicate n []) (set_lastTempPos 0 d) in
      let s' := mkBM true pageSizeIn numPagesIn (Z.of_nat n - 1) (page_objects s) (allPages s) p' d' (ram s)
                  (freeAnonPageNumbers s) (lastFreeAnonPageNumber s) in
      if curSize =? u64 (pageSizeIn * 2) then Ok tt s' else Exit s
  end.
