(* ===== verification/BufferManagerPool.v ===== *)
(** How the buffer manager divides memory: the invariant of the pool and what
    each change of it does.  [res] says where the pages are that have memory:
    their address, the class of their size and whether they are pinned. *)

From S2P Require Import Prelude BufferManager.

Open Scope Z_scope.

(** ** Vectors *)

Lemma erase_first_Permutation {A} `{EqDecision A} (x : A) l l' : erase_first x l = Some l' -> l ≡ₚ x :: l'.
Proof.
  revert l'. induction l as [|y l IH]; intros l'; [done|]. simpl. destruct (decide (x = y)) as [->|]; [by intros [= <-]|].
  destruct (erase_first x l) as [m|]; [|done]. intros [= <-]. rewrite (IH m) by done. apply Permutation_swap.
Qed.
Lemma erase_first_Some {A} `{EqDecision A} (x : A) l : x ∈ l -> exists l', erase_first x l = Some l'.
Proof.
  induction l as [|y l IH]; [by intros ?%elem_of_nil|]. simpl. destruct (decide (x = y)); [eauto|].
  intros [?|H]%elem_of_cons; [done|]. destruct (IH H) as [l' ->]. eauto.
Qed.
Lemma erase_first_NoDup {A} `{EqDecision A} (x : A) l l' :
  erase_first x l = Some l' -> NoDup l -> NoDup l' /\ forall y, y ∈ l' <-> y ∈ l /\ y <> x.
Proof.
  intros H Hl. apply erase_first_Permutation in H. rewrite H in Hl. apply NoDup_cons in Hl as [Hx Hl]. split; [done|].
  intros y. rewrite H, elem_of_cons. split; [|intuition]. intros Hy. split; [by right|]. by intros ->.
Qed.
Lemma pop_snoc {A} (l : list A) x : pop (l ++ [x]) = l.
Proof. unfold pop. rewrite length_app. simpl. rewrite take_app_le by lia. apply take_ge. lia. Qed.
Lemma last_split {A} (l : list A) x : last l = Some x -> l = pop l ++ [x].
Proof. intros [l' ->]%last_Some. by rewrite pop_snoc. Qed.

(** ** The queue of pages to evict *)

Lemma lru_insert_last (x : Z * Z) l : (forall y, y ∈ l -> y.2 < x.2) -> lru_insert x l = l ++ [x].
Proof.
  induction l as [|y l IH]; intros H; [done|]. simpl. pose proof (H y ltac:(left)).
  destruct (Z.ltb_spec x.2 y.2); [lia|]. destruct (Z.eqb_spec x.2 y.2); [lia|]. f_equal. apply IH.
  intros z Hz. apply H. by right.
Qed.
Lemma elem_of_lru_erase t (x : Z * Z) l : x ∈ lru_erase t l <-> x ∈ l /\ x.2 <> t.
Proof. unfold lru_erase. rewrite list_elem_of_filter. tauto. Qed.

(** ** Sizes *)

Lemma page_bytes_pow c : (c <= 11)%nat -> page_bytes c = MIN_PAGE_SIZE * 2 ^ Z.of_nat c.
Proof.
  intros Hc. unfold page_bytes, u32, wrapu, MIN_PAGE_SIZE. apply Z.mod_small. split; [lia|].
  assert (2 ^ Z.of_nat c <= 2 ^ 11) by (apply Z.pow_le_mono_r; lia). change (2 ^ 11) with 2048 in *.
  change (2 ^ 32) with 4294967296. lia.
Qed.
Lemma page_bytes_pos c : (c <= 11)%nat -> 0 < page_bytes c.
Proof. intros Hc. rewrite page_bytes_pow by done. unfold MIN_PAGE_SIZE. lia. Qed.
Lemma page_bytes_divide c d : (c <= d)%nat -> (d <= 11)%nat -> (page_bytes c | page_bytes d).
Proof.
  intros Hc Hd. rewrite !page_bytes_pow by lia. exists (2 ^ Z.of_nat (d - c)).
  replace (Z.of_nat d) with (Z.of_nat (d - c) + Z.of_nat c) by lia. rewrite Z.pow_add_r by lia. lia.
Qed.
Lemma page_bytes_mono c d : (c <= d)%nat -> (d <= 11)%nat -> page_bytes c <= page_bytes d.
Proof.
  intros. apply Z.divide_pos_le; [by apply page_bytes_pos|by apply page_bytes_divide].
Qed.

(** The full page of the bytes of a mini page is that of its first byte. *)
Lemma same_parent P B a k : 0 < B -> 0 < P -> (B | P) -> (B | a) -> 0 <= k < B -> (a + k) / P = a / P.
Proof.
  intros HB HP [m Hm] [r Hr] Hk. rewrite Hm, Hr. assert (0 < m) by nia.
  rewrite (Z.mul_comm m B). rewrite <- !Z.div_div by lia. rewrite Z.div_add_l, Z.div_mul by lia.
  rewrite (Z.div_small k B) by lia. by rewrite Z.add_0_r.
Qed.
Lemma aligned_apart B a b k1 k2 : (B | a) -> (B | b) -> a <> b -> 0 <= k1 < B -> 0 <= k2 < B -> a + k1 <> b + k2.
Proof. intros [r ->] [t ->] Hne Hk1 Hk2 E. assert (r <> t) by congruence. nia. Qed.

Lemma elem_of_offsets x start limit inc : 0 < inc ->
  x ∈ offsets start limit inc <-> exists k, 0 <= k /\ x = start + k * inc /\ x < limit.
Proof.
  intros Hi. unfold offsets. rewrite list_elem_of_fmap. split.
  - intros (k & -> & Hk). apply elem_of_seq in Hk. exists (Z.of_nat k). split; [lia|]. split; [done|].
    assert (Z.of_nat k < (limit - start + inc - 1) / inc) as H by lia.
    apply Z.lt_le_pred in H. assert (Z.of_nat k + 1 <= (limit - start + inc - 1) / inc) as H' by lia.
    apply (Z.mul_le_mono_nonneg_l _ _ inc) in H'; [|lia].
    pose proof (Z.mul_div_le (limit - start + inc - 1) inc ltac:(lia)). lia.
  - intros (k & Hk & -> & Hl). exists (Z.to_nat k). split; [by rewrite Z2Nat.id|]. apply elem_of_seq. split; [lia|].
    apply Nat2Z.inj_lt. rewrite Z2Nat.id by lia. simpl.
    assert (k < (limit - start + inc - 1) / inc); [|lia].
    assert (k + 1 <= (limit - start + inc - 1) / inc); [|lia]. apply Z.div_le_lower_bound; lia.
Qed.
Lemma NoDup_offsets start limit inc : 0 < inc -> NoDup (offsets start limit inc).
Proof.
  intros Hi. unfold offsets. apply NoDup_fmap_2_strong; [|apply NoDup_seq].
  intros x y _ _ E. assert (Z.of_nat x * inc = Z.of_nat y * inc) as E' by lia. apply Z.mul_reg_r in E'; lia.
Qed.

(** ** The invariant *)

Abbreviation residence := (nat -> option (Z * nat * bool)).

Section pool.
Context (n : nat) (N : Z) (Hn : (n <= 11)%nat).
Let P := page_bytes n.

Definition full_of (a : Z) : Z := a / P * P.
Definition base (p : Z) : Prop := (P | p) /\ 0 <= p < N * P.

Definition is_pinned (res : residence) (me : nat) : bool :=
  match res me with Some (_, _, b) => b | None => false end.
Definition pin_of (x : option (Z * nat * bool)) : Z := match x with Some (_, _, true) => 1 | _ => 0 end.
Fixpoint pinned_count (res : residence) (l : list nat) : Z :=
  match l with [] => 0 | me :: l' => pin_of (res me) + pinned_count res l' end.

(** Every full page is empty or split into mini pages of one class, each of
    which is to be had, the memory of one page, or lost. *)
Record slots_ok (q : pool) (res : residence) : Prop := {
  sl_length : length (emptyMiniPages q) = S n;
  sl_full_nodup : NoDup (emptyFullPages q);
  sl_full p : p ∈ emptyFullPages q -> base p /\ constituents q p = [] /\ unused_of q p = [];
  sl_mini c l a : emptyMini q c = Some l -> a ∈ l ->
    base (full_of a) /\ full_of a ∉ emptyFullPages q /\ class_of q (full_of a) = c /\ a ∈ unused_of q (full_of a);
  sl_mini_nodup c l : emptyMini q c = Some l -> NoDup l;
  sl_unused p a : a ∈ unused_of q p ->
    full_of a = p /\ (page_bytes (class_of q p) | a) /\ exists l, emptyMini q (class_of q p) = Some l /\ a ∈ l;
  sl_unused_nodup p : NoDup (unused_of q p);
  sl_const p me : me ∈ constituents q p <-> exists a c b, res me = Some (a, c, b) /\ full_of a = p;
  sl_const_nodup p : NoDup (constituents q p);
  sl_res me a c b : res me = Some (a, c, b) ->
    base (full_of a) /\ full_of a ∉ emptyFullPages q /\ class_of q (full_of a) = c /\ (c <= n)%nat /\
    (page_bytes c | a) /\ a ∉ unused_of q (full_of a);
  sl_inj me1 me2 a c1 c2 b1 b2 : res me1 = Some (a, c1, b1) -> res me2 = Some (a, c2, b2) -> me1 = me2
}.

(** A full page with a pinned mini page is not in the queue, and one in the
    queue has its time tick for its number of pins, negative. *)
Record pins_ok (q : pool) (res : residence) : Prop := {
  pi_count p : base p -> p ∉ emptyFullPages q -> 0 <= pins q p -> pins q p = pinned_count res (constituents q p);
  pi_queued p : base p -> p ∉ emptyFullPages q -> pins q p < 0 ->
    (p, - pins q p) ∈ lastUsed q /\ pinned_count res (constituents q p) = 0;
  pi_lru p t : (p, t) ∈ lastUsed q -> base p /\ p ∉ emptyFullPages q /\ pins q p = - t /\ 0 < t < lastTimeTick q;
  pi_ticks : NoDup (map snd (lastUsed q))
}.
Definition pool_ok (q : pool) (res : residence) : Prop := slots_ok q res /\ pins_ok q res.

Definition free_slot (q : pool) (res : residence) (a : Z) (c : nat) : Prop :=
  base (full_of a) /\ full_of a ∉ emptyFullPages q /\ class_of q (full_of a) = c /\ (c <= n)%nat /\
  (page_bytes c | a) /\ a ∉ unused_of q (full_of a) /\ forall me c' b, res me <> Some (a, c', b).

Lemma P_pos : 0 < P.
Proof. by apply page_bytes_pos. Qed.

(** The memory of two pages does not overlap. *)
Lemma slots_apart q res me1 me2 a1 c1 b1 a2 c2 b2 k1 k2 :
  slots_ok q res -> res me1 = Some (a1, c1, b1) -> res me2 = Some (a2, c2, b2) -> me1 <> me2 ->
  0 <= k1 < page_bytes c1 -> 0 <= k2 < page_bytes c2 -> a1 + k1 <> a2 + k2.
Proof.
  intros H H1 H2 Hne Hk1 Hk2 E. pose proof P_pos.
  destruct (sl_res _ _ H _ _ _ _ H1) as (_ & _ & Hc1 & Hl1 & Hd1 & _).
  destruct (sl_res _ _ H _ _ _ _ H2) as (_ & _ & Hc2 & Hl2 & Hd2 & _).
  assert (E1 : (a1 + k1) / P = a1 / P) by (apply (same_parent P (page_bytes c1)); try done; [apply page_bytes_pos; lia|by apply page_bytes_divide]).
  assert (E2 : (a2 + k2) / P = a2 / P) by (apply (same_parent P (page_bytes c2)); try done; [apply page_bytes_pos; lia|by apply page_bytes_divide]).
  assert (Ef : full_of a1 = full_of a2) by (unfold full_of; rewrite <- E1, <- E2, E; done).
  assert (c1 = c2) as <- by congruence.
  destruct (decide (a1 = a2)) as [->|Hna]; [by eapply Hne, sl_inj|].
  by apply (aligned_apart (page_bytes c1) a1 a2 k1 k2).
Qed.

(** The memory of a page is inside the shared memory. *)
Lemma resident_inside q res me a c b k :
  slots_ok q res -> res me = Some (a, c, b) -> 0 <= k < page_bytes c -> 0 <= a + k < N * P.
Proof.
  intros H Hr Hk. pose proof P_pos. destruct (sl_res _ _ H _ _ _ _ Hr) as ([_ Hb] & _ & _ & Hl & Hd & _).
  assert (E : (a + k) / P = a / P) by (apply (same_parent P (page_bytes c)); try done; [apply page_bytes_pos; lia|by apply page_bytes_divide]).
  unfold full_of in Hb. pose proof (Z.div_mod (a + k) P ltac:(lia)) as Hm. pose proof (Z.mod_pos_bound (a + k) P ltac:(lia)). rewrite E in Hm.
  assert (a / P < N) by (apply (Z.mul_lt_mono_pos_r P); lia). assert (0 <= a / P) by nia.
  assert ((a / P + 1) * P <= N * P) by (apply Z.mul_le_mono_nonneg_r; lia). lia.
Qed.

(** A free slot overlaps with no page. *)
Lemma free_slot_apart q res a c me a2 c2 b2 k1 k2 :
  slots_ok q res -> free_slot q res a c -> res me = Some (a2, c2, b2) ->
  0 <= k1 < page_bytes c -> 0 <= k2 < page_bytes c2 -> a + k1 <> a2 + k2.
Proof.
  intros H (_ & _ & Hc1 & Hl1 & Hd1 & _ & Hfree) H2 Hk1 Hk2 E. pose proof P_pos.
  destruct (sl_res _ _ H _ _ _ _ H2) as (_ & _ & Hc2 & Hl2 & Hd2 & _).
  assert (E1 : (a + k1) / P = a / P) by (apply (same_parent P (page_bytes c)); try done; [apply page_bytes_pos; lia|by apply page_bytes_divide]).
  assert (E2 : (a2 + k2) / P = a2 / P) by (apply (same_parent P (page_bytes c2)); try done; [apply page_bytes_pos; lia|by apply page_bytes_divide]).
  assert (Ef : full_of a = full_of a2) by (unfold full_of; rewrite <- E1, <- E2, E; done).
  assert (c = c2) as <- by congruence.
  destruct (decide (a = a2)) as [->|Hna]; [by eapply Hfree|].
  by apply (aligned_apart (page_bytes c) a a2 k1 k2).
Qed.

(** *** Counting pins *)

Definition upd (res : residence) (me : nat) (x : option (Z * nat * bool)) : residence :=
  fun k => if decide (k = me) then x else res k.

Lemma upd_same res me x : upd res me x me = x.
Proof. unfold upd. by rewrite decide_True. Qed.
Lemma upd_other res me x k : k <> me -> upd res me x k = res k.
Proof. intros. unfold upd. by rewrite decide_False. Qed.

Lemma pin_of_nonneg x : 0 <= pin_of x.
Proof. by destruct x as [[[a c] []]|]. Qed.
Lemma pinned_count_ext res res' l : (forall me, me ∈ l -> res' me = res me) -> pinned_count res' l = pinned_count res l.
Proof.
  induction l as [|me l IH]; intros H; [done|]. simpl. rewrite IH, H; [done|by left|]. intros k Hk. apply H. by right.
Qed.
Lemma pinned_count_perm res l l' : l ≡ₚ l' -> pinned_count res l = pinned_count res l'.
Proof. induction 1; simpl; lia. Qed.
Lemma pinned_count_nonneg res l : 0 <= pinned_count res l.
Proof. induction l as [|me l IH]; simpl; [done|]. pose proof (pin_of_nonneg (res me)). lia. Qed.
Lemma pinned_count_upd res me x l : NoDup l -> me ∈ l ->
  pinned_count (upd res me x) l = pinned_count res l - pin_of (res me) + pin_of x.
Proof.
  intros Hl (l1 & l2 & ->)%list_elem_of_split. rewrite <- Permutation_middle in Hl. apply NoDup_cons in Hl as [Hm _].
  rewrite !(pinned_count_perm _ (l1 ++ me :: l2) (me :: l1 ++ l2)) by by rewrite Permutation_middle. simpl. rewrite upd_same. rewrite (pinned_count_ext res (upd res me x)); [lia|].
  intros k Hk. apply upd_other. by intros ->.
Qed.
Lemma pinned_count_upd_out res me x l : me ∉ l -> pinned_count (upd res me x) l = pinned_count res l.
Proof. intros H. apply pinned_count_ext. intros k Hk. apply upd_other. by intros ->. Qed.
Lemma pinned_count_snoc res me l : pinned_count res (l ++ [me]) = pinned_count res l + pin_of (res me).
Proof. rewrite (pinned_count_perm _ _ (me :: l)) by apply Permutation_app_comm. simpl. lia. Qed.
Lemma pinned_count_in res me l : me ∈ l -> is_pinned res me = true -> 0 < pinned_count res l.
Proof.
  intros (l1 & l2 & ->)%list_elem_of_split Hp. rewrite (pinned_count_perm _ _ (me :: l1 ++ l2)) by by rewrite Permutation_middle. simpl.
  pose proof (pinned_count_nonneg res (l1 ++ l2)). unfold is_pinned in Hp. destruct (res me) as [[[a c] []]|]; simpl; [lia|done..].
Qed.

(** *** Reading the changed maps *)

Lemma unused_of_set q a l c p : unused_of (set_unused a l c q) p = if decide (a = p) then l else unused_of q p.
Proof. unfold unused_of. simpl. destruct (decide (a = p)) as [->|]; [by rewrite lookup_insert_eq|by rewrite lookup_insert_ne]. Qed.
Lemma class_of_set q a l c p : class_of (set_unused a l c q) p = if decide (a = p) then c else class_of q p.
Proof. unfold class_of. simpl. destruct (decide (a = p)) as [->|]; [by rewrite lookup_insert_eq|by rewrite lookup_insert_ne]. Qed.
Lemma constituents_set q a l p : constituents (set_constituents a l q) p = if decide (a = p) then l else constituents q p.
Proof. unfold constituents. simpl. destruct (decide (a = p)) as [->|]; [by rewrite lookup_insert_eq|by rewrite lookup_insert_ne]. Qed.
Lemma pins_set q a m p : pins (set_pins a m q) p = if decide (a = p) then m else pins q p.
Proof. unfold pins. simpl. destruct (decide (a = p)) as [->|]; [by rewrite lookup_insert_eq|by rewrite lookup_insert_ne]. Qed.
Lemma emptyMini_set q c l c' : (c < length (emptyMiniPages q))%nat ->
  emptyMini (set_emptyMini c l q) c' = if decide (c = c') then Some l else emptyMini q c'.
Proof.
  intros Hc. unfold emptyMini. simpl. destruct (decide (c = c')) as [<-|]; [by rewrite list_lookup_insert_eq|by rewrite list_lookup_insert_ne].
Qed.

(** *** Pinning and unpinning full pages *)

Definition pin_pool (p : Z) (q : pool) : pool :=
  if pins q p <? 0 then set_pins p 1 (set_lastUsed (lru_erase (u32 (- pins q p)) (lastUsed q)) q)
  else set_pins p (pins q p + 1) q.
Definition unpin_pool (p : Z) (q : pool) : pool :=
  let m := if 0 <? pins q p then pins q p - 1 else pins q p in
  let q' := set_pins p m q in
  if m =? 0 then into_lru p q' else q'.

(** [q1] and [res'] differ from [q] and [res] in the pins of the pages on [p]
    by [d]. *)
Record pins_change (q q1 : pool) (res res' : residence) (p d : Z) : Prop := {
  pc_full : emptyFullPages q1 = emptyFullPages q;
  pc_pins : numPinned q1 = numPinned q;
  pc_lru : lastUsed q1 = lastUsed q;
  pc_tick : lastTimeTick q1 = lastTimeTick q;
  pc_other p' : p' <> p -> pinned_count res' (constituents q1 p') = pinned_count res (constituents q p');
  pc_here : pinned_count res' (constituents q1 p) = pinned_count res (constituents q p) + d
}.

Lemma tick_owner (l : list (Z * Z)) p p' t : NoDup (map snd l) -> (p, t) ∈ l -> (p', t) ∈ l -> p = p'.
Proof.
  induction l as [|[p0 t0] l IH]; intros Hl H1 H2; [by apply elem_of_nil in H1|].
  simpl in Hl. apply NoDup_cons in Hl as [Hx Hl].
  assert (Hin : forall x, (x, t0) ∈ l -> False) by (intros x Hx'; apply Hx; by apply (list_elem_of_fmap_2 snd l (x, t0))).
  apply elem_of_cons in H1 as [H1|H1]; apply elem_of_cons in H2 as [H2|H2]; simplify_eq; try done.
  - by apply Hin in H2.
  - by apply Hin in H1.
  - by apply IH.
Qed.
Lemma lru_erase_ticks t (l : list (Z * Z)) : NoDup (map snd l) -> NoDup (map snd (lru_erase t l)).
Proof. intros H. eapply sublist_NoDup; [done|]. apply fmap_sublist. apply sublist_filter. Qed.

Lemma pin_pool_ok q q1 res res' p :
  pins_ok q res -> pins_change q q1 res res' p 1 -> base p -> p ∉ emptyFullPages q -> lastTimeTick q < 2 ^ 32 ->
  pins_ok (pin_pool p q1) res'.
Proof.
  intros [H1 H2 H3 H4] [C1 C2 C3 C4 C5 C6] Hb Hf Ht. unfold pin_pool.
  assert (Ep : forall p', pins q1 p' = pins q p') by (intros; unfold pins; by rewrite C2).
  rewrite !Ep, C3. destruct (Z.ltb_spec (pins q p) 0) as [Hp|Hp].
  - destruct (H2 p Hb Hf Hp) as [Hin Hc]. destruct (H3 _ _ Hin) as (_ & _ & _ & Htick).
    assert (Hu : u32 (- pins q p) = - pins q p) by (unfold u32, wrapu; apply Z.mod_small; lia). rewrite Hu.
    split; cbn [emptyFullPages lastUsed lastTimeTick set_pins set_numPinned set_lastUsed]; rewrite ?C1, ?C4.
    + intros p' Hb' Hf' Hp'. rewrite pins_set in *. change (pins _ p') with (pins q1 p') in *. rewrite Ep in *.
      change (constituents _ p') with (constituents q1 p').
      destruct (decide (p = p')) as [<-|Hne]; [by rewrite C6, Hc|]. rewrite C5 by done. by apply H1.
    + intros p' Hb' Hf' Hp'. rewrite pins_set in *. change (pins _ p') with (pins q1 p') in *. rewrite Ep in *.
      change (constituents _ p') with (constituents q1 p').
      destruct (decide (p = p')) as [<-|Hne]; [lia|]. rewrite C5 by done. destruct (H2 p' Hb' Hf' Hp') as [Hin' Hc'].
      split; [|done]. apply elem_of_lru_erase. split; [done|]. simpl. intros E. apply Hne. symmetry.
      eapply tick_owner; [done| |exact Hin]. by rewrite <- E.
    + intros p' t [Hin' Hne]%elem_of_lru_erase. simpl in Hne. destruct (H3 _ _ Hin') as (? & ? & ? & ?). split_and!; try done; try lia.
      rewrite pins_set. change (pins _ p') with (pins q1 p'). rewrite Ep. destruct (decide (p = p')) as [<-|]; [lia|done].
    + by apply lru_erase_ticks.
  - split; cbn [emptyFullPages lastUsed lastTimeTick set_pins set_numPinned]; rewrite ?C1, ?C3, ?C4.
    + intros p' Hb' Hf' Hp'. rewrite pins_set in *. rewrite Ep in *. change (constituents _ p') with (constituents q1 p').
      destruct (decide (p = p')) as [<-|Hne]; [rewrite C6, H1 by done; lia|]. rewrite C5 by done. by apply H1.
    + intros p' Hb' Hf' Hp'. rewrite pins_set in *. rewrite Ep in *. change (constituents _ p') with (constituents q1 p').
      destruct (decide (p = p')) as [<-|Hne]; [lia|]. rewrite C5 by done. by apply H2.
    + intros p' t Hin'. destruct (H3 _ _ Hin') as (? & ? & ? & ?). split_and!; try done; try lia.
      rewrite pins_set, Ep. destruct (decide (p = p')) as [<-|]; [lia|done].
    + done.
Qed.

Lemma unpin_pool_ok q q1 res res' p :
  pins_ok q res -> pins_change q q1 res res' p (-1) -> base p -> p ∉ emptyFullPages q -> 0 < lastTimeTick q ->
  pins_ok (unpin_pool p q1) res' /\ lastTimeTick q <= lastTimeTick (unpin_pool p q1) <= lastTimeTick q + 1.
Proof.
  intros [H1 H2 H3 H4] [C1 C2 C3 C4 C5 C6] Hb Hf Ht. unfold unpin_pool.
  assert (Ep : forall p', pins q1 p' = pins q p') by (intros; unfold pins; by rewrite C2).
  pose proof (pinned_count_nonneg res' (constituents q1 p)) as Hc.
  assert (Hp : 0 < pins q p).
  { destruct (Z.lt_ge_cases (pins q p) 0) as [Hneg|Hpos]; [apply H2 in Hneg; try done; lia|]. rewrite H1 by done. lia. }
  rewrite !Ep, (proj2 (Z.ltb_lt _ _) Hp). specialize (H1 p Hb Hf ltac:(lia)) as Hcnt.
  assert (Hnl : forall t, (p, t) ∉ lastUsed q) by (intros t Hin; apply H3 in Hin; lia).
  destruct (Z.eqb_spec (pins q p - 1) 0) as [E|E].
  - unfold into_lru. cbn [lastTimeTick lastUsed set_pins set_numPinned]. rewrite C3, C4.
    assert (Hlt : forall y, y ∈ lastUsed q -> y.2 < lastTimeTick q) by (intros [p' t] Hy; apply H3 in Hy; simpl; lia).
    rewrite lru_insert_last by done. split; [|simpl; lia].
    split; cbn [emptyFullPages lastUsed lastTimeTick set_pins set_numPinned set_lastUsed set_lastTimeTick]; rewrite ?C1.
    + intros p' Hb' Hf' Hp'. change (pins _ p') with (pins (set_pins p (- lastTimeTick q) (set_pins p (pins q p - 1) q1)) p') in *.
      change (constituents _ p') with (constituents q1 p'). rewrite !pins_set, Ep in *.
      destruct (decide (p = p')) as [<-|Hne]; [lia|]. rewrite C5 by done. by apply H1.
    + intros p' Hb' Hf' Hp'. change (pins _ p') with (pins (set_pins p (- lastTimeTick q) (set_pins p (pins q p - 1) q1)) p') in *.
      change (constituents _ p') with (constituents q1 p'). rewrite !pins_set, Ep in *.
      destruct (decide (p = p')) as [<-|Hne].
      * split; [|lia]. rewrite Z.opp_involutive. apply elem_of_app. right. apply list_elem_of_singleton. done.
      * rewrite C5 by done. destruct (H2 p' Hb' Hf' Hp'). split; [|done]. apply elem_of_app. by left.
    + intros p' t [Hin|Hin]%elem_of_app.
      * change (pins _ p') with (pins (set_pins p (- lastTimeTick q) (set_pins p (pins q p - 1) q1)) p').
        rewrite !pins_set, Ep. destruct (decide (p = p')) as [<-|Hne]; [by apply Hnl in Hin|].
        destruct (H3 _ _ Hin) as (? & ? & ? & ?). split_and!; try done; lia.
      * apply list_elem_of_singleton in Hin. injection Hin as -> ->.
        change (pins _ p) with (pins (set_pins p (- lastTimeTick q) (set_pins p (pins q p - 1) q1)) p).
        rewrite pins_set, decide_True by done. split_and!; try done; lia.
    + rewrite map_app. apply NoDup_app. split; [done|]. split; [|apply NoDup_singleton].
      intros t Hin Ht'. apply list_elem_of_singleton in Ht'. simpl in Ht'. apply list_elem_of_fmap in Hin as (y & -> & Hy).
      apply Hlt in Hy. lia.
  - cbn [lastTimeTick set_pins set_numPinned]. split; [|lia].
    split; cbn [emptyFullPages lastUsed lastTimeTick set_pins set_numPinned]; rewrite ?C1, ?C3, ?C4.
    + intros p' Hb' Hf' Hp'. rewrite pins_set, Ep in *. change (constituents _ p') with (constituents q1 p').
      destruct (decide (p = p')) as [<-|Hne]; [lia|]. rewrite C5 by done. by apply H1.
    + intros p' Hb' Hf' Hp'. rewrite pins_set, Ep in *. change (constituents _ p') with (constituents q1 p').
      destruct (decide (p = p')) as [<-|Hne]; [lia|]. rewrite C5 by done. by apply H2.
    + intros p' t Hin. destruct (H3 _ _ Hin) as (? & ? & ? & ?). split_and!; try done; try lia.
      rewrite pins_set, Ep. destruct (decide (p = p')) as [<-|]; [lia|done].
    + done.
Qed.

(** *** Changes of the slots *)

Lemma slots_ok_ext q q' res :
  emptyFullPages q' = emptyFullPages q -> emptyMiniPages q' = emptyMiniPages q ->
  (forall p, unused_of q' p = unused_of q p) -> (forall p, class_of q' p = class_of q p) ->
  (forall p, constituents q' p = constituents q p) -> slots_ok q res -> slots_ok q' res.
Proof.
  intros E1 E2 E3 E4 E5 []. split; intros *; unfold emptyMini in *; rewrite ?E1, ?E2, ?E3, ?E4, ?E5; eauto.
Qed.

Lemma slots_ok_res q res res' : (forall k, res' k = res k) -> slots_ok q res -> slots_ok q res'.
Proof.
  intros E []. split; try done; intros *; try setoid_rewrite E; eauto.
Qed.

Lemma slots_repin q res me a c b b' :
  res me = Some (a, c, b) -> slots_ok q res -> slots_ok q (upd res me (Some (a, c, b'))).
Proof.
  intros Hme []. assert (Hres : forall k a' c' b0, upd res me (Some (a, c, b')) k = Some (a', c', b0) -> exists b1, res k = Some (a', c', b1)).
  { intros k a' c' b0. unfold upd. destruct (decide (k = me)) as [->|]; [intros [= <- <- <-]; eauto|eauto]. }
  split; try done.
  - intros p k. rewrite sl_const0. split; intros (a' & c' & b0 & H & Hf).
    + unfold upd. destruct (decide (k = me)) as [->|]; [|by eauto 6]. simplify_eq. by eauto 6.
    + destruct (Hres _ _ _ _ H) as [b1 H']. eauto 6.
  - intros k a' c' b0 H. destruct (Hres _ _ _ _ H) as [b1 H']. by eapply sl_res0.
  - intros k1 k2 a' c1 c2 b1 b2 H1 H2. destruct (Hres _ _ _ _ H1), (Hres _ _ _ _ H2). by eapply sl_inj0.
Qed.

Lemma const_fresh q res me p : slots_ok q res -> res me = None -> me ∉ constituents q p.
Proof. intros H Hme Hin. apply (sl_const _ _ H) in Hin as (? & ? & ? & ? & _). congruence. Qed.

Lemma slots_register q res me a c b :
  slots_ok q res -> free_slot q res a c -> res me = None ->
  slots_ok (set_constituents (full_of a) (constituents q (full_of a) ++ [me]) q) (upd res me (Some (a, c, b))).
Proof.
  intros H (F1 & F2 & F3 & F4 & F5 & F6 & F7) Hme.
  pose proof (fun p => const_fresh _ _ _ p H Hme) as Hfr. destruct H. split; try done.
  - intros p Hp. destruct (sl_full0 _ Hp) as (? & Hc & ?). split_and!; try done. rewrite constituents_set.
    destruct (decide (full_of a = p)) as [<-|]; [by exfalso|done].
  - intros p k. rewrite constituents_set. destruct (decide (full_of a = p)) as [Hp|Hne].
    + rewrite Hp, elem_of_app, list_elem_of_singleton, sl_const0. unfold upd. split.
      * intros [(a' & c' & b' & H1 & H2)| ->]; [|rewrite decide_True by done; eauto 6].
        rewrite decide_False by (intros ->; congruence). eauto 6.
      * intros (a' & c' & b' & H1 & H2). destruct (decide (k = me)) as [->|]; [by right|left; eauto 6].
    + rewrite sl_const0. unfold upd. split; intros (a' & c' & b' & H1 & H2).
      * rewrite decide_False by (intros ->; congruence). eauto 6.
      * destruct (decide (k = me)) as [->|]; [by simplify_eq|eauto 6].
  - intros p. rewrite constituents_set. destruct (decide (full_of a = p)) as [Hp|Hne]; [|done].
    apply NoDup_app. split; [done|]. split; [|apply NoDup_singleton]. intros k Hk ->%list_elem_of_singleton. by eapply Hfr.
  - intros k a' c' b'. unfold upd. destruct (decide (k = me)) as [->|]; [by intros [= <- <- <-]|by apply sl_res0].
  - intros k1 k2 a' c1 c2 b1 b2. unfold upd. destruct (decide (k1 = me)) as [->|], (decide (k2 = me)) as [->|]; try done.
    + intros [= <- <- <-] H. by apply F7 in H.
    + intros H [= <- <- <-]. by apply F7 in H.
    + by apply sl_inj0.
Qed.

Lemma slots_forget q res me a c b l :
  slots_ok q res -> res me = Some (a, c, b) -> erase_first me (constituents q (full_of a)) = Some l ->
  slots_ok (set_constituents (full_of a) l q) (upd res me None) /\
  free_slot (set_constituents (full_of a) l q) (upd res me None) a c.
Proof.
  intros H Hme Hl. destruct (sl_res _ _ H _ _ _ _ Hme) as (R1 & R2 & R3 & R4 & R5 & R6).
  destruct H. destruct (erase_first_NoDup _ _ _ Hl (sl_const_nodup0 _)) as [Hnd Hin]. split.
  - split; try done.
    + intros p Hp. destruct (sl_full0 _ Hp) as (? & Hc & ?). split_and!; try done. rewrite constituents_set.
      destruct (decide (full_of a = p)) as [<-|]; [done|done].
    + intros p k. rewrite constituents_set. unfold upd. destruct (decide (full_of a = p)) as [<-|Hne].
      * rewrite Hin, sl_const0. destruct (decide (k = me)); split; [intuition|naive_solver|naive_solver|naive_solver].
      * rewrite sl_const0. destruct (decide (k = me)) as [->|]; [|done]. split; [|naive_solver].
        intros (a' & c' & b' & H1 & H2). by simplify_eq.
    + intros p. rewrite constituents_set. by destruct (decide (full_of a = p)).
    + intros k a' c' b'. unfold upd. destruct (decide (k = me)); [done|apply sl_res0].
    + intros k1 k2 a' c1 c2 b1 b2. unfold upd. destruct (decide (k1 = me)), (decide (k2 = me)); try done. by apply sl_inj0.
  - split_and!; try done. intros k c' b'. unfold upd. destruct (decide (k = me)) as [|Hk]; [done|]. intros H.
    by eapply Hk, sl_inj0.
Qed.

Lemma slots_take q res c l a u :
  slots_ok q res -> (c <= n)%nat -> emptyMini q c = Some (l ++ [a]) -> erase_first a (unused_of q (full_of a)) = Some u ->
  let q' := set_unused (full_of a) u c (set_emptyMini c l q) in slots_ok q' res /\ free_slot q' res a c.
Proof.
  intros H Hc Hl Hu q'. destruct H.
  destruct (sl_mini0 c _ a Hl) as (M1 & M2 & M3 & M4); [apply elem_of_app; right; by apply list_elem_of_singleton|].
  destruct (erase_first_NoDup _ _ _ Hu (sl_unused_nodup0 _)) as [Hnd Hin].
  assert (Hlen : (c < length (emptyMiniPages q))%nat) by (rewrite sl_length0; lia).
  assert (Hl' : NoDup (l ++ [a])) by by eapply sl_mini_nodup0. apply NoDup_app in Hl' as (Hndl & Hal & _).
  assert (Hna : a ∉ l) by (intros Hx; apply (Hal a Hx); by apply list_elem_of_singleton).
  assert (Eu : forall p, unused_of q' p = if decide (full_of a = p) then u else unused_of q p).
  { intros p. unfold q'. rewrite unused_of_set. done. }
  assert (Ec : forall p, class_of q' p = class_of q p).
  { intros p. unfold q'. rewrite class_of_set. destruct (decide (full_of a = p)) as [<-|]; done. }
  assert (Em : forall c', emptyMini q' c' = if decide (c = c') then Some l else emptyMini q c').
  { intros c'. unfold q'. change (emptyMini (set_emptyMini c l q) c' = if decide (c = c') then Some l else emptyMini q c').
    by apply emptyMini_set. }
  destruct (sl_unused0 _ _ M4) as (_ & Hal4 & _). rewrite M3 in Hal4.
  split; [|split_and!; try done].
  - split; try done.
    + unfold q'. simpl. by rewrite length_insert.
    + intros p Hp. destruct (sl_full0 _ Hp) as (? & ? & Hz). split_and!; try done. rewrite Eu.
      destruct (decide (full_of a = p)) as [<-|]; [|done]. by apply M2 in Hp.
    + intros c' l' x. rewrite Em, Ec, Eu. intros Hl' Hx.
      assert (Hx' : exists l0, emptyMini q c' = Some l0 /\ x ∈ l0 /\ x <> a).
      { destruct (decide (c = c')) as [<-|Hne].
        - injection Hl' as <-. exists (l ++ [a]). split_and!; [done|apply elem_of_app; by left|]. by intros ->.
        - exists l'. split_and!; try done. intros ->. destruct (sl_mini0 _ _ _ Hl' Hx) as (_ & _ & E & _). congruence. }
      destruct Hx' as (l0 & H1 & H2 & H3). destruct (sl_mini0 _ _ _ H1 H2) as (? & ? & ? & ?). split_and!; try done.
      destruct (decide (full_of a = full_of x)) as [E|]; [|done]. apply Hin. by rewrite E.
    + intros c' l'. rewrite Em. destruct (decide (c = c')); [by intros [= <-]|apply sl_mini_nodup0].
    + intros p x. rewrite Eu, Ec. destruct (decide (full_of a = p)) as [<-|Hne].
      * rewrite Hin. intros [Hx Hxa]. destruct (sl_unused0 _ _ Hx) as (? & ? & l0 & E & Hl0). split_and!; try done.
        rewrite M3 in E |- *. rewrite Hl in E. injection E as <-. exists l. rewrite Em, decide_True by done. split; [done|].
        apply elem_of_app in Hl0 as [?|?%list_elem_of_singleton]; done.
      * intros Hx. destruct (sl_unused0 _ _ Hx) as (Hf & ? & l0 & E & Hl0). split_and!; try done. rewrite Em.
        destruct (decide (c = class_of q p)) as [Ecc|]; [|eauto]. exists l. split; [done|]. rewrite <- Ecc, Hl in E.
        injection E as <-. apply elem_of_app in Hl0 as [?| ->%list_elem_of_singleton]; done.
    + intros p. rewrite Eu. by destruct (decide (full_of a = p)).
    + intros k a' c' b' H. destruct (sl_res0 _ _ _ _ H) as (? & ? & ? & ? & ? & Hnu). split_and!; try done; [by rewrite Ec|].
      rewrite Eu. destruct (decide (full_of a = full_of a')) as [E|]; [|done]. rewrite Hin, E. by intros [? _].
  - by rewrite Ec.
  - rewrite Eu, decide_True by done. rewrite Hin. by intros [_ ?].
  - intros k c' b' H. destruct (sl_res0 _ _ _ _ H) as (_ & _ & _ & _ & _ & Hnu). by apply Hnu.
Qed.

(** New mini pages on a full page whose pages all have their class. *)
Lemma slots_add q res p c m new :
  slots_ok q res -> base p -> p ∉ emptyFullPages q -> (c <= n)%nat -> emptyMini q c = Some m ->
  class_of q p = c -> NoDup new ->
  (forall x, x ∈ new -> full_of x = p /\ (page_bytes c | x) /\ x ∉ unused_of q p /\ forall me c' b, res me <> Some (x, c', b)) ->
  slots_ok (set_unused p (unused_of q p ++ new) c (set_emptyMini c (m ++ new) q)) res.
Proof.
  intros H Hb Hf Hc Hm Hcl Hnd Hnew. destruct H. set (q' := set_unused _ _ _ _).
  assert (Hlen : (c < length (emptyMiniPages q))%nat) by (rewrite sl_length0; lia).
  assert (Eu : forall p', unused_of q' p' = if decide (p = p') then unused_of q p ++ new else unused_of q p').
  { intros p'. unfold q'. by rewrite unused_of_set. }
  assert (Ec : forall p', class_of q' p' = class_of q p').
  { intros p'. unfold q'. rewrite class_of_set. destruct (decide (p = p')) as [<-|]; done. }
  assert (Em : forall c', emptyMini q' c' = if decide (c = c') then Some (m ++ new) else emptyMini q c').
  { intros c'. by apply (emptyMini_set q c (m ++ new) c'). }
  assert (Hmnew : forall x, x ∈ m -> x ∈ new -> False).
  { intros x Hx Hx'. destruct (sl_mini0 _ _ _ Hm Hx) as (_ & _ & _ & Hu). destruct (Hnew x Hx') as (E & _ & Hn' & _).
    rewrite E in Hu. by apply Hn'. }
  split; try done.
  - unfold q'. simpl. by rewrite length_insert.
  - intros p' Hp'. destruct (sl_full0 _ Hp') as (? & ? & Hz). split_and!; try done. rewrite Eu.
    destruct (decide (p = p')) as [<-|]; [by apply Hf in Hp'|done].
  - intros c' l x. rewrite Em, Ec, Eu. destruct (decide (c = c')) as [<-|Hne].
    + intros [= <-] [Hx|Hx]%elem_of_app.
      * destruct (sl_mini0 _ _ _ Hm Hx) as (? & ? & ? & Hu). split_and!; try done.
        destruct (decide (p = full_of x)) as [->|]; [apply elem_of_app; by left|done].
      * destruct (Hnew x Hx) as (E & _). rewrite E, decide_True by done. split_and!; try done. apply elem_of_app; by right.
    + intros Hl Hx. destruct (sl_mini0 _ _ _ Hl Hx) as (? & ? & Hcx & Hu). split_and!; try done.
      destruct (decide (p = full_of x)) as [->|]; [apply elem_of_app; by left|done].
  - intros c' l. rewrite Em. destruct (decide (c = c')) as [<-|Hne]; [|apply sl_mini_nodup0]. intros [= <-].
    apply NoDup_app. split; [by eapply sl_mini_nodup0|]. split; [|done]. intros x Hx Hx'. by eapply Hmnew.
  - intros p' x. rewrite Eu, Ec. destruct (decide (p = p')) as [<-|Hne].
    + intros [Hx|Hx]%elem_of_app.
      * destruct (sl_unused0 _ _ Hx) as (? & ? & l0 & E & Hl0). split_and!; try done. rewrite Hcl in E |- *.
        rewrite Hm in E. injection E as <-. exists (m ++ new). rewrite Em, decide_True by done. split; [done|]. apply elem_of_app; by left.
      * destruct (Hnew x Hx) as (E & Hd & _). rewrite Hcl. split_and!; try done. exists (m ++ new).
        rewrite Em, decide_True by done. split; [done|]. apply elem_of_app; by right.
    + intros Hx. destruct (sl_unused0 _ _ Hx) as (Hfx & ? & l0 & E & Hl0). split_and!; try done. rewrite Em.
      destruct (decide (c = class_of q p')) as [Ecc|]; [|eauto]. exists (m ++ new). split; [done|]. rewrite <- Ecc, Hm in E.
      injection E as <-. apply elem_of_app; by left.
  - intros p'. rewrite Eu. destruct (decide (p = p')) as [<-|]; [|done]. apply NoDup_app. split; [done|]. split; [|done].
    intros x Hx Hx'. by destruct (Hnew x Hx') as (_ & _ & Hn' & _).
  - intros k a' c' b' H. destruct (sl_res0 _ _ _ _ H) as (? & ? & ? & ? & ? & Hnu). split_and!; try done; [by rewrite Ec|].
    rewrite Eu. destruct (decide (p = full_of a')) as [E|]; [|done]. rewrite elem_of_app. intros [Hx|Hx]; [by rewrite E in Hx|].
    destruct (Hnew _ Hx) as (_ & _ & _ & Hr). by eapply Hr.
Qed.

Lemma slots_return q res a c m :
  slots_ok q res -> free_slot q res a c -> emptyMini q c = Some m ->
  slots_ok (set_unused (full_of a) (unused_of q (full_of a) ++ [a]) c (set_emptyMini c (m ++ [a]) q)) res.
Proof.
  intros H (F1 & F2 & F3 & F4 & F5 & F6 & F7) Hm. apply slots_add; try done; [apply NoDup_singleton|].
  by intros x ->%list_elem_of_singleton.
Qed.

(** The unused mini pages of a full page leave the empty ones. *)
Definition without_unused (p : Z) (l : list Z) (q : pool) : pool :=
  set_unused p [] (class_of q p) (set_emptyMini (class_of q p) l q).
Lemma slots_drop q res p m l :
  slots_ok q res -> emptyMini q (class_of q p) = Some m -> m ≡ₚ unused_of q p ++ l ->
  slots_ok (without_unused p l q) res.
Proof.
  intros H Hm Hp. destruct H. set (c := class_of q p) in *. set (q' := without_unused _ _ _).
  assert (Hlen : (c < length (emptyMiniPages q))%nat) by by apply lookup_lt_Some in Hm.
  assert (Eu : forall p', unused_of q' p' = if decide (p = p') then [] else unused_of q p').
  { intros p'. unfold q', without_unused. by rewrite unused_of_set. }
  assert (Ec : forall p', class_of q' p' = class_of q p').
  { intros p'. unfold q', without_unused. rewrite class_of_set. destruct (decide (p = p')) as [<-|]; done. }
  assert (Em : forall c', emptyMini q' c' = if decide (c = c') then Some l else emptyMini q c').
  { intros c'. by apply (emptyMini_set q c l c'). }
  assert (Hnd : NoDup (unused_of q p ++ l)) by (rewrite <- Hp; by eapply sl_mini_nodup0).
  apply NoDup_app in Hnd as (_ & Hul & Hndl).
  split; try done.
  - unfold q', without_unused. simpl. by rewrite length_insert.
  - intros p' Hp'. destruct (sl_full0 _ Hp') as (? & ? & Hz). split_and!; try done. rewrite Eu. by destruct (decide (p = p')).
  - intros c' l0 x. rewrite Em, Ec, Eu. intros Hl0 Hx.
    assert (Hx' : exists l1, emptyMini q c' = Some l1 /\ x ∈ l1 /\ (c = c' -> x ∉ unused_of q p)).
    { destruct (decide (c = c')) as [<-|Hne]; [|by exists l0]. injection Hl0 as <-. exists m. split_and!; [done| |].
      - rewrite Hp. apply elem_of_app; by right.
      - intros _ Hx'. by eapply Hul. }
    destruct Hx' as (l1 & H1 & H2 & H3). destruct (sl_mini0 _ _ _ H1 H2) as (? & ? & E & Hu). split_and!; try done.
    destruct (decide (p = full_of x)) as [Ep|]; [|done]. exfalso. rewrite <- Ep in E, Hu. by apply H3.
  - intros c' l0. rewrite Em. destruct (decide (c = c')); [by intros [= <-]|apply sl_mini_nodup0].
  - intros p' x. rewrite Eu, Ec. destruct (decide (p = p')) as [<-|Hne]; [by intros ?%elem_of_nil|].
    intros Hx. destruct (sl_unused0 _ _ Hx) as (Hfx & ? & l0 & E & Hl0). split_and!; try done. rewrite Em.
    destruct (decide (c = class_of q p')) as [Ecc|]; [|eauto]. exists l. split; [done|]. rewrite <- Ecc, Hm in E.
    injection E as <-. rewrite Hp in Hl0. apply elem_of_app in Hl0 as [Hl0|]; [|done].
    destruct (sl_unused0 _ _ Hl0) as (? & _). congruence.
  - intros p'. rewrite Eu. destruct (decide (p = p')); [apply NoDup_nil_2|done].
  - intros k a' c' b' H. destruct (sl_res0 _ _ _ _ H) as (? & ? & ? & ? & ? & Hnu). split_and!; try done; [by rewrite Ec|].
    rewrite Eu. destruct (decide (p = full_of a')); [by apply not_elem_of_nil|done].
Qed.
Lemma unused_in_mini q res p m :
  slots_ok q res -> emptyMini q (class_of q p) = Some m -> exists l, m ≡ₚ unused_of q p ++ l.
Proof.
  intros H Hm. apply submseteq_Permutation, NoDup_submseteq; [apply (sl_unused_nodup _ _ H)|].
  intros x Hx. destruct (sl_unused _ _ H _ _ Hx) as (_ & _ & l & E & Hl). congruence.
Qed.

(** A full page nobody has a part of becomes empty; an empty one is taken. *)
Lemma slots_free_full q res p :
  slots_ok q res -> base p -> p ∉ emptyFullPages q -> constituents q p = [] -> unused_of q p = [] ->
  slots_ok (set_emptyFullPages (emptyFullPages q ++ [p]) q) res.
Proof.
  intros H Hb Hf Hc Hu. destruct H. split; try done.
  - apply NoDup_app. split; [done|]. split; [|apply NoDup_singleton]. by intros x Hx ->%list_elem_of_singleton.
  - intros p' [Hp'| ->%list_elem_of_singleton]%elem_of_app; [by apply sl_full0|done].
  - intros c l a Hl Ha. destruct (sl_mini0 _ _ _ Hl Ha) as (? & Hfa & ? & Hua). split_and!; try done.
    intros [?|E%list_elem_of_singleton]%elem_of_app; [done|]. change (a ∈ unused_of q (full_of a)) in Hua. rewrite E, Hu in Hua.
    by apply elem_of_nil in Hua.
  - intros me a c b H. destruct (sl_res0 _ _ _ _ H) as (? & Hfa & ? & ? & ? & ?). split_and!; try done.
    intros [?|E%list_elem_of_singleton]%elem_of_app; [done|]. assert (Hin : me ∈ constituents q p) by (apply sl_const0; eauto 6).
    rewrite Hc in Hin. by apply elem_of_nil in Hin.
Qed.
Lemma slots_pop_full q res l p :
  slots_ok q res -> emptyFullPages q = l ++ [p] -> slots_ok (set_emptyFullPages l q) res /\ base p /\ p ∉ l /\
  constituents q p = [] /\ unused_of q p = [].
Proof.
  intros H E. destruct H. rewrite E in sl_full_nodup0. apply NoDup_app in sl_full_nodup0 as (Hnd & Hp & _).
  assert (Hin : p ∈ emptyFullPages q) by (rewrite E; apply elem_of_app; right; by apply list_elem_of_singleton).
  destruct (sl_full0 p Hin) as (? & ? & ?). split_and!; try done.
  - split; try done.
    + intros p' Hp'. apply sl_full0. rewrite E. apply elem_of_app. by left.
    + intros c l' a Hl Ha. destruct (sl_mini0 _ _ _ Hl Ha) as (? & Hfa & ? & Hua). split_and!; try done.
      intros Hx. apply Hfa. rewrite E. apply elem_of_app. by left.
    + intros me a c b Hr. destruct (sl_res0 _ _ _ _ Hr) as (? & Hfa & ? & ? & ? & ?). split_and!; try done.
      intros Hx. apply Hfa. rewrite E. apply elem_of_app. by left.
  - intros Hx. apply (Hp p Hx). by apply list_elem_of_singleton.
Qed.
Lemma slots_reclass q res p c :
  slots_ok q res -> constituents q p = [] -> unused_of q p = [] -> slots_ok (set_unused p [] c q) res.
Proof.
  intros H Hc Hu. destruct H.
  assert (Eu : forall p', unused_of (set_unused p [] c q) p' = unused_of q p').
  { intros p'. rewrite unused_of_set. destruct (decide (p = p')) as [<-|]; done. }
  split; try done; intros *; rewrite ?Eu; try done.
  - apply sl_full0.
  - rewrite class_of_set. intros Hl Ha. destruct (sl_mini0 _ _ _ Hl Ha) as (? & Hfa & ? & Hua). split_and!; try done.
    destruct (decide (p = full_of a)) as [Ep|]; [|done]. rewrite <- Ep, Hu in Hua. by apply elem_of_nil in Hua.
  - rewrite class_of_set. intros Ha. destruct (decide (p = p0)) as [<-|]; [rewrite Hu in Ha; by apply elem_of_nil in Ha|by apply sl_unused0].
  - rewrite class_of_set. intros Hr. destruct (sl_res0 _ _ _ _ Hr) as (? & Hfa & ? & ? & ? & ?). split_and!; try done.
    destruct (decide (p = full_of a)) as [Ep|]; [|done]. assert (Hin : me ∈ constituents q p) by (apply sl_const0; rewrite Ep; eauto 6).
    rewrite Hc in Hin. by apply elem_of_nil in Hin.
Qed.

(** Breaking up an empty full page. *)
Lemma full_of_inside p x : (P | p) -> 0 <= x < P -> full_of (p + x) = p.
Proof.
  intros [r ->] Hx. unfold full_of. pose proof P_pos. rewrite Z.div_add_l by lia. rewrite (Z.div_small x) by lia. lia.
Qed.
Lemma full_of_full p : (P | p) -> full_of p = p.
Proof. intros H. pose proof P_pos. rewrite <- (Z.add_0_r p) at 1. apply full_of_inside; [done|lia]. Qed.

Definition minis (p start : Z) (c : nat) : list Z := map (Z.add p) (offsets start P (page_bytes c)).
Lemma elem_of_minis x p start c : (c <= n)%nat ->
  x ∈ minis p start c <-> exists k, 0 <= k /\ x = p + (start + k * page_bytes c) /\ start + k * page_bytes c < P.
Proof.
  intros Hc. pose proof (page_bytes_pos c ltac:(lia)). unfold minis. rewrite list_elem_of_fmap.
  setoid_rewrite elem_of_offsets; [|done]. naive_solver.
Qed.
Lemma NoDup_minis p start c : (c <= n)%nat -> NoDup (minis p start c).
Proof.
  intros Hc. apply NoDup_fmap_2_strong; [intros x y _ _; lia|]. apply NoDup_offsets, page_bytes_pos. lia.
Qed.
Lemma minis_ok p start c x : (P | p) -> (c <= n)%nat -> (page_bytes c | start) -> 0 <= start -> x ∈ minis p start c ->
  full_of x = p /\ (page_bytes c | x).
Proof.
  intros Hp Hc Hs Hs0 Hx. apply elem_of_minis in Hx as (k & Hk & -> & Hl); [|done]. pose proof (page_bytes_pos c ltac:(lia)).
  split; [apply full_of_inside; [done|nia]|]. apply Z.divide_add_r.
  - etrans; [|exact Hp]. by apply page_bytes_divide.
  - apply Z.divide_add_r; [done|]. by exists k.
Qed.

Definition broken_up (p : Z) (l : list Z) (c : nat) (m : list Z) (q : pool) : pool :=
  set_emptyFullPages l (set_pins p 0
    (set_unused p (unused_of q p ++ minis p 0 c) c (set_emptyMini c (m ++ minis p 0 c) q))).
Lemma slots_break q res l p c m :
  slots_ok q res -> emptyFullPages q = l ++ [p] -> (c <= n)%nat -> emptyMini q c = Some m ->
  slots_ok (broken_up p l c m q) res.
Proof.
  intros H E Hc Hm. destruct (slots_pop_full _ _ _ _ H E) as (H1 & Hb & Hp & Hcs & Hu).
  pose proof (slots_reclass _ _ p c H1 Hcs Hu) as H2. set (q2 := set_unused p [] c _) in *.
  assert (H3 : slots_ok (set_unused p (unused_of q2 p ++ minis p 0 c) c (set_emptyMini c (m ++ minis p 0 c) q2)) res).
  { apply slots_add; try done.
    - unfold q2. rewrite class_of_set. by rewrite decide_True.
    - by apply NoDup_minis.
    - intros x Hx. destruct (minis_ok p 0 c x) as [? ?]; try done; [apply Hb|apply Z.divide_0_r|].
      split_and!; try done.
      + unfold q2. rewrite unused_of_set, decide_True by done. apply not_elem_of_nil.
      + intros me c' b Hr. assert (Hin : me ∈ constituents q p) by (apply (sl_const _ _ H); eauto 6).
        rewrite Hcs in Hin. by apply elem_of_nil in Hin. }
  eapply slots_ok_ext; [..|exact H3]; try done.
  - intros p'. unfold broken_up. change (unused_of (set_unused p (unused_of q p ++ minis p 0 c) c q) p' =
      unused_of (set_unused p (unused_of q2 p ++ minis p 0 c) c q2) p').
    rewrite !unused_of_set. destruct (decide (p = p')) as [<-|Hne].
    + unfold q2. by rewrite unused_of_set, Hu, decide_True.
    + unfold q2. by rewrite unused_of_set, decide_False.
  - intros p'. unfold broken_up. change (class_of (set_unused p (unused_of q p ++ minis p 0 c) c q) p' =
      class_of (set_unused p (unused_of q2 p ++ minis p 0 c) c q2) p').
    rewrite !class_of_set. destruct (decide (p = p')) as [<-|Hne]; [done|]. unfold q2. by rewrite class_of_set, decide_False.
Qed.

Lemma pins_ok_ext q q' res res' :
  emptyFullPages q' = emptyFullPages q -> (forall p, pins q' p = pins q p) -> lastUsed q' = lastUsed q ->
  lastTimeTick q' = lastTimeTick q ->
  (forall p, base p -> p ∉ emptyFullPages q -> pinned_count res' (constituents q' p) = pinned_count res (constituents q p)) ->
  pins_ok q res -> pins_ok q' res'.
Proof.
  intros E1 E2 E3 E4 E5 [H1 H2 H3 H4]. split; rewrite ?E1, ?E3, ?E4; try done.
  - intros p Hb Hf. rewrite E2, E5 by done. by apply H1.
  - intros p Hb Hf. rewrite E2, E5 by done. by apply H2.
  - intros p t. rewrite E2. apply H3.
Qed.
Lemma pins_break q res l p c m :
  slots_ok q res -> pins_ok q res -> emptyFullPages q = l ++ [p] -> pins_ok (broken_up p l c m q) res.
Proof.
  intros Hs [H1 H2 H3 H4] E. destruct (slots_pop_full _ _ _ _ Hs E) as (_ & Hb & Hp & Hcs & Hu).
  assert (Hnp : forall p', p' ∉ l -> p' <> p -> p' ∉ emptyFullPages q).
  { intros p' Hl Hne. rewrite E. intros [?|?%list_elem_of_singleton]%elem_of_app; done. }
  assert (Ep : forall p', pins (broken_up p l c m q) p' = if decide (p = p') then 0 else pins q p').
  { intros p'. exact (pins_set q p 0 p'). }
  split; cbn [emptyFullPages lastUsed lastTimeTick broken_up set_emptyFullPages set_pins set_numPinned set_unused set_unusedMiniPages set_emptyMini set_emptyMiniPages]; try done.
  - intros p' Hb' Hf' Hp'. rewrite Ep in *. change (constituents _ p') with (constituents q p').
    destruct (decide (p = p')) as [<-|Hne]; [by rewrite Hcs|]. apply H1; try done. by apply Hnp.
  - intros p' Hb' Hf' Hp'. rewrite Ep in *. change (constituents _ p') with (constituents q p').
    destruct (decide (p = p')) as [<-|Hne]; [lia|]. apply H2; try done. by apply Hnp.
  - intros p' t Hin. destruct (H3 _ _ Hin) as (? & Hf & ? & ?). rewrite E in Hf. apply not_elem_of_app in Hf as [? Hne].
    split_and!; try done; [|lia..]. rewrite Ep. destruct (decide (p = p')) as [<-|]; [|done]. exfalso. apply Hne. by apply list_elem_of_singleton.
Qed.

(** Freezing the size of a page that has a full page. *)
Definition frozen_pool (a : Z) (c : nat) (m : list Z) (q : pool) : pool :=
  set_unused a (unused_of q a ++ minis a (page_bytes c) c) c (set_emptyMini c (m ++ minis a (page_bytes c) c) q).
Lemma full_page_alone q res me a b : slots_ok q res -> res me = Some (a, n, b) ->
  full_of a = a /\ unused_of q a = [] /\ constituents q a = [me].
Proof.
  intros H Hr. destruct (sl_res _ _ H _ _ _ _ Hr) as (Hb & Hf & Hc & _ & Hd & Hu). pose proof (full_of_full a Hd) as Ea.
  rewrite Ea in *. split_and!; [done| |].
  - destruct (unused_of q a) as [|x l] eqn:E; [done|]. exfalso.
    assert (Hx : x ∈ unused_of q a) by (rewrite E; by left). destruct (sl_unused _ _ H _ _ Hx) as (Fx & Dx & _).
    rewrite Hc in Dx. rewrite full_of_full in Fx by done. subst x. apply Hu. by left.
  - assert (Hin : me ∈ constituents q a) by (apply (sl_const _ _ H); eauto 6).
    assert (Hall : forall k, k ∈ constituents q a -> k = me).
    { intros k Hk. apply (sl_const _ _ H) in Hk as (a' & c' & b' & Hk & Fk).
      destruct (sl_res _ _ H _ _ _ _ Hk) as (_ & _ & Hc' & _ & Hd' & _). rewrite Fk, Hc in Hc'. subst c'.
      rewrite full_of_full in Fk by done. subst a'. by eapply (sl_inj _ _ H). }
    pose proof (sl_const_nodup _ _ H a) as Hnd. destruct (constituents q a) as [|k l]; [by apply elem_of_nil in Hin|].
    rewrite (Hall k) in * by by left. destruct l as [|k' l]; [done|]. exfalso. apply NoDup_cons in Hnd as [Hk _]. apply Hk.
    rewrite (Hall k') by (right; by left). by left.
Qed.
Lemma slots_freeze q res me a b c m :
  slots_ok q res -> res me = Some (a, n, b) -> (c <= n)%nat -> emptyMini q c = Some m ->
  slots_ok (frozen_pool a c m q) (upd res me (Some (a, c, b))).
Proof.
  intros H Hr Hc Hm. destruct (full_page_alone _ _ _ _ _ H Hr) as (Ea & Hu & Hcs).
  destruct (sl_res _ _ H _ _ _ _ Hr) as (Hb & Hf & Hcl & _ & Hd & _). rewrite Ea in *.
  destruct (slots_forget q res me a n b [] H Hr) as [H1 F1].
  { rewrite Ea, Hcs. simpl. by rewrite decide_True. }
  rewrite Ea in *. set (q1 := set_constituents a [] q) in *.
  assert (H2 : slots_ok (set_unused a [] c q1) (upd res me None)).
  { apply slots_reclass; [done| |done]. unfold q1. by rewrite constituents_set, decide_True. }
  set (q2 := set_unused a [] c q1) in *.
  assert (Hdc : (page_bytes c | a)) by (etrans; [|exact Hd]; by apply page_bytes_divide).
  assert (F2 : free_slot q2 (upd res me None) a c).
  { destruct F1 as (_ & _ & _ & _ & _ & _ & F). unfold free_slot. rewrite Ea. split_and!; try done.
    - unfold q2. by rewrite class_of_set, decide_True.
    - unfold q2. rewrite unused_of_set, decide_True by done. apply not_elem_of_nil. }
  pose proof (slots_register q2 _ me a c b H2 F2 (upd_same _ _ _)) as H3. rewrite Ea in H3.
  assert (H4 : slots_ok (set_unused a [] c q) (upd res me (Some (a, c, b)))).
  { assert (Er : forall k, upd (upd res me None) me (Some (a, c, b)) k = upd res me (Some (a, c, b)) k).
    { intros k. unfold upd. by destruct (decide (k = me)). }
    assert (H3' : slots_ok (set_unused a [] c q) (upd (upd res me None) me (Some (a, c, b)))).
    { eapply slots_ok_ext; [..|exact H3]; try done. intros p. rewrite constituents_set.
      change (constituents (set_unused a [] c q) p) with (constituents q p).
      change (constituents q2 ?p) with (constituents q1 p). unfold q1. rewrite !constituents_set.
      destruct (decide (a = p)) as [<-|]; [by rewrite Hcs, decide_True|done]. }
    by eapply slots_ok_res, H3'. }
  assert (H5 : slots_ok (set_unused a (unused_of (set_unused a [] c q) a ++ minis a (page_bytes c) c) c
    (set_emptyMini c (m ++ minis a (page_bytes c) c) (set_unused a [] c q))) (upd res me (Some (a, c, b)))).
  { apply slots_add; try done.
    - by rewrite class_of_set, decide_True.
    - by apply NoDup_minis.
    - intros x Hx. destruct (minis_ok a (page_bytes c) c x) as [Fx Dx]; try done.
      { pose proof (page_bytes_pos c ltac:(lia)). lia. }
      split_and!; try done.
      + rewrite unused_of_set, decide_True by done. apply not_elem_of_nil.
      + apply elem_of_minis in Hx as (k & Hk & Ex & _); [|done]. pose proof (page_bytes_pos c ltac:(lia)).
        intros k' c' b'. unfold upd. destruct (decide (k' = me)) as [->|Hne]; [intros [= E]; nia|]. intros Hr'.
        assert (Hin : k' ∈ constituents q a) by (apply (sl_const _ _ H); eauto 6).
        rewrite Hcs in Hin. by apply list_elem_of_singleton in Hin. }
  eapply slots_ok_ext; [..|exact H5]; try done; intros p'; unfold frozen_pool.
  - rewrite !unused_of_set. destruct (decide (a = p')) as [<-|Hne]; [by rewrite decide_True, Hu|].
    change (unused_of q p' = unused_of (set_unused a [] c q) p'). by rewrite unused_of_set, decide_False.
  - rewrite !class_of_set. destruct (decide (a = p')) as [<-|Hne]; [done|].
    change (class_of q p' = class_of (set_unused a [] c q) p'). by rewrite class_of_set, decide_False.
Qed.

(** A page that goes takes its pin with it. *)
Definition forget_pool (me : nat) (p : Z) (pin : bool) (l : list nat) (q : pool) : pool :=
  set_pins p (pins q p - if pin then 1 else 0) (set_constituents p l q).
Lemma pins_forget q res me a c b l :
  slots_ok q res -> pins_ok q res -> res me = Some (a, c, b) -> erase_first me (constituents q (full_of a)) = Some l ->
  pins_ok (forget_pool me (full_of a) b l q) (upd res me None).
Proof.
  intros Hs [H1 H2 H3 H4] Hr Hl. set (p := full_of a) in *.
  destruct (sl_res _ _ Hs _ _ _ _ Hr) as (Hb & Hf & _).
  pose proof (erase_first_Permutation _ _ _ Hl) as Hperm. pose proof (sl_const_nodup _ _ Hs p) as Hnd.
  rewrite Hperm in Hnd. apply NoDup_cons in Hnd as [Hml Hnd].
  assert (Hcount : pinned_count res (constituents q p) = (if b then 1 else 0) + pinned_count (upd res me None) l).
  { rewrite (pinned_count_perm _ _ _ Hperm). simpl. rewrite Hr, pinned_count_upd_out by done. by destruct b. }
  assert (Hother : forall p', p' <> p -> pinned_count (upd res me None) (constituents q p') = pinned_count res (constituents q p')).
  { intros p' Hne. apply pinned_count_upd_out. intros Hin. apply (sl_const _ _ Hs) in Hin as (a' & c' & b' & Hr' & Hf'). by simplify_eq. }
  pose proof (pinned_count_nonneg (upd res me None) l) as Hnn.
  assert (Ep : forall p', pins (forget_pool me p b l q) p' = if decide (p = p') then pins q p - (if b then 1 else 0) else pins q p').
  { intros p'. exact (pins_set (set_constituents p l q) p _ p'). }
  assert (Ec : forall p', constituents (forget_pool me p b l q) p' = if decide (p = p') then l else constituents q p').
  { intros p'. exact (constituents_set q p l p'). }
  assert (Hcase : (0 <= pins q p /\ 0 <= pins q p - (if b then 1 else 0)) \/ (pins q p < 0 /\ b = false)).
  { destruct (Z.lt_ge_cases (pins q p) 0) as [Hneg|Hpos].
    - right. split; [done|]. destruct (H2 p Hb Hf Hneg) as [_ E]. destruct b; [lia|done].
    - left. rewrite (H1 p Hb Hf Hpos), Hcount. destruct b; lia. }
  split; cbn [emptyFullPages lastUsed lastTimeTick forget_pool set_pins set_numPinned set_constituents set_constituentPages].
  - intros p' Hb' Hf' Hp'. rewrite Ep, Ec in *. destruct (decide (p = p')) as [<-|Hne]; [|rewrite Hother by done; by apply H1].
    destruct Hcase as [[Hp0 _]|[Hp0 ->]]; [rewrite (H1 p Hb Hf Hp0), Hcount; destruct b; lia|lia].
  - intros p' Hb' Hf' Hp'. rewrite Ep, Ec in *. destruct (decide (p = p')) as [<-|Hne]; [|rewrite Hother by done; by apply H2].
    destruct Hcase as [[_ Hp0]|[Hp0 ->]]; [lia|]. rewrite Z.sub_0_r. destruct (H2 p Hb Hf Hp0) as [? E]. split; [done|]. lia.
  - intros p' t Hin. destruct (H3 _ _ Hin) as (? & ? & ? & ?). split_and!; try done; [|lia..]. rewrite Ep.
    destruct (decide (p = p')) as [<-|]; [|done]. destruct Hcase as [[? ?]|[? ->]]; lia.
  - done.
Qed.

(** A full page that becomes empty leaves the queue. *)
Lemma pins_free_full q q' res p :
  pins_ok q res -> base p -> p ∉ emptyFullPages q -> lastTimeTick q < 2 ^ 32 ->
  emptyFullPages q' = emptyFullPages q ++ [p] -> (forall p', p' <> p -> pins q' p' = pins q p') ->
  lastUsed q' = (if pins q p <? 0 then lru_erase (u32 (- pins q p)) (lastUsed q) else lastUsed q) ->
  lastTimeTick q' = lastTimeTick q -> (forall p', constituents q' p' = constituents q p') ->
  pins_ok q' res.
Proof.
  intros [H1 H2 H3 H4] Hb Hf Ht E1 E2 E3 E4 E5.
  assert (Hlru : forall p' t, (p', t) ∈ lastUsed q' <-> (p', t) ∈ lastUsed q /\ p' <> p).
  { intros p' t. rewrite E3. destruct (Z.ltb_spec (pins q p) 0) as [Hneg|Hpos].
    - destruct (H2 p Hb Hf Hneg) as [Hin _]. destruct (H3 _ _ Hin) as (_ & _ & _ & Htick).
      assert (Hu : u32 (- pins q p) = - pins q p) by (unfold u32, wrapu; apply Z.mod_small; lia).
      rewrite elem_of_lru_erase, Hu. simpl. split; intros [Hx Hne]; (split; [done|]).
      + intros ->. destruct (H3 _ _ Hx) as (_ & _ & E & _). lia.
      + intros ->. apply Hne. by eapply tick_owner.
    - split; [|tauto]. intros Hx. split; [done|]. intros ->. destruct (H3 _ _ Hx) as (_ & _ & E & ?). lia. }
  assert (Hin' : forall p', p' ∉ emptyFullPages q' -> p' ∉ emptyFullPages q /\ p' <> p).
  { intros p'. rewrite E1, not_elem_of_app, list_elem_of_singleton. tauto. }
  split.
  - intros p' Hb' [Hf' Hne]%Hin'. rewrite E2, E5 by done. by apply H1.
  - intros p' Hb' [Hf' Hne]%Hin'. rewrite E2, E5 by done. intros Hp. destruct (H2 p' Hb' Hf' Hp) as [? ?].
    split; [|done]. by apply Hlru.
  - intros p' t [Hx Hne]%Hlru. destruct (H3 _ _ Hx) as (? & ? & ? & ?). rewrite E1, E2, E4, not_elem_of_app, list_elem_of_singleton by done.
    split_and!; try done; lia.
  - rewrite E3. destruct (pins q p <? 0); [by apply lru_erase_ticks|done].
Qed.

(** The pages on an evicted full page lose their memory. *)
Definition evicted_res (p : Z) (res : residence) : residence := fun k =>
  match res k with Some (a, c, b) => if decide (full_of a = p) then None else Some (a, c, b) | None => None end.
Lemma slots_clear q res p :
  slots_ok q res -> slots_ok (set_constituents p [] q) (evicted_res p res).
Proof.
  intros H. destruct H.
  assert (Hres : forall k a c b, evicted_res p res k = Some (a, c, b) -> res k = Some (a, c, b) /\ full_of a <> p).
  { intros k a c b. unfold evicted_res. destruct (res k) as [[[a' c'] b']|]; [|done]. destruct (decide (full_of a' = p)); [done|].
    by intros [= <- <- <-]. }
  split; try done.
  - intros p' Hp. destruct (sl_full0 _ Hp) as (? & Hc & ?). split_and!; try done. rewrite constituents_set. by destruct (decide (p = p')).
  - intros p' k. rewrite constituents_set. destruct (decide (p = p')) as [<-|Hne].
    + split; [by intros ?%elem_of_nil|]. intros (a & c & b & H & Hf). by apply Hres in H as [_ ?].
    + rewrite sl_const0. split; intros (a & c & b & H & Hf); exists a, c, b; (split; [|done]).
      * unfold evicted_res. rewrite H, decide_False by congruence. done.
      * by apply Hres in H as [? _].
  - intros p'. rewrite constituents_set. destruct (decide (p = p')); [apply NoDup_nil_2|done].
  - intros k a c b H. apply Hres in H as [H _]. by apply sl_res0 in H.
  - intros k1 k2 a c1 c2 b1 b2 [H1 _]%Hres [H2 _]%Hres. by eapply sl_inj0.
Qed.
Lemma pins_evict q q' res p t rest :
  slots_ok q res -> pins_ok q res -> lastUsed q = (p, t) :: rest ->
  emptyFullPages q' = emptyFullPages q ++ [p] -> (forall p', p' <> p -> pins q' p' = pins q p') ->
  lastUsed q' = rest -> lastTimeTick q' = lastTimeTick q ->
  (forall p', p' <> p -> constituents q' p' = constituents q p') ->
  pins_ok q' (evicted_res p res).
Proof.
  intros Hs [H1 H2 H3 H4] E0 E1 E2 E3 E4 E5.
  destruct (H3 p t) as (Hb & Hf & Hp & Ht); [rewrite E0; by left|].
  rewrite E0 in H4. simpl in H4. apply NoDup_cons in H4 as [Htick Hnd].
  assert (Hrest : forall p' t', (p', t') ∈ rest -> p' <> p).
  { intros p' t' Hx ->. destruct (H3 p t') as (_ & _ & Hp' & _); [rewrite E0; by right|]. apply Htick.
    apply (list_elem_of_fmap_2 snd rest (p, t')) in Hx. simpl in Hx. by replace t with t' by lia. }
  assert (Hin' : forall p', p' ∉ emptyFullPages q' -> p' ∉ emptyFullPages q /\ p' <> p).
  { intros p'. rewrite E1, not_elem_of_app, list_elem_of_singleton. tauto. }
  assert (Hc : forall p', p' <> p -> pinned_count (evicted_res p res) (constituents q' p') = pinned_count res (constituents q p')).
  { intros p' Hne. rewrite E5 by done. apply pinned_count_ext. intros k Hk.
    apply (sl_const _ _ Hs) in Hk as (a & c & b & Hr & Hfa). unfold evicted_res. rewrite Hr, decide_False by congruence. done. }
  split.
  - intros p' Hb' [Hf' Hne]%Hin'. rewrite E2, Hc by done. by apply H1.
  - intros p' Hb' [Hf' Hne]%Hin'. rewrite E2, Hc by done. intros Hp'. destruct (H2 p' Hb' Hf' Hp') as [Hx ?]. split; [|done].
    rewrite E3. rewrite E0 in Hx. apply elem_of_cons in Hx as [[= ? ?]|]; [by subst|done].
  - intros p' t'. rewrite E3. intros Hx. pose proof (Hrest _ _ Hx) as Hne.
    destruct (H3 p' t') as (? & ? & ? & ?); [rewrite E0; by right|]. rewrite E1, E2, E4, not_elem_of_app, list_elem_of_singleton by done.
    split_and!; try done; lia.
  - by rewrite E3.
Qed.

(** No page on the full page at the head of the queue is pinned. *)
Lemma lru_unpinned q res p t rest me a c b :
  slots_ok q res -> pins_ok q res -> lastUsed q = (p, t) :: rest -> res me = Some (a, c, b) -> full_of a = p -> b = false.
Proof.
  intros Hs [H1 H2 H3 H4] E Hr Hf. destruct (H3 p t) as (Hb & Hfp & Hp & Ht); [rewrite E; by left|].
  destruct (H2 p Hb Hfp ltac:(lia)) as [_ Hc]. destruct b; [|done]. exfalso.
  assert (0 < pinned_count res (constituents q p)); [|lia].
  apply (pinned_count_in res me); [apply (sl_const _ _ Hs); eauto 6|]. unfold is_pinned. by rewrite Hr.
Qed.
End pool.
