(* ===== verification/BufferManagerInv.v ===== *)
(** Regions of files, the invariant of the buffer manager, and the bytes of a
    page wherever they are. *)

From S2P Require Import Prelude BufferManager BufferManagerPool.

Open Scope Z_scope.

Lemma blit_in dst dpos src spos len k : 0 <= k < len -> blit dst dpos src spos len (dpos + k) = src (spos + k).
Proof.
  intros Hk. unfold blit. rewrite (proj2 (Z.leb_le _ _)), (proj2 (Z.ltb_lt _ _)) by lia. simpl. f_equal. lia.
Qed.
Lemma blit_out dst dpos src spos len x : x < dpos \/ dpos + len <= x -> blit dst dpos src spos len x = dst x.
Proof.
  intros Hx. unfold blit. destruct (Z.leb_spec dpos x); [|done]. destruct (Z.ltb_spec x (dpos + len)); [lia|done].
Qed.

Definition apart (p1 : Z) (c1 : nat) (p2 : Z) (c2 : nat) : Prop := p1 + page_bytes c1 <= p2 \/ p2 + page_bytes c2 <= p1.
Lemma apart_sym p1 c1 p2 c2 : apart p1 c1 p2 c2 -> apart p2 c2 p1 c1.
Proof. unfold apart. tauto. Qed.

Section regions.
Context (n : nat) (Hn : (n <= 11)%nat).

(** [T] gives the regions of pages; [avail] those of each class to be had. *)
Record temp_ok (T : nat -> option (Z * nat)) (avail : list (list Z)) (top : Z) : Prop := {
  te_length : length avail = S n;
  te_top : 0 <= top;
  te_page me p c : T me = Some (p, c) -> 0 <= p /\ p + page_bytes c <= top /\ (c <= n)%nat;
  te_free c l p : avail !! c = Some l -> p ∈ l -> 0 <= p /\ p + page_bytes c <= top;
  te_pages me1 me2 p1 c1 p2 c2 : T me1 = Some (p1, c1) -> T me2 = Some (p2, c2) -> me1 <> me2 -> apart p1 c1 p2 c2;
  te_page_free me p1 c1 c2 l p2 : T me = Some (p1, c1) -> avail !! c2 = Some l -> p2 ∈ l -> apart p1 c1 p2 c2;
  te_frees c1 l1 i p1 c2 l2 j p2 : avail !! c1 = Some l1 -> l1 !! i = Some p1 -> avail !! c2 = Some l2 -> l2 !! j = Some p2 ->
    (c1, i) <> (c2, j) -> apart p1 c1 p2 c2
}.

Definition upd_region (T : nat -> option (Z * nat)) (me : nat) (x : option (Z * nat)) : nat -> option (Z * nat) :=
  fun k => if decide (k = me) then x else T k.

(** Fewer pages, or smaller ones. *)
Lemma temp_ok_less T T' avail top :
  temp_ok T avail top ->
  (forall me p c, T' me = Some (p, c) -> exists c0, T me = Some (p, c0) /\ (c <= c0)%nat) -> temp_ok T' avail top.
Proof.
  intros [] Hless. assert (Hle : forall c c0, (c <= c0)%nat -> (c0 <= n)%nat -> page_bytes c <= page_bytes c0).
  { intros. apply page_bytes_mono; lia. }
  split; try done.
  - intros me p c H. destruct (Hless _ _ _ H) as (c0 & H0 & Hc). destruct (te_page0 _ _ _ H0) as (? & ? & ?).
    specialize (Hle c c0 Hc ltac:(lia)). split_and!; [lia..].
  - intros me1 me2 p1 c1 p2 c2 H1 H2 Hne. destruct (Hless _ _ _ H1) as (d1 & H1' & Hd1), (Hless _ _ _ H2) as (d2 & H2' & Hd2).
    destruct (te_page0 _ _ _ H1') as (_ & _ & ?), (te_page0 _ _ _ H2') as (_ & _ & ?).
    pose proof (Hle c1 d1 Hd1 ltac:(lia)). pose proof (Hle c2 d2 Hd2 ltac:(lia)).
    destruct (te_pages0 _ _ _ _ _ _ H1' H2' Hne); [left|right]; lia.
  - intros me p1 c1 c2 l p2 H1 Hl Hp. destruct (Hless _ _ _ H1) as (d1 & H1' & Hd1).
    destruct (te_page0 _ _ _ H1') as (_ & _ & ?). pose proof (Hle c1 d1 Hd1 ltac:(lia)).
    destruct (te_page_free0 _ _ _ _ _ _ H1' Hl Hp); [left|right]; lia.
Qed.

(** A page gets a region at the end of the file, or one that is available. *)
Lemma temp_new T avail top me c :
  temp_ok T avail top -> (c <= n)%nat -> temp_ok (upd_region T me (Some (top, c))) avail (top + page_bytes c).
Proof.
  intros [] Hc. pose proof (page_bytes_pos c ltac:(lia)) as Hpos. unfold upd_region. split; try done.
  - lia.
  - intros k p c'. destruct (decide (k = me)); [intros [= <- <-]; lia|]. intros H. specialize (te_page0 _ _ _ H). lia.
  - intros c' l p Hl Hp. specialize (te_free0 _ _ _ Hl Hp). lia.
  - intros k1 k2 p1 c1 p2 c2. destruct (decide (k1 = me)) as [->|], (decide (k2 = me)) as [->|]; try done.
    + intros [= <- <-] H _. specialize (te_page0 _ _ _ H). right. lia.
    + intros H [= <- <-] _. specialize (te_page0 _ _ _ H). left. lia.
    + by apply te_pages0.
  - intros k p1 c1 c2 l p2. destruct (decide (k = me)); [|by apply te_page_free0]. intros [= <- <-] Hl Hp.
    specialize (te_free0 _ _ _ Hl Hp). right. lia.
Qed.
Lemma temp_reuse T avail top me c l p :
  temp_ok T avail top -> (c <= n)%nat -> avail !! c = Some (l ++ [p]) ->
  temp_ok (upd_region T me (Some (p, c))) (<[c := l]> avail) top.
Proof.
  intros [] Hc Hl. assert (Hlen : (c < length avail)%nat) by (rewrite te_length0; lia).
  assert (Hin : p ∈ l ++ [p]) by (apply elem_of_app; right; by apply list_elem_of_singleton).
  assert (Hsub : forall c' l', <[c := l]> avail !! c' = Some l' ->
    exists l0, avail !! c' = Some l0 /\ (forall i x, l' !! i = Some x -> l0 !! i = Some x /\ (c', i) <> (c, length l))).
  { intros c' l'. destruct (decide (c = c')) as [<-|Hne].
    - rewrite list_lookup_insert_eq by done. intros [= <-]. exists (l ++ [p]). split; [done|]. intros i x Hi.
      split; [by apply lookup_app_l_Some|]. apply lookup_lt_Some in Hi. intros [= ->]. lia.
    - rewrite list_lookup_insert_ne by done. intros H. exists l'. split; [done|]. intros i x Hi. split; [done|]. congruence. }
  assert (Hlast : (l ++ [p]) !! length l = Some p) by (rewrite lookup_app_r by lia; by rewrite Nat.sub_diag).
  unfold upd_region. split; try done.
  - by rewrite length_insert.
  - intros k p' c'. destruct (decide (k = me)); [intros [= <- <-]|by apply te_page0].
    destruct (te_free0 _ _ _ Hl Hin). split_and!; try done.
  - intros c' l' p' H Hp'. apply list_elem_of_lookup in Hp' as [i Hi]. destruct (Hsub _ _ H) as (l0 & H0 & Hi0).
    apply (te_free0 _ l0 _ H0). apply list_elem_of_lookup. exists i. by apply Hi0.
  - intros k1 k2 p1 c1 p2 c2. destruct (decide (k1 = me)) as [->|], (decide (k2 = me)) as [->|]; try done.
    + intros [= <- <-] H _. apply apart_sym. by eapply te_page_free0.
    + intros H [= <- <-] _. by eapply te_page_free0.
    + by apply te_pages0.
  - intros k p1 c1 c2 l' p2 H1 H2 Hp2. apply list_elem_of_lookup in Hp2 as [j Hj]. destruct (Hsub _ _ H2) as (l0 & H0 & Hi0).
    destruct (Hi0 _ _ Hj) as [Hj0 Hne]. destruct (decide (k = me)).
    + injection H1 as <- <-. eapply te_frees0; [exact Hl|exact Hlast|exact H0|exact Hj0|congruence].
    + eapply te_page_free0; [exact H1|exact H0|]. apply list_elem_of_lookup. by exists j.
  - intros c1 l1 i p1 c2 l2 j p2 H1 Hi H2 Hj Hne. destruct (Hsub _ _ H1) as (m1 & H1' & Hi1), (Hsub _ _ H2) as (m2 & H2' & Hi2).
    eapply te_frees0; [exact H1'|by apply Hi1|exact H2'|by apply Hi2|done].
Qed.
(** The region of a page that goes is available. *)
Lemma temp_free T avail top me c l p :
  temp_ok T avail top -> T me = Some (p, c) -> avail !! c = Some l ->
  temp_ok (upd_region T me None) (<[c := l ++ [p]]> avail) top.
Proof.
  intros [] HT Hl. assert (Hlen : (c < length avail)%nat) by by apply lookup_lt_Some in Hl.
  destruct (te_page0 _ _ _ HT) as (Hp0 & Hp1 & Hc).
  assert (Hsub : forall c' l' i x, <[c := l ++ [p]]> avail !! c' = Some l' -> l' !! i = Some x ->
    (exists l0, avail !! c' = Some l0 /\ l0 !! i = Some x) \/ (x = p /\ c' = c /\ i = length l)).
  { intros c' l' i x. destruct (decide (c = c')) as [<-|Hne].
    - rewrite list_lookup_insert_eq by done. intros [= <-] Hi. apply lookup_app_Some in Hi as [Hi|[Hge Hi]]; [left; eauto|].
      right. apply list_lookup_singleton_Some in Hi as [? ?]. split_and!; [done..|lia].
    - rewrite list_lookup_insert_ne by done. eauto. }
  assert (Hfree : forall c' l' i x, avail !! c' = Some l' -> l' !! i = Some x -> apart p c x c').
  { intros c' l' i x H Hi. eapply te_page_free0; [exact HT|exact H|]. apply list_elem_of_lookup. by exists i. }
  unfold upd_region. split; try done.
  - by rewrite length_insert.
  - intros k p' c'. destruct (decide (k = me)); [done|by apply te_page0].
  - intros c' l' p' H Hp'. apply list_elem_of_lookup in Hp' as [i Hi].
    destruct (Hsub _ _ _ _ H Hi) as [(l0 & H0 & Hi0)|(-> & -> & ->)]; [|lia].
    apply (te_free0 _ l0 _ H0). apply list_elem_of_lookup. by exists i.
  - intros k1 k2 p1 c1 p2 c2. destruct (decide (k1 = me)), (decide (k2 = me)); try done. by apply te_pages0.
  - intros k p1 c1 c2 l' p2. destruct (decide (k = me)); [done|]. intros H1 H2 Hp2. apply list_elem_of_lookup in Hp2 as [j Hj].
    destruct (Hsub _ _ _ _ H2 Hj) as [(l0 & H0 & Hj0)|(-> & -> & ->)]; [|by eapply te_pages0].
    eapply te_page_free0; [exact H1|exact H0|]. apply list_elem_of_lookup. by exists j.
  - intros c1 l1 i p1 c2 l2 j p2 H1 Hi H2 Hj Hne.
    destruct (Hsub _ _ _ _ H1 Hi) as [(m1 & H1' & Hi')|(-> & -> & ->)], (Hsub _ _ _ _ H2 Hj) as [(m2 & H2' & Hj')|(-> & -> & ->)].
    + by eapply te_frees0.
    + apply apart_sym. by eapply Hfree.
    + by eapply Hfree.
    + done.
Qed.

(** The files of sets. *)
Record file_ok (locs : gmap set_key PDBPageInfo) (ends : gmap PDBSet Z) : Prop := {
  fi_end t : 0 <= default 0 (ends !! t);
  fi_in t i info : locs !! (t, i) = Some info ->
    0 <= startPos info /\ startPos info + page_bytes (numBytes info) <= default 0 (ends !! t) /\ (numBytes info <= n)%nat;
  fi_apart t i j x y : locs !! (t, i) = Some x -> locs !! (t, j) = Some y -> i <> j ->
    apart (startPos x) (numBytes x) (startPos y) (numBytes y)
}.
Lemma file_new locs ends t i c :
  file_ok locs ends -> locs !! (t, i) = None -> (c <= n)%nat -> let e := default 0 (ends !! t) in
  file_ok (<[(t, i) := mkInfo e c]> locs) (<[t := e + page_bytes c]> ends).
Proof.
  intros [] Hnew Hc e. pose proof (page_bytes_pos c ltac:(lia)) as Hpos. pose proof (fi_end0 t) as He. fold e in He.
  assert (Hend : forall t', default 0 (ends !! t') <= default 0 (<[t := e + page_bytes c]> ends !! t')).
  { intros t'. destruct (decide (t = t')) as [<-|]; [rewrite lookup_insert_eq; simpl; fold e; lia|by rewrite lookup_insert_ne]. }
  split.
  - intros t'. etrans; [apply fi_end0|apply Hend].
  - intros t' j info. destruct (decide ((t, i) = (t', j))) as [E|Hne].
    + injection E as <- <-. rewrite !lookup_insert_eq. intros [= <-]. simpl. fold e. lia.
    + rewrite lookup_insert_ne by done. intros H. destruct (fi_in0 _ _ _ H) as (? & ? & ?). pose proof (Hend t'). lia.
  - intros t' j1 j2 x y. destruct (decide ((t, i) = (t', j1))) as [E1|Hne1], (decide ((t, i) = (t', j2))) as [E2|Hne2].
    + congruence.
    + injection E1 as <- <-. rewrite lookup_insert_eq, lookup_insert_ne by done. intros [= <-] H _. destruct (fi_in0 _ _ _ H) as (? & ? & ?).
      right. subst e. simpl. lia.
    + injection E2 as <- <-. rewrite lookup_insert_eq, lookup_insert_ne by done. intros H [= <-] _.
      destruct (fi_in0 _ _ _ H) as (? & ? & ?). left. subst e. simpl. lia.
    + rewrite !lookup_insert_ne by done. by apply fi_apart0.
Qed.
End regions.

(** ** What is stored *)

(** An anonymous page lives as long as there are references, a page of a set as
    long as allPages has it. *)
Definition live (s : buffer_manager) (me : nat) (pg : PDBPage) : bool :=
  if isAnon pg then negb (refCount pg =? 0)
  else match whichSet pg with Some t => bool_decide (allPages s !! (t, pageNum pg) = Some me) | None => false end.
Definition on_live {A} (f : PDBPage -> option A) (s : buffer_manager) (me : nat) : option A :=
  match page_objects s !! me with Some pg => if live s me pg then f pg else None | None => None end.

Definition residence_of (pg : PDBPage) : option (Z * nat * bool) :=
  match bytes pg with Some a => Some (a, numBytes (location pg), pinned pg) | None => None end.
Definition region_of (pg : PDBPage) : option (Z * nat) :=
  if isAnon pg && negb (startPos (location pg) =? -1) then Some (startPos (location pg), numBytes (location pg)) else None.
Definition res_of : buffer_manager -> residence := on_live residence_of.
Definition temp_of : buffer_manager -> nat -> option (Z * nat) := on_live region_of.

(** A byte of a page as its file has it. *)
Definition disk_byte (d : disk) (pg : PDBPage) (k : Z) : Z :=
  if isAnon pg then temp_file d (startPos (location pg) + k)
  else match whichSet pg with Some t => set_file d (file_of t) (startPos (location pg) + k) | None => 0 end.

(** What can be asked for: an anonymous page by its handle, a page of a set by
    its number; the answer is a size class and the bytes, in memory or on disk.
    A page without memory that is dirty is about to get its first bytes. *)
Inductive object := OAnon (me : nat) | OSet (key : set_key).
#[export] Instance object_eq_dec : EqDecision object.
Proof. solve_decision. Defined.
Definition page_view (s : buffer_manager) (pg : PDBPage) : option (nat * image) :=
  match bytes pg with
  | Some a => Some (numBytes (location pg), fun k => ram s (a + k))
  | None => if dirty pg then None else Some (numBytes (location pg), disk_byte (storage s) pg)
  end.
Definition view (s : buffer_manager) (o : object) : option (nat * image) :=
  match o with
  | OAnon me => match page_objects s !! me with
                | Some pg => if isAnon pg && live s me pg then page_view s pg else None
                | None => None
                end
  | OSet key =>
      match allPages s !! key with
      | Some me => match page_objects s !! me with Some pg => page_view s pg | None => None end
      | None => match pageLocations (storage s) !! key with
                | Some info => Some (numBytes info, fun k => set_file (storage s) (file_of key.1) (startPos info + k))
                | None => None
                end
      end
  end.

Definition same_bytes (c : nat) (f g : image) : Prop := forall k, 0 <= k < page_bytes c -> g k = f k.
(** Everything there was is still there, with the same bytes. *)
Definition kept (s s' : buffer_manager) : Prop :=
  forall o c f, view s o = Some (c, f) -> exists f', view s' o = Some (c, f') /\ same_bytes c f f'.

Lemma kept_refl s : kept s s.
Proof. intros o c f H. exists f. by split. Qed.
Lemma kept_trans s1 s2 s3 : kept s1 s2 -> kept s2 s3 -> kept s1 s3.
Proof.
  intros H1 H2 o c f H. destruct (H1 _ _ _ H) as (f1 & V1 & E1). destruct (H2 _ _ _ V1) as (f2 & V2 & E2).
  exists f2. split; [done|]. intros k Hk. by rewrite (E2 k Hk), (E1 k Hk).
Qed.

(** ** The invariant *)

Definition classes (s : buffer_manager) : nat := Z.to_nat (logOfPageSize s).
Record config_ok (s : buffer_manager) : Prop := {
  co_init : initialized s = true;
  co_log : 0 <= logOfPageSize s <= 11;
  co_size : pageSize s = page_bytes (classes s)
}.

Definition loading (pg : PDBPage) : Prop := status pg = PDB_PAGE_LOADING.
Record page_ok (s : buffer_manager) (pg : PDBPage) : Prop := {
  ok_class : (numBytes (location pg) <= classes s)%nat;
  ok_pinned : ~ loading pg -> pinned pg = true -> bytes pg <> None;
  ok_dirty : ~ loading pg -> bytes pg = None -> dirty pg = false;
  ok_anon : isAnon pg = true -> dirty pg = false -> startPos (location pg) <> -1;
  ok_set : isAnon pg = false -> exists t, whichSet pg = Some t /\ t ∈ fds (storage s) /\
    match pageLocations (storage s) !! (t, pageNum pg) with
    | Some info => location pg = info
    | None => pinned pg = true /\ dirty pg = true
    end;
  ok_copy a k : dirty pg = false -> bytes pg = Some a -> 0 <= k < getSize pg -> ram s (a + k) = disk_byte (storage s) pg k
}.

Record data_ok (s : buffer_manager) : Prop := {
  da_page me pg : page_objects s !! me = Some pg -> live s me pg = true -> page_ok s pg;
  da_all t i me : allPages s !! (t, i) = Some me ->
    exists pg, page_objects s !! me = Some pg /\ isAnon pg = false /\ whichSet pg = Some t /\ pageNum pg = i;
  da_held me pg : page_objects s !! me = Some pg -> refCount pg <> 0 -> live s me pg = true;
  da_refs me pg : page_objects s !! me = Some pg -> 0 <= refCount pg;
  da_temp : temp_ok (classes s) (temp_of s) (availablePositions (storage s)) (lastTempPos (storage s));
  da_names t u : t ∈ fds (storage s) -> u ∈ fds (storage s) -> file_of t = file_of u -> t = u;
  da_open t i info : pageLocations (storage s) !! (t, i) = Some info -> t ∈ fds (storage s);
  da_file : file_ok (classes s) (pageLocations (storage s)) (endOfFiles (storage s))
}.

(** Between two calls no page is on its way and nobody waits for space. *)
Definition idle (s : buffer_manager) : Prop :=
  (forall me pg, page_objects s !! me = Some pg -> live s me pg = true -> is_loading pg = false) /\
  isCreatingSpace (memory_pool s) = replicate (S (classes s)) false.

(** ** Changing one page *)

Definition upd_page (me : nat) (pg : PDBPage) (s : buffer_manager) : buffer_manager :=
  set_page_objects (<[me := pg]> (page_objects s)) s.

Lemma page_of_Ok s me pg : page_objects s !! me = Some pg -> page_of me s = Ok pg s.
Proof. intros H. unfold page_of, bind, get. by rewrite H. Qed.
Lemma on_page_Ok s me pg f : page_objects s !! me = Some pg -> on_page me f s = Ok tt (upd_page me (f pg) s).
Proof. intros H. unfold on_page. rewrite (bind_Ok _ _ _ _ _ (page_of_Ok _ _ _ H)). done. Qed.

Lemma upd_page_lookup s me pg k : (me < length (page_objects s))%nat ->
  page_objects (upd_page me pg s) !! k = if decide (k = me) then Some pg else page_objects s !! k.
Proof.
  intros Hl. simpl. destruct (decide (k = me)) as [->|]; [by apply list_lookup_insert_eq|by apply list_lookup_insert_ne].
Qed.

(** A page keeps its identity. *)
Definition same_page (pg pg' : PDBPage) : Prop :=
  isAnon pg' = isAnon pg /\ whichSet pg' = whichSet pg /\ pageNum pg' = pageNum pg /\ refCount pg' = refCount pg.
Lemma same_page_live s me pg pg' : same_page pg pg' -> live s me pg' = live s me pg.
Proof. intros (E1 & E2 & E3 & E4). unfold live. by rewrite E1, E2, E3, E4. Qed.

Section one_page.
Context (s : buffer_manager) (me : nat) (pg pg' : PDBPage).
Context (Hpg : page_objects s !! me = Some pg) (Hsame : same_page pg pg').

Lemma upd_lookup k : page_objects (upd_page me pg' s) !! k = if decide (k = me) then Some pg' else page_objects s !! k.
Proof. apply upd_page_lookup. by apply lookup_lt_Some in Hpg. Qed.
Lemma on_live_upd {A} (f : PDBPage -> option A) k :
  on_live f (upd_page me pg' s) k = if decide (k = me) then (if live s me pg then f pg' else None) else on_live f s k.
Proof.
  unfold on_live at 1. rewrite upd_lookup. destruct (decide (k = me)) as [->|]; [|done].
  change (live (upd_page me pg' s) me pg') with (live s me pg'). by rewrite (same_page_live s me pg pg' Hsame).
Qed.


(** The page and the files change, but not the places of the sets' pages. *)
Context (d' : disk) (Hfds : fds d' = fds (storage s)) (Hlocs : pageLocations d' = pageLocations (storage s)) (Hends : endOfFiles d' = endOfFiles (storage s)).
Let s' := set_storage d' (upd_page me pg' s).
Context (Hothers : forall k q x, k <> me -> page_objects s !! k = Some q -> live s k q = true -> dirty q = false ->
  0 <= x < getSize q -> disk_byte d' q x = disk_byte (storage s) q x).

Lemma data_ok_step :
  data_ok s -> (live s me pg = true -> page_ok (set_storage d' s) pg') ->
  temp_ok (classes s) (temp_of (upd_page me pg' s)) (availablePositions d') (lastTempPos d') ->
  data_ok s'.
Proof.
  intros [] Hok Htemp. destruct Hsame as (S1 & S2 & S3 & S4).
  assert (Hlive : forall k q, live s' k q = live s k q) by done. split; try done.
  - intros k q. change (page_objects s') with (page_objects (upd_page me pg' s)). rewrite upd_lookup, Hlive.
    destruct (decide (k = me)) as [->|Hne].
    + intros [= <-] Hl. rewrite (same_page_live s me pg pg' Hsame) in Hl. destruct (Hok Hl). by split.
    + intros Hq Hl. specialize (Hothers k q). destruct (da_page0 _ _ Hq Hl). split; try done.
      * intros Ha. destruct (ok_set0 Ha) as (t & E1 & E2 & E3). exists t. simpl. rewrite Hfds, Hlocs. done.
      * intros a x Hd Hb Hx. simpl. rewrite Hothers by done. by apply ok_copy0.
  - intros t i k H. destruct (da_all0 _ _ _ H) as (q & Hq & E1 & E2 & E3).
    change (page_objects s') with (page_objects (upd_page me pg' s)). rewrite upd_lookup.
    destruct (decide (k = me)) as [->|]; [|eauto]. simplify_eq. exists pg'. by rewrite S1, S2, S3.
  - intros k q. change (page_objects s') with (page_objects (upd_page me pg' s)). rewrite upd_lookup, Hlive.
    destruct (decide (k = me)) as [->|]; [|apply da_held0].
    intros [= <-]. rewrite S4, (same_page_live s me pg pg' Hsame). by apply da_held0.
  - intros k q. change (page_objects s') with (page_objects (upd_page me pg' s)). rewrite upd_lookup.
    destruct (decide (k = me)) as [->|]; [|apply da_refs0]. intros [= <-]. rewrite S4. by eapply da_refs0.
  - simpl. by rewrite Hfds.
  - simpl. by rewrite Hfds, Hlocs.
  - simpl. by rewrite Hlocs, Hends.
Qed.

Lemma kept_step :
  data_ok s ->
  (live s me pg = true -> forall c f, page_view s pg = Some (c, f) -> exists f', page_view (set_storage d' s) pg' = Some (c, f') /\ same_bytes c f f') ->
  (forall t i info x, pageLocations (storage s) !! (t, i) = Some info -> allPages s !! (t, i) = None ->
     0 <= x < page_bytes (numBytes info) -> set_file d' (file_of t) (startPos info + x) = set_file (storage s) (file_of t) (startPos info + x)) ->
  kept s s'.
Proof.
  intros Hd Hv Hfiles o c f. destruct Hsame as (S1 & S2 & S3 & S4).
  assert (Hview : forall k q, k <> me -> page_objects s !! k = Some q -> live s k q = true -> page_view s q = Some (c, f) ->
    exists f', page_view s' q = Some (c, f') /\ same_bytes c f f').
  { intros k q Hne Hq Hl. unfold page_view. destruct (bytes q); [intros H; by exists f|]. destruct (dirty q) eqn:Edirty; [done|].
    intros [= <- <-]. eexists. split; [done|]. intros x Hx. by apply (Hothers k). }
  destruct o as [k|key]; unfold view.
  - change (page_objects s') with (page_objects (upd_page me pg' s)). rewrite upd_lookup.
    destruct (decide (k = me)) as [->|Hne].
    + rewrite Hpg, S1. change (live s' me pg') with (live s me pg'). rewrite (same_page_live s me pg pg' Hsame).
      destruct (isAnon pg); [|done]. simpl. destruct (live s me pg) eqn:El; [|done]. by apply Hv.
    + destruct (page_objects s !! k) as [q|] eqn:Hq; [|done]. change (live s' k q) with (live s k q).
      destruct (isAnon q && live s k q) eqn:E; [|done]. apply andb_true_iff in E as [_ El]. by apply Hview with k.
  - change (allPages s') with (allPages s). destruct (allPages s !! key) as [k|] eqn:Ek.
    + destruct key as [t i]. destruct (da_all _ Hd _ _ _ Ek) as (q & Hq & E1 & E2 & E3).
      assert (El : live s k q = true) by (unfold live; rewrite E1, E2, E3; by apply bool_decide_eq_true).
      change (page_objects s') with (page_objects (upd_page me pg' s)). rewrite upd_lookup, Hq.
      destruct (decide (k = me)) as [->|Hne]; [|by apply Hview with k]. rewrite Hpg in Hq. injection Hq as <-. by apply Hv.
    + destruct key as [t i]. simpl. rewrite Hlocs. destruct (pageLocations (storage s) !! (t, i)) as [info|] eqn:Ei; [|done].
      intros [= <- <-]. eexists. split; [done|]. intros x Hx. by apply (Hfiles t i).
Qed.
End one_page.

(** Only the page changes. *)
Lemma config_classes s : config_ok s -> (classes s <= 11)%nat.
Proof. intros [_ ? _]. unfold classes. lia. Qed.
Lemma page_step s me pg pg' :
  config_ok s -> page_objects s !! me = Some pg -> same_page pg pg' -> data_ok s ->
  (live s me pg = true -> page_ok s pg') -> region_of pg' = region_of pg ->
  data_ok (upd_page me pg' s).
Proof.
  intros Hc%config_classes Hpg Hs Hd Hok Hreg. apply (data_ok_step s me pg pg' Hpg Hs (storage s)); try done.
  { intros Hl. destruct (Hok Hl). by split. }
  eapply temp_ok_less; [done|apply (da_temp _ Hd)|]. intros k p c. unfold temp_of. rewrite (on_live_upd s me pg pg') by done.
  destruct (decide (k = me)) as [->|]; [|eauto]. unfold on_live. rewrite Hpg, Hreg. eauto.
Qed.
Lemma page_kept s me pg pg' :
  page_objects s !! me = Some pg -> same_page pg pg' -> data_ok s ->
  (live s me pg = true -> forall c f, page_view s pg = Some (c, f) -> exists f', page_view s pg' = Some (c, f') /\ same_bytes c f f') ->
  kept s (upd_page me pg' s).
Proof. intros Hpg Hs Hd Hv. by apply (kept_step s me pg pg' Hpg Hs (storage s)). Qed.

(** A page of a set nobody holds and that has no memory is forgotten. *)
Lemma drop_page s t i me pg :
  config_ok s -> data_ok s -> allPages s !! (t, i) = Some me -> page_objects s !! me = Some pg -> refCount pg = 0 ->
  bytes pg = None -> dirty pg = false ->
  let s' := set_allPages (delete (t, i) (allPages s)) s in data_ok s' /\ kept s s'.
Proof.
  intros Hc%config_classes Hd Hall Hpg Hr Hb Hdirty s'. destruct (da_all _ Hd _ _ _ Hall) as (q & Hq & E1 & E2 & E3). simplify_eq.
  assert (Hall' : forall key k, allPages s' !! key = Some k -> allPages s !! key = Some k).
  { intros key k. simpl. rewrite lookup_delete_Some. tauto. }
  assert (Hlive : forall k p, live s' k p = true -> live s k p = true).
  { intros k p. unfold live. destruct (isAnon p); [done|]. destruct (whichSet p); [|done].
    rewrite !bool_decide_eq_true. apply Hall'. }
  assert (Hkeep : forall k p, page_objects s !! k = Some p -> k <> me -> live s k p = true -> live s' k p = true).
  { intros k p Hp Hne. unfold live. destruct (isAnon p); [done|]. destruct (whichSet p) as [t'|]; [|done].
    rewrite !bool_decide_eq_true. intros H. simpl. apply lookup_delete_Some. split; [|done]. intros E. rewrite <- E in H. congruence. }
  split.
  - split.
    + intros k p Hp Hl. destruct (da_page _ Hd _ _ Hp (Hlive _ _ Hl)). by split.
    + intros t' i' k H. by apply (da_all _ Hd), Hall'.
    + intros k p Hp Hr'. apply Hkeep; [done|intros ->; simpl in Hp; by simplify_eq|]. by apply (da_held _ Hd).
    + apply (da_refs _ Hd).
    + eapply temp_ok_less; [done|apply (da_temp _ Hd)|]. intros k p c. unfold temp_of, on_live.
      change (page_objects s') with (page_objects s). destruct (page_objects s !! k) as [x|]; [|done].
      destruct (live s' k x) eqn:E; [|done]. rewrite (Hlive _ _ E). eauto.
    + apply (da_names _ Hd).
    + apply (da_open _ Hd).
    + apply (da_file _ Hd).
  - intros o c f. destruct o as [k|key]; unfold view.
    + change (page_objects s') with (page_objects s). destruct (page_objects s !! k) as [x|] eqn:Hx; [|done].
      unfold live. destruct (isAnon x); [|done]. intros H. by exists f.
    + change (page_objects s') with (page_objects s). change (storage s') with (storage s). simpl.
      destruct (decide (key = (t, pageNum pg))) as [->|Hne].
      * rewrite lookup_delete_eq, Hall, Hpg. unfold page_view. rewrite Hb, Hdirty. intros [= <- <-].
        destruct (ok_set s pg) as (t' & Et & _ & El); [apply (da_page _ Hd me); [done|]|done|].
        { unfold live. rewrite E1, E2. by apply bool_decide_eq_true. }
        rewrite E2 in Et. injection Et as <-. destruct (pageLocations (storage s) !! (t, pageNum pg)) as [info|]; [|by destruct El; congruence].
        rewrite <- El. eexists. split; [done|]. intros x Hx. unfold disk_byte. by rewrite E1, E2.
      * rewrite lookup_delete_ne by done. intros H. by exists f.
Qed.
