(* ===== verification/BufferManagerEvict.v ===== *)
(** Getting memory for a page: eviction of the full page that was unpinned least
    recently keeps every page's bytes, and the memory handed out is nobody
    else's. *)

From S2P Require Import Prelude BufferManager BufferManagerPool BufferManagerInv.

Open Scope Z_scope.

(** ** What evicting the pages [l] leaves alone *)

Record untouched (l : list nat) (s s' : buffer_manager) : Prop := {
  un_init : initialized s' = initialized s;
  un_size : pageSize s' = pageSize s;
  un_pages : numPages s' = numPages s;
  un_log : logOfPageSize s' = logOfPageSize s;
  un_ram : ram s' = ram s;
  un_fds : fds (storage s') = fds (storage s);
  un_locs : pageLocations (storage s') = pageLocations (storage s);
  un_ends : endOfFiles (storage s') = endOfFiles (storage s);
  un_numbers : lastFreeAnonPageNumber s' = lastFreeAnonPageNumber s;
  un_free : freeAnonPageNumbers s' = freeAnonPageNumbers s;
  un_count : length (page_objects s') = length (page_objects s);
  un_other k : k ∉ l -> page_objects s' !! k = page_objects s !! k;
  un_all key k : k ∉ l -> allPages s' !! key = Some k <-> allPages s !! key = Some k;
  un_some key k : allPages s' !! key = Some k -> allPages s !! key = Some k;
  un_same k pg : page_objects s !! k = Some pg -> exists pg', page_objects s' !! k = Some pg' /\ same_page pg pg'
}.
Lemma same_page_refl pg : same_page pg pg.
Proof. done. Qed.
Lemma same_page_trans p1 p2 p3 : same_page p1 p2 -> same_page p2 p3 -> same_page p1 p3.
Proof. intros (? & ? & ? & ?) (? & ? & ? & ?). split_and!; congruence. Qed.
Lemma untouched_refl l s : untouched l s s.
Proof. split; try done. intros k pg H. by exists pg. Qed.
Lemma insert_same (l : list PDBPage) (me : nat) pg pg' : l !! me = Some pg -> same_page pg pg' ->
  forall k q, l !! k = Some q -> exists q', <[me := pg']> l !! k = Some q' /\ same_page q q'.
Proof.
  intros Hpg Hs k q Hq. destruct (decide (k = me)) as [->|Hne].
  - exists pg'. rewrite list_lookup_insert_eq by by eapply lookup_lt_Some. split; [done|]. congruence.
  - exists q. by rewrite list_lookup_insert_ne.
Qed.
Lemma untouched_trans l s1 s2 s3 : untouched l s1 s2 -> untouched l s2 s3 -> untouched l s1 s3.
Proof.
  intros [] []. split; try congruence.
  - intros k Hk. rewrite un_other1 by done. by apply un_other0.
  - intros key k Hk. rewrite un_all1 by done. by apply un_all0.
  - intros key k H. by apply un_some0, un_some1.
  - intros k pg H. destruct (un_same0 _ _ H) as (p1 & H1 & E1). destruct (un_same1 _ _ H1) as (p2 & H2 & E2).
    exists p2. split; [done|]. by eapply same_page_trans.
Qed.
Lemma untouched_mono l l' s s' : (forall k, k ∈ l -> k ∈ l') -> untouched l s s' -> untouched l' s s'.
Proof. intros Hl []. split; try done; intros; [apply un_other0|apply un_all0]; auto. Qed.
Lemma untouched_live l s s' k pg : untouched l s s' -> k ∉ l -> live s' k pg = live s k pg.
Proof.
  intros H Hk. unfold live. destruct (isAnon pg); [done|]. destruct (whichSet pg); [|done].
  apply bool_decide_ext. by apply H.
Qed.
Lemma untouched_config l s s' : untouched l s s' -> config_ok s -> config_ok s'.
Proof. intros [] []. split; [congruence|congruence|]. rewrite un_size0. unfold classes. rewrite un_log0. done. Qed.
Lemma untouched_classes l s s' : untouched l s s' -> classes s' = classes s.
Proof. intros H. unfold classes. by rewrite (un_log _ _ _ H). Qed.
Lemma untouched_res l s s' k : untouched l s s' -> k ∉ l -> res_of s' k = res_of s k.
Proof.
  intros H Hk. unfold res_of, on_live. rewrite (un_other _ _ _ H k Hk).
  destruct (page_objects s !! k); [|done]. by rewrite (untouched_live l s s').
Qed.
Lemma untouched_upd s me pg pg' : page_objects s !! me = Some pg -> same_page pg pg' -> untouched [me] s (upd_page me pg' s).
Proof.
  intros Hpg Hs. split; try done; simpl; [by rewrite length_insert| |by apply insert_same with pg].
  intros k Hk. apply list_lookup_insert_ne. intros ->. apply Hk. by left.
Qed.

(** ** One page *)

Lemma write_temp_Ok s me pg a : page_objects s !! me = Some pg -> bytes pg = Some a ->
  write_temp me s = Ok tt (set_storage (set_temp_file (blit (temp_file (storage s)) (startPos (location pg)) (ram s) a (getSize pg)) (storage s)) s).
Proof. intros H Hb. unfold write_temp. rewrite (bind_Ok _ _ _ _ _ (page_of_Ok _ _ _ H)). by rewrite Hb. Qed.
Lemma write_set_Ok s me pg a t : page_objects s !! me = Some pg -> bytes pg = Some a -> whichSet pg = Some t -> t ∈ fds (storage s) ->
  write_set me s = Ok tt (set_storage (set_set_file (fun u => if decide (u = file_of t)
    then blit (set_file (storage s) (file_of t)) (startPos (location pg)) (ram s) a (getSize pg) else set_file (storage s) u) (storage s)) s).
Proof.
  intros H Hb Ht Hf. unfold write_set. rewrite (bind_Ok _ _ _ _ _ (page_of_Ok _ _ _ H)). rewrite Hb, Ht. unfold bind, get; simpl.
  by rewrite decide_True.
Qed.

(** The place an anonymous page gets. *)
Lemma place_in_temp_spec s me pg :
  config_ok s -> data_ok s -> page_objects s !! me = Some pg -> live s me pg = true -> isAnon pg = true ->
  exists pos avail top,
    place_in_temp me s = Ok tt (set_storage (set_lastTempPos top (set_availablePositions avail (storage s))) (upd_page me (set_startPos pos pg) s)) /\
    0 <= pos /\ temp_ok (classes s) (upd_region (temp_of s) me (Some (pos, numBytes (location pg)))) avail top.
Proof.
  intros Hc%config_classes Hd Hpg Hl Ha. pose proof (da_temp _ Hd) as Ht.
  pose proof (ok_class _ _ (da_page _ Hd _ _ Hpg Hl)) as Hcl.
  unfold place_in_temp. rewrite (bind_Ok _ _ _ _ _ (page_of_Ok _ _ _ Hpg)). unfold the_disk.
  destruct (lookup_lt_is_Some_2 (availablePositions (storage s)) (numBytes (location pg))) as [l El].
  { rewrite (te_length _ _ _ _ Ht). lia. }
  unfold bind at 1. simpl. unfold bind at 1. simpl. rewrite El. unfold bind at 1. simpl.
  destruct (last l) as [pos|] eqn:Elast.
  - apply last_split in Elast. exists pos, (<[numBytes (location pg) := pop l]> (availablePositions (storage s))), (lastTempPos (storage s)).
    unfold bind. rewrite (on_page_Ok _ _ _ _ Hpg). split_and!; [done| |].
    + apply (te_free _ _ _ _ Ht _ _ pos El). rewrite Elast. apply elem_of_app. right. by apply list_elem_of_singleton.
    + apply temp_reuse; try done. by rewrite <- Elast.
  - exists (lastTempPos (storage s)), (availablePositions (storage s)), (lastTempPos (storage s) + page_bytes (numBytes (location pg))).
    unfold bind. rewrite (on_page_Ok _ _ _ _ Hpg). split_and!; [done|apply (te_top _ _ _ _ Ht)|]. by apply temp_new.
Qed.

Definition evicted_page (pg : PDBPage) : PDBPage := set_bytes None (set_dirty false pg).

Lemma region_apart_byte p1 c1 p2 c2 x y :
  apart p1 c1 p2 c2 -> 0 <= x < page_bytes c1 -> 0 <= y < page_bytes c2 -> p1 + x <> p2 + y.
Proof. intros [H|H] Hx Hy; lia. Qed.
Lemma blit_apart dst p1 c1 src a p2 c2 x :
  apart p1 c1 p2 c2 -> 0 <= x < page_bytes c2 -> blit dst p1 src a (page_bytes c1) (p2 + x) = dst (p2 + x).
Proof. intros H Hx. apply blit_out. destruct H; lia. Qed.

Section evict_page.
Context (s : buffer_manager) (me : nat) (pg : PDBPage) (a : Z).
Context (Hc : config_ok s) (Hd : data_ok s) (Hpg : page_objects s !! me = Some pg) (Hl : live s me pg = true)
  (Ha : bytes pg = Some a) (Hp : pinned pg = false).

Let Hok : page_ok s pg := da_page _ Hd _ _ Hpg Hl.

Lemma evict_anon : isAnon pg = true -> dirty pg = true ->
  exists s' pg', evict_page me s = Ok tt s' /\ data_ok s' /\ kept s s' /\ untouched [me] s s' /\ memory_pool s' = memory_pool s /\
    page_objects s' !! me = Some pg' /\ bytes pg' = None /\ dirty pg' = false /\ refCount pg' = refCount pg /\ status pg' = status pg.
Proof.
  intros Hanon Hdirty.
  destruct (place_in_temp_spec s me pg) as (pos & avail & top & Erun & Hpos & Ht); try done.
  set (pg1 := set_startPos pos pg) in *. set (d1 := set_lastTempPos _ _) in *. set (s1 := set_storage d1 _) in *.
  assert (Hpg1 : page_objects s1 !! me = Some pg1).
  { unfold s1. simpl. apply list_lookup_insert_eq. by eapply lookup_lt_Some. }
  set (d2 := set_temp_file (blit (temp_file d1) pos (ram s) a (getSize pg)) d1).
  set (pg2 := evicted_page pg1).
  assert (Erun' : evict_page me s = Ok tt (set_storage d2 (upd_page me pg2 s))).
  { unfold evict_page. rewrite (bind_Ok _ _ _ _ _ (page_of_Ok _ _ _ Hpg)). rewrite Hanon, Hdirty. cbn [andb].
    unfold bind at 1. rewrite (bind_Ok _ _ _ _ _ Erun). rewrite (write_temp_Ok s1 me pg1 a) by done.
    erewrite on_page_Ok by exact Hpg1. unfold upd_page, s1. simpl. by rewrite list_insert_insert_eq. }
  assert (Hs : same_page pg pg2) by done.
  assert (Hothers : forall k q x, k <> me -> page_objects s !! k = Some q -> live s k q = true -> dirty q = false ->
    0 <= x < getSize q -> disk_byte d2 q x = disk_byte (storage s) q x).
  { intros k q x Hne Hq Hlq Hdq Hx. unfold disk_byte. destruct (isAnon q) eqn:Eq; [|done].
    pose proof (ok_anon _ _ (da_page _ Hd _ _ Hq Hlq) Eq Hdq) as Hst.
    change (blit (temp_file (storage s)) pos (ram s) a (page_bytes (numBytes (location pg))) (startPos (location q) + x) =
      temp_file (storage s) (startPos (location q) + x)).
    apply (blit_apart _ pos (numBytes (location pg)) _ _ _ (numBytes (location q))); [|done].
    eapply (te_pages _ _ _ _ Ht me k); [unfold upd_region; by rewrite decide_True| |done].
    unfold upd_region. rewrite decide_False by done. unfold temp_of, on_live. rewrite Hq, Hlq. unfold region_of. rewrite Eq.
    by rewrite (proj2 (Z.eqb_neq _ _)). }
  exists (set_storage d2 (upd_page me pg2 s)), pg2. split; [done|]. split_and!; try done.
  - apply (data_ok_step s me pg pg2 Hpg Hs d2); try done.
    + intros _. destruct Hok. split; try done; simpl; [congruence|intros _ _; lia|congruence].
    + change (availablePositions d2) with avail. change (lastTempPos d2) with top.
      eapply temp_ok_less; [by apply config_classes|exact Ht|]. intros k p c. unfold temp_of.
      rewrite (on_live_upd s me pg pg2) by done. unfold upd_region. rewrite Hl. destruct (decide (k = me)); [|eauto].
      unfold region_of. simpl. rewrite Hanon. destruct (negb (pos =? -1)); [|done]. simpl. intros [= <- <-]. eauto.
  - apply (kept_step s me pg pg2 Hpg Hs d2); try done. intros _ c f. unfold page_view. rewrite Ha. intros [= <- <-]. simpl.
    eexists. split; [done|]. intros x Hx. unfold disk_byte. simpl. rewrite Hanon. by apply blit_in.
  - split; try done; simpl; [by rewrite length_insert| |by apply insert_same with pg].
    intros k Hk. apply list_lookup_insert_ne. intros ->. apply Hk. by left.
  - simpl. apply list_lookup_insert_eq. by eapply lookup_lt_Some.
Qed.

(** The page is clean, or it is a page of a set and is written. *)
Lemma write_back : (isAnon pg && dirty pg = false) ->
  exists d', (if dirty pg then write_set me else mret tt) s = Ok tt (set_storage d' s) /\
    fds d' = fds (storage s) /\ pageLocations d' = pageLocations (storage s) /\ endOfFiles d' = endOfFiles (storage s) /\
    availablePositions d' = availablePositions (storage s) /\ lastTempPos d' = lastTempPos (storage s) /\
    (forall x, 0 <= x < getSize pg -> disk_byte d' pg x = ram s (a + x)) /\
    (forall k q x, k <> me -> page_objects s !! k = Some q -> live s k q = true -> dirty q = false ->
      0 <= x < getSize q -> disk_byte d' q x = disk_byte (storage s) q x) /\
    (forall t i info x, pageLocations (storage s) !! (t, i) = Some info -> allPages s !! (t, i) = None ->
      0 <= x < page_bytes (numBytes info) -> set_file d' (file_of t) (startPos info + x) = set_file (storage s) (file_of t) (startPos info + x)).
Proof.
  intros Hw. destruct (dirty pg) eqn:Edirty.
  - rewrite andb_true_r in Hw. destruct (ok_set _ _ Hok Hw) as (t & Et & Hf & El).
    destruct (pageLocations (storage s) !! (t, pageNum pg)) as [info|] eqn:Ei; [|by destruct El; congruence].
    eexists. split; [by apply (write_set_Ok s me pg a t)|]. split_and!; try done.
    + intros x Hx. unfold disk_byte. simpl. rewrite Hw, Et. rewrite decide_True by done. by apply blit_in.
    + intros k q x Hne Hq Hlq Hdq Hx. unfold disk_byte. destruct (isAnon q) eqn:Eq; [done|].
      destruct (ok_set _ _ (da_page _ Hd _ _ Hq Hlq) Eq) as (t' & Et' & Hf' & El'). rewrite Et'.
      destruct (pageLocations (storage s) !! (t', pageNum q)) as [info'|] eqn:Ei'; [|by destruct El'; congruence].
      simpl. destruct (decide (file_of t' = file_of t)) as [Ef|]; [|done]. apply (da_names _ Hd) in Ef; [|done..]. subst t'.
      apply (blit_apart _ _ (numBytes (location pg)) _ _ _ (numBytes (location q))); [|done]. rewrite El, El'.
      eapply (fi_apart _ _ _ (da_file _ Hd)); [exact Ei|exact Ei'|]. intros E. apply Hne.
      pose proof Hl as Hl'. unfold live in Hl', Hlq. rewrite Hw, Et in Hl'. rewrite Eq, Et' in Hlq. apply bool_decide_eq_true in Hl', Hlq. congruence.
    + intros t' i info' x Hi' Hnone Hx. simpl. destruct (decide (file_of t' = file_of t)) as [Ef|]; [|done].
      apply (da_names _ Hd) in Ef; [|by apply (da_open _ Hd) in Hi'|done]. subst t'.
      apply (blit_apart _ _ (numBytes (location pg)) _ _ _ (numBytes info')); [|done]. rewrite El.
      eapply (fi_apart _ _ _ (da_file _ Hd)); [exact Ei|exact Hi'|]. intros <-.
      pose proof Hl as Hl'. unfold live in Hl'. rewrite Hw, Et in Hl'. apply bool_decide_eq_true in Hl'. congruence.
  - exists (storage s). split_and!; try done; [by destruct s|]. intros x Hx. symmetry. by apply (ok_copy _ _ Hok).
Qed.

Lemma evict_other : isAnon pg && dirty pg = false ->
  exists s' pg', evict_page me s = Ok tt s' /\ data_ok s' /\ kept s s' /\ untouched [me] s s' /\ memory_pool s' = memory_pool s /\
    page_objects s' !! me = Some pg' /\ bytes pg' = None /\ dirty pg' = false /\ refCount pg' = refCount pg /\ status pg' = status pg.
Proof.
  intros Hw. destruct (write_back Hw) as (d' & Erun & D1 & D2 & D3 & D4 & D5 & Hcopy & Hothers & Hfiles).
  set (pg2 := evicted_page pg). assert (Hs : same_page pg pg2) by done.
  set (s1 := set_storage d' (upd_page me pg2 s)).
  assert (Hlt : (me < length (page_objects s))%nat) by by eapply lookup_lt_Some.
  assert (Hpg2 : page_objects s1 !! me = Some pg2) by by apply list_lookup_insert_eq.
  assert (Hd1 : data_ok s1).
  { apply (data_ok_step s me pg pg2 Hpg Hs d'); try done.
    - intros _. split; try done; simpl; [apply (ok_class _ _ Hok)|congruence| |].
      + intros Hanon _. apply (ok_anon _ _ Hok); [done|]. by rewrite Hanon in Hw.
      + intros Hanon. destruct (ok_set _ _ Hok Hanon) as (t & E1 & E2 & E3). exists t. rewrite D1, D2. split_and!; try done.
        destruct (pageLocations (storage s) !! (t, pageNum pg)); [done|]. destruct E3. congruence.
    - rewrite D4, D5. eapply temp_ok_less; [by apply config_classes|apply (da_temp _ Hd)|]. intros k p c. unfold temp_of.
      rewrite (on_live_upd s me pg pg2) by done. destruct (decide (k = me)) as [->|]; [|eauto].
      unfold on_live. rewrite Hpg, Hl. unfold region_of. simpl. eauto. }
  assert (Hk1 : kept s s1).
  { apply (kept_step s me pg pg2 Hpg Hs d'); try done. intros _ c f. unfold page_view. rewrite Ha. intros [= <- <-]. simpl.
    eexists. split; [done|]. intros x Hx. by apply Hcopy. }
  assert (Hu1 : untouched [me] s s1).
  { split; try done; simpl; [by rewrite length_insert| |by apply insert_same with pg].
    intros k Hk. apply list_lookup_insert_ne. intros ->. apply Hk. by left. }
  assert (Erun1 : forall s2, page_objects s2 = page_objects s ->
    on_page me (fun p => set_bytes None (set_dirty false p)) s2 = Ok tt (upd_page me pg2 s2)).
  { intros s2 E. apply (on_page_Ok s2 me pg). by rewrite E. }
  assert (Epage : evict_page me s =
    (_ <- (if refCount pg =? 0
           then match whichSet pg with
                | Some set => modify (fun s => set_allPages (delete (set, pageNum pg) (allPages s)) s)
                | None => mret tt
                end
           else mret tt) ;;
     on_page me (fun p => set_bytes None (set_dirty false p))) (set_storage d' s)).
  { unfold evict_page. rewrite (bind_Ok _ _ _ _ _ (page_of_Ok _ _ _ Hpg)). rewrite Hw. unfold bind. by rewrite Erun. }
  destruct (Z.eqb_spec (refCount pg) 0) as [Er|Er].
  - pose proof Hl as Hl'. unfold live in Hl'. destruct (isAnon pg) eqn:Eanon; [by rewrite Er in Hl'|].
    destruct (whichSet pg) as [t|] eqn:Et; [|done]. apply bool_decide_eq_true in Hl'.
    destruct (drop_page s1 t (pageNum pg) me pg2) as [Hd2 Hk2]; try done.
    { by eapply untouched_config. }
    exists (set_allPages (delete (t, pageNum pg) (allPages s1)) s1), pg2. split; [|split_and!; try done].
    + rewrite Epage. unfold bind, modify. by rewrite Erun1.
    + by eapply kept_trans.
    + destruct Hu1. split; try done; simpl.
      * intros key k Hk. rewrite lookup_delete_Some. split; [tauto|]. intros H. split; [|done]. intros <-. apply Hk.
        rewrite Hl' in H. injection H as <-. by left.
      * intros key k. rewrite lookup_delete_Some. tauto.
  - exists s1, pg2. split_and!; try done. rewrite Epage. unfold bind, mret, M_ret. by rewrite Erun1.
Qed.

Lemma evict_page_spec :
  exists s' pg', evict_page me s = Ok tt s' /\ data_ok s' /\ kept s s' /\ untouched [me] s s' /\ memory_pool s' = memory_pool s /\
    page_objects s' !! me = Some pg' /\ bytes pg' = None /\ dirty pg' = false /\ refCount pg' = refCount pg /\ status pg' = status pg.
Proof.
  destruct (isAnon pg && dirty pg) eqn:E; [|by apply evict_other]. apply andb_true_iff in E as [? ?]. by apply evict_anon.
Qed.
End evict_page.

(** ** All the pages of a full page *)

Lemma evict_pages_spec l s :
  config_ok s -> data_ok s -> NoDup l ->
  (forall me, me ∈ l -> exists pg a, page_objects s !! me = Some pg /\ live s me pg = true /\ bytes pg = Some a /\ pinned pg = false) ->
  exists s', for_each l evict_page s = Ok tt s' /\ data_ok s' /\ kept s s' /\ untouched l s s' /\ memory_pool s' = memory_pool s /\
    forall me pg0, me ∈ l -> page_objects s !! me = Some pg0 ->
      exists pg, page_objects s' !! me = Some pg /\ bytes pg = None /\ dirty pg = false /\ status pg = status pg0.
Proof.
  revert s. induction l as [|me l IH]; intros s Hc Hd Hnd Hl.
  - exists s. split_and!; try done; [apply kept_refl|apply untouched_refl|]. by intros me pg0 ?%elem_of_nil.
  - apply NoDup_cons in Hnd as [Hme Hnd]. destruct (Hl me) as (pg & a & Hpg & Hlive & Ha & Hp); [by left|].
    destruct (evict_page_spec s me pg a Hc Hd Hpg Hlive Ha Hp) as (s1 & pg1 & Erun & Hd1 & Hk1 & Hu1 & Hm1 & Hpg1 & Hb1 & Hdirty1 & _ & Hst1).
    destruct (IH s1) as (s2 & Erun2 & Hd2 & Hk2 & Hu2 & Hm2 & Hin2); try done.
    { by eapply untouched_config. }
    { intros k Hk. destruct (Hl k) as (q & b & Hq & Hlq & Hbq & Hpq); [by right|]. exists q, b.
      assert (Hne : k ∉ [me]) by (intros ->%list_elem_of_singleton; done).
      rewrite (un_other _ _ _ Hu1) by done. rewrite (untouched_live _ _ _ _ _ Hu1) by done. done. }
    exists s2. simpl. rewrite (bind_Ok _ _ _ _ _ Erun). split_and!; try done.
    + by eapply kept_trans.
    + eapply untouched_trans; (eapply untouched_mono; [|eassumption]); [|by right]. intros k ->%list_elem_of_singleton. by left.
    + by rewrite Hm2.
    + intros k pg0 [->|Hk]%elem_of_cons Hpg0.
      * exists pg1. rewrite (un_other _ _ _ Hu2) by done. rewrite Hpg in Hpg0. injection Hpg0 as <-. done.
      * apply Hin2; [done|]. rewrite (un_other _ _ _ Hu1); [done|]. by intros ->%list_elem_of_singleton.
Qed.

(** The marks on the pages while they are written. *)
Lemma status_page_ok s pg x : x <> PDB_PAGE_LOADING -> ~ loading pg -> page_ok s pg -> page_ok s (set_status x pg).
Proof. intros Hx Hnl H. split; try apply H; simpl; intros _; by apply H. Qed.
Lemma set_statuses_spec x l s :
  config_ok s -> data_ok s -> x <> PDB_PAGE_LOADING ->
  (forall me, me ∈ l -> exists pg, page_objects s !! me = Some pg /\ ~ loading pg) ->
  exists s', for_each l (fun me => on_page me (set_status x)) s = Ok tt s' /\ data_ok s' /\ kept s s' /\ untouched l s s' /\
    memory_pool s' = memory_pool s /\ storage s' = storage s /\ allPages s' = allPages s /\
    (forall me, page_objects s' !! me = (if decide (me ∈ l) then set_status x <$> page_objects s !! me else page_objects s !! me)).
Proof.
  intros Hc Hd Hx. revert s Hc Hd. induction l as [|me l IH]; intros s Hc Hd Hl.
  - exists s. split_and!; try done; [apply kept_refl|apply untouched_refl].
  - destruct (Hl me) as (pg & Hpg & Hnl); [by left|]. set (s1 := upd_page me (set_status x pg) s).
    assert (Hu1 : untouched [me] s s1) by by eapply untouched_upd.
    assert (Hd1 : data_ok s1).
    { apply (page_step s me pg); try done. intros Hlive. apply status_page_ok; try done. by eapply da_page. }
    assert (Hk1 : kept s s1).
    { apply (page_kept s me pg); try done. intros _ c f H. by exists f. }
    destruct (IH s1) as (s2 & Erun2 & Hd2 & Hk2 & Hu2 & Hm2 & Hst2 & Ha2 & Hin2); try done.
    { by eapply untouched_config. }
    { intros k Hk. unfold s1. rewrite upd_page_lookup by by eapply lookup_lt_Some. destruct (decide (k = me)) as [->|].
      - eexists. split; [done|]. done.
      - apply Hl. by right. }
    exists s2. simpl. rewrite (bind_Ok _ _ _ _ _ (on_page_Ok s me pg _ Hpg)). split_and!; try done.
    + by eapply kept_trans.
    + eapply untouched_trans; (eapply untouched_mono; [|eassumption]); [|by right]. intros k ->%list_elem_of_singleton. by left.
    + intros k. rewrite Hin2. unfold s1. rewrite upd_page_lookup by by eapply lookup_lt_Some.
      destruct (decide (k = me)) as [->|Hne].
      * destruct (decide (me ∈ me :: l)) as [_|Hk']; [|exfalso; apply Hk'; by left]. rewrite Hpg. simpl. by destruct (decide (me ∈ l)).
      * destruct (decide (k ∈ l)) as [Hk|Hk], (decide (k ∈ me :: l)) as [Hk'|Hk']; try done; exfalso.
        -- apply Hk'. by right.
        -- by apply elem_of_cons in Hk' as [?|?].
Qed.

(** ** The pool *)

Lemma set_pool_eta s : set_pool (memory_pool s) s = s.
Proof. by destruct s. Qed.
Lemma data_ok_pool q s : data_ok s -> data_ok (set_pool q s).
Proof.
  intros Hd. split; try apply Hd. intros me pg Hpg Hl. destruct (da_page _ Hd me pg Hpg Hl). by split.
Qed.
Lemma kept_pool q s : kept s (set_pool q s).
Proof. intros o c f H. exists f. by split. Qed.
Lemma untouched_pool l q s : untouched l s (set_pool q s).
Proof. split; try done. intros k pg H. by exists pg. Qed.
Lemma on_pool_Ok f s : on_pool f s = Ok tt (set_pool (f (memory_pool s)) s).
Proof. done. Qed.
Lemma parent_Ok s me pg a : page_objects s !! me = Some pg -> bytes pg = Some a -> parent me s = Ok (parent_of s a) s.
Proof. intros H Hb. unfold parent. rewrite (bind_Ok _ _ _ _ _ (page_of_Ok _ _ _ H)). by rewrite Hb. Qed.
Lemma parent_full s a : config_ok s -> parent_of s a = full_of (classes s) a.
Proof. intros [_ _ H]. unfold parent_of, full_of. by rewrite H. Qed.

(** Fields of the pool that moving mini pages leaves alone. *)
Record same_books (q q' : pool) : Prop := {
  sb_full : emptyFullPages q' = emptyFullPages q;
  sb_const : constituentPages q' = constituentPages q;
  sb_pins : numPinned q' = numPinned q;
  sb_lru : lastUsed q' = lastUsed q;
  sb_tick : lastTimeTick q' = lastTimeTick q;
  sb_creating : isCreatingSpace q' = isCreatingSpace q
}.

Lemma drop_loop p u s m l :
  emptyMini (memory_pool s) (class_of (memory_pool s) p) = Some m -> m ≡ₚ u ++ l ->
  exists l', l' ≡ₚ l /\
    for_each u (fun kt => p_ <- the_pool ;; l0 <- unwrap OutOfRange (emptyMini p_ (class_of p_ p)) ;; l1 <- erase_from kt l0 ;;
                          on_pool (set_emptyMini (class_of p_ p) l1)) s =
    Ok tt (set_pool (set_emptyMini (class_of (memory_pool s) p) l' (memory_pool s)) s).
Proof.
  revert s m. induction u as [|x u IH]; intros s m Hm Hp.
  - exists m. split; [done|]. simpl. unfold set_emptyMini, set_emptyMiniPages. rewrite list_insert_id by done.
    destruct s as [? ? ? ? ? ? q ? ? ? ?]. by destruct q.
  - destruct (erase_first_Some x m) as [m1 Em1]; [rewrite Hp; by left|].
    pose proof (erase_first_Permutation _ _ _ Em1) as Hp1. rewrite Hp1 in Hp. simpl in Hp. apply Permutation_cons_inv in Hp.
    assert (Hlt : (class_of (memory_pool s) p < length (emptyMiniPages (memory_pool s)))%nat) by by apply lookup_lt_Some in Hm.
    set (s1 := set_pool (set_emptyMini (class_of (memory_pool s) p) m1 (memory_pool s)) s).
    destruct (IH s1 m1) as (l' & Hl' & E).
    { unfold emptyMini. simpl. by apply list_lookup_insert_eq. }
    { done. }
    exists l'. split; [done|]. simpl. rewrite (bind_Ok _ _ s tt s1).
    + rewrite E. unfold s1, set_emptyMini, set_emptyMiniPages, set_pool. simpl. by rewrite list_insert_insert_eq.
    + unfold the_pool, bind, get, erase_from. simpl. rewrite Hm. simpl. by rewrite Em1.
Qed.

Lemma drop_unused_spec n N s p res :
  slots_ok n N (memory_pool s) res ->
  exists q', drop_unused p s = Ok tt (set_pool q' s) /\ slots_ok n N q' res /\ same_books (memory_pool s) q' /\ unused_of q' p = [].
Proof.
  intros H. set (q := memory_pool s) in *. unfold drop_unused. unfold the_pool at 1, bind at 1, get at 1. simpl. unfold bind at 1. fold q.
  destruct (unused_of q p) as [|x u] eqn:Eu.
  - simpl. exists (set_unused p [] (class_of q p) q). split_and!; try done; [|by rewrite unused_of_set, decide_True].
    eapply slots_ok_ext; [..|exact H]; try done.
    + intros p'. rewrite unused_of_set. destruct (decide (p = p')) as [<-|]; done.
    + intros p'. rewrite class_of_set. destruct (decide (p = p')) as [<-|]; done.
  - destruct (sl_unused _ _ _ _ H p x) as (_ & _ & m & Em & _); [rewrite Eu; by left|].
    destruct (unused_in_mini _ _ _ _ _ _ H Em) as [l Hl]. rewrite Eu in Hl.
    destruct (drop_loop p (x :: u) s m l Em Hl) as (l' & Hl' & E). rewrite E.
    exists (without_unused p l' q). split_and!; try done.
    + apply (slots_drop _ _ q res p m l' H Em). by rewrite Hl', Eu.
    + unfold without_unused. by rewrite unused_of_set, decide_True.
Qed.

(** ** Eviction *)

Definition residents_idle (s : buffer_manager) : Prop :=
  forall me pg, page_objects s !! me = Some pg -> live s me pg = true -> bytes pg <> None -> is_loading pg = false.

Record pool_inv (s : buffer_manager) : Prop := {
  pv_config : config_ok s;
  pv_slots : slots_ok (classes s) (numPages s) (memory_pool s) (res_of s);
  pv_pins : pins_ok (classes s) (numPages s) (memory_pool s) (res_of s);
  pv_data : data_ok s
}.

Lemma res_of_Some s me a c b : res_of s me = Some (a, c, b) <->
  exists pg, page_objects s !! me = Some pg /\ live s me pg = true /\ bytes pg = Some a /\ numBytes (location pg) = c /\ pinned pg = b.
Proof.
  unfold res_of, on_live, residence_of. split.
  - destruct (page_objects s !! me) as [pg|]; [|done]. destruct (live s me pg) eqn:El; [|done].
    destruct (bytes pg) eqn:Eb; [|done]. intros [= <- <- <-]. by exists pg.
  - intros (pg & -> & -> & -> & <- & <-). done.
Qed.
Lemma not_loading pg : is_loading pg = false -> ~ loading pg.
Proof. unfold is_loading, loading. intros H E. by rewrite bool_decide_true in H. Qed.

Lemma victims_unpinned s p t rest me :
  pool_inv s -> lastUsed (memory_pool s) = (p, t) :: rest -> me ∈ constituents (memory_pool s) p ->
  exists pg a, page_objects s !! me = Some pg /\ live s me pg = true /\ bytes pg = Some a /\ pinned pg = false.
Proof.
  intros [Hc Hs Hp Hd] Elru Hme. apply (sl_const _ _ _ _ Hs) in Hme as (a & c & b & Hr & Hf).
  pose proof (lru_unpinned _ _ (config_classes _ Hc) _ (res_of s) p t rest me a c b Hs Hp Elru Hr Hf) as ->.
  apply res_of_Some in Hr as (pg & ? & ? & ? & ? & ?). eauto 8.
Qed.

(** The full page [p] is empty. *)
Definition emptied (p : Z) (q : pool) : pool :=
  set_numPinned (delete p (numPinned q)) (set_emptyFullPages (emptyFullPages q ++ [p]) (set_constituents p [] q)).
Lemma evict_run s p t rest :
  pool_inv s -> residents_idle s -> lastUsed (memory_pool s) = (p, t) :: rest ->
  let victims := constituents (memory_pool s) p in let q1 := set_lastUsed rest (memory_pool s) in
  exists q3 s5, evict p (set_pool q1 s) = Ok tt (set_pool (emptied p q3) s5) /\ data_ok s5 /\ kept s s5 /\ untouched victims s s5 /\
    slots_ok (classes s) (numPages s) q3 (res_of s) /\ same_books q1 q3 /\ unused_of q3 p = [] /\
    forall me, me ∈ victims -> exists pg, page_objects s5 !! me = Some pg /\ bytes pg = None /\ status pg = PDB_PAGE_NOT_LOADED.
Proof.
  intros Hi Hidle Elru victims q1. pose proof Hi as [Hc Hs Hp Hd]. set (n := classes s) in *. set (N := numPages s) in *.
  pose proof (fun me => victims_unpinned s p t rest me Hi Elru) as Hvic. set (s1 := set_pool q1 s).
  destruct (set_statuses_spec PDB_PAGE_UNLOADING victims s1) as (s2 & E2 & Hd2 & Hk2 & Hu2 & Hm2 & Hst2 & Ha2 & Hpg2); try done.
  { apply (untouched_config victims s s1); [apply untouched_pool|done]. }
  { by apply data_ok_pool. }
  { intros me Hme. destruct (Hvic me Hme) as (pg & a & Hpg & Hl & Hb & _). exists pg. split; [done|].
    apply not_loading. apply (Hidle me pg); try done. by rewrite Hb. }
  assert (Hs2 : slots_ok n N (memory_pool s2) (res_of s)) by (rewrite Hm2; by eapply slots_ok_ext; [..|exact Hs]).
  destruct (drop_unused_spec n N s2 p (res_of s) Hs2) as (q3 & E3 & Hs3 & Hsb & Hun). set (s3 := set_pool q3 s2).
  assert (Hvic3 : forall me, me ∈ victims -> exists pg a, page_objects s3 !! me = Some pg /\ live s3 me pg = true /\
    bytes pg = Some a /\ pinned pg = false /\ status pg = PDB_PAGE_UNLOADING).
  { intros me Hme. destruct (Hvic me Hme) as (pg & a & Hpg & Hl & Hb & Hpin). exists (set_status PDB_PAGE_UNLOADING pg), a.
    split_and!; try done.
    - change (page_objects s3) with (page_objects s2). rewrite Hpg2, decide_True by done. change (page_objects s1) with (page_objects s).
      by rewrite Hpg.
    - unfold live in *. change (allPages s3) with (allPages s2). by rewrite Ha2. }
  destruct (evict_pages_spec victims s3) as (s4 & E4 & Hd4 & Hk4 & Hu4 & Hm4 & Hin4); try done.
  { eapply untouched_config; [|exact Hc]. eapply untouched_trans; [exact (untouched_pool victims q1 s)|].
    eapply untouched_trans; [exact Hu2|apply untouched_pool]. }
  { by apply data_ok_pool. }
  { apply (sl_const_nodup _ _ _ _ Hs). }
  { intros me Hme. destruct (Hvic3 me Hme) as (pg & a & ? & ? & ? & ? & _). eauto 8. }
  assert (Hc4 : untouched victims s s4).
  { eapply untouched_trans; [exact (untouched_pool victims q1 s)|]. eapply untouched_trans; [exact Hu2|].
    eapply untouched_trans; [apply (untouched_pool victims q3)|exact Hu4]. }
  destruct (set_statuses_spec PDB_PAGE_NOT_LOADED victims s4) as (s5 & E5 & Hd5 & Hk5 & Hu5 & Hm5 & Hst5 & Ha5 & Hpg5); try done.
  { by eapply untouched_config. }
  { intros me Hme. destruct (Hvic3 me Hme) as (pg & a & Hpg & _ & _ & _ & Hst). destruct (Hin4 me pg Hme Hpg) as (pg' & Hpg' & _ & _ & Hst').
    exists pg'. split; [done|]. unfold loading. by rewrite Hst', Hst. }
  exists q3, s5. split_and!; try done.
  - unfold evict. rewrite (bind_Ok _ _ s1 q1 s1) by done. change (constituents q1 p) with victims. cbv zeta.
    rewrite (bind_Ok _ _ _ _ _ E2), (bind_Ok _ _ _ _ _ E3). fold s3. rewrite (bind_Ok _ _ _ _ _ E4), (bind_Ok _ _ _ _ _ E5).
    unfold on_pool, modify. by rewrite Hm5, Hm4.
  - eapply kept_trans; [apply (kept_pool q1)|]. eapply kept_trans; [exact Hk2|]. eapply kept_trans; [apply (kept_pool q3)|].
    by eapply kept_trans.
  - by eapply untouched_trans.
  - by rewrite Hm2 in Hsb.
  - intros me Hme. destruct (Hvic3 me Hme) as (pg & a & Hpg & _). destruct (Hin4 me pg Hme Hpg) as (pg' & Hpg' & Hb' & _ & _).
    exists (set_status PDB_PAGE_NOT_LOADED pg'). split; [|done]. rewrite Hpg5, decide_True by done. by rewrite Hpg'.
Qed.

Lemma emptied_inv s p t rest q3 s5 :
  pool_inv s -> lastUsed (memory_pool s) = (p, t) :: rest ->
  let victims := constituents (memory_pool s) p in
  data_ok s5 -> untouched victims s s5 -> slots_ok (classes s) (numPages s) q3 (res_of s) ->
  same_books (set_lastUsed rest (memory_pool s)) q3 -> unused_of q3 p = [] ->
  (forall me, me ∈ victims -> exists pg, page_objects s5 !! me = Some pg /\ bytes pg = None /\ status pg = PDB_PAGE_NOT_LOADED) ->
  pool_inv (set_pool (emptied p q3) s5).
Proof.
  intros [Hc Hs Hp Hd] Elru victims Hd5 Hu Hs3 Hsb Hun Hin5. set (s' := set_pool (emptied p q3) s5).
  set (n := classes s) in *. set (N := numPages s) in *. pose proof (config_classes _ Hc) as Hn.
  assert (Hun' : untouched victims s s') by (eapply untouched_trans; [exact Hu|apply untouched_pool]).
  assert (Hres : forall k, res_of s' k = evicted_res n p (res_of s) k).
  { intros k. unfold evicted_res. destruct (decide (k ∈ victims)) as [Hk|Hk].
    - destruct (Hin5 k Hk) as (pg & Hpg & Hb & _). unfold res_of at 1, on_live. change (page_objects s') with (page_objects s5).
      rewrite Hpg. unfold residence_of. rewrite Hb.
      apply (sl_const _ _ _ _ Hs) in Hk as (a & c & b & Hr & Hf). rewrite Hr, decide_True by done. by destruct (live s' k pg).
    - rewrite (untouched_res _ _ _ _ Hun') by done. destruct (res_of s k) as [[[a c] b]|] eqn:Er; [|done].
      rewrite decide_False; [done|]. intros Hf. apply Hk. apply (sl_const _ _ _ _ Hs). eauto 6. }
  assert (Hn' : classes s' = n) by by apply (untouched_classes victims).
  assert (HN' : numPages s' = N) by apply (un_pages _ _ _ Hun').
  destruct (pi_lru _ _ _ _ Hp p t) as (Hbase & Hnf & _ & _); [rewrite Elru; by left|].
  split; rewrite ?Hn', ?HN'; [by apply (untouched_config victims s s')| | |by apply data_ok_pool].
  - apply (slots_ok_res n N _ (evicted_res n p (res_of s))); [done|].
    pose proof (slots_clear n N q3 (res_of s) p Hs3) as Hs4.
    apply (slots_free_full _ _ (set_constituents p [] q3)) with (p := p) in Hs4; [..|done].
    + by eapply slots_ok_ext; [..|exact Hs4].
    + done.
    + change (emptyFullPages (set_constituents p [] q3)) with (emptyFullPages q3). by rewrite (sb_full _ _ Hsb).
    + by rewrite constituents_set, decide_True.
  - assert (Hpe : pins_ok n N (memory_pool s') (evicted_res n p (res_of s))); [|eapply pins_ok_ext; [..|exact Hpe]; try done; intros p' _ _; apply pinned_count_ext; by intros k _].
    apply (pins_evict n N Hn (memory_pool s) _ (res_of s) p t rest); try done.
    + simpl. by rewrite (sb_full _ _ Hsb).
    + intros p' Hne. unfold pins. simpl. rewrite lookup_delete_ne by done. by rewrite (sb_pins _ _ Hsb).
    + simpl. by rewrite (sb_lru _ _ Hsb).
    + simpl. by rewrite (sb_tick _ _ Hsb).
    + intros p' Hne. unfold constituents. simpl. rewrite lookup_insert_ne by done. by rewrite (sb_const _ _ Hsb).
Qed.

Lemma evict_spec s p t rest :
  pool_inv s -> residents_idle s -> lastUsed (memory_pool s) = (p, t) :: rest ->
  let victims := constituents (memory_pool s) p in
  exists s', (_ <- on_pool (set_lastUsed rest) ;; evict p) s = Ok tt s' /\ pool_inv s' /\ kept s s' /\ untouched victims s s' /\
    residents_idle s' /\ emptyFullPages (memory_pool s') = emptyFullPages (memory_pool s) ++ [p] /\
    lastTimeTick (memory_pool s') = lastTimeTick (memory_pool s) /\
    isCreatingSpace (memory_pool s') = isCreatingSpace (memory_pool s) /\
    (forall me, me ∈ victims -> exists pg, page_objects s !! me = Some pg /\ live s me pg = true /\ bytes pg <> None /\ pinned pg = false) /\
    (forall me, me ∈ victims -> exists pg, page_objects s' !! me = Some pg /\ is_loading pg = false).
Proof.
  intros Hi Hidle Elru victims. destruct (evict_run s p t rest Hi Hidle Elru) as (q3 & s5 & E & Hd & Hk & Hu & Hs & Hsb & Hun & Hin).
  fold victims in Hu, Hin. set (s' := set_pool (emptied p q3) s5).
  assert (Hu' : untouched victims s s') by (eapply untouched_trans; [exact Hu|apply untouched_pool]).
  exists s'. split_and!; try done.
  - by apply (emptied_inv s p t rest).
  - intros me pg Hpg Hl Hb. destruct (decide (me ∈ victims)) as [Hme|Hme].
    + destruct (Hin me Hme) as (pg' & Hpg' & Hb' & _). change (page_objects s') with (page_objects s5) in Hpg. congruence.
    + apply (Hidle me); try done; [by rewrite <- (un_other _ _ _ Hu')|by rewrite <- (untouched_live _ _ _ _ _ Hu')].
  - simpl. by rewrite (sb_full _ _ Hsb).
  - simpl. by rewrite (sb_tick _ _ Hsb).
  - simpl. by rewrite (sb_creating _ _ Hsb).
  - intros me Hme. destruct (victims_unpinned s p t rest me Hi Elru Hme) as (pg & a & ? & ? & Hb & ?). exists pg. split_and!; try done. by rewrite Hb.
  - intros me Hme. destruct (Hin me Hme) as (pg & Hpg & _ & Hst). exists pg. split; [done|]. unfold is_loading. by rewrite Hst.
Qed.
