(* ===== verification/BufferManagerPages.v ===== *)
(** How the buffer manager gets memory for a page, and what that does to the
    pages. *)

From S2P Require Import Prelude BufferManager BufferManagerPool BufferManagerInv BufferManagerEvict.

Open Scope Z_scope.

(** What making room for a page may change: pages that are not pinned lose
    their memory, but not their bytes. *)
Record room_made (s s' : buffer_manager) (l : list nat) : Prop := {
  rm_inv : pool_inv s';
  rm_kept : kept s s';
  rm_untouched : untouched l s s';
  rm_idle : residents_idle s';
  rm_tick : lastTimeTick (memory_pool s') = lastTimeTick (memory_pool s);
  rm_creating : isCreatingSpace (memory_pool s') = isCreatingSpace (memory_pool s);
  rm_victims me : me ∈ l -> exists pg, page_objects s !! me = Some pg /\ live s me pg = true /\ bytes pg <> None /\ pinned pg = false;
  rm_rest me : me ∈ l -> exists pg, page_objects s' !! me = Some pg /\ is_loading pg = false
}.

Lemma pool_inv_pool q s :
  pool_inv s -> slots_ok (classes s) (numPages s) q (res_of s) -> pins_ok (classes s) (numPages s) q (res_of s) -> pool_inv (set_pool q s).
Proof. intros [[] _ _ Hd] Hs Hp. split; try done. by apply data_ok_pool. Qed.

Lemma room_pool q s s' l :
  room_made s s' l -> slots_ok (classes s') (numPages s') q (res_of s') -> pins_ok (classes s') (numPages s') q (res_of s') ->
  lastTimeTick q = lastTimeTick (memory_pool s') -> isCreatingSpace q = isCreatingSpace (memory_pool s) -> room_made s (set_pool q s') l.
Proof.
  intros [] Hs Hp Ht Hcr. split; try done.
  - by apply pool_inv_pool.
  - eapply untouched_trans; [done|apply untouched_pool].
  - simpl. by rewrite Ht.
Qed.
Lemma room_refl s : pool_inv s -> residents_idle s -> room_made s s [].
Proof. intros H Hi. split; try done; [apply kept_refl|apply untouched_refl|by intros me ?%elem_of_nil..]. Qed.

(** What does not matter to slots and pins. *)
Lemma slots_creating n N q res x : slots_ok n N (set_isCreatingSpace x q) res <-> slots_ok n N q res.
Proof. split; intros H; eapply slots_ok_ext; [..|exact H| | | | | |exact H]; done. Qed.
Lemma pins_creating n N q res x : pins_ok n N (set_isCreatingSpace x q) res <-> pins_ok n N q res.
Proof. split; intros H; eapply pins_ok_ext; [..|exact H| | | | | |exact H]; done. Qed.

Lemma offsets_of_Ok s s' c start : config_ok s -> (c <= classes s)%nat ->
  offsets_of start (pageSize s) (page_bytes c) s' = Ok (offsets start (page_bytes (classes s)) (page_bytes c)) s'.
Proof.
  intros Hc Hcl. pose proof (config_classes _ Hc). pose proof (page_bytes_pos c ltac:(lia)). unfold offsets_of.
  rewrite (proj2 (Z.eqb_neq _ _)) by lia. simpl. by rewrite (co_size _ Hc).
Qed.
Lemma mini_list n N q res c : slots_ok n N q res -> (c <= n)%nat -> exists m, emptyMini q c = Some m.
Proof. intros H Hc. apply lookup_lt_is_Some_2. rewrite (sl_length _ _ _ _ H). lia. Qed.

Lemma add_mini_pages_Ok base key c offs s m : emptyMini (memory_pool s) c = Some m ->
  add_mini_pages base key c offs s = Ok tt (set_pool (set_unused key (unused_of (memory_pool s) key ++ map (Z.add base) offs) c
    (set_emptyMini c (m ++ map (Z.add base) offs) (memory_pool s))) s).
Proof. intros H. unfold add_mini_pages, the_pool, bind, get. simpl. by rewrite H. Qed.

Lemma break_up_Ok s c l p m :
  config_ok s -> (c <= classes s)%nat -> emptyFullPages (memory_pool s) = l ++ [p] -> emptyMini (memory_pool s) c = Some m ->
  break_up c s = Ok tt (set_pool (broken_up (classes s) p l c m (memory_pool s)) s).
Proof.
  intros Hc Hcl E Hm. unfold break_up. rewrite (bind_Ok _ _ s (memory_pool s) s) by done. rewrite E, last_snoc.
  rewrite (bind_Ok _ _ s p s) by done. rewrite (bind_Ok _ _ s s s) by done.
  rewrite (bind_Ok _ _ _ _ _ (offsets_of_Ok s s c 0 Hc Hcl)). rewrite (bind_Ok _ _ _ _ _ (add_mini_pages_Ok _ _ _ _ _ _ Hm)).
  unfold on_pool, modify. simpl. by rewrite E, pop_snoc.
Qed.

(** An empty full page, evicting one if there is none. *)
Lemma full_page_spec s :
  pool_inv s -> residents_idle s ->
  let run := p <- the_pool ;;
    match emptyFullPages p with
    | _ :: _ => mret tt
    | [] => match lastUsed p with [] => exit | (page, _) :: rest => _ <- on_pool (set_lastUsed rest) ;; evict page end
    end in
  (run s = Exit s /\ emptyFullPages (memory_pool s) = [] /\ lastUsed (memory_pool s) = []) \/
  exists s' l, run s = Ok tt s' /\ room_made s s' l /\ emptyFullPages (memory_pool s') <> [].
Proof.
  intros Hi Hidle run. unfold run. rewrite (bind_Ok _ _ s (memory_pool s) s) by done.
  destruct (emptyFullPages (memory_pool s)) as [|p0 l0] eqn:Ef.
  - destruct (lastUsed (memory_pool s)) as [|[p t] rest] eqn:El; [by left|right].
    destruct (evict_spec s p t rest Hi Hidle El) as (s' & E & Hi' & Hk & Hu & Hid & Hf & Ht & Hcr & Hv & Hr).
    exists s', (constituents (memory_pool s) p). split; [done|]. split; [by split|]. rewrite Hf. by destruct (emptyFullPages (memory_pool s)).
  - right. exists s, []. split; [done|]. split; [by apply room_refl|]. by rewrite Ef.
Qed.

Lemma createAdditionalMiniPages_spec s c :
  pool_inv s -> residents_idle s -> (c <= classes s)%nat -> isCreatingSpace (memory_pool s) !! c = Some false ->
  emptyMini (memory_pool s) c = Some [] ->
  (exists s', createAdditionalMiniPages c s = Exit s' /\ emptyFullPages (memory_pool s) = [] /\ lastUsed (memory_pool s) = []) \/
  exists s' l m, createAdditionalMiniPages c s = Ok tt s' /\ room_made s s' l /\ emptyMini (memory_pool s') c = Some m /\ m <> [].
Proof.
  intros Hi Hidle Hcl Hcr Hm. unfold createAdditionalMiniPages.
  rewrite (bind_Ok _ _ s (memory_pool s) s) by done. rewrite Hcr. rewrite (bind_Ok _ _ s false s) by done.
  rewrite (bind_Ok _ _ s tt s) by done. rewrite Hm. rewrite (bind_Ok _ _ s [] s) by done.
  set (q1 := set_isCreatingSpace (<[c:=true]> (isCreatingSpace (memory_pool s))) (memory_pool s)). set (s1 := set_pool q1 s).
  rewrite (bind_Ok _ _ s tt s1) by done.
  assert (Hi1 : pool_inv s1).
  { apply pool_inv_pool; [done| |].
    - apply slots_creating. apply Hi.
    - apply pins_creating. apply Hi. }
  destruct (full_page_spec s1 Hi1 Hidle) as [(E & Ef & El)|(s2 & l & E & Hr & Hne)]; unfold bind at 1, the_pool at 1 in E; simpl in E.
  - left. exists s1. split; [|done]. unfold bind at 1. by rewrite E.
  - right. unfold bind at 1. rewrite E. pose proof (rm_inv _ _ _ Hr) as Hi2.
    assert (Hcl2 : (c <= classes s2)%nat) by by rewrite (untouched_classes _ _ _ (rm_untouched _ _ _ Hr)).
    assert (Hq2 : memory_pool s2 = memory_pool s2) by done.
    destruct (mini_list _ _ _ _ c (pv_slots _ Hi2) Hcl2) as [m Hm2].
    destruct (emptyFullPages (memory_pool s2)) as [|p0 l0] eqn:Ef; [done|]. clear Hne.
    destruct (exists_last (l := p0 :: l0)) as (l1 & p & El); [done|]. rewrite El in Ef.
    rewrite (bind_Ok _ _ _ _ _ (break_up_Ok s2 c l1 p m (pv_config _ Hi2) Hcl2 Ef Hm2)).
    set (q3 := broken_up (classes s2) p l1 c m (memory_pool s2)).
    pose proof (slots_break _ _ (config_classes _ (pv_config _ Hi2)) _ _ l1 p c m (pv_slots _ Hi2) Ef Hcl2 Hm2) as Hs3.
    pose proof (pins_break _ _ (config_classes _ (pv_config _ Hi2)) _ _ l1 p c m (pv_slots _ Hi2) (pv_pins _ Hi2) Ef) as Hp3. fold q3 in Hs3, Hp3.
    set (q4 := set_isCreatingSpace (<[c:=false]> (isCreatingSpace q3)) q3).
    exists (set_pool q4 s2), l, (m ++ minis (classes s2) p 0 c). split_and!; [done| | |].
    + destruct Hr as [R1 R2 R3 R4 R5 R6 R7 R8]. split; try done.
      * apply pool_inv_pool; [done|by apply slots_creating|by apply pins_creating].
      * eapply untouched_trans; [exact (untouched_pool l q1 s)|]. eapply untouched_trans; [done|apply untouched_pool].
      * change (<[c:=false]> (isCreatingSpace (memory_pool s2)) = isCreatingSpace (memory_pool s)). rewrite R6. simpl.
        by rewrite list_insert_insert_eq, list_insert_id.
    + apply list_lookup_insert_eq. by eapply lookup_lt_Some.
    + assert (Hin : p ∈ minis (classes s2) p 0 c).
      { pose proof (config_classes _ (pv_config _ Hi2)) as Hn. apply elem_of_minis; [done..|]. exists 0.
        pose proof (page_bytes_pos (classes s2) Hn). lia. }
      intros E0. apply app_eq_nil in E0 as [_ E0]. rewrite E0 in Hin. by apply elem_of_nil in Hin.
Qed.

(** The memory handed out is not that of any page, nor to be had any more. *)
Definition slot_of (s : buffer_manager) (a : Z) (c : nat) : Prop :=
  free_slot (classes s) (numPages s) (memory_pool s) (res_of s) a c.

Lemma take_slot s c m :
  pool_inv s -> (c <= classes s)%nat -> emptyMini (memory_pool s) c = Some m -> m <> [] ->
  exists a q,
    (space <- unwrap OutOfRange (last m) ;; s <- get ;;
     let whichPage := parent_of s space in
     p <- the_pool ;;
     u <- erase_from space (unused_of p whichPage) ;;
     _ <- on_pool (fun p => set_unused whichPage u (class_of p whichPage) (set_emptyMini c (pop m) p)) ;;
     mret space) s = Ok a (set_pool q s) /\
    pool_inv (set_pool q s) /\ slot_of (set_pool q s) a c /\
    lastTimeTick q = lastTimeTick (memory_pool s) /\ isCreatingSpace q = isCreatingSpace (memory_pool s).
Proof.
  intros Hi Hcl Hm Hne. destruct (exists_last Hne) as (l & a & El). rewrite El, last_snoc, pop_snoc.
  rewrite El in Hm. pose proof (config_classes _ (pv_config _ Hi)) as Hn.
  destruct (sl_mini _ _ _ _ (pv_slots _ Hi) c _ a Hm) as (Hb & Hf & Hc & Hu); [apply elem_of_app; right; by apply list_elem_of_singleton|].
  destruct (erase_first_Some _ _ Hu) as [u Eu].
  destruct (slots_take _ _ Hn _ _ c l a u (pv_slots _ Hi) Hcl Hm Eu) as [Hs Hfree].
  exists a, (set_unused (full_of (classes s) a) u c (set_emptyMini c l (memory_pool s))). split_and!; try done.
  - rewrite (bind_Ok _ _ s a s), (bind_Ok _ _ s s s) by done. cbv zeta. rewrite parent_full by apply Hi.
    rewrite (bind_Ok _ _ s (memory_pool s) s) by done. unfold erase_from. rewrite Eu. rewrite (bind_Ok _ _ s u s) by done.
    unfold bind, on_pool, modify, mret, M_ret. by rewrite Hc.
  - apply pool_inv_pool; [done..|]. eapply pins_ok_ext; [..|apply Hi]; done.
Qed.

Lemma room_trans_pool s s' l q :
  room_made s s' l -> pool_inv (set_pool q s') -> lastTimeTick q = lastTimeTick (memory_pool s') ->
  isCreatingSpace q = isCreatingSpace (memory_pool s') -> room_made s (set_pool q s') l.
Proof.
  intros Hr Hi Ht Hcr. apply room_pool; try apply Hi; try done. rewrite Hcr. by apply Hr.
Qed.

(** There is memory unless every full page has pinned pages. *)
Definition exhausted (s : buffer_manager) : Prop := emptyFullPages (memory_pool s) = [] /\ lastUsed (memory_pool s) = [].
Lemma getEmptyMemory_spec s c :
  pool_inv s -> residents_idle s -> (c <= classes s)%nat -> isCreatingSpace (memory_pool s) !! c = Some false ->
  ((exists s', getEmptyMemory c s = Exit s') /\ exhausted s) \/
  exists a s' l, getEmptyMemory c s = Ok a s' /\ room_made s s' l /\ slot_of s' a c.
Proof.
  intros Hi Hidle Hcl Hcr. destruct (mini_list _ _ _ _ c (pv_slots _ Hi) Hcl) as [m Hm].
  assert (Hrun : ((exists s', match m with [] => createAdditionalMiniPages c | _ :: _ => mret tt end s = Exit s') /\ exhausted s) \/
    exists s' l m', match m with [] => createAdditionalMiniPages c | _ :: _ => mret tt end s = Ok tt s' /\ room_made s s' l /\
      emptyMini (memory_pool s') c = Some m' /\ m' <> []).
  { destruct m as [|x m]; [|right; exists s, [], (x :: m); split_and!; try done; by apply room_refl].
    destruct (createAdditionalMiniPages_spec s c Hi Hidle Hcl Hcr Hm) as [(s' & ? & ?)|H]; [left|by right].
    split; [by eexists|done]. }
  unfold getEmptyMemory. rewrite (bind_Ok _ _ s (memory_pool s) s) by done. rewrite Hm. rewrite (bind_Ok _ _ s m s) by done.
  destruct Hrun as [[[s' E] Hex]|(s' & l & m' & E & Hr & Hm' & Hne)]; [left|right].
  - split; [|done]. exists s'. unfold bind at 1. by rewrite E.
  - rewrite (bind_Ok _ _ _ _ _ E). rewrite (bind_Ok _ _ s' (memory_pool s') s') by done. rewrite Hm'.
    rewrite (bind_Ok _ _ s' m' s') by done.
    destruct (take_slot s' c m') as (a & q & Et & Hi2 & Hs & Ht & Hcr2); try done.
    { by apply Hr. }
    { by rewrite (untouched_classes _ _ _ (rm_untouched _ _ _ Hr)). }
    exists a, (set_pool q s'), l. split; [|split; [by apply room_trans_pool|done]]. etrans; [|exact Et].
    destruct (last m'); [|done]. done.
Qed.

Definition base_of (s : buffer_manager) (a : Z) : Z := full_of (classes s) a.

Lemma live_set s me pg t : isAnon pg = false -> whichSet pg = Some t -> live s me pg = true <-> allPages s !! (t, pageNum pg) = Some me.
Proof. intros Ha Ht. unfold live. rewrite Ha, Ht. apply bool_decide_eq_true. Qed.

(** ** Runs *)

Lemma config_set_pool q s : config_ok s -> config_ok (set_pool q s).
Proof. intros []. by split. Qed.
Lemma config_upd me pg s : config_ok s -> config_ok (upd_page me pg s).
Proof. intros []. by split. Qed.

Lemma parent_base s me pg a : config_ok s -> page_objects s !! me = Some pg -> bytes pg = Some a -> parent me s = Ok (base_of s a) s.
Proof. intros Hc Hpg Hb. rewrite (parent_Ok s me pg a Hpg Hb). by rewrite parent_full. Qed.
Lemma pinParent_Ok s me pg a : config_ok s -> page_objects s !! me = Some pg -> bytes pg = Some a ->
  pinParent me s = Ok tt (set_pool (pin_pool (base_of s a) (memory_pool s)) s).
Proof.
  intros Hc Hpg Hb. unfold pinParent. rewrite (bind_Ok _ _ _ _ _ (parent_base s me pg a Hc Hpg Hb)).
  rewrite (bind_Ok _ _ s (memory_pool s) s) by done. cbv zeta. unfold pin_pool.
  by destruct (pins (memory_pool s) (base_of s a) <? 0).
Qed.
Definition register_pool (me : nat) (p : Z) (q : pool) : pool := pin_pool p (set_constituents p (constituents q p ++ [me]) q).
Lemma registerMiniPage_Ok s me pg a : config_ok s -> page_objects s !! me = Some pg -> bytes pg = Some a ->
  registerMiniPage me s = Ok tt (set_pool (register_pool me (base_of s a) (memory_pool s)) s).
Proof.
  intros Hc Hpg Hb. unfold registerMiniPage. rewrite (bind_Ok _ _ _ _ _ (parent_base s me pg a Hc Hpg Hb)).
  set (s1 := set_pool (set_constituents (base_of s a) (constituents (memory_pool s) (base_of s a) ++ [me]) (memory_pool s)) s).
  rewrite (bind_Ok _ _ s tt s1) by done. apply (pinParent_Ok s1 me pg a); try done. by apply config_set_pool.
Qed.

(** ** Memory *)

Lemma ram_step s r :
  pool_inv s ->
  (forall k pg a x, page_objects s !! k = Some pg -> live s k pg = true -> bytes pg = Some a -> 0 <= x < getSize pg -> r (a + x) = ram s (a + x)) ->
  pool_inv (set_ram r s) /\ kept s (set_ram r s).
Proof.
  intros [[] Hs Hp Hd] Hr. split.
  - split; try done. split; try apply Hd. intros k pg Hpg Hl. destruct (da_page _ Hd k pg Hpg Hl). split; try done.
    intros a x Hdirty Hb Hx. simpl. rewrite (Hr k pg) by done. by apply ok_copy.
  - assert (Hv : forall k pg c f, page_objects s !! k = Some pg -> live s k pg = true -> page_view s pg = Some (c, f) ->
      exists f', page_view (set_ram r s) pg = Some (c, f') /\ same_bytes c f f').
    { intros k pg c f Hpg Hl. unfold page_view. destruct (bytes pg) as [a|] eqn:Eb; [|intros H; by exists f]. intros [= <- <-].
      eexists. split; [done|]. intros x Hx. simpl. by apply (Hr k pg). }
    intros o c f. destruct o as [k|[t i]]; unfold view.
    + change (page_objects (set_ram r s)) with (page_objects s). destruct (page_objects s !! k) as [pg|] eqn:Hpg; [|done].
      change (live (set_ram r s) k pg) with (live s k pg). destruct (isAnon pg && live s k pg) eqn:E; [|done].
      apply andb_true_iff in E as [_ El]. by apply (Hv k).
    + change (page_objects (set_ram r s)) with (page_objects s). change (allPages (set_ram r s)) with (allPages s).
      destruct (allPages s !! (t, i)) as [k|] eqn:Ek; [|intros H; by exists f].
      destruct (da_all _ Hd _ _ _ Ek) as (pg & Hpg & E1 & E2 & E3). rewrite Hpg. apply (Hv k); [done|].
      unfold live. rewrite E1, E2, E3. by apply bool_decide_eq_true.
Qed.
(** Nobody's memory. *)
Lemma slot_ram s a c r :
  pool_inv s -> slot_of s a c -> (forall x, x < a \/ a + page_bytes c <= x -> r x = ram s x) ->
  pool_inv (set_ram r s) /\ kept s (set_ram r s).
Proof.
  intros Hi Hslot Hr. apply ram_step; [done|]. intros k pg a' x Hpg Hl Hb Hx. apply Hr.
  assert (Hres : res_of s k = Some (a', numBytes (location pg), pinned pg)) by (apply res_of_Some; eauto 8).
  destruct (Z.lt_ge_cases (a' + x) a) as [|Hge]; [by left|]. destruct (Z.lt_ge_cases (a' + x) (a + page_bytes c)) as [Hlt|]; [exfalso|by right].
  apply (free_slot_apart _ _ (config_classes _ (pv_config _ Hi)) _ _ a c k a' _ _ (a' + x - a) x (pv_slots _ Hi) Hslot Hres); [lia|done|lia].
Qed.

(** ** A page gets memory *)

Lemma pins_ok_res n N q res res' : (forall k, res' k = res k) -> pins_ok n N q res -> pins_ok n N q res'.
Proof. intros E H. eapply pins_ok_ext; [..|exact H]; try done. intros p _ _. apply pinned_count_ext. by intros k _. Qed.

Section one.
Context (s : buffer_manager) (me : nat) (pg pg' : PDBPage).
Context (Hi : pool_inv s) (Hpg : page_objects s !! me = Some pg) (Hsame : same_page pg pg') (Hl : live s me pg = true).
Let n := classes s.
Let N := numPages s.

Lemma res_of_upd k : res_of (upd_page me pg' s) k = upd (res_of s) me (residence_of pg') k.
Proof. unfold res_of at 1. rewrite (on_live_upd s me pg pg') by done. unfold upd. by rewrite Hl. Qed.

(** Page and pool change together. *)
Lemma page_pool_step q' :
  page_ok s pg' -> region_of pg' = region_of pg ->
  (forall c f, page_view s pg = Some (c, f) -> exists f', page_view s pg' = Some (c, f') /\ same_bytes c f f') ->
  slots_ok n N q' (upd (res_of s) me (residence_of pg')) -> pins_ok n N q' (upd (res_of s) me (residence_of pg')) ->
  let s' := set_pool q' (upd_page me pg' s) in pool_inv s' /\ kept s s'.
Proof.
  intros Hok Hreg Hv Hs Hp s'. split.
  - destruct Hi as [Hc _ _ Hd]. split; [by apply config_set_pool, config_upd| | |].
    + eapply slots_ok_res, Hs. intros k. apply (res_of_upd k).
    + eapply pins_ok_res, Hp. intros k. apply (res_of_upd k).
    + apply data_ok_pool. by apply (page_step s me pg).
  - eapply kept_trans; [|apply kept_pool]. apply (page_kept s me pg); try done. apply Hi.
Qed.

Lemma full_page_of a c b : res_of s me = Some (a, c, b) -> base n N (base_of s a) /\ base_of s a ∉ emptyFullPages (memory_pool s).
Proof. intros H. by destruct (sl_res _ _ _ _ (pv_slots _ Hi) _ _ _ _ H) as (? & ? & _). Qed.

(** A page without memory gets some, and is pinned. *)
Lemma install a :
  bytes pg = None -> bytes pg' = Some a -> location pg' = location pg -> pinned pg' = true -> dirty pg' = dirty pg ->
  slot_of s a (numBytes (location pg)) -> lastTimeTick (memory_pool s) < 2 ^ 32 ->
  (dirty pg = false -> forall x, 0 <= x < getSize pg -> ram s (a + x) = disk_byte (storage s) pg x) ->
  let s' := set_pool (register_pool me (base_of s a) (memory_pool s)) (upd_page me pg' s) in pool_inv s' /\ kept s s'.
Proof.
  intros Hb Hb' Hloc Hpin Hdirty Hslot Ht Hcopy. destruct Hsame as (S1 & S2 & S3 & S4).
  pose proof (da_page _ (pv_data _ Hi) _ _ Hpg Hl) as Hok.
  assert (Hnone : res_of s me = None) by (unfold res_of, on_live, residence_of; by rewrite Hpg, Hl, Hb).
  assert (Hdisk : forall x, disk_byte (storage s) pg' x = disk_byte (storage s) pg x) by (intros x; unfold disk_byte; by rewrite S1, S2, Hloc).
  assert (Hres : residence_of pg' = Some (a, numBytes (location pg), true)) by (unfold residence_of; by rewrite Hb', Hloc, Hpin).
  assert (Hsz : getSize pg' = getSize pg) by (unfold getSize; by rewrite Hloc).
  pose proof Hslot as (F1 & F2 & _).
  apply page_pool_step.
  - split; rewrite ?Hb', ?Hloc, ?Hdirty, ?S1, ?S2, ?S3, ?Hpin, ?Hsz; try done; [apply (ok_class _ _ Hok)|apply (ok_anon _ _ Hok)| |].
    + intros Hset. destruct (ok_set _ _ Hok Hset) as (t & E1 & E2 & E3). exists t. split_and!; try done.
      destruct (pageLocations (storage s) !! (t, pageNum pg)); [done|]. by destruct E3.
    + intros a0 x Hd [= <-] Hx. rewrite Hdisk. by apply Hcopy.
  - unfold region_of. by rewrite S1, Hloc.
  - intros c f. unfold page_view. rewrite Hb, Hb', Hloc. destruct (dirty pg) eqn:Ed; [done|]. intros [= <- <-].
    eexists. split; [done|]. intros x Hx. by apply Hcopy.
  - unfold register_pool. rewrite Hres. pose proof (slots_register _ _ _ _ me a _ true (pv_slots _ Hi) Hslot Hnone) as H.
    eapply slots_ok_ext; [..|exact H]; unfold pin_pool; by destruct (_ <? 0).
  - rewrite Hres. unfold register_pool. eapply pin_pool_ok; [by apply config_classes, Hi|apply (pv_pins _ Hi)| |done..].
    split; try done.
    + intros p' Hne. rewrite constituents_set, decide_False by done. apply pinned_count_upd_out. exact (const_fresh _ _ _ _ me p' (pv_slots _ Hi) Hnone).
    + rewrite constituents_set, decide_True by done. rewrite (pinned_count_snoc n (config_classes _ (pv_config _ Hi))), upd_same.
      rewrite pinned_count_upd_out by (exact (const_fresh _ _ _ _ me _ (pv_slots _ Hi) Hnone)). done.
Qed.

(** A page keeps its memory and its place; only what it is marked with changes. *)
Lemma remark :
  residence_of pg' = residence_of pg -> region_of pg' = region_of pg -> page_ok s pg' ->
  (forall c f, page_view s pg = Some (c, f) -> exists f', page_view s pg' = Some (c, f') /\ same_bytes c f f') ->
  pool_inv (upd_page me pg' s) /\ kept s (upd_page me pg' s).
Proof.
  intros Hr Hreg Hok Hv.
  assert (Hres : forall k, upd (res_of s) me (residence_of pg') k = res_of s k).
  { intros k. unfold upd. destruct (decide (k = me)) as [->|]; [|done]. unfold res_of, on_live. by rewrite Hpg, Hl, Hr. }
  destruct (page_pool_step (memory_pool s)) as [H1 H2]; try done.
  - eapply slots_ok_res; [done|apply Hi].
  - eapply pins_ok_res; [done|apply Hi].
Qed.

(** The pin of a page with memory changes. *)
Section pin.
Context (a : Z) (Hb : bytes pg = Some a) (Hb' : bytes pg' = Some a) (Hloc : location pg' = location pg) (Hok' : page_ok s pg').

Let Hres : res_of s me = Some (a, numBytes (location pg), pinned pg).
Proof. apply res_of_Some. eauto 8. Qed.
Let Hres' : residence_of pg' = Some (a, numBytes (location pg), pinned pg').
Proof. unfold residence_of. by rewrite Hb', Hloc. Qed.
Let Hregion : region_of pg' = region_of pg.
Proof. destruct Hsame as (S1 & _). unfold region_of. by rewrite S1, Hloc. Qed.
Let Hview c f : page_view s pg = Some (c, f) -> exists f', page_view s pg' = Some (c, f') /\ same_bytes c f f'.
Proof. unfold page_view. rewrite Hb, Hb', Hloc. intros H. by exists f. Qed.

Lemma pins_one d : pin_of (residence_of pg') = pin_of (res_of s me) + d ->
  pins_change (memory_pool s) (memory_pool s) (res_of s) (upd (res_of s) me (residence_of pg')) (base_of s a) d.
Proof.
  intros E. assert (Hin : me ∈ constituents (memory_pool s) (base_of s a)) by (apply (sl_const _ _ _ _ (pv_slots _ Hi)); eauto 6).
  split; try done.
  - intros p' Hne. apply pinned_count_upd_out. intros Hx. apply (sl_const _ _ _ _ (pv_slots _ Hi)) in Hx as (a' & c & b & Hr & Hf).
    rewrite Hres in Hr. injection Hr as <- <- <-. by apply Hne.
  - rewrite (pinned_count_upd n (config_classes _ (pv_config _ Hi))) by (done || apply (sl_const_nodup _ _ _ _ (pv_slots _ Hi))). lia.
Qed.

Lemma pin_again : pinned pg = false -> pinned pg' = true -> lastTimeTick (memory_pool s) < 2 ^ 32 ->
  let s' := set_pool (pin_pool (base_of s a) (memory_pool s)) (upd_page me pg' s) in pool_inv s' /\ kept s s'.
Proof.
  intros Hp Hp' Ht. destruct (full_page_of _ _ _ Hres) as [Hbase Hf]. apply page_pool_step; try done.
  - rewrite Hres'. eapply slots_ok_ext; [..|eapply slots_repin; [exact Hres|apply Hi]]; unfold pin_pool; by destruct (_ <? 0).
  - eapply pin_pool_ok; [by apply config_classes, Hi|apply (pv_pins _ Hi)|by apply pins_one; rewrite Hres, Hres', Hp, Hp'|done..].
Qed.
Lemma unpin_page : pinned pg = true -> pinned pg' = false -> 0 < lastTimeTick (memory_pool s) ->
  let s' := set_pool (unpin_pool (base_of s a) (memory_pool s)) (upd_page me pg' s) in
  pool_inv s' /\ kept s s' /\ lastTimeTick (memory_pool s) <= lastTimeTick (memory_pool s') <= lastTimeTick (memory_pool s) + 1.
Proof.
  intros Hp Hp' Ht s'. destruct (full_page_of _ _ _ Hres) as [Hbase Hf].
  destruct (unpin_pool_ok n N (config_classes _ (pv_config _ Hi)) (memory_pool s) (memory_pool s) (res_of s)
    (upd (res_of s) me (residence_of pg')) (base_of s a) (pv_pins _ Hi)) as [Hpi Htick]; try done.
  { apply pins_one. by rewrite Hres, Hres', Hp, Hp'. }
  assert (H : pool_inv s' /\ kept s s').
  { apply page_pool_step; try done. rewrite Hres'.
    eapply slots_ok_ext; [..|eapply slots_repin; [exact Hres|apply Hi]]; unfold unpin_pool; by destruct (_ =? 0). }
  destruct H as [H1 H2]. split; [done|]. split; [done|]. exact Htick.
Qed.
End pin.
End one.
