(* ===== verification/BufferManagerOps.v ===== *)
(** Pinning and unpinning pages keeps the invariant of the buffer manager. *)

From S2P Require Import Prelude BufferManager BufferManagerPool BufferManagerInv BufferManagerEvict BufferManagerPages.

Open Scope Z_scope.

(** ** What an operation leaves alone *)

Definition idle_but (me : nat) (s : buffer_manager) : Prop :=
  (forall k pg, k <> me -> page_objects s !! k = Some pg -> live s k pg = true -> is_loading pg = false) /\
  isCreatingSpace (memory_pool s) = replicate (S (classes s)) false.
Record bm_ok (s : buffer_manager) : Prop := {
  bm_inv : pool_inv s;
  bm_tick : 0 < lastTimeTick (memory_pool s);
  bm_idle : idle s
}.

(** Where a page that is pinned is found. *)
Definition stays (pg pg' : PDBPage) : Prop := pinned pg' = true /\ bytes pg' = bytes pg /\ location pg' = location pg.
(** Of all but the objects [X] the bytes are kept; all pages but [Y] are still
    what they were, and where they were if they are pinned. *)
Record leaves (X : object -> Prop) (Y : nat -> Prop) (s s' : buffer_manager) : Prop := {
  lv_kept o c f : view s o = Some (c, f) -> ~ X o -> exists f', view s' o = Some (c, f') /\ same_bytes c f f';
  lv_pages k pg : page_objects s !! k = Some pg -> ~ Y k ->
    exists pg', page_objects s' !! k = Some pg' /\ same_page pg pg' /\ (pinned pg = true -> stays pg pg');
  lv_size : pageSize s' = pageSize s;
  lv_classes : classes s' = classes s;
  lv_tick : lastTimeTick (memory_pool s) <= lastTimeTick (memory_pool s') <= lastTimeTick (memory_pool s) + 1
}.
Definition nothing {A} : A -> Prop := fun _ => False.

Lemma leaves_refl X Y s : leaves X Y s s.
Proof. split; try done; [intros o c f H _; exists f; by split|intros k pg H _; by exists pg|lia]. Qed.
(** The time passes in one of two steps only. *)
Lemma leaves_trans X Y s1 s2 s3 :
  leaves X Y s1 s2 -> leaves X Y s2 s3 -> lastTimeTick (memory_pool s2) = lastTimeTick (memory_pool s1) -> leaves X Y s1 s3.
Proof.
  intros [] [] Ht. split; [| |congruence|congruence|lia].
  - intros o c f Hv Hx. destruct (lv_kept0 _ _ _ Hv Hx) as (f1 & V1 & E1). destruct (lv_kept1 _ _ _ V1 Hx) as (f2 & V2 & E2).
    exists f2. split; [done|]. intros k Hk. by rewrite (E2 k Hk), (E1 k Hk).
  - intros k pg Hpg Hy. destruct (lv_pages0 _ _ Hpg Hy) as (p1 & H1 & S1 & P1). destruct (lv_pages1 _ _ H1 Hy) as (p2 & H2 & S2 & P2).
    exists p2. split; [done|]. split; [by eapply same_page_trans|]. intros Hp. destruct (P1 Hp) as (Q1 & Q2 & Q3).
    destruct (P2 Q1) as (R1 & R2 & R3). split_and!; congruence.
Qed.
Lemma leaves_weaken (X X' : object -> Prop) (Y Y' : nat -> Prop) s s' :
  leaves X Y s s' -> (forall o, X o -> X' o) -> (forall k, Y k -> Y' k) -> leaves X' Y' s s'.
Proof. intros [] Hx Hy. split; try done; eauto. Qed.

Lemma room_leaves s s' l : room_made s s' l -> leaves nothing nothing s s'.
Proof.
  intros [R1 R2 R3 R4 R5 R6 R7 R8]. split; [| |apply R3|by eapply untouched_classes|lia].
  - intros o c f H _. by apply R2.
  - intros k pg H _. destruct (un_same _ _ _ R3 _ _ H) as (pg' & H' & S'). exists pg'. split; [done|]. split; [done|].
    intros Hp. destruct (decide (k ∈ l)) as [Hk|Hk].
    + destruct (R7 k Hk) as (q & Hq & _ & _ & Hnp). congruence.
    + rewrite (un_other _ _ _ R3 k Hk) in H'. rewrite H in H'. by injection H' as <-.
Qed.
Lemma room_idle me s s' l : room_made s s' l -> idle_but me s -> idle_but me s'.
Proof.
  intros [R1 R2 R3 R4 R5 R6 R7 R8] [H1 H2]. split; [|by rewrite R6, H2, (untouched_classes _ _ _ R3)].
  intros k pg Hne Hpg Hl. destruct (decide (k ∈ l)) as [Hk|Hk].
  - destruct (R8 k Hk) as (q & Hq & ?). congruence.
  - apply (H1 k); [done|by rewrite <- (un_other _ _ _ R3)|by rewrite <- (untouched_live _ _ _ _ _ R3)].
Qed.
Lemma idle_residents me pg s : idle_but me s -> page_objects s !! me = Some pg -> (bytes pg = None \/ is_loading pg = false) -> residents_idle s.
Proof.
  intros [H _] Hpg Hme k q Hq Hl Hb. destruct (decide (k = me)) as [->|]; [|by apply (H k)].
  rewrite Hpg in Hq. injection Hq as <-. by destruct Hme.
Qed.
Lemma creating_false me s c : idle_but me s -> (c <= classes s)%nat -> isCreatingSpace (memory_pool s) !! c = Some false.
Proof. intros [_ ->] Hc. apply lookup_replicate_2. lia. Qed.
Lemma idle_weaken me s : idle s -> idle_but me s.
Proof. intros [H1 H2]. split; [|done]. intros k pg _. apply H1. Qed.
Lemma idle_all me pg s : idle_but me s -> page_objects s !! me = Some pg -> is_loading pg = false -> idle s.
Proof.
  intros [H1 H2] Hpg Hst. split; [|done]. intros k q Hq Hl. destruct (decide (k = me)) as [->|]; [congruence|by apply (H1 k)].
Qed.
(** Nothing but the page changes its state. *)
Lemma idle_upd me pg s q r : (me < length (page_objects s))%nat -> isCreatingSpace q = isCreatingSpace (memory_pool s) ->
  idle_but me s -> idle_but me (set_pool q (set_ram r (upd_page me pg s))).
Proof.
  intros Hl Hcr [H1 H2]. split; [|by etrans; [exact Hcr|]]. intros k p Hne Hp Hlive. apply (H1 k); [done| |done].
  change (page_objects (upd_page me pg s) !! k = Some p) in Hp. rewrite upd_page_lookup, decide_False in Hp; done.
Qed.

(** ** Memory for a page that is on its way *)

Definition bring {A} (me : nat) (c : nat) (K : Z -> BM A) : BM A :=
  space <- getEmptyMemory c ;; _ <- on_page me (set_bytes (Some space)) ;; _ <- registerMiniPage me ;; K space.
Definition registered (me : nat) (pg : PDBPage) (a : Z) (s : buffer_manager) : buffer_manager :=
  set_pool (register_pool me (base_of s a) (memory_pool s)) (upd_page me pg s).

Lemma bring_spec {A} s me pg (K : Z -> BM A) :
  pool_inv s -> idle_but me s -> page_objects s !! me = Some pg -> live s me pg = true -> bytes pg = None ->
  ((exists s', bring me (numBytes (location pg)) K s = Exit s') /\ exhausted s) \/
  exists a s2 l, bring me (numBytes (location pg)) K s = K a (registered me (set_bytes (Some a) pg) a s2) /\
    room_made s s2 l /\ slot_of s2 a (numBytes (location pg)) /\ page_objects s2 !! me = Some pg /\ live s2 me pg = true /\ idle_but me s2.
Proof.
  intros Hi Hidle Hpg Hl Hb. pose proof (ok_class _ _ (da_page _ (pv_data _ Hi) _ _ Hpg Hl)) as Hcl.
  destruct (getEmptyMemory_spec s (numBytes (location pg))) as [[[s' E] Hex]|(a & s2 & l & E & Hr & Hslot)]; try done.
  { eapply idle_residents; [done..|by left]. }
  { by eapply creating_false. }
  - left. split; [|done]. exists s'. unfold bring, bind at 1. by rewrite E.
  - right. exists a, s2, l.
    assert (Hnl : me ∉ l).
    { intros Hin. destruct (rm_victims _ _ _ Hr me Hin) as (q & Hq & _ & Hbq & _). congruence. }
    assert (Hpg2 : page_objects s2 !! me = Some pg) by by rewrite (un_other _ _ _ (rm_untouched _ _ _ Hr)).
    split_and!; try done.
    + unfold bring. rewrite (bind_Ok _ _ _ _ _ E), (bind_Ok _ _ _ _ _ (on_page_Ok s2 me pg _ Hpg2)).
      erewrite bind_Ok; [done|]. set (s3 := upd_page me _ s2).
      assert (Hpg3 : page_objects s3 !! me = Some (set_bytes (Some a) pg)).
      { apply list_lookup_insert_eq. by eapply lookup_lt_Some. }
      rewrite (registerMiniPage_Ok s3 me (set_bytes (Some a) pg) a); [done| |done..]. apply config_upd, Hr.
    + by rewrite (untouched_live _ _ _ _ _ (rm_untouched _ _ _ Hr)).
    + by eapply room_idle.
Qed.

(** The bytes of the page come from its file. *)
Definition source (s : buffer_manager) (pg : PDBPage) : image :=
  if isAnon pg then temp_file (storage s) else match whichSet pg with Some t => set_file (storage s) (file_of t) | None => temp_file (storage s) end.
Definition ram_read (s : buffer_manager) (pg : PDBPage) (a : Z) : image :=
  blit (ram s) a (source s pg) (startPos (location pg)) (getSize pg).
Lemma read_page_Ok s me pg a :
  page_objects s !! me = Some pg -> (isAnon pg = false -> exists t, whichSet pg = Some t /\ t ∈ fds (storage s)) ->
  read_page me a (location pg) s = Ok tt (set_ram (ram_read s pg a) s).
Proof.
  intros Hpg Hset. unfold read_page, ram_read, source. rewrite (bind_Ok _ _ _ _ _ (page_of_Ok _ _ _ Hpg)).
  rewrite (bind_Ok _ _ s s s) by done. destruct (isAnon pg); [done|]. destruct Hset as (t & -> & Ht); [done|].
  unfold bind; simpl. by rewrite decide_True.
Qed.
Lemma ram_read_in s pg a x : (isAnon pg = false -> exists t, whichSet pg = Some t) ->
  0 <= x < getSize pg -> ram_read s pg a (a + x) = disk_byte (storage s) pg x.
Proof.
  intros Hset Hx. unfold ram_read. rewrite blit_in by done. unfold source, disk_byte. destruct (isAnon pg); [done|].
  by destruct Hset as (t & ->).
Qed.

(** The page has arrived: [pg'] is what it is now. *)
Lemma arrive s me pg pg' a r :
  pool_inv s -> idle_but me s -> page_objects s !! me = Some pg -> same_page pg pg' -> live s me pg = true ->
  bytes pg = None -> bytes pg' = Some a -> location pg' = location pg -> pinned pg' = true -> dirty pg' = dirty pg -> is_loading pg' = false ->
  slot_of s a (numBytes (location pg)) -> 0 < lastTimeTick (memory_pool s) < 2 ^ 32 ->
  r = (if dirty pg then ram s else ram_read s pg a) ->
  let s' := set_ram r (registered me pg' a s) in
  bm_ok s' /\ leaves nothing (fun k => k = me) s s'.
Proof.
  intros Hi Hidle Hpg Hs Hl Hb Hb' Hloc Hpin Hdirty Hst Hslot Ht Hr s'.
  pose proof (da_page _ (pv_data _ Hi) _ _ Hpg Hl) as Hok.
  assert (Hset : isAnon pg = false -> exists t, whichSet pg = Some t).
  { intros Ha. destruct (ok_set _ _ Hok Ha) as (t & ? & _). eauto. }
  destruct (slot_ram s a (numBytes (location pg)) r Hi Hslot) as [Hi1 Hk1].
  { intros x Hx. rewrite Hr. destruct (dirty pg); [done|]. by apply blit_out. }
  destruct (install (set_ram r s) me pg pg' Hi1 Hpg Hs Hl a Hb Hb' Hloc Hpin Hdirty Hslot) as [Hi2 Hk2]; [apply Ht| |].
  { intros Hd x Hx. simpl. rewrite Hr, Hd. by apply ram_read_in. }
  assert (Hlt : (me < length (page_objects s))%nat) by by eapply lookup_lt_Some.
  assert (Htick : lastTimeTick (memory_pool s') = lastTimeTick (memory_pool s)).
  { simpl. unfold register_pool, pin_pool. by destruct (_ <? 0). }
  assert (Hcr : isCreatingSpace (memory_pool s') = isCreatingSpace (memory_pool s)).
  { simpl. unfold register_pool, pin_pool. by destruct (_ <? 0). }
  split; [split|].
  - exact Hi2.
  - rewrite Htick. lia.
  - apply (idle_all me pg'); [|by apply list_lookup_insert_eq|done].
    exact (idle_upd me pg' s _ r Hlt Hcr Hidle).
  - split; try done; [| |rewrite Htick; lia].
    + intros o c f Hv _. exact (kept_trans _ _ _ Hk1 Hk2 o c f Hv).
    + intros k q Hq Hne. exists q. split; [|done]. change (page_objects s') with (<[me := pg']> (page_objects s)). by rewrite list_lookup_insert_ne by congruence.
Qed.

(** ** Pinning a page again *)

(** A page [me] somebody holds, between two calls. *)
Record held (s : buffer_manager) (me : nat) (pg : PDBPage) : Prop := {
  he_page : page_objects s !! me = Some pg;
  he_live : live s me pg = true
}.
Lemma page_leaves s me pg q r :
  kept s (set_pool q (set_ram r (upd_page me pg s))) -> lastTimeTick (memory_pool s) <= lastTimeTick q <= lastTimeTick (memory_pool s) + 1 ->
  leaves nothing (fun k => k = me) s (set_pool q (set_ram r (upd_page me pg s))).
Proof.
  intros Hk Ht. split; try done; [intros o c f Hv _; by apply Hk|].
  intros k p Hp Hne. exists p. split; [|done]. simpl. by rewrite list_lookup_insert_ne by congruence.
Qed.

(** The result of pinning a page again. *)
Definition repinned (s s' : buffer_manager) (me : nat) (pg pg' : PDBPage) (a : Z) : Prop :=
  bm_ok s' /\ leaves nothing (fun k => k = me) s s' /\
  page_objects s' !! me = Some pg' /\ same_page pg pg' /\ location pg' = location pg /\ dirty pg' = dirty pg /\ sizeFrozen pg' = sizeFrozen pg /\
  pinned pg' = true /\ bytes pg' = Some a /\ (bytes pg <> None -> bytes pg' = bytes pg).

(** A page without memory is read from its file. *)
Lemma reload_spec s me pg :
  bm_ok s -> held s me pg -> lastTimeTick (memory_pool s) < 2 ^ 32 -> bytes pg = None -> pinned pg = false ->
  ((exists s', repin_locked me s = Exit s') /\ exhausted s) \/ exists s' pg' a, repin_locked me s = Ok tt s' /\ repinned s s' me pg pg' a.
Proof.
  intros [Hi Ht Hidle] [Hpg Hl] Htick Hb Hpin. pose proof (proj1 Hidle me pg Hpg Hl) as Hst.
  assert (Hlt : (me < length (page_objects s))%nat) by by eapply lookup_lt_Some.
  pose proof (da_page _ (pv_data _ Hi) _ _ Hpg Hl) as Hok.
  unfold repin_locked. rewrite (bind_Ok _ _ _ _ _ (page_of_Ok _ _ _ Hpg)). rewrite Hpin, Hb.
  set (pg1 := set_status PDB_PAGE_LOADING pg). set (s1 := upd_page me pg1 s).
  rewrite (bind_Ok _ _ _ _ _ (on_page_Ok s me pg _ Hpg)). fold pg1 s1.
  pose proof (ok_dirty _ _ Hok (not_loading _ Hst) Hb) as Hdirty.
  assert (Hok1 : page_ok s pg1).
  { split; try apply Hok; try done; simpl; intros H; by destruct H. }
  destruct (remark s me pg pg1 Hi Hpg ltac:(done) Hl) as [Hi1 Hk1]; try done.
  { intros c f H. exists f. by split. }
  fold s1 in Hi1, Hk1.
  assert (Hpg1 : page_objects s1 !! me = Some pg1) by by apply list_lookup_insert_eq.
  assert (Hidle1 : idle_but me s1) by (apply (idle_upd me pg1 s (memory_pool s) (ram s)); [done..|by apply idle_weaken]).
  destruct (bring_spec s1 me pg1 (fun space => _ <- on_page me (set_pinned true) ;; _ <- read_page me space (location pg) ;; on_page me (set_status PDB_PAGE_LOADED)) Hi1 Hidle1 Hpg1 Hl Hb)
    as [[H Hex]|(a & s2 & l & E & Hr & Hslot & Hpg2 & Hl2 & Hidle2)]; [by left|right].
  set (pgb := set_bytes (Some a) pg1). set (pgp := set_pinned true pgb). set (pg' := set_status PDB_PAGE_LOADED pgp).
  assert (Hlt2 : (me < length (page_objects s2))%nat) by by eapply lookup_lt_Some.
  destruct (arrive s2 me pg1 pg' a (ram_read s2 pg1 a)) as [Hok2 Hlv2]; try done.
  { by apply Hr. }
  { rewrite (rm_tick _ _ _ Hr). simpl. lia. }
  { simpl. by rewrite Hdirty. }
  exists (set_ram (ram_read s2 pg1 a) (registered me pg' a s2)), pg', a. unfold repinned; split_and!; try done.
  + etrans; [exact E|]. fold pgb. set (s3 := registered me pgb a s2).
    assert (Hpg3 : page_objects s3 !! me = Some pgb) by by apply list_lookup_insert_eq.
    rewrite (bind_Ok _ _ _ _ _ (on_page_Ok s3 me pgb _ Hpg3)). fold pgp. set (s4 := upd_page me pgp s3).
    assert (Hpg4 : page_objects s4 !! me = Some pgp) by (apply list_lookup_insert_eq; by eapply lookup_lt_Some).
    assert (Hrd : read_page me a (location pg) s4 = Ok tt (set_ram (ram_read s2 pg1 a) s4)).
    { apply (read_page_Ok s4 me pgp a Hpg4). intros Ha. destruct (ok_set _ _ Hok Ha) as (t & E1 & E2 & _). exists t. split; [done|].
      change (t ∈ fds (storage s2)). by rewrite (un_fds _ _ _ (rm_untouched _ _ _ Hr)). }
    rewrite (bind_Ok _ _ _ _ _ Hrd). rewrite (on_page_Ok _ me pgp) by done. f_equal. unfold upd_page, s4, s3, registered. simpl.
    unfold upd_page, set_pool, set_page_objects. simpl. by rewrite !list_insert_insert_eq.
  + assert (L1 : leaves nothing (fun k => k = me) s s1) by (apply (page_leaves s me pg1 (memory_pool s) (ram s)); [done|lia]).
    assert (L2 : leaves nothing (fun k => k = me) s1 s2) by (eapply leaves_weaken; [by eapply room_leaves|done..]).
    apply (leaves_trans _ _ _ s2); [by apply (leaves_trans _ _ _ s1)|done|]. by rewrite (rm_tick _ _ _ Hr).
  + by apply list_lookup_insert_eq.
Qed.

Lemma repin_spec s me pg :
  bm_ok s -> held s me pg -> lastTimeTick (memory_pool s) < 2 ^ 32 ->
  ((exists s', repin me s = Exit s') /\ exhausted s) \/
  exists s' pg' a, repin me s = Ok tt s' /\ repinned s s' me pg pg' a.
Proof.
  intros [Hi Ht Hidle] [Hpg Hl] Htick. pose proof (proj1 Hidle me pg Hpg Hl) as Hst.
  assert (Hlt : (me < length (page_objects s))%nat) by by eapply lookup_lt_Some.
  pose proof (da_page _ (pv_data _ Hi) _ _ Hpg Hl) as Hok.
  unfold repin. rewrite (bind_Ok _ _ _ _ _ (page_of_Ok _ _ _ Hpg)). rewrite Hst. simpl. rewrite (bind_Ok _ _ s tt s) by done.
  destruct (pinned pg) eqn:Hpin; [|destruct (bytes pg) as [a|] eqn:Hb; [|by apply reload_spec]];
    unfold repin_locked; rewrite (bind_Ok _ _ _ _ _ (page_of_Ok _ _ _ Hpg)), Hpin.
  - right. destruct (bytes pg) as [a|] eqn:Hb; [|by apply (ok_pinned _ _ Hok) in Hb; [|by apply not_loading|]].
    exists s, pg, a. unfold repinned; split_and!; try done. apply leaves_refl.
  - right. set (pg' := set_pinned true pg).
    assert (Hok' : page_ok s pg').
    { split; try apply Hok; try done. simpl. intros _ _. by rewrite Hb.
      intros Hset. destruct (ok_set _ _ Hok Hset) as (t & E1 & E2 & E3). exists t. unfold repinned; split_and!; try done.
      simpl. destruct (pageLocations (storage s) !! (t, pageNum pg)); [done|]. split; [done|apply E3]. }
    destruct (pin_again s me pg pg' Hi Hpg ltac:(done) Hl a Hb ltac:(done) ltac:(done) Hok') as [Hi' Hk']; try done.
    set (q := pin_pool (base_of s a) (memory_pool s)) in *.
    exists (set_pool q (upd_page me pg' s)), pg', a. unfold repinned; split_and!; try done.
    + rewrite Hb, (bind_Ok _ _ _ _ _ (on_page_Ok s me pg _ Hpg)).
      apply (pinParent_Ok (upd_page me pg' s) me pg' a); [apply config_upd, Hi|by apply list_lookup_insert_eq|done].
    + split; [done| |].
      * simpl. unfold q, pin_pool. by destruct (_ <? 0).
      * apply (idle_all me pg'); [|by apply list_lookup_insert_eq|done].
        apply (idle_upd me pg' s q (ram s)); [done| |by apply idle_weaken]. unfold q, pin_pool. by destruct (_ <? 0).
    + apply (page_leaves s me pg' q (ram s)); [done|]. unfold q, pin_pool. destruct (_ <? 0); simpl; lia.
    + by apply list_lookup_insert_eq.
Qed.

(** ** A place in the file of a set *)

Definition placed_disk (t : PDBSet) (i : Z) (c : nat) (d : disk) : disk :=
  let e := default 0 (endOfFiles d !! t) in
  set_pageLocations (<[(t, i) := mkInfo e c]> (pageLocations d)) (set_endOfFiles (<[t := e + page_bytes c]> (endOfFiles d)) d).

Section place.
Context (s : buffer_manager) (me : nat) (pg : PDBPage) (t : PDBSet).
Context (Hi : pool_inv s) (Hpg : page_objects s !! me = Some pg) (Hl : live s me pg = true)
  (Ha : isAnon pg = false) (Ht : whichSet pg = Some t) (Hb : bytes pg <> None)
  (Hnew : pageLocations (storage s) !! (t, pageNum pg) = None).
Let c := numBytes (location pg).
Let d' := placed_disk t (pageNum pg) c (storage s).
Let pg' := set_startPos (default 0 (endOfFiles (storage s) !! t)) pg.
Let s' := set_storage d' (upd_page me pg' s).
Let Hsame : same_page pg pg' := same_page_refl pg.
Let Hok : page_ok s pg := da_page _ (pv_data _ Hi) _ _ Hpg Hl.
Let Hall : allPages s !! (t, pageNum pg) = Some me := proj1 (live_set s me pg t Ha Ht) Hl.

Lemma place_page k q : page_objects s' !! k = Some q -> live s' k q = true -> page_ok s' q.
Proof.
  change (page_objects s') with (page_objects (upd_page me pg' s)). rewrite (upd_lookup s me pg pg' Hpg). change (live s' k q) with (live s k q).
  destruct (ok_set _ _ Hok Ha) as (t' & Et & Hf & El). rewrite Ht in Et. injection Et as <-. rewrite Hnew in El.
  destruct (decide (k = me)) as [->|Hne].
  - intros [= <-] _. split; try apply Hok; try done.
    + simpl. by rewrite Ha.
    + intros _. exists t. split_and!; try done. change (pageLocations (storage s')) with (pageLocations d'). simpl. by rewrite lookup_insert_eq.
    + simpl. intros a x Hd. destruct El. congruence.
  - intros Hq Hlq. pose proof (da_page _ (pv_data _ Hi) _ _ Hq Hlq) as Hokq. split; try apply Hokq. intros Haq.
    destruct (ok_set _ _ Hokq Haq) as (t1 & E1 & E2 & E3). exists t1. split_and!; try done.
    change (pageLocations (storage s')) with (pageLocations d'). simpl. rewrite lookup_insert_ne; [done|].
    intros [= -> E]. apply Hne. apply (live_set s k q _ Haq E1) in Hlq. congruence.
Qed.
Lemma place_inv : pool_inv s'.
Proof.
  assert (Hi' := Hi). destruct Hi' as [Hc Hs Hp Hd].
  assert (Hres : forall k, res_of s' k = res_of s k).
  { intros k. change (res_of s' k) with (res_of (upd_page me pg' s) k). rewrite (res_of_upd s me pg pg') by done. unfold upd.
    destruct (decide (k = me)) as [->|]; [|done]. unfold res_of, on_live. by rewrite Hpg, Hl. }
  split; [by destruct Hc; split|by eapply slots_ok_res|by eapply pins_ok_res|]. split.
  - apply place_page.
  - intros t1 i k H. destruct (da_all _ Hd _ _ _ H) as (q & Hq & E1 & E2 & E3).
    change (page_objects s') with (page_objects (upd_page me pg' s)). rewrite (upd_lookup s me pg pg' Hpg).
    destruct (decide (k = me)) as [->|]; [|eauto]. exists pg'. by simplify_eq.
  - intros k q. change (page_objects s') with (page_objects (upd_page me pg' s)). rewrite (upd_lookup s me pg pg' Hpg).
    destruct (decide (k = me)) as [->|]; [|apply (da_held _ Hd)]. by intros [= <-].
  - intros k q. change (page_objects s') with (page_objects (upd_page me pg' s)). rewrite (upd_lookup s me pg pg' Hpg).
    destruct (decide (k = me)) as [->|]; [|apply (da_refs _ Hd)]. intros [= <-]. by apply (da_refs _ Hd me pg).
  - eapply temp_ok_less; [exact (config_classes _ Hc)|apply (da_temp _ Hd)|]. intros k p c1.
    change (temp_of s' k) with (temp_of (upd_page me pg' s) k). unfold temp_of. rewrite (on_live_upd s me pg pg') by done.
    destruct (decide (k = me)); [|eauto]. unfold region_of. simpl. by rewrite Ha, Hl.
  - apply (da_names _ Hd).
  - intros u i info. change (pageLocations (storage s')) with (pageLocations d'). simpl.
    intros [[[= <- <-] _]|[_ H]]%lookup_insert_Some; [|by apply (da_open _ Hd) in H].
    destruct (ok_set _ _ Hok Ha) as (t' & Et & Hf & _). congruence.
  - apply file_new; [exact (config_classes _ Hc)|apply (da_file _ Hd)|done|apply (ok_class _ _ Hok)].
Qed.
Lemma place_kept : kept s s'.
Proof.
  intros o c0 f. destruct o as [k|key]; unfold view.
  - change (page_objects s') with (page_objects (upd_page me pg' s)). rewrite (upd_lookup s me pg pg' Hpg).
    destruct (decide (k = me)) as [->|]; [rewrite Hpg, Ha; done|]. intros H. exists f. by split.
  - change (allPages s') with (allPages s). destruct (allPages s !! key) as [k|] eqn:Ek.
    + change (page_objects s') with (page_objects (upd_page me pg' s)). rewrite (upd_lookup s me pg pg' Hpg).
      destruct (decide (k = me)) as [->|]; [|intros H; exists f; by split]. rewrite Hpg. unfold page_view. simpl.
      destruct (bytes pg); [|done]. intros H. exists f. by split.
    + change (pageLocations (storage s')) with (<[(t, pageNum pg) := mkInfo (default 0 (endOfFiles (storage s) !! t)) c]> (pageLocations (storage s))).
      rewrite lookup_insert_ne by (intros <-; congruence). intros H. exists f. by split.
Qed.
End place.

(** ** Unpinning *)

Definition unpinned (pg : PDBPage) : PDBPage := set_frozen (set_pinned false pg).
Lemma unpin_run s me pg a :
  config_ok s -> page_objects s !! me = Some pg -> bytes pg = Some a -> pinned pg = true ->
  unpin me s = (if isAnon pg then mret tt else set <- unwrap NullDeref (whichSet pg) ;; place_in_file me set)
    (set_pool (unpin_pool (base_of s a) (memory_pool s)) (upd_page me (unpinned pg) s)).
Proof.
  intros Hc Hpg Hb Hp. assert (Hlt : (me < length (page_objects s))%nat) by by eapply lookup_lt_Some.
  unfold unpin. rewrite (bind_Ok _ _ _ _ _ (page_of_Ok _ _ _ Hpg)). rewrite Hp. simpl.
  rewrite (bind_Ok _ _ _ _ _ (on_page_Ok s me pg _ Hpg)). set (s1 := upd_page me (set_pinned false pg) s).
  assert (Hpg1 : page_objects s1 !! me = Some (set_pinned false pg)) by by apply list_lookup_insert_eq.
  rewrite (bind_Ok _ _ _ _ _ (on_page_Ok s1 me _ _ Hpg1)).
  assert (E2 : upd_page me (set_frozen (set_pinned false pg)) s1 = upd_page me (unpinned pg) s).
  { unfold upd_page, s1. simpl. unfold upd_page, set_page_objects. simpl. by rewrite list_insert_insert_eq. }
  rewrite E2. set (s2 := upd_page me (unpinned pg) s).
  rewrite (bind_Ok _ _ _ _ _ (parent_base s2 me (unpinned pg) a (config_upd _ _ _ Hc) (list_lookup_insert_eq _ _ _ Hlt) Hb)).
  done.
Qed.
Lemma placed_run s me pg t :
  page_objects s !! me = Some pg -> pageLocations (storage s) !! (t, pageNum pg) = None ->
  place_in_file me t s = Ok tt (set_storage (placed_disk t (pageNum pg) (numBytes (location pg)) (storage s))
    (upd_page me (set_startPos (default 0 (endOfFiles (storage s) !! t)) pg) s)).
Proof.
  intros Hpg Hnew. unfold place_in_file. rewrite (bind_Ok _ _ _ _ _ (page_of_Ok _ _ _ Hpg)).
  rewrite (bind_Ok _ _ s (storage s) s) by done. rewrite Hnew. cbv zeta. by rewrite (bind_Ok _ _ _ _ _ (on_page_Ok s me pg _ Hpg)).
Qed.
Lemma there_run s me pg t info :
  page_objects s !! me = Some pg -> pageLocations (storage s) !! (t, pageNum pg) = Some info -> place_in_file me t s = Ok tt s.
Proof.
  intros Hpg Hi. unfold place_in_file. rewrite (bind_Ok _ _ _ _ _ (page_of_Ok _ _ _ Hpg)).
  rewrite (bind_Ok _ _ s (storage s) s) by done. by rewrite Hi.
Qed.

Lemma unpinned_ok s pg a :
  page_ok s pg -> bytes pg = Some a ->
  (isAnon pg = false -> exists t info, whichSet pg = Some t /\ pageLocations (storage s) !! (t, pageNum pg) = Some info) -> page_ok s (unpinned pg).
Proof.
  intros Hok Hb Hplace. split; try apply Hok; try done; simpl.
  intros Ha. destruct (ok_set _ _ Hok Ha) as (t & E1 & E2 & E3). destruct (Hplace Ha) as (t' & info & E1' & E4).
  exists t. split_and!; try done. rewrite E1 in E1'. injection E1' as <-. by rewrite E4 in E3 |- *.
Qed.

(** The page with its place, if it had to get one. *)
Lemma placed_spec s me pg a :
  pool_inv s -> page_objects s !! me = Some pg -> live s me pg = true -> bytes pg = Some a ->
  exists d' l, let pg1 := set_location l pg in let s1 := set_storage d' (upd_page me pg1 s) in
    pool_inv s1 /\ kept s s1 /\ numBytes l = numBytes (location pg) /\
    (isAnon pg = false -> exists t info, whichSet pg = Some t /\ pageLocations d' !! (t, pageNum pg) = Some info) /\
    forall q, (if isAnon pg then mret tt else set <- unwrap NullDeref (whichSet pg) ;; place_in_file me set) (set_pool q (upd_page me (unpinned pg) s)) =
      Ok tt (set_pool q (set_storage d' (upd_page me (unpinned pg1) s))).
Proof.
  intros Hi Hpg Hl Hb. assert (Hlt : (me < length (page_objects s))%nat) by by eapply lookup_lt_Some.
  assert (Esame : set_location (location pg) pg = pg) by by destruct pg.
  assert (Eupd : upd_page me pg s = s).
  { unfold upd_page, set_page_objects. rewrite list_insert_id by done. by destruct s. }
  assert (Est : set_storage (storage s) s = s) by by destruct s.
  destruct (isAnon pg) eqn:Ha.
  { exists (storage s), (location pg). cbv zeta. rewrite Esame, Eupd, Est. split_and!; try done. apply kept_refl. }
  destruct (ok_set _ _ (da_page _ (pv_data _ Hi) _ _ Hpg Hl) Ha) as (t & Et & _ & _). rewrite Et.
  destruct (pageLocations (storage s) !! (t, pageNum pg)) as [info|] eqn:El.
  - exists (storage s), (location pg). cbv zeta. rewrite Esame, Eupd, Est. split_and!; try done; [apply kept_refl|eauto|].
    intros q. apply (there_run (set_pool q (upd_page me (unpinned pg) s)) me (unpinned pg) t info); [by apply list_lookup_insert_eq|done].
  - exists (placed_disk t (pageNum pg) (numBytes (location pg)) (storage s)), (mkInfo (default 0 (endOfFiles (storage s) !! t)) (numBytes (location pg))).
    assert (Hnb : bytes pg <> None) by by rewrite Hb. split_and!; try done.
    + by apply (place_inv s me pg t).
    + by apply (place_kept s me pg t).
    + intros _. exists t. eexists. split; [done|]. simpl. apply lookup_insert_eq.
    + intros q. etrans; [apply (placed_run _ me (unpinned pg)); [by apply list_lookup_insert_eq|done]|].
      f_equal. unfold upd_page, set_pool, set_storage, set_page_objects. simpl. by rewrite list_insert_insert_eq.
Qed.

Lemma unpin_spec s me pg :
  bm_ok s -> held s me pg ->
  exists s' pg', unpin me s = Ok tt s' /\ bm_ok s' /\ leaves nothing (fun k => k = me) s s' /\ page_objects s' !! me = Some pg' /\
    same_page pg pg' /\ pinned pg' = false /\ bytes pg' = bytes pg /\ dirty pg' = dirty pg /\ numBytes (location pg') = numBytes (location pg).
Proof.
  intros [Hi Ht Hidle] [Hpg Hl]. pose proof (proj1 Hidle me pg Hpg Hl) as Hst.
  assert (Hlt : (me < length (page_objects s))%nat) by by eapply lookup_lt_Some.
  pose proof (da_page _ (pv_data _ Hi) _ _ Hpg Hl) as Hok.
  destruct (pinned pg) eqn:Hp.
  2:{ exists s, pg. split_and!; try done; [|apply leaves_refl]. unfold unpin. rewrite (bind_Ok _ _ _ _ _ (page_of_Ok _ _ _ Hpg)). by rewrite Hp. }
  destruct (bytes pg) as [a|] eqn:Hb; [|by apply (ok_pinned _ _ Hok) in Hb; [|by apply not_loading|]].
  destruct (placed_spec s me pg a Hi Hpg Hl Hb) as (d' & l & Hi1 & Hk1 & Hnb & Hplace & Hrun).
  set (pg1 := set_location l pg) in *. set (s1 := set_storage d' (upd_page me pg1 s)) in *.
  assert (Hpg1 : page_objects s1 !! me = Some pg1) by by apply list_lookup_insert_eq.
  set (q := unpin_pool (base_of s a) (memory_pool s)).
  destruct (unpin_page s1 me pg1 (unpinned pg1) Hi1 Hpg1 ltac:(done) Hl a Hb Hb ltac:(done)) as (Hi2 & Hk2 & Htick); try done.
  { apply (unpinned_ok s1 pg1 a); try done. by apply (da_page _ (pv_data _ Hi1) me). }
  assert (E : set_pool q (upd_page me (unpinned pg1) s1) = set_pool q (set_storage d' (upd_page me (unpinned pg1) s))).
  { unfold set_pool, upd_page, s1, set_page_objects, set_storage. simpl. by rewrite list_insert_insert_eq. }
  change (unpin_pool (base_of s1 a) (memory_pool s1)) with q in *.
  exists (set_pool q (upd_page me (unpinned pg1) s1)), (unpinned pg1). split_and!; try done.
  - rewrite (unpin_run s me pg a) by (done || apply Hi). rewrite E. apply Hrun.
  - split; [done|simpl in *; lia|]. apply (idle_all me (unpinned pg1)); [|apply list_lookup_insert_eq; by eapply lookup_lt_Some|done].
    split; [|etrans; [|apply Hidle]; simpl; unfold q, unpin_pool; by destruct (_ =? 0)].
    intros k p Hne Hpk Hlk. rewrite E in Hpk. simpl in Hpk. rewrite list_lookup_insert_ne in Hpk by congruence. by apply (proj1 Hidle k).
  - split; try done; [intros o c f Hv _; exact (kept_trans _ _ _ Hk1 Hk2 o c f Hv)|]. rewrite E.
    intros k p Hpk Hne. exists p. split; [|done]. simpl. by rewrite list_lookup_insert_ne by congruence.
  - apply list_lookup_insert_eq. by eapply lookup_lt_Some.
Qed.
