(* ===== verification/BufferManagerGet.v ===== *)
(** Getting pages and freezing their sizes keeps the invariant of the buffer
    manager. *)

From S2P Require Import Prelude BufferManager BufferManagerPool BufferManagerInv BufferManagerEvict BufferManagerPages BufferManagerOps.

Open Scope Z_scope.

(** ** The class of a size *)

Lemma page_bytes_S k : (k < 11)%nat -> u64 (page_bytes k * 2) = page_bytes (S k).
Proof.
  intros Hk. rewrite !page_bytes_pow by lia. rewrite Nat2Z.inj_succ, Z.pow_succ_r by lia. unfold u64, wrapu, MIN_PAGE_SIZE.
  assert (0 < 2 ^ Z.of_nat k <= 2 ^ 11) by (split; [apply Z.pow_pos_nonneg; lia|apply Z.pow_le_mono_r; lia]).
  change (2 ^ 11) with 2048 in *. change (2 ^ 64) with 18446744073709551616. rewrite Z.mod_small; lia.
Qed.
Lemma log_size_loop_spec fuel k n C :
  (k <= C)%nat -> (C <= 11)%nat -> n <= page_bytes C -> (C - k <= fuel)%nat ->
  exists c, log_size_loop fuel (page_bytes k) n k = Some c /\ (k <= c <= C)%nat /\ n <= page_bytes c /\
    forall c', (k <= c' < c)%nat -> page_bytes c' < n.
Proof.
  revert k. induction fuel as [|fuel IH]; intros k Hk HC Hn Hf; simpl.
  - replace k with C by lia. rewrite (proj2 (Z.ltb_ge _ _)) by done. exists C. split_and!; try done; lia.
  - destruct (Z.ltb_spec (page_bytes k) n) as [Hlt|Hge].
    + assert (k <> C) by (intros ->; lia). rewrite page_bytes_S by lia.
      destruct (IH (S k)) as (c & E & Hc & Hnc & Hmin); try lia. exists c. split_and!; try done; [lia..|].
      intros c' Hc'. destruct (decide (c' = k)) as [->|]; [done|]. apply Hmin. lia.
    + exists k. split_and!; try done; lia.
Qed.
(** The smallest page that has the size. *)
Lemma getLogPageSize_spec n C : (C <= 11)%nat -> n <= page_bytes C ->
  exists c, getLogPageSize n = Some c /\ (c <= C)%nat /\ n <= page_bytes c /\ forall c', (c' < c)%nat -> page_bytes c' < n.
Proof.
  intros HC Hn. destruct (log_size_loop_spec 64 0 n C) as (c & E & Hc & Hnc & Hmin); try lia.
  exists c. split_and!; [exact E|lia|done|]. intros c' Hc'. apply Hmin. lia.
Qed.

(** ** Freezing *)

Definition object_of (me : nat) (pg : PDBPage) : object :=
  match whichSet pg with Some t => if isAnon pg then OAnon me else OSet (t, pageNum pg) | None => OAnon me end.
Lemma view_held s me pg : pool_inv s -> held s me pg -> view s (object_of me pg) = page_view s pg.
Proof.
  intros Hi [Hpg Hl]. unfold object_of. destruct (whichSet pg) as [t|] eqn:Et.
  - destruct (isAnon pg) eqn:Ea; simpl; [by rewrite Hpg, Ea, Hl|]. apply (live_set s me pg t Ea Et) in Hl. by rewrite Hl, Hpg.
  - destruct (isAnon pg) eqn:Ea; simpl; [by rewrite Hpg, Ea, Hl|].
    destruct (ok_set _ _ (da_page _ (pv_data _ Hi) _ _ Hpg Hl) Ea) as (t & ? & _). congruence.
Qed.

(** Only the view of a page that changes can change. *)
Lemma view_upd_other s me pg pg' o : pool_inv s -> held s me pg -> same_page pg pg' -> o <> object_of me pg ->
  view (upd_page me pg' s) o = view s o.
Proof.
  intros Hi [Hpg Hl] (S1 & S2 & S3 & S4) Hne. assert (Hlt : (me < length (page_objects s))%nat) by by eapply lookup_lt_Some.
  destruct o as [k|[t i]]; unfold view.
  - rewrite upd_page_lookup by done. destruct (decide (k = me)) as [->|]; [|done]. rewrite Hpg, S1.
    destruct (isAnon pg) eqn:Ea; [|done]. exfalso. apply Hne. unfold object_of. rewrite Ea. by destruct (whichSet pg).
  - change (allPages (upd_page me pg' s)) with (allPages s). destruct (allPages s !! (t, i)) as [k|] eqn:Ek; [|done].
    rewrite upd_page_lookup by done. destruct (decide (k = me)) as [->|]; [|done].
    destruct (da_all _ (pv_data _ Hi) _ _ _ Ek) as (q & Hq & E1 & E2 & E3). simplify_eq.
    exfalso. apply Hne. unfold object_of. by rewrite E1, E2.
Qed.

Section freeze.
Context (s : buffer_manager) (me : nat) (pg : PDBPage) (a : Z) (c : nat) (m : list Z).
Context (Hi : pool_inv s) (Hh : held s me pg) (Hb : bytes pg = Some a) (Hpin : pinned pg = true)
  (Hfull : numBytes (location pg) = classes s) (Hc : (c <= classes s)%nat) (Hm : emptyMini (memory_pool s) c = Some m)
  (Hplace : forall t, whichSet pg = Some t -> isAnon pg = false -> pageLocations (storage s) !! (t, pageNum pg) = None).
Let pg' := set_numBytes c (set_frozen pg).
Let q' := frozen_pool (classes s) a c m (memory_pool s).
Let s' := set_pool q' (upd_page me pg' s).
Let Hpg : page_objects s !! me = Some pg := he_page _ _ _ Hh.
Let Hl : live s me pg = true := he_live _ _ _ Hh.
Let Hsame : same_page pg pg' := same_page_refl pg.
Let Hok : page_ok s pg := da_page _ (pv_data _ Hi) _ _ Hpg Hl.
Let Hres : res_of s me = Some (a, classes s, true).
Proof. apply res_of_Some. eauto 8. Qed.

Lemma freeze_page : page_ok s pg'.
Proof.
  split; try apply Hok; try done.
  - intros Ha. destruct (ok_set _ _ Hok Ha) as (t & E1 & E2 & E3). exists t. split_and!; try done.
    simpl. rewrite (Hplace t E1 Ha) in E3 |- *. done.
  - intros a0 k Hd Hb0 Hk. rewrite (ok_copy _ _ Hok a0 k); try done.
    split; [lia|]. eapply Z.lt_le_trans; [apply Hk|]. unfold getSize. simpl. rewrite Hfull.
    apply page_bytes_mono; [done|by apply config_classes, Hi].
Qed.
Lemma freeze_inv : pool_inv s'.
Proof.
  pose proof Hi as [Hconf Hs Hp Hd]. pose proof (config_classes _ Hconf) as Hn.
  assert (Hupd : forall k, res_of s' k = upd (res_of s) me (Some (a, c, true)) k).
  { intros k. change (res_of s' k) with (res_of (upd_page me pg' s) k). rewrite (res_of_upd s me pg pg') by done. 
    unfold residence_of. simpl. by rewrite Hb, Hpin. }
  split; [by apply config_set_pool, config_upd| | |].
  - apply (slots_ok_res _ _ _ (upd (res_of s) me (Some (a, c, true)))); [exact Hupd|].
    by apply slots_freeze with (b := true).
  - apply (pins_ok_res _ _ _ (upd (res_of s) me (Some (a, c, true)))); [exact Hupd|].
    eapply pins_ok_ext; [..|exact Hp]; try done. intros p _ _. change (constituents (memory_pool s') p) with (constituents (memory_pool s) p).
    destruct (decide (me ∈ constituents (memory_pool s) p)) as [Hin|Hin]; [|by apply pinned_count_upd_out].
    rewrite (pinned_count_upd _ Hn) by (done || apply (sl_const_nodup _ _ _ _ Hs)). rewrite Hres. simpl. lia.
  - apply data_ok_pool. apply (data_ok_step s me pg pg' Hpg Hsame (storage s)); try done.
    + intros _. pose proof freeze_page as Hf. split; apply Hf.
    + eapply temp_ok_less; [done|apply (da_temp _ Hd)|]. intros k p c1.
      unfold temp_of. rewrite (on_live_upd s me pg pg') by done. destruct (decide (k = me)) as [->|]; [|eauto].
      unfold on_live. rewrite Hpg, Hl. unfold region_of. simpl. destruct (isAnon pg && negb (startPos (location pg) =? -1)); [|done].
      intros [= <- <-]. rewrite Hfull. eauto.
Qed.
Lemma freeze_leaves : leaves (fun o => o = object_of me pg) (fun k => k = me) s s'.
Proof.
  split; try done; [| |simpl; lia].
  - intros o c0 f Hv Hne. exists f. split; [|done]. rewrite <- Hv. apply (view_upd_other s me pg pg'); try done.
  - intros k p Hp Hne. exists p. split; [|done]. simpl. by rewrite list_lookup_insert_ne by congruence.
Qed.
End freeze.

Definition frozen_to (c : nat) (pg : PDBPage) : PDBPage := set_numBytes c (set_frozen pg).
Lemma freeze_run s me pg a c m n :
  config_ok s -> page_objects s !! me = Some pg -> bytes pg = Some a -> pinned pg = true -> sizeFrozen pg = false ->
  getLogPageSize n = Some c -> (c <= numBytes (location pg))%nat -> (c <= classes s)%nat -> emptyMini (memory_pool s) c = Some m ->
  freezeSize me n s = Ok tt (set_pool (frozen_pool (classes s) a c m (memory_pool s)) (upd_page me (frozen_to c pg) s)).
Proof.
  intros Hc Hpg Hb Hp Hf En Hle Hcl Hm. assert (Hlt : (me < length (page_objects s))%nat) by by eapply lookup_lt_Some.
  unfold freezeSize. rewrite (bind_Ok _ _ _ _ _ (page_of_Ok _ _ _ Hpg)). rewrite Hp, Hf. simpl.
  rewrite (bind_Ok _ _ _ _ _ (on_page_Ok s me pg _ Hpg)). set (s1 := upd_page me (set_frozen pg) s).
  assert (Hpg1 : page_objects s1 !! me = Some (set_frozen pg)) by by apply list_lookup_insert_eq.
  rewrite (bind_Ok _ _ s1 c s1) by (unfold log_page_size; by rewrite En).
  rewrite (proj2 (Nat.ltb_ge _ _) Hle). rewrite (bind_Ok _ _ _ _ _ (on_page_Ok s1 me _ _ Hpg1)).
  assert (E2 : upd_page me (set_numBytes c (set_frozen pg)) s1 = upd_page me (frozen_to c pg) s).
  { unfold upd_page, s1, set_page_objects. simpl. by rewrite list_insert_insert_eq. }
  rewrite E2, Hb. set (s2 := upd_page me (frozen_to c pg) s). rewrite (bind_Ok _ _ s2 a s2), (bind_Ok _ _ s2 s2 s2) by done. cbv zeta.
  change (pageSize s2) with (pageSize s). rewrite (bind_Ok _ _ _ _ _ (offsets_of_Ok s s2 c _ Hc Hcl)).
  exact (add_mini_pages_Ok a a c _ s2 m Hm).
Qed.

Lemma freezeSize_spec s me pg n :
  bm_ok s -> held s me pg -> pinned pg = true -> sizeFrozen pg = false -> numBytes (location pg) = classes s -> n <= pageSize s ->
  (forall t, whichSet pg = Some t -> isAnon pg = false -> pageLocations (storage s) !! (t, pageNum pg) = None) ->
  exists c s', freezeSize me n s = Ok tt s' /\ getLogPageSize n = Some c /\ (c <= classes s)%nat /\ n <= page_bytes c /\
    bm_ok s' /\ leaves (fun o => o = object_of me pg) (fun k => k = me) s s' /\
    page_objects s' !! me = Some (frozen_to c pg) /\ ram s' = ram s.
Proof.
  intros [Hi Ht Hidle] Hh Hp Hf Hfull Hn Hplace. pose proof Hh as [Hpg Hl]. pose proof (pv_config _ Hi) as Hconf.
  pose proof (da_page _ (pv_data _ Hi) _ _ Hpg Hl) as Hok. pose proof (proj1 Hidle me pg Hpg Hl) as Hst.
  assert (Hlt : (me < length (page_objects s))%nat) by by eapply lookup_lt_Some.
  destruct (bytes pg) as [a|] eqn:Hb; [|by apply (ok_pinned _ _ Hok) in Hb; [|by apply not_loading|]].
  destruct (getLogPageSize_spec n (classes s)) as (c & Ec & Hc & Hnc & _); [by apply config_classes|by rewrite <- (co_size _ Hconf)|].
  destruct (mini_list _ _ _ _ c (pv_slots _ Hi) Hc) as [m Hm].
  exists c, (set_pool (frozen_pool (classes s) a c m (memory_pool s)) (upd_page me (frozen_to c pg) s)). split_and!; try done.
  - apply freeze_run; try done. by rewrite Hfull.
  - split; [by apply freeze_inv|done|]. apply (idle_all me (frozen_to c pg)); [|by apply list_lookup_insert_eq|done].
    apply (idle_upd me (frozen_to c pg) s _ (ram s)); [done..|by apply idle_weaken].
  - by apply freeze_leaves.
  - by apply list_lookup_insert_eq.
Qed.

(** ** Writing *)

Lemma setDirty_spec s me pg :
  bm_ok s -> held s me pg -> pinned pg = true ->
  exists s', setDirty me s = Ok tt s' /\ bm_ok s' /\ leaves nothing (fun k => k = me) s s' /\
    page_objects s' !! me = Some (set_dirty true pg).
Proof.
  intros [Hi Ht Hidle] [Hpg Hl] Hp. pose proof (da_page _ (pv_data _ Hi) _ _ Hpg Hl) as Hok. pose proof (proj1 Hidle me pg Hpg Hl) as Hst.
  assert (Hlt : (me < length (page_objects s))%nat) by by eapply lookup_lt_Some.
  destruct (bytes pg) as [a|] eqn:Hb; [|by apply (ok_pinned _ _ Hok) in Hb; [|by apply not_loading|]].
  destruct (remark s me pg (set_dirty true pg) Hi Hpg ltac:(done) Hl) as [Hi1 Hk1]; try done.
  { split; try apply Hok; try done; simpl; [by rewrite Hb|]. intros Ha. destruct (ok_set _ _ Hok Ha) as (t & E1 & E2 & E3). exists t.
    split_and!; try done. simpl. destruct (pageLocations (storage s) !! (t, pageNum pg)); [done|]. by destruct E3. }
  { intros c f. unfold page_view. simpl. rewrite Hb. intros H. by exists f. }
  exists (upd_page me (set_dirty true pg) s). split_and!.
  - by rewrite <- (on_page_Ok s me pg (set_dirty true) Hpg).
  - split; [done..|]. apply (idle_all me (set_dirty true pg)); [|by apply list_lookup_insert_eq|done].
    apply (idle_upd me (set_dirty true pg) s (memory_pool s) (ram s)); [done..|by apply idle_weaken].
  - apply (page_leaves s me (set_dirty true pg) (memory_pool s) (ram s)); [done|lia].
  - by apply list_lookup_insert_eq.
Qed.

(** A client stores a byte in the memory of a page it has pinned. *)
Definition store (me : nat) (k v : Z) : BM unit :=
  a <- getBytes me ;;
  a <- unwrap NullDeref a ;;
  modify (fun s => set_ram (fun x => if x =? a + k then v else ram s x) s).

Section store.
Context (s : buffer_manager) (me : nat) (pg : PDBPage) (a k v : Z).
Context (Hi : pool_inv s) (Hh : held s me pg) (Hb : bytes pg = Some a) (Hdirty : dirty pg = true) (Hk : 0 <= k < getSize pg).
Let r : image := fun x => if x =? a + k then v else ram s x.
Let Hpg : page_objects s !! me = Some pg := he_page _ _ _ Hh.
Let Hl : live s me pg = true := he_live _ _ _ Hh.

Lemma store_apart k' q a' x : k' <> me -> page_objects s !! k' = Some q -> live s k' q = true -> bytes q = Some a' ->
  0 <= x < getSize q -> r (a' + x) = ram s (a' + x).
Proof.
  intros Hne Hq Hlq Hbq Hx. unfold r. rewrite (proj2 (Z.eqb_neq _ _)); [done|].
  apply (slots_apart _ (numPages s) (config_classes _ (pv_config _ Hi)) (memory_pool s) (res_of s) k' me a' (numBytes (location q)) (pinned q) a (numBytes (location pg)) (pinned pg));
    [apply Hi|apply res_of_Some; eauto 8|apply res_of_Some; eauto 8|done..].
Qed.
Lemma store_inv : pool_inv (set_ram r s).
Proof.
  pose proof Hi as [[] Hs Hp Hd]. split; try done. split; try apply Hd. intros k' q Hq Hlq.
  pose proof (da_page _ Hd k' q Hq Hlq) as Hokq. split; try apply Hokq. intros a' x Hdq Hbq Hx. simpl.
  rewrite (store_apart k' q) by (done || (intros ->; change (page_objects s !! me = Some q) in Hq; rewrite Hpg in Hq; congruence)). by apply (ok_copy _ _ Hokq).
Qed.
Lemma store_leaves : leaves (fun o => o = object_of me pg) nothing s (set_ram r s).
Proof.
  split; try done; [| |simpl; lia].
  2:{ intros k' q Hq _. by exists q. }
  intros o c f Hv Hne. revert Hv.
  assert (Hsame : forall k' q, k' <> me -> page_objects s !! k' = Some q -> live s k' q = true -> page_view s q = Some (c, f) ->
    exists f', page_view (set_ram r s) q = Some (c, f') /\ same_bytes c f f').
  { intros k' q Hnk Hq Hlq. unfold page_view. destruct (bytes q) as [a'|] eqn:Eb; [|intros H; by exists f]. intros [= <- <-].
    eexists. split; [done|]. intros x Hx. simpl. by apply (store_apart k' q). }
  destruct o as [k'|[t i]]; unfold view.
  - change (page_objects (set_ram r s)) with (page_objects s). destruct (page_objects s !! k') as [q|] eqn:Hq; [|done].
    change (live (set_ram r s) k' q) with (live s k' q). destruct (isAnon q && live s k' q) eqn:E; [|done].
    apply andb_true_iff in E as [Ea El]. apply (Hsame k'); try done. intros ->. apply Hne. rewrite Hpg in Hq. injection Hq as ->.
    unfold object_of. rewrite Ea. by destruct (whichSet q).
  - change (page_objects (set_ram r s)) with (page_objects s). change (allPages (set_ram r s)) with (allPages s).
    destruct (allPages s !! (t, i)) as [k'|] eqn:Ek; [|intros H; by exists f].
    destruct (da_all _ (pv_data _ Hi) _ _ _ Ek) as (q & Hq & E1 & E2 & E3). rewrite Hq. apply (Hsame k'); [|done|].
    + intros ->. apply Hne. rewrite Hpg in Hq. injection Hq as ->. unfold object_of. by rewrite E1, E2, E3.
    + apply (live_set s k' q t E1 E2). by rewrite E3.
Qed.
End store.

Lemma store_spec s me pg k v :
  bm_ok s -> held s me pg -> pinned pg = true -> dirty pg = true -> 0 <= k < getSize pg ->
  exists a s', store me k v s = Ok tt s' /\ bytes pg = Some a /\ bm_ok s' /\ leaves (fun o => o = object_of me pg) nothing s s' /\
    page_objects s' = page_objects s /\ allPages s' = allPages s /\ forall x, ram s' (a + x) = if x =? k then v else ram s (a + x).
Proof.
  intros [Hi Ht Hidle] Hh Hp Hd Hk. pose proof Hh as [Hpg Hl].
  pose proof (da_page _ (pv_data _ Hi) _ _ Hpg Hl) as Hok. pose proof (proj1 Hidle me pg Hpg Hl) as Hst.
  destruct (bytes pg) as [a|] eqn:Hb; [|by apply (ok_pinned _ _ Hok) in Hb; [|by apply not_loading|]].
  eexists a, (set_ram _ s). split_and!; [| |split| | | |]; try done.
  - unfold store, getBytes. unfold bind at 1. rewrite (bind_Ok _ _ _ _ _ (page_of_Ok _ _ _ Hpg)). unfold mret at 1, M_ret. by rewrite Hb.
  - by apply store_inv with me pg.
  - by apply store_leaves.
  - intros x. simpl. destruct (Z.eqb_spec (a + x) (a + k)), (Z.eqb_spec x k); done || lia.
Qed.

(** ** References *)

Section references.
Context (s : buffer_manager) (me : nat) (pg : PDBPage) (m : Z).
Context (Hi : pool_inv s) (Hh : held s me pg) (Hm : 0 <= m) (Hanon : isAnon pg = true -> m <> 0).
Let pg' := set_refCount m pg.
Let s' := upd_page me pg' s.
Let Hpg : page_objects s !! me = Some pg := he_page _ _ _ Hh.
Let Hl : live s me pg = true := he_live _ _ _ Hh.

Lemma ref_live : live s' me pg' = true.
Proof.
  unfold live. simpl. pose proof Hl as H. unfold live in H. destruct (isAnon pg); [|done].
  apply negb_true_iff, Z.eqb_neq. by apply Hanon.
Qed.
Lemma ref_lookup k q : page_objects s' !! k = Some q -> (k = me /\ q = pg') \/ (k <> me /\ page_objects s !! k = Some q).
Proof.
  unfold s'. rewrite upd_page_lookup by by eapply lookup_lt_Some. destruct (decide (k = me)) as [->|]; [|by right]. intros [= <-]. by left.
Qed.
Lemma ref_on_live {A} (f : PDBPage -> option A) k : f pg' = f pg -> on_live f s' k = on_live f s k.
Proof.
  intros Hf. unfold on_live at 1. unfold s'. rewrite upd_page_lookup by by eapply lookup_lt_Some. fold s'.
  destruct (decide (k = me)) as [->|]; [|done]. rewrite ref_live, Hf. unfold on_live.
  rewrite (he_page _ _ _ Hh), (he_live _ _ _ Hh). done.
Qed.
Lemma ref_inv : pool_inv s'.
Proof.
  pose proof Hi as [Hc Hs Hp Hd]. split; [by apply config_upd| | |split].
  - eapply slots_ok_res, Hs. intros k. by apply ref_on_live.
  - eapply pins_ok_res, Hp. intros k. by apply ref_on_live.
  - intros k q Hq Hlq. apply ref_lookup in Hq as [[-> ->]|[Hne Hq]].
    + pose proof (da_page _ Hd me pg Hpg Hl) as Hok. split; apply Hok.
    + pose proof (da_page _ Hd k q Hq Hlq) as Hok. split; apply Hok.
  - intros t i k H. destruct (da_all _ Hd _ _ _ H) as (q & Hq & E). unfold s'. rewrite upd_page_lookup by by eapply lookup_lt_Some.
    destruct (decide (k = me)) as [->|]; [|eauto]. rewrite (he_page _ _ _ Hh) in Hq. injection Hq as <-. by exists pg'.
  - intros k q Hq. apply ref_lookup in Hq as [[-> ->]|[Hne Hq]]; [intros _; apply ref_live|by apply (da_held _ Hd)].
  - intros k q Hq. apply ref_lookup in Hq as [[-> ->]|[Hne Hq]]; [done|by apply (da_refs _ Hd k)].
  - eapply temp_ok_less; [exact (config_classes _ Hc)|apply (da_temp _ Hd)|]. intros k p c H.
    unfold temp_of in H. rewrite ref_on_live in H by done. eauto.
  - apply (da_names _ Hd).
  - apply (da_open _ Hd).
  - apply (da_file _ Hd).
Qed.
Lemma ref_view o : view s' o = view s o.
Proof.
  assert (Hlt : (me < length (page_objects s))%nat) by by eapply lookup_lt_Some.
  destruct o as [k|key]; unfold view, s'.
  - rewrite upd_page_lookup by done. destruct (decide (k = me)) as [->|]; [|done]. fold s'. rewrite ref_live.
    rewrite (he_page _ _ _ Hh), (he_live _ _ _ Hh). done.
  - change (allPages (upd_page me pg' s)) with (allPages s). destruct (allPages s !! key) as [k|] eqn:Ek; [|done].
    rewrite upd_page_lookup by done. destruct (decide (k = me)) as [->|]; [|done]. by rewrite (he_page _ _ _ Hh).
Qed.
End references.

(** ** A new page *)

Definition add_page (pg : PDBPage) (A : gmap set_key nat) (s : buffer_manager) : buffer_manager :=
  set_allPages A (set_page_objects (page_objects s ++ [pg]) s).

Section add.
Context (s : buffer_manager) (pg : PDBPage) (A : gmap set_key nat).
Let me := length (page_objects s).
Let s' := add_page pg A s.
Context (Hi : pool_inv s) (Hok : page_ok s pg) (Hb : bytes pg = None) (Hr : 0 <= refCount pg).
Context (HA : (isAnon pg = true /\ A = allPages s /\ refCount pg <> 0 /\ dirty pg = true /\ startPos (location pg) = -1) \/
  (isAnon pg = false /\ exists t, whichSet pg = Some t /\ allPages s !! (t, pageNum pg) = None /\
     A = <[(t, pageNum pg) := me]> (allPages s) /\ dirty pg = bool_decide (pageLocations (storage s) !! (t, pageNum pg) = None))).

Lemma add_lookup k q : page_objects s' !! k = Some q -> (k = me /\ q = pg) \/ (k <> me /\ page_objects s !! k = Some q).
Proof.
  simpl. intros [H|[Hge H]]%lookup_app_Some; [right; split; [|done]|left].
  - apply lookup_lt_Some in H. unfold me. lia.
  - apply list_lookup_singleton_Some in H as [E <-]. split; [unfold me; lia|done].
Qed.
Lemma add_lookup_me : page_objects s' !! me = Some pg.
Proof. simpl. rewrite lookup_app_r by done. unfold me. by rewrite Nat.sub_diag. Qed.
Lemma add_lookup_other k q : page_objects s !! k = Some q -> page_objects s' !! k = Some q /\ k <> me.
Proof. intros H. split; [by apply lookup_app_l_Some|]. apply lookup_lt_Some in H. unfold me. lia. Qed.
Lemma add_all key k : k <> me -> A !! key = Some k <-> allPages s !! key = Some k.
Proof.
  intros Hne. destruct HA as [(_ & -> & _)|(_ & t & _ & Hnone & -> & _)]; [done|].
  destruct (decide ((t, pageNum pg) = key)) as [<-|]; [|by rewrite lookup_insert_ne].
  rewrite lookup_insert_eq, Hnone. split; [intros [= ?]; congruence|done].
Qed.
Lemma add_live k q : k <> me -> live s' k q = live s k q.
Proof.
  intros Hne. unfold live. destruct (isAnon q); [done|]. destruct (whichSet q); [|done]. apply bool_decide_ext. by apply add_all.
Qed.
Lemma add_live_me : live s' me pg = true.
Proof.
  unfold live. destruct HA as [(-> & _ & Hrc & _)|(-> & t & -> & _ & E & _)].
  - by apply negb_true_iff, Z.eqb_neq.
  - apply bool_decide_eq_true. simpl. rewrite E. apply lookup_insert_eq.
Qed.
Lemma add_on_live {B} (f : PDBPage -> option B) k : f pg = None -> on_live f s' k = on_live f s k.
Proof.
  intros Hf. unfold on_live. destruct (page_objects s' !! k) as [q|] eqn:Hq.
  - apply add_lookup in Hq as [[-> ->]|[Hne Hq]]; [|by rewrite Hq, add_live].
    rewrite add_live_me, Hf. unfold me. by rewrite lookup_ge_None_2.
  - destruct (page_objects s !! k) as [q|] eqn:Hq'; [|done]. apply add_lookup_other in Hq' as [? _]. congruence.
Qed.
Lemma add_res k : res_of s' k = res_of s k.
Proof. apply add_on_live. unfold residence_of. by rewrite Hb. Qed.
Lemma add_region : region_of pg = None.
Proof. unfold region_of. destruct HA as [(-> & _ & _ & _ & ->)|(-> & _)]; done. Qed.
Lemma add_inv : pool_inv s'.
Proof.
  pose proof Hi as [Hc Hs Hp Hd]. split; [by destruct Hc; split| | |split].
  - eapply slots_ok_res, Hs. apply add_res.
  - eapply pins_ok_res, Hp. apply add_res.
  - intros k q Hq Hlq. apply add_lookup in Hq as [[-> ->]|[Hne Hq]]; [split; apply Hok|].
    rewrite add_live in Hlq by done. pose proof (da_page _ Hd k q Hq Hlq) as Hokq. split; apply Hokq.
  - intros t i k H. destruct (decide (k = me)) as [->|Hne].
    + exists pg. split; [apply add_lookup_me|]. simpl in H. destruct HA as [(_ & -> & _)|(Ha & t' & Et & Hnone & -> & _)].
      * destruct (da_all _ Hd _ _ _ H) as (q & Hq & _). apply lookup_lt_Some in Hq. unfold me in Hq. lia.
      * apply lookup_insert_Some in H as [[[= -> ->] _]|[_ H]]; [done|].
        destruct (da_all _ Hd _ _ _ H) as (q & Hq & _). apply lookup_lt_Some in Hq. unfold me in Hq. lia.
    + apply add_all in H; [|done]. destruct (da_all _ Hd _ _ _ H) as (q & Hq & E). exists q. split; [|done]. by apply add_lookup_other.
  - intros k q Hq Hrc. apply add_lookup in Hq as [[-> ->]|[Hne Hq]]; [apply add_live_me|]. rewrite add_live by done. by apply (da_held _ Hd).
  - intros k q Hq. apply add_lookup in Hq as [[-> ->]|[Hne Hq]]; [done|by apply (da_refs _ Hd k)].
  - eapply temp_ok_less; [exact (config_classes _ Hc)|apply (da_temp _ Hd)|]. intros k p c H.
    unfold temp_of in H. rewrite add_on_live in H by apply add_region. eauto.
  - apply (da_names _ Hd).
  - apply (da_open _ Hd).
  - apply (da_file _ Hd).
Qed.
Lemma add_kept : kept s s'.
Proof.
  pose proof Hi as [_ _ _ Hd]. intros o c f. destruct o as [k|key]; unfold view.
  - destruct (page_objects s !! k) as [q|] eqn:Hq; [|done]. destruct (add_lookup_other k q Hq) as [Hq' Hne]. rewrite Hq', add_live by done.
    intros H. by exists f.
  - destruct (allPages s !! key) as [k|] eqn:Ek.
    + destruct key as [t i]. destruct (da_all _ Hd _ _ _ Ek) as (q & Hq & _). destruct (add_lookup_other k q Hq) as [Hq' Hne].
      change (allPages s') with A. rewrite (proj2 (add_all (t, i) k Hne) Ek), Hq, Hq'. intros H. by exists f.
    + change (allPages s') with A. change (storage s') with (storage s). destruct (A !! key) as [k|] eqn:EA; [|intros H; by exists f].
      destruct (decide (k = me)) as [->|Hne]; [|apply (add_all key k Hne) in EA; congruence].
      destruct HA as [(_ & -> & _)|(Ha & t & Et & Hnone & EqA & Hdirty)]; [congruence|]. rewrite EqA in EA.
      apply lookup_insert_Some in EA as [[<- _]|[_ EA]]; [|congruence]. rewrite add_lookup_me. unfold page_view. rewrite Hb, Hdirty.
      destruct (pageLocations (storage s) !! (t, pageNum pg)) as [info|] eqn:El; [|done]. rewrite bool_decide_false by done.
      destruct (ok_set _ _ Hok Ha) as (t' & Et' & _ & E). rewrite Et in Et'. injection Et' as <-. rewrite El in E.
      intros [= <- <-]. rewrite E. eexists. split; [done|]. intros x _. unfold disk_byte. by rewrite Ha, Et, E.
Qed.
Lemma add_leaves : leaves nothing nothing s s'.
Proof.
  split; try done; [| |simpl; lia].
  - intros o c f Hv _. by apply add_kept.
  - intros k q Hq _. exists q. split; [by apply add_lookup_other|done].
Qed.
Lemma add_idle : idle s -> idle_but me s'.
Proof.
  intros [H1 H2]. split; [|done]. intros k q Hne Hq Hlq. apply add_lookup in Hq as [[-> ->]|[_ Hq]]; [done|].
  rewrite add_live in Hlq by done. by apply (H1 k).
Qed.
Lemma add_spec : pool_inv s' /\ leaves nothing nothing s s' /\ page_objects s' !! me = Some pg /\ live s' me pg = true /\
  (forall k, res_of s' k = res_of s k) /\ (idle s -> idle_but me s').
Proof.
  split; [apply add_inv|]. split; [apply add_leaves|]. split; [apply add_lookup_me|]. split; [apply add_live_me|].
  split; [apply add_res|apply add_idle].
Qed.
End add.

(** ** Results *)

(** What a request for a page gives: a page that is pinned and has one more
    reference, and everything else as it was. *)
Record got (s s' : buffer_manager) (me : nat) (pg : PDBPage) : Prop := {
  go_ok : bm_ok s';
  go_leaves : leaves nothing (fun k => k = me) s s';
  go_page : page_objects s' !! me = Some pg;
  go_pinned : pinned pg = true;
  go_refs : 0 < refCount pg;
  go_old pg0 : page_objects s !! me = Some pg0 -> same_page (set_refCount (refCount pg0 + 1) pg0) pg /\ (pinned pg0 = true -> stays pg0 pg)
}.
Definition ref_page (me : nat) (pg : PDBPage) (s : buffer_manager) : buffer_manager := upd_page me (set_refCount (refCount pg + 1) pg) s.
Lemma bm_ref s me pg : bm_ok s -> held s me pg ->
  incRefCount me s = Ok tt (ref_page me pg s) /\ bm_ok (ref_page me pg s) /\ leaves nothing (fun k => k = me) s (ref_page me pg s) /\
  held (ref_page me pg s) me (set_refCount (refCount pg + 1) pg) /\ (forall o, view (ref_page me pg s) o = view s o) /\ 0 < refCount pg + 1.
Proof.
  intros [Hi Ht Hidle] Hh. pose proof Hh as [Hpg Hl]. pose proof (da_refs _ (pv_data _ Hi) _ _ Hpg) as Hr.
  assert (Hlt : (me < length (page_objects s))%nat) by by eapply lookup_lt_Some.
  assert (Hpg' : page_objects (ref_page me pg s) !! me = Some (set_refCount (refCount pg + 1) pg)) by by apply list_lookup_insert_eq.
  split_and!.
  - exact (on_page_Ok s me pg (fun p => set_refCount (refCount p + 1) p) Hpg).
  - split; [apply ref_inv; try done; lia|done|]. apply (idle_all me _ _ (idle_upd me _ s (memory_pool s) (ram s) Hlt eq_refl (idle_weaken _ _ Hidle)) Hpg').
    exact (proj1 Hidle me pg Hpg Hl).
  - split; try done; [| |simpl; lia].
    + intros o c f Hv _. exists f. split; [|done]. rewrite <- Hv. apply ref_view; try done; lia.
    + intros k q Hq Hne. exists q. split; [|done]. simpl. by rewrite list_lookup_insert_ne by congruence.
  - split; [done|]. apply ref_live; try done; lia.
  - intros o. apply ref_view; try done; lia.
  - lia.
Qed.

(** ** Anonymous pages *)

Definition anon_numbers_left (s : buffer_manager) : Prop := freeAnonPageNumbers s <> [] \/ u64 (i32 (lastFreeAnonPageNumber s + 1)) <> 2 ^ 64 - 1.
Lemma anon_number_spec s :
  (anon_number s = Exit s /\ ~ anon_numbers_left s) \/
  exists i l n, anon_number s = Ok i (set_anon_numbers l n s).
Proof.
  unfold anon_number, anon_numbers_left. rewrite (bind_Ok _ _ s s s) by done. destruct (freeAnonPageNumbers s) as [|x l] eqn:El.
  - destruct (Z.eqb_spec (u64 (i32 (lastFreeAnonPageNumber s + 1))) (2 ^ 64 - 1)) as [E|E].
    + left. split; [done|]. by intros [?|?].
    + right. eexists _, [], _. done.
  - right. rewrite (bind_Ok _ _ s tt s), (bind_Ok _ _ s s s) by done. rewrite El. destruct (last (x :: l)) as [i|] eqn:Elast; [|by apply last_None in Elast].
    eexists i, _, _. done.
Qed.
Lemma numbers_inv l n s : pool_inv s -> pool_inv (set_anon_numbers l n s).
Proof.
  intros [[] Hs Hp Hd]. split; try done. split; try apply Hd. intros k q Hq Hlq. pose proof (da_page _ Hd k q Hq Hlq) as Hok. split; apply Hok.
Qed.
Lemma numbers_leaves l n s : leaves nothing nothing s (set_anon_numbers l n s).
Proof.
  split; try done; [| |simpl; lia].
  - intros o c f Hv _. by exists f.
  - intros k q Hq _. by exists q.
Qed.

Lemma slot_of_ext s s' a c : classes s' = classes s -> numPages s' = numPages s -> memory_pool s' = memory_pool s ->
  (forall k, res_of s' k = res_of s k) -> slot_of s a c -> slot_of s' a c.
Proof. unfold slot_of, free_slot. intros -> -> -> E (? & ? & ? & ? & ? & ? & F). split_and!; try done. intros k c' b. by rewrite E. Qed.

Definition anon_page (b : option Z) (st : PDBPageStatus) (refs i : Z) (c : nat) : PDBPage :=
  mkPage b st true true refs i true false (mkInfo (-1) c) None.
Lemma anon_page_ok s i c : (c <= classes s)%nat -> page_ok s (anon_page None PDB_PAGE_LOADING 1 i c).
Proof. intros Hc. by split; try done; intros H; destruct H. Qed.

(** The page object is made when the memory is there. *)
Lemma anon_run s i a c :
  config_ok s -> let me := length (page_objects s) in
  (me <- new_page (anon_page (Some a) PDB_PAGE_LOADED 0 i c) ;; _ <- registerMiniPage me ;; _ <- incRefCount me ;; mret me) s =
  Ok me (registered me (anon_page (Some a) PDB_PAGE_LOADED 1 i c) a (add_page (anon_page None PDB_PAGE_LOADING 1 i c) (allPages s) s)).
Proof.
  intros Hc me. set (pg := anon_page (Some a) PDB_PAGE_LOADED 0 i c). set (s1 := set_page_objects (page_objects s ++ [pg]) s).
  rewrite (bind_Ok _ _ s me s1) by done.
  assert (Hpg : page_objects s1 !! me = Some pg) by (simpl; rewrite lookup_app_r by done; unfold me; by rewrite Nat.sub_diag).
  rewrite (bind_Ok _ _ _ _ _ (registerMiniPage_Ok s1 me pg a ltac:(by destruct Hc; split) Hpg eq_refl)).
  set (s2 := set_pool _ s1). unfold incRefCount. rewrite (bind_Ok _ _ s2 tt _ (on_page_Ok s2 me pg _ Hpg)). unfold mret, M_ret. f_equal.
  unfold upd_page, registered, add_page, s2, s1, set_page_objects, set_allPages, set_pool, upd_page. simpl.
  rewrite !(insert_app_r_alt _ _ me) by done. unfold me. by rewrite Nat.sub_diag.
Qed.

Lemma getPage_anon_spec s n :
  bm_ok s -> n <= pageSize s -> lastTimeTick (memory_pool s) < 2 ^ 32 ->
  ((exists s', getPage_anon n s = Exit s') /\ (exhausted s \/ ~ anon_numbers_left s)) \/
  exists me s' a i c, getPage_anon n s = Ok me s' /\ me = length (page_objects s) /\ n <= page_bytes c /\
    got s s' me (anon_page (Some a) PDB_PAGE_LOADED 1 i c).
Proof.
  intros [Hi Ht Hidle] Hn Htick. pose proof (pv_config _ Hi) as Hc.
  destruct (getLogPageSize_spec n (classes s)) as (c & Ec & Hcl & Hnc & _); [by apply config_classes|by rewrite <- (co_size _ Hc)|].
  set (me := length (page_objects s)). pose proof (idle_weaken me _ Hidle) as Hidle'.
  unfold getPage_anon. rewrite (bind_Ok _ _ s tt s) by (unfold check_initialized, bind, get; by rewrite (co_init _ Hc)).
  rewrite (bind_Ok _ _ s c s) by (unfold log_page_size; by rewrite Ec).
  destruct (getEmptyMemory_spec s c Hi) as [[[s1 E] Hex]|(a & s1 & l & E & Hr & Hslot)].
  { intros k q Hq Hl _. by apply (proj1 Hidle k). }
  { done. }
  { by eapply creating_false. }
  { left. split; [|by left]. exists s1. unfold bind at 1. by rewrite E. }
  rewrite (bind_Ok _ _ _ _ _ E).
  assert (Hme : length (page_objects s1) = me) by apply (un_count _ _ _ (rm_untouched _ _ _ Hr)).
  destruct (anon_number_spec s1) as [[E1 Hno]|(i & ls & m & E1)].
  { left. split; [exists s1; unfold bind at 1; by rewrite E1|right]. unfold anon_numbers_left in *.
    by rewrite (un_free _ _ _ (rm_untouched _ _ _ Hr)), (un_numbers _ _ _ (rm_untouched _ _ _ Hr)) in Hno. }
  right. rewrite (bind_Ok _ _ _ _ _ E1). set (s2 := set_anon_numbers ls m s1).
  assert (Hi2 : pool_inv s2) by by apply numbers_inv, Hr.
  assert (Hidle2 : idle s2).
  { destruct (room_idle me _ _ _ Hr Hidle') as [I1 I2]. split; [|done]. intros k q Hq Hl. apply (I1 k q); [|done..].
    apply lookup_lt_Some in Hq. change (page_objects s2) with (page_objects s1) in Hq. lia. }
  set (pgx := anon_page None PDB_PAGE_LOADING 1 i c). set (pg := anon_page (Some a) PDB_PAGE_LOADED 1 i c).
  assert (Hcl2 : (c <= classes s2)%nat) by (change (c <= classes s1)%nat; by rewrite (untouched_classes _ _ _ (rm_untouched _ _ _ Hr))).
  destruct (add_spec s2 pgx (allPages s2) Hi2 (anon_page_ok s2 i c Hcl2) eq_refl ltac:(done) ltac:(by left)) as (Hi3 & Hlv3 & Hpg3 & Hl3 & Hres3 & Hidle3).
  set (s3 := add_page pgx (allPages s2) s2) in *. change (length (page_objects s2)) with (length (page_objects s1)) in *. rewrite Hme in *.
  assert (Hslot3 : slot_of s3 a c) by by apply (slot_of_ext s1 s3).
  destruct (arrive s3 me pgx pg a (ram s3) Hi3 (Hidle3 Hidle2) Hpg3) as [Hok4 Hlv4]; try done.
  { change (memory_pool s3) with (memory_pool s1). rewrite (rm_tick _ _ _ Hr). lia. }
  exists me, (registered me pg a s3), a, i, c. split_and!; try done.
  - rewrite <- Hme. apply (anon_run s2 i a c). by apply Hi2.
  - split; try done.
    + assert (Ht1 : lastTimeTick (memory_pool s1) = lastTimeTick (memory_pool s)) by apply Hr.
      apply (leaves_trans _ _ _ s3); [|exact Hlv4|done]. apply (leaves_trans _ _ _ s2); [|eapply leaves_weaken; [exact Hlv3|done..]|done].
      apply (leaves_trans _ _ _ s1); [eapply leaves_weaken; [by eapply room_leaves|done..]|eapply leaves_weaken; [by apply numbers_leaves|done..]|done].
    + apply list_lookup_insert_eq. by eapply lookup_lt_Some.
    + intros pg0 H. apply lookup_lt_Some in H. unfold me in H. lia.
Qed.

(** ** Pages of sets *)

Lemma open_spec s t :
  bm_ok s -> (forall u, u ∈ fds (storage s) -> file_of u = file_of t -> u = t) -> exists s1, checkIfOpen t s = Ok tt s1 /\ bm_ok s1 /\ leaves nothing nothing s s1 /\ t ∈ fds (storage s1) /\
    page_objects s1 = page_objects s /\ allPages s1 = allPages s /\ pageLocations (storage s1) = pageLocations (storage s) /\
    memory_pool s1 = memory_pool s.
Proof.
  intros [Hi Ht Hidle] Hname. unfold checkIfOpen. rewrite (bind_Ok _ _ s (storage s) s) by done.
  destruct (decide (t ∈ fds (storage s))) as [Hin|Hin].
  { exists s. split_and!; try done. apply leaves_refl. }
  set (d1 := set_fds ({[t]} ∪ fds (storage s)) (storage s)).
  set (d := match endOfFiles (storage s) !! t with Some _ => d1 | None => set_endOfFiles (<[t := 0]> (endOfFiles (storage s))) d1 end).
  assert (Hd : fds d = {[t]} ∪ fds (storage s) /\ pageLocations d = pageLocations (storage s) /\ temp_file d = temp_file (storage s) /\
    set_file d = set_file (storage s) /\ availablePositions d = availablePositions (storage s) /\ lastTempPos d = lastTempPos (storage s) /\
    forall u, default 0 (endOfFiles d !! u) = default 0 (endOfFiles (storage s) !! u)).
  { unfold d. destruct (endOfFiles (storage s) !! t) eqn:Ee; split_and!; try done. intros u. simpl.
    destruct (decide (t = u)) as [<-|]; [by rewrite lookup_insert_eq, Ee|by rewrite lookup_insert_ne]. }
  destruct Hd as (D1 & D2 & D3 & D4 & D5 & D6 & D7).
  assert (Hdisk : forall q x, disk_byte d q x = disk_byte (storage s) q x) by (intros q x; unfold disk_byte; by rewrite D3, D4).
  exists (set_storage d s). pose proof Hi as [[] Hs Hp Hdata]. split_and!; try done; [split; try done|split; try done; [| |simpl; lia]|].
  - split; try done. split; try apply Hdata; simpl; rewrite ?D2, ?D5, ?D6; try apply Hdata.
    + intros k q Hq Hl. pose proof (da_page _ Hdata k q Hq Hl) as Hok. split; try apply Hok; simpl.
      * intros Ha. destruct (ok_set _ _ Hok Ha) as (u & E1 & E2 & E3). exists u. rewrite D1, D2. split_and!; [done|set_solver|done].
      * intros a x Hdq Hb Hx. rewrite Hdisk. by apply (ok_copy _ _ Hok).
    + intros u w. rewrite D1, !elem_of_union, !elem_of_singleton. intros [->|Hu] [->|Hw] Ef; try done.
      * symmetry. by apply Hname.
      * by apply Hname.
      * by apply (da_names _ Hdata).
    + intros u i info H. rewrite D1. apply (da_open _ Hdata) in H. set_solver.
    + destruct (da_file _ Hdata) as [F1 F2 F3]. split; [intros u; rewrite D7; apply F1| |done]. intros u i info H. rewrite D7. by apply (F2 u i).
  - intros o c f Hv _. exists f. split; [|done]. rewrite <- Hv. assert (Hpv : forall q, page_view (set_storage d s) q = page_view s q).
    { intros q. unfold page_view. destruct (bytes q); [done|]. destruct (dirty q); [done|]. f_equal. f_equal. unfold disk_byte. simpl. by rewrite D3, D4. }
    unfold view. change (page_objects (set_storage d s)) with (page_objects s). change (allPages (set_storage d s)) with (allPages s).
    change (storage (set_storage d s)) with d. rewrite D2, D4.
    destruct o as [k|key]; [by destruct (page_objects s !! k); rewrite ?Hpv|]. destruct (allPages s !! key) as [k|]; [|done].
    by destruct (page_objects s !! k); rewrite ?Hpv.
  - intros k q Hq _. by exists q.
  - simpl. rewrite D1. set_solver.
Qed.

(** A page of a set that is not there. *)
Definition set_page (b : option Z) (st : PDBPageStatus) (d : bool) (refs : Z) (t : PDBSet) (i : Z) (info : PDBPageInfo) : PDBPage :=
  mkPage b st true d refs i false false info (Some t).
Lemma set_page_ok s d refs t i info :
  (numBytes info <= classes s)%nat -> t ∈ fds (storage s) ->
  match pageLocations (storage s) !! (t, i) with Some x => info = x | None => d = true end -> page_ok s (set_page None PDB_PAGE_LOADING d refs t i info).
Proof.
  intros Hc Hf Hl. split; try done; simpl; try (intros H; by destruct H). intros _. exists t. split_and!; try done.
  by destruct (pageLocations (storage s) !! (t, i)).
Qed.
Lemma add_set_spec s d refs t i info :
  bm_ok s -> (numBytes info <= classes s)%nat -> t ∈ fds (storage s) -> allPages s !! (t, i) = None -> 0 <= refs ->
  match pageLocations (storage s) !! (t, i) with Some x => info = x /\ d = false | None => d = true end ->
  let me := length (page_objects s) in let pg := set_page None PDB_PAGE_LOADING d refs t i info in
  let s' := add_page pg (<[(t, i) := me]> (allPages s)) s in
  pool_inv s' /\ leaves nothing nothing s s' /\ page_objects s' !! me = Some pg /\ live s' me pg = true /\ idle_but me s'.
Proof.
  intros [Hi _ Hidle] Hc Hf Hnone Hr Hd me pg s'.
  destruct (add_spec s pg (<[(t, i) := me]> (allPages s)) Hi) as (H1 & H2 & H3 & H4 & H5 & H6); try done.
  - apply set_page_ok; try done. by destruct (pageLocations (storage s) !! (t, i)); [destruct Hd|].
  - right. split; [done|]. exists t. split_and!; try done. simpl. destruct (pageLocations (storage s) !! (t, i)).
    + destruct Hd as [_ ->]. by rewrite bool_decide_false.
    + by rewrite bool_decide_true.
  - split_and!; try done. by apply H6.
Qed.

Definition wanted (t : PDBSet) (i : Z) (pg : PDBPage) : Prop := isAnon pg = false /\ whichSet pg = Some t /\ pageNum pg = i.

Lemma getPage_new_spec s t i :
  bm_ok s -> lastTimeTick (memory_pool s) < 2 ^ 32 -> t ∈ fds (storage s) -> allPages s !! (t, i) = None -> pageLocations (storage s) !! (t, i) = None ->
  ((exists s', getPage_new t i s = Exit s') /\ exhausted s) \/
  exists me s' pg, getPage_new t i s = Ok me s' /\ got s s' me pg /\ wanted t i pg /\ sizeFrozen pg = false /\ dirty pg = true /\ numBytes (location pg) = classes s.
Proof.
  intros Hbm Htick Hf Hnone Hnew. pose proof Hbm as [Hi Ht Hidle]. set (info := mkInfo i (classes s)). set (me := length (page_objects s)).
  set (pg0 := set_page None PDB_PAGE_LOADING true 0 t i info). set (s1 := add_page pg0 (<[(t, i) := me]> (allPages s)) s).
  destruct (add_set_spec s true 0 t i info Hbm) as (Hi1 & Hlv1 & Hpg1 & Hl1 & Hidle1); try done; [by rewrite Hnew|].
  fold me pg0 s1 in Hi1, Hlv1, Hpg1, Hl1, Hidle1.
  set (K := fun _ : Z => _ <- incRefCount me ;; _ <- on_page me (set_status PDB_PAGE_LOADED) ;; mret me).
  change (getPage_new t i s) with (bring me (numBytes (location pg0)) K s1).
  destruct (bring_spec s1 me pg0 K Hi1 Hidle1 Hpg1 Hl1 eq_refl) as [H|(a & s2 & l & E & Hr & Hslot & Hpg2 & Hl2 & Hidle2)]; [by left|right].
  set (pgb := set_bytes (Some a) pg0). set (pg := set_status PDB_PAGE_LOADED pgb).
  assert (Hlt : (me < length (page_objects s2))%nat) by by eapply lookup_lt_Some.
  destruct (arrive s2 me pg0 pg a (ram s2)) as [Hok3 Hlv3]; try done.
  { by apply Hr. }
  { rewrite (rm_tick _ _ _ Hr). simpl. lia. }
  set (s3 := set_ram (ram s2) (registered me pg a s2)) in *.
  assert (Hh3 : held s3 me pg) by (split; [by apply list_lookup_insert_eq|done]).
  destruct (bm_ref s3 me pg Hok3 Hh3) as (_ & Hok4 & Hlv4 & Hh4 & _ & _).
  exists me, (ref_page me pg s3), (set_refCount (refCount pg + 1) pg). split_and!; try done.
  - rewrite E. unfold K, incRefCount. set (sb := registered me (set_bytes (Some a) pg0) a s2).
    rewrite (bind_Ok _ _ _ _ _ (on_page_Ok sb me pgb (fun p => set_refCount (refCount p + 1) p) (list_lookup_insert_eq _ _ _ Hlt))).
    set (sc := upd_page me _ sb). assert (Hpgc : page_objects sc !! me = Some (set_refCount (refCount pgb + 1) pgb)).
    { apply list_lookup_insert_eq. simpl. by rewrite length_insert. }
    rewrite (bind_Ok _ _ _ _ _ (on_page_Ok sc me _ _ Hpgc)). unfold mret, M_ret. f_equal.
    unfold ref_page, s3, sc, sb, registered, upd_page, set_page_objects, set_pool. simpl. by rewrite !list_insert_insert_eq.
  - split; try done.
    + apply (leaves_trans _ _ _ s3); [|exact Hlv4|]; [apply (leaves_trans _ _ _ s2); [apply (leaves_trans _ _ _ s1)|exact Hlv3|]|].
      * eapply leaves_weaken; [exact Hlv1|done..].
      * eapply leaves_weaken; [by eapply room_leaves|done..].
      * done.
      * by rewrite (rm_tick _ _ _ Hr).
      * unfold s3. simpl. unfold register_pool, pin_pool. destruct (_ <? 0); simpl; by rewrite (rm_tick _ _ _ Hr).
    + apply Hh4.
    + intros p0 H. apply lookup_lt_Some in H. unfold me in H. lia.
Qed.

Lemma getPage_load_spec s t i info :
  bm_ok s -> lastTimeTick (memory_pool s) < 2 ^ 32 -> t ∈ fds (storage s) -> allPages s !! (t, i) = None -> pageLocations (storage s) !! (t, i) = Some info ->
  ((exists s', getPage_load t i info s = Exit s') /\ exhausted s) \/
  exists me s' pg, getPage_load t i info s = Ok me s' /\ got s s' me pg /\ wanted t i pg.
Proof.
  intros Hbm Htick Hf Hnone Hloc. pose proof Hbm as [Hi Ht Hidle]. set (me := length (page_objects s)).
  set (pg0 := set_page None PDB_PAGE_LOADING false 1 t i info). set (s1 := add_page pg0 (<[(t, i) := me]> (allPages s)) s).
  destruct (fi_in _ _ _ (da_file _ (pv_data _ Hi)) _ _ _ Hloc) as (_ & _ & Hcl).
  destruct (add_set_spec s false 1 t i info Hbm) as (Hi1 & Hlv1 & Hpg1 & Hl1 & Hidle1); try done; [by rewrite Hloc|].
  fold me pg0 s1 in Hi1, Hlv1, Hpg1, Hl1, Hidle1.
  set (K := fun space : Z => _ <- read_page me space info ;; _ <- on_page me (set_status PDB_PAGE_LOADED) ;; mret me).
  assert (E0 : getPage_load t i info s = bring me (numBytes (location pg0)) K s1).
  { unfold getPage_load. set (pgx := mkPage _ _ _ _ _ _ _ _ _ _). set (sx := add_page pgx (<[(t, i) := me]> (allPages s)) s).
    rewrite (bind_Ok _ _ s me (set_page_objects (page_objects s ++ [pgx]) s)) by done. rewrite (bind_Ok _ _ _ tt sx) by done.
    assert (Hx : page_objects sx !! me = Some pgx) by (simpl; rewrite lookup_app_r by done; unfold me; by rewrite Nat.sub_diag).
    unfold incRefCount. rewrite (bind_Ok _ _ _ _ _ (on_page_Ok sx me pgx _ Hx)).
    replace (upd_page me (set_refCount (refCount pgx + 1) pgx) sx) with s1; [done|].
    unfold s1, sx, add_page, upd_page, set_page_objects, set_allPages. simpl. rewrite (insert_app_r_alt _ _ me) by done. unfold me. by rewrite Nat.sub_diag. }
  rewrite E0. destruct (bring_spec s1 me pg0 K Hi1 Hidle1 Hpg1 Hl1 eq_refl) as [H|(a & s2 & l & E & Hr & Hslot & Hpg2 & Hl2 & Hidle2)]; [by left|right].
  set (pgb := set_bytes (Some a) pg0). set (pg := set_status PDB_PAGE_LOADED pgb).
  assert (Hlt : (me < length (page_objects s2))%nat) by by eapply lookup_lt_Some.
  destruct (arrive s2 me pg0 pg a (ram_read s2 pg0 a)) as [Hok3 Hlv3]; try done.
  { by apply Hr. }
  { rewrite (rm_tick _ _ _ Hr). simpl. lia. }
  set (s3 := set_ram (ram_read s2 pg0 a) (registered me pg a s2)) in *.
  exists me, s3, pg. split_and!; try done.
  - rewrite E. unfold K. set (sb := registered me (set_bytes (Some a) pg0) a s2).
    assert (Hrd : read_page me a info sb = Ok tt (set_ram (ram_read s2 pg0 a) sb)).
    { apply (read_page_Ok sb me pgb a); [by apply list_lookup_insert_eq|]. intros _. exists t. split; [done|].
      change (t ∈ fds (storage s2)). by rewrite (un_fds _ _ _ (rm_untouched _ _ _ Hr)). }
    rewrite (bind_Ok _ _ _ _ _ Hrd). set (sc := set_ram _ sb).
    rewrite (bind_Ok _ _ _ _ _ (on_page_Ok sc me pgb _ (list_lookup_insert_eq _ _ _ Hlt))). unfold mret, M_ret. f_equal.
    unfold s3, sc, sb, registered, upd_page, set_page_objects, set_pool, set_ram. simpl. by rewrite !list_insert_insert_eq.
  - split; try done.
    + apply (leaves_trans _ _ _ s2); [apply (leaves_trans _ _ _ s1)|exact Hlv3|].
      * eapply leaves_weaken; [exact Hlv1|done..].
      * eapply leaves_weaken; [by eapply room_leaves|done..].
      * done.
      * by rewrite (rm_tick _ _ _ Hr).
    + by apply list_lookup_insert_eq.
    + intros p0 H. apply lookup_lt_Some in H. unfold me in H. lia.
Qed.

Lemma getPage_there_spec s me pg :
  bm_ok s -> lastTimeTick (memory_pool s) < 2 ^ 32 -> held s me pg ->
  ((exists s', getPage_there me s = Exit s') /\ exhausted s) \/
  exists s' pg', getPage_there me s = Ok me s' /\ got s s' me pg'.
Proof.
  intros Hbm Htick Hh. destruct (bm_ref s me pg Hbm Hh) as (E1 & Hok1 & Hlv1 & Hh1 & _ & Hrefs).
  set (s1 := ref_page me pg s) in *. set (pg1 := set_refCount (refCount pg + 1) pg) in *.
  assert (E0 : getPage_there me s = (_ <- repin me ;; mret me) s1).
  { unfold getPage_there. rewrite (bind_Ok _ _ _ _ _ E1). unfold repin. rewrite bind_assoc.
    rewrite !(bind_Ok _ _ _ _ _ (page_of_Ok _ _ _ (he_page _ _ _ Hh1))). by rewrite bind_assoc. }
  rewrite E0. destruct (repin_spec s1 me pg1 Hok1 Hh1 Htick)
    as [[[s' E] Hex]|(s' & pg' & a & E & Hok & Hlv & Hpg' & Hsame & Hloc & _ & _ & Hpin & Hb & Hbs)]; [left|right].
  - split; [|done]. exists s'. unfold bind at 1. by rewrite E.
  - exists s', pg'. rewrite (bind_Ok _ _ _ _ _ E). split; [done|]. split; try done.
    + by apply (leaves_trans _ _ _ s1).
    + destruct Hsame as (_ & _ & _ & ->). exact Hrefs.
    + intros pg0 Hpg0. rewrite (he_page _ _ _ Hh) in Hpg0. injection Hpg0 as <-. split; [done|]. intros Hp. split_and!; try done. apply Hbs.
      apply (ok_pinned _ _ (da_page _ (pv_data _ (bm_inv _ Hok1)) _ _ (he_page _ _ _ Hh1) (he_live _ _ _ Hh1))); [|done].
      apply not_loading. apply (proj1 (bm_idle _ Hok1) me); apply Hh1.
Qed.

Definition own_file (s : buffer_manager) (t : PDBSet) : Prop := forall u, u ∈ fds (storage s) -> file_of u = file_of t -> u = t.
Lemma getPage_set_spec s t i :
  bm_ok s -> own_file s t -> lastTimeTick (memory_pool s) < 2 ^ 32 ->
  ((exists s', getPage_set (Some t) i s = Exit s') /\ exhausted s) \/
  exists me s' pg, getPage_set (Some t) i s = Ok me s' /\ got s s' me pg /\ wanted t i pg.
Proof.
  intros Hbm Hname Htick. destruct (open_spec s t Hbm Hname) as (s1 & E1 & Hok1 & Hlv1 & Hf & Hobj & Hall & Hlocs & Hpool).
  assert (Hgot : forall s' me pg, got s1 s' me pg -> got s s' me pg).
  { intros s' me pg []. split; try done; [|by rewrite <- Hobj]. apply (leaves_trans _ _ _ s1); [|done|by rewrite Hpool]. by eapply leaves_weaken. }
  assert (Hex : exhausted s1 -> exhausted s) by (unfold exhausted; by rewrite Hpool). rewrite <- Hpool in Htick.
  unfold getPage_set. rewrite (bind_Ok _ _ s tt s) by (unfold check_initialized, bind, get; by rewrite (co_init _ (pv_config _ (bm_inv _ Hbm)))).
  rewrite (bind_Ok _ _ _ _ _ E1), (bind_Ok _ _ s1 s1 s1) by done.
  destruct (allPages s1 !! (t, i)) as [me|] eqn:Ea; [|destruct (pageLocations (storage s1) !! (t, i)) as [info|] eqn:El].
  - destruct (da_all _ (pv_data _ (bm_inv _ Hok1)) _ _ _ Ea) as (pg & Hpg & H1 & H2 & H3).
    assert (Hh : held s1 me pg) by (split; [done|]; apply (live_set s1 me pg t H1 H2); by rewrite H3).
    destruct (getPage_there_spec s1 me pg Hok1 Htick Hh) as [[? ?]|(s' & pg' & E & Hg)]; [left; auto|right].
    exists me, s', pg'. split_and!; [done|by apply Hgot|]. destruct (go_old _ _ _ _ Hg pg Hpg) as [(S1 & S2 & S3 & _) _].
    simpl in *. unfold wanted. by rewrite S1, S2, S3.
  - destruct (getPage_load_spec s1 t i info) as [[? ?]|(me & s' & pg & E & Hg & Hw)]; try done; [left; auto|right]. exists me, s', pg. auto.
  - destruct (getPage_new_spec s1 t i) as [[? ?]|(me & s' & pg & E & Hg & Hw & _)]; try done; [left; auto|right]. exists me, s', pg. auto.
Qed.
