(* ===== verification/BufferManagerDrop.v ===== *)
(** Letting go of pages: when nobody holds a page any more an anonymous one is
    freed, and one of a set is unpinned. *)

From S2P Require Import Prelude BufferManager BufferManagerPool BufferManagerInv BufferManagerEvict BufferManagerPages BufferManagerOps BufferManagerGet.

Open Scope Z_scope.

(** ** Memory that is free again *)

Lemma release_spec s n N res a c l :
  (n <= 11)%nat -> let q := memory_pool s in let p := full_of n a in
  slots_ok n N q res -> pins_ok n N q res -> free_slot n N q res a c -> constituents q p = l -> lastTimeTick q < 2 ^ 32 ->
  exists q', release_memory p a (match l with [] => true | _ :: _ => false end) s = Ok tt (set_pool q' s) /\
    slots_ok n N q' res /\ pins_ok n N q' res /\ lastTimeTick q' = lastTimeTick q /\ isCreatingSpace q' = isCreatingSpace q.
Proof.
  intros Hn q p Hs Hp Hfree Hl Ht. pose proof Hfree as (Hb & Hf & Hcl & Hcn & _ & _ & _). unfold release_memory.
  destruct l as [|k l]; rewrite (bind_Ok _ _ s q s) by done.
  - set (lru := if pins q p <? 0 then lru_erase (u32 (- pins q p)) (lastUsed q) else lastUsed q).
    set (s1 := set_pool (set_lastUsed lru q) s).
    assert (E1 : (if pins q p <? 0 then on_pool (fun p0 => set_lastUsed (lru_erase (u32 (- pins p0 p)) (lastUsed p0)) p0) else mret tt) s = Ok tt s1).
    { unfold s1, lru. destruct (pins q p <? 0); [done|]. unfold mret, M_ret. f_equal. unfold set_lastUsed, set_pool. by destruct s as [? ? ? ? ? ? [] ? ? ? ?]. }
    rewrite (bind_Ok _ _ _ _ _ E1). assert (Hs1 : slots_ok n N (memory_pool s1) res) by (eapply slots_ok_ext; [..|exact Hs]; done).
    destruct (drop_unused_spec n N s1 p res Hs1) as (q2 & E2 & Hs2 & [B1 B2 B3 B4 B5 B6] & Hu2).
    assert (Hc2 : forall p', constituents q2 p' = constituents q p') by (intros p'; unfold constituents; by rewrite B2).
    rewrite (bind_Ok _ _ _ _ _ E2). exists (set_emptyFullPages (emptyFullPages q2 ++ [p]) q2). split_and!; try done.
    + apply slots_free_full; try done; [by rewrite B1|by rewrite Hc2].
    + apply (pins_free_full n N Hn q _ res p); try done; simpl; [by rewrite B1|intros p' _; unfold pins; simpl; by rewrite B3].
  - destruct (mini_list _ _ _ _ c Hs Hcn) as [m Hm]. fold p in Hcl. rewrite Hcl, Hm.
    rewrite (bind_Ok _ _ s m s) by done. eexists. split; [done|]. split_and!; try done.
    + by apply slots_return.
    + eapply pins_ok_ext; [..|exact Hp]; done.
Qed.

(** ** The end of an anonymous page *)

Section kill.
Context (s : buffer_manager) (me : nat) (pg : PDBPage) (q' : pool) (nums : list Z).
Context (Hi : pool_inv s) (Hh : held s me pg) (Ha : isAnon pg = true).
Context (Hs' : slots_ok (classes s) (numPages s) q' (upd (res_of s) me None)) (Hp' : pins_ok (classes s) (numPages s) q' (upd (res_of s) me None)).
Let Hpg : page_objects s !! me = Some pg := he_page _ _ _ Hh.
Let Hl : live s me pg = true := he_live _ _ _ Hh.
Let dead := set_refCount 0 pg.

(** Its place in the temporary file can be used again. *)
Definition freed_disk (d : disk) : disk :=
  if startPos (location pg) =? -1 then d
  else set_availablePositions (<[numBytes (location pg) := default [] (availablePositions d !! numBytes (location pg)) ++ [startPos (location pg)]]> (availablePositions d)) d.
Definition killed : buffer_manager :=
  set_pool q' (set_anon_numbers nums (lastFreeAnonPageNumber s) (set_storage (freed_disk (storage s)) (upd_page me dead s))).

Lemma killed_disk : fds (freed_disk (storage s)) = fds (storage s) /\ pageLocations (freed_disk (storage s)) = pageLocations (storage s) /\
  endOfFiles (freed_disk (storage s)) = endOfFiles (storage s) /\ temp_file (freed_disk (storage s)) = temp_file (storage s) /\
  set_file (freed_disk (storage s)) = set_file (storage s) /\ lastTempPos (freed_disk (storage s)) = lastTempPos (storage s).
Proof. unfold freed_disk. by destruct (_ =? _). Qed.
Lemma killed_lookup k x : page_objects killed !! k = Some x -> (k = me /\ x = dead) \/ (k <> me /\ page_objects s !! k = Some x).
Proof.
  change (page_objects killed) with (page_objects (upd_page me dead s)). rewrite upd_page_lookup by by eapply lookup_lt_Some.
  destruct (decide (k = me)) as [->|]; [|by right]. intros [= <-]. by left.
Qed.
Lemma killed_on_live {A} (f : PDBPage -> option A) k : on_live f killed k = if decide (k = me) then None else on_live f s k.
Proof.
  unfold on_live at 1. change (page_objects killed) with (page_objects (upd_page me dead s)). rewrite upd_page_lookup by by eapply lookup_lt_Some.
  destruct (decide (k = me)) as [->|]; [|done]. unfold live. simpl. by rewrite Ha.
Qed.
Lemma killed_temp : temp_ok (classes s) (temp_of killed) (availablePositions (freed_disk (storage s))) (lastTempPos (storage s)).
Proof.
  pose proof (config_classes _ (pv_config _ Hi)) as Hn. pose proof (da_temp _ (pv_data _ Hi)) as Ht. unfold freed_disk.
  destruct (Z.eqb_spec (startPos (location pg)) (-1)) as [E|E].
  - eapply temp_ok_less; [done|exact Ht|]. intros k p c. unfold temp_of. rewrite killed_on_live. destruct (decide (k = me)); [done|eauto].
  - assert (Hme : temp_of s me = Some (startPos (location pg), numBytes (location pg))).
    { unfold temp_of, on_live. rewrite (he_page _ _ _ Hh), (he_live _ _ _ Hh). unfold region_of. rewrite Ha. by rewrite (proj2 (Z.eqb_neq _ _) E). }
    destruct (te_page _ _ _ _ Ht _ _ _ Hme) as (_ & _ & Hc).
    destruct (lookup_lt_is_Some_2 (availablePositions (storage s)) (numBytes (location pg))) as [l Hl']; [rewrite (te_length _ _ _ _ Ht); lia|].
    pose proof (temp_free _ Hn _ _ _ me _ l _ Ht Hme Hl') as Ht'. simpl.
    rewrite Hl'. simpl.
    eapply temp_ok_less; [done|exact Ht'|]. intros k p c. unfold temp_of, upd_region. rewrite killed_on_live. destruct (decide (k = me)); [done|eauto].
Qed.

Lemma killed_inv : pool_inv killed.
Proof.
  destruct killed_disk as (D1 & D2 & D3 & D4 & D5 & D6). pose proof Hi as [Hc _ _ Hd].
  assert (Hres : forall k, res_of killed k = upd (res_of s) me None k).
  { intros k. unfold res_of at 1. by rewrite killed_on_live. }
  split; [by destruct Hc; split|by eapply slots_ok_res|by eapply pins_ok_res|split].
  - intros k x Hx Hlx. apply killed_lookup in Hx as [[-> ->]|[Hne Hx]]; [unfold live in Hlx; simpl in Hlx; by rewrite Ha in Hlx|].
    pose proof (da_page _ Hd k x Hx Hlx) as Hok. split; try apply Hok; change (storage killed) with (freed_disk (storage s)).
    + rewrite D1, D2. apply Hok.
    + intros a y H1 H2 H3. unfold disk_byte. rewrite D4, D5. by apply (ok_copy _ _ Hok).
  - intros t i k H. destruct (da_all _ Hd _ _ _ H) as (x & Hx & E). exists x. split; [|done].
    change (page_objects killed) with (page_objects (upd_page me dead s)). rewrite upd_page_lookup by by eapply lookup_lt_Some.
    rewrite decide_False; [done|]. intros ->. rewrite (he_page _ _ _ Hh) in Hx. injection Hx as <-. by destruct E as (? & _); congruence.
  - intros k x Hx. apply killed_lookup in Hx as [[-> ->]|[Hne Hx]]; [done|]. by apply (da_held _ Hd).
  - intros k x Hx. apply killed_lookup in Hx as [[-> ->]|[Hne Hx]]; [done|]. by apply (da_refs _ Hd k).
  - change (lastTempPos (storage killed)) with (lastTempPos (freed_disk (storage s))). rewrite D6. apply killed_temp.
  - change (storage killed) with (freed_disk (storage s)). rewrite D1. apply (da_names _ Hd).
  - change (storage killed) with (freed_disk (storage s)). rewrite D1, D2. apply (da_open _ Hd).
  - change (storage killed) with (freed_disk (storage s)). rewrite D2, D3. apply (da_file _ Hd).
Qed.
Lemma killed_view o : o <> OAnon me -> view killed o = view s o.
Proof.
  destruct killed_disk as (D1 & D2 & D3 & D4 & D5 & D6). intros Hne.
  assert (Hpv : forall x, page_view killed x = page_view s x).
  { intros x. unfold page_view. change (storage killed) with (freed_disk (storage s)). unfold disk_byte. by rewrite D4, D5. }
  assert (Hlt : (me < length (page_objects s))%nat) by by eapply lookup_lt_Some.
  destruct o as [k|[t i]]; unfold view; change (page_objects killed) with (page_objects (upd_page me dead s)).
  - rewrite upd_page_lookup, decide_False by (done || congruence). destruct (page_objects s !! k) as [x|]; [|done]. by rewrite Hpv.
  - change (allPages killed) with (allPages s). change (storage killed) with (freed_disk (storage s)). rewrite D2, D5.
    destruct (allPages s !! (t, i)) as [k|] eqn:Ek; [|done]. destruct (da_all _ (pv_data _ Hi) _ _ _ Ek) as (x & Hx & E & _).
    rewrite upd_page_lookup, decide_False by first [done | (intros ->; rewrite (he_page _ _ _ Hh) in Hx; congruence)].
    rewrite Hx. apply Hpv.
Qed.
Lemma killed_leaves : lastTimeTick q' = lastTimeTick (memory_pool s) -> leaves (fun o => o = OAnon me) (fun k => k = me) s killed.
Proof.
  intros Ht. split; try done; [| |simpl; lia].
  - intros o c f Hv Hne. exists f. split; [|done]. by rewrite killed_view.
  - intros k x Hx Hne. exists x. split; [|done]. change (page_objects killed) with (page_objects (upd_page me dead s)).
    by rewrite upd_page_lookup, decide_False by (done || by eapply lookup_lt_Some).
Qed.
Lemma killed_idle : isCreatingSpace q' = isCreatingSpace (memory_pool s) -> idle s -> idle killed.
Proof.
  intros Hcr [H1 H2]. split; [|by etrans; [exact Hcr|]]. intros k x Hx Hlx. apply killed_lookup in Hx as [[-> ->]|[Hne Hx]]; [|by apply (H1 k)].
  unfold live in Hlx. simpl in Hlx. by rewrite Ha in Hlx.
Qed.
End kill.

Lemma still_valid s me pg : bm_ok s -> held s me pg ->
  isRemovalStillValid me (upd_page me (set_refCount 0 pg) s) = Ok true (upd_page me (set_refCount 0 pg) s).
Proof.
  intros [Hi _ Hidle] [Hpg Hl]. set (s1 := upd_page me (set_refCount 0 pg) s).
  assert (Hpg1 : page_objects s1 !! me = Some (set_refCount 0 pg)) by (apply list_lookup_insert_eq; by eapply lookup_lt_Some).
  unfold isRemovalStillValid. rewrite (bind_Ok _ _ _ _ _ (page_of_Ok _ _ _ Hpg1)). rewrite (bind_Ok _ _ s1 s1 s1) by done. simpl.
  unfold mret, M_ret. f_equal. pose proof (proj1 Hidle me pg Hpg Hl) as Hst. change (is_loading (set_refCount 0 pg)) with (is_loading pg). rewrite Hst.
  destruct (isAnon pg) eqn:Ea; [done|]. destruct (ok_set _ _ (da_page _ (pv_data _ Hi) _ _ Hpg Hl) Ea) as (t & Et & _). rewrite Et.
  apply bool_decide_eq_true. by apply (live_set s me pg t Ea Et).
Qed.

Definition free_numbers (s : buffer_manager) (pg : PDBPage) : list Z := freeAnonPageNumbers s ++ [pageNum pg].
Lemma free_run s me pg :
  bm_ok s -> held s me pg -> isAnon pg = true ->
  let s1 := killed s me pg (memory_pool s) (free_numbers s pg) in
  freeAnonymousPage me (upd_page me (set_refCount 0 pg) s) =
    (match bytes pg with
    | None => mret tt
    | Some space =>
        parent <- parent me ;;
        pl <- the_pool ;;
        miniPages <- unwrap EndIteratorDeref (erase_first me (constituents pl parent)) ;;
        _ <- on_pool (fun q => set_pins parent (pins q parent - if pinned pg then 1 else 0)
                                 (set_constituents parent miniPages q)) ;;
        release_memory parent space (match miniPages with [] => true | _ :: _ => false end)
    end) s1.
Proof.
  intros Hbm Hh Ha s1. unfold freeAnonymousPage. rewrite (bind_Ok _ _ _ _ _ (still_valid s me pg Hbm Hh)). simpl.
  set (s0 := upd_page me (set_refCount 0 pg) s). pose proof Hbm as [Hi _ _]. pose proof Hh as [Hpg Hl].
  assert (Hpg1 : page_objects s0 !! me = Some (set_refCount 0 pg)) by (apply list_lookup_insert_eq; by eapply lookup_lt_Some).
  rewrite (bind_Ok _ _ _ _ _ (page_of_Ok _ _ _ Hpg1)). cbv zeta.
  erewrite (bind_Ok _ _ s0 tt (set_storage (freed_disk pg (storage s)) s0)); [done|]. unfold freed_disk.
  change (location (set_refCount 0 pg)) with (location pg).
  destruct (startPos (location pg) =? -1); [unfold mret, M_ret; f_equal; by destruct s|].
  rewrite (bind_Ok _ _ s0 (storage s) s0) by done.
  destruct (lookup_lt_is_Some_2 (availablePositions (storage s)) (numBytes (location pg))) as [l Hl'].
  { rewrite (te_length _ _ _ _ (da_temp _ (pv_data _ Hi))). pose proof (ok_class _ _ (da_page _ (pv_data _ Hi) _ _ Hpg Hl)). lia. }
  rewrite Hl'. done.
Qed.

Lemma freeAnonymousPage_spec s me pg :
  bm_ok s -> held s me pg -> isAnon pg = true -> lastTimeTick (memory_pool s) < 2 ^ 32 ->
  exists s', freeAnonymousPage me (upd_page me (set_refCount 0 pg) s) = Ok tt s' /\ bm_ok s' /\
    leaves (fun o => o = OAnon me) (fun k => k = me) s s'.
Proof.
  intros Hbm Hh Ha Htick. pose proof Hbm as [Hi Ht Hidle]. pose proof Hh as [Hpg Hl]. pose proof (config_classes _ (pv_config _ Hi)) as Hn.
  rewrite (free_run s me pg Hbm Hh Ha). set (nums := free_numbers s pg).
  assert (Hend : forall q', slots_ok (classes s) (numPages s) q' (upd (res_of s) me None) -> pins_ok (classes s) (numPages s) q' (upd (res_of s) me None) ->
    lastTimeTick q' = lastTimeTick (memory_pool s) -> isCreatingSpace q' = isCreatingSpace (memory_pool s) ->
    bm_ok (killed s me pg q' nums) /\ leaves (fun o => o = OAnon me) (fun k => k = me) s (killed s me pg q' nums)).
  { intros q' Hs' Hp' Htq Hcq. split; [split|by apply killed_leaves].
    - by apply killed_inv.
    - simpl. lia.
    - by apply killed_idle. }
  destruct (bytes pg) as [a|] eqn:Hb.
  - assert (Hres : res_of s me = Some (a, numBytes (location pg), pinned pg)) by (apply res_of_Some; eauto 8).
    set (s1 := killed s me pg (memory_pool s) nums).
    assert (Epar : parent me s1 = Ok (base_of s a) s1).
    { assert (Hpg1 : page_objects s1 !! me = Some (set_refCount 0 pg)) by (apply list_lookup_insert_eq; by eapply lookup_lt_Some).
      rewrite (parent_Ok s1 me _ a Hpg1 Hb). f_equal. exact (parent_full s a (pv_config _ Hi)). }
    rewrite (bind_Ok _ _ _ _ _ Epar). rewrite (bind_Ok _ _ s1 (memory_pool s) s1) by done.
    destruct (erase_first_Some me (constituents (memory_pool s) (base_of s a))) as [l El].
    { apply (sl_const _ _ _ _ (pv_slots _ Hi)). eauto 6. }
    rewrite El. rewrite (bind_Ok _ _ s1 l s1) by done. set (qf := forget_pool me (base_of s a) (pinned pg) l (memory_pool s)).
    set (s2 := set_pool qf s1). rewrite (bind_Ok _ _ s1 tt s2) by done.
    destruct (slots_forget _ _ _ _ _ _ _ _ _ (pv_slots _ Hi) Hres El) as [Hsf Hfree].
    pose proof (pins_forget _ _ Hn _ _ _ _ _ _ _ (pv_slots _ Hi) (pv_pins _ Hi) Hres El) as Hpf.
    destruct (release_spec s2 (classes s) (numPages s) (upd (res_of s) me None) a (numBytes (location pg)) l Hn) as (q' & Er & Hs' & Hp' & Htq & Hcq).
    { eapply slots_ok_ext; [..|exact Hsf]; done. }
    { exact Hpf. }
    { exact Hfree. }
    { change (constituents (set_constituents (base_of s a) l (memory_pool s)) (base_of s a) = l). by rewrite constituents_set, decide_True. }
    { done. }
    exists (killed s me pg q' nums). split; [exact Er|by apply Hend].
  - assert (Hres : forall k, upd (res_of s) me None k = res_of s k).
    { intros k. unfold upd. destruct (decide (k = me)) as [->|]; [|done]. unfold res_of, on_live, residence_of. by rewrite Hpg, Hl, Hb. }
    exists (killed s me pg (memory_pool s) nums). split; [done|].
    apply Hend; [eapply slots_ok_res; [done|apply Hi]|eapply pins_ok_res; [done|apply Hi]|done..].
Qed.

(** ** Handles that go *)

Lemma downToZeroReferences_spec s me pg :
  bm_ok s -> held s me pg -> isAnon pg = false ->
  exists s', downToZeroReferences me (upd_page me (set_refCount 0 pg) s) = Ok tt s' /\ bm_ok s' /\ leaves nothing (fun k => k = me) s s'.
Proof.
  intros Hbm Hh Ha. pose proof Hbm as [Hi Ht Hidle]. pose proof Hh as [Hpg Hl]. set (s1 := upd_page me (set_refCount 0 pg) s).
  assert (Hlt : (me < length (page_objects s))%nat) by by eapply lookup_lt_Some.
  assert (Hpg1 : page_objects s1 !! me = Some (set_refCount 0 pg)) by by apply list_lookup_insert_eq.
  assert (Hi1 : pool_inv s1) by (apply ref_inv; [done..|by rewrite Ha]).
  assert (Hh1 : held s1 me (set_refCount 0 pg)) by (split; [done|]; apply ref_live; [done..|by rewrite Ha]).
  assert (Hidle1 : idle s1).
  { apply (idle_all me _ _ (idle_upd me _ s (memory_pool s) (ram s) Hlt eq_refl (idle_weaken _ _ Hidle)) Hpg1). exact (proj1 Hidle me pg Hpg Hl). }
  assert (Hlv1 : leaves nothing (fun k => k = me) s s1).
  { split; try done; [| |simpl; lia].
    - intros o c f Hv _. exists f. split; [|done]. rewrite <- Hv. apply ref_view; [done..|by rewrite Ha].
    - intros k q Hq Hne. exists q. split; [|done]. simpl. by rewrite list_lookup_insert_ne by congruence. }
  unfold downToZeroReferences. rewrite (bind_Ok _ _ _ _ _ (still_valid s me pg Hbm Hh)). simpl.
  fold s1. rewrite (bind_Ok _ _ _ _ _ (page_of_Ok _ _ _ Hpg1)). simpl.
  destruct (bytes pg) as [a|] eqn:Hb.
  - destruct (unpin_spec s1 me (set_refCount 0 pg)) as (s' & pg' & E & Hok & Hlv & _); [by split|done|].
    exists s'. split_and!; try done. by apply (leaves_trans _ _ _ s1).
  - pose proof (da_page _ (pv_data _ Hi) _ _ Hpg Hl) as Hok. destruct (ok_set _ _ Hok Ha) as (t & Et & _). rewrite Et.
    pose proof (ok_dirty _ _ Hok (not_loading _ (proj1 Hidle me pg Hpg Hl)) Hb) as Hdirty.
    destruct (drop_page s1 t (pageNum pg) me (set_refCount 0 pg)) as [Hd2 Hk2]; try done; [apply Hi1|apply Hi1|by apply (live_set s me pg t Ha Et)|].
    set (s2 := set_allPages (delete (t, pageNum pg) (allPages s1)) s1).
    assert (Hlive : forall k q, live s2 k q = true -> live s1 k q = true).
    { intros k q. unfold live. destruct (isAnon q); [done|]. destruct (whichSet q); [|done]. rewrite !bool_decide_eq_true. simpl. by intros [_ ?]%lookup_delete_Some. }
    assert (Hres : forall k, res_of s2 k = res_of s1 k).
    { intros k. unfold res_of, on_live. change (page_objects s2) with (page_objects s1). destruct (page_objects s1 !! k) as [q|] eqn:Hq; [|done].
      destruct (live s2 k q) eqn:E; [by rewrite (Hlive _ _ E)|]. destruct (live s1 k q) eqn:E1; [|done].
      destruct (decide (k = me)) as [->|Hne]; [rewrite Hpg1 in Hq; injection Hq as <-; unfold residence_of; simpl; by rewrite Hb|].
      exfalso. revert E E1. unfold live. destruct (isAnon q); [congruence|]. destruct (whichSet q) as [u|]; [|congruence].
      rewrite bool_decide_eq_false, bool_decide_eq_true. simpl. intros E E1. apply E. apply lookup_delete_Some. split; [|done].
      intros Ek. rewrite <- Ek in E1. apply (live_set s me pg t Ha Et) in Hl. congruence. }
    exists s2. split_and!; try done.
    + split; [|done|].
      * destruct Hi1 as [[] Hs Hp _]. split; [by split|by eapply slots_ok_res|by eapply pins_ok_res|done].
      * destruct Hidle1 as [I1 I2]. split; [|done]. intros k q Hq Hlq. by apply (I1 k q Hq), Hlive.
    + apply (leaves_trans _ _ _ s1); [done| |done]. split; try done; [| |simpl; lia].
      * intros o c f Hv _. by apply Hk2.
      * intros k q Hq _. by exists q.
Qed.

(** A page somebody holds loses a reference; only the last one to an anonymous
    page takes its bytes with it. *)
Lemma decRefCount_spec s me pg :
  bm_ok s -> held s me pg -> 0 < refCount pg -> lastTimeTick (memory_pool s) < 2 ^ 32 ->
  exists s', decRefCount me s = Ok tt s' /\ bm_ok s' /\
    leaves (fun o => o = OAnon me /\ refCount pg = 1) (fun k => k = me) s s'.
Proof.
  intros Hbm Hh Hr Htick. pose proof Hbm as [Hi Ht Hidle]. pose proof Hh as [Hpg Hl].
  assert (Hlt : (me < length (page_objects s))%nat) by by eapply lookup_lt_Some.
  unfold decRefCount. set (pg1 := set_refCount (refCount pg - 1) pg). set (s1 := upd_page me pg1 s).
  assert (Hpg1 : page_objects s1 !! me = Some pg1) by by apply list_lookup_insert_eq.
  rewrite (bind_Ok _ _ s tt s1) by exact (on_page_Ok s me pg (fun p => set_refCount (refCount p - 1) p) Hpg).
  rewrite (bind_Ok _ _ _ _ _ (page_of_Ok _ _ _ Hpg1)). change (isAnon pg1) with (isAnon pg). change (refCount pg1) with (refCount pg - 1).
  destruct (Z.eqb_spec (refCount pg - 1) 0) as [E|E].
  - assert (Es1 : s1 = upd_page me (set_refCount 0 pg) s) by (unfold s1, pg1; by rewrite E). rewrite Es1.
    destruct (isAnon pg) eqn:Ha.
    + destruct (freeAnonymousPage_spec s me pg Hbm Hh Ha Htick) as (s' & Er & Hok & Hlv). exists s'. split_and!; try done.
      eapply leaves_weaken; [exact Hlv| |done]. intros o ->. split; [done|lia].
    + destruct (downToZeroReferences_spec s me pg Hbm Hh Ha) as (s' & Er & Hok & Hlv). exists s'. split_and!; try done. by eapply leaves_weaken.
  - exists s1. split; [done|]. assert (Hm : isAnon pg = true -> refCount pg - 1 <> 0) by done. split; [split|].
    + apply ref_inv; try done. lia.
    + done.
    + apply (idle_all me _ _ (idle_upd me _ s (memory_pool s) (ram s) Hlt eq_refl (idle_weaken _ _ Hidle)) Hpg1). exact (proj1 Hidle me pg Hpg Hl).
    + split; try done; [| |simpl; lia].
      * intros o c f Hv _. exists f. split; [|done]. rewrite <- Hv. apply ref_view; done || lia.
      * intros k q Hq Hne. exists q. split; [|done]. simpl. by rewrite list_lookup_insert_ne by congruence.
Qed.
