(* ===== verification/BufferManagerSpec.v ===== *)
(** Sequences of requests to a buffer manager, from its start on. *)

From S2P Require Import Prelude BufferManager BufferManagerPool BufferManagerInv BufferManagerEvict BufferManagerPages BufferManagerOps BufferManagerGet BufferManagerDrop.

Open Scope Z_scope.

Definition size_of (k : nat) : Z := MIN_PAGE_SIZE * 2 ^ Z.of_nat k.
Lemma size_of_S k : size_of (S k) = size_of k * 2.
Proof. unfold size_of. rewrite Nat2Z.inj_succ, Z.pow_succ_r by lia. lia. Qed.
Lemma size_of_mono j k : (j <= k)%nat -> size_of j <= size_of k.
Proof. intros H. unfold size_of, MIN_PAGE_SIZE. assert (2 ^ Z.of_nat j <= 2 ^ Z.of_nat k) by (apply Z.pow_le_mono_r; lia). lia. Qed.

Lemma size_classes_spec fuel k P :
  P < size_of 12 -> (k <= 12)%nat -> (12 - k <= fuel)%nat ->
  exists m, size_classes fuel (size_of k) P k = Some (m, size_of m) /\ (k <= m <= 12)%nat /\ P < size_of m.
Proof.
  intros HP. revert k. induction fuel as [|fuel IH]; intros k Hk Hf; simpl.
  - replace k with 12%nat by lia. rewrite (proj2 (Z.leb_gt _ _)) by done. exists 12%nat. split_and!; done || lia.
  - destruct (Z.leb_spec (size_of k) P) as [Hle|Hgt]; [|exists k; split_and!; done || lia].
    assert (k <> 12%nat) by (intros ->; lia).
    assert (Eu : u64 (size_of k * 2) = size_of (S k)).
    { rewrite size_of_S. unfold u64, wrapu. apply Z.mod_small. pose proof (size_of_mono k 12 ltac:(lia)) as H1.
      pose proof (size_of_mono 0 k ltac:(lia)) as H0. change (size_of 12) with 4294967296 in H1. change (size_of 0) with 1048576 in H0.
      change (2 ^ 64) with 18446744073709551616. lia. }
    rewrite Eu. destruct (IH (S k)) as (m & E & Hm & HPm); [lia..|]. exists m. split_and!; done || lia.
Qed.

Section start.
Context (P N : Z) (temp : image) (files : string -> image) (s : buffer_manager).
Context (HP : MIN_PAGE_SIZE <= P <= 2 ^ 31).
Context (Hrun : initialize P N (bm_default temp files) = Ok tt s).

Lemma started : exists n, (n <= 11)%nat /\ P = page_bytes n /\ s =
  mkBM true P N (Z.of_nat n) [] ∅ (mkPool (offsets 0 (N * P) P) (replicate (S n) []) ∅ ∅ ∅ [] 1 (replicate (S n) false))
    (mkDisk ∅ ∅ ∅ (replicate (S n) []) 0 temp files) (fun _ => 0) [] 0.
Proof.
  assert (HP' : P < size_of 12) by (change (size_of 12) with 4294967296; change (2 ^ 31) with 2147483648 in HP; lia).
  destruct (size_classes_spec 64 0 P HP') as (m & E & Hm & HPm); [lia..|]. change (size_of 0) with MIN_PAGE_SIZE in E.
  unfold initialize in Hrun. rewrite E in Hrun. revert Hrun. cbv zeta. destruct (Z.eqb_spec (size_of m) (u64 (P * 2))) as [Es|]; [|done].
  intros [= <-]. unfold u64, wrapu in Es. change (2 ^ 31) with 2147483648 in HP. unfold MIN_PAGE_SIZE in HP.
  rewrite Z.mod_small in Es by (change (2 ^ 64) with 18446744073709551616; lia).
  destruct m as [|n]; [change (size_of 0) with 1048576 in Es; lia|]. rewrite size_of_S in Es. exists n. split; [lia|]. split.
  - rewrite page_bytes_pow by lia. unfold size_of in Es. lia.
  - simpl. f_equal. lia.
Qed.

Lemma replicate_nil {A} n c (l : list A) : replicate n [] !! c = Some l -> l = [].
Proof. by intros [? _]%lookup_replicate. Qed.

(** The state a buffer manager starts with. *)
Lemma start_bm_ok : bm_ok s.
Proof.
  destruct started as (n & Hn & EP & ->). pose proof (page_bytes_pos n Hn) as Hpos.
  assert (Hcls : classes (mkBM true P N (Z.of_nat n) [] ∅ (mkPool (offsets 0 (N * P) P) (replicate (S n) []) ∅ ∅ ∅ [] 1 (replicate (S n) false))
    (mkDisk ∅ ∅ ∅ (replicate (S n) []) 0 temp files) (fun _ => 0) [] 0) = n) by (unfold classes; simpl; lia).
  assert (Hbase : forall p, p ∈ offsets 0 (N * P) P <-> base n N p).
  { intros p. rewrite elem_of_offsets by lia. unfold base. rewrite <- EP. split.
    - intros (k & Hk & -> & Hlt). split; [exists k; lia|nia].
    - intros [[k ->] Hr]. exists k. nia. }
  split; [split| |split]; rewrite ?Hcls; try done.
  - split; [done|simpl; lia|by rewrite Hcls].
  - split; try done.
    + apply length_replicate.
    + apply NoDup_offsets. lia.
    + intros p Hp. by apply Hbase in Hp.
    + intros c l a Hl Ha. apply (replicate_nil (S n)) in Hl as ->. by apply elem_of_nil in Ha.
    + intros c l Hl. apply (replicate_nil (S n)) in Hl as ->. apply NoDup_nil_2.
    + intros p a Ha. by apply elem_of_nil in Ha.
    + intros p. apply NoDup_nil_2.
    + intros p k. split; [by intros ?%elem_of_nil|]. by intros (a & c & b & H & _).
    + intros p. apply NoDup_nil_2.
  - split.
    + intros p Hb Hf. by apply Hbase in Hb.
    + intros p Hb Hf. by apply Hbase in Hb.
    + intros p t Hin. by apply elem_of_nil in Hin.
    + apply NoDup_nil_2.
  - split; try done.
    + rewrite ?Hcls, ?Nat2Z.id. split; try done.
      * exact (length_replicate (S n) []).
      * intros c l p Hl Hp. apply (replicate_nil (S n)) in Hl as ->. by apply elem_of_nil in Hp.
      * intros c1 l1 i p1 c2 l2 j p2 H1 Hi. apply (replicate_nil (S n)) in H1 as ->. by rewrite lookup_nil in Hi.
Qed.
End start.

(** ** Requests *)

Inductive request :=
| GetAnon (maxBytes : Z)
| GetSet (set : PDBSet) (i : Z)
| Copy (me : nat)
| Drop (me : nat)
| Unpin (me : nat)
| Repin (me : nat)
| Freeze (me : nat) (bytes : Z)
| SetDirty (me : nat)
| Store (me : nat) (k v : Z).

Definition serve (r : request) : BM (option nat) :=
  match r with
  | GetAnon n => me <- getPage_anon n ;; mret (Some me)
  | GetSet t i => me <- getPage_set (Some t) i ;; mret (Some me)
  | Copy me => _ <- incRefCount me ;; mret None
  | Drop me => _ <- decRefCount me ;; mret None
  | Unpin me => _ <- unpin me ;; mret None
  | Repin me => _ <- repin me ;; mret None
  | Freeze me n => _ <- freezeSize me n ;; mret None
  | SetDirty me => _ <- setDirty me ;; mret None
  | Store me k v => _ <- store me k v ;; mret None
  end.

(** Somebody has a handle to the page. *)
Definition holds (s : buffer_manager) (me : nat) (pg : PDBPage) : Prop := page_objects s !! me = Some pg /\ 0 < refCount pg.
Definition placed (s : buffer_manager) (pg : PDBPage) : bool :=
  match whichSet pg with Some t => negb (isAnon pg) && bool_decide (is_Some (pageLocations (storage s) !! (t, pageNum pg))) | None => false end.
Definition page_check (f : PDBPage -> bool) (s : buffer_manager) (me : nat) : bool :=
  match page_objects s !! me with Some pg => (0 <? refCount pg) && f pg | None => false end.
(** What clients have to keep to: a page they work on is one they hold; only
    pinned pages are written, after they are marked dirty; only a page that has
    a full page and is nowhere in a file yet is frozen; and no two sets have files of
    the same name. *)
Definition own_file_b (s : buffer_manager) (t : PDBSet) : bool :=
  forallb (fun u => negb (bool_decide (file_of u = file_of t)) || bool_decide (u = t)) (elements (fds (storage s))).
Definition allowed (s : buffer_manager) (r : request) : bool :=
  (lastTimeTick (memory_pool s) <? 2 ^ 32) &&
  match r with
  | GetAnon n => n <=? pageSize s
  | GetSet t _ => own_file_b s t
  | Copy me | Drop me | Unpin me | Repin me => page_check (fun _ => true) s me
  | Freeze me n => page_check (fun pg => pinned pg && negb (sizeFrozen pg) && (numBytes (location pg) =? classes s)%nat && (n <=? pageSize s) && negb (placed s pg)) s me
  | SetDirty me => page_check pinned s me
  | Store me k _ => page_check (fun pg => pinned pg && dirty pg && (0 <=? k) && (k <? getSize pg)) s me
  end.

(** What was stored, by object and position. *)
Abbreviation notes := (object -> Z -> option Z).
Definition no_notes : notes := fun _ _ => None.
Definition note (s : buffer_manager) (r : request) (h : notes) : notes :=
  match r with
  | Drop me => match page_objects s !! me with
               | Some pg => fun o k => if decide (o = OAnon me /\ refCount pg = 1) then None else h o k
               | None => h
               end
  | Freeze me n => match page_objects s !! me, getLogPageSize n with
                   | Some pg, Some c => fun o k => if decide (o = object_of me pg) then (if k <? page_bytes c then h o k else None) else h o k
                   | _, _ => h
                   end
  | Store me k v => match page_objects s !! me with
                    | Some pg => fun o x => if decide (o = object_of me pg /\ x = k) then Some v else h o x
                    | None => h
                    end
  | _ => h
  end.
Definition remembers (s : buffer_manager) (h : notes) : Prop :=
  forall o k v, h o k = Some v -> exists c f, view s o = Some (c, f) /\ 0 <= k < page_bytes c /\ f k = v.

(** Requests one after the other. *)
Inductive runs : buffer_manager -> notes -> list request -> buffer_manager -> notes -> Prop :=
| runs_nil s h : runs s h [] s h
| runs_cons s h r x s1 rs s' h' : allowed s r = true -> serve r s = Ok x s1 -> runs s1 (note s r h) rs s' h' -> runs s h (r :: rs) s' h'.

(** ** One request *)

Lemma page_check_spec f s me : page_check f s me = true -> exists pg, holds s me pg /\ f pg = true.
Proof.
  unfold page_check, holds. destruct (page_objects s !! me) as [pg|]; [|done]. intros [H1%Z.ltb_lt H2]%andb_true_iff. eauto.
Qed.
Lemma own_file_spec s t : own_file_b s t = true -> own_file s t.
Proof.
  unfold own_file_b. rewrite forallb_forall. intros H u Hu Ef. specialize (H u). rewrite <- list_elem_of_In, elem_of_elements in H.
  specialize (H Hu). apply orb_true_iff in H as [H|H]; [by apply negb_true_iff, bool_decide_eq_false in H|by apply bool_decide_eq_true in H].
Qed.
Lemma holds_held s me pg : bm_ok s -> holds s me pg -> held s me pg.
Proof. intros Hbm [Hpg Hr]. split; [done|]. apply (da_held _ (pv_data _ (bm_inv _ Hbm))); [done|lia]. Qed.

(** What a request leaves behind. *)
Definition moves (r : request) (me : nat) : Prop := r = Unpin me \/ r = Drop me.
Record served (s s' : buffer_manager) (r : request) (h : notes) : Prop := {
  sv_ok : bm_ok s';
  sv_notes : remembers s' (note s r h);
  sv_stay me pg : page_objects s !! me = Some pg -> pinned pg = true -> ~ moves r me ->
    exists pg', page_objects s' !! me = Some pg' /\ pinned pg' = true /\ bytes pg' = bytes pg;
  sv_tick : lastTimeTick (memory_pool s') <= lastTimeTick (memory_pool s) + 1
}.

Lemma remembers_leaves X Y s s' h h' :
  remembers s h -> leaves X Y s s' ->
  (forall o k v, h' o k = Some v -> (h o k = Some v /\ ~ X o) \/ exists c f, view s' o = Some (c, f) /\ 0 <= k < page_bytes c /\ f k = v) ->
  remembers s' h'.
Proof.
  intros Hm Hl Hh o k v H. destruct (Hh o k v H) as [[H1 H2]|H1]; [|done].
  destruct (Hm o k v H1) as (c & f & Hv & Hk & Hf). destruct (lv_kept _ _ _ _ Hl o c f Hv H2) as (f' & Hv' & Hs).
  exists c, f'. split_and!; try done; [lia..|]. by rewrite Hs.
Qed.

Section serve.
Context (s : buffer_manager) (h : notes) (Hbm : bm_ok s) (Hm : remembers s h) (Htick : lastTimeTick (memory_pool s) < 2 ^ 32).

Lemma served_simple s' r me pg' :
  bm_ok s' -> leaves nothing (fun k => k = me) s s' -> note s r h = h -> page_objects s' !! me = Some pg' ->
  (forall pg, page_objects s !! me = Some pg -> ~ moves r me -> pinned pg = true -> pinned pg' = true /\ bytes pg' = bytes pg) -> served s s' r h.
Proof.
  intros Hok Hl Hn Hpg' Hst. split; try done; [| |by apply (lv_tick _ _ _ _ Hl)].
  - rewrite Hn. eapply remembers_leaves; [exact Hm|exact Hl|]. intros o k v H. left. split; [done|by intros []].
  - intros k pg Hpg Hp Hmv. destruct (decide (k = me)) as [->|Hne]; [exists pg'; split; [done|by apply Hst]|].
    destruct (lv_pages _ _ _ _ Hl k pg Hpg) as (pg1 & Hpg1 & _ & Hs); [done|]. destruct (Hs Hp) as (? & ? & ?). eauto.
Qed.
Lemma served_got s' r me pg : got s s' me pg -> note s r h = h -> served s s' r h.
Proof.
  intros [G1 G2 G3 G4 G5 G6] Hn. apply (served_simple s' r me pg); try done. intros pg0 Hpg0 _ Hp. by destruct (proj2 (G6 pg0 Hpg0) Hp) as (? & ? & _).
Qed.

Definition no_room (r : request) : Prop := exhausted s \/ exists n, r = GetAnon n /\ ~ anon_numbers_left s.
Definition answered (r : request) : Prop :=
  ((exists s', serve r s = Exit s') /\ no_room r) \/ exists x s', serve r s = Ok x s' /\ served s s' r h.
Lemma exits {A B} (m : BM A) (k : A -> BM B) : (exists s', m s = Exit s') -> exists s', (x <- m ;; k x) s = Exit s'.
Proof. intros [s' E]. exists s'. unfold bind. by rewrite E. Qed.

Lemma serve_GetAnon n : n <= pageSize s -> answered (GetAnon n).
Proof.
  intros Hn. destruct (getPage_anon_spec s n Hbm Hn Htick) as [[E Hno]|(me & s' & a & i & c & E & _ & _ & Hg)].
  - left. split; [by apply (exits (getPage_anon n))|]. destruct Hno; [by left|right; eauto].
  - right. exists (Some me), s'. split; [simpl; by rewrite (bind_Ok _ _ _ _ _ E)|]. by eapply served_got.
Qed.
Lemma serve_GetSet t i : own_file s t -> answered (GetSet t i).
Proof.
  intros Hown. destruct (getPage_set_spec s t i Hbm Hown Htick) as [[E Hno]|(me & s' & pg & E & Hg & _)].
  - left. split; [by apply (exits (getPage_set (Some t) i))|by left].
  - right. exists (Some me), s'. split; [simpl; by rewrite (bind_Ok _ _ _ _ _ E)|]. by eapply served_got.
Qed.
Lemma serve_Copy me pg : holds s me pg -> answered (Copy me).
Proof.
  intros Hh. destruct (bm_ref s me pg Hbm (holds_held _ _ _ Hbm Hh)) as (E & Hok & Hl & [Hpg' _] & _). right.
  exists None, (ref_page me pg s). split; [simpl; by rewrite (bind_Ok _ _ _ _ _ E)|]. eapply served_simple; try done.
  intros pg0 Hpg0. destruct Hh as [Hpg _]. rewrite Hpg in Hpg0. by injection Hpg0 as <-.
Qed.
Lemma serve_Unpin me pg : holds s me pg -> answered (Unpin me).
Proof.
  intros Hh. destruct (unpin_spec s me pg Hbm (holds_held _ _ _ Hbm Hh)) as (s' & pg' & E & Hok & Hl & Hpg' & _). right.
  exists None, s'. split; [simpl; by rewrite (bind_Ok _ _ _ _ _ E)|]. eapply served_simple; try done.
  intros pg0 _ Hmv. exfalso. apply Hmv. by left.
Qed.
Lemma serve_Repin me pg : holds s me pg -> answered (Repin me).
Proof.
  intros Hh. pose proof (holds_held _ _ _ Hbm Hh) as Hh'.
  destruct (repin_spec s me pg Hbm Hh' Htick) as [[E Hno]|(s' & pg' & a & E & Hok & Hl & Hpg' & _ & _ & _ & _ & Hp & _ & Hb)].
  - left. split; [by apply (exits (repin me))|by left].
  - right. exists None, s'. split; [simpl; by rewrite (bind_Ok _ _ _ _ _ E)|]. eapply served_simple; try done.
    intros pg0 Hpg0 _ Hp0. destruct Hh as [Hpg _]. rewrite Hpg in Hpg0. injection Hpg0 as <-. split; [done|]. apply Hb.
    pose proof Hbm as [Hi _ Hidle]. apply (ok_pinned _ _ (da_page _ (pv_data _ Hi) _ _ Hpg (he_live _ _ _ Hh'))); [|done].
    apply not_loading. by apply (proj1 Hidle me), Hh'.
Qed.
Lemma serve_SetDirty me pg : holds s me pg -> pinned pg = true -> answered (SetDirty me).
Proof.
  intros Hh Hp. destruct (setDirty_spec s me pg Hbm (holds_held _ _ _ Hbm Hh) Hp) as (s' & E & Hok & Hl & Hpg'). right.
  exists None, s'. split; [simpl; by rewrite (bind_Ok _ _ _ _ _ E)|]. eapply served_simple; try done.
  intros pg0 Hpg0 _ _. destruct Hh as [Hpg _]. rewrite Hpg in Hpg0. by injection Hpg0 as <-.
Qed.
Lemma serve_Drop me pg : holds s me pg -> answered (Drop me).
Proof.
  intros Hh. pose proof Hh as [Hpg Hr]. destruct (decRefCount_spec s me pg Hbm (holds_held _ _ _ Hbm Hh) Hr Htick) as (s' & E & Hok & Hl). right.
  exists None, s'. split; [simpl; by rewrite (bind_Ok _ _ _ _ _ E)|]. split; try done; [| |by apply (lv_tick _ _ _ _ Hl)].
  - eapply remembers_leaves; [exact Hm|exact Hl|]. intros o k v. unfold note. rewrite Hpg. destruct (decide _); [done|by left].
  - intros k q Hq Hp Hmv. destruct (lv_pages _ _ _ _ Hl k q Hq) as (q' & Hq' & _ & Hs); [intros ->; apply Hmv; by right|].
    destruct (Hs Hp) as (? & ? & _). eauto.
Qed.
Lemma serve_Freeze me pg n :
  holds s me pg -> pinned pg = true -> sizeFrozen pg = false -> numBytes (location pg) = classes s -> n <= pageSize s -> placed s pg = false ->
  answered (Freeze me n).
Proof.
  intros Hh Hp Hf Hfull Hn Hplace. pose proof Hh as [Hpg Hr]. pose proof (holds_held _ _ _ Hbm Hh) as Hh'.
  destruct (freezeSize_spec s me pg n Hbm Hh' Hp Hf Hfull Hn) as (c & s' & E & Ec & Hc & Hnc & Hok & Hl & Hpg' & Hram).
  { intros t Et Ea. unfold placed in Hplace. rewrite Et, Ea in Hplace. apply bool_decide_eq_false in Hplace. by apply eq_None_not_Some. }
  right. exists None, s'. split; [simpl; by rewrite (bind_Ok _ _ _ _ _ E)|].
  assert (Hb : exists a, bytes pg = Some a).
  { destruct (bytes pg) as [a|] eqn:Hb; [eauto|]. pose proof Hbm as [Hi _ Hidle].
    by destruct (ok_pinned _ _ (da_page _ (pv_data _ Hi) _ _ Hpg (he_live _ _ _ Hh')) (not_loading _ (proj1 Hidle me pg Hpg (he_live _ _ _ Hh'))) Hp). }
  destruct Hb as [a Hb]. split; try done; [| |by apply (lv_tick _ _ _ _ Hl)].
  - eapply remembers_leaves; [exact Hm|exact Hl|]. intros o k v. unfold note. rewrite Hpg, Ec. destruct (decide (o = object_of me pg)) as [->|]; [|by left].
    destruct (Z.ltb_spec k (page_bytes c)) as [Hk|]; [|done]. intros Hv. right.
    destruct (Hm _ _ _ Hv) as (c0 & f & Hview & Hk0 & Hfk). rewrite (view_held s me pg (bm_inv _ Hbm) Hh') in Hview.
    unfold page_view in Hview. rewrite Hb in Hview. injection Hview as <- <-.
    assert (Hh1 : held s' me (frozen_to c pg)) by (apply holds_held; [done|by split]).
    change (object_of me pg) with (object_of me (frozen_to c pg)). rewrite (view_held s' me _ (bm_inv _ Hok) Hh1).
    unfold page_view. simpl. rewrite Hb. eexists _, _. split; [done|]. split; [lia|]. by rewrite Hram.
  - intros k q Hq Hpq _. destruct (decide (k = me)) as [->|Hne].
    + rewrite Hpg in Hq. injection Hq as <-. by exists (frozen_to c pg).
    + destruct (lv_pages _ _ _ _ Hl k q Hq Hne) as (q' & Hq' & _ & Hs). destruct (Hs Hpq) as (? & ? & _). eauto.
Qed.
Lemma serve_Store me pg k v :
  holds s me pg -> pinned pg = true -> dirty pg = true -> 0 <= k < getSize pg -> answered (Store me k v).
Proof.
  intros Hh Hp Hd Hk. pose proof Hh as [Hpg Hr]. pose proof (holds_held _ _ _ Hbm Hh) as Hh'.
  destruct (store_spec s me pg k v Hbm Hh' Hp Hd Hk) as (a & s' & E & Hb & Hok & Hl & Hobj & _ & Hram).
  right. exists None, s'. split; [simpl; by rewrite (bind_Ok _ _ _ _ _ E)|].
  assert (Hh1 : held s' me pg) by (apply holds_held; [done|split; [by rewrite Hobj|done]]).
  split; try done; [| |by apply (lv_tick _ _ _ _ Hl)].
  - eapply remembers_leaves; [exact Hm|exact Hl|]. intros o x w. unfold note. rewrite Hpg.
    destruct (decide (o = object_of me pg)) as [->|Hne]; [|rewrite decide_False by (by intros [? _]); by left]. intros Hw. right.
    rewrite (view_held s' me pg (bm_inv _ Hok) Hh1). unfold page_view. rewrite Hb. eexists _, _. split; [done|].
    destruct (decide (x = k)) as [->|Hxk].
    + rewrite decide_True in Hw by done. injection Hw as <-. split; [done|]. by rewrite Hram, Z.eqb_refl.
    + rewrite decide_False in Hw by (by intros [_ ?]). destruct (Hm _ _ _ Hw) as (c0 & f & Hview & Hx & Hfx).
      rewrite (view_held s me pg (bm_inv _ Hbm) Hh') in Hview. unfold page_view in Hview. rewrite Hb in Hview. injection Hview as <- <-.
      split; [done|]. by rewrite Hram, (proj2 (Z.eqb_neq _ _)).
  - intros q0 q Hq Hpq _. exists q. by rewrite Hobj.
Qed.

(** Every request that is allowed is served, unless there is no room; what was
    stored is still there, and pinned pages stay where they are. *)
Lemma serve_spec r : allowed s r = true -> answered r.
Proof.
  unfold allowed. intros [_ Ha]%andb_true_iff.
  destruct r as [n|t i|me|me|me|me|me n|me|me k v]; try (apply page_check_spec in Ha as (pg & Hh & Hc)).
  - apply serve_GetAnon. by apply Z.leb_le.
  - by apply serve_GetSet, own_file_spec.
  - by eapply serve_Copy.
  - by eapply serve_Drop.
  - by eapply serve_Unpin.
  - by eapply serve_Repin.
  - rewrite !andb_true_iff in Hc. destruct Hc as ((((Hp & Hf%negb_true_iff) & Hfull%Nat.eqb_eq) & Hn%Z.leb_le) & Hpl%negb_true_iff).
    by apply (serve_Freeze me pg).
  - by eapply serve_SetDirty.
  - rewrite !andb_true_iff in Hc. destruct Hc as (((Hp & Hd) & Hk1%Z.leb_le) & Hk2%Z.ltb_lt). by apply (serve_Store me pg).
Qed.
End serve.

(** ** Sequences of requests *)

Fixpoint run_of (s : buffer_manager) (h : notes) (rs : list request) : option (buffer_manager * notes) :=
  match rs with
  | [] => Some (s, h)
  | r :: rs' =>
      if allowed s r then
        match serve r s with Ok _ s1 => run_of s1 (note s r h) rs' | _ => None end
      else None
  end.
Lemma run_of_runs rs s h s' h' : run_of s h rs = Some (s', h') -> runs s h rs s' h'.
Proof.
  revert s h. induction rs as [|r rs IH]; intros s h; simpl; [intros [= <- <-]; constructor|].
  destruct (allowed s r) eqn:Ea; [|done]. destruct (serve r s) as [x s1| | | |] eqn:Es; try done. intros H. econstructor; [done..|]. by apply IH.
Qed.

Lemma runs_spec rs s h s' h' :
  bm_ok s -> remembers s h -> runs s h rs s' h' ->
  bm_ok s' /\ remembers s' h' /\ lastTimeTick (memory_pool s') <= lastTimeTick (memory_pool s) + Z.of_nat (length rs) /\
  forall me pg, page_objects s !! me = Some pg -> pinned pg = true -> Forall (fun r => ~ moves r me) rs ->
    exists pg', page_objects s' !! me = Some pg' /\ pinned pg' = true /\ bytes pg' = bytes pg.
Proof.
  intros Hok Hm Hr. revert Hok Hm. induction Hr as [s h|s h r x s1 rs s' h' Ha Es Hr IH]; intros Hok Hm.
  - split_and!; try done; [simpl; lia|]. intros me pg Hpg Hp _. eauto.
  - assert (Ht : lastTimeTick (memory_pool s) < 2 ^ 32) by (unfold allowed in Ha; apply andb_true_iff in Ha as [Ha _]; by apply Z.ltb_lt).
    destruct (serve_spec s h Hok Hm Ht r Ha) as [[[s2 E] _]|(x2 & s2 & E & [V1 V2 V3 V4])]; [congruence|].
    rewrite Es in E. injection E as <- <-. destruct (IH V1 V2) as (H1 & H2 & H3 & H4). split_and!; try done.
    + simpl length. lia.
    + intros me pg Hpg Hp [Hmv Hrest]%Forall_cons. destruct (V3 me pg Hpg Hp Hmv) as (pg1 & Hpg1 & Hp1 & Hb1).
      destruct (H4 me pg1 Hpg1 Hp1 Hrest) as (pg2 & ? & ? & ?). exists pg2. split_and!; congruence.
Qed.
Lemma remembers_nothing s : remembers s no_notes.
Proof. done. Qed.

(** An object is had again: an anonymous page by its handle, a page of a set by
    its number. *)
Definition fetch (o : object) : BM nat :=
  match o with
  | OAnon me => _ <- repin me ;; mret me
  | OSet (t, i) => getPage_set (Some t) i
  end.
(** The file of a set with pages is not that of another set. *)
Lemma view_own s t i x : bm_ok s -> view s (OSet (t, i)) = Some x -> own_file s t.
Proof.
  intros Hok. pose proof (pv_data _ (bm_inv _ Hok)) as Hd. assert (Hopen : t ∈ fds (storage s) -> own_file s t).
  { intros Ht u Hu Ef. by apply (da_names _ Hd). }
  unfold view. destruct (allPages s !! (t, i)) as [me|] eqn:Ea.
  - destruct (da_all _ Hd _ _ _ Ea) as (pg & Hpg & E1 & E2 & E3). intros _. apply Hopen.
    destruct (ok_set _ _ (da_page _ Hd me pg Hpg (proj2 (live_set s me pg t E1 E2) ltac:(by rewrite E3))) E1) as (u & Eu & Hu & _).
    rewrite E2 in Eu. by injection Eu as <-.
  - destruct (pageLocations (storage s) !! (t, i)) as [info|] eqn:El; [|done]. intros _. apply Hopen. by apply (da_open _ Hd) in El.
Qed.
Lemma fetch_spec s h o k v :
  bm_ok s -> remembers s h -> lastTimeTick (memory_pool s) < 2 ^ 32 -> h o k = Some v ->
  ((exists s', fetch o s = Exit s') /\ exhausted s) \/
  exists me s' pg a, fetch o s = Ok me s' /\ page_objects s' !! me = Some pg /\ pinned pg = true /\ bytes pg = Some a /\ ram s' (a + k) = v.
Proof.
  intros Hok Hm Ht Hv. destruct (Hm o k v Hv) as (c & f & Hview & Hk & Hf).
  assert (Hread : forall X Y me s' pg, bm_ok s' -> leaves X Y s s' -> ~ X o -> page_objects s' !! me = Some pg -> 0 < refCount pg -> pinned pg = true ->
    object_of me pg = o -> exists a, bytes pg = Some a /\ ram s' (a + k) = v).
  { intros X Y me s' pg Hok' Hl Hx Hpg Hr Hp Ho. destruct (lv_kept _ _ _ _ Hl o c f Hview Hx) as (f' & Hview' & Hs).
    pose proof (holds_held s' me pg Hok' (conj Hpg Hr)) as Hh. rewrite <- Ho, (view_held s' me pg (bm_inv _ Hok') Hh) in Hview'.
    pose proof Hok' as [Hi _ Hidle]. destruct (bytes pg) as [a|] eqn:Hb.
    - exists a. split; [done|]. unfold page_view in Hview'. rewrite Hb in Hview'. injection Hview' as <- <-. rewrite <- Hf. by apply Hs.
    - by destruct (ok_pinned _ _ (da_page _ (pv_data _ Hi) _ _ Hpg (he_live _ _ _ Hh)) (not_loading _ (proj1 Hidle me pg Hpg (he_live _ _ _ Hh))) Hp). }
  destruct o as [me|[t i]].
  - unfold view in Hview. destruct (page_objects s !! me) as [pg|] eqn:Hpg; [|done]. destruct (isAnon pg) eqn:Ea; [|done]. simpl in Hview.
    destruct (live s me pg) eqn:Hl; [|done]. assert (Hr : 0 < refCount pg).
    { unfold live in Hl. rewrite Ea in Hl. apply negb_true_iff, Z.eqb_neq in Hl. pose proof (da_refs _ (pv_data _ (bm_inv _ Hok)) _ _ Hpg). lia. }
    destruct (repin_spec s me pg Hok (Build_held _ _ _ Hpg Hl) Ht) as [[E Hex]|(s' & pg' & a & E & Hok' & Hlv & Hpg' & (S1 & S2 & S3 & S4) & _ & _ & _ & Hp & Hb & _)].
    + left. split; [by apply (exits s (repin me))|done].
    + right. destruct (Hread _ _ me s' pg' Hok' Hlv) as (a' & Hb' & Hram); try done; [by intros []|by rewrite S4| |].
      { unfold object_of. rewrite S1, Ea. by destruct (whichSet pg'). }
      exists me, s', pg', a'. split_and!; try done. unfold fetch. by rewrite (bind_Ok _ _ _ _ _ E).
  - destruct (getPage_set_spec s t i Hok (view_own _ _ _ _ Hok Hview) Ht) as [[E Hex]|(me & s' & pg & E & [G1 G2 G3 G4 G5 G6] & (W1 & W2 & W3))]; [by left|right].
    destruct (Hread _ _ me s' pg G1 G2) as (a & Hb & Hram); try done; [by intros []| |].
    { unfold object_of. by rewrite W1, W2, W3. }
    exists me, s', pg, a. by split_and!.
Qed.

Section started.
Context (P N : Z) (temp : image) (files : string -> image) (s0 : buffer_manager).
Context (HP : MIN_PAGE_SIZE <= P <= 2 ^ 31) (Hstart : initialize P N (bm_default temp files) = Ok tt s0).

Lemma start_tick : lastTimeTick (memory_pool s0) = 1.
Proof. destruct (started P N temp files s0 HP Hstart) as (n & _ & _ & ->). done. Qed.
Lemma reach_ok rs s h : runs s0 no_notes rs s h ->
  bm_ok s /\ remembers s h /\ (Z.of_nat (length rs) < 2 ^ 32 - 1 -> lastTimeTick (memory_pool s) < 2 ^ 32).
Proof.
  intros Hr. destruct (runs_spec rs s0 no_notes s h (start_bm_ok P N temp files s0 HP Hstart) (remembers_nothing s0) Hr) as (H1 & H2 & H3 & _).
  split_and!; try done. rewrite start_tick in H3. lia.
Qed.

(** C7: A byte that a client stored in a page is found again: after any sequence
    of requests that clients may make, in which other pages may have taken its
    memory any number of times, getting the page again gives it pinned, and
    with the byte last stored at that position; the only other outcome is the
    message that there is no memory left. *)
Theorem stored_bytes_come_back rs s h o k v :
  runs s0 no_notes rs s h -> Z.of_nat (length rs) < 2 ^ 32 - 1 -> h o k = Some v ->
  ((exists s', fetch o s = Exit s') /\ exhausted s) \/
  exists me s' pg a, fetch o s = Ok me s' /\ page_objects s' !! me = Some pg /\ pinned pg = true /\ bytes pg = Some a /\ ram s' (a + k) = v.
Proof. intros Hr Hlen Hv. destruct (reach_ok rs s h Hr) as (Hok & Hm & Ht). eapply fetch_spec; [done..|by apply Ht|done]. Qed.

(** C10: No request that clients may make faults or waits forever: it is served,
    or the process exits because no full page is empty or can be evicted, or
    because all numbers of anonymous pages are in use. *)
Theorem requests_are_served rs s h r :
  runs s0 no_notes rs s h -> allowed s r = true ->
  ((exists s', serve r s = Exit s') /\ no_room s r) \/ exists x s', serve r s = Ok x s'.
Proof.
  intros Hr Ha. destruct (reach_ok rs s h Hr) as (Hok & Hm & _).
  assert (Ht : lastTimeTick (memory_pool s) < 2 ^ 32) by (unfold allowed in Ha; apply andb_true_iff in Ha as [Ha' _]; by apply Z.ltb_lt).
  destruct (serve_spec s h Hok Hm Ht r Ha) as [H|(x & s' & E & _)]; [by left|right; eauto].
Qed.


End started.
