(* ===== verification/BufferManagerCases.v ===== *)
(** Runs of the buffer manager: its promises on concrete requests, and what
    happens outside of what clients are allowed to do. *)

From S2P Require Import Prelude BufferManager BufferManagerPool BufferManagerInv BufferManagerPages BufferManagerOps BufferManagerGet BufferManagerSpec.

Open Scope Z_scope.

(** A buffer manager with [N] full pages of [P] bytes. *)
Definition fresh (P N : Z) : buffer_manager :=
  let s := bm_default (fun _ => 0) (fun _ _ => 0) in
  match initialize P N s with Ok _ s' => s' | _ => s end.
Definition after (P N : Z) (rs : list request) : buffer_manager * notes := default (fresh P N, no_notes) (run_of (fresh P N) no_notes rs).
Definition runs_through (P N : Z) (rs : list request) : bool :=
  match run_of (fresh P N) no_notes rs with Some _ => true | None => false end.
Lemma after_runs P N rs : runs_through P N rs = true -> runs (fresh P N) no_notes rs (after P N rs).1 (after P N rs).2.
Proof.
  unfold runs_through, after. destruct (run_of (fresh P N) no_notes rs) as [[s h]|] eqn:E; [|done]. intros _. by apply run_of_runs.
Qed.
Definition MB : Z := MIN_PAGE_SIZE.

(** Two pages take turns in the only full page. *)
Definition two_pages : list request := [GetAnon 100; Store 0 5 7; Unpin 0; GetAnon 100; Store 1 5 8; Unpin 1].
Lemma stored_bytes_come_back_witness :
  (after MB 1 two_pages).2 (OAnon 0) 5 = Some 7 /\
  (((exists s', fetch (OAnon 0) (after MB 1 two_pages).1 = Exit s') /\ exhausted (after MB 1 two_pages).1) \/
   exists me s' pg a, fetch (OAnon 0) (after MB 1 two_pages).1 = Ok me s' /\ page_objects s' !! me = Some pg /\ pinned pg = true /\
     bytes pg = Some a /\ ram s' (a + 5) = 7).
Proof.
  split; [by vm_compute|].
  apply (stored_bytes_come_back MB 1 (fun _ => 0) (fun _ _ => 0) (fresh MB 1)) with (rs := two_pages) (h := (after MB 1 two_pages).2);
    [by vm_compute|by vm_compute|apply after_runs; by vm_compute|by vm_compute|by vm_compute].
Defined.
(** It is not the case of no memory. *)
Example two_pages_fetched :
  match fetch (OAnon 0) (after MB 1 two_pages).1 with Ok _ s' => ram s' 5 = 7 | _ => False end.
Proof. by vm_compute. Qed.

Lemma requests_are_served_witness :
  allowed (after MB 1 two_pages).1 (Repin 0) = true /\
  (((exists s', serve (Repin 0) (after MB 1 two_pages).1 = Exit s') /\ no_room (after MB 1 two_pages).1 (Repin 0)) \/
   exists x s', serve (Repin 0) (after MB 1 two_pages).1 = Ok x s').
Proof.
  split; [by vm_compute|].
  apply (requests_are_served MB 1 (fun _ => 0) (fun _ _ => 0) (fresh MB 1)) with (rs := two_pages) (h := (after MB 1 two_pages).2);
    [by vm_compute|by vm_compute|apply after_runs; by vm_compute|by vm_compute].
Defined.

(** A page is pinned while the others are evicted. *)
Definition pin_one : list request := [GetAnon 100].
Definition others : list request := [GetAnon 100; Unpin 1; GetAnon 100; Unpin 2; Repin 1].
Definition the_page (s : buffer_manager) (me : nat) : PDBPage := default PDBPage_new (page_objects s !! me).
Definition later (s : buffer_manager * notes) (rs : list request) : buffer_manager * notes := default s (run_of s.1 s.2 rs).
Definition goes_on (s : buffer_manager * notes) (rs : list request) : bool := match run_of s.1 s.2 rs with Some _ => true | None => false end.
Lemma later_runs s rs : goes_on s rs = true -> runs s.1 s.2 rs (later s rs).1 (later s rs).2.
Proof. unfold goes_on, later. destruct (run_of s.1 s.2 rs) as [[s' h']|] eqn:E; [|done]. intros _. by apply run_of_runs. Qed.

(** Two mini pages of one full page. *)
Definition two_minis : list request := [GetAnon 100; GetAnon 100].

(** ** What clients must not do, and what goes wrong anyway *)

Definition do_all (rs : list request) : BM unit := for_each rs (fun r => _ <- serve r ;; mret tt).
Definition ends {A} (o : outcome buffer_manager A) (Q : buffer_manager -> bool) : bool := match o with Ok _ s => Q s | _ => false end.
Definition both_at (s : buffer_manager) (me1 me2 : nat) (a1 a2 : Z) : bool :=
  let p1 := the_page s me1 in let p2 := the_page s me2 in
  pinned p1 && pinned p2 && bool_decide (bytes p1 = Some a1) && bool_decide (bytes p2 = Some a2).

(** Freezing a page that is a part of a full page goes wrong: the loop over
    what is left runs to the size of a full page, so that the other parts are
    handed out again.  Two pages of two megabytes share a full page; the second
    one is frozen to one megabyte; the next page of one megabyte gets memory in
    the middle of the first one.  Both are pinned. *)
Theorem frozen_mini_page_overlaps :
  ends (do_all [GetAnon (2 * MB); GetAnon (2 * MB); Freeze 1 MB; GetAnon MB] (fresh (4 * MB) 1))
    (fun s => both_at s 0 2 (2 * MB) (3 * MB) && (3 * MB <? 2 * MB + getSize (the_page s 0))) = true.
Proof. by vm_compute. Qed.

(** Freeing the last pinned page of a full page goes wrong: the full page
    does not enter the queue of those that can be evicted.  After it nothing is
    pinned, but the next request for a full page ends the process. *)
Theorem freed_pinned_page_blocks_eviction :
  ends (do_all [GetAnon MB; GetAnon MB; Unpin 0; Drop 1] (fresh (2 * MB) 1)) (fun s =>
    negb (pinned (the_page s 0)) && bool_decide (refCount (the_page s 1) = 0) &&
    match serve (GetAnon (2 * MB)) s with Exit _ => true | _ => false end) = true.
Proof. by vm_compute. Qed.
(** If the two pages go the other way round it is served. *)
Example unpinned_last_can_be_evicted :
  ends (do_all [GetAnon MB; GetAnon MB; Drop 1; Unpin 0] (fresh (2 * MB) 1)) (fun s =>
    match serve (GetAnon (2 * MB)) s with Ok _ _ => true | _ => false end) = true.
Proof. by vm_compute. Qed.

(** Clearing a set goes wrong when a page of the set is not pinned: its full
    page loses a pin nevertheless, here that of an anonymous page on the same
    full page, which is then evicted although it is pinned. *)
Definition a_set : PDBSet := mkSet "set" "db".
Theorem clearSet_evicts_pinned_page :
  ends ((_ <- do_all [GetSet a_set 0; Freeze 0 MB; GetAnon MB; Unpin 0] ;; _ <- clearSet a_set ;; do_all [GetAnon (2 * MB)]) (fresh (2 * MB) 1))
    (fun s => pinned (the_page s 1) && bool_decide (bytes (the_page s 1) = None)) = true.
Proof. by vm_compute. Qed.

(** Pinning a full page takes it from the queue by the time tick it was put in
    with, but cut to 32 bits: later ticks are not found and the pinned page can be
    evicted. *)
Lemma late_tick_stays_queued p t q :
  2 ^ 32 <= t -> pins q p = - t -> (p, t) ∈ lastUsed q ->
  let q' := pin_pool p q in pins q' p = 1 /\ (p, t) ∈ lastUsed q'.
Proof.
  intros Ht Hp Hin q'. unfold q', pin_pool. rewrite Hp, (proj2 (Z.ltb_lt _ _)) by lia. split; [by rewrite pins_set, decide_True|].
  change (lastUsed _) with (lru_erase (u32 (- - t)) (lastUsed q)). apply elem_of_lru_erase. split; [done|]. simpl.
  unfold u32, wrapu. pose proof (Z.mod_pos_bound (- - t) (2 ^ 32) ltac:(lia)). lia.
Qed.

(** A page size of half a megabyte passes the check for powers of two; there is
    no size class then, and the first page asked for is looked up out of range. *)
Lemma half_page_size_accepted :
  initialize (MB / 2) 4 (bm_default (fun _ => 0) (fun _ _ => 0)) = Ok tt (fresh (MB / 2) 4) /\
  serve (GetAnon 1) (fresh (MB / 2) 4) = Fault OutOfRange.
Proof. split; by vm_compute. Qed.

(** The name of a set's file does not tell sets apart: set "a.b" of database
    "c" and set "a" of database "b.c" share a file, and the pages of one are
    written over those of the other.  What comes back of the first page is the
    byte stored in the second. *)
Definition set1 : PDBSet := mkSet "a.b" "c".
Definition set2 : PDBSet := mkSet "a" "b.c".
Theorem sets_share_a_file :
  ends (do_all [GetSet set1 0; Store 0 5 7; Unpin 0; GetSet set2 0; Store 1 5 8; Unpin 1; Repin 0] (fresh MB 1))
    (fun s => bool_decide (whichSet (the_page s 0) = Some set1) && bool_decide (ram s 5 = 8) && bool_decide (bytes (the_page s 0) = Some 0)) = true.
Proof. by vm_compute. Qed.

(** A request for more than a full page is only reported: the lists of memory are
    read out of range. *)
Lemma oversize_request_faults : serve (GetAnon (2 * MB)) (fresh MB 1) = Fault OutOfRange.
Proof. by vm_compute. Qed.

(** With full pages of four gigabytes, which initialize accepts, the size of a
    full page is shifted out of an unsigned int: the loop that breaks up the
    first page makes no progress. *)
Lemma page_of_four_gigabytes_hangs :
  initialize (2 ^ 32) 1 (bm_default (fun _ => 0) (fun _ _ => 0)) = Ok tt (fresh (2 ^ 32) 1) /\
  serve (GetAnon (2 ^ 32)) (fresh (2 ^ 32) 1) = NoFuel.
Proof. split; by vm_compute. Qed.
