(* ===== verification/AbstractPageSet.v ===== *)
(** What every page set offers, and what its clients rely on:
    PDBAbstractPageSet, pdb/src/storageManager/headers/PDBAbstractPageSet.h. *)

From S2P Require Import Prelude.

Open Scope Z_scope.

(** A page is known by the object behind its handle. *)
Abbreviation pg := positive.

Class PDBAbstractPageSet (S : Type) := {
  getNextPage : Z -> M S (option pg);
  getNumPages : M S Z;
  resetPageSet : M S unit
}.

(** One worker reads the pages one after the other: [all] is what the set
    holds, and [rest] what the worker has not been handed.  [ok n] holds of a
    set that can be asked [n] more times. *)
Class PageSetLaws S `{!PDBAbstractPageSet S} (ok : nat -> S -> Prop) (all rest : S -> list pg) := {
  next_law n s : ok (Datatypes.S n) s ->
    exists s', getNextPage 0 s = Ok (head (rest s)) s' /\ ok n s' /\ all s' = all s /\ rest s' = tail (rest s);
  num_law n s : ok n s -> getNumPages s = Ok (Z.of_nat (length (all s))) s;
  reset_law n m s : ok n s -> Z.of_nat m < 2 ^ 64 ->
    exists s', resetPageSet s = Ok tt s' /\ ok m s' /\ all s' = all s /\ rest s' = all s
}.

(** What is handed out in [n] calls. *)
Definition served {A} (hs : list A) (n : nat) : list (option A) := take n (map Some hs) ++ replicate (n - length hs) None.
Lemma served_S {A} (hs : list A) n : served hs (S n) = head hs :: served (tail hs) n.
Proof. destruct hs as [|h hs]; [|done]. unfold served. simpl. by rewrite !take_nil, !Nat.sub_0_r. Qed.
Lemma served_all {A} (hs : list A) n : (length hs <= n)%nat -> omap id (served hs n) = hs.
Proof.
  revert n. induction hs as [|h hs IH]; intros n Hn.
  - unfold served. simpl. rewrite take_nil, Nat.sub_0_r. simpl. clear Hn. by induction n.
  - destruct n as [|n]; simpl in Hn; [lia|]. rewrite served_S. simpl. f_equal. apply IH. lia.
Qed.
