(* ===== verification/FeedingPageSet.v ===== *)
(** Page sets that are fed while they are read: PDBFeedingPageSet,
    pdb/src/storageManager/headers/PDBFeedingPageSet.h and
    source/PDBFeedingPageSet.cc.

    Feeders put pages into the set and readers are handed all of them; a reader
    that is faster than the feeders waits on a condition variable.  Every
    method holds the mutex while it runs, except that getNextPage lets go of it
    in [cv.wait], after it has taken the number of the page it wants.  So a run
    is a sequence of steps: a call of a method, where one of getNextPage may
    stop in the wait, and a wake-up of a reader whose condition has become
    true. *)

From S2P Require Import Prelude AbstractPageSet.

Open Scope Z_scope.

Inductive PDBFeedingPageSetUsagePolicy := REMOVE_AFTER_USED | KEEP_AFTER_USED.
#[export] Instance UsagePolicy_eq_dec : EqDecision PDBFeedingPageSetUsagePolicy.
Proof. solve_decision. Defined.

Record PDBFeedingPageInfo := mkInfo { page : pg; numUsers : Z; timesServed : Z }.

Record PDBFeedingPageSet := mkFeeding {
  usagePolicy : PDBFeedingPageSetUsagePolicy;
  pages : gmap Z PDBFeedingPageInfo;
  nextPageForWorker : list Z;
  numFinishedFeeders : Z;
  numFeeders : Z;
  numReaders : Z;
  nextPage : Z
}.

(** The page set, and which pages are pinned. *)
Record feeding_state := mkFS { set_of : PDBFeedingPageSet; pins : gmap pg bool }.
Abbreviation FM := (M feeding_state).

Definition set_pages (f : gmap Z PDBFeedingPageInfo -> gmap Z PDBFeedingPageInfo) (s : feeding_state) : feeding_state :=
  let p := set_of s in
  mkFS (mkFeeding (usagePolicy p) (f (pages p)) (nextPageForWorker p) (numFinishedFeeders p) (numFeeders p) (numReaders p) (nextPage p)) (pins s).
Definition set_nextPageForWorker (l : list Z) (s : feeding_state) : feeding_state :=
  let p := set_of s in
  mkFS (mkFeeding (usagePolicy p) (pages p) l (numFinishedFeeders p) (numFeeders p) (numReaders p) (nextPage p)) (pins s).
Definition set_numFinishedFeeders (n : Z) (s : feeding_state) : feeding_state :=
  let p := set_of s in
  mkFS (mkFeeding (usagePolicy p) (pages p) (nextPageForWorker p) n (numFeeders p) (numReaders p) (nextPage p)) (pins s).
Definition set_nextPage (n : Z) (s : feeding_state) : feeding_state :=
  let p := set_of s in
  mkFS (mkFeeding (usagePolicy p) (pages p) (nextPageForWorker p) (numFinishedFeeders p) (numFeeders p) (numReaders p) n) (pins s).
Definition set_usagePolicy (x : PDBFeedingPageSetUsagePolicy) (s : feeding_state) : feeding_state :=
  let p := set_of s in
  mkFS (mkFeeding x (pages p) (nextPageForWorker p) (numFinishedFeeders p) (numFeeders p) (numReaders p) (nextPage p)) (pins s).
Definition set_pins (f : gmap pg bool -> gmap pg bool) (s : feeding_state) : feeding_state := mkFS (set_of s) (f (pins s)).

(** The buffer manager's side of a page handle. *)
Definition unpin (x : pg) : FM unit := modify (set_pins <[x := false]>).
Definition repin (x : pg) : FM unit := modify (set_pins <[x := true]>).

Definition PDBFeedingPageSet_new (numReaders numFeeders : Z) : PDBFeedingPageSet :=
  mkFeeding REMOVE_AFTER_USED ∅ (replicate (Z.to_nat numReaders) 0) 0 numFeeders numReaders 0.

Definition getNewPage : FM pg := throw (RuntimeError "One can only add the pages to the feeding page set.").
Definition getNumPages : FM Z := gets (fun s => Z.of_nat (size (pages (set_of s)))).

(** ** getNextPage *)

(** [nextPageForWorker[workerID]++] *)
Definition take_number (workerID : nat) : FM Z :=
  s <- get ;;
  page <- unwrap OutOfRange (nextPageForWorker (set_of s) !! workerID) ;;
  _ <- modify (set_nextPageForWorker (<[workerID := u64 (page + 1)]> (nextPageForWorker (set_of s)))) ;;
  mret page.

(** What [cv.wait] waits for. *)
Definition all_fed (p : PDBFeedingPageSet) : bool := numFinishedFeeders p =? numFeeders p.
Definition ready (page : Z) (p : PDBFeedingPageSet) : bool := all_fed p || (page <? nextPage p).

(** A page of the map; an assertion says that it is there. *)
Definition find_page (n : Z) : FM PDBFeedingPageInfo :=
  s <- get ;; unwrap AssertFailed (pages (set_of s) !! n).

(** The reader is done with the page it had before. *)
Definition release_last (page : Z) : FM unit :=
  lastPage <- find_page (page - 1) ;;
  let users := u64 (numUsers lastPage - 1) in
  _ <- modify (set_pages <[page - 1 := mkInfo (FeedingPageSet.page lastPage) users (timesServed lastPage)]>) ;;
  if users =? 0 then
    _ <- unpin (FeedingPageSet.page lastPage) ;;
    s <- get ;;
    if timesServed lastPage =? numReaders (set_of s) then modify (set_pages (delete (page - 1))) else mret tt
  else mret tt.

(** The rest of the method, behind the wait. *)
Definition serve (page : Z) : FM (option pg) :=
  s <- get ;;
  let p := set_of s in
  if all_fed p && (nextPage p =? page) then mret None
  else
    let removing := bool_decide (usagePolicy p = REMOVE_AFTER_USED) in
    _ <- (if negb (page =? 0) && removing then release_last page else mret tt) ;;
    it <- find_page page ;;
    _ <- (if removing
          then modify (set_pages <[page := mkInfo (FeedingPageSet.page it) (u64 (numUsers it + 1)) (u64 (timesServed it + 1))]>)
          else mret tt) ;;
    _ <- repin (FeedingPageSet.page it) ;;
    mret (Some (FeedingPageSet.page it)).

(** ** The other methods *)

Definition feedPage (x : pg) : FM unit :=
  s <- get ;;
  if all_fed (set_of s) then throw (RuntimeError "Trying to feed pages, when all feeders have done feeding.")
  else
    let n := nextPage (set_of s) in
    (* insert does nothing when the key is there *)
    _ <- modify (set_pages (fun m => match m !! n with Some _ => m | None => <[n := mkInfo x 0 0]> m end)) ;;
    modify (set_nextPage (u64 (n + 1))).

Definition finishFeeding : FM unit :=
  s <- get ;; modify (set_numFinishedFeeders (u64 (numFinishedFeeders (set_of s) + 1))).

Definition resetPageSet : FM unit :=
  s <- get ;; modify (set_nextPageForWorker (map (fun _ => 0) (nextPageForWorker (set_of s)))).

Definition setUsagePolicy (policy : PDBFeedingPageSetUsagePolicy) : FM unit := modify (set_usagePolicy policy).

(** ** Threads *)

(** Where a reader is: outside of the page set, or in the wait of a call for
    the page with this number. *)
Inductive reader := Outside | InWait (page : Z).
#[export] Instance reader_eq_dec : EqDecision reader.
Proof. solve_decision. Defined.

Record system := mkSystem { fs : feeding_state; readers : list reader }.

Inductive step_label :=
| GetNextPage (workerID : nat)
| WakeUp (workerID : nat)
| UnpinPage (x : pg)
| FeedPage (x : pg)
| FinishFeeding
| ResetPageSet.

(** Feeders unpin their pages before they feed them.

    What can be seen of a step: a call that returns, one that goes on waiting,
    or something else. *)
Inductive observation := Returned (workerID : nat) (r : option pg) | Waits (workerID : nat) | Silent.
#[export] Instance step_label_eq_dec : EqDecision step_label.
Proof. solve_decision. Defined.
#[export] Instance observation_eq_dec : EqDecision observation.
Proof. solve_decision. Defined.

Definition on_set {A} (m : FM A) : M system A := fun s =>
  match m (fs s) with
  | Ok a f => Ok a (mkSystem f (readers s))
  | Raise e f => Raise e (mkSystem f (readers s))
  | Exit f => Exit (mkSystem f (readers s))
  | Fault x => Fault x
  | NoFuel => NoFuel
  end.
Definition set_reader (workerID : nat) (r : reader) : M system unit :=
  modify (fun s => mkSystem (fs s) (<[workerID := r]> (readers s))).

(** The condition is looked at with the mutex held: when a reader enters the
    wait, and when it is woken. *)
Definition try_serve (workerID : nat) (page : Z) : M system observation :=
  s <- get ;;
  if ready page (set_of (fs s)) then
    r <- on_set (serve page) ;; _ <- set_reader workerID Outside ;; mret (Returned workerID r)
  else _ <- set_reader workerID (InWait page) ;; mret (Waits workerID).

Definition step (l : step_label) : M system observation :=
  match l with
  | GetNextPage workerID => page <- on_set (take_number workerID) ;; try_serve workerID page
  | WakeUp workerID =>
      s <- get ;;
      match readers s !! workerID with
      | Some (InWait page) => try_serve workerID page
      | _ => mret Silent
      end
  | UnpinPage x => _ <- on_set (unpin x) ;; mret Silent
  | FeedPage x => _ <- on_set (feedPage x) ;; mret Silent
  | FinishFeeding => _ <- on_set finishFeeding ;; mret Silent
  | ResetPageSet => _ <- on_set resetPageSet ;; mret Silent
  end.

Definition start (policy : PDBFeedingPageSetUsagePolicy) (numReaders : nat) (numFeeders : Z) : system :=
  mkSystem (set_usagePolicy policy (mkFS (PDBFeedingPageSet_new (Z.of_nat numReaders) numFeeders) ∅))
    (replicate numReaders Outside).
