(* ===== verification/FeedingPageSetSpec.v ===== *)
(** A PDBFeedingPageSet is a log that every reader reads from the front with a
    cursor of its own, and keeps exactly the pages that are still needed; runs
    of it, and what it does when its rules for clients are not kept. *)

From stdpp Require Import list gmap.
From S2P Require Import Prelude AbstractPageSet FeedingPageSet.

Open Scope Z_scope.

(** ** The specification *)

(** What was fed, how far each reader is, which readers were told that there is
    no more, and how many feeders have not finished. *)
Record log_state := mkLog { log : list pg; cursors : list nat; ended : list bool; feeders : Z }.

(** What a read of the reader gives: a page, nothing, or that it has to wait. *)
Definition log_read (a : log_state) (w : nat) : option (option pg) :=
  k ← cursors a !! w;
  match log a !! k with
  | Some x => Some (Some x)
  | None => if feeders a =? 0 then Some None else None
  end.

Definition log_after (l : step_label) (o : observation) (a : log_state) : log_state :=
  match l, o with
  | _, Returned w (Some _) => mkLog (log a) (alter S w (cursors a)) (ended a) (feeders a)
  | _, Returned w None => mkLog (log a) (cursors a) (<[w := true]> (ended a)) (feeders a)
  | FeedPage x, _ => mkLog (log a ++ [x]) (cursors a) (ended a) (feeders a)
  | FinishFeeding, _ => mkLog (log a) (cursors a) (ended a) (feeders a - 1)
  | ResetPageSet, _ => mkLog (log a) (map (fun _ => 0%nat) (cursors a)) (map (fun _ => false) (ended a)) (feeders a)
  | _, _ => a
  end.

(** The rules for clients: a reader does not call again while it waits or after
    it was told that there is no more, feeders feed new pages until they have
    finished, and only a set that keeps its pages is reset, between reads.
    Readers may be woken at any time. *)
Definition allowed (policy : PDBFeedingPageSetUsagePolicy) (l : step_label) (a : log_state) (s : system) : Prop :=
  match l with
  | GetNextPage w => readers s !! w = Some Outside /\ ended a !! w = Some false
  | WakeUp _ => True
  | UnpinPage x => x ∉ log a
  | FeedPage x => 0 < feeders a /\ x ∉ log a /\ Z.of_nat (length (log a)) + 2 < 2 ^ 64
  | FinishFeeding => 0 < feeders a
  | ResetPageSet => policy = KEEP_AFTER_USED /\ Forall (fun r => r = Outside) (readers s)
  end.

Inductive feeding_run policy (n : nat) (f : Z) : list (step_label * observation) -> log_state -> system -> Prop :=
| run_start : feeding_run policy n f [] (mkLog [] (replicate n 0%nat) (replicate n false) f) (start policy n f)
| run_step tr a s l o s' :
    feeding_run policy n f tr a s -> allowed policy l a s -> step l s = Ok o s' ->
    feeding_run policy n f (tr ++ [(l, o)]) (log_after l o a) s'.

(** The reader a step is about. *)
Definition caller (l : step_label) (s : system) : option nat :=
  match l with
  | GetNextPage w => Some w
  | WakeUp w => match readers s !! w with Some (InWait _) => Some w | _ => None end
  | _ => None
  end.
Definition expected (l : step_label) (a : log_state) (s : system) : observation :=
  match caller l s with
  | Some w => match log_read a w with Some r => Returned w r | None => Waits w end
  | None => Silent
  end.

(** ** The invariant *)

Definition at_cursor (i : nat) (cs : list nat) : Z := Z.of_nat (length (filter (fun k => k = i) cs)).
Definition past (i : nat) (cs : list nat) : Z := Z.of_nat (length (filter (fun k => (i <= k)%nat) cs)).
(** Page [i] is still needed: some reader has not gone on to the next one. *)
Definition needed (i : nat) (cs : list nat) : bool := existsb (fun k => k <=? S i)%nat cs.

Definition kept_info (policy : PDBFeedingPageSetUsagePolicy) (a : log_state) (i : nat) : option PDBFeedingPageInfo :=
  x ← log a !! i;
  match policy with
  | REMOVE_AFTER_USED => if needed i (cursors a) then Some (mkInfo x (at_cursor (S i) (cursors a)) (past (S i) (cursors a))) else None
  | KEEP_AFTER_USED => Some (mkInfo x 0 0)
  end.

Record reader_ok (a : log_state) (k : nat) (e : bool) (t : Z) (r : reader) : Prop := {
  ro_behind : (k <= length (log a))%nat;
  ro_ticket : match r with
              | Outside => t = Z.of_nat k + (if e then 1 else 0)
              | InWait p => p = Z.of_nat k /\ t = Z.of_nat k + 1 /\ e = false
              end;
  ro_ended : e = true -> k = length (log a) /\ feeders a = 0
}.

(** The page set itself, and the readers. *)
Record set_ok (policy : PDBFeedingPageSetUsagePolicy) (n : nat) (f : Z) (a : log_state) (s : feeding_state) : Prop := {
  so_policy : usagePolicy (set_of s) = policy;
  so_readers : numReaders (set_of s) = Z.of_nat n;
  so_feeders : numFeeders (set_of s) = f /\ numFinishedFeeders (set_of s) = f - feeders a /\ 0 <= feeders a <= f;
  so_next : nextPage (set_of s) = Z.of_nat (length (log a)) /\ Z.of_nat (length (log a)) + 1 < 2 ^ 64;
  so_cursors : length (cursors a) = n;
  so_pages i : 0 <= i -> pages (set_of s) !! i = kept_info policy a (Z.to_nat i);
  so_distinct : NoDup (log a);
  so_pinned w k x : cursors a !! w = Some (S k) -> log a !! k = Some x -> pins s !! x = Some true
}.
Record feeding_ok (policy : PDBFeedingPageSetUsagePolicy) (n : nat) (f : Z) (a : log_state) (s : system) : Prop := {
  fo_set : set_ok policy n f a (fs s);
  fo_lengths : length (ended a) = n /\ length (nextPageForWorker (set_of (fs s))) = n /\ length (readers s) = n;
  fo_each w k e t r : cursors a !! w = Some k -> ended a !! w = Some e ->
    nextPageForWorker (set_of (fs s)) !! w = Some t -> readers s !! w = Some r -> reader_ok a k e t r
}.

(** ** Counting cursors *)

Lemma alter_split (cs : list nat) w k : cs !! w = Some k ->
  exists l1 l2, cs = l1 ++ k :: l2 /\ alter S w cs = l1 ++ S k :: l2.
Proof.
  intros H. exists (take w cs), (drop (S w) cs). pose proof (take_drop_middle cs w k H) as E. split; [done|].
  rewrite <- E at 1. assert (Hw : (w < length cs)%nat) by by eapply lookup_lt_Some.
  rewrite <- (length_take_le cs w) at 1 by lia. replace (length (take w cs)) with (length (take w cs) + 0)%nat by lia.
  by rewrite alter_app_r.
Qed.

Lemma at_cursor_split i l1 l2 k : at_cursor i (l1 ++ k :: l2) = at_cursor i (l1 ++ l2) + (if decide (k = i) then 1 else 0).
Proof. unfold at_cursor. rewrite !filter_app, filter_cons, !length_app. destruct (decide (k = i)); simpl; lia. Qed.
Lemma past_split i l1 l2 k : past i (l1 ++ k :: l2) = past i (l1 ++ l2) + (if decide (i <= k)%nat then 1 else 0).
Proof. unfold past. rewrite !filter_app, filter_cons, !length_app. destruct (decide (i <= k)%nat); simpl; lia. Qed.

Lemma at_cursor_alter i cs w k : cs !! w = Some k ->
  at_cursor i (alter S w cs) = at_cursor i cs - (if decide (k = i) then 1 else 0) + (if decide (S k = i) then 1 else 0).
Proof. intros H. destruct (alter_split cs w k H) as (l1 & l2 & -> & ->). rewrite !at_cursor_split. lia. Qed.
Lemma past_alter i cs w k : cs !! w = Some k -> past i (alter S w cs) = past i cs + (if decide (i = S k) then 1 else 0).
Proof.
  intros H. destruct (alter_split cs w k H) as (l1 & l2 & -> & ->). rewrite !past_split. repeat case_decide; lia.
Qed.

Lemma needed_true i cs : needed i cs = true <-> exists k, k ∈ cs /\ (k <= S i)%nat.
Proof.
  unfold needed. rewrite existsb_exists. split; intros (k & Hk & Hle); exists k; rewrite list_elem_of_In in *;
    rewrite ?Nat.leb_le in *; done.
Qed.
Lemma needed_alter i cs w k : cs !! w = Some k -> k <> S i -> needed i (alter S w cs) = needed i cs.
Proof.
  intros H Hne. destruct (alter_split cs w k H) as (l1 & l2 & -> & ->). apply eq_true_iff_eq. rewrite !needed_true.
  split; intros (k' & Hk' & Hle); apply elem_of_app in Hk' as [Hk'|[->|Hk']%elem_of_cons];
    (eexists; split; [apply elem_of_app; by (left + (right; right) + (right; left))|lia]).
Qed.

Lemma filter_all_length {A} (P : A -> Prop) `{!forall x, Decision (P x)} l : length (filter P l) = length l <-> Forall P l.
Proof.
  induction l as [|x l IH]; [done|]. rewrite filter_cons. pose proof (length_filter P l). case_decide as Hx; simpl.
  - rewrite Forall_cons. split; [intros [= E]; split; [done|by apply IH]|intros [_ Hl]; f_equal; by apply IH].
  - rewrite Forall_cons. split; [lia|naive_solver].
Qed.

(** The last reader goes on. *)
Lemma needed_last i cs w : cs !! w = Some (S i) ->
  needed i (alter S w cs) = negb ((at_cursor (S i) (alter S w cs) =? 0) && (past (S i) cs =? Z.of_nat (length cs))).
Proof.
  intros H. destruct (alter_split cs w (S i) H) as (l1 & l2 & Hc & Ha). rewrite Ha.
  destruct (needed i (l1 ++ S (S i) :: l2)) eqn:En.
  - symmetry. apply negb_true_iff, andb_false_iff. apply needed_true in En as (k & Hk & Hle).
    destruct (decide (k = S i)) as [->|Hne].
    + left. apply Z.eqb_neq. unfold at_cursor. assert (S i ∈ filter (fun k => k = S i) (l1 ++ S (S i) :: l2)) by by apply list_elem_of_filter.
      destruct (filter _ _); [by destruct (not_elem_of_nil (S i))|simpl; lia].
    + right. apply Z.eqb_neq. unfold past. intros E. apply Nat2Z.inj, filter_all_length in E. rewrite Forall_forall in E.
      assert (Hin : k ∈ cs); [|specialize (E k Hin); simpl in E; lia].
      rewrite Hc. apply elem_of_app in Hk as [Hk|[->|Hk]%elem_of_cons]; [apply elem_of_app; by left|lia|apply elem_of_app; right; by right].
  - symmetry. apply negb_false_iff, andb_true_iff. assert (Hall : forall k, k ∈ l1 ++ S (S i) :: l2 -> (S i < k)%nat).
    { intros k Hk. destruct (decide (S i < k)%nat) as [|Hle]; [done|]. enough (needed i (l1 ++ S (S i) :: l2) = true) by congruence.
      apply needed_true. exists k. split; [done|lia]. }
    split; apply Z.eqb_eq.
    + unfold at_cursor. destruct (filter _ _) as [|k l] eqn:E; [done|].
      assert (Hk : k ∈ filter (fun k => k = S i) (l1 ++ S (S i) :: l2)) by (rewrite E; by left).
      apply list_elem_of_filter in Hk as [-> Hk]. apply Hall in Hk. lia.
    + unfold past. f_equal. apply filter_all_length, Forall_forall. intros k Hk. rewrite Hc in Hk.
      apply elem_of_app in Hk as [Hk|[->|Hk]%elem_of_cons]; [|lia|]; (assert (S i < k)%nat; [apply Hall, elem_of_app|lia]);
        [by left|right; by right].
Qed.

Lemma at_cursor_bound i cs : 0 <= at_cursor i cs <= Z.of_nat (length cs).
Proof. unfold at_cursor. pose proof (length_filter (fun k => k = i) cs). lia. Qed.
Lemma past_bound i cs : 0 <= past i cs <= Z.of_nat (length cs).
Proof. unfold past. pose proof (length_filter (fun k => (i <= k)%nat) cs). lia. Qed.
Lemma at_cursor_here cs w k : cs !! w = Some k -> 1 <= at_cursor k cs.
Proof.
  intros H. unfold at_cursor. assert (Hk : k ∈ filter (fun k' => k' = k) cs) by (apply list_elem_of_filter; split; [done|by eapply list_elem_of_lookup_2]).
  destruct (filter _ _); [by destruct (not_elem_of_nil k)|simpl; lia].
Qed.

(** ** A page is served *)

Section serve.
Context (policy : PDBFeedingPageSetUsagePolicy) (n : nat) (f : Z) (Hn : Z.of_nat n < 2 ^ 64).
Implicit Types (a : log_state) (s : feeding_state).

Lemma find_page_eq a s i x :
  set_ok policy n f a s -> 0 <= i -> kept_info policy a (Z.to_nat i) = Some x -> find_page i s = Ok x s.
Proof. intros H Hi E. unfold find_page. rewrite (bind_Ok _ _ _ s s) by done. by rewrite (so_pages _ _ _ _ _ H), E by done. Qed.

(** The rest of the state stays, when pages and pins change. *)
Definition same_else s s' : Prop :=
  usagePolicy (set_of s') = usagePolicy (set_of s) /\ nextPageForWorker (set_of s') = nextPageForWorker (set_of s) /\
  numFinishedFeeders (set_of s') = numFinishedFeeders (set_of s) /\ numFeeders (set_of s') = numFeeders (set_of s) /\
  numReaders (set_of s') = numReaders (set_of s) /\ nextPage (set_of s') = nextPage (set_of s).

Lemma same_else_trans s1 s2 s3 : same_else s1 s2 -> same_else s2 s3 -> same_else s1 s3.
Proof. unfold same_else. naive_solver congruence. Qed.

(** What [release_last] does for a reader that goes from page [i] to the next. *)
Lemma release_last_spec a s w i x :
  policy = REMOVE_AFTER_USED -> set_ok policy n f a s -> cursors a !! w = Some (S i) -> log a !! i = Some x ->
  let cs' := alter S w (cursors a) in
  exists s', release_last (Z.of_nat (S i)) s = Ok tt s' /\ same_else s s' /\
    (forall j, pages (set_of s') !! j = if decide (j = Z.of_nat i)
       then (if needed i cs' then Some (mkInfo x (at_cursor (S i) cs') (past (S i) cs')) else None) else pages (set_of s) !! j) /\
    (forall y, pins s' !! y = if decide (y = x /\ at_cursor (S i) cs' = 0) then Some false else pins s !! y).
Proof.
  intros Hpol H Hw Hx cs'. unfold release_last. replace (Z.of_nat (S i) - 1) with (Z.of_nat i) by lia.
  assert (Hk : kept_info policy a (Z.to_nat (Z.of_nat i)) = Some (mkInfo x (at_cursor (S i) (cursors a)) (past (S i) (cursors a)))).
  { unfold kept_info. rewrite Nat2Z.id, Hx, Hpol. simpl. rewrite (proj2 (needed_true i (cursors a))); [done|].
    exists (S i). split; [by eapply list_elem_of_lookup_2|lia]. }
  rewrite (bind_Ok _ _ _ _ _ (find_page_eq a s (Z.of_nat i) _ H ltac:(lia) Hk)). simpl.
  pose proof (at_cursor_here _ _ _ Hw) as H1. pose proof (at_cursor_bound (S i) (cursors a)) as H2. pose proof (so_cursors _ _ _ _ _ H) as Hlen.
  assert (Hat : at_cursor (S i) cs' = at_cursor (S i) (cursors a) - 1).
  { unfold cs'. rewrite (at_cursor_alter _ _ _ _ Hw). rewrite decide_True, decide_False by lia. lia. }
  assert (Hpast : past (S i) cs' = past (S i) (cursors a)).
  { unfold cs'. rewrite (past_alter _ _ _ _ Hw). rewrite decide_False by lia. lia. }
  assert (Hu : u64 (at_cursor (S i) (cursors a) - 1) = at_cursor (S i) cs') by (rewrite Hat; apply wrapu_small; lia).
  rewrite Hu. rewrite (bind_Ok _ _ _ tt (set_pages <[Z.of_nat i := mkInfo x (at_cursor (S i) cs') (past (S i) (cursors a))]> s)) by done.
  assert (Hneed : needed i cs' = negb ((at_cursor (S i) cs' =? 0) && (past (S i) (cursors a) =? Z.of_nat n))).
  { unfold cs'. rewrite (needed_last _ _ _ Hw), Hlen. done. }
  rewrite Hpast. destruct (Z.eqb_spec (at_cursor (S i) cs') 0) as [E0|Hne0].
  - rewrite (bind_Ok _ _ _ tt _) by done. rewrite (bind_Ok _ _ _ _ _) by done. simpl. rewrite (so_readers _ _ _ _ _ H).
    destruct (Z.eqb_spec (past (S i) (cursors a)) (Z.of_nat n)) as [En|Hnn]; rewrite Hneed; simpl.
    + eexists. split; [reflexivity|]. split; [done|]. split.
      * intros j. simpl. case_decide as Ej; [subst j; by rewrite lookup_delete_eq|]. by rewrite lookup_delete_ne, lookup_insert_ne by done.
      * intros y. simpl. destruct (decide (y = x)) as [->|Hy].
        { rewrite decide_True by done. by rewrite lookup_insert_eq. } { rewrite decide_False by naive_solver. by rewrite lookup_insert_ne. }
    + eexists. split; [reflexivity|]. split; [done|]. split.
      * intros j. simpl. case_decide as Ej; [subst j; by rewrite lookup_insert_eq|]. by rewrite lookup_insert_ne.
      * intros y. simpl. destruct (decide (y = x)) as [->|Hy].
        { rewrite decide_True by done. by rewrite lookup_insert_eq. } { rewrite decide_False by naive_solver. by rewrite lookup_insert_ne. }
  - rewrite Hneed. simpl. eexists. split; [reflexivity|]. split; [done|]. split.
    + intros j. simpl. case_decide as Ej; [subst j; by rewrite lookup_insert_eq|]. by rewrite lookup_insert_ne.
    + intros y. rewrite decide_False by naive_solver. done.
Qed.

Definition read_after w r a : log_state := log_after (WakeUp w) (Returned w r) a.

(** The entry for page [k], when a reader gets it. *)
Lemma kept_info_next a w k : cursors a !! w = Some k -> (k < length (log a))%nat ->
  exists x, log a !! k = Some x /\ kept_info policy a k = Some (match policy with
    | REMOVE_AFTER_USED => mkInfo x (at_cursor (S k) (cursors a)) (past (S k) (cursors a)) | KEEP_AFTER_USED => mkInfo x 0 0 end).
Proof.
  intros Hw Hk. destruct (lookup_lt_is_Some_2 _ _ Hk) as [x Hx]. exists x. split; [done|].
  unfold kept_info. rewrite Hx. destruct policy; [|done]. simpl. rewrite (proj2 (needed_true k (cursors a))); [done|].
  exists k. split; [by eapply list_elem_of_lookup_2|lia].
Qed.

(** The first half: the page before is let go. *)
Definition release_before (k : nat) : FM unit :=
  if negb (Z.of_nat k =? 0) && bool_decide (policy = REMOVE_AFTER_USED) then release_last (Z.of_nat k) else mret tt.

Lemma release_before_spec a s w k :
  set_ok policy n f a s -> cursors a !! w = Some k -> (k <= length (log a))%nat ->
  let cs' := alter S w (cursors a) in
  exists s', release_before k s = Ok tt s' /\ same_else s s' /\
    (forall j, 0 <= j -> pages (set_of s') !! j =
       if decide (j + 1 = Z.of_nat k) then kept_info policy (mkLog (log a) cs' (ended a) (feeders a)) (Z.to_nat j) else pages (set_of s) !! j) /\
    (forall y, pins s' !! y = Some true \/ (pins s' !! y = pins s !! y) \/
       (exists i, k = S i /\ log a !! i = Some y /\ at_cursor k cs' = 0)).
Proof.
  intros H Hw Hk cs'. unfold release_before. destruct k as [|i].
  { exists s. split; [done|]. split; [done|]. split; [|by auto]. intros j Hj. rewrite decide_False by lia. done. }
  destruct (lookup_lt_is_Some_2 (log a) i) as [x Hx]; [lia|].
  assert (Hkept : policy = KEEP_AFTER_USED -> forall j, 0 <= j -> j + 1 = Z.of_nat (S i) ->
    pages (set_of s) !! j = kept_info policy (mkLog (log a) cs' (ended a) (feeders a)) (Z.to_nat j)).
  { intros -> j Hj Ej. rewrite (so_pages _ _ _ _ _ H) by done. done. }
  destruct policy eqn:Hpol; rewrite ?andb_false_r.
  - change (negb (Z.of_nat (S i) =? 0) && bool_decide (REMOVE_AFTER_USED = REMOVE_AFTER_USED)) with true. cbv iota.
    rewrite <- Hpol in H. destruct (release_last_spec a s w i x Hpol H Hw Hx) as (s' & E & Hse & Hp & Hpin).
    exists s'. split; [exact E|]. split; [exact Hse|]. split.
    + intros j Hj. rewrite Hp. destruct (decide (j = Z.of_nat i)) as [->|Hne]; [|by rewrite decide_False by lia].
      rewrite decide_True by lia. unfold kept_info. rewrite Nat2Z.id. simpl. by rewrite Hx.
    + intros y. rewrite Hpin. destruct (decide _) as [[-> E0]|]; [|by right; left]. right. right. exists i. by split_and!.
  - exists s. split; [done|]. split; [done|]. split; [|by auto].
    intros j Hj. case_decide; [by apply Hkept|done].
Qed.

Lemma serve_page_spec a s w k :
  set_ok policy n f a s -> cursors a !! w = Some k -> (k <= length (log a))%nat -> ready (Z.of_nat k) (set_of s) = true ->
  exists r s', serve (Z.of_nat k) s = Ok r s' /\ log_read a w = Some r /\ set_ok policy n f (read_after w r a) s' /\
    nextPageForWorker (set_of s') = nextPageForWorker (set_of s).
Proof.
  intros H Hw Hk Hready. pose proof H as [Hpol Hrd (Hfe & Hfin & Hfb) [Hnx Hnb] Hlen Hpages Hnd Hpins].
  unfold serve. rewrite (bind_Ok _ _ _ s s) by done. unfold log_read. rewrite Hw. simpl.
  unfold ready, all_fed in *. rewrite Hnx, Hfin, Hfe in *.
  destruct (decide (k = length (log a))) as [->|Hne].
  { rewrite lookup_ge_None_2 by lia. assert (E0 : feeders a = 0).
    { rewrite Z.ltb_irrefl, orb_false_r, Z.eqb_eq in Hready. lia. }
    rewrite E0, Z.sub_0_r, !Z.eqb_refl. simpl. eexists _, s. by split_and!. }
  destruct (kept_info_next a w k Hw ltac:(lia)) as (x & Hx & Hkx). rewrite Hx.
  rewrite (proj2 (Z.eqb_neq (Z.of_nat (length (log a))) (Z.of_nat k))) by lia. rewrite andb_false_r, Hpol.
  fold (release_before k). destruct (release_before_spec a s w k H Hw Hk) as (s1 & E1 & Hse & Hp1 & Hpin1).
  rewrite (bind_Ok _ _ _ _ _ E1). set (cs' := alter S w (cursors a)) in *.
  assert (Hk1 : pages (set_of s1) !! Z.of_nat k = kept_info policy a k).
  { rewrite Hp1, decide_False by lia. rewrite Hpages, Nat2Z.id by lia. done. }
  rewrite Hkx in Hk1. set (it := match policy with REMOVE_AFTER_USED => _ | KEEP_AFTER_USED => _ end) in *.
  assert (Ef : find_page (Z.of_nat k) s1 = Ok it s1) by (unfold find_page; rewrite (bind_Ok _ _ _ s1 s1) by done; by rewrite Hk1).
  rewrite (bind_Ok _ _ _ _ _ Ef).
  assert (Hoth : forall j, 0 <= j -> j <> Z.of_nat k -> pages (set_of s1) !! j = kept_info policy (mkLog (log a) cs' (ended a) (feeders a)) (Z.to_nat j)).
  { intros j Hj Hjk. rewrite Hp1 by done. case_decide as Ej; [done|]. rewrite Hpages by done. unfold kept_info. simpl.
    destruct (log a !! Z.to_nat j) as [y|]; [|done]. simpl. destruct policy; [|done]. unfold cs'.
    rewrite (needed_alter _ _ _ _ Hw) by lia. rewrite (at_cursor_alter _ _ _ _ Hw), (past_alter _ _ _ _ Hw).
    rewrite !decide_False by lia. rewrite Z.sub_0_r, !Z.add_0_r. done. }
  destruct Hse as (Hs1 & Hs2 & Hs3 & Hs4 & Hs5 & Hs6).
  assert (Hnew : exists s2, (if bool_decide (policy = REMOVE_AFTER_USED)
      then modify (set_pages <[Z.of_nat k := mkInfo x (u64 (at_cursor (S k) (cursors a) + 1)) (u64 (past (S k) (cursors a) + 1))]>) else mret tt) s1 = Ok tt s2 /\
    same_else s1 s2 /\ pins s2 = pins s1 /\
    forall j, 0 <= j -> pages (set_of s2) !! j = kept_info policy (mkLog (log a) cs' (ended a) (feeders a)) (Z.to_nat j)).
  { destruct policy.
    - eexists. split; [reflexivity|]. split; [done|]. split; [done|]. intros j Hj. simpl.
      destruct (decide (j = Z.of_nat k)) as [->|Hjk]; [|rewrite lookup_insert_ne by done; by apply Hoth].
      rewrite lookup_insert_eq, Nat2Z.id. unfold kept_info. simpl. rewrite Hx. simpl. unfold cs'.
      rewrite (needed_alter _ _ _ _ Hw), (proj2 (needed_true k (cursors a))) by (lia || (exists k; split; [by eapply list_elem_of_lookup_2|lia])).
      pose proof (at_cursor_bound (S k) cs') as Hb1. pose proof (past_bound (S k) cs') as Hb2. unfold cs' in Hb1, Hb2.
      rewrite length_alter, Hlen in Hb1, Hb2. rewrite (at_cursor_alter _ _ _ _ Hw), (past_alter _ _ _ _ Hw) in *.
      rewrite decide_False in * by lia. rewrite !decide_True in * by lia.
      rewrite Z.sub_0_r in *. f_equal. f_equal; apply wrapu_small; lia.
    - exists s1. split; [by rewrite bool_decide_false|]. split; [done|]. split; [done|]. intros j Hj.
      destruct (decide (j = Z.of_nat k)) as [->|Hjk]; [|by apply Hoth]. rewrite Hk1, Nat2Z.id. symmetry. exact Hkx. }
  destruct Hnew as (s2 & E2 & (Ht1 & Ht2 & Ht3 & Ht4 & Ht5 & Ht6) & Hpin2 & Hp2).
  exists (Some x), (set_pins <[x := true]> s2). split.
  { destruct policy; simpl; simpl in E2; (rewrite (bind_Ok _ _ _ _ _ E2); done). }
  split; [done|]. split; [|simpl; congruence].
  split; simpl; [congruence|congruence|split_and!; (congruence || lia)|split; (congruence || lia)|by rewrite length_alter|exact Hp2|exact Hnd|].
  intros w' k' y Hw' Hy. destruct (decide (y = x)) as [->|Hyx]; [by rewrite lookup_insert_eq|].
  rewrite lookup_insert_ne, Hpin2 by done. fold cs' in Hw'. destruct (Hpin1 y) as [?|[->|(i & -> & Hi & E0)]]; [done| |].
  - destruct (decide (w' = w)) as [->|Hww].
    { unfold cs' in Hw'. rewrite list_lookup_alter_eq, Hw in Hw'. injection Hw' as <-. congruence. }
    unfold cs' in Hw'. rewrite list_lookup_alter_ne in Hw' by done. by eapply Hpins.
  - assert (k' = i) as -> by (eapply NoDup_lookup; done).
    pose proof (at_cursor_here _ _ _ Hw'). lia.
Qed.
End serve.

(** ** Every step *)

Section steps.
Context (policy : PDBFeedingPageSetUsagePolicy) (n : nat) (f : Z) (Hn : 0 < Z.of_nat n < 2 ^ 64) (Hf : 0 <= f < 2 ^ 64).
Implicit Types (a : log_state) (s : system).

Lemma feeding_start_ok : feeding_ok policy n f (mkLog [] (replicate n 0%nat) (replicate n false) f) (start policy n f).
Proof.
  split; simpl.
  - split; simpl; try done; try lia.
    + by rewrite length_replicate.
    + apply NoDup_nil_2.
  - by rewrite !length_replicate, Nat2Z.id.
  - intros w k e t r [-> _]%lookup_replicate [-> _]%lookup_replicate Ht [-> _]%lookup_replicate.
    rewrite Nat2Z.id in Ht. apply lookup_replicate in Ht as [-> _]. split; simpl; [lia|done|done].
Qed.

Lemma ready_iff a fs w k : set_ok policy n f a fs -> cursors a !! w = Some k ->
  ready (Z.of_nat k) (set_of fs) = bool_decide (is_Some (log_read a w)).
Proof.
  intros [_ _ (Hfe & Hfin & _) [Hnx _] _ _ _ _] Hw. unfold ready, all_fed, log_read. rewrite Hnx, Hfin, Hfe, Hw. simpl.
  destruct (log a !! k) as [x|] eqn:E.
  - apply lookup_lt_Some in E. rewrite bool_decide_true by done. apply orb_true_iff. right. lia.
  - apply lookup_ge_None in E. replace (Z.of_nat k <? Z.of_nat (length (log a))) with false by lia. rewrite orb_false_r.
    destruct (Z.eqb_spec (feeders a) 0) as [E0|E0].
    + rewrite bool_decide_true by done. lia.
    + rewrite bool_decide_false by (by intros [? ?]). lia.
Qed.

(** Reader [w] is in a call of getNextPage for page [k]; everything else is as
    it should be. *)
Record in_call a s (w k : nat) : Prop := {
  ic_set : set_ok policy n f a (fs s);
  ic_lengths : length (ended a) = n /\ length (nextPageForWorker (set_of (fs s))) = n /\ length (readers s) = n;
  ic_cursor : cursors a !! w = Some k;
  ic_ended : ended a !! w = Some false;
  ic_ticket : nextPageForWorker (set_of (fs s)) !! w = Some (Z.of_nat k + 1);
  ic_behind : (k <= length (log a))%nat;
  ic_others w' k' e t r : w' <> w -> cursors a !! w' = Some k' -> ended a !! w' = Some e ->
    nextPageForWorker (set_of (fs s)) !! w' = Some t -> readers s !! w' = Some r -> reader_ok a k' e t r
}.

Definition answer a (w : nat) : observation := match log_read a w with Some r => Returned w r | None => Waits w end.

Lemma log_after_returned l w r a : log_after l (Returned w r) a = read_after w r a.
Proof. unfold read_after. by destruct l, r. Qed.

Lemma reader_ok_same a a' k e t r : log a' = log a -> feeders a' = feeders a -> reader_ok a k e t r -> reader_ok a' k e t r.
Proof. intros E1 E2 [H1 H2 H3]. split; rewrite ?E1, ?E2; done. Qed.

Lemma try_serve_spec l a s w k :
  in_call a s w k -> (l = GetNextPage w \/ l = WakeUp w) ->
  exists s', try_serve w (Z.of_nat k) s = Ok (answer a w) s' /\ feeding_ok policy n f (log_after l (answer a w) a) s'.
Proof.
  intros [Hset (Hle & Hln & Hlr) Hw He Ht Hk Hoth] Hl. unfold try_serve, answer. rewrite (bind_Ok _ _ _ s s) by done.
  rewrite (ready_iff a (fs s) w k Hset Hw). case_bool_decide as Hr.
  - assert (Hready : ready (Z.of_nat k) (set_of (fs s)) = true) by (rewrite (ready_iff a _ w k Hset Hw); by apply bool_decide_true).
    destruct (serve_page_spec policy n f (proj2 Hn) a (fs s) w k Hset Hw Hk Hready) as (r & fs' & E & Hlog & Hset' & Hnp).
    rewrite Hlog. assert (E' : on_set (serve (Z.of_nat k)) s = Ok r (mkSystem fs' (readers s))) by (unfold on_set; by rewrite E).
    rewrite (bind_Ok _ _ _ _ _ E'). eexists. split; [reflexivity|]. rewrite log_after_returned. split; simpl.
    + exact Hset'.
    + rewrite Hnp, length_insert. destruct r; simpl; rewrite ?length_insert; by split_and!.
    + rewrite Hnp. intros w' k' e t rr Hc' He' Ht' Hr'. destruct (decide (w' = w)) as [->|Hne].
      * rewrite list_lookup_insert_eq in Hr' by (apply lookup_lt_Some in Hw; rewrite (so_cursors _ _ _ _ _ Hset) in Hw; lia).
        injection Hr' as <-. assert (t = Z.of_nat k + 1) as -> by congruence. unfold log_read in Hlog. rewrite Hw in Hlog. simpl in Hlog.
        destruct r as [x|]; simpl in Hc', He'.
        -- rewrite list_lookup_alter_eq, Hw in Hc'. injection Hc' as <-. assert (e = false) as -> by congruence.
           destruct (log a !! k) eqn:Ex; [|by destruct (feeders a =? 0)]. apply lookup_lt_Some in Ex. split; simpl; [lia|lia|done].
        -- rewrite list_lookup_insert_eq in He' by (by eapply lookup_lt_Some). injection He' as <-. assert (k' = k) as -> by congruence.
           destruct (log a !! k) eqn:Ex; [done|]. apply lookup_ge_None in Ex. destruct (Z.eqb_spec (feeders a) 0); [|done].
           split; simpl; [lia|lia|]. intros _. split; [lia|done].
      * rewrite list_lookup_insert_ne in Hr' by done. apply (reader_ok_same a); [by destruct r|by destruct r|].
        destruct r; simpl in Hc', He'; rewrite ?list_lookup_alter_ne in Hc' by done; rewrite ?list_lookup_insert_ne in He' by done; by eapply Hoth.
  - destruct (log_read a w) as [r|] eqn:Hlog; [by destruct Hr|]. eexists. split; [reflexivity|].
    replace (log_after l (Waits w) a) with a by (by destruct Hl as [-> | ->]). split; simpl.
    + exact Hset.
    + by rewrite length_insert.
    + intros w' k' e t rr Hc' He' Ht' Hr'. destruct (decide (w' = w)) as [->|Hne].
      * rewrite list_lookup_insert_eq in Hr' by (apply lookup_lt_Some in Hw; rewrite (so_cursors _ _ _ _ _ Hset) in Hw; lia).
        injection Hr' as <-. simplify_eq. split; simpl; [done|by split_and!|done].
      * rewrite list_lookup_insert_ne in Hr' by done. by eapply Hoth.
Qed.

(** A reader that waits, or that is outside and may call. *)
Lemma cursor_of a s w r : feeding_ok policy n f a s -> readers s !! w = Some r ->
  exists k e t, cursors a !! w = Some k /\ ended a !! w = Some e /\
    nextPageForWorker (set_of (fs s)) !! w = Some t /\ reader_ok a k e t r.
Proof.
  intros [Hset (Hle & Hln & Hlr) Heach] Hr. pose proof (lookup_lt_Some _ _ _ Hr) as Hw. rewrite Hlr in Hw.
  destruct (lookup_lt_is_Some_2 (cursors a) w) as [k Hk]; [by rewrite (so_cursors _ _ _ _ _ Hset)|].
  destruct (lookup_lt_is_Some_2 (ended a) w) as [e He]; [lia|].
  destruct (lookup_lt_is_Some_2 (nextPageForWorker (set_of (fs s))) w) as [t Ht]; [lia|].
  exists k, e, t. split_and!; [done|done|done|by eapply Heach].
Qed.

Lemma step_GetNextPage a s w :
  feeding_ok policy n f a s -> readers s !! w = Some Outside -> ended a !! w = Some false ->
  exists s', step (GetNextPage w) s = Ok (answer a w) s' /\ feeding_ok policy n f (log_after (GetNextPage w) (answer a w) a) s'.
Proof.
  intros H Hr He. destruct (cursor_of a s w _ H Hr) as (k & e & t & Hk & He' & Ht & [Hb Htk _]).
  assert (e = false) as -> by congruence. simpl in Htk. rewrite Z.add_0_r in Htk. subst t.
  destruct H as [Hset (Hle & Hln & Hlr) Heach]. pose proof (proj2 (so_next _ _ _ _ _ Hset)) as Hbound.
  set (s1 := mkSystem (set_nextPageForWorker (<[w := Z.of_nat k + 1]> (nextPageForWorker (set_of (fs s)))) (fs s)) (readers s)).
  assert (E : on_set (take_number w) s = Ok (Z.of_nat k) s1).
  { unfold on_set, take_number. rewrite (bind_Ok _ _ _ (fs s) (fs s)) by done. rewrite (bind_Ok _ _ _ (Z.of_nat k) (fs s)) by (by rewrite Ht).
    unfold s1. replace (u64 (Z.of_nat k + 1)) with (Z.of_nat k + 1) by (symmetry; apply wrapu_small; lia). done. }
  unfold step. rewrite (bind_Ok _ _ _ _ _ E). apply try_serve_spec; [|by left]. split; simpl.
  - destruct Hset. by split.
  - by rewrite length_insert.
  - done.
  - done.
  - by rewrite list_lookup_insert_eq by (by eapply lookup_lt_Some).
  - done.
  - intros w' k' e t r Hne Hc' He'' Ht' Hr'. rewrite list_lookup_insert_ne in Ht' by done. by eapply Heach.
Qed.

Lemma step_WakeUp a s w :
  feeding_ok policy n f a s ->
  exists s', step (WakeUp w) s = Ok (expected (WakeUp w) a s) s' /\ feeding_ok policy n f (log_after (WakeUp w) (expected (WakeUp w) a s) a) s'.
Proof.
  intros H. unfold expected, caller, step. rewrite (bind_Ok _ _ _ s s) by done. destruct (readers s !! w) as [[|p]|] eqn:Hr; [by exists s| |by exists s].
  destruct (cursor_of a s w _ H Hr) as (k & e & t & Hk & He & Ht & [Hb (-> & -> & ->) _]).
  destruct H as [Hset Hlen Heach]. change (match log_read a w with Some r => Returned w r | None => Waits w end) with (answer a w).
  apply try_serve_spec; [|by right]. split; try done. intros w' k' e t r _ ? ? ? ?. by eapply Heach.
Qed.

Lemma step_FeedPage a s x :
  feeding_ok policy n f a s -> 0 < feeders a -> x ∉ log a -> Z.of_nat (length (log a)) + 2 < 2 ^ 64 ->
  exists s', step (FeedPage x) s = Ok Silent s' /\ feeding_ok policy n f (log_after (FeedPage x) Silent a) s'.
Proof.
  intros [Hset Hlen Heach] Hfd Hx Hb. pose proof Hset as [Hpol Hrd (Hfe & Hfin & Hfb) [Hnx Hnb] Hlc Hpages Hnd Hpins].
  set (N := Z.of_nat (length (log a))) in *.
  assert (Hnone : pages (set_of (fs s)) !! N = None).
  { rewrite Hpages by (unfold N; lia). unfold N, kept_info. by rewrite Nat2Z.id, lookup_ge_None_2 by lia. }
  assert (E : on_set (feedPage x) s = Ok tt (mkSystem (set_nextPage (N + 1) (set_pages <[N := mkInfo x 0 0]> (fs s))) (readers s))).
  { unfold on_set, feedPage. rewrite (bind_Ok _ _ _ (fs s) (fs s)) by done. unfold all_fed. rewrite Hfin, Hfe, Hnx.
    replace (f - feeders a =? f) with false by lia. rewrite (bind_Ok _ _ _ tt (set_pages <[N := mkInfo x 0 0]> (fs s))).
    - simpl. do 3 f_equal. apply wrapu_small. lia.
    - unfold modify, set_pages. simpl. by rewrite Hnone. }
  unfold step. rewrite (bind_Ok _ _ _ _ _ E). eexists. split; [reflexivity|].
  assert (Hcur : forall w k, cursors a !! w = Some k -> (k <= length (log a))%nat).
  { intros w k Hk. pose proof (lookup_lt_Some _ _ _ Hk) as Hw. destruct Hlen as (Hle & Hln & Hlr).
    destruct (lookup_lt_is_Some_2 (readers s) w) as [r Hr]; [lia|].
    destruct (cursor_of a s w r) as (k' & ? & ? & ? & ? & ? & []); [by split|done|]. simplify_eq. done. }
  split; simpl.
  - split; simpl; try done.
    + rewrite length_app. simpl. unfold N. lia.
    + intros i Hi. destruct (decide (i = N)) as [->|Hne].
      * rewrite lookup_insert_eq. unfold kept_info, N. simpl. rewrite Nat2Z.id, list_lookup_middle by done. simpl. destruct policy; [|done].
        destruct (lookup_lt_is_Some_2 (cursors a) 0) as [k Hk]; [lia|]. rewrite (proj2 (needed_true _ _)).
        -- assert (Hall : forall k', k' ∈ cursors a -> (k' <= length (log a))%nat) by (intros k' [w Hw]%list_elem_of_lookup_1; by eapply Hcur).
           unfold at_cursor, past. rewrite !filter_none; [done| |]; intros k' Hk'%Hall; lia.
        -- exists k. split; [by eapply list_elem_of_lookup_2|]. apply Hcur in Hk. lia.
      * rewrite lookup_insert_ne, Hpages by done. unfold kept_info. simpl.
        destruct (decide (i < N)) as [Hlt|Hge]; [by rewrite lookup_app_l by (unfold N in *; lia)|].
        rewrite !lookup_ge_None_2; [done|rewrite length_app; simpl; unfold N in *; lia|unfold N in *; lia].
    + apply NoDup_app. split_and!; [done| |apply NoDup_singleton]. intros y Hy ->%list_elem_of_singleton. done.
    + intros w k y Hw Hy. apply Hcur in Hw as Hk. rewrite lookup_app_l in Hy by lia. by eapply Hpins.
  - done.
  - intros w k e t r Hk He Ht Hr. destruct (Heach w k e t r Hk He Ht Hr) as [H1 H2 H3].
    split; simpl; [rewrite length_app; lia|done|]. intros ->. destruct (H3 eq_refl). lia.
Qed.

Lemma step_FinishFeeding a s :
  feeding_ok policy n f a s -> 0 < feeders a ->
  exists s', step FinishFeeding s = Ok Silent s' /\ feeding_ok policy n f (log_after FinishFeeding Silent a) s'.
Proof.
  intros [Hset Hlen Heach] Hfd. pose proof Hset as [Hpol Hrd (Hfe & Hfin & Hfb) Hnx Hlc Hpages Hnd Hpins].
  eexists. split; [reflexivity|]. split; simpl.
  - split; simpl; try done. rewrite Hfin. split_and!; [done| |lia|lia]. unfold u64. rewrite wrapu_small by lia. lia.
  - done.
  - intros w k e t r Hk He Ht Hr. destruct (Heach w k e t r Hk He Ht Hr) as [H1 H2 H3].
    split; simpl; [done|done|]. intros ->. destruct (H3 eq_refl). lia.
Qed.

Lemma step_ResetPageSet a s :
  feeding_ok policy n f a s -> policy = KEEP_AFTER_USED -> Forall (fun r => r = Outside) (readers s) ->
  exists s', step ResetPageSet s = Ok Silent s' /\ feeding_ok policy n f (log_after ResetPageSet Silent a) s'.
Proof.
  intros [Hset Hlen Heach] Hpol Hout. pose proof Hset as [Hp Hrd Hfe Hnx Hlc Hpages Hnd Hpins].
  eexists. split; [reflexivity|]. split; simpl.
  - split; simpl; try done.
    + by rewrite length_map.
    + intros i Hi. rewrite Hpages by done. unfold kept_info. simpl. by rewrite Hpol.
    + intros w k x Hw. rewrite list_lookup_fmap in Hw. by destruct (cursors a !! w).
  - by rewrite !length_map.
  - intros w k e t r Hk He Ht Hr. rewrite map_const_replicate in Hk; rewrite map_const_replicate in He; rewrite map_const_replicate in Ht.
    apply lookup_replicate in Hk as [-> _], He as [-> _], Ht as [-> _]. rewrite Forall_lookup in Hout. rewrite (Hout w r Hr). split; simpl; [lia|lia|done].
Qed.

Lemma step_UnpinPage a s x :
  feeding_ok policy n f a s -> x ∉ log a ->
  exists s', step (UnpinPage x) s = Ok Silent s' /\ feeding_ok policy n f (log_after (UnpinPage x) Silent a) s'.
Proof.
  intros [Hset Hlen Heach] Hx. eexists. split; [reflexivity|]. split; simpl; [|done|exact Heach].
  destruct Hset as [? ? ? ? ? ? ? Hpins]. split; simpl; try done. intros w k y Hw Hy.
  rewrite lookup_insert_ne; [by eapply Hpins|]. intros ->. by apply Hx, list_elem_of_lookup_2 with k.
Qed.

(** An allowed step behaves as the log says. *)
Lemma step_expected l a s :
  feeding_ok policy n f a s -> allowed policy l a s ->
  exists s', step l s = Ok (expected l a s) s' /\ feeding_ok policy n f (log_after l (expected l a s) a) s'.
Proof.
  intros H Hal. destruct l as [w|w|x|x| |]; unfold expected; simpl caller; cbv iota.
  - destruct Hal. by apply step_GetNextPage.
  - by apply step_WakeUp.
  - by apply step_UnpinPage.
  - destruct Hal as (? & ? & ?). by apply step_FeedPage.
  - by apply step_FinishFeeding.
  - destruct Hal. by apply step_ResetPageSet.
Qed.

Lemma feeding_run_ok tr a s : feeding_run policy n f tr a s -> feeding_ok policy n f a s.
Proof.
  induction 1 as [|tr a s l o s' Hrun IH Hal Hstep]; [apply feeding_start_ok|].
  destruct (step_expected l a s IH Hal) as (s1 & E & Hok). rewrite E in Hstep. by simplify_eq.
Qed.

(** ** What readers are handed *)

Definition fed (tr : list (step_label * observation)) : list pg :=
  omap (fun lo => match lo.1 with FeedPage x => Some x | _ => None end) tr.
Definition handed (w : nat) (tr : list (step_label * observation)) : list pg :=
  omap (fun lo => match lo.2 with Returned w' (Some x) => if decide (w' = w) then Some x else None | _ => None end) tr.

(** The log is what was fed; each reader was handed the part its cursor has
    passed, and one that was told that there is no more has passed it all. *)
Record trace_ok tr a : Prop := {
  to_log : fed tr = log a;
  to_handed w k : cursors a !! w = Some k -> handed w tr = take k (log a);
  to_told w l : (l, Returned w None) ∈ tr -> cursors a !! w = Some (length (log a)) /\ feeders a = 0
}.

Lemma expected_returned l a s w r : expected l a s = Returned w r -> caller l s = Some w /\ log_read a w = Some r.
Proof. unfold expected. destruct (caller l s) as [w'|]; [|done]. destruct (log_read a w') eqn:E; [|done]. naive_solver. Qed.

Lemma log_read_Some a w x : log_read a w = Some (Some x) -> exists k, cursors a !! w = Some k /\ log a !! k = Some x.
Proof.
  unfold log_read. destruct (cursors a !! w) as [k|]; [|done]. simpl. destruct (log a !! k) eqn:E; [|by destruct (feeders a =? 0)].
  intros [= ->]. by exists k.
Qed.
Lemma log_read_None a w : log_read a w = Some None -> exists k, cursors a !! w = Some k /\ (length (log a) <= k)%nat /\ feeders a = 0.
Proof.
  unfold log_read. destruct (cursors a !! w) as [k|]; [|done]. simpl. destruct (log a !! k) eqn:E; [done|].
  apply lookup_ge_None in E. destruct (Z.eqb_spec (feeders a) 0); [|done]. intros _. by exists k.
Qed.

Lemma cursor_behind a s w k : feeding_ok policy n f a s -> cursors a !! w = Some k -> (k <= length (log a))%nat.
Proof.
  intros H Hk. pose proof (lookup_lt_Some _ _ _ Hk) as Hw. rewrite (so_cursors _ _ _ _ _ (fo_set _ _ _ _ _ H)) in Hw.
  destruct (lookup_lt_is_Some_2 (readers s) w) as [r Hr]; [destruct (fo_lengths _ _ _ _ _ H); lia|].
  destruct (cursor_of a s w r H Hr) as (k' & ? & ? & ? & ? & ? & []). by simplify_eq.
Qed.

Lemma fed_snoc tr lo : fed (tr ++ [lo]) = fed tr ++ fed [lo].
Proof. unfold fed. by rewrite omap_app. Qed.
Lemma handed_snoc w tr lo : handed w (tr ++ [lo]) = handed w tr ++ handed w [lo].
Proof. unfold handed. by rewrite omap_app. Qed.

Lemma trace_ok_other tr a lo a' :
  trace_ok tr a -> fed [lo] = [] -> (forall w, handed w [lo] = []) -> (forall w, lo.2 <> Returned w None) ->
  log a' = log a -> cursors a' = cursors a -> (feeders a = 0 -> feeders a' = 0) -> trace_ok (tr ++ [lo]) a'.
Proof.
  intros [H1 H2 H3] Hfed Hh Hn' E1 E2 E3. split.
  - by rewrite fed_snoc, Hfed, app_nil_r, E1.
  - intros w k. rewrite handed_snoc, Hh, app_nil_r, E1, E2. apply H2.
  - intros w l [Hin|Hin]%elem_of_app; [|apply list_elem_of_singleton in Hin; subst lo; by destruct (Hn' w)].
    destruct (H3 w l Hin) as [Hc Hz]. rewrite E1, E2. auto.
Qed.

Lemma trace_ok_served tr a l w x :
  trace_ok tr a -> fed [(l, Returned w (Some x))] = [] -> log_read a w = Some (Some x) ->
  trace_ok (tr ++ [(l, Returned w (Some x))]) (read_after w (Some x) a).
Proof.
  intros [H1 H2 H3] Hfed (k & Hk & Hx)%log_read_Some. split; simpl.
  - by rewrite fed_snoc, Hfed, app_nil_r.
  - intros w' k' Hk'. rewrite handed_snoc. unfold handed at 2. simpl. destruct (decide (w = w')) as [<-|Hne].
    + rewrite list_lookup_alter_eq, Hk in Hk'. injection Hk' as <-. rewrite (H2 w k Hk). symmetry. by apply take_S_r.
    + rewrite list_lookup_alter_ne in Hk' by done. rewrite app_nil_r. by apply H2.
  - intros w' l' [Hin|Hin]%elem_of_app; [|apply list_elem_of_singleton in Hin; by simplify_eq].
    destruct (H3 w' l' Hin) as [Hc Hz]. destruct (decide (w = w')) as [<-|Hne]; [|by rewrite list_lookup_alter_ne].
    apply lookup_lt_Some in Hx. simplify_eq. lia.
Qed.

Lemma trace_ok_told tr a s l w :
  feeding_ok policy n f a s -> trace_ok tr a -> fed [(l, Returned w None)] = [] -> log_read a w = Some None ->
  trace_ok (tr ++ [(l, Returned w None)]) (read_after w None a).
Proof.
  intros H [H1 H2 H3] Hfed (k & Hk & Hle & Hz)%log_read_None. split; simpl.
  - by rewrite fed_snoc, Hfed, app_nil_r.
  - intros w' k' Hk'. rewrite handed_snoc. unfold handed at 2. simpl. rewrite app_nil_r. by apply H2.
  - intros w' l' [Hin|Hin]%elem_of_app; [by eapply H3|]. apply list_elem_of_singleton in Hin. simplify_eq.
    split; [|done]. pose proof (cursor_behind a s _ _ H Hk). rewrite Hk. f_equal. lia.
Qed.

Lemma trace_ok_fed tr a s x :
  feeding_ok policy n f a s -> trace_ok tr a -> 0 < feeders a ->
  trace_ok (tr ++ [(FeedPage x, Silent)]) (log_after (FeedPage x) Silent a).
Proof.
  intros H [H1 H2 H3] Hz. split; simpl.
  - by rewrite fed_snoc, H1.
  - intros w k Hk. rewrite handed_snoc. unfold handed at 2. simpl. rewrite app_nil_r, (H2 w k Hk).
    apply (cursor_behind a s) in Hk; [|done]. by rewrite take_app_le.
  - intros w l [Hin|Hin]%elem_of_app; [destruct (H3 w l Hin); lia|]. apply list_elem_of_singleton in Hin. by simplify_eq.
Qed.

Lemma feeding_run_trace tr a s : feeding_run policy n f tr a s -> ResetPageSet ∉ map fst tr -> trace_ok tr a.
Proof.
  induction 1 as [|tr a s l o s' Hrun IH Hal Hstep]; intros Hno.
  { split; simpl; [done| |by intros w l ?%not_elem_of_nil]. intros w k [-> _]%lookup_replicate. done. }
  rewrite map_app in Hno. assert (Htr : trace_ok tr a) by (apply IH; intros ?; apply Hno, elem_of_app; by left).
  pose proof (feeding_run_ok tr a s Hrun) as Hok. destruct (step_expected l a s Hok Hal) as (s1 & E & _).
  rewrite E in Hstep. injection Hstep as <- <-. destruct (expected l a s) as [w r|w|] eqn:Eo.
  - apply expected_returned in Eo as [Hc Hr]. assert (Hfed : forall r, fed [(l, Returned w r)] = []) by (by destruct l).
    rewrite log_after_returned. destruct r as [x|]; [by apply trace_ok_served|by eapply trace_ok_told].
  - apply (trace_ok_other _ a); try done; unfold expected in Eo; destruct l; try done.
  - destruct l as [w|w|x|x| |]; [|by apply (trace_ok_other _ a)|by apply (trace_ok_other _ a)|destruct Hal; by eapply trace_ok_fed| |].
    + unfold expected in Eo. simpl in Eo. by destruct (log_read a w).
    + apply (trace_ok_other _ a); try done. simpl in *. lia.
    + destruct Hno. apply elem_of_app. right. by apply list_elem_of_singleton.
Qed.
End steps.


(** C18: A reader that is told that there are no more pages was handed every
    page that was fed, each of them once and in the order in which they were
    fed, however the threads were interleaved (the set not being reset). *)
Theorem every_reader_gets_every_page policy n f tr a s l w :
  0 < Z.of_nat n < 2 ^ 64 -> 0 <= f < 2 ^ 64 -> feeding_run policy n f tr a s -> ResetPageSet ∉ map fst tr ->
  (l, Returned w None) ∈ tr -> handed w tr = fed tr.
Proof.
  intros Hn Hf Hrun Hno Hin. destruct (feeding_run_trace policy n f Hn Hf tr a s Hrun Hno) as [H1 H2 H3].
  destruct (H3 w l Hin) as [Hc _]. by rewrite (H2 w _ Hc), firstn_all, H1.
Qed.

(** C31: With REMOVE_AFTER_USED, the page set keeps a page exactly until the last
    reader has gone on to the page after it, and a page that a reader is using
    is pinned. *)
Theorem pages_are_kept_while_needed n f tr a s i x :
  0 < Z.of_nat n < 2 ^ 64 -> 0 <= f < 2 ^ 64 -> feeding_run REMOVE_AFTER_USED n f tr a s -> log a !! i = Some x ->
  (is_Some (pages (set_of (fs s)) !! Z.of_nat i) <-> exists w k, cursors a !! w = Some k /\ (k <= S i)%nat) /\
  (forall w, cursors a !! w = Some (S i) -> pins (fs s) !! x = Some true).
Proof.
  intros Hn Hf Hrun Hx. destruct (feeding_run_ok _ n f Hn Hf tr a s Hrun) as [[_ _ _ _ _ Hpages _ Hpins] _ _]. split.
  - rewrite Hpages, Nat2Z.id by lia. unfold kept_info. rewrite Hx. simpl. destruct (needed i (cursors a)) eqn:E.
    + apply needed_true in E as (k & [w Hw]%list_elem_of_lookup_1 & Hk). split; [|done]. intros _. by exists w, k.
    + split; [by intros [? ?]|]. intros (w & k & Hw & Hk). enough (needed i (cursors a) = true) by congruence.
      apply needed_true. exists k. split; [by eapply list_elem_of_lookup_2|done].
  - intros w Hw. by eapply Hpins.
Qed.

(** ** A run with two readers and two feeders *)

#[local] Instance allowed_dec policy l a s : Decision (allowed policy l a s).
Proof. destruct l; simpl; apply _. Defined.

(** Make the steps, as long as they are allowed and succeed. *)
Fixpoint play (policy : PDBFeedingPageSetUsagePolicy) (n : nat) (f : Z) (ls : list step_label)
    (tr : list (step_label * observation)) (a : log_state) (s : system) : option (list (step_label * observation) * log_state * system) :=
  match ls with
  | [] => Some (tr, a, s)
  | l :: ls =>
      if decide (allowed policy l a s) then
        match step l s with
        | Ok o s' => play policy n f ls (tr ++ [(l, o)]) (log_after l o a) s'
        | _ => None
        end
      else None
  end.
Lemma play_run policy n f ls tr a s tr' a' s' :
  feeding_run policy n f tr a s -> play policy n f ls tr a s = Some (tr', a', s') -> feeding_run policy n f tr' a' s'.
Proof.
  revert tr a s. induction ls as [|l ls IH]; simpl; intros tr a s H E; [by simplify_eq|].
  case_decide; [|done]. destruct (step l s) as [o s1| | | |] eqn:Es; try done. eapply IH; [|exact E]. by eapply run_step.
Qed.

Definition from_start policy n f ls := play policy n f ls [] (mkLog [] (replicate n 0%nat) (replicate n false) f) (start policy n f).

(** Reader 0 waits for both pages; reader 1 comes later. *)
Definition labels : list step_label :=
  [GetNextPage 0; FeedPage 7; WakeUp 0; WakeUp 0; GetNextPage 0; FinishFeeding; WakeUp 0; FeedPage 9; GetNextPage 1; WakeUp 0;
   GetNextPage 0; FinishFeeding; GetNextPage 1; WakeUp 0; GetNextPage 1].
Definition trace_of (r : option (list (step_label * observation) * log_state * system)) : list observation :=
  match r with Some (tr, _, _) => map snd tr | None => [] end.

Lemma from_start_run policy n f ls tr a s : from_start policy n f ls = Some (tr, a, s) -> feeding_run policy n f tr a s.
Proof. apply play_run, run_start. Qed.

Example labels_trace : trace_of (from_start REMOVE_AFTER_USED 2 2 labels) =
  [Waits 0; Silent; Returned 0 (Some 7%positive); Silent; Waits 0; Silent; Waits 0; Silent; Returned 1 (Some 7%positive);
   Returned 0 (Some 9%positive); Waits 0; Silent; Returned 1 (Some 9%positive); Returned 0 None; Returned 1 None].
Proof. vm_compute. reflexivity. Qed.

(** The state in which reader 0 has page 9 and reader 1 has page 7. *)
Definition middle : option (list (step_label * observation) * log_state * system) :=
  Eval vm_compute in from_start REMOVE_AFTER_USED 2 2 (take 10 labels).
Definition at_end : option (list (step_label * observation) * log_state * system) :=
  Eval vm_compute in from_start REMOVE_AFTER_USED 2 2 labels.


Lemma every_reader_gets_every_page_witness : match at_end with
  | Some (tr, a, s) => feeding_run REMOVE_AFTER_USED 2 2 tr a s /\ handed 0 tr = [7%positive; 9%positive] /\ handed 0 tr = fed tr
  | None => False
  end.
Proof.
  assert (Hrun : match at_end with Some (tr, a, s) => feeding_run REMOVE_AFTER_USED 2 2 tr a s | None => False end)
    by (apply (from_start_run REMOVE_AFTER_USED 2 2 labels); vm_compute; reflexivity).
  unfold at_end in *. split; [exact Hrun|]. split; [reflexivity|].
  apply (every_reader_gets_every_page REMOVE_AFTER_USED 2 2 _ _ _ (WakeUp 0) 0 ltac:(lia) ltac:(lia) Hrun).
  - apply (bool_decide_unpack _). vm_compute. exact I.
  - apply (bool_decide_unpack _). vm_compute. exact I.
Defined.

Lemma pages_are_kept_while_needed_witness : match middle with
  | Some (tr, a, s) => feeding_run REMOVE_AFTER_USED 2 2 tr a s /\ log a !! 0%nat = Some 7%positive /\
      is_Some (pages (set_of (fs s)) !! 0) /\ pins (fs s) !! 7%positive = Some true
  | None => False
  end.
Proof.
  assert (Hrun : match middle with Some (tr, a, s) => feeding_run REMOVE_AFTER_USED 2 2 tr a s | None => False end)
    by (apply (from_start_run REMOVE_AFTER_USED 2 2 (take 10 labels)); vm_compute; reflexivity).
  unfold middle in *. split; [exact Hrun|]. split; [reflexivity|].
  destruct (pages_are_kept_while_needed 2 2 _ _ _ 0 7%positive ltac:(lia) ltac:(lia) Hrun eq_refl) as [Hk Hp].
  split; [apply Hk; exists 1%nat, 1%nat; split; [reflexivity|lia]|apply (Hp 1%nat); reflexivity].
Defined.

(** ** Where the page set goes wrong *)

(** When both readers are told that there is no more, the last page is still in
    the map, still counted as used twice and still pinned: only a reader that
    is handed the page after it lets a page go. *)
Lemma last_page_stays_pinned : match at_end with
  | Some (_, _, s) => pages (set_of (fs s)) !! 1 = Some (mkInfo 9 2 2) /\ pages (set_of (fs s)) !! 0 = None /\
      pins (fs s) !! 9%positive = Some true /\ pins (fs s) !! 7%positive = Some false
  | None => False
  end.
Proof. vm_compute. split_and!; reflexivity. Qed.

Definition outcome_of {A} (r : outcome system A) : option (option fault) :=
  match r with Ok _ _ => Some None | Fault x => Some (Some x) | _ => None end.
Fixpoint make_steps (ls : list step_label) : M system unit :=
  match ls with [] => mret tt | l :: ls => _ <- step l ;; make_steps ls end.

(** A reader that asks once more after it was told that there is no more runs
    into an assertion: it is taken to have used the page behind the last. *)
Lemma asking_after_the_end_fails :
  outcome_of (make_steps [FinishFeeding; GetNextPage 0] (start REMOVE_AFTER_USED 1 1)) = Some None /\
  outcome_of (make_steps [FinishFeeding; GetNextPage 0; GetNextPage 0] (start REMOVE_AFTER_USED 1 1)) = Some (Some AssertFailed).
Proof. split; reflexivity. Qed.

(** A page set that removes its pages cannot be used again after resetPageSet:
    the first page that all readers are done with is gone. *)
Lemma reset_after_removal_fails :
  outcome_of (make_steps [FeedPage 7; FeedPage 9; FinishFeeding; GetNextPage 0; GetNextPage 0; GetNextPage 0; ResetPageSet; GetNextPage 0]
    (start REMOVE_AFTER_USED 1 1)) = Some (Some AssertFailed).
Proof. reflexivity. Qed.

(** With no feeders to wait for, the set is complete from the start and nothing
    can be fed. *)
Lemma no_feeders_no_pages x : step (FeedPage x) (start REMOVE_AFTER_USED 1 0) =
  Raise (RuntimeError "Trying to feed pages, when all feeders have done feeding.") (start REMOVE_AFTER_USED 1 0).
Proof. reflexivity. Qed.
