(* ===== verification/AnonymousPageSet.v ===== *)
(** Page sets that hold their pages: PDBAnonymousPageSet,
    pdb/src/storageManager/headers/PDBAnonymousPageSet.h and
    source/PDBAnonymousPageSet.cc.

    The pages are in a std::map ordered by page number; each worker, or all of
    them together, reads it with an iterator.  Every method holds the mutex
    while it touches the map, so that a run is a sequence of calls.  The pages
    are handed out in the order of their numbers, each of them once to every
    slot: to all workers together or to each of them. *)

From stdpp Require Import list gmap sorting.
From S2P Require Import Prelude AbstractPageSet.

Open Scope Z_scope.

(** A node of the map.  Iterators point to nodes: a page that is removed and
    put in again has another one. *)
Record node := mkNode { node_id : positive; number : Z; handle : pg }.

Inductive PDBAnonymousPageSetAccessPattern := SEQUENTIAL | CONCURRENT.

(** [None] is the iterator past the end. *)
Abbreviation pageIterator := (option positive).

Record PDBAnonymousPageSet := mkAnonymous {
  pages : list node;
  nextPageForWorker : gmap Z pageIterator;
  accessPattern : PDBAnonymousPageSetAccessPattern;
  next_id : positive
}.
Abbreviation AM := (M PDBAnonymousPageSet).

Definition set_pages (l : list node) (s : PDBAnonymousPageSet) : PDBAnonymousPageSet :=
  mkAnonymous l (nextPageForWorker s) (accessPattern s) (next_id s).
Definition set_nextPageForWorker (m : gmap Z pageIterator) (s : PDBAnonymousPageSet) : PDBAnonymousPageSet :=
  mkAnonymous (pages s) m (accessPattern s) (next_id s).
Definition set_accessPattern (p : PDBAnonymousPageSetAccessPattern) (s : PDBAnonymousPageSet) : PDBAnonymousPageSet :=
  mkAnonymous (pages s) (nextPageForWorker s) p (next_id s).
Definition set_next_id (i : positive) (s : PDBAnonymousPageSet) : PDBAnonymousPageSet :=
  mkAnonymous (pages s) (nextPageForWorker s) (accessPattern s) i.

Definition PDBAnonymousPageSet_new : PDBAnonymousPageSet := mkAnonymous [] ∅ SEQUENTIAL 1.

(** ** std::map *)

Definition begin_of (l : list node) : pageIterator := node_id <$> head l.
(** The nodes from the one with this id on. *)
Fixpoint from_node (i : positive) (l : list node) : list node :=
  match l with [] => [] | x :: l' => if decide (node_id x = i) then l else from_node i l' end.
(** [map[n] = h]: an element that is there is assigned to. *)
Fixpoint assign (i : positive) (n : Z) (h : pg) (l : list node) : list node :=
  match l with
  | [] => [mkNode i n h]
  | x :: l' =>
      if number x =? n then mkNode (node_id x) n h :: l'
      else if n <? number x then mkNode i n h :: l
      else x :: assign i n h l'
  end.
Definition erase (n : Z) (l : list node) : list node := filter (fun x => number x <> n) l.

(** ** The operations *)

(** With sequential access all workers are the worker 0. *)
Definition slot (p : PDBAnonymousPageSetAccessPattern) (workerID : Z) : Z :=
  match p with CONCURRENT => workerID | SEQUENTIAL => 0 end.

Definition getNextPage (workerID : Z) : AM (option pg) :=
  s <- get ;;
  match pages s with
  | [] => mret None
  | _ =>
      let w := slot (accessPattern s) workerID in
      _ <- (match nextPageForWorker s !! w with
            | None => modify (set_nextPageForWorker (<[w := begin_of (pages s)]> (nextPageForWorker s)))
            | Some _ => mret tt
            end) ;;
      s <- get ;;
      curPage <- unwrap OutOfRange (nextPageForWorker s !! w) ;;
      match curPage with
      | None => mret None
      | Some i =>
          (* the node may have been erased *)
          x <- unwrap UseAfterFree (head (from_node i (pages s))) ;;
          _ <- modify (set_nextPageForWorker (<[w := begin_of (tail (from_node i (pages s)))]> (nextPageForWorker s))) ;;
          mret (Some (handle x))
      end
  end.

(** The page is the one that the buffer manager gave. *)
Definition getNewPage (n : Z) (h : pg) : AM pg :=
  s <- get ;;
  _ <- modify (set_pages (assign (next_id s) n h (pages s))) ;;
  _ <- modify (set_next_id (Pos.succ (next_id s))) ;;
  mret h.

Definition removePage (n : Z) : AM unit := s <- get ;; modify (set_pages (erase n (pages s))).
Definition getNumPages : AM Z := gets (fun s => Z.of_nat (length (pages s))).
Definition resetPageSet : AM unit := modify (set_nextPageForWorker ∅).
Definition setAccessOrder (pattern : PDBAnonymousPageSetAccessPattern) : AM unit :=
  _ <- modify (set_accessPattern pattern) ;; modify (set_nextPageForWorker ∅).

(** ** Calls *)

Inductive call :=
| GetNextPage (workerID : Z)
| GetNewPage (n : Z) (h : pg)
| RemovePage (n : Z)
| ResetPageSet
| SetAccessOrder (pattern : PDBAnonymousPageSetAccessPattern).

Definition do_call (c : call) : AM (option pg) :=
  match c with
  | GetNextPage workerID => getNextPage workerID
  | GetNewPage n h => x <- getNewPage n h ;; mret (Some x)
  | RemovePage n => _ <- removePage n ;; mret None
  | ResetPageSet => _ <- resetPageSet ;; mret None
  | SetAccessOrder pattern => _ <- setAccessOrder pattern ;; mret None
  end.

(** Workers ask for pages, one after the other. *)
Fixpoint reads (workers : list Z) : AM (list (option pg)) :=
  match workers with
  | [] => mret []
  | w :: ws => r <- getNextPage w ;; rs <- reads ws ;; mret (r :: rs)
  end.

(** ** The invariant *)

Definition ids (l : list node) : list positive := map node_id l.
Definition numbers (l : list node) : list Z := map number l.

Lemma map_elem {A B} (f : A -> B) l x : x ∈ l -> f x ∈ map f l.
Proof. rewrite !list_elem_of_In. apply in_map. Qed.
Lemma map_elem_inv {A B} (f : A -> B) l y : y ∈ map f l -> exists x, y = f x /\ x ∈ l.
Proof. rewrite list_elem_of_In. intros (x & <- & Hx)%in_map_iff. exists x. by rewrite list_elem_of_In. Qed.

Record anonymous_ok (s : PDBAnonymousPageSet) : Prop := {
  ao_ids : NoDup (ids (pages s));
  ao_fresh i : i ∈ ids (pages s) -> (i < next_id s)%positive;
  ao_sorted : StronglySorted Z.lt (numbers (pages s));
  ao_iterators w i : nextPageForWorker s !! w = Some (Some i) -> i ∈ ids (pages s)
}.

(** The pages that a slot has not been handed. *)
Definition rest_of (s : PDBAnonymousPageSet) (w : Z) : list node :=
  match nextPageForWorker s !! w with
  | None => pages s
  | Some None => []
  | Some (Some i) => from_node i (pages s)
  end.

Lemma from_node_split i l : i ∈ ids l -> exists l1 x l2, l = l1 ++ x :: l2 /\ node_id x = i /\ from_node i l = x :: l2.
Proof.
  induction l as [|x l IH]; [by intros ?%not_elem_of_nil|]. intros [->|Hi]%elem_of_cons.
  - exists [], x, l. simpl. by rewrite decide_True.
  - simpl. case_decide as Hx; [by exists [], x, l|]. destruct (IH Hi) as (l1 & y & l2 & -> & ? & ?). by exists (x :: l1), y, l2.
Qed.

Lemma from_node_suffix l1 l2 : NoDup (ids (l1 ++ l2)) ->
  match begin_of l2 with Some i => from_node i (l1 ++ l2) = l2 | None => l2 = [] end.
Proof.
  destruct l2 as [|x l2]; [done|]. simpl. intros H. induction l1 as [|y l1 IH]; simpl; [by rewrite decide_True|].
  simpl in H. apply NoDup_cons in H as [Hy H]. rewrite decide_False; [by apply IH|]. intros E. apply Hy. rewrite E.
  unfold ids. rewrite map_app. apply elem_of_app. right. by left.
Qed.

(** ** Reading *)

Lemma anonymous_next_spec s w :
  anonymous_ok s -> let i := slot (accessPattern s) w in
  exists s', AnonymousPageSet.getNextPage w s = Ok (handle <$> head (rest_of s i)) s' /\ anonymous_ok s' /\
    pages s' = pages s /\ accessPattern s' = accessPattern s /\
    rest_of s' i = tail (rest_of s i) /\ (forall j, j <> i -> nextPageForWorker s' !! j = nextPageForWorker s !! j).
Proof.
  intros H i. pose proof H as [Hid Hfr Hso Hit]. unfold AnonymousPageSet.getNextPage. rewrite (bind_Ok _ _ _ s s) by done.
  destruct (pages s) as [|p ps] eqn:Ep.
  { exists s. assert (E : rest_of s i = []) by (unfold rest_of; rewrite Ep; by destruct (nextPageForWorker s !! i) as [[]|]).
    rewrite E. by split_and!. }
  fold i. rewrite <- Ep in *. clear ps Ep p. set (cur := match nextPageForWorker s !! i with Some c => c | None => begin_of (pages s) end).
  set (s1 := set_nextPageForWorker (<[i := cur]> (nextPageForWorker s)) s).
  assert (E1 : (match nextPageForWorker s !! i with None => modify (set_nextPageForWorker (<[i := begin_of (pages s)]> (nextPageForWorker s)))
    | Some _ => mret tt end) s = Ok tt s1).
  { unfold s1, cur. destruct (nextPageForWorker s !! i) eqn:E; [|done]. rewrite insert_id by done. unfold mret, M_ret. f_equal. by destruct s. }
  rewrite (bind_Ok _ _ _ _ _ E1). rewrite (bind_Ok _ _ _ s1 s1) by done.
  rewrite (bind_Ok _ _ _ cur s1) by (unfold s1; simpl; by rewrite lookup_insert_eq).
  assert (Hrest : rest_of s i = match cur with Some j => from_node j (pages s) | None => [] end).
  { unfold rest_of, cur. destruct (nextPageForWorker s !! i) as [[j|]|]; [done|done|]. pose proof (from_node_suffix [] (pages s) Hid) as Hb.
    simpl in Hb. by destruct (begin_of (pages s)). }
  assert (Hcur : forall j, cur = Some j -> j ∈ ids (pages s)).
  { intros j. unfold cur. destruct (nextPageForWorker s !! i) as [c|] eqn:E; [intros ->; by eapply Hit|].
    destruct (pages s) as [|x l]; [done|]. intros [= <-]. by left. }
  assert (Hother : forall c j k, j <> i -> <[i := c]> (nextPageForWorker s) !! j = Some (Some k) -> k ∈ ids (pages s)).
  { intros c j k Hj. rewrite lookup_insert_ne by done. apply Hit. }
  destruct cur as [j|] eqn:Ec; rewrite Hrest.
  - destruct (from_node_split j (pages s) (Hcur j eq_refl)) as (l1 & x & l2 & Hl & Hx & Hf). rewrite Hf. simpl pages. rewrite Hf.
    eexists. split; [reflexivity|]. simpl. split; [|split_and!; try done].
    + split; simpl; try done. intros w' k. destruct (decide (w' = i)) as [->|Hne].
      * rewrite lookup_insert_eq. intros [= E]. destruct l2 as [|y l2]; [done|]. injection E as <-.
        rewrite Hl. unfold ids. rewrite map_app. apply elem_of_app. right. right. by left.
      * rewrite insert_insert_eq. by apply Hother.
    + unfold rest_of. simpl. rewrite lookup_insert_eq. pose proof (from_node_suffix (l1 ++ [x]) l2) as Hs.
      rewrite <- app_assoc in Hs. simpl in Hs. rewrite <- Hl in Hs. specialize (Hs Hid). destruct (begin_of l2); [done|by subst].
    + intros j' Hj'. by rewrite !lookup_insert_ne.
  - exists s1. split; [done|]. split; [|split_and!; try done].
    + split; try done. intros w' k. unfold s1. simpl. destruct (decide (w' = i)) as [->|Hne]; [by rewrite lookup_insert_eq|by apply Hother].
    + unfold rest_of, s1. simpl. by rewrite lookup_insert_eq.
    + intros j' Hj'. unfold s1. simpl. by rewrite lookup_insert_ne.
Qed.

Lemma rest_of_same s s' j : pages s' = pages s -> nextPageForWorker s' !! j = nextPageForWorker s !! j -> rest_of s' j = rest_of s j.
Proof. unfold rest_of. by intros -> ->. Qed.

(** The results that went to the slot [i]. *)
Definition to_slot (p : PDBAnonymousPageSetAccessPattern) (i : Z) (workers : list Z) (rs : list (option pg)) : list (option pg) :=
  omap (fun wr => if slot p wr.1 =? i then Some wr.2 else None) (zip workers rs).

Lemma to_slot_cons p i w ws r rs : to_slot p i (w :: ws) (r :: rs) = (if slot p w =? i then [r] else []) ++ to_slot p i ws rs.
Proof. unfold to_slot. simpl. by destruct (slot p w =? i). Qed.

Lemma anonymous_reads_spec workers s :
  anonymous_ok s -> exists rs s', reads workers s = Ok rs s' /\ anonymous_ok s' /\ pages s' = pages s /\ length rs = length workers /\
    forall i, to_slot (accessPattern s) i workers rs =
      served (map handle (rest_of s i)) (length (filter (fun w => slot (accessPattern s) w = i) workers)).
Proof.
  revert s. induction workers as [|w ws IH]; intros s H.
  { exists [], s. split_and!; try done. }
  destruct (anonymous_next_spec s w H) as (s1 & E & H1 & Hp & Ha & Hr & Ho). destruct (IH s1 H1) as (rs & s2 & E2 & H2 & Hp2 & Hl & Hs).
  exists ((handle <$> head (rest_of s (slot (accessPattern s) w))) :: rs), s2. split.
  { simpl. rewrite (bind_Ok _ _ _ _ _ E). by rewrite (bind_Ok _ _ _ _ _ E2). }
  split; [done|]. split; [congruence|]. split; [simpl; congruence|]. intros i. rewrite to_slot_cons, filter_cons.
  rewrite Ha in Hs. rewrite (Hs i). destruct (Z.eqb_spec (slot (accessPattern s) w) i) as [<-|Hne].
  - rewrite decide_True by done. simpl. rewrite served_S, Hr. by destruct (rest_of s _).
  - rewrite decide_False by done. simpl. do 2 f_equal. apply rest_of_same; [done|]. by apply Ho.
Qed.

(** ** The other calls *)

Lemma new_ok : anonymous_ok PDBAnonymousPageSet_new.
Proof. split; simpl; [apply NoDup_nil_2|by intros ? ?%not_elem_of_nil|constructor|done]. Qed.

(** The page with the number [n], once it is put in. *)
Definition page_at (n : Z) (l : list node) : option pg := handle <$> head (filter (fun x => number x = n) l).

Lemma assign_numbers i n h l : StronglySorted Z.lt (numbers l) ->
  StronglySorted Z.lt (numbers (assign i n h l)) /\ (forall m, m ∈ numbers (assign i n h l) <-> m = n \/ m ∈ numbers l).
Proof.
  induction l as [|x l IH]; simpl; intros H.
  { split; [by repeat constructor|]. intros m. rewrite list_elem_of_singleton. set_solver. }
  inversion H as [|? ? Hl Hx]; subst. destruct (Z.eqb_spec (number x) n) as [<-|Hne]; simpl.
  { split; [by constructor|]. intros m. rewrite elem_of_cons. set_solver. }
  destruct (Z.ltb_spec n (number x)); simpl.
  - split; [|intros m; rewrite !elem_of_cons; set_solver]. constructor; [by constructor|]. constructor; [done|].
    eapply Forall_impl; [exact Hx|]. simpl. lia.
  - destruct (IH Hl) as [IH1 IH2]. split; [|intros m; rewrite !elem_of_cons, IH2; set_solver].
    constructor; [done|]. apply Forall_forall. intros m Hm%IH2. rewrite Forall_forall in Hx. destruct Hm as [->|Hm]; [lia|by apply Hx].
Qed.

Lemma assign_ids i n h l j : j ∈ ids (assign i n h l) -> j = i \/ j ∈ ids l.
Proof.
  induction l as [|x l IH]; simpl; [rewrite list_elem_of_singleton; by left|].
  destruct (number x =? n); [by right|]. destruct (n <? number x); simpl; rewrite !elem_of_cons; [tauto|]. intros [->|Hj]; [by right; left|].
  destruct (IH Hj); tauto.
Qed.
Lemma assign_keeps i n h l j : j ∈ ids l -> j ∈ ids (assign i n h l).
Proof.
  induction l as [|x l IH]; simpl; [by intros ?%not_elem_of_nil|]. destruct (number x =? n); [done|].
  destruct (n <? number x); simpl; rewrite !elem_of_cons; tauto.
Qed.
Lemma assign_NoDup i n h l : NoDup (ids l) -> i ∉ ids l -> NoDup (ids (assign i n h l)).
Proof.
  induction l as [|x l IH]; simpl; intros Hl Hi; [by apply NoDup_singleton|].
  destruct (number x =? n); [done|]. apply NoDup_cons in Hl as [Hx Hl]. apply not_elem_of_cons in Hi as [Hne Hi].
  destruct (n <? number x); simpl.
  - repeat (apply NoDup_cons; split); try done. intros [E|?]%elem_of_cons; [congruence|done].
  - apply NoDup_cons. split; [|by apply IH]. intros [E|?]%assign_ids; [congruence|done].
Qed.

Lemma filter_sorted (P : node -> Prop) `{!forall x, Decision (P x)} l :
  StronglySorted Z.lt (numbers l) -> StronglySorted Z.lt (numbers (filter P l)).
Proof.
  induction l as [|x l IH]; simpl; intros Hs; [done|]. inversion Hs as [|? ? Hl Hx]; subst. rewrite filter_cons. case_decide; [|by apply IH].
  simpl. constructor; [by apply IH|]. apply Forall_forall. intros m Hm. rewrite Forall_forall in Hx. apply Hx.
  apply map_elem_inv in Hm as (y & -> & [_ Hy]%list_elem_of_filter). by apply map_elem.
Qed.
Lemma filter_ids (P : node -> Prop) `{!forall x, Decision (P x)} l i : i ∈ ids (filter P l) -> i ∈ ids l.
Proof. intros (y & -> & [_ Hy]%list_elem_of_filter)%map_elem_inv. by apply map_elem. Qed.
Lemma filter_NoDup (P : node -> Prop) `{!forall x, Decision (P x)} l : NoDup (ids l) -> NoDup (ids (filter P l)).
Proof.
  induction l as [|x l IH]; simpl; [done|]. intros [Hx Hl]%NoDup_cons. rewrite filter_cons. case_decide; [|by apply IH].
  simpl. apply NoDup_cons. split; [|by apply IH]. by intros ?%filter_ids.
Qed.

(** The rule for clients: a page that some worker would be handed next is not
    removed. *)
Definition allowed (c : call) (s : PDBAnonymousPageSet) : Prop :=
  match c with
  | RemovePage n => forall w x, head (rest_of s w) = Some x -> nextPageForWorker s !! w <> None -> number x <> n
  | _ => True
  end.

Lemma do_call_ok c s : anonymous_ok s -> allowed c s -> exists r s', do_call c s = Ok r s' /\ anonymous_ok s'.
Proof.
  intros H Hal. pose proof H as [Hid Hfr Hso Hit]. destruct c as [w|n h|n| |p].
  - destruct (anonymous_next_spec s w H) as (s' & E & Hok & _). by eexists _, s'.
  - eexists _, _. split; [reflexivity|]. split; simpl.
    + apply assign_NoDup; [done|]. intros Hi%Hfr. lia.
    + intros i [->|Hi%Hfr]%assign_ids; lia.
    + by apply assign_numbers.
    + intros w i Hw%Hit. by apply assign_keeps.
  - eexists _, _. split; [reflexivity|]. split; simpl.
    + by apply filter_NoDup.
    + intros i Hi%filter_ids. by apply Hfr.
    + by apply filter_sorted.
    + intros w i Hw. pose proof (Hit w i Hw) as Hi. destruct (from_node_split i (pages s) Hi) as (l1 & x & l2 & Hl & Hx & Hf).
      assert (Hn : number x <> n).
      { apply (Hal w x); [|by rewrite Hw]. unfold rest_of. by rewrite Hw, Hf. }
      subst i. apply map_elem. apply list_elem_of_filter. split; [done|]. rewrite Hl. apply elem_of_app. right. by left.
  - eexists _, _. split; [reflexivity|]. by split.
  - eexists _, _. split; [reflexivity|]. by split.
Qed.

Inductive run_calls : list call -> PDBAnonymousPageSet -> Prop :=
| run_new : run_calls [] PDBAnonymousPageSet_new
| run_call cs c s r s' : run_calls cs s -> allowed c s -> do_call c s = Ok r s' -> run_calls (cs ++ [c]) s'.

Lemma run_calls_ok cs s : run_calls cs s -> anonymous_ok s.
Proof.
  induction 1 as [|cs c s r s' _ IH Hal E]; [exact new_ok|]. destruct (do_call_ok c s IH Hal) as (r1 & s1 & E1 & Hok).
  rewrite E in E1. by simplify_eq.
Qed.

(** ** As a page set *)

#[export] Instance anonymous_page_set : PDBAbstractPageSet PDBAnonymousPageSet :=
  {| AbstractPageSet.getNextPage := AnonymousPageSet.getNextPage; AbstractPageSet.getNumPages := AnonymousPageSet.getNumPages;
     AbstractPageSet.resetPageSet := AnonymousPageSet.resetPageSet |}.
#[export] Instance anonymous_laws :
  PageSetLaws PDBAnonymousPageSet (fun _ => anonymous_ok) (fun s => map handle (pages s)) (fun s => map handle (rest_of s 0)).
Proof.
  split.
  - intros _ s H. destruct (anonymous_next_spec s 0 H) as (s' & E & H' & Hp & Ha & Hr & _). assert (Hs : slot (accessPattern s) 0 = 0) by by destruct (accessPattern s).
    rewrite Hs in *. exists s'. split; [|split_and!; [done|by rewrite Hp|rewrite Hr; by destruct (rest_of s 0)]].
    simpl. rewrite E. by destruct (rest_of s 0).
  - intros _ s _. by simpl; unfold getNumPages, gets; rewrite length_map.
  - intros _ _ s H _. destruct (do_call_ok ResetPageSet s H I) as (r & s' & E & H'). eexists. split; [reflexivity|]. split; [|done].
    by vm_compute in E; simplify_eq.
Qed.
