(* ===== verification/SetPageSet.v ===== *)
(** The pages of a stored set as a page set: PDBSetPageSet,
    pdb/src/storageManager/headers/PDBSetPageSet.h and source/PDBSetPageSet.cc.

    The counter is atomic, so that every call takes a number of its own; the
    page is then asked from the buffer manager, a parameter here. *)

From stdpp Require Import list.
From S2P Require Import Prelude AbstractPageSet.

Open Scope Z_scope.

Record PDBSetPageSet := mkSetPages { curPage : Z; pages : list Z }.
Definition set_curPage (n : Z) (s : PDBSetPageSet) : PDBSetPageSet := mkSetPages n (pages s).

Definition PDBSetPageSet_new (pages : list Z) : PDBSetPageSet := mkSetPages 0 pages.

(** [curPage++], and what page of the set the call is about. *)
Definition take_page : M PDBSetPageSet (option Z) :=
  s <- get ;;
  let pageNum := curPage s in
  _ <- modify (set_curPage (u64 (pageNum + 1))) ;;
  if Z.of_nat (length (pages s)) <=? pageNum then mret None
  else x <- unwrap OutOfRange (pages s !! Z.to_nat pageNum) ;; mret (Some x).

Section getNextPage.
(** The buffer manager, for the set. *)
Context (getPage : Z -> pg).

Definition getNextPage (workerID : Z) : M PDBSetPageSet (option pg) :=
  pageNum <- take_page ;; mret (getPage <$> pageNum).
Fixpoint reads (workers : list Z) : M PDBSetPageSet (list (option pg)) :=
  match workers with
  | [] => mret []
  | w :: ws => r <- getNextPage w ;; rs <- reads ws ;; mret (r :: rs)
  end.
End getNextPage.

Definition getNewPage : M PDBSetPageSet pg := throw (RuntimeError "Adding a new page to a page set not implemented.").
Definition getNumPages : M PDBSetPageSet Z := gets (fun s => Z.of_nat (length (pages s))).
Definition resetPageSet : M PDBSetPageSet unit := modify (set_curPage 0).

(** The number of calls stays below [2^64]. *)
Definition calls_left (s : PDBSetPageSet) (n : nat) : Prop := 0 <= curPage s /\ curPage s + Z.of_nat n < 2 ^ 64.

Definition rest_of (s : PDBSetPageSet) : list Z := drop (Z.to_nat (curPage s)) (pages s).

Lemma take_page_spec s : calls_left s 1 -> exists s', take_page s = Ok (head (rest_of s)) s' /\
  curPage s' = curPage s + 1 /\ pages s' = pages s /\ rest_of s' = tail (rest_of s).
Proof.
  intros [H0 H1]. exists (set_curPage (curPage s + 1) s). split; [|split; [done|split; [done|]]].
  - unfold take_page. rewrite (bind_Ok _ _ _ s s) by done. cbv zeta.
    replace (u64 (curPage s + 1)) with (curPage s + 1) by (symmetry; apply wrapu_small; lia).
    rewrite (bind_Ok _ _ _ tt (set_curPage (curPage s + 1) s)) by done. unfold rest_of.
    destruct (Z.leb_spec (Z.of_nat (length (pages s))) (curPage s)) as [Hle|Hlt].
    + by rewrite drop_ge by lia.
    + destruct (lookup_lt_is_Some_2 (pages s) (Z.to_nat (curPage s))) as [x Hx]; [lia|].
      rewrite (bind_Ok _ _ _ x (set_curPage (curPage s + 1) s)) by (by rewrite Hx). by rewrite (drop_S _ _ _ Hx).
  - unfold rest_of. simpl. change (tail ?l) with (drop 1 l). rewrite drop_drop. f_equal. lia.
Qed.

Section page_set.
Context (getPage : Z -> pg).

Lemma set_next_spec w s : calls_left s 1 -> exists s', SetPageSet.getNextPage getPage w s = Ok (getPage <$> head (rest_of s)) s' /\
  curPage s' = curPage s + 1 /\ pages s' = pages s /\ rest_of s' = tail (rest_of s).
Proof.
  intros H. destruct (take_page_spec s H) as (s' & E & Hr). exists s'. split; [|exact Hr].
  unfold SetPageSet.getNextPage. by rewrite (bind_Ok _ _ _ _ _ E).
Qed.

Lemma set_reads_spec workers s : calls_left s (length workers) -> exists s',
  SetPageSet.reads getPage workers s = Ok (served (map getPage (rest_of s)) (length workers)) s' /\ pages s' = pages s.
Proof.
  revert s. induction workers as [|w ws IH]; intros s [H0 H1].
  { exists s. split; [|done]. unfold served. by destruct (map _ _). }
  destruct (set_next_spec w s) as (s1 & E & Hc & Hp & Hr); [split; simpl in *; lia|].
  destruct (IH s1) as (s2 & E2 & Hp2); [split; simpl in *; lia|]. exists s2. split; [|congruence].
  simpl. rewrite (bind_Ok _ _ _ _ _ E), (bind_Ok _ _ _ _ _ E2), Hr. rewrite served_S. by destruct (rest_of s).
Qed.

(** ** As a page set *)

#[export] Instance set_page_set : PDBAbstractPageSet PDBSetPageSet :=
  {| AbstractPageSet.getNextPage := SetPageSet.getNextPage getPage; AbstractPageSet.getNumPages := SetPageSet.getNumPages;
     AbstractPageSet.resetPageSet := SetPageSet.resetPageSet |}.
#[export] Instance set_laws :
  PageSetLaws PDBSetPageSet (fun n s => calls_left s n) (fun s => map getPage (pages s)) (fun s => map getPage (rest_of s)).
Proof.
  split.
  - intros n s [H0 H1]. destruct (set_next_spec 0 s) as (s' & E & Hc & Hp & Hr); [split; lia|]. exists s'.
    split_and!; [|split; lia|by rewrite Hp|rewrite Hr; by destruct (rest_of s)]. simpl. rewrite E. by destruct (rest_of s).
  - intros n s _. by simpl; unfold getNumPages, gets; rewrite length_map.
  - intros n m s _ Hm. exists (set_curPage 0 s). split_and!; simpl; [done|split; simpl; lia|done|done].
Qed.
End page_set.
