(* ===== verification/PageNetwork.v ===== *)
(** How pages travel to the page sets that are fed: PDBPageNetworkSender and
    PDBPageSelfReceiver (pdb/src/pipeline/source), and the two handlers of
    StoStartFeedingPageSetRequest
    (pdb/src/storageManager/headers/PDBStorageManagerFrontendTemplate.cc and
    PDBStorageManagerBackendTemplate.cc).

    The sender takes pages from a queue and sends them to the frontend of
    another node, which relays them to its backend, which feeds them to a page
    set.  A connection delivers what was sent in order and may break down: a
    script says which of the calls that use it succeed.  A program is given
    everything that will arrive at it; a call that waits for more than that
    waits for ever. *)

From stdpp Require Import list gmap.
From S2P Require Import Prelude AbstractPageSet FeedingPageSet FeedingPageSetSpec.

Open Scope Z_scope.

Section network.
(** What a page holds: an allocation block with a record of so many bytes, on a
    page of some size. *)
Context {C : Type} (numBytes getSize : C -> Z).

(** StoFeedPageRequest, and the bytes of a page. *)
Inductive wire := StoFeedPageRequest (pageSize : Z) (hasNextPage : bool) | Bytes (c : C).

(** ** A connection that messages are sent on *)

(** The script for the calls to come; a call for which there is no entry
    succeeds. *)
Record connection := mkConnection { script : list bool; sentOn : list wire }.
Definition answer : M connection bool :=
  s <- get ;;
  match script s with
  | [] => mret true
  | b :: bs => _ <- modify (fun s => mkConnection bs (sentOn s)) ;; mret b
  end.
Definition send (m : wire) : M connection bool :=
  ok <- answer ;;
  if (ok : bool) then _ <- modify (fun s => mkConnection (script s) (sentOn s ++ [m])) ;; mret true else mret false.

(** ** PDBPageNetworkSender *)

(** [connectToInternetServer] is called again until it succeeds or the retries
    are used up. *)
Fixpoint connect_retrying (connects : nat -> bool) (maxRetries : Z) (fuel : nat) (numRetries : nat) : option bool :=
  match fuel with
  | O => None
  | S fuel' =>
      if connects numRetries then Some true
      else if Z.of_nat (S numRetries) <? maxRetries then connect_retrying connects maxRetries fuel' (S numRetries)
      else Some false
  end.

(** The acknowledgement: what was received, if something was. *)
Definition setup (connects : nat -> bool) (maxRetries : Z) (request_sent : bool) (ack : option bool) : bool :=
  match connect_retrying connects maxRetries (S (Z.to_nat maxRetries)) 0 with
  | Some true => if request_sent then match ack with Some res => res | None => false end else false
  | _ => false
  end.

(** The queue holds what is going to be dequeued; null ends it.  One request
    object is used for all pages, so the last one still has the size of the page
    before, [pageSize]. *)
Fixpoint sender_pages (pageSize : Z) (queue : list (option C)) : M connection bool :=
  match queue with
  | [] => fun _ => NoFuel
  | None :: _ => send (StoFeedPageRequest pageSize false)
  | Some page :: queue' =>
      ok <- send (StoFeedPageRequest (getSize page) true) ;;
      if negb ok then mret false
      else
        (* whether the bytes could be sent is not looked at *)
        _ <- send (Bytes page) ;;
        sender_pages (getSize page) queue'
  end.
Definition sender_run (queue : list (option C)) : M connection bool := sender_pages 0 queue.

(** ** The frontend: PDBStorageManagerFrontend::handleStartFeedingPageSetRequest *)

(** The frontend gives up after [maxRetries] retries. *)
Fixpoint relay_connect (connects : nat -> bool) (maxRetries : Z) (fuel : nat) (retries : nat) : option bool :=
  match fuel with
  | O => None
  | S fuel' =>
      if connects retries then Some true
      else if maxRetries <=? Z.of_nat retries then Some false
      else relay_connect connects maxRetries fuel' (S retries)
  end.

(** Pages are forwarded to the backend with [forwardPage], which is a send. *)
Fixpoint relay_pages (input : list wire) : M connection bool :=
  match input with
  | StoFeedPageRequest pageSize hasNextPage :: input' =>
      ok <- send (StoFeedPageRequest pageSize hasNextPage) ;;
      if negb ok then mret false
      else if negb hasNextPage then mret true
      else
        match input' with
        | Bytes c :: input'' =>
            (* receiveBytes writes all that comes to a page of the announced size *)
            if pageSize <? numBytes c then ub OutOfRange
            else
              ok <- send (Bytes c) ;;
              if negb ok then mret false else relay_pages input''
        | _ => mret false
        end
  | _ => mret false
  end.

(** What the other node is told: whether the request could be sent on, and the
    backend acknowledged it. *)
Definition relay_response (request_sent : bool) (ack : option bool) : bool :=
  request_sent && match ack with Some res => res | None => false end.

(** Whatever the other node was told, the pages are received if it could be
    told. *)
Definition relay (connects : nat -> bool) (maxRetries : Z) (told : bool) (input : list wire) : M connection bool :=
  match relay_connect connects maxRetries (S (S (Z.to_nat maxRetries))) 0 with
  | Some true => if told then relay_pages input else mret false
  | _ => mret false
  end.

(** ** The backend: PDBStorageManagerBackend::handleStartFeedingPageSetRequest *)

(** The page set, what the pages hold, and the pages that the buffer manager
    will give out. *)
Record node_state := mkNode { page_set : feeding_state; contents : gmap pg C; fresh : list pg }.
Abbreviation NM := (M node_state).

Definition on_page_set {A} (m : FM A) : NM A := fun s =>
  match m (page_set s) with
  | Ok a f => Ok a (mkNode f (contents s) (fresh s))
  | Raise e f => Raise e (mkNode f (contents s) (fresh s))
  | Exit f => Exit (mkNode f (contents s) (fresh s))
  | Fault x => Fault x
  | NoFuel => NoFuel
  end.
(** A page of the buffer manager with these contents, pinned. *)
Definition new_page (c : C) : NM pg :=
  s <- get ;;
  match fresh s with
  | [] => fun _ => NoFuel
  | x :: xs => _ <- modify (fun s => mkNode (set_pins <[x := true]> (page_set s)) (<[x := c]> (contents s)) xs) ;; mret x
  end.

(** [has_page_set] is false when there is a page set of another kind with this
    identifier. *)
Fixpoint receive_pages (has_page_set : bool) (input : list wire) : NM bool :=
  match input with
  | StoFeedPageRequest _ hasNextPage :: input' =>
      if negb hasNextPage then mret true
      else
        match input' with
        | Bytes c :: input'' =>
            page <- new_page c ;;
            _ <- on_page_set (unpin page) ;;
            if negb has_page_set then ub NullDeref
            else
              _ <- on_page_set (feedPage page) ;;
              receive_pages has_page_set input''
        | _ => mret false
        end
  | _ => mret false
  end.

(** [told] says whether the acknowledgement could be sent. *)
Definition backend_feed (has_page_set told : bool) (input : list wire) : NM bool :=
  success <- (if told then receive_pages has_page_set input else mret false) ;;
  _ <- (if has_page_set then on_page_set finishFeeding else mret tt) ;;
  mret success.

(** ** PDBPageSelfReceiver *)

Fixpoint self_receive (queue : list (option C)) : NM bool :=
  match queue with
  | [] => fun _ => NoFuel
  | None :: _ => _ <- on_page_set finishFeeding ;; mret true
  | Some page :: queue' =>
      (* getPage and memcpy *)
      outPage <- new_page page ;;
      _ <- on_page_set (unpin outPage) ;;
      _ <- on_page_set (feedPage outPage) ;;
      self_receive queue'
  end.
End network.
Arguments wire : clear implicits.
Arguments connection : clear implicits.
Arguments node_state : clear implicits.

(** ** Connecting *)

(** The retries end, and they end with a connection exactly if one of the
    attempts succeeds. *)
Lemma connect_retrying_spec connects maxRetries fuel n :
  (Z.to_nat maxRetries < fuel + n)%nat ->
  (0 < fuel)%nat ->
  exists b, connect_retrying connects maxRetries fuel n = Some b /\
    (b = true <-> exists k, (n <= k)%nat /\ (k = n \/ Z.of_nat k < maxRetries) /\ connects k = true).
Proof.
  revert n. induction fuel as [|fuel IH]; intros n Hf H0; [lia|]. simpl. destruct (connects n) eqn:Ec.
  { exists true. split; [done|]. split; [|done]. intros _. exists n. split; [lia|]. split; [by left|done]. }
  destruct (Z.ltb_spec (Z.of_nat (S n)) maxRetries).
  - destruct (IH (S n)) as (b & E & Hb); [lia|lia|]. exists b. split; [exact E|]. rewrite Hb. split.
    + intros (k & Hk & Hk' & Hc). exists k. split; [lia|]. split; [right; lia|done].
    + intros (k & Hk & Hk' & Hc). exists k. assert (k <> n) by (intros ->; congruence). split; [lia|]. split; [lia|done].
  - exists false. split; [done|]. split; [done|]. intros (k & Hk & [->|Hk'] & Hc); [congruence|].
    assert (k = n) as -> by lia. congruence.
Qed.

Section network.
Context {C : Type} (numBytes getSize : C -> Z).
Implicit Types (input : list (wire C)).

(** ** The sender and the relay *)

Lemma send_ok (m : wire C) out : send m (mkConnection [] out) = Ok true (mkConnection [] (out ++ [m])).
Proof. done. Qed.

(** What is sent for the pages and their end. *)
Fixpoint sent_for (pageSize : Z) (cs : list C) : list (wire C) :=
  match cs with
  | [] => [StoFeedPageRequest pageSize false]
  | c :: cs' => StoFeedPageRequest (getSize c) true :: Bytes c :: sent_for (getSize c) cs'
  end.

Lemma sender_pages_spec z cs q out :
  sender_pages getSize z (map Some cs ++ None :: q) (mkConnection [] out) = Ok true (mkConnection [] (out ++ sent_for z cs)).
Proof.
  revert z out. induction cs as [|c cs IH]; intros z out; [done|]. simpl.
  rewrite (bind_Ok _ _ _ _ _ (send_ok _ _)). simpl. rewrite (bind_Ok _ _ _ _ _ (send_ok _ _)). rewrite IH. by rewrite <- !app_assoc.
Qed.

Lemma relay_pages_spec z cs out : Forall (fun c => numBytes c <= getSize c) cs ->
  relay_pages numBytes (sent_for z cs) (mkConnection [] out) = Ok true (mkConnection [] (out ++ sent_for z cs)).
Proof.
  revert z out. induction cs as [|c cs IH]; intros z out H; [done|]. apply Forall_cons in H as [Hc H]. simpl.
  rewrite (bind_Ok _ _ _ _ _ (send_ok _ _)). simpl. rewrite (proj2 (Z.ltb_ge _ _) Hc).
  rewrite (bind_Ok _ _ _ _ _ (send_ok _ _)). cbn [negb]. rewrite (IH (getSize c)) by exact H. by rewrite <- !app_assoc.
Qed.

(** ** The backend *)

(** The pages that arrive whole, and whether the end is announced. *)
Fixpoint arrived input : list C * bool :=
  match input with
  | StoFeedPageRequest _ true :: Bytes c :: input' => let r := arrived input' in (c :: r.1, r.2)
  | StoFeedPageRequest _ false :: _ => ([], true)
  | _ => ([], false)
  end.

Lemma arrived_sent z cs : arrived (sent_for z cs) = (cs, true).
Proof. revert z. induction cs as [|c cs IH]; intros z; [done|]. simpl. by rewrite IH. Qed.

(** The calls on the page set of a feeder with the pages [xs]. *)
Definition feeder_calls (xs : list pg) : FM unit :=
  _ <- for_each xs (fun x => _ <- unpin x ;; feedPage x) ;; finishFeeding.
Definition feeder_labels (xs : list pg) : list step_label := flat_map (fun x => [UnpinPage x; FeedPage x]) xs ++ [FinishFeeding].
Fixpoint make_steps (ls : list step_label) : M system unit :=
  match ls with [] => mret tt | l :: ls => _ <- step l ;; make_steps ls end.

Definition filled (xs : list pg) (cs : list C) (m : gmap pg C) : gmap pg C := foldl (fun m xc => <[xc.1 := xc.2]> m) m (zip xs cs).

(** The state behind [n] pages taken from the buffer manager. *)
Definition after_pages (cs : list C) (f : feeding_state) (s : node_state C) : node_state C :=
  mkNode f (filled (fresh s) cs (contents s)) (drop (length cs) (fresh s)).

(** One page is taken, unpinned and fed. *)
Lemma new_page_feed {A} c x xs (s : node_state C) f (K : M (node_state C) A) :
  fresh s = x :: xs -> (_ <- unpin x ;; feedPage x) (page_set s) = Ok tt f ->
  (page <- new_page c ;; _ <- on_page_set (unpin page) ;; _ <- on_page_set (feedPage page) ;; K) s = K (mkNode f (<[x := c]> (contents s)) xs).
Proof.
  intros Hx E. set (s1 := mkNode (set_pins <[x := true]> (page_set s)) (<[x := c]> (contents s)) xs).
  rewrite (bind_Ok _ _ _ x s1) by (unfold new_page; rewrite (bind_Ok _ _ _ s s) by done; rewrite Hx; done).
  set (s2 := mkNode (set_pins <[x := false]> (page_set s)) (<[x := c]> (contents s)) xs).
  rewrite (bind_Ok _ _ _ tt s2).
  2:{ unfold on_page_set, s1, s2, unpin, modify, set_pins. simpl. by rewrite insert_insert_eq. }
  rewrite (bind_Ok _ _ _ tt (mkNode f (<[x := c]> (contents s)) xs)); [done|].
  rewrite (bind_Ok _ _ _ tt (set_pins <[x := false]> (page_set s))) in E by done.
  unfold on_page_set, s2. simpl. by rewrite E.
Qed.

Lemma filled_cons x xs c cs m : filled (x :: xs) (c :: cs) m = filled xs cs (<[x := c]> m).
Proof. done. Qed.

(** Induction two messages at a time. *)
Lemma wire_ind2 (P : list (wire C) -> Prop) :
  P [] -> (forall z input, P (StoFeedPageRequest z false :: input)) -> (forall c input, P (Bytes c :: input)) ->
  (forall z, P [StoFeedPageRequest z true]) -> (forall z z' b input, P (StoFeedPageRequest z true :: StoFeedPageRequest z' b :: input)) ->
  (forall z c input, P input -> P (StoFeedPageRequest z true :: Bytes c :: input)) ->
  forall input, P input.
Proof.
  intros H1 H2 H3 H4 H5 H6. apply (well_founded_ind (well_founded_ltof _ (@length (wire C)))).
  intros [|[z []|c] [|[z' b|c'] input]] IH; auto. apply H6, IH. unfold ltof. simpl. lia.
Qed.

Lemma receive_pages_spec input (s : node_state C) f :
  (length (arrived input).1 <= length (fresh s))%nat ->
  for_each (take (length (arrived input).1) (fresh s)) (fun x => _ <- unpin x ;; feedPage x) (page_set s) = Ok tt f ->
  receive_pages true input s = Ok (arrived input).2 (after_pages (arrived input).1 f s).
Proof.
  revert s. induction input as [|z input|c input|z|z z' b input|z c input IH] using wire_ind2; intros s Hl E.
  1-5: simpl in E; injection E as <-; unfold after_pages, filled; simpl; rewrite drop_0; rewrite zip_with_nil_r; by destruct s.
  simpl in Hl, E. destruct (fresh s) as [|x xs] eqn:Ex; simpl in Hl; [lia|]. apply bind_Ok_inv in E as ([] & f1 & E1 & E2).
  simpl receive_pages. erewrite new_page_feed by done. erewrite IH; [|simpl; lia|exact E2].
  unfold after_pages. simpl. by rewrite Ex.
Qed.

(** Whatever arrives, and whether or not the other node could be told, the
    handler feeds the pages that have arrived whole, and then finishes. *)
Lemma backend_feed_spec told input (s : node_state C) f :
  let r := if told : bool then arrived input else ([], false) in
  (length r.1 <= length (fresh s))%nat -> feeder_calls (take (length r.1) (fresh s)) (page_set s) = Ok tt f ->
  backend_feed true told input s = Ok r.2 (after_pages r.1 f s).
Proof.
  intros r Hl E. apply bind_Ok_inv in E as ([] & f1 & E1 & E2). unfold backend_feed, r in *.
  assert (Hr : (if told then receive_pages true input else mret false) s = Ok (if told then arrived input else ([], false)).2
    (after_pages (if told then arrived input else ([], false)).1 f1 s)).
  { destruct told; [by apply receive_pages_spec|]. simpl in E1. injection E1 as <-. unfold after_pages, filled. simpl.
    rewrite drop_0, zip_with_nil_r. by destruct s. }
  rewrite (bind_Ok _ _ _ _ _ Hr). rewrite (bind_Ok _ _ _ tt (after_pages (if told then arrived input else ([], false)).1 f s)); [done|].
  unfold on_page_set. change (page_set (after_pages ?cs f1 s)) with f1. by rewrite E2.
Qed.

(** The receiver of a node's own pages does the same with its queue. *)
Lemma self_receive_spec cs q (s : node_state C) f :
  (length cs <= length (fresh s))%nat -> feeder_calls (take (length cs) (fresh s)) (page_set s) = Ok tt f ->
  self_receive (map Some cs ++ None :: q) s = Ok true (after_pages cs f s).
Proof.
  intros Hl E. revert s Hl E. induction cs as [|c cs IH]; intros s Hl E.
  - simpl. unfold feeder_calls in E. simpl in E. rewrite (bind_Ok _ _ _ tt (page_set s)) in E by done.
    rewrite (bind_Ok _ _ _ tt (mkNode f (contents s) (fresh s))) by (unfold on_page_set; by rewrite E).
    unfold after_pages, filled. simpl. by rewrite drop_0, zip_with_nil_r.
  - simpl in Hl, E. destruct (fresh s) as [|x xs] eqn:Ex; simpl in Hl; [lia|]. unfold feeder_calls in E. simpl in E.
    apply bind_Ok_inv in E as ([] & f2 & E & E2). apply bind_Ok_inv in E as ([] & f1 & E1 & E3).
    simpl. erewrite new_page_feed by done. erewrite IH; [|simpl; lia|].
    + unfold after_pages. simpl. by rewrite Ex.
    + simpl. unfold feeder_calls. rewrite (bind_Ok _ _ _ _ _ E3). exact E2.
Qed.
End network.

(** ** A feeder among the other threads *)

Section feeder.
Context (policy : PDBFeedingPageSetUsagePolicy) (n : nat) (f : Z) (Hn : 0 < Z.of_nat n < 2 ^ 64) (Hf : 0 <= f < 2 ^ 64).

(** The calls of a feeder on the page set are the steps [feeder_labels]. *)
Lemma on_set_Ok {A} (m : FM A) a s s' : on_set m s = Ok a s' <-> m (fs s) = Ok a (fs s') /\ readers s' = readers s.
Proof.
  unfold on_set. destruct s' as [f' r']. simpl. destruct (m (fs s)); split; try (by intros [? ?]); try done; intros H; simplify_eq; [done|].
  destruct H as [H ->]. by simplify_eq.
Qed.

Lemma one_step tr a s l :
  feeding_run policy n f tr a s -> allowed policy l a s ->
  exists s', step l s = Ok (expected l a s) s' /\ feeding_run policy n f (tr ++ [(l, expected l a s)]) (log_after l (expected l a s) a) s'.
Proof.
  intros Hrun Hal. pose proof (feeding_run_ok policy n f Hn Hf tr a s Hrun) as Hok.
  destruct (step_expected policy n f Hn Hf l a s Hok Hal) as (s' & E & _). exists s'. split; [done|]. by eapply run_step.
Qed.

(** What can be added to a log. *)
Definition addable (xs : list pg) (a : log_state) : Prop :=
  NoDup xs /\ (forall x, x ∈ xs -> x ∉ log a) /\ Z.of_nat (length (log a) + length xs) + 1 < 2 ^ 64.
Definition with_log (l : list pg) (k : Z) (a : log_state) : log_state := mkLog l (cursors a) (ended a) k.

Lemma addable_cons x xs a k : addable (x :: xs) a -> x ∉ log a /\ Z.of_nat (length (log a)) + 2 < 2 ^ 64 /\ addable xs (with_log (log a ++ [x]) k a).
Proof.
  intros ([Hx Hnd]%NoDup_cons & Hnew & Hb). simpl in Hb. split; [apply Hnew; by left|]. split; [lia|]. split; [done|]. split; [|simpl; rewrite length_app; simpl; lia].
  intros y Hy. simpl. intros [Hl|Hl]%elem_of_app; [eapply Hnew; [by right|done]|]. apply list_elem_of_singleton in Hl. by subst.
Qed.

Lemma feeder_runs xs tr a s :
  feeding_run policy n f tr a s -> 0 < feeders a -> addable xs a ->
  exists g tr', feeder_calls xs (fs s) = Ok tt g /\ map fst tr' = feeder_labels xs /\
    feeding_run policy n f (tr ++ tr') (with_log (log a ++ xs) (feeders a - 1) a) (mkSystem g (readers s)).
Proof.
  revert tr a s. induction xs as [|x xs IH]; intros tr a s Hrun Hfd Hadd.
  - destruct (one_step tr a s FinishFeeding Hrun Hfd) as (s' & E & Hrun'). simpl in E. apply bind_Ok_inv in E as ([] & s1 & E & [=->]).
    apply on_set_Ok in E as [E Hr]. exists (fs s'), [(FinishFeeding, Silent)]. split; [done|]. split; [done|].
    replace (mkSystem (fs s') (readers s)) with s' by (destruct s'; simpl in *; congruence). by rewrite app_nil_r.
  - destruct (addable_cons x xs a (feeders a) Hadd) as (Hx & Hb & Hadd').
    destruct (one_step tr a s (UnpinPage x) Hrun Hx) as (s1 & E1 & Hrun1).
    destruct (one_step _ _ s1 (FeedPage x) Hrun1) as (s2 & E2 & Hrun2); [by split_and!|].
    destruct (IH _ _ s2 Hrun2 Hfd Hadd') as (g & tr' & E & Htr & Hrun').
    simpl in E1, E2. apply bind_Ok_inv in E1 as ([] & s1' & E1 & [=->]), E2 as ([] & s2' & E2 & [=->]).
    apply on_set_Ok in E1 as [E1 Hr1], E2 as [E2 Hr2]. exists g, ((UnpinPage x, Silent) :: (FeedPage x, Silent) :: tr').
    split; [|split; [simpl; by rewrite Htr|]].
    + unfold feeder_calls in *. simpl. apply bind_Ok_inv in E as ([] & g1 & E & E').
      rewrite (bind_Ok _ _ _ tt g1); [done|]. rewrite (bind_Ok _ _ _ tt (fs s2)); [done|]. by rewrite (bind_Ok _ _ _ _ _ E1).
    + unfold with_log in *. simpl in Hrun'. rewrite <- !app_assoc in Hrun'. simpl in Hrun'. rewrite Hr2, Hr1 in Hrun'. exact Hrun'.
Qed.
End feeder.

(** C32: The pages that are put into the queue of a PDBPageNetworkSender, up to
    the null that ends it, are relayed by the frontend of the other node and
    fed by its backend to the page set there, each of them once and in order,
    and then this feeder finishes; the pages there hold what the pages here
    held, and no reader of the page set is disturbed. *)
Theorem pages_travel_to_the_page_set {C} (numBytes getSize : C -> Z) policy n f tr a s (cs : list C) q (nd : node_state C) :
  0 < Z.of_nat n < 2 ^ 64 -> 0 <= f < 2 ^ 64 -> Forall (fun c => numBytes c <= getSize c) cs ->
  (* the page set at the other node, and the pages its buffer manager gives out *)
  feeding_run policy n f tr a s -> page_set nd = fs s -> 0 < feeders a ->
  (length cs <= length (fresh nd))%nat -> addable (take (length cs) (fresh nd)) a ->
  exists sent relayed nd' tr',
    sender_run getSize (map Some cs ++ None :: q) (mkConnection [] []) = Ok true (mkConnection [] sent) /\
    relay_pages numBytes sent (mkConnection [] []) = Ok true (mkConnection [] relayed) /\
    backend_feed true true relayed nd = Ok true nd' /\
    contents nd' = filled (fresh nd) cs (contents nd) /\
    map fst tr' = feeder_labels (take (length cs) (fresh nd)) /\
    feeding_run policy n f (tr ++ tr') (with_log (log a ++ take (length cs) (fresh nd)) (feeders a - 1) a)
      (mkSystem (page_set nd') (readers s)).
Proof.
  intros Hn Hf Hsize Hrun Hps Hfd Hl Hadd.
  destruct (feeder_runs policy n f Hn Hf _ tr a s Hrun Hfd Hadd) as (g & tr' & E & Htr & Hrun').
  set (w := sent_for getSize 0 cs). pose proof (arrived_sent getSize 0 cs) as Harr. fold w in Harr.
  exists w, w, (after_pages cs g nd), tr'. split; [exact (sender_pages_spec getSize 0 cs q [])|].
  split; [exact (relay_pages_spec numBytes getSize 0 cs [] Hsize)|].
  split; [|done]. rewrite <- Hps in E. pose proof (backend_feed_spec true w nd g) as H. cbv zeta in H. rewrite Harr in H. by apply H.
Qed.

(** C33: However the connection breaks, the handler on the backend makes the
    page set's feeder finish, after it has fed the pages that arrived whole, so
    that no reader of the page set waits for this feeder for ever. *)
Theorem broken_feeders_finish {C} policy n f tr a s told (input : list (wire C)) (nd : node_state C) :
  0 < Z.of_nat n < 2 ^ 64 -> 0 <= f < 2 ^ 64 ->
  feeding_run policy n f tr a s -> page_set nd = fs s -> 0 < feeders a ->
  let cs := (if told : bool then arrived input else ([], false)).1 in
  (length cs <= length (fresh nd))%nat -> addable (take (length cs) (fresh nd)) a ->
  exists b nd' tr', backend_feed true told input nd = Ok b nd' /\
    feeding_run policy n f (tr ++ tr') (with_log (log a ++ take (length cs) (fresh nd)) (feeders a - 1) a)
      (mkSystem (page_set nd') (readers s)).
Proof.
  intros Hn Hf Hrun Hps Hfd cs Hl Hadd. destruct (feeder_runs policy n f Hn Hf _ tr a s Hrun Hfd Hadd) as (g & tr' & E & Htr & Hrun').
  rewrite <- Hps in E. exists (if told then arrived input else ([], false)).2, (after_pages cs g nd), tr'.
  split; [|done]. by apply backend_feed_spec.
Qed.

(** ** An example *)

(** Pages are numbers, and hold as many bytes. *)
Definition node0 : node_state Z := mkNode (fs (start REMOVE_AFTER_USED 2 1)) ∅ [11%positive; 12%positive; 13%positive].
Definition log0 : log_state := mkLog [] (replicate 2 0%nat) (replicate 2 false) 1.

Lemma addable0 xs : NoDup xs -> (length xs < 10)%nat -> addable xs log0.
Proof. intros H Hl. split; [done|]. split; [by intros x _ ?%not_elem_of_nil|simpl; lia]. Qed.

Lemma pages_travel_to_the_page_set_witness : exists sent relayed nd' tr' s',
  sender_run (fun _ => 64) [Some 7; Some 8; None] (mkConnection [] []) = Ok true (mkConnection [] sent) /\
  relay_pages id sent (mkConnection [] []) = Ok true (mkConnection [] relayed) /\
  backend_feed true true relayed node0 = Ok true nd' /\
  contents nd' = <[12%positive := 8]> {[11%positive := 7]} /\
  feeding_run REMOVE_AFTER_USED 2 1 tr' (mkLog [11%positive; 12%positive] [0%nat; 0%nat] [false; false] 0) s'.
Proof.
  destruct (pages_travel_to_the_page_set id (fun _ => 64) REMOVE_AFTER_USED 2 1 [] log0 (start REMOVE_AFTER_USED 2 1) [7; 8] [] node0)
    as (sent & relayed & nd' & tr' & E1 & E2 & E3 & E4 & _ & Hrun).
  - lia.
  - lia.
  - repeat constructor; unfold id; lia.
  - apply run_start.
  - done.
  - by vm_compute.
  - simpl. lia.
  - apply addable0; [|simpl; lia]. apply (bool_decide_unpack _). by vm_compute.
  - eexists sent, relayed, nd', _, _. split; [exact E1|]. split; [exact E2|]. split; [exact E3|]. split; [exact E4|exact Hrun].
Defined.

(** The connection is lost behind the first page. *)
Lemma broken_feeders_finish_witness : exists b nd' tr' s',
  backend_feed true true [StoFeedPageRequest 64 true; Bytes 7; StoFeedPageRequest 64 true] node0 = Ok b nd' /\
  feeding_run REMOVE_AFTER_USED 2 1 tr' (mkLog [11%positive] [0%nat; 0%nat] [false; false] 0) s'.
Proof.
  destruct (broken_feeders_finish REMOVE_AFTER_USED 2 1 [] log0 (start REMOVE_AFTER_USED 2 1) true
    [StoFeedPageRequest 64 true; Bytes 7; StoFeedPageRequest 64 true] node0) as (b & nd' & tr' & E & Hrun).
  - lia.
  - lia.
  - apply run_start.
  - done.
  - by vm_compute.
  - simpl. lia.
  - apply addable0; [|simpl; lia]. apply (bool_decide_unpack _). by vm_compute.
  - eexists b, nd', _, _. split; [exact E|exact Hrun].
Defined.

(** ** Where it goes wrong *)

(** When the bytes of a page cannot be sent, the sender goes on with the next
    page and says that everything worked; the page is lost, and the other node
    reads the next request in the place of the bytes. *)
Lemma lost_bytes_go_unnoticed :
  sender_run (fun _ => 64) [Some 7; Some 8; None] (mkConnection [true; false] []) =
    Ok true (mkConnection [] [StoFeedPageRequest 64 true; StoFeedPageRequest 64 true; Bytes 8; StoFeedPageRequest 64 false]) /\
  (arrived [StoFeedPageRequest 64 true; StoFeedPageRequest 64 true; Bytes 8; StoFeedPageRequest 64 false]) = ([], false).
Proof. by split. Qed.

(** When the identifier belongs to a page set of another kind, the backend
    tells the other node so, and then dereferences the null pointer if a page
    comes all the same: the answer about the page set is overwritten by whether
    it could be sent. *)
Lemma null_page_set_is_fed : backend_feed false true [StoFeedPageRequest 64 true; Bytes 7] node0 = Fault NullDeref.
Proof. reflexivity. Qed.
