(* ===== verification/PageSetCases.v ===== *)
(** What the page sets that hold their pages hand out, on the whole and on
    examples, and where PDBAnonymousPageSet goes wrong. *)

From stdpp Require Import list gmap sorting.
From S2P Require Import Prelude AbstractPageSet AnonymousPageSet SetPageSet.

Open Scope Z_scope.

(** Whatever pages were put into a PDBAnonymousPageSet, removed from it and
    read before, after a reset the workers are handed its pages in ascending
    order of their numbers, in any interleaving of their calls: with sequential
    access each page goes to one worker, with concurrent access to each of
    them, and then each of them is handed null. *)
Theorem anonymous_pages_are_handed_out cs s workers :
  run_calls cs s -> nextPageForWorker s = ∅ ->
  StronglySorted Z.lt (map number (AnonymousPageSet.pages s)) /\
  exists rs s', AnonymousPageSet.reads workers s = Ok rs s' /\
    forall i, to_slot (accessPattern s) i workers rs =
      served (map handle (AnonymousPageSet.pages s)) (length (filter (fun w => slot (accessPattern s) w = i) workers)).
Proof.
  intros Hrun Hno. pose proof (run_calls_ok cs s Hrun) as Hok. split; [apply (ao_sorted _ Hok)|].
  destruct (AnonymousPageSet.anonymous_reads_spec workers s Hok) as (rs & s' & E & _ & _ & _ & Hs). exists rs, s'. split; [exact E|].
  intros i. rewrite Hs. unfold AnonymousPageSet.rest_of. by rewrite Hno, lookup_empty.
Qed.

(** No call on a PDBAnonymousPageSet touches a page that is gone, as long
    as a page is not removed while a worker is to be handed it next. *)
Theorem anonymous_calls_never_fault cs s c :
  run_calls cs s -> allowed c s -> exists r s', do_call c s = Ok r s' /\ run_calls (cs ++ [c]) s'.
Proof.
  intros Hrun Hal. destruct (do_call_ok c s (run_calls_ok cs s Hrun) Hal) as (r & s' & E & _).
  exists r, s'. split; [exact E|]. by eapply run_call.
Qed.

(** ** Examples *)

Definition two_pages : PDBAnonymousPageSet := mkAnonymous [mkNode 2 3 30; mkNode 1 5 50] ∅ SEQUENTIAL 3.
Lemma two_pages_run : run_calls [GetNewPage 5 50; GetNewPage 3 30] two_pages.
Proof.
  apply (run_call [GetNewPage 5 50] (GetNewPage 3 30) (mkAnonymous [mkNode 1 5 50] ∅ SEQUENTIAL 2) (Some 30%positive)); [|done|reflexivity].
  apply (run_call [] (GetNewPage 5 50) PDBAnonymousPageSet_new (Some 50%positive)); [apply run_new|done|reflexivity].
Qed.

Lemma anonymous_pages_are_handed_out_witness : exists rs s', AnonymousPageSet.reads [0; 1; 0] two_pages = Ok rs s' /\
  to_slot SEQUENTIAL 0 [0; 1; 0] rs = [Some 30%positive; Some 50%positive; None].
Proof.
  destruct (anonymous_pages_are_handed_out _ two_pages [0; 1; 0] two_pages_run eq_refl) as (_ & rs & s' & E & Hs).
  exists rs, s'. split; [exact E|]. specialize (Hs 0). exact Hs.
Defined.

Lemma anonymous_calls_never_fault_witness : exists r s', do_call (RemovePage 3) two_pages = Ok r s'.
Proof.
  destruct (anonymous_calls_never_fault _ two_pages (RemovePage 3) two_pages_run) as (r & s' & E & _); [|by exists r, s'].
  intros w x _ H. simpl in H. by rewrite lookup_empty in H.
Defined.

(** A stored set with three pages, read by two workers. *)
Example stored_set_reads : SetPageSet.reads (fun n => Z.to_pos n) [0; 1; 0; 1] (PDBSetPageSet_new [4; 5; 9]) =
  Ok [Some 4%positive; Some 5%positive; Some 9%positive; None] (mkSetPages 4 [4; 5; 9]).
Proof. reflexivity. Qed.

(** ** Where it goes wrong *)

(** A page that is removed while it is the next one of a worker: the worker
    reads through an iterator to nothing. *)
Lemma removed_next_page_is_read :
  (_ <- AnonymousPageSet.getNextPage 0 ;; _ <- removePage 5 ;; AnonymousPageSet.getNextPage 0) two_pages = Fault UseAfterFree.
Proof. reflexivity. Qed.

(** A worker that has reached the end is not handed the pages that come
    later. *)
Lemma late_page_is_not_handed_out :
  match (_ <- AnonymousPageSet.reads [0; 0] ;; _ <- AnonymousPageSet.getNewPage 9 90 ;; AnonymousPageSet.reads [0]) two_pages with
  | Ok rs s => rs = [None] /\ length (AnonymousPageSet.pages s) = 3%nat
  | _ => False
  end.
Proof. by vm_compute. Qed.
