(* ===== verification/StorageHandlers.v ===== *)
(** What the storage manager knows of the pages of stored sets,
    PDBStorageManagerFrontend (pdb/src/storageManager/headers/
    PDBStorageManagerFrontend.h and source/PDBStorageManagerFrontend.cc), and the
    handlers of PDBStorageManagerFrontendTemplate.cc, as programs that run next
    to each other.

    A handler is a sequence of regions: what it does while it holds the mutex
    [pageMutex], and single calls of the buffer manager or on a connection.  What
    the other ends of its connections do is given to it as a script.  The
    messages of errors and the compression of pages are left out.

    A region carries a note that says what it means for the pages of the sets;
    the notes have no effect. *)

From stdpp Require Import list gmap.
From S2P Require Import Prelude.

Open Scope Z_scope.

(** PDBSetCompare tells two sets apart by their names only. *)
Record PDBSet := mkSet { dbName : string; setName : string }.
#[export] Instance PDBSet_eq_dec : EqDecision PDBSet.
Proof. solve_decision. Defined.
#[export] Instance PDBSet_countable : Countable PDBSet.
Proof.
  refine (inj_countable' (fun s => (dbName s, setName s)) (fun p => mkSet p.1 p.2) _). by intros [].
Defined.

Record PDBStorageSetStats := mkStats { size : Z; lastPage : Z }.

Record storage := mkStorage {
  pageStats : gmap PDBSet PDBStorageSetStats;
  pagesBeingWrittenTo : gmap PDBSet (gset Z);
  freeSkippedPages : gmap PDBSet (gset Z)
}.
Abbreviation SM := (M storage).

Definition storage_new : storage := mkStorage ∅ ∅ ∅.

Definition set_pageStats (f : gmap PDBSet PDBStorageSetStats -> gmap PDBSet PDBStorageSetStats) (s : storage) : storage :=
  mkStorage (f (pageStats s)) (pagesBeingWrittenTo s) (freeSkippedPages s).
Definition set_pagesBeingWrittenTo (f : gmap PDBSet (gset Z) -> gmap PDBSet (gset Z)) (s : storage) : storage :=
  mkStorage (pageStats s) (f (pagesBeingWrittenTo s)) (freeSkippedPages s).
Definition set_freeSkippedPages (f : gmap PDBSet (gset Z) -> gmap PDBSet (gset Z)) (s : storage) : storage :=
  mkStorage (pageStats s) (pagesBeingWrittenTo s) (f (freeSkippedPages s)).

(** [map[key]]: an entry that is missing is made. *)
Definition entry (set : PDBSet) (m : gmap PDBSet (gset Z)) : gset Z := default ∅ (m !! set).

(** ** Questions *)

Definition isPageBeingWrittenTo (set : PDBSet) (pageNum : Z) (s : storage) : bool :=
  match pagesBeingWrittenTo s !! set with None => false | Some X => bool_decide (pageNum ∈ X) end.
Definition isPageFree (set : PDBSet) (pageNum : Z) (s : storage) : bool :=
  match freeSkippedPages s !! set with None => false | Some X => bool_decide (pageNum ∈ X) end.
Definition pageExists (set : PDBSet) (pageNum : Z) (s : storage) : bool :=
  match pageStats s !! set with None => false | Some st => pageNum <=? lastPage st end.
Definition usable (set : PDBSet) (pageNum : Z) (s : storage) : bool :=
  pageExists set pageNum s && negb (isPageBeingWrittenTo set pageNum s) && negb (isPageFree set pageNum s).

(** The loop goes up to the last page; it would not end if that were the
    largest number. *)
Fixpoint next_valid (fuel : nat) (set : PDBSet) (pageNum last : Z) (s : storage) : option (bool * Z) :=
  match fuel with
  | O => None
  | S fuel' =>
      if pageNum <=? last then
        if usable set pageNum s then Some (true, pageNum) else next_valid fuel' set (u64 (pageNum + 1)) last s
      else Some (false, 0)
  end.
Definition loop_fuel (pageNum last : Z) : nat := S (Z.to_nat (last + 1 - pageNum)).

Definition getValidPage (set : PDBSet) (pageNum : Z) : SM (bool * Z) := fun s =>
  match pageStats s !! set with
  | None => Ok (false, 0) s
  | Some st => match next_valid (loop_fuel pageNum (lastPage st)) set pageNum (lastPage st) s with Some r => Ok r s | None => NoFuel end
  end.

(** The loop of handleGetSetPages. *)
Fixpoint valid_pages (fuel : nat) (set : PDBSet) (currPage last : Z) (s : storage) : option (list Z) :=
  match fuel with
  | O => None
  | S fuel' =>
      if currPage <=? last then
        pages ← valid_pages fuel' set (u64 (currPage + 1)) last s;
        Some (if usable set currPage s then currPage :: pages else pages)
      else Some []
  end.
Definition getSetPages (set : PDBSet) : SM (list Z) := fun s =>
  match pageStats s !! set with
  | None => Ok [] s
  | Some st => match valid_pages (loop_fuel 0 (lastPage st)) set 0 (lastPage st) s with Some r => Ok r s | None => NoFuel end
  end.

Definition getSetStats (set : PDBSet) (s : storage) : option PDBStorageSetStats := pageStats s !! set.

(** ** Changes *)

Section free_page.
(** [*begin()] of a non-empty unordered_set is one of its elements. *)
Context (begin_of : gset Z -> Z).
(** The code looks at the free pages of the set through the iterator past the
    end, when the set has no entry; [end_empty] says whether what is there looks
    like an empty set. *)
Context (end_empty : bool).

Definition take_free (set : PDBSet) : SM (option Z) :=
  s <- get ;;
  match freeSkippedPages s !! set with
  | None => if end_empty then mret None else ub EndIteratorDeref
  | Some X =>
      if bool_decide (X = ∅) then mret None
      else
        let page := begin_of X in
        _ <- modify (set_freeSkippedPages <[set := X ∖ {[page]}]>) ;;
        mret (Some page)
  end.

Definition getNextFreePage (set : PDBSet) : SM Z :=
  free <- take_free set ;;
  match free with
  | Some page => mret page
  | None =>
      s <- get ;;
      match pageStats s !! set with
      | None => _ <- modify (set_pageStats <[set := mkStats 0 0]>) ;; mret 0
      | Some st =>
          let pageNum := u64 (lastPage st + 1) in
          _ <- modify (set_pageStats <[set := mkStats (size st) pageNum]>) ;; mret pageNum
      end
  end.
End free_page.

(** Through the iterator of the set, which may be the one past the end. *)
Definition change_size (set : PDBSet) (f : Z -> Z) : SM unit :=
  s <- get ;;
  st <- unwrap EndIteratorDeref (pageStats s !! set) ;;
  modify (set_pageStats <[set := mkStats (f (size st)) (lastPage st)]>).
Definition incrementSetSize (set : PDBSet) (uncompressedSize : Z) : SM unit := change_size set (fun z => u64 (z + uncompressedSize)).
Definition decrementSetSize (set : PDBSet) (uncompressedSize : Z) : SM unit := change_size set (fun z => u64 (z - uncompressedSize)).

Definition freeSetPage (set : PDBSet) (pageNum : Z) : SM unit :=
  modify (set_freeSkippedPages (fun m => <[set := entry set m ∪ {[pageNum]}]> m)).
Definition startWritingToPage (set : PDBSet) (pageNum : Z) : SM unit :=
  modify (set_pagesBeingWrittenTo (fun m => <[set := entry set m ∪ {[pageNum]}]> m)).
Definition endWritingToPage (set : PDBSet) (pageNum : Z) : SM unit :=
  modify (set_pagesBeingWrittenTo (fun m => <[set := entry set m ∖ {[pageNum]}]> m)).

(** ** What the handlers do with the mutex held *)

(** handleDispatchFailure, up to the response. *)
Definition dispatch_failed (set : PDBSet) (pageNum bytes : Z) : SM unit :=
  _ <- endWritingToPage set pageNum ;; _ <- freeSetPage set pageNum ;; decrementSetSize set bytes.

(** handleClearSetRequest, up to the buffer manager: whether it was done. *)
Definition clear_set (set : PDBSet) : SM bool :=
  _ <- modify (set_pageStats (delete set)) ;;
  s <- get ;;
  if negb (bool_decide (entry set (pagesBeingWrittenTo s) = ∅)) then mret false
  else
    _ <- modify (set_pagesBeingWrittenTo (delete set)) ;;
    _ <- modify (set_freeSkippedPages (delete set)) ;;
    mret true.

(** ** Programs *)

(** What is seen of a handler: the answers it gives, and what it asks of the
    buffer manager, the catalog and the backend. *)
Inductive event :=
| SimpleRequestResult (success : bool)
| StoGetPageResult (page : Z) (hasPage : bool)
| StoGetSetPagesResult (pages : list Z) (success : bool)
| StoStoreOnPageRequest (set : PDBSet) (page : Z)
| BufferGetPage (set : PDBSet) (page : Z)
| BufferFreezeSize (set : PDBSet) (page size : Z)
| BufferClearSet (set : PDBSet)
| CatalogIncrementSetSize (set : PDBSet) (size : Z).

Record frontend := mkFrontend { store : storage; events : list event }.

(** What a region does to the pages of a set, for the handler that runs it. *)
Inductive note :=
| Reserves (set : PDBSet) (page bytes : Z)
| Releases (set : PDBSet) (page : Z)
| Commits (set : PDBSet) (page bytes : Z)
| Lists (set : PDBSet) (pages : list Z)
| Finds (set : PDBSet) (from : Z) (found : option Z)
| Quiet.

Inductive prog :=
| Done (success : bool)
| Region {A : Type} (m : M frontend A) (n : A -> note) (k : A -> prog).

Definition on_store {A} (m : SM A) : M frontend A := fun s =>
  match m (store s) with
  | Ok a f => Ok a (mkFrontend f (events s))
  | Raise e f => Raise e (mkFrontend f (events s))
  | Exit f => Exit (mkFrontend f (events s))
  | Fault x => Fault x
  | NoFuel => NoFuel
  end.
Definition emit (e : event) : M frontend unit := modify (fun s => mkFrontend (store s) (events s ++ [e])).

(** Without a note, a region changes nothing that matters. *)
Definition Say (e : event) (p : prog) : prog := Region (emit e) (fun _ => Quiet) (fun _ => p).

Section handlers.
Context (begin_of : gset Z -> Z) (end_empty : bool).

Definition reserve (set : PDBSet) : SM Z :=
  pageNum <- getNextFreePage begin_of end_empty set ;; _ <- startWritingToPage set pageNum ;; mret pageNum.
Definition unreserve (set : PDBSet) (pageNum : Z) : SM unit :=
  _ <- endWritingToPage set pageNum ;; freeSetPage set pageNum.

(** ** handleDispatchedData *)

(** Whether the page could be received, the backend connected to, the request
    sent and the page forwarded to it, and its answer, if there was one. *)
Record dispatch_script := mkDispatch { received : bool; connected : bool; sent : bool; forwarded : bool; answered : option bool }.

Definition handleDispatchFailure (set : PDBSet) (pageNum bytes : Z) : prog :=
  Region (on_store (dispatch_failed set pageNum bytes)) (fun _ => Releases set pageNum)
    (fun _ => Say (SimpleRequestResult false) (Done false)).

(** The last step of a dispatch: the mutex is not taken. *)
Definition finish_dispatch (set : PDBSet) (pageNum : Z) (n : note) (success : bool) : prog :=
  Region (on_store (endWritingToPage set pageNum)) (fun _ => n)
    (fun _ => Say (SimpleRequestResult success) (Done success)).

Definition handleDispatchedData (set : PDBSet) (uncompressedSize : Z) (s : dispatch_script) : prog :=
  if negb (received s) then Say (SimpleRequestResult false) (Done false)
  else
    Region (on_store (pageNum <- reserve set ;; _ <- incrementSetSize set uncompressedSize ;; mret pageNum))
      (fun pageNum => Reserves set pageNum uncompressedSize) (fun pageNum =>
    if negb (connected s) then Done false
    else if negb (sent s) then handleDispatchFailure set pageNum uncompressedSize
    else
      Say (StoStoreOnPageRequest set pageNum)
      (if negb (forwarded s) then handleDispatchFailure set pageNum uncompressedSize
       else
      match answered s with
      | Some true => finish_dispatch set pageNum (Commits set pageNum uncompressedSize) true
      | None => finish_dispatch set pageNum (Commits set pageNum uncompressedSize) false
      | Some false =>
          Region (on_store (dispatch_failed set pageNum uncompressedSize)) (fun _ => Releases set pageNum)
            (fun _ => finish_dispatch set pageNum Quiet false)
      end)).

(** ** handleMaterializeSet *)

(** For each page: whether it could be forwarded, and the backend's
    StoMaterializePageResult, if it came. *)
Record materialize_script := mkMaterialize { page_forwarded : bool; page_result : option (bool * Z * bool) }.

(** The pages stored so far are made known. *)
Definition tell_catalog (set : PDBSet) (totalSize : Z) (p : prog) : prog :=
  if totalSize =? 0 then p else Say (CatalogIncrementSetSize set totalSize) p.
Definition materialize_failed (set : PDBSet) (pageNum totalSize : Z) : prog :=
  Region (on_store (unreserve set pageNum)) (fun _ => Releases set pageNum) (fun _ => tell_catalog set totalSize (Done false)).

(** A connection for which there is no script is down. *)
Fixpoint materialize_pages (set : PDBSet) (pages : list materialize_script) (totalSize : Z) : prog :=
  Region (on_store (reserve set)) (fun pageNum => Reserves set pageNum 0) (fun pageNum =>
  Say (BufferGetPage set pageNum)
  match pages with
  | [] => materialize_failed set pageNum totalSize
  | s :: pages' =>
      if negb (page_forwarded s) then materialize_failed set pageNum totalSize
      else
        match page_result s with
        | Some (true, freezeSize, hasNext) =>
            Say (BufferFreezeSize set pageNum freezeSize)
            (Region (on_store (_ <- endWritingToPage set pageNum ;; incrementSetSize set freezeSize)) (fun _ => Commits set pageNum freezeSize) (fun _ =>
             if (hasNext : bool) then materialize_pages set pages' (u64 (totalSize + freezeSize))
             else Say (CatalogIncrementSetSize set (u64 (totalSize + freezeSize))) (Done true)))
        | _ => materialize_failed set pageNum totalSize
        end
  end).

(** The set is materialized whether it exists or not. *)
Definition handleMaterializeSet (set : PDBSet) (setExists : bool) (pages : list materialize_script) : prog :=
  Say (SimpleRequestResult true) (materialize_pages set pages 0).

(** ** Questions *)

Definition handleGetPageRequest (set : PDBSet) (page : Z) : prog :=
  Region (on_store (getValidPage set page)) (fun r => Finds set page (if r.1 : bool then Some r.2 else None)) (fun r =>
  if negb r.1 then Say (StoGetPageResult 0 false) (Done false)
  else Say (BufferGetPage set r.2) (Say (StoGetPageResult r.2 true) (Done true))).

Definition handleGetSetPages (set : PDBSet) (setExists : bool) : prog :=
  if negb setExists then Say (StoGetSetPagesResult [] false) (Done false)
  else Region (on_store (getSetPages set)) (fun pages => Lists set pages) (fun pages => Say (StoGetSetPagesResult pages true) (Done true)).

(** ** handleClearSetRequest *)

(** All of it is done with the mutex held. *)
Definition handleClearSetRequest (set : PDBSet) : M frontend bool :=
  ok <- on_store (clear_set set) ;;
  if (ok : bool) then _ <- emit (BufferClearSet set) ;; _ <- emit (SimpleRequestResult true) ;; mret true
  else _ <- emit (SimpleRequestResult false) ;; mret false.

(** ** Handlers next to each other *)

Inductive request :=
| DispatchData (set : PDBSet) (uncompressedSize : Z) (s : dispatch_script)
| MaterializeSet (set : PDBSet) (setExists : bool) (pages : list materialize_script)
| GetPage (set : PDBSet) (page : Z)
| GetSetPages (set : PDBSet) (setExists : bool).

Definition handler_of (r : request) : prog :=
  match r with
  | DispatchData set uncompressedSize s => handleDispatchedData set uncompressedSize s
  | MaterializeSet set setExists pages => handleMaterializeSet set setExists pages
  | GetPage set page => handleGetPageRequest set page
  | GetSetPages set setExists => handleGetSetPages set setExists
  end.

(** The handler [i] runs its next region. *)
Definition pool_step (i : nat) (ps : list prog) : M frontend (list prog * note) :=
  match ps !! i with
  | Some (Region m n k) => a <- m ;; mret (<[i := k a]> ps, n a)
  | _ => mret (ps, Quiet)
  end.

(** Some regions were run; the notes say by which handlers. *)
Inductive pool_run (rs : list request) (f0 : frontend) : list (nat * note) -> frontend -> list prog -> Prop :=
| pool_start : pool_run rs f0 [] f0 (map handler_of rs)
| pool_next tr f ps i ps' n f' :
    pool_run rs f0 tr f ps -> pool_step i ps f = Ok (ps', n) f' -> pool_run rs f0 (tr ++ [(i, n)]) f' ps'.
End handlers.
