(* ===== verification/StorageSpec.v ===== *)
(** The handlers of the storage manager refine a table of pages: however they
    are interleaved, a page is given to one handler at a time, only pages that
    hold nothing are given out, and the pages that are listed are those that
    were stored. *)

From stdpp Require Import list gmap sorting.
From S2P Require Import Prelude StorageHandlers.

Open Scope Z_scope.

(** ** The specification *)

(** A page belongs to the handler that writes it, or is stored; with how many
    bytes of the set's size it stands for.  The other pages are not in use. *)
Abbreviation page_key := (PDBSet * Z)%type.
Abbreviation table := (gmap page_key (option nat * Z)).

(** What a note does to the table, if it is allowed to the handler [i]. *)
Definition table_step (i : nat) (n : note) (g : table) : option table :=
  match n with
  | Reserves set p b => match g !! (set, p) with None => Some (<[(set, p) := (Some i, b)]> g) | Some _ => None end
  | Releases set p =>
      match g !! (set, p) with Some (Some j, _) => if decide (j = i) then Some (delete (set, p) g) else None | _ => None end
  | Commits set p b =>
      match g !! (set, p) with Some (Some j, _) => if decide (j = i) then Some (<[(set, p) := (None, b)]> g) else None | _ => None end
  | _ => Some g
  end.
Fixpoint table_steps (tr : list (nat * note)) (g : table) : option table :=
  match tr with [] => Some g | (i, n) :: tr' => g' ← table_step i n g; table_steps tr' g' end.

Definition stored (g : table) (set : PDBSet) (p : Z) : Prop := exists b, g !! (set, p) = Some (None, b).
(** The answers of the table to questions. *)
Definition answers (g : table) (n : note) : Prop :=
  match n with
  | Lists set l => StronglySorted Z.lt l /\ forall p, p ∈ l <-> stored g set p
  | Finds set from None => forall p, from <= p -> ~ stored g set p
  | Finds set from (Some p) => from <= p /\ stored g set p /\ forall q, from <= q < p -> ~ stored g set q
  | _ => True
  end.

(** The bytes of a set. *)
Definition bytes_of (set : PDBSet) (g : table) : Z :=
  map_fold (fun k v acc => (if decide (k.1 = set) then v.2 else 0) + acc) 0 g.

Lemma bytes_insert set k v g : g !! k = None ->
  bytes_of set (<[k := v]> g) = (if decide (k.1 = set) then v.2 else 0) + bytes_of set g.
Proof. intros H. unfold bytes_of. rewrite map_fold_insert_L; [done|intros; lia|done]. Qed.
Lemma bytes_delete set k v g : g !! k = Some v ->
  bytes_of set (delete k g) = bytes_of set g - (if decide (k.1 = set) then v.2 else 0).
Proof.
  intros H. rewrite <- (insert_delete_id g k v H) at 2. rewrite bytes_insert by by rewrite lookup_delete_eq. lia.
Qed.
Lemma bytes_update set k v w g : g !! k = Some v ->
  bytes_of set (<[k := w]> g) = bytes_of set g + (if decide (k.1 = set) then w.2 - v.2 else 0).
Proof.
  intros H. rewrite <- insert_delete_eq. rewrite bytes_insert by by rewrite lookup_delete_eq. rewrite (bytes_delete set k v g H).
  case_decide; lia.
Qed.
Lemma bytes_none set g : (forall p, g !! (set, p) = None) -> bytes_of set g = 0.
Proof.
  induction g as [|k v g Hk IH] using map_ind; intros H; [done|]. rewrite bytes_insert by done. destruct k as [s p]. simpl.
  case_decide as Hs.
  - subst. specialize (H p). by rewrite lookup_insert_eq in H.
  - rewrite IH; [lia|]. intros q. specialize (H q). by rewrite lookup_insert_ne in H by (intros [= ? ?]; congruence).
Qed.

(** ** The invariant *)

Record inv (strict : bool) (s : storage) (g : table) (B : Z) : Prop := {
  inv_free set p : p ∈ entry set (freeSkippedPages s) ->
    g !! (set, p) = None /\ exists st, pageStats s !! set = Some st /\ 0 <= p <= lastPage st;
  inv_dom set p v : g !! (set, p) = Some v -> exists st, pageStats s !! set = Some st /\ 0 <= p <= lastPage st;
  inv_all set st p : pageStats s !! set = Some st -> 0 <= p <= lastPage st ->
    is_Some (g !! (set, p)) \/ p ∈ entry set (freeSkippedPages s);
  inv_stats set st : pageStats s !! set = Some st -> 0 <= lastPage st <= B /\ size st = u64 (bytes_of set g);
  inv_writing : strict = true -> forall set p, p ∈ entry set (pagesBeingWrittenTo s) <-> exists i b, g !! (set, p) = Some (Some i, b)
}.

Lemma inv_new strict : inv strict storage_new ∅ 0.
Proof.
  split; simpl; try done. unfold entry. intros _ set p. rewrite lookup_empty. simpl. split; [set_solver|]. by intros (i & b & ?).
Qed.

Lemma inv_more strict s g B B' : inv strict s g B -> B <= B' -> inv strict s g B'.
Proof. intros [H1 H2 H3 H4 H5] HB. split; try done. intros set st Hst. destruct (H4 set st Hst). split; [lia|done]. Qed.

Lemma entry_insert set set' X m : entry set' (<[set := X]> m) = if decide (set' = set) then X else entry set' m.
Proof. unfold entry. case_decide as Hd; [subst; by rewrite lookup_insert_eq|by rewrite lookup_insert_ne]. Qed.

Lemma u64_add_l a b : u64 (u64 a + b) = u64 (a + b).
Proof. unfold u64, wrapu. by rewrite Zplus_mod_idemp_l. Qed.
Lemma u64_u64 a : u64 (u64 a) = u64 a.
Proof. unfold u64, wrapu. by rewrite Zmod_mod. Qed.
Lemma u64_sub_l a b : u64 (u64 a - b) = u64 (a - b).
Proof. unfold u64, wrapu. by rewrite Zminus_mod_idemp_l. Qed.

(** ** What the regions do to the table *)

Section regions.
Context (strict : bool) (g : table) (B : Z) (i : nat) (set : PDBSet).
Implicit Types (s : storage) (p : Z).

Definition with_size (st : PDBStorageSetStats) (z : Z) : PDBStorageSetStats := mkStats (u64 z) (lastPage st).

Lemma with_size_id s st : inv strict s g B -> pageStats s !! set = Some st -> <[set := with_size st (size st)]> (pageStats s) = pageStats s.
Proof.
  intros H Hst. apply insert_id. rewrite Hst. f_equal. destruct (inv_stats _ _ _ _ H _ _ Hst) as [_ Hs]. unfold with_size.
  destruct st as [z l]. simpl in *. rewrite Hs. f_equal. symmetry. apply u64_u64.
Qed.

(** A page that is not in use is given to the handler. *)
Lemma reserve_inv s s' p :
  inv strict s g B -> g !! (set, p) = None -> 0 <= p ->
  (exists st', pageStats s' !! set = Some st' /\ p <= lastPage st' <= B + 1 /\
     match pageStats s !! set with
     | Some st => size st' = size st /\ lastPage st' = Z.max (lastPage st) p /\ p <= lastPage st + 1
     | None => size st' = 0 /\ lastPage st' = 0
     end) ->
  (forall set', set' <> set -> pageStats s' !! set' = pageStats s !! set') ->
  pagesBeingWrittenTo s' = <[set := entry set (pagesBeingWrittenTo s) ∪ {[p]}]> (pagesBeingWrittenTo s) ->
  (forall set', entry set' (freeSkippedPages s') = if decide (set' = set) then entry set (freeSkippedPages s) ∖ {[p]} else entry set' (freeSkippedPages s)) ->
  inv strict s' (<[(set, p) := (Some i, 0)]> g) (B + 1).
Proof.
  intros [H1 H2 H3 H4 H5] Hg Hp (st' & Hst' & Hle & Hst) Hoth Hw Hf.
  assert (Hkeep : forall set' st, pageStats s !! set' = Some st -> exists st2, pageStats s' !! set' = Some st2 /\ lastPage st <= lastPage st2).
  { intros set' st E. destruct (decide (set' = set)) as [->|Hne]; [|exists st; rewrite Hoth by done; by split].
    exists st'. rewrite E in Hst. split; [done|lia]. }
  split.
  - intros set' q. rewrite Hf. intros Hq. assert (Hq' : q ∈ entry set' (freeSkippedPages s) /\ (set', q) <> (set, p)).
    { case_decide as Hd; [subst; split; [set_solver|intros [= ->]; set_solver]|split; [done|by intros [= -> ->]]]. }
    destruct Hq' as [Hq' Hne]. destruct (H1 _ _ Hq') as (E & st & Est & Hb). split; [by rewrite lookup_insert_ne by done|].
    destruct (Hkeep _ _ Est) as (st2 & E2 & Hl). exists st2. split; [done|lia].
  - intros set' q v. destruct (decide ((set', q) = (set, p))) as [[= -> ->]|Hne].
    + intros _. exists st'. split; [done|]. lia.
    + rewrite lookup_insert_ne by done. intros E. destruct (H2 _ _ _ E) as (st & Est & Hb). destruct (Hkeep _ _ Est) as (st2 & E2 & Hl).
      exists st2. split; [done|lia].
  - intros set' st q E Hq. destruct (decide ((set', q) = (set, p))) as [[= -> ->]|Hne]; [left; by rewrite lookup_insert_eq|].
    rewrite lookup_insert_ne, Hf by done. destruct (decide (set' = set)) as [->|Hs].
    + rewrite Hst' in E. injection E as <-. assert (q <> p) by (by intros ->). destruct (pageStats s !! set) as [st|] eqn:Es; [|lia].
      destruct (H3 set st q Es) as [?|?]; [lia|by left|right; set_solver].
    + rewrite Hoth in E by done. by apply H3 with st.
  - intros set' st E. rewrite bytes_insert by done. simpl. destruct (decide (set = set')) as [<-|Hs].
    + rewrite Hst' in E. injection E as <-. split; [lia|]. rewrite Z.add_0_l. destruct (pageStats s !! set) as [st|] eqn:Es.
      * destruct Hst as [-> _]. apply (H4 _ _ Es).
      * destruct Hst as [-> _]. rewrite bytes_none; [done|]. intros q. destruct (g !! (set, q)) eqn:Eq; [|done].
        destruct (H2 _ _ _ Eq) as (? & ? & _). congruence.
    + rewrite Hoth in E by done. destruct (H4 _ _ E). split; [lia|done].
  - intros Hstr set' q. rewrite Hw, entry_insert. destruct (decide ((set', q) = (set, p))) as [[= -> ->]|Hne].
    + rewrite decide_True, lookup_insert_eq by done. split; [by eauto|set_solver].
    + rewrite lookup_insert_ne by done. rewrite <- (H5 Hstr). case_decide; [subst|done]. assert (q <> p) by congruence. set_solver.
Qed.

(** The page is given back. *)
Lemma release_inv s st p b :
  inv strict s g B -> g !! (set, p) = Some (Some i, b) -> pageStats s !! set = Some st ->
  inv strict (mkStorage (<[set := with_size st (size st - b)]> (pageStats s))
    (<[set := entry set (pagesBeingWrittenTo s) ∖ {[p]}]> (pagesBeingWrittenTo s))
    (<[set := entry set (freeSkippedPages s) ∪ {[p]}]> (freeSkippedPages s))) (delete (set, p) g) B.
Proof.
  intros [H1 H2 H3 H4 H5] Hg Hst. assert (Hkeep : forall set' st', pageStats s !! set' = Some st' ->
    exists st2, <[set := with_size st (size st - b)]> (pageStats s) !! set' = Some st2 /\ lastPage st2 = lastPage st').
  { intros set' st' E. destruct (decide (set' = set)) as [->|Hne].
    - rewrite lookup_insert_eq. eexists. split; [done|]. simpl. congruence.
    - rewrite lookup_insert_ne by done. by exists st'. }
  assert (Hback : forall set' st2, <[set := with_size st (size st - b)]> (pageStats s) !! set' = Some st2 ->
    exists st', pageStats s !! set' = Some st' /\ lastPage st2 = lastPage st').
  { intros set' st2. destruct (decide (set' = set)) as [->|Hne]; [rewrite lookup_insert_eq; intros [= <-]; by exists st|].
    rewrite lookup_insert_ne by done. intros E. by exists st2. }
  split; simpl.
  - intros set' q. rewrite entry_insert. intros Hq. destruct (decide ((set', q) = (set, p))) as [[= -> ->]|Hne].
    + rewrite lookup_delete_eq. split; [done|]. destruct (H2 _ _ _ Hg) as (st' & E & Hb). destruct (Hkeep _ _ E) as (st2 & E2 & Hl).
      exists st2. rewrite Hl. by split.
    + assert (Hq' : q ∈ entry set' (freeSkippedPages s)) by (case_decide; [subst; assert (q <> p) by congruence; set_solver|done]).
      destruct (H1 _ _ Hq') as (E & st' & E' & Hb). rewrite lookup_delete_ne by done. split; [done|].
      destruct (Hkeep _ _ E') as (st2 & E2 & Hl). exists st2. rewrite Hl. by split.
  - intros set' q v (Hne & E)%lookup_delete_Some. destruct (H2 _ _ _ E) as (st' & E' & Hb).
    destruct (Hkeep _ _ E') as (st2 & E2 & Hl). exists st2. rewrite Hl. by split.
  - intros set' st2 q E Hq. destruct (Hback _ _ E) as (st' & E' & Hl). rewrite Hl in Hq. rewrite entry_insert.
    destruct (decide ((set', q) = (set, p))) as [[= -> ->]|Hne]; [right; rewrite decide_True by done; set_solver|].
    rewrite lookup_delete_ne by done. destruct (H3 _ _ _ E' Hq) as [?|?]; [by left|right]. case_decide; [subst; set_solver|done].
  - intros set' st2 E. rewrite (bytes_delete set' _ _ g Hg). simpl. destruct (decide (set = set')) as [<-|Hs].
    + rewrite lookup_insert_eq in E. injection E as <-. destruct (H4 _ _ Hst) as [Hl Hsz]. split; [done|]. simpl. by rewrite Hsz, u64_sub_l.
    + rewrite lookup_insert_ne in E by done. rewrite Z.sub_0_r. by apply H4.
  - intros Hstr set' q. rewrite entry_insert. destruct (decide ((set', q) = (set, p))) as [[= -> ->]|Hne].
    + rewrite decide_True, lookup_delete_eq by done. split; [set_solver|by intros (? & ? & ?)].
    + rewrite lookup_delete_ne by done. rewrite <- (H5 Hstr). case_decide; [subst|done]. assert (q <> p) by congruence. set_solver.
Qed.

(** The bytes of a page change, and it may be handed over. *)
Lemma update_inv s st p o b o' d W :
  inv strict s g B -> g !! (set, p) = Some (o, b) -> pageStats s !! set = Some st ->
  (forall set' q, q ∈ entry set' W <-> if decide ((set', q) = (set, p)) then is_Some o' /\ q ∈ entry set' W else q ∈ entry set' (pagesBeingWrittenTo s)) ->
  (is_Some o' -> p ∈ entry set W) ->
  inv strict (mkStorage (<[set := with_size st (size st + d)]> (pageStats s)) W (freeSkippedPages s)) (<[(set, p) := (o', b + d)]> g) B.
Proof.
  intros [H1 H2 H3 H4 H5] Hg Hst HW HW'. assert (Hstats : forall set',
    lastPage <$> <[set := with_size st (size st + d)]> (pageStats s) !! set' = lastPage <$> pageStats s !! set').
  { intros set'. destruct (decide (set' = set)) as [->|Hne]; [by rewrite lookup_insert_eq, Hst|by rewrite lookup_insert_ne]. }
  assert (Hkeep : forall set' st', pageStats s !! set' = Some st' ->
    exists st2, <[set := with_size st (size st + d)]> (pageStats s) !! set' = Some st2 /\ lastPage st2 = lastPage st').
  { intros set' st' E. pose proof (Hstats set') as Hl. rewrite E in Hl. apply fmap_Some in Hl as (st2 & E2 & Hl). eauto. }
  assert (Hback : forall set' st2, <[set := with_size st (size st + d)]> (pageStats s) !! set' = Some st2 ->
    exists st', pageStats s !! set' = Some st' /\ lastPage st2 = lastPage st').
  { intros set' st2 E. pose proof (Hstats set') as Hl. rewrite E in Hl. symmetry in Hl. apply fmap_Some in Hl as (st2' & E2 & Hl). eauto. }
  split; simpl.
  - intros set' q Hq. destruct (H1 _ _ Hq) as (E & st' & E' & Hb). rewrite lookup_insert_ne by (intros [= <- <-]; congruence). split; [done|].
    destruct (Hkeep _ _ E') as (st2 & E2 & Hl). exists st2. rewrite Hl. by split.
  - intros set' q v E. assert (Hv : exists v', g !! (set', q) = Some v').
    { destruct (decide ((set', q) = (set, p))) as [[= -> ->]|Hne]; [by eauto|rewrite lookup_insert_ne in E by done; by eauto]. }
    destruct Hv as [v' Hv]. destruct (H2 _ _ _ Hv) as (st' & E' & Hb). destruct (Hkeep _ _ E') as (st2 & E2 & Hl). exists st2. rewrite Hl. by split.
  - intros set' st2 q E Hq. destruct (Hback _ _ E) as (st' & E' & Hl). rewrite Hl in Hq.
    destruct (decide ((set', q) = (set, p))) as [[= -> ->]|Hne]; [left; by rewrite lookup_insert_eq|].
    rewrite lookup_insert_ne by done. by eapply H3.
  - intros set' st2 E. rewrite (bytes_update set' _ _ _ g Hg). simpl. destruct (decide (set = set')) as [<-|Hs].
    + rewrite lookup_insert_eq in E. injection E as <-. destruct (H4 _ _ Hst) as [Hl Hsz]. split; [done|]. simpl. rewrite Hsz, u64_add_l.
      f_equal. lia.
    + rewrite lookup_insert_ne in E by done. rewrite Z.add_0_r. by apply H4.
  - intros Hstr set' q. rewrite HW. destruct (decide ((set', q) = (set, p))) as [[= -> ->]|Hne].
    + rewrite lookup_insert_eq. split; [intros [[j ->] _]; by eauto|]. intros (j & b' & [= -> <-]). split; [by eauto|apply HW'; by eauto].
    + rewrite lookup_insert_ne by done. apply (H5 Hstr).
Qed.

Lemma commit_inv s st p o b d :
  inv strict s g B -> g !! (set, p) = Some (o, b) -> pageStats s !! set = Some st ->
  inv strict (mkStorage (<[set := with_size st (size st + d)]> (pageStats s))
    (<[set := entry set (pagesBeingWrittenTo s) ∖ {[p]}]> (pagesBeingWrittenTo s)) (freeSkippedPages s)) (<[(set, p) := (None, b + d)]> g) B.
Proof.
  intros H Hg Hst. apply (update_inv s st p o b None d); try done.
  intros set' q. rewrite entry_insert. destruct (decide ((set', q) = (set, p))) as [[= -> ->]|Hne].
  - rewrite decide_True by done. split; [set_solver|by intros [[? ?] _]].
  - case_decide; [subst|done]. assert (q <> p) by congruence. set_solver.
Qed.
End regions.

Section refine.
Context (begin_of : gset Z -> Z) (begin_law : forall X, X <> ∅ -> begin_of X ∈ X).
Context (strict : bool).
Implicit Types (s : storage) (g : table).

(** ** The operations *)

Lemma getNextFreePage_spec s g B set :
  inv strict s g B -> 0 <= B < 2 ^ 64 - 1 ->
  exists p s', getNextFreePage begin_of true set s = Ok p s' /\ g !! (set, p) = None /\ 0 <= p /\
    (exists st', pageStats s' !! set = Some st' /\ p <= lastPage st' <= B + 1 /\
     match pageStats s !! set with
     | Some st => size st' = size st /\ lastPage st' = Z.max (lastPage st) p /\ p <= lastPage st + 1
     | None => size st' = 0 /\ lastPage st' = 0
     end) /\
    (forall set', set' <> set -> pageStats s' !! set' = pageStats s !! set') /\
    pagesBeingWrittenTo s' = pagesBeingWrittenTo s /\
    (forall set', entry set' (freeSkippedPages s') = if decide (set' = set) then entry set (freeSkippedPages s) ∖ {[p]} else entry set' (freeSkippedPages s)).
Proof.
  intros H HB. pose proof H as [H1 H2 H3 H4 _]. unfold getNextFreePage, take_free.
  assert (Hnone : entry set (freeSkippedPages s) = ∅ ->
    (match pageStats s !! set with
     | None => _ <- modify (set_pageStats <[set := mkStats 0 0]>) ;; mret 0
     | Some st => _ <- modify (set_pageStats <[set := mkStats (size st) (u64 (lastPage st + 1))]>) ;; mret (u64 (lastPage st + 1))
     end) s = let p := match pageStats s !! set with Some st => lastPage st + 1 | None => 0 end in
       Ok p (set_pageStats <[set := mkStats (match pageStats s !! set with Some st => size st | None => 0 end) p]> s)).
  { intros _. destruct (pageStats s !! set) as [st|] eqn:Est; [|done]. destruct (H4 _ _ Est) as [Hb _].
    replace (u64 (lastPage st + 1)) with (lastPage st + 1) by (symmetry; apply wrapu_small; lia). done. }
  destruct (decide (entry set (freeSkippedPages s) = ∅)) as [He|He].
  - set (p := match pageStats s !! set with Some st => lastPage st + 1 | None => 0 end).
    exists p, (set_pageStats <[set := mkStats (match pageStats s !! set with Some st => size st | None => 0 end) p]> s). split.
    { rewrite (bind_Ok _ _ _ None s).
      - rewrite (bind_Ok _ _ _ s s) by done. by apply Hnone.
      - rewrite (bind_Ok _ _ _ s s) by done. unfold entry in He. destruct (freeSkippedPages s !! set) as [X|]; [|done]. simpl in He.
        by rewrite bool_decide_true. }
    split. { destruct (g !! (set, p)) as [v|] eqn:E; [|done]. destruct (H2 _ _ _ E) as (st & Est & Hb). unfold p in Hb. rewrite Est in Hb. lia. }
    split. { unfold p. destruct (pageStats s !! set) as [st|] eqn:Est; [|lia]. destruct (H4 _ _ Est). lia. }
    split. { eexists. simpl. rewrite lookup_insert_eq. split; [done|]. simpl. unfold p. destruct (pageStats s !! set) as [st|] eqn:Est.
      - destruct (H4 _ _ Est). split; [lia|]. split; [done|lia].
      - split; [lia|done]. }
    split; [intros set' Hne; simpl; by rewrite lookup_insert_ne|]. split; [done|]. intros set'. simpl. case_decide; [subst; set_solver|done].
  - destruct (freeSkippedPages s !! set) as [X|] eqn:EX; [|unfold entry in He; by rewrite EX in He].
    assert (HX : entry set (freeSkippedPages s) = X) by (unfold entry; by rewrite EX). rewrite HX in He.
    pose proof (begin_law X He) as Hin. destruct (H1 set (begin_of X)) as (Hg & st & Est & Hb); [by rewrite HX|].
    exists (begin_of X), (set_freeSkippedPages <[set := X ∖ {[begin_of X]}]> s). split.
    { rewrite (bind_Ok _ _ _ (Some (begin_of X)) (set_freeSkippedPages <[set := X ∖ {[begin_of X]}]> s)); [done|].
      rewrite (bind_Ok _ _ _ s s) by done. rewrite EX. by rewrite bool_decide_false. }
    split; [done|]. split; [lia|]. destruct (H4 _ _ Est). split; [|split; [done|split; [done|]]].
    + exists st. simpl. rewrite Est. split; [done|]. split; [lia|]. split; [done|]. lia.
    + intros set'. simpl. rewrite entry_insert. by rewrite HX.
Qed.

Lemma reserve_page_spec s g B i set :
  inv strict s g B -> 0 <= B < 2 ^ 64 - 1 ->
  exists p s' st, reserve begin_of true set s = Ok p s' /\ g !! (set, p) = None /\
    inv strict s' (<[(set, p) := (Some i, 0)]> g) (B + 1) /\ pageStats s' !! set = Some st /\
    p ∈ entry set (pagesBeingWrittenTo s').
Proof.
  intros H HB. destruct (getNextFreePage_spec s g B set H HB) as (p & s1 & E & Hg & Hp & (st & Est & Hl & Hst) & Hoth & Hw & Hf).
  exists p, (set_pagesBeingWrittenTo (fun m => <[set := entry set m ∪ {[p]}]> m) s1), st. split.
  { unfold reserve. by rewrite (bind_Ok _ _ _ _ _ E). }
  split; [done|]. split; [|split; [done|simpl; rewrite entry_insert, decide_True by done; set_solver]].
  apply (reserve_inv strict g B i set s); simpl; try done; [by exists st|by rewrite Hw].
Qed.

Lemma change_size_spec s set st f : pageStats s !! set = Some st ->
  change_size set (fun z => u64 (f z)) s = Ok tt (set_pageStats <[set := with_size st (f (size st))]> s).
Proof. intros H. unfold change_size. rewrite (bind_Ok _ _ _ s s) by done. by rewrite (bind_Ok _ _ _ st s) by (by rewrite H). Qed.

(** The handler's page counts for the bytes it will hold. *)
Lemma reserve_bytes_spec s g B i set bytes :
  inv strict s g B -> 0 <= B < 2 ^ 64 - 1 ->
  exists p s', (pageNum <- reserve begin_of true set ;; _ <- incrementSetSize set bytes ;; mret pageNum) s = Ok p s' /\ g !! (set, p) = None /\
    inv strict s' (<[(set, p) := (Some i, bytes)]> g) (B + 1).
Proof.
  intros H HB. destruct (reserve_page_spec s g B i set H HB) as (p & s1 & st & E & Hg & H1 & Est & Hin).
  exists p, (set_pageStats <[set := with_size st (size st + bytes)]> s1). split.
  { rewrite (bind_Ok _ _ _ _ _ E). by rewrite (bind_Ok _ _ _ _ _ (change_size_spec s1 set st (fun z => z + bytes) Est)). }
  split; [done|]. replace (<[(set, p) := (Some i, bytes)]> g) with (<[(set, p) := (Some i, 0 + bytes)]> (<[(set, p) := (Some i, 0)]> g))
    by apply insert_insert_eq.
  refine (update_inv strict (<[(set, p) := (Some i, 0)]> g) (B + 1) set s1 st p (Some i) 0 (Some i) bytes (pagesBeingWrittenTo s1) H1 _ Est _ _).
  - by rewrite lookup_insert_eq.
  - intros set' q. case_decide as Hd; [|done]. simplify_eq. split; [by eauto|by intros [_ ?]].
  - done.
Qed.

Lemma held_stats s g B set p v : inv strict s g B -> g !! (set, p) = Some v -> exists st, pageStats s !! set = Some st.
Proof. intros H Hg. destruct (inv_dom _ _ _ _ H _ _ _ Hg) as (st & E & _). by exists st. Qed.

Lemma dispatch_failed_spec s g B i set p bytes :
  inv strict s g B -> g !! (set, p) = Some (Some i, bytes) ->
  exists s', dispatch_failed set p bytes s = Ok tt s' /\ inv strict s' (delete (set, p) g) B.
Proof.
  intros H Hg. destruct (held_stats _ _ _ _ _ _ H Hg) as [st Est]. eexists. split; [|exact (release_inv strict g B i set s st p bytes H Hg Est)].
  unfold dispatch_failed, endWritingToPage, freeSetPage. rewrite (bind_Ok _ _ _ _ _) by done. rewrite (bind_Ok _ _ _ _ _) by done.
  refine (change_size_spec _ set st (fun z => z - bytes) _). done.
Qed.

Lemma unreserve_spec s g B i set p :
  inv strict s g B -> g !! (set, p) = Some (Some i, 0) ->
  exists s', unreserve set p s = Ok tt s' /\ inv strict s' (delete (set, p) g) B.
Proof.
  intros H Hg. destruct (held_stats _ _ _ _ _ _ H Hg) as [st Est]. eexists. split; [|exact (release_inv strict g B i set s st p 0 H Hg Est)].
  rewrite Z.sub_0_r, (with_size_id strict g B set s st H Est). done.
Qed.

Lemma endWriting_spec s g B i set p bytes :
  inv strict s g B -> g !! (set, p) = Some (Some i, bytes) ->
  exists s', endWritingToPage set p s = Ok tt s' /\ inv strict s' (<[(set, p) := (None, bytes)]> g) B.
Proof.
  intros H Hg. destruct (held_stats _ _ _ _ _ _ H Hg) as [st Est]. pose proof (commit_inv strict g B set s st p (Some i) bytes 0 H Hg Est) as Hc.
  rewrite !Z.add_0_r, (with_size_id strict g B set s st H Est) in Hc. eexists. by split; [|exact Hc].
Qed.

Lemma store_page_spec s g B i set p bytes :
  inv strict s g B -> g !! (set, p) = Some (Some i, 0) ->
  exists s', (_ <- endWritingToPage set p ;; incrementSetSize set bytes) s = Ok tt s' /\ inv strict s' (<[(set, p) := (None, bytes)]> g) B.
Proof.
  intros H Hg. destruct (held_stats _ _ _ _ _ _ H Hg) as [st Est]. pose proof (commit_inv strict g B set s st p (Some i) 0 bytes H Hg Est) as Hc.
  eexists. split; [|exact Hc]. rewrite (bind_Ok _ _ _ _ _) by done. refine (change_size_spec _ set st (fun z => z + bytes) _). done.
Qed.

(** The flag of a page is taken away without need. *)
Lemma endWriting_again s g B set p : strict = false -> inv strict s g B ->
  exists s', endWritingToPage set p s = Ok tt s' /\ inv strict s' g B.
Proof. intros Hst [H1 H2 H3 H4 H5]. eexists. split; [reflexivity|]. split; try done. intros ?. congruence. Qed.

(** ** Questions *)

Lemma writing_iff s set p : isPageBeingWrittenTo set p s = true <-> p ∈ entry set (pagesBeingWrittenTo s).
Proof. unfold isPageBeingWrittenTo, entry. destruct (pagesBeingWrittenTo s !! set); simpl; [by rewrite bool_decide_eq_true|set_solver]. Qed.
Lemma free_iff s set p : isPageFree set p s = true <-> p ∈ entry set (freeSkippedPages s).
Proof. unfold isPageFree, entry. destruct (freeSkippedPages s !! set); simpl; [by rewrite bool_decide_eq_true|set_solver]. Qed.

Lemma usable_stored s g B set p : inv true s g B -> 0 <= p -> usable set p s = true <-> stored g set p.
Proof.
  intros [H1 H2 H3 _ H5] Hp. specialize (H5 eq_refl). unfold usable, pageExists. rewrite !andb_true_iff, !negb_true_iff, <- !not_true_iff_false.
  rewrite writing_iff, free_iff. split.
  - intros [[Hex Hw] Hf]. destruct (pageStats s !! set) as [st|] eqn:Est; [|done]. apply Z.leb_le in Hex.
    destruct (H3 set st p Est) as [[[[i|] b] Hg]|?]; [lia| | |done].
    + destruct Hw. apply H5. by exists i, b.
    + by exists b.
  - intros [b Hg]. destruct (H2 _ _ _ Hg) as (st & Est & Hb). rewrite Est. split; [split; [lia|]|].
    + intros (i & b' & E)%H5. congruence.
    + intros [E _]%H1. congruence.
Qed.

Lemma valid_pages_spec s set last fuel cur :
  0 <= cur -> last + 1 < 2 ^ 64 -> last + 1 - cur < Z.of_nat fuel -> (0 < fuel)%nat ->
  exists l, valid_pages fuel set cur last s = Some l /\ StronglySorted Z.lt l /\
    forall p, p ∈ l <-> cur <= p <= last /\ usable set p s = true.
Proof.
  revert cur. induction fuel as [|fuel IH]; intros cur Hc Hl Hf H0; [lia|]. simpl. destruct (Z.leb_spec cur last) as [Hle|Hgt].
  - assert (Hu : u64 (cur + 1) = cur + 1) by (apply wrapu_small; lia).
    destruct (IH (cur + 1)) as (l & E & Hs & Hin); [lia|lia|lia|lia|]. rewrite Hu, E. simpl. eexists. split; [reflexivity|].
    destruct (usable set cur s) eqn:Eu.
    + split; [constructor; [done|]; apply Forall_forall; intros p Hp%Hin; lia|]. intros p. rewrite elem_of_cons, Hin.
      split; [intros [->|[? ?]]; [by split; [lia|]|by split; [lia|]]|]. intros [Hp ?]. destruct (decide (p = cur)); [by left|right; split; [lia|done]].
    + split; [done|]. intros p. rewrite Hin. split; intros [Hp ?]; (split; [|done]); [lia|]. assert (p <> cur) by congruence. lia.
  - exists []. split; [done|]. split; [constructor|]. intros p. split; [by intros ?%not_elem_of_nil|lia].
Qed.

Lemma getSetPages_spec s g B set : inv strict s g B -> B < 2 ^ 64 - 1 ->
  exists l, getSetPages set s = Ok l s /\ (strict = true -> answers g (Lists set l)).
Proof.
  intros H HB. unfold getSetPages. destruct (pageStats s !! set) as [st|] eqn:Est.
  - destruct (inv_stats _ _ _ _ H _ _ Est) as [Hb _].
    destruct (valid_pages_spec s set (lastPage st) (loop_fuel 0 (lastPage st)) 0) as (l & -> & Hs & Hin); [lia|lia|unfold loop_fuel; lia|unfold loop_fuel; lia|].
    exists l. split; [done|]. intros ->. split; [done|]. intros p. rewrite Hin. split.
    + intros [Hp Hu]. by apply (usable_stored s g B set p H); [lia|].
    + intros Hsto. pose proof Hsto as [b Hg]. destruct (inv_dom _ _ _ _ H _ _ _ Hg) as (st' & Est' & Hp). simplify_eq.
      split; [lia|]. by apply (usable_stored s g B set p H); [lia|].
  - exists []. split; [done|]. intros ->. split; [constructor|]. intros p. split; [by intros ?%not_elem_of_nil|].
    intros [b Hg]. destruct (inv_dom _ _ _ _ H _ _ _ Hg) as (st' & Est' & Hp). congruence.
Qed.

Lemma next_valid_spec s set last fuel p0 :
  0 <= p0 -> last + 1 < 2 ^ 64 -> last + 1 - p0 < Z.of_nat fuel -> (0 < fuel)%nat ->
  exists b p, next_valid fuel set p0 last s = Some (b, p) /\
    if (b : bool) then p0 <= p <= last /\ usable set p s = true /\ forall q, p0 <= q < p -> usable set q s = false
    else forall q, p0 <= q <= last -> usable set q s = false.
Proof.
  revert p0. induction fuel as [|fuel IH]; intros p0 Hc Hl Hf H0; [lia|]. simpl. destruct (Z.leb_spec p0 last) as [Hle|Hgt].
  - assert (Hu : u64 (p0 + 1) = p0 + 1) by (apply wrapu_small; lia). destruct (usable set p0 s) eqn:Eu.
    { exists true, p0. split; [done|]. split; [lia|]. split; [done|lia]. }
    destruct (IH (p0 + 1)) as (b & p & E & Hb); [lia|lia|lia|lia|]. rewrite Hu, E. exists b, p. split; [done|]. destruct b.
    + destruct Hb as (Hp & Hp2 & Hq). split; [lia|]. split; [done|]. intros q Hq'. destruct (decide (q = p0)) as [->|]; [done|apply Hq; lia].
    + intros q Hq. destruct (decide (q = p0)) as [->|]; [done|apply Hb; lia].
  - exists false, 0. split; [done|]. intros q Hq. lia.
Qed.

Lemma getValidPage_spec s g B set p0 : inv strict s g B -> B < 2 ^ 64 - 1 -> 0 <= p0 ->
  exists r, getValidPage set p0 s = Ok r s /\ (strict = true -> answers g (Finds set p0 (if r.1 : bool then Some r.2 else None))).
Proof.
  intros H HB Hp0. unfold getValidPage. destruct (pageStats s !! set) as [st|] eqn:Est.
  - destruct (inv_stats _ _ _ _ H _ _ Est) as [Hb _].
    destruct (next_valid_spec s set (lastPage st) (loop_fuel p0 (lastPage st)) p0) as (b & p & -> & Hr); [lia|lia|unfold loop_fuel; lia|unfold loop_fuel; lia|].
    exists (b, p). split; [done|]. intros ->. assert (Hno : forall q, 0 <= q -> usable set q s = false -> ~ stored g set q).
    { intros q Hq Hu Hsto. apply (usable_stored s g B set q H Hq) in Hsto. congruence. }
    destruct b; simpl.
    + destruct Hr as (Hp & Hu & Hq). split; [lia|]. split; [by apply (usable_stored s g B set p H); [lia|]|].
      intros q Hq'. apply Hno; [lia|by apply Hq].
    + intros q Hq Hsto. pose proof Hsto as [b Hg]. destruct (inv_dom _ _ _ _ H _ _ _ Hg) as (st' & Est' & Hp). simplify_eq.
      apply (Hno q); [lia|apply Hr; lia|done].
  - exists (false, 0). split; [done|]. intros ->. simpl. intros q _ [b Hg]. destruct (inv_dom _ _ _ _ H _ _ _ Hg) as (st' & Est' & Hp). congruence.
Qed.

(** ** Programs *)

(** What the handler [i] holds: at most one page. *)
Definition holds (i : nat) (held : option (page_key * Z)) (g : table) : Prop :=
  match held with Some (x, b) => g !! x = Some (Some i, b) | None => True end.

(** Every region of the program can be run, whatever the others have done in
    between, and does what its note says. *)
Fixpoint safe (i : nat) (held : option (page_key * Z)) (p : prog) : Prop :=
  match p with
  | Done _ => True
  | Region m n k => forall s ev g B,
      inv strict s g B -> 0 <= B < 2 ^ 64 - 1 -> holds i held g ->
      exists a s' ev' g' held', m (mkFrontend s ev) = Ok a (mkFrontend s' ev') /\ table_step i (n a) g = Some g' /\
        (strict = true -> answers g (n a)) /\ inv strict s' g' (B + 1) /\ holds i held' g' /\ safe i held' (k a)
  end.

Lemma on_store_Ok {A} (m : SM A) s ev a s' : m s = Ok a s' -> on_store m (mkFrontend s ev) = Ok a (mkFrontend s' ev).
Proof. intros H. unfold on_store. simpl. by rewrite H. Qed.

Lemma safe_say i held e p : safe i held p -> safe i held (Say e p).
Proof.
  intros H s ev g B Hinv HB Hh. exists tt, s, (ev ++ [e]), g, held. split_and!; try done. eapply inv_more; [done|lia].
Qed.

(** ** The handlers *)

Lemma table_step_mine i set p b g n g' : g !! (set, p) = Some (Some i, b) ->
  (n = Releases set p /\ g' = delete (set, p) g) \/ (exists c, n = Commits set p c /\ g' = <[(set, p) := (None, c)]> g) ->
  table_step i n g = Some g'.
Proof. intros Hg [[-> ->]|(c & -> & ->)]; simpl; rewrite Hg; by rewrite decide_True. Qed.

Lemma safe_release i set p b (m : SM unit) (k : unit -> prog) :
  (forall s g B, inv strict s g B -> g !! (set, p) = Some (Some i, b) -> exists s', m s = Ok tt s' /\ inv strict s' (delete (set, p) g) B) ->
  safe i None (k tt) -> safe i (Some ((set, p), b)) (Region (on_store m) (fun _ => Releases set p) k).
Proof.
  intros Hm Hk s ev g B Hinv HB Hh. simpl in Hh. destruct (Hm s g B Hinv Hh) as (s' & E & H').
  exists tt, s', ev, (delete (set, p) g), None. split; [by apply on_store_Ok|].
  split; [eapply table_step_mine; [done|by left]|]. split_and!; try done. eapply inv_more; [done|lia].
Qed.
Lemma safe_commit i set p b c (m : SM unit) (k : unit -> prog) :
  (forall s g B, inv strict s g B -> g !! (set, p) = Some (Some i, b) -> exists s', m s = Ok tt s' /\ inv strict s' (<[(set, p) := (None, c)]> g) B) ->
  safe i None (k tt) -> safe i (Some ((set, p), b)) (Region (on_store m) (fun _ => Commits set p c) k).
Proof.
  intros Hm Hk s ev g B Hinv HB Hh. simpl in Hh. destruct (Hm s g B Hinv Hh) as (s' & E & H').
  exists tt, s', ev, (<[(set, p) := (None, c)]> g), None. split; [by apply on_store_Ok|].
  split; [eapply table_step_mine; [done|right; by eauto]|]. split_and!; try done. eapply inv_more; [done|lia].
Qed.

Lemma safe_reserve i set b (m : SM Z) (k : Z -> prog) :
  (forall s g B, inv strict s g B -> 0 <= B < 2 ^ 64 - 1 ->
     exists p s', m s = Ok p s' /\ g !! (set, p) = None /\ inv strict s' (<[(set, p) := (Some i, b)]> g) (B + 1)) ->
  (forall p, safe i (Some ((set, p), b)) (k p)) -> safe i None (Region (on_store m) (fun p => Reserves set p b) k).
Proof.
  intros Hm Hk s ev g B Hinv HB _. destruct (Hm s g B Hinv HB) as (p & s' & E & Hg & H').
  exists p, s', ev, (<[(set, p) := (Some i, b)]> g), (Some ((set, p), b)). split; [by apply on_store_Ok|].
  split; [by simpl; rewrite Hg|]. split; [done|]. split; [done|]. split; [by simpl; rewrite lookup_insert_eq|apply Hk].
Qed.

Lemma safe_ask i held {A} (m : SM A) (n : A -> note) (k : A -> prog) :
  (forall s g B, inv strict s g B -> B < 2 ^ 64 - 1 -> exists a, m s = Ok a s /\ (strict = true -> answers g (n a))) ->
  (forall a g, table_step i (n a) g = Some g) -> (forall a, safe i held (k a)) -> safe i held (Region (on_store m) n k).
Proof.
  intros Hm Hn Hk s ev g B Hinv HB Hh. destruct (Hm s g B Hinv ltac:(lia)) as (a & E & Ha).
  exists a, s, ev, g, held. split; [by apply on_store_Ok|]. split; [apply Hn|]. split; [exact Ha|]. split; [eapply inv_more; [done|lia]|]. split; [done|apply Hk].
Qed.

Definition never_refused (sc : dispatch_script) : bool := match answered sc with Some false => false | _ => true end.
(** In the strict reading no backend refuses a page. *)
Definition fits (r : request) : Prop :=
  match r with
  | DispatchData _ _ sc => strict = true -> never_refused sc = true
  | GetPage _ page => 0 <= page
  | _ => True
  end.

Lemma safe_finish i set p b success : safe i (Some ((set, p), b)) (finish_dispatch set p (Commits set p b) success).
Proof.
  unfold finish_dispatch. apply safe_commit; [|by apply safe_say]. intros s g B Hinv Hg. exact (endWriting_spec s g B i set p b Hinv Hg).
Qed.

Lemma safe_failure i set p b (k : unit -> prog) : safe i None (k tt) ->
  safe i (Some ((set, p), b)) (Region (on_store (dispatch_failed set p b)) (fun _ => Releases set p) k).
Proof. intros Hk. apply safe_release; [|done]. intros s g B Hinv Hg. exact (dispatch_failed_spec s g B i set p b Hinv Hg). Qed.

Lemma safe_dispatch i set bytes sc : fits (DispatchData set bytes sc) -> safe i None (handleDispatchedData begin_of true set bytes sc).
Proof.
  intros Hfit. unfold handleDispatchedData. destruct (received sc); [|by apply safe_say].
  apply safe_reserve; [intros s g B Hinv HB; exact (reserve_bytes_spec s g B i set bytes Hinv HB)|]. intros p. destruct (connected sc); [|done].
  assert (Hfail : safe i (Some ((set, p), bytes)) (handleDispatchFailure set p bytes)) by (by apply safe_failure, safe_say).
  destruct (sent sc); [|done]. apply safe_say. destruct (forwarded sc); [|done]. simpl.
  destruct (answered sc) as [[]|] eqn:Ea; [apply safe_finish| |apply safe_finish]. apply safe_failure.
  intros s ev g B Hinv HB Hh. assert (Hst : strict = false).
  { destruct strict eqn:Es; [|done]. specialize (Hfit Es). unfold never_refused in Hfit. by rewrite Ea in Hfit. }
  destruct (endWriting_again s g B set p Hst Hinv) as (s' & E & H'). exists tt, s', ev, g, None. split; [by apply on_store_Ok|].
  split; [done|]. split; [done|]. split; [eapply inv_more; [done|lia]|]. split; [done|by apply safe_say].
Qed.

Lemma safe_tell i held set total p : safe i held p -> safe i held (tell_catalog set total p).
Proof. intros H. unfold tell_catalog. case_match; [done|by apply safe_say]. Qed.

Lemma safe_materialize_failed i set p total : safe i (Some ((set, p), 0)) (materialize_failed set p total).
Proof.
  unfold materialize_failed. apply safe_release; [|by apply safe_tell]. intros s g B Hinv Hg. exact (unreserve_spec s g B i set p Hinv Hg).
Qed.

Lemma safe_pages i set pages total : safe i None (materialize_pages begin_of true set pages total).
Proof.
  revert total. induction pages as [|sc pages IH]; intros total; simpl materialize_pages;
    (apply safe_reserve; [intros s g B Hinv HB; destruct (reserve_page_spec s g B i set Hinv HB) as (p & s' & _ & E & Hg & H' & _); by exists p, s'|]);
    intros p; apply safe_say; [apply safe_materialize_failed|].
  destruct (page_forwarded sc); simpl; [|apply safe_materialize_failed].
  destruct (page_result sc) as [[[[] z] hasNext]|]; [|apply safe_materialize_failed..]. apply safe_say.
  apply safe_commit; [intros s g B Hinv Hg; exact (store_page_spec s g B i set p z Hinv Hg)|]. destruct hasNext; [apply IH|by apply safe_say].
Qed.

Lemma safe_handler i r : fits r -> safe i None (handler_of begin_of true r).
Proof.
  destruct r as [set bytes sc|set ex pages|set page|set ex]; intros Hfit.
  - by apply safe_dispatch.
  - apply safe_say, safe_pages.
  - apply safe_ask; [intros s g B Hinv HB; by eapply getValidPage_spec|done|]. intros [[] p].
    + by apply (safe_say i None (BufferGetPage set p)), safe_say.
    + by apply (safe_say i None (StoGetPageResult 0 false)).
  - unfold handler_of, handleGetSetPages. destruct ex; [|by apply (safe_say i None (StoGetSetPagesResult [] false))].
    apply safe_ask; [intros s g B Hinv HB; by eapply getSetPages_spec|done|]. intros l. by apply safe_say.
Qed.
End refine.
