(* ===== verification/StorageCases.v ===== *)
(** What the theorems on the handlers say from the start on, runs of them, and
    where the storage manager goes wrong; and what it keeps over a restart: the
    file storage.pdb, written by the destructor of PDBStorageManagerFrontend and
    read by its [init] (pdb/src/storageManager/source/PDBStorageManagerFrontend.cc). *)

From stdpp Require Import list gmap sorting.
From stdpp Require Import list gmap strings.
From S2P Require Import Prelude StorageHandlers StorageSpec.

Open Scope Z_scope.

Section pool.
Context (begin_of : gset Z -> Z) (begin_law : forall X, X <> ∅ -> begin_of X ∈ X).

Lemma table_step_other i j n g g' x b : table_step i n g = Some g' -> j <> i -> g !! x = Some (Some j, b) -> g' !! x = Some (Some j, b).
Proof.
  intros H Hne Hx. destruct n as [set p c|set p|set p c|? ?|? ? ?|]; simpl in H; [| | |by simplify_eq..].
  - destruct (g !! (set, p)) eqn:E; [done|]. injection H as <-. rewrite lookup_insert_ne; [done|]. intros <-. congruence.
  - destruct (g !! (set, p)) as [[[k|] c]|] eqn:E; [|done..]. case_decide; [|done]. injection H as <-.
    rewrite lookup_delete_ne; [done|]. intros <-. congruence.
  - destruct (g !! (set, p)) as [[[k|] c']|] eqn:E; [|done..]. case_decide; [|done]. injection H as <-.
    rewrite lookup_insert_ne; [done|]. intros <-. congruence.
Qed.

Lemma table_steps_snoc tr i n g g1 g2 : table_steps tr g = Some g1 -> table_step i n g1 = Some g2 -> table_steps (tr ++ [(i, n)]) g = Some g2.
Proof.
  revert g. induction tr as [|[j m] tr IH]; simpl; intros g H1 H2; [by simplify_eq; rewrite H2|].
  destruct (table_step j m g) as [g'|]; [|done]. by apply IH.
Qed.

(** The states that handlers can get into together. *)
Record pool_ok (strict : bool) (tr : list (nat * note)) (f : frontend) (ps : list prog) (g0 g : table) (B : Z) : Prop := {
  po_table : table_steps tr g0 = Some g;
  po_inv : inv strict (store f) g B;
  po_safe i p : ps !! i = Some p -> exists held, holds i held g /\ safe strict i held p
}.

Lemma pool_step_ok strict tr f ps g0 g B i :
  pool_ok strict tr f ps g0 g B -> 0 <= B < 2 ^ 64 - 1 ->
  exists ps' n f' g', pool_step i ps f = Ok (ps', n) f' /\ table_step i n g = Some g' /\ (strict = true -> answers g n) /\
    pool_ok strict (tr ++ [(i, n)]) f' ps' g0 g' (B + 1).
Proof.
  intros [Ht Hinv Hsafe] HB. unfold pool_step. destruct (ps !! i) as [[b|A m n k]|] eqn:Ei.
  2:{ destruct (Hsafe i _ Ei) as (held & Hh & Hs). destruct f as [s ev].
    destruct (Hs s ev g B Hinv HB Hh) as (a & s' & ev' & g' & held' & E & Hg & Ha & Hinv' & Hh' & Hs').
    rewrite (bind_Ok _ _ _ _ _ E). eexists _, _, _, g'. split; [reflexivity|]. split; [exact Hg|]. split; [exact Ha|].
    split; [by eapply table_steps_snoc|exact Hinv'|]. intros j p Hj. destruct (decide (j = i)) as [->|Hne].
    - rewrite list_lookup_insert_eq in Hj by (by eapply lookup_lt_Some). injection Hj as <-. by exists held'.
    - rewrite list_lookup_insert_ne in Hj by done. destruct (Hsafe j p Hj) as (hj & Hhj & Hsj). exists hj. split; [|done].
      destruct hj as [[x b]|]; [|done]. by eapply table_step_other. }
  all: eexists _, _, _, g; split; [reflexivity|]; split; [done|]; split; [done|];
    (split; [by eapply table_steps_snoc|eapply inv_more; [exact Hinv|lia]|exact Hsafe]).
Qed.

Lemma pool_run_ok strict rs tr f ps g0 B0 f0 :
  Forall (fits strict) rs -> inv strict (store f0) g0 B0 -> 0 <= B0 ->
  pool_run begin_of true rs f0 tr f ps -> B0 + Z.of_nat (length tr) < 2 ^ 64 ->
  exists g, pool_ok strict tr f ps g0 g (B0 + Z.of_nat (length tr)).
Proof.
  intros Hfit Hinv0 HB0. induction 1 as [|tr f ps i ps' n f' Hrun IH Hstep]; intros Hlen.
  - exists g0. split; [done|simpl; by rewrite Z.add_0_r|]. intros i p Hp. rewrite list_lookup_fmap in Hp.
    destruct (rs !! i) as [r|] eqn:Er; [|done]. injection Hp as <-. exists None. split; [done|]. apply safe_handler; [exact begin_law|].
    rewrite Forall_lookup in Hfit. by eapply Hfit.
  - rewrite length_app in Hlen. simpl in Hlen. destruct IH as [g Hok]; [lia|].
    destruct (pool_step_ok strict tr f ps g0 g _ i Hok) as (ps1 & n1 & f1 & g' & E & _ & _ & Hok'); [lia|].
    rewrite E in Hstep. simplify_eq. exists g'. rewrite length_app. simpl.
    replace (B0 + Z.of_nat (length tr + 1)) with (B0 + Z.of_nat (length tr) + 1) by lia. done.
Qed.

Definition frontend_new : frontend := mkFrontend storage_new [].

Lemma from_new strict rs tr f ps :
  Forall (fits strict) rs -> pool_run begin_of true rs frontend_new tr f ps -> Z.of_nat (length tr) < 2 ^ 64 ->
  exists g, pool_ok strict tr f ps ∅ g (Z.of_nat (length tr)).
Proof. intros Hfit Hrun Hlen. apply (pool_run_ok strict rs tr f ps ∅ 0 frontend_new Hfit (inv_new strict) ltac:(lia) Hrun Hlen). Qed.



(** The size kept for a set is the number of bytes of its pages, those
    being stored with the others, whatever failed on the way; its last page is
    the largest page in use or free. *)
Theorem set_size_is_the_sum rs tr f ps g set st :
  Forall (fits false) rs -> pool_run begin_of true rs frontend_new tr f ps -> Z.of_nat (length tr) < 2 ^ 64 ->
  table_steps tr ∅ = Some g -> getSetStats set (store f) = Some st ->
  size st = u64 (bytes_of set g) /\
  (forall p, 0 <= p <= lastPage st <-> is_Some (g !! (set, p)) \/ p ∈ entry set (freeSkippedPages (store f))).
Proof.
  intros Hfit Hrun Hlen Hg Hst. destruct (from_new false rs tr f ps Hfit Hrun Hlen) as [g1 [Hg1 Hinv _]].
  rewrite Hg in Hg1. simplify_eq. split; [apply (inv_stats _ _ _ _ Hinv _ _ Hst)|]. intros p. split; [by eapply inv_all|].
  intros [[v Hv]|Hp]; [destruct (inv_dom _ _ _ _ Hinv _ _ _ Hv) as (st' & E & Hb)|destruct (inv_free _ _ _ _ Hinv _ _ Hp) as (_ & st' & E & Hb)];
    unfold getSetStats in Hst; by simplify_eq.
Qed.
End pool.

(** ** Runs *)

(** The free page that is taken is the first in the order of the set. *)
Definition first_of (X : gset Z) : Z := default 0 (head (elements X)).
Lemma first_of_law X : X <> ∅ -> first_of X ∈ X.
Proof.
  intros HX. unfold first_of. destruct (elements X) as [|x l] eqn:E.
  - apply elements_empty_inv in E. destruct HX. set_solver.
  - apply elem_of_elements. rewrite E. simpl. by left.
Qed.

(** The handlers run their regions in this order. *)
Fixpoint run_regions (sched : list nat) (tr : list (nat * note)) (ps : list prog) : M frontend (list (nat * note) * list prog) :=
  match sched with
  | [] => mret (tr, ps)
  | i :: sched' => r <- pool_step i ps ;; run_regions sched' (tr ++ [(i, r.2)]) r.1
  end.
Definition run_pool (rs : list request) (sched : list nat) : outcome frontend (list (nat * note) * list prog) :=
  run_regions sched [] (map (handler_of first_of true) rs) frontend_new.
Definition notes_of (r : outcome frontend (list (nat * note) * list prog)) : list (nat * note) :=
  match r with Ok (tr, _) _ => tr | _ => [] end.
Definition events_of (r : outcome frontend (list (nat * note) * list prog)) : list event :=
  match r with Ok _ f => events f | _ => [] end.

Lemma run_regions_run rs sched : forall tr f ps tr' ps' f',
  pool_run first_of true rs frontend_new tr f ps -> run_regions sched tr ps f = Ok (tr', ps') f' ->
  pool_run first_of true rs frontend_new tr' f' ps'.
Proof.
  induction sched as [|i sched IH]; simpl; intros tr f ps tr' ps' f' Hrun E; [unfold mret, M_ret in E; by simplify_eq|].
  apply bind_Ok_inv in E as ([ps1 n] & f1 & E1 & E2). eapply IH; [|exact E2]. by eapply pool_next.
Qed.
Lemma run_pool_run rs sched tr ps f : run_pool rs sched = Ok (tr, ps) f -> pool_run first_of true rs frontend_new tr f ps.
Proof. apply run_regions_run, pool_start. Qed.

Definition the_set : PDBSet := mkSet "db" "set".
Definition works : dispatch_script := mkDispatch true true true true (Some true).
Definition breaks : dispatch_script := mkDispatch true true false true None.

(** Two dispatches and a materialization of two pages of the same set; the
    second dispatch fails, and its page goes to the materialization. *)
Definition requests : list request :=
  [DispatchData the_set 100 works; DispatchData the_set 50 breaks;
   MaterializeSet the_set true [mkMaterialize true (Some (true, 7, true)); mkMaterialize true (Some (true, 8, false))];
   GetSetPages the_set true; GetPage the_set 1].
Definition order : list nat := [0; 1; 1; 2; 2; 2; 2; 0; 0; 2]%nat.

Example order_notes : notes_of (run_pool requests (order ++ [3; 4])%nat) =
  [(0, Reserves the_set 0 100); (1, Reserves the_set 1 50); (1, Releases the_set 1); (2, Quiet); (2, Reserves the_set 1 0); (2, Quiet);
   (2, Quiet); (0, Quiet); (0, Commits the_set 0 100); (2, Commits the_set 1 7); (3, Lists the_set [0; 1]%Z); (4, Finds the_set 1 (Some 1%Z))]%nat.
Proof. vm_compute. reflexivity. Qed.

Lemma requests_fit strict : Forall (fits strict) requests.
Proof. repeat constructor; simpl; try done; lia. Qed.

Lemma run_regions_snoc sched i : forall tr ps f tr' ps' f',
  run_regions (sched ++ [i]) tr ps f = Ok (tr', ps') f' ->
  exists tr1 ps1 f1 n, run_regions sched tr ps f = Ok (tr1, ps1) f1 /\ pool_step i ps1 f1 = Ok (ps', n) f' /\ tr' = tr1 ++ [(i, n)].
Proof.
  induction sched as [|j sched IH]; simpl; intros tr ps f tr' ps' f' E.
  - apply bind_Ok_inv in E as ([ps1 n] & f1 & E1 & E2). simpl in E2. unfold mret, M_ret in E2. simplify_eq. by exists tr, ps, f, n.
  - apply bind_Ok_inv in E as ([ps1 n] & f1 & E1 & E2). destruct (IH _ _ _ _ _ _ E2) as (tr1 & ps2 & f2 & m & E3 & E4 & ->).
    exists tr1, ps2, f2, m. rewrite (bind_Ok _ _ _ _ _ E1). by split_and!.
Qed.

(** The last region of a run, from the notes of the run: the programs themselves
    hold functions and are not compared. *)
Lemma run_pool_last rs sched i tr n :
  notes_of (run_pool rs (sched ++ [i])) = tr ++ [(i, n)] ->
  exists f ps ps' f', pool_run first_of true rs frontend_new tr f ps /\ pool_step i ps f = Ok (ps', n) f' /\
    run_pool rs sched = Ok (tr, ps) f.
Proof.
  destruct (run_pool rs (sched ++ [i])) as [[tr' ps'] f'| | | |] eqn:E; simpl; intros H; try by destruct tr.
  unfold run_pool in E. apply run_regions_snoc in E as (tr1 & ps1 & f1 & m & E1 & E2 & ->). apply app_inj_tail in H as [-> [= ->]].
  exists f1, ps1, ps', f'. split; [by eapply run_pool_run|]. by split.
Qed.

(** The notes of the first ten regions. *)
Definition order_trace : list (nat * note) :=
  [(0, Reserves the_set 0 100); (1, Reserves the_set 1 50); (1, Releases the_set 1); (2, Quiet); (2, Reserves the_set 1 0); (2, Quiet);
   (2, Quiet); (0, Quiet); (0, Commits the_set 0 100); (2, Commits the_set 1 7)]%nat.
Lemma order_last : exists f ps ps' f', pool_run first_of true requests frontend_new order_trace f ps /\
  pool_step 3 ps f = Ok (ps', Lists the_set [0; 1]%Z) f' /\ run_pool requests order = Ok (order_trace, ps) f.
Proof. apply (run_pool_last requests order 3 order_trace (Lists the_set [0; 1]%Z)). vm_compute. reflexivity. Qed.

Definition order_table : table := <[(the_set, 1) := (None, 7)]> {[(the_set, 0) := (None, 100)]}.
Lemma order_trace_table : table_steps order_trace ∅ = Some order_table.
Proof. apply (bool_decide_unpack _). vm_compute. exact I. Qed.



Lemma set_size_is_the_sum_witness : exists f ps st, pool_run first_of true requests frontend_new order_trace f ps /\
  getSetStats the_set (store f) = Some st /\ size st = u64 (bytes_of the_set order_table).
Proof.
  destruct order_last as (f & ps & _ & _ & Hrun & _ & E).
  assert (Hst : (match run_pool requests order with Ok _ f => getSetStats the_set (store f) | _ => None end) = Some (mkStats 107 1))
    by (vm_compute; reflexivity). rewrite E in Hst.
  exists f, ps, (mkStats 107 1). split; [exact Hrun|]. split; [exact Hst|].
  apply (set_size_is_the_sum first_of first_of_law requests order_trace f ps order_table the_set (mkStats 107 1) (requests_fit false) Hrun);
    [vm_compute; reflexivity|exact order_trace_table|exact Hst].
Defined.

(** ** Where the storage manager goes wrong *)

Definition refuses : dispatch_script := mkDispatch true true true true (Some false).
Definition silent : dispatch_script := mkDispatch true true true true None.
Definition unconnected : dispatch_script := mkDispatch true false true true None.

(** The backend refuses a page.  The handler gives the page back, and then once
    more says that it does not write it any more; by then another handler has
    it, and the page is listed while that one still writes to it. *)
Lemma page_being_written_is_listed :
  notes_of (run_pool [DispatchData the_set 10 refuses; DispatchData the_set 20 works; GetSetPages the_set true] [0; 0; 0; 1; 0; 2]%nat) =
  [(0, Reserves the_set 0 10); (0, Quiet); (0, Releases the_set 0); (1, Reserves the_set 0 20); (0, Quiet); (2, Lists the_set [0]%Z)]%nat.
Proof. vm_compute. reflexivity. Qed.

(** The backend does not answer: the client is told that storing the page
    failed, and the page is listed and counted all the same. *)
Lemma failed_page_is_listed :
  let r := run_pool [DispatchData the_set 10 silent; GetSetPages the_set true] [0; 0; 0; 0; 1]%nat in
  In (SimpleRequestResult false) (events_of r) /\ In (1%nat, Lists the_set [0]%Z) (notes_of r).
Proof. vm_compute. split; [right; left; reflexivity|do 4 right; left; reflexivity]. Qed.

(** The backend cannot be connected to: the page is not given back, so that the
    set cannot be cleared any more, and the client is not told. *)
Lemma unconnected_page_is_lost :
  match run_pool [DispatchData the_set 10 unconnected] [0; 0]%nat with
  | Ok _ f => events f = [] /\ isPageBeingWrittenTo the_set 0 (store f) = true /\
      match handleClearSetRequest the_set f with Ok ok _ => ok = false | _ => False end
  | _ => False
  end.
Proof. vm_compute. split_and!; reflexivity. Qed.

Definition busy : storage := mkStorage {[the_set := mkStats 5 3]} {[the_set := {[3]}]} ∅.

(** A request to clear a set that is being written to is refused, but what was
    known of the set is gone: its pages start at 0 again, the one being written
    cannot be finished, and page 3 is given out a second time later. *)
Lemma refused_clear_forgets_the_set :
  match clear_set the_set busy with
  | Ok ok s => ok = false /\ getSetStats the_set s = None /\
      (_ <- endWritingToPage the_set 3 ;; incrementSetSize the_set 7) s = Fault EndIteratorDeref /\
      match (_ <- reserve first_of true the_set ;; _ <- reserve first_of true the_set ;; _ <- reserve first_of true the_set ;; reserve first_of true the_set) s with
      | Ok p _ => p = 3 | _ => False end
  | _ => False
  end.
Proof. vm_compute. split_and!; reflexivity. Qed.

(** The first page of a set: its free pages are looked at through the iterator
    past the end of the map. *)
Lemma first_page_reads_past_the_end set : getNextFreePage first_of false set storage_new = Fault EndIteratorDeref.
Proof. unfold getNextFreePage, take_free. rewrite (bind_Fault _ _ _ EndIteratorDeref); [done|]. done. Qed.

(** A byte is a number below 256. *)
Abbreviation bytes := (list Z).

(** ** Numbers and strings *)

(** [n] bytes, the lowest first. *)
Fixpoint to_bytes (n : nat) (z : Z) : bytes :=
  match n with O => [] | S n' => z mod 256 :: to_bytes n' (z / 256) end.
Fixpoint of_bytes (l : bytes) : Z :=
  match l with [] => 0 | b :: l' => b + 256 * of_bytes l' end.

Definition string_bytes (s : string) : bytes := map (fun a => Z.of_N (Ascii.N_of_ascii a)) (String.list_ascii_of_string s).
Definition bytes_string (l : bytes) : string := String.string_of_list_ascii (map (fun b => Ascii.ascii_of_N (Z.to_N b)) l).

Definition write_ulong (z : Z) : bytes := to_bytes 8 z.
Definition write_string (s : string) : bytes := write_ulong (Z.of_nat (String.length s)) ++ string_bytes s.
Definition write_stats (st : PDBStorageSetStats) : bytes := write_ulong (size st) ++ write_ulong (lastPage st).
Definition write_set (x : PDBSet * PDBStorageSetStats) : bytes := write_string (dbName x.1) ++ write_string (setName x.1) ++ write_stats x.2.

(** The destructor: the sets in the order of the map. *)
Definition write_storage (l : list (PDBSet * PDBStorageSetStats)) : bytes := write_ulong (Z.of_nat (length l)) ++ concat (map write_set l).

(** ** Reading: what is left of the file; a file that is too short is not read *)

Abbreviation reader A := (bytes -> option (A * bytes)).

Definition read_bytes (n : nat) : reader bytes := fun l => if (n <=? length l)%nat then Some (take n l, drop n l) else None.
Definition read_ulong : reader Z := fun l => '(b, l) ← read_bytes 8 l; Some (of_bytes b, l).
Definition read_string : reader string := fun l =>
  '(n, l) ← read_ulong l; '(b, l) ← read_bytes (Z.to_nat n) l; Some (bytes_string b, l).
Definition read_stats : reader PDBStorageSetStats := fun l =>
  '(z, l) ← read_ulong l; '(p, l) ← read_ulong l; Some (mkStats z p, l).
Definition read_set : reader (PDBSet * PDBStorageSetStats) := fun l =>
  '(db, l) ← read_string l; '(set, l) ← read_string l; '(st, l) ← read_stats l; Some ((mkSet db set, st), l).
Fixpoint read_sets (n : nat) (m : gmap PDBSet PDBStorageSetStats) : reader (gmap PDBSet PDBStorageSetStats) := fun l =>
  match n with
  | O => Some (m, l)
  | S n' => '(x, l) ← read_set l; read_sets n' (<[x.1 := x.2]> m) l
  end.
Definition read_storage : reader (gmap PDBSet PDBStorageSetStats) := fun l =>
  '(n, l) ← read_ulong l; read_sets (Z.to_nat n) ∅ l.

(** A storage manager that starts with the file. *)
Definition init (file : bytes) : option storage := '(m, _) ← read_storage file; Some (mkStorage m ∅ ∅).

(** ** What is written is read *)

Lemma of_to_bytes n z : of_bytes (to_bytes n z) = z mod 256 ^ Z.of_nat n.
Proof.
  revert z. induction n as [|n IH]; intros z; [by rewrite Z.mod_1_r|].
  change (of_bytes (to_bytes (S n) z)) with (z mod 256 + 256 * of_bytes (to_bytes n (z / 256))). rewrite IH, Nat2Z.inj_succ, Z.pow_succ_r by lia.
  rewrite Z.rem_mul_r by lia. lia.
Qed.
Lemma length_to_bytes n z : length (to_bytes n z) = n.
Proof. revert z. induction n as [|n IH]; intros z; simpl; [done|by rewrite IH]. Qed.

Lemma read_bytes_app b l : read_bytes (length b) (b ++ l) = Some (b, l).
Proof. unfold read_bytes. rewrite (proj2 (Nat.leb_le _ _)) by (rewrite length_app; lia). by rewrite take_app_length, drop_app_length. Qed.

Lemma read_write_ulong z l : 0 <= z < 2 ^ 64 -> read_ulong (write_ulong z ++ l) = Some (z, l).
Proof.
  intros Hz. unfold read_ulong. assert (E : read_bytes 8 (write_ulong z ++ l) = Some (write_ulong z, l)) by (exact (read_bytes_app (to_bytes 8 z) l)).
  rewrite E. cbn [mbind option_bind]. unfold write_ulong. rewrite of_to_bytes. by rewrite Z.mod_small by exact Hz.
Qed.

Lemma bytes_string_bytes s : bytes_string (string_bytes s) = s.
Proof.
  unfold bytes_string, string_bytes. rewrite map_map. rewrite <- (String.string_of_list_ascii_of_string s) at 2. f_equal.
  rewrite <- (map_id (String.list_ascii_of_string s)) at 2. apply map_ext. intros a. by rewrite N2Z.id, Ascii.ascii_N_embedding.
Qed.
Lemma length_string_bytes s : length (string_bytes s) = String.length s.
Proof. unfold string_bytes. rewrite length_map. by induction s as [|a s IH]; simpl; [|rewrite IH]. Qed.

Lemma read_write_string s l : Z.of_nat (String.length s) < 2 ^ 64 -> read_string (write_string s ++ l) = Some (s, l).
Proof.
  intros Hs. unfold read_string, write_string. rewrite <- app_assoc, read_write_ulong by lia. cbn [mbind option_bind].
  rewrite Nat2Z.id, <- length_string_bytes, read_bytes_app. cbn [mbind option_bind]. by rewrite bytes_string_bytes.
Qed.

Definition writable (x : PDBSet * PDBStorageSetStats) : Prop :=
  Z.of_nat (String.length (dbName x.1)) < 2 ^ 64 /\ Z.of_nat (String.length (setName x.1)) < 2 ^ 64 /\
  0 <= size x.2 < 2 ^ 64 /\ 0 <= lastPage x.2 < 2 ^ 64.

Lemma read_write_set x l : writable x -> read_set (write_set x ++ l) = Some (x, l).
Proof.
  destruct x as [[db set] [z p]]. intros (H1 & H2 & H3 & H4). unfold read_set, write_set, write_stats, read_stats.
  cbn [fst snd dbName setName size lastPage] in *.
  rewrite <- !app_assoc, read_write_string by done. cbn [mbind option_bind]. rewrite read_write_string by done. cbn [mbind option_bind].
  rewrite read_write_ulong by done. cbn [mbind option_bind]. by rewrite read_write_ulong.
Qed.

Lemma read_write_sets xs m l : Forall writable xs ->
  read_sets (length xs) m (concat (map write_set xs) ++ l) = Some (foldl (fun m x => <[x.1 := x.2]> m) m xs, l).
Proof.
  revert m. induction xs as [|x xs IH]; intros m H; [done|]. apply Forall_cons in H as [Hx H]. cbn [length read_sets map concat].
  rewrite <- app_assoc, read_write_set by done. cbn [mbind option_bind]. by apply IH.
Qed.

Lemma foldl_insert_map xs (m : gmap PDBSet PDBStorageSetStats) : NoDup (map fst xs) ->
  foldl (fun m x => <[x.1 := x.2]> m) m xs = list_to_map xs ∪ m.
Proof.
  revert m. induction xs as [|[k v] xs IH]; intros m H; simpl; [by rewrite map_empty_union|]. apply NoDup_cons in H as [Hk H].
  rewrite IH by done. rewrite <- insert_union_r; [by rewrite insert_union_l|]. by apply not_elem_of_list_to_map_1.
Qed.

(** C35: A storage manager that starts from the file that one left when it ended
    knows the same sets, with the same sizes and last pages, in whatever order
    they were written. *)
Theorem storage_file_roundtrip l s :
  pageStats s = list_to_map l -> NoDup (map fst l) -> Forall writable l -> Z.of_nat (length l) < 2 ^ 64 ->
  init (write_storage l) = Some (mkStorage (pageStats s) ∅ ∅).
Proof.
  intros Hs Hnd Hw Hl. unfold init, read_storage, write_storage. rewrite read_write_ulong by lia. cbn [mbind option_bind].
  rewrite Nat2Z.id. pose proof (read_write_sets l ∅ [] Hw) as E. rewrite app_nil_r in E. rewrite E. cbn [mbind option_bind].
  by rewrite foldl_insert_map, map_union_empty, Hs.
Qed.

Definition two_sets : list (PDBSet * PDBStorageSetStats) := [(mkSet "a" "b", mkStats 300 2); (mkSet "d" "c", mkStats 0 0)].
Lemma storage_file_roundtrip_witness : init (write_storage two_sets) = Some (mkStorage (list_to_map two_sets) ∅ ∅).
Proof.
  refine (storage_file_roundtrip two_sets (mkStorage (list_to_map two_sets) ∅ ∅) eq_refl _ _ _).
  - apply (bool_decide_unpack _). by vm_compute.
  - repeat constructor; simpl; lia.
  - simpl. lia.
Defined.

(** ** What is lost *)

(** Which pages are free, or were being written, is not kept: after a restart
    they are listed as if they held something. *)
Lemma free_pages_come_back (set : PDBSet) :
  let s := mkStorage {[set := mkStats 10 1]} ∅ {[set := {[1]}]} in
  usable set 1 s = false /\ usable set 1 (mkStorage (pageStats s) ∅ ∅) = true.
Proof.
  unfold usable, pageExists, isPageBeingWrittenTo, isPageFree. simpl. rewrite !lookup_singleton_eq, !lookup_empty. simpl.
  split; [|done]. rewrite bool_decide_true by set_solver. done.
Qed.
