(* ===== verification/StorageBackend.v ===== *)
(** The backend of the storage manager: the page sets it keeps, and how it has
    one stored together with the frontend.  PDBStorageManagerBackend,
    pdb/src/storageManager/source/PDBStorageManagerBackend.cc and
    headers/PDBStorageManagerBackendTemplate.cc. *)

From stdpp Require Import list gmap.
From S2P Require Import Prelude AbstractPageSet AnonymousPageSet SetPageSet StorageHandlers StorageSpec StorageCases.

Open Scope Z_scope.

(** ** The page sets of a node *)

Inductive page_set_kind := AnonymousPageSet | FeedingPageSet (numReaders numFeeders : Z).
(** A page set is an object that is shared with the pipelines that use it. *)
Record page_set_object := mkObject { object : positive; kind : page_set_kind }.
Record backend := mkBackend { pageSets : gmap (Z * string) page_set_object; next_object : positive }.
Definition backend_new : backend := mkBackend ∅ 1.

Definition make_page_set (pageSetID : Z * string) (k : page_set_kind) : M backend positive :=
  s <- get ;;
  _ <- put (mkBackend (<[pageSetID := mkObject (next_object s) k]> (pageSets s)) (Pos.succ (next_object s))) ;;
  mret (next_object s).

(** [dynamic_pointer_cast] gives null for a page set of the other kind. *)
Definition createAnonymousPageSet (pageSetID : Z * string) : M backend (option positive) :=
  s <- get ;;
  match pageSets s !! pageSetID with
  | Some (mkObject o AnonymousPageSet) => mret (Some o)
  | Some _ => mret None
  | None => o <- make_page_set pageSetID AnonymousPageSet ;; mret (Some o)
  end.
Definition createFeedingAnonymousPageSet (pageSetID : Z * string) (numReaders numFeeders : Z) : M backend (option positive) :=
  s <- get ;;
  match pageSets s !! pageSetID with
  | Some (mkObject o (FeedingPageSet _ _)) => mret (Some o)
  | Some _ => mret None
  | None => o <- make_page_set pageSetID (FeedingPageSet numReaders numFeeders) ;; mret (Some o)
  end.
Definition getPageSet (pageSetID : Z * string) : M backend (option positive) :=
  gets (fun s => object <$> pageSets s !! pageSetID).
Definition removePageSet (pageSetID : Z * string) : M backend bool :=
  s <- get ;;
  _ <- put (mkBackend (delete pageSetID (pageSets s)) (next_object s)) ;;
  mret (bool_decide (is_Some (pageSets s !! pageSetID))).

(** handlePageSet, up to the response: whether there was one to remove. *)
Definition handlePageSet (pageSetID : Z * string) : M backend bool := success <- removePageSet pageSetID ;; mret success.

(** The page set of a stored set, from the frontend's answer, if there was one. *)
Definition createPageSetFromPDBSet (result : option (list Z * bool)) : option PDBSetPageSet :=
  match result with
  | Some (pages, true) => Some (PDBSetPageSet_new pages)
  | _ => None
  end.

(** ** materializePageSet *)

Section materialize.
Context {S : Type} `{!PDBAbstractPageSet S} (getSize : pg -> Z).

(** What it does: pages are copied, and the frontend is told. *)
Inductive done_event := Copied (to from : pg) | StoMaterializePageResult (pageSize : Z) (success hasNext : bool).
Record materializing := mkMaterializing { page_set : S; done_events : list done_event }.

Definition on_page_set {A} (m : M S A) : M materializing A := fun s =>
  match m (page_set s) with
  | Ok a p => Ok a (mkMaterializing p (done_events s))
  | Raise e p => Raise e (mkMaterializing p (done_events s))
  | Exit p => Exit (mkMaterializing p (done_events s))
  | Fault x => Fault x
  | NoFuel => NoFuel
  end.
Definition log (e : done_event) : M materializing unit := modify (fun s => mkMaterializing (page_set s) (done_events s ++ [e])).

(** [connectToInternetServer], until it succeeds or the retries are used up. *)
Fixpoint connect (connects : nat -> bool) (maxRetries : Z) (fuel : nat) (numRetries : nat) : option bool :=
  match fuel with
  | O => None
  | Datatypes.S fuel' =>
      if connects numRetries then Some true
      else if maxRetries <? Z.of_nat numRetries then Some false
      else connect connects maxRetries fuel' (Datatypes.S numRetries)
  end.

(** For each page: the page that the frontend forwards, and whether it can be
    answered. *)
Abbreviation page_script := (option pg * bool)%type.

(** [n] pages are left of [numPages]. *)
Fixpoint copy_pages (n : nat) (i numPages : Z) (script : list page_script) : M materializing bool :=
  match n with
  | O => mret true
  | Datatypes.S n' =>
      p <- on_page_set (AbstractPageSet.getNextPage 0) ;;
      (* repin *)
      page <- unwrap NullDeref p ;;
      match script with
      | (Some setPage, sent) :: script' =>
          _ <- log (Copied setPage page) ;;
          if negb sent then mret false
          else _ <- log (StoMaterializePageResult (getSize page) true (i + 1 <? numPages)) ;; copy_pages n' (i + 1) numPages script'
      | _ => mret false
      end
  end.

(** [ack] is the answer of the frontend, if there was one. *)
Definition materializePageSet (connects : nat -> bool) (maxRetries : Z) (requested : bool) (ack : option bool) (script : list page_script) : M materializing bool :=
  n <- on_page_set AbstractPageSet.getNumPages ;;
  if n =? 0 then mret true
  else
    match connect connects maxRetries (Z.to_nat maxRetries + 2) 0 with
    | Some true =>
        if negb requested then mret false
        else
          match ack with
          | Some true => numPages <- on_page_set AbstractPageSet.getNumPages ;; copy_pages (Z.to_nat numPages) 0 numPages script
          | _ => mret false
          end
    | _ => mret false
    end.
End materialize.
Arguments materializing : clear implicits.

(** ** The page sets of a node *)

Lemma createAnonymousPageSet_spec id s o k : pageSets s !! id = Some (mkObject o k) ->
  createAnonymousPageSet id s = Ok (match k with AnonymousPageSet => Some o | _ => None end) s.
Proof. intros H. unfold createAnonymousPageSet. rewrite (bind_Ok _ _ _ s s) by done. rewrite H. by destruct k. Qed.
Lemma createFeeding_spec id r f s o k : pageSets s !! id = Some (mkObject o k) ->
  createFeedingAnonymousPageSet id r f s = Ok (match k with AnonymousPageSet => None | _ => Some o end) s.
Proof. intros H. unfold createFeedingAnonymousPageSet. rewrite (bind_Ok _ _ _ s s) by done. rewrite H. by destruct k. Qed.
Lemma createFeeding_new id r f s : pageSets s !! id = None ->
  exists s', createFeedingAnonymousPageSet id r f s = Ok (Some (next_object s)) s' /\ getPageSet id s' = Ok (Some (next_object s)) s' /\
    forall r' f', createFeedingAnonymousPageSet id r' f' s' = Ok (Some (next_object s)) s'.
Proof.
  intros H. eexists. unfold createFeedingAnonymousPageSet at 1. rewrite (bind_Ok _ _ _ s s) by done. rewrite H. split; [reflexivity|].
  split; [unfold getPageSet, gets; simpl; by rewrite lookup_insert_eq|]. intros r' f'.
  rewrite (createFeeding_spec _ _ _ _ (next_object s) (FeedingPageSet r f)); [done|]. simpl. by rewrite lookup_insert_eq.
Qed.

(** ** Connecting *)

Lemma connect_spec connects maxRetries fuel n :
  (Z.to_nat (maxRetries + 2) <= fuel + n)%nat -> (0 < fuel)%nat -> Z.of_nat n <= maxRetries + 1 ->
  exists b, connect connects maxRetries fuel n = Some b /\
    (b = true <-> exists k, (n <= k)%nat /\ Z.of_nat k <= maxRetries + 1 /\ connects k = true).
Proof.
  revert n. induction fuel as [|fuel IH]; intros n Hf H0 Hn; [lia|]. simpl. destruct (connects n) eqn:Ec.
  { exists true. split; [done|]. split; [|done]. intros _. by exists n. }
  destruct (Z.ltb_spec maxRetries (Z.of_nat n)).
  - exists false. split; [done|]. split; [done|]. intros (k & Hk & Hk' & Hc). assert (k = n) as -> by lia. congruence.
  - destruct (IH (S n)) as (b & E & Hb); [lia|lia|lia|]. exists b. split; [exact E|]. rewrite Hb. split.
    + intros (k & Hk & Hk' & Hc). exists k. split; [lia|done].
    + intros (k & Hk & Hk' & Hc). exists k. assert (k <> n) by (intros ->; congruence). split; [lia|done].
Qed.

(** ** Copying *)

Section materialize.
Context {S : Type} `{!PDBAbstractPageSet S} {ok : nat -> S -> Prop} {all rest : S -> list pg} `{!PageSetLaws S ok all rest}.
Context (getSize : pg -> Z).

(** The pages are copied to the pages that the frontend forwards, and the
    frontend is told their sizes, and with each whether there are more. *)
Fixpoint copies (setPages pages : list pg) : list done_event :=
  match setPages, pages with
  | y :: ys, x :: xs => Copied y x :: StoMaterializePageResult (getSize x) true (match xs with [] => false | _ => true end) :: copies ys xs
  | _, _ => []
  end.

Lemma on_page_set_Ok {A} (m : M S A) p ev a p' : m p = Ok a p' -> on_page_set m (mkMaterializing p ev) = Ok a (mkMaterializing p' ev).
Proof. intros H. unfold on_page_set. simpl. by rewrite H. Qed.

Lemma copy_pages_spec xs p ev i numPages ys :
  ok (length xs) p -> rest p = xs -> numPages = i + Z.of_nat (length xs) -> length ys = length xs ->
  exists p', copy_pages getSize (length xs) i numPages (map (fun y => (Some y, true)) ys) (mkMaterializing p ev) =
    Ok true (mkMaterializing p' (ev ++ copies ys xs)).
Proof.
  revert p ev i ys. induction xs as [|x xs IH]; intros p ev i ys Hok Hr Hn Hl.
  { exists p. destruct ys; [|done]. simpl. by rewrite app_nil_r. }
  destruct ys as [|y ys]; [done|]. destruct (next_law (length xs) p Hok) as (p1 & E & Hok1 & _ & Hr1). rewrite Hr in E, Hr1. simpl in E, Hr1, Hl.
  destruct (IH p1 (ev ++ [Copied y x] ++ [StoMaterializePageResult (getSize x) true (i + 1 <? numPages)]) (i + 1) ys Hok1 Hr1) as (p2 & E2);
    [simpl in Hn; lia|lia|].
  exists p2. simpl copy_pages. rewrite (bind_Ok _ _ _ _ _ (on_page_set_Ok _ _ _ _ _ E)). rewrite (bind_Ok _ _ _ _ _) by done.
  rewrite (bind_Ok _ _ _ _ _) by done. rewrite (bind_Ok _ _ _ _ _) by done. simpl. rewrite <- !app_assoc. rewrite E2. f_equal. f_equal.
  rewrite <- !app_assoc. simpl. do 3 f_equal. f_equal. destruct xs; simpl in Hn |- *; lia.
Qed.

Lemma materializePageSet_spec connects maxRetries p ev ys k :
  ok (length (all p)) p -> rest p = all p -> all p <> [] -> length ys = length (all p) ->
  Z.of_nat k <= maxRetries + 1 -> connects k = true ->
  exists p', materializePageSet getSize connects maxRetries true (Some true) (map (fun y => (Some y, true)) ys) (mkMaterializing p ev) =
    Ok true (mkMaterializing p' (ev ++ copies ys (all p))).
Proof.
  intros Hok Hr Hne Hl Hk Hc. unfold materializePageSet. rewrite (bind_Ok _ _ _ _ _ (on_page_set_Ok _ _ _ _ _ (num_law _ _ Hok))).
  destruct (connect_spec connects maxRetries (Z.to_nat maxRetries + 2) 0) as (b & -> & Hb); [lia|lia|lia|].
  assert (b = true) as -> by (apply Hb; exists k; split; [lia|done]).
  replace (Z.of_nat (length (all p)) =? 0) with false by (destruct (all p); [done|]; simpl; lia). simpl.
  rewrite (bind_Ok _ _ _ _ _ (on_page_set_Ok _ _ _ _ _ (num_law _ _ Hok))). rewrite Nat2Z.id.
  apply (copy_pages_spec (all p)); [done|done|lia|done].
Qed.
End materialize.

(** ** What the frontend hears *)

(** The answers that reach the handler of the frontend. *)
Fixpoint heard (evs : list done_event) : list materialize_script :=
  match evs with
  | [] => []
  | StoMaterializePageResult z b h :: evs' => mkMaterialize true (Some (b, z, h)) :: heard evs'
  | Copied _ _ :: evs' => heard evs'
  end.

(** The sizes of the pages that are stored, and whether all of them are. *)
Fixpoint stored_sizes (script : list materialize_script) : list Z :=
  match script with
  | mkMaterialize true (Some (true, z, h)) :: script' => z :: if h : bool then stored_sizes script' else []
  | _ => []
  end.
Fixpoint complete (script : list materialize_script) : bool :=
  match script with
  | mkMaterialize true (Some (true, _, h)) :: script' => if h : bool then complete script' else true
  | _ => false
  end.

(** The notes of the regions that a program may run until it ends with [b]. *)
Fixpoint can_end (p : prog) (ns : list note) (b : bool) : Prop :=
  match p with
  | Done b' => ns = [] /\ b = b'
  | Region m n k => exists a ns', ns = n a :: ns' /\ can_end (k a) ns' b
  end.

Definition commits (set : PDBSet) (ns : list note) : list Z :=
  omap (fun n => match n with Commits set' _ z => if decide (set' = set) then Some z else None | _ => None end) ns.
Lemma commits_app set ns ns' : commits set (ns ++ ns') = commits set ns ++ commits set ns'.
Proof. unfold commits. by rewrite omap_app. Qed.

Section frontend.
Context (begin_of : gset Z -> Z) (end_empty : bool).

Lemma can_end_Say e p ns b : can_end (Say e p) ns b -> exists ns', ns = Quiet :: ns' /\ can_end p ns' b.
Proof. intros (a & ns' & -> & H). by exists ns'. Qed.

Lemma can_end_failed set p total ns b : can_end (materialize_failed set p total) ns b -> commits set ns = [] /\ b = false.
Proof.
  unfold materialize_failed, tell_catalog. intros (a & ns1 & -> & H). destruct (total =? 0).
  - by destruct H as [-> ->].
  - apply can_end_Say in H as (ns2 & -> & [-> ->]). done.
Qed.

(** However the handler gets on, it ends with the pages stored that the backend
    says are stored. *)
Lemma can_end_pages set script total ns b :
  can_end (materialize_pages begin_of end_empty set script total) ns b -> commits set ns = stored_sizes script /\ b = complete script.
Proof.
  revert total ns. induction script as [|[fwd res] script IH]; intros total ns H; destruct H as (p & ns1 & -> & H);
    apply can_end_Say in H as (ns2 & -> & H).
  { by apply can_end_failed in H. }
  destruct fwd; simpl in H; [|by apply can_end_failed in H].
  destruct res as [[[[] z] h]|]; [|by apply can_end_failed in H..].
  apply can_end_Say in H as (ns3 & -> & (a & ns4 & -> & H)). unfold commits. simpl. rewrite decide_True by done.
  destruct h.
  - apply IH in H as [Hc ->]. split; [|done]. f_equal. exact Hc.
  - apply can_end_Say in H as (ns5 & -> & [-> ->]). done.
Qed.

(** ** In a run *)

Definition notes_by (i : nat) (tr : list (nat * note)) : list note := omap (fun x => if decide (x.1 = i) then Some x.2 else None) tr.
Lemma notes_by_snoc i tr j n : notes_by i (tr ++ [(j, n)]) = notes_by i tr ++ if decide (j = i) then [n] else [].
Proof. unfold notes_by. rewrite omap_app. simpl. by case_decide. Qed.

Lemma run_can_end rs f0 tr f ps i r p set :
  pool_run begin_of end_empty rs f0 tr f ps -> rs !! i = Some r -> ps !! i = Some p ->
  exists ns0, (forall ns b, can_end p ns b -> can_end (handler_of begin_of end_empty r) (ns0 ++ ns) b) /\
    commits set ns0 = commits set (notes_by i tr).
Proof.
  intros Hrun Hr. revert p. induction Hrun as [|tr f ps j ps' n f' Hrun IH Hstep]; intros p Hp.
  { rewrite list_lookup_fmap, Hr in Hp. injection Hp as <-. by exists []. }
  rewrite notes_by_snoc. unfold pool_step in Hstep. destruct (ps !! j) as [[b|A m nt k]|] eqn:Ej.
  2:{ apply bind_Ok_inv in Hstep as (a & f1 & Em & Hstep). unfold mret, M_ret in Hstep. simplify_eq. destruct (decide (j = i)) as [->|Hne].
    - rewrite list_lookup_insert_eq in Hp by (by eapply lookup_lt_Some). injection Hp as <-.
      destruct (IH _ Ej) as (ns0 & Hend & Hc). exists (ns0 ++ [nt a]). split.
      + intros ns b H. rewrite <- app_assoc. apply Hend. by exists a, ns.
      + by rewrite !commits_app, Hc.
    - rewrite list_lookup_insert_ne in Hp by done. rewrite app_nil_r. by apply IH. }
  all: unfold mret, M_ret in Hstep; simplify_eq; destruct (IH _ Hp) as (ns0 & Hend & Hc); exists ns0; split; [exact Hend|];
    case_decide; rewrite ?app_nil_r, ?commits_app; simpl; by rewrite ?app_nil_r.
Qed.

Lemma materialize_run rs f0 tr f ps i set ex script b :
  pool_run begin_of end_empty rs f0 tr f ps -> rs !! i = Some (MaterializeSet set ex script) -> ps !! i = Some (Done b) ->
  commits set (notes_by i tr) = stored_sizes script /\ b = complete script.
Proof.
  intros Hrun Hr Hp. destruct (run_can_end rs f0 tr f ps i _ _ set Hrun Hr Hp) as (ns0 & Hend & Hc).
  specialize (Hend [] b (conj eq_refl eq_refl)). rewrite app_nil_r in Hend. apply can_end_Say in Hend as (ns1 & -> & H).
  apply can_end_pages in H as [H ->]. by rewrite <- Hc.
Qed.
End frontend.

(** What the frontend hears of a page set that the backend copies. *)
Lemma heard_copies getSize ys xs : length ys = length xs -> xs <> [] ->
  stored_sizes (heard (copies getSize ys xs)) = map getSize xs /\ complete (heard (copies getSize ys xs)) = true.
Proof.
  revert ys. induction xs as [|x xs IH]; intros [|y ys] Hl Hne; try done. simpl. destruct xs as [|x' xs].
  - done.
  - destruct (IH ys) as [E1 E2]; [simpl in *; lia|done|]. by rewrite E1, E2.
Qed.

(** C17: When the backend stores a page set, the handler on the frontend, told
    what the backend says and interleaved with others in any way, ends with
    success when it has ended, and has stored as many pages as the page set has,
    with their sizes and in their order; this holds of every kind of page set
    that keeps to the rules of the interface. *)
Theorem materialization_stores_every_page {S : Type} `{!PDBAbstractPageSet S} {ok : nat -> S -> Prop} {all rest : S -> list pg}
    `{!PageSetLaws S ok all rest} (getSize : pg -> Z) begin_of end_empty connects maxRetries p ys k rs f0 tr f ps i set ex b :
  (* the page set is read from its start, and the frontend can be reached *)
  ok (length (all p)) p -> rest p = all p -> all p <> [] -> length ys = length (all p) ->
  Z.of_nat k <= maxRetries + 1 -> connects k = true ->
  exists p' evs, materializePageSet getSize connects maxRetries true (Some true) (map (fun y => (Some y, true)) ys) (mkMaterializing p []) =
      Ok true (mkMaterializing p' evs) /\
    (pool_run begin_of end_empty rs f0 tr f ps -> rs !! i = Some (MaterializeSet set ex (heard evs)) -> ps !! i = Some (Done b) ->
     b = true /\ commits set (notes_by i tr) = map getSize (all p)).
Proof.
  intros Hok Hr Hne Hl Hk Hc. destruct (materializePageSet_spec getSize connects maxRetries p [] ys k Hok Hr Hne Hl Hk Hc) as (p' & E).
  exists p', (copies getSize ys (all p)). split; [exact E|]. intros Hrun Hrs Hps.
  destruct (materialize_run begin_of end_empty rs f0 tr f ps i set ex _ b Hrun Hrs Hps) as [H1 H2].
  destruct (heard_copies getSize ys (all p) Hl Hne) as [E1 E2]. split; congruence.
Qed.

(** ** An example: two pages, while the set is listed *)

Definition two_pages : PDBAnonymousPageSet := mkAnonymous [mkNode 2 3 30; mkNode 1 5 50] ∅ SEQUENTIAL 3.
Lemma two_pages_ok : anonymous_ok two_pages.
Proof.
  apply (run_calls_ok [GetNewPage 5 50; GetNewPage 3 30]).
  apply (run_call [GetNewPage 5 50] (GetNewPage 3 30) (mkAnonymous [mkNode 1 5 50] ∅ SEQUENTIAL 2) (Some 30%positive)); [|done|reflexivity].
  apply (run_call [] (GetNewPage 5 50) PDBAnonymousPageSet_new (Some 50%positive)); [apply run_new|done|reflexivity].
Qed.

Definition told : list materialize_script := [mkMaterialize true (Some (true, 30, true)); mkMaterialize true (Some (true, 50, false))].
Definition asked : list request := [MaterializeSet the_set true told; GetSetPages the_set true].

Definition sizes (x : pg) : Z := Zpos x.

(** Whether the handler [i] has ended, and how. *)
Definition ended_with (i : nat) (r : outcome frontend (list (nat * note) * list prog)) : option bool :=
  match r with Ok (_, ps) _ => match ps !! i with Some (Done b) => Some b | _ => None end | _ => None end.

Lemma asked_run : exists tr f ps, pool_run first_of true asked frontend_new tr f ps /\ ps !! 0%nat = Some (Done true).
Proof.
  assert (H : ended_with 0 (run_pool asked [0; 0; 0; 0; 0; 1; 0; 0; 0; 0; 0]%nat) = Some true) by (vm_compute; reflexivity).
  destruct (run_pool asked _) as [[tr ps] f| | | |] eqn:E; try discriminate H. exists tr, f, ps. split; [by eapply run_pool_run|].
  simpl in H. destruct (ps !! 0%nat) as [[b|]|]; try discriminate H. by injection H as ->.
Qed.

Lemma materialization_stores_every_page_witness : exists p' evs tr f ps,
  materializePageSet sizes (fun n => Nat.eqb n 1) 3 true (Some true) [(Some 70%positive, true); (Some 80%positive, true)] (mkMaterializing two_pages []) =
    Ok true (mkMaterializing p' evs) /\
  pool_run first_of true asked frontend_new tr f ps /\ commits the_set (notes_by 0 tr) = [30; 50].
Proof.
  destruct asked_run as (tr & f & ps & Hrun & Hend).
  destruct (materialization_stores_every_page (ok := fun _ => anonymous_ok) (all := fun s => map handle (AnonymousPageSet.pages s))
    (rest := fun s => map handle (AnonymousPageSet.rest_of s 0)) sizes first_of true (fun n => Nat.eqb n 1) 3 two_pages [70%positive; 80%positive] 1
    asked frontend_new tr f ps 0 the_set true true two_pages_ok eq_refl) as (p' & evs & E & H); [done|reflexivity|simpl; lia|reflexivity|].
  assert (Hh : heard evs = told).
  { assert (E' : match materializePageSet sizes (fun n => Nat.eqb n 1) 3 true (Some true) [(Some 70%positive, true); (Some 80%positive, true)] (mkMaterializing two_pages []) with
      | Ok _ s => heard (done_events s) | _ => [] end = told) by (vm_compute; reflexivity).
    simpl map in E. rewrite E in E'. exact E'. }
  exists p', evs, tr, f, ps. split; [exact E|]. split; [exact Hrun|]. rewrite Hh in H. exact (proj2 (H Hrun eq_refl Hend)).
Defined.

(** ** Where it goes wrong *)

(** A page set that was read before, and not reset, is taken to have as many
    pages left as it holds: the null that ends it is dereferenced. *)
Lemma read_page_set_cannot_be_stored :
  match AnonymousPageSet.reads [0; 0] two_pages with
  | Ok _ s => materializePageSet sizes (fun _ => true) 3 true (Some true) [(Some 70%positive, true); (Some 80%positive, true)] (mkMaterializing s []) = Fault NullDeref
  | _ => False
  end.
Proof. reflexivity. Qed.

(** A page set identifier that is in use for a page set of another kind gives a
    null pointer, and leaves everything as it is. *)
Lemma other_kind_gives_null :
  match createAnonymousPageSet (0, "pages") backend_new with
  | Ok (Some _) s => createFeedingAnonymousPageSet (0, "pages") 2 1 s = Ok None s
  | _ => False
  end.
Proof. reflexivity. Qed.
