(* ===== verification/PhysicalNodes.v ===== *)
(** The nodes of a physical plan and how each of them plans itself:
    computationServer/{headers,sources}/physicalOptimizer/
    PDBAbstractPhysicalNode.h and .cc, PDBStraightPhysicalNode.cc,
    PDBAggregationPhysicalNode.cc, PDBJoinPhysicalNode.h and .cc,
    PDBPrimarySource.h and PDBOptimizerSource.cc.

    A node is what its pipeline, its links and its planning state are.  Links
    are node ids: the builder gives every node an id of its own, and [nodes]
    is the heap.  The atomic computations do not change any more, so a
    pipeline holds their values. *)

From S2P Require Import Prelude AtomicComputation.

(** ** Page sets as seen from planning *)

Abbreviation PDBPageSetIdentifier := (Z * string)%type.

Inductive PDBSourceType :=
| NoSource | MergeSource | SetScanSource | AggregationSource | ShuffledAggregatesSource
| ShuffledJoinTuplesSource | JoinedShuffleSource | BroadcastJoinSource
| BroadcastIntermediateJoinSource.
Inductive PDBSinkType :=
| NoSink | SetSink | AggregationSink | AggShuffleSink | JoinShuffleSink
| JoinShuffleIntermediateSink | BroadcastJoinSink | BroadcastIntermediateJoinSink.
#[export] Instance PDBSourceType_eq_dec : EqDecision PDBSourceType.
Proof. solve_decision. Defined.
#[export] Instance PDBSinkType_eq_dec : EqDecision PDBSinkType.
Proof. solve_decision. Defined.

Record PDBSourcePageSetSpec := mkSourceSpec {
  sourceType : PDBSourceType;
  source_pageSet : PDBPageSetIdentifier
}.
Record PDBSinkPageSetSpec := mkSinkSpec {
  sinkType : PDBSinkType;
  sink_pageSet : PDBPageSetIdentifier
}.
#[export] Instance SourceSpec_eq_dec : EqDecision PDBSourcePageSetSpec.
Proof. solve_decision. Defined.
#[export] Instance SinkSpec_eq_dec : EqDecision PDBSinkPageSetSpec.
Proof. solve_decision. Defined.

Record PDBPrimarySource := mkPrimarySource {
  startAtomicComputation : AtomicComputation;
  source : PDBSourcePageSetSpec;
  shouldSwapLeftAndRight : bool
}.

(** [std::map] with [PageSetIdentifierComparator]: by number, then by name. *)
Definition PageSetIdentifier_less (lhs rhs : PDBPageSetIdentifier) : bool :=
  if bool_decide (lhs.1 <> rhs.1) then bool_decide (lhs.1 < rhs.1)%Z
  else negb (String.leb rhs.2 lhs.2).
Definition PageSetIdentifier_le (a b : PDBPageSetIdentifier) : Prop :=
  PageSetIdentifier_less b a = false.
#[export] Instance PageSetIdentifier_le_dec a b : Decision (PageSetIdentifier_le a b).
Proof. unfold PageSetIdentifier_le. apply _. Defined.
Abbreviation PDBPageSetCosts := (gmap PDBPageSetIdentifier Z).

(** ** Nodes *)

Inductive PDBJoinPhysicalNodeState :=
| PDBJoinPhysicalNodeNotProcessed | PDBJoinPhysicalNodeBroadcasted | PDBJoinPhysicalNodeShuffled.
#[export] Instance JoinState_eq_dec : EqDecision PDBJoinPhysicalNodeState.
Proof. solve_decision. Defined.

Inductive PDBPipelineType :=
| PDB_STRAIGHT_PIPELINE | PDB_AGGREGATION_PIPELINE | PDB_JOIN_SIDE_PIPELINE.
#[export] Instance PDBPipelineType_eq_dec : EqDecision PDBPipelineType.
Proof. solve_decision. Defined.

(** The subclasses add fields only for a side of a join: [otherSide], a null
    pointer at first, and [state]. *)
Record PDBAbstractPhysicalNode := mkNode {
  nodeType : PDBPipelineType;
  computationID : Z;
  pipeline : list AtomicComputation;
  consumers : list nat;
  producers : list nat;
  sinkPageSet : bool * PDBSinkPageSetSpec;
  primarySources : list PDBPrimarySource;
  additionalSources : list PDBSourcePageSetSpec;
  otherSide : option nat;
  state : PDBJoinPhysicalNodeState
}.

(** The constructors of the three subclasses. *)
Definition PDBPhysicalNode_new (t : PDBPipelineType) (pipe : list AtomicComputation) (computationID : Z)
    : PDBAbstractPhysicalNode :=
  mkNode t computationID pipe [] [] (false, mkSinkSpec NoSink (0%Z, EmptyString)) [] [] None
    PDBJoinPhysicalNodeNotProcessed.

Definition set_ncons (f : list nat -> list nat) (n : PDBAbstractPhysicalNode) :=
  mkNode (nodeType n) (computationID n) (pipeline n) (f (consumers n)) (producers n) (sinkPageSet n)
    (primarySources n) (additionalSources n) (otherSide n) (state n).
Definition set_nprods (f : list nat -> list nat) (n : PDBAbstractPhysicalNode) :=
  mkNode (nodeType n) (computationID n) (pipeline n) (consumers n) (f (producers n)) (sinkPageSet n)
    (primarySources n) (additionalSources n) (otherSide n) (state n).
Definition set_sink (s : bool * PDBSinkPageSetSpec) (n : PDBAbstractPhysicalNode) :=
  mkNode (nodeType n) (computationID n) (pipeline n) (consumers n) (producers n) s
    (primarySources n) (additionalSources n) (otherSide n) (state n).
Definition set_primary (f : list PDBPrimarySource -> list PDBPrimarySource) (n : PDBAbstractPhysicalNode) :=
  mkNode (nodeType n) (computationID n) (pipeline n) (consumers n) (producers n) (sinkPageSet n)
    (f (primarySources n)) (additionalSources n) (otherSide n) (state n).
Definition set_additional (f : list PDBSourcePageSetSpec -> list PDBSourcePageSetSpec)
    (n : PDBAbstractPhysicalNode) :=
  mkNode (nodeType n) (computationID n) (pipeline n) (consumers n) (producers n) (sinkPageSet n)
    (primarySources n) (f (additionalSources n)) (otherSide n) (state n).
Definition set_otherSide (o : option nat) (n : PDBAbstractPhysicalNode) :=
  mkNode (nodeType n) (computationID n) (pipeline n) (consumers n) (producers n) (sinkPageSet n)
    (primarySources n) (additionalSources n) o (state n).
Definition set_state (s : PDBJoinPhysicalNodeState) (n : PDBAbstractPhysicalNode) :=
  mkNode (nodeType n) (computationID n) (pipeline n) (consumers n) (producers n) (sinkPageSet n)
    (primarySources n) (additionalSources n) (otherSide n) s.

Abbreviation nodes := (gmap nat PDBAbstractPhysicalNode).
Abbreviation MN := (M nodes).

Definition node_at (n : nat) : MN PDBAbstractPhysicalNode := ns <- get ;; unwrap NullDeref (ns !! n).
Definition update_node (n : nat) (f : PDBAbstractPhysicalNode -> PDBAbstractPhysicalNode) : MN unit :=
  modify (alter f n).
Definition assert {S} (b : bool) : M S unit := if b then mret tt else ub AssertFailed.

Definition front_is (t : AtomicComputationTypeID) (n : PDBAbstractPhysicalNode) : bool :=
  match pipeline n with
  | [] => false
  | c :: _ => bool_decide (getAtomicComputationTypeID c = t)
  end.
Definition isJoining := front_is ApplyJoinTypeID.
Definition isUnioning := front_is UnionTypeID.
Definition hasScanSet := front_is ScanSetAtomicTypeID.

(** [pipeline.front()] and [pipeline.back()] of a vector that may be empty. *)
Definition front_of {S A} (l : list A) : M S A := unwrap OutOfRange (head l).
Definition back_of {S A} (l : list A) : M S A := unwrap OutOfRange (last l).

(** The source set of the scan that the pipeline begins with; the cast of
    another computation gives a null pointer. *)
Definition getSourceSet (n : PDBAbstractPhysicalNode) : MN (string * string) :=
  c <- front_of (pipeline n) ;;
  match kind c with
  | KScanSet set _ => mret set
  | _ => ub NullDeref
  end.

Definition removeConsumer (n consumer : nat) : MN unit :=
  _ <- update_node consumer (set_nprods (filter (fun p => p <> n))) ;;
  update_node n (set_ncons (filter (fun c => c <> consumer))).
Definition addConsumer (n consumer : nat) : MN unit :=
  _ <- update_node n (set_ncons (fun l => l ++ [consumer])) ;;
  update_node consumer (set_nprods (fun l => l ++ [n])).

Definition getSinkPageSet (n : PDBAbstractPhysicalNode) : PDBSinkPageSetSpec := (sinkPageSet n).2.
Definition setSinkPageSet (n : nat) (pageSink : PDBSinkPageSetSpec) : MN unit :=
  update_node n (set_sink (true, pageSink)).

Definition getSourceTypeForSinkType (t : PDBSinkType) : MN PDBSourceType :=
  match t with
  | SetSink => mret SetScanSource
  | AggregationSink => mret AggregationSource
  | AggShuffleSink => mret ShuffledAggregatesSource
  | JoinShuffleSink => mret ShuffledJoinTuplesSource
  | BroadcastJoinSink => mret BroadcastJoinSource
  | _ => _ <- assert false ;; mret NoSource
  end.

(** [pageSetCosts.find(...)], which throws when there is none. *)
Definition find_cost (costs : PDBPageSetCosts) (sink : PDBSinkPageSetSpec) : MN Z :=
  match costs !! sink_pageSet sink with
  | Some c => mret c
  | None => throw (RuntimeError ("Did not find the page set : " +:+ (sink_pageSet sink).2))
  end.
Definition source_of (n : PDBAbstractPhysicalNode) : MN PDBSourcePageSetSpec :=
  t <- getSourceTypeForSinkType (sinkType (getSinkPageSet n)) ;;
  mret (mkSourceSpec t (sink_pageSet (getSinkPageSet n))).

Definition getJoinSources (n : PDBAbstractPhysicalNode) (costs : PDBPageSetCosts)
    : MN (PDBSourcePageSetSpec * PDBSourcePageSetSpec * bool) :=
  _ <- assert (isJoining n) ;;
  _ <- assert (bool_decide (length (producers n) = 2)) ;;
  a <- front_of (producers n) ;;
  firstProducer <- node_at a ;;
  first <- find_cost costs (getSinkPageSet firstProducer) ;;
  b <- back_of (producers n) ;;
  secondProducer <- node_at b ;;
  second <- find_cost costs (getSinkPageSet secondProducer) ;;
  applyJoin <- front_of (pipeline n) ;;
  let leftSide := if bool_decide (second < first)%Z then secondProducer else firstProducer in
  let rightSide := if bool_decide (second >= first)%Z then secondProducer else firstProducer in
  rhsInput <- unwrap BadCast (getRightInput applyJoin) ;;
  leftOut <- back_of (pipeline leftSide) ;;
  let shouldSwap := bool_decide (getSetName (output leftOut) = getSetName rhsInput) in
  leftSource <- source_of leftSide ;;
  rightSource <- source_of rightSide ;;
  mret (leftSource, rightSource, shouldSwap).

Definition getSourcePageSet (n : PDBAbstractPhysicalNode) (costs : PDBPageSetCosts)
    : MN PDBSourcePageSetSpec :=
  if hasScanSet n then
    c <- front_of (pipeline n) ;;
    mret (mkSourceSpec SetScanSource (computationID n, getOutputName c))
  else if isJoining n then
    joinSources <- getJoinSources n costs ;; mret joinSources.1.1
  else
    _ <- assert (bool_decide (length (producers n) = 1)) ;;
    p <- front_of (producers n) ;;
    producer <- node_at p ;;
    source_of producer.

(** ** Physical algorithms

    The object that is sent to the workers: what the constructor of the base
    class and of the four subclasses put into it. *)

Record PDBSourceSpec := mkSourceSpecOf {
  firstTupleSet : string;
  sourceSet : option (string * string);
  pageSet : PDBSourcePageSetSpec;
  swapLHSandRHS : bool
}.

Inductive PDBAlgorithmKind :=
| StraightPipe
| DistributedAggregation (hashedToSend : PDBSinkPageSetSpec) (hashedToRecv : PDBSourcePageSetSpec)
| BroadcastForJoin (hashedToSend : PDBSinkPageSetSpec) (hashedToRecv : PDBSourcePageSetSpec)
| ShuffleForJoin (intermediate : PDBSinkPageSetSpec).

Record PDBPhysicalAlgorithm := mkAlgorithm {
  algorithmType : PDBAlgorithmKind;
  finalTupleSet : string;
  sink : PDBSinkPageSetSpec;
  setsToMaterialize : list (string * string);
  sources : list PDBSourceSpec;
  secondarySources : list PDBSourcePageSetSpec
}.

Definition PDBSourceSpec_of (source_ : PDBPrimarySource) : PDBSourceSpec :=
  mkSourceSpecOf
    (getOutputName (startAtomicComputation source_))
    match kind (startAtomicComputation source_) with
    | KScanSet set _ => Some set
    | _ => None
    end
    (source source_)
    (shouldSwapLeftAndRight source_).

Definition PDBPhysicalAlgorithm_new (k : PDBAlgorithmKind) (primarySource : list PDBPrimarySource)
    (finalAtomicComputation : AtomicComputation) (sink : PDBSinkPageSetSpec)
    (secondarySources : list PDBSourcePageSetSpec) (setsToMaterialize : list (string * string))
    : PDBPhysicalAlgorithm :=
  mkAlgorithm k (getOutputName finalAtomicComputation) sink setsToMaterialize
    (map PDBSourceSpec_of primarySource) secondarySources.

Inductive PDBPlanningResultType := NOTHING | UNIONED_PIPELINE | GENERATED_ALGORITHM.
#[export] Instance ResultType_eq_dec : EqDecision PDBPlanningResultType.
Proof. solve_decision. Defined.

Record PDBPlanningResult := mkResult {
  resultType : PDBPlanningResultType;
  runMe : option PDBPhysicalAlgorithm;
  newSourceNodes : list nat;
  consumedPageSets : list PDBPageSetIdentifier;
  newPageSets : list (PDBPageSetIdentifier * Z)
}.

(** [consumedPageSets.insert(begin(), ...)] for the primary, then for the
    additional sources: each goes to the front. *)
Definition consumed_by (prims : list PDBPrimarySource) (adds : list PDBSourcePageSetSpec)
    (start : list PDBPageSetIdentifier) : list PDBPageSetIdentifier :=
  rev (map source_pageSet adds) ++ rev (map (fun p => source_pageSet (source p)) prims) ++ start.

(** ** Planning a node *)

Section planning.
(** Whether incrementing the end of a [std::list] goes to its first element,
    as it does in libstdc++, whose lists are circular; the standard leaves it
    undefined. *)
Variable circular : bool.
(** [PDBJoinPhysicalNode::SHUFFLE_JOIN_THRASHOLD] *)
Variable SHUFFLE_JOIN_THRASHOLD : Z.
Variable pageSetCosts : PDBPageSetCosts.

(** [generateAlgorithm (child, pageSetCosts)], for the recursive calls. *)
Variable generateAlgorithm_rec : nat -> nat -> MN PDBPlanningResult.

Definition generatePipelinedAlgorithm (n child : nat) : MN PDBPlanningResult :=
  c <- node_at child ;;
  _ <- update_node n (set_additional (fun _ => additionalSources c)) ;;
  me <- node_at n ;;
  if isUnioning me && bool_decide (primarySources me = []) then
    _ <- update_node n (set_primary (fun l => l ++ primarySources c)) ;;
    mret (mkResult UNIONED_PIPELINE None []
            (map (fun p => source_pageSet (source p)) (primarySources c)) [])
  else
    _ <- update_node n (set_primary (fun l => l ++ primarySources c)) ;;
    generateAlgorithm_rec n n.

(** [PDBStraightPhysicalNode::generateAlgorithm] *)
Definition straight_generateAlgorithm (n child : nat) : MN PDBPlanningResult :=
  me <- node_at n ;;
  match consumers me with
  | [c] => generatePipelinedAlgorithm c child
  | _ =>
      final <- back_of (pipeline me) ;;
      let sink := mkSinkSpec SetSink (computationID me, getOutputName final) in
      _ <- setSinkPageSet n sink ;;
      setsToMaterialize <-
        (match consumers me with
         | [] =>
             match kind final with
             | KWriteSet dbName setName => mret [(dbName, setName)]
             | _ => throw (RuntimeError "TCAP does not end with a write set.")
             end
         | _ => mret []
         end) ;;
      let algorithm := PDBPhysicalAlgorithm_new StraightPipe (primarySources me) final sink
                         (additionalSources me) setsToMaterialize in
      mret (mkResult GENERATED_ALGORITHM (Some algorithm) (consumers me)
              (consumed_by (primarySources me) (additionalSources me) [])
              [(sink_pageSet sink, u64 (Z.of_nat (length (consumers me))))])
  end.

(** A consumer that only writes what is aggregated to a set. *)
Definition materialization (n : PDBAbstractPhysicalNode) : option (string * string) :=
  match pipeline n with
  | [a; w] =>
      match kind a, kind w with
      | KApplyAgg, KWriteSet dbName setName => Some (dbName, setName)
      | _, _ => None
      end
  | _ => None
  end.

(** The loop over the consumers of an aggregation; [i] is the position of the
    iterator [consumer], the length of the list being its end. *)
Fixpoint materialize_consumers (fuel : nat) (n i : nat) (acc : list (string * string))
    : MN (list (string * string)) :=
  match fuel with
  | 0 => fun _ => NoFuel
  | S fuel =>
      me <- node_at n ;;
      match consumers me !! i with
      | None => mret acc
      | Some c =>
          computations <- node_at c ;;
          match materialization computations with
          | Some set =>
              (* auto tmp = consumer++; *)
              let next := consumers me !! (i + 1) in
              _ <- removeConsumer n c ;;
              if bool_decide (next = Some c) then ub UseAfterFree else
              me <- node_at n ;;
              (* [consumer] is now at position [i] of the shorter list, and is
                 incremented once more *)
              if i <? length (consumers me) then materialize_consumers fuel n (i + 1) (acc ++ [set])
              else if circular then materialize_consumers fuel n 0 (acc ++ [set])
              else ub EndIteratorDeref
          | None => materialize_consumers fuel n (i + 1) acc
          end
      end
  end.

(** [PDBAggregationPhysicalNode::generateAlgorithm] *)
Definition aggregation_generateAlgorithm (n : nat) : MN PDBPlanningResult :=
  me <- node_at n ;;
  final <- back_of (pipeline me) ;;
  let name := getOutputName final in
  let hashedToSend := mkSinkSpec AggShuffleSink (computationID me, name +:+ "_hashed_to_send") in
  let hashedToRecv := mkSourceSpec ShuffledAggregatesSource (computationID me, name +:+ "_hashed_to_recv") in
  let sink := mkSinkSpec AggregationSink (computationID me, name) in
  let size := length (consumers me) in
  setsToMaterialize <- materialize_consumers (S size * S size) n 0 [] ;;
  _ <- setSinkPageSet n sink ;;
  me <- node_at n ;;
  let algorithm := PDBPhysicalAlgorithm_new (DistributedAggregation hashedToSend hashedToRecv)
                     (primarySources me) final sink (additionalSources me) setsToMaterialize in
  let consumedPageSets := consumed_by (primarySources me) (additionalSources me)
                            [sink_pageSet hashedToSend; source_pageSet hashedToRecv] in
  let sinkConsumers := if bool_decide (consumers me = []) then 1%Z
                       else u64 (Z.of_nat (length (consumers me))) in
  mret (mkResult GENERATED_ALGORITHM (Some algorithm) (consumers me)
          (if bool_decide (consumers me = []) then sink_pageSet sink :: consumedPageSets
           else consumedPageSets)
          [(sink_pageSet sink, sinkConsumers); (sink_pageSet hashedToSend, 1%Z);
           (source_pageSet hashedToRecv, 1%Z)]).

(** The sum wraps; [find] may give the end of the map. *)
Fixpoint sum_costs (l : list PDBPrimarySource) (tmp : Z) : MN Z :=
  match l with
  | [] => mret tmp
  | cst :: l =>
      c <- unwrap EndIteratorDeref (pageSetCosts !! source_pageSet (source cst)) ;;
      sum_costs l (u64 (tmp + c))
  end.
Definition getPrimarySourcesSize (n : PDBAbstractPhysicalNode) : MN Z := sum_costs (primarySources n) 0%Z.

(** [PDBJoinPhysicalNode::generateAlgorithm] *)
Definition join_generateAlgorithm (n : nat) : MN PDBPlanningResult :=
  me <- node_at n ;;
  _ <- assert (bool_decide (state me = PDBJoinPhysicalNodeNotProcessed)) ;;
  o <- unwrap NullDeref (otherSide me) ;;
  otherSidePtr <- node_at o ;;
  if bool_decide (state otherSidePtr = PDBJoinPhysicalNodeBroadcasted) then
    otherFinal <- back_of (pipeline otherSidePtr) ;;
    let additionalSource := mkSourceSpec BroadcastJoinSource (computationID me, getOutputName otherFinal) in
    _ <- update_node n (set_additional (fun l => l ++ [additionalSource])) ;;
    _ <- assert (bool_decide (length (consumers me) = 1)) ;;
    c <- front_of (consumers me) ;;
    generatePipelinedAlgorithm c n
  else
  final <- back_of (pipeline me) ;;
  let name := getOutputName final in
  cost <- getPrimarySourcesSize me ;;
  if bool_decide (cost < SHUFFLE_JOIN_THRASHOLD)%Z
     && bool_decide (state otherSidePtr = PDBJoinPhysicalNodeNotProcessed) then
    let sink := mkSinkSpec BroadcastJoinSink (computationID me, name) in
    let hashedToSend := mkSinkSpec BroadcastIntermediateJoinSink
                          (computationID me, name +:+ "_hashed_to_send") in
    let hashedToRecv := mkSourceSpec BroadcastIntermediateJoinSource
                          (computationID me, name +:+ "_hashed_to_recv") in
    _ <- update_node n (set_sink (true, sink)) ;;
    let algorithm := PDBPhysicalAlgorithm_new (BroadcastForJoin hashedToSend hashedToRecv)
                       (primarySources me) final sink (additionalSources me) [] in
    _ <- update_node n (set_state PDBJoinPhysicalNodeBroadcasted) ;;
    mret (mkResult GENERATED_ALGORITHM (Some algorithm) []
            (consumed_by (primarySources me) (additionalSources me)
               [sink_pageSet hashedToSend; source_pageSet hashedToRecv])
            [(sink_pageSet sink, 1%Z); (sink_pageSet hashedToSend, 1%Z);
             (source_pageSet hashedToRecv, 1%Z)])
  else
    let sink := mkSinkSpec JoinShuffleSink (computationID me, name) in
    let intermediate := mkSinkSpec JoinShuffleIntermediateSink
                          (computationID me, name +:+ "_to_shuffle") in
    _ <- update_node n (set_sink (true, sink)) ;;
    let algorithm := PDBPhysicalAlgorithm_new (ShuffleForJoin intermediate)
                       (primarySources me) final sink (additionalSources me) [] in
    _ <- update_node n (set_state PDBJoinPhysicalNodeShuffled) ;;
    otherSidePtr <- node_at o ;;
    let newSources := if bool_decide (state otherSidePtr = PDBJoinPhysicalNodeShuffled)
                      then consumers me else [] in
    mret (mkResult GENERATED_ALGORITHM (Some algorithm) newSources
            (consumed_by (primarySources me) (additionalSources me) [sink_pageSet intermediate])
            [(sink_pageSet sink, 1%Z); (sink_pageSet intermediate, 1%Z)]).
End planning.

(** The virtual call; [fuel] bounds how many nodes are pipelined into one
    another. *)
Fixpoint generateAlgorithm (circular : bool) (threshold : Z) (costs : PDBPageSetCosts) (fuel : nat)
    (n child : nat) : MN PDBPlanningResult :=
  match fuel with
  | 0 => fun _ => NoFuel
  | S fuel =>
      me <- node_at n ;;
      match nodeType me with
      | PDB_STRAIGHT_PIPELINE =>
          straight_generateAlgorithm (generateAlgorithm circular threshold costs fuel) n child
      | PDB_AGGREGATION_PIPELINE => aggregation_generateAlgorithm circular n
      | PDB_JOIN_SIDE_PIPELINE =>
          join_generateAlgorithm threshold costs (generateAlgorithm circular threshold costs fuel) n
      end
  end.

(** [generateAlgorithm (pageSetCosts)], which starts a pipeline at a node. *)
Definition generateAlgorithm_source (circular : bool) (threshold : Z) (costs : PDBPageSetCosts)
    (fuel : nat) (n : nat) : MN PDBPlanningResult :=
  me <- node_at n ;;
  src <-
    (if isJoining me then
       joinSources <- getJoinSources me costs ;;
       _ <- update_node n (set_additional (fun l => l ++ [joinSources.1.2])) ;;
       mret (joinSources.1.1, joinSources.2)
     else s <- getSourcePageSet me costs ;; mret (s, false)) ;;
  start <- front_of (pipeline me) ;;
  _ <- update_node n (set_primary (fun l => l ++ [mkPrimarySource start src.1 src.2])) ;;
  generateAlgorithm circular threshold costs fuel n n.
