(* ===== verification/PhysicalOptimizer.v ===== *)
(** The physical optimizer: the nodes are built from the logical plan
    (computationServer/{headers,sources}/physicalOptimizer/PDBPipeNodeBuilder.h
    and .cc), the algorithms are handed out one by one
    (PDBPhysicalOptimizer.h and .cc, PDBPhysicalOptimizerTemplate.cc,
    PDBOptimizerSource.cc), and the server runs them
    (PDBComputationServerFrontend.cc). *)

From stdpp Require Import pretty.
From S2P Require Import Prelude AtomicComputation AtomicComputationList TcapText PhysicalNodes.

(** ** Building the nodes *)

Record PDBPipeNodeBuilder := mkBuilder {
  currentNodeIndex : nat;
  visitedNodes : gset addr;
  currentPipe : list addr;
  joinPipes : list nat;
  physicalNodes : gmap string nat;
  physicalSourceNodes : list nat;
  startsWith : gmap string (list nat);
  consumedBy : gmap string (list string);
  atomicComps : PlanState;
  heap : nodes
}.

Definition PDBPipeNodeBuilder_new (computations : PlanState) : PDBPipeNodeBuilder :=
  mkBuilder 0 ∅ [] [] ∅ [] ∅ ∅ computations ∅.

Section builder.
Variable theComputationID : Z.

Abbreviation MB := (M PDBPipeNodeBuilder).

Definition set_currentPipe (l : list addr) (b : PDBPipeNodeBuilder) :=
  mkBuilder (currentNodeIndex b) (visitedNodes b) l (joinPipes b) (physicalNodes b)
    (physicalSourceNodes b) (startsWith b) (consumedBy b) (atomicComps b) (heap b).
Definition set_visited (f : gset addr -> gset addr) (b : PDBPipeNodeBuilder) :=
  mkBuilder (currentNodeIndex b) (f (visitedNodes b)) (currentPipe b) (joinPipes b) (physicalNodes b)
    (physicalSourceNodes b) (startsWith b) (consumedBy b) (atomicComps b) (heap b).
Definition set_consumedBy (f : gmap string (list string) -> gmap string (list string))
    (b : PDBPipeNodeBuilder) :=
  mkBuilder (currentNodeIndex b) (visitedNodes b) (currentPipe b) (joinPipes b) (physicalNodes b)
    (physicalSourceNodes b) (startsWith b) (f (consumedBy b)) (atomicComps b) (heap b).
Definition set_startsWith (f : gmap string (list nat) -> gmap string (list nat)) (b : PDBPipeNodeBuilder) :=
  mkBuilder (currentNodeIndex b) (visitedNodes b) (currentPipe b) (joinPipes b) (physicalNodes b)
    (physicalSourceNodes b) (f (startsWith b)) (consumedBy b) (atomicComps b) (heap b).
Definition set_heap (h : nodes) (b : PDBPipeNodeBuilder) :=
  mkBuilder (currentNodeIndex b) (visitedNodes b) (currentPipe b) (joinPipes b) (physicalNodes b)
    (physicalSourceNodes b) (startsWith b) (consumedBy b) (atomicComps b) h.
Definition set_atomicComps (p : PlanState) (b : PDBPipeNodeBuilder) :=
  mkBuilder (currentNodeIndex b) (visitedNodes b) (currentPipe b) (joinPipes b) (physicalNodes b)
    (physicalSourceNodes b) (startsWith b) (consumedBy b) p (heap b).

(** Calls into the list of computations and into the nodes. *)
Definition on_part {S T A} (get_part : S -> T) (set_part : T -> S -> S) (m : M T A) : M S A := fun s =>
  match m (get_part s) with
  | Ok a t => Ok a (set_part t s)
  | Raise e t => Raise e (set_part t s)
  | Exit t => Exit (set_part t s)
  | Fault f => Fault f
  | NoFuel => NoFuel
  end.
Definition on_comps {A} : M PlanState A -> MB A := on_part atomicComps set_atomicComps.
Definition on_heap {A} : MN A -> MB A := on_part heap set_heap.

Fixpoint deref_all (l : list addr) : MB (list AtomicComputation) :=
  match l with
  | [] => mret []
  | a :: l => c <- on_comps (deref (Some a)) ;; cs <- deref_all l ;; mret (c :: cs)
  end.

(** [std::string("node_") + std::to_string(id)] *)
Definition getNodeIdentifier (id : nat) : string := "node_" +:+ pretty (N.of_nat id).

Definition setConsumers (node : nat) : MB unit :=
  b <- get ;;
  last_ <- back_of (currentPipe b) ;;
  lastComp <- on_comps (deref (Some last_)) ;;
  consumingAtomicComputations <- on_comps (getConsumingAtomicComputations (getOutputName lastComp)) ;;
  match consumingAtomicComputations with
  | [] => mret tt
  | [c] =>
      comp <- on_comps (deref (Some c)) ;;
      modify (set_consumedBy <[getNodeIdentifier node := [getOutputName comp]]>)
  | _ => modify (set_consumedBy <[getNodeIdentifier node := [getOutputName lastComp]]>)
  end.

Definition createPhysicalPipeline (T : PDBPipelineType) : MB unit :=
  b <- get ;;
  _ <- assert (negb (bool_decide (currentPipe b = []))) ;;
  pipe <- deref_all (currentPipe b) ;;
  b <- get ;;
  let node := currentNodeIndex b in
  let new := PDBPhysicalNode_new T pipe theComputationID in
  _ <- put (mkBuilder (S node) (visitedNodes b) (currentPipe b) (joinPipes b) (physicalNodes b)
              (physicalSourceNodes b) (startsWith b) (consumedBy b) (atomicComps b)
              (<[node := new]> (heap b))) ;;
  _ <- setConsumers node ;;
  first <- front_of pipe ;;
  modify (fun b =>
    mkBuilder (currentNodeIndex b) (visitedNodes b) (currentPipe b)
      (if isJoining new then joinPipes b ++ [node] else joinPipes b)
      (<[getNodeIdentifier node := node]> (physicalNodes b))
      (if hasScanSet new then physicalSourceNodes b ++ [node] else physicalSourceNodes b)
      (<[getOutputName first := default [] (startsWith b !! getOutputName first) ++ [node]]> (startsWith b))
      (consumedBy b) (atomicComps b) (heap b)).

Definition clear_pipe : MB unit := modify (set_currentPipe []).
Definition push_pipe (l : list addr) : MB unit :=
  modify (fun b => set_currentPipe (currentPipe b ++ l) b).
(** [pop_back] of a vector that may be empty. *)
Definition pop_pipe : MB unit :=
  b <- get ;;
  match currentPipe b with
  | [] => ub OutOfRange
  | _ => put (set_currentPipe (removelast (currentPipe b)) b)
  end.

(** The pipeline breakers. *)
Definition break_pipe (curNode : addr) : MB unit :=
  c <- on_comps (deref (Some curNode)) ;;
  match getAtomicComputationTypeID c with
  | HashOneTypeID | HashLeftTypeID | HashRightTypeID =>
      _ <- createPhysicalPipeline PDB_JOIN_SIDE_PIPELINE ;; clear_pipe
  | ApplyAggTypeID =>
      _ <- pop_pipe ;;
      _ <- createPhysicalPipeline PDB_AGGREGATION_PIPELINE ;;
      _ <- clear_pipe ;; push_pipe [curNode]
  | UnionTypeID =>
      _ <- pop_pipe ;;
      _ <- createPhysicalPipeline PDB_STRAIGHT_PIPELINE ;;
      _ <- clear_pipe ;; push_pipe [curNode]
  | WriteSetTypeID =>
      _ <- createPhysicalPipeline PDB_STRAIGHT_PIPELINE ;; clear_pipe
  | _ => mret tt
  end.

(** What several consumers start from when the pipe is not empty. *)
Definition split_pipe (consumers : list addr) : MB (list addr) :=
  b <- get ;;
  if (1 <? length consumers) && negb (bool_decide (currentPipe b = [])) then
    moved <- back_of (currentPipe b) ;;
    first <- front_of (currentPipe b) ;;
    firstComp <- on_comps (deref (Some first)) ;;
    _ <- (if bool_decide (length (currentPipe b) = 1)
             && bool_decide (getAtomicComputationTypeID firstComp = ApplyAggTypeID)
          then clear_pipe
          else _ <- createPhysicalPipeline PDB_STRAIGHT_PIPELINE ;; clear_pipe) ;;
    mret [moved]
  else mret [].

Fixpoint transverseTCAPGraph (fuel : nat) (curNode : addr) : MB unit :=
  match fuel with
  | 0 => fun _ => NoFuel
  | S fuel =>
      b <- get ;;
      if bool_decide (curNode ∈ visitedNodes b) then
        _ <- pop_pipe ;;
        b <- get ;;
        _ <- (if bool_decide (currentPipe b = []) then mret tt
             else createPhysicalPipeline PDB_STRAIGHT_PIPELINE) ;;
        clear_pipe
      else
        _ <- modify (set_visited (fun v => {[curNode]} ∪ v)) ;;
        _ <- break_pipe curNode ;;
        c <- on_comps (deref (Some curNode)) ;;
        consumers <- on_comps (getConsumingAtomicComputations (getOutputName c)) ;;
        moveTheseOver <- split_pipe consumers ;;
        for_each consumers (fun consumer =>
          _ <- push_pipe (moveTheseOver ++ [consumer]) ;;
          transverseTCAPGraph fuel consumer)
  end.

(** [std::map<std::string, ...>] iterates in the order of the keys. *)
Definition nodes_in_order (m : gmap string nat) : list nat :=
  omap (fun k => m !! k) (merge_sort String.le (map fst (map_to_list m))).

(** [consumedBy[...]] and [startsWith[...]] insert what is missing. *)
Definition consumedBy_at (k : string) : MB (list string) :=
  b <- get ;;
  _ <- put (set_consumedBy <[k := default [] (consumedBy b !! k)]> b) ;;
  mret (default [] (consumedBy b !! k)).
Definition startsWith_at (k : string) : MB (list nat) :=
  b <- get ;;
  _ <- put (set_startsWith <[k := default [] (startsWith b !! k)]> b) ;;
  mret (default [] (startsWith b !! k)).

Definition connect_node (node : nat) : MB unit :=
  consumingAtomicComputation <- consumedBy_at (getNodeIdentifier node) ;;
  for_each consumingAtomicComputation (fun atomicComputation =>
    consumers <- startsWith_at atomicComputation ;;
    for_each consumers (fun consumer => on_heap (addConsumer node consumer))).

(** The cast of a side to a join node is not checked. *)
Definition set_other (side other : nat) : MN unit :=
  s <- node_at side ;;
  if bool_decide (nodeType s = PDB_JOIN_SIDE_PIPELINE) then update_node side (set_otherSide (Some other))
  else ub BadCast.

Definition connect_join (joinNode : nat) : MN unit :=
  n <- node_at joinNode ;;
  match producers n with
  | [joinSide1; joinSide2] =>
      _ <- set_other joinSide1 joinSide2 ;; set_other joinSide2 joinSide1
  | _ => throw (RuntimeError "There are not exactly two sides of a join pipe, something went wrong!")
  end.

Definition connectThePipes : MB unit :=
  b <- get ;;
  _ <- for_each (nodes_in_order (physicalNodes b)) connect_node ;;
  b <- get ;;
  for_each (joinPipes b) (fun joinNode => on_heap (connect_join joinNode)).

Definition generateAnalyzerGraph (fuel : nat) : MB (list nat) :=
  scanSets <- on_comps getAllScanSets ;;
  _ <- for_each scanSets (fun source =>
         c <- on_comps (deref (Some source)) ;;
         consumers <- on_comps (getConsumingAtomicComputations (getOutputName c)) ;;
         for_each consumers (fun consumer =>
           _ <- push_pipe [source] ;;
           _ <- push_pipe [consumer] ;;
           transverseTCAPGraph fuel consumer)) ;;
  _ <- connectThePipes ;;
  b <- get ;;
  mret (physicalSourceNodes b).
End builder.

(** ** The optimizer *)

Abbreviation OptimizerSource := (Z * nat)%type.

(** [OptimizerSourceComparator]: for equal sizes it answers whether the nodes
    differ. *)
Definition OptimizerSource_less (lhs rhs : OptimizerSource) : bool :=
  if bool_decide (lhs.1 <> rhs.1) then bool_decide (lhs.1 < rhs.1)%Z
  else negb (bool_decide (getNodeIdentifier lhs.2 = getNodeIdentifier rhs.2)).

(** Insertion into the [std::set] of sources.  The comparator is no strict weak
    order, so what the set does is up to its implementation: libstdc++ goes to
    the left of every element that the new one is less than, and so puts it in
    front of the sources of its size.  A source that is there already would be
    compared with itself, and is left to no meaning. *)
Definition insert_source (x : OptimizerSource) (l : list OptimizerSource)
    : option (list OptimizerSource) :=
  if bool_decide (x ∈ l) then None
  else Some ((fix ins l := match l with
                           | [] => [x]
                           | y :: l' => if OptimizerSource_less x y then x :: y :: l' else y :: ins l'
                           end) l).

Record PDBPhysicalOptimizer := mkOptimizer {
  optNodes : nodes;
  optSources : list OptimizerSource;
  processedSources : list OptimizerSource;
  pageSetCosts : PDBPageSetCosts;
  activePageSets : gmap PDBPageSetIdentifier Z;
  pageSetsToRemove : list PDBPageSetIdentifier
}.
Abbreviation MO := (M PDBPhysicalOptimizer).

Definition set_optNodes (ns : nodes) (o : PDBPhysicalOptimizer) :=
  mkOptimizer ns (optSources o) (processedSources o) (pageSetCosts o) (activePageSets o) (pageSetsToRemove o).
Definition on_nodes {A} : MN A -> MO A := on_part optNodes set_optNodes.

(** [activePageSets[id] += n] *)
Definition add_active (m : gmap PDBPageSetIdentifier Z) (new : PDBPageSetIdentifier * Z) :=
  <[new.1 := u64 (default 0%Z (m !! new.1) + new.2)]> m.
(** [if (find (id) != end ()) activePageSets[id]--] *)
Definition drop_active (m : gmap PDBPageSetIdentifier Z) (id : PDBPageSetIdentifier) :=
  match m !! id with
  | Some n => <[id := u64 (n - 1)]> m
  | None => m
  end.

(** The page sets without consumers, in the order of the map. *)
Definition unused_page_sets (m : gmap PDBPageSetIdentifier Z) : list PDBPageSetIdentifier :=
  merge_sort PageSetIdentifier_le
    (map fst (filter (fun x => x.2 = 0%Z) (map_to_list m))).

Section optimizer.
Variable circular : bool.
Variable SHUFFLE_JOIN_THRASHOLD : Z.

(** A node that has been built becomes a source of the size of its set. *)
Definition add_source (getSet : string -> string -> option Z) (source : nat) : MO unit :=
  n <- on_nodes (node_at source) ;;
  if negb (hasScanSet n) then
    throw (RuntimeError "There was a pipe at the beginning of the query plan without a scan set")
  else
  setIdentifier <- on_nodes (getSourceSet n) ;;
  match getSet setIdentifier.1 setIdentifier.2 with
  | None => throw (RuntimeError "Could not find the set I needed. ")
  | Some setSize =>
      o <- get ;;
      l <- unwrap InvalidComparator (insert_source (setSize, source) (optSources o)) ;;
      s <- on_nodes (getSourcePageSet n (pageSetCosts o)) ;;
      put (mkOptimizer (optNodes o) l (processedSources o)
             (<[source_pageSet s := setSize]> (pageSetCosts o)) (activePageSets o)
             (pageSetsToRemove o))
  end.

(** The constructor: [getSet] is the catalog's answer about the size of a set,
    [fuel] bounds the depth of the plan.  A TCAP that does not parse ends the
    process. *)
Definition PDBPhysicalOptimizer_new (computationID : Z) (tcapString : string) (fuel : nat)
    (getSet : string -> string -> option Z) : MO unit :=
  match compile_tcap tcapString empty_plan with
  | Ok _ myResult =>
      match generateAnalyzerGraph computationID fuel (PDBPipeNodeBuilder_new myResult) with
      | Ok sourcesVector b =>
          _ <- put (mkOptimizer (heap b) [] [] ∅ ∅ []) ;;
          for_each sourcesVector (add_source getSet)
      | Raise e _ => throw e
      | Exit _ => exit
      | Fault f => ub f
      | NoFuel => fun _ => NoFuel
      end
  | Raise e _ => throw e
  | Exit _ => exit
  | Fault f => ub f
  | NoFuel => fun _ => NoFuel
  end.
Definition no_optimizer : PDBPhysicalOptimizer := mkOptimizer ∅ [] [] ∅ ∅ [].

Definition hasAlgorithmToRun (o : PDBPhysicalOptimizer) : bool :=
  negb (bool_decide (optSources o = [])).

(** What the optimizer does with the result of planning a source. *)
Definition apply_result (source : OptimizerSource) (result : PDBPlanningResult) : MO unit :=
  (* the source that was used *)
  _ <- modify (fun o => mkOptimizer (optNodes o) (tail (optSources o)) (processedSources o ++ [source])
                 (pageSetCosts o) (activePageSets o) (pageSetsToRemove o)) ;;
  (* the consumers of the output become sources *)
  _ <- for_each (newSourceNodes result) (fun sourceNode =>
         o <- get ;;
         l <- unwrap InvalidComparator (insert_source (0%Z, sourceNode) (optSources o)) ;;
         put (mkOptimizer (optNodes o) l (processedSources o) (pageSetCosts o) (activePageSets o)
                (pageSetsToRemove o))) ;;
  modify (fun o =>
    let costs := foldl (fun m p => <[p.1 := 0%Z]> m) (pageSetCosts o) (newPageSets result) in
    let active := foldl drop_active (foldl add_active (activePageSets o) (newPageSets result))
                    (consumedPageSets result) in
    mkOptimizer (optNodes o) (optSources o) (processedSources o) costs
      (filter (fun x => x.2 <> 0%Z) active)
      (pageSetsToRemove o ++ unused_page_sets active)).

(** [fuel] bounds the rounds of the [do] loop, [depth] the pipelining. *)
Fixpoint getNextAlgorithm (fuel depth : nat) : MO (option PDBPhysicalAlgorithm) :=
  match fuel with
  | 0 => fun _ => NoFuel
  | S fuel =>
      o <- get ;;
      source <- unwrap EndIteratorDeref (head (optSources o)) ;;
      result <- on_nodes (generateAlgorithm_source circular SHUFFLE_JOIN_THRASHOLD (pageSetCosts o)
                            depth source.2) ;;
      _ <- apply_result source result ;;
      if bool_decide (resultType result = GENERATED_ALGORITHM) then mret (runMe result)
      else
        o <- get ;;
        if hasAlgorithmToRun o then getNextAlgorithm fuel depth else mret None
  end.

Definition updatePageSet (identifier : PDBPageSetIdentifier) (size : Z) : MO unit :=
  modify (fun o => mkOptimizer (optNodes o) (optSources o) (processedSources o)
            (<[identifier := size]> (pageSetCosts o)) (activePageSets o) (pageSetsToRemove o)).

Definition getPageSetsToRemove : MO (list PDBPageSetIdentifier) :=
  o <- get ;;
  _ <- put (mkOptimizer (optNodes o) (optSources o) (processedSources o)
              (foldl (fun m i => <[i := 0%Z]> m) (pageSetCosts o) (pageSetsToRemove o))
              (activePageSets o) []) ;;
  mret (pageSetsToRemove o).

(** A round of the server: the algorithm that runs and the page sets removed
    after it. *)
Record round := mkRound {
  algorithm : option PDBPhysicalAlgorithm;
  removed : list PDBPageSetIdentifier
}.

(** The loop of [PDBComputationServerFrontend] as long as every job succeeds.
    [stats i] are the sizes the optimizer is told after the [i]-th algorithm
    (the server tells it none, the interface allows any). *)
Fixpoint executeComputation (fuel depth : nat) (stats : nat -> list (PDBPageSetIdentifier * Z)) (i : nat)
    : MO (list round) :=
  match fuel with
  | 0 => fun _ => NoFuel
  | S fuel =>
      o <- get ;;
      if hasAlgorithmToRun o then
        alg <- getNextAlgorithm (S (length (optSources o))) depth ;;
        _ <- for_each (stats i) (fun s => updatePageSet s.1 s.2) ;;
        rem <- getPageSetsToRemove ;;
        rest <- executeComputation fuel depth stats (S i) ;;
        mret (mkRound alg rem :: rest)
      else mret []
  end.
End optimizer.
