(* ===== verification/PhysicalInv.v ===== *)
(** The graphs of nodes that planning is shown for, the invariant that holds
    while it goes on, and its two moves: planning reaches a node ([mark]), and
    the node it ends at produces a page set ([finish]).
    PDBAbstractPhysicalNode.h, PDBPhysicalOptimizer.h.

    [g] is the graph as built; [N] are the nodes at some time.  A node is done
    when planning has reached it, produced when its page set has a name, and
    dropped when an aggregation stores its set itself. *)

From S2P Require Import Prelude AtomicComputation PhysicalNodes PhysicalOptimizer.

(** ** Reading nodes *)

Definition no_node : PDBAbstractPhysicalNode := PDBPhysicalNode_new PDB_STRAIGHT_PIPELINE [] 0.
Definition nd (N : nodes) (i : nat) : PDBAbstractPhysicalNode := default no_node (N !! i).

Definition done (N : nodes) (i : nat) : Prop := primarySources (nd N i) <> [].
Definition produced (N : nodes) (i : nat) : Prop := (sinkPageSet (nd N i)).1 = true.
#[export] Instance done_dec N i : Decision (done N i).
Proof. unfold done. destruct (primarySources (nd N i)); [right; naive_solver|by left]. Defined.
#[export] Instance produced_dec N i : Decision (produced N i).
Proof. unfold produced. apply _. Defined.

Definition outputName (n : PDBAbstractPhysicalNode) : string :=
  match last (pipeline n) with Some c => getOutputName c | None => EmptyString end.
(** The names of the page sets that a node may create. *)
Definition names_of (n : PDBAbstractPhysicalNode) : list string :=
  let out := outputName n in
  match nodeType n with
  | PDB_STRAIGHT_PIPELINE => [out]
  | PDB_AGGREGATION_PIPELINE => [out; out +:+ "_hashed_to_send"; out +:+ "_hashed_to_recv"]
  | PDB_JOIN_SIDE_PIPELINE =>
      [out; out +:+ "_hashed_to_send"; out +:+ "_hashed_to_recv"; out +:+ "_to_shuffle"]
  end.
Definition all_names (g : nodes) : list string :=
  concat (map (fun x => names_of x.2) (map_to_list g)).
Definition scan_name (n : PDBAbstractPhysicalNode) : string :=
  match pipeline n with c :: _ => getOutputName c | [] => EmptyString end.

(** The set a pipeline ends in. *)
Definition write_of (n : PDBAbstractPhysicalNode) : option (string * string) :=
  match last (pipeline n) with
  | Some c => match kind c with KWriteSet dbName setName => Some (dbName, setName) | _ => None end
  | None => None
  end.

(** ** Well-formed graphs

    What the builder makes of a plan without unions: the links agree, there is
    no cycle, a join has its two sides, every chain ends in a set, and the
    page sets have names of their own. *)
Section wf.
Variables (cid : Z) (rank : nat -> nat) (g : nodes).

Definition side_ok (join side other : nat) : bool :=
  bool_decide (nodeType (nd g side) = PDB_JOIN_SIDE_PIPELINE) &&
  bool_decide (otherSide (nd g side) = Some other) &&
  bool_decide (consumers (nd g side) = [join]).

Definition producers_ok (i : nat) (n : PDBAbstractPhysicalNode) : bool :=
  if hasScanSet n then bool_decide (producers n = [])
  else match producers n with
       | [p] => negb (isJoining n) && negb (bool_decide (nodeType (nd g p) = PDB_JOIN_SIDE_PIPELINE))
       | [a; b] => isJoining n && side_ok i a b && side_ok i b a
       | _ => false
       end.

Definition consumers_ok (n : PDBAbstractPhysicalNode) : bool :=
  match nodeType n, consumers n with
  | PDB_JOIN_SIDE_PIPELINE, [c] => isJoining (nd g c)
  | PDB_JOIN_SIDE_PIPELINE, _ => false
  | _, _ => true
  end &&
  match write_of n with
  | Some _ => bool_decide (nodeType n = PDB_STRAIGHT_PIPELINE) && bool_decide (consumers n = [])
  | None => negb (bool_decide (nodeType n = PDB_STRAIGHT_PIPELINE) && bool_decide (consumers n = []))
  end.

Definition untouched (n : PDBAbstractPhysicalNode) : bool :=
  bool_decide (length (primarySources n) = 0) && bool_decide (length (additionalSources n) = 0) &&
  negb (sinkPageSet n).1 && bool_decide (state n = PDBJoinPhysicalNodeNotProcessed).

Definition wf_node (i : nat) (n : PDBAbstractPhysicalNode) : Prop :=
  computationID n = cid /\ pipeline n <> [] /\ NoDup (producers n) /\ NoDup (consumers n) /\
  Forall (fun c => is_Some (g !! c) /\ i ∈ producers (nd g c) /\ rank i < rank c) (consumers n) /\
  Forall (fun p => is_Some (g !! p) /\ i ∈ consumers (nd g p)) (producers n) /\
  isUnioning n = false /\ producers_ok i n = true /\ consumers_ok n = true /\ untouched n = true /\
  (hasScanSet n = true -> scan_name n ∉ all_names g).
#[export] Instance wf_node_dec i n : Decision (wf_node i n).
Proof. unfold wf_node. apply _. Defined.

Definition wf_graph : Prop :=
  map_Forall wf_node g /\ NoDup (all_names g) /\ (Z.of_nat (size g) < 2 ^ 64)%Z.
#[export] Instance wf_graph_dec : Decision wf_graph.
Proof. unfold wf_graph. apply _. Defined.

(** *** Consequences *)

Lemma nd_lookup N i n : N !! i = Some n -> nd N i = n.
Proof. unfold nd. by intros ->. Qed.
Lemma nd_dom N i : i ∈ dom N -> N !! i = Some (nd N i).
Proof. intros [n Hn]%elem_of_dom. by rewrite (nd_lookup _ _ _ Hn). Qed.

Hypothesis Hwf : wf_graph.

Lemma wf_at i : i ∈ dom g -> wf_node i (nd g i).
Proof. intros Hi. destruct Hwf as (Hn & _). apply (Hn i). by apply nd_dom. Qed.

Lemma wf_consumer i c : i ∈ dom g -> c ∈ consumers (nd g i) ->
  c ∈ dom g /\ i ∈ producers (nd g c) /\ rank i < rank c.
Proof.
  intros Hi Hc. destruct (wf_at i Hi) as (_ & _ & _ & _ & Hcs & _).
  rewrite Forall_forall in Hcs. destruct (Hcs c Hc) as ([n Hn] & ? & ?). split; [apply elem_of_dom; by exists n|done].
Qed.
Lemma wf_producer i p : i ∈ dom g -> p ∈ producers (nd g i) ->
  p ∈ dom g /\ i ∈ consumers (nd g p) /\ rank p < rank i.
Proof.
  intros Hi Hp. destruct (wf_at i Hi) as (_ & _ & _ & _ & _ & Hps & _).
  rewrite Forall_forall in Hps. destruct (Hps p Hp) as ([n Hn] & Hin).
  assert (Hd : p ∈ dom g) by (apply elem_of_dom; by exists n). destruct (wf_consumer p i Hd Hin) as (? & ? & ?). done.
Qed.

Lemma join_no_scan n : isJoining n = true -> hasScanSet n = false.
Proof.
  unfold isJoining, hasScanSet, front_is. destruct (pipeline n) as [|c l]; [done|].
  intros H%bool_decide_eq_true. apply bool_decide_eq_false. congruence.
Qed.

(** The two shapes of producers. *)
Lemma wf_join_sides i : i ∈ dom g -> isJoining (nd g i) = true ->
  exists a b, producers (nd g i) = [a; b] /\ a <> b /\
    (nodeType (nd g a) = PDB_JOIN_SIDE_PIPELINE /\ otherSide (nd g a) = Some b /\ consumers (nd g a) = [i]) /\
    (nodeType (nd g b) = PDB_JOIN_SIDE_PIPELINE /\ otherSide (nd g b) = Some a /\ consumers (nd g b) = [i]).
Proof.
  intros Hi Hj. destruct (wf_at i Hi) as (_ & _ & Hnd & _ & _ & _ & _ & Hp & _). unfold producers_ok in Hp.
  rewrite (join_no_scan _ Hj) in Hp.
  destruct (producers (nd g i)) as [|a [|b [|]]] eqn:Ep; try done.
  { rewrite Hj in Hp. done. }
  rewrite Hj in Hp. unfold side_ok in Hp.
  repeat (apply andb_prop in Hp as [Hp ?] || match goal with H : (_ && _)%bool = true |- _ => apply andb_prop in H as [? ?] end).
  repeat match goal with H : bool_decide _ = true |- _ => apply bool_decide_eq_true in H end.
  exists a, b. split; [done|]. split; [|by split].
  apply NoDup_cons in Hnd as [Hn _]. set_solver.
Qed.
Lemma wf_single_producer i : i ∈ dom g -> isJoining (nd g i) = false -> hasScanSet (nd g i) = false ->
  exists p, producers (nd g i) = [p] /\ nodeType (nd g p) <> PDB_JOIN_SIDE_PIPELINE.
Proof.
  intros Hi Hj Hs. destruct (wf_at i Hi) as (_ & _ & Hnd & _ & _ & _ & _ & Hp & _). unfold producers_ok in Hp.
  rewrite Hs in Hp. destruct (producers (nd g i)) as [|p [|b [|]]]; try done.
  - exists p. split; [done|]. apply andb_prop in Hp as [_ Hp]. by apply negb_true_iff, bool_decide_eq_false in Hp.
  - by rewrite Hj in Hp.
Qed.
Lemma wf_scan_producers i : i ∈ dom g -> hasScanSet (nd g i) = true -> producers (nd g i) = [].
Proof.
  intros Hi Hs. destruct (wf_at i Hi) as (_ & _ & Hnd & _ & _ & _ & _ & Hp & _). unfold producers_ok in Hp.
  rewrite Hs in Hp. by apply bool_decide_eq_true in Hp.
Qed.

(** A node that is no side of a join feeds nodes that are no joins. *)
Lemma wf_straight_consumer i c : i ∈ dom g -> nodeType (nd g i) <> PDB_JOIN_SIDE_PIPELINE ->
  c ∈ consumers (nd g i) -> producers (nd g c) = [i] /\ isJoining (nd g c) = false /\ hasScanSet (nd g c) = false.
Proof.
  intros Hi Ht Hc. destruct (wf_consumer i c Hi Hc) as (Hd & Hp & _).
  destruct (isJoining (nd g c)) eqn:Hj.
  { destruct (wf_join_sides c Hd Hj) as (a & b & Ep & _ & (Ha & _) & (Hb & _)). rewrite Ep in Hp. set_solver. }
  destruct (hasScanSet (nd g c)) eqn:Hs.
  { rewrite (wf_scan_producers c Hd Hs) in Hp. by apply elem_of_nil in Hp. }
  destruct (wf_single_producer c Hd Hj Hs) as (p & Ep & _). rewrite Ep in Hp |- *.
  apply list_elem_of_singleton in Hp as ->. done.
Qed.

(** A side of a join has the join as its only consumer, and another side. *)
Lemma wf_side i : i ∈ dom g -> nodeType (nd g i) = PDB_JOIN_SIDE_PIPELINE ->
  exists c o, consumers (nd g i) = [c] /\ isJoining (nd g c) = true /\ c ∈ dom g /\ otherSide (nd g i) = Some o /\
    o ∈ dom g /\ o <> i /\ nodeType (nd g o) = PDB_JOIN_SIDE_PIPELINE /\ otherSide (nd g o) = Some i /\
    consumers (nd g o) = [c] /\ (producers (nd g c) = [i; o] \/ producers (nd g c) = [o; i]).
Proof.
  intros Hi Ht. destruct (wf_at i Hi) as (_ & _ & _ & _ & _ & _ & _ & _ & Hc & _).
  unfold consumers_ok in Hc. rewrite Ht in Hc. apply andb_prop in Hc as [Hc _].
  destruct (consumers (nd g i)) as [|c [|]] eqn:Ec; try done.
  destruct (wf_consumer i c Hi) as (Hd & Hp & _); [rewrite Ec; set_solver|].
  destruct (wf_join_sides c Hd Hc) as (a & b & Ep & Hab & (Ta & Oa & Ca) & (Tb & Ob & Cb)).
  rewrite Ep in Hp. assert (Hdp : forall p, p ∈ producers (nd g c) -> p ∈ dom g).
  { intros p Hpp. by destruct (wf_producer c p Hd Hpp). }
  rewrite Ep in Hdp. apply elem_of_cons in Hp as [->|Hp].
  - exists c, b. naive_solver (set_solver).
  - apply list_elem_of_singleton in Hp as ->. exists c, a. naive_solver (set_solver).
Qed.

Lemma wf_write i x : i ∈ dom g -> write_of (nd g i) = Some x ->
  nodeType (nd g i) = PDB_STRAIGHT_PIPELINE /\ consumers (nd g i) = [].
Proof.
  intros Hi Hw. destruct (wf_at i Hi) as (_ & _ & _ & _ & _ & _ & _ & _ & Hc & _).
  unfold consumers_ok in Hc. rewrite Hw in Hc. apply andb_prop in Hc as [_ Hc].
  apply andb_prop in Hc as [H1 H2]. by apply bool_decide_eq_true in H1, H2.
Qed.
Lemma wf_end i : i ∈ dom g -> nodeType (nd g i) = PDB_STRAIGHT_PIPELINE -> consumers (nd g i) = [] ->
  is_Some (write_of (nd g i)).
Proof.
  intros Hi Ht Hn. destruct (wf_at i Hi) as (_ & _ & _ & _ & _ & _ & _ & _ & Hc & _).
  unfold consumers_ok in Hc. apply andb_prop in Hc as [_ Hc]. destruct (write_of _); [by eexists|].
  by rewrite Ht, Hn in Hc.
Qed.

(** *** Names *)

Lemma name_in i s : i ∈ dom g -> s ∈ names_of (nd g i) -> s ∈ all_names g.
Proof.
  intros Hi Hs. unfold all_names. apply list_elem_of_In, in_concat. exists (names_of (nd g i)).
  split; [|by apply list_elem_of_In]. apply in_map_iff. exists (i, nd g i). split; [done|].
  apply list_elem_of_In, elem_of_map_to_list. by apply nd_dom.
Qed.
Lemma outputName_in i : outputName (nd g i) ∈ names_of (nd g i).
Proof. unfold names_of. destruct (nodeType _); set_solver. Qed.

Lemma concat_owner {A} (f : A -> list string) (l : list A) x y s :
  NoDup (concat (map f l)) -> x ∈ l -> y ∈ l -> s ∈ f x -> s ∈ f y -> x = y.
Proof.
  induction l as [|z l IH]; simpl; intros Hnd Hx Hy Hsx Hsy; [set_solver|].
  apply NoDup_app in Hnd as (Hz & Hdis & Hl).
  assert (Hin : forall w, w ∈ l -> s ∈ f w -> s ∈ concat (map f l)).
  { intros w Hw Hs. apply list_elem_of_In, in_concat. exists (f w). split; [|by apply list_elem_of_In].
    apply in_map. by apply list_elem_of_In. }
  apply elem_of_cons in Hx as [->|Hx], Hy as [->|Hy]; [done| | |by apply IH].
  - exfalso. apply (Hdis s Hsx). by apply (Hin y).
  - exfalso. apply (Hdis s Hsy). by apply (Hin x).
Qed.
Lemma name_owner i j s : i ∈ dom g -> j ∈ dom g -> s ∈ names_of (nd g i) -> s ∈ names_of (nd g j) -> i = j.
Proof.
  intros Hi Hj Hsi Hsj. destruct Hwf as (_ & Hnd & _). unfold all_names in Hnd.
  enough ((i, nd g i) = (j, nd g j)) by congruence.
  eapply (concat_owner (fun x => names_of x.2) (map_to_list g)); [done| | |done|done];
    apply elem_of_map_to_list; by apply nd_dom.
Qed.
Lemma names_NoDup i : i ∈ dom g -> NoDup (names_of (nd g i)).
Proof.
  intros Hi. destruct Hwf as (_ & Hnd & _). unfold all_names in Hnd.
  assert (H : forall l, NoDup (concat (map (fun x : nat * PDBAbstractPhysicalNode => names_of x.2) l)) ->
    forall x, x ∈ l -> NoDup (names_of x.2)).
  { induction l as [|z l IH]; simpl; [set_solver|]. intros (Hz & _ & Hl)%NoDup_app x.
    intros [->|Hx]%elem_of_cons; [done|by apply IH]. }
  apply (H _ Hnd (i, nd g i)). apply elem_of_map_to_list. by apply nd_dom.
Qed.

(** The page set of a node, and of a scan. *)
Definition key (i : nat) : PDBPageSetIdentifier := (cid, outputName (nd g i)).
Definition scan_key (k : PDBPageSetIdentifier) : Prop :=
  exists i, i ∈ dom g /\ hasScanSet (nd g i) = true /\ k = (cid, scan_name (nd g i)).

Lemma key_inj i j : i ∈ dom g -> j ∈ dom g -> key i = key j -> i = j.
Proof.
  intros Hi Hj [=E]. eapply name_owner; [done|done|apply outputName_in|rewrite E; apply outputName_in].
Qed.
Lemma scan_not_name k i s : scan_key k -> i ∈ dom g -> s ∈ names_of (nd g i) -> k <> (cid, s).
Proof.
  intros (j & Hj & Hs & ->) Hi Hin [=E]. destruct (wf_at j Hj) as (_ & _ & _ & _ & _ & _ & _ & _ & _ & _ & H).
  apply (H Hs). rewrite E. by eapply name_in.
Qed.

Lemma consumers_small i : i ∈ dom g -> (Z.of_nat (length (consumers (nd g i))) < 2 ^ 64)%Z.
Proof.
  intros Hi. destruct Hwf as (_ & _ & Hs). enough (length (consumers (nd g i)) <= size g) by lia.
  destruct (wf_at i Hi) as (_ & _ & _ & Hnd & _). rewrite <- (size_list_to_set (C := gset nat)) by done.
  rewrite <- size_dom. apply subseteq_size. intros c Hc%elem_of_list_to_set. by destruct (wf_consumer i c Hi Hc).
Qed.
End wf.

(** ** Counting *)

Definition cnt {A} `{EqDecision A} (x : A) (l : list A) : nat := length (filter (fun y => y = x) l).
Lemma cnt_app {A} `{EqDecision A} (x : A) l1 l2 : cnt x (l1 ++ l2) = cnt x l1 + cnt x l2.
Proof. unfold cnt. by rewrite filter_app, length_app. Qed.
Lemma cnt_none {A} `{EqDecision A} (x : A) l : x ∉ l -> cnt x l = 0.
Proof. intros H. unfold cnt. rewrite filter_none; [done|]. intros y Hy ->. done. Qed.
Lemma cnt_NoDup {A} `{EqDecision A} (x : A) l : NoDup l -> x ∈ l -> cnt x l = 1.
Proof.
  induction 1 as [|y l Hy Hl IH]; intros Hx; [by apply elem_of_nil in Hx|]. unfold cnt in *.
  rewrite filter_cons. case_decide as E.
  - subst. simpl. f_equal. by apply (cnt_none x).
  - apply IH. set_solver.
Qed.
Lemma cnt_pos {A} `{EqDecision A} (x : A) l : 0 < cnt x l -> x ∈ l.
Proof. intros H. destruct (decide (x ∈ l)) as [|Hn]; [done|]. apply cnt_none in Hn. lia. Qed.
Lemma cnt_cons {A} `{EqDecision A} (x y : A) l : cnt x (y :: l) = (if decide (y = x) then 1 else 0) + cnt x l.
Proof. unfold cnt. rewrite filter_cons. by case_decide. Qed.
Lemma cnt_in {A} `{EqDecision A} (x : A) l : x ∈ l -> 0 < cnt x l.
Proof.
  induction l as [|y l IH]; intros Hx; [by apply elem_of_nil in Hx|]. rewrite cnt_cons.
  apply elem_of_cons in Hx as [->|Hx]; [rewrite decide_True by done; lia|]. apply IH in Hx. lia.
Qed.
#[export] Instance cnt_Permutation {A} `{EqDecision A} (x : A) : Proper ((≡ₚ) ==> (=)) (cnt x).
Proof. intros l1 l2 H. unfold cnt. by rewrite H. Qed.

Lemma filter_agree {A} (P Q : A -> Prop) `{!forall x, Decision (P x), !forall x, Decision (Q x)} (l : list A) :
  (forall x, x ∈ l -> P x <-> Q x) -> filter P l = filter Q l.
Proof.
  intros Hpq. induction l as [|x l IH]; [done|]. rewrite !filter_cons, IH by (intros y Hy; apply Hpq; by right).
  assert (Hx : P x <-> Q x) by (apply Hpq; by left). case_decide; case_decide; naive_solver.
Qed.

(** The number of a set of its own disappears from a list of counters. *)
Definition nonzero (n : nat) : option Z := match n with 0 => None | _ => Some (Z.of_nat n) end.

(** ** The counters of the active page sets *)

Lemma add_active_lookup new A k :
  NoDup (map fst new) -> (forall j, j ∈ map fst new -> A !! j = None) ->
  (forall p, p ∈ new -> 0 <= p.2 < 2 ^ 64)%Z ->
  (forall w, (k, w) ∈ new -> foldl add_active A new !! k = Some w) /\
  (k ∉ map fst new -> foldl add_active A new !! k = A !! k).
Proof.
  revert A. induction new as [|[j w] new IH]; simpl; intros A Hnd Hno Hsmall; [split; [set_solver|done]|].
  apply NoDup_cons in Hnd as [Hj Hnd].
  assert (Hadd : add_active A (j, w) = <[j := w]> A).
  { unfold add_active. simpl. rewrite (Hno j) by by left. simpl. f_equal. apply wrapu_small. apply (Hsmall (j, w)). by left. }
  destruct (IH (add_active A (j, w))) as [IH1 IH2]; [done| |intros p Hp; apply Hsmall; by right|].
  { intros l Hl. rewrite Hadd, lookup_insert_ne by (intros ->; done). apply Hno. by right. }
  split.
  - intros v [[=-> ->]|Hv]%elem_of_cons; [|by apply IH1]. rewrite IH2 by done. by rewrite Hadd, lookup_insert_eq.
  - intros [Hne Hk]%not_elem_of_cons. rewrite IH2, Hadd by done. by rewrite lookup_insert_ne.
Qed.

Lemma drop_active_lookup consumed A k :
  (A !! k = None -> foldl drop_active A consumed !! k = None) /\
  (forall v, A !! k = Some v -> (Z.of_nat (cnt k consumed) <= v < 2 ^ 64)%Z ->
     foldl drop_active A consumed !! k = Some (v - Z.of_nat (cnt k consumed))%Z).
Proof.
  revert A. induction consumed as [|j l IH]; intros A.
  { split; [done|]. intros v Hv _. simpl. rewrite Hv. f_equal. unfold cnt. simpl. lia. }
  cbn [foldl]. rewrite cnt_cons. destruct (IH (drop_active A j)) as [IH1 IH2].
  destruct (decide (j = k)) as [->|Hjk].
  - split.
    + intros Hk. apply IH1. unfold drop_active. by rewrite Hk.
    + intros v Hv Hle. rewrite (IH2 (v - 1)%Z); [f_equal; lia| |lia].
      unfold drop_active. rewrite Hv, lookup_insert_eq. f_equal. apply wrapu_small. lia.
  - assert (Hsame : drop_active A j !! k = A !! k).
    { unfold drop_active. destruct (A !! j); [by rewrite lookup_insert_ne|done]. }
    split; [intros Hk; apply IH1; by rewrite Hsame|intros v Hv Hle; apply IH2; [by rewrite Hsame|lia]].
Qed.

(** What [getNextAlgorithm] leaves of the counters. *)
Definition active_after (A : gmap PDBPageSetIdentifier Z) (r : PDBPlanningResult) : gmap PDBPageSetIdentifier Z :=
  foldl drop_active (foldl add_active A (newPageSets r)) (consumedPageSets r).
Definition kept (A : gmap PDBPageSetIdentifier Z) : gmap PDBPageSetIdentifier Z :=
  filter (fun x => x.2 <> 0%Z) A.

Lemma kept_lookup A k n : A !! k = Some (Z.of_nat n) -> kept A !! k = nonzero n.
Proof.
  intros H. unfold kept. destruct n as [|n]; simpl.
  - apply map_lookup_filter_None. right. intros x Hx. rewrite H in Hx. injection Hx as <-. by intros [].
  - apply map_lookup_filter_Some. split; [done|simpl; lia].
Qed.
Lemma kept_None A k : A !! k = None -> kept A !! k = None.
Proof. intros H. apply map_lookup_filter_None. by left. Qed.

Lemma elem_of_unused A k : k ∈ unused_page_sets A <-> A !! k = Some 0%Z.
Proof.
  unfold unused_page_sets. rewrite merge_sort_Permutation, list_elem_of_In, in_map_iff. split.
  - intros ([j v] & <- & Hin). apply list_elem_of_In, list_elem_of_filter in Hin as [Hz Hin].
    apply elem_of_map_to_list in Hin. simpl in *. by subst.
  - intros Hk. exists (k, 0%Z). split; [done|]. apply list_elem_of_In, list_elem_of_filter. split; [done|].
    by apply elem_of_map_to_list.
Qed.
Lemma unused_NoDup A : NoDup (unused_page_sets A).
Proof.
  unfold unused_page_sets. rewrite merge_sort_Permutation.
  apply (NoDup_fmap_2_strong fst).
  - intros [j v] [j' v'] [Hv _]%list_elem_of_filter [Hv' _]%list_elem_of_filter. simpl in *. congruence.
  - apply NoDup_filter, NoDup_map_to_list.
Qed.

(** ** The invariant *)
Section inv.
Variables (cid : Z) (rank : nat -> nat) (g : nodes).

Abbreviation key := (PhysicalInv.key cid g).
Abbreviation st N i := (state (nd N i)).

Definition reads (N : nodes) (i : nat) : list PDBPageSetIdentifier :=
  map (fun q => source_pageSet (source q)) (primarySources (nd N i)) ++
  map source_pageSet (additionalSources (nd N i)).
(** The page sets that the node being planned has taken over. *)
Definition flight_reads (F : option nat) (N : nodes) : list PDBPageSetIdentifier :=
  match F with Some n => reads N n | None => [] end.

(** The consumers that will still read the page set of a node. *)
Definition pend (N : nodes) (i : nat) : nat :=
  length (filter (fun c => ~ done N c) (consumers (nd N i))).

Definition shape (X : gset nat) (i : nat) (n0 n : PDBAbstractPhysicalNode) : Prop :=
  nodeType n = nodeType n0 /\ computationID n = computationID n0 /\ pipeline n = pipeline n0 /\
  otherSide n = otherSide n0 /\ consumers n = filter (fun c => c ∉ X) (consumers n0) /\
  producers n = if decide (i ∈ X) then [] else producers n0.

Definition sink_kind (n : PDBAbstractPhysicalNode) : PDBSinkType :=
  match nodeType n with
  | PDB_STRAIGHT_PIPELINE => SetSink
  | PDB_AGGREGATION_PIPELINE => AggregationSink
  | PDB_JOIN_SIDE_PIPELINE =>
      match state n with PDBJoinPhysicalNodeBroadcasted => BroadcastJoinSink | _ => JoinShuffleSink end
  end.

(** [F] is the node that is being planned, [X] are the dropped nodes, [S] the
    sources, [A] the active page sets. *)
Record Inv (F : option nat) (X : gset nat) (S : list nat) (A : gmap PDBPageSetIdentifier Z)
    (costs : PDBPageSetCosts) (N : nodes) : Prop := {
  inv_dom : dom N = dom g;
  inv_shape : forall i, i ∈ dom g -> shape X i (nd g i) (nd N i);
  inv_dropped : forall i, i ∈ X -> i ∈ dom g /\ is_Some (materialization (nd g i)) /\ ~ done N i /\
    forall p, p ∈ producers (nd g i) -> produced N p;
  inv_up : forall i p, i ∈ dom g -> done N i -> p ∈ producers (nd g i) -> done N p;
  inv_fresh : forall i, ~ done N i -> additionalSources (nd N i) = [] /\ ~ produced N i;
  inv_sink : forall i, i ∈ dom g -> produced N i ->
    (sinkPageSet (nd N i)).2 = mkSinkSpec (sink_kind (nd N i)) (key i);
  inv_state : forall i, nodeType (nd g i) <> PDB_JOIN_SIDE_PIPELINE ->
    st N i = PDBJoinPhysicalNodeNotProcessed;
  inv_through : forall i, i ∈ dom g -> done N i -> F <> Some i -> ~ produced N i ->
    exists c, consumers (nd g i) = [c] /\ done N c;
  inv_single : forall i c, i ∈ dom g -> nodeType (nd g i) = PDB_STRAIGHT_PIPELINE -> produced N i ->
    consumers (nd g i) <> [c];
  inv_join : forall i o, i ∈ dom g -> nodeType (nd g i) = PDB_JOIN_SIDE_PIPELINE ->
    otherSide (nd g i) = Some o ->
    (produced N i <-> st N i <> PDBJoinPhysicalNodeNotProcessed) /\
    (done N i -> F <> Some i -> st N i = PDBJoinPhysicalNodeNotProcessed ->
       st N o = PDBJoinPhysicalNodeBroadcasted) /\
    (st N i = PDBJoinPhysicalNodeBroadcasted -> st N o = PDBJoinPhysicalNodeNotProcessed);
  inv_flight : forall n, F = Some n -> n ∈ dom g /\ n ∉ X /\ done N n /\ ~ produced N n /\ n ∉ S /\
    (forall c, c ∈ consumers (nd g n) -> ~ done N c /\ c ∉ S /\ c ∉ X) /\
    (forall x, x ∈ reads N n -> scan_key cid g x \/ exists i, i ∈ dom g /\ produced N i /\ x = key i) /\
    (forall q, q ∈ primarySources (nd N n) -> is_Some (costs !! source_pageSet (source q)));
  inv_nodup : NoDup S;
  inv_sources : forall i, i ∈ S -> i ∈ dom g /\ i ∉ X /\ ~ done N i /\
    forall p, p ∈ producers (nd g i) -> produced N p /\ st N p <> PDBJoinPhysicalNodeBroadcasted;
  inv_ready : forall i, i ∈ dom g -> i ∉ X -> ~ done N i ->
    (forall p, p ∈ producers (nd g i) -> done N p /\ F <> Some p) -> i ∈ S;
  inv_active : forall i, i ∈ dom g -> produced N i ->
    A !! key i = nonzero (pend N i + cnt (key i) (flight_reads F N));
  inv_keys : forall k v, A !! k = Some v ->
    (v < 2 ^ 64)%Z /\ exists i, i ∈ dom g /\ produced N i /\ k = key i;
  inv_costs : (forall i, i ∈ dom g -> produced N i -> is_Some (costs !! key i)) /\
    (forall k, scan_key cid g k -> is_Some (costs !! k))
}.

Hypothesis Hwf : wf_graph cid rank g.

Section facts.
Context {F X S A costs N} (H : Inv F X S A costs N).

Lemma inv_nd i : i ∈ dom g -> N !! i = Some (nd N i).
Proof. intros Hi. apply nd_dom. by rewrite (inv_dom _ _ _ _ _ _ H). Qed.

Lemma produced_done i : produced N i -> done N i.
Proof. intros Hp. destruct (decide (done N i)) as [|Hn]; [done|]. by destruct (inv_fresh _ _ _ _ _ _ H i Hn). Qed.

(** The consumers of a node that was not reached have not been either. *)
Lemma consumers_waiting i c : i ∈ dom g -> ~ produced N i -> c ∈ consumers (nd g i) -> c ∉ S /\ c ∉ X.
Proof.
  intros Hi Hn Hc. destruct (wf_consumer cid rank g Hwf i c Hi Hc) as (_ & Hp & _). split; intros Hin.
  - destruct (inv_sources _ _ _ _ _ _ H c Hin) as (_ & _ & _ & Hps). by destruct (Hps i Hp).
  - destruct (inv_dropped _ _ _ _ _ _ H c Hin) as (_ & _ & _ & Hps). exact (Hn (Hps i Hp)).
Qed.
Lemma consumers_unreached i c : i ∈ dom g -> ~ done N i -> c ∈ consumers (nd g i) -> ~ done N c.
Proof.
  intros Hi Hn Hc Hd. destruct (wf_consumer cid rank g Hwf i c Hi Hc) as (Hcd & Hp & _).
  by apply Hn, (inv_up _ _ _ _ _ _ H c).
Qed.

Lemma flight_consumers n : F = Some n -> consumers (nd N n) = consumers (nd g n).
Proof.
  intros HF. destruct (inv_flight _ _ _ _ _ _ H n HF) as (Hn & _ & _ & _ & _ & Hc & _).
  destruct (inv_shape _ _ _ _ _ _ H n Hn) as (_ & _ & _ & _ & -> & _). apply filter_every. intros c Hin.
  by destruct (Hc c Hin) as (_ & _ & ?).
Qed.
End facts.

(** *** Planning reaches a node *)

(** What does not change when sources are handed on. *)
Definition same_node (n n' : PDBAbstractPhysicalNode) : Prop :=
  nodeType n' = nodeType n /\ computationID n' = computationID n /\ pipeline n' = pipeline n /\
  consumers n' = consumers n /\ producers n' = producers n /\ sinkPageSet n' = sinkPageSet n /\
  otherSide n' = otherSide n /\ state n' = state n.

Lemma pend_mark N N' s i :
  (forall j, same_node (nd N j) (nd N' j)) -> (forall j, done N' j <-> done N j \/ j = s) -> ~ done N s ->
  NoDup (consumers (nd N i)) ->
  pend N i = pend N' i + (if decide (s ∈ consumers (nd N i)) then 1 else 0).
Proof.
  intros Hsame Hdone Hs Hnd. unfold pend. destruct (Hsame i) as (_ & _ & _ & -> & _).
  induction Hnd as [|c l Hc Hl IH]; [done|]. rewrite !filter_cons.
  destruct (decide (c = s)) as [->|Hcs].
  - rewrite (decide_True _ _ Hs). rewrite decide_False by (intros Hn; apply Hn; rewrite Hdone; by right).
    rewrite decide_False in IH by done. rewrite decide_True by by left. simpl. lia.
  - assert (Hiff : done N' c <-> done N c) by (rewrite Hdone; naive_solver).
    assert (Hin : s ∈ c :: l <-> s ∈ l) by set_solver.
    destruct (decide (~ done N c)) as [Hd|Hd]; [rewrite (decide_True (P := ~ done N' c)) by (rewrite Hiff; done)
      |rewrite (decide_False (P := ~ done N' c)) by (rewrite Hiff; done)];
    destruct (decide (s ∈ l)); [rewrite decide_True by by rewrite Hin|rewrite decide_False by by rewrite Hin
      |rewrite decide_True by by rewrite Hin|rewrite decide_False by by rewrite Hin]; simpl; lia.
Qed.

Lemma cnt_keys (P : nat -> Prop) `{!forall x, Decision (P x)} l i : NoDup l -> i ∈ dom g -> (forall p, p ∈ l -> p ∈ dom g) -> P i ->
  cnt (key i) (map key (filter P l)) = if decide (i ∈ l) then 1 else 0.
Proof.
  intros Hnd Hi Hl HP. destruct (decide (i ∈ l)) as [Hin|Hn].
  - apply cnt_NoDup; [|apply list_elem_of_In, in_map, list_elem_of_In, list_elem_of_filter; done].
    apply NoDup_fmap_2_strong; [|by apply NoDup_filter].
    intros a b [_ Ha]%list_elem_of_filter [_ Hb]%list_elem_of_filter.
    apply (key_inj cid rank g Hwf); by apply Hl.
  - apply cnt_none. intros (j & E & Hj)%list_elem_of_In%in_map_iff.
    apply list_elem_of_In, list_elem_of_filter in Hj as [_ Hj].
    apply (key_inj cid rank g Hwf) in E; [by subst|by apply Hl|done].
Qed.

Lemma mark F X S A costs N N' s extra :
  Inv F X S A costs N -> s ∈ dom g -> ~ done N s -> s ∉ X ->
  (forall n, F = Some n -> consumers (nd g n) = [s]) ->
  (forall p, p ∈ producers (nd g s) -> done N p /\ (produced N p \/ F = Some p)) ->
  (forall n o, F = Some n -> nodeType (nd g n) = PDB_JOIN_SIDE_PIPELINE -> otherSide (nd g n) = Some o ->
     st N o = PDBJoinPhysicalNodeBroadcasted) ->
  dom N' = dom N -> (forall i, same_node (nd N i) (nd N' i)) ->
  (forall i, i <> s -> primarySources (nd N' i) = primarySources (nd N i)) ->
  (forall i, ~ done N' i -> additionalSources (nd N' i) = additionalSources (nd N i)) ->
  done N' s ->
  (forall x, x ∈ extra -> scan_key cid g x) ->
  reads N' s ≡ₚ flight_reads F N ++ extra ++ map key (filter (produced N) (producers (nd g s))) ->
  (forall q, q ∈ primarySources (nd N' s) -> is_Some (costs !! source_pageSet (source q))) ->
  Inv (Some s) X (filter (fun i => i <> s) S) A costs N'.
Proof.
  intros H Hs Hns HsX Hone Hps Hbro Hdom Hsame Hprim Hadd Hds Hextra Hreads Hcosts.
  assert (Hdone : forall i, done N' i <-> done N i \/ i = s).
  { intros i. unfold done. destruct (decide (i = s)) as [->|Hi]; [split; [by right|by intros _]|].
    rewrite (Hprim i Hi). naive_solver. }
  assert (Hprod : forall i, produced N' i <-> produced N i).
  { intros i. unfold produced. by destruct (Hsame i) as (_ & _ & _ & _ & _ & -> & _). }
  assert (Hst : forall i, st N' i = st N i) by (intros i; by destruct (Hsame i) as (_ & _ & _ & _ & _ & _ & _ & ->)).
  assert (Hnps : ~ produced N s) by by destruct (inv_fresh _ _ _ _ _ _ H s Hns).
  assert (HsF : F <> Some s).
  { intros E. by destruct (inv_flight _ _ _ _ _ _ H s E) as (_ & _ & ? & _). }
  assert (Hfl : forall n, F = Some n -> s ∈ consumers (nd g n)) by (intros n E; rewrite (Hone n E); set_solver).
  split.
  - by rewrite Hdom, (inv_dom _ _ _ _ _ _ H).
  - intros i Hi. destruct (Hsame i) as (E1 & E2 & E3 & E4 & E5 & _ & E6 & _). unfold shape.
    rewrite E1, E2, E3, E4, E5, E6. by apply (inv_shape _ _ _ _ _ _ H).
  - intros i Hi. destruct (inv_dropped _ _ _ _ _ _ H i Hi) as (? & ? & Hnd & Hp). split_and!; [done|done| |].
    + rewrite Hdone. intros [?| ->]; done.
    + intros p Hpp. apply Hprod. by apply Hp.
  - intros i p Hi Hd Hp. rewrite Hdone in Hd |- *. destruct Hd as [Hd| ->]; left.
    + by apply (inv_up _ _ _ _ _ _ H i).
    + by apply Hps.
  - intros i Hn. rewrite Hprod, (Hadd i Hn). apply (inv_fresh _ _ _ _ _ _ H). rewrite Hdone in Hn. naive_solver.
  - intros i Hi Hp%Hprod. destruct (Hsame i) as (E1 & _ & _ & _ & _ & -> & _ & E8).
    unfold sink_kind. rewrite E1, E8. by apply (inv_sink _ _ _ _ _ _ H).
  - intros i Ht. rewrite Hst. by apply (inv_state _ _ _ _ _ _ H).
  - intros i Hi Hd HF Hnp. rewrite Hprod in Hnp. rewrite Hdone in Hd. destruct Hd as [Hd| ->]; [|done].
    destruct (decide (F = Some i)) as [E|E].
    + exists s. rewrite (Hone i E), Hdone. by split; [|right].
    + destruct (inv_through _ _ _ _ _ _ H i Hi Hd E Hnp) as (c & ? & ?). exists c. rewrite Hdone. by split; [|left].
  - intros i c Hi Ht Hp%Hprod. by apply (inv_single _ _ _ _ _ _ H).
  - intros i o Hi Ht Ho. rewrite Hprod, !Hst. destruct (inv_join _ _ _ _ _ _ H i o Hi Ht Ho) as (J1 & J2 & J3).
    split; [done|]. split; [|done]. intros Hd HF Hsti. rewrite Hdone in Hd. destruct Hd as [Hd| ->]; [|done].
    destruct (decide (F = Some i)) as [E|E]; [by apply (Hbro i o)|by apply J2].
  - intros n [=<-]. split; [done|]. split; [done|]. split; [done|]. split; [by rewrite Hprod|].
    split; [intros [? _]%list_elem_of_filter; done|]. split; [|split; [|done]].
    + intros c Hc. destruct (consumers_waiting H s c Hs Hnps Hc) as [? ?].
      split; [|split; [intros [_ ?]%list_elem_of_filter; done|done]]. rewrite Hdone. intros [Hd| ->].
      * by apply (consumers_unreached H s c).
      * destruct (wf_consumer cid rank g Hwf s s Hs Hc) as (_ & _ & Hr). lia.
    + intros x Hx. rewrite Hreads in Hx. rewrite !elem_of_app in Hx. destruct Hx as [Hx|[Hx|Hx]].
      * destruct F as [m|]; [|by apply elem_of_nil in Hx].
        destruct (inv_flight _ _ _ _ _ _ H m eq_refl) as (_ & _ & _ & _ & _ & _ & Hr & _).
        destruct (Hr x Hx) as [?|(i & ? & ? & ?)]; [by left|right; exists i; by rewrite Hprod].
      * left. by apply Hextra.
      * right. apply list_elem_of_In, in_map_iff in Hx as (i & <- & Hi).
        apply list_elem_of_In, list_elem_of_filter in Hi as [Hpi Hi]. exists i. rewrite Hprod.
        split; [by destruct (wf_producer cid rank g Hwf s i Hs Hi)|done].
  - apply NoDup_filter, (inv_nodup _ _ _ _ _ _ H).
  - intros i [Hne Hi]%list_elem_of_filter. destruct (inv_sources _ _ _ _ _ _ H i Hi) as (? & ? & ? & Hp).
    split_and!; [done|done|rewrite Hdone; naive_solver|]. intros p Hpp. rewrite Hprod, Hst. by apply Hp.
  - intros i Hi HX Hn Hall. rewrite Hdone in Hn. apply list_elem_of_filter. split; [naive_solver|].
    apply (inv_ready _ _ _ _ _ _ H); [done|done|naive_solver|]. intros p Hp. destruct (Hall p Hp) as [Hd Hne].
    rewrite Hdone in Hd. destruct Hd as [Hd| ->]; [|done]. split; [done|]. intros E.
    destruct (wf_producer cid rank g Hwf i p Hi Hp) as (_ & Hc & _). rewrite (Hone p E) in Hc.
    apply list_elem_of_singleton in Hc. naive_solver.
  - intros i Hi Hp%Hprod. rewrite (inv_active _ _ _ _ _ _ H i Hi Hp). f_equal. simpl.
    rewrite Hreads, !cnt_app.
    assert (Hcons : consumers (nd N i) = filter (fun c => c ∉ X) (consumers (nd g i)))
      by by destruct (inv_shape _ _ _ _ _ _ H i Hi) as (_ & _ & _ & _ & ? & _).
    rewrite (pend_mark N N' s i Hsame Hdone Hns).
    2:{ rewrite Hcons. apply NoDup_filter. by destruct (wf_at cid rank g Hwf i Hi) as (_ & _ & _ & ? & _). }
    rewrite (cnt_none (key i) extra).
    2:{ intros Hx. eapply (scan_not_name cid rank g Hwf _ i (outputName (nd g i))); [by apply Hextra|done|apply (outputName_in cid rank g Hwf)|done]. }
    rewrite cnt_keys; [|by destruct (wf_at cid rank g Hwf s Hs) as (_ & _ & ? & _)|done| |done].
    2:{ intros p Hpp. by destruct (wf_producer cid rank g Hwf s p Hs Hpp). }
    assert (Hiff : s ∈ consumers (nd N i) <-> i ∈ producers (nd g s)).
    { rewrite Hcons, list_elem_of_filter. split.
      - intros [_ Hc]. by destruct (wf_consumer cid rank g Hwf i s Hi Hc) as (_ & ? & _).
      - intros Hc. by destruct (wf_producer cid rank g Hwf s i Hs Hc) as (_ & ? & _). }
    destruct (decide (i ∈ producers (nd g s))); [rewrite decide_True by by apply Hiff|rewrite decide_False by by rewrite Hiff]; lia.
  - intros k v Hk. destruct (inv_keys _ _ _ _ _ _ H k v Hk) as (? & i & ? & ? & ?).
    split; [done|]. exists i. by rewrite Hprod.
  - destruct (inv_costs _ _ _ _ _ _ H) as [Hc1 Hc2]. split; [|done]. intros i Hi Hp%Hprod. by apply Hc1.
Qed.

(** *** The node that planning ends at produces a page set *)

Record finished (X D : gset nat) (N N' : nodes) (e : nat) : Prop := {
  fin_dom : dom N' = dom N;
  fin_other : forall i, i <> e ->
    nodeType (nd N' i) = nodeType (nd N i) /\ computationID (nd N' i) = computationID (nd N i) /\
    pipeline (nd N' i) = pipeline (nd N i) /\ consumers (nd N' i) = consumers (nd N i) /\
    producers (nd N' i) = (if decide (i ∈ D) then [] else producers (nd N i)) /\
    sinkPageSet (nd N' i) = sinkPageSet (nd N i) /\ otherSide (nd N' i) = otherSide (nd N i) /\
    state (nd N' i) = state (nd N i) /\ primarySources (nd N' i) = primarySources (nd N i) /\
    additionalSources (nd N' i) = additionalSources (nd N i);
  fin_node : nodeType (nd N' e) = nodeType (nd N e) /\ computationID (nd N' e) = computationID (nd N e) /\
    pipeline (nd N' e) = pipeline (nd N e) /\ otherSide (nd N' e) = otherSide (nd N e) /\
    primarySources (nd N' e) = primarySources (nd N e) /\ producers (nd N' e) = producers (nd N e) /\
    consumers (nd N' e) = filter (fun c => c ∉ D) (consumers (nd N e));
  fin_sink : sinkPageSet (nd N' e) = (true, mkSinkSpec (sink_kind (nd N' e)) (key e));
  fin_D : forall d, d ∈ D -> d ∈ consumers (nd g e) /\ is_Some (materialization (nd g d)) /\
    nodeType (nd g e) <> PDB_JOIN_SIDE_PIPELINE;
  fin_plain : nodeType (nd g e) <> PDB_JOIN_SIDE_PIPELINE -> st N' e = PDBJoinPhysicalNodeNotProcessed;
  fin_join : forall o, nodeType (nd g e) = PDB_JOIN_SIDE_PIPELINE -> otherSide (nd g e) = Some o ->
    st N' e <> PDBJoinPhysicalNodeNotProcessed /\ st N o <> PDBJoinPhysicalNodeBroadcasted /\
    (st N' e = PDBJoinPhysicalNodeBroadcasted -> st N o = PDBJoinPhysicalNodeNotProcessed);
  fin_single : forall c, nodeType (nd g e) = PDB_STRAIGHT_PIPELINE -> consumers (nd g e) <> [c]
}.

Section finish.
Context {X D S A costs N N' e} (H : Inv (Some e) X S A costs N) (Hf : finished X D N N' e).

Lemma fin_flight : e ∈ dom g /\ e ∉ X /\ done N e /\ ~ produced N e /\ e ∉ S /\
  forall c, c ∈ consumers (nd g e) -> ~ done N c /\ c ∉ S /\ c ∉ X.
Proof. by destruct (inv_flight _ _ _ _ _ _ H e eq_refl) as (? & ? & ? & ? & ? & ? & _). Qed.

Lemma fin_notD : e ∉ D.
Proof.
  destruct fin_flight as (He & _). intros Hd. destruct (fin_D _ _ _ _ _ Hf e Hd) as (Hc & _).
  destruct (wf_consumer cid rank g Hwf e e He Hc) as (_ & _ & ?). lia.
Qed.
Lemma fin_done i : done N' i <-> done N i.
Proof.
  unfold done. destruct (decide (i = e)) as [->|Hi].
  - by destruct (fin_node _ _ _ _ _ Hf) as (_ & _ & _ & _ & -> & _).
  - by destruct (fin_other _ _ _ _ _ Hf i Hi) as (_ & _ & _ & _ & _ & _ & _ & _ & -> & _).
Qed.
Lemma fin_produced i : produced N' i <-> produced N i \/ i = e.
Proof.
  unfold produced. destruct (decide (i = e)) as [->|Hi].
  - rewrite (fin_sink _ _ _ _ _ Hf). simpl. split; [by right|done].
  - destruct (fin_other _ _ _ _ _ Hf i Hi) as (_ & _ & _ & _ & _ & -> & _). naive_solver.
Qed.
Lemma fin_st i : i <> e -> st N' i = st N i.
Proof. intros Hi. by destruct (fin_other _ _ _ _ _ Hf i Hi) as (_ & _ & _ & _ & _ & _ & _ & -> & _). Qed.

Lemma fin_pend i : i <> e -> pend N' i = pend N i.
Proof.
  intros Hi. unfold pend. destruct (fin_other _ _ _ _ _ Hf i Hi) as (_ & _ & _ & -> & _). f_equal.
  apply list_filter_iff. intros c. by rewrite fin_done.
Qed.
Lemma fin_pend_self : pend N' e = length (consumers (nd N' e)).
Proof.
  unfold pend. f_equal. apply filter_every. intros c Hc. rewrite fin_done.
  destruct (fin_node _ _ _ _ _ Hf) as (_ & _ & _ & _ & _ & _ & E). rewrite E in Hc.
  apply list_elem_of_filter in Hc as [_ Hc]. rewrite (flight_consumers H e eq_refl) in Hc.
  by apply fin_flight.
Qed.
Lemma fin_consumers : consumers (nd N' e) = filter (fun c => c ∉ D) (consumers (nd g e)).
Proof.
  destruct (fin_node _ _ _ _ _ Hf) as (_ & _ & _ & _ & _ & _ & ->).
  by rewrite (flight_consumers H e eq_refl).
Qed.

(** Everything but the sources and the counters. *)
Lemma fin_shape i : i ∈ dom g -> shape (X ∪ D) i (nd g i) (nd N' i).
Proof.
  intros Hi. destruct (inv_shape _ _ _ _ _ _ H i Hi) as (E1 & E2 & E3 & E4 & E5 & E6).
  destruct fin_flight as (He & HeX & _ & _ & _ & Hec). unfold shape. destruct (decide (i = e)) as [->|Hie].
  - destruct (fin_node _ _ _ _ _ Hf) as (-> & -> & -> & -> & _ & -> & _).
    rewrite fin_consumers, E6. split_and!; [done|done|done|done| |].
    + apply filter_agree. intros c Hc. destruct (Hec c Hc) as (_ & _ & ?). set_solver.
    + rewrite !decide_False; [done|by apply not_elem_of_union; split; [|apply fin_notD]|done].
  - destruct (fin_other _ _ _ _ _ Hf i Hie) as (-> & -> & -> & -> & -> & _ & -> & _).
    split_and!; [done|done|done|done| |].
    + rewrite E5. apply filter_agree. intros c Hc. rewrite not_elem_of_union.
      split; [|by intros []]. intros HcX. split; [done|]. intros HcD.
      destruct (fin_D _ _ _ _ _ Hf c HcD) as (HcE & _ & Ht).
      destruct (wf_straight_consumer cid rank g Hwf e c He Ht HcE) as (Ep & _).
      destruct (wf_consumer cid rank g Hwf i c Hi Hc) as (_ & Hp & _). rewrite Ep in Hp.
      by apply list_elem_of_singleton in Hp.
    + rewrite E6. destruct (decide (i ∈ D)); [by rewrite decide_True by set_solver|].
      destruct (decide (i ∈ X)); [by rewrite decide_True by set_solver|by rewrite decide_False by set_solver].
Qed.

(** *** The counters after it *)
Context {r : PDBPlanningResult} {x : nat} {temps : list PDBPageSetIdentifier}.
Hypothesis Hnew : newPageSets r =
  (key e, Z.of_nat (length (consumers (nd N' e)) + x)) :: map (fun t => (t, 1%Z)) temps.
Hypothesis Hconsumed : consumedPageSets r ≡ₚ reads N e ++ temps ++ replicate x (key e).
Hypothesis Hx : x <= 1 /\ (x = 1 -> consumers (nd N' e) = []).
Hypothesis Htemps : NoDup temps /\ forall t, t ∈ temps ->
  exists s, t = (cid, s) /\ s ∈ names_of (nd g e) /\ s <> outputName (nd g e).

Lemma temp_set_new t : t ∈ temps -> forall i, i ∈ dom g -> t <> key i.
Proof.
  intros Ht i Hi E. destruct fin_flight as (He & _). destruct Htemps as (_ & Hts).
  destruct (Hts t Ht) as (s & -> & Hs & Hne). injection E as ->.
  assert (i = e) as ->; [|done].
  eapply (name_owner cid rank g Hwf); [done|done|apply (outputName_in cid rank g Hwf)|done].
Qed.
Lemma new_keys : map fst (newPageSets r) = key e :: temps.
Proof. rewrite Hnew. simpl. f_equal. rewrite map_map. simpl. apply map_id. Qed.
Lemma new_keys_NoDup : NoDup (map fst (newPageSets r)).
Proof.
  rewrite new_keys. destruct fin_flight as (He & _). destruct Htemps as [Hnd _].
  apply NoDup_cons. split; [|done]. intros Hin. by apply (temp_set_new (key e) Hin e).
Qed.
Lemma new_keys_fresh k : k ∈ map fst (newPageSets r) -> A !! k = None.
Proof.
  rewrite new_keys. intros Hk. destruct fin_flight as (He & _ & _ & Hnp & _).
  destruct (A !! k) as [v|] eqn:E; [|done]. destruct (inv_keys _ _ _ _ _ _ H k v E) as (_ & i & Hi & Hp & ->).
  apply elem_of_cons in Hk as [Hk|Hk].
  - apply (key_inj cid rank g Hwf) in Hk; [by subst|done|done].
  - by destruct (temp_set_new _ Hk i Hi).
Qed.
Lemma new_small p : p ∈ newPageSets r -> (0 <= p.2 < 2 ^ 64)%Z.
Proof.
  rewrite Hnew. destruct fin_flight as (He & _). intros [->|Hp]%elem_of_cons.
  - simpl. assert (Hle : length (consumers (nd N' e)) <= length (consumers (nd g e))).
    { rewrite fin_consumers. apply length_filter. }
    destruct (decide (x = 0)) as [->|Hx0]; [|destruct Hx as [Hx1 Hx2]; rewrite Hx2 by lia; simpl; lia].
    pose proof (consumers_small cid rank g Hwf e He). lia.
  - apply list_elem_of_In, in_map_iff in Hp as (t & <- & _). simpl. lia.
Qed.

Lemma reads_cnt_temp t : t ∈ temps -> cnt t (reads N e) = 0.
Proof.
  intros Ht. apply cnt_none. intros Hin. destruct (inv_flight _ _ _ _ _ _ H e eq_refl) as (He & _ & _ & _ & _ & _ & Hr & _).
  destruct (Hr t Hin) as [Hs|(i & Hi & _ & E)]; [|by apply (temp_set_new t Ht i Hi)].
  destruct Htemps as (_ & Hts). destruct (Hts t Ht) as (s & -> & Hsn & _).
  by apply (scan_not_name cid rank g Hwf (cid, s) e s).
Qed.
Lemma reads_cnt_self : cnt (key e) (reads N e) = 0.
Proof.
  apply cnt_none. intros Hin. destruct (inv_flight _ _ _ _ _ _ H e eq_refl) as (He & _ & _ & Hnp & _ & _ & Hr & _).
  destruct (Hr _ Hin) as [Hs|(i & Hi & Hp & E)].
  - by apply (scan_not_name cid rank g Hwf _ e _ Hs He (outputName_in cid rank g Hwf e)).
  - apply (key_inj cid rank g Hwf) in E; [by subst|done|done].
Qed.

Lemma after_other i : i ∈ dom g -> produced N i -> kept (active_after A r) !! key i = nonzero (pend N i).
Proof.
  intros Hi Hp. destruct fin_flight as (He & _ & _ & Hnp & _).
  assert (Hie : i <> e) by (intros ->; done).
  assert (Hc : cnt (key i) (consumedPageSets r) = cnt (key i) (reads N e)).
  { rewrite Hconsumed, !cnt_app, (cnt_none _ temps), (cnt_none _ (replicate _ _)); [lia| |].
    - intros Hin. apply elem_of_replicate in Hin as [E _]. by apply (key_inj cid rank g Hwf) in E.
    - intros Ht. by apply (temp_set_new _ Ht i Hi). }
  destruct (add_active_lookup (newPageSets r) A (key i) new_keys_NoDup new_keys_fresh new_small) as [_ Hadd].
  rewrite (inv_active _ _ _ _ _ _ H i Hi Hp) in Hadd. simpl in Hadd.
  destruct (drop_active_lookup (consumedPageSets r) (foldl add_active A (newPageSets r)) (key i)) as [HN HS].
  assert (Hadd' : foldl add_active A (newPageSets r) !! key i = nonzero (pend N i + cnt (key i) (reads N e))).
  { apply Hadd. rewrite new_keys. intros [E|Ht]%elem_of_cons.
    - by apply (key_inj cid rank g Hwf) in E.
    - by apply (temp_set_new _ Ht i Hi). }
  destruct (pend N i + cnt (key i) (reads N e)) as [|n] eqn:En.
  - replace (pend N i) with 0 by lia. apply kept_None, HN. by rewrite Hadd'.
  - apply kept_lookup. unfold active_after. rewrite (HS (Z.of_nat (1 + n))); [f_equal; lia|done|].
    rewrite Hc. split; [lia|].
    assert (HA : A !! key i = Some (Z.of_nat (1 + n))).
    { rewrite (inv_active _ _ _ _ _ _ H i Hi Hp). simpl. by rewrite En. }
    by destruct (inv_keys _ _ _ _ _ _ H _ _ HA) as [? _].
Qed.

Lemma after_self : kept (active_after A r) !! key e = nonzero (pend N' e).
Proof.
  apply kept_lookup. rewrite fin_pend_self.
  destruct (add_active_lookup (newPageSets r) A (key e) new_keys_NoDup new_keys_fresh new_small) as [Hadd _].
  assert (Hin : (key e, Z.of_nat (length (consumers (nd N' e)) + x)) ∈ newPageSets r) by (rewrite Hnew; by left).
  specialize (Hadd _ Hin). pose proof (new_small _ Hin) as Hs. simpl in Hs.
  destruct (drop_active_lookup (consumedPageSets r) (foldl add_active A (newPageSets r)) (key e)) as [_ HS].
  assert (Hc : cnt (key e) (consumedPageSets r) = x).
  { rewrite Hconsumed, !cnt_app, reads_cnt_self, (cnt_none _ temps).
    - simpl. unfold cnt. rewrite filter_every; [by rewrite length_replicate|].
      intros y Hy. by apply elem_of_replicate in Hy as [-> _].
    - destruct fin_flight as (He & _). intros Ht. by apply (temp_set_new _ Ht e He). }
  unfold active_after. rewrite (HS _ Hadd); [f_equal; lia|lia].
Qed.

Lemma after_temp t : t ∈ temps -> active_after A r !! t = Some 0%Z.
Proof.
  intros Ht. destruct (add_active_lookup (newPageSets r) A t new_keys_NoDup new_keys_fresh new_small) as [Hadd _].
  assert (Hin : (t, 1%Z) ∈ newPageSets r).
  { rewrite Hnew. right. apply list_elem_of_In, in_map_iff. exists t. split; [done|by apply list_elem_of_In]. }
  specialize (Hadd _ Hin).
  destruct (drop_active_lookup (consumedPageSets r) (foldl add_active A (newPageSets r)) t) as [_ HS].
  assert (Hc : cnt t (consumedPageSets r) = 1).
  { destruct Htemps as [Hnd _]. rewrite Hconsumed, !cnt_app, reads_cnt_temp, (cnt_NoDup _ temps), (cnt_none _ (replicate _ _)); [lia| |done|done|done].
    intros Hr. apply elem_of_replicate in Hr as [-> _]. destruct fin_flight as (He & _). by apply (temp_set_new _ Ht e He). }
  unfold active_after. rewrite (HS _ Hadd); [f_equal; lia|lia].
Qed.

Lemma after_keys k v : kept (active_after A r) !! k = Some v ->
  (v < 2 ^ 64)%Z /\ exists i, i ∈ dom g /\ produced N' i /\ k = key i.
Proof.
  intros Hk. destruct fin_flight as (He & _).
  pose proof Hk as [HA Hv]%map_lookup_filter_Some. simpl in Hv.
  destruct (decide (k ∈ map fst (newPageSets r))) as [Hin|Hn].
  - rewrite new_keys in Hin. apply elem_of_cons in Hin as [->|Ht].
    + split; [|exists e; rewrite fin_produced; naive_solver]. rewrite after_self in Hk.
      rewrite fin_pend_self in Hk.
      assert (Hin : (key e, Z.of_nat (length (consumers (nd N' e)) + x)) ∈ newPageSets r) by (rewrite Hnew; by left).
      pose proof (new_small _ Hin) as Hs. simpl in Hs. unfold nonzero in Hk. case_match; [done|]. injection Hk as <-. lia.
    + rewrite (after_temp k Ht) in HA. injection HA as <-. done.
  - destruct (add_active_lookup (newPageSets r) A k new_keys_NoDup new_keys_fresh new_small) as [_ Hadd].
    specialize (Hadd Hn).
    destruct (drop_active_lookup (consumedPageSets r) (foldl add_active A (newPageSets r)) k) as [HN _].
    destruct (A !! k) as [u|] eqn:E; [|unfold active_after in HA; by rewrite (HN Hadd) in HA].
    destruct (inv_keys _ _ _ _ _ _ H k u E) as (Hu & j & Hj & Hp & ->).
    split; [|exists j; rewrite fin_produced; naive_solver].
    rewrite (after_other j Hj Hp) in Hk. rewrite (inv_active _ _ _ _ _ _ H j Hj Hp) in E.
    unfold nonzero in Hk, E. repeat case_match; try done. injection Hk as <-. injection E as <-. lia.
Qed.

(** *** The sources after it *)
Lemma finish costs' S' :
  S' ≡ₚ S ++ newSourceNodes r ->
  NoDup (newSourceNodes r) ->
  (forall i, i ∈ newSourceNodes r -> i ∈ consumers (nd N' e) /\
     st N' e <> PDBJoinPhysicalNodeBroadcasted /\
     forall p, p ∈ producers (nd g i) -> p = e \/ (produced N p /\ st N p <> PDBJoinPhysicalNodeBroadcasted)) ->
  (forall i, i ∈ consumers (nd N' e) -> (forall p, p ∈ producers (nd g i) -> p <> e -> done N p) ->
     i ∈ newSourceNodes r) ->
  (forall k, is_Some (costs !! k) -> is_Some (costs' !! k)) -> is_Some (costs' !! key e) ->
  Inv None (X ∪ D) S' (kept (active_after A r)) costs' N'.
Proof.
  intros HS' Hnd Hsrc Hall Hcosts Hce. destruct fin_flight as (He & HeX & Hde & Hnpe & HeS & Hec).
  assert (HDe : forall d, d ∈ D -> producers (nd g d) = [e]).
  { intros d Hd. destruct (fin_D _ _ _ _ _ Hf d Hd) as (Hc & _ & Ht).
    by destruct (wf_straight_consumer cid rank g Hwf e d He Ht Hc). }
  split.
  - by rewrite (fin_dom _ _ _ _ _ Hf), (inv_dom _ _ _ _ _ _ H).
  - intros i Hi. by apply fin_shape.
  - intros i Hi. rewrite fin_done. apply elem_of_union in Hi as [Hi|Hi].
    + destruct (inv_dropped _ _ _ _ _ _ H i Hi) as (? & ? & ? & Hp). split_and!; [done|done|done|].
      intros p Hpp. rewrite fin_produced. left. by apply Hp.
    + destruct (fin_D _ _ _ _ _ Hf i Hi) as (Hc & Hm & _). destruct (Hec i Hc) as (? & _).
      split_and!; [by destruct (wf_consumer cid rank g Hwf e i He Hc)|done|done|].
      intros p. rewrite (HDe i Hi), list_elem_of_singleton, fin_produced. by right.
  - intros i p Hi. rewrite !fin_done. by apply (inv_up _ _ _ _ _ _ H).
  - intros i. rewrite fin_done, fin_produced. intros Hn. destruct (inv_fresh _ _ _ _ _ _ H i Hn) as [Ha Hp].
    assert (Hie : i <> e) by (intros ->; done).
    destruct (fin_other _ _ _ _ _ Hf i Hie) as (_ & _ & _ & _ & _ & _ & _ & _ & _ & ->). naive_solver.
  - intros i Hi. destruct (decide (i = e)) as [->|Hie]; [by rewrite (fin_sink _ _ _ _ _ Hf)|].
    rewrite fin_produced. intros [Hp|]; [|done]. unfold sink_kind. rewrite (fin_st i Hie).
    destruct (fin_other _ _ _ _ _ Hf i Hie) as (-> & _ & _ & _ & _ & -> & _). by apply (inv_sink _ _ _ _ _ _ H).
  - intros i Ht. destruct (decide (i = e)) as [->|Hie]; [by apply (fin_plain _ _ _ _ _ Hf)|].
    rewrite (fin_st i Hie). by apply (inv_state _ _ _ _ _ _ H).
  - intros i Hi. rewrite fin_done, fin_produced. intros Hd _ Hnp.
    destruct (inv_through _ _ _ _ _ _ H i Hi Hd) as (c & ? & ?); [naive_solver|naive_solver|].
    exists c. by rewrite fin_done.
  - intros i c Hi Ht. rewrite fin_produced. intros [Hp| ->]; [by apply (inv_single _ _ _ _ _ _ H)|].
    by apply (fin_single _ _ _ _ _ Hf).
  - intros i o Hi Ht Ho. rewrite fin_produced, fin_done.
    destruct (wf_side cid rank g Hwf i Hi Ht) as (c & o' & _ & _ & _ & Eo & Hod & Hoi & Hot & Hoo & _).
    assert (o' = o) as -> by congruence. clear Eo.
    destruct (inv_join _ _ _ _ _ _ H i o Hi Ht Ho) as (J1 & J2 & J3).
    destruct (decide (i = e)) as [->|Hie].
    + rewrite (fin_st o) by done. destruct (fin_join _ _ _ _ _ Hf o Ht Ho) as (F1 & F2 & F3). naive_solver.
    + rewrite (fin_st i Hie). destruct (decide (o = e)) as [->|Hoe].
      * destruct (fin_join _ _ _ _ _ Hf i Hot Hoo) as (F1 & F2 & F3).
        destruct (inv_join _ _ _ _ _ _ H e i Hod Hot Hoo) as (K1 & K2 & K3).
        split; [naive_solver|]. split; [|done]. intros Hd _ Hs.
        exfalso. apply Hnpe. apply K1. rewrite (J2 Hd) by (done || congruence). done.
      * rewrite (fin_st o Hoe). split; [naive_solver|]. split; [|done]. intros Hd _ Hs. apply J2; [done| |done]. congruence.
  - done.
  - rewrite HS'. apply NoDup_app. split; [apply (inv_nodup _ _ _ _ _ _ H)|]. split; [|done].
    intros i Hi Hin. destruct (Hsrc i Hin) as (Hc & _). rewrite fin_consumers in Hc.
    apply list_elem_of_filter in Hc as [_ Hc]. by destruct (Hec i Hc) as (_ & ? & _).
  - intros i. rewrite HS', elem_of_app. intros [Hi|Hi]; rewrite fin_done.
    + destruct (inv_sources _ _ _ _ _ _ H i Hi) as (Hid & HiX & Hdn & Hp). split; [done|].
      split; [|split; [done|]].
      * rewrite not_elem_of_union. split; [done|]. intros HD. destruct (Hp e) as [? _]; [rewrite (HDe i HD); by left|done].
      * intros p Hpp. destruct (Hp p Hpp) as [Hpr Hst]. rewrite fin_produced. split; [by left|].
        rewrite fin_st; [done|]. intros ->. done.
    + destruct (Hsrc i Hi) as (Hc & Hb & Hp). pose proof Hc as Hc2. rewrite fin_consumers in Hc2.
      apply list_elem_of_filter in Hc2 as [HnD Hc2]. destruct (Hec i Hc2) as (Hdn & _ & HnX).
      split_and!; [by destruct (wf_consumer cid rank g Hwf e i He Hc2)|set_solver|done|].
      intros p Hpp. rewrite fin_produced. destruct (Hp p Hpp) as [->|[Hpr Hps]]; [naive_solver|].
      split; [by left|]. rewrite fin_st; [done|]. intros ->. done.
  - intros i Hi HnX. rewrite fin_done. intros Hdn Hps. rewrite HS', elem_of_app.
    apply not_elem_of_union in HnX as [HnX HnD].
    destruct (decide (e ∈ producers (nd g i))) as [Hep|Hep].
    + right. apply Hall.
      * rewrite fin_consumers. apply list_elem_of_filter. split; [done|].
        by destruct (wf_producer cid rank g Hwf i e Hi Hep) as (_ & ? & _).
      * intros p Hpp Hpe. destruct (Hps p Hpp) as [Hd _]. by apply fin_done.
    + left. apply (inv_ready _ _ _ _ _ _ H); [done|done|done|]. intros p Hpp. destruct (Hps p Hpp) as [Hd _].
      apply fin_done in Hd. split; [done|]. intros [=->]. done.
  - intros i Hi. rewrite fin_produced. simpl. intros Hp. rewrite cnt_none, Nat.add_0_r by apply not_elem_of_nil.
    destruct (decide (i = e)) as [->|Hie]; [by apply after_self|].
    destruct Hp as [Hp|]; [|done]. rewrite after_other by done. by rewrite fin_pend.
  - apply after_keys.
  - destruct (inv_costs _ _ _ _ _ _ H) as [Hc1 Hc2]. split; [|intros k Hk; by apply Hcosts, Hc2].
    intros i Hi. rewrite fin_produced. intros [Hp| ->]; [by apply Hcosts, Hc1|done].
Qed.
End finish.
End inv.
