(* ===== verification/PhysicalSteps.v ===== *)
(** Planning one source: the operations of the nodes keep the invariant.
    PDBAbstractPhysicalNode.cc and the three subclasses. *)

From S2P Require Import Prelude AtomicComputation PhysicalNodes PhysicalOptimizer PhysicalInv.

(** ** What an algorithm reads and creates *)
Definition alg_reads (a : PDBPhysicalAlgorithm) : list PDBPageSetIdentifier :=
  map (fun s => source_pageSet (pageSet s)) (sources a) ++ map source_pageSet (secondarySources a).
Definition alg_creates (a : PDBPhysicalAlgorithm) : list PDBPageSetIdentifier :=
  sink_pageSet (sink a) ::
  match algorithmType a with
  | StraightPipe => []
  | DistributedAggregation s r | BroadcastForJoin s r => [sink_pageSet s; source_pageSet r]
  | ShuffleForJoin i => [sink_pageSet i]
  end.

(** ** Updates of single nodes *)
Lemma nd_alter_eq f i N : i ∈ dom N -> nd (alter f i N) i = f (nd N i).
Proof. intros Hi. unfold nd. rewrite lookup_alter_eq. by rewrite (nd_dom N i Hi). Qed.
Lemma nd_alter_ne f i j N : i <> j -> nd (alter f i N) j = nd N j.
Proof. intros Hi. unfold nd. by rewrite lookup_alter_ne. Qed.
Lemma node_at_Ok i N : i ∈ dom N -> node_at i N = Ok (nd N i) N.
Proof. intros Hi. unfold node_at. rewrite (bind_Ok _ _ _ N N) by done. by rewrite (nd_dom N i Hi). Qed.
Lemma update_Ok i f N : update_node i f N = Ok tt (alter f i N).
Proof. done. Qed.

Lemma run_update {B} i f (k : unit -> MN B) N : bind (update_node i f) k N = k tt (alter f i N).
Proof. done. Qed.
Lemma run_node_at {B} i (k : PDBAbstractPhysicalNode -> MN B) N : i ∈ dom N -> bind (node_at i) k N = k (nd N i) N.
Proof. intros Hi. by rewrite (bind_Ok _ _ _ _ _ (node_at_Ok i N Hi)). Qed.

(** ** The materialized consumers of an aggregation *)
Section materialize.
Variable n : nat.

Definition loop_measure (N : nodes) (i : nat) : nat :=
  let l := length (consumers (nd N n)) in l * (l + 1) + (l - i).

Record materialized (Dl : list nat) (N N' : nodes) : Prop := {
  mat_dom : dom N' = dom N;
  mat_self : nd N' n = set_ncons (filter (fun c => c ∉ Dl)) (nd N n);
  mat_dropped : forall d, d ∈ Dl -> nd N' d = set_nprods (filter (fun p => p <> n)) (nd N d);
  mat_other : forall i, i <> n -> i ∉ Dl -> nd N' i = nd N i
}.

Lemma remove_Ok c N : c ∈ dom N -> n ∈ dom N -> c <> n -> exists N1,
  removeConsumer n c N = Ok tt N1 /\ materialized [c] N N1.
Proof.
  intros Hc Hn Hcn. eexists. split; [reflexivity|]. split.
  - by rewrite !dom_alter_L.
  - rewrite nd_alter_eq by by rewrite dom_alter_L. rewrite nd_alter_ne by done.
    unfold set_ncons. f_equal. apply list_filter_iff. intros x. by rewrite list_elem_of_singleton.
  - intros d ->%list_elem_of_singleton. rewrite nd_alter_ne by done. by rewrite nd_alter_eq.
  - intros i Hi Hni%not_elem_of_cons. destruct Hni as [Hni _]. rewrite !nd_alter_ne by done. done.
Qed.

Lemma materialized_trans c Dl N N1 N2 : c <> n -> n ∉ Dl ->
  materialized [c] N N1 -> c ∉ Dl -> materialized Dl N1 N2 -> materialized (c :: Dl) N N2.
Proof.
  intros Hcn HnD H1 Hc H2. split.
  - by rewrite (mat_dom _ _ _ H2), (mat_dom _ _ _ H1).
  - rewrite (mat_self _ _ _ H2), (mat_self _ _ _ H1). unfold set_ncons. simpl. f_equal.
    rewrite list_filter_filter. apply list_filter_iff. intros x. set_solver.
  - intros d [->|Hd]%elem_of_cons.
    + rewrite (mat_other _ _ _ H2 _ Hcn Hc). apply (mat_dropped _ _ _ H1). by left.
    + rewrite (mat_dropped _ _ _ H2 d Hd), (mat_other _ _ _ H1 d); [done| |].
      * intros ->. done.
      * rewrite list_elem_of_singleton. intros ->. done.
  - intros i Hi [Hic HiD]%not_elem_of_cons. rewrite (mat_other _ _ _ H2 i Hi HiD).
    apply (mat_other _ _ _ H1 i Hi). by rewrite list_elem_of_singleton.
Qed.

Lemma materialized_nil N : materialized [] N N.
Proof.
  split; [done| |set_solver|done].
  destruct (nd N n) as [] eqn:E. unfold set_ncons. simpl. f_equal. symmetry. apply filter_every. set_solver.
Qed.

Lemma length_without (c : nat) l : NoDup l -> c ∈ l -> length l = S (length (filter (fun x => x ∉ [c]) l)).
Proof.
  induction 1 as [|y l Hy Hl IH]; intros Hc; [by apply elem_of_nil in Hc|]. rewrite filter_cons.
  destruct (decide (y = c)) as [->|Hyc].
  - rewrite decide_False by set_solver. simpl. f_equal. rewrite filter_every; [done|]. set_solver.
  - rewrite decide_True by set_solver. simpl. f_equal. apply IH. set_solver.
Qed.

Lemma materialize_spec fuel : forall i acc N,
  n ∈ dom N -> NoDup (consumers (nd N n)) ->
  (forall c, c ∈ consumers (nd N n) -> c ∈ dom N /\ c <> n) ->
  i <= length (consumers (nd N n)) -> loop_measure N i < fuel ->
  exists Dl N', materialize_consumers true fuel n i acc N =
      Ok (acc ++ omap (fun d => materialization (nd N d)) Dl) N' /\
    NoDup Dl /\ (forall d, d ∈ Dl -> d ∈ consumers (nd N n) /\ is_Some (materialization (nd N d))) /\
    materialized Dl N N'.
Proof.
  induction fuel as [|fuel IH]; intros i acc N Hn Hnd Hcs Hi Hm; [lia|]. simpl.
  rewrite (bind_Ok _ _ _ _ _ (node_at_Ok n N Hn)).
  destruct (consumers (nd N n) !! i) as [c|] eqn:Ei.
  2:{ exists [], N. rewrite app_nil_r. split; [done|]. split; [constructor|]. split; [set_solver|apply materialized_nil]. }
  pose proof (list_elem_of_lookup_2 _ _ _ Ei) as Hc. destruct (Hcs c Hc) as [Hcd Hcn].
  pose proof (lookup_lt_Some _ _ _ Ei) as Hlt.
  rewrite (bind_Ok _ _ _ _ _ (node_at_Ok c N Hcd)).
  destruct (materialization (nd N c)) as [set|] eqn:Em.
  2:{ apply IH; [done|done|done|lia|unfold loop_measure in *; lia]. }
  destruct (remove_Ok c N Hcd Hn Hcn) as (N1 & E1 & HN1). rewrite (bind_Ok _ _ _ _ _ E1).
  rewrite bool_decide_false.
  2:{ intros E. assert (i + 1 = i) by (eapply NoDup_lookup; [exact Hnd|exact E|exact Ei]). lia. }
  assert (Hn1 : n ∈ dom N1) by by rewrite (mat_dom _ _ _ HN1).
  rewrite (bind_Ok _ _ _ _ _ (node_at_Ok n N1 Hn1)).
  assert (Hcons : consumers (nd N1 n) = filter (fun x => x ∉ [c]) (consumers (nd N n))) by by rewrite (mat_self _ _ _ HN1).
  assert (Hlen : length (consumers (nd N n)) = S (length (consumers (nd N1 n)))).
  { rewrite Hcons. by apply length_without. }
  assert (Hnext : forall j, j <= length (consumers (nd N1 n)) -> exists Dl N', materialize_consumers true fuel n j (acc ++ [set]) N1 =
      Ok (acc ++ omap (fun d => materialization (nd N d)) (c :: Dl)) N' /\ NoDup (c :: Dl) /\
      (forall d, d ∈ c :: Dl -> d ∈ consumers (nd N n) /\ is_Some (materialization (nd N d))) /\ materialized (c :: Dl) N N').
  { intros j Hj. destruct (IH j (acc ++ [set]) N1) as (Dl & N' & E & HD & HDl & HM); [done| | |done| |].
    - rewrite Hcons. by apply NoDup_filter.
    - intros d Hd. rewrite Hcons in Hd. apply list_elem_of_filter in Hd as [_ Hd]. rewrite (mat_dom _ _ _ HN1). by apply Hcs.
    - unfold loop_measure in *. nia.
    - assert (HcD : forall d, d ∈ Dl -> d ∈ consumers (nd N n) /\ d <> c /\ nd N1 d = nd N d).
      { intros d Hd. destruct (HDl d Hd) as [Hd1 _]. rewrite Hcons in Hd1. apply list_elem_of_filter in Hd1 as [Hdc Hd1].
        rewrite list_elem_of_singleton in Hdc. split; [done|]. split; [done|].
        apply (mat_other _ _ _ HN1 d); [by destruct (Hcs d Hd1)|by rewrite list_elem_of_singleton]. }
      assert (Homap : omap (fun d => materialization (nd N1 d)) Dl = omap (fun d => materialization (nd N d)) Dl).
      { apply list_omap_ext, Forall_Forall2_diag, Forall_forall. intros d Hd.
        by destruct (HcD d Hd) as (_ & _ & ->). }
      assert (HcDl : c ∉ Dl) by (intros Hcin; by destruct (HcD c Hcin) as (_ & ? & _)).
      assert (HnDl : n ∉ Dl).
      { intros Hnin. destruct (HcD n Hnin) as (Hx & _). by destruct (Hcs n Hx). }
      exists Dl, N'. split; [rewrite E, Homap; simpl; by rewrite Em, <- app_assoc|].
      split; [by apply NoDup_cons|]. split; [|by apply (materialized_trans c Dl N N1)].
      intros d [->|Hd]%elem_of_cons; [split; [done|by eexists]|]. destruct (HDl d Hd) as [_ Hm2].
      destruct (HcD d Hd) as (? & _ & <-). done. }
  destruct (i <? length (consumers (nd N1 n))) eqn:Elt.
  - apply Nat.ltb_lt in Elt. destruct (Hnext (i + 1)) as (Dl & N' & E & ? & ? & ?); [lia|].
    exists (c :: Dl), N'. done.
  - destruct (Hnext 0) as (Dl & N' & E & ? & ? & ?); [lia|]. exists (c :: Dl), N'. done.
Qed.
End materialize.

(** ** Planning a node *)
Section planning.
Variables (cid : Z) (rank : nat -> nat) (g : nodes).
Hypothesis Hwf : wf_graph cid rank g.
Variable threshold : Z.

Abbreviation key := (PhysicalInv.key cid g).
Abbreviation Inv := (PhysicalInv.Inv cid g).
Abbreviation st N i := (state (nd N i)).

(** The nodes whose sets have been written. *)
Definition written (X : gset nat) (N : nodes) (i : nat) : Prop :=
  i ∈ X \/ (i ∈ dom g /\ produced N i /\ is_Some (write_of (nd g i))).

(** What planning a source comes to: one node produces its page set, by an
    algorithm that reads page sets that are still there. *)
Definition planned (X : gset nat) (S : list nat) (A : gmap PDBPageSetIdentifier Z) (costs : PDBPageSetCosts)
    (N : nodes) (r : PDBPlanningResult) (N' : nodes) : Prop :=
  resultType r = GENERATED_ALGORITHM /\
  exists X' e alg L,
    runMe r = Some alg /\ e ∈ dom g /\ ~ produced N e /\
    alg_creates alg = map fst (newPageSets r) /\ NoDup (alg_creates alg) /\ key e ∈ alg_creates alg /\
    (forall k, k ∈ alg_creates alg -> exists s, k = (cid, s) /\ s ∈ names_of (nd g e)) /\
    (forall i, produced N' i <-> produced N i \/ i = e) /\
    (forall x, x ∈ alg_reads alg -> scan_key cid g x \/ is_Some (A !! x)) /\
    setsToMaterialize alg = omap (fun i => write_of (nd g i)) L /\ NoDup L /\
    (forall i, written X' N' i <-> written X N i \/ i ∈ L) /\ (forall i, i ∈ L -> ~ written X N i) /\
    (forall i, done N i -> done N' i) /\
    forall S' costs', S' ≡ₚ S ++ newSourceNodes r ->
      (forall k, is_Some (costs !! k) -> is_Some (costs' !! k)) -> is_Some (costs' !! key e) ->
      Inv None X' S' (kept (active_after A r)) costs' N'.

Lemma planned_mono X S A costs N1 N2 r N' :
  (forall i, produced N2 i <-> produced N1 i) -> (forall i, done N1 i -> done N2 i) ->
  planned X S A costs N2 r N' -> planned X S A costs N1 r N'.
Proof.
  intros Hp Hd (Ht & X' & e & alg & L & E1 & He & Hne & E2 & E3 & Ek & E4 & E5 & E6 & E7 & E8 & E9 & E10 & E11 & E12).
  assert (Hw : forall i, written X N2 i <-> written X N1 i) by (intros i; unfold written; by rewrite Hp).
  split; [done|]. exists X', e, alg, L. rewrite <- Hp.
  split_and!; try done.
  - intros i. by rewrite E5, Hp.
  - intros i. by rewrite E9, Hw.
  - intros i Hi. rewrite <- Hw. by apply E10.
  - intros i Hi. by apply E11, Hd.
Qed.

Lemma consumed_by_reads N e temps :
  consumed_by (primarySources (nd N e)) (additionalSources (nd N e)) temps ≡ₚ reads N e ++ temps.
Proof.
  unfold consumed_by, reads. rewrite <- !Permutation_rev.
  by rewrite (Permutation_app_comm (map _ (primarySources _)) (map _ _)), <- app_assoc.
Qed.

Lemma alg_reads_new k N e final sink mats :
  alg_reads (PDBPhysicalAlgorithm_new k (primarySources (nd N e)) final sink (additionalSources (nd N e)) mats) = reads N e.
Proof. unfold alg_reads, reads. simpl. by rewrite map_map. Qed.

Lemma reads_available e X S A costs N x : Inv (Some e) X S A costs N -> x ∈ reads N e ->
  scan_key cid g x \/ is_Some (A !! x).
Proof.
  intros H Hx. destruct (inv_flight _ _ _ _ _ _ _ _ H e eq_refl) as (_ & _ & _ & _ & _ & _ & Hr & _).
  destruct (Hr x Hx) as [?|(i & Hi & Hp & ->)]; [by left|right].
  rewrite (inv_active _ _ _ _ _ _ _ _ H i Hi Hp). simpl.
  pose proof (cnt_in (key i) _ Hx) as Hc.
  destruct (pend N i + cnt (key i) (reads N e)) eqn:E; [lia|]. by eexists.
Qed.

Lemma planned_finish X D S A costs N N' e r x temps alg L :
  Inv (Some e) X S A costs N -> finished cid g X D N N' e ->
  resultType r = GENERATED_ALGORITHM -> runMe r = Some alg ->
  newPageSets r = (key e, Z.of_nat (length (consumers (nd N' e)) + x)) :: map (fun t => (t, 1%Z)) temps ->
  consumedPageSets r ≡ₚ reads N e ++ temps ++ replicate x (key e) ->
  (x <= 1 /\ (x = 1 -> consumers (nd N' e) = [])) ->
  (NoDup temps /\ forall t, t ∈ temps -> exists s, t = (cid, s) /\ s ∈ names_of (nd g e) /\ s <> outputName (nd g e)) ->
  NoDup (newSourceNodes r) ->
  (forall i, i ∈ newSourceNodes r -> i ∈ consumers (nd N' e) /\
     st N' e <> PDBJoinPhysicalNodeBroadcasted /\
     forall p, p ∈ producers (nd g i) -> p = e \/ (produced N p /\ st N p <> PDBJoinPhysicalNodeBroadcasted)) ->
  (forall i, i ∈ consumers (nd N' e) -> (forall p, p ∈ producers (nd g i) -> p <> e -> done N p) ->
     i ∈ newSourceNodes r) ->
  alg_reads alg = reads N e -> alg_creates alg = key e :: temps ->
  setsToMaterialize alg = omap (fun i => write_of (nd g i)) L -> NoDup L ->
  (forall i, i ∈ L <-> i ∈ D \/ (i = e /\ is_Some (write_of (nd g e)))) ->
  planned X S A costs N r N'.
Proof.
  intros H Hf Ht Hr Hnew Hcon Hx Htemps HndS Hsrc Hall Hreads Hcr Hmat HndL HL.
  destruct (fin_flight cid g H) as (He & HeX & Hde & Hnpe & HeS & Hec).
  assert (Hprod : forall i, produced N' i <-> produced N i \/ i = e) by (intros i; apply (fin_produced cid g Hf)).
  split; [done|]. exists (X ∪ D), e, alg, L. split_and!; try done.
  - rewrite Hcr, Hnew. simpl. f_equal. rewrite map_map. simpl. by rewrite map_id.
  - rewrite Hcr. destruct Htemps as [Hnd Hts]. apply NoDup_cons. split; [|done]. intros Hin.
    destruct (Hts _ Hin) as (s & [=E] & _ & Hne). done.
  - rewrite Hcr. by left.
  - intros k. rewrite Hcr. intros [->|Hk]%elem_of_cons.
    + exists (outputName (nd g e)). split; [done|]. apply (outputName_in cid rank g Hwf).
    + destruct Htemps as [_ Hts]. destruct (Hts k Hk) as (s & ? & ? & _). by exists s.
  - intros y Hy. rewrite Hreads in Hy. by eapply reads_available.
  - intros i. unfold written. rewrite HL, Hprod, elem_of_union. split; [|naive_solver].
    intros [[?|?]|(? & [?| ->] & ?)]; naive_solver.
  - intros i Hi. apply HL in Hi as [Hi|[-> _]].
    + destruct (fin_D _ _ _ _ _ _ _ Hf i Hi) as (Hc & _). destruct (Hec i Hc) as (Hnd & _ & HnX).
      intros [?|(_ & Hp & _)]; [done|]. by destruct (inv_fresh _ _ _ _ _ _ _ _ H i Hnd).
    + intros [?|(_ & Hp & _)]; done.
  - intros i. by rewrite (fin_done cid g Hf).
  - intros S' costs' HS' Hc1 Hc2. by apply (finish cid rank g Hwf H Hf Hnew Hcon Hx Htemps costs' S').
Qed.

(** *** The three ways to end *)

Lemma final_of i : i ∈ dom g -> exists c, last (pipeline (nd g i)) = Some c /\ getOutputName c = outputName (nd g i).
Proof.
  intros Hi. destruct (wf_at cid rank g Hwf i Hi) as (_ & Hp & _). unfold outputName.
  destruct (last (pipeline (nd g i))) as [c|] eqn:E; [by exists c|]. by apply last_None in E.
Qed.
Lemma back_Ok (c : AtomicComputation) l (s : nodes) : last l = Some c -> back_of l s = Ok c s.
Proof. intros H. unfold back_of. by rewrite H. Qed.

Lemma straight_finish N n f : dom N = dom g -> n ∈ dom g ->
  nodeType (nd g n) <> PDB_JOIN_SIDE_PIPELINE -> (forall c, nodeType (nd g n) = PDB_STRAIGHT_PIPELINE -> consumers (nd g n) <> [c]) ->
  st N n = PDBJoinPhysicalNodeNotProcessed -> f = set_sink (true, mkSinkSpec (sink_kind (nd N n)) (key n)) ->
  forall X, finished cid g X ∅ N (alter f n N) n.
Proof.
  intros Hdom Hn Ht Hs Hst -> X. assert (HnN : n ∈ dom N) by by rewrite Hdom.
  split.
  - by rewrite dom_alter_L.
  - intros i Hi. rewrite nd_alter_ne, decide_False by (done || set_solver). done.
  - rewrite nd_alter_eq by done. simpl. split_and!; try done. symmetry. apply filter_every. set_solver.
  - rewrite nd_alter_eq by done. done.
  - set_solver.
  - rewrite nd_alter_eq by done. done.
  - done.
  - done.
Qed.

Lemma straight_end n X S A costs N gen :
  Inv (Some n) X S A costs N -> nodeType (nd g n) = PDB_STRAIGHT_PIPELINE ->
  (forall c, consumers (nd g n) <> [c]) -> forall child,
  exists r N', straight_generateAlgorithm gen n child N = Ok r N' /\ planned X S A costs N r N'.
Proof.
  intros H Ht Hns child. destruct (fin_flight cid g H) as (Hn & HnX & Hdn & Hnp & HnS & Hec).
  assert (Hdom : dom N = dom g) by apply (inv_dom _ _ _ _ _ _ _ _ H).
  destruct (inv_shape _ _ _ _ _ _ _ _ H n Hn) as (E1 & E2 & E3 & _).
  destruct (wf_at cid rank g Hwf n Hn) as (Ecid & _).
  destruct (final_of n Hn) as (final & Hfin & Hout).
  pose proof (flight_consumers cid g H n eq_refl) as Econs.
  assert (Hst : st N n = PDBJoinPhysicalNodeNotProcessed) by (apply (inv_state _ _ _ _ _ _ _ _ H); congruence).
  set (sink := mkSinkSpec SetSink (key n)).
  assert (Hsk : sink = mkSinkSpec (sink_kind (nd N n)) (key n)) by (unfold sink_kind; by rewrite E1, Ht).
  set (N' := alter (set_sink (true, sink)) n N).
  assert (Hf : finished cid g X ∅ N N' n).
  { apply straight_finish; [done|done|congruence|intros c _; apply Hns|done|by rewrite Hsk]. }
  set (alg mats := PDBPhysicalAlgorithm_new StraightPipe (primarySources (nd N n)) final sink (additionalSources (nd N n)) mats).
  set (r mats := mkResult GENERATED_ALGORITHM (Some (alg mats)) (consumers (nd g n))
              (consumed_by (primarySources (nd N n)) (additionalSources (nd N n)) [])
              [(key n, u64 (Z.of_nat (length (consumers (nd g n)))))]).
  set (L := match write_of (nd g n) with Some _ => [n] | None => [] end).
  assert (Hrun : straight_generateAlgorithm gen n child N = Ok (r (omap (fun i => write_of (nd g i)) L)) N').
  { unfold straight_generateAlgorithm. rewrite (bind_Ok _ _ _ _ _ (node_at_Ok n N ltac:(by rewrite Hdom))).
    unfold r, alg, L. rewrite Econs, E2, E3, Ecid.
    destruct (consumers (nd g n)) as [|c1 [|c2 l]] eqn:Ec; [|by destruct (Hns c1)|];
      rewrite (bind_Ok _ _ _ _ _ (back_Ok _ _ N Hfin)); cbn zeta; rewrite Hout;
      rewrite (bind_Ok _ _ _ _ _ (eq_refl : setSinkPageSet n sink N = Ok tt N')).
    - destruct (wf_end cid rank g Hwf n Hn Ht Ec) as [[db set] Hw]. rewrite Hw. simpl. rewrite Hw.
      unfold write_of in Hw. rewrite Hfin in Hw. destruct (kind final); try done. by injection Hw as -> ->.
    - destruct (write_of (nd g n)) as [w|] eqn:Hw; [|done].
      destruct (wf_write cid rank g Hwf n w Hn Hw) as [_ E]. by rewrite Ec in E. }
  exists (r (omap (fun i => write_of (nd g i)) L)), N'. split; [done|].
  assert (Hcons' : consumers (nd N' n) = consumers (nd g n)).
  { unfold N'. rewrite nd_alter_eq by by rewrite Hdom. by simpl. }
  pose proof (consumers_small cid rank g Hwf n Hn) as Hsmall.
  eapply (planned_finish X ∅ S A costs N N' n _ 0 [] _ L H Hf).
  - done.
  - done.
  - simpl. rewrite Hcons', Nat.add_0_r. unfold u64. rewrite wrapu_small by lia. done.
  - simpl. rewrite consumed_by_reads. by rewrite app_nil_r.
  - lia.
  - split; [constructor|set_solver].
  - simpl. by destruct (wf_at cid rank g Hwf n Hn) as (_ & _ & _ & ? & _).
  - simpl. intros i Hi. rewrite Hcons'. split; [done|]. split.
    + unfold N'. rewrite nd_alter_eq by by rewrite Hdom. simpl. by rewrite Hst.
    + intros p. destruct (wf_straight_consumer cid rank g Hwf n i Hn) as (-> & _); [congruence|done|].
      rewrite list_elem_of_singleton. by left.
  - simpl. intros i Hi _. by rewrite <- Hcons'.
  - apply alg_reads_new.
  - done.
  - done.
  - unfold L. destruct (write_of _); [apply NoDup_singleton|constructor].
  - unfold L. intros i. destruct (write_of (nd g n)) as [w|] eqn:Ew.
    + rewrite list_elem_of_singleton. split; [intros ->; right; by split; [|eexists]|intros [?|[? _]]; [set_solver|done]].
    + split; [by intros ?%elem_of_nil|intros [?|[_ [? ?]]]; [set_solver|done]].
Qed.

(** Suffixes make names differ. *)
Lemma suffix_ne (s t : string) : t <> EmptyString -> s +:+ t <> s.
Proof. intros Ht. induction s as [|a s IH]; simpl; [done|]. intros [=E]. by apply IH. Qed.
Lemma app_inj_r (s t u : string) : s +:+ t = s +:+ u -> t = u.
Proof. induction s as [|a s IH]; simpl; [done|]. intros [=E]. by apply IH. Qed.

Lemma temps_ok n (sufs : list string) : n ∈ dom g -> NoDup sufs -> EmptyString ∉ sufs ->
  (forall s, s ∈ sufs -> outputName (nd g n) +:+ s ∈ names_of (nd g n)) ->
  NoDup (map (fun s => (cid, outputName (nd g n) +:+ s)) sufs) /\
  forall t, t ∈ map (fun s => (cid, outputName (nd g n) +:+ s)) sufs ->
    exists s, t = (cid, s) /\ s ∈ names_of (nd g n) /\ s <> outputName (nd g n).
Proof.
  intros Hn Hnd He Hin. split.
  - apply NoDup_fmap_2_strong; [|done]. intros x y _ _ [=E]. by apply app_inj_r in E.
  - intros t (s & <- & Hs)%list_elem_of_In%in_map_iff. apply list_elem_of_In in Hs.
    exists (outputName (nd g n) +:+ s). split; [done|]. split; [by apply Hin|].
    apply suffix_ne. intros ->. done.
Qed.

Lemma materialization_write n0 x : materialization n0 = Some x -> write_of n0 = Some x.
Proof.
  unfold materialization, write_of. destruct (pipeline n0) as [|a [|w [|]]]; try done. simpl.
  by destruct (kind a), (kind w).
Qed.

Lemma aggregation_end n X S A costs N :
  Inv (Some n) X S A costs N -> nodeType (nd g n) = PDB_AGGREGATION_PIPELINE ->
  exists r N', aggregation_generateAlgorithm true n N = Ok r N' /\ planned X S A costs N r N'.
Proof.
  intros H Ht. destruct (fin_flight cid g H) as (Hn & HnX & Hdn & Hnp & HnS & Hec).
  assert (Hdom : dom N = dom g) by apply (inv_dom _ _ _ _ _ _ _ _ H).
  assert (HnN : n ∈ dom N) by by rewrite Hdom.
  destruct (inv_shape _ _ _ _ _ _ _ _ H n Hn) as (E1 & E2 & E3 & _).
  destruct (wf_at cid rank g Hwf n Hn) as (Ecid & _ & _ & Hndc & _).
  destruct (final_of n Hn) as (final & Hfin & Hout).
  pose proof (flight_consumers cid g H n eq_refl) as Econs.
  assert (Hst : st N n = PDBJoinPhysicalNodeNotProcessed) by (apply (inv_state _ _ _ _ _ _ _ _ H); congruence).
  assert (HtJ : nodeType (nd g n) <> PDB_JOIN_SIDE_PIPELINE) by congruence.
  (* the loop *)
  destruct (materialize_spec n (Datatypes.S (length (consumers (nd N n))) * Datatypes.S (length (consumers (nd N n)))) 0 [] N)
    as (Dl & N1 & Eloop & HndD & HDl & HM); [done|by rewrite Econs| | lia|unfold loop_measure; lia|].
  { intros c Hc. rewrite Econs in Hc. destruct (wf_consumer cid rank g Hwf n c Hn Hc) as (Hcd & _ & Hr).
    rewrite Hdom. split; [done|]. intros ->. lia. }
  assert (HDn : n ∉ Dl).
  { intros Hin. destruct (HDl n Hin) as [Hc _]. rewrite Econs in Hc.
    destruct (wf_consumer cid rank g Hwf n n Hn Hc) as (_ & _ & ?). lia. }
  assert (HDg : forall d, d ∈ Dl -> d ∈ consumers (nd g n) /\ d ∈ dom g /\ materialization (nd N d) = materialization (nd g d)).
  { intros d Hd. destruct (HDl d Hd) as [Hc _]. rewrite Econs in Hc.
    destruct (wf_consumer cid rank g Hwf n d Hn Hc) as (Hdd & _). split; [done|]. split; [done|].
    destruct (inv_shape _ _ _ _ _ _ _ _ H d Hdd) as (_ & _ & Ep & _). unfold materialization. by rewrite Ep. }
  set (sink := mkSinkSpec AggregationSink (key n)).
  set (N' := alter (set_sink (true, sink)) n N1).
  assert (HnN1 : n ∈ dom N1) by by rewrite (mat_dom _ _ _ _ HM).
  assert (Hself : nd N' n = set_sink (true, sink) (set_ncons (filter (fun c => c ∉ Dl)) (nd N n))).
  { unfold N'. by rewrite nd_alter_eq, (mat_self _ _ _ _ HM). }
  assert (Hf : finished cid g X (list_to_set Dl) N N' n).
  { split.
    - unfold N'. by rewrite dom_alter_L, (mat_dom _ _ _ _ HM).
    - intros i Hi. unfold N'. rewrite nd_alter_ne by done. destruct (decide (i ∈ Dl)) as [HiD|HiD].
      + rewrite (mat_dropped _ _ _ _ HM i HiD), decide_True by by apply elem_of_list_to_set. simpl. split_and!; try done.
        destruct (HDg i HiD) as (Hc & Hid & _). destruct (inv_shape _ _ _ _ _ _ _ _ H i Hid) as (_ & _ & _ & _ & _ & ->).
        destruct (wf_straight_consumer cid rank g Hwf n i Hn HtJ Hc) as (-> & _).
        case_decide; [done|]. rewrite filter_none; [done|]. set_solver.
      + rewrite (mat_other _ _ _ _ HM i Hi HiD), decide_False by by rewrite elem_of_list_to_set. done.
    - rewrite Hself. simpl. split_and!; try done. apply list_filter_iff. intros c. by rewrite elem_of_list_to_set.
    - rewrite Hself. simpl. unfold sink, sink_kind. simpl. by rewrite E1, Ht.
    - intros d Hd%elem_of_list_to_set. destruct (HDl d Hd) as [_ Hm]. destruct (HDg d Hd) as (Hc & _ & Em).
      split; [done|]. split; [by rewrite <- Em|done].
    - intros _. rewrite Hself. done.
    - intros o Hj. congruence.
    - intros c Hs. congruence. }
  set (name := outputName (nd g n)).
  set (s := mkSinkSpec AggShuffleSink (cid, name +:+ "_hashed_to_send")).
  set (q := mkSourceSpec ShuffledAggregatesSource (cid, name +:+ "_hashed_to_recv")).
  set (mats := omap (fun d => materialization (nd N d)) Dl).
  set (alg := PDBPhysicalAlgorithm_new (DistributedAggregation s q) (primarySources (nd N n)) final sink
                (additionalSources (nd N n)) mats).
  set (rest := filter (fun c => c ∉ Dl) (consumers (nd N n))).
  set (con := consumed_by (primarySources (nd N n)) (additionalSources (nd N n)) [sink_pageSet s; source_pageSet q]).
  set (r := mkResult GENERATED_ALGORITHM (Some alg) rest
              (if bool_decide (rest = []) then key n :: con else con)
              [(key n, if bool_decide (rest = []) then 1%Z else u64 (Z.of_nat (length rest)));
               (sink_pageSet s, 1%Z); (source_pageSet q, 1%Z)]).
  assert (Hrun : aggregation_generateAlgorithm true n N = Ok r N').
  { unfold aggregation_generateAlgorithm. rewrite (bind_Ok _ _ _ _ _ (node_at_Ok n N HnN)).
    rewrite E3, E2, Ecid, (bind_Ok _ _ _ _ _ (back_Ok _ _ N Hfin)). cbn zeta. rewrite Hout.
    rewrite (bind_Ok _ _ _ _ _ Eloop), app_nil_l.
    rewrite (bind_Ok _ _ _ _ _ (eq_refl : setSinkPageSet n sink N1 = Ok tt N')).
    assert (HnN' : n ∈ dom N') by by rewrite (fin_dom _ _ _ _ _ _ _ Hf).
    rewrite (bind_Ok _ _ _ _ _ (node_at_Ok n N' HnN')), Hself. done. }
  exists r, N'. split; [done|].
  assert (Hcons' : consumers (nd N' n) = rest) by by rewrite Hself.
  assert (Hrest : forall c, c ∈ rest -> c ∈ consumers (nd g n)).
  { intros c Hc. apply list_elem_of_filter in Hc as [_ Hc]. by rewrite <- Econs. }
  set (temps := map (fun s => (cid, name +:+ s)) ["_hashed_to_send"; "_hashed_to_recv"]).
  assert (Hlen : (Z.of_nat (length rest) < 2 ^ 64)%Z).
  { pose proof (consumers_small cid rank g Hwf n Hn) as Hs.
    enough (length rest <= length (consumers (nd g n))) by lia. unfold rest. rewrite Econs. apply length_filter. }
  eapply (planned_finish X (list_to_set Dl) S A costs N N' n r (if bool_decide (rest = []) then 1 else 0) temps alg Dl H Hf).
  - done.
  - done.
  - rewrite Hcons'. unfold r, temps. simpl. f_equal. f_equal.
    case_bool_decide as Er; [by rewrite Er|]. rewrite Nat.add_0_r. unfold u64. by rewrite wrapu_small by lia.
  - unfold r. simpl. case_bool_decide.
    + unfold con. rewrite consumed_by_reads. simpl. rewrite (Permutation_middle (reads N n)). apply Permutation_app_head. solve_Permutation.
    + unfold con. by rewrite consumed_by_reads.
  - rewrite Hcons'. case_bool_decide; [by split|]. split; [lia|done].
  - apply (temps_ok n ["_hashed_to_send"; "_hashed_to_recv"]); [done|by apply (bool_decide_unpack _)|by apply (bool_decide_unpack _)|].
    intros x Hx. unfold names_of. rewrite Ht. set_solver.
  - simpl. unfold rest. rewrite Econs. by apply NoDup_filter.
  - simpl. intros i Hi. rewrite Hcons'. split; [done|]. split; [rewrite Hself; simpl; by rewrite Hst|].
    intros p. destruct (wf_straight_consumer cid rank g Hwf n i Hn HtJ (Hrest i Hi)) as (-> & _).
    rewrite list_elem_of_singleton. by left.
  - simpl. intros i Hi _. by rewrite <- Hcons'.
  - apply alg_reads_new.
  - done.
  - unfold alg, mats. simpl. apply list_omap_ext, Forall_Forall2_diag, Forall_forall. intros d Hd.
    destruct (HDg d Hd) as (_ & _ & ->). destruct (HDl d Hd) as [_ [w Hw]].
    destruct (HDg d Hd) as (_ & _ & Em). rewrite Em in Hw. rewrite Hw. symmetry. by apply materialization_write.
  - done.
  - intros i. rewrite elem_of_list_to_set. split; [by left|]. intros [?|[_ [w Hw]]]; [done|].
    destruct (wf_write cid rank g Hwf n w Hn Hw) as [E _]. congruence.
Qed.

Lemma sum_costs_Ok costs l tmp (N : nodes) :
  (forall q, q ∈ l -> is_Some (costs !! source_pageSet (source q))) -> exists v, sum_costs costs l tmp N = Ok v N.
Proof.
  revert tmp. induction l as [|q l IH]; intros tmp Hl; simpl; [by eexists|].
  destruct (Hl q) as [c Hc]; [by left|]. rewrite Hc. rewrite (bind_Ok _ _ _ c N) by done.
  apply IH. intros x Hx. apply Hl. by right.
Qed.

Definition join_sink (s' : PDBJoinPhysicalNodeState) : PDBSinkType :=
  match s' with PDBJoinPhysicalNodeBroadcasted => BroadcastJoinSink | _ => JoinShuffleSink end.

Lemma join_finished X S A costs N n o s' :
  Inv (Some n) X S A costs N -> nodeType (nd g n) = PDB_JOIN_SIDE_PIPELINE -> otherSide (nd g n) = Some o ->
  s' <> PDBJoinPhysicalNodeNotProcessed -> st N o <> PDBJoinPhysicalNodeBroadcasted ->
  (s' = PDBJoinPhysicalNodeBroadcasted -> st N o = PDBJoinPhysicalNodeNotProcessed) ->
  finished cid g X ∅ N
    (alter (set_state s') n (alter (set_sink (true, mkSinkSpec (join_sink s') (key n))) n N)) n.
Proof.
  intros H Ht Ho Hs' Hso Hb. destruct (fin_flight cid g H) as (Hn & _).
  assert (HnN : n ∈ dom N) by by rewrite (inv_dom _ _ _ _ _ _ _ _ H).
  destruct (inv_shape _ _ _ _ _ _ _ _ H n Hn) as (E1 & _).
  set (N' := alter _ n _).
  assert (Hself : nd N' n = set_state s' (set_sink (true, mkSinkSpec (join_sink s') (key n)) (nd N n))).
  { unfold N'. rewrite !nd_alter_eq; [done|done|by rewrite dom_alter_L]. }
  split.
  - unfold N'. by rewrite !dom_alter_L.
  - intros i Hi. unfold N'. rewrite !nd_alter_ne, decide_False by (done || set_solver). done.
  - rewrite Hself. simpl. split_and!; try done. symmetry. apply filter_every. set_solver.
  - rewrite Hself. simpl. unfold sink_kind. simpl. by rewrite E1, Ht.
  - set_solver.
  - done.
  - intros o' _ Ho'. assert (o' = o) as -> by congruence. by rewrite Hself.
  - intros c Hs. congruence.
Qed.

(** A side of a join that is not pipelined into it. *)
Lemma join_end X S A costs N n o s' k alg sufs new :
  Inv (Some n) X S A costs N -> nodeType (nd g n) = PDB_JOIN_SIDE_PIPELINE -> otherSide (nd g n) = Some o ->
  s' <> PDBJoinPhysicalNodeNotProcessed -> st N o <> PDBJoinPhysicalNodeBroadcasted ->
  (s' = PDBJoinPhysicalNodeBroadcasted -> st N o = PDBJoinPhysicalNodeNotProcessed) ->
  forall final, getOutputName final = outputName (nd g n) ->
  alg = PDBPhysicalAlgorithm_new k (primarySources (nd N n)) final (mkSinkSpec (join_sink s') (key n))
          (additionalSources (nd N n)) [] ->
  NoDup sufs -> EmptyString ∉ sufs -> (forall s, s ∈ sufs -> outputName (nd g n) +:+ s ∈ names_of (nd g n)) ->
  let temps := map (fun s => (cid, outputName (nd g n) +:+ s)) sufs in
  alg_creates alg = key n :: temps ->
  new = (if bool_decide (s' = PDBJoinPhysicalNodeShuffled /\ st N o = PDBJoinPhysicalNodeShuffled)
         then consumers (nd g n) else []) ->
  planned X S A costs N
    (mkResult GENERATED_ALGORITHM (Some alg) new
       (consumed_by (primarySources (nd N n)) (additionalSources (nd N n)) temps)
       ((key n, 1%Z) :: map (fun t => (t, 1%Z)) temps))
    (alter (set_state s') n (alter (set_sink (true, mkSinkSpec (join_sink s') (key n))) n N)).
Proof.
  intros H Ht Ho Hs' Hso Hb final Hout Halg Hnd He Hin temps Hcr Hnew.
  pose proof (join_finished X S A costs N n o s' H Ht Ho Hs' Hso Hb) as Hf. revert Hf.
  set (N' := alter _ n _). intros Hf.
  destruct (fin_flight cid g H) as (Hn & HnX & Hdn & Hnp & HnS & Hec).
  destruct (wf_side cid rank g Hwf n Hn Ht) as (c & o' & Ec & _ & Hcd & Eo & Hod & Hon & Hto & Hoo & _ & Hps).
  assert (o' = o) as -> by congruence. clear Eo.
  assert (Hcons' : consumers (nd N' n) = [c]).
  { rewrite (fin_consumers cid g H Hf), Ec. by rewrite filter_every by set_solver. }
  assert (Hstn : st N' n = s').
  { unfold N'. rewrite nd_alter_eq; [done|]. rewrite dom_alter_L. by rewrite (inv_dom _ _ _ _ _ _ _ _ H). }
  assert (Hpo : forall p, p ∈ producers (nd g c) <-> p = n \/ p = o) by (intros p; destruct Hps as [-> | ->]; set_solver).
  destruct (inv_join _ _ _ _ _ _ _ _ H o n Hod Hto Hoo) as (J1 & J2 & J3).
  eapply (planned_finish X ∅ S A costs N N' n _ 0 temps alg [] H Hf); simpl.
  - done.
  - done.
  - by rewrite Hcons'.
  - rewrite consumed_by_reads. by rewrite app_nil_r.
  - lia.
  - by apply temps_ok.
  - rewrite Hnew. case_bool_decide; [by destruct (wf_at cid rank g Hwf n Hn) as (_ & _ & _ & ? & _)|constructor].
  - intros i. rewrite Hnew. case_bool_decide as Es; [|by intros ?%elem_of_nil]. rewrite Ec, list_elem_of_singleton.
    intros ->. rewrite Hcons', Hstn. split; [by left|]. destruct Es as [-> Es]. split; [done|].
    intros p [->| ->]%Hpo; [by left|right]. split; [apply J1; congruence|congruence].
  - intros i. rewrite Hcons', list_elem_of_singleton. intros -> Hdone. rewrite Hnew.
    assert (Hdo : done N o) by (apply Hdone; [by apply Hpo; right|done]).
    assert (HnF : Some n <> Some o) by congruence.
    assert (Hsto : st N o = PDBJoinPhysicalNodeShuffled).
    { destruct (st N o) eqn:Es; [|done|done]. specialize (J2 Hdo HnF eq_refl).
      destruct (inv_join _ _ _ _ _ _ _ _ H n o Hn Ht Ho) as (K1 & _). exfalso. apply Hnp, K1. by rewrite J2. }
    rewrite bool_decide_true; [rewrite Ec; by left|]. split; [|done]. destruct s'; [done| |done].
    rewrite Hb in Hsto by done. done.
  - rewrite Halg. apply alg_reads_new.
  - done.
  - by rewrite Halg.
  - constructor.
  - intros i. split; [by intros ?%elem_of_nil|]. intros [?|[_ [w Hw]]]; [set_solver|].
    destruct (wf_write cid rank g Hwf n w Hn Hw) as [E _]. congruence.
Qed.

(** *** Pipelining one node into the next *)

Definition undone (N : nodes) : nat := length (filter (fun i => ~ done N i) (elements (dom g))).

Lemma filter_length_mono {A} (P Q : A -> Prop) `{!forall x, Decision (P x), !forall x, Decision (Q x)} (l : list A) :
  (forall x, P x -> Q x) -> length (filter P l) <= length (filter Q l).
Proof.
  intros Hpq. induction l as [|x l IH]; [done|]. rewrite !filter_cons.
  case_decide; case_decide; simpl; try lia. naive_solver.
Qed.
Lemma undone_less N N' s : s ∈ dom g -> ~ done N s -> done N' s ->
  (forall i, done N i -> done N' i) -> undone N' < undone N.
Proof.
  intros Hs Hn Hd Hmono. unfold undone. assert (Hin : s ∈ elements (dom g)) by by apply elem_of_elements.
  assert (Hnd : NoDup (elements (dom g))) by apply NoDup_elements.
  rewrite (length_without s (filter (fun i => ~ done N i) _)).
  2:{ by apply NoDup_filter. } 2:{ by apply list_elem_of_filter. }
  rewrite list_filter_filter. apply Nat.lt_succ_r, filter_length_mono. intros i Hi.
  rewrite list_elem_of_singleton. split; [|naive_solver]. by intros ->.
Qed.

Definition handed_on (N0 : nodes) (n c : nat) : nodes :=
  alter (set_primary (fun l => l ++ primarySources (nd N0 n))) c
    (alter (set_additional (fun _ => additionalSources (nd N0 n))) c N0).

Lemma handed_on_nd N0 n c i : c ∈ dom N0 ->
  nd (handed_on N0 n c) i =
  if decide (i = c) then set_primary (fun l => l ++ primarySources (nd N0 n))
                           (set_additional (fun _ => additionalSources (nd N0 n)) (nd N0 c))
  else nd N0 i.
Proof.
  intros Hc. unfold handed_on. case_decide as E.
  - subst. rewrite !nd_alter_eq; [done|done|by rewrite dom_alter_L].
  - by rewrite !nd_alter_ne.
Qed.

Lemma pipelined_run gen N0 n c : n ∈ dom N0 -> c ∈ dom N0 -> isUnioning (nd N0 c) = false ->
  generatePipelinedAlgorithm gen c n N0 = gen c c (handed_on N0 n c).
Proof.
  intros Hn Hc Hu. unfold generatePipelinedAlgorithm. rewrite (bind_Ok _ _ _ _ _ (node_at_Ok n N0 Hn)).
  rewrite (bind_Ok _ _ _ _ _ (update_Ok c _ N0)).
  rewrite (bind_Ok _ _ _ _ _ (node_at_Ok c _ ltac:(by rewrite dom_alter_L))).
  rewrite nd_alter_eq by done.
  change (isUnioning (set_additional (fun _ => additionalSources (nd N0 n)) (nd N0 c))) with (isUnioning (nd N0 c)).
  rewrite Hu. cbn [andb]. by rewrite (bind_Ok _ _ _ _ _ (update_Ok c _ _)).
Qed.

Lemma pipeline_step X S A costs N N0 n c :
  Inv (Some n) X S A costs N -> dom N0 = dom N -> (forall i, same_node (nd N i) (nd N0 i)) ->
  (forall i, primarySources (nd N0 i) = primarySources (nd N i)) ->
  (forall i, i <> n -> additionalSources (nd N0 i) = additionalSources (nd N i)) ->
  consumers (nd g n) = [c] ->
  map source_pageSet (additionalSources (nd N0 n)) =
    map source_pageSet (additionalSources (nd N n)) ++ map key (filter (produced N) (producers (nd g c))) ->
  (forall p, p ∈ producers (nd g c) -> done N p /\ (produced N p \/ p = n)) ->
  (forall o, nodeType (nd g n) = PDB_JOIN_SIDE_PIPELINE -> otherSide (nd g n) = Some o ->
     st N o = PDBJoinPhysicalNodeBroadcasted) ->
  Inv (Some c) X S A costs (handed_on N0 n c) /\ undone (handed_on N0 n c) < undone N /\
  (forall i, produced (handed_on N0 n c) i <-> produced N i) /\ (forall i, done N i -> done (handed_on N0 n c) i) /\
  forall gen, generatePipelinedAlgorithm gen c n N0 = gen c c (handed_on N0 n c).
Proof.
  intros H Hdom Hsame Hprim Hadd Hc Hreads Hps Hbro.
  destruct (fin_flight cid g H) as (Hn & HnX & Hdn & Hnp & HnS & Hec).
  destruct (wf_consumer cid rank g Hwf n c Hn) as (Hcd & Hpn & Hr); [rewrite Hc; by left|].
  destruct (Hec c) as (Hcn & HcS & HcX); [rewrite Hc; by left|].
  assert (Hdom0 : dom N0 = dom g) by by rewrite Hdom, (inv_dom _ _ _ _ _ _ _ _ H).
  assert (HcN : c ∈ dom N0) by by rewrite Hdom0.
  assert (Hnc : n <> c) by (intros ->; lia).
  pose proof (fun i => handed_on_nd N0 n c i HcN) as Hnd.
  assert (Hsame' : forall i, same_node (nd N i) (nd (handed_on N0 n c) i)).
  { intros i. rewrite Hnd. case_decide as E; [subst; apply (Hsame c)|apply Hsame]. }
  assert (Hpc : primarySources (nd N c) = []) by by apply dec_stable.
  assert (Hprim' : forall i, i <> c -> primarySources (nd (handed_on N0 n c) i) = primarySources (nd N i)).
  { intros i Hi. by rewrite Hnd, decide_False, Hprim. }
  assert (Hprimc : primarySources (nd (handed_on N0 n c) c) = primarySources (nd N n)).
  { rewrite Hnd, decide_True by done. simpl. by rewrite !Hprim, Hpc. }
  assert (Hdc : done (handed_on N0 n c) c) by (unfold done; by rewrite Hprimc).
  split; [|split; [|split; [|split]]].
  - replace S with (filter (fun i => i <> c) S) by (apply filter_every; intros i Hi ->; done).
    eapply (mark cid rank g Hwf (Some n) X S A costs N _ c []); try done.
    + by intros n' [=<-].
    + intros p Hp. destruct (Hps p Hp) as [? [?| ->]]; [naive_solver|by split; [|right]].
    + intros n' o [=<-]. apply Hbro.
    + unfold handed_on. by rewrite !dom_alter_L, Hdom.
    + intros i Hi. assert (Hic : i <> c) by (intros ->; done). rewrite Hnd, decide_False by done. apply Hadd.
      intros ->. apply Hi. unfold done. by rewrite Hprim'.
    + set_solver.
    + unfold reads at 1. rewrite Hprimc. rewrite Hnd, decide_True by done. simpl. rewrite Hreads. unfold reads.
      by rewrite <- app_assoc.
    + rewrite Hprimc. by destruct (inv_flight _ _ _ _ _ _ _ _ H n eq_refl) as (_ & _ & _ & _ & _ & _ & _ & ?).
  - apply (undone_less _ _ c Hcd Hcn Hdc). intros i Hi.
    destruct (decide (i = c)) as [->|Hi2]; [done|]. unfold done. by rewrite Hprim'.
  - intros i. unfold produced. by destruct (Hsame' i) as (_ & _ & _ & _ & _ & -> & _).
  - intros i Hi. destruct (decide (i = c)) as [->|Hi2]; [done|]. unfold done. by rewrite Hprim'.
  - intros gen. apply pipelined_run; [by rewrite Hdom0|done|].
    destruct (Hsame c) as (_ & _ & Ep & _). destruct (inv_shape _ _ _ _ _ _ _ _ H c Hcd) as (_ & _ & Ep2 & _).
    destruct (wf_at cid rank g Hwf c Hcd) as (_ & _ & _ & _ & _ & _ & Hu & _).
    unfold isUnioning, front_is in *. by rewrite Ep, Ep2.
Qed.

Lemma one_or_not (l : list nat) : (exists c, l = [c]) \/ (forall c, l <> [c]).
Proof. destruct l as [|c [|d l]]; [by right|left; by exists c|by right]. Qed.

(** What the recursive call is assumed to do. *)
Definition gen_ok (gen : nat -> nat -> MN PDBPlanningResult) (costs : PDBPageSetCosts) (bound : nat) : Prop :=
  forall n X S A N, Inv (Some n) X S A costs N -> undone N < bound ->
  exists r N', gen n n N = Ok r N' /\ planned X S A costs N r N'.

Lemma gen_pipelined gen costs bound X S A N N0 n c :
  gen_ok gen costs bound -> undone N <= bound ->
  Inv (Some c) X S A costs (handed_on N0 n c) /\ undone (handed_on N0 n c) < undone N /\
    (forall i, produced (handed_on N0 n c) i <-> produced N i) /\ (forall i, done N i -> done (handed_on N0 n c) i) /\
    (forall gen, generatePipelinedAlgorithm gen c n N0 = gen c c (handed_on N0 n c)) ->
  exists r N', generatePipelinedAlgorithm gen c n N0 = Ok r N' /\ planned X S A costs N r N'.
Proof.
  intros Hgen Hb (H2 & Hless & Hpr & Hdo & Hrun). rewrite Hrun.
  destruct (Hgen c X S A _ H2) as (r & N' & Er & Hpl); [lia|].
  exists r, N'. split; [done|]. by eapply planned_mono.
Qed.

Lemma straight_spec gen n X S A costs N :
  Inv (Some n) X S A costs N -> nodeType (nd g n) = PDB_STRAIGHT_PIPELINE -> gen_ok gen costs (undone N) ->
  exists r N', straight_generateAlgorithm gen n n N = Ok r N' /\ planned X S A costs N r N'.
Proof.
  intros H Ht Hgen. destruct (fin_flight cid g H) as (Hn & HnX & Hdn & Hnp & HnS & Hec).
  assert (HnN : n ∈ dom N) by by rewrite (inv_dom _ _ _ _ _ _ _ _ H).
  destruct (one_or_not (consumers (nd g n))) as [[c Hc]|Hnc]; [|by apply straight_end].
  unfold straight_generateAlgorithm. rewrite (bind_Ok _ _ _ _ _ (node_at_Ok n N HnN)).
  rewrite (flight_consumers cid g H n eq_refl), Hc.
  destruct (wf_straight_consumer cid rank g Hwf n c Hn) as (Ep & _); [congruence|rewrite Hc; by left|].
  apply (gen_pipelined gen costs (undone N)); [done|lia|].
  apply (pipeline_step X S A costs N N n c H); try done.
  - rewrite Ep. by rewrite filter_cons_False, app_nil_r.
  - intros p. rewrite Ep, list_elem_of_singleton. intros ->. naive_solver.
  - intros o Hj. congruence.
Qed.

(** The second side of a join whose first side was broadcast. *)
Lemma join_through gen n o X S A costs N ofinal :
  Inv (Some n) X S A costs N -> nodeType (nd g n) = PDB_JOIN_SIDE_PIPELINE -> otherSide (nd g n) = Some o ->
  st N o = PDBJoinPhysicalNodeBroadcasted -> getOutputName ofinal = outputName (nd g o) ->
  gen_ok gen costs (undone N) ->
  exists r N', (_ <- update_node n (set_additional (fun l => l ++ [mkSourceSpec BroadcastJoinSource (cid, getOutputName ofinal)])) ;;
      _ <- assert (bool_decide (length (consumers (nd N n)) = 1)) ;;
      c <- front_of (consumers (nd N n)) ;; generatePipelinedAlgorithm gen c n) N = Ok r N' /\
    planned X S A costs N r N'.
Proof.
  intros H Ht Eo Hso Hout Hgen. destruct (fin_flight cid g H) as (Hn & HnX & Hdn & Hnp & HnS & Hec).
  assert (HnN : n ∈ dom N) by by rewrite (inv_dom _ _ _ _ _ _ _ _ H).
  destruct (wf_side cid rank g Hwf n Hn Ht) as (c & o' & Ec & Hj & Hcd & Eo' & Hod & Hon & Hto & Hoo & Eco & Hpc).
  assert (o' = o) as -> by congruence. clear Eo'.
  destruct (inv_join _ _ _ _ _ _ _ _ H o n Hod Hto Hoo) as (K1 & K2 & K3).
  assert (Hpo : produced N o) by (apply K1; by rewrite Hso).
  pose proof (flight_consumers cid g H n eq_refl) as Econs.
  rewrite (bind_Ok _ _ _ _ _ (update_Ok n _ N)). rewrite Econs, Ec, bool_decide_true by done.
  set (N0 := alter _ n N). rewrite (bind_Ok _ _ _ tt N0) by done. rewrite (bind_Ok _ _ _ c N0) by done.
  apply (gen_pipelined gen costs (undone N)); [done|lia|].
  assert (Hnd : forall i, i <> n -> nd N0 i = nd N i) by (intros i Hi; unfold N0; by rewrite nd_alter_ne).
  assert (Hndn : nd N0 n = set_additional (fun l => l ++ [mkSourceSpec BroadcastJoinSource (cid, getOutputName ofinal)]) (nd N n))
    by (unfold N0; by rewrite nd_alter_eq).
  apply (pipeline_step X S A costs N N0 n c H); try done.
  - unfold N0. by rewrite dom_alter_L.
  - intros i. destruct (decide (i = n)) as [->|Hi]; [by rewrite Hndn|by rewrite Hnd].
  - intros i. destruct (decide (i = n)) as [->|Hi]; [by rewrite Hndn|by rewrite Hnd].
  - intros i Hi. by rewrite Hnd.
  - rewrite Hndn. simpl. rewrite map_app. f_equal. simpl. rewrite Hout.
    destruct Hpc as [-> | ->]; rewrite ?filter_cons, ?filter_nil; by rewrite (decide_True _ _ Hpo), decide_False by done.
  - intros p Hp. assert (p = n \/ p = o) as [->| ->] by (destruct Hpc as [E|E]; rewrite E in Hp; set_solver).
    + split; [done|by right].
    + split; [by eapply (produced_done cid g H)|by left].
  - intros o' _ Eo'. congruence.
Qed.

(** A side that gets a page set of its own. *)
Lemma join_alone n o X S A costs N final :
  Inv (Some n) X S A costs N -> nodeType (nd g n) = PDB_JOIN_SIDE_PIPELINE -> otherSide (nd g n) = Some o ->
  st N o <> PDBJoinPhysicalNodeBroadcasted -> getOutputName final = outputName (nd g n) -> forall cost : Z,
  let name := outputName (nd g n) in
  let broadcast := bool_decide (cost < threshold)%Z && bool_decide (st N o = PDBJoinPhysicalNodeNotProcessed) in
  let s' := if broadcast then PDBJoinPhysicalNodeBroadcasted else PDBJoinPhysicalNodeShuffled in
  let sufs := if broadcast then ["_hashed_to_send"; "_hashed_to_recv"] else ["_to_shuffle"] in
  let k := if broadcast
    then BroadcastForJoin (mkSinkSpec BroadcastIntermediateJoinSink (cid, name +:+ "_hashed_to_send"))
                          (mkSourceSpec BroadcastIntermediateJoinSource (cid, name +:+ "_hashed_to_recv"))
    else ShuffleForJoin (mkSinkSpec JoinShuffleIntermediateSink (cid, name +:+ "_to_shuffle")) in
  let temps := map (fun s => (cid, name +:+ s)) sufs in
  planned X S A costs N
    (mkResult GENERATED_ALGORITHM
       (Some (PDBPhysicalAlgorithm_new k (primarySources (nd N n)) final (mkSinkSpec (join_sink s') (key n))
                (additionalSources (nd N n)) []))
       (if bool_decide (s' = PDBJoinPhysicalNodeShuffled /\ st N o = PDBJoinPhysicalNodeShuffled)
        then consumers (nd g n) else [])
       (consumed_by (primarySources (nd N n)) (additionalSources (nd N n)) temps)
       ((key n, 1%Z) :: map (fun t => (t, 1%Z)) temps))
    (alter (set_state s') n (alter (set_sink (true, mkSinkSpec (join_sink s') (key n))) n N)).
Proof.
  intros H Ht Eo Hso Hout cost name broadcast s' sufs k temps.
  eapply (join_end X S A costs N n o s' k _ sufs); try done; unfold s', sufs, k, temps, broadcast.
  - by destruct (_ && _).
  - destruct (bool_decide (cost < threshold)%Z); [|done]. simpl. by case_bool_decide.
  - destruct (_ && _); by apply (bool_decide_unpack _).
  - destruct (_ && _); by apply (bool_decide_unpack _).
  - intros s. unfold names_of. rewrite Ht. destruct (_ && _); set_solver.
  - destruct (_ && _); done.
Qed.

Lemma join_spec gen n X S A costs N :
  Inv (Some n) X S A costs N -> nodeType (nd g n) = PDB_JOIN_SIDE_PIPELINE -> gen_ok gen costs (undone N) ->
  exists r N', join_generateAlgorithm threshold costs gen n N = Ok r N' /\ planned X S A costs N r N'.
Proof.
  intros H Ht Hgen. destruct (fin_flight cid g H) as (Hn & HnX & Hdn & Hnp & HnS & Hec).
  assert (HnN : n ∈ dom N) by by rewrite (inv_dom _ _ _ _ _ _ _ _ H).
  destruct (wf_side cid rank g Hwf n Hn Ht) as (c & o & Ec & Hj & Hcd & Eo & Hod & Hon & Hto & Hoo & _).
  assert (HoN : o ∈ dom N) by by rewrite (inv_dom _ _ _ _ _ _ _ _ H).
  destruct (inv_join _ _ _ _ _ _ _ _ H n o Hn Ht Eo) as (J1 & _).
  assert (Hst : st N n = PDBJoinPhysicalNodeNotProcessed).
  { destruct (st N n) eqn:E; [done| |]; exfalso; apply Hnp, J1; done. }
  destruct (inv_shape _ _ _ _ _ _ _ _ H n Hn) as (E1 & E2 & E3 & E4 & _).
  destruct (inv_shape _ _ _ _ _ _ _ _ H o Hod) as (_ & _ & O3 & _).
  destruct (wf_at cid rank g Hwf n Hn) as (Ecid & _).
  destruct (final_of o Hod) as (ofinal & Hofin & Hoout). destruct (final_of n Hn) as (final & Hfin & Hout).
  unfold join_generateAlgorithm. rewrite (bind_Ok _ _ _ _ _ (node_at_Ok n N HnN)), Hst.
  rewrite bool_decide_true by done. rewrite (bind_Ok _ _ _ tt N) by done. rewrite E2, E3, E4, Eo, Ecid.
  rewrite (bind_Ok _ _ _ o N) by done. rewrite (bind_Ok _ _ _ _ _ (node_at_Ok o N HoN)).
  case_bool_decide as Hso.
  - rewrite O3, (bind_Ok _ _ _ _ _ (back_Ok _ _ N Hofin)). by apply join_through with (o := o).
  - rewrite (bind_Ok _ _ _ _ _ (back_Ok _ _ N Hfin)). cbn zeta. rewrite Hout.
    destruct (inv_flight _ _ _ _ _ _ _ _ H n eq_refl) as (_ & _ & _ & _ & _ & _ & _ & Hcosts).
    destruct (sum_costs_Ok costs (primarySources (nd N n)) 0 N Hcosts) as [cost Hsum].
    rewrite (bind_Ok _ _ _ cost N) by done.
    pose proof (join_alone n o X S A costs N final H Ht Eo Hso Hout cost) as Hpl. cbn zeta in Hpl.
    destruct (bool_decide (cost < threshold)%Z && bool_decide (st N o = PDBJoinPhysicalNodeNotProcessed)) eqn:Eb.
    + eexists _, _. split; [|exact Hpl]. done.
    + eexists _, _. split; [|exact Hpl].
      rewrite !run_update.
      rewrite run_node_at by by rewrite !dom_alter_L.
      rewrite !nd_alter_ne by done. rewrite (flight_consumers cid g H n eq_refl).
      by rewrite (bool_decide_ext (_ /\ _) (st N o = PDBJoinPhysicalNodeShuffled)) by naive_solver.
Qed.

Lemma generate_spec fuel : forall costs, gen_ok (generateAlgorithm true threshold costs fuel) costs fuel.
Proof.
  induction fuel as [|fuel IH]; intros costs n X S A N H Hf; [lia|].
  destruct (fin_flight cid g H) as (Hn & _).
  assert (HnN : n ∈ dom N) by by rewrite (inv_dom _ _ _ _ _ _ _ _ H).
  destruct (inv_shape _ _ _ _ _ _ _ _ H n Hn) as (E1 & _).
  assert (Hgen : gen_ok (generateAlgorithm true threshold costs fuel) costs (undone N)).
  { intros n' X' S' A' N' H' Hl. apply (IH costs n' X' S' A' N' H'). lia. }
  cbn [generateAlgorithm]. rewrite (bind_Ok _ _ _ _ _ (node_at_Ok n N HnN)), E1.
  destruct (nodeType (nd g n)) eqn:Ht; [by apply straight_spec|by apply aggregation_end|by apply join_spec].
Qed.
End planning.
