(* ===== verification/PhysicalBuild.v ===== *)
(** What PDBPipeNodeBuilder.cc makes of a list of computations, whatever the
    list is: it comes to an end, the links of the nodes agree in both
    directions, and the nodes it returns are the scans. *)

From S2P Require Import Prelude AtomicComputation AtomicComputationList PhysicalNodes PhysicalOptimizer PhysicalInv PhysicalSteps.

(** Every outcome is tolerated but running out of fuel. *)
Definition has_fuel (f : failure) : Prop := f <> FNoFuel.

(** ** The graph under construction *)
Definition scans_of (h : nodes) (n : nat) : list nat := filter (fun i => hasScanSet (nd h i) = true) (seq 0 n).

Record graph_ok (n : nat) (srcs : list nat) (h : nodes) : Prop := {
  graph_dom : dom h = set_seq 0 n;
  graph_links : forall i c, cnt c (consumers (nd h i)) = cnt i (producers (nd h c));
  graph_sources : srcs = scans_of h n
}.

Record builder_ok (b : PDBPipeNodeBuilder) : Prop := {
  ok_graph : graph_ok (currentNodeIndex b) (physicalSourceNodes b) (heap b);
  ok_nodes : forall k i, physicalNodes b !! k = Some i -> i < currentNodeIndex b;
  ok_starts : forall k l i, startsWith b !! k = Some l -> i ∈ l -> i < currentNodeIndex b
}.

(** What a step of the traversal may change, and what most operations leave alone. *)
Definition step_ok (b b' : PDBPipeNodeBuilder) : Prop :=
  builder_ok b' /\ visitedNodes b ⊆ visitedNodes b' /\ comps (atomicComps b') = comps (atomicComps b).
Definition quiet (b b' : PDBPipeNodeBuilder) : Prop :=
  heap b' = heap b /\ currentNodeIndex b' = currentNodeIndex b /\ physicalSourceNodes b' = physicalSourceNodes b /\
  physicalNodes b' = physicalNodes b /\ startsWith b' = startsWith b /\
  visitedNodes b' = visitedNodes b /\ comps (atomicComps b') = comps (atomicComps b).
Lemma quiet_ok b b' : builder_ok b -> quiet b b' -> builder_ok b'.
Proof.
  intros [[]] (E1 & E2 & E3 & E4 & E5 & _ & _). split; [split|..]; rewrite ?E1, ?E2, ?E3, ?E4, ?E5; done.
Qed.
Lemma quiet_step b b' : builder_ok b -> quiet b b' -> step_ok b b'.
Proof.
  intros Hb H. split; [by eapply quiet_ok|]. destruct H as (_ & _ & _ & _ & _ & E & ?). by rewrite E.
Qed.
Lemma quiet_trans a b c : quiet a b -> quiet b c -> quiet a c.
Proof.
  intros (? & ? & ? & ? & ? & ? & ?) (? & ? & ? & ? & ? & ? & ?). split_and!; congruence.
Qed.
Lemma step_refl b : builder_ok b -> step_ok b b.
Proof. intros H. by split. Qed.
Lemma step_trans a b c : step_ok a b -> step_ok b c -> step_ok a c.
Proof. intros (_ & E1 & E2) (? & F1 & F2). split_and!; [done|set_solver|congruence]. Qed.

Abbreviation wpf := (wp has_fuel).

(** Operations that leave the nodes alone. *)
Definition calm {A} (m : M PDBPipeNodeBuilder A) : Prop := forall b, wpf m (fun _ b' => quiet b b') b.

Lemma calm_bind {A B} (m : M PDBPipeNodeBuilder A) (k : A -> M PDBPipeNodeBuilder B) :
  calm m -> (forall a, calm (k a)) -> calm (bind m k).
Proof.
  intros Hm Hk b. apply wp_bind. eapply wp_mono; [apply Hm|]. intros a b' H. simpl in H.
  eapply wp_mono; [apply Hk|]. intros x b'' H'. simpl in H'. by eapply quiet_trans.
Qed.
Lemma calm_mret {A} (a : A) : calm (mret a).
Proof. done. Qed.
Lemma calm_get : calm get.
Proof. done. Qed.
Lemma calm_ub {A} f : calm (ub f : M _ A).
Proof. intros b. by intros ?. Qed.
Lemma calm_unwrap {A} f (o : option A) : calm (unwrap f o).
Proof. destruct o; [apply calm_mret|apply calm_ub]. Qed.
Lemma calm_assert c : calm (assert c).
Proof. destruct c; [apply calm_mret|apply calm_ub]. Qed.
Lemma calm_modify f : (forall b, quiet b (f b)) -> calm (modify f).
Proof. intros Hf b. by apply Hf. Qed.

Lemma deref_comps a p : wp has_fuel (deref a) (fun c p' => p' = p /\ exists x, a = Some x /\ comps p !! x = Some c) p.
Proof.
  destruct a as [a|]; [|by intros ?]. unfold deref. apply wp_bind, wp_get. apply wp_unwrap; [by intros _ ?|].
  intros c Hc. split; [done|by exists a].
Qed.
Lemma on_comps_wp {A} (m : M PlanState A) Q b :
  wp has_fuel m (fun a p => Q a (set_atomicComps p b)) (atomicComps b) -> wpf (on_comps m) Q b.
Proof. unfold wp, on_comps, on_part. by destruct (m (atomicComps b)). Qed.

Lemma calm_deref a : calm (on_comps (deref a)).
Proof.
  intros b. apply on_comps_wp. eapply wp_mono; [apply deref_comps|]. by intros c p' [-> _].
Qed.
Lemma calm_consuming k : calm (on_comps (getConsumingAtomicComputations k)).
Proof.
  intros b. apply on_comps_wp. unfold getConsumingAtomicComputations. apply wp_bind, wp_get.
  destruct (AtomicComputationList.consumers _ !! k); [done|]. by apply wp_bind, wp_put.
Qed.
Lemma calm_scans : calm (on_comps getAllScanSets).
Proof. intros b. by apply on_comps_wp. Qed.
Lemma calm_deref_all l : calm (deref_all l).
Proof.
  induction l as [|a l IH]; [apply calm_mret|]. apply calm_bind; [apply calm_deref|]. intros c.
  apply calm_bind; [done|]. intros cs. apply calm_mret.
Qed.
Lemma calm_front {A} (l : list A) : calm (front_of l).
Proof. apply calm_unwrap. Qed.
Lemma calm_back {A} (l : list A) : calm (back_of l).
Proof. apply calm_unwrap. Qed.
Lemma calm_clear : calm clear_pipe.
Proof. by apply calm_modify. Qed.
Lemma calm_push l : calm (push_pipe l).
Proof. by apply calm_modify. Qed.
Lemma calm_pop : calm pop_pipe.
Proof.
  intros b. unfold pop_pipe. apply wp_bind, wp_get. destruct (currentPipe b); [by intros ?|done].
Qed.
Create HintDb calm discriminated.
#[export] Hint Resolve calm_bind calm_mret calm_get calm_ub calm_unwrap calm_assert calm_deref
  calm_consuming calm_scans calm_deref_all calm_front calm_back calm_clear calm_push calm_pop : calm.

Lemma calm_setConsumers n : calm (setConsumers n).
Proof.
  assert (Hset : forall f, calm (modify (set_consumedBy f))).
  { intros f. by apply calm_modify. }
  unfold setConsumers. apply calm_bind; [auto with calm|]. intros b. apply calm_bind; [auto with calm|]. intros x.
  apply calm_bind; [auto with calm|]. intros c. apply calm_bind; [auto with calm|]. intros [|y [|z l]]; auto with calm.
Qed.

(** *** A new node *)
Lemma nd_insert_eq h i n : nd (<[i := n]> h) i = n.
Proof. unfold nd. by rewrite lookup_insert_eq. Qed.
Lemma nd_insert_ne h i j n : i <> j -> nd (<[i := n]> h) j = nd h j.
Proof. intros H. unfold nd. by rewrite lookup_insert_ne. Qed.
Lemma nd_beyond n srcs h i : graph_ok n srcs h -> n <= i -> nd h i = no_node.
Proof.
  intros H Hi. unfold nd. assert (Hn : h !! i = None); [|by rewrite Hn].
  apply not_elem_of_dom. rewrite (graph_dom _ _ _ H). rewrite elem_of_set_seq. lia.
Qed.

Lemma graph_new n srcs h T pipe cid : graph_ok n srcs h ->
  let new := PDBPhysicalNode_new T pipe cid in
  graph_ok (S n) (if hasScanSet new then srcs ++ [n] else srcs) (<[n := new]> h).
Proof.
  intros H new. pose proof (nd_beyond n srcs h n H (le_n n)) as Hbeyond. split.
  - rewrite dom_insert_L, (graph_dom _ _ _ H), set_seq_S_end_union_L. set_solver.
  - assert (Hc : forall i, consumers (nd (<[n := new]> h) i) = consumers (nd h i)).
    { intros i. destruct (decide (n = i)) as [<-|Hi]; [by rewrite nd_insert_eq, Hbeyond|by rewrite nd_insert_ne]. }
    assert (Hp : forall i, producers (nd (<[n := new]> h) i) = producers (nd h i)).
    { intros i. destruct (decide (n = i)) as [<-|Hi]; [by rewrite nd_insert_eq, Hbeyond|by rewrite nd_insert_ne]. }
    intros i c. rewrite Hc, Hp. apply (graph_links _ _ _ H).
  - rewrite (graph_sources _ _ _ H). unfold scans_of. rewrite seq_S, filter_app. simpl.
    assert (Hf : filter (fun i => hasScanSet (nd (<[n := new]> h) i) = true) (seq 0 n) =
                 filter (fun i => hasScanSet (nd h i) = true) (seq 0 n)).
    { apply filter_agree. intros i Hi. apply elem_of_seq in Hi. rewrite nd_insert_ne by lia. done. }
    rewrite Hf, filter_cons, nd_insert_eq, filter_nil. destruct (hasScanSet new); [by rewrite decide_True|].
    rewrite decide_False by done. by rewrite app_nil_r.
Qed.

Lemma create_ok cid T b : builder_ok b -> wpf (createPhysicalPipeline cid T) (fun _ b' => step_ok b b') b.
Proof.
  intros Hb. unfold createPhysicalPipeline. apply wp_bind, wp_get.
  apply wp_bind. eapply wp_mono; [by apply calm_assert|]. intros [] b1 H1. simpl in H1.
  apply wp_bind. eapply wp_mono; [apply calm_deref_all|]. intros pipe b2 H2. simpl in H2.
  pose proof (quiet_trans _ _ _ H1 H2) as H12. pose proof (quiet_ok _ _ Hb H12) as Hb2.
  apply wp_bind, wp_get, wp_bind, wp_put. set (new := PDBPhysicalNode_new T pipe cid). set (n := currentNodeIndex b2).
  apply wp_bind. eapply wp_mono; [apply calm_setConsumers|]. intros [] b3 (E1 & E2 & E3 & E4 & E5 & E6 & E7). simpl in *.
  apply wp_bind. eapply wp_mono; [apply calm_front|]. intros first b4 (F1 & F2 & F3 & F4 & F5 & F6 & F7).
  apply wp_modify. destruct Hb2 as [Hg Hn Hs]. destruct H12 as (_ & _ & _ & _ & _ & V & C).
  split; [split; simpl|split; simpl].
  - rewrite F2, E2, F1, E1, F3, E3. by apply graph_new.
  - rewrite F4, E4, F2, E2. intros k i [[_ <-]|[_ Hk]]%lookup_insert_Some; [lia|]. apply Hn in Hk. lia.
  - rewrite F5, E5, F2, E2. intros k l i [[<- <-]|[_ Hk]]%lookup_insert_Some Hi.
    + apply elem_of_app in Hi as [Hi|Hi%list_elem_of_singleton]; [|fold n; lia].
      destruct (startsWith b2 !! getOutputName first) eqn:El; [|by apply not_elem_of_nil in Hi]. specialize (Hs _ _ _ El Hi). lia.
    + specialize (Hs _ _ _ Hk Hi). lia.
  - by rewrite F6, E6, V.
  - by rewrite F7, E7, C.
Qed.

(** ** The traversal *)

(** Operations that keep the graph in order. *)
Definition keeps {A} (m : M PDBPipeNodeBuilder A) : Prop :=
  forall b, builder_ok b -> wpf m (fun _ b' => step_ok b b') b.
Lemma keeps_calm {A} (m : M PDBPipeNodeBuilder A) : calm m -> keeps m.
Proof. intros Hm b Hb. eapply wp_mono; [apply Hm|]. intros a b' H. by apply quiet_step. Qed.
Lemma steps_bind {A B} (m : M PDBPipeNodeBuilder A) (k : A -> M PDBPipeNodeBuilder B) :
  keeps m -> (forall a, keeps (k a)) -> keeps (bind m k).
Proof.
  intros Hm Hk b Hb. apply wp_bind. eapply wp_mono; [by apply Hm|]. intros a b' H. simpl in H.
  eapply wp_mono; [apply Hk, H|]. intros x b'' H'. simpl in H'. by eapply step_trans.
Qed.
Lemma keeps_create cid T : keeps (createPhysicalPipeline cid T).
Proof. intros b. apply create_ok. Qed.
#[export] Hint Resolve steps_bind keeps_create : calm.
#[export] Hint Extern 5 (keeps _) => apply keeps_calm : calm.

Lemma keeps_break cid a : keeps (break_pipe cid a).
Proof.
  unfold break_pipe. apply steps_bind; [auto with calm|]. intros c. destruct (getAtomicComputationTypeID c);
    repeat (apply steps_bind; [auto with calm|intros]); auto with calm.
Qed.
Lemma keeps_split cid l : keeps (split_pipe cid l).
Proof.
  unfold split_pipe. apply steps_bind; [auto with calm|]. intros b. destruct (_ && _); [|auto with calm].
  repeat (apply steps_bind; [auto with calm|intros]); [|auto with calm].
  destruct (_ && _); [auto with calm|]. apply steps_bind; auto with calm.
Qed.

(** The computations that have not been visited. *)
Definition unvisited (b : PDBPipeNodeBuilder) : nat :=
  size (dom (comps (atomicComps b)) ∖ visitedNodes b).
Lemma unvisited_mono b b' : step_ok b b' -> unvisited b' <= unvisited b.
Proof. intros (_ & Hv & E). unfold unvisited. rewrite E. apply subseteq_size. set_solver. Qed.

Lemma transverse_ok cid fuel : forall a b, builder_ok b -> unvisited b < fuel ->
  wpf (transverseTCAPGraph cid fuel a) (fun _ b' => step_ok b b') b.
Proof.
  induction fuel as [|fuel IH]; intros a b Hb Hf; [lia|]. cbn [transverseTCAPGraph].
  apply wp_bind, wp_get. case_bool_decide as Hv.
  { apply (steps_bind (A := unit)); [auto with calm| |done]. intros _. apply steps_bind; [auto with calm|]. intros b1.
    apply steps_bind; [|auto with calm]. destruct (bool_decide _); auto with calm. }
  apply wp_bind, wp_modify. set (b0 := set_visited (fun v => {[a]} ∪ v) b).
  assert (Hb0 : builder_ok b0) by (destruct Hb; by split).
  assert (S0 : step_ok b b0) by (split; [done|]; split; [simpl; set_solver|done]).
  apply wp_bind. eapply wp_mono; [by apply keeps_break|]. intros [] b1 S1. simpl in S1.
  apply wp_bind. eapply wp_mono; [apply (wp_mono _ _ (fun c b' => quiet b1 b' /\ a ∈ dom (comps (atomicComps b')))); [|auto; exact (fun _ _ H => H)]|].
  { apply on_comps_wp. eapply wp_mono; [apply deref_comps|]. intros c p' (-> & x & [=<-] & Hc).
    split; [done|]. simpl. by apply elem_of_dom_2 in Hc. }
  intros c b2 [Q2 Ha]. pose proof (step_trans _ _ _ S1 (quiet_step _ _ (proj1 S1) Q2)) as S2.
  apply wp_bind. eapply wp_mono; [apply calm_consuming|]. intros l b3 Q3. simpl in Q3.
  pose proof (step_trans _ _ _ S2 (quiet_step _ _ (proj1 S2) Q3)) as S3.
  apply wp_bind. eapply wp_mono; [by apply keeps_split, S3|]. intros moved b4 S4'. simpl in S4'.
  pose proof (step_trans _ _ _ S3 S4') as S4.
  assert (Hless : unvisited b4 < unvisited b).
  { assert (unvisited b0 < unvisited b); [|pose proof (unvisited_mono _ _ S4); lia].
    unfold unvisited. apply subset_size. simpl. destruct Q2 as (_ & _ & _ & _ & _ & _ & C2). destruct S1 as (_ & _ & C1).
    rewrite C2, C1 in Ha. simpl in Ha. set_solver. }
  assert (Hloop : forall l b', builder_ok b' -> unvisited b' < fuel ->
    wpf (for_each l (fun consumer => _ <- push_pipe (moved ++ [consumer]) ;; transverseTCAPGraph cid fuel consumer))
      (fun _ b'' => step_ok b' b'') b').
  { induction l0 as [|x l0 IHl]; intros b' Hb' Hf'; [by apply step_refl|]. cbn [for_each].
    apply wp_bind, wp_bind. eapply wp_mono; [apply calm_push|]. intros [] b5 Q5. simpl in Q5.
    pose proof (quiet_step _ _ Hb' Q5) as S5. pose proof (unvisited_mono _ _ S5).
    eapply wp_mono; [apply IH; [apply S5|lia]|]. intros [] b6 S6. simpl in S6. pose proof (step_trans _ _ _ S5 S6) as S56.
    pose proof (unvisited_mono _ _ S56).
    eapply wp_mono; [apply IHl; [apply S6|lia]|]. intros [] b7 S7. by eapply step_trans. }
  eapply wp_mono; [apply Hloop; [apply S4|lia]|]. intros [] b5 S5. simpl in S5.
  by eapply step_trans, step_trans.
Qed.

(** ** Connecting the nodes *)

Lemma nd_alter f i j h : nd (alter f i h) j = if decide (i = j /\ i ∈ dom h) then f (nd h j) else nd h j.
Proof.
  case_decide as E; [destruct E as [<- Hi]; by apply nd_alter_eq|].
  destruct (decide (i = j)) as [<-|Hij]; [|by apply nd_alter_ne].
  unfold nd. rewrite lookup_alter_eq. assert (Hn : h !! i = None) by (apply not_elem_of_dom; tauto). by rewrite Hn.
Qed.

Lemma scans_same h h' n : (forall i, pipeline (nd h' i) = pipeline (nd h i)) -> scans_of h' n = scans_of h n.
Proof. intros Hp. apply list_filter_iff. intros i. unfold hasScanSet, front_is. by rewrite Hp. Qed.

Lemma addConsumer_ok n srcs h i c : graph_ok n srcs h -> i < n -> c < n ->
  exists h', addConsumer i c h = Ok tt h' /\ graph_ok n srcs h'.
Proof.
  intros H Hi Hc. eexists. split; [reflexivity|].
  assert (Hdom : forall j, j < n -> j ∈ dom h) by (intros j Hj; rewrite (graph_dom _ _ _ H), elem_of_set_seq; lia).
  split.
  - rewrite !dom_alter_L. apply (graph_dom _ _ _ H).
  - intros j d. rewrite !nd_alter, !dom_alter_L.
    assert (E1 : forall x : PDBAbstractPhysicalNode, cnt d (consumers (if decide (c = j /\ c ∈ dom h) then set_nprods (fun l => l ++ [i]) x else x)) =
      cnt d (consumers x)) by (intros x; by case_decide).
    rewrite E1. clear E1. pose proof (graph_links _ _ _ H j d) as Hl.
    destruct (decide (i = j /\ i ∈ dom h)) as [[<- _]|Hij]; destruct (decide (c = d /\ c ∈ dom h)) as [[<- _]|Hcd]; simpl.
    + assert (E2 : producers (if decide (i = c /\ i ∈ dom h) then set_ncons (fun l => l ++ [c]) (nd h c) else nd h c) =
        producers (nd h c)) by by case_decide. rewrite E2, !cnt_app, Hl. by rewrite !(cnt_NoDup _ [_]) by (apply NoDup_singleton || by left).
    + assert (Hne : c <> d) by (intros ->; apply Hcd; split; [done|by apply Hdom]).
      assert (E2 : producers (if decide (i = d /\ i ∈ dom h) then set_ncons (fun l => l ++ [c]) (nd h d) else nd h d) =
        producers (nd h d)) by by case_decide. rewrite E2, cnt_app, (cnt_none d [c]) by set_solver. lia.
    + assert (Hne : i <> j) by (intros ->; apply Hij; split; [done|by apply Hdom]).
      assert (E2 : producers (if decide (i = c /\ i ∈ dom h) then set_ncons (fun l => l ++ [c]) (nd h c) else nd h c) =
        producers (nd h c)) by by case_decide. rewrite E2, cnt_app, (cnt_none j [i]) by set_solver. lia.
    + assert (E2 : producers (if decide (i = d /\ i ∈ dom h) then set_ncons (fun l => l ++ [c]) (nd h d) else nd h d) =
        producers (nd h d)) by by case_decide. by rewrite E2.
  - rewrite (graph_sources _ _ _ H). symmetry. apply scans_same. intros j. rewrite !nd_alter. by repeat case_decide.
Qed.

(** After the traversal only links change. *)
Definition linked (b b' : PDBPipeNodeBuilder) : Prop :=
  builder_ok b' /\ currentNodeIndex b' = currentNodeIndex b.
Lemma linked_trans a b c : linked a b -> linked b c -> linked a c.
Proof. intros (_ & E) (? & F). split; [done|congruence]. Qed.

Lemma for_each_linked {A} (P : A -> Prop) (body : A -> M PDBPipeNodeBuilder unit) n :
  (forall x b, P x -> builder_ok b -> currentNodeIndex b = n -> wpf (body x) (fun _ b' => linked b b') b) ->
  forall l b, (forall x, x ∈ l -> P x) -> builder_ok b -> currentNodeIndex b = n ->
  wpf (for_each l body) (fun _ b' => linked b b') b.
Proof.
  intros Hbody l. induction l as [|x l IH]; intros b Hl Hb Hn; [by split|]. cbn [for_each].
  apply wp_bind. eapply wp_mono; [apply Hbody; [apply Hl; by left|done|done]|]. intros [] b1 H1. simpl in H1.
  destruct (H1) as [Hb1 Hn1]. eapply wp_mono; [apply IH; [intros y Hy; apply Hl; by right|done|congruence]|].
  intros [] b2 H2. by eapply linked_trans.
Qed.

Lemma add_linked i c b : builder_ok b -> i < currentNodeIndex b -> c < currentNodeIndex b ->
  wpf (on_heap (addConsumer i c)) (fun _ b' => linked b b') b.
Proof.
  intros [Hg Hn Hs] Hi Hc. destruct (addConsumer_ok _ _ _ i c Hg Hi Hc) as (h' & E & Hg').
  unfold on_heap, on_part, wp. rewrite E. split; [by split|done].
Qed.

Lemma connect_node_ok i b : builder_ok b -> i < currentNodeIndex b ->
  wpf (connect_node i) (fun _ b' => linked b b') b.
Proof.
  intros Hb Hi. unfold connect_node. apply wp_bind. unfold consumedBy_at at 1. apply wp_bind, wp_get, wp_bind, wp_put, wp_mret.
  set (b1 := set_consumedBy _ b). assert (Hb1 : builder_ok b1) by (destruct Hb; by split).
  eapply wp_mono; [apply (for_each_linked (fun _ => True) _ (currentNodeIndex b)); [|done|done|done]|].
  - intros k b2 _ Hb2 En. apply wp_bind. unfold startsWith_at. apply wp_bind, wp_get, wp_bind, wp_put, wp_mret.
    assert (Hin : forall x, x ∈ default [] (startsWith b2 !! k) -> x < currentNodeIndex b2).
    { intros x Hx. destruct (startsWith b2 !! k) eqn:Ek; [by eapply ok_starts|by apply not_elem_of_nil in Hx]. }
    eapply wp_mono; [apply (for_each_linked (fun x => x < currentNodeIndex b2) _ (currentNodeIndex b2)); [|done| |done]|].
    + intros x b3 Hx Hb3 E3. apply add_linked; [done|lia|lia].
    + destruct Hb2 as [Hg Hn Hs]. split; [done|done|]. simpl. intros k' l x Hk Hx.
      apply lookup_insert_Some in Hk as [[_ <-]|[_ Hk]]; [by apply Hin|by eapply Hs].
    + intros [] b3 [Hb3 E3]. by split.
  - intros [] b2 [Hb2 E2]. by split.
Qed.

Lemma set_otherSide_ok n srcs h i o : graph_ok n srcs h -> graph_ok n srcs (alter (set_otherSide o) i h).
Proof.
  intros H. assert (Hsame : forall j, consumers (nd (alter (set_otherSide o) i h) j) = consumers (nd h j) /\
    producers (nd (alter (set_otherSide o) i h) j) = producers (nd h j) /\
    pipeline (nd (alter (set_otherSide o) i h) j) = pipeline (nd h j)) by (intros j; rewrite nd_alter; by case_decide).
  split.
  - rewrite dom_alter_L. apply (graph_dom _ _ _ H).
  - intros j d. destruct (Hsame j) as (-> & _). destruct (Hsame d) as (_ & -> & _). apply (graph_links _ _ _ H).
  - rewrite (graph_sources _ _ _ H). symmetry. apply scans_same. intros j. by destruct (Hsame j) as (_ & _ & ->).
Qed.

Lemma set_other_ok n srcs h i o : graph_ok n srcs h -> wp has_fuel (set_other i o) (fun _ h' => graph_ok n srcs h') h.
Proof.
  intros H. unfold set_other, node_at. apply wp_bind, wp_bind, wp_get. apply wp_unwrap; [by intros _ ?|]. intros nd1 _.
  case_bool_decide; [|by intros ?]. by apply wp_modify, set_otherSide_ok.
Qed.

Lemma connect_join_ok i b : builder_ok b -> wpf (on_heap (connect_join i)) (fun _ b' => linked b b') b.
Proof.
  intros [Hg Hn Hs].
  assert (Hj : wp has_fuel (connect_join i) (fun _ h' => graph_ok (currentNodeIndex b) (physicalSourceNodes b) h') (heap b)).
  { unfold connect_join, node_at. apply wp_bind, wp_bind, wp_get. apply wp_unwrap; [by intros _ ?|]. intros nd1 _.
    destruct (producers nd1) as [|x [|y [|]]]; try by intros ?.
    apply wp_bind. eapply wp_mono; [by apply set_other_ok|]. intros [] h1 H1. by apply set_other_ok. }
  unfold on_heap, on_part, wp in *. destruct (connect_join i (heap b)); done.
Qed.

(** ** The whole builder *)
Lemma new_node_ok p : builder_ok (PDBPipeNodeBuilder_new p).
Proof. split; [split|..]; try done. Qed.

Lemma nodes_in_order_in m i : i ∈ nodes_in_order m -> exists k, m !! k = Some i.
Proof. unfold nodes_in_order. intros (k & _ & Hk)%list_elem_of_omap. by exists k. Qed.

Lemma connect_ok b : builder_ok b -> wpf connectThePipes (fun _ b' => linked b b') b.
Proof.
  intros Hb. unfold connectThePipes. apply wp_bind, wp_get, wp_bind.
  eapply wp_mono; [apply (for_each_linked (fun i => i < currentNodeIndex b) _ (currentNodeIndex b)); [|intros i Hi|done|done]|].
  - intros i b1 Hi Hb1 E1. apply connect_node_ok; [done|lia].
  - apply nodes_in_order_in in Hi as [k Hk]. by eapply ok_nodes.
  - intros [] b1 [Hb1 E1]. apply wp_bind, wp_get.
    eapply wp_mono; [apply (for_each_linked (fun _ => True) _ (currentNodeIndex b1)); [|done|done|done]|].
    + intros i b2 _ Hb2 E2. by apply connect_join_ok.
    + intros [] b2 [Hb2 E2]. split; [done|congruence].
Qed.

Lemma analyzer_ok cid fuel p : size (comps p) < fuel ->
  wpf (generateAnalyzerGraph cid fuel)
    (fun srcs b => graph_ok (currentNodeIndex b) srcs (heap b)) (PDBPipeNodeBuilder_new p).
Proof.
  intros Hf. unfold generateAnalyzerGraph. pose proof (new_node_ok p) as H0. set (b0 := PDBPipeNodeBuilder_new p) in *.
  apply wp_bind. eapply wp_mono; [apply calm_scans|]. intros scanSets b1 Q1. simpl in Q1.
  pose proof (quiet_step _ _ H0 Q1) as S1.
  assert (Hun : forall b, step_ok b0 b -> unvisited b < fuel).
  { intros b Sb. pose proof (unvisited_mono _ _ Sb). assert (unvisited b0 = size (comps p)); [|lia].
    unfold unvisited. simpl. by rewrite difference_empty_L, size_dom. }
  assert (Hinner : forall source l b, step_ok b0 b ->
    wpf (for_each l (fun consumer => _ <- push_pipe [source] ;; _ <- push_pipe [consumer] ;; transverseTCAPGraph cid fuel consumer))
      (fun _ b' => step_ok b0 b') b).
  { intros source l. induction l as [|x l IH]; intros b Sb; [done|]. cbn [for_each].
    do 2 apply wp_bind. eapply wp_mono; [apply calm_push|]. intros [] b2 Q2. simpl in Q2.
    apply wp_bind. eapply wp_mono; [apply calm_push|]. intros [] b3 Q3. simpl in Q3.
    pose proof (step_trans _ _ _ Sb (quiet_step _ _ (proj1 Sb) (quiet_trans _ _ _ Q2 Q3))) as S3.
    eapply wp_mono; [apply transverse_ok; [apply S3|by apply Hun]|]. intros [] b4 S4. simpl in S4.
    apply IH. by eapply step_trans. }
  assert (Houter : forall l b, step_ok b0 b ->
    wpf (for_each l (fun source =>
         c <- on_comps (deref (Some source)) ;;
         consumers <- on_comps (getConsumingAtomicComputations (getOutputName c)) ;;
         for_each consumers (fun consumer =>
           _ <- push_pipe [source] ;; _ <- push_pipe [consumer] ;; transverseTCAPGraph cid fuel consumer)))
      (fun _ b' => step_ok b0 b') b).
  { induction l as [|source l IH]; intros b Sb; [done|]. cbn [for_each]. do 2 apply wp_bind.
    eapply wp_mono; [apply calm_deref|]. intros c b2 Q2. simpl in Q2.
    apply wp_bind. eapply wp_mono; [apply calm_consuming|]. intros cs b3 Q3. simpl in Q3.
    pose proof (step_trans _ _ _ Sb (quiet_step _ _ (proj1 Sb) (quiet_trans _ _ _ Q2 Q3))) as S3.
    eapply wp_mono; [by apply Hinner|]. intros [] b4 S4. simpl in S4. by apply IH. }
  apply wp_bind. eapply wp_mono; [by apply Houter|]. intros [] b2 S2. simpl in S2.
  apply wp_bind. eapply wp_mono; [apply connect_ok, S2|]. intros [] b3 [Hb3 _].
  apply wp_bind, wp_get, wp_mret. apply Hb3.
Qed.
