(* ===== verification/PhysicalSpec.v ===== *)
(** What the physical optimizer promises: PDBPhysicalOptimizer.cc and the loop
    of PDBComputationServerFrontend.cc, for the graphs of plans without unions. *)

From S2P Require Import Prelude AtomicComputation AtomicComputationList TcapText PhysicalNodes PhysicalOptimizer PhysicalInv PhysicalSteps PhysicalBuild.

Section spec.
Variables (cid : Z) (rank : nat -> nat) (g : nodes).
Hypothesis Hwf : wf_graph cid rank g.
Variable threshold : Z.

Abbreviation key := (PhysicalInv.key cid g).
Abbreviation Inv := (PhysicalInv.Inv cid g).
Abbreviation planned := (PhysicalSteps.planned cid g).
Abbreviation undone := (PhysicalSteps.undone g).
Abbreviation st N i := (state (nd N i)).

(** ** Starting a pipeline at a source *)

Lemma source_type_Ok k (N : nodes) : k = SetSink \/ k = AggregationSink \/ k = JoinShuffleSink ->
  exists t, getSourceTypeForSinkType k N = Ok t N.
Proof. intros [->|[->| ->]]; by eexists. Qed.

Lemma source_of_Ok X S A costs N p : Inv None X S A costs N -> p ∈ dom g -> produced N p ->
  st N p <> PDBJoinPhysicalNodeBroadcasted ->
  exists t, source_of (nd N p) N = Ok (mkSourceSpec t (key p)) N.
Proof.
  intros H Hp Hpr Hst. unfold source_of, getSinkPageSet. rewrite (inv_sink _ _ _ _ _ _ _ _ H p Hp Hpr). simpl.
  destruct (source_type_Ok (sink_kind (nd N p)) N) as [t Et].
  { unfold sink_kind. destruct (nodeType (nd N p)); [by left|by right; left|]. destruct (st N p); auto. done. }
  exists t. by rewrite (bind_Ok _ _ _ _ _ Et).
Qed.

(** The sources of a node that is ready: what they are called, and their number. *)
Definition source_keys (s : nat) : list PDBPageSetIdentifier :=
  if hasScanSet (nd g s) then [(cid, scan_name (nd g s))] else map key (producers (nd g s)).

Section enter.
Context {X S A costs N} (H : Inv None X S A costs N).
Context {s : nat} (Hs : s ∈ S).

Lemma enter_facts : s ∈ dom g /\ s ∉ X /\ ~ done N s /\
  (forall p, p ∈ producers (nd g s) -> p ∈ dom g /\ produced N p /\ st N p <> PDBJoinPhysicalNodeBroadcasted) /\
  nd N s = nd N s /\ pipeline (nd N s) = pipeline (nd g s) /\ producers (nd N s) = producers (nd g s) /\
  computationID (nd N s) = cid.
Proof.
  destruct (inv_sources _ _ _ _ _ _ _ _ H s Hs) as (Hd & HX & Hn & Hp).
  destruct (inv_shape _ _ _ _ _ _ _ _ H s Hd) as (_ & E2 & E3 & _ & _ & E6).
  destruct (wf_at cid rank g Hwf s Hd) as (Ec & _). rewrite decide_False in E6 by done.
  split_and!; try done; [|congruence]. intros p Hpp. destruct (Hp p Hpp).
  split; [by destruct (wf_producer cid rank g Hwf s p Hd Hpp)|done].
Qed.

(** Choosing the two sources of a shuffled join. *)
Lemma join_sources_Ok : isJoining (nd g s) = true -> exists a b ta tb swap,
  getJoinSources (nd N s) costs N = Ok (mkSourceSpec ta (key a), mkSourceSpec tb (key b), swap) N /\
  [a; b] ≡ₚ producers (nd g s).
Proof.
  intros Hj. destruct enter_facts as (Hd & HX & Hn & Hp & _ & Epipe & Eprod & _).
  destruct (wf_join_sides cid rank g Hwf s Hd Hj) as (a & b & Ep & Hab & _).
  destruct (Hp a) as (Had & Hap & Hast); [rewrite Ep; by left|].
  destruct (Hp b) as (Hbd & Hbp & Hbst); [rewrite Ep; by right; left|].
  destruct (inv_costs _ _ _ _ _ _ _ _ H) as [Hc _].
  destruct (Hc a Had Hap) as [ca Hca]. destruct (Hc b Hbd Hbp) as [cb Hcb].
  assert (Hdom : forall i, i ∈ dom g -> i ∈ dom N) by (intros i; by rewrite (inv_dom _ _ _ _ _ _ _ _ H)).
  destruct (source_of_Ok X S A costs N a H Had Hap Hast) as [ta Hta].
  destruct (source_of_Ok X S A costs N b H Hbd Hbp Hbst) as [tb Htb].
  destruct (final_of cid rank g Hwf a Had) as (fa & Hfa & _). destruct (final_of cid rank g Hwf b Hbd) as (fb & Hfb & _).
  destruct (inv_shape _ _ _ _ _ _ _ _ H a Had) as (_ & _ & Epa & _). rewrite <- Epa in Hfa.
  destruct (inv_shape _ _ _ _ _ _ _ _ H b Hbd) as (_ & _ & Epb & _). rewrite <- Epb in Hfb.
  unfold getJoinSources. assert (Hjn : isJoining (nd N s) = true) by (unfold isJoining, front_is; by rewrite Epipe).
  rewrite Hjn, (bind_Ok _ _ _ tt N) by done. rewrite Eprod, Ep, bool_decide_true by done.
  rewrite (bind_Ok _ _ _ tt N) by done. rewrite (bind_Ok _ _ _ a N) by done. rewrite run_node_at by by apply Hdom.
  rewrite (bind_Ok _ _ _ ca N).
  2:{ unfold find_cost, getSinkPageSet. rewrite (inv_sink _ _ _ _ _ _ _ _ H a Had Hap). cbn [sink_pageSet]. by rewrite Hca. }
  rewrite (bind_Ok _ _ _ b N) by done. rewrite run_node_at by by apply Hdom. rewrite (bind_Ok _ _ _ cb N).
  2:{ unfold find_cost, getSinkPageSet. rewrite (inv_sink _ _ _ _ _ _ _ _ H b Hbd Hbp). cbn [sink_pageSet]. by rewrite Hcb. }
  unfold isJoining, front_is in Hjn. destruct (pipeline (nd N s)) as [|j l] eqn:El; [done|].
  rewrite (bind_Ok _ _ _ j N) by done. cbn zeta. apply bool_decide_eq_true in Hjn.
  assert (Hr : exists r, getRightInput j = Some r).
  { unfold getAtomicComputationTypeID, getRightInput in *. destruct (kind j); try done; by eexists. }
  destruct Hr as [r Hr]. rewrite Hr, (bind_Ok _ _ _ r N) by done.
  destruct (decide (cb < ca)%Z) as [Hlt|Hge].
  - rewrite (bool_decide_true (cb < ca)%Z), (bool_decide_false (cb >= ca)%Z) by lia.
    rewrite (bind_Ok _ _ _ fb N) by (by apply back_Ok). rewrite (bind_Ok _ _ _ _ _ Htb), (bind_Ok _ _ _ _ _ Hta).
    exists b, a, tb, ta. eexists. split; [done|]. apply perm_swap.
  - rewrite (bool_decide_false (cb < ca)%Z), (bool_decide_true (cb >= ca)%Z) by lia.
    rewrite (bind_Ok _ _ _ fa N) by (by apply back_Ok). rewrite (bind_Ok _ _ _ _ _ Hta), (bind_Ok _ _ _ _ _ Htb).
    exists a, b, ta, tb. eexists. by split.
Qed.

(** After the sources are chosen. *)
Lemma enter_mark prim adds N1 fuel :
  N1 = alter (set_primary (fun l => l ++ [prim])) s (alter (set_additional (fun l => l ++ adds)) s N) ->
  source_pageSet (source prim) :: map source_pageSet adds ≡ₚ source_keys s ->
  undone N <= fuel ->
  exists r N', generateAlgorithm true threshold costs fuel s s N1 = Ok r N' /\
    planned X (filter (fun i => i <> s) S) A costs N r N' /\ undone N' < undone N.
Proof.
  intros -> Hkeys Hfuel. destruct enter_facts as (Hd & HX & Hn & Hp & _ & Epipe & Eprod & Ecid).
  assert (HsN : s ∈ dom N) by by rewrite (inv_dom _ _ _ _ _ _ _ _ H).
  set (N1 := alter _ s _).
  assert (Hself : nd N1 s = set_primary (fun l => l ++ [prim]) (set_additional (fun l => l ++ adds) (nd N s))).
  { unfold N1. rewrite !nd_alter_eq; [done|done|by rewrite dom_alter_L]. }
  assert (Hother : forall i, i <> s -> nd N1 i = nd N i) by (intros i Hi; unfold N1; by rewrite !nd_alter_ne).
  assert (Hsame : forall i, same_node (nd N i) (nd N1 i)).
  { intros i. destruct (decide (i = s)) as [->|Hi]; [by rewrite Hself|by rewrite Hother]. }
  assert (Hd1 : done N1 s) by (unfold done; rewrite Hself; simpl; by destruct (primarySources (nd N s))).
  assert (Hp0 : primarySources (nd N s) = []) by by apply dec_stable.
  destruct (inv_fresh _ _ _ _ _ _ _ _ H s Hn) as [Ha0 _].
  assert (Hfilter : map key (filter (produced N) (producers (nd g s))) = map key (producers (nd g s))).
  { rewrite filter_every; [done|]. intros p Hpp. by destruct (Hp p Hpp) as (_ & ? & _). }
  assert (Hmono : forall i, done N i -> done N1 i).
  { intros i Hi. destruct (decide (i = s)) as [->|Hne]; [done|]. unfold done. by rewrite Hother. }
  assert (HI : Inv (Some s) X (filter (fun i => i <> s) S) A costs N1).
  { apply (mark cid rank g Hwf None X S A costs N N1 s
      (if hasScanSet (nd g s) then [(cid, scan_name (nd g s))] else [])); try done.
    - intros p Hpp. destruct (Hp p Hpp) as (_ & Hpr & _). split; [by eapply (produced_done cid g H)|by left].
    - unfold N1. by rewrite !dom_alter_L.
    - intros i Hi. by rewrite Hother.
    - intros i Hi. rewrite Hother; [done|]. by intros ->.
    - intros x. destruct (hasScanSet (nd g s)) eqn:Es; [|by intros ?%elem_of_nil]. intros ->%list_elem_of_singleton. by exists s.
    - simpl. rewrite Hfilter. unfold reads. rewrite Hself. simpl. rewrite Hp0, Ha0. simpl. rewrite Hkeys.
      unfold source_keys. destruct (hasScanSet (nd g s)) eqn:Es; [|done].
      by rewrite (wf_scan_producers cid rank g Hwf s Hd Es).
    - intros q. rewrite Hself. simpl. rewrite Hp0. simpl. intros ->%list_elem_of_singleton.
      assert (Hin : source_pageSet (source prim) ∈ source_keys s) by (rewrite <- Hkeys; by left).
      destruct (inv_costs _ _ _ _ _ _ _ _ H) as [Hc1 Hc2]. unfold source_keys in Hin.
      destruct (hasScanSet (nd g s)) eqn:Es.
      + apply list_elem_of_singleton in Hin as ->. apply Hc2. by exists s.
      + apply list_elem_of_In, in_map_iff in Hin as (p & <- & Hpp). apply list_elem_of_In in Hpp.
        destruct (Hp p Hpp) as (? & ? & _). by apply Hc1. }
  assert (Hless : undone N1 < undone N) by by apply (undone_less g N N1 s).
  destruct (generate_spec cid rank g Hwf threshold fuel costs s X (filter (fun i => i <> s) S) A N1 HI) as (r & N' & Er & Hpl); [lia|].
  exists r, N'. split; [done|]. pose proof Hpl as (_ & X' & e & alg & L & _ & _ & _ & _ & _ & _ & _ & _ & _ & _ & _ & _ & _ & Hm & _).
  split.
  - eapply planned_mono; [|exact Hmono|exact Hpl]. intros i. unfold produced. by destruct (Hsame i) as (_ & _ & _ & _ & _ & -> & _).
  - apply (undone_less g N N' s); [done|done|by apply Hm|]. intros i Hi. by apply Hm, Hmono.
Qed.

Lemma set_additional_nil : alter (set_additional (fun l => l ++ [])) s N = N.
Proof.
  apply map_eq. intros i. destruct (decide (i = s)) as [->|Hi]; [|by rewrite lookup_alter_ne].
  rewrite lookup_alter_eq. destruct (N !! s) as [[]|]; [|done]. simpl. unfold set_additional. simpl. by rewrite app_nil_r.
Qed.

Lemma enter fuel : undone N <= fuel ->
  exists r N', generateAlgorithm_source true threshold costs fuel s N = Ok r N' /\
    planned X (filter (fun i => i <> s) S) A costs N r N' /\ undone N' < undone N.
Proof.
  intros Hfuel. destruct enter_facts as (Hd & HX & Hn & Hp & _ & Epipe & Eprod & Ecid).
  assert (HsN : s ∈ dom N) by by rewrite (inv_dom _ _ _ _ _ _ _ _ H).
  destruct (wf_at cid rank g Hwf s Hd) as (_ & Hne & _).
  unfold generateAlgorithm_source. rewrite run_node_at by done.
  assert (Ej : isJoining (nd N s) = isJoining (nd g s)) by (unfold isJoining, front_is; by rewrite Epipe).
  assert (Es : hasScanSet (nd N s) = hasScanSet (nd g s)) by (unfold hasScanSet, front_is; by rewrite Epipe).
  destruct (pipeline (nd g s)) as [|start l] eqn:El; [done|].
  assert (Hplain : isJoining (nd g s) = false -> exists src, getSourcePageSet (nd N s) costs N = Ok src N /\
    source_keys s = [source_pageSet src]).
  { intros Hj. unfold getSourcePageSet, source_keys. rewrite Ej, Es, Hj, Epipe.
    destruct (hasScanSet (nd g s)) eqn:Ess.
    - eexists. rewrite (bind_Ok _ _ _ start N) by done. split; [done|]. simpl. rewrite Ecid. unfold scan_name. by rewrite El.
    - destruct (wf_single_producer cid rank g Hwf s Hd Hj Ess) as (p & Ep & _). destruct (Hp p) as (Hpd & Hpp & Hpst); [rewrite Ep; by left|].
      destruct (source_of_Ok X S A costs N p H Hpd Hpp Hpst) as [t Ht]. exists (mkSourceSpec t (key p)).
      rewrite Eprod, Ep, bool_decide_true by done. rewrite (bind_Ok _ _ _ tt N) by done.
      rewrite (bind_Ok _ _ _ p N) by done. rewrite run_node_at by by rewrite (inv_dom _ _ _ _ _ _ _ _ H). done. }
  rewrite Ej. destruct (isJoining (nd g s)) eqn:Hj.
  - destruct (join_sources_Ok Hj) as (a & b & ta & tb & swap & Egs & Hab). rewrite bind_assoc, (bind_Ok _ _ _ _ _ Egs).
    rewrite bind_assoc, run_update. rewrite (bind_Ok _ _ _ (mkSourceSpec ta (key a), swap) _) by done.
    rewrite Epipe. rewrite (bind_Ok _ _ _ start _) by done. rewrite run_update.
    apply (enter_mark (mkPrimarySource start (mkSourceSpec ta (key a)) swap) [mkSourceSpec tb (key b)]); [done| |done].
    simpl. unfold source_keys. rewrite (join_no_scan _ Hj). rewrite <- Hab. done.
  - destruct (Hplain eq_refl) as (src & Esrc & Ekeys). rewrite bind_assoc, (bind_Ok _ _ _ _ _ Esrc).
    rewrite (bind_Ok _ _ _ (src, false) N) by done. rewrite Epipe. rewrite (bind_Ok _ _ _ start N) by done. rewrite run_update.
    apply (enter_mark (mkPrimarySource start src false) []); [by rewrite set_additional_nil| |done].
    simpl. by rewrite Ekeys.
Qed.
End enter.

(** ** A round of the optimizer *)

Lemma insert_Ok x l : x ∉ l -> exists l', insert_source x l = Some l' /\ l' ≡ₚ x :: l.
Proof.
  intros Hx. unfold insert_source. rewrite bool_decide_false by done. eexists. split; [done|]. clear Hx.
  induction l as [|y l IH]; [done|]. destruct (OptimizerSource_less x y); [done|]. rewrite IH. apply perm_swap.
Qed.

Definition with_sources (l : list OptimizerSource) (o : PDBPhysicalOptimizer) :=
  mkOptimizer (optNodes o) l (processedSources o) (pageSetCosts o) (activePageSets o) (pageSetsToRemove o).

Lemma insert_all new : forall o, NoDup (map snd (optSources o) ++ new) ->
  exists l, for_each new (fun sourceNode =>
      o <- get ;;
      l <- unwrap InvalidComparator (insert_source (0%Z, sourceNode) (optSources o)) ;;
      put (with_sources l o)) o = Ok tt (with_sources l o) /\ map snd l ≡ₚ map snd (optSources o) ++ new.
Proof.
  induction new as [|x new IH]; intros o Hnd.
  { exists (optSources o). rewrite app_nil_r. split; [by destruct o|done]. }
  assert (Hx : (0%Z, x) ∉ optSources o).
  { intros Hin. apply NoDup_app in Hnd as (_ & Hdis & _). apply (Hdis x); [|by left].
    apply list_elem_of_In, in_map_iff. exists (0%Z, x). split; [done|by apply list_elem_of_In]. }
  destruct (insert_Ok _ _ Hx) as (l & El & Hl). cbn [for_each].
  assert (Hperm : map snd l ≡ₚ x :: map snd (optSources o)) by (rewrite Hl; done).
  destruct (IH (with_sources l o)) as (l' & El' & Hl').
  { simpl. rewrite Hperm. simpl. by rewrite <- Permutation_middle in Hnd. }
  exists l'. rewrite (bind_Ok _ _ _ tt (with_sources l o)).
  - rewrite El'. split; [by destruct o|]. rewrite Hl'. simpl. rewrite Hperm. simpl. by rewrite Permutation_middle.
  - rewrite (bind_Ok _ _ _ o o) by done. by rewrite El.
Qed.

Lemma new_costs_lookup (new : list (PDBPageSetIdentifier * Z)) (costs : PDBPageSetCosts) (k : PDBPageSetIdentifier) :
  is_Some (costs !! k) \/ k ∈ map fst new ->
  is_Some (foldl (fun m (p : PDBPageSetIdentifier * Z) => <[p.1 := 0%Z]> m) costs new !! k).
Proof.
  revert costs. induction new as [|[j w] new IH]; intros costs; simpl; [by intros [?|?%elem_of_nil]|].
  intros Hk. apply IH. destruct (decide (k = j)) as [->|Hne]; [left; by rewrite lookup_insert_eq|].
  rewrite lookup_insert_ne by done. destruct Hk as [?|[?|?]%elem_of_cons]; naive_solver.
Qed.

Lemma active_after_dom A r : dom (active_after A r) = dom A ∪ list_to_set (map fst (newPageSets r)).
Proof.
  unfold active_after. assert (Hdrop : forall l B, dom (foldl drop_active B l) = dom B).
  { induction l as [|k l IH]; intros B; [done|]. simpl. rewrite IH. unfold drop_active.
    destruct (B !! k) eqn:E; [|done]. rewrite dom_insert_L. apply elem_of_dom_2 in E. set_solver. }
  rewrite Hdrop. generalize (newPageSets r). intros l. revert A. induction l as [|[k w] l IH]; intros A; simpl; [set_solver|].
  rewrite IH. unfold add_active. simpl. rewrite dom_insert_L. set_solver.
Qed.
Lemma kept_dom B : dom (kept B) = dom B ∖ list_to_set (unused_page_sets B).
Proof.
  apply set_eq. intros k. rewrite elem_of_difference, elem_of_list_to_set, elem_of_unused, !elem_of_dom. unfold kept. split.
  - intros [v Hv]. apply map_lookup_filter_Some in Hv as [Hv Hz]. simpl in Hz. split; [by eexists|]. congruence.
  - intros [[v Hv] Hz]. exists v. apply map_lookup_filter_Some. split; [done|]. simpl. congruence.
Qed.

Lemma inv_costs_mono X S A costs costs' N : Inv None X S A costs N ->
  (forall k, is_Some (costs !! k) -> is_Some (costs' !! k)) -> Inv None X S A costs' N.
Proof. intros [] Hm. split; try done. naive_solver. Qed.

(** What is known of the optimizer between two calls: [seen] are the page sets
    created so far, [W] the sets written. *)
Definition optimizer_ok (seen : gset PDBPageSetIdentifier) (W : list (string * string)) (o : PDBPhysicalOptimizer) : Prop :=
  exists X L, Inv None X (map snd (optSources o)) (activePageSets o) (pageSetCosts o) (optNodes o) /\
    (forall k, k ∈ seen -> exists i s, i ∈ dom g /\ produced (optNodes o) i /\ k = (cid, s) /\ s ∈ names_of (nd g i)) /\
    W ≡ₚ omap (fun i => write_of (nd g i)) L /\ NoDup L /\
    (forall i, i ∈ L <-> written g X (optNodes o) i).

Lemma next_algorithm seen W o fuel depth :
  optimizer_ok seen W o -> pageSetsToRemove o = [] -> optSources o <> [] -> undone (optNodes o) <= depth ->
  exists alg o', getNextAlgorithm true threshold (S fuel) depth o = Ok (Some alg) o' /\
    (forall x, x ∈ alg_reads alg -> scan_key cid g x \/ x ∈ dom (activePageSets o)) /\
    NoDup (alg_creates alg) /\ (forall x, x ∈ alg_creates alg -> x ∉ seen) /\
    NoDup (pageSetsToRemove o') /\
    (forall x, x ∈ pageSetsToRemove o' -> x ∈ dom (activePageSets o) \/ x ∈ alg_creates alg) /\
    dom (activePageSets o') = (dom (activePageSets o) ∪ list_to_set (alg_creates alg)) ∖ list_to_set (pageSetsToRemove o') /\
    undone (optNodes o') < undone (optNodes o) /\
    optimizer_ok (seen ∪ list_to_set (alg_creates alg)) (W ++ setsToMaterialize alg) o'.
Proof.
  intros (X & L & H & Hseen & HW & HndL & HL) Hrem Hne Hdepth.
  destruct (optSources o) as [|[sz s] rest] eqn:Esrc; [done|].
  pose proof (inv_nodup _ _ _ _ _ _ _ _ H) as Hnd. simpl in Hnd. apply NoDup_cons in Hnd as [Hsr Hnd].
  destruct (enter H (s := s) (list_elem_of_here _ _) depth Hdepth) as (r & N' & Er & Hpl & Hless).
  assert (Hfilter : filter (fun i => i <> s) (s :: map snd rest) = map snd rest).
  { rewrite filter_cons_False by naive_solver. apply filter_every. intros x Hx ->. done. }
  simpl in Hpl. rewrite Hfilter in Hpl.
  destruct Hpl as (Ht & X' & e & alg & L' & Erun & He & Hnpe & Ecr & Hndcr & Hkeycr & Hcr & Hprod & Hreads & Hmat & HndL' & Hwr & Hwr2 & Hdone & Hinv).
  set (o1 := mkOptimizer N' rest (processedSources o ++ [(sz, s)]) (pageSetCosts o) (activePageSets o) (pageSetsToRemove o)).
  set (costs' := foldl (fun m (p : PDBPageSetIdentifier * Z) => <[p.1 := 0%Z]> m) (pageSetCosts o) (newPageSets r)).
  assert (Hkey : key e ∈ map fst (newPageSets r)) by by rewrite <- Ecr.
  assert (Hinv' : forall S', S' ≡ₚ map snd rest ++ newSourceNodes r ->
    Inv None X' S' (kept (active_after (activePageSets o) r)) costs' N').
  { intros S' HS'. apply Hinv; [done| |].
    - intros k Hk. apply new_costs_lookup. by left.
    - apply new_costs_lookup. by right. }
  destruct (insert_all (newSourceNodes r) o1) as (l & El & Hl).
  { apply (inv_nodup _ _ _ _ _ _ _ _ (Hinv' _ (Permutation_refl _))). }
  set (o2 := mkOptimizer N' l (processedSources o ++ [(sz, s)]) costs' (kept (active_after (activePageSets o) r))
               (pageSetsToRemove o ++ unused_page_sets (active_after (activePageSets o) r))).
  exists alg, o2. split.
  { cbn [getNextAlgorithm]. rewrite (bind_Ok _ _ _ o o) by done. rewrite Esrc, (bind_Ok _ _ _ (sz, s) o) by done.
    rewrite (bind_Ok _ _ _ r (set_optNodes N' o)) by (unfold on_nodes, on_part; simpl; by rewrite Er).
    rewrite (bind_Ok _ _ _ tt o2).
    - rewrite Ht, bool_decide_true by done. by rewrite Erun.
    - unfold apply_result. rewrite (bind_Ok _ _ _ tt o1) by (unfold modify, o1; simpl; by rewrite Esrc).
      rewrite (bind_Ok _ _ _ _ _ El). done. }
  assert (Erem : pageSetsToRemove o2 = unused_page_sets (active_after (activePageSets o) r)) by (unfold o2; simpl; by rewrite Hrem).
  split_and!.
  - intros x Hx. destruct (Hreads x Hx) as [?|?]; [by left|right; by apply elem_of_dom].
  - done.
  - intros x Hx Hin. destruct (Hseen x Hin) as (i & s1 & Hi & Hpi & -> & Hsi). destruct (Hcr _ Hx) as (s2 & [=<-] & Hs2).
    assert (i = e) as -> by by eapply (name_owner cid rank g Hwf). done.
  - rewrite Erem. apply unused_NoDup.
  - intros x. rewrite Erem, elem_of_unused. intros Hx. apply elem_of_dom_2 in Hx. rewrite active_after_dom in Hx.
    rewrite Ecr. set_solver.
  - rewrite Erem, Ecr, <- active_after_dom. apply kept_dom.
  - done.
  - exists X', (L ++ L'). split; [by apply Hinv'|]. split.
    { intros k. rewrite elem_of_union, elem_of_list_to_set. intros [Hk|Hk].
      - destruct (Hseen k Hk) as (i & s1 & ? & ? & ? & ?). exists i, s1. change (optNodes o2) with N'. rewrite Hprod. naive_solver.
      - destruct (Hcr k Hk) as (s1 & ? & ?). exists e, s1. change (optNodes o2) with N'. rewrite Hprod. naive_solver. }
    split; [by rewrite HW, Hmat, omap_app|]. split.
    + apply NoDup_app. split; [done|]. split; [|done]. intros i Hi Hi'. apply HL in Hi. by apply (Hwr2 i).
    + intros i. change (optNodes o2) with N'. rewrite elem_of_app, HL, Hwr. done.
Qed.

(** ** The end of planning *)

Lemma dropped_end p x : p ∈ dom g -> is_Some (materialization (nd g p)) -> x ∉ consumers (nd g p).
Proof.
  intros Hp [w Hw]. apply materialization_write in Hw.
  destruct (wf_write cid rank g Hwf p w Hp Hw) as [_ ->]. apply not_elem_of_nil.
Qed.

Lemma all_reached X A costs N : Inv None X [] A costs N -> forall i, i ∈ dom g -> i ∈ X \/ done N i.
Proof.
  intros H i. remember (rank i) as k eqn:Ek. revert i Ek. induction (lt_wf k) as [k _ IH]. intros i -> Hi.
  destruct (decide (i ∈ X)) as [|HX]; [by left|]. destruct (decide (done N i)) as [|Hn]; [by right|]. exfalso.
  enough (i ∈ []) by by eapply not_elem_of_nil. apply (inv_ready _ _ _ _ _ _ _ _ H i Hi HX Hn). intros p Hp.
  split; [|done]. destruct (wf_producer cid rank g Hwf i p Hi Hp) as (Hpd & Hc & Hr).
  destruct (IH (rank p) Hr p eq_refl Hpd) as [HpX|]; [|done].
  destruct (inv_dropped _ _ _ _ _ _ _ _ H p HpX) as (_ & Hm & _). by destruct (dropped_end p i Hpd Hm).
Qed.

Lemma nothing_active X A costs N : Inv None X [] A costs N -> A = ∅.
Proof.
  intros H. apply map_eq. intros k. rewrite lookup_empty. destruct (A !! k) as [v|] eqn:E; [|done]. exfalso.
  destruct (inv_keys _ _ _ _ _ _ _ _ H k v E) as (_ & i & Hi & Hp & ->).
  rewrite (inv_active _ _ _ _ _ _ _ _ H i Hi Hp) in E. simpl in E. rewrite cnt_none, Nat.add_0_r in E by apply not_elem_of_nil.
  assert (Hz : pend N i = 0); [|by rewrite Hz in E].
  unfold pend. rewrite filter_none; [done|]. intros c Hc Hn.
  destruct (inv_shape _ _ _ _ _ _ _ _ H i Hi) as (_ & _ & _ & _ & Ec & _). rewrite Ec in Hc.
  apply list_elem_of_filter in Hc as [HcX Hc]. destruct (wf_consumer cid rank g Hwf i c Hi Hc) as (Hcd & _).
  by destruct (all_reached X A costs N H c Hcd).
Qed.

(** The sets that the plan writes. *)
Definition plan_writes : list (string * string) := omap (fun i => write_of (nd g i)) (elements (dom g)).

Lemma all_written X L A costs N : Inv None X [] A costs N -> NoDup L -> (forall i, i ∈ L <-> written g X N i) ->
  omap (fun i => write_of (nd g i)) L ≡ₚ plan_writes.
Proof.
  intros H HndL HL. unfold plan_writes.
  assert (Hf : forall l : list nat, omap (fun i => write_of (nd g i)) l =
    omap (fun i => write_of (nd g i)) (filter (fun i => is_Some (write_of (nd g i))) l)).
  { induction l as [|i l IH]; [done|]. rewrite filter_cons. case_decide as Ew; simpl.
    - destruct (write_of (nd g i)); [f_equal|]; exact IH.
    - destruct (write_of (nd g i)); [by destruct Ew; eexists|exact IH]. }
  rewrite (Hf (elements (dom g))). apply omap_Permutation. apply NoDup_Permutation; [done|apply NoDup_filter, NoDup_elements|].
  intros i. rewrite HL, list_elem_of_filter, elem_of_elements. unfold written. split.
  - intros [HX|(? & ? & ?)]; [|done]. destruct (inv_dropped _ _ _ _ _ _ _ _ H i HX) as (Hi & [w Hw] & _).
    split; [exists w; by apply materialization_write|done].
  - intros [[w Hw] Hi]. destruct (all_reached X A costs N H i Hi) as [|Hd]; [by left|right].
    split; [done|]. split; [|by eexists]. destruct (decide (produced N i)) as [|Hnp]; [done|].
    destruct (inv_through _ _ _ _ _ _ _ _ H i Hi Hd (ltac:(done)) Hnp) as (c & Hc & _).
    destruct (wf_write cid rank g Hwf i w Hi Hw) as [_ E]. by rewrite E in Hc.
Qed.

(** ** All rounds

    The life of the page sets: an algorithm reads sets of the database and page
    sets that exist, it creates new ones, and those that are removed exist;
    none is left over. *)
Fixpoint rounds_ok (seen alive : gset PDBPageSetIdentifier) (rs : list round) : Prop :=
  match rs with
  | [] => alive = ∅
  | r :: rs =>
      exists alg, algorithm r = Some alg /\
        (forall x, x ∈ alg_reads alg -> scan_key cid g x \/ x ∈ alive) /\
        NoDup (alg_creates alg) /\ (forall x, x ∈ alg_creates alg -> x ∉ seen) /\
        NoDup (removed r) /\ (forall x, x ∈ removed r -> x ∈ alive \/ x ∈ alg_creates alg) /\
        rounds_ok (seen ∪ list_to_set (alg_creates alg))
          ((alive ∪ list_to_set (alg_creates alg)) ∖ list_to_set (removed r)) rs
  end.
Definition sets_written (rs : list round) : list (string * string) :=
  concat (map (fun r => match algorithm r with Some a => setsToMaterialize a | None => [] end) rs).

Definition same_but_costs (o o' : PDBPhysicalOptimizer) : Prop :=
  optNodes o' = optNodes o /\ optSources o' = optSources o /\ activePageSets o' = activePageSets o /\
  (forall k, is_Some (pageSetCosts o !! k) -> is_Some (pageSetCosts o' !! k)).

Lemma optimizer_ok_costs seen W o o' : same_but_costs o o' -> optimizer_ok seen W o -> optimizer_ok seen W o'.
Proof.
  intros (E1 & E2 & E3 & Hc) (X & L & H & Hseen & HW). exists X, L. rewrite E1, E2, E3.
  split; [by eapply inv_costs_mono|done].
Qed.

Lemma update_all stats : forall o, exists o', for_each stats (fun s => updatePageSet s.1 s.2) o = Ok tt o' /\
  same_but_costs o o' /\ pageSetsToRemove o' = pageSetsToRemove o.
Proof.
  induction stats as [|[k v] stats IH]; intros o; [by exists o|]. cbn [for_each].
  rewrite (bind_Ok _ _ _ tt _ (eq_refl : updatePageSet k v o = Ok tt _)). destruct (IH (mkOptimizer (optNodes o) (optSources o)
    (processedSources o) (<[k := v]> (pageSetCosts o)) (activePageSets o) (pageSetsToRemove o))) as (o' & E & (H1 & H2 & H3 & H4) & H5).
  exists o'. split; [done|]. split; [|done]. split; [done|]. split; [done|]. split; [done|]. intros j Hj. apply H4. simpl.
  destruct (decide (j = k)) as [->|Hne]; [by rewrite lookup_insert_eq|by rewrite lookup_insert_ne].
Qed.

Lemma remove_all o : exists o', getPageSetsToRemove o = Ok (pageSetsToRemove o) o' /\ same_but_costs o o' /\
  pageSetsToRemove o' = [].
Proof.
  eexists. split; [reflexivity|]. split; [|done]. split; [done|]. split; [done|]. split; [done|]. intros k Hk. simpl.
  generalize (pageSetsToRemove o). intros l. revert Hk. generalize (pageSetCosts o). induction l as [|j l IH]; intros c Hk; [done|].
  simpl. apply IH. destruct (decide (k = j)) as [->|Hne]; [by rewrite lookup_insert_eq|by rewrite lookup_insert_ne].
Qed.

Lemma execute_spec stats depth fuel : forall seen W o i,
  optimizer_ok seen W o -> pageSetsToRemove o = [] -> undone (optNodes o) < fuel -> undone (optNodes o) <= depth ->
  exists rs o', executeComputation true threshold fuel depth stats i o = Ok rs o' /\
    rounds_ok seen (dom (activePageSets o)) rs /\ W ++ sets_written rs ≡ₚ plan_writes /\ activePageSets o' = ∅.
Proof.
  induction fuel as [|fuel IH]; intros seen W o i Hok Hrem Hf Hd; [lia|]. cbn [executeComputation].
  rewrite (bind_Ok _ _ _ o o) by done. unfold hasAlgorithmToRun. case_bool_decide as Es; cbn [negb].
  - destruct Hok as (X & L & H & _ & HW & HndL & HL). rewrite Es in H. simpl in H. exists [], o. split; [done|].
    rewrite (nothing_active X _ _ _ H). split; [simpl; by rewrite dom_empty_L|]. split; [|done].
    unfold sets_written. simpl. rewrite app_nil_r, HW. by eapply all_written.
  - destruct (next_algorithm seen W o (length (optSources o)) depth Hok Hrem Es Hd)
      as (alg & o1 & E1 & Hreads & Hnd & Hfresh & Hnr & Hr & Hdom & Hless & Hok1).
    destruct (update_all (stats i) o1) as (o2 & E2 & Hs2 & Hr2). destruct (remove_all o2) as (o3 & E3 & Hs3 & Hr3).
    assert (Hok3 : optimizer_ok (seen ∪ list_to_set (alg_creates alg)) (W ++ setsToMaterialize alg) o3)
      by by eapply optimizer_ok_costs, optimizer_ok_costs.
    assert (Enodes : optNodes o3 = optNodes o1) by (destruct Hs3 as (-> & _); by destruct Hs2 as (-> & _)).
    assert (Eactive : activePageSets o3 = activePageSets o1).
    { destruct Hs3 as (_ & _ & -> & _). by destruct Hs2 as (_ & _ & -> & _). }
    destruct (IH _ _ o3 (S i) Hok3 Hr3) as (rs & o' & E4 & Hrs & Hw & Ha); [rewrite Enodes; lia|rewrite Enodes; lia|].
    exists (mkRound (Some alg) (pageSetsToRemove o1) :: rs), o'.
    rewrite (bind_Ok _ _ _ _ _ E1), (bind_Ok _ _ _ _ _ E2), (bind_Ok _ _ _ _ _ E3), (bind_Ok _ _ _ _ _ E4), Hr2.
    split; [done|]. split; [|split; [|done]].
    + exists alg. simpl. rewrite Eactive, Hdom in Hrs. split_and!; done.
    + unfold sets_written. simpl. by rewrite app_assoc.
Qed.

(** ** The start *)
Record starts (o : PDBPhysicalOptimizer) : Prop := {
  starts_nodes : optNodes o = g;
  starts_nodup : NoDup (map snd (optSources o));
  starts_sources : forall i, i ∈ map snd (optSources o) <-> i ∈ dom g /\ hasScanSet (nd g i) = true;
  starts_costs : forall k, scan_key cid g k -> is_Some (pageSetCosts o !! k);
  starts_active : activePageSets o = ∅;
  starts_remove : pageSetsToRemove o = []
}.

Lemma untouched_at i : i ∈ dom g -> ~ done g i /\ additionalSources (nd g i) = [] /\ ~ produced g i /\
  st g i = PDBJoinPhysicalNodeNotProcessed.
Proof.
  intros Hi. destruct (wf_at cid rank g Hwf i Hi) as (_ & _ & _ & _ & _ & _ & _ & _ & _ & Hu & _). unfold untouched in Hu.
  repeat match goal with H : (_ && _)%bool = true |- _ => apply andb_prop in H as [? ?] end.
  repeat match goal with H : bool_decide _ = true |- _ => apply bool_decide_eq_true in H end.
  unfold done, produced. split; [intros Hp; apply Hp; by apply nil_length_inv|]. split; [by apply nil_length_inv|].
  split; [|done]. intros Hp. rewrite Hp in *. done.
Qed.

Lemma sources_ok o : starts o -> optimizer_ok ∅ [] o.
Proof.
  intros [En Hnd Hsrc Hcosts Ha _]. exists ∅, []. rewrite En, Ha.
  assert (Hd : forall i, ~ done g i).
  { intros i. destruct (decide (i ∈ dom g)) as [Hi|Hi]; [by apply untouched_at|]. unfold done, nd.
    apply not_elem_of_dom in Hi. rewrite Hi. simpl. tauto. }
  assert (Hp : forall i, ~ produced g i).
  { intros i. destruct (decide (i ∈ dom g)) as [Hi|Hi]; [by apply untouched_at|]. unfold produced, nd.
    apply not_elem_of_dom in Hi. rewrite Hi. done. }
  assert (Hs : forall i, additionalSources (nd g i) = [] /\ st g i = PDBJoinPhysicalNodeNotProcessed).
  { intros i. destruct (decide (i ∈ dom g)) as [Hi|Hi]; [by destruct (untouched_at i Hi) as (_ & ? & _ & ?)|]. unfold nd.
    apply not_elem_of_dom in Hi. by rewrite Hi. }
  split; [|split; [set_solver|split; [done|split; [constructor|]]]].
  - split.
    + done.
    + intros i Hi. unfold shape. rewrite decide_False by set_solver. split_and!; try done.
      symmetry. apply filter_every. set_solver.
    + intros i Hi. by apply not_elem_of_empty in Hi.
    + intros i p _ Hdi. by destruct (Hd i).
    + intros i Hn. destruct (Hs i). split; [done|apply Hp].
    + intros i _ Hpi. by destruct (Hp i).
    + intros i Ht. by destruct (Hs i).
    + intros i _ Hdi. by destruct (Hd i).
    + intros i c _ _ Hpi. by destruct (Hp i).
    + intros i o' Hi Ht Ho. destruct (Hs i) as [_ ->]. split; [split; [intros ?; by destruct (Hp i)|done]|]. split; [|done].
      intros ?; by destruct (Hd i).
    + done.
    + done.
    + intros i Hi%Hsrc. destruct Hi as [Hi Hsc]. split; [done|]. split; [set_solver|]. split; [apply Hd|].
      rewrite (wf_scan_producers cid rank g Hwf i Hi Hsc). set_solver.
    + intros i Hi _ _ Hps. apply Hsrc. split; [done|]. destruct (hasScanSet (nd g i)) eqn:Hsc; [done|]. exfalso.
      destruct (isJoining (nd g i)) eqn:Hj.
      * destruct (wf_join_sides cid rank g Hwf i Hi Hj) as (a & b & Ep & _). destruct (Hps a) as [? _]; [rewrite Ep; by left|].
        by destruct (Hd a).
      * destruct (wf_single_producer cid rank g Hwf i Hi Hj Hsc) as (p & Ep & _). destruct (Hps p) as [? _]; [rewrite Ep; by left|].
        by destruct (Hd p).
    + intros i _ Hpi. by destruct (Hp i).
    + intros k v. by rewrite lookup_empty.
    + split; [intros i _ Hpi; by destruct (Hp i)|done].
  - intros i. split; [by intros ?%elem_of_nil|]. intros [?|(_ & ? & _)]; [set_solver|by destruct (Hp i)].
Qed.
End spec.

(** ** From the text of a plan to its end *)

(** The nodes that are built for a plan. *)
Definition built (cid : Z) (tcap : string) (fuel : nat) (b : PDBPipeNodeBuilder) : Prop :=
  exists plan srcs, compile_tcap tcap empty_plan = Ok tt plan /\ size (comps plan) < fuel /\
    generateAnalyzerGraph cid fuel (PDBPipeNodeBuilder_new plan) = Ok srcs b.
(** The catalog knows the sets that are scanned. *)
Definition known_sets (getSet : string -> string -> option Z) (g : nodes) : Prop :=
  map_Forall (fun _ n => match head (pipeline n) with
                         | Some c => match kind c with KScanSet set _ => is_Some (getSet set.1 set.2) | _ => True end
                         | None => True end) g.

Section text.
Variables (cid : Z) (rank : nat -> nat) (g : nodes).
Hypothesis Hwf : wf_graph cid rank g.
Variable getSet : string -> string -> option Z.
Hypothesis Hknown : known_sets getSet g.

Lemma add_source_Ok s o : s ∈ dom g -> hasScanSet (nd g s) = true -> optNodes o = g -> s ∉ map snd (optSources o) ->
  exists o', add_source getSet s o = Ok tt o' /\ optNodes o' = g /\ map snd (optSources o') ≡ₚ s :: map snd (optSources o) /\
    (forall k, is_Some (pageSetCosts o !! k) \/ k = (cid, scan_name (nd g s)) -> is_Some (pageSetCosts o' !! k)) /\
    activePageSets o' = activePageSets o /\ pageSetsToRemove o' = pageSetsToRemove o.
Proof.
  intros Hs Hsc Eo Hns. destruct (wf_at cid rank g Hwf s Hs) as (Ecid & _).
  pose proof (Hknown s (nd g s) (nd_dom g s Hs)) as Hk. simpl in Hk.
  pose proof Hsc as Hsc2. unfold hasScanSet, front_is in Hsc2.
  destruct (pipeline (nd g s)) as [|c l] eqn:El; [done|]. simpl in Hk. apply bool_decide_eq_true in Hsc2.
  unfold getAtomicComputationTypeID in Hsc2. destruct (kind c) as [| | | | | | | |set ps| |] eqn:Ec; try done.
  destruct Hk as [size Hsize].
  assert (Hx : (size, s) ∉ optSources o).
  { intros Hin. apply Hns. apply list_elem_of_In, in_map_iff. exists (size, s). split; [done|by apply list_elem_of_In]. }
  destruct (insert_Ok _ _ Hx) as (sl & Esl & Hsl).
  assert (Enode : node_at s g = Ok (nd g s) g) by by apply node_at_Ok.
  assert (Eo' : set_optNodes g o = o) by (destruct o; simpl in *; by subst).
  unfold add_source. rewrite (bind_Ok _ _ _ (nd g s) o).
  2:{ unfold on_nodes, on_part. rewrite Eo, Enode. by rewrite Eo'. }
  rewrite Hsc. cbn [negb]. rewrite (bind_Ok _ _ _ set o).
  2:{ unfold on_nodes, on_part, getSourceSet. rewrite El. rewrite (bind_Ok _ _ _ c (optNodes o)) by done. rewrite Ec.
      rewrite Eo. unfold mret, M_ret. by rewrite Eo'. }
  rewrite Hsize, (bind_Ok _ _ _ o o) by done. rewrite Esl, (bind_Ok _ _ _ sl o) by done.
  rewrite (bind_Ok _ _ _ (mkSourceSpec SetScanSource (cid, getOutputName c)) o).
  2:{ unfold on_nodes, on_part, getSourcePageSet. rewrite Hsc, El. rewrite (bind_Ok _ _ _ c (optNodes o)) by done.
      rewrite Ecid, Eo. unfold mret, M_ret. by rewrite Eo'. }
  eexists. split; [reflexivity|]. simpl. split; [done|]. split; [by rewrite Hsl|]. split; [|done].
  intros k Hk. unfold scan_name in Hk. rewrite El in Hk.
  destruct (decide (k = (cid, getOutputName c))) as [->|Hne]; [by rewrite lookup_insert_eq|].
  rewrite lookup_insert_ne by done. naive_solver.
Qed.

Lemma add_sources_Ok srcs : forall o, NoDup (srcs ++ map snd (optSources o)) ->
  (forall s, s ∈ srcs -> s ∈ dom g /\ hasScanSet (nd g s) = true) -> optNodes o = g ->
  exists o', for_each srcs (add_source getSet) o = Ok tt o' /\ optNodes o' = g /\
    map snd (optSources o') ≡ₚ srcs ++ map snd (optSources o) /\
    (forall k, is_Some (pageSetCosts o !! k) \/ (exists s, s ∈ srcs /\ k = (cid, scan_name (nd g s))) -> is_Some (pageSetCosts o' !! k)) /\
    activePageSets o' = activePageSets o /\ pageSetsToRemove o' = pageSetsToRemove o.
Proof.
  induction srcs as [|s srcs IH]; intros o Hnd Hs Eo; cbn [for_each].
  { exists o. split_and!; try done. intros k [?|(s & ?%elem_of_nil & _)]; done. }
  pose proof Hnd as Hnd'. simpl in Hnd'. apply NoDup_cons in Hnd' as [Hns Hnd'].
  destruct (Hs s) as [Hsd Hsc]; [by left|].
  destruct (add_source_Ok s o Hsd Hsc Eo) as (o1 & E1 & En1 & Hp1 & Hc1 & Ha1 & Hr1); [set_solver|].
  destruct (IH o1) as (o2 & E2 & En2 & Hp2 & Hc2 & Ha2 & Hr2); [|intros x Hx; apply Hs; by right|done|].
  { rewrite Hp1. by rewrite <- Permutation_middle. }
  exists o2. rewrite (bind_Ok _ _ _ _ _ E1). split; [done|]. split; [done|]. split.
  { rewrite Hp2, Hp1. by rewrite <- Permutation_middle. }
  split; [|by rewrite Ha2, Hr2]. intros k Hk. apply Hc2. destruct Hk as [Hk|(x & [->|Hx]%elem_of_cons & ->)].
  - left. apply Hc1. by left.
  - left. apply Hc1. by right.
  - right. by exists x.
Qed.

Lemma optimizer_starts tcap fuel b : built cid tcap fuel b -> heap b = g ->
  exists o, PDBPhysicalOptimizer_new cid tcap fuel getSet no_optimizer = Ok tt o /\ starts cid g o.
Proof.
  intros (plan & srcs & Ec & Hsize & Eg) Hg.
  pose proof (analyzer_ok cid fuel plan Hsize) as Hok. unfold wp in Hok. rewrite Eg in Hok.
  destruct Hok as [Hdom _ Hsrcs]. rewrite Hg in Hdom, Hsrcs.
  assert (Hin : forall s, s ∈ srcs <-> s ∈ dom g /\ hasScanSet (nd g s) = true).
  { intros s. rewrite Hsrcs. unfold scans_of. rewrite list_elem_of_filter, Hdom, elem_of_set_seq, elem_of_seq. naive_solver. }
  assert (Hnd : NoDup srcs) by (rewrite Hsrcs; apply NoDup_filter, NoDup_seq).
  unfold PDBPhysicalOptimizer_new. rewrite Ec, Eg, Hg.
  rewrite (bind_Ok _ _ _ tt (mkOptimizer g [] [] ∅ ∅ [])) by done.
  destruct (add_sources_Ok srcs (mkOptimizer g [] [] ∅ ∅ [])) as (o & E & En & Hp & Hc & Ha & Hr); [by rewrite app_nil_r|naive_solver|done|].
  simpl in *. rewrite app_nil_r in Hp. exists o. split; [done|]. split; try done.
  - by rewrite Hp.
  - intros i. by rewrite Hp.
  - intros k (i & Hi & Hsc & ->). apply Hc. right. exists i. split; [by apply Hin|done].
Qed.
End text.

(** ** Properties *)
Section properties.
Variables (cid : Z) (rank : nat -> nat) (g : nodes).
Hypothesis Hwf : wf_graph cid rank g.

Lemma undone_bound N : undone g N <= size g.
Proof.
  unfold undone. rewrite <- size_dom. unfold size, set_size. simpl. apply length_filter.
Qed.

Lemma run_from_start threshold stats o fuel depth : starts cid g o -> size g < fuel -> size g <= depth ->
  exists rs o', executeComputation true threshold fuel depth stats 0 o = Ok rs o' /\
    rounds_ok cid g ∅ ∅ rs /\ sets_written rs ≡ₚ plan_writes g /\ activePageSets o' = ∅.
Proof.
  intros Hst Hf Hd. pose proof (undone_bound (optNodes o)) as Hb.
  destruct (execute_spec cid rank g Hwf threshold stats depth fuel ∅ [] o 0) as (rs & o' & E & Hrs & Hw & Ha).
  - by apply sources_ok with (rank := rank).
  - by apply starts_remove in Hst.
  - lia.
  - lia.
  - exists rs, o'. rewrite (starts_active _ _ _ Hst), dom_empty_L in Hrs. done.
Qed.
Lemma rounds_ok_algorithms seen alive rs : rounds_ok cid g seen alive rs -> Forall (fun r => is_Some (algorithm r)) rs.
Proof.
  revert seen alive. induction rs as [|r rs IH]; intros seen alive; simpl; [constructor|].
  intros (alg & E & _ & _ & _ & _ & _ & H). constructor; [by exists alg|by eapply IH].
Qed.
End properties.



(** C36: the builder comes to an end on every list of computations, its nodes
    know each other in both directions as often, and it returns exactly the
    nodes that scan a set. *)
Theorem builder_ends_with_agreeing_links cid p fuel : size (comps p) < fuel ->
  match generateAnalyzerGraph cid fuel (PDBPipeNodeBuilder_new p) with
  | Ok srcs b =>
      (forall i c, cnt c (consumers (nd (heap b) i)) = cnt i (producers (nd (heap b) c))) /\
      NoDup srcs /\ (forall i, i ∈ srcs <-> i ∈ dom (heap b) /\ hasScanSet (nd (heap b) i) = true)
  | NoFuel => False
  | _ => True
  end.
Proof.
  intros Hf. pose proof (analyzer_ok cid fuel p Hf) as H. unfold wp, has_fuel in H.
  destruct (generateAnalyzerGraph _ _ _) as [srcs b|e b|b|f|]; try done. destruct H as [Hdom Hl Hs].
  split; [done|]. rewrite Hs. split; [apply NoDup_filter, NoDup_seq|]. intros i. unfold scans_of.
  rewrite list_elem_of_filter, Hdom, elem_of_set_seq, elem_of_seq. naive_solver.
Qed.
