(* ===== verification/PhysicalCases.v ===== *)
(** Plans of TCAP through the physical optimizer: a plan for which the
    theorems apply, and plans with unions for which planning goes wrong. *)

From S2P Require Import Prelude AtomicComputation AtomicComputationList TcapText PhysicalNodes PhysicalOptimizer PhysicalInv PhysicalSteps PhysicalBuild PhysicalSpec.

Definition newline : string := String (Ascii.ascii_of_nat 10) EmptyString.
Definition tcap_of (lines : list string) : string := foldr (fun l s => l +:+ newline +:+ s) EmptyString lines.

(** ** A join, aggregated and written, whose rows are written as well *)
Definition good_tcap : string := tcap_of
  ["A(a) <= SCAN ('db', 'A', 'S0')";
   "B(b) <= SCAN ('db', 'B', 'S1')";
   "AH(a,h) <= HASHLEFT (A(a), A(a), 'J2', 'l')";
   "BH(b,h) <= HASHRIGHT (B(b), B(b), 'J2', 'l')";
   "J(a,b) <= JOIN (AH(h), AH(a), BH(h), BH(b), 'J2')";
   "P(p) <= APPLY (J(a,b), J(), 'J2', 'l')";
   "K(k,v) <= APPLY (P(p), P(), 'Agg3', 'l')";
   "G(g) <= AGGREGATE (K(k,v), 'Agg3')";
   "O1( ) <= OUTPUT (G(g), 'out1', 'db', 'W4')";
   "O2( ) <= OUTPUT (P(p), 'out2', 'db', 'W5')"].
Definition plan_of (tcap : string) : PlanState :=
  match compile_tcap tcap empty_plan with Ok _ p => p | _ => empty_plan end.
Definition builder_of (tcap : string) : PDBPipeNodeBuilder :=
  match generateAnalyzerGraph 1 40 (PDBPipeNodeBuilder_new (plan_of tcap)) with
  | Ok _ b => b
  | _ => PDBPipeNodeBuilder_new empty_plan
  end.
Definition sources_of (tcap : string) : list nat :=
  match generateAnalyzerGraph 1 40 (PDBPipeNodeBuilder_new (plan_of tcap)) with Ok s _ => s | _ => [] end.
Definition good_graph : nodes := heap (builder_of good_tcap).
Definition good_rank (i : nat) : nat := nth i [0; 1; 2; 3; 2; 0] 0.
Definition sizes (f : string -> Z) (db set : string) : option Z := Some (f set).
Definition all_1000 : string -> Z := fun _ => 1000%Z.

Definition ends {S A} (r : outcome S A) : bool := match r with Ok _ _ => true | _ => false end.
Lemma built_of tcap : ends (compile_tcap tcap empty_plan) = true -> size (comps (plan_of tcap)) < 40 ->
  ends (generateAnalyzerGraph 1 40 (PDBPipeNodeBuilder_new (plan_of tcap))) = true -> built 1 tcap 40 (builder_of tcap).
Proof.
  intros H1 H2 H3. exists (plan_of tcap), (sources_of tcap). split; [|split; [done|]].
  - clear H2 H3. unfold plan_of. by destruct (compile_tcap tcap empty_plan) as [[] p|e p|p|f|].
  - clear H1 H2. unfold builder_of, sources_of.
    by destruct (generateAnalyzerGraph 1 40 (PDBPipeNodeBuilder_new (plan_of tcap))) as [s b|e p|p|f|].
Qed.
Lemma good_built : built 1 good_tcap 40 (builder_of good_tcap).
Proof. apply built_of; [vm_compute; reflexivity|vm_compute; lia|vm_compute; reflexivity]. Qed.
Lemma good_wf : wf_graph 1 good_rank good_graph.
Proof. apply (bool_decide_unpack _). vm_compute. exact I. Qed.
Lemma good_known : known_sets (sizes all_1000) good_graph.
Proof. intros i n _. destruct (head (pipeline n)) as [c|]; [|done]. by destruct (kind c). Qed.



Lemma builder_ends_with_agreeing_links_witness : size good_graph = 6 /\
  (forall i c, cnt c (consumers (nd good_graph i)) = cnt i (producers (nd good_graph c))).
Proof.
  split; [vm_compute; reflexivity|]. destruct good_built as (p & srcs & _ & Hs & E).
  pose proof (builder_ends_with_agreeing_links 1 p 40 Hs) as H. rewrite E in H. exact (proj1 H).
Defined.

(** ** Plans with unions *)

Definition rounds_of (threshold : Z) (tcap : string) (f : string -> Z) : option (list round * PDBPhysicalOptimizer) :=
  match PDBPhysicalOptimizer_new 1 tcap 40 (sizes f) no_optimizer with
  | Ok _ o => match executeComputation true threshold 40 40 (fun _ => []) 0 o with
              | Ok rs o' => Some (rs, o')
              | _ => None
              end
  | _ => None
  end.
Definition round_reads (r : round) : list PDBPageSetIdentifier :=
  match algorithm r with Some a => alg_reads a | None => [] end.
(** An algorithm reads a page set that was removed before. *)
Fixpoint reads_removed (gone : list PDBPageSetIdentifier) (rs : list round) : bool :=
  match rs with
  | [] => false
  | r :: rs => existsb (fun k => bool_decide (k ∈ gone)) (round_reads r) || reads_removed (gone ++ removed r) rs
  end.

(** An aggregation and a set are united, while a third set is copied. *)
Definition union_tcap : string := tcap_of
  ["A(a) <= SCAN ('db', 'A', 'S0')";
   "Ak(k,v) <= APPLY (A(a), A(), 'Agg1', 'l')";
   "G(g) <= AGGREGATE (Ak(k,v), 'Agg1')";
   "B(b) <= SCAN ('db', 'B', 'S1')";
   "U(u) <= UNION (G(g), B(b), 'U2')";
   "O1( ) <= OUTPUT (U(u), 'out1', 'db', 'W3')";
   "C(c) <= SCAN ('db', 'C', 'S4')";
   "O2( ) <= OUTPUT (C(c), 'out2', 'db', 'W5')"].
Definition union_sizes (s : string) : Z := if bool_decide (s = "A") then 1 else if bool_decide (s = "C") then 10 else 1000.


(** Both sides of the union read the same page set. *)
Definition diamond_tcap : string := tcap_of
  ["A(a) <= SCAN ('db', 'A', 'S0')";
   "X(x) <= APPLY (A(a), A(), 'Sel1', 'l')";
   "L(x) <= APPLY (X(x), X(x), 'Sel2', 'l')";
   "R(x) <= APPLY (X(x), X(x), 'Sel3', 'l')";
   "U(u) <= UNION (L(x), R(x), 'U2')";
   "O1( ) <= OUTPUT (U(u), 'out1', 'db', 'W3')"].
Lemma union_counter_wraps :
  (fun x => activePageSets x.2 !! (1%Z, "X")) <$> rounds_of 0 diamond_tcap all_1000 = Some (Some (2 ^ 64 - 1)%Z).
Proof. vm_compute. reflexivity. Qed.

(** A join is the first side of a union: the second page set of the join is in
    no algorithm, and stays. *)
Definition union_join_tcap : string := tcap_of
  ["A(a) <= SCAN ('db', 'A', 'S0')";
   "B(b) <= SCAN ('db', 'B', 'S1')";
   "AH(a,h) <= HASHLEFT (A(a), A(a), 'J2', 'l')";
   "BH(b,h) <= HASHRIGHT (B(b), B(b), 'J2', 'l')";
   "J(a,b) <= JOIN (AH(h), AH(a), BH(h), BH(b), 'J2')";
   "P(p) <= APPLY (J(a,b), J(), 'J2', 'l')";
   "D(d) <= SCAN ('db', 'D', 'S3')";
   "U(u) <= UNION (P(p), D(d), 'U4')";
   "O1( ) <= OUTPUT (U(u), 'out1', 'db', 'W5')"].
Definition join_sizes (s : string) : Z := if bool_decide (s = "D") then 5000 else 1000.
Lemma union_loses_a_join_side :
  (fun x => (map round_reads x.1, map_to_list (activePageSets x.2))) <$> rounds_of 0 union_join_tcap join_sizes =
  Some ([[(1%Z, "B")]; [(1%Z, "A")]; [(1%Z, "AH"); (1%Z, "D")]], [((1%Z, "BH"), 1%Z)]).
Proof. vm_compute. reflexivity. Qed.

(** What a union and another computation share is fed to itself. *)
Definition shared_tcap : string := tcap_of
  ["A(a) <= SCAN ('db', 'A', 'S0')";
   "X(x) <= APPLY (A(a), A(), 'Sel1', 'l')";
   "B(b) <= SCAN ('db', 'B', 'S1')";
   "U(u) <= UNION (X(x), B(b), 'U2')";
   "O1( ) <= OUTPUT (U(u), 'out1', 'db', 'W3')";
   "O2( ) <= OUTPUT (X(x), 'out2', 'db', 'W4')"].
Lemma shared_node_feeds_itself :
  (fun n => consumers n) <$> heap (builder_of shared_tcap) !! 1 = Some [1; 3] /\
  rounds_of 0 shared_tcap all_1000 = None.
Proof. split; vm_compute; reflexivity. Qed.

(** Two sources of the same size are each less than the other. *)
Lemma sources_of_one_size :
  OptimizerSource_less (5%Z, 1) (5%Z, 2) = true /\ OptimizerSource_less (5%Z, 2) (5%Z, 1) = true.
Proof. split; vm_compute; reflexivity. Qed.
