(* ===== verification/Allocator.v ===== *)
(** The allocator of the object model: objectModel/headers/Allocator.h and
    Allocator.cc, the functions of InterfaceFunctions.cc that set blocks up, and
    UseTemporaryAllocationBlock.h.

    Memory is a map from addresses to the words stored there, 4 or 8 bytes
    wide; storing a word destroys the words it overlaps, and so does what
    clients write into their objects.  A word that is not there (never written,
    overwritten, or in memory that was freed) cannot be read.  [mallocs] are the
    regions that malloc gave out and that were not freed. *)

From S2P Require Import Prelude.

Open Scope Z_scope.

(** ** Memory *)

Inductive cell := W32 (v : Z) | W64 (v : Z).
Definition width (c : cell) : Z := match c with W32 _ => 4 | W64 _ => 8 end.
Abbreviation memory := (gmap Z cell).

(** What [n] bytes from [a] on do to the words there when they change. *)
Definition clobber (a n : Z) (m : memory) : memory :=
  filter (fun x => x.1 + width x.2 <= a \/ a + n <= x.1) m.
Definition write_cell (a : Z) (c : cell) (m : memory) : memory := <[a := c]> (clobber a (width c) m).

(** ** The state *)

Record InactiveAllocationBlock := mkInactive { start : Z; end_ : Z }.

Record AllocatorState := mkState {
  activeRAM : Z;
  numBytes : Z;
  throwException : bool;
  curBlockUserSupplied : bool;
  chunks : list (list Z)
}.

Inductive AllocatorPolicy := defaultAllocator | noReuseAllocator | noReferenceCountAllocator.
#[export] Instance AllocatorPolicy_eq_dec : EqDecision AllocatorPolicy.
Proof. solve_decision. Defined.

(** A [PolicyList] is each policy with its [useMe]; the end of the list is the
    [DummyPolicy]. *)
Abbreviation PolicyList := (list (AllocatorPolicy * bool)).

Record World := mkWorld {
  ram : memory;
  mallocs : gmap Z Z;
  myPolicies : PolicyList;
  myState : AllocatorState;
  allInactives : list InactiveAllocationBlock
}.
Abbreviation MA := (M World).

Definition set_ram (f : memory -> memory) (w : World) : World :=
  mkWorld (f (ram w)) (mallocs w) (myPolicies w) (myState w) (allInactives w).
Definition set_mallocs (f : gmap Z Z -> gmap Z Z) (w : World) : World :=
  mkWorld (ram w) (f (mallocs w)) (myPolicies w) (myState w) (allInactives w).
Definition set_policies (f : PolicyList -> PolicyList) (w : World) : World :=
  mkWorld (ram w) (mallocs w) (f (myPolicies w)) (myState w) (allInactives w).
Definition set_state (f : AllocatorState -> AllocatorState) (w : World) : World :=
  mkWorld (ram w) (mallocs w) (myPolicies w) (f (myState w)) (allInactives w).
Definition set_inactives (f : list InactiveAllocationBlock -> list InactiveAllocationBlock) (w : World) : World :=
  mkWorld (ram w) (mallocs w) (myPolicies w) (myState w) (f (allInactives w)).
Definition set_chunks (f : list (list Z) -> list (list Z)) (s : AllocatorState) : AllocatorState :=
  mkState (activeRAM s) (numBytes s) (throwException s) (curBlockUserSupplied s) (f (chunks s)).
Definition set_userSupplied (b : bool) (s : AllocatorState) : AllocatorState :=
  mkState (activeRAM s) (numBytes s) (throwException s) b (chunks s).

Definition load32 (a : Z) : MA Z :=
  w <- get ;; match ram w !! a with Some (W32 v) => mret v | _ => ub InvalidRead end.
Definition load64 (a : Z) : MA Z :=
  w <- get ;; match ram w !! a with Some (W64 v) => mret v | _ => ub InvalidRead end.
Definition store (a : Z) (c : cell) : MA unit := modify (set_ram (write_cell a c)).

(** malloc has answered [p], or calloc, which CMakeLists.txt chooses; what is
    there is not read. *)
Definition malloced (p n : Z) : MA unit :=
  _ <- modify (set_mallocs <[p := n]>) ;; modify (set_ram (clobber p n)).
Definition free (p : Z) : MA unit :=
  w <- get ;;
  n <- unwrap InvalidFree (mallocs w !! p) ;;
  _ <- modify (set_mallocs (delete p)) ;; modify (set_ram (clobber p n)).

(** ** Blocks

    The layout of a block is | num bytes used | offset to root object | number
    active objects | data |. *)
Definition HEADER_SIZE : Z := 20.
Definition CHUNK_HEADER_SIZE : Z := 4.
Definition LAST_USED_of (block : Z) : MA Z := load64 block.
Definition ALLOCATOR_REF_COUNT_of (block : Z) : MA Z := load32 (block + 16).
Definition GET_CHUNK_SIZE (ofMe : Z) : MA Z := load32 ofMe.
(** [ALLOCATOR_REF_COUNT += d] *)
Definition change_count (block d : Z) : MA unit :=
  n <- ALLOCATOR_REF_COUNT_of block ;; store (block + 16) (W32 (u32 (n + d))).

Definition freeBlock (b : InactiveAllocationBlock) : MA unit :=
  if bool_decide (start b = 0) then mret tt else free (start b).
Definition block_numBytes (b : InactiveAllocationBlock) : Z := end_ b - start b.

(** [operator<] and [operator>] between blocks and addresses. *)
Definition block_before (b : InactiveAllocationBlock) (compToMe : Z) : bool := end_ b <? compToMe.
Definition block_after (b : InactiveAllocationBlock) (compToMe : Z) : bool := compToMe <? start b.
Definition block_le (lhs rhs : InactiveAllocationBlock) : Prop := end_ lhs <= end_ rhs.
#[export] Instance block_le_dec lhs rhs : Decision (block_le lhs rhs) := Z_le_dec _ _.

(** [std::lower_bound], which is defined when the blocks before the address
    come first. *)
Fixpoint lower_bound (l : list InactiveAllocationBlock) (here : Z) : option nat :=
  match l with
  | [] => Some 0%nat
  | b :: l' =>
      if block_before b here then Datatypes.S <$> lower_bound l' here
      else if existsb (fun b => block_before b here) l' then None else Some 0%nat
  end.

(** The inactive block that contains an address. *)
Definition find_inactive (here : Z) : MA (option (nat * InactiveAllocationBlock)) :=
  w <- get ;;
  i <- unwrap InvalidComparator (lower_bound (allInactives w) here) ;;
  match allInactives w !! i with
  | Some b => if block_after b here then mret None else mret (Some (i, b))
  | None => mret None
  end.

(** [emplace_back] and [std::sort]. *)
Definition add_inactive (where_ size : Z) : MA unit :=
  modify (set_inactives (fun l => merge_sort block_le (l ++ [mkInactive where_ (where_ + size)]))).

(** ** Policies *)

(** [__builtin_clz], which has no meaning for 0. *)
Definition builtin_clz (x : Z) : MA Z :=
  if x =? 0 then ub UndefinedBuiltin else mret (31 - Z.log2 x).

Definition defaultFreeRAM (isContained : bool) (here : Z) : MA unit :=
  if isContained then
    let here := here - CHUNK_HEADER_SIZE in
    chunkSize <- GET_CHUNK_SIZE here ;;
    leadingZeros <- builtin_clz chunkSize ;;
    w <- get ;;
    let i := Z.to_nat (31 - leadingZeros) in
    l <- unwrap OutOfRange (chunks (myState w) !! i) ;;
    _ <- modify (set_state (set_chunks <[i := l ++ [here]]>)) ;;
    change_count (activeRAM (myState w)) (-1)
  else
    found <- find_inactive here ;;
    match found with
    | None => mret tt
    | Some (i, b) =>
        _ <- change_count (start b) (-1) ;;
        n <- ALLOCATOR_REF_COUNT_of (start b) ;;
        if n =? 0 then
          _ <- freeBlock b ;; modify (set_inactives (delete i))
        else mret tt
    end.

(** [(unsigned)(CHUNK_HEADER_SIZE + howMuch)], up to a multiple of 4. *)
Definition bytesNeeded_for (howMuch : Z) : Z :=
  let bytesNeeded := u32 (CHUNK_HEADER_SIZE + howMuch) in
  if negb (bytesNeeded mod 4 =? 0) then u32 (bytesNeeded + (4 - bytesNeeded mod 4)) else bytesNeeded.

(** The chunks of one list, from position [j - 1] down. *)
Fixpoint search_list (l : list Z) (j : nat) (bytesNeeded : Z) : MA (option nat) :=
  match j with
  | O => mret None
  | Datatypes.S j =>
      c <- unwrap OutOfRange (l !! j) ;;
      size <- GET_CHUNK_SIZE c ;;
      if bytesNeeded <=? size then mret (Some j) else search_list l j bytesNeeded
  end.
(** The lists from [i] on, [n] of them. *)
Fixpoint search_chunks (n i : nat) (bytesNeeded : Z) : MA (option (nat * nat)) :=
  match n with
  | O => mret None
  | Datatypes.S n =>
      w <- get ;;
      l <- unwrap OutOfRange (chunks (myState w) !! i) ;;
      found <- search_list l (length l) bytesNeeded ;;
      match found with
      | Some j => mret (Some (i, j))
      | None => search_chunks n (Datatypes.S i) bytesNeeded
      end
  end.

(** A chunk at the end of the block, or an exception or a null pointer. *)
Definition carve (bytesNeeded : Z) : MA Z :=
  w <- get ;;
  let block := activeRAM (myState w) in
  last_ <- LAST_USED_of block ;;
  if numBytes (myState w) <? u64 (last_ + bytesNeeded) then
    if throwException (myState w) then throw NotEnoughSpace else mret 0
  else
    let res := last_ + block in
    _ <- store block (W64 (u64 (last_ + bytesNeeded))) ;;
    _ <- store res (W32 bytesNeeded) ;;
    _ <- change_count block 1 ;;
    mret (res + CHUNK_HEADER_SIZE).

Definition defaultGetRAM (howMuch : Z) : MA Z :=
  let bytesNeeded := bytesNeeded_for howMuch in
  numLeadingZeros <- builtin_clz bytesNeeded ;;
  let first_ := Z.to_nat (31 - numLeadingZeros) in
  found <- search_chunks (32 - first_) first_ bytesNeeded ;;
  match found with
  | Some (i, j) =>
      w <- get ;;
      l <- unwrap OutOfRange (chunks (myState w) !! i) ;;
      returnVal <- unwrap OutOfRange (l !! j) ;;
      _ <- modify (set_state (set_chunks <[i := delete j l]>)) ;;
      _ <- change_count (activeRAM (myState w)) 1 ;;
      mret (returnVal + CHUNK_HEADER_SIZE)
  | None => carve bytesNeeded
  end.

Definition fastGetRAM (howMuch : Z) : MA Z := carve (bytesNeeded_for howMuch).

Definition policy_getRAM (p : AllocatorPolicy) (howMuch : Z) : MA Z :=
  match p with
  | noReuseAllocator => fastGetRAM howMuch
  | _ => defaultGetRAM howMuch
  end.
Definition policy_freeRAM (p : AllocatorPolicy) (isContained : bool) (here : Z) : MA unit :=
  match p with
  | noReferenceCountAllocator => mret tt
  | _ => defaultFreeRAM isContained here
  end.

Fixpoint list_unsetPolicy (l : PolicyList) : PolicyList :=
  match l with
  | [] => []
  | (p, _) :: theRest => (p, false) :: list_unsetPolicy theRest
  end.
Fixpoint list_setPolicy (toMe : AllocatorPolicy) (l : PolicyList) : PolicyList :=
  match l with
  | [] => []
  | (firstPolicy, _) :: theRest =>
      if bool_decide (firstPolicy = toMe) then (firstPolicy, true) :: list_unsetPolicy theRest
      else (firstPolicy, false) :: list_setPolicy toMe theRest
  end.
Fixpoint list_getRAM (l : PolicyList) (howMuch : Z) : MA Z :=
  match l with
  | [] => mret 0
  | (firstPolicy, useMe) :: theRest =>
      if useMe : bool then policy_getRAM firstPolicy howMuch else list_getRAM theRest howMuch
  end.
Fixpoint list_freeRAM (l : PolicyList) (isContained : bool) (here : Z) : MA unit :=
  match l with
  | [] => mret tt
  | (firstPolicy, useMe) :: theRest =>
      if useMe : bool then policy_freeRAM firstPolicy isContained here else list_freeRAM theRest isContained here
  end.

(** ** The allocator *)

Definition setPolicy (policy : AllocatorPolicy) : MA unit := modify (set_policies (list_setPolicy policy)).

Definition doNotFail : MA bool := w <- get ;; mret (negb (throwException (myState w))).

Definition in_block (s : AllocatorState) (where_ : Z) : bool :=
  (activeRAM s <=? where_) && (where_ <? activeRAM s + numBytes s).
Definition contains (whereIn : Z) : MA bool := w <- get ;; mret (in_block (myState w) whereIn).

Definition getRAM (howMuch : Z) : MA Z := w <- get ;; list_getRAM (myPolicies w) howMuch.
Definition freeRAM (here : Z) : MA unit :=
  isContained <- contains here ;;
  w <- get ;;
  list_freeRAM (myPolicies w) isContained here.

Definition isManaged (here : Z) : MA bool :=
  c <- contains here ;;
  if c : bool then mret true
  else found <- find_inactive here ;; mret (match found with Some _ => true | None => false end).

Definition clear_chunks : MA unit := modify (set_state (set_chunks (map (fun _ => [])))).

Definition emptyOutBlock (here : Z) : MA unit :=
  c <- contains here ;;
  if c : bool then
    _ <- clear_chunks ;;
    w <- get ;;
    store (activeRAM (myState w) + 16) (W32 0)
  else
    found <- find_inactive here ;;
    match found with
    | Some (i, _) => modify (set_inactives (delete i))
    | None => mret tt
    end.

Definition getNumObjectsInCurrentAllocatorBlock : MA Z :=
  w <- get ;; ALLOCATOR_REF_COUNT_of (activeRAM (myState w)).
Definition getNumObjectsInAllocatorBlock (here : Z) : MA Z :=
  c <- contains here ;;
  if c : bool then getNumObjectsInCurrentAllocatorBlock
  else
    found <- find_inactive here ;;
    match found with
    | Some (_, b) => ALLOCATOR_REF_COUNT_of (start b)
    | None => mret 0
    end.

Definition getFreeBytesAtTheEnd : MA Z :=
  w <- get ;;
  last_ <- LAST_USED_of (activeRAM (myState w)) ;;
  mret (u64 (numBytes (myState w) - last_)).
(** The sum of the sizes is an [unsigned]. *)
Fixpoint sum_chunks (l : list Z) (amtUnused : Z) : MA Z :=
  match l with
  | [] => mret amtUnused
  | v :: l => size <- GET_CHUNK_SIZE v ;; sum_chunks l (u32 (amtUnused + size))
  end.
Definition getBytesAvailableInCurrentAllocatorBlock : MA Z :=
  w <- get ;;
  amtUnused <- sum_chunks (concat (chunks (myState w))) 0 ;;
  last_ <- LAST_USED_of (activeRAM (myState w)) ;;
  mret (u64 (numBytes (myState w) - last_ + amtUnused)).

(** A block that is not used any more is remembered while it has objects. *)
Definition retire (block size : Z) : MA unit :=
  n <- ALLOCATOR_REF_COUNT_of block ;;
  if n =? 0 then free block else add_inactive block size.

Definition setupBlock (where_ numBytesIn : Z) (throwExceptionOnFail : bool) : MA unit :=
  if numBytesIn <? HEADER_SIZE then exit
  else if where_ =? 0 then exit
  else
    w <- get ;;
    let s := myState w in
    _ <- (if negb (activeRAM s =? 0) && negb (curBlockUserSupplied s) then retire (activeRAM s) (numBytes s)
          else mret tt) ;;
    _ <- modify (set_state (fun s =>
           mkState where_ numBytesIn throwExceptionOnFail false (map (fun _ => []) (chunks s)))) ;;
    _ <- store where_ (W64 HEADER_SIZE) ;;
    store (where_ + 16) (W32 0).

Definition setupUserSuppliedBlock (where_ numBytesIn : Z) (throwExceptionOnFail : bool) : MA unit :=
  _ <- setupBlock where_ numBytesIn throwExceptionOnFail ;;
  modify (set_state (set_userSupplied true)).

(** The block of an object, whose place it notes as the root of the block. *)
Definition getAllocationBlock (here : Z) : MA Z :=
  w <- get ;;
  if in_block (myState w) here then
    let block := activeRAM (myState w) in
    _ <- store (block + 8) (W64 (u64 (here - block))) ;; mret block
  else
    found <- find_inactive here ;;
    match found with
    | Some (_, b) => _ <- store (start b + 8) (W64 (u64 (here - start b))) ;; mret (start b)
    | None => mret 0
    end.

(** What both [temporarilyUseBlockForAllocations] do first: the block stays
    alive by a reference that nothing has. *)
Definition hold_block : MA AllocatorState :=
  w <- get ;;
  let returnVal := myState w in
  _ <- modify (set_state (set_userSupplied false)) ;;
  _ <- change_count (activeRAM returnVal) 1 ;;
  mret returnVal.
Definition temporarilyUseUserBlock (putMeHere numBytesAvailable : Z) : MA AllocatorState :=
  returnVal <- hold_block ;;
  _ <- setupUserSuppliedBlock putMeHere numBytesAvailable true ;;
  mret returnVal.
(** [putMeHere] is what malloc answers. *)
Definition temporarilyUseBlockForAllocations (putMeHere numBytesAvailable : Z) : MA AllocatorState :=
  returnVal <- hold_block ;;
  if putMeHere =? 0 then exit
  else
    _ <- malloced putMeHere numBytesAvailable ;;
    _ <- setupBlock putMeHere numBytesAvailable true ;;
    mret returnVal.

Fixpoint remove_block (l : list InactiveAllocationBlock) (block : Z) : list InactiveAllocationBlock :=
  match l with
  | [] => []
  | b :: l => if start b =? block then l else b :: remove_block l block
  end.

Definition restoreAllocationBlock (useMe : AllocatorState) : MA unit :=
  w <- get ;;
  let s := myState w in
  _ <- (if negb (curBlockUserSupplied s) then retire (activeRAM s) (numBytes s) else mret tt) ;;
  _ <- modify (set_state (fun _ => useMe)) ;;
  _ <- modify (set_inactives (fun l => remove_block l (activeRAM useMe))) ;;
  change_count (activeRAM useMe) (-1).

(** Both overloads of [cleanInactiveBlocks]; a block that is not one of
    malloc's cannot be freed. *)
Fixpoint clean_blocks (f : InactiveAllocationBlock -> bool) (l : list InactiveAllocationBlock)
    : MA (list InactiveAllocationBlock) :=
  match l with
  | [] => mret []
  | b :: l =>
      if f b then _ <- freeBlock b ;; clean_blocks f l
      else l' <- clean_blocks f l ;; mret (b :: l')
  end.
Definition cleanInactiveBlocks (size : option Z) : MA unit :=
  w <- get ;;
  l <- clean_blocks (fun b => match size with Some n => block_numBytes b =? n | None => true end)
         (allInactives w) ;;
  modify (set_inactives (fun _ => l)).

(** The constructors; [putMeHere] is what malloc answers.  The members that are
    not initialised are not read before [setupBlock] sets them. *)
Definition new_world : World :=
  mkWorld ∅ ∅ [(defaultAllocator, false); (noReuseAllocator, false); (noReferenceCountAllocator, false)]
    (mkState 0 0 false false (replicate 32 [])) [].
Definition MultiPolicyAllocator_new (putMeHere numBytesIn : Z) : MA unit :=
  if putMeHere =? 0 then exit
  else
    _ <- malloced putMeHere numBytesIn ;;
    _ <- setupBlock putMeHere numBytesIn true ;;
    setPolicy defaultAllocator.
Fixpoint read_counts (l : list InactiveAllocationBlock) : MA unit :=
  match l with
  | [] => mret tt
  | b :: l => _ <- ALLOCATOR_REF_COUNT_of (start b) ;; read_counts l
  end.
(** The destructor; it reads the counts to print them. *)
Definition MultiPolicyAllocator_destroy : MA unit :=
  w <- get ;;
  let s := myState w in
  _ <- (if negb (activeRAM s =? 0) && negb (curBlockUserSupplied s) then
          _ <- getNumObjectsInCurrentAllocatorBlock ;; free (activeRAM s)
        else mret tt) ;;
  read_counts (allInactives w).

(** InterfaceFunctions.cc *)
Definition makeObjectAllocatorBlock (space numBytesIn : Z) (throwExceptionOnFail : bool) : MA unit :=
  if space =? 0 then exit
  else _ <- malloced space numBytesIn ;; setupBlock space numBytesIn throwExceptionOnFail.
Definition makeObjectAllocatorBlock_at (spaceToUse numBytesIn : Z) (throwExceptionOnFail : bool) : MA unit :=
  setupUserSuppliedBlock spaceToUse numBytesIn throwExceptionOnFail.
