(* ===== verification/AllocatorInv.v ===== *)
(** What an allocator keeps: arenas of objects, and the invariant that ties
    them to the words in memory; and how inactive blocks are found, added and
    removed.  objectModel/headers/Allocator.cc. *)

From S2P Require Import Prelude Allocator.

Open Scope Z_scope.

(** ** Words in memory *)

Lemma width_pos c : 4 <= width c <= 8.
Proof. destruct c; simpl; lia. Qed.

Lemma clobber_keeps a n m k x :
  m !! k = Some x -> k + width x <= a \/ a + n <= k -> clobber a n m !! k = Some x.
Proof. intros H Hd. unfold clobber. rewrite map_lookup_filter, H. simpl. by case_guard. Qed.
Lemma write_cell_keeps a c m k x :
  m !! k = Some x -> k + width x <= a \/ a + width c <= k -> write_cell a c m !! k = Some x.
Proof.
  intros H Hd. unfold write_cell. pose proof (width_pos c). pose proof (width_pos x).
  rewrite lookup_insert_ne by lia. by apply clobber_keeps.
Qed.
Lemma write_cell_eq a c m : write_cell a c m !! a = Some c.
Proof. unfold write_cell. by rewrite lookup_insert_eq. Qed.

(** The words inside a region are still there. *)
Definition same_in (a n : Z) (m m' : memory) : Prop :=
  forall k x, a <= k -> k + width x <= a + n -> m !! k = Some x -> m' !! k = Some x.
Lemma same_in_refl a n m : same_in a n m m.
Proof. by intros k x. Qed.
Lemma same_in_trans a n m1 m2 m3 : same_in a n m1 m2 -> same_in a n m2 m3 -> same_in a n m1 m3.
Proof. intros H1 H2 k x ? ? ?. apply H2; [done|done|]. by apply H1. Qed.
Lemma clobber_outside a n b k m : b + k <= a \/ a + n <= b -> same_in b k m (clobber a n m).
Proof. intros H j x ? ? ?. apply clobber_keeps; [done|]. pose proof (width_pos x). lia. Qed.
Lemma write_outside a c b k m : b + k <= a \/ a + width c <= b -> same_in b k m (write_cell a c m).
Proof. intros H j x ? ? ?. apply write_cell_keeps; [done|]. pose proof (width_pos x). lia. Qed.

Section runs.
Implicit Types w : World.

Lemma load32_run w a v : ram w !! a = Some (W32 v) -> load32 a w = Ok v w.
Proof. intros H. unfold load32, bind, get. by rewrite H. Qed.
Lemma load64_run w a v : ram w !! a = Some (W64 v) -> load64 a w = Ok v w.
Proof. intros H. unfold load64, bind, get. by rewrite H. Qed.
Lemma change_count_run w b n d : ram w !! (b + 16) = Some (W32 n) ->
  change_count b d w = Ok tt (set_ram (write_cell (b + 16) (W32 (u32 (n + d)))) w).
Proof. intros H. unfold change_count. erewrite bind_Ok; [|by apply load32_run]. done. Qed.
Lemma free_malloced w p n : mallocs w !! p = Some n ->
  free p w = Ok tt (set_ram (clobber p n) (set_mallocs (delete p) w)).
Proof. intros H. unfold free, bind, get, unwrap. by rewrite H. Qed.
End runs.

(** ** The chunks of a block *)

(** Chunks of these sizes, one after the other. *)
Fixpoint layout (a : Z) (sizes : list Z) : list (Z * Z) :=
  match sizes with
  | [] => []
  | s :: sizes => (a, s) :: layout (a + s) sizes
  end.
Fixpoint total_size (sizes : list Z) : Z :=
  match sizes with
  | [] => 0
  | s :: sizes => s + total_size sizes
  end.
Definition chunk_size (s : Z) : Prop := 8 <= s /\ s mod 4 = 0.

Lemma layout_app a l1 l2 : layout a (l1 ++ l2) = layout a l1 ++ layout (a + total_size l1) l2.
Proof.
  revert a. induction l1 as [|s l1 IH]; intros a; simpl; [by rewrite Z.add_0_r|].
  rewrite IH. by replace (a + s + total_size l1) with (a + (s + total_size l1)) by lia.
Qed.
Lemma total_app l1 l2 : total_size (l1 ++ l2) = total_size l1 + total_size l2.
Proof. induction l1; simpl; lia. Qed.
Lemma total_nonneg l : Forall chunk_size l -> 0 <= total_size l.
Proof. induction 1 as [|s l [] _ IH]; simpl; lia. Qed.

Lemma layout_inside a l c s : Forall chunk_size l -> (c, s) ∈ layout a l ->
  chunk_size s /\ a <= c /\ c + s <= a + total_size l.
Proof.
  intros Hl. revert a. induction Hl as [|s0 l Hs Hl IH]; intros a Hx; simpl in *; [by apply not_elem_of_nil in Hx|].
  pose proof (total_nonneg l Hl). destruct Hs as [? ?].
  apply elem_of_cons in Hx as [[= -> ->]|Hx]; [split; [done|lia]|].
  apply IH in Hx as ([? ?] & ? & ?). split; [done|lia].
Qed.
Lemma layout_disjoint a l c s c' s' : Forall chunk_size l -> (c, s) ∈ layout a l -> (c', s') ∈ layout a l ->
  (c = c' /\ s = s') \/ c + s <= c' \/ c' + s' <= c.
Proof.
  intros Hl. revert a. induction Hl as [|s0 l [Hs ?] Hl IH]; intros a Hx Hx'; simpl in *; [by apply not_elem_of_nil in Hx|].
  apply elem_of_cons in Hx as [[= -> ->]|Hx]; apply elem_of_cons in Hx' as [[= -> ->]|Hx'].
  - by left.
  - right; left. by apply layout_inside in Hx' as (? & ? & ?).
  - right; right. by apply layout_inside in Hx as (? & ? & ?).
  - by eapply IH.
Qed.

(** ** Arenas

    What clients know of a block: the objects in it, each with the bytes that
    were asked for; whether the memory is the user's; whether the block is held
    until it becomes the current one again. *)
Record arena := mkArena {
  a_start : Z;
  a_size : Z;
  objs : gmap Z Z;
  user : bool;
  held : bool
}.
Definition set_objs (f : gmap Z Z -> gmap Z Z) (a : arena) : arena :=
  mkArena (a_start a) (a_size a) (f (objs a)) (user a) (held a).
Definition set_held (b : bool) (a : arena) : arena :=
  mkArena (a_start a) (a_size a) (objs a) (user a) b.
Definition apart (a n b k : Z) : Prop := a + n <= b \/ b + k <= a.
Definition apart_arenas (a b : arena) : Prop := apart (a_start a) (a_size a) (a_start b) (a_size b).
(** The references that keep a block alive. *)
Definition refs (a : arena) : Z := Z.of_nat (size (objs a)) + (if held a then 1 else 0).

Record arena_ok (m : memory) (a : arena) (tiles : list Z) : Prop := mkArenaOk {
  ok_start : 0 < a_start a /\ a_start a + a_size a < 2 ^ 63;
  ok_size : HEADER_SIZE <= a_size a < 2 ^ 32;
  ok_tiles : Forall chunk_size tiles;
  ok_used : HEADER_SIZE + total_size tiles <= a_size a;
  ok_last : m !! a_start a = Some (W64 (HEADER_SIZE + total_size tiles));
  ok_count : m !! (a_start a + 16) = Some (W32 (refs a));
  ok_chunk c s : (c, s) ∈ layout (a_start a + HEADER_SIZE) tiles -> m !! c = Some (W32 s);
  ok_objs o u : objs a !! o = Some u ->
    0 < u /\ exists s, (o - 4, s) ∈ layout (a_start a + HEADER_SIZE) tiles /\ u + 4 <= s
}.

(** The free lists: chunks that no object is in, each in the list of its size. *)
Record chunks_ok (cs : list (list Z)) (a : arena) (tiles : list Z) : Prop := mkChunksOk {
  ok_lists : length cs = 32%nat;
  ok_nodup : NoDup (concat cs);
  ok_free i l c : cs !! i = Some l -> c ∈ l ->
    exists s, (c, s) ∈ layout (a_start a + HEADER_SIZE) tiles /\ objs a !! (c + 4) = None /\ Z.log2 s = Z.of_nat i
}.

Lemma arena_ok_same m m' a tiles : arena_ok m a tiles -> same_in (a_start a) (a_size a) m m' -> arena_ok m' a tiles.
Proof.
  intros [H1 H2 H3 H4 H5 H6 H7 H8] Hs. unfold HEADER_SIZE in *.
  assert (Hc : forall c s, (c, s) ∈ layout (a_start a + 20) tiles ->
    a_start a <= c /\ c + 4 <= a_start a + a_size a).
  { intros c s Hc. apply layout_inside in Hc as ([? ?] & ? & ?); [lia|done]. }
  split; try done.
  - apply Hs; [lia|simpl; lia|done].
  - apply Hs; [lia|simpl; lia|done].
  - intros c s Hin. destruct (Hc _ _ Hin). apply Hs; [lia|simpl; lia|]. by apply H7.
Qed.

Lemma obj_inside m a tiles o u : arena_ok m a tiles -> objs a !! o = Some u ->
  a_start a + 24 <= o /\ 0 < u /\ o + u <= a_start a + a_size a.
Proof.
  intros H Ho. pose proof (ok_used _ _ _ H). destruct (ok_objs _ _ _ H o u Ho) as (? & s & Hl & ?).
  apply layout_inside in Hl as ([? _] & ? & ?); [|apply H]. unfold HEADER_SIZE in *. lia.
Qed.
Lemma layout_length a l : length (layout a l) = length l.
Proof. revert a. induction l as [|s l IH]; intros a; simpl; [done|]. by rewrite IH. Qed.
Lemma total_length l : Forall chunk_size l -> Z.of_nat (length l) * 8 <= total_size l.
Proof. induction 1 as [|s l [] _ IH]; simpl length; simpl total_size; lia. Qed.

(** As many objects as fit. *)
Lemma objs_few m a tiles : arena_ok m a tiles -> Z.of_nat (size (objs a)) * 8 <= a_size a - HEADER_SIZE.
Proof.
  intros H. pose proof (ok_used _ _ _ H). pose proof (total_length _ (ok_tiles _ _ _ H)).
  enough (size (objs a) <= length tiles)%nat by lia.
  rewrite <- (layout_length (a_start a + HEADER_SIZE)), <- length_map_to_list, <- (length_fmap fst (layout _ _)).
  rewrite <- (length_fmap (fun x : Z * Z => x.1 - 4)).
  apply submseteq_length, NoDup_submseteq.
  - apply NoDup_fmap_2_strong; [|apply NoDup_map_to_list]. intros [o u] [o' u'] Hx Hx' E. simpl in E.
    apply elem_of_map_to_list in Hx, Hx'. assert (o = o') as <- by lia. by simplify_eq.
  - intros x ([o u] & -> & Hin)%list_elem_of_fmap. apply elem_of_map_to_list in Hin.
    destruct (ok_objs _ _ _ H o u Hin) as (_ & s & Hs & _). apply list_elem_of_fmap. by exists (o - 4, s).
Qed.
Lemma refs_bound m a tiles : arena_ok m a tiles -> 0 <= refs a < 2 ^ 32 - 1.
Proof.
  intros H. pose proof (objs_few _ _ _ H). pose proof (ok_size _ _ _ H). unfold refs, HEADER_SIZE in *. destruct (held a); lia.
Qed.

(** ** The abstract allocator *)

Record Arenas := mkArenas {
  cur : arena;
  others : gmap Z arena;
  (* the held arenas, the last one first, and how each of them fails *)
  stack : list (Z * bool);
  heap : gmap Z Z;
  mode : AllocatorPolicy;
  throws : bool
}.
Definition set_cur (a : arena) (A : Arenas) : Arenas :=
  mkArenas a (others A) (stack A) (heap A) (mode A) (throws A).
Definition set_others (f : gmap Z arena -> gmap Z arena) (A : Arenas) : Arenas :=
  mkArenas (cur A) (f (others A)) (stack A) (heap A) (mode A) (throws A).
Definition set_heap (f : gmap Z Z -> gmap Z Z) (A : Arenas) : Arenas :=
  mkArenas (cur A) (others A) (stack A) (f (heap A)) (mode A) (throws A).
Definition set_mode (p : AllocatorPolicy) (A : Arenas) : Arenas :=
  mkArenas (cur A) (others A) (stack A) (heap A) p (throws A).

Inductive request :=
| RGet (howMuch : Z)
| RFree (here : Z)
| RWrite (a n : Z)
| RPolicy (p : AllocatorPolicy)
| RMake (space n : Z) (throws : bool)
| RMakeAt (space n : Z) (throws : bool)
| RTemp (space n : Z)
| RTempAt (space n : Z)
| RRestore
| REmpty (here : Z)
| RRoot (here : Z)
| RCount (here : Z)
| RManaged (here : Z).

(** A client keeps the states that [temporarilyUseBlockForAllocations] gives it
    on a stack, as the objects of UseTemporaryAllocationBlock are. *)
Definition on_world {A} (m : MA A) : M (World * list AllocatorState) A := fun s =>
  match m s.1 with
  | Ok a w => Ok a (w, s.2)
  | Raise e w => Raise e (w, s.2)
  | Exit w => Exit (w, s.2)
  | Fault f => Fault f
  | NoFuel => NoFuel
  end.
Definition serve (r : request) : M (World * list AllocatorState) Z :=
  match r with
  | RGet n => on_world (getRAM n)
  | RFree here => _ <- on_world (freeRAM here) ;; mret 0
  | RWrite a n => _ <- on_world (modify (set_ram (clobber a n))) ;; mret 0
  | RPolicy p => _ <- on_world (setPolicy p) ;; mret 0
  | RMake p n t => _ <- on_world (makeObjectAllocatorBlock p n t) ;; mret 0
  | RMakeAt p n t => _ <- on_world (makeObjectAllocatorBlock_at p n t) ;; mret 0
  | RTemp p n =>
      s <- on_world (temporarilyUseBlockForAllocations p n) ;;
      _ <- modify (fun x => (x.1, s :: x.2)) ;; mret 0
  | RTempAt p n =>
      s <- on_world (temporarilyUseUserBlock p n) ;;
      _ <- modify (fun x => (x.1, s :: x.2)) ;; mret 0
  | RRestore =>
      x <- get ;;
      s <- unwrap EmptyTop (head x.2) ;;
      _ <- put (x.1, tail x.2) ;;
      _ <- on_world (restoreAllocationBlock s) ;; mret 0
  | REmpty here => _ <- on_world (emptyOutBlock here) ;; mret 0
  | RRoot here => on_world (getAllocationBlock here)
  | RCount here => on_world (getNumObjectsInAllocatorBlock here)
  | RManaged here => b <- on_world (isManaged here) ;; mret (if b : bool then 1 else 0)
  end.

Definition in_arena (a : arena) (here : Z) : Prop := a_start a < here < a_start a + a_size a.
Definition unmanaged (A : Arenas) (here : Z) : Prop :=
  (here < a_start (cur A) \/ a_start (cur A) + a_size (cur A) <= here) /\
  forall s a, others A !! s = Some a -> here < a_start a \/ a_start a + a_size a < here.

Definition apart_from (A : Arenas) (p n : Z) : Prop :=
  forall s a, others A !! s = Some a -> apart p n (a_start a) (a_size a).
Definition block_size (p n : Z) : Prop := 0 < p /\ p + n < 2 ^ 63 /\ HEADER_SIZE <= n < 2 ^ 32.

(** What clients have to keep to. *)
Definition allowed (A : Arenas) (r : request) : Prop :=
  match r with
  | RGet n => 1 <= n < 2 ^ 31
  | RFree here =>
      is_Some (objs (cur A) !! here) \/ (exists s a, others A !! s = Some a /\ is_Some (objs a !! here)) \/
      unmanaged A here
  | RWrite a n =>
      (* into an object, or where there is no arena *)
      (exists o u, objs (cur A) !! o = Some u /\ o <= a /\ a + n <= o + u) \/
      (exists s b o u, others A !! s = Some b /\ objs b !! o = Some u /\ o <= a /\ a + n <= o + u) \/
      (apart a n (a_start (cur A)) (a_size (cur A)) /\ apart_from A a n)
  | RPolicy _ => True
  | RMake p n _ | RTemp p n =>
      (* malloc's answer *)
      block_size p n /\ apart_from A p n /\ apart p n (a_start (cur A)) (a_size (cur A)) /\ heap A !! p = None
  | RMakeAt p n _ =>
      block_size p n /\ apart_from A p n /\
      (user (cur A) = true \/ apart p n (a_start (cur A)) (a_size (cur A)))
  | RTempAt p n => block_size p n /\ apart_from A p n /\ apart p n (a_start (cur A)) (a_size (cur A))
  | RRestore => stack A <> []
  | REmpty here =>
      in_arena (cur A) here \/ (exists s a, others A !! s = Some a /\ held a = false /\ in_arena a here) \/
      unmanaged A here
  | RRoot here | RCount here | RManaged here =>
      in_arena (cur A) here \/ (exists s a, others A !! s = Some a /\ in_arena a here) \/ unmanaged A here
  end.

(** The current arena is left: the user's memory is forgotten, malloc's is
    kept while there are objects in it, and freed otherwise. *)
Definition leave_cur (A : Arenas) : Arenas :=
  if user (cur A) then A
  else if bool_decide (objs (cur A) = ∅) then set_heap (delete (a_start (cur A))) A
  else set_others <[a_start (cur A) := cur A]> A.
Definition enter_block (p n : Z) (u t : bool) (A : Arenas) : Arenas :=
  mkArenas (mkArena p n ∅ u false) (others A) (stack A) (if u then heap A else <[p := n]> (heap A)) (mode A) t.
Definition hold_cur (A : Arenas) : Arenas :=
  mkArenas (cur A) (<[a_start (cur A) := set_held true (cur A)]> (others A))
    ((a_start (cur A), throws A) :: stack A) (heap A) (mode A) (throws A).
Definition drop_obj (s : Z) (a : arena) (here : Z) (A : Arenas) : Arenas :=
  let a' := set_objs (delete here) a in
  if bool_decide (refs a' = 0) then set_heap (delete s) (set_others (delete s) A)
  else set_others <[s := a']> A.

(** [astep A r ans A']: request [r] is answered with [ans]. *)
Inductive astep (A : Arenas) : request -> Z -> Arenas -> Prop :=
| AGet n p :
    a_start (cur A) + HEADER_SIZE + CHUNK_HEADER_SIZE <= p -> p + n <= a_start (cur A) + a_size (cur A) ->
    (forall o v, objs (cur A) !! o = Some v -> apart p n o v) ->
    astep A (RGet n) p (set_cur (set_objs <[p := n]> (cur A)) A)
| AGetNull n : throws A = false -> astep A (RGet n) 0 A
| AFreeCur here : mode A <> noReferenceCountAllocator -> is_Some (objs (cur A) !! here) ->
    astep A (RFree here) 0 (set_cur (set_objs (delete here) (cur A)) A)
| AFree here s a : mode A <> noReferenceCountAllocator -> others A !! s = Some a -> is_Some (objs a !! here) ->
    astep A (RFree here) 0 (drop_obj s a here A)
| AFreeNot here : mode A = noReferenceCountAllocator \/ unmanaged A here -> astep A (RFree here) 0 A
| AWrite a n : astep A (RWrite a n) 0 A
| APolicy p : astep A (RPolicy p) 0 (set_mode p A)
| AMake p n t : astep A (RMake p n t) 0 (enter_block p n false t (leave_cur A))
| AMakeAt p n t : astep A (RMakeAt p n t) 0 (enter_block p n true t (leave_cur A))
| ATemp p n : astep A (RTemp p n) 0 (enter_block p n false true (hold_cur A))
| ATempAt p n : astep A (RTempAt p n) 0 (enter_block p n true true (hold_cur A))
| ARestore s t st a : stack A = (s, t) :: st -> others A !! s = Some a ->
    let B := leave_cur A in
    astep A RRestore 0 (mkArenas (set_held false a) (delete s (others B)) st (heap B) (mode A) t)
| AEmptyCur here : in_arena (cur A) here -> astep A (REmpty here) 0 (set_cur (set_objs (fun _ => ∅) (cur A)) A)
| AEmpty here s a : others A !! s = Some a -> held a = false -> in_arena a here ->
    astep A (REmpty here) 0 (set_others (delete s) A)
| AEmptyNot here : unmanaged A here -> astep A (REmpty here) 0 A
| ARootCur here : in_arena (cur A) here -> astep A (RRoot here) (a_start (cur A)) A
| ARoot here s a : others A !! s = Some a -> in_arena a here -> astep A (RRoot here) s A
| ARootNot here : unmanaged A here -> astep A (RRoot here) 0 A
| ACountCur here : in_arena (cur A) here -> astep A (RCount here) (refs (cur A)) A
| ACount here s a : others A !! s = Some a -> in_arena a here -> astep A (RCount here) (refs a) A
| ACountNot here : unmanaged A here -> astep A (RCount here) 0 A
| AManaged here : in_arena (cur A) here \/ (exists s a, others A !! s = Some a /\ in_arena a here) ->
    astep A (RManaged here) 1 A
| AManagedNot here : unmanaged A here -> astep A (RManaged here) 0 A.

(** ** The relation *)

Definition block_of (a : arena) : InactiveAllocationBlock := mkInactive (a_start a) (a_start a + a_size a).
Definition policies_for (p : AllocatorPolicy) : PolicyList :=
  [(defaultAllocator, bool_decide (p = defaultAllocator)); (noReuseAllocator, bool_decide (p = noReuseAllocator));
   (noReferenceCountAllocator, bool_decide (p = noReferenceCountAllocator))].
(** The state of the allocator while [a] is the current arena. *)
Definition state_of (s : AllocatorState) (a : arena) (t : bool) (tiles : list Z) : Prop :=
  activeRAM s = a_start a /\ numBytes s = a_size a /\ throwException s = t /\ curBlockUserSupplied s = user a /\
  chunks_ok (chunks s) a tiles.
(** A state that was put away. *)
Definition saved_ok (A : Arenas) (T : Z -> list Z) (s : AllocatorState) (x : Z * bool) : Prop :=
  exists a, others A !! x.1 = Some a /\ held a = true /\ state_of s a x.2 (T x.1).

(** The arenas that are not the current one. *)
Record background (T : Z -> list Z) (w : World) (st : list AllocatorState) (A : Arenas) : Prop := mkBackground {
  b_others s a : others A !! s = Some a -> a_start a = s /\ arena_ok (ram w) a (T s);
  b_apart s a s' a' : others A !! s = Some a -> others A !! s' = Some a' -> s <> s' -> apart_arenas a a';
  b_sorted : StronglySorted block_le (allInactives w);
  b_inactive : allInactives w ≡ₚ map (fun x => block_of x.2) (map_to_list (others A));
  b_saved : Forall2 (saved_ok A T) st (stack A);
  b_stack : NoDup (map fst (stack A));
  b_held s a : others A !! s = Some a -> held a = true -> s ∈ map fst (stack A);
  b_heap : mallocs w = heap A;
  b_heap_others s a : others A !! s = Some a -> user a = false -> heap A !! s = Some (a_size a);
  b_unheld s a : others A !! s = Some a -> held a = false -> user a = false;
  b_mode : myPolicies w = policies_for (mode A)
}.
(** The current arena. *)
Record foreground (T : Z -> list Z) (w : World) (A : Arenas) : Prop := mkForeground {
  f_cur : arena_ok (ram w) (cur A) (T (a_start (cur A)));
  f_apart s a : others A !! s = Some a -> apart_arenas (cur A) a;
  f_state : state_of (myState w) (cur A) (throws A) (T (a_start (cur A)));
  f_not_held : held (cur A) = false;
  f_heap : user (cur A) = false -> heap A !! a_start (cur A) = Some (a_size (cur A))
}.
Definition related (T : Z -> list Z) (w : World) (st : list AllocatorState) (A : Arenas) : Prop :=
  background T w st A /\ foreground T w A.

(** ** Inactive blocks *)

Lemma lower_bound_at l k here b :
  (forall j c, (j < k)%nat -> l !! j = Some c -> end_ c < here) -> l !! k = Some b -> here <= end_ b ->
  (forall j c, (k < j)%nat -> l !! j = Some c -> here <= end_ c) -> lower_bound l here = Some k.
Proof.
  revert k. induction l as [|c l IH]; intros k Hlt Hk Hb Hgt; [done|]. simpl. unfold block_before.
  destruct k as [|k]; simpl in Hk.
  - injection Hk as ->. rewrite (proj2 (Z.ltb_ge _ _)) by lia.
    destruct (existsb _ l) eqn:E; [|done]. apply existsb_exists in E as (c & Hc & Hlt').
    apply list_elem_of_In, list_elem_of_lookup in Hc as [j Hj]. apply Z.ltb_lt in Hlt'.
    specialize (Hgt (Datatypes.S j) c ltac:(lia) Hj). lia.
  - rewrite (proj2 (Z.ltb_lt _ _)) by (apply (Hlt 0%nat); [lia|done]).
    rewrite (IH k); [done| |done|done|].
    + intros j d Hj Hd. apply (Hlt (Datatypes.S j)); [lia|done].
    + intros j d Hj Hd. apply (Hgt (Datatypes.S j)); [lia|done].
Qed.
Lemma lower_bound_sorted l here : StronglySorted block_le l ->
  exists i, lower_bound l here = Some i /\ forall b, l !! i = Some b -> here <= end_ b.
Proof.
  induction 1 as [|c l Hl IH Hc]; simpl; [by exists 0%nat|]. unfold block_before.
  destruct (Z.ltb_spec (end_ c) here).
  - destruct IH as (i & -> & Hi). by exists (Datatypes.S i).
  - destruct (existsb _ l) eqn:E.
    + apply existsb_exists in E as (d & Hd & Hlt). apply Z.ltb_lt in Hlt. apply list_elem_of_In in Hd.
      rewrite Forall_forall in Hc. specialize (Hc d Hd). unfold block_le in Hc. lia.
    + exists 0%nat. split; [done|]. intros b [= ->]. lia.
Qed.

Lemma sorted_lookup l i j b c : StronglySorted block_le l -> (i < j)%nat -> l !! i = Some b -> l !! j = Some c ->
  end_ b <= end_ c.
Proof.
  intros Hl. revert i j. induction Hl as [|d l Hl IH Hd]; intros i j Hij Hi Hj; [done|].
  destruct j as [|j]; [lia|]. destruct i as [|i]; simpl in *.
  - injection Hi as ->. rewrite Forall_forall in Hd. apply (Hd c). by eapply list_elem_of_lookup_2.
  - eapply IH; [|done|done]. lia.
Qed.

Lemma apart_swap a b : apart_arenas a b -> apart_arenas b a.
Proof. unfold apart_arenas, apart. lia. Qed.

Section background.
Context {T : Z -> list Z} {w : World} {st : list AllocatorState} {A : Arenas}.
Hypothesis H : background T w st A.

Lemma other_size s a : others A !! s = Some a -> a_start a = s /\ 0 < s /\ HEADER_SIZE <= a_size a < 2 ^ 32.
Proof. intros Hs. destruct (b_others _ _ _ _ H s a Hs) as [<- Hok]. pose proof (ok_start _ _ _ Hok). pose proof (ok_size _ _ _ Hok). lia. Qed.

Lemma inactive_elem b : b ∈ allInactives w <-> exists s a, others A !! s = Some a /\ b = block_of a.
Proof.
  rewrite (b_inactive _ _ _ _ H), list_elem_of_fmap. split.
  - intros ([s a] & -> & Hin). apply elem_of_map_to_list in Hin. by exists s, a.
  - intros (s & a & Hin & ->). exists (s, a). split; [done|]. by apply elem_of_map_to_list.
Qed.
Lemma inactive_nodup : NoDup (allInactives w).
Proof.
  rewrite (b_inactive _ _ _ _ H). apply NoDup_fmap_2_strong; [|apply NoDup_map_to_list].
  intros [s a] [s' a'] Hs Hs' E. apply elem_of_map_to_list in Hs, Hs'. simpl in E.
  destruct (other_size _ _ Hs) as [<- _], (other_size _ _ Hs') as [<- _].
  assert (E' : a_start a = a_start a') by (by injection E). rewrite E' in Hs |- *. by simplify_eq.
Qed.

(** An address in an inactive block finds it. *)
Lemma find_other s a here : others A !! s = Some a -> a_start a < here <= a_start a + a_size a ->
  exists i, find_inactive here w = Ok (Some (i, block_of a)) w /\ allInactives w !! i = Some (block_of a).
Proof.
  intros Hs Hh. assert (Hin : block_of a ∈ allInactives w) by (apply inactive_elem; eauto).
  apply list_elem_of_lookup in Hin as [k Hk]. exists k. split; [|done].
  assert (Hother : forall j c, j <> k -> allInactives w !! j = Some c -> end_ c <= a_start a \/ a_start a + a_size a < end_ c).
  { intros j c Hj Hc. assert (Hin : c ∈ allInactives w) by (by eapply list_elem_of_lookup_2).
    apply inactive_elem in Hin as (s' & a' & Hs' & ->). destruct (decide (s = s')) as [->|Hne].
    - simplify_eq. exfalso. apply Hj. eapply NoDup_lookup; [apply inactive_nodup|done|done].
    - pose proof (b_apart _ _ _ _ H _ _ _ _ Hs Hs' Hne) as Ha. unfold apart_arenas, apart in Ha.
      destruct (other_size _ _ Hs') as (_ & _ & ?). unfold HEADER_SIZE in *. simpl. lia. }
  unfold find_inactive. erewrite bind_Ok; [|reflexivity].
  rewrite (lower_bound_at _ k here (block_of a)).
  - simpl. erewrite bind_Ok; [|reflexivity]. rewrite Hk. unfold block_after. simpl.
    by rewrite (proj2 (Z.ltb_ge _ _)) by lia.
  - intros j c Hj Hc. pose proof (sorted_lookup _ _ _ _ _ (b_sorted _ _ _ _ H) Hj Hc Hk) as Hle. simpl in Hle.
    destruct (Hother j c); [lia|done|lia|lia].
  - done.
  - simpl. lia.
  - intros j c Hj Hc. pose proof (sorted_lookup _ _ _ _ _ (b_sorted _ _ _ _ H) Hj Hk Hc) as Hle. simpl in Hle. lia.
Qed.
Lemma find_nothing here : (forall s a, others A !! s = Some a -> here < a_start a \/ a_start a + a_size a < here) ->
  find_inactive here w = Ok None w.
Proof.
  intros Hh. destruct (lower_bound_sorted (allInactives w) here (b_sorted _ _ _ _ H)) as (i & E & Hi).
  unfold find_inactive. erewrite bind_Ok; [|reflexivity]. rewrite E. erewrite bind_Ok; [|reflexivity].
  destruct (allInactives w !! i) as [b|] eqn:Eb; [|done]. specialize (Hi b eq_refl).
  assert (Hin : b ∈ allInactives w) by (by eapply list_elem_of_lookup_2).
  apply inactive_elem in Hin as (s & a & Hs & ->). unfold block_after. simpl in *.
  by rewrite (proj2 (Z.ltb_lt _ _)) by (destruct (Hh s a Hs); lia).
Qed.
End background.

(** ** What changes the arenas in the background *)

Lemma saved_change A A' T T' s x :
  (forall a, others A !! x.1 = Some a -> held a = true -> T' x.1 = T x.1 /\
     exists a', others A' !! x.1 = Some a' /\ held a' = true /\ a_start a' = a_start a /\ a_size a' = a_size a /\
       user a' = user a /\ forall o, objs a !! o = None -> objs a' !! o = None) ->
  saved_ok A T s x -> saved_ok A' T' s x.
Proof.
  intros Hx (a & Ha & Hh & H1 & H2 & H3 & H4 & H5). destruct (Hx a Ha Hh) as (ET & a' & Ha' & Hh' & E1 & E2 & E3 & Ho).
  exists a'. split; [done|]. split; [done|]. rewrite ET. unfold state_of. rewrite E1, E2, E3.
  do 4 (split; [done|]). destruct H5 as [G1 G2 G3]. split; [done|done|].
  intros i l c Hi Hc. destruct (G3 i l c Hi Hc) as (sz & ? & ? & ?). exists sz. rewrite E1. eauto.
Qed.

Section changes.
Context {T : Z -> list Z} {w : World} {st : list AllocatorState} {A : Arenas}.
Hypothesis H : background T w st A.

(** Words outside the arenas change. *)
Lemma bg_same T' w' : allInactives w' = allInactives w -> mallocs w' = mallocs w -> myPolicies w' = myPolicies w ->
  (forall s a, others A !! s = Some a -> T' s = T s) ->
  (forall s a, others A !! s = Some a -> same_in (a_start a) (a_size a) (ram w) (ram w')) -> background T' w' st A.
Proof.
  intros E1 E2 E3 ET Hm. destruct H as [H1 H2 H3 H4 H5 H6 H7 H8 H9 H10 H11]. split; rewrite ?E1, ?E2, ?E3; try done.
  - intros s a Hs. destruct (H1 s a Hs) as [? ?]. split; [done|]. rewrite (ET s a Hs). eapply arena_ok_same; eauto.
  - eapply Forall2_impl; [apply H5|]. intros s x. apply saved_change. intros a Ha Hh. split; [by eapply ET|].
    exists a. done.
Qed.

(** What the background does not mention. *)
Lemma bg_only A' : others A' = others A -> stack A' = stack A -> heap A' = heap A -> mode A' = mode A ->
  background T w st A'.
Proof.
  intros E1 E2 E3 E4. destruct H as [H1 H2 H3 H4 H5 H6 H7 H8 H9 H10 H11]. split; rewrite ?E1, ?E2, ?E3, ?E4; try done.
  eapply Forall2_impl; [apply H5|]. intros s x. apply saved_change. intros a Ha Hh. split; [done|]. exists a. by rewrite E1.
Qed.

(** malloc gives out a region. *)
Lemma bg_malloc p n w' : allInactives w' = allInactives w -> ram w' = ram w -> myPolicies w' = myPolicies w ->
  mallocs w' = <[p := n]> (mallocs w) -> heap A !! p = None ->
  background T w' st (set_heap <[p := n]> A).
Proof.
  intros E1 E2 E3 E4 Hp. destruct H as [H1 H2 H3 H4 H5 H6 H7 H8 H9 H10 H11]. split; simpl; rewrite ?E1, ?E2, ?E3; try done.
  - rewrite E4. by rewrite H8.
  - intros s a Hs Hu. specialize (H9 s a Hs Hu). rewrite lookup_insert_ne; [done|]. congruence.
Qed.
(** Memory of no arena is freed. *)
Lemma bg_free p n w' : allInactives w' = allInactives w -> myPolicies w' = myPolicies w ->
  mallocs w' = delete p (mallocs w) -> ram w' = clobber p n (ram w) -> apart_from A p n -> 0 < n ->
  background T w' st (set_heap (delete p) A).
Proof.
  intros E1 E3 E4 E2 Hp Hn.
  assert (B : background T (set_ram (clobber p n) w) st A).
  { apply bg_same; try done. intros s a Hs. apply clobber_outside. specialize (Hp s a Hs). unfold apart in Hp. lia. }
  destruct B as [H1 H2 H3 H4 H5 H6 H7 H8 H9 H10 H11]. split; simpl in *; rewrite ?E1, ?E2, ?E3; try done.
  - rewrite E4. by rewrite (b_heap _ _ _ _ H).
  - intros s a Hs Hu. rewrite lookup_delete_ne; [by eapply H9|]. intros ->. specialize (Hp s a Hs). unfold apart in Hp.
    destruct (other_size H _ _ Hs) as (? & ? & ?). unfold HEADER_SIZE in *. lia.
Qed.

(** An arena has objects taken out, or its root noted. *)
Lemma bg_update s a f T' w' : others A !! s = Some a -> allInactives w' = allInactives w -> mallocs w' = mallocs w ->
  myPolicies w' = myPolicies w -> T' = T ->
  arena_ok (ram w') (set_objs f a) (T s) ->
  (forall o, objs a !! o = None -> f (objs a) !! o = None) ->
  (forall s' a', s' <> s -> others A !! s' = Some a' -> same_in (a_start a') (a_size a') (ram w) (ram w')) ->
  background T' w' st (set_others <[s := set_objs f a]> A).
Proof.
  intros Hs E1 E2 E3 -> Hok Hf Hm. pose proof (b_others _ _ _ _ H s a Hs) as [Es _].
  destruct H as [H1 H2 H3 H4 H5 H6 H7 H8 H9 H10 H11].
  assert (Hl : forall s' a', <[s := set_objs f a]> (others A) !! s' = Some a' ->
    (s' = s /\ a' = set_objs f a) \/ (s' <> s /\ others A !! s' = Some a')).
  { intros s' a' Hs'. apply lookup_insert_Some in Hs'. naive_solver. }
  split; simpl; rewrite ?E1, ?E2, ?E3; try done.
  - intros s' a' [[-> ->]|[Hne Hs']]%Hl; [done|]. destruct (H1 s' a' Hs') as [? ?]. split; [done|].
    eapply arena_ok_same; [done|]. by eapply Hm.
  - intros s1 a1 s2 a2 [[-> ->]|[Hne1 Hs1]]%Hl [[-> ->]|[Hne2 Hs2]]%Hl Hne; try done.
    + exact (H2 s a s2 a2 Hs Hs2 Hne).
    + exact (H2 s1 a1 s a Hs1 Hs Hne).
    + exact (H2 s1 a1 s2 a2 Hs1 Hs2 Hne).
  - rewrite H4. rewrite <- (insert_delete_id (others A) s a Hs) at 1. rewrite <- (insert_delete_eq (others A)).
    rewrite !map_to_list_insert by apply lookup_delete_eq. done.
  - eapply Forall2_impl; [apply H5|]. intros y x. apply saved_change. intros b Hb Hh. split; [done|].
    destruct (decide (x.1 = s)) as [Ex|Hne].
    + rewrite Ex in Hb |- *. assert (b = a) as -> by congruence. exists (set_objs f a). simpl. rewrite lookup_insert_eq. done.
    + exists b. simpl. by rewrite lookup_insert_ne.
  - intros s' a' [[-> ->]|[Hne Hs']]%Hl; [exact (H7 s a Hs)|exact (H7 s' a' Hs')].
  - intros s' a' [[-> ->]|[Hne Hs']]%Hl; [exact (H9 s a Hs)|exact (H9 s' a' Hs')].
  - intros s' a' [[-> ->]|[Hne Hs']]%Hl; [exact (H10 s a Hs)|exact (H10 s' a' Hs')].
Qed.

(** An arena comes to the background. *)
Lemma bg_insert a w' A' : others A' = <[a_start a := a]> (others A) -> heap A' = heap A -> mode A' = mode A ->
  others A !! a_start a = None -> ram w' = ram w -> mallocs w' = mallocs w -> myPolicies w' = myPolicies w ->
  allInactives w' = merge_sort block_le (allInactives w ++ [block_of a]) ->
  arena_ok (ram w) a (T (a_start a)) -> (forall s b, others A !! s = Some b -> apart_arenas a b) ->
  (user a = false -> heap A !! a_start a = Some (a_size a)) ->
  forall st', Forall2 (saved_ok A' T) st' (stack A') -> NoDup (map fst (stack A')) ->
  (forall s, s ∈ map fst (stack A) -> s ∈ map fst (stack A')) ->
  (if held a then a_start a ∈ map fst (stack A') else user a = false) ->
  background T w' st' A'.
Proof.
  intros EA Eh Em Hn E1 E2 E3 E4 Hok Hap Hhp st' Hsv Hnd Hin Hheld.
  destruct H as [H1 H2 H3 H4 H5 H6 H7 H8 H9 H10 H11].
  assert (Hl : forall s' a', others A' !! s' = Some a' ->
    (s' = a_start a /\ a' = a) \/ (s' <> a_start a /\ others A !! s' = Some a')).
  { intros s' a' Hs'. rewrite EA in Hs'. apply lookup_insert_Some in Hs'. naive_solver. }
  split; rewrite ?Eh, ?Em, ?E1, ?E2, ?E3, ?E4; try done.
  - intros s' a' [[-> ->]|[Hne Hs']]%Hl; [done|by apply H1].
  - intros s1 a1 s2 a2 [[-> ->]|[Hne1 Hs1]]%Hl [[-> ->]|[Hne2 Hs2]]%Hl Hne; try done.
    + by eapply Hap.
    + apply apart_swap. by eapply Hap.
    + by eapply H2.
  - apply StronglySorted_merge_sort; [intros x y z; unfold block_le; lia|]. intros x y. unfold block_le. lia.
  - rewrite merge_sort_Permutation, EA, map_to_list_insert by done. simpl. rewrite H4. apply Permutation_app_comm.
  - intros s' a' [[-> ->]|[Hne Hs']]%Hl Hh; [by rewrite Hh in Hheld|]. apply Hin. exact (H7 s' a' Hs' Hh).
  - intros s' a' [[-> ->]|[Hne Hs']]%Hl; [done|exact (H9 s' a' Hs')].
  - intros s' a' [[-> ->]|[Hne Hs']]%Hl Hh; [by rewrite Hh in Hheld|exact (H10 s' a' Hs' Hh)].
Qed.

(** An arena leaves the background; its place in the list of inactive blocks
    is taken out. *)
Lemma bg_delete s a l w' A' : others A !! s = Some a -> others A' = delete s (others A) -> heap A' = heap A -> mode A' = mode A ->
  ram w' = ram w -> mallocs w' = mallocs w -> myPolicies w' = myPolicies w -> allInactives w' = l ->
  StronglySorted block_le l -> allInactives w ≡ₚ block_of a :: l ->
  forall st', Forall2 (saved_ok A' T) st' (stack A') -> NoDup (map fst (stack A')) ->
  (forall s' a', s' <> s -> others A !! s' = Some a' -> held a' = true -> s' ∈ map fst (stack A')) ->
  background T w' st' A'.
Proof.
  intros Hs EA Eh Em E1 E2 E3 E4 Hso Hp st' Hsv Hnd Hin. destruct H as [H1 H2 H3 H4 H5 H6 H7 H8 H9 H10 H11].
  assert (Hl : forall s' a', others A' !! s' = Some a' -> s' <> s /\ others A !! s' = Some a').
  { intros s' a' Hs'. rewrite EA in Hs'. apply lookup_delete_Some in Hs'. naive_solver. }
  split; rewrite ?Eh, ?Em, ?E1, ?E2, ?E3, ?E4; try done.
  - intros s' a' [_ Hs']%Hl. by apply H1.
  - intros s1 a1 s2 a2 [_ Hs1]%Hl [_ Hs2]%Hl. by eapply H2.
  - apply (Permutation_cons_inv (a := block_of a)). rewrite <- Hp, H4, EA.
    rewrite <- (insert_delete_id (others A) s a Hs) at 1. rewrite map_to_list_insert by apply lookup_delete_eq. done.
  - intros s' a' [? Hs']%Hl. by eapply Hin.
  - intros s' a' [_ Hs']%Hl. exact (H9 s' a' Hs').
  - intros s' a' [_ Hs']%Hl. exact (H10 s' a' Hs').
Qed.
End changes.
