(* ===== verification/AllocatorOps.v ===== *)
(** Getting and freeing memory in the current block refines its arena.
    objectModel/headers/Allocator.cc. *)

From stdpp Require Import functions.
From S2P Require Import Prelude Allocator AllocatorInv.

Open Scope Z_scope.

(** ** The free lists *)

Lemma concat_insert {X} (cs : list (list X)) i l l' x : cs !! i = Some l -> l ≡ₚ x :: l' ->
  concat cs ≡ₚ x :: concat (<[i := l']> cs).
Proof.
  intros Hi Hl. rewrite <- (take_drop_middle cs i l Hi) at 1. rewrite (insert_take_drop cs i l' (lookup_lt_Some _ _ _ Hi)).
  rewrite !concat_app. simpl. rewrite Hl. simpl. symmetry. apply Permutation_middle.
Qed.

Lemma elem_of_concat {X} (cs : list (list X)) x : x ∈ concat cs <-> exists i l, cs !! i = Some l /\ x ∈ l.
Proof.
  split.
  - intros Hx. apply list_elem_of_In, in_concat in Hx as (l & Hl & Hx). apply list_elem_of_In, list_elem_of_lookup in Hl as [i Hi].
    exists i, l. split; [done|]. by apply list_elem_of_In.
  - intros (i & l & Hi & Hx). apply list_elem_of_In, in_concat. exists l. split; apply list_elem_of_In; [|done].
    by eapply list_elem_of_lookup_2.
Qed.

Section chunks.
Context {a : arena} {tiles : list Z} {cs : list (list Z)}.
Hypothesis H : chunks_ok cs a tiles.

Lemma chunks_take i l j c u : cs !! i = Some l -> l !! j = Some c ->
  chunks_ok (<[i := delete j l]> cs) (set_objs <[c + 4 := u]> a) tiles.
Proof.
  intros Hi Hj. pose proof (concat_insert cs i l (delete j l) c Hi (delete_Permutation l j c Hj)) as Hp.
  destruct H as [H1 H2 H3]. rewrite Hp in H2. apply NoDup_cons in H2 as [Hc H2].
  split; [by rewrite length_insert|done|].
  intros i' l' c' Hi' Hc'. assert (Hne : c' <> c).
  { intros ->. apply Hc. apply elem_of_concat. eauto. }
  assert (Hold : exists l0, cs !! i' = Some l0 /\ c' ∈ l0).
  { destruct (decide (i = i')) as [<-|Hii].
    - rewrite list_lookup_insert_eq in Hi' by (by eapply lookup_lt_Some). injection Hi' as <-. exists l. split; [done|].
      rewrite (delete_Permutation l j c Hj). by right.
    - rewrite list_lookup_insert_ne in Hi' by done. eauto. }
  destruct Hold as (l0 & Hl0 & Hc0). destruct (H3 i' l0 c' Hl0 Hc0) as (s & ? & Ho & ?). exists s. simpl.
  split; [done|]. split; [|done]. rewrite lookup_insert_ne by lia. done.
Qed.

Lemma chunks_give i l c s : cs !! i = Some l -> (c, s) ∈ layout (a_start a + HEADER_SIZE) tiles -> Z.log2 s = Z.of_nat i ->
  is_Some (objs a !! (c + 4)) -> chunks_ok (<[i := l ++ [c]]> cs) (set_objs (delete (c + 4)) a) tiles.
Proof.
  intros Hi Hc Hs [u Hu]. destruct H as [H1 H2 H3]. pose proof (lookup_lt_Some _ _ _ Hi) as Hlt.
  assert (Hp : concat (<[i := l ++ [c]]> cs) ≡ₚ c :: concat cs).
  { rewrite (concat_insert (<[i := l ++ [c]]> cs) i (l ++ [c]) l c);
      [|by apply list_lookup_insert_eq|by rewrite Permutation_app_comm].
    by rewrite list_insert_insert_eq, (list_insert_id cs i l Hi). }
  split; [by rewrite length_insert|rewrite Hp; apply NoDup_cons; split; [|done]|].
  - intros (i' & l' & Hi' & Hc')%elem_of_concat. destruct (H3 i' l' c Hi' Hc') as (? & _ & ? & _). congruence.
  - intros i' l' c' Hi' Hc'. simpl. destruct (decide (c' = c)) as [->|Hne].
    + exists s. split; [done|]. split; [apply lookup_delete_eq|]. destruct (decide (i = i')) as [<-|Hii]; [done|].
      rewrite list_lookup_insert_ne in Hi' by done. destruct (H3 i' l' c Hi' Hc') as (? & _ & ? & _). congruence.
    + rewrite lookup_delete_ne by lia. destruct (decide (i = i')) as [<-|Hii].
      * rewrite list_lookup_insert_eq in Hi' by done. injection Hi' as <-. apply (H3 i l c' Hi).
        apply elem_of_app in Hc' as [?|Hx]; [done|]. by apply list_elem_of_singleton in Hx.
      * rewrite list_lookup_insert_ne in Hi' by done. by eapply H3.
Qed.

Lemma chunks_more tiles' f : (forall o, objs a !! o = None -> (exists c, o = c + 4 /\ exists s, (c, s) ∈ layout (a_start a + HEADER_SIZE) tiles) ->
    f (objs a) !! o = None) ->
  chunks_ok cs (set_objs f a) (tiles ++ tiles').
Proof.
  intros Hf. destruct H as [H1 H2 H3]. split; [done|done|]. intros i l c Hi Hc. destruct (H3 i l c Hi Hc) as (s & ? & ? & ?).
  exists s. simpl. split; [rewrite layout_app; by apply elem_of_app; left|]. split; [|done]. apply Hf; eauto.
Qed.
End chunks.

(** ** How many bytes a request takes *)
Lemma bytesNeeded_spec n : 1 <= n < 2 ^ 31 ->
  chunk_size (bytesNeeded_for n) /\ n + 4 <= bytesNeeded_for n < n + 8.
Proof.
  intros Hn. unfold bytesNeeded_for, chunk_size, CHUNK_HEADER_SIZE. change (2 ^ 31) with 2147483648 in Hn.
  assert (E : u32 (4 + n) = 4 + n) by (unfold u32; apply wrapu_small; lia). rewrite E.
  pose proof (Z.mod_pos_bound (4 + n) 4 ltac:(lia)) as Hm.
  destruct (Z.eqb_spec ((4 + n) mod 4) 0) as [E0|E0]; simpl.
  - split; [|lia]. split; [|done]. clear E. assert ((4 + n) = 4 * ((4 + n) / 4)) by (apply Z_div_exact_full_2; [lia|done]). lia.
  - assert (E2 : u32 (4 + n + (4 - (4 + n) mod 4)) = 4 + n + (4 - (4 + n) mod 4)) by (unfold u32; apply wrapu_small; lia).
    rewrite E2. pose proof (Z_div_mod_eq_full (4 + n) 4). split; [|lia]. split; [lia|].
    replace (4 + n + (4 - (4 + n) mod 4)) with (((4 + n) / 4 + 1) * 4) by lia.
    apply Z.mod_mul. lia.
Qed.

(** ** Searching the lists *)
Section search.
Context (w : World) (bn : Z).
Definition too_small (c : Z) : Prop := exists s, ram w !! c = Some (W32 s) /\ s < bn.

Lemma search_list_run l j : (j <= length l)%nat -> (forall c, c ∈ l -> exists s, ram w !! c = Some (W32 s)) ->
  exists r, search_list l j bn w = Ok r w /\
    match r with
    | Some k => exists c s, l !! k = Some c /\ ram w !! c = Some (W32 s) /\ bn <= s
    | None => forall c, c ∈ take j l -> too_small c
    end.
Proof.
  intros Hj Hw. induction j as [|j IH]; simpl.
  - exists None. split; [done|]. intros c Hc. by apply not_elem_of_nil in Hc.
  - destruct (lookup_lt_is_Some_2 l j) as [c Hc]; [lia|]. rewrite Hc.
    destruct (Hw c) as [s Hs]; [by eapply list_elem_of_lookup_2|].
    erewrite bind_Ok; [|reflexivity]. erewrite bind_Ok; [|by apply load32_run].
    destruct (Z.leb_spec bn s).
    + exists (Some j). split; [done|]. eauto.
    + destruct IH as (r & E & Hr); [lia|]. exists r. split; [done|]. destruct r as [k|]; [done|].
      intros c' Hc'. rewrite (take_S_r _ _ _ Hc) in Hc'. apply elem_of_app in Hc' as [?|Hx]; [by apply Hr|].
      apply list_elem_of_singleton in Hx as ->. by exists s.
Qed.

Lemma search_chunks_run n i : (n + i = 32)%nat -> length (chunks (myState w)) = 32%nat ->
  (forall c, c ∈ concat (chunks (myState w)) -> exists s, ram w !! c = Some (W32 s)) ->
  exists r, search_chunks n i bn w = Ok r w /\
    match r with
    | Some (k, j) => exists l c s, chunks (myState w) !! k = Some l /\ l !! j = Some c /\
        ram w !! c = Some (W32 s) /\ bn <= s
    | None => forall k l c, (i <= k)%nat -> chunks (myState w) !! k = Some l -> c ∈ l -> too_small c
    end.
Proof.
  intros Hn Hlen Hw. revert i Hn. induction n as [|n IH]; intros i Hn; simpl.
  - exists None. split; [done|]. intros k l c Hk Hl Hc. apply lookup_lt_Some in Hl. lia.
  - erewrite bind_Ok; [|reflexivity]. destruct (lookup_lt_is_Some_2 (chunks (myState w)) i) as [l Hl]; [lia|]. rewrite Hl.
    erewrite bind_Ok; [|reflexivity].
    destruct (search_list_run l (length l)) as (r & E & Hr); [lia| |].
    { intros c Hc. apply Hw, elem_of_concat. eauto. }
    erewrite bind_Ok; [|apply E]. destruct r as [j|].
    + exists (Some (i, j)). split; [done|]. destruct Hr as (c & s & ? & ? & ?). exists l, c, s. done.
    + destruct (IH (Datatypes.S i)) as (r & E' & Hr'); [lia|]. exists r. split; [done|]. destruct r as [[k j]|]; [done|].
      intros k l' c Hk Hl' Hc. destruct (decide (k = i)) as [->|Hne].
      * simplify_eq. apply Hr. by rewrite firstn_all.
      * apply (Hr' k l' c); [lia|done|done].
Qed.
End search.

(** ** The current arena *)

Section current.
Context {T : Z -> list Z} {w : World} {st : list AllocatorState} {A : Arenas}.
Hypothesis H : related T w st A.
Notation a := (cur A).
Notation b := (a_start (cur A)).
Notation tiles := (T (a_start (cur A))).

Lemma cur_not_other s x : others A !! s = Some x -> s <> b.
Proof.
  destruct H as [B F]. intros Hs ->. pose proof (f_apart _ _ _ F _ _ Hs) as Ha. destruct (other_size B _ _ Hs) as (? & ? & ?).
  pose proof (ok_size _ _ _ (f_cur _ _ _ F)). unfold apart_arenas, apart, HEADER_SIZE in *. lia.
Qed.
Lemma cur_block : activeRAM (myState w) = b /\ numBytes (myState w) = a_size a /\ throwException (myState w) = throws A.
Proof. destruct H as [_ F]. destruct (f_state _ _ _ F) as (? & ? & ? & _). done. Qed.
Lemma cur_chunks : chunks_ok (chunks (myState w)) a tiles.
Proof. destruct H as [_ F]. apply (f_state _ _ _ F). Qed.
Lemma cur_word c : c ∈ concat (chunks (myState w)) -> exists s, (c, s) ∈ layout (b + HEADER_SIZE) tiles /\
  ram w !! c = Some (W32 s) /\ objs a !! (c + 4) = None.
Proof.
  intros (i & l & Hi & Hc)%elem_of_concat. destruct (ok_free _ _ _ cur_chunks i l c Hi Hc) as (s & Hl & Ho & _).
  exists s. split; [done|]. split; [|done]. destruct H as [_ F]. by apply (ok_chunk _ _ _ (f_cur _ _ _ F)).
Qed.

(** Words of the current block do not matter to the others. *)
Lemma cur_words_only s x m k c : others A !! s = Some x -> b <= k -> k + width c <= b + a_size a ->
  same_in (a_start x) (a_size x) m (write_cell k c m).
Proof.
  intros Hs ? ?. apply write_outside. destruct H as [B F]. pose proof (f_apart _ _ _ F _ _ Hs) as Ha.
  unfold apart_arenas, apart in Ha. lia.
Qed.

(** The objects of the current arena change. *)
Lemma cur_change f tiles' m' s' : 
  arena_ok m' (set_objs f a) tiles' -> state_of s' (set_objs f a) (throws A) tiles' ->
  (forall s x, others A !! s = Some x -> same_in (a_start x) (a_size x) (ram w) m') ->
  related (<[b := tiles']> T) (mkWorld m' (mallocs w) (myPolicies w) s' (allInactives w)) st (set_cur (set_objs f a) A).
Proof.
  intros Hok Hs Hm. destruct H as [B F]. split.
  - apply (bg_only (A := A)); try done. apply (bg_same B); try done.
    intros s x Hx. rewrite fn_lookup_insert_ne; [done|]. intros E. by apply (cur_not_other s x Hx).
  - destruct F as [F1 F2 F3 F4 F5]. split; simpl; rewrite ?fn_lookup_insert; try done.
Qed.

Lemma refs_cur : refs a = Z.of_nat (size (objs a)).
Proof. destruct H as [_ F]. unfold refs. rewrite (f_not_held _ _ _ F). lia. Qed.

(** The words that [carve] writes, in the order it writes them. *)
Lemma arena_carve n bn : 0 < n -> n + 4 <= bn -> chunk_size bn -> HEADER_SIZE + total_size tiles + bn <= a_size a ->
  let res := b + (HEADER_SIZE + total_size tiles) in
  arena_ok (write_cell (b + 16) (W32 (u32 (refs a + 1)))
              (write_cell res (W32 bn) (write_cell b (W64 (HEADER_SIZE + total_size tiles + bn)) (ram w))))
    (set_objs <[res + 4 := n]> a) (tiles ++ [bn]).
Proof.
  intros Hn Hnb [Hb8 Hbm] Hfit res. destruct H as [B F]. pose proof (f_cur _ _ _ F) as Hok. pose proof (refs_bound _ _ _ Hok).
  pose proof (total_nonneg _ (ok_tiles _ _ _ Hok)) as Htn.
  assert (Hfresh : objs a !! (res + 4) = None).
  { destruct (objs a !! (res + 4)) as [u|] eqn:E; [|done]. apply (ok_objs _ _ _ Hok) in E.
    destruct E as (_ & s & E & _). apply layout_inside in E as ([? _] & ? & ?); [|apply Hok]. unfold res in *. lia. }
  destruct Hok as [H1 H2 H3 H4 H5 H6 H7 H8]. unfold HEADER_SIZE in *. split; simpl; try done.
  - apply Forall_app. split; [done|]. by repeat constructor.
  - rewrite total_app. simpl. unfold HEADER_SIZE. lia.
  - rewrite total_app. simpl. unfold HEADER_SIZE.
    replace (20 + (total_size tiles + (bn + 0))) with (20 + total_size tiles + bn) by lia.
    apply write_cell_keeps; [|simpl; lia]. apply write_cell_keeps; [|unfold res; simpl; lia]. apply write_cell_eq.
  - rewrite write_cell_eq. unfold u32. rewrite wrapu_small by lia.
    replace (refs (set_objs <[res + 4 := n]> a)) with (refs a + 1); [done|].
    unfold refs. simpl. rewrite map_size_insert_None by done. lia.
  - intros c s Hc. unfold HEADER_SIZE in Hc. rewrite layout_app in Hc. apply elem_of_app in Hc as [Hc|Hc].
    + pose proof Hc as Hi. apply layout_inside in Hi as ([? _] & ? & ?); [|done].
      apply write_cell_keeps; [|simpl; lia]. apply write_cell_keeps; [|unfold res; simpl; lia].
      apply write_cell_keeps; [by apply H7|]. simpl. lia.
    + apply list_elem_of_singleton in Hc as [= -> ->]. replace (b + 20 + total_size tiles) with res by (unfold res; lia).
      apply write_cell_keeps; [apply write_cell_eq|]. unfold res. simpl. lia.
  - intros o u Ho. unfold HEADER_SIZE. rewrite layout_app. apply lookup_insert_Some in Ho as [[<- <-]|[Hne Ho]].
    + split; [done|]. exists bn. split; [|done]. apply elem_of_app. right. simpl.
      replace (res + 4 - 4) with (b + 20 + total_size tiles) by (unfold res; lia). by left.
    + destruct (H8 o u Ho) as (? & s & ? & ?). split; [done|]. exists s. split; [|done]. apply elem_of_app. by left.
Qed.

(** A chunk is taken from the free lists or given back. *)
Lemma arena_recount f d : (forall o u, f (objs a) !! o = Some u -> 0 < u /\
    exists s, (o - 4, s) ∈ layout (b + HEADER_SIZE) tiles /\ u + 4 <= s) ->
  Z.of_nat (size (f (objs a))) = Z.of_nat (size (objs a)) + d -> 0 <= refs a + d < 2 ^ 32 ->
  arena_ok (write_cell (b + 16) (W32 (u32 (refs a + d))) (ram w)) (set_objs f a) tiles.
Proof.
  intros Hf Hsize Hd. destruct H as [B F]. pose proof (f_cur _ _ _ F) as Hok. pose proof (f_not_held _ _ _ F) as Hh.
  pose proof (layout_inside (b + HEADER_SIZE) tiles) as Hin.
  destruct Hok as [H1 H2 H3 H4 H5 H6 H7 H8]. unfold HEADER_SIZE in *. split; simpl; try done.
  - apply write_cell_keeps; [done|]. simpl. lia.
  - rewrite write_cell_eq. unfold u32. rewrite wrapu_small by lia. unfold refs in *. simpl. rewrite Hh in *.
    replace (Z.of_nat (size (f (objs a))) + 0) with (Z.of_nat (size (objs a)) + 0 + d) by lia. done.
  - intros c s Hc. destruct (Hin _ _ H3 Hc) as (_ & ? & _). apply write_cell_keeps; [by apply H7|]. simpl. lia.
Qed.
End current.

(** ** getRAM *)

(** There is no room at the end of the block. *)
Definition full_end (w : World) (n : Z) : Prop :=
  exists last_, ram w !! activeRAM (myState w) = Some (W64 last_) /\ numBytes (myState w) < last_ + bytesNeeded_for n.
(** There is no room for [n] bytes at the end of the block, nor in a chunk
    that is free, if the policy looks at those. *)
Definition no_room (w : World) (p : AllocatorPolicy) (n : Z) : Prop :=
  full_end w n /\
  (p <> noReuseAllocator -> forall c, c ∈ concat (chunks (myState w)) -> too_small w (bytesNeeded_for n) c).

Lemma policy_get p n w : list_getRAM (policies_for p) n w = policy_getRAM p n w.
Proof. by destruct p. Qed.
Lemma policy_free p c here w : list_freeRAM (policies_for p) c here w = policy_freeRAM p c here w.
Proof. by destruct p. Qed.

(** A null pointer is the answer for want of room as well. *)
Definition got (full : Prop) (st : list AllocatorState) (A : Arenas) (n p : Z) (w' : World) : Prop :=
  (p = 0 -> full) /\ exists T' A', astep A (RGet n) p A' /\ related T' w' st A'.

Lemma carve_spec {T w st A} n : related T w st A -> 1 <= n < 2 ^ 31 ->
  wpx (carve (bytesNeeded_for n)) (got (full_end w n) st A n)
    (fun e w' => e = NotEnoughSpace /\ w' = w /\ throws A = true /\ full_end w n) w.
Proof.
  intros H Hn. pose proof H as [B F]. destruct (bytesNeeded_spec n Hn) as [Hb Hb2]. set (bn := bytesNeeded_for n) in *.
  destruct (cur_block H) as (E1 & E2 & E3). pose proof (f_cur _ _ _ F) as Hok.
  pose proof (total_nonneg _ (ok_tiles _ _ _ Hok)) as Htn. pose proof (ok_used _ _ _ Hok). pose proof (ok_size _ _ _ Hok).
  pose proof (ok_last _ _ _ Hok) as El. pose proof (ok_count _ _ _ Hok) as Ec. pose proof (refs_bound _ _ _ Hok).
  unfold HEADER_SIZE in *. set (last_ := 20 + total_size (T (a_start (cur A)))) in *.
  unfold carve. apply wpx_bind. eapply wpx_eq; [reflexivity|]. rewrite E1, E2, E3.
  apply wpx_bind. eapply wpx_eq; [by apply load64_run|]. unfold u64.
  rewrite (wrapu_small 64) by lia. destruct (Z.ltb_spec (a_size (cur A)) (last_ + bn)).
  - destruct (throws A) eqn:Et.
    + apply wpx_throw. do 3 (split; [done|]). exists last_. rewrite E1, E2. done.
    + apply wpx_mret. split; [intros _; exists last_; rewrite E1, E2; done|].
      exists T, A. split; [by apply AGetNull|done].
  - apply wpx_bind. eapply wpx_eq; [reflexivity|]. apply wpx_bind. eapply wpx_eq; [reflexivity|].
    apply wpx_bind. eapply wpx_eq; [apply (change_count_run _ _ (refs (cur A)))|].
    { simpl. apply write_cell_keeps; [|simpl; lia]. by apply write_cell_keeps; [|simpl; lia]. }
    pose proof (ok_start _ _ _ Hok). unfold CHUNK_HEADER_SIZE.
    apply wpx_mret. split; [lia|]. exists (<[a_start (cur A) := T (a_start (cur A)) ++ [bn]]> T).
    rewrite (Z.add_comm last_). set (res := a_start (cur A) + last_).
    exists (set_cur (set_objs <[res + 4 := n]> (cur A)) A). split.
    + apply AGet; unfold HEADER_SIZE, CHUNK_HEADER_SIZE; [unfold res; lia|unfold res; lia|].
      intros o v Ho. destruct (ok_objs _ _ _ Hok o v Ho) as (_ & s & Hs & ?). apply layout_inside in Hs as (_ & ? & ?); [|apply Hok].
      unfold HEADER_SIZE in *. right. unfold res. lia.
    + unfold set_ram. simpl. apply (cur_change H (<[res + 4 := n]>) (T (a_start (cur A)) ++ [bn])).
      * apply (arena_carve H n bn); [lia|lia|done|]. unfold HEADER_SIZE. lia.
      * destruct (f_state _ _ _ F) as (? & ? & ? & ? & Hch). unfold state_of. simpl. do 4 (split; [done|]).
        apply (chunks_more Hch). intros o Ho (c & -> & s & Hc). rewrite lookup_insert_ne; [done|].
        apply layout_inside in Hc as ([? _] & ? & ?); [|apply Hok]. unfold HEADER_SIZE, res in *. lia.
      * intros s x Hx. eapply same_in_trans; [|eapply same_in_trans].
        -- apply (cur_words_only H s x _ (a_start (cur A)) (W64 (last_ + bn)) Hx); simpl; lia.
        -- apply (cur_words_only H s x _ res (W32 bn) Hx); unfold res; simpl; lia.
        -- apply (cur_words_only H s x _ (a_start (cur A) + 16) _ Hx); simpl; lia.
Qed.

Lemma defaultGetRAM_spec {T w st A} n : related T w st A -> 1 <= n < 2 ^ 31 ->
  wpx (defaultGetRAM n) (got (no_room w defaultAllocator n) st A n)
    (fun e w' => e = NotEnoughSpace /\ w' = w /\ throws A = true /\ no_room w defaultAllocator n) w.
Proof.
  intros H Hn. pose proof H as [B F]. destruct (bytesNeeded_spec n Hn) as [[Hb8 Hbm] Hb2]. unfold defaultGetRAM.
  set (bn := bytesNeeded_for n) in *. destruct (cur_block H) as (E1 & E2 & E3). pose proof (f_cur _ _ _ F) as Hok.
  pose proof (refs_bound _ _ _ Hok) as Hr. pose proof (ok_size _ _ _ Hok) as Hsz. pose proof (cur_chunks H) as Hch.
  assert (Hlog : 0 <= Z.log2 bn < 32).
  { split; [apply Z.log2_nonneg|]. apply Z.log2_lt_pow2; lia. }
  unfold builtin_clz. destruct (Z.eqb_spec bn 0); [lia|]. apply wpx_bind, wpx_mret. cbv zeta.
  replace (31 - (31 - Z.log2 bn)) with (Z.log2 bn) by lia.
  destruct (search_chunks_run w bn (32 - Z.to_nat (Z.log2 bn)) (Z.to_nat (Z.log2 bn))) as (r & E & Hfound).
  { lia. } { apply Hch. } { intros c Hc. destruct (cur_word H c Hc) as (s & _ & ? & _). eauto. }
  apply wpx_bind. eapply wpx_eq; [exact E|]. destruct r as [[i j]|].
  - destruct Hfound as (l & c & s & Hi & Hj & Hs & Hle).
    apply wpx_bind. eapply wpx_eq; [reflexivity|]. rewrite Hi. apply wpx_bind, wpx_mret. rewrite Hj.
    apply wpx_bind, wpx_mret. apply wpx_bind. eapply wpx_eq; [reflexivity|]. apply wpx_bind.
    rewrite E1. eapply wpx_eq; [apply (change_count_run _ _ (refs (cur A))); apply Hok|]. apply wpx_mret.
    assert (Hin : c ∈ concat (chunks (myState w))).
    { apply elem_of_concat. exists i, l. split; [done|]. by eapply list_elem_of_lookup_2. }
    destruct (cur_word H c Hin) as (s' & Hl & Hs' & Ho). rewrite Hs' in Hs. injection Hs as ->.
    pose proof (layout_inside _ _ _ _ (ok_tiles _ _ _ Hok) Hl) as ([? _] & ? & ?). pose proof (ok_used _ _ _ Hok).
    unfold CHUNK_HEADER_SIZE, HEADER_SIZE in *. pose proof (ok_start _ _ _ Hok). split; [lia|].
    exists (<[a_start (cur A) := T (a_start (cur A))]> T), (set_cur (set_objs <[c + 4 := n]> (cur A)) A). split.
    + apply AGet; unfold HEADER_SIZE, CHUNK_HEADER_SIZE; [lia|lia|]. intros o v Hv.
      destruct (ok_objs _ _ _ Hok o v Hv) as (_ & s' & Hv' & ?).
      destruct (layout_disjoint _ _ _ _ _ _ (ok_tiles _ _ _ Hok) Hl Hv') as [[? ?]|?]; [|unfold apart; lia].
      exfalso. replace o with (c + 4) in Hv by lia. congruence.
    + unfold set_ram, set_state. simpl.
      apply (cur_change H (<[c + 4 := n]>) (T (a_start (cur A)))).
      * apply (arena_recount H (<[c + 4 := n]>) 1); [|rewrite map_size_insert_None by done; lia|lia].
        intros o u Hu. apply lookup_insert_Some in Hu as [[<- <-]|[_ Hu]]; [|by apply (ok_objs _ _ _ Hok)].
        split; [lia|]. exists s. replace (c + 4 - 4) with c by lia. split; [done|lia].
      * destruct (f_state _ _ _ F) as (? & ? & ? & ? & _). unfold state_of. simpl. do 4 (split; [done|]).
        by apply (chunks_take Hch i l j c).
      * intros s0 x Hx. apply (cur_words_only H s0 x _ (a_start (cur A) + 16) _ Hx); simpl; lia.
  - assert (Hroom : full_end w n -> no_room w defaultAllocator n); [|eapply wpx_mono; [by apply (carve_spec n H Hn)| |]].
    2: { intros p w' [Hx Hy]. split; [intros E0; by apply Hroom, Hx|done]. }
    2: { intros e w' (-> & -> & ? & Hx). do 3 (split; [done|]). by apply Hroom. }
    intros Hfull. split; [done|]. intros _ c Hc. pose proof Hc as (i & l & Hi & Hl)%elem_of_concat.
    destruct (decide (Z.to_nat (Z.log2 bn) <= i)%nat) as [Hge|Hlt]; [by eapply Hfound|].
    destruct (ok_free _ _ _ Hch i l c Hi Hl) as (s & Hs & _ & Hlg). exists s. split; [by apply (ok_chunk _ _ _ Hok)|].
    apply Z.log2_lt_cancel. fold bn. lia.
Qed.

Lemma getRAM_spec {T w st A} n : related T w st A -> 1 <= n < 2 ^ 31 ->
  wpx (getRAM n) (got (no_room w (mode A) n) st A n) (fun e w' => e = NotEnoughSpace /\ w' = w /\ throws A = true /\ no_room w (mode A) n) w.
Proof.
  intros H Hn. pose proof H as [B F]. unfold getRAM. apply wpx_bind. eapply wpx_eq; [reflexivity|].
  unfold wpx. rewrite (b_mode _ _ _ _ B), policy_get.
  enough (Hw : wpx (policy_getRAM (mode A) n) (got (no_room w (mode A) n) st A n)
    (fun e w' => e = NotEnoughSpace /\ w' = w /\ throws A = true /\ no_room w (mode A) n) w) by exact Hw.
  destruct (mode A) eqn:Em; simpl.
  - by apply (defaultGetRAM_spec n H Hn).
  - unfold fastGetRAM. eapply wpx_mono; [by apply (carve_spec n H Hn)| |].
    + intros p w' [Hx Hy]. split; [intros E0; by split; [apply Hx|]|done].
    + intros e w' (? & ? & ? & ?). do 3 (split; [done|]). by split.
  - eapply wpx_mono; [by apply (defaultGetRAM_spec n H Hn)| |].
    + intros p w' [Hx Hy]. split; [|done]. intros E0. destruct (Hx E0) as [? Hz]. split; [done|]. intros _. by apply Hz.
    + intros e w' (? & ? & ? & [? Hx]). do 3 (split; [done|]). split; [done|]. intros _. by apply Hx.
Qed.

(** ** Where an address belongs *)
Section places.
Context {T : Z -> list Z} {w : World} {st : list AllocatorState} {A : Arenas}.
Hypothesis H : related T w st A.

Lemma contains_cur here : a_start (cur A) <= here < a_start (cur A) + a_size (cur A) -> contains here w = Ok true w.
Proof.
  intros Hh. destruct (cur_block H) as (E1 & E2 & _). unfold contains. erewrite bind_Ok; [|reflexivity].
  unfold in_block. rewrite E1, E2. by rewrite (proj2 (Z.leb_le _ _)), (proj2 (Z.ltb_lt _ _)) by lia.
Qed.
Lemma contains_not here : here < a_start (cur A) \/ a_start (cur A) + a_size (cur A) <= here -> contains here w = Ok false w.
Proof.
  intros Hh. destruct (cur_block H) as (E1 & E2 & _). unfold contains. erewrite bind_Ok; [|reflexivity].
  unfold in_block. rewrite E1, E2. destruct (Z.leb_spec (a_start (cur A)) here); [|done].
  by rewrite (proj2 (Z.ltb_ge _ _)) by lia.
Qed.
Lemma other_not_cur s a here : others A !! s = Some a -> in_arena a here ->
  here < a_start (cur A) \/ a_start (cur A) + a_size (cur A) <= here.
Proof.
  intros Hs Hh. destruct H as [B F]. pose proof (f_apart _ _ _ F _ _ Hs). unfold apart_arenas, apart, in_arena in *. lia.
Qed.
Lemma in_one s a s' a' here : others A !! s = Some a -> others A !! s' = Some a' -> in_arena a here -> in_arena a' here -> s = s'.
Proof.
  intros Hs Hs' Hh Hh'. destruct (decide (s = s')) as [|Hne]; [done|]. destruct H as [B F].
  pose proof (b_apart _ _ _ _ B _ _ _ _ Hs Hs' Hne). unfold apart_arenas, apart, in_arena in *. lia.
Qed.
Lemma obj_in_cur here u : objs (cur A) !! here = Some u -> in_arena (cur A) here.
Proof. intros Ho. destruct H as [B F]. pose proof (obj_inside _ _ _ _ _ (f_cur _ _ _ F) Ho). unfold in_arena. lia. Qed.
Lemma obj_in_other s a here u : others A !! s = Some a -> objs a !! here = Some u -> in_arena a here.
Proof.
  intros Hs Ho. destruct H as [B F]. destruct (b_others _ _ _ _ B s a Hs) as [_ Hok].
  pose proof (obj_inside _ _ _ _ _ Hok Ho). unfold in_arena. lia.
Qed.
(** [contains] and [find_inactive] together. *)
Lemma find_in s a here : others A !! s = Some a -> in_arena a here ->
  contains here w = Ok false w /\
  exists i, find_inactive here w = Ok (Some (i, block_of a)) w /\ allInactives w !! i = Some (block_of a).
Proof.
  intros Hs Hh. split; [by eapply contains_not, other_not_cur|]. destruct H as [B F].
  apply (find_other B s a); [done|]. unfold in_arena in Hh. lia.
Qed.
Lemma find_un here : unmanaged A here -> contains here w = Ok false w /\ find_inactive here w = Ok None w.
Proof. intros [Hh Ho]. split; [by apply contains_not|]. destruct H as [B F]. by apply (find_nothing B). Qed.

(** Words of one arena in the background do not matter to the rest. *)
Lemma other_words s a m k c : others A !! s = Some a -> a_start a <= k -> k + width c <= a_start a + a_size a ->
  same_in (a_start (cur A)) (a_size (cur A)) m (write_cell k c m) /\
  forall s' a', s' <> s -> others A !! s' = Some a' -> same_in (a_start a') (a_size a') m (write_cell k c m).
Proof.
  intros Hs ? ?. destruct H as [B F]. split.
  - apply write_outside. pose proof (f_apart _ _ _ F _ _ Hs) as Ha. unfold apart_arenas, apart in Ha. lia.
  - intros s' a' Hne Hs'. apply write_outside. pose proof (b_apart _ _ _ _ B _ _ _ _ Hs' Hs Hne) as Ha.
    unfold apart_arenas, apart in Ha. lia.
Qed.

(** The background changes, the current arena does not. *)
Lemma keep_cur A' w' : background T w' st A' -> cur A' = cur A -> throws A' = throws A -> myState w' = myState w ->
  same_in (a_start (cur A)) (a_size (cur A)) (ram w) (ram w') ->
  (forall s a', others A' !! s = Some a' -> exists a, others A !! s = Some a /\ a_start a' = a_start a /\ a_size a' = a_size a) ->
  (user (cur A) = false -> heap A' !! a_start (cur A) = heap A !! a_start (cur A)) ->
  related T w' st A'.
Proof.
  intros B' E1 E2 E3 Hm Ho Hh. destruct H as [B [F1 F2 F3 F4 F5]]. split; [done|]. split; rewrite ?E1, ?E2, ?E3; try done.
  - by eapply arena_ok_same.
  - intros s a' Hs. destruct (Ho s a' Hs) as (a & Ha & Ea & Es). unfold apart_arenas. rewrite Ea, Es. exact (F2 s a Ha).
  - intros Hu. rewrite Hh by done. by apply F5.
Qed.

(** Memory outside of all arenas, or inside an object. *)
Lemma write_anywhere f : (forall a, a = cur A \/ (exists s, others A !! s = Some a) -> forall m' tiles,
    arena_ok (ram w) a tiles -> m' = f (ram w) -> arena_ok m' a tiles) -> related T (set_ram f w) st A.
Proof.
  intros Hf. destruct H as [B [F1 F2 F3 F4 F5]]. destruct B as [H1 H2 H3 H4 H5 H6 H7 H8 H9 H10 H11]. split; split; simpl; try done.
  - intros s a Hs. destruct (H1 s a Hs) as [? ?]. split; [done|]. eapply Hf; eauto.
  - eapply Hf; eauto.
Qed.
End places.

(** ** freeRAM *)

Lemma set_objs_id a : set_objs (fun x => x) a = a.
Proof. by destruct a. Qed.

Section freeing.
Context {T : Z -> list Z} {w : World} {st : list AllocatorState} {A : Arenas}.
Hypothesis H : related T w st A.

Lemma free_current here : mode A <> noReferenceCountAllocator -> is_Some (objs (cur A) !! here) ->
  exists T' w', freeRAM here w = Ok tt w' /\ related T' w' st (set_cur (set_objs (delete here) (cur A)) A) /\
    exists u sz, objs (cur A) !! here = Some u /\ u + 4 <= sz /\ sz mod 4 = 0 /\
      here - 4 ∈ concat (chunks (myState w')) /\ ram w' !! (here - 4) = Some (W32 sz).
Proof.
  intros Hmode [u Ho]. pose proof H as [B F]. pose proof (f_cur _ _ _ F) as Hok. pose proof (cur_chunks H) as Hch.
  destruct (ok_objs _ _ _ Hok here u Ho) as (_ & sz & Hl & Husz). pose proof (obj_inside _ _ _ _ _ Hok Ho) as (? & ? & ?).
  pose proof (layout_inside _ _ _ _ (ok_tiles _ _ _ Hok) Hl) as ([? Hmod] & ? & ?). pose proof (ok_size _ _ _ Hok).
  pose proof (ok_used _ _ _ Hok). pose proof (refs_bound _ _ _ Hok). unfold HEADER_SIZE in *.
  assert (Hlog : 0 <= Z.log2 sz < 32).
  { split; [apply Z.log2_nonneg|]. apply Z.log2_lt_pow2; lia. }
  destruct (lookup_lt_is_Some_2 (chunks (myState w)) (Z.to_nat (Z.log2 sz))) as [l Hi].
  { rewrite (ok_lists _ _ _ Hch). lia. }
  assert (Hpos : (0 < size (objs (cur A)))%nat).
  { apply Nat.neq_0_lt_0. intros E%map_size_empty_inv. rewrite E in Ho. by rewrite lookup_empty in Ho. }
  unfold freeRAM. erewrite bind_Ok; [|by apply (contains_cur H); lia]. erewrite bind_Ok; [|reflexivity].
  rewrite (b_mode _ _ _ _ B), policy_free.
  assert (Ep : policy_freeRAM (mode A) true here = defaultFreeRAM true here) by (destruct (mode A); done || congruence). rewrite Ep.
  unfold defaultFreeRAM, CHUNK_HEADER_SIZE. erewrite bind_Ok; [|by apply load32_run, (ok_chunk _ _ _ Hok)].
  unfold builtin_clz. destruct (Z.eqb_spec sz 0); [lia|]. erewrite bind_Ok; [|reflexivity].
  erewrite bind_Ok; [|reflexivity]. cbv zeta. replace (31 - (31 - Z.log2 sz)) with (Z.log2 sz) by lia. rewrite Hi.
  erewrite bind_Ok; [|reflexivity]. erewrite bind_Ok; [|reflexivity].
  destruct (cur_block H) as (E1 & _ & _). rewrite E1.
  rewrite (change_count_run _ _ (refs (cur A))) by (simpl; apply Hok).
  exists (<[a_start (cur A) := T (a_start (cur A))]> T). eexists. split; [reflexivity|].
  unfold set_ram, set_state. simpl. split.
  2: { exists u, sz. do 3 (split; [done|]). split.
    - apply elem_of_concat. exists (Z.to_nat (Z.log2 sz)), (l ++ [here - 4]). split.
      + apply list_lookup_insert_eq. by eapply lookup_lt_Some.
      + apply elem_of_app. right. by left.
    - apply write_cell_keeps; [by apply (ok_chunk _ _ _ Hok)|]. simpl. lia. }
  apply (cur_change H (delete here) (T (a_start (cur A)))).
  - apply (arena_recount H (delete here) (-1)).
    + intros o v Hv. apply lookup_delete_Some in Hv as [_ Hv]. by apply (ok_objs _ _ _ Hok o v).
    + rewrite map_size_delete, Ho. simpl. lia.
    + rewrite (refs_cur H) in *. lia.
  - destruct (f_state _ _ _ F) as (? & ? & ? & ? & _). unfold state_of. simpl. do 4 (split; [done|]).
    replace (set_objs (delete here) (cur A)) with (set_objs (delete (here - 4 + 4)) (cur A)) by (by replace (here - 4 + 4) with here by lia).
    apply (chunks_give Hch _ l (here - 4) sz Hi Hl); [lia|]. replace (here - 4 + 4) with here by lia. eauto.
  - intros s0 x Hx. apply (cur_words_only H s0 x _ (a_start (cur A) + 16) _ Hx); simpl; lia.
Qed.
End freeing.
