(* ===== verification/AllocatorRefine.v ===== *)
(** Every request to an allocator refines a step of its arenas.
    objectModel/headers/Allocator.cc, InterfaceFunctions.cc and
    UseTemporaryAllocationBlock.h. *)

From stdpp Require Import functions.
From S2P Require Import Prelude Allocator AllocatorInv AllocatorOps.

Open Scope Z_scope.

Lemma sorted_sublist l1 l2 : sublist l1 l2 -> StronglySorted block_le l2 -> StronglySorted block_le l1.
Proof.
  induction 1 as [|x l1 l2 Hs IH|x l1 l2 Hs IH]; intros H; [done| |].
  - apply StronglySorted_inv in H as [H Hx]. constructor; [by apply IH|].
    rewrite Forall_forall in Hx |- *. intros y Hy. apply Hx. by eapply elem_of_sublist.
  - apply StronglySorted_inv in H as [H _]. by apply IH.
Qed.

(** An arena that is not held is forgotten. *)
Lemma bg_drop {T w st A} i s a : background T w st A -> others A !! s = Some a -> held a = false ->
  allInactives w !! i = Some (block_of a) -> background T (set_inactives (delete i) w) st (set_others (delete s) A).
Proof.
  intros B Hs Hh Hi.
  apply (bg_delete B s a (delete i (allInactives w))); try done.
  - eapply sorted_sublist; [apply sublist_delete|apply B].
  - by apply delete_Permutation.
  - simpl. eapply Forall2_impl; [apply B|]. intros y x. apply saved_change. intros b Hb Hhb. split; [done|].
    exists b. simpl. rewrite lookup_delete_ne; [done|]. intros Es. rewrite Es in Hs. congruence.
  - apply B.
  - intros s' a' _ Hs' Hh'. by eapply (b_held _ _ _ _ B).
Qed.

Section requests.
Context {T : Z -> list Z} {w : World} {st : list AllocatorState} {A : Arenas}.
Hypothesis H : related T w st A.

Lemma delete_objs_size a here u : objs a !! here = Some u -> refs (set_objs (delete here) a) = refs a - 1.
Proof.
  intros Ho. unfold refs. simpl. rewrite map_size_delete, Ho.
  assert (0 < size (objs a))%nat; [|destruct (held a); lia].
  apply Nat.neq_0_lt_0. intros E%map_size_empty_inv. rewrite E in Ho. by rewrite lookup_empty in Ho.
Qed.

(** The count of a block in the background goes down with its objects. *)
Lemma recount_other s a here u : others A !! s = Some a -> objs a !! here = Some u ->
  background T (set_ram (write_cell (s + 16) (W32 (refs a - 1))) w) st (set_others <[s := set_objs (delete here) a]> A).
Proof.
  intros Hs Ho. pose proof H as [B F]. destruct (b_others _ _ _ _ B s a Hs) as [Es Hok].
  pose proof (refs_bound _ _ _ Hok) as Hr. pose proof (ok_size _ _ _ Hok) as Hsz. pose proof (delete_objs_size a here u Ho) as Hd.
  apply (bg_update B s a (delete here)); try done.
  - pose proof (layout_inside (a_start a + HEADER_SIZE) (T s)) as Hin.
    destruct Hok as [H1 H2 H3 H4 H5 H6 H7 H8]. unfold HEADER_SIZE in *. split; simpl; try done.
    + apply write_cell_keeps; [done|]. simpl. lia.
    + rewrite Es, write_cell_eq, Hd. done.
    + intros c sz Hc. destruct (Hin _ _ H3 Hc) as (_ & ? & _). apply write_cell_keeps; [by apply H7|]. simpl. lia.
    + intros o v Hv. apply lookup_delete_Some in Hv as [_ Hv]. by apply H8.
  - intros o Hn. by apply lookup_delete_None; right.
  - eapply (other_words H s a); [done| |]; unfold HEADER_SIZE in *; simpl; lia.
Qed.

Lemma free_other here s a : mode A <> noReferenceCountAllocator -> others A !! s = Some a -> is_Some (objs a !! here) ->
  exists w', freeRAM here w = Ok tt w' /\ related T w' st (drop_obj s a here A).
Proof.
  intros Hmode Hs [u Ho]. pose proof H as [B F]. destruct (b_others _ _ _ _ B s a Hs) as [Es Hok].
  pose proof (refs_bound _ _ _ Hok) as Hr. pose proof (ok_size _ _ _ Hok) as Hsz. pose proof (delete_objs_size a here u Ho) as Hd.
  pose proof (ok_start _ _ _ Hok) as Hst.
  destruct (find_in H s a here Hs (obj_in_other H s a here u Hs Ho)) as (Ec & i & Ef & Hi).
  pose proof (recount_other s a here u Hs Ho) as B1.
  destruct (other_words H s a (ram w) (s + 16) (W32 (refs a - 1)) Hs) as [Hw1 _]; [unfold HEADER_SIZE in *; simpl; lia..|].
  assert (Hpos : 1 <= refs a).
  { unfold refs. assert (0 < size (objs a))%nat; [|destruct (held a); lia].
    apply Nat.neq_0_lt_0. intros E%map_size_empty_inv. rewrite E in Ho. by rewrite lookup_empty in Ho. }
  unfold freeRAM. erewrite bind_Ok; [|exact Ec]. erewrite bind_Ok; [|reflexivity].
  assert (Ep : list_freeRAM (myPolicies w) false here w = defaultFreeRAM false here w).
  { rewrite (b_mode _ _ _ _ B), policy_free. destruct (mode A); done || congruence. }
  rewrite Ep. unfold defaultFreeRAM. erewrite bind_Ok; [|exact Ef]. simpl. rewrite Es.
  erewrite bind_Ok; [|apply (change_count_run _ _ (refs a)); rewrite <- Es; apply Hok].
  unfold ALLOCATOR_REF_COUNT_of. erewrite bind_Ok; [|apply load32_run; simpl; by rewrite write_cell_eq].
  unfold u32. rewrite wrapu_small by lia. unfold drop_obj. rewrite Hd.
  destruct (Z.eqb_spec (refs a + -1) 0) as [E0|E0].
  - rewrite bool_decide_eq_true_2 by lia.
    assert (Hh : held a = false).
    { destruct (held a) eqn:Eh; [|done]. exfalso. unfold refs in *. rewrite Eh in *.
      assert (Hz : size (objs a) = 0%nat) by lia. apply map_size_empty_inv in Hz. rewrite Hz, lookup_empty in Ho. done. }
    assert (Hu : user a = false) by (by eapply (b_unheld _ _ _ _ B)).
    pose proof (b_heap_others _ _ _ _ B s a Hs Hu) as Hheap.
    unfold freeBlock. simpl. rewrite bool_decide_eq_false_2 by lia. rewrite Es.
    erewrite bind_Ok; [|apply free_malloced; simpl; rewrite (b_heap _ _ _ _ B); exact Hheap].
    eexists. split; [reflexivity|].
    pose proof (bg_drop i s (set_objs (delete here) a) B1) as B2.
    simpl in B2. rewrite lookup_insert_eq in B2. specialize (B2 eq_refl Hh Hi).
    assert (EA : set_others (delete s) (set_others <[s := set_objs (delete here) a]> A) = set_others (delete s) A).
    { unfold set_others. simpl. by rewrite delete_insert_eq. }
    rewrite EA in B2. replace (refs a + -1) with (refs a - 1) by lia.
    apply (keep_cur H); try done.
    + apply (bg_free B2 s (a_size a)); try done; [|unfold HEADER_SIZE in *; lia].
      intros s' a' Hs'. simpl in Hs'. apply lookup_delete_Some in Hs' as [Hne Hs'].
      pose proof (b_apart _ _ _ _ B _ _ _ _ Hs Hs' Hne) as Ha. unfold apart_arenas in Ha. by rewrite Es in Ha.
    + simpl. eapply same_in_trans.
      * exact Hw1.
      * apply clobber_outside. pose proof (f_apart _ _ _ F _ _ Hs) as Ha. unfold apart_arenas, apart in Ha. rewrite Es in Ha. lia.
    + intros s' a' Hs'. simpl in Hs'. apply lookup_delete_Some in Hs' as [_ Hs']. eauto.
    + intros Huc. simpl. rewrite lookup_delete_ne; [done|]. by eapply (cur_not_other H).
  - rewrite bool_decide_eq_false_2 by lia. eexists. split; [reflexivity|].
    replace (refs a + -1) with (refs a - 1) by lia. apply (keep_cur H); try done.
    intros s' a' Hs'. simpl in Hs'. apply lookup_insert_Some in Hs' as [[<- <-]|[_ Hs']]; eauto.
Qed.

Lemma free_none here : mode A = noReferenceCountAllocator \/ unmanaged A here -> freeRAM here w = Ok tt w.
Proof.
  intros Hh. pose proof H as [B F]. unfold freeRAM.
  assert (Hc : exists c, contains here w = Ok c w) by (eexists; reflexivity). destruct Hc as [c Hc].
  erewrite bind_Ok; [|exact Hc]. erewrite bind_Ok; [|reflexivity]. rewrite (b_mode _ _ _ _ B), policy_free.
  destruct (mode A) eqn:Em; try done; destruct Hh as [?|Hh]; try done.
  all: destruct (find_un H here Hh) as [Ec Ef]; rewrite Ec in Hc; injection Hc as <-; unfold policy_freeRAM, defaultFreeRAM;
    erewrite bind_Ok; [|exact Ef]; done.
Qed.

(** ** Writing to objects and elsewhere *)
Lemma write_in_obj m a tiles o u x n : arena_ok m a tiles -> objs a !! o = Some u -> o <= x -> x + n <= o + u ->
  arena_ok (clobber x n m) a tiles.
Proof.
  intros Hok Ho Hx1 Hx2. pose proof (obj_inside _ _ _ _ _ Hok Ho) as (Hi1 & _ & Hi2). destruct (ok_objs _ _ _ Hok o u Ho) as (_ & sz & Hl & Hsz).
  pose proof (layout_inside (a_start a + HEADER_SIZE) tiles) as Hin. pose proof (layout_disjoint (a_start a + HEADER_SIZE) tiles) as Hdj.
  destruct Hok as [K1 K2 K3 K4 K5 K6 K7 K8]. unfold HEADER_SIZE in *. split; try done.
  - apply clobber_keeps; [done|]. simpl. lia.
  - apply clobber_keeps; [done|]. simpl. lia.
  - intros c s Hc. apply clobber_keeps; [by apply K7|]. simpl. destruct (Hin _ _ K3 Hc) as ([? _] & ? & ?).
    destruct (Hdj _ _ _ _ K3 Hc Hl) as [[? ?]|?]; lia.
Qed.
Lemma write_apart m a tiles x n : arena_ok m a tiles -> apart x n (a_start a) (a_size a) -> arena_ok (clobber x n m) a tiles.
Proof. intros Hok Ha. eapply arena_ok_same; [done|]. apply clobber_outside. unfold apart in Ha. lia. Qed.

Lemma write_related x n : allowed A (RWrite x n) -> related T (set_ram (clobber x n) w) st A.
Proof.
  pose proof H as [B F]. intros Hx. apply (write_anywhere H). intros a Ha m' tiles Hok ->.
  destruct Hx as [(o & u & Ho & ? & ?)|[(s & b & o & u & Hb & Ho & ? & ?)|[Hc Hx]]].
  - destruct Ha as [->|[s Hs]]; [by eapply write_in_obj|]. apply write_apart; [done|].
    pose proof (f_apart _ _ _ F _ _ Hs) as Ha. pose proof (obj_inside _ _ _ _ _ (f_cur _ _ _ F) Ho). unfold apart_arenas, apart in *. lia.
  - destruct (b_others _ _ _ _ B s b Hb) as [_ Hokb]. pose proof (obj_inside _ _ _ _ _ Hokb Ho).
    destruct Ha as [->|[s' Hs']].
    + apply write_apart; [done|]. pose proof (f_apart _ _ _ F _ _ Hb) as Ha. unfold apart_arenas, apart in *. lia.
    + destruct (decide (s = s')) as [<-|Hne].
      * assert (a = b) as -> by congruence. by eapply write_in_obj.
      * apply write_apart; [done|]. pose proof (b_apart _ _ _ _ B _ _ _ _ Hb Hs' Hne). unfold apart_arenas, apart in *. lia.
  - apply write_apart; [done|]. destruct Ha as [->|[s Hs]]; [done|by eapply Hx].
Qed.

(** ** The root, the count, and whether an address is managed *)
Lemma write_root_ok m a tiles v : arena_ok m a tiles -> arena_ok (write_cell (a_start a + 8) (W64 v) m) a tiles.
Proof.
  intros Hok. pose proof (layout_inside (a_start a + HEADER_SIZE) tiles) as Hin.
  destruct Hok as [H1 H2 H3 H4 H5 H6 H7 H8]. unfold HEADER_SIZE in *. split; try done.
  - apply write_cell_keeps; [done|]. simpl. lia.
  - apply write_cell_keeps; [done|]. simpl. lia.
  - intros c s Hc. destruct (Hin _ _ H3 Hc) as (_ & ? & _). apply write_cell_keeps; [by apply H7|]. simpl. lia.
Qed.
Lemma root_related a v : a = cur A \/ (exists s, others A !! s = Some a) ->
  related T (set_ram (write_cell (a_start a + 8) (W64 v)) w) st A.
Proof.
  pose proof H as [B F]. intros Ha. apply (write_anywhere H). intros b Hb m' tiles Hok ->.
  assert (Hsz : 20 <= a_size a).
  { destruct Ha as [->|[s Hs]]; [apply (ok_size _ _ _ (f_cur _ _ _ F))|].
    destruct (other_size B _ _ Hs) as (_ & _ & ?). unfold HEADER_SIZE in *. lia. }
  assert (Hab : a = b \/ apart_arenas a b).
  { destruct Ha as [->|[s Hs]]; destruct Hb as [->|[s' Hs']].
    - by left.
    - right. exact (f_apart _ _ _ F _ _ Hs').
    - right. apply apart_swap. exact (f_apart _ _ _ F _ _ Hs).
    - destruct (decide (s = s')) as [<-|Hne]; [left; congruence|right; exact (b_apart _ _ _ _ B _ _ _ _ Hs Hs' Hne)]. }
  destruct Hab as [<-|Hap]; [by apply write_root_ok|].
  eapply arena_ok_same; [done|]. apply write_outside. unfold apart_arenas, apart in Hap. simpl. lia.
Qed.
End requests.

(** ** Blocks come and go *)

(** What [setupBlock] does with the block that was current. *)
Definition leave (w : World) : outcome World unit :=
  (if negb (activeRAM (myState w) =? 0) && negb (curBlockUserSupplied (myState w))
   then retire (activeRAM (myState w)) (numBytes (myState w)) else mret tt) w.
(** What it does with the new one. *)
Definition entered (p n : Z) (u t : bool) (w : World) : World :=
  set_ram (write_cell (p + 16) (W32 0)) (set_ram (write_cell p (W64 HEADER_SIZE))
    (set_state (fun s => mkState p n t u (map (fun _ => []) (chunks s))) w)).

Lemma setupBlock_run p n t w w1 : block_size p n -> leave w = Ok tt w1 -> setupBlock p n t w = Ok tt (entered p n false t w1).
Proof.
  intros (Hp & _ & Hn) Hl. unfold setupBlock. rewrite (proj2 (Z.ltb_ge _ _)) by lia.
  destruct (Z.eqb_spec p 0); [lia|]. erewrite bind_Ok; [|reflexivity]. cbv zeta.
  erewrite bind_Ok; [|exact Hl]. reflexivity.
Qed.
Lemma setupUser_run p n t w w1 : block_size p n -> leave w = Ok tt w1 ->
  setupUserSuppliedBlock p n t w = Ok tt (entered p n true t w1).
Proof. intros Hb Hl. unfold setupUserSuppliedBlock. erewrite bind_Ok; [|by apply setupBlock_run]. reflexivity. Qed.

Lemma no_chunks (cs : list (list Z)) a tiles : length cs = 32%nat -> chunks_ok (map (fun _ => []) cs) a tiles.
Proof.
  intros Hlen. assert (E : concat (map (fun _ : list Z => @nil Z) cs) = []) by (clear; induction cs; done).
  split; [by rewrite length_map|by rewrite E; constructor|].
  intros i l c Hi Hc. assert (Hx : c ∈ concat (map (fun _ : list Z => @nil Z) cs)) by (apply elem_of_concat; eauto).
  rewrite E in Hx. by apply not_elem_of_nil in Hx.
Qed.

Lemma leave_heap p n A : p <> a_start (cur A) -> leave_cur (set_heap <[p := n]> A) = set_heap <[p := n]> (leave_cur A).
Proof.
  intros Hp. unfold leave_cur. simpl. destruct (user (cur A)); [done|]. case_bool_decide; [|done].
  unfold set_heap. simpl. by rewrite delete_insert_ne.
Qed.

Section blocks.
Context {T : Z -> list Z} {w : World} {st : list AllocatorState} {A : Arenas}.

Lemma enter_spec B p n u t : background T w st B -> block_size p n -> apart_from B p n ->
  length (chunks (myState w)) = 32%nat -> (u = false -> heap B !! p = Some n) ->
  related (<[p := []]> T) (entered p n u t w) st
    (mkArenas (mkArena p n ∅ u false) (others B) (stack B) (heap B) (mode B) t).
Proof.
  intros Hb (Hp & Hend & Hn) Hap Hlen Hh. unfold HEADER_SIZE in *.
  assert (Hne : forall s a, others B !! s = Some a -> p <> s).
  { intros s a Hs ->. destruct (other_size Hb s a Hs) as (E & _ & ?). specialize (Hap s a Hs). unfold apart, HEADER_SIZE in *. lia. }
  split.
  - apply (bg_only (A := B)); try done. apply (bg_same Hb); try done.
    + intros s a Hs. rewrite fn_lookup_insert_ne; [done|]. by eapply Hne.
    + intros s a Hs. specialize (Hap s a Hs). unfold apart in Hap. simpl. eapply same_in_trans; apply write_outside; simpl; lia.
  - split; simpl; try done; rewrite ?fn_lookup_insert.
    + split; simpl; unfold HEADER_SIZE; try done; try lia.
      * apply write_cell_keeps; [exact (write_cell_eq p (W64 20) (ram w))|]. simpl. lia.
      * by rewrite write_cell_eq.
      * intros c s Hc. by apply not_elem_of_nil in Hc.
    + unfold state_of. simpl. do 4 (split; [done|]). by apply no_chunks.
Qed.

Hypothesis H : related T w st A.

Lemma cur_nonzero : (activeRAM (myState w) =? 0) = false.
Proof.
  destruct (cur_block H) as (-> & _). destruct H as [_ F]. pose proof (ok_start _ _ _ (f_cur _ _ _ F)). apply Z.eqb_neq. lia.
Qed.

Lemma cur_not_in : others A !! a_start (cur A) = None.
Proof. destruct (others A !! a_start (cur A)) as [x|] eqn:E; [|done]. by destruct (cur_not_other H _ _ E). Qed.

Lemma cur_empty : objs (cur A) = ∅ -> refs (cur A) = 0.
Proof. intros E. rewrite (refs_cur H), E. by rewrite map_size_empty. Qed.
Lemma cur_nonempty : objs (cur A) <> ∅ -> refs (cur A) <> 0.
Proof. intros E. rewrite (refs_cur H). intros E0. apply E. apply map_size_empty_inv. lia. Qed.

Lemma leave_spec : exists w1, leave w = Ok tt w1 /\ background T w1 st (leave_cur A) /\ myState w1 = myState w.
Proof.
  pose proof H as [B F]. pose proof (f_cur _ _ _ F) as Hok. pose proof (f_state _ _ _ F) as (E1 & E2 & _ & E4 & _).
  unfold leave. rewrite cur_nonzero, E4. unfold leave_cur. simpl. destruct (user (cur A)) eqn:Eu; simpl.
  - exists w. done.
  - rewrite E1, E2. unfold retire, ALLOCATOR_REF_COUNT_of.
    erewrite bind_Ok; [|apply load32_run, (ok_count _ _ _ Hok)]. case_bool_decide as Eo.
    + rewrite (cur_empty Eo). simpl. pose proof (f_heap _ _ _ F Eu) as Hh. rewrite <- (b_heap _ _ _ _ B) in Hh.
      rewrite (free_malloced _ _ _ Hh). eexists. split; [reflexivity|]. split; [|done].
      apply (bg_free B (a_start (cur A)) (a_size (cur A))); try done.
      * intros s a Hs. exact (f_apart _ _ _ F _ _ Hs).
      * pose proof (ok_size _ _ _ Hok). unfold HEADER_SIZE in *. lia.
    + rewrite (proj2 (Z.eqb_neq _ _)) by by apply cur_nonempty. eexists. split; [reflexivity|]. split; [|done].
      apply (bg_insert B (cur A)); try done.
      * apply cur_not_in.
      * exact (f_apart _ _ _ F).
      * intros _. by apply (f_heap _ _ _ F).
      * simpl. eapply Forall2_impl; [apply B|]. intros y x. apply saved_change. intros b Hb Hhb. split; [done|].
        exists b. simpl. rewrite lookup_insert_ne; [done|]. intros E. rewrite <- E, cur_not_in in Hb. done.
      * apply B.
      * rewrite (f_not_held _ _ _ F). done.
Qed.

Lemma leave_others s a : others (leave_cur A) !! s = Some a -> others A !! s = Some a \/ (s = a_start (cur A) /\ a = cur A /\ user (cur A) = false).
Proof.
  unfold leave_cur. destruct (user (cur A)) eqn:Eu; [by left|]. case_bool_decide; simpl; [by left|].
  intros Hs. apply lookup_insert_Some in Hs as [[<- <-]|[_ Hs]]; [by right|by left].
Qed.
Lemma leave_apart p n : apart_from A p n -> user (cur A) = true \/ apart p n (a_start (cur A)) (a_size (cur A)) ->
  apart_from (leave_cur A) p n.
Proof.
  intros Hap Hc s a Hs. apply leave_others in Hs as [Hs|(-> & -> & Hu)]; [by eapply Hap|]. destruct Hc as [?|Hc]; [congruence|done].
Qed.
Lemma state_chunks : length (chunks (myState w)) = 32%nat.
Proof. apply (cur_chunks H). Qed.

(** malloc's answer does not touch any arena. *)
Lemma malloc_related p n : 0 < n -> apart_from A p n -> apart p n (a_start (cur A)) (a_size (cur A)) -> heap A !! p = None ->
  exists w1, malloced p n w = Ok tt w1 /\ related T w1 st (set_heap <[p := n]> A).
Proof.
  intros Hn Hap Hc Hh. eexists. split; [reflexivity|]. pose proof H as [B F].
  assert (Hpc : p <> a_start (cur A)).
  { pose proof (ok_size _ _ _ (f_cur _ _ _ F)). unfold apart, HEADER_SIZE in *. lia. }
  assert (B1 : background T (set_mallocs <[p := n]> w) st (set_heap <[p := n]> A)) by by apply (bg_malloc B).
  apply (keep_cur H); try done.
  - apply (bg_same B1); try done. intros s a Hs. apply clobber_outside. specialize (Hap s a Hs). unfold apart in Hap. lia.
  - apply clobber_outside. unfold apart in Hc. lia.
  - intros s a Hs. eauto.
  - intros _. simpl. by rewrite lookup_insert_ne.
Qed.
End blocks.

(** ** Temporary blocks *)
Section temporary.
Context {T : Z -> list Z} {w : World} {st : list AllocatorState} {A : Arenas}.
Hypothesis H : related T w st A.

(** The current block is held: after [hold_block], and malloc if [m] is its
    answer, leaving it puts it to the background. *)
Definition held_world (m : option (Z * Z)) : World :=
  let w1 := set_ram (write_cell (a_start (cur A) + 16) (W32 (refs (cur A) + 1))) (set_state (set_userSupplied false) w) in
  match m with
  | Some (p, n) => set_ram (clobber p n) (set_mallocs <[p := n]> w1)
  | None => w1
  end.
Definition held_heap (m : option (Z * Z)) : gmap Z Z := match m with Some (p, n) => <[p := n]> (heap A) | None => heap A end.

Lemma hold_run : hold_block w = Ok (myState w) (held_world None).
Proof.
  pose proof H as [B F]. pose proof (refs_bound _ _ _ (f_cur _ _ _ F)). destruct (cur_block H) as (E1 & _).
  unfold hold_block. erewrite bind_Ok; [|reflexivity]. cbv zeta. erewrite bind_Ok; [|reflexivity]. rewrite E1.
  erewrite bind_Ok; [|apply (change_count_run _ _ (refs (cur A))); apply (ok_count _ _ _ (f_cur _ _ _ F))].
  unfold u32. rewrite wrapu_small by lia. done.
Qed.

Lemma hold_spec m : (forall p n, m = Some (p, n) -> 0 < n /\ apart_from A p n /\
    apart p n (a_start (cur A)) (a_size (cur A)) /\ heap A !! p = None) ->
  exists w1, leave (held_world m) = Ok tt w1 /\
    background T w1 (myState w :: st) (set_heap (fun _ => held_heap m) (hold_cur A)) /\ chunks (myState w1) = chunks (myState w).
Proof.
  intros Hm. pose proof H as [B F]. pose proof (f_cur _ _ _ F) as Hok. pose proof (f_state _ _ _ F) as (E1 & E2 & E3 & E4 & Hch).
  pose proof (refs_bound _ _ _ Hok) as Hr. pose proof (ok_size _ _ _ Hok) as Hsz. unfold HEADER_SIZE in Hsz.
  set (w2 := held_world m) in *.
  assert (Hcur : arena_ok (ram w2) (set_held true (cur A)) (T (a_start (cur A)))).
  { assert (H0 : arena_ok (write_cell (a_start (cur A) + 16) (W32 (refs (cur A) + 1)) (ram w)) (set_held true (cur A)) (T (a_start (cur A)))).
    { pose proof (layout_inside (a_start (cur A) + HEADER_SIZE) (T (a_start (cur A)))) as Hin.
      destruct Hok as [K1 K2 K3 K4 K5 K6 K7 K8]. unfold HEADER_SIZE in *. split; simpl; try done.
      - apply write_cell_keeps; [done|]. simpl. lia.
      - rewrite write_cell_eq. unfold refs. simpl. rewrite (f_not_held _ _ _ F). do 3 f_equal. lia.
      - intros c sz Hc. destruct (Hin _ _ K3 Hc) as (_ & ? & _). apply write_cell_keeps; [by apply K7|]. simpl. lia. }
    destruct m as [[p n]|]; [|done]. destruct (Hm p n eq_refl) as (_ & _ & Hap & _).
    eapply arena_ok_same; [exact H0|]. apply clobber_outside. unfold apart in Hap. simpl. lia. }
  assert (B2 : background T w2 st (set_heap (fun _ => held_heap m) A)).
  { assert (B1 : background T (held_world None) st A).
    { apply (bg_same B); try done. intros s a Hs. apply (cur_words_only H s a); [done| |]; simpl; lia. }
    destruct m as [[p n]|]; [|by apply (bg_only B1)]. destruct (Hm p n eq_refl) as (? & Hapf & Hap & Hh).
    assert (Bm : background T (set_mallocs <[p := n]> (held_world None)) st (set_heap <[p := n]> A)) by by apply (bg_malloc B1).
    apply (bg_same (A := set_heap <[p := n]> A) Bm); try done. intros s a Hs. apply clobber_outside.
    specialize (Hapf s a Hs). unfold apart in Hapf. lia. }
  assert (Es : myState w2 = set_userSupplied false (myState w)) by (unfold w2, held_world; by destruct m as [[p n]|]).
  assert (Ei : allInactives w2 = allInactives w) by (unfold w2, held_world; by destruct m as [[p n]|]).
  unfold leave. rewrite Es. simpl. rewrite (cur_nonzero H). simpl. rewrite E1, E2. unfold retire, ALLOCATOR_REF_COUNT_of.
  erewrite bind_Ok; [|apply load32_run, (ok_count _ _ _ Hcur)].
  assert (Hr' : refs (set_held true (cur A)) = refs (cur A) + 1).
  { unfold refs. simpl. rewrite (f_not_held _ _ _ F). lia. }
  rewrite Hr', (proj2 (Z.eqb_neq _ _)) by lia. eexists. split; [reflexivity|]. split; [|simpl; by rewrite Es].
  apply (bg_insert B2 (set_held true (cur A))); try done.
  - exact (cur_not_in H).
  - intros s b Hs. exact (f_apart _ _ _ F _ _ Hs).
  - simpl. intros Hu. pose proof (f_heap _ _ _ F Hu) as Hh. destruct m as [[p n]|]; simpl; [|done].
    destruct (Hm p n eq_refl) as (? & _ & Hap & _). rewrite lookup_insert_ne; [done|]. unfold apart in Hap. lia.
  - simpl. constructor.
    + exists (set_held true (cur A)). simpl. rewrite lookup_insert_eq. do 2 (split; [done|]).
      unfold state_of. simpl. do 4 (split; [done|]). destruct Hch as [G1 G2 G3]. by split.
    + eapply Forall2_impl; [apply B|]. intros y x. apply saved_change. intros b Hb Hhb. split; [done|].
      exists b. simpl. rewrite lookup_insert_ne; [done|]. intros E. rewrite <- E, (cur_not_in H) in Hb. done.
  - simpl. apply NoDup_cons. split; [|apply B]. intros (x & Ex & Hx)%list_elem_of_fmap.
    apply list_elem_of_lookup in Hx as [k Hk]. destruct (Forall2_lookup_r _ _ _ _ _ (b_saved _ _ _ _ B) Hk) as (y & _ & b & Hb & _).
    rewrite <- Ex, (cur_not_in H) in Hb. done.
  - simpl. intros s Hs. by right.
  - simpl. by left.
Qed.

Lemma remove_block_spec l b : b ∈ l -> (forall c, c ∈ l -> start c = start b -> c = b) ->
  sublist (remove_block l (start b)) l /\ l ≡ₚ b :: remove_block l (start b).
Proof.
  induction l as [|c l IH]; intros Hb Hu; [by apply not_elem_of_nil in Hb|]. simpl. destruct (Z.eqb_spec (start c) (start b)) as [E|E].
  - rewrite (Hu c) by (done || by left). split; [by apply sublist_cons|done].
  - apply elem_of_cons in Hb as [->|Hb]; [done|]. destruct IH as [IH1 IH2]; [done|intros d Hd; apply Hu; by right|].
    split; [by apply sublist_skip|]. rewrite IH2 at 1. apply perm_swap.
Qed.

Lemma restore_spec s st' : st = s :: st' ->
  exists w', restoreAllocationBlock s w = Ok tt w' /\ exists A', astep A RRestore 0 A' /\ related T w' st' A'.
Proof.
  intros ->. destruct (leave_spec H) as (w1 & El & B1 & Es1). pose proof H as [B F].
  pose proof (b_saved _ _ _ _ B) as Hsv. inversion Hsv as [|? [p t] ? stk Hs Hrest Est EstA]; subst.
  destruct Hs as (a & Ha & Hh & S1 & S2 & S3 & S4 & S5). simpl in *.
  destruct (other_size B p a Ha) as (Ep & Hp & Hsz). pose proof (f_state _ _ _ F) as (E1 & E2 & _ & _ & _).
  assert (Hpc : p <> a_start (cur A)) by (by eapply (cur_not_other H)).
  assert (Ha1 : others (leave_cur A) !! p = Some a).
  { unfold leave_cur. destruct (user (cur A)); [done|]. case_bool_decide; [done|]. simpl. by rewrite lookup_insert_ne. }
  assert (Estk : stack (leave_cur A) = (p, t) :: stk).
  { unfold leave_cur. destruct (user (cur A)); [done|]. by case_bool_decide. }
  assert (Emode : mode (leave_cur A) = mode A).
  { unfold leave_cur. destruct (user (cur A)); [done|]. by case_bool_decide. }
  assert (Hl : (if negb (curBlockUserSupplied (myState w)) then retire (activeRAM (myState w)) (numBytes (myState w)) else mret tt) w = Ok tt w1).
  { rewrite <- El. unfold leave. by rewrite (cur_nonzero H). }
  unfold restoreAllocationBlock. erewrite bind_Ok; [|reflexivity]. cbv zeta. erewrite bind_Ok; [|exact Hl].
  erewrite bind_Ok; [|reflexivity]. erewrite bind_Ok; [|reflexivity]. rewrite S1, Ep.
  destruct (b_others _ _ _ _ B1 p a Ha1) as [_ Hok]. pose proof (refs_bound _ _ _ Hok) as Hr.
  rewrite (change_count_run _ _ (refs a)) by (simpl; rewrite <- Ep; apply Hok).
  assert (Hr1 : refs a = Z.of_nat (size (objs a)) + 1) by (unfold refs; by rewrite Hh).
  unfold u32. rewrite wrapu_small by lia. eexists. split; [reflexivity|]. eexists. split; [by eapply ARestore|].
  assert (Hin : block_of a ∈ allInactives w1) by (apply (inactive_elem B1); eauto).
  destruct (remove_block_spec (allInactives w1) (block_of a) Hin) as [Hsub Hperm].
  { intros c (s' & a' & Hs' & ->)%(inactive_elem B1) E. simpl in E. destruct (other_size B1 s' a' Hs') as (Es' & _).
    assert (s' = p) by congruence. subst s'. congruence. }
  simpl in Hsub, Hperm. rewrite Ep in Hsub, Hperm.
  set (w2 := set_inactives (fun l => remove_block l p) (set_state (fun _ => s) w1)).
  set (A2 := mkArenas (set_held false a) (delete p (others (leave_cur A))) stk (heap (leave_cur A)) (mode A) t).
  assert (Hnd : NoDup (p :: map fst stk)) by (pose proof (b_stack _ _ _ _ B1) as Hnd; by rewrite Estk in Hnd).
  apply NoDup_cons in Hnd as [Hpn Hnd].
  assert (B2 : background T w2 st' A2).
  { apply (bg_delete B1 p a (remove_block (allInactives w1) p)); try done.
    - eapply sorted_sublist; [exact Hsub|apply B1].
    - unfold A2. simpl. apply Forall2_same_length_lookup_2; [by eapply Forall2_length|].
      intros k y x Hy Hx. pose proof (b_saved _ _ _ _ B1) as Hsv1. rewrite Estk in Hsv1.
      pose proof (Forall2_lookup_lr _ _ _ (Datatypes.S k) y x Hsv1 Hy Hx) as Hyx. revert Hyx. apply saved_change.
      intros b Hb Hhb. split; [done|]. exists b. simpl. rewrite lookup_delete_ne; [done|]. intros E.
      apply Hpn. rewrite E. apply list_elem_of_fmap. exists x. split; [done|]. by eapply list_elem_of_lookup_2.
    - unfold A2. simpl. intros s' a' Hne Hs' Hh'. pose proof (b_held _ _ _ _ B1 s' a' Hs' Hh') as Hx. rewrite Estk in Hx.
      simpl in Hx. apply elem_of_cons in Hx as [?|?]; done. }
  assert (Hsep : forall s' b, others A2 !! s' = Some b -> apart_arenas a b).
  { unfold A2. simpl. intros s' b [Hne Hb]%lookup_delete_Some. exact (b_apart _ _ _ _ B1 p a s' b Ha1 Hb Hne). }
  unfold HEADER_SIZE in Hsz. split.
  - apply (bg_same B2); try done. intros s' b Hb. simpl. apply write_outside. specialize (Hsep s' b Hb).
    unfold apart_arenas, apart in Hsep. simpl. lia.
  - split; simpl; try done.
    + rewrite Ep. pose proof (layout_inside (a_start a + HEADER_SIZE) (T p)) as Hin'.
      destruct Hok as [K1 K2 K3 K4 K5 K6 K7 K8]. unfold HEADER_SIZE in *. split; simpl; try done.
      * apply write_cell_keeps; [done|]. simpl. lia.
      * rewrite Ep, write_cell_eq. unfold refs in *. simpl. rewrite Hh. do 2 f_equal. lia.
      * intros c sz Hc. destruct (Hin' _ _ K3 Hc) as (_ & ? & _). apply write_cell_keeps; [by apply K7|]. simpl. lia.
    + rewrite Ep. unfold state_of. rewrite S1, S2, S3, S4. do 4 (split; [done|]).
      destruct S5 as [G1 G2 G3]. by split.
    + intros Hu. rewrite Ep. by eapply (b_heap_others _ _ _ _ B1).
Qed.
End temporary.

(** ** Every request *)
Section serving.
Context {T : Z -> list Z} {w : World} {st : list AllocatorState} {A : Arenas}.
Hypothesis H : related T w st A.

Lemma empty_current here : in_arena (cur A) here ->
  exists T' w', emptyOutBlock here w = Ok tt w' /\ related T' w' st (set_cur (set_objs (fun _ => ∅) (cur A)) A).
Proof.
  intros Hh. pose proof H as [B F]. pose proof (f_cur _ _ _ F) as Hok. destruct (cur_block H) as (E1 & _).
  pose proof (ok_size _ _ _ Hok) as Hsz. unfold HEADER_SIZE in Hsz. pose proof (refs_bound _ _ _ Hok) as Hr.
  unfold emptyOutBlock. erewrite bind_Ok; [|apply (contains_cur H); unfold in_arena in Hh; lia].
  cbv iota. erewrite bind_Ok; [|reflexivity]. erewrite bind_Ok; [|reflexivity]. simpl. rewrite E1.
  exists (<[a_start (cur A) := T (a_start (cur A))]> T). eexists. split; [reflexivity|].
  unfold set_ram, set_state. simpl. apply (cur_change H (fun _ => ∅) (T (a_start (cur A)))).
  - pose proof (arena_recount H (fun _ => ∅) (- refs (cur A))) as Hx. rewrite Z.add_opp_diag_r in Hx. apply Hx; [done| |lia].
    rewrite (refs_cur H), map_size_empty. lia.
  - destruct (f_state _ _ _ F) as (? & ? & ? & ? & Hch). unfold state_of. simpl. do 4 (split; [done|]). apply no_chunks, Hch.
  - intros s x Hx. apply (cur_words_only H s x _ (a_start (cur A) + 16) (W32 0) Hx); simpl; lia.
Qed.

Lemma on_world_run {X} (m : MA X) x w' s : m w = Ok x w' -> on_world m (w, s) = Ok x (w', s).
Proof. intros E. unfold on_world. simpl. by rewrite E. Qed.

Definition served (r : request) (o : outcome (World * list AllocatorState) Z) : Prop :=
  match o with
  | Ok ans (w', st') =>
      (exists A', astep A r ans A' /\ exists T', related T' w' st' A') /\
      forall n, r = RGet n -> ans = 0 -> no_room w (mode A) n
  | Raise e (w', st') => e = NotEnoughSpace /\ w' = w /\ st' = st /\
      exists n, r = RGet n /\ throws A = true /\ no_room w (mode A) n
  | _ => False
  end.

Definition no_get (r : request) : Prop := match r with RGet _ => False | _ => True end.
Lemma served_unit r (m : MA unit) w' A' T' : no_get r -> m w = Ok tt w' -> astep A r 0 A' -> related T' w' st A' ->
  served r (bind (on_world m) (fun _ => mret 0) (w, st)).
Proof.
  intros Hng E Hs Hr. erewrite bind_Ok; [|by apply on_world_run]. split; [|by intros n ->].
  exists A'. split; [done|]. by exists T'.
Qed.

Lemma serve_free here : allowed A (RFree here) -> served (RFree here) (serve (RFree here) (w, st)).
Proof.
  intros Hal. destruct (decide (mode A = noReferenceCountAllocator)) as [Hm|Hm].
  { eapply served_unit; [done|apply (free_none H); by left|by apply AFreeNot; left|exact H]. }
  destruct Hal as [Ho|[(s & a & Hs & Ho)|Hu]].
  - destruct (free_current H here Hm Ho) as (T' & w' & E & Hr & _). eapply served_unit; [done|exact E|by apply AFreeCur|exact Hr].
  - destruct (free_other H here s a Hm Hs Ho) as (w' & E & Hr). eapply served_unit; [done|exact E|by apply AFree|exact Hr].
  - eapply served_unit; [done|apply (free_none H); by right|by apply AFreeNot; right|exact H].
Qed.

Lemma serve_empty here : allowed A (REmpty here) -> served (REmpty here) (serve (REmpty here) (w, st)).
Proof.
  pose proof H as [B F]. intros [Hh|[(s & a & Hs & Hheld & Hh)|Hu]].
  - destruct (empty_current here Hh) as (T' & w' & E & Hr). eapply served_unit; [done|exact E|by apply AEmptyCur|exact Hr].
  - destruct (find_in H s a here Hs Hh) as (Ec & i & Ef & Hi).
    assert (E : emptyOutBlock here w = Ok tt (set_inactives (delete i) w)).
    { unfold emptyOutBlock. erewrite bind_Ok; [|exact Ec]. simpl. by erewrite bind_Ok; [|exact Ef]. }
    eapply served_unit; [done|exact E|by eapply AEmpty|]. apply (keep_cur H); try done.
    + by apply (bg_drop i s a B).
    + apply same_in_refl.
    + intros s' a' Hs'. simpl in Hs'. apply lookup_delete_Some in Hs' as [_ Hs']. eauto.
  - destruct (find_un H here Hu) as [Ec Ef].
    assert (E : emptyOutBlock here w = Ok tt w).
    { unfold emptyOutBlock. erewrite bind_Ok; [|exact Ec]. simpl. by erewrite bind_Ok; [|exact Ef]. }
    eapply served_unit; [done|exact E|by apply AEmptyNot|exact H].
Qed.

Lemma served_world r (m : MA Z) ans w' : no_get r -> m w = Ok ans w' -> astep A r ans A -> (exists T', related T' w' st A) ->
  served r (on_world m (w, st)).
Proof. intros Hng E Hs Hr. rewrite (on_world_run m ans w' st E). split; [|by intros n ->]. exists A. by split. Qed.

Lemma serve_root here : allowed A (RRoot here) -> served (RRoot here) (serve (RRoot here) (w, st)).
Proof.
  pose proof H as [B F]. intros Hal. simpl.
  assert (E0 : forall c, contains here w = Ok c w -> getAllocationBlock here w =
    (if c : bool then (_ <- store (activeRAM (myState w) + 8) (W64 (u64 (here - activeRAM (myState w)))) ;; mret (activeRAM (myState w))) w
     else (found <- find_inactive here ;;
       match found with
       | Some (_, b) => _ <- store (start b + 8) (W64 (u64 (here - start b))) ;; mret (start b)
       | None => mret 0
       end) w)).
  { intros c Hc. unfold getAllocationBlock. erewrite bind_Ok; [|reflexivity]. unfold contains in Hc.
    erewrite bind_Ok in Hc; [|reflexivity]. injection Hc as <-. by destruct (in_block (myState w) here). }
  destruct Hal as [Hh|[(s & a & Hs & Hh)|Hu]].
  - destruct (cur_block H) as (E1 & _). eapply served_world; [done| | |].
    + rewrite (E0 true) by (apply (contains_cur H); unfold in_arena in Hh; lia). reflexivity.
    + rewrite E1. by apply ARootCur.
    + exists T. rewrite E1. apply (root_related H (cur A)). by left.
  - destruct (find_in H s a here Hs Hh) as (Ec & i & Ef & Hi). destruct (other_size B s a Hs) as (Es & _). eapply served_world; [done| | |].
    + rewrite (E0 false Ec). erewrite bind_Ok; [|exact Ef]. reflexivity.
    + simpl. rewrite Es. by eapply ARoot.
    + exists T. simpl. apply (root_related H a). right. by exists s.
  - destruct (find_un H here Hu) as [Ec Ef]. eapply served_world; [done| | |].
    + rewrite (E0 false Ec). by erewrite bind_Ok; [|exact Ef].
    + by apply ARootNot.
    + by exists T.
Qed.

Lemma serve_count here : allowed A (RCount here) -> served (RCount here) (serve (RCount here) (w, st)).
Proof.
  pose proof H as [B F]. intros Hal. simpl. destruct Hal as [Hh|[(s & a & Hs & Hh)|Hu]].
  - destruct (cur_block H) as (E1 & _). eapply served_world; [done| |by apply ACountCur|by exists T].
    unfold getNumObjectsInAllocatorBlock. erewrite bind_Ok; [|apply (contains_cur H); unfold in_arena in Hh; lia].
    unfold getNumObjectsInCurrentAllocatorBlock. erewrite bind_Ok; [|reflexivity]. rewrite E1.
    apply load32_run, (ok_count _ _ _ (f_cur _ _ _ F)).
  - destruct (find_in H s a here Hs Hh) as (Ec & i & Ef & Hi). destruct (b_others _ _ _ _ B s a Hs) as [Es Hok].
    eapply served_world; [done| |by eapply ACount|by exists T].
    unfold getNumObjectsInAllocatorBlock. erewrite bind_Ok; [|exact Ec]. simpl. erewrite bind_Ok; [|exact Ef]. simpl.
    apply load32_run, Hok.
  - destruct (find_un H here Hu) as [Ec Ef]. eapply served_world; [done| |by apply ACountNot|by exists T].
    unfold getNumObjectsInAllocatorBlock. erewrite bind_Ok; [|exact Ec]. simpl. by erewrite bind_Ok; [|exact Ef].
Qed.

Lemma serve_managed here : allowed A (RManaged here) -> served (RManaged here) (serve (RManaged here) (w, st)).
Proof.
  pose proof H as [B F]. intros Hal.
  assert (Hx : forall b, isManaged here w = Ok b w -> astep A (RManaged here) (if b : bool then 1 else 0) A ->
    served (RManaged here) (serve (RManaged here) (w, st))).
  { intros b E Hs. simpl. erewrite bind_Ok; [|by apply on_world_run]. split; [|done]. exists A. split; [done|]. by exists T. }
  unfold isManaged in Hx. destruct Hal as [Hh|[(s & a & Hs & Hh)|Hu]].
  - apply (Hx true); [|by apply AManaged; left]. by erewrite bind_Ok; [|apply (contains_cur H); unfold in_arena in Hh; lia].
  - destruct (find_in H s a here Hs Hh) as (Ec & i & Ef & Hi).
    apply (Hx true); [|apply AManaged; right; eauto]. erewrite bind_Ok; [|exact Ec]. simpl. by erewrite bind_Ok; [|exact Ef].
  - destruct (find_un H here Hu) as [Ec Ef].
    apply (Hx false); [|by apply AManagedNot]. erewrite bind_Ok; [|exact Ec]. simpl. by erewrite bind_Ok; [|exact Ef].
Qed.

Lemma serve_make p n t : allowed A (RMake p n t) -> served (RMake p n t) (serve (RMake p n t) (w, st)).
Proof.
  intros (Hb & Hap & Hc & Hh). pose proof Hb as (Hp & _ & Hn). unfold HEADER_SIZE in Hn.
  destruct (malloc_related H p n) as (w1 & E1 & H1); [lia|done|done|done|].
  destruct (leave_spec H1) as (w2 & E2 & B2 & Es).
  assert (Hpc : p <> a_start (cur A)).
  { destruct H as [_ F]. pose proof (ok_size _ _ _ (f_cur _ _ _ F)). unfold apart, HEADER_SIZE in *. lia. }
  eapply served_unit; [done| | |].
  - unfold makeObjectAllocatorBlock. rewrite (proj2 (Z.eqb_neq _ _)) by lia. erewrite bind_Ok; [|exact E1].
    exact (setupBlock_run p n t w1 w2 Hb E2).
  - apply AMake.
  - rewrite (leave_heap p n A Hpc) in B2. apply (enter_spec _ p n false t B2 Hb).
    + intros s a Hs. apply (leave_apart p n Hap (or_intror Hc) s a Hs).
    + rewrite Es. apply (state_chunks H1).
    + intros _. simpl. by rewrite lookup_insert_eq.
Qed.
Lemma serve_makeAt p n t : allowed A (RMakeAt p n t) -> served (RMakeAt p n t) (serve (RMakeAt p n t) (w, st)).
Proof.
  intros (Hb & Hap & Hc). destruct (leave_spec H) as (w2 & E2 & B2 & Es). eapply served_unit; [done| | |].
  - exact (setupUser_run p n t w w2 Hb E2).
  - apply AMakeAt.
  - apply (enter_spec _ p n true t B2 Hb).
    + exact (leave_apart p n Hap Hc).
    + rewrite Es. apply (state_chunks H).
    + done.
Qed.
Lemma serve_temp p n : allowed A (RTemp p n) -> served (RTemp p n) (serve (RTemp p n) (w, st)).
Proof.
  intros (Hb & Hap & Hc & Hh). pose proof Hb as (Hp & _ & Hn). unfold HEADER_SIZE in Hn.
  destruct (hold_spec H (Some (p, n))) as (w2 & E2 & B2 & Es); [intros ? ? [= <- <-]; repeat split; (done || lia)|].
  simpl. unfold temporarilyUseBlockForAllocations.
  assert (E : temporarilyUseBlockForAllocations p n w = Ok (myState w) (entered p n false true w2)).
  { unfold temporarilyUseBlockForAllocations. erewrite bind_Ok; [|exact (hold_run H)]. rewrite (proj2 (Z.eqb_neq _ _)) by lia.
    erewrite bind_Ok; [|reflexivity]. erewrite bind_Ok; [|exact (setupBlock_run p n true _ w2 Hb E2)]. done. }
  erewrite bind_Ok; [|exact (on_world_run _ _ _ st E)]. erewrite bind_Ok; [|reflexivity].
  split; [|done]. eexists. split; [apply ATemp|]. eexists. apply (enter_spec _ p n false true B2 Hb).
  - intros s a Hs. simpl in Hs. apply lookup_insert_Some in Hs as [[<- <-]|[_ Hs]]; [done|by eapply Hap].
  - rewrite Es. apply (state_chunks H).
  - intros _. simpl. by rewrite lookup_insert_eq.
Qed.
Lemma serve_tempAt p n : allowed A (RTempAt p n) -> served (RTempAt p n) (serve (RTempAt p n) (w, st)).
Proof.
  intros (Hb & Hap & Hc). destruct (hold_spec H None) as (w2 & E2 & B2 & Es); [done|].
  assert (E : temporarilyUseUserBlock p n w = Ok (myState w) (entered p n true true w2)).
  { unfold temporarilyUseUserBlock. erewrite bind_Ok; [|exact (hold_run H)].
    erewrite bind_Ok; [|exact (setupUser_run p n true _ w2 Hb E2)]. done. }
  simpl. erewrite bind_Ok; [|exact (on_world_run _ _ _ st E)]. erewrite bind_Ok; [|reflexivity].
  split; [|done]. eexists. split; [apply ATempAt|]. eexists. apply (enter_spec _ p n true true B2 Hb).
  - intros s a Hs. simpl in Hs. apply lookup_insert_Some in Hs as [[<- <-]|[_ Hs]]; [done|by eapply Hap].
  - rewrite Es. apply (state_chunks H).
  - done.
Qed.
Lemma serve_restore : allowed A RRestore -> served RRestore (serve RRestore (w, st)).
Proof.
  intros Hal. pose proof H as [B F]. pose proof (b_saved _ _ _ _ B) as Hsv.
  destruct st as [|s st'] eqn:Est; [by apply Forall2_nil_inv_l in Hsv|].
  destruct (restore_spec H s st' eq_refl) as (w' & E & A' & Hs & Hr). simpl.
  erewrite bind_Ok; [|reflexivity]. erewrite bind_Ok; [|reflexivity]. erewrite bind_Ok; [|reflexivity].
  erewrite bind_Ok; [|exact (on_world_run _ _ _ st' E)]. split; [|done]. exists A'. split; [done|]. by exists T.
Qed.

Lemma policies_set m p : list_setPolicy p (policies_for m) = policies_for p.
Proof. by destruct m, p. Qed.

Lemma request_served r : allowed A r -> served r (serve r (w, st)).
Proof.
  destruct r as [n|here|x n|p|p n t|p n t|p n|p n| |here|here|here|here]; intros Hal.
  - pose proof (getRAM_spec n H Hal) as Hg. simpl. unfold on_world, wpx in *. simpl. destruct (getRAM n w) as [p w'|e w'| | |]; try done.
    + destruct Hg as (Hz & T' & A' & ? & ?). split; [|intros ? [= <-]; done]. exists A'. split; [done|]. by exists T'.
    + destruct Hg as (? & ? & ? & ?). do 3 (split; [done|]). by exists n.
  - by apply serve_free.
  - eapply served_unit; [done|reflexivity|apply AWrite|]. by apply (write_related H).
  - pose proof H as [B F]. eapply served_unit; [done|reflexivity|apply APolicy|]. destruct B as [K1 K2 K3 K4 K5 K6 K7 K8 K9 K10 K11], F. split; split; try done.
    simpl. rewrite K11. by apply policies_set.
  - by apply serve_make.
  - by apply serve_makeAt.
  - by apply serve_temp.
  - by apply serve_tempAt.
  - by apply serve_restore.
  - by apply serve_empty.
  - by apply serve_root.
  - by apply serve_count.
  - by apply serve_managed.
Qed.
End serving.
