(* ===== verification/AllocatorCases.v ===== *)
(** What clients of the allocator can rely on, runs of it, and what goes wrong
    outside of that.  objectModel/headers/Allocator.cc. *)

From S2P Require Import Prelude Allocator AllocatorInv AllocatorOps AllocatorRefine.

Open Scope Z_scope.

(** ** Runs *)

(** The allocator after [MultiPolicyAllocator (numBytesIn)]. *)
Definition first_arenas (p n : Z) : Arenas :=
  mkArenas (mkArena p n ∅ false false) ∅ [] {[p := n]} defaultAllocator true.

(** The states that requests lead to, each with what clients know of it. *)
Inductive reached : World * list AllocatorState -> Arenas -> Prop :=
| ReachedNew p n w :
    block_size p n -> MultiPolicyAllocator_new p n new_world = Ok tt w -> reached (w, []) (first_arenas p n)
| ReachedServe x A r ans x' A' :
    reached x A -> allowed A r -> serve r x = Ok ans x' -> astep A r ans A' -> reached x' A'.

(** No two objects share a byte, wherever they are. *)
Definition all_arenas (A : Arenas) (a : arena) : Prop := a = cur A \/ exists s, others A !! s = Some a.

Section addresses.
Context {T : Z -> list Z} {w : World} {st : list AllocatorState} {A : Arenas}.
Hypothesis H : related T w st A.

Lemma in_cur_not_other here s a : in_arena (cur A) here -> others A !! s = Some a -> in_arena a here -> False.
Proof. intros Hc Hs Hh. pose proof (other_not_cur H s a here Hs Hh). unfold in_arena in *. lia. Qed.
Lemma in_cur_managed here : in_arena (cur A) here -> unmanaged A here -> False.
Proof. intros Hc [Hu _]. unfold in_arena in *. lia. Qed.
Lemma in_other_managed here s a : others A !! s = Some a -> in_arena a here -> unmanaged A here -> False.
Proof. intros Hs Hh [_ Hu]. specialize (Hu s a Hs). unfold in_arena in *. lia. Qed.
Lemma in_the_one here s a s' a' : others A !! s = Some a -> in_arena a here -> others A !! s' = Some a' -> in_arena a' here ->
  s = s' /\ a = a'.
Proof. intros Hs Hh Hs' Hh'. pose proof (in_one H s a s' a' here Hs Hs' Hh Hh') as <-. split; [done|]. congruence. Qed.
Lemma obj_cur here : is_Some (objs (cur A) !! here) -> in_arena (cur A) here.
Proof. intros [u Hu]. by eapply (obj_in_cur H). Qed.
Lemma obj_other here s a : others A !! s = Some a -> is_Some (objs a !! here) -> in_arena a here.
Proof. intros Hs [u Hu]. by eapply (obj_in_other H). Qed.

End addresses.

(** The answer and the step leave nothing open. *)
Lemma astep_det {T w st A} (H : related T w st A) r ans A1 A2 : astep A r ans A1 -> astep A r ans A2 -> A1 = A2.
Proof.
  pose proof (ok_start _ _ _ (f_cur _ _ _ (proj2 H))) as Hpos.
  intros S1 S2. destruct S1; inversion S2; subst; try done; unfold HEADER_SIZE, CHUNK_HEADER_SIZE in *; try lia;
    repeat match goal with
    | Hx : is_Some (objs (cur _) !! _) |- _ => apply (obj_cur H) in Hx
    | Hs : others _ !! _ = Some ?a, Hx : is_Some (objs ?a !! _) |- _ => apply (obj_other H _ _ _ Hs) in Hx
    | Hx : _ = _ \/ unmanaged _ _ |- _ => destruct Hx as [Hx|Hx]; [congruence|]
    end;
    try solve [exfalso; first [eapply (in_cur_not_other H); eassumption | eapply in_cur_managed; eassumption |
      eapply in_other_managed; eassumption]].
  - by destruct (in_the_one H here s a s0 a0) as [<- <-].
  - match goal with E : stack A = _, E' : stack A = _ |- _ => rewrite E in E'; injection E' as <- <- <- end.
    match goal with E : others A !! _ = _, E' : others A !! _ = _ |- _ => rewrite E in E'; injection E' as <- end. done.
  - by destruct (in_the_one H here s a s0 a0) as [<- <-].
Qed.

Section steps.
Context {T : Z -> list Z} {w : World} {st : list AllocatorState} {A : Arenas}.
Hypothesis H : related T w st A.

Lemma served_related r ans w' st' A' : allowed A r -> serve r (w, st) = Ok ans (w', st') -> astep A r ans A' ->
  exists T', related T' w' st' A'.
Proof.
  intros Hal E Hs. pose proof (request_served H r Hal) as Hsv. rewrite E in Hsv. destruct Hsv as [(A2 & Hs2 & T' & Hr) _].
  exists T'. by rewrite (astep_det H r ans A' A2 Hs Hs2).
Qed.

Lemma objects_apart a b o u o' u' : all_arenas A a -> all_arenas A b -> objs a !! o = Some u -> objs b !! o' = Some u' ->
  (a = b /\ o = o') \/ apart o u o' u'.
Proof.
  intros Ha Hb Ho Ho'. pose proof H as [B F].
  assert (Hok : forall a, all_arenas A a -> exists tiles, arena_ok (ram w) a tiles).
  { intros c [->|[s Hs]]; [eexists; apply F|]. eexists. by apply (b_others _ _ _ _ B s). }
  destruct (Hok a Ha) as [ta Hka], (Hok b Hb) as [tb Hkb].
  pose proof (obj_inside _ _ _ _ _ Hka Ho). pose proof (obj_inside _ _ _ _ _ Hkb Ho').
  assert (Hab : a = b \/ apart_arenas a b).
  { destruct Ha as [->|[s Hs]], Hb as [->|[s' Hs']].
    - by left.
    - right. by apply (f_apart _ _ _ F s').
    - right. pose proof (f_apart _ _ _ F s _ Hs). unfold apart_arenas, apart in *. lia.
    - destruct (decide (s = s')) as [->|Hne]; [left; congruence|]. right. by apply (b_apart _ _ _ _ B s _ s'). }
  destruct Hab as [<-|Hab]; [|right; unfold apart_arenas, apart in *; lia].
  destruct (ok_objs _ _ _ Hka o u Ho) as (_ & s & Hl & ?), (ok_objs _ _ _ Hka o' u' Ho') as (_ & s' & Hl' & ?).
  destruct (layout_disjoint _ _ _ _ _ _ (ok_tiles _ _ _ Hka) Hl Hl') as [[? _]|?]; [left|right]; unfold apart in *.
  - split; [done|lia].
  - lia.
Qed.
End steps.

(** The first block. *)
Lemma new_related p n w : block_size p n -> MultiPolicyAllocator_new p n new_world = Ok tt w ->
  exists T, related T w [] (first_arenas p n).
Proof.
  intros Hb. pose proof Hb as (Hp & _ & Hn). unfold MultiPolicyAllocator_new. rewrite (proj2 (Z.eqb_neq _ _)) by lia.
  erewrite bind_Ok; [|reflexivity]. erewrite bind_Ok; [|by eapply setupBlock_run].
  intros [= <-]. set (v := set_policies (list_setPolicy defaultAllocator) (set_ram (clobber p n) (set_mallocs <[p := n]> new_world))).
  exists (<[p := []]> (fun _ => [])). pose (B := first_arenas p n).
  assert (Hr : related (<[p := []]> (fun _ => [])) (entered p n false true v) []
    (mkArenas (mkArena p n ∅ false false) (others B) (stack B) (heap B) (mode B) true)).
  { apply (enter_spec (w := v) B); try done; [|intros _; apply lookup_singleton_eq].
    split; simpl; try done; constructor. }
  exact Hr.
Qed.

Lemma reached_related x A : reached x A -> exists T, related T x.1 x.2 A.
Proof.
  induction 1 as [p n w Hb E|[w st] A r ans [w' st'] A' _ [T IH] Hal E Hs]; [by apply new_related|].
  by eapply served_related.
Qed.

(** ** What clients can rely on *)

(** C13: The allocator serves every request that clients may make, whatever
    requests came before it: nothing is read, written or freed that is not
    there, and the answer and the state afterwards are those of arenas of
    objects.  Memory that is handed out lies in the current block, after its
    header and apart from all objects in it; a block is freed when its last
    object is, or kept while it has objects when another block replaces it; a
    restored block has the objects it had.  The only exception is
    NotEnoughSpace, for which the block throws, and then nothing has changed
    and there is no room: neither at the end of the block nor, unless the policy
    does not reuse memory, in any free chunk; and null is only answered then as
    well. *)
Theorem allocator_refines_arenas (x : World * list AllocatorState) (A : Arenas) (r : request) :
  reached x A -> allowed A r ->
  match serve r x with
  | Ok ans x' => (exists A', astep A r ans A' /\ reached x' A') /\
      (forall n, r = RGet n -> ans = 0 -> throws A = false /\ no_room x.1 (mode A) n)
  | Raise e x' => e = NotEnoughSpace /\ x' = x /\ exists n, r = RGet n /\ throws A = true /\ no_room x.1 (mode A) n
  | _ => False
  end.
Proof.
  intros Hx Hal. destruct (reached_related _ _ Hx) as [T Hr]. destruct x as [w st]. simpl in Hr.
  pose proof (request_served Hr r Hal) as Hs. destruct (serve r (w, st)) as [ans [w' st']|e [w' st']| | |] eqn:E; try done.
  - destruct Hs as [(A' & Hs & _) Hn]. split; [exists A'; split; [done|]; by eapply ReachedServe|].
    intros n -> ->. split; [|by apply Hn]. pose proof (ok_start _ _ _ (f_cur _ _ _ (proj2 Hr))).
    inversion Hs; [|done]. unfold HEADER_SIZE, CHUNK_HEADER_SIZE in *. lia.
  - destruct Hs as (-> & -> & -> & Hn). done.
Qed.

(** C14: At every time, no two live objects share a byte, in whatever block
    they are; each lies in its block behind the header; and the count of
    references in the header of a block is the number of objects in it, plus
    one while the block waits to be restored. *)
Theorem live_objects_are_apart (x : World * list AllocatorState) (A : Arenas) (a b : arena) (o u o' u' : Z) :
  reached x A -> all_arenas A a -> all_arenas A b -> objs a !! o = Some u -> objs b !! o' = Some u' ->
  ((a = b /\ o = o') \/ apart o u o' u') /\
  a_start a + HEADER_SIZE + CHUNK_HEADER_SIZE <= o /\ o + u <= a_start a + a_size a /\
  ALLOCATOR_REF_COUNT_of (a_start a) x.1 = Ok (Z.of_nat (size (objs a)) + (if held a then 1 else 0)) x.1.
Proof.
  intros Hx Ha Hb Ho Ho'. destruct (reached_related _ _ Hx) as [T Hr]. split; [by eapply (objects_apart Hr)|].
  assert (Hok : exists tiles, arena_ok (ram x.1) a tiles).
  { destruct Ha as [->|[s Hs]]; [eexists; apply Hr|]. eexists. by apply (b_others _ _ _ _ (proj1 Hr) s). }
  destruct Hok as [tiles Hok]. pose proof (obj_inside _ _ _ _ _ Hok Ho). unfold HEADER_SIZE, CHUNK_HEADER_SIZE.
  split; [lia|]. split; [lia|]. apply load32_run, (ok_count _ _ _ Hok).
Qed.

(** C37: Memory is reused: with the policy that is the default, once an object
    of the current block is freed, a request that is not larger is served,
    even if the block was full. *)
Theorem freed_memory_is_reused (x : World * list AllocatorState) (A : Arenas) (o u n : Z) :
  reached x A -> mode A = defaultAllocator -> objs (cur A) !! o = Some u -> 1 <= n <= u -> n < 2 ^ 31 ->
  exists x1 p x2, serve (RFree o) x = Ok 0 x1 /\ serve (RGet n) x1 = Ok p x2 /\ p <> 0.
Proof.
  intros Hx Hm Ho Hn Hlt. destruct (reached_related _ _ Hx) as [T Hr]. destruct x as [w st]. simpl in Hr.
  destruct (free_current Hr o) as (T1 & w1 & E1 & Hr1 & u' & sz & Hu & Hsz & Hmod & Hin & Hw); [by rewrite Hm|by eexists|].
  assert (u' = u) as -> by congruence.
  assert (Hroom : ~ no_room w1 defaultAllocator n).
  { intros [_ Hr2]. destruct (Hr2 ltac:(done) _ Hin) as (s & Hs & Hlts).
    destruct (bytesNeeded_spec n) as [[_ Hbm] Hb]; [lia|]. rewrite Hw in Hs. injection Hs as <-.
    pose proof (Z_div_mod_eq_full sz 4). pose proof (Z_div_mod_eq_full (bytesNeeded_for n) 4). lia. }
  exists (w1, st). pose proof (getRAM_spec n Hr1 ltac:(lia)) as Hg. unfold wpx in Hg. simpl in Hg. rewrite Hm in Hg.
  destruct (getRAM n w1) as [p w2|e w2| | |] eqn:E2; try done.
  - exists p, (w2, st). split; [simpl; erewrite bind_Ok; [|by apply on_world_run]; done|]. split; [by apply on_world_run|].
    intros ->. apply Hroom. by apply Hg.
  - by destruct Hg as (_ & _ & _ & Hg).
Qed.

(** ** A run *)

Fixpoint requests (rs : list request) : M (World * list AllocatorState) (list Z) :=
  match rs with
  | [] => mret []
  | r :: rs => a <- serve r ;; l <- requests rs ;; mret (a :: l)
  end.
(** A block of 1024 bytes from address 4096 on, and what requests make of it. *)
Definition after (rs : list request) : outcome (World * list AllocatorState) (list Z) :=
  match MultiPolicyAllocator_new 4096 1024 new_world with
  | Ok _ w => requests rs (w, [])
  | _ => NoFuel
  end.
Definition world_after (rs : list request) : World * list AllocatorState :=
  match after rs with Ok _ x => x | _ => (new_world, []) end.

(** What each request of a run answers. *)
Definition answers (o : outcome (World * list AllocatorState) (list Z)) : option (list Z) :=
  match o with Ok l _ => Some l | _ => None end.

(** Two objects; one is freed, and its memory is given to a smaller one; a
    temporary block replaces the block, and the block comes back. *)
Example a_run : answers (after [RGet 10; RGet 20; RCount 4120; RFree 4120; RGet 9; RTemp 8192 512; RGet 8;
    RManaged 4120; RFree 4140; RCount 4120; RRestore; RCount 4120; RGet 1])
  = Some [4120; 4136; 2; 0; 4120; 0; 8216; 1; 0; 2; 0; 1; 4160].
Proof. vm_compute. reflexivity. Qed.

(** ** What goes wrong *)

(** C38: The number of bytes is cut to 32 bits: whatever the state, a request of
    4 GB or more is served as the rest modulo 4 GB is, with an object that is
    far too small, instead of failing. *)
Theorem huge_requests_wrap_around (w : World) (k n : Z) :
  getRAM (n + k * 2 ^ 32) w = getRAM n w.
Proof.
  assert (E : bytesNeeded_for (n + k * 2 ^ 32) = bytesNeeded_for n).
  { unfold bytesNeeded_for. replace (u32 (CHUNK_HEADER_SIZE + (n + k * 2 ^ 32))) with (u32 (CHUNK_HEADER_SIZE + n)); [done|].
    unfold u32. rewrite Z.add_assoc. symmetry. apply Z_mod_plus_full. }
  unfold getRAM, bind, get. induction (myPolicies w) as [|[p []] l IH]; simpl; [done| |exact IH].
  destruct p; simpl; unfold defaultGetRAM, fastGetRAM; by rewrite E.
Qed.

(** The last four sizes before a multiple of 4 GB count the leading zeros of 0,
    which has no meaning. *)
Lemma request_of_no_bytes n w : myPolicies w = policies_for defaultAllocator -> 2 ^ 32 - 7 <= n <= 2 ^ 32 - 4 ->
  getRAM n w = Fault UndefinedBuiltin.
Proof.
  intros Hp Hn. unfold getRAM, bind, get. rewrite Hp, policy_get. simpl. unfold defaultGetRAM.
  assert (E : bytesNeeded_for n = 0).
  { assert (Hc : n = 4294967289 \/ n = 4294967290 \/ n = 4294967291 \/ n = 4294967292) by lia.
    by destruct Hc as [->|[->|[->| ->]]]. }
  by rewrite E.
Qed.

(** [cleanInactiveBlocks] frees every block of the size, objects or not: also
    the block that waits to be restored, whose header [restoreAllocationBlock]
    then changes in freed memory. *)
Example clean_frees_the_block_that_waits :
  let x := world_after [RGet 10; RTemp 8192 512] in
  exists w', cleanInactiveBlocks (Some 1024) x.1 = Ok tt w' /\ mallocs x.1 !! 4096 = Some 1024 /\
    mallocs w' !! 4096 = None /\ serve RRestore (w', x.2) = Fault InvalidRead.
Proof. eexists. split; [vm_compute; reflexivity|]. by vm_compute. Qed.
(** Objects in a block of the size go as well: their next use reads freed memory. *)
Example clean_frees_live_objects :
  let x := world_after [RGet 10; RMake 8192 512 true] in
  exists w', cleanInactiveBlocks (Some 1024) x.1 = Ok tt w' /\ GET_CHUNK_SIZE 4116 x.1 = Ok 16 x.1 /\
    GET_CHUNK_SIZE 4116 w' = Fault InvalidRead.
Proof. eexists. split; [vm_compute; reflexivity|]. by vm_compute. Qed.

(** A block ends before its end address, but [operator<] counts the end to it.
    The address where a page starts is then found in the page before it, if that
    waits to be restored, and [emptyOutBlock], which Pipeline.cc calls with the
    address of a page, forgets that one: objects that are freed there are not
    counted any more. *)
Example empty_out_forgets_the_wrong_block :
  let rs := [RMakeAt 8192 512 true; RGet 10; RGet 10; RTempAt 8704 512; RMakeAt 12288 512 true] in
  answers (after (rs ++ [RFree 8216; RCount 8232])) = Some [0; 8216; 8232; 0; 0; 0; 2] /\
  allInactives (world_after rs).1 = [mkInactive 8192 8704] /\
  allInactives (world_after (rs ++ [REmpty 8704])).1 = [] /\
  answers (after (rs ++ [REmpty 8704; RFree 8216; RCount 8232; RRestore; RCount 8232]))
    = Some [0; 8216; 8232; 0; 0; 0; 0; 0; 0; 2].
Proof. repeat split; by vm_compute. Qed.

(** [emptyOutBlock] does not give back the space in the current block, nor the
    memory of another block, to which nothing points any more. *)
Example empty_out_frees_nothing :
  answers (after [RGet 900; REmpty 4120; RCount 4120]) = Some [4120; 0; 0] /\
  serve (RGet 900) (world_after [RGet 900; REmpty 4120]) = Raise NotEnoughSpace (world_after [RGet 900; REmpty 4120]) /\
  let x := world_after [RGet 10; RMake 8192 512 true; REmpty 4120] in
  allInactives x.1 = [] /\ mallocs x.1 !! 4096 = Some 1024.
Proof. repeat split; by vm_compute. Qed.

(** ** The theorems at a state *)

Definition one_object : Arenas := set_cur (set_objs <[4120 := 10]> (cur (first_arenas 4096 1024))) (first_arenas 4096 1024).
Lemma reached_one : reached (world_after [RGet 10]) one_object.
Proof.
  eapply (ReachedServe (world_after []) (first_arenas 4096 1024) (RGet 10) 4120).
  - eapply ReachedNew; [unfold block_size, HEADER_SIZE; lia|]. vm_compute. reflexivity.
  - simpl. lia.
  - vm_compute. reflexivity.
  - apply (AGet (first_arenas 4096 1024) 10 4120); unfold HEADER_SIZE, CHUNK_HEADER_SIZE; simpl; [lia|lia|].
    intros o v Ho. by rewrite lookup_empty in Ho.
Qed.

Lemma allocator_refines_arenas_witness :
  let x := world_after [RGet 10] in
  reached x one_object /\ allowed one_object (RFree 4120) /\
  match serve (RFree 4120) x with
  | Ok ans x' => (exists A', astep one_object (RFree 4120) ans A' /\ reached x' A') /\
      (forall n, RFree 4120 = RGet n -> ans = 0 -> throws one_object = false /\ no_room x.1 (mode one_object) n)
  | Raise e x' => e = NotEnoughSpace /\ x' = x /\
      exists n, RFree 4120 = RGet n /\ throws one_object = true /\ no_room x.1 (mode one_object) n
  | _ => False
  end.
Proof.
  split; [exact reached_one|]. assert (Ha : allowed one_object (RFree 4120)) by (left; by eexists). split; [exact Ha|].
  exact (allocator_refines_arenas _ _ _ reached_one Ha).
Defined.

Lemma live_objects_are_apart_witness :
  let x := world_after [RGet 10] in
  reached x one_object /\ objs (cur one_object) !! 4120 = Some 10 /\
  4096 + 24 <= 4120 /\ ALLOCATOR_REF_COUNT_of 4096 x.1 = Ok 1 x.1.
Proof.
  split; [exact reached_one|]. split; [reflexivity|].
  destruct (live_objects_are_apart _ _ (cur one_object) (cur one_object) 4120 10 4120 10 reached_one)
    as (_ & ? & _ & Hc); [by left|by left|reflexivity|reflexivity|].
  split; [done|]. exact Hc.
Defined.

Lemma freed_memory_is_reused_witness :
  let x := world_after [RGet 10] in
  reached x one_object /\ mode one_object = defaultAllocator /\
  exists x1 p x2, serve (RFree 4120) x = Ok 0 x1 /\ serve (RGet 7) x1 = Ok p x2 /\ p <> 0.
Proof.
  split; [exact reached_one|]. split; [reflexivity|].
  apply (freed_memory_is_reused _ one_object 4120 10 7 reached_one); [reflexivity|reflexivity|lia|lia].
Defined.
