(* ===== verification/Handles.v ===== *)
(** Handles and objects: objectModel/headers/Handle.cc, RefCountedObject.cc,
    PDBTemplateBase.cc, DeepCopy.h, the parts of PDBString.cc that copy and
    destroy strings, Record.cc and the rest of InterfaceFunctions.cc, on the
    memory of the allocator.

    A handle is 16 bytes: the distance to its target, 8 bytes, and its type
    information, 4 bytes.  The target is an object behind a count of 4 bytes.
    Classes are the user's code: what is used of them is their size, their table
    of virtual functions and where their members are. *)

From S2P Require Import Prelude Allocator.

Open Scope Z_scope.

Definition i64 (z : Z) : Z := (z + 2 ^ 63) mod 2 ^ 64 - 2 ^ 63.
Definition i16 (z : Z) : Z := (z + 2 ^ 15) mod 2 ^ 16 - 2 ^ 15.

(** ** Bytes that move *)

(** The words inside a region. *)
Definition cells (x n : Z) (m : memory) : memory := filter (fun k => x <= k.1 /\ k.1 + width k.2 <= x + n) m.
Definition shift (d : Z) (m : memory) : memory := kmap (Z.add d) m.
(** [memmove]; words that are not wholly in the region do not arrive. *)
Definition move_bytes (src dst n : Z) (m : memory) : memory := shift (dst - src) (cells src n m) ∪ clobber dst n m.
Definition memmove (dst src n : Z) : MA unit := modify (set_ram (move_bytes src dst n)).

(** ** Classes *)

(** A member of some bytes without handles, a handle (with the type information
    that its constructor sets up), or a string. *)
Inductive field :=
| Plain (off n : Z)
| Member (off code : Z)
| Str (off : Z).

(** A class with ENABLE_DEEP_COPY. *)
Record Class := mkClass { c_size : Z; c_vtable : Z; c_fields : list field }.

(** The classes that [VTableMap] finds for a type code, those whose tables of
    virtual functions are at an address, and the codes that are reserved. *)
Record Types := mkTypes {
  classes : Z -> option Class;
  class_at : Z -> option Class;
  String_TYPEID : Z;
  Handle_TYPEID : Z;
  Nothing_TYPEID : Z
}.

Definition REF_COUNT_PREAMBLE_SIZE : Z := 4.
Definition sizeof_Handle : Z := 16.

(** ** The words of a handle *)
Definition getOffset (h : Z) : MA Z := v <- load64 h ;; mret (i64 v).
Definition setOffset (h toMe : Z) : MA unit := store h (W64 (u64 toMe)).
Definition getExactTypeInfoValue (h : Z) : MA Z := v <- load32 (h + 8) ;; mret (i32 v).
Definition setExactTypeInfoValue (h toMe : Z) : MA unit := store (h + 8) (W32 (u32 toMe)).
Definition isNullPtr (h : Z) : MA bool := o <- getOffset h ;; mret (o =? -1).
Definition getTarget (h : Z) : MA Z := o <- getOffset h ;; mret (h + o).
Definition getTypeCode (h : Z) : MA Z :=
  info <- getExactTypeInfoValue h ;; mret (if 0 <? info then i16 info else -1).

(** A local object is destroyed when its scope ends, by an exception as well. *)
Definition finally {A} (m : MA A) (destroy : MA unit) : MA A := fun w =>
  match m w with
  | Ok a w' => (_ <- destroy ;; mret a) w'
  | Raise e w' => (_ <- destroy ;; throw e) w'
  | o => o
  end.

Section Objects.
Context (Ty : Types).

(** ** RefCountedObject *)
Definition getObject (o : Z) : Z := o + REF_COUNT_PREAMBLE_SIZE.
Definition setRefCount (o toMe : Z) : MA unit :=
  managed <- isManaged o ;; if managed : bool then store o (W32 (u32 toMe)) else mret tt.
Definition getRefCount (o : Z) : MA Z :=
  managed <- isManaged o ;; if managed : bool then load32 o else mret (2 ^ 32 - 1).
(** [NUM_COPIES += d] *)
Definition add_copies (o d : Z) : MA unit := n <- load32 o ;; store o (W32 (u32 (n + d))).
Definition incRefCount (o : Z) : MA unit :=
  managed <- isManaged o ;; if managed : bool then add_copies o 1 else mret tt.

(** ** Type information *)

(** The class of the object; if there is none for the code, the one whose table
    of virtual functions the object points to. *)
Definition find_class (info obj : Z) : MA Class :=
  match classes Ty (i16 info) with
  | Some c => mret c
  | None => vtable <- load64 obj ;; unwrap BadCast (class_at Ty vtable)
  end.
Definition getSizeOfConstituentObject (info obj : Z) : MA Z :=
  if (info =? String_TYPEID Ty) || (info =? Handle_TYPEID Ty) then mret sizeof_Handle
  else if 0 <? info then c <- find_class info obj ;; mret (c_size c)
  else mret (- info).
Definition setVTablePtr (info obj : Z) : MA unit :=
  if Handle_TYPEID Ty <? info then
    match classes Ty (i16 info) with Some c => store obj (W64 (c_vtable c)) | None => mret tt end
  else mret tt.

(** ** Destruction *)

(** [~Handle]; [dec] is [decRefCount]. *)
Definition destroy_Handle (dec : Z -> Z -> MA unit) (h : Z) : MA unit :=
  null <- isNullPtr h ;;
  if null : bool then mret tt
  else
    o <- getTarget h ;;
    managed <- isManaged o ;;
    if managed : bool then info <- getExactTypeInfoValue h ;; dec o info else mret tt.
Definition destroy_String (dec : Z -> Z -> MA unit) (s : Z) : MA unit :=
  info <- getExactTypeInfoValue s ;; if info <? -1 then destroy_Handle dec s else mret tt.
Definition destroy_field (dec : Z -> Z -> MA unit) (obj : Z) (f : field) : MA unit :=
  match f with
  | Plain _ _ => mret tt
  | Member off _ => destroy_Handle dec (obj + off)
  | Str off => destroy_String dec (obj + off)
  end.
(** [deleteObject]: members are destroyed in reverse. *)
Definition deleter (dec : Z -> Z -> MA unit) (c : Class) (obj : Z) : MA unit :=
  for_each (rev (c_fields c)) (destroy_field dec obj).
Definition deleteConstituentObject (dec : Z -> Z -> MA unit) (info obj : Z) : MA unit :=
  if info =? String_TYPEID Ty then destroy_String dec obj
  else if info =? Handle_TYPEID Ty then destroy_Handle dec obj
  else if 0 <? info then c <- find_class info obj ;; deleter dec c obj
  else mret tt.

(** Fuel bounds the depth of the objects. *)
Fixpoint decRefCount (fuel : nat) (o info : Z) : MA unit :=
  match fuel with
  | O => fun _ => NoFuel
  | Datatypes.S fuel =>
      managed <- isManaged o ;;
      if managed : bool then
        _ <- add_copies o (-1) ;;
        n <- load32 o ;;
        if n =? 0 then
          _ <- deleteConstituentObject (decRefCount fuel) info (getObject o) ;;
          freeRAM o
        else mret tt
      else mret tt
  end.

(** ** Assignment *)
Section assignment.
(** [decRefCount] and [setUpAndCopyFromConstituentObject]. *)
Context (dec : Z -> Z -> MA unit) (copy : Z -> Z -> Z -> MA unit).

(** GET_OLD_TARGET and DEC_OLD_REF_COUNT *)
Definition GET_OLD_TARGET (h : Z) : MA (option Z * Z) :=
  null <- isNullPtr h ;;
  o <- (if null : bool then mret None else o <- getTarget h ;; mret (Some o)) ;;
  info <- getExactTypeInfoValue h ;;
  mret (o, info).
Definition DEC_OLD_REF_COUNT (old : option Z * Z) : MA unit :=
  match old.1 with Some o => dec o old.2 | None => mret tt end.
Definition assign_null (h : Z) : MA unit :=
  old <- GET_OLD_TARGET h ;; _ <- DEC_OLD_REF_COUNT old ;; setOffset h (-1).

(** What all that copy deeply do: space for the object, which the handle then
    points to, and the copy of the object at [from].  [undo] is what remains to
    be done when there is no space, before and after the copy itself. *)
Definition copy_deeply (h info size from : Z) (undo_first undo : MA unit) : MA unit :=
  space <- getRAM (REF_COUNT_PREAMBLE_SIZE + size) ;;
  if space =? 0 then
    _ <- undo_first ;; _ <- undo ;; _ <- setOffset h (-1) ;; throw NotEnoughSpace
  else
    _ <- setOffset h (space - h) ;;
    o <- getTarget h ;;
    _ <- setRefCount o 1 ;;
    try (copy info (getObject o) (getObject from)) (fun e =>
      match e with
      | NotEnoughSpace =>
          _ <- undo_first ;;
          o <- getTarget h ;;
          i <- getExactTypeInfoValue h ;;
          _ <- dec o i ;;
          _ <- undo ;;
          _ <- setOffset h (-1) ;;
          throw NotEnoughSpace
      | _ => throw e
      end).
Definition point_to (h o : Z) : MA unit :=
  _ <- setOffset h (o - h) ;; t <- getTarget h ;; incRefCount t.
(** A handle in the current block must not point out of it. *)
Definition must_copy (h o : Z) : MA bool :=
  c1 <- contains o ;;
  if c1 : bool then mret false else contains h.

(** [operator=] from a handle. *)
Definition assign (h from : Z) : MA unit :=
  old <- GET_OLD_TARGET h ;;
  null <- isNullPtr from ;;
  if null : bool then _ <- DEC_OLD_REF_COUNT old ;; setOffset h (-1)
  else
    info <- getExactTypeInfoValue from ;;
    _ <- setExactTypeInfoValue h info ;;
    o <- getTarget from ;;
    deep <- must_copy h o ;;
    if deep : bool then
      size <- getSizeOfConstituentObject info (getObject o) ;;
      _ <- copy_deeply h info size o (mret tt) (DEC_OLD_REF_COUNT old) ;;
      DEC_OLD_REF_COUNT old
    else
      _ <- point_to h o ;; DEC_OLD_REF_COUNT old.
(** [operator=] from an object of the handle's class ([same]) or of another
    one; [size] is that of the class. *)
Definition assign_object (same : bool) (h info size from : Z) : MA unit :=
  old <- GET_OLD_TARGET h ;;
  _ <- setExactTypeInfoValue h info ;;
  if from =? 0 then _ <- DEC_OLD_REF_COUNT old ;; setOffset h (-1)
  else
    deep <- must_copy h from ;;
    if deep : bool then
      _ <- copy_deeply h info size from (if same then DEC_OLD_REF_COUNT old else mret tt)
             (if same then mret tt else DEC_OLD_REF_COUNT old) ;;
      DEC_OLD_REF_COUNT old
    else
      _ <- point_to h from ;; DEC_OLD_REF_COUNT old.
(** The constructors. *)
Definition Handle_new (h code : Z) : MA unit :=
  _ <- setExactTypeInfoValue h code ;; setOffset h (-1).
Definition construct (h from : Z) : MA unit :=
  null <- isNullPtr from ;;
  if null : bool then _ <- setExactTypeInfoValue h 0 ;; setOffset h (-1)
  else
    info <- getExactTypeInfoValue from ;;
    _ <- setExactTypeInfoValue h info ;;
    o <- getTarget from ;;
    deep <- must_copy h o ;;
    if deep : bool then
      size <- getSizeOfConstituentObject info (getObject o) ;;
      copy_deeply h info size o (mret tt) (mret tt)
    else point_to h o.
Definition construct_object (h info size from : Z) : MA unit :=
  _ <- setExactTypeInfoValue h info ;;
  if from =? 0 then setOffset h (-1)
  else
    deep <- must_copy h from ;;
    if deep : bool then copy_deeply h info size from (mret tt) (mret tt) else point_to h from.
Definition shallowCopyToCurrentAllocationBlock (h copyMe : Z) : MA unit :=
  old <- GET_OLD_TARGET h ;;
  null <- isNullPtr copyMe ;;
  if null : bool then _ <- DEC_OLD_REF_COUNT old ;; setOffset h (-1)
  else
    info <- getExactTypeInfoValue copyMe ;;
    _ <- setExactTypeInfoValue h info ;;
    o <- getTarget copyMe ;;
    _ <- point_to h o ;;
    DEC_OLD_REF_COUNT old.

(** ** Strings: short ones are stored in the place of the distance. *)
Definition String_new (s : Z) : MA unit :=
  _ <- setExactTypeInfoValue s 1 ;;
  _ <- setOffset s (-1) ;;
  (* the first character is 0 *)
  setOffset s (-256).
Definition String_assign (t s : Z) : MA unit :=
  if t =? s then exit
  else
    si <- getExactTypeInfoValue s ;;
    ti <- getExactTypeInfoValue t ;;
    _ <- (if 0 <=? si then
            _ <- (if ti <? 0 then assign_null t else mret tt) ;;
            o <- getOffset s ;; setOffset t o
          else
            _ <- (if 0 <=? ti then setOffset t (-1) else mret tt) ;;
            assign t s) ;;
    si <- getExactTypeInfoValue s ;;
    setExactTypeInfoValue t si.

(** ** Deep copies *)
Definition construct_field (obj : Z) (f : field) : MA unit :=
  match f with
  | Plain _ _ => mret tt
  | Member off code => Handle_new (obj + off) code
  | Str off => String_new (obj + off)
  end.
Definition assign_field (target source : Z) (f : field) : MA unit :=
  match f with
  | Plain off n => memmove (target + off) (source + off) n
  | Member off _ => assign (target + off) (source + off)
  | Str off => String_assign (target + off) (source + off)
  end.
(** [new (target) ObjType ()] and [operator=]. *)
Definition setUpAndCopyFromTemplate (c : Class) (target source : Z) : MA unit :=
  _ <- store target (W64 (c_vtable c)) ;;
  _ <- for_each (c_fields c) (construct_field target) ;;
  for_each (c_fields c) (assign_field target source).
End assignment.

Fixpoint setUpAndCopyFromConstituentObject (fuel : nat) (info target source : Z) : MA unit :=
  match fuel with
  | O => fun _ => NoFuel
  | Datatypes.S fuel =>
      let dec := decRefCount fuel in
      let copy := setUpAndCopyFromConstituentObject fuel in
      if info =? String_TYPEID Ty then
        _ <- String_new target ;; String_assign dec copy target source
      else if info =? Handle_TYPEID Ty then
        _ <- Handle_new target (Nothing_TYPEID Ty) ;; assign dec copy target source
      else if 0 <? info then
        c <- find_class info source ;; setUpAndCopyFromTemplate dec copy c target source
      else memmove target source (- info)
  end.

(** ** The functions of clients

    [size] is the size of the class the handle is declared with. *)
Section clients.
Context (fuel : nat).
Notation dec := (decRefCount fuel).
Notation copy := (setUpAndCopyFromConstituentObject fuel).

Definition Handle_destroy (h : Z) : MA unit := destroy_Handle dec h.
Definition Handle_getRefCount (h : Z) : MA Z :=
  null <- isNullPtr h ;;
  if null : bool then mret 9999999
  else
    o <- getTarget h ;;
    managed <- isManaged o ;;
    if managed : bool then getRefCount o else mret 9999999.
Definition emptyOutContainingBlock (h : Z) : MA unit :=
  null <- isNullPtr h ;;
  if null : bool then mret tt
  else o <- getTarget h ;; _ <- emptyOutBlock o ;; setOffset h (-1).
(** [operator->] *)
Definition arrow (h : Z) : MA Z :=
  o <- getTarget h ;; info <- getExactTypeInfoValue h ;; _ <- setVTablePtr info (getObject o) ;; mret (getObject o).

(** The handle that is returned is constructed at [ret]. *)
Definition copyTargetToCurrentAllocationBlock (ret h code size : Z) : MA unit :=
  o <- getTarget h ;;
  here <- contains o ;;
  if here : bool then construct dec copy ret h
  else
    _ <- Handle_new ret code ;;
    space <- getRAM (REF_COUNT_PREAMBLE_SIZE + size) ;;
    if space =? 0 then _ <- setOffset ret (-1) ;; throw NotEnoughSpace
    else
      _ <- setOffset ret (space - ret) ;;
      r <- getTarget ret ;;
      _ <- setRefCount r 1 ;;
      info <- getExactTypeInfoValue h ;;
      _ <- setExactTypeInfoValue ret info ;;
      try (copy info (getObject r) (getObject o)) (fun e =>
        match e with
        | NotEnoughSpace =>
            r <- getTarget ret ;; _ <- dec r info ;; _ <- setOffset ret (-1) ;; throw NotEnoughSpace
        | _ => throw e
        end).

(** [ctor] is the constructor of the class on its arguments. *)
Definition makeObjectWithExtraStorage (extra size : Z) (ctor : Z -> MA unit) : MA Z :=
  returnVal <- getRAM (extra + size + REF_COUNT_PREAMBLE_SIZE) ;;
  if returnVal =? 0 then mret 0
  else
    _ <- try (ctor (getObject returnVal)) (fun e =>
           match e with NotEnoughSpace => _ <- freeRAM returnVal ;; throw NotEnoughSpace | _ => throw e end) ;;
    _ <- setRefCount returnVal 0 ;;
    mret returnVal.
Definition makeObject (size : Z) (ctor : Z -> MA unit) : MA Z := makeObjectWithExtraStorage 0 size ctor.
(** [getHandle] of an object of class [c] with type information [info]. *)
Definition getHandle (c : Class) (info forMe : Z) : MA Z :=
  here <- contains forMe ;;
  if here : bool then mret (forMe - REF_COUNT_PREAMBLE_SIZE)
  else
    size <- getSizeOfConstituentObject info forMe ;;
    space <- getRAM (size + REF_COUNT_PREAMBLE_SIZE) ;;
    if space =? 0 then throw NotEnoughSpace
    else
      _ <- setRefCount space 0 ;;
      _ <- try (setUpAndCopyFromTemplate dec copy c (getObject space) forMe) (fun e =>
             match e with NotEnoughSpace => _ <- freeRAM space ;; throw NotEnoughSpace | _ => throw e end) ;;
      mret space.
Definition unsafeCast (ret code castMe : Z) : MA unit :=
  _ <- Handle_new ret code ;;
  o <- getOffset castMe ;;
  _ <- setOffset ret (o + (castMe - ret)) ;;
  info <- getExactTypeInfoValue castMe ;;
  _ <- setExactTypeInfoValue ret info ;;
  t <- getTarget ret ;; incRefCount t.

(** [Holder] is a class with one handle; [temp] is the local handle. *)
Definition deepCopyToCurrentAllocationBlock (ret temp copyMe holder : Z) (c : Class) (child : Z) : MA unit :=
  o <- makeObject (c_size c) (fun obj =>
         _ <- store obj (W64 (c_vtable c)) ;; for_each (c_fields c) (construct_field obj)) ;;
  _ <- construct_object dec copy temp holder (c_size c) o ;;
  finally (
    obj <- arrow temp ;;
    _ <- assign dec copy (obj + child) copyMe ;;
    obj <- arrow temp ;;
    construct dec copy ret (obj + child)) (Handle_destroy temp).

(** ** Records *)
Definition getRecord (forMe : Z) : MA Z := o <- getTarget forMe ;; getAllocationBlock o.
(** [temp] and [copied] are the local handle and the one that
    [copyTargetToCurrentAllocationBlock] returns. *)
Definition getRecord_in (temp copied forMe code size putMeHere numBytesAvailable : Z) : MA Z :=
  tempAllocator <- temporarilyUseUserBlock putMeHere numBytesAvailable ;;
  _ <- Handle_new temp code ;;
  finally (
    _ <- try (_ <- copyTargetToCurrentAllocationBlock copied forMe code size ;;
              finally (assign dec copy temp copied) (Handle_destroy copied)) (fun e =>
           match e with
           | NotEnoughSpace => _ <- restoreAllocationBlock tempAllocator ;; throw NotEnoughSpace
           | _ => throw e
           end) ;;
    o <- getTarget temp ;;
    res <- getAllocationBlock o ;;
    _ <- restoreAllocationBlock tempAllocator ;;
    mret res) (Handle_destroy temp).
Definition numBytes_of (record : Z) : MA Z := load64 record.
Definition rootObjectOffset (record : Z) : MA Z := load64 (record + 8).
Definition getRootObject (ret code record : Z) : MA unit :=
  off <- rootObjectOffset record ;;
  _ <- Handle_new ret code ;;
  setOffset ret (record + off - ret).
End clients.
End Objects.
