(* ===== verification/HandlesMem.v ===== *)
(** What moves when bytes move, the values that objects in memory stand for,
    and the objects of a block as clients of the allocator see them. *)

From stdpp Require Import functions.
From S2P Require Import Prelude Allocator AllocatorInv AllocatorOps AllocatorRefine Handles.

Open Scope Z_scope.

(** ** Regions *)

Lemma cells_lookup x n m k c : cells x n m !! k = Some c <-> m !! k = Some c /\ x <= k /\ k + width c <= x + n.
Proof. unfold cells. rewrite map_lookup_filter_Some. done. Qed.
Lemma cells_eq x n m m' : (forall k c, x <= k -> k + width c <= x + n -> m !! k = Some c <-> m' !! k = Some c) ->
  cells x n m = cells x n m'.
Proof. intros H. apply map_eq. intros k. apply option_eq. intros c. rewrite !cells_lookup. specialize (H k c). tauto. Qed.
Lemma cells_sub x n y k m m' : cells x n m = cells x n m' -> x <= y -> y + k <= x + n -> cells y k m = cells y k m'.
Proof.
  intros E ? ?. apply cells_eq. intros j c ? ?.
  assert (Hj : cells x n m !! j = Some c <-> cells x n m' !! j = Some c) by (by rewrite E).
  rewrite !cells_lookup in Hj. split; intros; apply Hj; (split; [done|lia]).
Qed.
Lemma cells_word x n m m' k c : cells x n m = cells x n m' -> m !! k = Some c -> x <= k -> k + width c <= x + n -> m' !! k = Some c.
Proof. intros E H ? ?. apply (cells_lookup x n m'). rewrite <- E. by apply cells_lookup. Qed.

Lemma clobber_lookup a n m k c : clobber a n m !! k = Some c <-> m !! k = Some c /\ (k + width c <= a \/ a + n <= k).
Proof. unfold clobber. rewrite map_lookup_filter_Some. done. Qed.
Lemma cells_clobber a n x k m : apart x k a n -> cells x k (clobber a n m) = cells x k m.
Proof.
  intros H. apply cells_eq. intros j c ? ?. rewrite clobber_lookup. pose proof (width_pos c). unfold apart in H.
  split; [by intros [? _]|]. intros. split; [done|lia].
Qed.
Lemma cells_write a c x k m : apart x k a (width c) -> cells x k (write_cell a c m) = cells x k m.
Proof.
  intros H. rewrite <- (cells_clobber a (width c) x k m) by done. apply cells_eq. intros j d ? ?. unfold write_cell.
  rewrite lookup_insert_ne; [done|]. intros <-. pose proof (width_pos c). pose proof (width_pos d). unfold apart in H. lia.
Qed.

(** The words of a region, numbered from its start. *)
Definition content (x n : Z) (m : memory) : memory := shift (- x) (cells x n m).

Lemma shift_lookup d m k c : shift d m !! k = Some c <-> m !! (k - d) = Some c.
Proof.
  unfold shift. rewrite lookup_kmap_Some by (intros ? ? ?; lia). split.
  - intros (i & -> & H). by replace (d + i - d) with i by lia.
  - intros H. exists (k - d). split; [lia|done].
Qed.
Lemma content_lookup x n m k c : content x n m !! k = Some c <-> m !! (x + k) = Some c /\ 0 <= k /\ k + width c <= n.
Proof. unfold content. rewrite shift_lookup, cells_lookup. replace (k - - x) with (x + k) by lia. intuition lia. Qed.
Lemma content_same x n m m' : cells x n m = cells x n m' -> content x n m = content x n m'.
Proof. unfold content. by intros ->. Qed.

Lemma move_lookup src dst n m k c : move_bytes src dst n m !! k = Some c <->
  (m !! (src + (k - dst)) = Some c /\ dst <= k /\ k + width c <= dst + n) \/
  (m !! k = Some c /\ (k + width c <= dst \/ dst + n <= k)).
Proof.
  unfold move_bytes. rewrite lookup_union_Some.
  - rewrite shift_lookup, cells_lookup, clobber_lookup. replace (k - (dst - src)) with (src + (k - dst)) by lia.
    intuition lia.
  - apply map_disjoint_spec. intros j c1 c2. rewrite shift_lookup, cells_lookup, clobber_lookup.
    pose proof (width_pos c1). pose proof (width_pos c2). intros (_ & ? & ?) (_ & ?). lia.
Qed.
Lemma cells_move src dst n x k m : apart x k dst n -> cells x k (move_bytes src dst n m) = cells x k m.
Proof.
  intros H. apply cells_eq. intros j c ? ?. rewrite move_lookup. pose proof (width_pos c). unfold apart in H.
  split; [intros [(_ & ? & ?)|[? _]]; [lia|done]|]. intros. right. split; [done|lia].
Qed.
(** What arrives is what was there. *)
Lemma content_move src dst n i k m : 0 <= i -> i + k <= n ->
  content (dst + i) k (move_bytes src dst n m) = content (src + i) k m.
Proof.
  intros ? ?. apply map_eq. intros j. apply option_eq. intros c. rewrite !content_lookup, move_lookup.
  pose proof (width_pos c). replace (src + (dst + i + j - dst)) with (src + i + j) by lia. intuition lia.
Qed.
Lemma move_word src dst n m k c : m !! k = Some c -> src <= k -> k + width c <= src + n ->
  move_bytes src dst n m !! (dst + (k - src)) = Some c.
Proof. intros H ? ?. apply move_lookup. left. replace (src + (dst + (k - src) - dst)) with k by lia. split; [done|lia]. Qed.

(** ** Values *)

Inductive value :=
| VBytes (b : memory)
| VNull
| VRef (info : Z) (v : value)
| VShort (word info : Z)
| VObject (fields : list value).

(** Where a field is, and the words of it that matter. *)
Definition field_off (f : field) : Z := match f with Plain off _ | Member off _ | Str off => off end.
Definition field_len (f : field) : Z := match f with Plain _ n => n | Member _ _ | Str _ => 12 end.
(** Fields from [lo] on, one behind the other, up to [hi]. *)
Fixpoint fields_ok (lo hi : Z) (fs : list field) : Prop :=
  match fs with
  | [] => lo <= hi
  | f :: fs => lo <= field_off f /\ 0 <= field_len f /\ fields_ok (field_off f + field_len f) hi fs
  end.
Definition MAX_OBJECT : Z := 2 ^ 31 - 8.
Definition class_ok (c : Class) : Prop := fields_ok 8 (c_size c) (c_fields c) /\ c_size c < MAX_OBJECT.
Record types_ok (Ty : Types) : Prop := mkTypesOk {
  ty_classes i c : classes Ty i = Some c -> class_ok c;
  ty_codes : 0 < String_TYPEID Ty /\ 0 < Handle_TYPEID Ty /\ String_TYPEID Ty <> Handle_TYPEID Ty
}.

Section values.
Context (Ty : Types).

(** The size of objects, their table of virtual functions and their fields. *)
Definition shape (info : Z) : option (Z * option Z * list field) :=
  if info =? String_TYPEID Ty then Some (sizeof_Handle, None, [Str 0])
  else if info =? Handle_TYPEID Ty then Some (sizeof_Handle, None, [Member 0 (Nothing_TYPEID Ty)])
  else if 0 <? info then
    c ← classes Ty (i16 info); Some (c_size c, Some (c_vtable c), c_fields c)
  else if - info <? MAX_OBJECT then Some (- info, None, [Plain 0 (- info)])
  else None.

Lemma shape_ok info size vt fs : types_ok Ty -> shape info = Some (size, vt, fs) ->
  fields_ok (if vt then 8 else 0) size fs /\ 0 <= size < MAX_OBJECT.
Proof.
  intros [Hc _]. unfold shape, sizeof_Handle, MAX_OBJECT. destruct (_ =? String_TYPEID Ty).
  { intros [= <- <- <-]. simpl. lia. }
  destruct (_ =? Handle_TYPEID Ty); [intros [= <- <- <-]; simpl; lia|].
  destruct (Z.ltb_spec 0 info).
  - destruct (classes Ty (i16 info)) as [c|] eqn:E; [|done]. intros [= <- <- <-]. destruct (Hc _ _ E) as [Hf ?].
    unfold MAX_OBJECT in *. split; [done|]. split; [|done]. clear -Hf. enough (8 <= c_size c) by lia. revert Hf.
    generalize 8. induction (c_fields c) as [|f fs IH]; intros lo; simpl; [done|]. intros (? & ? & Hf). apply IH in Hf. lia.
  - destruct (Z.ltb_spec (- info) (2 ^ 31 - 8)); [|done]. intros [= <- <- <-]. simpl. lia.
Qed.

Section read.
(** Objects are read where [ok] says that their bytes may be. *)
Context (ok : Z -> Z -> bool) (m : memory).

Definition word64 (a : Z) : option Z := match m !! a with Some (W64 v) => Some v | _ => None end.
Definition word32 (a : Z) : option Z := match m !! a with Some (W32 v) => Some v | _ => None end.

Section fields.
Context (read : Z -> Z -> option value).
Definition read_handle (h : Z) : option value :=
  d ← word64 h; i ← word32 (h + 8);
  if i64 d =? -1 then Some VNull else VRef (i32 i) <$> read (h + i64 d) (i32 i).
Definition read_string (s : Z) : option value :=
  d ← word64 s; i ← word32 (s + 8);
  if 0 <=? i32 i then Some (VShort (i64 d) (i32 i))
  else if (i32 i =? -1) || (i64 d =? -1) then None
  else VRef (i32 i) <$> read (s + i64 d) (i32 i).
Definition read_field (obj : Z) (f : field) : option value :=
  match f with
  | Plain off n => Some (VBytes (content (obj + off) n m))
  | Member off _ => read_handle (obj + off)
  | Str off => read_string (obj + off)
  end.
End fields.

(** The value of an object of some type information, as deep as the fuel. *)
Fixpoint read_object (n : nat) (o info : Z) : option value :=
  match n with
  | O => None
  | Datatypes.S n =>
      '(size, _, fs) ← shape info;
      if ok (getObject o) size then VObject <$> mapM (read_field (read_object n) (getObject o)) fs else None
  end.
End read.

(** The value behind a handle. *)
Definition read_target (ok : Z -> Z -> bool) (m : memory) (n : nat) (h : Z) : option value :=
  read_handle m (read_object ok m n) h.
End values.

(** ** Values do not depend on where the bytes are *)

Lemma content_sub x y n i k m m' : content x n m = content y n m' -> 0 <= i -> i + k <= n ->
  content (x + i) k m = content (y + i) k m'.
Proof.
  intros E ? ?. apply map_eq. intros j. apply option_eq. intros c.
  assert (Hj : content x n m !! (i + j) = Some c <-> content y n m' !! (i + j) = Some c) by (by rewrite E).
  rewrite !content_lookup in Hj. rewrite !content_lookup.
  replace (x + i + j) with (x + (i + j)) by lia. replace (y + i + j) with (y + (i + j)) by lia.
  split; intros (Hm & ? & ?); (split; [|done]); apply Hj; (split; [done|lia]).
Qed.
Lemma content_word x y n i m m' c : content x n m = content y n m' -> m !! (x + i) = Some c -> 0 <= i -> i + width c <= n ->
  m' !! (y + i) = Some c.
Proof. intros E H ? ?. apply (content_lookup y n m' i c). rewrite <- E. by apply content_lookup. Qed.

Lemma fields_inside lo hi fs f : fields_ok lo hi fs -> f ∈ fs -> lo <= field_off f /\ 0 <= field_len f /\ field_off f + field_len f <= hi.
Proof.
  revert lo. induction fs as [|g fs IH]; intros lo Hf Hin; simpl in *; [by apply not_elem_of_nil in Hin|].
  destruct Hf as (? & ? & Hf). assert (Hle : forall fs lo, fields_ok lo hi fs -> lo <= hi).
  { clear. induction fs as [|g fs IH]; intros lo; simpl; [done|]. intros (? & ? & H). apply IH in H. lia. }
  pose proof (Hle _ _ Hf). apply elem_of_cons in Hin as [->|Hin]; [lia|]. destruct (IH _ Hf Hin). lia.
Qed.

Lemma word64_Some m a v : word64 m a = Some v <-> m !! a = Some (W64 v).
Proof. unfold word64. destruct (m !! a) as [[]|]; split; congruence. Qed.
Lemma word32_Some m a v : word32 m a = Some v <-> m !! a = Some (W32 v).
Proof. unfold word32. destruct (m !! a) as [[]|]; split; congruence. Qed.

Section moved.
Context {Ty : Types} (HTy : types_ok Ty).
Context {ok ok' : Z -> Z -> bool} {m m' : memory} {d : Z}.

Section fields.
Context {read read' : Z -> Z -> option value}.
Context (Hread : forall o i v, read o i = Some v -> read' (o + d) i = Some v).

Lemma handle_words_moved x n i : content x n m = content (x + d) n m' -> 0 <= i -> i + 12 <= n ->
  (forall v, word64 m (x + i) = Some v -> word64 m' (x + d + i) = Some v) /\
  (forall v, word32 m (x + i + 8) = Some v -> word32 m' (x + d + i + 8) = Some v).
Proof.
  intros E ? ?. split; intros v.
  - rewrite !word64_Some. intros Hv. eapply content_word; [exact E|done|done|]. simpl. lia.
  - rewrite !word32_Some. rewrite <- !Z.add_assoc. intros Hv. rewrite Z.add_assoc.
    eapply content_word; [exact E|done|lia|]. simpl. lia.
Qed.
Lemma read_handle_moved x n i v : content x n m = content (x + d) n m' -> 0 <= i -> i + 12 <= n ->
  read_handle m read (x + i) = Some v -> read_handle m' read' (x + d + i) = Some v.
Proof.
  intros E ? ?. destruct (handle_words_moved x n i) as [H1 H2]; [done..|]. unfold read_handle.
  intros (w & Hw & (j & Hj & Hv)%bind_Some)%bind_Some. rewrite (H1 w Hw). simpl. rewrite (H2 j Hj). simpl.
  destruct (i64 w =? -1); [done|]. apply fmap_Some in Hv as (u & Hu & ->).
  replace (x + d + i + i64 w) with (x + i + i64 w + d) by lia. by rewrite (Hread _ _ _ Hu).
Qed.
Lemma read_string_moved x n i v : content x n m = content (x + d) n m' -> 0 <= i -> i + 12 <= n ->
  read_string m read (x + i) = Some v -> read_string m' read' (x + d + i) = Some v.
Proof.
  intros E ? ?. destruct (handle_words_moved x n i) as [H1 H2]; [done..|]. unfold read_string.
  intros (w & Hw & (j & Hj & Hv)%bind_Some)%bind_Some. rewrite (H1 w Hw). simpl. rewrite (H2 j Hj). simpl.
  destruct (0 <=? i32 j); [done|]. destruct (_ || _); [done|]. apply fmap_Some in Hv as (u & Hu & ->).
  replace (x + d + i + i64 w) with (x + i + i64 w + d) by lia. by rewrite (Hread _ _ _ Hu).
Qed.
Lemma read_field_moved x n f v : content x n m = content (x + d) n m' -> 0 <= field_off f -> 0 <= field_len f ->
  field_off f + field_len f <= n -> read_field m read x f = Some v -> read_field m' read' (x + d) f = Some v.
Proof.
  intros E ? ? ?. destruct f as [off k|off code|off]; simpl in *.
  - intros [= <-]. by rewrite (content_sub x (x + d) n off k m m').
  - by apply (read_handle_moved x n).
  - by apply (read_string_moved x n).
Qed.
End fields.

(** The value of an object is the value of its bytes, wherever they are, as long
    as all objects it is made of move by the same distance. *)
Lemma read_object_moved n n' o i v :
  (forall x k, ok x k = true -> ok' (x + d) k = true /\ content x k m = content (x + d) k m') -> (n <= n')%nat ->
  read_object Ty ok m n o i = Some v -> read_object Ty ok' m' n' (o + d) i = Some v.
Proof.
  intros Hok. revert n' o i v. induction n as [|n IH]; intros n' o i v Hn; [done|]. destruct n' as [|n']; [lia|]. simpl.
  destruct (shape Ty i) as [[[size vt] fs]|] eqn:Es; [|done]. simpl.
  destruct (shape_ok Ty _ _ _ _ HTy Es) as [Hf Hsz].
  destruct (ok (getObject o) size) eqn:Eo; [|done]. destruct (Hok _ _ Eo) as [Eo' Ec].
  replace (getObject (o + d)) with (getObject o + d) by (unfold getObject; lia). rewrite Eo'.
  intros (vs & Hvs & ->)%fmap_Some. apply mapM_Some in Hvs. apply fmap_Some. exists vs. split; [|done]. apply mapM_Some.
  assert (Hin : forall f, f ∈ fs -> 0 <= field_off f /\ 0 <= field_len f /\ field_off f + field_len f <= size).
  { intros f Hfin. destruct (fields_inside _ _ _ f Hf Hfin) as (? & ? & ?). destruct vt; lia. }
  clear Hf Es. induction Hvs as [|f u fs us Hu Hvs IHf]; [by constructor|]. constructor; [|apply IHf; intros; apply Hin; by right].
  destruct (Hin f) as (? & ? & ?); [by left|].
  assert (Hn' : (n <= n')%nat) by lia.
  by apply (read_field_moved (fun o' i' v' => IH n' o' i' v' Hn') (getObject o) size).
Qed.
End moved.

Lemma read_object_same {Ty} (HTy : types_ok Ty) ok ok' m m' n n' o i v :
  (forall x k, ok x k = true -> ok' x k = true /\ cells x k m = cells x k m') -> (n <= n')%nat ->
  read_object Ty ok m n o i = Some v -> read_object Ty ok' m' n' o i = Some v.
Proof.
  intros H Hn Hr. rewrite <- (Z.add_0_r o). eapply (read_object_moved HTy (d := 0)); [|exact Hn|exact Hr].
  intros x k Hk. rewrite Z.add_0_r. destruct (H x k Hk) as [? Hc]. split; [done|]. by apply content_same.
Qed.

(** ** What the allocator writes *)

Section writes.
Implicit Types w : World.

Lemma load32_inv a w v w' : load32 a w = Ok v w' -> ram w !! a = Some (W32 v) /\ w' = w.
Proof. unfold load32, bind, get. destruct (ram w !! a) as [[]|]; [|done|done]. by intros [= -> ->]. Qed.
Lemma load64_inv a w v w' : load64 a w = Ok v w' -> ram w !! a = Some (W64 v) /\ w' = w.
Proof. unfold load64, bind, get. destruct (ram w !! a) as [[]|]; [done| |done]. by intros [= -> ->]. Qed.
Lemma builtin_clz_inv x w v w' : builtin_clz x w = Ok v w' -> w' = w.
Proof. unfold builtin_clz. destruct (x =? 0); [done|]. by intros [= _ ->]. Qed.
Lemma search_list_inv l j bn w r w' : search_list l j bn w = Ok r w' -> w' = w.
Proof.
  revert r. induction j as [|j IH]; intros r; simpl; [by intros [= _ ->]|].
  intros (c & w1 & [_ ->]%unwrap_Ok_inv & (s & w2 & [_ ->]%load32_inv & H)%bind_Ok_inv)%bind_Ok_inv.
  destruct (bn <=? s); [by injection H|by eapply IH].
Qed.
Lemma search_chunks_inv n i bn w r w' : search_chunks n i bn w = Ok r w' -> w' = w.
Proof.
  revert i r. induction n as [|n IH]; intros i r; simpl; [by intros [= _ ->]|].
  intros (w0 & w1 & [= <- <-] & (l & w2 & [_ ->]%unwrap_Ok_inv & (f & w3 & ->%search_list_inv & H)%bind_Ok_inv)%bind_Ok_inv)%bind_Ok_inv.
  destruct f; [by injection H|by eapply IH].
Qed.

(** Only the header of the block and a chunk's size are written. *)
Definition writes_header (w : World) (p : Z) (w' : World) : Prop :=
  forall x k, apart x k (activeRAM (myState w)) HEADER_SIZE -> apart x k (p - CHUNK_HEADER_SIZE) CHUNK_HEADER_SIZE ->
    cells x k (ram w') = cells x k (ram w).

Lemma count_writes b d w w' : change_count b d w = Ok tt w' -> exists v, w' = set_ram (write_cell (b + 16) (W32 v)) w.
Proof.
  unfold change_count, ALLOCATOR_REF_COUNT_of. intros (n & w1 & [_ ->]%load32_inv & H)%bind_Ok_inv. injection H as <-. by eexists.
Qed.
Lemma cells_count b v x k m : apart x k b HEADER_SIZE -> cells x k (write_cell (b + 16) (W32 v) m) = cells x k m.
Proof. intros H. apply cells_write. unfold apart, HEADER_SIZE in *. simpl. lia. Qed.

Lemma carve_writes bn w p w' : carve bn w = Ok p w' -> (p = 0 /\ w' = w) \/
  ((exists last_, ram w !! activeRAM (myState w) = Some (W64 last_) /\ p = last_ + activeRAM (myState w) + CHUNK_HEADER_SIZE) /\
   writes_header w p w').
Proof.
  unfold carve, LAST_USED_of. intros (w0 & w1 & [= <- <-] & (l & w2 & [Hl ->]%load64_inv & H)%bind_Ok_inv)%bind_Ok_inv.
  destruct (_ <? _).
  - destruct (throwException _); [done|]. injection H as <- <-. by left.
  - right. apply bind_Ok_inv in H as ([] & w1 & [= <-] & ([] & w2 & [= <-] & ([] & w3 & Hc & H)%bind_Ok_inv)%bind_Ok_inv).
    injection H as <- <-. apply count_writes in Hc as [v ->]. split; [by exists l|]. intros x k Hh Hp. simpl.
    rewrite cells_count by done. unfold apart, HEADER_SIZE, CHUNK_HEADER_SIZE in *.
    rewrite !cells_write; [done|unfold apart; simpl; lia|unfold apart; simpl; lia].
Qed.
Lemma getRAM_writes n w p w' : getRAM n w = Ok p w' -> (p = 0 /\ w' = w) \/
  ((exists last_, ram w !! activeRAM (myState w) = Some (W64 last_) /\ p = last_ + activeRAM (myState w) + CHUNK_HEADER_SIZE) \/
   (exists i l c, chunks (myState w) !! i = Some l /\ c ∈ l /\ p = c + CHUNK_HEADER_SIZE)) /\ writes_header w p w'.
Proof.
  unfold getRAM. intros (w0 & w1 & [= <- <-] & H)%bind_Ok_inv.
  induction (myPolicies w) as [|[q []] l IH]; simpl in H; [injection H as <- <-; by left| |by apply IH]. clear IH.
  assert (Hd : forall q, policy_getRAM q n w = Ok p w' -> policy_getRAM q n w = defaultGetRAM n w \/
    policy_getRAM q n w = carve (bytesNeeded_for n) w) by (intros []; [by left|by right|by left]).
  destruct (Hd q H) as [E|E]; rewrite E in H; clear E Hd.
  - unfold defaultGetRAM in H. apply bind_Ok_inv in H as (z & w1 & ->%builtin_clz_inv & (f & w2 & ->%search_chunks_inv & H)%bind_Ok_inv).
    destruct f as [[i j]|]; [|apply carve_writes in H as [?|[? ?]]; [by left|right; eauto]].
    apply bind_Ok_inv in H as (w1 & w2 & [= <- <-] & (c & w3 & [Hi ->]%unwrap_Ok_inv & (a & w4 & [Hj ->]%unwrap_Ok_inv & H)%bind_Ok_inv)%bind_Ok_inv).
    apply bind_Ok_inv in H as ([] & w5 & [= <-] & ([] & w6 & Hc & H)%bind_Ok_inv). injection H as <- <-. right.
    apply count_writes in Hc as [v ->]. split.
    + right. exists i, c, a. split; [done|]. split; [by eapply list_elem_of_lookup_2|done].
    + intros x k Hh Hp. simpl. by rewrite cells_count.
  - apply carve_writes in H as [?|[? ?]]; [by left|right; eauto].
Qed.
Lemma freeRAM_writes here w w' : freeRAM here w = Ok tt w' -> contains here w = Ok true w ->
  forall x k, apart x k (activeRAM (myState w)) HEADER_SIZE -> cells x k (ram w') = cells x k (ram w).
Proof.
  unfold freeRAM. intros H Hc x k Hx. rewrite (bind_Ok _ _ _ _ _ Hc) in H.
  apply bind_Ok_inv in H as (w0 & w1 & [= <- <-] & H). clear Hc.
  induction (myPolicies w) as [|[q []] l IH]; simpl in H; [by injection H as <-| |by apply IH]. clear IH.
  assert (Hd : w' = w \/ defaultFreeRAM true here w = Ok tt w').
  { destruct q; simpl in H; [by right|by right|]. left. by injection H. }
  destruct Hd as [->|E]; [done|]. unfold defaultFreeRAM in E.
  apply bind_Ok_inv in E as (s & w1 & [_ ->]%load32_inv & (z & w2 & ->%builtin_clz_inv & E)%bind_Ok_inv).
  apply bind_Ok_inv in E as (w3 & w4 & [= <- <-] & (c & w5 & [_ ->]%unwrap_Ok_inv & ([] & w6 & [= <-] & E)%bind_Ok_inv)%bind_Ok_inv).
  apply count_writes in E as [v ->]. simpl. by apply cells_count.
Qed.
End writes.

(** ** The objects of the current block *)

Definition with_objs (X : gmap Z Z) (A : Arenas) : Arenas := set_cur (set_objs (fun _ => X) (cur A)) A.

Section block.
Context (st : list AllocatorState) (A : Arenas).
Hypothesis Hmode : mode A <> noReferenceCountAllocator.
Notation b := (a_start (cur A)).
Notation sz := (a_size (cur A)).

(** The objects of the current block are [X], everything else is as in [A]. *)
Definition holds (X : gmap Z Z) (w : World) : Prop := exists T, related T w st (with_objs X A).
(** Bytes of an object, or out of the block. *)
Definition place (X : gmap Z Z) (x k : Z) : Prop :=
  apart x k b sz \/ exists o u, X !! o = Some u /\ o <= x /\ x + k <= o + u.

Lemma place_more X Y x k : X ⊆ Y -> place X x k -> place Y x k.
Proof. intros Hs [?|(o & u & ? & ?)]; [by left|]. right. exists o, u. split; [|done]. by eapply lookup_weaken. Qed.

Section held.
Context {X : gmap Z Z} {w : World}.
Hypothesis H : holds X w.

Lemma block_bounds : 0 < b /\ b + sz < 2 ^ 63 /\ HEADER_SIZE <= sz < 2 ^ 32.
Proof. destruct H as [T Hr]. pose proof (f_cur _ _ _ (proj2 Hr)) as Hok. destruct (ok_start _ _ _ Hok). pose proof (ok_size _ _ _ Hok). simpl in *. lia. Qed.
Lemma holds_block : activeRAM (myState w) = b /\ numBytes (myState w) = sz.
Proof. destruct H as [T Hr]. destruct (cur_block Hr) as (? & ? & _). done. Qed.
Lemma inside_block o u : X !! o = Some u -> b + 24 <= o /\ 0 < u /\ o + u <= b + sz.
Proof. intros Ho. destruct H as [T Hr]. exact (obj_inside _ _ _ _ _ (f_cur _ _ _ (proj2 Hr)) Ho). Qed.
Lemma apart_objs o u o' u' : X !! o = Some u -> X !! o' = Some u' -> o <> o' -> apart o u o' u'.
Proof.
  intros Ho Ho' Hne. destruct H as [T Hr]. pose proof (f_cur _ _ _ (proj2 Hr)) as Hok.
  destruct (ok_objs _ _ _ Hok o u Ho) as (_ & s & Hl & ?), (ok_objs _ _ _ Hok o' u' Ho') as (_ & s' & Hl' & ?).
  destruct (layout_disjoint _ _ _ _ _ _ (ok_tiles _ _ _ Hok) Hl Hl') as [[? _]|?]; unfold apart; lia.
Qed.
Lemma place_header x k : place X x k -> apart x k b HEADER_SIZE.
Proof.
  pose proof block_bounds. intros [Hp|(o & u & Ho & ? & ?)]; unfold apart, HEADER_SIZE in *; [lia|].
  pose proof (inside_block _ _ Ho). lia.
Qed.
Lemma place_obj x k o u : place X x k -> X !! o = Some u -> (o <= x /\ x + k <= o + u) \/ apart x k o u.
Proof.
  intros [Hp|(o' & u' & Ho' & ? & ?)] Ho.
  - pose proof (inside_block _ _ Ho). unfold apart in *. right. lia.
  - destruct (decide (o = o')) as [<-|Hne]; [left; simplify_eq; lia|]. pose proof (apart_objs _ _ _ _ Ho Ho' Hne).
    unfold apart in *. right. lia.
Qed.

Lemma contains_in x : b <= x < b + sz -> contains x w = Ok true w.
Proof. destruct H as [T Hr]. exact (contains_cur Hr x). Qed.
Lemma contains_out x : x < b \/ b + sz <= x -> contains x w = Ok false w.
Proof. destruct H as [T Hr]. exact (contains_not Hr x). Qed.
Lemma managed_obj o u : X !! o = Some u -> isManaged o w = Ok true w.
Proof.
  intros Ho. pose proof (inside_block _ _ Ho). unfold isManaged. erewrite bind_Ok; [|apply contains_in; lia]. done.
Qed.

(** Clients write into their objects, and where there is no arena. *)
Definition writes_at (x n : Z) (f : memory -> memory) : Prop := forall m, clobber x n m ⊆ f m.
Definition outside (x n : Z) : Prop := apart x n b sz /\ apart_from A x n.
Lemma holds_over x n f : writes_at x n f -> (exists o u, X !! o = Some u /\ o <= x /\ x + n <= o + u) \/ outside x n ->
  holds X (set_ram f w).
Proof.
  intros Hf Hx. pose proof H as [T Hr]. exists T.
  assert (Hw : related T (set_ram (clobber x n) w) st (with_objs X A)).
  { apply (write_related Hr). destruct Hx as [Hx|Hx]; [by left|by right; right]. }
  change (related T (set_ram (fun _ => f (ram w)) (set_ram (clobber x n) w)) st (with_objs X A)).
  apply (write_anywhere Hw). intros a _ m' tiles Hok ->.
  destruct Hok as [K1 K2 K3 K4 K5 K6 K7 K8].
  assert (Hsub : forall k c, ram (set_ram (clobber x n) w) !! k = Some c -> f (ram w) !! k = Some c).
  { intros k c Hk. eapply lookup_weaken; [exact Hk|]. apply Hf. }
  split; try done; [by apply Hsub|by apply Hsub|]. intros c s Hc. apply Hsub. by apply K7.
Qed.
End held.
End block.

Lemma store_at x c : writes_at x (width c) (write_cell x c).
Proof.
  intros m. apply map_subseteq_spec. intros k d [Hk Hd]%clobber_lookup. apply write_cell_keeps; [done|]. lia.
Qed.
Lemma move_at src dst n : writes_at dst n (move_bytes src dst n).
Proof. intros m. apply map_subseteq_spec. intros k d [Hk Hd]%clobber_lookup. apply move_lookup. by right. Qed.

Section requests.
Context {st : list AllocatorState} {A : Arenas} {X : gmap Z Z} {w : World}.
Hypothesis H : holds st A X w.
Notation b := (a_start (cur A)).
Notation sz := (a_size (cur A)).

(** Everything in place is as it was. *)
Definition kept (X : gmap Z Z) (w w' : World) : Prop := forall x k, place A X x k -> cells x k (ram w') = cells x k (ram w).

Definition got_object (n p : Z) (w' : World) : Prop :=
  kept X w w' /\ ((p = 0 /\ w' = w) \/ (p <> 0 /\ X !! p = None /\ holds st A (<[p := n]> X) w')).

Lemma chunk_apart X' w' o u p n : holds st A X' w' -> X' !! o = Some u -> X' !! p = Some n -> o <> p ->
  apart o u (p - CHUNK_HEADER_SIZE) CHUNK_HEADER_SIZE.
Proof.
  intros [T Hr] Ho Hp Hne. pose proof (f_cur _ _ _ (proj2 Hr)) as Hok.
  destruct (ok_objs _ _ _ Hok o u Ho) as (_ & s & Hl & ?), (ok_objs _ _ _ Hok p n Hp) as (_ & s' & Hl' & ?).
  destruct (layout_inside _ _ _ _ (ok_tiles _ _ _ Hok) Hl') as ([? _] & _).
  destruct (layout_disjoint _ _ _ _ _ _ (ok_tiles _ _ _ Hok) Hl Hl') as [[? _]|?]; unfold apart, CHUNK_HEADER_SIZE; lia.
Qed.

Lemma holds_get n : 1 <= n < 2 ^ 31 ->
  wpx (getRAM n) (got_object n) (fun e w' => e = NotEnoughSpace /\ w' = w) w.
Proof.
  intros Hn. pose proof H as [T Hr]. pose proof (getRAM_spec n Hr Hn) as Hg. unfold wpx in *.
  destruct (getRAM n w) as [p w'|e w'| | |] eqn:E; try done; [|by destruct Hg as (-> & -> & _)].
  destruct Hg as (_ & T' & A' & Hs & Hr'). pose proof (getRAM_writes _ _ _ _ E) as Hw.
  pose proof (block_bounds _ _ H) as Hbb.
  inversion Hs as [n0 p0 Hlo Hhi Hap E1 E2 E3| | | | | | | | | | | | | | | | | | | | | |]; subst.
  - simpl in *. assert (Hp : X !! p = None).
    { destruct (X !! p) as [v|] eqn:Ev; [|done]. specialize (Hap p v Ev). pose proof (inside_block _ _ H _ _ Ev).
      unfold apart in Hap. lia. }
    assert (Hnew : holds st A (<[p := n]> X) w') by (exists T'; exact Hr').
    split; [|right; split; [unfold HEADER_SIZE, CHUNK_HEADER_SIZE in *; lia|]; split; [done|exact Hnew]].
    intros x k Hpl. destruct Hw as [[-> _]|[_ Hw]]; [unfold HEADER_SIZE, CHUNK_HEADER_SIZE in *; lia|].
    apply Hw; [rewrite (proj1 (holds_block _ _ H)); by apply (place_header _ _ H)|].
    destruct Hpl as [Hpl|(o & u & Ho & ? & ?)].
    + unfold apart, HEADER_SIZE, CHUNK_HEADER_SIZE in *. lia.
    + pose proof (chunk_apart (<[p := n]> X) w' o u p n Hnew) as Hc.
      rewrite lookup_insert_eq, lookup_insert_ne in Hc by congruence. specialize (Hc Ho eq_refl ltac:(congruence)).
      unfold apart in *. lia.
  - assert (w' = w) as ->.
    { destruct Hw as [[_ ->]|[[(l & Hl & Ep)|(i & l & c & Hi & Hc & Ep)] _]]; [done| |].
      - rewrite (proj1 (holds_block _ _ H)) in Hl, Ep. pose proof (ok_last _ _ _ (f_cur _ _ _ (proj2 Hr))) as Hl'.
        simpl in *. rewrite Hl in Hl'. injection Hl' as ->.
        pose proof (total_nonneg _ (ok_tiles _ _ _ (f_cur _ _ _ (proj2 Hr)))).
        unfold HEADER_SIZE, CHUNK_HEADER_SIZE in *. simpl in *. lia.
      - destruct (cur_word Hr c) as (s & Hs' & _); [apply elem_of_concat; eauto|].
        apply layout_inside in Hs' as (_ & ? & _); [|apply (ok_tiles _ _ _ (f_cur _ _ _ (proj2 Hr)))].
        unfold HEADER_SIZE, CHUNK_HEADER_SIZE in *. simpl in *. lia. }
    split; [by intros x k|]. by left.
Qed.

Lemma holds_free o u : mode A <> noReferenceCountAllocator -> X !! o = Some u ->
  exists w', freeRAM o w = Ok tt w' /\ holds st A (delete o X) w' /\ kept X w w'.
Proof.
  intros Hm Ho. pose proof H as [T Hr]. pose proof (inside_block _ _ H _ _ Ho).
  destruct (free_current Hr o) as (T' & w' & E & Hr' & _); [done|by exists u|].
  exists w'. split; [done|]. split; [by exists T'|]. intros x k Hx.
  apply (freeRAM_writes o w w'); [done|apply (contains_in _ _ H); lia|].
  rewrite (proj1 (holds_block _ _ H)). by apply (place_header _ _ H).
Qed.
End requests.
