(* ===== verification/HandlesCopy.v ===== *)
(** Deleting and copying objects: objectModel/headers/Handle.cc,
    RefCountedObject.cc, PDBTemplateBase.cc and DeepCopy.h, with objects that
    are owned as trees. *)

From S2P Require Import Prelude Allocator AllocatorInv Handles HandlesMem.

Open Scope Z_scope.

(** ** Words of handles *)

Lemma i64_u64 z : - 2 ^ 63 <= z < 2 ^ 63 -> i64 (u64 z) = z.
Proof.
  intros Hz. unfold i64, u64, wrapu. rewrite Zplus_mod_idemp_l. rewrite Z.mod_small by lia. lia.
Qed.
Lemma i32_u32 z : i32 (u32 z) = i32 z.
Proof. unfold i32, u32, wrapu. by rewrite Zplus_mod_idemp_l. Qed.
Lemma i32_i32 z : i32 (i32 z) = i32 z.
Proof. unfold i32. f_equal. replace ((z + 2 ^ 31) mod 2 ^ 32 - 2 ^ 31 + 2 ^ 31) with ((z + 2 ^ 31) mod 2 ^ 32) by lia. apply Zmod_mod. Qed.

Section words.
Implicit Types w : World.
Lemma offset_run w h d : ram w !! h = Some (W64 d) -> getOffset h w = Ok (i64 d) w.
Proof. intros H. unfold getOffset. erewrite bind_Ok; [|by apply load64_run]. done. Qed.
Lemma info_run w h i : ram w !! (h + 8) = Some (W32 i) -> getExactTypeInfoValue h w = Ok (i32 i) w.
Proof. intros H. unfold getExactTypeInfoValue. erewrite bind_Ok; [|by apply load32_run]. done. Qed.
Lemma null_run w h d : ram w !! h = Some (W64 d) -> isNullPtr h w = Ok (i64 d =? -1) w.
Proof. intros H. unfold isNullPtr. erewrite bind_Ok; [|by apply offset_run]. done. Qed.
Lemma target_run w h d : ram w !! h = Some (W64 d) -> getTarget h w = Ok (h + i64 d) w.
Proof. intros H. unfold getTarget. erewrite bind_Ok; [|by apply offset_run]. done. Qed.
End words.

Lemma for_each_app {S X} (l1 l2 : list X) (body : X -> M S unit) s :
  for_each (l1 ++ l2) body s = (_ <- for_each l1 body ;; for_each l2 body) s.
Proof.
  revert s. induction l1 as [|x l1 IH]; intros s; simpl; [done|]. rewrite bind_assoc. unfold bind.
  destruct (body x s); [apply IH|done..].
Qed.
Lemma for_each_one {S X} (x : X) (body : X -> M S unit) s : for_each [x] body s = body x s.
Proof. simpl. unfold bind. by destruct (body x s) as [[]| | | |]. Qed.

Lemma one_field {S X} (f : X) (c a : X -> M S unit) s :
  (_ <- mret tt ;; _ <- for_each [f] c ;; for_each [f] a) s = (_ <- c f ;; a f) s.
Proof.
  unfold bind at 1. simpl. unfold bind. destruct (c f s) as [[] s1| | | |]; try done. simpl.
  by destruct (a f s1) as [[]| | | |].
Qed.

Section trees.
Context {Ty : Types} (HTy : types_ok Ty).

(** ** Ownership

    [owned n m D o i]: the object at [o] of type information [i] has a count of
    1, and so has every object that handles lead to from there, each by one
    handle; they are [D], with their sizes. *)
Section fields.
Context (own : gmap Z Z -> Z -> Z -> Prop) (m : memory).
Definition owned_handle (D : gmap Z Z) (h : Z) : Prop :=
  exists d i, m !! h = Some (W64 d) /\ m !! (h + 8) = Some (W32 i) /\
    ((i64 d = -1 /\ D = ∅) \/ (i64 d <> -1 /\ own D (h + i64 d) (i32 i))).
Definition owned_string (D : gmap Z Z) (s : Z) : Prop :=
  exists i, m !! (s + 8) = Some (W32 i) /\ ((-1 <= i32 i /\ D = ∅) \/ (i32 i < -1 /\ owned_handle D s)).
Definition owned_field (D : gmap Z Z) (obj : Z) (f : field) : Prop :=
  match f with
  | Plain _ _ => D = ∅
  | Member off _ => owned_handle D (obj + off)
  | Str off => owned_string D (obj + off)
  end.
Fixpoint owned_fields (D : gmap Z Z) (obj : Z) (fs : list field) : Prop :=
  match fs with
  | [] => D = ∅
  | f :: fs => exists D1 D2, D = D1 ∪ D2 /\ D1 ##ₘ D2 /\ owned_field D1 obj f /\ owned_fields D2 obj fs
  end.
End fields.
Fixpoint owned (n : nat) (m : memory) (D : gmap Z Z) (o info : Z) : Prop :=
  match n with
  | O => False
  | Datatypes.S n =>
      exists u D' size vt fs, shape Ty info = Some (size, vt, fs) /\ REF_COUNT_PREAMBLE_SIZE + size <= u /\
        m !! o = Some (W32 1) /\ D' !! o = None /\ D = <[o := u]> D' /\
        owned_fields (owned n m) m D' (getObject o) fs
  end.

(** Ownership depends on the bytes of what is owned. *)
Definition same_objs (D : gmap Z Z) (m m' : memory) : Prop := forall o u, D !! o = Some u -> cells o u m' = cells o u m.
Lemma same_objs_sub D D' m m' : D' ⊆ D -> same_objs D m m' -> same_objs D' m m'.
Proof. intros Hs H o u Ho. apply H. by eapply lookup_weaken. Qed.

Section frame.
Context {own own' : gmap Z Z -> Z -> Z -> Prop} {m m' : memory}.
Context (Hown : forall D o i, same_objs D m m' -> own D o i -> own' D o i).
Lemma owned_handle_frame D obj n i : cells obj n m' = cells obj n m -> 0 <= i -> i + 12 <= n -> same_objs D m m' ->
  owned_handle own m D (obj + i) -> owned_handle own' m' D (obj + i).
Proof.
  intros E ? ? HD (d & j & Hd & Hj & Hc). exists d, j.
  split; [eapply cells_word; [symmetry; exact E|done|lia|simpl; lia]|].
  split; [eapply cells_word; [symmetry; exact E|done|lia|simpl; lia]|].
  destruct Hc as [?|[? Ho]]; [by left|]. right. split; [done|]. by apply Hown.
Qed.
Lemma owned_field_frame D obj n f : cells obj n m' = cells obj n m -> 0 <= field_off f -> field_off f + field_len f <= n ->
  same_objs D m m' -> owned_field own m D obj f -> owned_field own' m' D obj f.
Proof.
  intros E ? ? HD. destruct f as [off k|off code|off]; simpl in *; [done|by apply (owned_handle_frame D obj n)|].
  intros (i & Hi & Hc). exists i. split; [eapply cells_word; [symmetry; exact E|done|lia|simpl; lia]|].
  destruct Hc as [?|[? Hh]]; [by left|]. right. split; [done|]. by apply (owned_handle_frame D obj n).
Qed.
Lemma owned_fields_frame D obj n fs lo : fields_ok lo n fs -> 0 <= lo -> cells obj n m' = cells obj n m -> same_objs D m m' ->
  owned_fields own m D obj fs -> owned_fields own' m' D obj fs.
Proof.
  intros Hf Hlo E. revert D lo Hf Hlo. induction fs as [|f fs IH]; intros D lo Hf Hlo HD; [done|].
  intros (D1 & D2 & -> & Hdj & H1 & H2). exists D1, D2. split; [done|]. split; [done|].
  destruct (fields_inside _ _ _ f Hf) as (? & ? & ?); [by left|]. destruct Hf as (? & ? & Hf). split.
  - eapply owned_field_frame; [exact E|lia|lia| |exact H1]. eapply same_objs_sub; [|exact HD]. by apply map_union_subseteq_l.
  - eapply IH; [exact Hf|lia| |exact H2]. eapply same_objs_sub; [|exact HD]. by apply map_union_subseteq_r.
Qed.
End frame.

Lemma owned_frame n n' m m' D o i : (n <= n')%nat -> same_objs D m m' -> owned n m D o i -> owned n' m' D o i.
Proof.
  revert n' D o i. induction n as [|n IH]; intros n' D o i Hn HD; [done|]. destruct n' as [|n']; [lia|].
  intros (u & D' & size & vt & fs & Hs & Hu & Hc & Ho & -> & Hf). exists u, D', size, vt, fs.
  destruct (shape_ok _ _ _ _ _ HTy Hs) as [Hfs Hsz]. unfold REF_COUNT_PREAMBLE_SIZE in *.
  assert (E : cells o u m' = cells o u m) by (apply HD; apply lookup_insert_eq).
  split; [done|]. split; [done|]. split; [eapply cells_word; [symmetry; exact E|done|lia|simpl; lia]|].
  split; [done|]. split; [done|].
  eapply (owned_fields_frame (fun D o i HD => IH n' D o i ltac:(lia) HD)); [exact Hfs|by destruct vt| | |exact Hf].
  - symmetry. apply (cells_sub o u); [done|unfold getObject, REF_COUNT_PREAMBLE_SIZE; lia|].
    unfold getObject, REF_COUNT_PREAMBLE_SIZE. lia.
  - eapply same_objs_sub; [|exact HD]. by apply insert_subseteq.
Qed.
End trees.

(** ** Deletion *)

Lemma place_sub {A Y} o u x n y k : place A Y x n -> x <= y -> y + k <= x + n -> (0 < n \/ Y !! o = Some u) -> place A Y y k.
Proof.
  intros [Ha|(p & v & Hp & ? & ?)] ? ? _; [|right; exists p, v; split; [done|lia]]. left. unfold apart in *. lia.
Qed.

Section deletion.
Context {Ty : Types} (HTy : types_ok Ty) {st : list AllocatorState} {A : Arenas}.
Hypothesis Hmode : mode A <> noReferenceCountAllocator.
Notation holds := (holds st A).
Notation place := (place A).
Notation kept := (@kept A).

Lemma unmoved_refl X w : kept X w w.
Proof. by intros x k. Qed.
Lemma unmoved_trans X Y w1 w2 w3 : Y ⊆ X -> kept X w1 w2 -> kept Y w2 w3 -> kept Y w1 w3.
Proof. intros Hs H1 H2 x k Hx. rewrite (H2 x k Hx). apply H1. by eapply place_more. Qed.
Lemma kept_less X Y w w' : Y ⊆ X -> kept X w w' -> kept Y w w'.
Proof. intros Hs H x k Hx. apply H. by eapply place_more. Qed.
Lemma place_whole X o u : X !! o = Some u -> place X o u.
Proof. intros H. right. exists o, u. split; [done|lia]. Qed.
Lemma kept_objs X D w w' : kept X w w' -> D ⊆ X -> same_objs D (ram w) (ram w').
Proof. intros H Hs o u Ho. apply H, place_whole. by eapply lookup_weaken. Qed.

(** The count of an object changes. *)
Lemma write_kept X w o u x c : holds X w -> X !! o = Some u -> o <= x -> x + width c <= o + u ->
  let w' := set_ram (write_cell x c) w in
  holds X w' /\ forall y k, place X y k -> apart y k x (width c) -> cells y k (ram w') = cells y k (ram w).
Proof.
  intros H Ho ? ?. split.
  - apply (holds_over _ _ H x (width c)); [apply store_at|]. left. by exists o, u.
  - intros y k _ Ha. by apply cells_write.
Qed.

Lemma delete_shape dec info size vt fs obj w : shape Ty info = Some (size, vt, fs) ->
  deleteConstituentObject Ty dec info obj w = for_each (rev fs) (destroy_field dec obj) w.
Proof.
  unfold shape, deleteConstituentObject. destruct (_ =? String_TYPEID Ty).
  { intros [= <- <- <-]. simpl rev. rewrite for_each_one. simpl. by rewrite Z.add_0_r. }
  destruct (_ =? Handle_TYPEID Ty); [intros [= <- <- <-]; simpl rev; rewrite for_each_one; simpl; by rewrite Z.add_0_r|].
  destruct (0 <? info).
  - unfold find_class. destruct (classes Ty (i16 info)) as [c|]; [|done]. by intros [= <- <- <-].
  - destruct (_ <? _); [|done]. by intros [= <- <- <-].
Qed.

Lemma owned_in n X w D o i : holds X w -> owned (Ty := Ty) n (ram w) D o i -> D ⊆ X -> isManaged o w = Ok true w.
Proof.
  intros H Ho Hs. destruct n as [|n']; [done|]. destruct Ho as (u & D' & size & vt & fs & _ & _ & _ & _ & -> & _).
  apply (managed_obj _ _ H o u). eapply lookup_weaken; [|exact Hs]. apply lookup_insert_eq.
Qed.

Section level.
Context (n : nat).
Notation dec := (decRefCount Ty n).
Context (IH : forall D o i X w, holds X w -> owned (Ty := Ty) n (ram w) D o i -> D ⊆ X ->
  exists w', dec o i w = Ok tt w' /\ holds (X ∖ D) w' /\ kept (X ∖ D) w w').
Notation own m := (owned (Ty := Ty) n m).

Lemma destroy_handle_spec D h X w : holds X w -> owned_handle (own (ram w)) (ram w) D h -> D ⊆ X ->
  exists w', destroy_Handle dec h w = Ok tt w' /\ holds (X ∖ D) w' /\ kept (X ∖ D) w w'.
Proof.
  intros H (d & i & Hd & Hi & Hc) Hs. unfold destroy_Handle. erewrite bind_Ok; [|by apply null_run].
  destruct Hc as [[-> ->]|[Hne Ho]].
  - exists w. rewrite Z.eqb_refl, map_difference_empty. split; [done|]. split; [done|apply unmoved_refl].
  - rewrite (proj2 (Z.eqb_neq _ _)) by done. cbn iota. erewrite bind_Ok; [|by apply target_run].
    erewrite bind_Ok; [|by eapply owned_in]. cbn iota. erewrite bind_Ok; [|by apply info_run]. by apply IH.
Qed.
Lemma destroy_field_spec D obj f X w : holds X w -> owned_field (own (ram w)) (ram w) D obj f -> D ⊆ X ->
  exists w', destroy_field dec obj f w = Ok tt w' /\ holds (X ∖ D) w' /\ kept (X ∖ D) w w'.
Proof.
  intros H Hf Hs. assert (H0 : D = ∅ -> exists w', Ok (S := World) tt w = Ok tt w' /\ holds (X ∖ D) w' /\ kept (X ∖ D) w w').
  { intros ->. exists w. rewrite map_difference_empty. split; [done|]. split; [done|apply unmoved_refl]. }
  destruct f as [off k|off code|off]; simpl in *; [by apply H0|by apply destroy_handle_spec|].
  destruct Hf as (i & Hi & Hc). unfold destroy_String. erewrite bind_Ok; [|by apply info_run]. destruct Hc as [[? HD]|[? Hh]].
  - rewrite (proj2 (Z.ltb_ge _ _)) by lia. by apply H0.
  - rewrite (proj2 (Z.ltb_lt _ _)) by lia. by apply destroy_handle_spec.
Qed.

Lemma destroy_fields_spec D o u fs lo size X w : holds X w -> X !! o = Some u -> D !! o = None ->
  fields_ok lo size fs -> 0 <= lo -> REF_COUNT_PREAMBLE_SIZE + size <= u ->
  owned_fields (own (ram w)) (ram w) D (getObject o) fs -> D ⊆ X ->
  exists w', for_each (rev fs) (destroy_field dec (getObject o)) w = Ok tt w' /\ holds (X ∖ D) w' /\ kept (X ∖ D) w w'.
Proof.
  intros H Ho HDo Hf Hlo Hu. revert D lo Hf Hlo HDo. induction fs as [|f fs IHf]; intros D lo Hf Hlo HDo Hown Hs; simpl.
  - simpl in Hown. subst D. exists w. rewrite map_difference_empty. split; [done|]. split; [done|apply unmoved_refl].
  - destruct Hown as (D1 & D2 & -> & Hdj & H1 & H2).
    destruct (fields_inside _ _ _ f Hf) as (? & ? & ?); [by left|]. destruct Hf as (_ & ? & Hf).
    apply lookup_union_None in HDo as [Ho1 Ho2].
    assert (Hs1 : D1 ⊆ X) by (etrans; [by apply map_union_subseteq_l|exact Hs]).
    assert (Hs2 : D2 ⊆ X) by (etrans; [by apply map_union_subseteq_r|exact Hs]).
    destruct (IHf D2 _ Hf ltac:(lia) Ho2 H2 Hs2) as (w1 & E1 & Hh1 & K1).
    assert (Hs12 : D1 ⊆ X ∖ D2).
    { apply map_subseteq_spec. intros p v Hp. apply lookup_difference_Some. split; [by eapply lookup_weaken|].
      by eapply map_disjoint_Some_l. }
    assert (Ho2' : (X ∖ D2) !! o = Some u) by by apply lookup_difference_Some.
    destruct (destroy_field_spec D1 (getObject o) f (X ∖ D2) w1) as (w2 & E2 & Hh2 & K2); [done| |done|].
    { eapply (owned_field_frame (m := ram w) (fun D o i => owned_frame HTy n n (ram w) (ram w1) D o i (Nat.le_refl n)));
        [|lia|eassumption| |exact H1].
      - apply K1. right. exists o, u. split; [done|]. unfold getObject, REF_COUNT_PREAMBLE_SIZE in *. lia.
      - by apply (kept_objs (X ∖ D2)). }
    assert (EX : (X ∖ D2) ∖ D1 = X ∖ (D1 ∪ D2)).
    { apply map_eq. intros p. apply option_eq. intros v. rewrite !lookup_difference_Some, lookup_union_None. tauto. }
    rewrite EX in Hh2, K2. exists w2. rewrite for_each_app. split; [|split; [done|]].
    + erewrite bind_Ok; [|exact E1]. by rewrite for_each_one.
    + eapply (unmoved_trans (X ∖ D2)); [|exact K1|exact K2]. rewrite <- EX. apply map_subseteq_difference_l. done.
Qed.
End level.

(** The last handle of a tree deletes all of it and nothing else. *)
Lemma decRefCount_owned n D o i X w : holds X w -> owned (Ty := Ty) n (ram w) D o i -> D ⊆ X ->
  exists w', decRefCount Ty n o i w = Ok tt w' /\ holds (X ∖ D) w' /\ kept (X ∖ D) w w'.
Proof.
  revert D o i X w. induction n as [|n IH]; intros D o i X w H Hown Hs; [done|].
  pose proof (owned_in (Datatypes.S n) X w D o i H Hown Hs) as Hman.
  destruct Hown as (u & D' & size & vt & fs & Hsh & Hu & Hc & Ho & -> & Hf).
  destruct (shape_ok _ _ _ _ _ HTy Hsh) as [Hfs Hsz].
  assert (HX : X !! o = Some u) by (eapply lookup_weaken; [apply lookup_insert_eq|exact Hs]).
  simpl. erewrite bind_Ok; [|exact Hman].
  destruct (write_kept X w o u o (W32 0) H HX) as [H1 K1]; [lia|unfold REF_COUNT_PREAMBLE_SIZE in *; simpl; lia|].
  set (w1 := set_ram (write_cell o (W32 0)) w) in *.
  assert (Hd : add_copies o (-1) w = Ok tt w1).
  { unfold add_copies. erewrite bind_Ok; [|by apply load32_run]. done. }
  erewrite bind_Ok; [|exact Hd]. erewrite bind_Ok; [|apply load32_run; apply write_cell_eq]. simpl.
  assert (Hobj : forall x k, getObject o <= x -> x + k <= o + u -> cells x k (ram w1) = cells x k (ram w)).
  { intros x k ? ?. apply K1; [right; exists o, u; split; [done|]|]; unfold apart, getObject, REF_COUNT_PREAMBLE_SIZE in *; simpl; lia. }
  assert (Hs' : D' ⊆ X).
  { etrans; [|exact Hs]. by apply insert_subseteq. }
  assert (HD' : same_objs D' (ram w) (ram w1)).
  { intros p v Hp. apply K1; [apply place_whole; by eapply lookup_weaken|]. assert (p <> o) by congruence.
    pose proof (apart_objs _ _ H o u p v HX (lookup_weaken _ _ _ _ Hp Hs') ltac:(congruence)).
    unfold apart, REF_COUNT_PREAMBLE_SIZE in *. simpl. lia. }
  destruct (destroy_fields_spec n IH D' o u fs (if vt then 8 else 0) size X w1) as (w2 & E2 & H2 & K2);
    [done|done|done|done|by destruct vt|done| |done|].
  { eapply (owned_fields_frame (fun D o i => owned_frame HTy n n (ram w) (ram w1) D o i (Nat.le_refl n)));
      [exact Hfs|by destruct vt| |exact HD'|exact Hf]. apply Hobj; [lia|]. unfold getObject, REF_COUNT_PREAMBLE_SIZE in *. lia. }
  erewrite bind_Ok; [|rewrite (delete_shape _ _ _ _ _ _ _ Hsh); exact E2].
  destruct (holds_free H2 o u Hmode) as (w3 & E3 & H3 & K3); [by apply lookup_difference_Some|].
  assert (EX : delete o (X ∖ D') = X ∖ <[o:=u]> D').
  { apply map_eq. intros p. apply option_eq. intros v. rewrite lookup_delete_Some, !lookup_difference_Some, lookup_insert_None.
    intuition congruence. }
  rewrite EX in H3. exists w3. split; [done|]. split; [done|].
  assert (HXs : X ∖ <[o:=u]> D' ⊆ X ∖ D') by (rewrite <- EX; apply delete_subseteq).
  intros x k Hx. rewrite (K3 x k) by (by eapply place_more). rewrite (K2 x k) by (by eapply place_more).
  apply K1; [eapply place_more; [|exact Hx]; by apply map_subseteq_difference_l|].
  assert (Hpx : place (X ∖ D') x k) by (by eapply place_more).
  destruct Hx as [Hx|(p & v & Hp & ? & ?)].
  - pose proof (inside_block _ _ H _ _ HX). unfold apart, REF_COUNT_PREAMBLE_SIZE in *. simpl. lia.
  - apply lookup_difference_Some in Hp as [Hp Hn]. apply lookup_insert_None in Hn as [_ Hne].
    pose proof (apart_objs _ _ H p v o u Hp HX ltac:(congruence)). unfold apart, REF_COUNT_PREAMBLE_SIZE in *. simpl. lia.
Qed.
End deletion.

(** ** Copies *)

Section copies.
Context {Ty : Types} (HTy : types_ok Ty) {st : list AllocatorState} {A : Arenas}.
Hypothesis Hmode : mode A <> noReferenceCountAllocator.
Notation holds := (holds st A).
Notation place := (place A).
Notation b := (a_start (cur A)).
Notation sz := (a_size (cur A)).

(** Objects that lie out of the current block, with their counts. *)
Definition out_of_block (x k : Z) : bool := (x + k <=? b) || (b + sz <=? x - REF_COUNT_PREAMBLE_SIZE).
(** Objects of [D]. *)
Definition in_objs (D : gmap Z Z) (x k : Z) : bool :=
  match D !! (x - REF_COUNT_PREAMBLE_SIZE) with Some u => REF_COUNT_PREAMBLE_SIZE + k <=? u | None => false end.

Definition kept_but (X : gmap Z Z) (y l : Z) (w w' : World) : Prop :=
  forall x k, place X x k -> apart x k y l -> cells x k (ram w') = cells x k (ram w).

Lemma kept_but_trans X Y y l w1 w2 w3 : X ⊆ Y -> kept_but X y l w1 w2 -> kept_but Y y l w2 w3 -> kept_but X y l w1 w3.
Proof. intros Hs H1 H2 x k Hx Ha. rewrite (H2 x k); [by apply H1| |done]. by eapply place_more. Qed.
Lemma kept_but_sub X y l z j w w' : z <= y -> y + l <= z + j -> kept_but X y l w w' -> kept_but X z j w w'.
Proof. intros ? ? H x k Hx Ha. apply H; [done|]. unfold apart in *. lia. Qed.
Lemma kept_kept_but X y l w w' : @kept A X w w' -> kept_but X y l w w'.
Proof. intros H x k Hx _. by apply H. Qed.

Lemma out_place X x k : out_of_block x k = true -> 0 <= k -> place X x k.
Proof. unfold out_of_block, REF_COUNT_PREAMBLE_SIZE. rewrite orb_true_iff, !Z.leb_le. intros. left. unfold apart. lia. Qed.

(** A value out of the block stays as it is while there are changes in an
    object of the block. *)
Lemma out_kept X o u y l n w w' src i v : holds X w -> X !! o = Some u -> o <= y -> y + l <= o + u -> kept_but X y l w w' ->
  read_object Ty out_of_block (ram w) n src i = Some v -> read_object Ty out_of_block (ram w') n src i = Some v.
Proof.
  intros H Ho ? ? Hk. apply (read_object_same HTy); [|done]. intros x k Hx. split; [done|]. symmetry.
  pose proof (inside_block _ _ H _ _ Ho). unfold out_of_block, REF_COUNT_PREAMBLE_SIZE in Hx. rewrite orb_true_iff, !Z.leb_le in Hx.
  apply Hk; [left|]; unfold apart; lia.
Qed.

Lemma size_shape info size vt fs obj w : shape Ty info = Some (size, vt, fs) ->
  getSizeOfConstituentObject Ty info obj w = Ok size w.
Proof.
  unfold shape, getSizeOfConstituentObject. destruct (_ =? String_TYPEID Ty); [by intros [= <- _ _]|].
  destruct (_ =? Handle_TYPEID Ty); [by intros [= <- _ _]|]. simpl. destruct (0 <? info).
  - unfold find_class. destruct (classes Ty (i16 info)) as [c|]; [|done]. by intros [= <- _ _].
  - destruct (_ <? _); [|done]. by intros [= <- _ _].
Qed.

Definition store_vtable (vt : option Z) (target : Z) : MA unit :=
  match vt with Some v => store target (W64 v) | None => mret tt end.
Lemma copy_shape n info size vt fs target source w : shape Ty info = Some (size, vt, fs) ->
  setUpAndCopyFromConstituentObject Ty (Datatypes.S n) info target source w =
  (_ <- store_vtable vt target ;; _ <- for_each fs (construct_field target) ;;
   for_each fs (assign_field Ty (decRefCount Ty n) (setUpAndCopyFromConstituentObject Ty n) target source)) w.
Proof.
  unfold shape. cbn [setUpAndCopyFromConstituentObject]. destruct (_ =? String_TYPEID Ty).
  { intros [= <- <- <-]. cbn [store_vtable]. rewrite one_field. simpl. by rewrite !Z.add_0_r. }
  destruct (_ =? Handle_TYPEID Ty).
  { intros [= <- <- <-]. cbn [store_vtable]. rewrite one_field. simpl. by rewrite !Z.add_0_r. }
  destruct (0 <? info).
  - unfold find_class. destruct (classes Ty (i16 info)) as [c|]; [|done]. by intros [= <- <- <-].
  - destruct (_ <? _); [|done]. intros [= <- <- <-]. cbn [store_vtable]. rewrite one_field.
    simpl. by rewrite !Z.add_0_r.
Qed.

(** ** A handle and its copy *)

(** Where a handle may be: in an object of the block, or out of all arenas. *)
Definition spot (X : gmap Z Z) (h : Z) : Prop :=
  (exists o u, X !! o = Some u /\ REF_COUNT_PREAMBLE_SIZE + o <= h /\ h + 12 <= o + u) \/ (outside A h 12 /\ 0 < h /\ h + 12 < 2 ^ 63).
(** Objects out of the block that the handle is not in. *)
Definition source_of (h x k : Z) : bool :=
  out_of_block x k && ((x + k <=? h) || (h + 12 <=? x - REF_COUNT_PREAMBLE_SIZE)).

Lemma spot_more X Y h : X ⊆ Y -> spot X h -> spot Y h.
Proof. intros Hs [(o & u & ? & ?)|?]; [|by right]. left. exists o, u. split; [by eapply lookup_weaken|done]. Qed.
Lemma spot_place X h : spot X h -> place X h 12.
Proof.
  unfold spot, REF_COUNT_PREAMBLE_SIZE. intros [(o & u & ? & ? & ?)|[[Ha _] _]]; [|by left]. right. exists o, u. split; [done|lia].
Qed.
Lemma spot_obj X w h p n : holds X w -> spot X h -> X !! p = None -> holds (<[p := n]> X) w -> apart h 12 p n.
Proof.
  intros _ Hs Hp H. pose proof (inside_block _ _ H p n (lookup_insert_eq _ _ _)). unfold spot, REF_COUNT_PREAMBLE_SIZE in *.
  destruct Hs as [(o & u & Ho & ? & ?)|[[Ha _] _]]; [|unfold apart in *; lia].
  pose proof (apart_objs _ _ H o u p n) as Hc. rewrite lookup_insert_eq, lookup_insert_ne in Hc by congruence.
  specialize (Hc Ho eq_refl ltac:(congruence)). unfold apart in *. lia.
Qed.

Lemma holds_spot X w h c x : holds X w -> spot X h -> h <= x -> x + width c <= h + 12 ->
  let w' := set_ram (write_cell x c) w in holds X w' /\ kept_but X h 12 w w'.
Proof.
  intros H Hs ? ?. split.
  - apply (holds_over _ _ H x (width c)); [apply store_at|]. unfold spot, REF_COUNT_PREAMBLE_SIZE in *.
    destruct Hs as [(o & u & Ho & ? & ?)|[[Ha Hf] _]]; [left; exists o, u; split; [done|lia]|].
    right. split; [unfold apart in *; lia|]. intros s a Hsa. specialize (Hf s a Hsa). unfold apart in *. lia.
  - intros y k _ Ha. apply cells_write. unfold apart in *. lia.
Qed.
Lemma source_kept X h n w w' src i v : kept_but X h 12 w w' ->
  read_object Ty (source_of h) (ram w) n src i = Some v -> read_object Ty (source_of h) (ram w') n src i = Some v.
Proof.
  intros Hk. apply (read_object_same HTy); [|done]. intros x k Hx. split; [done|]. symmetry.
  unfold source_of, out_of_block, REF_COUNT_PREAMBLE_SIZE in Hx.
  rewrite andb_true_iff, !orb_true_iff, !Z.leb_le in Hx. apply Hk; [left|]; unfold apart; lia.
Qed.
Lemma source_out h n m src i v : read_object Ty (source_of h) m n src i = Some v -> read_object Ty out_of_block m n src i = Some v.
Proof. apply (read_object_same HTy); [|done]. intros x k Hx. apply andb_true_iff in Hx as [? _]. done. Qed.

Definition handle_post (n : nat) (X : gmap Z Z) (h : Z) (w : World) (v : value) (w' : World) : Prop :=
  exists D, D ##ₘ X /\ holds (X ∪ D) w' /\ kept_but X h 12 w w' /\ owned_handle (owned (Ty := Ty) n (ram w')) (ram w') D h /\
    read_handle (ram w') (read_object Ty (in_objs D) (ram w') n) h = Some v.
Definition handle_fail (n : nat) (X : gmap Z Z) (h : Z) (w w' : World) : Prop :=
  holds X w' /\ kept_but X h 12 w w' /\ owned_handle (owned (Ty := Ty) n (ram w')) (ram w') ∅ h.
Definition copy_post (n : nat) (X : gmap Z Z) (o u info : Z) (w : World) (v : option value) (w' : World) : Prop :=
  exists D, D ##ₘ X /\ holds (X ∪ D) w' /\ kept_but X (getObject o) (u - REF_COUNT_PREAMBLE_SIZE) w w' /\
    owned (Ty := Ty) n (ram w') (<[o := u]> D) o info /\
    (forall x, v = Some x -> read_object Ty (in_objs (<[o := u]> D)) (ram w') n o info = Some x).
Definition copies (n : nat) : Prop := forall X o u w src info v size vt fs,
  holds X w -> X !! o = Some u -> shape Ty info = Some (size, vt, fs) -> REF_COUNT_PREAMBLE_SIZE + size <= u ->
  ram w !! o = Some (W32 1) -> read_object Ty out_of_block (ram w) n src info = Some v ->
  wpx (setUpAndCopyFromConstituentObject Ty n info (getObject o) (getObject src))
    (fun _ w' => copy_post n X o u info w (Some v) w')
    (fun e w' => e = NotEnoughSpace /\ copy_post n X o u info w None w') w.

Section level.
Context (n : nat).
Notation dec := (decRefCount Ty n).
Notation copy := (setUpAndCopyFromConstituentObject Ty n).
Context (IH : copies n).

Lemma fail_null X h w d j w' : holds X w' -> kept_but X h 12 w w' -> ram w' !! h = Some (W64 d) -> i64 d = -1 ->
  ram w' !! (h + 8) = Some (W32 j) -> handle_fail n X h w w'.
Proof. intros ? ? ? ? ?. split; [done|]. split; [done|]. exists d, j. do 2 (split; [done|]). by left. Qed.

Lemma fresh_apart X w p m x k : holds (<[p := m]> X) w -> X !! p = None -> place X x k -> apart x k p m.
Proof.
  intros H Hp [Hx|(o & u & Ho & ? & ?)].
  - pose proof (inside_block _ _ H p m (lookup_insert_eq _ _ _)). unfold apart in *. lia.
  - pose proof (apart_objs _ _ H o u p m) as Hc. rewrite lookup_insert_eq, lookup_insert_ne in Hc by congruence.
    specialize (Hc Ho eq_refl ltac:(congruence)). unfold apart in *. lia.
Qed.

(** The distance from a handle to an object that has just been created. *)
Lemma distance X w h p m : spot X h -> X !! p = None -> holds (<[p := m]> X) w -> 4 <= m ->
  h + i64 (u64 (p - h)) = p /\ i64 (u64 (p - h)) <> -1.
Proof.
  intros Hs Hp H Hm. pose proof (inside_block _ _ H p m (lookup_insert_eq _ _ _)). pose proof (block_bounds _ _ H) as (? & ? & ?).
  assert (Ha : apart h 12 p m) by (eapply fresh_apart; [exact H|done|by apply spot_place]).
  assert (Hh : 0 < h < 2 ^ 63).
  { destruct Hs as [(o & u & Ho & ? & ?)|?]; [|lia].
    assert (Ho' : <[p := m]> X !! o = Some u) by (rewrite lookup_insert_ne; [done|congruence]).
    pose proof (inside_block _ _ H o u Ho'). unfold REF_COUNT_PREAMBLE_SIZE in *. lia. }
  rewrite i64_u64 by lia. split; [lia|]. unfold apart in Ha. lia.
Qed.

Lemma refs_one p m X w : holds X w -> X !! p = Some m -> 4 <= m ->
  setRefCount p 1 w = Ok tt (set_ram (write_cell p (W32 1)) w) /\ holds X (set_ram (write_cell p (W32 1)) w).
Proof.
  intros H Hp ?. split.
  - unfold setRefCount. erewrite bind_Ok; [|by eapply managed_obj]. done.
  - apply (holds_over _ _ H p 4); [apply (store_at p (W32 1))|]. left. exists p, m. split; [done|lia].
Qed.

(** A handle [h] leads to space for an object with a count of 1: either the
    copy gets there, or all of it is deleted again and the handle is null. *)
Lemma copy_into_spec X h w w3 p j info size vt fs from v handler :
  let m := REF_COUNT_PREAMBLE_SIZE + size in
  spot X h -> X !! p = None -> holds (<[p := m]> X) w3 -> kept_but X h 12 w w3 ->
  ram w3 !! h = Some (W64 (u64 (p - h))) -> ram w3 !! (h + 8) = Some (W32 j) -> i32 j = info -> ram w3 !! p = Some (W32 1) ->
  shape Ty info = Some (size, vt, fs) -> read_object Ty out_of_block (ram w3) n from info = Some v ->
  (forall w4, ram w4 !! h = Some (W64 (u64 (p - h))) -> ram w4 !! (h + 8) = Some (W32 j) -> h + i64 (u64 (p - h)) = p ->
    handler NotEnoughSpace w4 = (_ <- dec p info ;; _ <- setOffset h (-1) ;; throw NotEnoughSpace) w4) ->
  wpx (try (copy info (getObject p) (getObject from)) handler)
    (fun _ w' => handle_post n X h w (VRef info v) w') (fun e w' => e = NotEnoughSpace /\ handle_fail n X h w w') w3.
Proof.
  intros m Hs Hnone H3 K3 Hh3 Hj3 Hji Hc3 Hsh Hr3 Hcatch. destruct (shape_ok _ _ _ _ _ HTy Hsh) as [_ Hsz]. unfold MAX_OBJECT in Hsz.
  set (X1 := <[p := m]> X) in *. assert (Hm : 4 <= m) by (unfold m, REF_COUNT_PREAMBLE_SIZE; lia).
  destruct (distance X w3 h p m) as [Ep Hne]; [done|done|done|lia|].
  assert (Hhp : apart h 12 p m) by (apply (fresh_apart X w3 p m); [done|done|by apply spot_place]).
  apply wpx_try.
  (* after the copy, done or not *)
  assert (Hpost : forall v' w4, copy_post n X1 p m info w3 v' w4 -> exists D, D ##ₘ X1 /\ D !! p = None /\
    holds (X ∪ <[p := m]> D) w4 /\ <[p := m]> D ##ₘ X /\ kept_but X h 12 w w4 /\
    ram w4 !! h = Some (W64 (u64 (p - h))) /\ ram w4 !! (h + 8) = Some (W32 j) /\
    owned (Ty := Ty) n (ram w4) (<[p := m]> D) p info /\
    (forall x, v' = Some x -> read_object Ty (in_objs (<[p := m]> D)) (ram w4) n p info = Some x)).
  { intros v' w4 (D & Hdj & H4 & K4 & Ho4 & Hv4). exists D.
    assert (HDp : D !! p = None) by (eapply map_disjoint_Some_r; [exact Hdj|apply lookup_insert_eq]).
    assert (K4' : kept_but X h 12 w w4).
    { intros x k Hx Ha. rewrite <- (K3 x k) by done. apply K4; [eapply place_more; [|exact Hx]; by apply insert_subseteq|].
      pose proof (fresh_apart X w3 p m x k H3 Hnone Hx). unfold apart, getObject, REF_COUNT_PREAMBLE_SIZE in *. lia. }
    assert (Ec : cells h 12 (ram w4) = cells h 12 (ram w3)).
    { apply K4; [apply spot_place; eapply spot_more; [|exact Hs]; by apply insert_subseteq|].
      unfold apart, getObject, REF_COUNT_PREAMBLE_SIZE in *. lia. }
    split; [done|]. split; [done|]. split.
    { replace (X ∪ <[p := m]> D) with (X1 ∪ D); [done|]. unfold X1. by rewrite <- insert_union_l, insert_union_r. }
    split; [apply map_disjoint_insert_l; split; [done|]; eapply map_disjoint_weaken_r; [exact Hdj|by apply insert_subseteq]|].
    split; [done|]. split; [eapply cells_word; [symmetry; exact Ec|done|lia|simpl; lia]|].
    split; [eapply cells_word; [symmetry; exact Ec|done|lia|simpl; lia]|]. done. }
  eapply wpx_mono; [apply (IH X1 p m w3 from info v size vt fs H3); try done; apply lookup_insert_eq| |].
  - intros [] w4 Hc. destruct (Hpost _ _ Hc) as (D & _ & HDp & H4 & Hdj & K4 & E1 & E2 & Ho & Hv).
    exists (<[p := m]> D). split; [done|]. split; [done|]. split; [done|]. split.
    + exists (u64 (p - h)), j. do 2 (split; [done|]). right. rewrite Ep, Hji. done.
    + unfold read_handle. rewrite (proj2 (word64_Some _ _ _) E1). simpl. rewrite (proj2 (word32_Some _ _ _) E2). simpl.
      rewrite (proj2 (Z.eqb_neq _ _)) by done. rewrite Ep, Hji, (Hv v eq_refl). done.
  - intros e w4 [-> Hc]. destruct (Hpost _ _ Hc) as (D & _ & HDp & H4 & Hdj & K4 & E1 & E2 & Ho & _).
    destruct (decRefCount_owned HTy Hmode n (<[p := m]> D) p info (X ∪ <[p := m]> D) w4 H4 Ho) as (w5 & E5 & H5 & K5).
    { apply map_union_subseteq_r. done. }
    unfold wpx. rewrite (Hcatch w4 E1 E2 Ep). fold (wpx (_ <- dec p info ;; _ <- setOffset h (-1) ;; @throw World unit NotEnoughSpace)).
    apply wpx_bind. eapply wpx_eq; [exact E5|].
    assert (EX : (X ∪ <[p := m]> D) ∖ <[p := m]> D = X).
    { apply map_eq. intros q. apply option_eq. intros x. rewrite lookup_difference_Some, lookup_union_Some by done. split.
      - intros [[?|Hq] Hn]; [done|]. congruence.
      - intros Hq. split; [by left|]. by eapply map_disjoint_Some_r. }
    rewrite EX in H5, K5. destruct (holds_spot X w5 h (W64 (u64 (-1))) h H5 Hs) as [H6 K6]; [lia|simpl; lia|].
    apply wpx_bind. eapply wpx_eq; [reflexivity|]. apply wpx_throw. split; [done|].
    assert (Ej : ram w5 !! (h + 8) = Some (W32 j)).
    { eapply cells_word; [symmetry; apply (K5 h 12); by apply spot_place|done|lia|simpl; lia]. }
    eapply (fail_null X h w (u64 (-1)) j); [exact H6| |apply write_cell_eq|done|].
    + intros x k Hx Ha. rewrite (K6 x k) by done. rewrite (K5 x k) by done. by apply K4.
    + by apply write_cell_keeps; [|simpl; lia].
Qed.

(** Space for an object that a null handle is then to lead to. *)
Lemma space_for X h w d j size : holds X w -> spot X h -> ram w !! h = Some (W64 d) -> ram w !! (h + 8) = Some (W32 j) ->
  0 <= size < MAX_OBJECT -> let m := REF_COUNT_PREAMBLE_SIZE + size in
  wpx (getRAM m) (fun p w1 => (p = 0 /\ w1 = w) \/ (p <> 0 /\ X !! p = None /\
      let w2 := set_ram (write_cell h (W64 (u64 (p - h)))) w1 in let w3 := set_ram (write_cell p (W32 1)) w2 in
      h + i64 (u64 (p - h)) = p /\ setRefCount p 1 w2 = Ok tt w3 /\ holds (<[p := m]> X) w3 /\ kept_but X h 12 w w3 /\
      apart h 12 p m /\ ram w3 !! h = Some (W64 (u64 (p - h))) /\ ram w3 !! (h + 8) = Some (W32 j) /\ ram w3 !! p = Some (W32 1)))
    (fun e w' => e = NotEnoughSpace /\ w' = w) w.
Proof.
  intros H Hs Hd Hj Hsz m. unfold MAX_OBJECT in Hsz.
  eapply wpx_mono; [apply (holds_get H); unfold m, REF_COUNT_PREAMBLE_SIZE; lia| |done].
  intros p w1 [K1 [[-> ->]|(Hp & Hnone & H1)]]; [by left|]. right. do 2 (split; [done|]). cbv zeta. fold m in H1.
  assert (Hm : 4 <= m) by (unfold m, REF_COUNT_PREAMBLE_SIZE; lia).
  assert (Hs1 : spot (<[p := m]> X) h) by (eapply spot_more; [|exact Hs]; by apply insert_subseteq).
  destruct (distance X w1 h p m) as [Ep Hne]; [done|done|done|lia|].
  destruct (holds_spot (<[p := m]> X) w1 h (W64 (u64 (p - h))) h H1 Hs1) as [H2 K2]; [lia|simpl; lia|].
  set (w2 := set_ram (write_cell h (W64 (u64 (p - h)))) w1) in *.
  destruct (refs_one p m (<[p := m]> X) w2 H2) as [E3 H3]; [apply lookup_insert_eq|done|].
  assert (Hhp : apart h 12 p m) by (apply (fresh_apart X w1 p m); [done|done|by apply spot_place]).
  do 3 (split; [done|]). split.
  { intros x k Hx Ha. simpl. pose proof (fresh_apart X w1 p m x k H1 Hnone Hx).
    rewrite cells_write by (unfold apart in *; simpl; lia). rewrite cells_write by (unfold apart in *; simpl; lia). by apply K1. }
  split; [done|]. unfold w2. simpl. split; [|split; [|by rewrite write_cell_eq]];
    (apply write_cell_keeps; [|unfold apart in Hhp; simpl; lia]); [apply write_cell_eq|].
  apply write_cell_keeps; [|simpl; lia]. eapply cells_word; [symmetry; apply (K1 h 12); by apply spot_place|done|lia|simpl; lia].
Qed.

(** A null handle gets a deep copy, or there is no space and it is null. *)
Lemma copy_deeply_spec X h w d j info size vt fs from v : holds X w -> spot X h ->
  ram w !! h = Some (W64 d) -> i64 d = -1 -> ram w !! (h + 8) = Some (W32 j) -> i32 j = info ->
  shape Ty info = Some (size, vt, fs) -> read_object Ty (source_of h) (ram w) n from info = Some v ->
  wpx (copy_deeply dec copy h info size from (mret tt) (mret tt))
    (fun _ w' => handle_post n X h w (VRef info v) w') (fun e w' => e = NotEnoughSpace /\ handle_fail n X h w w') w.
Proof.
  intros H Hs Hd Hd1 Hj Hji Hsh Hr. destruct (shape_ok _ _ _ _ _ HTy Hsh) as [_ Hsz].
  unfold copy_deeply. apply wpx_bind. eapply wpx_mono; [apply (space_for X h w d j size H Hs Hd Hj Hsz)| |].
  2: { intros e w' [-> ->]. split; [done|]. by apply (fail_null X h w d j). }
  intros p w1 [[-> ->]|(Hp & Hnone & Ep & E3 & H3 & K3 & Hhp & Hh3 & Hj3 & Hc3)].
  { destruct (holds_spot X w h (W64 (u64 (-1))) h H Hs) as [H2 K2]; [lia|simpl; lia|].
    unfold wpx, bind. simpl. split; [done|]. eapply (fail_null X h w (u64 (-1)) j); [exact H2|exact K2|apply write_cell_eq|done|].
    by apply write_cell_keeps; [|simpl; lia]. }
  rewrite (proj2 (Z.eqb_neq _ _)) by done. apply wpx_bind. eapply wpx_eq; [reflexivity|]. apply wpx_bind.
  eapply wpx_eq; [apply target_run; apply write_cell_eq|]. rewrite Ep. apply wpx_bind. eapply wpx_eq; [exact E3|].
  eapply copy_into_spec; try done.
  { apply (source_out h). by eapply source_kept. }
  intros w4 E1 E2 _. erewrite bind_Ok; [|reflexivity]. erewrite bind_Ok; [|by apply target_run]. rewrite Ep.
  erewrite bind_Ok; [|by apply info_run]. rewrite Hji. unfold bind. by destruct (dec p info w4) as [[] ?| | | |].
Qed.

Lemma source_shape h m k o i v : read_object Ty (source_of h) m k o i = Some v ->
  (o < b \/ b + sz <= o) /\ exists size vt fs, shape Ty i = Some (size, vt, fs).
Proof.
  destruct k as [|k]; [done|]. simpl. destruct (shape Ty i) as [[[size vt] fs]|] eqn:E; [|done]. simpl.
  destruct (source_of h (getObject o) size) eqn:Eo; [|done]. intros _. split; [|by exists size, vt, fs].
  destruct (shape_ok _ _ _ _ _ HTy E) as [_ ?].
  unfold source_of, out_of_block, getObject, REF_COUNT_PREAMBLE_SIZE in Eo.
  rewrite andb_true_iff, !orb_true_iff, !Z.leb_le in Eo. lia.
Qed.
Lemma handle_post_after X h w1 w2 v w' : kept_but X h 12 w1 w2 -> handle_post n X h w2 v w' -> handle_post n X h w1 v w'.
Proof.
  intros K (D & ? & ? & K2 & ? & ?). exists D. do 2 (split; [done|]). split; [|done]. by eapply kept_but_trans.
Qed.
Lemma handle_fail_after X h w1 w2 w' : kept_but X h 12 w1 w2 -> handle_fail n X h w2 w' -> handle_fail n X h w1 w'.
Proof. intros K (? & K2 & ?). split; [done|]. split; [by eapply kept_but_trans|done]. Qed.
Lemma null_post X h w w' d j : holds X w' -> kept_but X h 12 w w' -> ram w' !! h = Some (W64 d) -> i64 d = -1 ->
  ram w' !! (h + 8) = Some (W32 j) -> handle_post n X h w VNull w'.
Proof.
  intros H K Hd Hd1 Hj. exists ∅. split; [apply map_disjoint_empty_l|]. rewrite map_union_empty. do 2 (split; [done|]).
  split; [exists d, j; do 2 (split; [done|]); by left|]. unfold read_handle.
  rewrite (proj2 (word64_Some _ _ _) Hd). simpl. rewrite (proj2 (word32_Some _ _ _) Hj). simpl. by rewrite Hd1.
Qed.

(** Assignment to a null handle in the block of a handle to objects out of it. *)
Lemma assign_fresh X h w d j from v : holds X w -> spot X h -> contains h w = Ok true w -> apart from 12 h 12 ->
  ram w !! h = Some (W64 d) -> i64 d = -1 -> ram w !! (h + 8) = Some (W32 j) ->
  read_handle (ram w) (read_object Ty (source_of h) (ram w) n) from = Some v ->
  wpx (assign Ty dec copy h from)
    (fun _ w' => handle_post n X h w v w') (fun e w' => e = NotEnoughSpace /\ handle_fail n X h w w') w.
Proof.
  intros H Hs Hin Hap Hd Hd1 Hj Hr. unfold assign, GET_OLD_TARGET.
  apply wpx_bind, wpx_bind. eapply wpx_eq; [by apply null_run|]. rewrite Hd1. apply wpx_bind, wpx_mret, wpx_bind.
  eapply wpx_eq; [by apply info_run|]. apply wpx_mret. unfold DEC_OLD_REF_COUNT. simpl.
  apply bind_Some in Hr as (df & Hdf & (jf & Hjf & Hv)%bind_Some). apply word64_Some in Hdf. apply word32_Some in Hjf.
  apply wpx_bind. eapply wpx_eq; [by apply null_run|].
  destruct (Z.eqb_spec (i64 df) (-1)) as [E1|Hne].
  - injection Hv as <-. destruct (holds_spot X w h (W64 (u64 (-1))) h H Hs) as [H1 K1]; [lia|simpl; lia|].
    apply wpx_bind, wpx_mret. eapply wpx_eq; [reflexivity|].
    eapply (null_post X h w _ (u64 (-1)) j); [exact H1|exact K1|apply write_cell_eq|done|].
    by apply write_cell_keeps; [|simpl; lia].
  - apply fmap_Some in Hv as (v1 & Hv1 & ->). destruct (source_shape _ _ _ _ _ _ Hv1) as (Hout & size & vt & fs & Hsh).
    apply wpx_bind. eapply wpx_eq; [by apply info_run|].
    destruct (holds_spot X w h (W32 (u32 (i32 jf))) (h + 8) H Hs) as [H1 K1]; [lia|simpl; lia|].
    set (w1 := set_ram (write_cell (h + 8) (W32 (u32 (i32 jf)))) w) in *.
    apply wpx_bind. eapply wpx_eq; [reflexivity|].
    assert (Hw1 : ram w1 !! from = Some (W64 df)) by (apply write_cell_keeps; [done|]; unfold apart in Hap; simpl; lia).
    assert (Hh1 : ram w1 !! h = Some (W64 d)) by (apply write_cell_keeps; [done|]; simpl; lia).
    apply wpx_bind. eapply wpx_eq; [by apply target_run|]. apply wpx_bind. unfold must_copy.
    apply wpx_bind. eapply wpx_eq; [by apply (contains_out _ _ H1)|]. eapply wpx_eq.
    { assert (Hc : b <= h < b + sz).
      { destruct (decide (b <= h < b + sz)) as [?|Hn]; [done|]. rewrite (contains_out _ _ H h) in Hin by lia. done. }
      by apply (contains_in _ _ H1). }
    apply wpx_bind. eapply wpx_eq; [by apply (size_shape (i32 jf) size vt fs)|].
    apply wpx_bind. eapply wpx_mono; [apply (copy_deeply_spec X h w1 d (u32 (i32 jf)) (i32 jf) size vt fs)|..]; try done.
    + apply write_cell_eq.
    + by rewrite i32_u32, i32_i32.
    + by eapply source_kept.
    + intros [] w2 Hp. apply wpx_mret. by eapply handle_post_after.
    + intros e w2 [-> Hf]. split; [done|]. by eapply handle_fail_after.
Qed.

(** The same for strings; a new string has the information 1. *)
Definition string_post (X : gmap Z Z) (h : Z) (w : World) (v : value) (w' : World) : Prop :=
  exists D, D ##ₘ X /\ holds (X ∪ D) w' /\ kept_but X h 12 w w' /\ owned_string (owned (Ty := Ty) n (ram w')) (ram w') D h /\
    read_string (ram w') (read_object Ty (in_objs D) (ram w') n) h = Some v.

Lemma i64_range z : - 2 ^ 63 <= i64 z < 2 ^ 63.
Proof. unfold i64. pose proof (Z.mod_pos_bound (z + 2 ^ 63) (2 ^ 64)). lia. Qed.

Lemma spot_apart X D w h q k : holds (X ∪ D) w -> D ##ₘ X -> spot X h -> D !! q = Some k -> apart q k h 12.
Proof.
  intros H Hdj Hs Hq. assert (Hq' : (X ∪ D) !! q = Some k) by (by apply lookup_union_Some_r).
  destruct Hs as [(o & u & Ho & ? & ?)|[[Ha _] _]]; unfold REF_COUNT_PREAMBLE_SIZE in *.
  - assert (Hne : q <> o) by (intros ->; by eapply map_disjoint_spec). 
    assert (Ho' : (X ∪ D) !! o = Some u) by (by apply lookup_union_Some_l).
    pose proof (apart_objs _ _ H q k o u Hq' Ho' Hne). unfold apart in *. lia.
  - pose proof (inside_block _ _ H q k Hq'). unfold apart in *. lia.
Qed.
Lemma in_objs_same D m m' : same_objs D m m' -> forall x k, in_objs D x k = true -> in_objs D x k = true /\ cells x k m = cells x k m'.
Proof.
  intros HD x k Hx. split; [done|]. unfold in_objs in Hx. destruct (D !! _) as [u|] eqn:E; [|done]. apply Z.leb_le in Hx.
  symmetry. eapply cells_sub; [exact (HD _ _ E)|unfold REF_COUNT_PREAMBLE_SIZE; lia|lia].
Qed.

Lemma string_assign_fresh X h w d j from v : holds X w -> spot X h -> contains h w = Ok true w -> apart from 12 h 12 ->
  place X from 12 ->
  ram w !! h = Some (W64 d) -> ram w !! (h + 8) = Some (W32 j) -> i32 j = 1 ->
  read_string (ram w) (read_object Ty (source_of h) (ram w) n) from = Some v ->
  wpx (String_assign Ty dec copy h from) (fun _ w' => string_post X h w v w')
    (fun e w' => e = NotEnoughSpace /\ holds X w' /\ kept_but X h 12 w w' /\ owned_string (owned (Ty := Ty) n (ram w')) (ram w') ∅ h) w.
Proof.
  intros H Hs Hin Hap Hpl Hd Hj Hj1 Hr. unfold String_assign.
  rewrite (proj2 (Z.eqb_neq _ _)) by (unfold apart in Hap; lia).
  apply bind_Some in Hr as (df & Hdf & (jf & Hjf & Hv)%bind_Some). apply word64_Some in Hdf. apply word32_Some in Hjf.
  apply wpx_bind. eapply wpx_eq; [by apply info_run|]. apply wpx_bind. eapply wpx_eq; [by apply info_run|]. rewrite Hj1.
  apply wpx_bind. destruct (Z.leb_spec 0 (i32 jf)) as [Hge|Hlt].
  - (* a short one *)
    injection Hv as <-. simpl. apply wpx_bind, wpx_mret, wpx_bind. eapply wpx_eq; [by apply offset_run|].
    destruct (holds_spot X w h (W64 (u64 (i64 df))) h H Hs) as [H1 K1]; [lia|simpl; lia|].
    set (w1 := set_ram (write_cell h (W64 (u64 (i64 df)))) w) in *. eapply wpx_eq; [reflexivity|].
    assert (Hf1 : ram w1 !! (from + 8) = Some (W32 jf)) by (apply write_cell_keeps; [done|]; unfold apart in Hap; simpl; lia).
    apply wpx_bind. eapply wpx_eq; [by apply info_run|].
    destruct (holds_spot X w1 h (W32 (u32 (i32 jf))) (h + 8) H1 Hs) as [H2 K2]; [lia|simpl; lia|].
    set (w2 := set_ram (write_cell (h + 8) (W32 (u32 (i32 jf)))) w1) in *. eapply wpx_eq; [reflexivity|].
    change (string_post X h w (VShort (i64 df) (i32 jf)) w2).
    assert (E1 : ram w2 !! h = Some (W64 (u64 (i64 df)))) by (apply write_cell_keeps; [apply write_cell_eq|simpl; lia]).
    assert (E2 : ram w2 !! (h + 8) = Some (W32 (u32 (i32 jf)))) by apply write_cell_eq.
    clearbody w2. exists ∅. split; [apply map_disjoint_empty_l|]. rewrite map_union_empty. split; [done|].
    split; [by eapply kept_but_trans|]. split.
    + exists (u32 (i32 jf)). split; [done|]. left. rewrite i32_u32, i32_i32. split; [lia|done].
    + unfold read_string. rewrite (proj2 (word64_Some _ _ _) E1). simpl. rewrite (proj2 (word32_Some _ _ _) E2). simpl.
      rewrite i32_u32, i32_i32, (proj2 (Z.leb_le _ _)) by done. pose proof (i64_range df). by rewrite i64_u64.
  - (* a long one *)
    destruct (Z.eqb_spec (i32 jf) (-1)); [done|]. destruct (Z.eqb_spec (i64 df) (-1)); [done|]. simpl in Hv. simpl.
    destruct (holds_spot X w h (W64 (u64 (-1))) h H Hs) as [H1 K1]; [lia|simpl; lia|].
    set (w1 := set_ram (write_cell h (W64 (u64 (-1)))) w) in *. apply wpx_bind. eapply wpx_eq; [reflexivity|].
    assert (Hf1 : ram w1 !! from = Some (W64 df)) by (apply write_cell_keeps; [done|]; unfold apart in Hap; simpl; lia).
    assert (Hf2 : ram w1 !! (from + 8) = Some (W32 jf)) by (apply write_cell_keeps; [done|]; unfold apart in Hap; simpl; lia).
    apply fmap_Some in Hv as (v1 & Hv1 & ->).
    eapply wpx_mono; [apply (assign_fresh X h w1 (u64 (-1)) j from (VRef (i32 jf) v1))|..]; try done.
    + assert (Hc : b <= h < b + sz).
      { destruct (decide (b <= h < b + sz)) as [?|Hn]; [done|]. rewrite (contains_out _ _ H h) in Hin by lia. done. }
      by apply (contains_in _ _ H1).
    + apply write_cell_eq.
    + by apply write_cell_keeps; [|simpl; lia].
    + clearbody w1. unfold read_handle. rewrite (proj2 (word64_Some _ _ _) Hf1). simpl. rewrite (proj2 (word32_Some _ _ _) Hf2). simpl.
      rewrite (proj2 (Z.eqb_neq _ _)) by done. rewrite (source_kept X h n w w1 _ _ v1 K1 Hv1). done.
    + intros [] w2 (D & Hdj & H2 & K2 & Ho & Hrd).
      assert (K12 : kept_but X h 12 w w2) by (by eapply kept_but_trans).
      assert (Hf3 : ram w2 !! (from + 8) = Some (W32 jf)).
      { eapply cells_word; [symmetry; apply (K12 from 12)|..]; simpl; try done; lia. }
      apply wpx_bind. eapply wpx_eq; [by apply info_run|].
      assert (Hs2 : spot (X ∪ D) h) by (eapply spot_more; [|exact Hs]; by apply map_union_subseteq_l).
      destruct (holds_spot (X ∪ D) w2 h (W32 (u32 (i32 jf))) (h + 8) H2 Hs2) as [H3 K3]; [lia|simpl; lia|].
      assert (HD : same_objs D (ram w2) (write_cell (h + 8) (W32 (u32 (i32 jf))) (ram w2))).
      { intros q k Hq. apply K3; [apply place_whole; by apply lookup_union_Some_r|].
        by eapply (spot_apart X D w2). }
      set (w3 := set_ram (write_cell (h + 8) (W32 (u32 (i32 jf)))) w2) in *. eapply wpx_eq; [reflexivity|].
      change (string_post X h w (VRef (i32 jf) v1) w3).
      destruct Ho as (d2 & j2 & Hd2 & Hj2 & Hc). unfold read_handle in Hrd.
      rewrite (proj2 (word64_Some _ _ _) Hd2) in Hrd. simpl in Hrd. rewrite (proj2 (word32_Some _ _ _) Hj2) in Hrd. simpl in Hrd.
      destruct (Z.eqb_spec (i64 d2) (-1)) as [|Hne2]; [done|]. apply fmap_Some in Hrd as (v2 & Hrd & [= Ei ->]).
      destruct Hc as [[? _]|[_ Ho]]; [done|].
      assert (E1 : ram w3 !! h = Some (W64 d2)) by (by apply write_cell_keeps; [|simpl; lia]).
      assert (E2 : ram w3 !! (h + 8) = Some (W32 (u32 (i32 jf)))) by apply write_cell_eq.
      exists D. split; [done|]. split; [done|]. split.
      { eapply (kept_but_trans X (X ∪ D)); [by apply map_union_subseteq_l|exact K12|exact K3]. }
      change (same_objs D (ram w2) (ram w3)) in HD. clearbody w3. split.
      * exists (u32 (i32 jf)). split; [done|]. right. rewrite i32_u32, i32_i32. split; [lia|]. exists d2, (u32 (i32 jf)).
        do 2 (split; [done|]). right. rewrite i32_u32, i32_i32, Ei. split; [done|]. by eapply (owned_frame HTy n n).
      * unfold read_string. rewrite (proj2 (word64_Some _ _ _) E1). simpl. rewrite (proj2 (word32_Some _ _ _) E2). simpl.
        rewrite i32_u32, i32_i32, (proj2 (Z.leb_gt _ _)) by lia. rewrite (proj2 (Z.eqb_neq (i32 jf) _)) by done.
        rewrite (proj2 (Z.eqb_neq (i64 d2) _)) by done. simpl. rewrite Ei.
        rewrite (read_object_same HTy _ _ _ _ n n _ _ _ (in_objs_same D (ram w2) (ram w3) HD) (Nat.le_refl n) Hrd). done.
    + intros e w2 [-> Hf]. destruct Hf as (H2 & K2 & Ho). split; [done|]. split; [done|].
      split; [by eapply kept_but_trans|]. destruct Ho as (d2 & j2 & Hd2 & Hj2 & Hc). exists j2. split; [done|].
      destruct (decide (-1 <= i32 j2)); [by left|]. right. split; [lia|]. by exists d2, j2.
Qed.

(** *** Fields *)

Lemma read_field_weaken (m : memory) read read' obj f v : (forall o i x, read o i = Some x -> read' o i = Some x) ->
  read_field m read obj f = Some v -> read_field m read' obj f = Some v.
Proof.
  intros Hr. destruct f as [off k|off code|off]; simpl; [done|..].
  - unfold read_handle. intros (d & -> & (j & Hj & Hv)%bind_Some)%bind_Some. simpl. rewrite Hj. simpl.
    destruct (_ =? _); [done|]. apply fmap_Some in Hv as (x & Hx & ->). by rewrite (Hr _ _ _ Hx).
  - unfold read_string. intros (d & -> & (j & Hj & Hv)%bind_Some)%bind_Some. simpl. rewrite Hj. simpl.
    destruct (_ <=? _); [done|]. destruct (_ || _); [done|]. apply fmap_Some in Hv as (x & Hx & ->). by rewrite (Hr _ _ _ Hx).
Qed.
(** The value of a field whose bytes and objects are as they were. *)
Lemma read_field_same (m m' : memory) ok ok' obj k f v : (forall x j, ok x j = true -> ok' x j = true /\ cells x j m = cells x j m') ->
  cells obj k m = cells obj k m' -> 0 <= field_off f -> 0 <= field_len f -> field_off f + field_len f <= k ->
  read_field m (read_object Ty ok m n) obj f = Some v -> read_field m' (read_object Ty ok' m' n) obj f = Some v.
Proof.
  intros Hok E ? ? ? Hr. rewrite <- (Z.add_0_r obj). eapply (read_field_moved (d := 0)); [|rewrite Z.add_0_r; by apply content_same|done..|exact Hr].
  intros o i x Hx. rewrite Z.add_0_r. exact (read_object_same HTy _ _ _ _ n n _ _ _ Hok (Nat.le_refl n) Hx).
Qed.

(** A field of an object that has just been constructed. *)
Definition fresh_field (m : memory) (obj : Z) (f : field) : Prop :=
  match f with
  | Plain _ _ => True
  | Member off _ => exists d j, m !! (obj + off) = Some (W64 d) /\ i64 d = -1 /\ m !! (obj + off + 8) = Some (W32 j)
  | Str off => exists d j, m !! (obj + off) = Some (W64 d) /\ m !! (obj + off + 8) = Some (W32 j) /\ i32 j = 1
  end.
Lemma fresh_owned m own obj f : fresh_field m obj f -> owned_field own m ∅ obj f.
Proof.
  destruct f as [off k|off code|off]; simpl; [done|..].
  - intros (d & j & ? & ? & ?). exists d, j. do 2 (split; [done|]). by left.
  - intros (d & j & _ & ? & ?). exists j. split; [done|]. left. split; [lia|done].
Qed.
Lemma fresh_fields_owned m own obj fs : Forall (fresh_field m obj) fs -> owned_fields own m ∅ obj fs.
Proof.
  induction 1 as [|f fs Hf _ IHf]; simpl; [done|]. exists ∅, ∅. rewrite map_union_empty. split; [done|].
  split; [apply map_disjoint_empty_l|]. split; [by apply fresh_owned|done].
Qed.
Lemma fresh_same m m' obj k f : cells obj k m' = cells obj k m -> 0 <= field_off f -> field_off f + field_len f <= k ->
  fresh_field m obj f -> fresh_field m' obj f.
Proof.
  intros E ? ?. destruct f as [off l|off code|off]; simpl in *; [done|..].
  - intros (d & j & Hd & ? & Hj). exists d, j. split; [eapply cells_word; [symmetry; exact E|done|lia|simpl; lia]|].
    split; [done|]. eapply cells_word; [symmetry; exact E|done|lia|simpl; lia].
  - intros (d & j & Hd & Hj & ?). exists d, j. split; [eapply cells_word; [symmetry; exact E|done|lia|simpl; lia]|].
    split; [|done]. eapply cells_word; [symmetry; exact E|done|lia|simpl; lia].
Qed.
Lemma owned_fields_app m own D1 D2 obj fs1 fs2 : owned_fields own m D1 obj fs1 -> owned_fields own m D2 obj fs2 -> D1 ##ₘ D2 ->
  owned_fields own m (D1 ∪ D2) obj (fs1 ++ fs2).
Proof.
  revert D1. induction fs1 as [|f fs1 IHf]; intros D1 H1 H2 Hdj; simpl in *.
  - subst D1. by rewrite map_empty_union.
  - destruct H1 as (E1 & E2 & -> & Hdj1 & Hf & H1). apply map_disjoint_union_l in Hdj as [Hd1 Hd2].
    exists E1, (E2 ∪ D2). rewrite map_union_assoc. split; [done|]. split; [by apply map_disjoint_union_r|]. split; [done|]. by apply IHf.
Qed.

Section object.
Context (X : gmap Z Z) (o u : Z) (HX : X !! o = Some u).
Notation obj := (getObject o).

Lemma place_inside x k : o <= x -> x + k <= o + u -> place X x k.
Proof. intros ? ?. right. by exists o, u. Qed.
Lemma field_spot Y off : Y !! o = Some u -> 0 <= off -> REF_COUNT_PREAMBLE_SIZE + off + 12 <= u -> spot Y (obj + off).
Proof. intros ? ? ?. left. exists o, u. unfold getObject, REF_COUNT_PREAMBLE_SIZE in *. split; [done|lia]. Qed.

Lemma construct_field_spec f w : holds X w -> 0 <= field_off f -> REF_COUNT_PREAMBLE_SIZE + field_off f + field_len f <= u ->
  exists w', construct_field obj f w = Ok tt w' /\ holds X w' /\ kept_but X (obj + field_off f) (field_len f) w w' /\
    fresh_field (ram w') obj f.
Proof.
  intros H Hoff Hlen. destruct f as [off k|off code|off]; simpl in *.
  - exists w. split; [done|]. split; [done|]. split; [by intros x j|done].
  - assert (Hs : spot X (obj + off)) by (by apply field_spot).
    destruct (holds_spot X w (obj + off) (W32 (u32 code)) (obj + off + 8) H Hs) as [H1 K1]; [lia|simpl; lia|].
    destruct (holds_spot X _ (obj + off) (W64 (u64 (-1))) (obj + off) H1 Hs) as [H2 K2]; [lia|simpl; lia|].
    eexists. split; [reflexivity|]. split; [exact H2|]. split; [by eapply kept_but_trans|].
    exists (u64 (-1)), (u32 code). split; [apply write_cell_eq|]. split; [done|].
    apply write_cell_keeps; [apply write_cell_eq|]. simpl. lia.
  - assert (Hs : spot X (obj + off)) by (by apply field_spot).
    destruct (holds_spot X w (obj + off) (W32 (u32 1)) (obj + off + 8) H Hs) as [H1 K1]; [lia|simpl; lia|].
    destruct (holds_spot X _ (obj + off) (W64 (u64 (-1))) (obj + off) H1 Hs) as [H2 K2]; [lia|simpl; lia|].
    destruct (holds_spot X _ (obj + off) (W64 (u64 (-256))) (obj + off) H2 Hs) as [H3 K3]; [lia|simpl; lia|].
    eexists. split; [reflexivity|]. split; [exact H3|]. split; [eapply kept_but_trans; [|by eapply kept_but_trans|exact K3]; done|].
    exists (u64 (-256)), (u32 1). split; [apply write_cell_eq|]. split; [|done].
    apply write_cell_keeps; [|simpl; lia]. apply write_cell_keeps; [apply write_cell_eq|]. simpl. lia.
Qed.
Lemma construct_fields_spec fs lo size w : holds X w -> fields_ok lo size fs -> 0 <= lo -> REF_COUNT_PREAMBLE_SIZE + size <= u ->
  exists w', for_each fs (construct_field obj) w = Ok tt w' /\ holds X w' /\ kept_but X (obj + lo) (size - lo) w w' /\
    Forall (fresh_field (ram w') obj) fs.
Proof.
  revert lo w. induction fs as [|f fs IHf]; intros lo w H Hf Hlo Hu; simpl.
  - exists w. split; [done|]. split; [done|]. split; [by intros x j|done].
  - destruct (fields_inside _ _ _ f Hf) as (Hq1 & Hq2 & Hq3); [by left|]. destruct Hf as (_ & _ & Hf).
    destruct (construct_field_spec f w H) as (w1 & E1 & H1 & K1 & F1); [lia|lia|].
    destruct (IHf _ w1 H1 Hf) as (w2 & E2 & H2 & K2 & F2); [lia|lia|].
    exists w2. split; [erewrite bind_Ok; [|exact E1]; exact E2|]. split; [done|]. split.
    + eapply (kept_but_trans X X); [done|eapply kept_but_sub; [| |exact K1]; lia|eapply kept_but_sub; [| |exact K2]; lia].
    + constructor; [|done]. eapply fresh_same; [|lia|apply Z.le_refl|exact F1].
      apply K2; [apply place_inside|]; unfold apart, getObject, REF_COUNT_PREAMBLE_SIZE in *; lia.
Qed.

(** Objects of the block do not overlap with what is out of it. *)
Lemma out_apart Y w x k : holds Y w -> out_of_block x k = true -> apart x k b sz.
Proof.
  intros _ Hx. unfold out_of_block, REF_COUNT_PREAMBLE_SIZE in Hx. rewrite orb_true_iff, !Z.leb_le in Hx. unfold apart. lia.
Qed.

Definition field_post (Y : gmap Z Z) (f : field) (w : World) (v : option value) (w' : World) : Prop :=
  exists D, D ##ₘ Y /\ holds (Y ∪ D) w' /\ kept_but Y (obj + field_off f) (field_len f) w w' /\
    owned_field (owned (Ty := Ty) n (ram w')) (ram w') D obj f /\
    (forall x, v = Some x -> read_field (ram w') (read_object Ty (in_objs D) (ram w') n) obj f = Some x).
Lemma field_post_none Y f w w' : holds Y w' -> kept_but Y (obj + field_off f) (field_len f) w w' ->
  owned_field (owned (Ty := Ty) n (ram w')) (ram w') ∅ obj f -> field_post Y f w None w'.
Proof. intros ? ? ?. exists ∅. rewrite map_union_empty. split; [apply map_disjoint_empty_l|]. done. Qed.

Lemma assign_field_spec Y f sobj ssize v w : holds Y w -> Y !! o = Some u -> 0 <= field_off f -> 0 <= field_len f ->
  REF_COUNT_PREAMBLE_SIZE + field_off f + field_len f <= u -> field_off f + field_len f <= ssize ->
  out_of_block sobj ssize = true -> fresh_field (ram w) obj f ->
  read_field (ram w) (read_object Ty out_of_block (ram w) n) sobj f = Some v ->
  wpx (assign_field Ty dec copy obj sobj f) (fun _ w' => field_post Y f w (Some v) w')
    (fun e w' => e = NotEnoughSpace /\ field_post Y f w None w') w.
Proof.
  intros H HY Hoff Hlen Hu Hss Hout Hfr Hr. pose proof (inside_block _ _ H o u HY) as (Hb1 & Hb2 & Hb3).
  pose proof (out_apart Y w _ _ H Hout) as Hoa.
  assert (Hsrc : forall h, h = obj + field_off f -> field_len f = 12 -> forall p i x,
    read_object Ty out_of_block (ram w) n p i = Some x -> read_object Ty (source_of h) (ram w) n p i = Some x).
  { intros h -> Hl12 p i x. apply (read_object_same HTy); [|done]. intros y k Hy. split; [|done]. unfold source_of. rewrite Hy. simpl.
    unfold out_of_block, getObject, REF_COUNT_PREAMBLE_SIZE in *. rewrite orb_true_iff, !Z.leb_le in *. lia. }
  destruct f as [off k|off code|off]; simpl in *.
  - injection Hr as <-. eapply wpx_eq; [reflexivity|]. exists ∅. split; [apply map_disjoint_empty_l|]. rewrite map_union_empty.
    split; [|split; [|split; [done|]]].
    + apply (holds_over _ _ H (obj + off) k); [apply move_at|]. left. exists o, u. split; [done|].
      unfold getObject, REF_COUNT_PREAMBLE_SIZE in *. lia.
    + intros x j _ Ha. by apply cells_move.
    + intros x [= <-]. simpl. f_equal. f_equal.
      pose proof (content_move (sobj + off) (obj + off) k 0 k (ram w)) as E. rewrite !Z.add_0_r in E. apply E; lia.
  - destruct Hfr as (d & j & Hd & Hd1 & Hj).
    eapply wpx_mono; [apply (assign_fresh Y (obj + off) w d j (sobj + off) v)|..]; try done.
    + by apply field_spot.
    + apply (contains_in _ _ H). unfold getObject, REF_COUNT_PREAMBLE_SIZE in *. lia.
    + unfold apart, getObject, REF_COUNT_PREAMBLE_SIZE in *. lia.
    + apply (read_field_weaken (ram w) (read_object Ty out_of_block (ram w) n) _ sobj (Member off code)); [|done].
      by apply Hsrc.
    + intros [] w' (D & ? & ? & ? & ? & Hv). exists D. do 4 (split; [done|]). by intros x [= <-].
    + intros e w' [-> (? & ? & ?)]. split; [done|]. by apply field_post_none.
  - destruct Hfr as (d & j & Hd & Hj & Hj1).
    eapply wpx_mono; [apply (string_assign_fresh Y (obj + off) w d j (sobj + off) v)|..]; try done.
    + by apply field_spot.
    + apply (contains_in _ _ H). unfold getObject, REF_COUNT_PREAMBLE_SIZE in *. lia.
    + unfold apart, getObject, REF_COUNT_PREAMBLE_SIZE in *. lia.
    + left. unfold apart in *. lia.
    + apply (read_field_weaken (ram w) (read_object Ty out_of_block (ram w) n) _ sobj (Str off)); [|done]. by apply Hsrc.
    + intros [] w' (D & ? & ? & ? & ? & Hv). exists D. do 4 (split; [done|]). by intros x [= <-].
    + intros e w' [-> (? & ? & ?)]. split; [done|]. by apply field_post_none.
Qed.

Definition fields_post (w0 : World) (size : Z) (fs : list field) (vs : option (list value)) (w' : World) : Prop :=
  exists D, D ##ₘ X /\ holds (X ∪ D) w' /\ kept_but X obj size w0 w' /\
    owned_fields (owned (Ty := Ty) n (ram w')) (ram w') D obj fs /\
    (forall l, vs = Some l -> Forall2 (fun f x => read_field (ram w') (read_object Ty (in_objs D) (ram w') n) obj f = Some x) fs l).

Lemma assign_fields_spec fs sobj ssize size w0 : REF_COUNT_PREAMBLE_SIZE + size <= u -> size <= ssize ->
  out_of_block sobj ssize = true ->
  forall pre vpre lo vs w, fields_ok 0 lo pre -> fields_ok lo size fs -> 0 <= lo ->
  fields_post w0 size pre (Some vpre) w -> Forall (fresh_field (ram w) obj) fs ->
  Forall2 (fun f x => read_field (ram w) (read_object Ty out_of_block (ram w) n) sobj f = Some x) fs vs ->
  wpx (for_each fs (assign_field Ty dec copy obj sobj)) (fun _ w' => fields_post w0 size (pre ++ fs) (Some (vpre ++ vs)) w')
    (fun e w' => e = NotEnoughSpace /\ fields_post w0 size (pre ++ fs) None w') w.
Proof.
  intros Hu Hss Hout. induction fs as [|f fs IHf]; intros pre vpre lo vs w Hpre Hf Hlo Hp Hfr Hrd; simpl.
  { apply Forall2_nil_inv_l in Hrd as ->. apply wpx_mret. by rewrite !app_nil_r. }
  apply Forall2_cons_inv_l in Hrd as (v & vs' & Hv & Hvs & ->). apply Forall_cons in Hfr as [Hf1 Hfr].
  destruct (fields_inside _ _ _ f Hf) as (Hq1 & Hq2 & Hq3); [by left|]. destruct Hf as (_ & _ & Hf).
  destruct Hp as (D & Hdj & H & K & Ho & Hr).
  assert (HY : (X ∪ D) !! o = Some u) by (by apply lookup_union_Some_l).
  assert (Hpl : forall x k, o <= x -> x + k <= o + u -> place (X ∪ D) x k) by (intros x k ? ?; right; by exists o, u).
  pose proof (inside_block _ _ H o u HY) as (Hb1 & Hb2 & Hb3).
  assert (HYX : X ⊆ X ∪ D) by by apply map_union_subseteq_l.
  (* what one field leaves of the others *)
  assert (Hstep : forall v' w', field_post (X ∪ D) f w v' w' -> exists D', D' ##ₘ X /\ D ⊆ D' /\ holds (X ∪ D') w' /\ kept_but X obj size w0 w' /\
    owned_fields (owned (Ty := Ty) n (ram w')) (ram w') D' obj (pre ++ [f]) /\ Forall (fresh_field (ram w') obj) fs /\
    (forall x, v' = Some x -> Forall2 (fun f x => read_field (ram w') (read_object Ty (in_objs D') (ram w') n) obj f = Some x)
       (pre ++ [f]) (vpre ++ [x])) /\
    Forall2 (fun f x => read_field (ram w') (read_object Ty out_of_block (ram w') n) sobj f = Some x) fs vs').
  { intros v' w' (D1 & Hdj1 & H1 & K1 & Ho1 & Hv1). apply map_disjoint_union_r in Hdj1 as [HdX HdD].
    assert (HD : same_objs D (ram w) (ram w')).
    { intros q k Hq. apply K1; [apply place_whole; by apply lookup_union_Some_r|].
      assert (Hne : q <> o) by (intros ->; exact (proj1 (map_disjoint_spec D X) Hdj o k u Hq HX)).
      pose proof (apart_objs _ _ H q k o u (ltac:(by apply lookup_union_Some_r)) HY Hne) as Ha.
      unfold apart, getObject, REF_COUNT_PREAMBLE_SIZE in *. lia. }
    assert (Epre : cells obj lo (ram w') = cells obj lo (ram w)).
    { apply K1; [apply Hpl|]; unfold apart, getObject, REF_COUNT_PREAMBLE_SIZE in *; lia. }
    exists (D ∪ D1). split; [by apply map_disjoint_union_l|]. split; [by apply map_union_subseteq_l|].
    rewrite map_union_assoc. split; [done|]. split.
    { eapply (kept_but_trans X (X ∪ D)); [done|exact K|]. eapply kept_but_sub; [| |exact K1]; lia. }
    split; [|split; [|split]].
    - apply owned_fields_app; [|simpl; exists D1, ∅; rewrite map_union_empty; split; [done|]; split; [apply map_disjoint_empty_r|done]|done].
      eapply (owned_fields_frame (fun D o i => owned_frame HTy n n (ram w) (ram w') D o i (Nat.le_refl n)));
        [exact Hpre|done|exact Epre|exact HD|exact Ho].
    - rewrite Forall_forall in Hfr |- *. intros g Hg. pose proof (Hfr g Hg) as Hgf. destruct (fields_inside _ _ _ g Hf Hg) as (? & ? & ?).
      destruct g as [goff gl|goff gc|goff]; simpl in *; [done|..].
      + destruct Hgf as (d & j & Hd & ? & Hj). exists d, j.
        assert (E : cells (obj + goff) 12 (ram w') = cells (obj + goff) 12 (ram w)).
        { apply K1; [apply Hpl|]; unfold apart, getObject, REF_COUNT_PREAMBLE_SIZE in *; lia. }
        split; [eapply cells_word; [symmetry; exact E|done|lia|simpl; lia]|]. split; [done|].
        eapply cells_word; [symmetry; exact E|done|lia|simpl; lia].
      + destruct Hgf as (d & j & Hd & Hj & ?). exists d, j.
        assert (E : cells (obj + goff) 12 (ram w') = cells (obj + goff) 12 (ram w)).
        { apply K1; [apply Hpl|]; unfold apart, getObject, REF_COUNT_PREAMBLE_SIZE in *; lia. }
        split; [eapply cells_word; [symmetry; exact E|done|lia|simpl; lia]|]. split; [|done].
        eapply cells_word; [symmetry; exact E|done|lia|simpl; lia].
    - intros x ->. specialize (Hv1 x eq_refl). apply Forall2_app; [|constructor; [|done]].
      + specialize (Hr vpre eq_refl). apply Forall2_same_length_lookup_2; [by eapply Forall2_length|].
        intros i g y Hg Hy. pose proof (Forall2_lookup_lr _ _ _ _ _ _ Hr Hg Hy) as Hgy. simpl in Hgy.
        destruct (fields_inside _ _ _ g Hpre) as (? & ? & ?); [by eapply list_elem_of_lookup_2|].
        eapply (read_field_same (ram w) (ram w') (in_objs D) _ obj lo); [|symmetry; exact Epre|lia|lia|lia|exact Hgy].
        intros z k Hz. destruct (in_objs_same D (ram w) (ram w') HD z k Hz) as [_ E]. split; [|exact E].
        unfold in_objs in *. destruct (D !! _) as [q|] eqn:Eq; [|done]. by rewrite (lookup_union_Some_l _ _ _ _ Eq).
      + eapply read_field_weaken; [|exact Hv1]. intros p i y. apply (read_object_same HTy); [|done]. intros z k Hz. split; [|done].
        unfold in_objs in *. destruct (D1 !! _) as [q|] eqn:Eq; [|done]. by rewrite (lookup_union_Some_r D D1 _ q).
    - apply Forall2_same_length_lookup_2; [by eapply Forall2_length|].
      intros i g y Hg Hy. pose proof (Forall2_lookup_lr _ _ _ _ _ _ Hvs Hg Hy) as Hgy. simpl in Hgy.
      destruct (fields_inside _ _ _ g Hf) as (? & ? & ?); [by eapply list_elem_of_lookup_2|].
      assert (Hout' : forall x k, out_of_block x k = true -> cells x k (ram w) = cells x k (ram w')).
      { intros x k Hx. symmetry. pose proof (out_apart _ _ _ _ H Hx). apply K1; [by left|].
        unfold apart, getObject, REF_COUNT_PREAMBLE_SIZE in *. lia. }
      eapply (read_field_same (ram w) (ram w') out_of_block _ sobj ssize); [|by apply Hout'|lia|lia|lia|exact Hgy].
      intros x k Hx. split; [done|]. by apply Hout'. }
  apply wpx_bind. eapply wpx_mono; [apply (assign_field_spec (X ∪ D) f sobj ssize v w H HY); try done; lia| |].
  - intros [] w' Hp. destruct (Hstep _ _ Hp) as (D' & ? & ? & ? & ? & ? & Hfr' & Hr' & Hvs').
    replace (pre ++ f :: fs) with ((pre ++ [f]) ++ fs) by by rewrite <- app_assoc.
    replace (vpre ++ v :: vs') with ((vpre ++ [v]) ++ vs') by by rewrite <- app_assoc.
    apply (IHf _ _ (field_off f + field_len f)); [|done|lia| |done|done].
    + clear -Hpre Hq1 Hq2 Hlo. revert Hpre. generalize 0. induction pre as [|g pre IHp]; intros z Hz; simpl in *; [lia|].
      destruct Hz as (? & ? & Hz). split; [done|]. split; [done|]. by apply IHp.
    + exists D'. do 4 (split; [done|]). intros l [= <-]. by apply Hr'.
  - intros e w' [-> Hp]. split; [done|]. destruct (Hstep _ _ Hp) as (D' & ? & ? & ? & ? & Ho' & Hfr' & _).
    exists D'. do 3 (split; [done|]). split; [|done].
    replace (pre ++ f :: fs) with ((pre ++ [f]) ++ fs) by by rewrite <- app_assoc.
    rewrite <- (map_union_empty D'). apply owned_fields_app; [done|by apply fresh_fields_owned|apply map_disjoint_empty_r].
Qed.
End object.

(** One level more. *)
Lemma copies_next : copies (Datatypes.S n).
Proof.
  intros X o u w src info v size vt fs H HX Hsh Hu Hc Hr.
  destruct (shape_ok _ _ _ _ _ HTy Hsh) as [Hfs Hsz]. pose proof (inside_block _ _ H o u HX) as (Hb1 & Hb2 & Hb3).
  unfold wpx. rewrite (copy_shape _ _ _ _ _ _ _ _ Hsh).
  change (wpx (_ <- store_vtable vt (getObject o) ;; _ <- for_each fs (construct_field (getObject o)) ;;
    for_each fs (assign_field Ty dec copy (getObject o) (getObject src)))
    (fun _ w' => copy_post (Datatypes.S n) X o u info w (Some v) w')
    (fun e w' => e = NotEnoughSpace /\ copy_post (Datatypes.S n) X o u info w None w') w).
  simpl in Hr. rewrite Hsh in Hr. simpl in Hr. destruct (out_of_block (getObject src) size) eqn:Hout; [|done].
  apply fmap_Some in Hr as (vs & Hvs & ->). apply mapM_Some in Hvs.
  set (lo := if vt then 8 else 0) in *. assert (Hlo : 0 <= lo) by (unfold lo; by destruct vt).
  assert (Hvt : exists w1, store_vtable vt (getObject o) w = Ok tt w1 /\ holds X w1 /\ kept_but X (getObject o) lo w w1).
  { destruct vt as [a|]; [|exists w; split; [done|]; split; [done|by intros x k]].
    eexists. split; [reflexivity|]. assert (Hsz8 : 8 <= size).
    { clear -Hfs. unfold lo in Hfs. revert Hfs. generalize 8. induction fs as [|f l IHl]; intros z; simpl; [done|].
      intros (? & ? & Hl). apply IHl in Hl. lia. }
    split.
    - apply (holds_over _ _ H (getObject o) 8); [apply (store_at (getObject o) (W64 a))|]. left. exists o, u. split; [done|].
      unfold getObject, REF_COUNT_PREAMBLE_SIZE in *. lia.
    - intros x k _ Ha. by apply cells_write. }
  destruct Hvt as (w1 & E1 & H1 & K1).
  apply wpx_bind. eapply wpx_eq; [exact E1|].
  destruct (construct_fields_spec X o u HX fs lo size w1 H1 Hfs Hlo Hu) as (w2 & E2 & H2 & K2 & F2).
  apply wpx_bind. eapply wpx_eq; [exact E2|].
  assert (Hlos : lo <= size).
  { clear -Hfs. revert Hfs. generalize lo. induction fs as [|f l IHl]; intros z; simpl; [done|].
    intros (? & ? & Hl). apply IHl in Hl. lia. }
  assert (K02 : kept_but X (getObject o) size w w2).
  { eapply (kept_but_trans X X); [done|eapply kept_but_sub; [| |exact K1]; lia|eapply kept_but_sub; [| |exact K2]; lia]. }
  assert (Hout2 : forall x k, out_of_block x k = true -> cells x k (ram w) = cells x k (ram w2)).
  { intros x k Hx. symmetry. pose proof (out_apart X w x k H Hx). apply K02; [by left|].
    unfold apart, getObject, REF_COUNT_PREAMBLE_SIZE in *. lia. }
  (* what is left when the members are done *)
  assert (Hend : forall vs' w3, fields_post X o w size fs vs' w3 -> copy_post (Datatypes.S n) X o u info w (VObject <$> vs') w3).
  { intros vs' w3 (D & Hdj & H3 & K3 & Ho & Hv). exists D. split; [done|]. split; [done|]. split.
    { eapply kept_but_sub; [| |exact K3]; lia. }
    assert (HDo : D !! o = None) by (eapply map_disjoint_Some_r; [exact Hdj|exact HX]). split.
    - exists u, D, size, vt, fs. split; [done|]. split; [done|]. split; [|done].
      eapply (cells_word o 4); [|exact Hc|lia|simpl; lia]. symmetry. apply K3.
      + right. exists o, u. split; [done|]. unfold REF_COUNT_PREAMBLE_SIZE in *. lia.
      + unfold apart, getObject, REF_COUNT_PREAMBLE_SIZE. lia.
    - intros x Hx. apply fmap_Some in Hx as (l & -> & ->). simpl. rewrite Hsh. simpl.
      unfold in_objs at 1. replace (getObject o - REF_COUNT_PREAMBLE_SIZE) with o by (unfold getObject; lia).
      rewrite lookup_insert_eq, (proj2 (Z.leb_le _ _)) by done. apply fmap_Some. exists l. split; [|done]. apply mapM_Some.
      eapply Forall2_impl; [by apply Hv|]. intros f y. apply read_field_weaken. intros p i z.
      apply (read_object_same HTy); [|done]. intros q k Hq. split; [|done]. unfold in_objs in *.
      destruct (D !! (q - REF_COUNT_PREAMBLE_SIZE)) as [r|] eqn:Er; [|discriminate Hq].
      rewrite lookup_insert_ne by (intros E; rewrite <- E in Er; congruence). by rewrite Er. }
  eapply wpx_mono; [apply (assign_fields_spec X o u HX fs (getObject src) size size w Hu (Z.le_refl size) Hout [] [] lo vs w2)|..].
  - simpl. done.
  - done.
  - done.
  - exists ∅. split; [apply map_disjoint_empty_l|]. rewrite map_union_empty. do 3 (split; [done|]). by intros l [= <-].
  - done.
  - apply Forall2_same_length_lookup_2; [by eapply Forall2_length|]. intros i f y Hf Hy.
    pose proof (Forall2_lookup_lr _ _ _ _ _ _ Hvs Hf Hy) as Hfy. simpl in Hfy.
    destruct (fields_inside _ _ _ f Hfs) as (? & ? & ?); [by eapply list_elem_of_lookup_2|].
    eapply (read_field_same (ram w) (ram w2) out_of_block _ _ size); [|by apply Hout2|lia|lia|lia|exact Hfy].
    intros x k Hx. split; [done|]. by apply Hout2.
  - intros [] w3 Hp. by apply (Hend (Some vs)).
  - intros e w3 [-> Hp]. split; [done|]. by apply (Hend None).
Qed.
End level.

(** Objects out of the block are copied into it, or there is no space and
    everything that was created for it can be deleted. *)
Lemma copies_all n : copies n.
Proof. induction n as [|n IHn]; [by intros X o u w src info v size vt fs _ _ _ _ _ Hr|]. by apply copies_next. Qed.
End copies.
