(* ===== verification/HandlesRecord.v ===== *)
(** Records: objects in a block of the caller, which are read again wherever
    the bytes of the block are.  InterfaceFunctions.cc, Record.cc and Handle.cc
    (copyTargetToCurrentAllocationBlock). *)

From S2P Require Import Prelude Allocator AllocatorInv AllocatorOps AllocatorRefine Handles HandlesMem HandlesCopy.

Open Scope Z_scope.

Lemma wpx_finally {A} (m : MA A) (d : MA unit) Q E w :
  wpx m (fun a w' => wpx (_ <- d ;; mret a) Q E w') (fun e w' => wpx (_ <- d ;; throw e) Q E w') w ->
  wpx (finally m d) Q E w.
Proof. unfold wpx, finally. by destruct (m w). Qed.

(** ** A block of the caller for some time *)
Section user.
Context {T : Z -> list Z} {w : World} {st : list AllocatorState} {A : Arenas}.
Hypothesis H : related T w st A.
Notation b := (a_start (cur A)).

Definition in_user (p n : Z) : Arenas := enter_block p n true true (hold_cur A).

Lemma leave_held_ram w1 : leave (held_world (w := w) (A := A) None) = Ok tt w1 ->
  ram w1 = write_cell (b + 16) (W32 (refs (cur A) + 1)) (ram w).
Proof.
  destruct (cur_block H) as (E1 & _). pose proof (refs_bound _ _ _ (f_cur _ _ _ (proj2 H))) as Hr.
  unfold leave. destruct (_ && _); [|by intros [= <-]]. unfold retire, ALLOCATOR_REF_COUNT_of.
  intros (c & w2 & [Hc ->]%load32_inv & Hw)%bind_Ok_inv. simpl in Hc. rewrite E1, write_cell_eq in Hc. injection Hc as <-.
  rewrite (proj2 (Z.eqb_neq _ _)) in Hw by lia. by injection Hw as <-.
Qed.

Lemma enter_user p n : allowed A (RTempAt p n) -> exists w1, temporarilyUseUserBlock p n w = Ok (myState w) w1 /\
  holds (myState w :: st) (in_user p n) ∅ w1 /\
  forall x k, apart x k p HEADER_SIZE -> apart x k b HEADER_SIZE -> cells x k (ram w1) = cells x k (ram w).
Proof.
  intros (Hb & Hap & Hc). destruct (hold_spec H None) as (w2 & E2 & B2 & Es); [done|].
  exists (entered p n true true w2). split; [|split].
  - unfold temporarilyUseUserBlock. erewrite bind_Ok; [|exact (hold_run H)].
    erewrite bind_Ok; [|exact (setupUser_run p n true _ w2 Hb E2)]. done.
  - eexists. apply (enter_spec _ p n true true B2 Hb).
    + intros s a Hs. simpl in Hs. apply lookup_insert_Some in Hs as [[<- <-]|[_ Hs]]; [done|by eapply Hap].
    + rewrite Es. apply (state_chunks H).
    + done.
  - intros x k Hx Hk. unfold entered. simpl. rewrite (leave_held_ram w2 E2). unfold apart, HEADER_SIZE in *.
    rewrite !cells_write; [done|unfold apart; simpl; lia..].
Qed.

(** The block that was current is current again, as it was. *)
Lemma leave_user p n D w2 : holds (myState w :: st) (in_user p n) D w2 -> exists w3 c,
  restoreAllocationBlock (myState w) w2 = Ok tt w3 /\ (exists T', related T' w3 st A) /\
  ram w3 = write_cell (b + 16) (W32 c) (ram w2).
Proof.
  intros [T2 H2]. destruct (restore_spec H2 (myState w) st eq_refl) as (w3 & E & A' & Hs & Hr).
  assert (EA : A' = A).
  { inversion Hs as [| | | | | | | | | | |s t stk a Estk Ha B| | | | | | | | | | |]; subst. simpl in *.
    injection Estk as <- <- <-. rewrite lookup_insert_eq in Ha. injection Ha as <-.
    rewrite (delete_insert_id _ _ _ (cur_not_in H)). pose proof (f_not_held _ _ _ (proj2 H)) as Hh.
    clear -Hh. destruct A as [[] ? ? ? ? ?]. simpl in *. by subst. }
  subst A'. pose proof (proj1 (cur_block H)) as E1. pose proof (f_state _ _ _ (proj2 H2)) as (_ & _ & _ & Eu & _). simpl in Eu.
  assert (Hc : exists c, ram w3 = write_cell (b + 16) (W32 c) (ram w2)).
  { revert E. unfold restoreAllocationBlock. intros (w2' & ? & [= <- <-] & E)%bind_Ok_inv. cbv zeta in E. rewrite Eu in E.
    apply bind_Ok_inv in E as ([] & ? & [= <-] & ([] & ? & [= <-] & ([] & ? & [= <-] & E)%bind_Ok_inv)%bind_Ok_inv).
    apply count_writes in E as [c ->]. exists c. by rewrite <- E1. }
  destruct Hc as [c Hc]. exists w3, c. split; [done|]. split; [by eexists|done].
Qed.
End user.

(** ** Handles in the block *)
Section clients.
Context {Ty : Types} (HTy : types_ok Ty) {st : list AllocatorState} {A : Arenas}.
Hypothesis Hmode : mode A <> noReferenceCountAllocator.
Notation b := (a_start (cur A)).
Notation sz := (a_size (cur A)).
Notation holds := (holds st A).
Notation place := (place A).
Notation spot := (@spot A).
Notation kept_but := (@kept_but A).
Notation out_of_block := (@out_of_block A).
Notation source_of := (@source_of A).
Notation handle_post := (@handle_post Ty st A).
Notation handle_fail := (@handle_fail Ty st A).

(** A null handle. *)
Definition null_handle (m : memory) (h : Z) : Prop :=
  exists d i, m !! h = Some (W64 d) /\ i64 d = -1 /\ m !! (h + 8) = Some (W32 i).

Lemma null_same m m' h : cells h 12 m' = cells h 12 m -> null_handle m h -> null_handle m' h.
Proof.
  intros E (d & i & Hd & Hd1 & Hi). exists d, i. split; [eapply cells_word; [symmetry; exact E|done|lia|simpl; lia]|].
  split; [done|]. eapply cells_word; [symmetry; exact E|done|lia|simpl; lia].
Qed.
Lemma handle_same read m m' h : cells h 12 m' = cells h 12 m -> read_handle m read h = read_handle m' read h.
Proof.
  intros E. assert (E8 : forall k c, h <= k -> k + width c <= h + 12 -> m !! k = Some c <-> m' !! k = Some c).
  { intros k c ? ?. split; intros Hk; (eapply cells_word; [|exact Hk|done|done]); congruence. }
  assert (E1 : word64 m h = word64 m' h) by (apply option_eq; intros v; rewrite !word64_Some; apply E8; simpl; lia).
  assert (E2 : word32 m (h + 8) = word32 m' (h + 8)) by (apply option_eq; intros v; rewrite !word32_Some; apply E8; simpl; lia).
  unfold read_handle. by rewrite E1, E2.
Qed.
Lemma new_spec X h code w : holds X w -> spot X h ->
  exists w', Handle_new h code w = Ok tt w' /\ holds X w' /\ kept_but X h 12 w w' /\ null_handle (ram w') h.
Proof.
  intros H Hs. destruct (holds_spot X w h (W32 (u32 code)) (h + 8) H Hs) as [H1 K1]; [lia|simpl; lia|].
  set (w1 := set_ram (write_cell (h + 8) (W32 (u32 code))) w) in *.
  destruct (holds_spot X w1 h (W64 (u64 (-1))) h H1 Hs) as [H2 K2]; [lia|simpl; lia|].
  eexists. split; [reflexivity|]. split; [exact H2|]. split; [by eapply kept_but_trans|]. exists (u64 (-1)), (u32 code). simpl.
  split; [by rewrite write_cell_eq|]. split; [done|]. apply write_cell_keeps; [|simpl; lia]. by rewrite write_cell_eq.
Qed.
Lemma null_destroy n h w : null_handle (ram w) h -> Handle_destroy Ty n h w = Ok tt w.
Proof. intros (d & i & Hd & E & _). unfold Handle_destroy, destroy_Handle. erewrite bind_Ok; [|by apply null_run]. by rewrite E. Qed.

Lemma read_handle_ref read m h info v : read_handle m read h = Some (VRef info v) -> exists d i,
  m !! h = Some (W64 d) /\ m !! (h + 8) = Some (W32 i) /\ i64 d <> -1 /\ i32 i = info /\ read (h + i64 d) info = Some v.
Proof.
  unfold read_handle. intros (d & Hd & (i & Hi & Hv)%bind_Some)%bind_Some. exists d, i.
  split; [by apply word64_Some|]. split; [by apply word32_Some|]. destruct (Z.eqb_spec (i64 d) (-1)); [done|]. split; [done|].
  by apply fmap_Some in Hv as (u & Hu & [= -> ->]).
Qed.
Lemma handle_read_ref read m h d i v : m !! h = Some (W64 d) -> m !! (h + 8) = Some (W32 i) -> i64 d <> -1 ->
  read (h + i64 d) (i32 i) = Some v -> read_handle m read h = Some (VRef (i32 i) v).
Proof.
  intros Hd Hi Hne Hv. unfold read_handle. rewrite (proj2 (word64_Some _ _ _) Hd). simpl.
  rewrite (proj2 (word32_Some _ _ _) Hi). simpl. by rewrite (proj2 (Z.eqb_neq _ _) Hne), Hv.
Qed.

(** A handle to an object out of the block, whose class is the handle's own:
    the new handle leads to a copy in the block. *)
Lemma copyTarget_spec n X ret h code w info size vt fs v : holds X w -> spot X ret -> place X h 12 -> apart ret 12 h 12 ->
  shape Ty info = Some (size, vt, fs) ->
  read_handle (ram w) (read_object Ty (source_of ret) (ram w) n) h = Some (VRef info v) ->
  wpx (copyTargetToCurrentAllocationBlock Ty n ret h code size)
    (fun _ w' => handle_post n X ret w (VRef info v) w') (fun e w' => e = NotEnoughSpace /\ handle_fail n X ret w w') w.
Proof.
  intros H Hs Hpl Hap Hsh Hr. apply read_handle_ref in Hr as (d & i & Hd & Hi & Hne & Hinfo & Hv).
  destruct (source_shape HTy _ _ _ _ _ _ Hv) as (Hout & _). destruct (shape_ok _ _ _ _ _ HTy Hsh) as [_ Hsz].
  unfold copyTargetToCurrentAllocationBlock. apply wpx_bind. eapply wpx_eq; [by apply target_run|].
  apply wpx_bind. eapply wpx_eq; [by apply (contains_out _ _ H)|]. cbn iota.
  destruct (new_spec X ret code w H Hs) as (w0 & E0 & H0 & K0 & d0 & j0 & Hd0 & Hd1 & Hj0). apply wpx_bind. eapply wpx_eq; [exact E0|].
  apply wpx_bind. eapply wpx_mono; [apply (space_for X ret w0 d0 j0 size H0 Hs Hd0 Hj0 Hsz)| |].
  2: { intros e w' [-> ->]. split; [done|]. eapply handle_fail_after; [exact K0|]. by apply (fail_null n X ret w0 d0 j0 w0 H0). }
  intros p w1 [[-> ->]|(Hp & Hnone & Ep & E3 & H3 & K3 & Hhp & Hh3 & Hj3 & Hc3)].
  { destruct (holds_spot X w0 ret (W64 (u64 (-1))) ret H0 Hs) as [H2 K2]; [lia|simpl; lia|].
    unfold wpx, bind. simpl. split; [done|]. eapply handle_fail_after; [exact K0|].
    eapply (fail_null n X ret w0 (u64 (-1)) j0); [exact H2|exact K2|apply write_cell_eq|done|].
    by apply write_cell_keeps; [|simpl; lia]. }
  rewrite (proj2 (Z.eqb_neq _ _)) by done. apply wpx_bind. eapply wpx_eq; [reflexivity|]. apply wpx_bind.
  eapply wpx_eq; [apply target_run; apply write_cell_eq|]. rewrite Ep. apply wpx_bind. eapply wpx_eq; [exact E3|].
  set (w3 := set_ram (write_cell p (W32 1)) _) in *. set (m := REF_COUNT_PREAMBLE_SIZE + size) in *.
  assert (K03 : kept_but X ret 12 w w3) by (by eapply kept_but_trans).
  assert (Hi3 : ram w3 !! (h + 8) = Some (W32 i)).
  { eapply cells_word; [symmetry; apply (K03 h 12); [done|unfold apart in *; lia]|done|lia|simpl; lia]. }
  apply wpx_bind. eapply wpx_eq; [by apply info_run|]. rewrite Hinfo.
  destruct (holds_spot (<[p := m]> X) w3 ret (W32 (u32 info)) (ret + 8) H3) as [H4 K4];
    [eapply spot_more; [|exact Hs]; by apply insert_subseteq|lia|simpl; lia|].
  apply wpx_bind. eapply wpx_eq; [reflexivity|]. set (w4 := set_ram (write_cell (ret + 8) (W32 (u32 info))) w3) in *.
  assert (K04 : kept_but X ret 12 w w4).
  { eapply kept_but_trans; [|exact K03|exact K4]. by apply insert_subseteq. }
  eapply (copy_into_spec HTy Hmode n (copies_all HTy Hmode n) X ret w w4 p (u32 info) info size vt fs); try done.
  - apply write_cell_keeps; [done|]. simpl. lia.
  - apply write_cell_eq.
  - by rewrite i32_u32, <- Hinfo, i32_i32.
  - apply write_cell_keeps; [done|]. unfold apart, m, REF_COUNT_PREAMBLE_SIZE in Hhp. simpl. lia.
  - apply (source_out HTy ret). eapply source_kept; [done|exact K04|exact Hv].
  - intros w5 E1 E2 _. erewrite bind_Ok; [|by apply target_run]. by rewrite Ep.
Qed.

(** The count of an object changes, and no value does. *)
Lemma count_step X w o u c : holds X w -> X !! o = Some u -> 4 <= u -> let w' := set_ram (write_cell o (W32 c)) w in
  holds X w' /\ kept_but ∅ o 4 w w' /\
  forall n q i v, read_object Ty (in_objs X) (ram w) n q i = Some v -> read_object Ty (in_objs X) (ram w') n q i = Some v.
Proof.
  intros H Ho Hu. split; [|split].
  - apply (holds_over _ _ H o 4); [apply (store_at o (W32 c))|]. left. exists o, u. split; [done|lia].
  - intros x k _ Ha. by apply cells_write.
  - intros n q i v. apply (read_object_same HTy); [|done]. intros x k Hx. split; [done|]. symmetry. apply cells_write.
    unfold in_objs in Hx. destruct (X !! (x - REF_COUNT_PREAMBLE_SIZE)) as [r|] eqn:Er; [|done]. apply Z.leb_le in Hx.
    unfold apart, REF_COUNT_PREAMBLE_SIZE in *. simpl. destruct (decide (x - 4 = o)) as [<-|Hne]; [lia|].
    pose proof (apart_objs _ _ H _ _ _ _ Er Ho Hne) as Ha. unfold apart in Ha. lia.
Qed.

(** Assignment to a null handle of one that leads to an object in the block. *)
Lemma assign_near dec copy X h temp w d i o u c : holds X w -> spot X temp -> 0 < temp < 2 ^ 63 -> apart h 12 temp 12 ->
  null_handle (ram w) temp -> ram w !! h = Some (W64 d) -> ram w !! (h + 8) = Some (W32 i) -> i64 d <> -1 -> h + i64 d = o ->
  X !! o = Some u -> ram w !! o = Some (W32 c) -> 4 <= u -> apart o u temp 12 ->
  assign Ty dec copy temp h w =
    Ok tt (set_ram (write_cell o (W32 (u32 (c + 1)))) (set_ram (write_cell temp (W64 (u64 (o - temp))))
      (set_ram (write_cell (temp + 8) (W32 (u32 (i32 i)))) w))).
Proof.
  intros H Hst Htr Hap (dt & it & Hdt & Hdt1 & Hit) Hd Hi Hne Eo Ho Hc Hu Hot.
  pose proof (inside_block _ _ H o u Ho) as (Hb1 & Hb2 & Hb3). pose proof (block_bounds _ _ H) as (Hbb & Hbe & _).
  destruct (holds_spot X w temp (W32 (u32 (i32 i))) (temp + 8) H Hst) as [H1 _]; [lia|simpl; lia|].
  set (w1 := set_ram (write_cell (temp + 8) (W32 (u32 (i32 i)))) w) in *.
  destruct (holds_spot X w1 temp (W64 (u64 (o - temp))) temp H1 Hst) as [H2 _]; [lia|simpl; lia|].
  set (w2 := set_ram (write_cell temp (W64 (u64 (o - temp)))) w1) in *.
  unfold assign, GET_OLD_TARGET. rewrite bind_assoc. erewrite bind_Ok; [|by apply null_run]. rewrite Hdt1. simpl.
  rewrite bind_assoc. erewrite bind_Ok; [|reflexivity]. rewrite bind_assoc.
  erewrite bind_Ok; [|by apply info_run]. erewrite bind_Ok; [|reflexivity]. erewrite bind_Ok; [|by apply null_run].
  rewrite (proj2 (Z.eqb_neq _ _) Hne). erewrite bind_Ok; [|by apply info_run]. erewrite bind_Ok; [|reflexivity]. fold w1.
  erewrite bind_Ok; [|apply target_run; apply write_cell_keeps; [exact Hd|unfold apart in Hap; simpl; lia]]. rewrite Eo.
  unfold must_copy. rewrite bind_assoc. erewrite bind_Ok; [|apply (contains_in _ _ H1); lia].
  erewrite bind_Ok; [|reflexivity]. cbn iota. unfold point_to. rewrite bind_assoc. erewrite bind_Ok; [|reflexivity]. fold w2.
  rewrite bind_assoc. erewrite bind_Ok; [|apply target_run; apply write_cell_eq].
  rewrite i64_u64 by lia. replace (temp + (o - temp)) with o by lia.
  unfold incRefCount. rewrite bind_assoc. erewrite bind_Ok; [|by apply (managed_obj _ _ H2 o u)]. unfold add_copies.
  cbn iota. rewrite bind_assoc. erewrite bind_Ok; [|apply load32_run]; [done|].
  unfold apart in Hot. apply write_cell_keeps; [apply write_cell_keeps; [done|]|]; simpl; lia.
Qed.

(** A handle is destroyed that is not the last one. *)
Lemma destroy_shared n X h w d i o u c : holds X w -> ram w !! h = Some (W64 d) -> ram w !! (h + 8) = Some (W32 i) ->
  i64 d <> -1 -> h + i64 d = o -> X !! o = Some u -> ram w !! o = Some (W32 c) -> u32 (c - 1) <> 0 ->
  Handle_destroy Ty (Datatypes.S n) h w = Ok tt (set_ram (write_cell o (W32 (u32 (c - 1)))) w).
Proof.
  intros H Hd Hi Hne Eo Ho Hc Hc1. unfold Handle_destroy, destroy_Handle. erewrite bind_Ok; [|by apply null_run].
  rewrite (proj2 (Z.eqb_neq _ _) Hne). cbn iota. erewrite bind_Ok; [|by apply target_run]. rewrite Eo.
  erewrite bind_Ok; [|by apply (managed_obj _ _ H o u)]. cbn iota. erewrite bind_Ok; [|by apply info_run]. simpl.
  erewrite bind_Ok; [|by apply (managed_obj _ _ H o u)]. cbn iota. unfold add_copies. rewrite bind_assoc.
  erewrite bind_Ok; [|by apply load32_run]. erewrite bind_Ok; [|reflexivity].
  erewrite bind_Ok; [|apply load32_run; apply write_cell_eq]. change (c + -1) with (c - 1).
  by rewrite (proj2 (Z.eqb_neq _ _) Hc1).
Qed.

(** A handle is assigned to a null one out of the block, and then destroyed:
    the other one leads to the object now, whose count is 1 again. *)
Lemma hand_over n D h temp w info v : holds D w -> spot ∅ h -> spot ∅ temp -> apart h 12 temp 12 -> null_handle (ram w) temp ->
  owned_handle (owned (Ty := Ty) n (ram w)) (ram w) D h ->
  read_handle (ram w) (read_object Ty (in_objs D) (ram w) n) h = Some (VRef info v) ->
  exists w' o d j, finally (assign Ty (decRefCount Ty n) (setUpAndCopyFromConstituentObject Ty n) temp h) (Handle_destroy Ty n h) w = Ok tt w' /\
    holds D w' /\ kept_but ∅ temp 12 w w' /\ is_Some (D !! o) /\
    ram w' !! temp = Some (W64 d) /\ ram w' !! (temp + 8) = Some (W32 j) /\ temp + i64 d = o /\ i64 d <> -1 /\
    read_object Ty (in_objs D) (ram w') n o info = Some v.
Proof.
  intros H Hs Hst Hap (dt & it & Hdt & Hdt1 & Hit) (dh' & ih' & Hdh' & Hih' & Hown) Hr.
  apply read_handle_ref in Hr as (d & i & Hd & Hi & Hne & Hinfo & Hv). rewrite Hd in Hdh'. injection Hdh' as <-.
  rewrite Hi in Hih'. injection Hih' as <-. destruct Hown as [[? _]|[_ Hown]]; [done|]. rewrite Hinfo in Hown.
  set (o := h + i64 d) in *. destruct n as [|n]; [done|]. pose proof Hown as (u & D' & size & vt & fs & Hsh & Hu & Hc & HD' & ED & _).
  destruct (shape_ok _ _ _ _ _ HTy Hsh) as [_ Hsz]. unfold REF_COUNT_PREAMBLE_SIZE in Hu.
  assert (Ho : D !! o = Some u) by (rewrite ED; apply lookup_insert_eq). assert (Hu4 : 4 <= u) by lia.
  pose proof (inside_block _ _ H o u Ho) as (Hb1 & Hb2 & Hb3).
  assert (Hfar : forall X x, holds X x -> X !! o = Some u -> forall y, spot ∅ y -> apart o u y 12).
  { intros X x HX HXo y [(q & r & Hq & _)|[[Ha _] _]]; [by rewrite lookup_empty in Hq|].
    pose proof (inside_block _ _ HX o u HXo). unfold apart in *. lia. }
  pose proof (Hfar D w H Ho h Hs) as Hoh. pose proof (Hfar D w H Ho temp Hst) as Hot.
  pose proof (block_bounds _ _ H) as (Hbb & Hbe & _).
  assert (Htr : 0 < temp < 2 ^ 63) by (destruct Hst as [(q & r & Hq & _)|?]; [by rewrite lookup_empty in Hq|lia]).
  (* the words that change *)
  assert (HstD : spot D temp) by (eapply spot_more; [|exact Hst]; apply map_empty_subseteq).
  destruct (holds_spot D w temp (W32 (u32 info)) (temp + 8) H HstD) as [H1 K1]; [lia|simpl; lia|].
  set (w1 := set_ram (write_cell (temp + 8) (W32 (u32 info))) w) in *.
  destruct (holds_spot D w1 temp (W64 (u64 (o - temp))) temp H1 HstD) as [H2 K2]; [lia|simpl; lia|].
  set (w2 := set_ram (write_cell temp (W64 (u64 (o - temp)))) w1) in *.
  assert (K02 : kept_but D temp 12 w w2) by (by eapply kept_but_trans).
  destruct (count_step D w2 o u 2 H2 Ho Hu4) as (H3 & K3 & R3). set (w3 := set_ram (write_cell o (W32 2)) w2) in *.
  destruct (count_step D w3 o u 1 H3 Ho Hu4) as (H4 & K4 & R4). set (w4 := set_ram (write_cell o (W32 1)) w3) in *.
  assert (Hc2 : ram w2 !! o = Some (W32 1)).
  { eapply cells_word; [symmetry; apply (K02 o u); [by apply place_whole|done]|exact Hc|lia|simpl; lia]. }
  assert (Hph : forall k c, h <= k -> k + width c <= h + 12 -> ram w !! k = Some c -> ram w2 !! k = Some c /\ ram w3 !! k = Some c).
  { intros k c ? ? Hk. assert (H2k : ram w2 !! k = Some c).
    { eapply cells_word; [symmetry; apply (K02 h 12); [apply spot_place; eapply spot_more; [|exact Hs]; apply map_empty_subseteq|done]|exact Hk|done|done]. }
    split; [done|]. apply write_cell_keeps; [done|]. unfold apart in Hoh. simpl. lia. }
  assert (Ed : i64 (u64 (o - temp)) = o - temp) by (apply i64_u64; lia).
  assert (Ht2 : ram w2 !! temp = Some (W64 (u64 (o - temp)))) by apply write_cell_eq.
  assert (Ht2' : ram w2 !! (temp + 8) = Some (W32 (u32 info))) by (apply write_cell_keeps; [apply write_cell_eq|simpl; lia]).
  exists w4, o, (u64 (o - temp)), (u32 info). split.
  { assert (Ea : assign Ty (decRefCount Ty (Datatypes.S n)) (setUpAndCopyFromConstituentObject Ty (Datatypes.S n)) temp h w = Ok tt w3).
    { rewrite (assign_near _ _ D h temp w d i o u 1); try done; [by rewrite Hinfo|by exists dt, it]. }
    unfold finally. rewrite Ea. erewrite bind_Ok; [reflexivity|]. rewrite (destroy_shared n D h w3 d i o u 2); try done.
    - by apply (Hph h (W64 d)); [lia|simpl; lia|].
    - by apply (Hph (h + 8) (W32 i)); [lia|simpl; lia|].
    - apply write_cell_eq. }
  split; [done|]. split; [|split; [by exists u|]].
  - intros x k Hx Ha. assert (Hxo : apart x k o 4).
    { destruct Hx as [Hx|(q & r & Hq & _)]; [|by rewrite lookup_empty in Hq]. unfold apart in *. lia. }
    rewrite (K4 x k Hx Hxo), (K3 x k Hx Hxo). apply K02; [|done]. eapply place_more; [|exact Hx]. apply map_empty_subseteq.
  - assert (Hw : forall k c, temp <= k -> k + width c <= temp + 12 -> ram w2 !! k = Some c -> ram w4 !! k = Some c).
    { intros k c ? ? Hk. unfold apart in Hot. apply write_cell_keeps; [apply write_cell_keeps; [done|]|]; simpl; lia. }
    split; [apply Hw; [lia|simpl; lia|done]|]. split; [apply Hw; [lia|simpl; lia|done]|]. rewrite Ed. split; [lia|].
    split; [unfold apart in Hot; lia|]. apply R4, R3. revert Hv. apply (read_object_same HTy); [|done].
    intros x k Hx. split; [done|]. symmetry. unfold in_objs in Hx. destruct (D !! (x - REF_COUNT_PREAMBLE_SIZE)) as [r|] eqn:Er; [|done].
    apply Z.leb_le in Hx. pose proof (inside_block _ _ H _ _ Er). unfold REF_COUNT_PREAMBLE_SIZE in *.
    apply K02; [right; exists (x - 4), r; split; [done|lia]|].
    destruct Hst as [(q & y & Hq & _)|[[Ha _] _]]; [by rewrite lookup_empty in Hq|]. unfold apart in *. lia.
Qed.
End clients.

(** ** Reading records *)

(** Objects in [used] bytes from [q] on. *)
Definition inside (q used x k : Z) : bool := (q <=? x) && (x + k <=? q + used).

Lemma holds_used {st A X w} : holds st A X w -> exists used, ram w !! a_start (cur A) = Some (W64 used) /\
  HEADER_SIZE <= used <= a_size (cur A) /\
  forall o u, X !! o = Some u -> a_start (cur A) + HEADER_SIZE <= o /\ o + u <= a_start (cur A) + used.
Proof.
  intros [T [_ F]]. pose proof (f_cur _ _ _ F) as Hok. simpl in Hok. set (tiles := T _) in *.
  pose proof (total_nonneg _ (ok_tiles _ _ _ Hok)). pose proof (ok_used _ _ _ Hok). simpl in *.
  exists (HEADER_SIZE + total_size tiles). split; [apply Hok|]. split; [lia|]. intros o u Ho.
  destruct (ok_objs _ _ _ Hok o u Ho) as (? & s & Hl & ?). apply layout_inside in Hl as (_ & ? & ?); [|apply Hok].
  simpl in *. lia.
Qed.

Section reading.
Context {Ty : Types} (HTy : types_ok Ty).

(** [record w p used] with these bytes leads to [v] wherever they are. *)
Definition is_record (n : nat) (w : World) (p used info : Z) (v : value) : Prop :=
  forall q ret, 0 < q -> q + used < 2 ^ 63 -> 0 < ret < 2 ^ 63 -> apart ret 12 q used ->
  exists w', getRootObject ret info q (set_ram (move_bytes p q used) w) = Ok tt w' /\
    read_handle (ram w') (read_object Ty (inside q used) (ram w') n) ret = Some (VRef info v).

Lemma read_size {D m n o u i v} : read_object Ty (in_objs D) m n o i = Some v -> D !! o = Some u -> REF_COUNT_PREAMBLE_SIZE <= u.
Proof.
  destruct n as [|n]; [done|]. simpl. destruct (shape Ty i) as [[[size vt] fs]|] eqn:E; [|done]. simpl. intros Hv Ho.
  destruct (shape_ok _ _ _ _ _ HTy E) as [_ ?]. unfold in_objs at 1 in Hv.
  replace (getObject o - REF_COUNT_PREAMBLE_SIZE) with o in Hv by (unfold getObject; lia). rewrite Ho in Hv.
  destruct (Z.leb_spec (REF_COUNT_PREAMBLE_SIZE + size) u); [lia|done].
Qed.
Lemma root_is_record {n w p used o info v D} : ram w !! (p + 8) = Some (W64 (u64 (o - p))) -> is_Some (D !! o) ->
  i32 info = info -> 0 < p -> p + used < 2 ^ 63 -> HEADER_SIZE <= used ->
  (forall q u, D !! q = Some u -> p + HEADER_SIZE <= q /\ 0 < u /\ q + u <= p + used) ->
  read_object Ty (in_objs D) (ram w) n o info = Some v -> is_record n w p used info v.
Proof.
  intros Hroot [u Ho] Hinfo Hp Hpe Hused HD Hv q ret Hq Hqe Hret Hap. pose proof (HD o u Ho) as (Ho1 & Ho2 & Ho3).
  unfold HEADER_SIZE in *. set (m := move_bytes p q used (ram w)).
  assert (Hroot' : m !! (q + 8) = Some (W64 (u64 (o - p)))).
  { unfold m. replace (q + 8) with (q + (p + 8 - p)) by lia. apply move_word; [done|lia|simpl; lia]. }
  unfold getRootObject, rootObjectOffset. erewrite bind_Ok; [|by apply load64_run]. erewrite bind_Ok; [|reflexivity].
  assert (Eoff : u64 (o - p) = o - p) by (apply wrapu_small; lia). rewrite Eoff. eexists. split; [reflexivity|]. simpl.
  set (r := q + (o - p) - ret). assert (Er : i64 (u64 r) = r) by (apply i64_u64; unfold r; lia).
  assert (Hr : ret + r = o + (q - p)) by (unfold r; lia).
  rewrite <- Hinfo at 3. rewrite <- (i32_u32 info). eapply handle_read_ref.
  - by rewrite write_cell_eq.
  - apply write_cell_keeps; [|simpl; lia]. apply write_cell_keeps; [|simpl; lia]. by rewrite write_cell_eq.
  - rewrite Er. pose proof (read_size Hv Ho). unfold r, apart, REF_COUNT_PREAMBLE_SIZE in *. lia.
  - rewrite Er, Hr, i32_u32, Hinfo. eapply (read_object_moved HTy (d := q - p)); [|done|exact Hv].
    intros x k Hx. unfold in_objs in Hx. destruct (D !! (x - REF_COUNT_PREAMBLE_SIZE)) as [z|] eqn:Ez; [|done]. apply Z.leb_le in Hx.
    pose proof (HD _ _ Ez). unfold REF_COUNT_PREAMBLE_SIZE in *. split.
    { unfold inside. rewrite andb_true_iff, !Z.leb_le. lia. }
    transitivity (content (x + (q - p)) k m).
    + unfold m. replace (x + (q - p)) with (q + (x - p)) by lia. rewrite content_move by lia. by replace (p + (x - p)) with x by lia.
    + symmetry. apply content_same. unfold apart in Hap.
      rewrite !cells_write; [done|unfold apart; simpl; lia..].
Qed.
End reading.

Section records.
Context {Ty : Types} (HTy : types_ok Ty) {T : Z -> list Z} {w : World} {st : list AllocatorState} {A : Arenas}.
Hypothesis H : related T w st A.
Hypothesis Hmode : mode A <> noReferenceCountAllocator.
Context (p n : Z) (Hal : allowed A (RTempAt p n)).
Notation B := (in_user (A := A) p n).
Notation heldB := (holds (myState w :: st) B).

(** A local variable of the caller. *)
Definition local_at (h : Z) : Prop :=
  apart h 12 p n /\ apart h 12 (a_start (cur A)) (a_size (cur A)) /\ apart_from A h 12 /\ 0 < h /\ h + 12 < 2 ^ 63.

Lemma local_spot h : local_at h -> @spot B ∅ h.
Proof.
  intros (H1 & H2 & H3 & H4). right. split; [|done]. split; [done|]. intros s a Hs. simpl in Hs.
  apply lookup_insert_Some in Hs as [[_ <-]|[_ Hs]]; [done|by eapply H3].
Qed.

Lemma root_run D o w1 : heldB D w1 -> is_Some (D !! o) -> let w2 := set_ram (write_cell (p + 8) (W64 (u64 (o - p)))) w1 in
  getAllocationBlock o w1 = Ok p w2 /\ heldB D w2.
Proof.
  intros H1 [u Ho]. pose proof (inside_block _ _ H1 o u Ho) as Hin. simpl in Hin. pose proof (holds_block _ _ H1) as [E _]. simpl in E.
  split.
  - unfold getAllocationBlock. erewrite bind_Ok; [|reflexivity]. pose proof (contains_in _ _ H1 o) as Hc. simpl in Hc.
    unfold contains in Hc. erewrite bind_Ok in Hc; [|reflexivity]. injection (Hc ltac:(lia)) as ->. cbv zeta. rewrite E. reflexivity.
  - destruct H1 as [T1 H1]. exists T1. apply (root_related H1 (cur (with_objs D B))). by left.
Qed.

(** What is in the caller's block is not managed when the block is left. *)
Lemma left_unmanaged T' w' o : related T' w' st A -> p < o < p + n -> isManaged o w' = Ok false w'.
Proof.
  intros Hr Ho. destruct Hal as (Hb & Hap & Hc). assert (Hu : unmanaged A o).
  { split; [unfold apart in Hc; lia|]. intros s a Hs. specialize (Hap s a Hs). unfold apart in Hap. lia. }
  destruct (find_un Hr o Hu) as [E1 E2]. unfold isManaged. erewrite bind_Ok; [|exact E1]. cbn iota. by erewrite bind_Ok; [|exact E2].
Qed.

(** ** Making records *)

Context (temp copied : Z) (Htemp : local_at temp) (Hcopied : local_at copied) (Htc : apart temp 12 copied 12).

(** Bytes that making the record does not touch. *)
Definition beside (x k : Z) : Prop :=
  apart x k p n /\ apart x k temp 12 /\ apart x k copied 12 /\ apart x k (a_start (cur A)) HEADER_SIZE.
Definition untouched (w' : World) : Prop := forall x k, beside x k -> cells x k (ram w') = cells x k (ram w).
(** All is as it was in the blocks and out of them. *)
Definition restored (w' : World) : Prop := (exists T', related T' w' st A) /\ untouched w'.

Lemma kept_beside D h w1 w2 x k : h = temp \/ h = copied -> @kept_but B D h 12 w1 w2 -> beside x k -> cells x k (ram w2) = cells x k (ram w1).
Proof. intros Hh K (H1 & H2 & H3 & _). apply K; [left; exact H1|by destruct Hh as [->| ->]]. Qed.

(** The end: the block is left, and the local handle is destroyed. *)
Lemma give_back D w1 : heldB D w1 -> untouched w1 -> exists w2, restoreAllocationBlock (myState w) w1 = Ok tt w2 /\ restored w2 /\
  forall x k, apart x k (a_start (cur A)) HEADER_SIZE -> cells x k (ram w2) = cells x k (ram w1).
Proof.
  intros H1 U1. destruct (leave_user H p n D w1 H1) as (w2 & c & E & Hr & Em).
  assert (K : forall x k, apart x k (a_start (cur A)) HEADER_SIZE -> cells x k (ram w2) = cells x k (ram w1)).
  { intros x k Hx. rewrite Em. apply cells_write. unfold apart, HEADER_SIZE in *. simpl. lia. }
  exists w2. split; [done|]. split; [|done]. split; [done|]. intros x k Hx. rewrite (K x k) by apply Hx. by apply U1.
Qed.
Lemma temp_header : apart temp 12 (a_start (cur A)) HEADER_SIZE.
Proof.
  destruct Htemp as (_ & Ha & _). pose proof (ok_size _ _ _ (f_cur _ _ _ (proj2 H))). unfold apart, HEADER_SIZE in *. lia.
Qed.

Section making.
Context {k : nat} {forMe info size : Z} {vt : option Z} {fs : list field} {v : value}.
Context (Hsh : shape Ty info = Some (size, vt, fs)).

(** The copy fails: nothing is left of it. *)
Lemma record_failed w1 w2 : heldB ∅ w1 -> untouched w1 -> null_handle (ram w1) temp -> @handle_fail Ty (myState w :: st) B k ∅ copied w1 w2 ->
  wpx (_ <- restoreAllocationBlock (myState w) ;; @throw World unit NotEnoughSpace) (fun _ _ => False)
    (fun e w' => e = NotEnoughSpace /\ Handle_destroy Ty k temp w' = Ok tt w' /\ restored w') w2.
Proof.
  intros H1 U1 N1 (H2 & K2 & _). destruct (give_back ∅ w2 H2) as (w3 & E3 & R3 & K3).
  { intros x j Hx. rewrite (kept_beside ∅ copied w1 w2 x j) by (done || by right). by apply U1. }
  apply wpx_bind. eapply wpx_eq; [exact E3|]. apply wpx_throw. split; [done|]. split; [|done].
  apply null_destroy. eapply null_same; [|exact N1]. rewrite (K3 _ _ temp_header). apply K2; [left; apply Htemp|done].
Qed.

(** The copy is there: its block is a record. *)
Lemma record_made w1 w2 : heldB ∅ w1 -> untouched w1 -> null_handle (ram w1) temp -> i32 info = info ->
  @handle_post Ty (myState w :: st) B k ∅ copied w1 (VRef info v) w2 ->
  wpx (finally (assign Ty (decRefCount Ty k) (setUpAndCopyFromConstituentObject Ty k) temp copied) (Handle_destroy Ty k copied))
    (fun _ w' => wpx (o <- getTarget temp ;; res <- getAllocationBlock o ;; _ <- restoreAllocationBlock (myState w) ;; mret res)
      (fun r w'' => r = p /\ Handle_destroy Ty k temp w'' = Ok tt w'' /\ restored w'' /\
        exists used, numBytes_of p w'' = Ok used w'' /\ used <= n /\ is_record (Ty := Ty) k w'' p used info v)
      (fun _ _ => False) w') (fun _ _ => False) w2.
Proof.
  intros H1 U1 N1 Hinfo (D & _ & H2 & K2 & Hown & Hread). rewrite map_empty_union in H2.
  pose proof (local_spot _ Htemp) as Hst. pose proof (local_spot _ Hcopied) as Hsc.
  destruct (hand_over HTy (st := myState w :: st) (A := B) k D copied temp w2 info v) as (w3 & o & d & j & E3 & H3 & K3 & Ho & Hd & Hj & Eo & Hne & Hv); try done.
  { unfold apart in *. lia. }
  { eapply null_same; [|exact N1]. apply K2; [by apply spot_place|done]. }
  eapply wpx_eq; [exact E3|]. apply wpx_bind. eapply wpx_eq; [by apply target_run|]. rewrite Eo.
  destruct (root_run D o w3 H3 Ho) as [E4 H4]. set (w4 := set_ram (write_cell (p + 8) (W64 (u64 (o - p)))) w3) in *.
  apply wpx_bind. eapply wpx_eq; [exact E4|].
  pose proof Ho as [u Hu]. pose proof (inside_block _ _ H4 o u Hu) as Hin. simpl in Hin.
  assert (Hw4 : forall x l, apart x l (p + 8) 8 -> cells x l (ram w4) = cells x l (ram w3)) by (intros; by apply cells_write).
  destruct (give_back D w4 H4) as (w5 & E5 & R5 & K5).
  { intros x l Hx. pose proof Hx as (Hp & _). rewrite Hw4 by (unfold apart in *; lia).
    rewrite (kept_beside ∅ temp w2 w3 x l) by (done || by left). rewrite (kept_beside ∅ copied w1 w2 x l) by (done || by right). by apply U1. }
  apply wpx_bind. eapply wpx_eq; [exact E5|]. apply wpx_mret. split; [done|].
  destruct Hal as (Hb & Hap & Hc). pose proof (ok_size _ _ _ (f_cur _ _ _ (proj2 H))) as Hsz.
  assert (Hcell : forall x c, p <= x -> x + width c <= p + n -> ram w4 !! x = Some c -> ram w5 !! x = Some c).
  { intros x c ? ? Hx. eapply (cells_word p n); [symmetry; apply K5|exact Hx|done|done]. unfold apart in *. lia. }
  assert (Hhead : forall x c, temp <= x -> x + width c <= temp + 12 -> ram w3 !! x = Some c -> ram w5 !! x = Some c).
  { intros x c ? ? Hx. eapply (cells_word temp 12); [symmetry; rewrite (K5 _ _ temp_header); apply Hw4|exact Hx|done|done].
    destruct Htemp as (Hpt & _). unfold apart in *. lia. }
  split; [|split; [done|]].
  - unfold Handle_destroy, destroy_Handle. erewrite bind_Ok; [|apply null_run; apply (Hhead temp (W64 d)); simpl; (lia || done)].
    rewrite (proj2 (Z.eqb_neq _ _) Hne). cbn iota.
    erewrite bind_Ok; [|apply target_run; apply (Hhead temp (W64 d)); simpl; (lia || done)]. rewrite Eo.
    destruct R5 as [[T5 R5] _]. erewrite bind_Ok; [|eapply left_unmanaged; [exact R5|lia]]. done.
  - destruct (holds_used H4) as (used & Hused & Hle & Hobj). simpl in Hused, Hle, Hobj. unfold HEADER_SIZE in *.
    exists used. split; [apply load64_run, Hcell; simpl; (lia || done)|]. split; [lia|].
    destruct Hb as (Hp1 & Hp2 & _). eapply (root_is_record HTy (D := D)).
    + apply Hcell; [lia|simpl; lia|]. apply write_cell_eq.
    + by exists u.
    + done.
    + done.
    + lia.
    + unfold HEADER_SIZE. lia.
    + intros q z Hq. pose proof (Hobj q z Hq). pose proof (inside_block _ _ H4 q z Hq). unfold HEADER_SIZE. simpl in *. lia.
    + revert Hv. apply (read_object_same HTy); [|done]. intros x l Hx. split; [done|]. unfold in_objs in Hx.
      destruct (D !! (x - REF_COUNT_PREAMBLE_SIZE)) as [z|] eqn:Ez; [|done]. apply Z.leb_le in Hx.
      pose proof (inside_block _ _ H4 _ _ Ez) as Hiz. simpl in Hiz. unfold REF_COUNT_PREAMBLE_SIZE in *.
      rewrite K5, Hw4; [done|unfold apart in *; lia|unfold apart in *; lia].
Qed.
End making.
End records.
