(* ===== verification/HandlesCases.v ===== *)
(** What clients of handles can rely on, runs, and what goes wrong outside of
    that.  objectModel/headers/Handle.cc, InterfaceFunctions.cc and Record.cc. *)

From S2P Require Import Prelude Allocator AllocatorInv AllocatorRefine AllocatorCases Handles HandlesMem HandlesCopy HandlesRecord.

Open Scope Z_scope.

(** ** What clients can rely on *)

(** The allocator's state fits the arenas [A]. *)
Definition standing (w : World) (st : list AllocatorState) (A : Arenas) : Prop := exists T, related T w st A.

Lemma same_objects A : with_objs (objs (cur A)) A = A.
Proof. by destruct A as [[] ? ? ? ? ?]. Qed.
Lemma standing_holds {w st A} : standing w st A <-> holds st A (objs (cur A)) w.
Proof. unfold standing, holds. by rewrite same_objects. Qed.

Lemma owned_nothing {Ty n m h} : owned_handle (owned (Ty := Ty) n m) m ∅ h -> null_handle m h.
Proof.
  intros (d & i & Hd & Hi & Hc). exists d, i. split; [done|]. split; [|done]. destruct Hc as [[? _]|[_ Ho]]; [done|].
  destruct n as [|n]; [done|]. destruct Ho as (u & D' & size & vt & fs & _ & _ & _ & _ & E & _).
  symmetry in E. by apply insert_non_empty in E.
Qed.

Lemma read_handle_info {read m h info v} : read_handle m read h = Some (VRef info v) -> i32 info = info.
Proof. intros (d & i & _ & _ & _ & <- & _)%read_handle_ref. apply i32_i32. Qed.

(** C16: A handle in an object of the current block must not lead out of it:
    when it is assigned a handle to objects that are not in the block, it gets
    copies of all of them, down through members and strings; they are new
    objects of the block with the same values, and nothing else changes.  When
    the handle is destroyed then, they are all freed, and the block has the
    objects it had.  If there is no space for all, none is left, and the handle
    is null. *)
Theorem assignment_copies_deeply (Ty : Types) (w : World) (st : list AllocatorState) (A : Arenas) (n : nat) (h from o u : Z) (v : value) :
  types_ok Ty -> standing w st A -> mode A <> noReferenceCountAllocator ->
  objs (cur A) !! o = Some u -> REF_COUNT_PREAMBLE_SIZE + o <= h -> h + 12 <= o + u -> null_handle (ram w) h ->
  apart from 12 h 12 -> read_handle (ram w) (read_object Ty (@source_of A h) (ram w) n) from = Some v ->
  let X := objs (cur A) in
  wpx (assign Ty (decRefCount Ty n) (setUpAndCopyFromConstituentObject Ty n) h from)
    (fun _ w' => (exists D, D ##ₘ X /\ standing w' st (with_objs (X ∪ D) A) /\
         read_handle (ram w') (read_object Ty (in_objs D) (ram w') n) h = Some v) /\ @kept_but A X h 12 w w' /\
       exists w'', Handle_destroy Ty n h w' = Ok tt w'' /\ standing w'' st A /\ @kept_but A X h 12 w w'')
    (fun e w' => e = NotEnoughSpace /\ standing w' st A /\ @kept_but A X h 12 w w' /\ null_handle (ram w') h) w.
Proof.
  intros HTy H Hmode Ho Hh1 Hh2 (d & j & Hd & Hd1 & Hj) Hap Hr X. apply standing_holds in H.
  pose proof (inside_block _ _ H o u Ho). unfold REF_COUNT_PREAMBLE_SIZE in Hh1.
  eapply wpx_mono; [apply (assign_fresh HTy Hmode n (copies_all HTy Hmode n) X h w d j from v H)|..]; try done.
  - left. exists o, u. unfold REF_COUNT_PREAMBLE_SIZE. split; [done|lia].
  - apply (contains_in _ _ H). lia.
  - intros [] w' (D & Hdj & H' & K & Hown & Hv). split; [by exists D|]. split; [done|].
    destruct (destroy_handle_spec (st := st) (A := A) n (decRefCount_owned HTy Hmode n) D h (X ∪ D) w') as (w'' & E & H'' & K'');
      [done|done|by apply map_union_subseteq_r|].
    assert (EX : (X ∪ D) ∖ D = X).
    { apply map_eq. intros q. apply option_eq. intros x. rewrite lookup_difference_Some, lookup_union_Some by done. split.
      - intros [[?|Hq] Hn]; [done|]. congruence.
      - intros Hq. split; [by left|]. by eapply map_disjoint_Some_r. }
    rewrite EX in H'', K''. exists w''. split; [done|]. split; [by apply standing_holds|].
    intros x k Hx Hxa. rewrite (K'' x k Hx). by apply K.
  - intros e w' [-> (H' & K & Hown)]. split; [done|]. split; [by apply standing_holds|]. split; [done|by eapply owned_nothing].
Qed.


(** ** A state with objects *)

(** A class with 8 plain bytes, a string and a handle, one that is derived from
    it and larger, and one with a single handle. *)
Definition node : Class := mkClass 56 7000 [Plain 8 8; Str 16; Member 32 20].
Definition node2 : Class := mkClass 96 7100 [Plain 8 8; Str 16; Member 32 20; Plain 48 48].
Definition pair : Class := mkClass 40 7200 [Member 8 20; Member 24 20].
Definition some_types : Types :=
  mkTypes (fun i => if i =? 20 then Some node else if i =? 21 then Some node2 else if i =? 22 then Some pair else None)
    (fun v => if v =? 7000 then Some node else None) 2 3 4.
Lemma some_types_ok : types_ok some_types.
Proof.
  split; [|simpl; lia]. intros i c. simpl. repeat case_match; intros [= <-]; (split; [simpl; lia|]); unfold MAX_OBJECT; simpl; lia.
Qed.

(** Out of all blocks, from 100 on: a handle at 100 to a node at 1000, with a
    long string whose 6 bytes are at 1200, and a handle to a node at 1300, with
    a short string and a null handle. *)
Definition source_words : memory := list_to_map [
  (100, W64 900); (108, W32 20);
  (1000, W32 5); (1004, W64 7000); (1012, W64 11); (1020, W64 180); (1028, W32 (u32 (-6))); (1036, W64 264); (1044, W32 20);
  (1200, W32 1); (1204, W32 77);
  (1300, W32 1); (1304, W64 7000); (1312, W64 12); (1320, W64 97); (1328, W32 1); (1336, W64 (u64 (-1))); (1344, W32 20)].
Definition write_words (ws : memory) (w : World) : World := set_ram (fun m => clobber 100 3900 m ∪ ws) w.
(** The allocator is as [rs] have left it. *)
Definition a_world (rs : list request) : World := write_words source_words (world_after rs).1.

Lemma words_standing ws {w st A} : standing w st A -> outside A 100 3900 -> standing (write_words ws w) st A.
Proof.
  intros H Ho. apply standing_holds. apply (holds_over _ _ (proj1 standing_holds H) 100 3900); [|by right].
  intros m. by apply map_union_subseteq_l.
Qed.
Lemma first_standing : standing (world_after []).1 [] (first_arenas 4096 1024).
Proof. eapply (new_related 4096 1024); [unfold block_size, HEADER_SIZE; lia|]. vm_compute. reflexivity. Qed.
Lemma one_standing : standing (world_after [RGet 10]).1 [] one_object.
Proof. exact (reached_related _ _ reached_one). Qed.
Lemma one_outside A : a_start (cur A) = 4096 -> others A = ∅ -> outside A 100 3900.
Proof. intros E1 E2. split; [left; lia|]. intros s a Hs. by rewrite E2, lookup_empty in Hs. Qed.

Definition read_at (w : World) (h : Z) : option value := read_target some_types (fun _ _ => true) (ram w) 5 h.
Definition the_value : value :=
  let bytes := fun v => VBytes {[ 0 := W64 v ]} in
  VRef 20 (VObject [bytes 11; VRef (-6) (VObject [VBytes {[0 := W32 77]}]); VRef 20 (VObject [bytes 12; VShort 97 1; VNull])]).


(** ** Runs *)

(** An object and all it leads to, copied to a record of 164 bytes at 8192,
    which is moved to 20000. *)
Example a_record :
  match getRecord_in some_types 5 3200 3220 100 20 56 8192 512 (a_world []) with
  | Ok record w =>
      record = 8192 /\ numBytes_of record w = Ok 164 w /\
      let there := set_ram (fun m => clobber 8192 512 (move_bytes 8192 20000 164 m)) w in
      match getRootObject 3300 20 20000 there with
      | Ok _ w' => read_at (a_world []) 100 = Some the_value /\ read_at w' 3300 = Some the_value
      | _ => False
      end
  | _ => False
  end.
Proof. vm_compute. repeat split. Qed.

(** The objects of the current block. *)
Definition live (w : World) : option Z :=
  match getNumObjectsInCurrentAllocatorBlock w with Ok n _ => Some n | _ => None end.
(** A handle at 4130, in an object of the block, is assigned the node: three
    objects come, and go when it is destroyed. *)
Example copied_and_destroyed :
  let w := set_ram (fun m => list_to_map [(4130, W64 (u64 (-1))); (4138, W32 20)] ∪ m) (a_world [RGet 60]) in
  match assign some_types (decRefCount some_types 5) (setUpAndCopyFromConstituentObject some_types 5) 4130 100 w with
  | Ok _ w' => live w' = Some 4 /\ read_at w' 4130 = Some the_value /\
      match Handle_destroy some_types 5 4130 w' with Ok _ w'' => live w'' = Some 1 | _ => False end
  | _ => False
  end.
Proof. vm_compute. repeat split. Qed.

(** ** What goes wrong *)

(** The type information is assigned before there is space for the copy: when
    getRAM throws, the handle still leads to its old target, an array of 8
    bytes, and takes it for a node.  It is destroyed as one. *)
Example failed_assignment_confuses_types :
  let w := set_ram (fun m => list_to_map [(4130, W64 54); (4138, W32 (u32 (-8))); (4184, W32 1)] ∪ m)
             (a_world [RGet 60; RGet 12; RGet 900]) in
  match assign some_types (decRefCount some_types 5) (setUpAndCopyFromConstituentObject some_types 5) 4130 100 w with
  | Raise e w' => e = NotEnoughSpace /\ getTarget 4130 w' = Ok 4184 w' /\
      getExactTypeInfoValue 4130 w = Ok (-8) w /\ getExactTypeInfoValue 4130 w' = Ok 20 w' /\
      (exists w'', Handle_destroy some_types 5 4130 w = Ok tt w'') /\
      Handle_destroy some_types 5 4130 w' = Fault InvalidRead
  | _ => False
  end.
Proof. vm_compute. repeat split. by eexists. Qed.

(** [copyTargetToCurrentAllocationBlock] has space for the class of the handle,
    but copies an object of the class the object has: a larger one is copied
    over what comes behind, here the objects of its own members. *)
Definition member (i : nat) (v : option value) : option value :=
  match v with Some (VRef _ (VObject fs)) => fs !! i | _ => None end.
Example copy_of_a_derived_class_overruns :
  let w := set_ram (fun m => list_to_map [(108, W32 21); (1052, W64 1); (1060, W64 2); (1068, W64 3)] ∪ m) (a_world []) in
  match copyTargetToCurrentAllocationBlock some_types 5 3220 100 20 56 w with
  | Ok _ w' =>
      member 1 (read_at w 100) = Some (VRef (-6) (VObject [VBytes {[0 := W32 77]}])) /\
      member 1 (read_at w' 3220) = Some (VRef (-6) (VObject [VBytes ∅])) /\
      Handle_destroy some_types 5 3220 w' = Fault InvalidRead
  | _ => False
  end.
Proof. vm_compute. repeat split. Qed.

(** [unsafeCast] of a null handle: the offset -1 is moved as if it were a
    distance, and the new handle is not null. *)
Example unsafeCast_of_null :
  let w := set_ram (fun m => list_to_map [(3000, W64 (u64 (-1))); (3008, W32 20)] ∪ m) (a_world []) in
  isNullPtr 3000 w = Ok true w /\
  match unsafeCast 3100 20 3000 w with
  | Ok _ w' => isNullPtr 3100 w' = Ok false w' /\ getTarget 3100 w' = Ok 2999 w'
  | _ => False
  end.
Proof. vm_compute. repeat split. Qed.

(** [getHandle] gives the object back when there is no space for its members,
    but not the members that were copied before. *)
Example getHandle_leaks :
  let w := set_ram (fun m => list_to_map
             [(2000, W32 1); (2004, W64 7200); (2012, W64 (u64 (-712))); (2020, W32 20); (2028, W64 (u64 (-728))); (2036, W32 20)] ∪ m)
             (a_world [RMakeAt 8192 150 true]) in
  live w = Some 0 /\
  match getHandle some_types 5 pair 22 2004 w with
  | Raise e w' => e = NotEnoughSpace /\ live w' = Some 1
  | _ => False
  end.
Proof. vm_compute. repeat split. Qed.

(** ** The theorems at a state *)

Definition readable (x k : Z) : bool := (200 <=? x - 4) && (x + k <=? 3000).


(** A block with an object of 60 bytes, where there is a null handle. *)
Definition a_holder : Arenas := with_objs {[4120 := 60]} (first_arenas 4096 1024).
Lemma reached_holder : reached (world_after [RGet 60]) a_holder.
Proof.
  eapply (ReachedServe (world_after []) (first_arenas 4096 1024) (RGet 60) 4120).
  - eapply ReachedNew; [unfold block_size, HEADER_SIZE; lia|]. vm_compute. reflexivity.
  - simpl. lia.
  - vm_compute. reflexivity.
  - apply (AGet (first_arenas 4096 1024) 60 4120); unfold HEADER_SIZE, CHUNK_HEADER_SIZE; simpl; [lia|lia|].
    intros o v Ho. by rewrite lookup_empty in Ho.
Qed.
Definition holder_world : World :=
  set_ram (write_cell 4138 (W32 20)) (set_ram (write_cell 4130 (W64 (u64 (-1)))) (a_world [RGet 60])).
Lemma holder_standing : standing holder_world [] a_holder.
Proof.
  assert (H0 : standing (a_world [RGet 60]) [] a_holder).
  { apply words_standing; [exact (reached_related _ _ reached_holder)|by apply one_outside]. }
  apply standing_holds. apply standing_holds in H0.
  assert (Hin : forall x k, 4120 <= x -> x + k <= 4180 -> (exists o u, objs (cur a_holder) !! o = Some u /\ o <= x /\ x + k <= o + u) \/ outside a_holder x k).
  { intros x k ? ?. left. exists 4120, 60. split; [reflexivity|]. lia. }
  apply (fun H => holds_over _ _ H 4138 4 (write_cell 4138 (W32 20)) (store_at 4138 (W32 20)) (Hin 4138 4 ltac:(lia) ltac:(lia))).
  exact (holds_over _ _ H0 4130 8 (write_cell 4130 (W64 (u64 (-1)))) (store_at 4130 (W64 _)) (Hin 4130 8 ltac:(lia) ltac:(lia))).
Qed.

Lemma assignment_copies_deeply_witness :
  let X := objs (cur a_holder) in
  types_ok some_types /\ standing holder_world [] a_holder /\ X !! 4120 = Some 60 /\ null_handle (ram holder_world) 4130 /\
  wpx (assign some_types (decRefCount some_types 5) (setUpAndCopyFromConstituentObject some_types 5) 4130 100)
    (fun _ w' => (exists D, D ##ₘ X /\ standing w' [] (with_objs (X ∪ D) a_holder) /\
         read_handle (ram w') (read_object some_types (in_objs D) (ram w') 5) 4130 = Some the_value) /\
       @kept_but a_holder X 4130 12 holder_world w' /\
       exists w'', Handle_destroy some_types 5 4130 w' = Ok tt w'' /\ standing w'' [] a_holder /\
         @kept_but a_holder X 4130 12 holder_world w'')
    (fun e w' => e = NotEnoughSpace /\ standing w' [] a_holder /\ @kept_but a_holder X 4130 12 holder_world w' /\
       null_handle (ram w') 4130) holder_world.
Proof.
  intros X. assert (HN : null_handle (ram holder_world) 4130).
  { exists (u64 (-1)), 20. split; [vm_compute; reflexivity|]. split; vm_compute; reflexivity. }
  split; [exact some_types_ok|]. split; [exact holder_standing|]. split; [reflexivity|]. split; [exact HN|].
  apply (assignment_copies_deeply some_types holder_world [] a_holder 5 4130 100 4120 60 the_value some_types_ok holder_standing);
    [done|reflexivity|unfold REF_COUNT_PREAMBLE_SIZE; lia|lia|exact HN|unfold apart; lia|vm_compute; reflexivity].
Defined.
